(* ===== verification/_CoqProject ===== *)
-Q . S2P
Prelude.v
Sys.v
Rdwrn.v
ReadLine.v
ErrorFns.v
GetNum.v
Printing.v
Sockets.v
Seqnum.v
Shell.v
ShellRun.v
Getopt.v
Userns.v
AclText.v
Acl.v
PidFile.v
Daemon.v
Bpf.v
Seccomp.v
SeccompTools.v
SvmsgFile.v
Cmsg.v
Environ.v
SeccompNotify.v
Copy.v
Scm.v
Pty.v
ProcTree.v
Broadcast.v
Tail.v
BinarySems.v
SvshmXfr.v
Monitor.v
Dict.v
SeekIo.v
Coprocess.v
Threads.v
Procexec.v
Sigs.v
Sync.v
Queues.v
ProcFs.v
UserExe.v
TtyName.v
Pipes.v
MapFiles.v
ErrorDetect.v
Attrs.v
SemOps.v
Locking.v
Barrier.v
SimpleInit.v
NsCapable.v
Epoll.v
SelectMq.v
Clone.v
EpollFork.v
Echo.v
CaseChange.v
DictLookup.v
DictNet.v
InotifyCache.v
InotifyTree.v
InotifyEvents.v
Watcher.v
InotifyMain.v
