(* ===== verification/Prelude.v ===== *)
(** A verification of programs of Linux-Programming: exercises and homework of
    a course on system programming in C (homework/, quiz/), and the programs
    and the library of "The Linux Programming Interface" they build on
    (tlpi-book/).

    * How C is modelled

    Prelude.v (this file) has C strings (lists of [ascii], without their
    terminator), machine integers (integers, wrapped where the code's types
    wrap), printf's numbers, and the tactics used throughout.

    Sys.v has processes.  A program is a function in the monad [M S]: [S] is
    the type of its static variables, and with them go [errno] and the trace of
    what the process did.  A program meets the kernel only by system calls
    ([sys]); what they reply is an argument, the class [os], any function of
    the history and the call.  A theorem over all [os] is thus a theorem over
    all behaviours of the system, of other processes and of the user; a
    hypothesis on [os] states what a manual page promises.  A run returns
    ([Ret]), stops ([Stop]: exit, abort, exec, a signal, or [Undefined] where
    the C standard leaves the behaviour open), or runs out of fuel ([NoFuel]).
    [wp m Q E s] is total correctness: [m] returns and [Q] holds, or stops and
    [E] holds; so a theorem with [wp] also says that the program ends.  [wlp]
    is for servers, which do not end: it asks for an invariant whenever the
    fuel runs out, however much there was.

    Loops of C are [loop] with fuel.  Where a theorem has the fuel as an
    argument it names the bound that suffices (the length of the text, the
    number of chunks, of interruptions, of turns asked for), and [loop_more_fuel]
    says that more fuel changes nothing.  Theorems with [wlp] hold for every
    fuel.

    Programs that run concurrently on shared state (PidFile.v, SvshmXfr.v,
    Monitor.v, Broadcast.v, Threads.v, Sync.v, Sigs.v, Barrier.v) are transition
    systems: an executable step function per process or thread with a program
    counter, a step relation that interleaves them (and, where the program has
    handlers, delivers signals between any two steps), invariants by induction
    over reachable states, and a measure or a next step where they must end.

    * The parts

    The library, tlpi-book/lib:
    - Rdwrn.v: [readn], [writen] (rdwrn.c);
    - ReadLine.v: [readLine] (read_line.c), [readLineBuf] (read_line_buf.c);
    - ErrorFns.v: [errMsg], [errExit], [fatal], ... (error_functions.c);
    - GetNum.v: [getInt], [getLong] (get_num.c), over strtol(3);
    - Printing.v: the text of permissions, wait statuses, signal sets and
      limits, and times from their text (file_perms.c, print_wait_status.c,
      signal_functions.c, print_rlimit.c, itimerspec_from_str.c);
    - Sockets.v: [inetConnect], [inetListen], [unixConnect], ...
      (inet_sockets.c, unix_sockets.c);
    - BinarySems.v: [reserveSem], [waitForEventFlag], ... (binary_sems.c,
      event_flags.c);
    - PidFile.v: [lockRegion], [createPidFile], ... (region_locking.c,
      create_pid_file.c);
    - Daemon.v: [becomeDaemon] (become_daemon.c);
    - Cmsg.v: descriptors and credentials in control messages
      (sockets/scm_functions.c), for the programs of Scm.v.

    Programs of the book:
    - Copy.v, SeekIo.v, Attrs.v, Locking.v: copy.c and the transfers of
      sockets/us_xfr*.c, fileio/seek_io.c, files/chiflag.c, filelock/
      i_fcntl_locking.c;
    - Environ.v, UserExe.v, TtyName.v: proc/setenv.c, the processes of a user
      (sysinfo/procfs_user_exe.c), tty/ttyname.c;
    - Procexec.v: procexec/execlp.c, system.c, simple_system.c, and popen of
      homework/hw6;
    - Clone.v: procexec/demo_clone.c;
    - Sigs.v: signals/sig_speed_sigsuspend.c, the System V signal functions,
      and homework/hw7;
    - Threads.v, Sync.v, Barrier.v: threads/, the counters with and without a
      mutex, the producers and the consumer, one-time initialisation, joining,
      the barrier, with the hand-over of quiz4;
    - Seqnum.v: the servers of sequence numbers and their clients
      (sockets/is_seqnum_sv.c, is_seqnum_cl.c; pipes/fifo_seqnum_server.c,
      fifo_seqnum_client.c);
    - Echo.v, CaseChange.v, Scm.v: the echo service over TCP and UDP, the
      servers and filters that change case, the programs that pass descriptors
      and credentials (sockets/, pipes/);
    - Pty.v: pty/, with tty_functions.c, pty_fork.c and pty_master_open.c of lib/;
    - Bpf.v, Seccomp.v, SeccompTools.v, SeccompNotify.v: the programs of
      seccomp/.  Bpf.v gives the machine that runs classic BPF, the filters and
      their policies; the other files are the programs that install them, dump
      and load them, and the tracer that answers for a process;
    - Epoll.v, EpollFork.v, SelectMq.v: altio/epoll_input.c, epoll_flags_fork.c
      and select_mq.c;
    - SvshmXfr.v: the reader and the writer of svshm/;
    - SvmsgFile.v: the file server and its client over message queues
      (svmsg/svmsg_file_server.c, svmsg_file_client.c);
    - SemOps.v: svsem/svsem_op.c and lib/curr_time.c;
    - AclText.v, Acl.v: acl/acl_update.c and acl_view.c, over a library of
      access control lists of which what its manual pages promise is assumed;
    - Getopt.v, Userns.v, SimpleInit.v, NsCapable.v: getopt(3), and the programs of
      namespaces/ that start a command in a new user namespace
      (userns_child_exec.c, userns_functions.c), that serve as the init of a
      PID namespace (simple_init.c) and that tell what a process may do in a
      namespace (ns_capable.c);
    - InotifyCache.v, InotifyTree.v, InotifyEvents.v, InotifyMain.v:
      inotify/inotify_dtree.c, which keeps a cache of the watched directories
      of whole trees in step with what happens to them.

    Homework and quizzes:
    - Shell.v, ShellRun.v: the shell of homework/hw5/5-2, its parser, built-in
      commands, redirections, pipelines and main loop;
    - Dict.v, DictLookup.v, DictNet.v: the dictionary of homework/hw5/5-3 and
      homework/hw11, one main program over six versions of lookup (files,
      binary search, Unix, Internet and datagram sockets) and the servers;
    - Copy.v, Tail.v: cp and tee of hw1, tail of hw2;
    - ProcFs.v, ProcTree.v: hw4, walks of /proc: the processes of a user, those
      that have a file open, and the tree of all;
    - Pipes.v, Queues.v, MapFiles.v: hw6 6-1 and hw8 44-7, the adding servers of
      hw8 46-2 and hw9 52-3, the mapped files of hw9 49-1 and quiz1;
    - Broadcast.v: hw10, a broadcast through shared memory and signals;
    - Watcher.v: hw12, a watch on a tree of directories;
    - ErrorDetect.v, Monitor.v, Coprocess.v: quiz2, the stack shared by
      processes of quiz3, the coprocess that adds of quiz5.

    Definitions have the names of the C functions; where a function is cut into
    several definitions, or several programs have a function of one name, each
    definition says what it stands for.

    * What is shown

    - Library functions do what their comments say, over descriptors that give
      or take any number of bytes at a time and calls that are interrupted:
      [Rdwrn.readn_correct], [Rdwrn.writen_correct], [ReadLine.readLine_correct],
      [ReadLine.readLineBuf_correct], [BinarySems.reserveSem_correct]; numbers
      are accepted exactly when they are in range ([GetNum.getInt_correct],
      [GetNum.getLong_roundtrip]); errors are reported and descriptors given
      back on every path ([ErrorFns.error_exits_correct],
      [Sockets.inetConnect_correct], [Sockets.inetPassiveSocket_correct],
      [Sockets.unix_sockets_correct]); of any number of processes one at most
      holds a PID file ([PidFile.createPidFile_exclusive]); what comes out of
      becomeDaemon is a daemon ([Daemon.becomeDaemon_correct]).
    - Files: copies are whole or fail ([Copy.copy_programs_correct],
      [MapFiles.cp_correct], [MapFiles.quiz1_correct]), a session of seek_io is
      one on a file with an offset ([SeekIo.seek_io_refines]), tail prints the
      last lines ([Tail.tail_correct]), chiflag sets the flags it is asked to
      ([Attrs.chiflag_correct]), and the lock tester asks for the locks it is
      told to ([Locking.locking_correct]).
    - The environment is a map ([Environ.setenv_correct]); execlp searches PATH
      ([Procexec.execlp_correct]); system and popen give their child the
      signals and descriptors it should have, and wait for it
      ([Procexec.system_correct], [Procexec.popen_main_correct]).
    - /proc and /dev: which processes are listed and how they hang together
      ([ProcFs.user_process_correct], [ProcFs.get_all_correct],
      [ProcTree.sortNode_correct], [UserExe.user_exe_correct]), the name of a
      terminal ([TtyName.ttyname_correct]), the sessions on pseudoterminals
      ([Pty.terminal_programs_correct]).
    - Access control lists: the text of entries is read as the usage says
      ([AclText.parseACL_correct]), and each entry updates the list of each file
      as a map ([Acl.acl_update_correct]).
    - Servers: what they grant or answer over any sequence of clients, requests
      and failures ([Seqnum.is_seqnum_sv_correct], [Seqnum.fifo_server_correct],
      [DictNet.stream_servers_correct], [DictNet.udp_server_correct],
      [Echo.echo_servers_correct], [SvmsgFile.file_server_correct],
      [Queues.servers_add], [Pipes.nonblocking_server_correct]), and clients
      ([Seqnum.fifo_client_correct]); what goes through them arrives whole
      ([Echo.echo_roundtrip], [SvmsgFile.file_transfer_correct],
      [Scm.scm_multi_transfer]), or in upper case
      ([CaseChange.change_case_correct], [Pipes.to_upper_correct]); the
      coprocess adds ([Coprocess.quiz5_sums]).
    - Namespaces: the options are taken as the usage says
      ([Userns.parse_command_options_correct]), and the child runs its command
      only after its parent has written the maps
      ([Userns.userns_child_exec_correct]); init reaps every child that has
      changed state, and runs each command of its input in a child
      ([SimpleInit.child_handler_correct], [SimpleInit.run_child_correct],
      [SimpleInit.init_session_correct]); the verdict on a process and a
      namespace is that of user_namespaces(7) ([NsCapable.ns_capable_correct]);
      what clone shares is reported ([Clone.demo_clone_correct]).
    - Waiting for several files: everything that each gives is read, in order,
      and each is closed once ([Epoll.epoll_input_correct]); the FIFO is
      registered once, with the flags asked for
      ([EpollFork.epoll_flags_fork_correct]); messages come through the pipe
      whole ([SelectMq.select_mq_correct], [SelectMq.child_copies]).
    - The versions of the dictionary are implementations of one interface,
      [Dict.Dictionary]; the main program is proved against it, so over a
      server it prints what it prints over the file ([DictNet.versions_agree],
      [DictLookup.lookup5_main_correct]); what convert.c writes is found again
      ([DictLookup.convert_lookup1_roundtrip]).
    - Concurrency: the monitor refines a stack and never blocks inside
      ([Monitor.monitor_correct]), the program around it ends exactly when its
      operations are possible ([Monitor.process_main_correct]); the transfer
      through shared memory loses nothing and does not deadlock
      ([SvshmXfr.transfer_safe], [SvshmXfr.transfer_live]); no unit and no
      wake-up is lost between producers and consumer
      ([Threads.Units.prod_correct]), and the counter under a mutex counts
      everything ([Threads.Incr.thread_incr_correct]); [Sync.Once.once_correct],
      [Sync.Reaper.multijoin_correct], [Sync.Handoff.handoff_correct],
      [Barrier.barrier_correct]; signals: [Broadcast.broadcast_correct],
      [Sigs.Speed.exchange_correct], [Sigs.SystemV.systemV_correct],
      [ErrorDetect.error_detect_correct].
    - The operations on a semaphore set are those their text denotes
      ([SemOps.parseOps_roundtrip], [SemOps.svsem_op_correct]).
    - Filters decide every system call as their policy says
      ([Bpf.control_open_correct] and the like), and the programs that run under
      them do what their output claims ([Seccomp.control_open_main_correct],
      [Seccomp.arg64_main_correct], [Seccomp.multiarch_main_correct],
      [SeccompNotify.tracer_correct], [SeccompTools.dump_launch_roundtrip]).
    - The shell: a command line is split into its words
      ([Shell.parse_correct]); every process of a pipeline has its ends of the
      pipes and no other ([ShellRun.pipe_and_exec_correct]);
      [ShellRun.run_command_correct], [Shell.bi_pwd_correct].
    - The watch cache is a finite map, each operation and each event acts on it
      as specified, and the cache stays well formed through any events, commands
      and failures (the Inotify theorems, [InotifyMain.main_invariant]); the
      watch of hw12 follows the directories that come and go
      ([Watcher.watch_correct]).

    What modelling showed to be wrong in the code is kept as examples and in
    theorems that state what happens instead: a definition taken for the sign
    of absence ([DictNet.sentinel_not_found]), a lost wake-up of the monitor
    ([Monitor.wakeup_lost]), a miss that closes the dictionary
    ([DictLookup.lookup1_closed]), and others.

    * What is not modelled

    - The rest of tlpi-book/: programs that make one call after the other and
      print the results (filesys, memalloc, mmap, procpri, psem, pshm, timers,
      ...); those that print tables of processes, limits or records; those that
      only call libraries that are not part of the repository (cap,
      libseccomp); programs whose outcome is left open on purpose (races after
      fork, longjmp into a frame that is gone).
    - Copies: the directories of tlpi-book/ and homework/ contain copies of
      tlpi-book/lib and of programs of the book; one of each is modelled.  The
      templates of the homework, with blanks to fill in, are not.
    - Signal handlers that interrupt a program between two statements, except
      in the files on signals and processes named above, and as EINTR replies
      elsewhere (so quiz1/modify.c, whose outcome depends on where its handler
      runs, is left out); buffering by stdio, except as the order of output.
    - Allocation of strings and of nodes is taken to succeed where the code does
      not look at the result; the pthread calls that the threads make on
      mutexes and conditions are taken to succeed.
    - Generated code: ename.c.inc is a parameter of [os]. *)
From stdpp Require Export base tactics list numbers strings gmap.
From Stdlib Require Export ZArith Lia Ascii.

Open Scope Z_scope.

(** ** Characters and C strings

    A C [char] is an [ascii]; a C string is the list of the characters before
    its terminator, a buffer is the list of its characters, terminators
    included. *)

Abbreviation cstr := (list ascii).

Definition str (s : string) : cstr := String.list_ascii_of_string s.
Arguments str _%_string.

Definition NUL : ascii := Ascii.zero.
Definition NL : ascii := ascii_of_nat 10.
Definition TAB : ascii := ascii_of_nat 9.
Definition DQ : ascii := ascii_of_nat 34.     (* the double quote *)

Definition code (c : ascii) : Z := Z.of_N (N_of_ascii c).
Definition chr (z : Z) : ascii := ascii_of_N (Z.to_N (z mod 256)).

(** The text a [char *] denotes: the characters before the first NUL. *)
Fixpoint c_str (buf : cstr) : cstr :=
  match buf with
  | [] => []
  | c :: r => if decide (c = NUL) then [] else c :: c_str r
  end.

Definition strlen (s : cstr) : Z := Z.of_nat (length s).
Definition streq (a b : cstr) : bool := bool_decide (a = b).

(** [strchr], as the pair of the text before and the text after the first
    occurrence; the C pointer is the start of the second, less one. *)
Fixpoint strchr (c : ascii) (s : cstr) : option (cstr * cstr) :=
  match s with
  | [] => None
  | d :: r =>
      if decide (d = c) then Some ([], r)
      else '(b, a) ← strchr c r; Some (d :: b, a)
  end.

(** [strncmp (p, s, strlen p) == 0]. *)
Fixpoint has_prefix (p s : cstr) : bool :=
  match p, s with
  | [], _ => true
  | c :: p, d :: s => bool_decide (c = d) && has_prefix p s
  | _ :: _, [] => false
  end.

(** [snprintf (buf, n, ...)]: what the buffer holds as a string, for [n > 0]. *)
Definition snprintf (n : Z) (text : cstr) : cstr := take (Z.to_nat (n - 1)) text.

(** [strncpy (dst, src, n)]: the characters of the array read back as a string
    (with no terminator when [src] has [n] characters or more). *)
Definition strncpy (n : Z) (src : cstr) : cstr := take (Z.to_nat n) src.

(** ** Machine integers *)

Definition wrap_u (w z : Z) : Z := z mod 2 ^ w.
Definition wrap_s (w z : Z) : Z := (z + 2 ^ (w - 1)) mod 2 ^ w - 2 ^ (w - 1).

Definition INT_MAX : Z := 2147483647.
Definition INT_MIN : Z := -2147483648.
Definition LONG_MAX : Z := 9223372036854775807.
Definition LONG_MIN : Z := -9223372036854775808.

(** [flags & mask], as a condition. *)
Definition tst (flags mask : Z) : bool := negb (Z.land flags mask =? 0).

(** ** Decimal text, as printf's %d and %ld print it *)

Definition digit (d : Z) : ascii := chr (48 + d).

Fixpoint dec_go (fuel : nat) (n : Z) (acc : cstr) : cstr :=
  match fuel with
  | O => acc
  | S fuel =>
      let acc := digit (n mod 10) :: acc in
      if n <? 10 then acc else dec_go fuel (n / 10) acc
  end.

Definition dec_nat (n : Z) : cstr := dec_go (S (Z.to_nat (Z.log2 n))) n [].

Definition dec (n : Z) : cstr :=
  if n <? 0 then "-"%char :: dec_nat (- n) else dec_nat n.

(** Hexadecimal digits, for %x and %02x. *)
Definition hexdigit (d : Z) : ascii := if d <? 10 then chr (48 + d) else chr (87 + d).

Fixpoint hex_go (fuel : nat) (n : Z) (acc : cstr) : cstr :=
  match fuel with
  | O => acc
  | S fuel =>
      let acc := hexdigit (n mod 16) :: acc in
      if n <? 16 then acc else hex_go fuel (n / 16) acc
  end.

Definition hex (n : Z) : cstr := hex_go (S (Z.to_nat (Z.log2 n))) n [].

(** Octal digits, for %o. *)
Fixpoint oct_go (fuel : nat) (n : Z) (acc : cstr) : cstr :=
  match fuel with
  | O => acc
  | S fuel =>
      let acc := digit (n mod 8) :: acc in
      if n <? 8 then acc else oct_go fuel (n / 8) acc
  end.

Definition oct (n : Z) : cstr := oct_go (S (Z.to_nat (Z.log2 n))) n [].

(** Padding on the left to a field width (printf's %4d). *)
Definition pad_left (w : nat) (c : ascii) (s : cstr) : cstr :=
  replicate (w - length s) c ++ s.

(** ** Little-endian integers in memory *)

Fixpoint le (bs : cstr) : Z :=
  match bs with
  | [] => 0
  | b :: bs => code b + 256 * le bs
  end.

Definition le16 (z : Z) : cstr := [chr z; chr (z / 256)].
Definition le32 (z : Z) : cstr := [chr z; chr (z / 256); chr (z / 65536); chr (z / 16777216)].

Definition le64 (z : Z) : cstr := le32 z ++ le32 (z / 4294967296).

(** ** Automation

    [cases] splits on the tests of the goal and of the hypotheses, [goon] also
    closes what arithmetic or contradiction can close. *)

Create HintDb cprog.

Ltac cases := repeat (case_match; simplify_eq/=).
Ltac goon := try solve [ done | lia | congruence | eauto with cprog ].
Ltac bools :=
  repeat match goal with
  | H : bool_decide _ = true |- _ => apply bool_decide_eq_true in H
  | H : bool_decide _ = false |- _ => apply bool_decide_eq_false in H
  | H : (_ && _)%bool = true |- _ => apply andb_true_iff in H as [? ?]
  | H : (_ || _)%bool = false |- _ => apply orb_false_iff in H as [? ?]
  | H : negb _ = true |- _ => apply negb_true_iff in H
  | H : negb _ = false |- _ => apply negb_false_iff in H
  | H : (_ <? _) = true |- _ => apply Z.ltb_lt in H
  | H : (_ <? _) = false |- _ => apply Z.ltb_ge in H
  | H : (_ <=? _) = true |- _ => apply Z.leb_le in H
  | H : (_ <=? _) = false |- _ => apply Z.leb_gt in H
  | H : (_ =? _) = true |- _ => apply Z.eqb_eq in H
  | H : (_ =? _) = false |- _ => apply Z.eqb_neq in H
  end.

(** ** Lemmas on characters, strings and integers *)

#[export] Instance ascii_eq_dec : EqDecision ascii := ascii_dec.

Lemma streq_true a b : streq a b = true ↔ a = b.
Proof. unfold streq. apply bool_decide_eq_true. Qed.

Lemma streq_false a b : streq a b = false ↔ a ≠ b.
Proof. unfold streq. apply bool_decide_eq_false. Qed.

Lemma has_prefix_spec p s : has_prefix p s = true ↔ p `prefix_of` s.
Proof.
  revert s; induction p as [|c p IH]; intros s; simpl.
  { split; [intros _; apply prefix_nil|done]. }
  destruct s as [|d s].
  { split; [done|]. intros [k Hk]. done. }
  rewrite andb_true_iff, bool_decide_eq_true, IH. split.
  - intros [-> H]. by apply prefix_cons.
  - intros H. split; [by eapply prefix_cons_inv_1|by eapply prefix_cons_inv_2].
Qed.

Lemma strchr_Some c s b a :
  strchr c s = Some (b, a) ↔ s = b ++ c :: a ∧ c ∉ b.
Proof.
  revert b a; induction s as [|d s IH]; intros b a; simpl.
  { split; [done|]. intros [H _]. by destruct b. }
  case_decide as Hd; subst.
  - split.
    + intros [= <- <-]. split; [done|apply not_elem_of_nil].
    + intros [Hs Hb]. destruct b as [|e b]; simplify_eq/=; [done|].
      exfalso. apply Hb. apply elem_of_cons. by left.
  - destruct (strchr c s) as [[b' a']|] eqn:E; simpl.
    + destruct (proj1 (IH b' a') eq_refl) as [-> Hn]. split.
      * intros [= <- <-]. split; [done|]. rewrite elem_of_cons. intros [?|?]; congruence.
      * intros [Hs Hb]. destruct b as [|e b]; simplify_eq/=.
        assert (Some (b', a') = Some (b, a)) as [= -> ->]; [|done].
        apply IH. split; [done|]. intros Hin. apply Hb, elem_of_cons; by right.
    + split; [done|]. intros [Hs Hb]. destruct b as [|e b]; simplify_eq/=.
      enough (None = Some (b, a)) by done. apply IH. split; [done|].
      intros Hin. apply Hb, elem_of_cons; by right.
Qed.

Lemma strchr_None c s : strchr c s = None ↔ c ∉ s.
Proof.
  induction s as [|d s IH]; simpl.
  { split; [intros _; apply not_elem_of_nil|done]. }
  rewrite not_elem_of_cons. case_decide; subst; [split; [done|]; intros [? _]; congruence|].
  destruct (strchr c s) as [[??]|]; simpl; split; try done;
    [intros [_ Hr]; by apply IH in Hr|intros _; split; [congruence|by apply IH]].
Qed.

Lemma strchr_shorter c s b a : strchr c s = Some (b, a) → (length a < length s)%nat.
Proof. intros [-> _]%strchr_Some. rewrite length_app. simpl. lia. Qed.

Lemma c_str_no_nul buf : NUL ∉ c_str buf.
Proof.
  induction buf as [|c r IH]; simpl; [apply not_elem_of_nil|].
  case_decide; [apply not_elem_of_nil|]. rewrite not_elem_of_cons. split; congruence.
Qed.

Lemma c_str_text s rest : NUL ∉ s → c_str (s ++ NUL :: rest) = s.
Proof.
  induction s as [|c s IH]; simpl; intros H.
  - done.
  - apply not_elem_of_cons in H as [Hc Hs].
    rewrite decide_False by done. by rewrite IH.
Qed.

Lemma snprintf_fits n t : strlen t < n → snprintf n t = t.
Proof. unfold strlen, snprintf. intros H. apply take_ge. lia. Qed.

Lemma strlen_snprintf n t : 0 < n → strlen (snprintf n t) < n.
Proof. unfold strlen, snprintf. intros H. rewrite length_take. lia. Qed.

Lemma strlen_app a b : strlen (a ++ b) = strlen a + strlen b.
Proof. unfold strlen. rewrite length_app. lia. Qed.

Lemma strlen_nonneg s : 0 <= strlen s.
Proof. unfold strlen. lia. Qed.

Lemma wrap_s_id w z : 0 < w → - 2 ^ (w - 1) <= z < 2 ^ (w - 1) → wrap_s w z = z.
Proof.
  intros Hw Hz. unfold wrap_s.
  assert (2 ^ w = 2 * 2 ^ (w - 1)) as E.
  { rewrite <-Z.pow_succ_r by lia. f_equal. lia. }
  rewrite Z.mod_small; lia.
Qed.

Lemma wrap_s_range w z : 0 < w → - 2 ^ (w - 1) <= wrap_s w z < 2 ^ (w - 1).
Proof.
  intros Hw. unfold wrap_s.
  assert (2 ^ w = 2 * 2 ^ (w - 1)) as E.
  { rewrite <-Z.pow_succ_r by lia. f_equal. lia. }
  assert (0 < 2 ^ (w - 1)) by (apply Z.pow_pos_nonneg; lia).
  pose proof (Z.mod_pos_bound (z + 2 ^ (w - 1)) (2 ^ w)). lia.
Qed.

Lemma wrap_s_congr w z : 0 < w → (wrap_s w z - z) mod 2 ^ w = 0.
Proof.
  intros Hw. unfold wrap_s.
  assert (0 < 2 ^ w) by (apply Z.pow_pos_nonneg; lia).
  pose proof (Z.div_mod (z + 2 ^ (w - 1)) (2 ^ w) ltac:(lia)) as E.
  apply Z.mod_divide; [lia|]. exists (- ((z + 2 ^ (w - 1)) / 2 ^ w)). lia.
Qed.

Lemma code_chr z : code (chr z) = z mod 256.
Proof.
  unfold code, chr. pose proof (Z.mod_pos_bound z 256 ltac:(lia)).
  rewrite N_ascii_embedding by lia. lia.
Qed.

Lemma le_le32 z : le (le32 z) = z mod 2 ^ 32.
Proof.
  unfold le32. cbn [le]. rewrite !code_chr. change (2 ^ 32) with 4294967296.
  Z.to_euclidean_division_equations. lia.
Qed.

Lemma le_le16 z : le (le16 z) = z mod 2 ^ 16.
Proof.
  unfold le16. cbn [le]. rewrite !code_chr. change (2 ^ 16) with 65536.
  Z.to_euclidean_division_equations. lia.
Qed.

Lemma le_app a b : le (a ++ b) = le a + 256 ^ Z.of_nat (length a) * le b.
Proof.
  induction a as [|c a IH]; [cbn [app length le]; lia|]. cbn [app length le]. rewrite IH, Nat2Z.inj_succ, Z.pow_succ_r by lia. lia.
Qed.

Lemma le_le64 z : le (le64 z) = z mod 2 ^ 64.
Proof.
  unfold le64. rewrite le_app, !le_le32. change (256 ^ Z.of_nat (length (le32 z))) with 4294967296.
  change (2 ^ 32) with 4294967296. change (2 ^ 64) with (4294967296 * 4294967296).
  rewrite Z.rem_mul_r by lia. lia.
Qed.

Lemma tst_0_r m : tst 0 m = false.
Proof. done. Qed.

Lemma tst_pow2 z k : 0 <= k → tst z (2 ^ k) = Z.testbit z k.
Proof.
  intros Hk. unfold tst. destruct (Z.testbit z k) eqn:E.
  - apply negb_true_iff, Z.eqb_neq. intros H.
    apply (f_equal (fun x => Z.testbit x k)) in H.
    rewrite Z.land_spec, E, Z.pow2_bits_true, Z.bits_0 in H by done. done.
  - apply negb_false_iff, Z.eqb_eq. apply Z.bits_inj'. intros n Hn.
    rewrite Z.land_spec, Z.bits_0, Z.pow2_bits_eqb by done.
    destruct (Z.eqb_spec k n); subst; [by rewrite E|by rewrite andb_false_r].
Qed.

Create Rewrite HintDb lens.
#[export] Hint Rewrite @length_app @length_take @length_drop @length_replicate
  @length_insert @length_fmap : lens.

(** Arithmetic goals about lengths of lists. *)
Ltac len := autorewrite with lens in *; simpl in *; lia.

#[export] Hint Resolve strlen_nonneg : cprog.

(** ** Sums over lists *)

Definition zsum {A} (f : A → Z) (l : list A) : Z := foldr (λ a z, f a + z) 0 l.

Lemma zsum_alter {A} (f : A → Z) g k l a : l !! k = Some a → zsum f (alter g k l) = zsum f l + (f (g a) - f a).
Proof.
  revert k. induction l as [|b l IH]; intros [|k] Hk; [done|done| |].
  - injection Hk as ->. cbn. lia.
  - change (f b + zsum f (alter g k l) = f b + zsum f l + (f (g a) - f a)). rewrite (IH _ Hk). lia.
Qed.

Lemma zsum_le {A} (f : A → Z) m l : Forall (λ a, f a <= m) l → zsum f l <= Z.of_nat (length l) * m.
Proof.
  induction 1 as [|a l Ha _ IH]; [done|]. change (f a + zsum f l <= Z.of_nat (Datatypes.S (length l)) * m). rewrite Nat2Z.inj_succ, Z.mul_succ_l. lia.
Qed.

Lemma zsum_mono {A} (f g : A → Z) l : Forall (λ a, f a <= g a) l → zsum f l <= zsum g l.
Proof. induction 1 as [|a l Ha _ IH]; [done|]. change (f a + zsum f l <= g a + zsum g l). lia. Qed.

Lemma zsum_part {A} (f g : A → Z) l k a : Forall (λ a, f a <= g a) l → l !! k = Some a → zsum f l + (g a - f a) <= zsum g l.
Proof.
  intros Hl. revert k. induction Hl as [|b l Hb Hl IH]; intros [|k] Hk; [done|done| |].
  - injection Hk as ->. pose proof (zsum_mono _ _ _ Hl). change (f a + zsum f l + (g a - f a) <= g a + zsum g l). lia.
  - specialize (IH _ Hk). change (f b + zsum f l + (g a - f a) <= g b + zsum g l). lia.
Qed.
