(* ===== verification/Sys.v ===== *)
(** Processes and the operating system they run on.

    A program is a function of its static variables, [errno] and the history
    of what it did so far; it meets the kernel only through system calls.  The
    kernel is an argument ([os]): any function of the history and the call, so
    that a theorem over all kernels is a theorem over every behaviour of the
    system, of other processes and of the user.  [M S A] is the monad the
    components are written in: [S] is the type of a component's static
    variables. *)
From S2P Require Import Prelude.

(** ** System calls and what they reply *)

(** What a call gives back: the C result, the [errno] it sets (meaningful when
    the result reports an error), the bytes it stored in the caller's buffer,
    and the entries of calls that return a list (directory walks,
    [getaddrinfo]). *)
Record reply := Reply {
  rv : Z; rerr : Z; rdata : cstr; rents : list (cstr * Z) }.

(** stdio streams: standard output and error, a program's log file, a file
    opened by name. *)
Inductive stream := Stdout | Stderr | Logfile | Named (path : cstr).

#[export] Instance stream_eq_dec : EqDecision stream.
Proof. solve_decision. Defined.

Inductive call :=
  | Cread (fd count : Z)
  | Cwrite (fd : Z) (bytes : cstr)
  | Copen (path : cstr) (flags mode : Z)
  | Cclose (fd : Z)
  | Cdup2 (oldfd newfd : Z)
  | Cpipe
  | Cfork
  | Cwait (pid : Z)
  | Cexec (path : cstr) (argv : list cstr)
  | Cchdir (path : cstr)
  | Cgetcwd (size : Z)
  | Cgethostname
  | Cgetuid
  | Cgetgid
  | Csetsid
  | Cumask (mask : Z)
  | Csysconf_open_max
  | Cfcntl (fd cmd arg : Z)
  | Clock (fd cmd ltype whence start len : Z)
  | Cftruncate (fd len : Z)
  | Cgetpid
  | Csocket (family type protocol : Z)
  | Cconnect (fd : Z) (addr : cstr)
  | Cbind (fd : Z) (addr : cstr)
  | Clisten (fd backlog : Z)
  | Csetsockopt (fd : Z)
  | Cgetaddrinfo (host : option cstr) (service : cstr) (type flags : Z)
  | Csemop (semid semnum op flg : Z)
  | Csemctl_setval (semid semnum val : Z)
  | Csemctl_getval (semid semnum : Z)
  | Clstat (path : cstr)
  | Cinotify_init
  | Cinotify_add_watch (fd : Z) (path : cstr) (mask : Z)
  | Cinotify_rm_watch (fd wd : Z)
  | Cnftw (path : cstr)
  | Csigaction (sig : Z)
  | Cualarm (usecs : Z)
  | Cselect (fds : list Z)
  | Cposix_openpt
  | Cgrantpt (fd : Z)
  | Cunlockpt (fd : Z)
  | Cptsname (fd : Z)
  | Cioctl (fd req : Z)
  | Ctcgetattr (fd : Z)
  | Ctcsetattr (fd act : Z) (attr : cstr)
  | Crealloc (size : Z)
  | Cfopen (path : cstr)
  | Cfflush (f : stream)
  | Cfgets (size : Z)
  | Cprctl (op arg : Z)
  | Cseccomp (op flags : Z) (prog : cstr)
  | Cptrace (req pid addr : Z)
  | Clseek (fd offset whence : Z)
  | Cfstat (fd : Z)
  | Cgetppid
  | Cgeteuid
  | Cmkdir (path : cstr) (mode : Z)
  | Csystem (cmd : cstr)
  | Csetenv (name value : cstr) (overwrite : Z)
  | Cmq_notify (mqd : Z)
  | Csocketpair
  | Csendmsg (fd : Z) (bytes control : cstr)
  | Crecvmsg (fd count ctlsize : Z)   (* stores the data; its control data and flags are an entry *)
  | Cnotif_recv (fd : Z)
  | Cnotif_id_valid (fd id : Z)
  | Cnotif_send (fd id val error flags : Z)
  | Ckill (pid sig : Z)
  | Csleep (secs : Z)
  | Cfgets_from (f : stream) (size : Z)
  | Cfread (f : stream) (size : Z)
  | Crewind (f : stream)
  | Cfclose (f : stream)
  | Cmmap (fd len : Z)
  | Csend (fd : Z) (bytes : cstr)
  | Crecv (fd count : Z)
  | Csendto (fd : Z) (bytes addr : cstr)
  | Crecvfrom (fd count : Z)
  | Caccept (fd : Z)
  | Cunlink (path : cstr)
  | Cgethostbyname (name : cstr)
  | Cgetnameinfo (addr : cstr) (flags : Z)
  | Cmkfifo (path : cstr) (mode : Z)
  | Cmsgget (key flags : Z)
  | Cmsgsnd (id mtype : Z) (text : cstr)
  | Cmsgrcv (id size : Z)       (* stores the type, a long, then the text; replies the length of the text *)
  | Cmsgctl_rmid (id : Z)
  | Cwaitpid (pid options : Z)
  | Cprctl3 (op arg2 arg3 : Z)
  | Csetresuid (r e s : Z)
  | Cgetegid
  | Cclone (flags : Z)
  | Cextern (fn : string) (ints : list Z) (text : cstr)   (* another library function or call; -1 stands for NULL *)
  | Cpthread (what : cstr)     (* initialisation of a pthread object *)
  | Cpause
  | Catexit
  | Crand
  | Ctime
  | Cgarbage.                (* an indeterminate value the program uses *)

(** What an observer sees of a process, oldest first: calls with their
    replies, and text handed to a stdio stream. *)
Inductive event :=
  | Esys (c : call) (r : reply)
  | Eout (f : stream) (text : cstr).

Class os := Os {
  kern : list event → call → reply;
  strerror : Z → cstr;
  strsignal : Z → cstr;
  ename : Z → cstr;            (* error names, from the generated ename.c.inc *)
  max_ename : Z;
  getenv : cstr → option cstr;
  ptr_text : cstr → cstr       (* the address %p prints for a named object *)
}.

(** ** Processes *)

(** How a process stops short of returning: [exit], [_exit], [abort], a
    successful [exec], a signal, or a step the C standard leaves undefined. *)
Inductive stop :=
  | Exit (status : Z)
  | FastExit (status : Z)
  | Abort
  | Execed (path : cstr) (argv : list cstr)
  | Killed (sig : Z)
  | Undefined (why : string).

Inductive outcome (A : Type) :=
  | Ret (a : A)
  | Stop (s : stop)
  | NoFuel.
Arguments Ret {A} a.
Arguments Stop {A} s.
Arguments NoFuel {A}.

Record st (S : Type) := St { glob : S; errno : Z; trace : list event }.
Arguments St {S}.
Arguments glob {S}.
Arguments errno {S}.
Arguments trace {S}.

Definition M (S A : Type) : Type := st S → outcome A * st S.

Section Monad.
Context {S : Type}.

#[export] Instance M_ret : MRet (M S) := λ A a s, (Ret a, s).
#[export] Instance M_bind : MBind (M S) := λ A B f m s,
  match m s with
  | (Ret a, s') => f a s'
  | (Stop t, s') => (Stop t, s')
  | (NoFuel, s') => (NoFuel, s')
  end.

Definition stop_with {A} (t : stop) : M S A := λ s, (Stop t, s).
Definition no_fuel {A} : M S A := λ s, (NoFuel, s).
Definition get : M S S := λ s, (Ret (glob s), s).
Definition put (g : S) : M S unit := λ s, (Ret tt, St g (errno s) (trace s)).
Definition upd (f : S → S) : M S unit := λ s, (Ret tt, St (f (glob s)) (errno s) (trace s)).
Definition get_errno : M S Z := λ s, (Ret (errno s), s).
Definition set_errno (e : Z) : M S unit := λ s, (Ret tt, St (glob s) e (trace s)).
Definition emit (e : event) : M S unit := λ s,
  (Ret tt, St (glob s) (errno s) (trace s ++ [e])).
Definition out (f : stream) (t : cstr) : M S unit := emit (Eout f t).

(** A system call: the kernel's reply to the history, logged; [errno] is
    set only when the call fails. *)
Definition sys `{os} (c : call) : M S reply := λ s,
  let r := kern (trace s) c in
  (Ret r, St (glob s) (if rv r =? -1 then rerr r else errno s) (trace s ++ [Esys c r])).

Definition when (b : bool) (m : M S unit) : M S unit := if b then m else mret tt.

(** [for] loops over a list of values. *)
Fixpoint for_each {A} (l : list A) (body : A → M S unit) : M S unit :=
  match l with
  | [] => mret tt
  | a :: l => body a;; for_each l body
  end.

(** Loops: [body] either goes on with a new loop state or leaves with a
    result.  [fuel] bounds the number of turns. *)
Fixpoint loop {A B} (fuel : nat) (body : A → M S (A + B)) (a : A) : M S B :=
  match fuel with
  | O => no_fuel
  | Datatypes.S fuel =>
      r ← body a;
      match r with
      | inl a => loop fuel body a
      | inr b => mret b
      end
  end.
End Monad.

(** [perror], and the [errExit] macro of the programs that do not use the
    library's: perror, then exit with failure. *)
Section Perror.
Context {S : Type} `{os}.

Definition perror (msg : cstr) : M S unit :=
  e ← get_errno;
  out Stderr (msg ++ str ": " ++ strerror e ++ [NL]).

Definition perror_exit {A} (msg : cstr) : M S A :=
  perror msg;;
  stop_with (Exit 1).
End Perror.

(** errno values the sources test for (asm-generic/errno-base.h). *)
Definition ENOENT : Z := 2.
Definition EINTR : Z := 4.
Definition ENOEXEC : Z := 8.
Definition EAGAIN : Z := 11.
Definition EACCES : Z := 13.
Definition EFAULT : Z := 14.
Definition EEXIST : Z := 17.
Definition EINVAL : Z := 22.
Definition ERANGE : Z := 34.
Definition ENAMETOOLONG : Z := 36.
Definition ENOSYS : Z := 38.
Definition EOVERFLOW : Z := 75.
Definition ENOTSUP : Z := 95.

(** ** Reasoning: total correctness

    [wp m Q E s]: started in [s], [m] gets a result and it satisfies [Q], or
    it stops and the stop satisfies [E]; running out of fuel satisfies
    neither. *)

Section Wp.
Context {S : Type}.
Implicit Types s : st S.

Definition wp {A} (m : M S A) (Q : A → st S → Prop) (E : stop → st S → Prop)
    (s : st S) : Prop :=
  match m s with
  | (Ret a, s') => Q a s'
  | (Stop t, s') => E t s'
  | (NoFuel, _) => False
  end.

Lemma wp_ret {A} (a : A) Q E s : Q a s → wp (mret a) Q E s.
Proof. done. Qed.

Lemma wp_bind {A B} (m : M S A) (f : A → M S B) Q E s :
  wp m (λ a s', wp (f a) Q E s') E s → wp (m ≫= f) Q E s.
Proof. unfold wp, mbind, M_bind. by destruct (m s) as [[a|t|] s']. Qed.

Lemma wp_mono {A} (m : M S A) (Q Q' : A → st S → Prop) (E E' : stop → st S → Prop) s :
  wp m Q E s → (∀ a s', Q a s' → Q' a s') → (∀ t s', E t s' → E' t s') →
  wp m Q' E' s.
Proof. unfold wp. destruct (m s) as [[a|t|] s']; eauto. Qed.

Lemma wp_sys `{os} c (Q : reply → st S → Prop) E s :
  Q (kern (trace s) c)
    (St (glob s) (if rv (kern (trace s) c) =? -1 then rerr (kern (trace s) c) else errno s)
      (trace s ++ [Esys c (kern (trace s) c)])) →
  wp (sys c) Q E s.
Proof. done. Qed.

Lemma wp_get (Q : S → st S → Prop) E s : Q (glob s) s → wp get Q E s.
Proof. done. Qed.
Lemma wp_put g (Q : unit → st S → Prop) E s :
  Q tt (St g (errno s) (trace s)) → wp (put g) Q E s.
Proof. done. Qed.
Lemma wp_upd f (Q : unit → st S → Prop) E s :
  Q tt (St (f (glob s)) (errno s) (trace s)) → wp (upd f) Q E s.
Proof. done. Qed.
Lemma wp_get_errno (Q : Z → st S → Prop) E s : Q (errno s) s → wp get_errno Q E s.
Proof. done. Qed.
Lemma wp_set_errno e (Q : unit → st S → Prop) E s :
  Q tt (St (glob s) e (trace s)) → wp (set_errno e) Q E s.
Proof. done. Qed.
Lemma wp_emit e (Q : unit → st S → Prop) E s :
  Q tt (St (glob s) (errno s) (trace s ++ [e])) → wp (emit e) Q E s.
Proof. done. Qed.
Lemma wp_stop {A} t (Q : A → st S → Prop) E s : E t s → wp (stop_with t) Q E s.
Proof. done. Qed.

(** The loop rule: an invariant and a measure that every turn decreases. *)
Lemma wp_loop {A B} (I : A → st S → Prop) (mu : A → st S → nat)
    (body : A → M S (A + B)) (Q : B → st S → Prop) E fuel a s :
  I a s → (mu a s < fuel)%nat →
  (∀ a s, I a s →
    wp (body a) (λ r s', match r with
                         | inl a' => I a' s' ∧ (mu a' s' < mu a s)%nat
                         | inr b => Q b s'
                         end) E s) →
  wp (loop fuel body a) Q E s.
Proof.
  intros HI Hmu Hbody. revert a s HI Hmu.
  induction fuel as [|fuel IH]; intros a s HI Hmu; [lia|].
  simpl. apply wp_bind. eapply wp_mono; [by apply Hbody| |done].
  intros [a'|b] s' H; [|done]. destruct H as [HI' Hmu'].
  apply IH; [done|lia].
Qed.

(** A postcondition holds of the run [m s]. *)
Lemma wp_run {A} (m : M S A) Q E s :
  wp m Q E s →
  (∃ a s', m s = (Ret a, s') ∧ Q a s') ∨ (∃ t s', m s = (Stop t, s') ∧ E t s').
Proof. unfold wp. destruct (m s) as [[a|t|] s']; naive_solver. Qed.

(** [for_each] with an invariant over the values already visited. *)
Lemma wp_for_each {A} (I : list A → st S → Prop) (body : A → M S unit) l E s :
  I [] s →
  (∀ done a todo s, l = done ++ a :: todo → I done s →
    wp (body a) (λ _ s', I (done ++ [a]) s') E s) →
  wp (for_each l body) (λ _ s', I l s') E s.
Proof.
  intros H0 Hbody.
  enough (∀ todo prev s, l = prev ++ todo → I prev s →
    wp (for_each todo body) (λ _ s', I l s') E s) as Hgen by (by apply (Hgen l [])).
  clear s H0. intros todo. induction todo as [|a todo IH]; intros prev s Hl HI; simpl.
  - rewrite app_nil_r in Hl. by subst.
  - apply wp_bind. eapply wp_mono; [by eapply Hbody| |done].
    intros ? s' HI'. apply (IH (prev ++ [a])); [|done].
    by rewrite <-app_assoc.
Qed.

Lemma loop_S {A B} fuel (body : A → M S (A + B)) a :
  loop (Datatypes.S fuel) body a =
    (body a ≫= λ r, match r with inl a' => loop fuel body a' | inr b => mret b end).
Proof. done. Qed.

(** More fuel never changes a result. *)
Lemma loop_more_fuel {A B} fuel fuel' (body : A → M S (A + B)) a s :
  (fuel <= fuel')%nat → (loop fuel body a s).1 ≠ NoFuel →
  loop fuel' body a s = loop fuel body a s.
Proof.
  revert fuel' a s; induction fuel as [|fuel IH]; intros fuel' a s Hle H; [done|].
  destruct fuel' as [|fuel']; [lia|]. rewrite !loop_S in *.
  unfold mbind, M_bind in *. destruct (body a s) as [[[a'|b]|t|] s']; try done.
  apply IH; [lia|done].
Qed.
End Wp.

(** [wp] for runs that may go on for ever: whenever the fuel runs out, [F]
    holds of the state reached. *)
Definition wlp {S A} (m : M S A) (Q : A → st S → Prop) (E : stop → st S → Prop)
    (F : st S → Prop) (s : st S) : Prop :=
  match m s with
  | (Ret a, s') => Q a s'
  | (Stop t, s') => E t s'
  | (NoFuel, s') => F s'
  end.

Section Wlp.
Context {S : Type}.
Implicit Types s : st S.

Lemma wp_wlp {A} (m : M S A) Q E F s : wp m Q E s → wlp m Q E F s.
Proof. unfold wp, wlp. by destruct (m s) as [[a|t|] s']. Qed.

Lemma wlp_bind {A B} (m : M S A) (f : A → M S B) Q E F s :
  wlp m (λ a s', wlp (f a) Q E F s') E F s → wlp (m ≫= f) Q E F s.
Proof. unfold wlp, mbind, M_bind. by destruct (m s) as [[a|t|] s']. Qed.

Lemma wlp_mono {A} (m : M S A) (Q Q' : A → st S → Prop) (E E' : stop → st S → Prop) (F F' : st S → Prop) s :
  wlp m Q E F s → (∀ a s', Q a s' → Q' a s') → (∀ t s', E t s' → E' t s') → (∀ s', F s' → F' s') →
  wlp m Q' E' F' s.
Proof. unfold wlp. destruct (m s) as [[a|t|] s']; eauto. Qed.

(** Any number of turns of a loop, an invariant between them. *)
Lemma wlp_loop {A B} (I : A → st S → Prop) (body : A → M S (A + B)) (Q : B → st S → Prop) E (F : st S → Prop) fuel a s :
  I a s → (∀ a s, I a s → F s) →
  (∀ a s, I a s → wlp (body a) (λ r s', match r with inl a' => I a' s' | inr b => Q b s' end) E F s) →
  wlp (loop fuel body a) Q E F s.
Proof.
  intros HI HF Hbody. revert a s HI. induction fuel as [|fuel IH]; intros a s HI; [by eapply HF|].
  simpl. apply wlp_bind. eapply wlp_mono; [by apply Hbody| |done|done].
  intros [a'|b] s' H; [by apply IH|done].
Qed.
End Wlp.

#[export] Hint Resolve wp_ret : cprog.

(** The system calls of a history, text output left aside. *)
Definition call_of (e : event) : option (call * reply) :=
  match e with Esys c r => Some (c, r) | _ => None end.
Definition calls (tr : list event) : list (call * reply) := omap call_of tr.

Lemma calls_app a b : calls (a ++ b) = calls a ++ calls b.
Proof. unfold calls. apply omap_app. Qed.
Lemma calls_snoc_sys tr c r : calls (tr ++ [Esys c r]) = calls tr ++ [(c, r)].
Proof. by rewrite calls_app. Qed.
Lemma calls_snoc_out tr f t : calls (tr ++ [Eout f t]) = calls tr.
Proof. rewrite calls_app. apply app_nil_r. Qed.

(** A call, with the new state named and what is known of it. *)
Lemma wp_call {S} `{os} c (Q : reply → st S → Prop) E (s : st S) :
  (∀ r s', r = kern (trace s) c → glob s' = glob s → (rv r = -1 → errno s' = rerr r) →
    calls (trace s') = calls (trace s) ++ [(c, r)] → trace s' = trace s ++ [Esys c r] → Q r s') →
  wp (sys c) Q E s.
Proof.
  intros HQ. apply wp_sys, HQ; [done|done|by intros ->|apply calls_snoc_sys|done].
Qed.

(** The history grew by events of one kind, each call answered by the system
    there and then. *)
Inductive ran `{os} (P : event → Prop) (tr : list event) : list event → Prop :=
  | ran_refl : ran P tr tr
  | ran_sys tr' c : ran P tr tr' → P (Esys c (kern tr' c)) → ran P tr (tr' ++ [Esys c (kern tr' c)])
  | ran_out tr' f t : ran P tr tr' → P (Eout f t) → ran P tr (tr' ++ [Eout f t]).

Lemma ran_trans `{os} P a b c : ran P a b → ran P b c → ran P a c.
Proof. intros Hab. induction 1; [done|by apply ran_sys|by apply ran_out]. Qed.

Lemma ran_mono `{os} (P P' : event → Prop) a b : (∀ e, P e → P' e) → ran P a b → ran P' a b.
Proof. intros HP. induction 1; [apply ran_refl|apply ran_sys; auto|apply ran_out; auto]. Qed.

Lemma ran_events `{os} P a b : ran P a b → ∃ l, b = a ++ l ∧ Forall P l.
Proof.
  induction 1 as [|tr' c _ (l & -> & Hl) Hc|tr' f t _ (l & -> & Hl) Hc]; [exists []; by rewrite app_nil_r| |];
    eexists; rewrite <-app_assoc; (split; [done|]); by apply Forall_app_2; [|apply Forall_singleton].
Qed.

(** From total to partial correctness. *)
Lemma wp_frame {S A} (m : M S A) Q E s :
  wp m Q E s → wp m (λ a s', Q a s' ∧ m s = (Ret a, s')) (λ t s', E t s' ∧ m s = (Stop t, s')) s.
Proof. unfold wp. destruct (m s) as [[a|t|] s']; auto. Qed.

(** Equality of runs, when reasoning by computing. *)
Lemma bind_Ret {S A B} (m : M S A) (f : A → M S B) s a s' :
  m s = (Ret a, s') → (m ≫= f) s = f a s'.
Proof. unfold mbind, M_bind. by intros ->. Qed.

Lemma bind_Stop {S A B} (m : M S A) (f : A → M S B) s t s' :
  m s = (Stop t, s') → (m ≫= f) s = (Stop t, s').
Proof. unfold mbind, M_bind. by intros ->. Qed.

(** One step of symbolic execution of a [wp] goal. *)
Ltac wp_step :=
  first [ apply wp_bind | apply wp_ret | apply wp_sys | apply wp_get | apply wp_put
        | apply wp_upd | apply wp_get_errno | apply wp_set_errno | apply wp_emit
        | apply wp_stop
        | match goal with |- wp (if ?b then _ else _) _ _ _ => destruct b eqn:? end
        | match goal with |- wp (when ?b _) _ _ _ => destruct b eqn:? ; unfold when end
        | match goal with |- wp (match ?x with _ => _ end) _ _ _ => destruct x eqn:? end
        | progress (unfold wp at 1; simpl) ].

(** ** Loops over an index

    [for (j = 0; j < n; j++)], where [body] goes on with [inl] and breaks with
    [inr]. *)

Section ForRange.
Context {S : Type}.

Fixpoint for_from {A B} (j n : nat) (body : nat → A → M S (A + B)) (a : A) : M S (A + B) :=
  match n with
  | O => mret (inl a)
  | Datatypes.S n =>
      r ← body j a;
      match r with
      | inl a => for_from (Datatypes.S j) n body a
      | inr b => mret (inr b)
      end
  end.

Definition for_range {A B} (n : nat) := @for_from A B 0 n.

(** The same without a way to break. *)
Fixpoint for_acc {A} (j n : nat) (body : nat → A → M S A) (a : A) : M S A :=
  match n with
  | O => mret a
  | Datatypes.S n => a ← body j a; for_acc (Datatypes.S j) n body a
  end.

Lemma wp_for_acc {A} (P : nat → A → st S → Prop) E (body : nat → A → M S A) j n a (s : st S) :
  P j a s →
  (∀ i a s, (j <= i < j + n)%nat → P i a s → wp (body i a) (P (Datatypes.S i)) E s) →
  wp (for_acc j n body a) (P (j + n)%nat) E s.
Proof.
  revert j a s; induction n as [|n IH]; intros j a s HP Hbody; simpl.
  - apply wp_ret. by rewrite Nat.add_0_r.
  - apply wp_bind. eapply wp_mono; [apply Hbody; [lia|done]| |done].
    intros a' s' H'; simpl. rewrite Nat.add_succ_r, <-Nat.add_succ_l. apply IH; [done..|].
    intros i a'' s'' Hi. apply Hbody. lia.
Qed.

Lemma wp_for_from {A B} (P : nat → A → st S → Prop) (Q : B → st S → Prop) E
    (body : nat → A → M S (A + B)) j n a (s : st S) :
  P j a s →
  (∀ i a s, (j <= i < j + n)%nat → P i a s →
    wp (body i a) (λ r s', match r with inl a => P (Datatypes.S i) a s' | inr b => Q b s' end) E s) →
  wp (for_from j n body a)
    (λ r s', match r with inl a => P (j + n)%nat a s' | inr b => Q b s' end) E s.
Proof.
  revert j a s; induction n as [|n IH]; intros j a s HP Hbody; simpl.
  - apply wp_ret. by rewrite Nat.add_0_r.
  - apply wp_bind. eapply wp_mono; [apply Hbody; [lia|done]| |done].
    intros [a'|b] s' H'; simpl; [|done].
    rewrite Nat.add_succ_r, <-Nat.add_succ_l. apply IH; [done..|].
    intros i a'' s'' Hi. apply Hbody. lia.
Qed.
End ForRange.

(** ** A small concrete system

    A kernel with no strings attached, for examples: [k] says what it replies. *)
Definition test_os (k : list event → call → reply) : os :=
  {| kern := k; strerror := λ _, str "error"; strsignal := λ _, str "signal";
     ename := λ _, str "ENAME"; max_ename := 133; getenv := λ _, None;
     ptr_text := λ _, str "0x7ffc00000000" |}.

Definition ok (v : Z) : reply := Reply v 0 [] [].
Definition fail (e : Z) : reply := Reply (-1) e [] [].
Definition init {S} (g : S) : st S := St g 0 [].
