(* ===== verification/Rdwrn.v ===== *)
(** Whole-buffer I/O: tlpi-book/lib/rdwrn.c, over descriptors that may return
    less than asked, or be interrupted.

    [Source] and [Sink] state what read(2) and write(2) promise; [readn] and
    [writen] are proved against them. *)
From S2P Require Import Prelude Sys.

(** ** What read(2) and write(2) promise *)

(** The bytes of [fd] a process has taken, and how often it was interrupted,
    in its history. *)
Definition taken_by (fd : Z) (e : event) : cstr :=
  match e with
  | Esys (Cread fd' _) r => if (fd' =? fd) && (0 <? rv r) then rdata r else []
  | _ => []
  end.
Definition taken (fd : Z) (tr : list event) : cstr := mjoin (taken_by fd <$> tr).

Definition is_eintr (fd : Z) (e : event) : bool :=
  match e with
  | Esys (Cread fd' _) r | Esys (Cwrite fd' _) r =>
      (fd' =? fd) && (rv r =? -1) && (rerr r =? EINTR)
  | _ => false
  end.
Definition eintrs (fd : Z) (tr : list event) : nat := length (filter (is_eintr fd) tr).

Definition put_by (fd : Z) (e : event) : cstr :=
  match e with
  | Esys (Cwrite fd' bs) r => if (fd' =? fd) && (0 <? rv r) then take (Z.to_nat (rv r)) bs else []
  | _ => []
  end.
Definition written (fd : Z) (tr : list event) : cstr := mjoin (put_by fd <$> tr).

(** [fd] delivers [content]: a read gets some of what is left (nothing only at
    the end of it) or fails; it is interrupted at most [budget] times. *)
Class Source `{os} (fd : Z) (content : cstr) (budget : nat) := source_reply :
  ∀ tr n, 0 < n →
    let r := kern tr (Cread fd n) in
    let rest := drop (length (taken fd tr)) content in
    (rv r = -1 ∧ (rerr r = EINTR → (eintrs fd tr < budget)%nat)) ∨
    (rv r = strlen (rdata r) ∧ rv r <= n ∧ rdata r `prefix_of` rest ∧
      (rv r = 0 → rest = [])).

(** [fd] accepts some bytes of what it is given, or fails. *)
Class Sink `{os} (fd : Z) (budget : nat) := sink_reply :
  ∀ tr bs, bs ≠ [] →
    let r := kern tr (Cwrite fd bs) in
    (rv r = -1 ∧ (rerr r = EINTR → (eintrs fd tr < budget)%nat)) ∨
    0 <= rv r <= strlen bs.

(** ** The functions *)

Section Functions.
Context {S : Type} `{os}.

(** [readn]: the result and the bytes stored in [buffer]. *)
Definition readn (fuel : nat) (fd n : Z) : M S (Z * cstr) :=
  loop fuel (λ '(totRead, buf),
    if totRead <? n then
      r ← sys (Cread fd (n - totRead));
      if rv r =? 0 then mret (inr (totRead, buf))
      else if rv r =? -1 then
        e ← get_errno;
        if e =? EINTR then mret (inl (totRead, buf))
        else mret (inr (-1, buf))
      else mret (inl (totRead + rv r, buf ++ rdata r))
    else mret (inr (totRead, buf))) (0, []).

Definition writen (fuel : nat) (fd : Z) (buffer : cstr) (n : Z) : M S Z :=
  loop fuel (λ '(totWritten, buf),
    if totWritten <? n then
      r ← sys (Cwrite fd (take (Z.to_nat (n - totWritten)) buf));
      if rv r <=? 0 then
        e ← get_errno;
        if (rv r =? -1) && (e =? EINTR) then mret (inl (totWritten, buf))
        else mret (inr (-1))
      else mret (inl (totWritten + rv r, drop (Z.to_nat (rv r)) buf))
    else mret (inr totWritten)) (0, buffer).
End Functions.

(** ** Histories *)

Lemma taken_app fd a b : taken fd (a ++ b) = taken fd a ++ taken fd b.
Proof. unfold taken. by rewrite fmap_app, join_app. Qed.

Lemma taken_snoc_read fd tr n r :
  taken fd (tr ++ [Esys (Cread fd n) r]) = taken fd tr ++ if 0 <? rv r then rdata r else [].
Proof.
  rewrite taken_app. unfold taken at 2. simpl. rewrite Z.eqb_refl. simpl.
  by rewrite app_nil_r.
Qed.

Lemma written_app fd a b : written fd (a ++ b) = written fd a ++ written fd b.
Proof. unfold written. by rewrite fmap_app, join_app. Qed.

Lemma written_snoc_write fd tr bs r :
  written fd (tr ++ [Esys (Cwrite fd bs) r]) =
    written fd tr ++ if 0 <? rv r then take (Z.to_nat (rv r)) bs else [].
Proof.
  rewrite written_app. unfold written at 2. simpl. rewrite Z.eqb_refl. simpl.
  by rewrite app_nil_r.
Qed.

Lemma eintrs_snoc fd tr e :
  eintrs fd (tr ++ [e]) = (eintrs fd tr + if is_eintr fd e then 1 else 0)%nat.
Proof.
  unfold eintrs. rewrite filter_app, length_app. f_equal.
  unfold filter. simpl. case_decide as Hd; by destruct (is_eintr fd e).
Qed.

Lemma drop_after {A} (a b l : list A) n :
  b `prefix_of` drop n l → length a = n →
  drop (length (a ++ b)) l = drop (length b) (drop n l).
Proof. intros _ <-. rewrite length_app, drop_drop. done. Qed.

Lemma prefix_eq_take {A} (l k : list A) : l `prefix_of` k → l = take (length l) k.
Proof. intros [t ->]. by rewrite take_app_length. Qed.

Lemma prefix_next {A} (a b l : list A) :
  a `prefix_of` l → b `prefix_of` drop (length a) l → a ++ b `prefix_of` l.
Proof.
  intros [t ->] Hb. rewrite drop_app_length in Hb.
  by apply prefix_app.
Qed.

Lemma eintrs_read fd tr n r :
  eintrs fd (tr ++ [Esys (Cread fd n) r]) =
    (eintrs fd tr + if ((rv r =? -1) && (rerr r =? EINTR))%Z then 1 else 0)%nat.
Proof. rewrite eintrs_snoc. simpl. by rewrite Z.eqb_refl. Qed.

Lemma eintrs_write fd tr bs r :
  eintrs fd (tr ++ [Esys (Cwrite fd bs) r]) =
    (eintrs fd tr + if ((rv r =? -1) && (rerr r =? EINTR))%Z then 1 else 0)%nat.
Proof. rewrite eintrs_snoc. simpl. by rewrite Z.eqb_refl. Qed.

(** ** readn *)

Section Readn.
Context {S : Type} `{Source fd content budget}.

(** What [readn] has between two turns of its loop. *)
Definition readn_inv (s0 : st S) (n : Z) (x : Z * cstr) (s : st S) : Prop :=
  x.1 = strlen x.2 ∧ x.1 <= n ∧
  taken fd (trace s) = taken fd (trace s0) ++ x.2 ∧
  x.2 `prefix_of` drop (length (taken fd (trace s0))) content.

Definition readn_measure (n : Z) (x : Z * cstr) (s : st S) : nat :=
  (Z.to_nat (n - x.1) + (budget - eintrs fd (trace s)))%nat.

(** What [readn] promises: all the bytes asked for, or all that is left, in
    order; or an error other than an interruption, with a prefix of them in
    the buffer. *)
Definition readn_post (s0 : st S) (n : Z) (x : Z * cstr) (s : st S) : Prop :=
  let rest := drop (length (taken fd (trace s0))) content in
  taken fd (trace s) = taken fd (trace s0) ++ x.2 ∧
  ((x.1 = Z.min n (strlen rest) ∧ x.2 = take (Z.to_nat n) rest) ∨
   (x.1 = -1 ∧ errno s ≠ EINTR ∧ x.2 `prefix_of` take (Z.to_nat n) rest)).

Lemma readn_post_full s0 n buf s :
  0 <= n → readn_inv s0 n (n, buf) s → readn_post s0 n (n, buf) s.
Proof.
  intros Hn (Hl & _ & Ht & Hp). split; [done|left]; simpl in *.
  pose proof (prefix_eq_take _ _ Hp) as E. unfold strlen in *.
  split; [apply prefix_length in Hp; lia|]. rewrite E at 1. f_equal. lia.
Qed.

Lemma readn_post_eof s0 n tot buf s :
  readn_inv s0 n (tot, buf) s →
  drop (length buf) (drop (length (taken fd (trace s0))) content) = [] →
  readn_post s0 n (tot, buf) s.
Proof.
  intros (Hl & Hn & Ht & Hp) He. split; [done|left]; simpl in *.
  pose proof (prefix_eq_take _ _ Hp) as E.
  apply (f_equal length) in He. rewrite length_drop in He. simpl in He.
  unfold strlen in *. apply prefix_length in Hp.
  split; [lia|]. rewrite E, !take_ge; [done|lia..].
Qed.

Lemma readn_wp fuel n (s : st S) :
  0 <= n → (Z.to_nat n + budget < fuel)%nat →
  wp (readn fuel fd n) (readn_post s n) (λ _ _, False) s.
Proof.
  intros Hn Hfuel.
  apply (wp_loop (readn_inv s n) (readn_measure n)).
  { repeat split; simpl; [lia|by rewrite app_nil_r|apply prefix_nil]. }
  { unfold readn_measure. simpl. lia. }
  intros [tot buf] s1 HI. pose proof HI as (Hl & Hle & Ht & Hp). simpl in *.
  destruct (Z.ltb_spec tot n) as [Hlt|Hge].
  2:{ apply wp_ret. assert (tot = n) as -> by lia. by apply readn_post_full. }
  apply wp_bind, wp_sys.
  set (r := kern (trace s1) (Cread fd (n - tot))).
  pose proof (source_reply (trace s1) (n - tot) ltac:(lia)) as Hr. fold r in Hr.
  rewrite Ht, length_app, <-drop_drop in Hr. simpl in Hr.
  destruct (Z.eqb_spec (rv r) 0) as [E0|E0].
  { apply wp_ret, readn_post_eof.
    - repeat split; [done|done| |done]. simpl.
      rewrite taken_snoc_read, E0. simpl. by rewrite app_nil_r.
    - destruct Hr as [[? _]|(_ & _ & _ & Hr)]; [lia|by apply Hr]. }
  destruct (Z.eqb_spec (rv r) (-1)) as [E1|E1].
  - apply wp_bind. unfold wp at 1. simpl.
    assert (taken fd (trace s1 ++ [Esys (Cread fd (n - tot)) r]) =
            taken fd (trace s) ++ buf) as Ht'.
    { rewrite taken_snoc_read, E1, Ht. simpl. by rewrite app_nil_r. }
    destruct (Z.eqb_spec (rerr r) EINTR) as [E2|E2]; apply wp_ret.
    + split; [by repeat split|]. unfold readn_measure. simpl.
      rewrite eintrs_read, E1, E2. simpl.
      destruct Hr as [[_ Hr]|(Hr & _)]; [specialize (Hr E2); lia|].
      pose proof (strlen_nonneg (rdata r)). lia.
    + split; [done|]. right. split; [done|]. split; [done|]. simpl.
      rewrite (prefix_eq_take _ _ Hp).
      exists (drop (length buf) (take (Z.to_nat n) (drop (length (taken fd (trace s))) content))).
      rewrite <-(take_drop (length buf) (take _ _)) at 1. f_equal.
      rewrite take_take. f_equal. unfold strlen in *. lia.
  - destruct Hr as [[? _]|(Hrv & Hrn & Hpre & _)]; [done|].
    apply wp_ret. unfold strlen in *. split.
    + repeat split; simpl.
      * unfold strlen. rewrite length_app. lia.
      * lia.
      * rewrite taken_snoc_read, Ht, <-app_assoc.
        destruct (Z.ltb_spec 0 (rv r)); [done|lia].
      * by apply prefix_next.
    + unfold readn_measure. simpl. rewrite eintrs_read.
      destruct (Z.eqb_spec (rv r) (-1)); [done|]. simpl. lia.
Qed.
End Readn.
Arguments readn_post {S} fd content s0 n x s : rename.

(** ** writen *)

Section Writen.
Context {S : Type} `{Sink fd budget}.

Definition writen_inv (s0 : st S) (buffer : cstr) (n : Z) (x : Z * cstr) (s : st S) : Prop :=
  0 <= x.1 <= n ∧ x.2 = drop (Z.to_nat x.1) buffer ∧
  written fd (trace s) = written fd (trace s0) ++ take (Z.to_nat x.1) buffer.

(** All [n] bytes reached the descriptor, in order, or an error cut them
    short (a proper prefix reached it, and the error is not an
    interruption). *)
Definition writen_post (s0 : st S) (buffer : cstr) (n : Z) (res : Z) (s : st S) : Prop :=
  ∃ k, written fd (trace s) = written fd (trace s0) ++ take (Z.to_nat k) buffer ∧
       ((res = n ∧ k = n) ∨ (res = -1 ∧ 0 <= k < n)).

Lemma writen_chunk (k m : Z) (buffer : cstr) :
  0 <= k → 0 <= m →
  take (Z.to_nat k) buffer ++ take (Z.to_nat m) (drop (Z.to_nat k) buffer) =
    take (Z.to_nat (k + m)) buffer.
Proof. intros. rewrite Z2Nat.inj_add by lia. by rewrite take_take_drop. Qed.

Lemma writen_wp fuel buffer n (s : st S) :
  0 <= n <= strlen buffer → (Z.to_nat n + budget < fuel)%nat →
  wp (writen fuel fd buffer n) (writen_post s buffer n) (λ _ _, False) s.
Proof.
  intros Hn Hfuel.
  apply (wp_loop (writen_inv s buffer n) (λ x s', Z.to_nat (n - x.1) + (budget - eintrs fd (trace s')))%nat).
  { repeat split; simpl; [lia|lia|by rewrite app_nil_r]. }
  { simpl. lia. }
  intros [tot buf] s1 (Htot & Hbuf & Hw). simpl in *. subst buf.
  destruct (Z.ltb_spec tot n) as [Hlt|Hge].
  2:{ apply wp_ret. exists tot. split; [done|left; lia]. }
  set (bs := take (Z.to_nat (n - tot)) (drop (Z.to_nat tot) buffer)).
  assert (strlen bs = n - tot) as Hbs.
  { subst bs. unfold strlen in *. rewrite length_take, length_drop. lia. }
  apply wp_bind, wp_sys. set (r := kern (trace s1) (Cwrite fd bs)).
  pose proof (sink_reply (trace s1) bs ltac:(intros E; rewrite E in Hbs; unfold strlen in Hbs; simpl in Hbs; lia)) as Hr. fold r in Hr.
  destruct (Z.leb_spec (rv r) 0) as [Hle|Hgt].
  - assert (written fd (trace s1 ++ [Esys (Cwrite fd bs) r]) =
            written fd (trace s) ++ take (Z.to_nat tot) buffer) as Hw'.
    { rewrite written_snoc_write, Hw. destruct (Z.ltb_spec 0 (rv r)); [lia|]. by rewrite app_nil_r. }
    apply wp_bind. unfold wp at 1. simpl.
    destruct (Z.eqb_spec (rv r) (-1)) as [E1|E1]; simpl;
      [destruct (Z.eqb_spec (rerr r) EINTR) as [E2|E2]|]; apply wp_ret.
    + split; [split_and!; simpl; [lia|lia|done|exact Hw']|]. simpl. rewrite eintrs_write, E1, E2. simpl.
      destruct Hr as [[_ Hr]|Hr]; [specialize (Hr E2); lia|lia].
    + exists tot. split; [done|]. right. lia.
    + exists tot. split; [done|]. right. lia.
  - destruct Hr as [[? _]|Hr]; [lia|]. apply wp_ret. split.
    + repeat split; simpl; [lia..| |].
      * rewrite drop_drop. f_equal. lia.
      * rewrite written_snoc_write, Hw, <-app_assoc. f_equal.
        destruct (Z.ltb_spec 0 (rv r)); [|lia].
        subst bs. rewrite take_take, Nat.min_l by lia. rewrite writen_chunk by lia. done.
    + simpl. rewrite eintrs_write. destruct (Z.eqb_spec (rv r) (-1)); [lia|]. simpl. lia.
Qed.
End Writen.
Arguments writen_post {S} fd s0 buffer n res s : rename.

(** ** The properties *)

(** C35: readn(fd, buffer, n) on a descriptor that delivers its content in
    arbitrary chunks, with interruptions: with fuel for [n] bytes and the
    interruptions it always returns; it returns all [n] bytes, or all that is
    left when that is less, in order and with nothing skipped, or -1 for an
    error other than EINTR. *)
Theorem readn_correct {S} `{Source fd content budget} fuel n (s : st S) :
  0 <= n → (Z.to_nat n + budget < fuel)%nat →
  ∃ res buf s', readn fuel fd n s = (Ret (res, buf), s') ∧ readn_post fd content s n (res, buf) s'.
Proof.
  intros Hn Hf. destruct (wp_run _ _ _ _ (readn_wp fuel n s Hn Hf)) as [([??]&?&?&?)|(?&?&?&[])].
  eauto.
Qed.

(** The function writen, called with (fd, buffer, n), for any partial writes and interruptions:
    returns [n] exactly when the [n] bytes of the buffer have all been
    accepted by the descriptor in order, and otherwise -1 after a proper
    prefix of them; it always returns. *)
Theorem writen_correct {S} `{Sink fd budget} fuel buffer n (s : st S) :
  0 <= n <= strlen buffer → (Z.to_nat n + budget < fuel)%nat →
  ∃ res s', writen fuel fd buffer n s = (Ret res, s') ∧ writen_post fd s buffer n res s'.
Proof.
  intros Hn Hf. destruct (wp_run _ _ _ _ (writen_wp fuel buffer n s Hn Hf)) as [?|(?&?&?&[])].
  done.
Qed.

(** A kernel that delivers [content] at most [chunk] bytes at a time, takes at
    most [chunk] bytes per write, and interrupts the first [k] calls. *)
Definition chunked (k : nat) (content : cstr) (chunk : nat) : os :=
  test_os (λ tr c,
    match c with
    | Cread fd n =>
        if decide (eintrs fd tr < k)%nat then fail EINTR else
        let bs := take (Nat.min chunk (Z.to_nat n)) (drop (length (taken fd tr)) content) in
        Reply (strlen bs) 0 bs []
    | Cwrite fd bs =>
        if decide (eintrs fd tr < k)%nat then fail EINTR else
        ok (Z.min (Z.of_nat chunk) (strlen bs))
    | _ => ok 0
    end).

Lemma chunked_source k content chunk fd :
  (0 < chunk)%nat → @Source (chunked k content chunk) fd content k.
Proof.
  intros Hc tr n Hn. simpl. case_decide as Hd; simpl; [left; by split|right].
  set (rest := drop _ content). split_and!; [done| |apply prefix_take|].
  - unfold strlen. rewrite length_take. lia.
  - intros E. unfold strlen in E. rewrite length_take in E.
    apply nil_length_inv. lia.
Qed.

Lemma chunked_sink k content chunk fd : @Sink (chunked k content chunk) fd k.
Proof.
  intros tr bs Hbs. simpl. case_decide as Hd; simpl; [left; by split|right].
  unfold strlen. lia.
Qed.

Theorem readn_witness :
  let o := chunked 1 (str "hello world") 4 in
  ∃ res buf s', readn 20 3 8 (init tt) = (Ret (res, buf), s') ∧
    readn_post 3 (str "hello world") (init tt) 8 (res, buf) s'.
Proof.
  intros o.
  exact (@readn_correct unit o 3 (str "hello world") 1
    (chunked_source 1 _ 4 3 ltac:(lia)) 20 8 (init tt) ltac:(lia) ltac:(lia)).
Defined.

Theorem writen_witness :
  let o := chunked 1 [] 4 in
  ∃ res s', writen 20 1 (str "hello world") 11 (init tt) = (Ret res, s') ∧
    writen_post 1 (init tt) (str "hello world") 11 res s'.
Proof.
  intros o.
  exact (@writen_correct unit o 1 1 (chunked_sink 1 [] 4 1) 20 (str "hello world") 11
    (init tt) ltac:(unfold strlen; simpl; lia) ltac:(lia)).
Defined.

Example readn_run :
  let o := chunked 1 (str "hello world") 4 in
  (readn 20 3 8 (init tt)).1 = Ret (8, str "hello wo").
Proof. reflexivity. Qed.
