(* ===== verification/ReadLine.v ===== *)
(** Reading lines: tlpi-book/lib/read_line.c and read_line_buf.c.

    Both are proved against the same specification, [next_line], over a
    descriptor that delivers its bytes in any chunks ([Source]). *)
From S2P Require Import Prelude Sys Rdwrn.

(** ** Specification *)

(** The next line of a stream (with its newline, or what is left when there is
    none) and what follows it. *)
Fixpoint next_line (s : cstr) : cstr * cstr :=
  match s with
  | [] => ([], [])
  | c :: r => if decide (c = NL) then ([c], r) else
      let '(l, r') := next_line r in (c :: l, r')
  end.

Lemma next_line_app got s :
  NL ∉ got → next_line (got ++ s) = (got ++ (next_line s).1, (next_line s).2).
Proof.
  induction got as [|c got IH]; intros Hn; simpl; [by destruct (next_line s)|].
  apply not_elem_of_cons in Hn as [Hc Hn].
  rewrite decide_False by done. by rewrite IH.
Qed.

Lemma next_line_split s : (next_line s).1 ++ (next_line s).2 = s.
Proof.
  induction s as [|c s IH]; simpl; [done|].
  case_decide; [done|]. destruct (next_line s). simpl in *. by rewrite IH.
Qed.

Lemma next_line_NL got s : NL ∉ got → next_line (got ++ NL :: s) = (got ++ [NL], s).
Proof. intros Hn. by rewrite next_line_app. Qed.

Lemma next_line_end got : NL ∉ got → next_line got = (got, []).
Proof.
  intros Hn. rewrite <-(app_nil_r got) at 1. rewrite next_line_app by done.
  simpl. by rewrite app_nil_r.
Qed.

(** ** read_line.c *)

Section ReadLine.
Context {S : Type} `{os}.

(** [readLine]: the result, the characters stored in [buffer], and whether a
    terminating NUL was stored after them. *)
Definition readLine (fuel : nat) (fd : Z) (null : bool) (n : Z) : M S (Z * cstr * bool) :=
  if (n <=? 0) || null then set_errno EINVAL;; mret (-1, [], false)
  else loop fuel (λ '(totRead, buf),
    r ← sys (Cread fd 1);
    if rv r =? -1 then
      e ← get_errno;
      if e =? EINTR then mret (inl (totRead, buf)) else mret (inr (-1, buf, false))
    else if rv r =? 0 then
      if totRead =? 0 then mret (inr (0, buf, false))
      else mret (inr (totRead, buf, true))
    else
      let ch := hd NUL (rdata r) in
      let '(totRead, buf) :=
        if totRead <? n - 1 then (totRead + 1, buf ++ [ch]) else (totRead, buf) in
      if decide (ch = NL) then mret (inr (totRead, buf, true))
      else mret (inl (totRead, buf))) (0, []).
End ReadLine.

(** ** read_line_buf.c *)

Definition RL_MAX_BUF : Z := 10.

(** [struct ReadLineBuf]. *)
Record ReadLineBuf := Rlbuf { rl_fd : Z; rl_buf : cstr; rl_next : Z; rl_len : Z }.

(** [readLineBufInit]: [buf] is what the structure happens to hold. *)
Definition readLineBufInit (fd : Z) (buf : cstr) : ReadLineBuf := Rlbuf fd buf 0 0.

Section ReadLineBuf.
Context `{os}.

(** Refill the buffer: [None] when the caller can go on, [Some res] when the
    function returns (read error) or the loop ends (end of file). *)
Definition rl_refill : M ReadLineBuf (option bool) :=
  g ← get;
  if rl_len g <=? rl_next g then
    r ← sys (Cread (rl_fd g) RL_MAX_BUF);
    let buf := if 0 <? rv r then rdata r ++ drop (length (rdata r)) (rl_buf g) else rl_buf g in
    put (Rlbuf (rl_fd g) buf (rl_next g) (rv r));;
    if rv r =? -1 then mret (Some false)
    else if rv r =? 0 then mret (Some true)
    else put (Rlbuf (rl_fd g) buf 0 (rv r));; mret None
  else mret None.

(** [readLineBuf]: the result and the characters stored in [buffer]. *)
Definition readLineBuf (fuel : nat) (null : bool) (n : Z) : M ReadLineBuf (Z * cstr) :=
  if (n <=? 0) || null then set_errno EINVAL;; mret (-1, [])
  else loop fuel (λ '(cnt, buffer),
    eof ← rl_refill;
    match eof with
    | Some false => mret (inr (-1, buffer))
    | Some true => mret (inr (cnt, buffer))
    | None =>
        g ← get;
        match rl_buf g !! Z.to_nat (rl_next g) with
        | None => stop_with (Undefined "read past buf")
        | Some c =>
            put (Rlbuf (rl_fd g) (rl_buf g) (rl_next g + 1) (rl_len g));;
            let '(cnt, buffer) :=
              if cnt <? n then (cnt + 1, buffer ++ [c]) else (cnt, buffer) in
            if decide (c = NL) then mret (inr (cnt, buffer))
            else mret (inl (cnt, buffer))
        end
    end) (0, []).
End ReadLineBuf.

(** ** Proofs *)

Lemma read_one fd tr r c :
  rdata r = [c] → 0 < rv r →
  taken fd (tr ++ [Esys (Cread fd 1) r]) = taken fd tr ++ [c].
Proof.
  intros Hd Hr. rewrite taken_snoc_read, Hd.
  destruct (Z.ltb_spec 0 (rv r)); [done|lia].
Qed.

(** A positive one-byte read delivers the next byte. *)
Lemma source_one `{Source fd content budget} tr :
  let r := kern tr (Cread fd 1) in
  rv r ≠ -1 → rv r ≠ 0 →
  ∃ c, rdata r = [c] ∧ rv r = 1 ∧ [c] `prefix_of` drop (length (taken fd tr)) content.
Proof.
  intros r Hne1 Hne0. destruct (source_reply tr 1 ltac:(lia)) as [[? _]|(Hr & Hn & Hp & _)]; [done|].
  fold r in Hr, Hn, Hp. unfold strlen in Hr.
  destruct (rdata r) as [|c [|c' l]] eqn:E; simpl in *; [lia| |lia].
  exists c. split_and!; [done|lia|done].
Qed.

Section ReadLineProof.
Context {S : Type} `{Source fd content budget}.

Definition unread (s : st S) : cstr := drop (length (taken fd (trace s))) content.

Definition line_inv (s0 : st S) (n : Z) (x : Z * cstr) (s : st S) : Prop :=
  ∃ got, taken fd (trace s) = taken fd (trace s0) ++ got ∧
    got `prefix_of` unread s0 ∧ (NL ∉ got) ∧
    x.2 = take (Z.to_nat (n - 1)) got ∧ x.1 = strlen x.2.

(** One line is consumed, its first [n - 1] characters are returned, and
    they are terminated unless the stream was at its end. *)
Definition readLine_post (s0 : st S) (n : Z) (x : Z * cstr * bool) (s : st S) : Prop :=
  let '(res, buf, term) := x in
  let line := (next_line (unread s0)).1 in
  (res = -1 ∧ errno s ≠ EINTR ∧ term = false) ∨
  (buf = take (Z.to_nat (n - 1)) line ∧ res = strlen buf ∧
   taken fd (trace s) = taken fd (trace s0) ++ line ∧
   term = bool_decide (line ≠ [])).

Lemma unread_after s0 s got :
  taken fd (trace s) = taken fd (trace s0) ++ got → unread s = drop (length got) (unread s0).
Proof. unfold unread. intros ->. by rewrite length_app, drop_drop. Qed.

Lemma line_store n got c :
  1 < n →
  (if strlen (take (Z.to_nat (n - 1)) got) <? n - 1
   then (strlen (take (Z.to_nat (n - 1)) got) + 1, take (Z.to_nat (n - 1)) got ++ [c])
   else (strlen (take (Z.to_nat (n - 1)) got), take (Z.to_nat (n - 1)) got)) =
  (strlen (take (Z.to_nat (n - 1)) (got ++ [c])), take (Z.to_nat (n - 1)) (got ++ [c])).
Proof.
  intros Hn. unfold strlen. destruct (Z.ltb_spec (Z.of_nat (length (take (Z.to_nat (n - 1)) got))) (n - 1)) as [Hl|Hl];
    rewrite length_take in Hl.
  - rewrite !take_ge by (rewrite ?length_app; simpl; lia).
    rewrite length_app. simpl. f_equal. lia.
  - rewrite take_app_le by lia. done.
Qed.

Lemma line_end_post s0 s n got c :
  1 < n → taken fd (trace s) = (taken fd (trace s0) ++ got) ++ [c] →
  got ++ [c] `prefix_of` unread s0 → NL ∉ got → c = NL →
  readLine_post s0 n
    (strlen (take (Z.to_nat (n - 1)) (got ++ [c])), take (Z.to_nat (n - 1)) (got ++ [c]), true) s.
Proof.
  intros Hn Ht [t Hp] Hg ->. right.
  rewrite <-app_assoc in Hp. rewrite Hp. simpl. rewrite next_line_NL by done. simpl.
  split_and!; [done|done|by rewrite Ht, app_assoc|].
  symmetry. apply bool_decide_eq_true. by destruct got.
Qed.

Lemma line_eof_post s0 s n got :
  1 < n → taken fd (trace s) = taken fd (trace s0) ++ got →
  got = unread s0 → NL ∉ got →
  readLine_post s0 n (strlen (take (Z.to_nat (n - 1)) got), take (Z.to_nat (n - 1)) got,
    negb (strlen (take (Z.to_nat (n - 1)) got) =? 0)) s.
Proof.
  intros Hn Ht E Hg. right. rewrite <-E, next_line_end by done. simpl.
  split_and!; [done..|]. unfold strlen. rewrite length_take.
  destruct got; simpl; [by rewrite Nat.min_0_r|].
  apply negb_true_iff, Z.eqb_neq. lia.
Qed.

Lemma readLine_wp fuel n (s : st S) :
  1 < n → (length content + budget < fuel)%nat →
  wp (readLine fuel fd false n) (readLine_post s n) (λ _ _, False) s.
Proof.
  intros Hn Hfuel. unfold readLine.
  destruct (Z.leb_spec n 0); [lia|]. simpl.
  apply (wp_loop (line_inv s n)
    (λ _ s', (length content - length (taken fd (trace s'))) + (budget - eintrs fd (trace s')))%nat).
  { exists []. split_and!; [by rewrite app_nil_r|apply prefix_nil|apply not_elem_of_nil|by rewrite take_nil|done]. }
  { lia. }
  intros [tot buf] s1 (got & Ht & Hp & Hnl & Hbuf & Htot). simpl in *. subst buf tot.
  apply wp_bind, wp_sys. set (r := kern (trace s1) (Cread fd 1)).
  pose proof (source_reply (trace s1) 1 ltac:(lia)) as Hr. fold r in Hr.
  change (drop (length (taken fd (trace s1))) content) with (unread s1) in Hr.
  rewrite (unread_after _ _ _ Ht) in Hr.
  destruct (Z.eqb_spec (rv r) (-1)) as [E1|E1]; [|destruct (Z.eqb_spec (rv r) 0) as [E0|E0]].
  - apply wp_bind. unfold wp at 1. simpl.
    assert (taken fd (trace s1 ++ [Esys (Cread fd 1) r]) = taken fd (trace s1)) as Hsame.
    { rewrite taken_snoc_read, E1. simpl. by rewrite app_nil_r. }
    destruct (Z.eqb_spec (rerr r) EINTR) as [E2|E2]; apply wp_ret; [|by left].
    split; [exists got; simpl; by rewrite Hsame|]. simpl. rewrite eintrs_read, Hsame, E1, E2. simpl.
    destruct Hr as [[_ Hr]|(Hr & _)]; [specialize (Hr E2); lia|unfold strlen in Hr; lia].
  - destruct Hr as [[? _]|(_ & _ & _ & He)]; [lia|specialize (He E0)].
    assert (got = unread s) as Hgot.
    { destruct Hp as [t Hp]. rewrite Hp, drop_app_length in He. subst t. by rewrite Hp, app_nil_r. }
    assert (taken fd (trace s1 ++ [Esys (Cread fd 1) r]) = taken fd (trace s) ++ got) as Ht2.
    { rewrite taken_snoc_read, E0, Ht. simpl. by rewrite app_nil_r. }
    pose proof (line_eof_post s (St (glob s1) (errno s1) (trace s1 ++ [Esys (Cread fd 1) r])) n got Hn Ht2 Hgot Hnl) as Hpost.
    destruct (Z.eqb_spec (strlen (take (Z.to_nat (n - 1)) got)) 0) as [Hz|Hz]; apply wp_ret.
    + rewrite Hz in Hpost. exact Hpost.
    + done.
  - destruct (source_one (trace s1)) as (c & Hc & Hv & Hpre); [done|done|].
    fold r in Hc, Hv. rewrite Hc. simpl hd. rewrite line_store by done.
    pose proof (read_one fd (trace s1) r c Hc ltac:(lia)) as Ht2. rewrite Ht in Ht2.
    change (drop (length (taken fd (trace s1))) content) with (unread s1) in Hpre.
    rewrite (unread_after _ _ _ Ht) in Hpre.
    pose proof (prefix_next _ _ _ Hp Hpre) as Hp2.
    destruct (decide (c = NL)) as [Hcn|Hcn]; apply wp_ret.
    + by apply line_end_post.
    + split.
      * exists (got ++ [c]). rewrite app_assoc. split_and!; try done.
        rewrite not_elem_of_app, list_elem_of_singleton. done.
      * simpl. rewrite eintrs_read, Ht2, Ht. destruct (Z.eqb_spec (rv r) (-1)); [done|]. simpl.
        destruct Hp2 as [t Hp2]. apply (f_equal length) in Hp2. unfold unread in Hp2.
        rewrite !length_app, length_drop in *. simpl in *. lia.
Qed.
End ReadLineProof.
Arguments unread {S} fd content s : rename.
Arguments readLine_post {S} fd content s0 n x s : rename.

(** The characters buffered but not yet delivered. *)
Definition pending (g : ReadLineBuf) : cstr :=
  drop (Z.to_nat (rl_next g)) (take (Z.to_nat (rl_len g)) (rl_buf g)).

Definition rl_wf (fd : Z) (g : ReadLineBuf) : Prop :=
  rl_fd g = fd ∧ 0 <= rl_next g ∧ rl_len g <= RL_MAX_BUF ∧ strlen (rl_buf g) = RL_MAX_BUF.

Lemma pending_nil g : rl_len g <= rl_next g → pending g = [].
Proof. intros H. unfold pending. apply drop_ge. rewrite length_take. lia. Qed.

(** [c = buf[next]; next++] takes the next character of the stream. *)
Lemma pending_cons fd g :
  rl_wf fd g → rl_next g < rl_len g →
  ∃ c, rl_buf g !! Z.to_nat (rl_next g) = Some c ∧
       pending g = c :: pending (Rlbuf (rl_fd g) (rl_buf g) (rl_next g + 1) (rl_len g)).
Proof.
  intros (_ & Hn & Hl & Hb) Hlt. unfold strlen in Hb.
  assert (is_Some (rl_buf g !! Z.to_nat (rl_next g))) as [c Hc].
  { apply lookup_lt_is_Some_2. lia. }
  exists c. split; [done|]. unfold pending. simpl.
  erewrite drop_S; [|rewrite lookup_take_lt; [exact Hc|lia]].
  do 3 f_equal. lia.
Qed.

Section ReadLineBufProof.
Context `{Source fd content budget}.
Implicit Types s : st ReadLineBuf.

(** What is still to be delivered: buffered characters, then the unread part
    of the descriptor's content. *)
Definition stream_of s : cstr := pending (glob s) ++ unread fd content s.

Lemma unread_read s n r :
  0 < rv r → rdata r `prefix_of` unread fd content s →
  rdata r ++ drop (length (taken fd (trace s ++ [Esys (Cread fd n) r]))) content =
    unread fd content s.
Proof.
  intros Hv [t Ht]. rewrite taken_snoc_read.
  destruct (Z.ltb_spec 0 (rv r)); [|lia].
  rewrite length_app, <-drop_drop. unfold unread in *. rewrite Ht.
  by rewrite drop_app_length.
Qed.

Lemma unread_same s n r :
  rv r <= 0 →
  drop (length (taken fd (trace s ++ [Esys (Cread fd n) r]))) content = unread fd content s.
Proof.
  intros Hv. rewrite taken_snoc_read. destruct (Z.ltb_spec 0 (rv r)); [lia|].
  by rewrite app_nil_r.
Qed.

Lemma rl_refill_wp s :
  rl_wf fd (glob s) →
  wp rl_refill (λ r s', rl_wf fd (glob s') ∧ stream_of s' = stream_of s ∧
    match r with
    | Some false => True
    | Some true => stream_of s = []
    | None => rl_next (glob s') < rl_len (glob s')
    end) (λ _ _, False) s.
Proof.
  intros Hwf. pose proof Hwf as (Hfd & Hn & Hl & Hb). unfold rl_refill.
  apply wp_bind. unfold wp at 1, get.
  destruct (Z.leb_spec (rl_len (glob s)) (rl_next (glob s))) as [Hle|Hlt].
  2:{ apply wp_ret. done. }
  apply wp_bind, wp_sys. rewrite Hfd. set (r := kern (trace s) (Cread fd RL_MAX_BUF)).
  pose proof (source_reply (trace s) RL_MAX_BUF ltac:(done)) as Hr. fold r in Hr.
  change (drop (length (taken fd (trace s))) content) with (unread fd content s) in Hr.
  apply wp_bind. unfold wp at 1, put. simpl.
  assert (stream_of s = unread fd content s) as Hs by (unfold stream_of; by rewrite pending_nil).
  destruct (Z.eqb_spec (rv r) (-1)) as [E1|E1]; [|destruct (Z.eqb_spec (rv r) 0) as [E0|E0]].
  - apply wp_ret. rewrite E1. split; [by split_and!|split; [|done]].
    rewrite Hs. unfold stream_of. simpl. rewrite pending_nil by (simpl; lia).
    apply unread_same. lia.
  - apply wp_ret. rewrite E0. split; [by split_and!|split].
    + rewrite Hs. unfold stream_of. simpl. rewrite pending_nil by (simpl; lia).
      apply unread_same. lia.
    + rewrite Hs. destruct Hr as [[? _]|(_ & _ & _ & He)]; [lia|by apply He].
  - destruct Hr as [[? _]|(Hv & Hle2 & Hp & _)]; [done|].
    assert (0 < rv r) as Hpos by (unfold strlen in Hv; lia).
    destruct (Z.ltb_spec 0 (rv r)); [|lia].
    apply wp_bind. unfold wp at 1, put. simpl. apply wp_ret. split; [split_and!; simpl; [done|lia|done|]|split; [|simpl; lia]].
    + unfold strlen in *. rewrite length_app, length_drop. unfold RL_MAX_BUF in *. lia.
    + rewrite Hs, <-(unread_read s RL_MAX_BUF r Hpos Hp). unfold stream_of, pending. simpl.
      rewrite drop_0. f_equal. rewrite take_app_le by (unfold strlen in *; lia).
      apply take_ge. unfold strlen in *. lia.
Qed.

Definition buf_inv (s0 : st ReadLineBuf) (n : Z) (x : Z * cstr) s : Prop :=
  rl_wf fd (glob s) ∧
  ∃ got, stream_of s0 = got ++ stream_of s ∧ (NL ∉ got) ∧
    x.2 = take (Z.to_nat n) got ∧ x.1 = strlen x.2.

(** One line of the stream is consumed and its first [n] characters are
    returned, whatever the chunks it arrived in; -1 only after a failed
    read. *)
Definition readLineBuf_post (s0 : st ReadLineBuf) (n : Z) (x : Z * cstr) s : Prop :=
  rl_wf fd (glob s) ∧
  (x.1 = -1 ∨
   x.2 = take (Z.to_nat n) (next_line (stream_of s0)).1 ∧ x.1 = strlen x.2 ∧
   stream_of s = (next_line (stream_of s0)).2).

Lemma buf_store n got c :
  0 < n →
  (if strlen (take (Z.to_nat n) got) <? n
   then (strlen (take (Z.to_nat n) got) + 1, take (Z.to_nat n) got ++ [c])
   else (strlen (take (Z.to_nat n) got), take (Z.to_nat n) got)) =
  (strlen (take (Z.to_nat n) (got ++ [c])), take (Z.to_nat n) (got ++ [c])).
Proof.
  intros Hn. pose proof (line_store (n + 1) got c ltac:(lia)) as E.
  by replace (n + 1 - 1) with n in E by lia.
Qed.

Lemma readLineBuf_wp fuel n s :
  0 < n → rl_wf fd (glob s) → (length (stream_of s) < fuel)%nat →
  wp (readLineBuf fuel false n) (readLineBuf_post s n) (λ _ _, False) s.
Proof.
  intros Hn Hwf Hfuel. unfold readLineBuf.
  destruct (Z.leb_spec n 0); [lia|]. simpl.
  apply (wp_loop (buf_inv s n) (λ _ s', length (stream_of s'))); [|done|].
  { split; [done|]. exists []. split_and!; [done|apply not_elem_of_nil|by rewrite take_nil|done]. }
  intros [cnt buffer] s1 (Hwf1 & got & Hs & Hnl & Hbuf & Hcnt). simpl in *. subst buffer cnt.
  apply wp_bind. eapply wp_mono; [by apply rl_refill_wp| |done].
  intros [[]|] s2 (Hwf2 & Hst & Hr).
  - apply wp_ret. split; [done|right]. simpl.
    rewrite Hr, app_nil_r in Hs. rewrite Hs, next_line_end by done. by rewrite Hst.
  - apply wp_ret. split; [done|by left].
  - destruct (pending_cons fd (glob s2)) as (c & Hc & Hp); [done|done|].
    apply wp_bind, wp_get. rewrite Hc. apply wp_bind, wp_put.
    rewrite buf_store by done.
    set (s3 := St _ (errno s2) (trace s2)).
    assert (rl_wf fd (glob s3)) as Hwf3 by (destruct Hwf2 as (?&?&?&?); split_and!; simpl; [done|lia|done..]).
    assert (stream_of s2 = c :: stream_of s3) as Hcons by (unfold stream_of; by rewrite Hp).
    rewrite <-Hst, Hcons in Hs.
    destruct (decide (c = NL)) as [->|Hcn]; apply wp_ret.
    + split; [done|right]. simpl. rewrite Hs, next_line_NL by done. done.
    + split; [|rewrite <-Hst, Hcons; simpl; lia].
      split; [done|]. exists (got ++ [c]). rewrite <-app_assoc. split_and!; try done.
      rewrite not_elem_of_app, list_elem_of_singleton. done.
Qed.
End ReadLineBufProof.
Arguments stream_of : clear implicits.
Arguments readLineBuf_post : clear implicits.

(** ** readLine over a descriptor of which nothing is known *)

(** The characters that the reads of a list of calls delivered. *)
Definition chars (l : list (call * reply)) : cstr :=
  omap (λ x, match x.1 with
             | Cread _ _ => if (rv x.2 =? -1) || (rv x.2 =? 0) then None else Some (hd NUL (rdata x.2))
             | _ => None
             end) l.

Lemma chars_snoc l c r n fd : c = Cread fd n →
  chars (l ++ [(c, r)]) = chars l ++ (if (rv r =? -1) || (rv r =? 0) then [] else [hd NUL (rdata r)]).
Proof. intros ->. unfold chars. rewrite omap_app. f_equal. simpl. by destruct (_ || _). Qed.

(** The events of a list of calls. *)
Definition sys_events (l : list (call * reply)) : list event := (λ x, Esys x.1 x.2) <$> l.

Definition reads_of (fd : Z) (l : list (call * reply)) : Prop := Forall (λ x, x.1 = Cread fd 1) l.

Lemma wlp_readLine {S} `{os} fuel fd n (s : st S) : 0 < n →
  wlp (readLine fuel fd false n)
    (λ '(res, buf, term) s', glob s' = glob s ∧ ∃ l, calls (trace s') = calls (trace s) ++ l ∧
       trace s' = trace s ++ sys_events l ∧ reads_of fd l ∧
       (0 < res → buf = take (Z.to_nat (n - 1)) (chars l) ∧ term = true ∧ res = strlen buf))
    (λ _ _, False)
    (λ s', glob s' = glob s ∧ ∃ l, trace s' = trace s ++ sys_events l ∧ reads_of fd l) s.
Proof.
  intros Hn. unfold readLine. destruct (Z.leb_spec n 0); [lia|]. cbn [orb].
  apply (wlp_loop (λ '(tot, buf) s', glob s' = glob s ∧ ∃ l, calls (trace s') = calls (trace s) ++ l ∧
    trace s' = trace s ++ sys_events l ∧ reads_of fd l ∧
    buf = take (Z.to_nat (n - 1)) (chars l) ∧ tot = strlen buf)).
  { split; [done|]. exists []. split_and!; [by rewrite app_nil_r|by unfold sys_events; cbn; rewrite app_nil_r|by apply Forall_nil_2|by destruct (Z.to_nat (n - 1))|done]. }
  { intros [tot buf] s' (Hg & l & _ & Ht & Hr & _). split; [done|]. by exists l. }
  intros [tot buf] s1 (Hg & l & Hc & Ht & Hr & Hb & Htot). apply wp_wlp, wp_bind, wp_call.
  intros r s2 _ Hg2 _ Hc2 Ht2.
  assert (glob s2 = glob s ∧ calls (trace s2) = calls (trace s) ++ (l ++ [(Cread fd 1, r)]) ∧
    trace s2 = trace s ++ sys_events (l ++ [(Cread fd 1, r)]) ∧ reads_of fd (l ++ [(Cread fd 1, r)])) as (G & C & T & R).
  { split_and!; [congruence|by rewrite Hc2, Hc, app_assoc|by unfold sys_events; rewrite Ht2, Ht, fmap_app, app_assoc|].
    apply Forall_app. split; [done|]. by repeat constructor. }
  pose proof (chars_snoc l (Cread fd 1) r 1 fd eq_refl) as Hch.
  destruct (Z.eqb_spec (rv r) (-1)) as [E1|E1]; [|destruct (Z.eqb_spec (rv r) 0) as [E0|E0]]; cbn [orb] in Hch;
    rewrite ?app_nil_r in Hch.
  - apply wp_bind, wp_get_errno. destruct (_ =? EINTR); apply wp_ret.
    + split; [done|]. exists (l ++ [(Cread fd 1, r)]). by rewrite Hch.
    + split; [done|]. exists (l ++ [(Cread fd 1, r)]). split_and!; [done..|lia].
  - destruct (tot =? 0); apply wp_ret; (split; [done|]); exists (l ++ [(Cread fd 1, r)]); split_and!; try done.
    intros _. by rewrite Hch.
  - assert ((if tot <? n - 1 then (tot + 1, buf ++ [hd NUL (rdata r)]) else (tot, buf)) =
      (strlen (take (Z.to_nat (n - 1)) (chars (l ++ [(Cread fd 1, r)]))), take (Z.to_nat (n - 1)) (chars (l ++ [(Cread fd 1, r)])))) as ->.
    { rewrite Hch, Htot, Hb. unfold strlen.
      destruct (Z.ltb_spec (Z.of_nat (length (take (Z.to_nat (n - 1)) (chars l)))) (n - 1)) as [Hl|Hl]; rewrite length_take in Hl.
      - rewrite !take_ge by (rewrite ?length_app; simpl; lia). rewrite length_app. simpl. f_equal. lia.
      - by rewrite take_app_le by lia. }
    cbv zeta iota. case_decide; apply wp_ret; (split; [done|]); exists (l ++ [(Cread fd 1, r)]); by split_and!.
Qed.

(** ** The properties *)

(** [readLine fd buffer n] consumes exactly one line of the descriptor's
    content (or what is left at end of file), whatever the interruptions,
    returns its first n - 1 characters and their number, and terminates the
    buffer with NUL except when it returns 0 at end of file; or it returns -1
    for an error other than EINTR.  It always returns. *)
Theorem readLine_correct {S} `{Source fd content budget} fuel n (s : st S) :
  1 < n → (length content + budget < fuel)%nat →
  ∃ res buf term s', readLine fuel fd false n s = (Ret (res, buf, term), s') ∧
    readLine_post fd content s n (res, buf, term) s'.
Proof.
  intros Hn Hf.
  destruct (wp_run _ _ _ _ (readLine_wp fuel n s Hn Hf)) as [([[??]?]&?&?&?)|(?&?&?&[])].
  eauto 8.
Qed.


(** [readLine] with a buffer of n + 1 bytes and readLineBuf with one of n
    bytes agree: run on descriptors that have the same bytes left, under any
    two kernels and any chunking, both deliver the same characters, unless one
    of them reports an error. *)
Theorem readLine_readLineBuf_agree {S} (o1 o2 : os) fd1 fd2 content1 content2 b1 b2
    `{!@Source o1 fd1 content1 b1} `{!@Source o2 fd2 content2 b2}
    fuel n (s1 : st S) (s2 : st ReadLineBuf) res1 buf1 term s1' res2 buf2 s2' :
  0 < n → rl_wf fd2 (glob s2) →
  unread fd1 content1 s1 = stream_of fd2 content2 s2 →
  (length content1 + b1 < fuel)%nat → (length (stream_of fd2 content2 s2) < fuel)%nat →
  @readLine S o1 fuel fd1 false (n + 1) s1 = (Ret (res1, buf1, term), s1') →
  @readLineBuf o2 fuel false n s2 = (Ret (res2, buf2), s2') →
  res1 = -1 ∨ res2 = -1 ∨ (buf1 = buf2 ∧ res1 = res2).
Proof.
  intros Hn Hwf Hsame Hf1 Hf2 H1 H2.
  pose proof (readLine_wp (fd := fd1) fuel (n + 1) s1 ltac:(lia) Hf1) as W1.
  pose proof (readLineBuf_wp (fd := fd2) fuel n s2 Hn Hwf Hf2) as W2.
  unfold wp in W1, W2. rewrite H1 in W1. rewrite H2 in W2.
  destruct W1 as [(-> & _)|(-> & -> & _)]; [by left|right].
  destruct W2 as [_ [E|(E2 & E3 & _)]]; simpl in *; [by left|right].
  rewrite Hsame. replace (n + 1 - 1) with n by lia. by subst.
Qed.

Theorem readLine_witness :
  let o := chunked 1 (str "ab
cd") 4 in
  ∃ res buf term s', readLine 20 3 false 8 (init tt) = (Ret (res, buf, term), s') ∧
    readLine_post 3 (str "ab
cd") (init tt) 8 (res, buf, term) s'.
Proof.
  intros o.
  exact (@readLine_correct unit o 3 _ 1 (chunked_source 1 _ 4 3 ltac:(lia)) 20 8 (init tt)
    ltac:(lia) ltac:(simpl; lia)).
Defined.

Definition rl0 : ReadLineBuf := readLineBufInit 3 (replicate 10 NUL).

Lemma rl0_wf : rl_wf 3 rl0.
Proof. split_and!; done. Qed.


Theorem agree_witness :
  let content := str "ab
cd" in
  3 = -1 ∨ 3 = -1 ∨ (take 3 content = take 3 content ∧ 3 = 3).
Proof.
  intros content.
  exact (@readLine_readLineBuf_agree unit (chunked 1 content 4) (chunked 0 content 2) 3 3
    content content 1 0 (chunked_source 1 content 4 3 ltac:(lia))
    (chunked_source 0 content 2 3 ltac:(lia)) 20 7 (init tt) (init rl0)
    3 (take 3 content) true _ 3 (take 3 content) _
    ltac:(lia) rl0_wf eq_refl ltac:(simpl; lia) ltac:(simpl; lia) eq_refl eq_refl).
Defined.
