(* ===== verification/ErrorFns.v ===== *)
(** Error reporting: tlpi-book/lib/error_functions.c.

    A [format] with its arguments is the text printf makes of it. *)
From S2P Require Import Prelude Sys.

Definition BUF_SIZE : Z := 500.

Section Functions.
Context {S : Type} `{os}.

Definition terminate {A} (useExit3 : bool) : M S A :=
  match getenv (str "EF_DUMPCORE") with
  | Some (_ :: _) => stop_with Abort
  | _ => if useExit3 then stop_with (Exit 1) else stop_with (FastExit 1)
  end.

Definition outputError (useErr : bool) (err : Z) (flushStdout : bool) (text : cstr) : M S unit :=
  let userMsg := snprintf BUF_SIZE text in
  let errText :=
    if useErr then
      snprintf BUF_SIZE (str " [" ++
        (if (err >? 0) && (err <=? max_ename) then ename err else str "?UNKNOWN?") ++
        str " " ++ strerror err ++ str "]")
    else snprintf BUF_SIZE (str ":") in
  let buf := snprintf BUF_SIZE (str "ERROR" ++ errText ++ str " " ++ userMsg ++ [NL]) in
  (if flushStdout then sys (Cfflush Stdout);; mret tt else mret tt);;
  out Stderr buf;;
  sys (Cfflush Stderr);;
  mret tt.

Definition errMsg (text : cstr) : M S unit :=
  savedErrno ← get_errno;
  e ← get_errno;
  outputError true e true text;;
  set_errno savedErrno.

Definition errExit {A} (text : cstr) : M S A :=
  e ← get_errno;
  outputError true e true text;;
  terminate true.

Definition err_exit {A} (text : cstr) : M S A :=
  e ← get_errno;
  outputError true e false text;;
  terminate false.

Definition errExitEN {A} (errnum : Z) (text : cstr) : M S A :=
  outputError true errnum true text;;
  terminate true.

Definition fatal {A} (text : cstr) : M S A :=
  outputError false 0 true text;;
  terminate true.

Definition usageErr {A} (text : cstr) : M S A :=
  sys (Cfflush Stdout);;
  out Stderr (str "Usage: ");;
  out Stderr text;;
  sys (Cfflush Stderr);;
  stop_with (Exit 1).

Definition cmdLineErr {A} (text : cstr) : M S A :=
  sys (Cfflush Stdout);;
  out Stderr (str "Command-line usage error: ");;
  out Stderr text;;
  sys (Cfflush Stderr);;
  stop_with (Exit 1).
End Functions.

(** ** What reaches the terminal *)

(** The text a stream was given, and the flushes of standard output, in
    order. *)
Definition seen (e : event) : option (stream * cstr) :=
  match e with
  | Eout f t => Some (f, t)
  | Esys (Cfflush f) _ => Some (f, [])
  | _ => None
  end.
Definition shown (tr : list event) : list (stream * cstr) := omap seen tr.

Lemma shown_app a b : shown (a ++ b) = shown a ++ shown b.
Proof. apply omap_app. Qed.

(** The calls that are not flushes of a stream. *)
Definition act (e : event) : option (call * reply) :=
  match e with
  | Esys (Cfflush _) _ => None
  | Esys c r => Some (c, r)
  | Eout _ _ => None
  end.
Definition acts (tr : list event) : list (call * reply) := omap act tr.

Lemma acts_app a b : acts (a ++ b) = acts a ++ acts b.
Proof. apply omap_app. Qed.

(** The message: its error part and its text, cut at the size of the
    buffer. *)
Definition error_text `{os} (err : option Z) : cstr :=
  match err with
  | Some e => str " [" ++ (if (e >? 0) && (e <=? max_ename) then ename e else str "?UNKNOWN?") ++
              str " " ++ strerror e ++ str "]"
  | None => str ":"
  end.
Definition whole_message `{os} (err : option Z) (text : cstr) : cstr :=
  str "ERROR" ++ error_text err ++ str " " ++ text ++ [NL].

Definition end_of `{os} (useExit3 : bool) : stop :=
  match getenv (str "EF_DUMPCORE") with
  | Some (_ :: _) => Abort
  | _ => if useExit3 then Exit 1 else FastExit 1
  end.

Section Specs.
Context {S : Type} `{os}.
Implicit Types s : st S.

Lemma terminate_run {A} b s : terminate (A:=A) b s = (Stop (end_of b), s).
Proof. unfold terminate, end_of. destruct (getenv _) as [[|c r]|]; by destruct b. Qed.

Lemma take_app_cut {A} n (a b c : list A) : take n (a ++ take n b ++ c) = take n (a ++ b ++ c).
Proof.
  destruct (decide (length b <= n)%nat).
  { by rewrite (take_ge b) by lia. }
  rewrite !take_app, !length_take. f_equal.
  rewrite take_take. replace (n - length a)%nat with (n - length a)%nat by done.
  assert (take (n - length a - n `min` length b) c = []) as ->.
  { replace (n - length a - n `min` length b)%nat with O by lia. done. }
  assert (take (n - length a - length b) c = []) as ->.
  { replace (n - length a - length b)%nat with O by lia. done. }
  f_equal. f_equal. lia.
Qed.

(** Three buffers of [BUF_SIZE] cut the message as one would. *)
Lemma message_cut err text :
  snprintf BUF_SIZE (str "ERROR" ++ snprintf BUF_SIZE (error_text err) ++ str " " ++ snprintf BUF_SIZE text ++ [NL]) =
    snprintf BUF_SIZE (whole_message err text).
Proof.
  unfold whole_message, snprintf. set (n := Z.to_nat _).
  rewrite take_app_cut, !app_assoc. rewrite <-(app_assoc _ (take n text)).
  by rewrite take_app_cut, <-!app_assoc.
Qed.

Lemma outputError_run useErr err fl text s :
  ∃ s', outputError useErr err fl text s = (Ret tt, s') ∧ glob s' = glob s ∧
    acts (trace s') = acts (trace s) ∧
    shown (trace s') = shown (trace s) ++ (if fl then [(Stdout, [])] else []) ++
      [(Stderr, snprintf BUF_SIZE (whole_message (if useErr then Some err else None) text)); (Stderr, [])].
Proof.
  rewrite <-message_cut. destruct useErr, fl; eexists; (split; [reflexivity|]); (split; [done|]);
    simpl; rewrite !shown_app, !acts_app, ?app_nil_r, <-?app_assoc; done.
Qed.

Lemma wp_errExit {A} text (Q : A → st S → Prop) E s :
  (∀ s', glob s' = glob s → acts (trace s') = acts (trace s) →
    shown (trace s') = shown (trace s) ++
      [(Stdout, []); (Stderr, snprintf BUF_SIZE (whole_message (Some (errno s)) text)); (Stderr, [])] →
    E (end_of true) s') →
  wp (errExit text) Q E s.
Proof.
  intros HE. destruct (outputError_run true (errno s) true text s) as (s1 & E1 & G & A1 & H1).
  unfold wp, errExit. rewrite (bind_Ret _ _ _ (errno s) s) by done.
  rewrite (bind_Ret _ _ _ _ _ E1), terminate_run. by apply HE.
Qed.

Lemma wp_fatal {A} text (Q : A → st S → Prop) E s :
  (∀ s', glob s' = glob s → acts (trace s') = acts (trace s) → E (end_of true) s') → wp (fatal text) Q E s.
Proof.
  intros HE. destruct (outputError_run false 0 true text s) as (s1 & E1 & G & A1 & H1).
  unfold wp, fatal. rewrite (bind_Ret _ _ _ _ _ E1), terminate_run. by apply HE.
Qed.

Lemma wp_usageErr {A} text (Q : A → st S → Prop) E s :
  (∀ s', glob s' = glob s → acts (trace s') = acts (trace s) → E (Exit 1) s') → wp (usageErr text) Q E s.
Proof.
  intros HE. unfold wp, usageErr. cbn. apply HE; [done|]. cbn. rewrite !acts_app. cbn. by rewrite !app_nil_r.
Qed.

Lemma wp_errMsg text (Q : unit → st S → Prop) E s :
  (∀ s', glob s' = glob s → errno s' = errno s → acts (trace s') = acts (trace s) → Q tt s') → wp (errMsg text) Q E s.
Proof.
  intros HQ. destruct (outputError_run true (errno s) true text s) as (s1 & E1 & G & A1 & H1).
  unfold wp, errMsg. rewrite (bind_Ret _ _ _ (errno s) s) by done.
  rewrite (bind_Ret _ _ _ (errno s) s) by done. rewrite (bind_Ret _ _ _ _ _ E1). by apply HQ.
Qed.

Lemma acts_call tr c r : (∀ f, c ≠ Cfflush f) → acts (tr ++ [Esys c r]) = acts tr ++ [(c, r)].
Proof. intros Hc. rewrite acts_app. f_equal. destruct c; try done. by destruct (Hc f). Qed.

Lemma acts_out tr f t : acts (tr ++ [Eout f t]) = acts tr.
Proof. rewrite acts_app. apply app_nil_r. Qed.
End Specs.

(** Reporting an error is writing and flushing. *)
Definition reports (e : event) : Prop :=
  match e with Eout f _ => f = Stderr | Esys (Cfflush _) _ => True | Esys _ _ => False end.

Lemma outputError_ran {S} `{os} useErr err fl text (s : st S) :
  wp (outputError useErr err fl text) (λ _ s', ran reports (trace s) (trace s') ∧ glob s' = glob s) (λ _ _, False) s.
Proof.
  unfold outputError. destruct fl; cbn; (split; [|done]).
  - by repeat first [apply ran_sys|apply ran_out|apply ran_refl].
  - by repeat first [apply ran_sys|apply ran_out|apply ran_refl].
Qed.

Lemma wp_errExit_ran {S} `{os} {A} text (Q : A → st S → Prop) E s :
  (∀ s', ran reports (trace s) (trace s') → glob s' = glob s → E (end_of true) s') → wp (errExit text) Q E s.
Proof.
  intros HE. unfold errExit. apply wp_bind, wp_get_errno, wp_bind. eapply wp_mono; [apply outputError_ran| |done].
  intros _ s' [H1 H2]. cbn beta. unfold wp. rewrite terminate_run. by apply HE.
Qed.

Lemma wp_fatal_ran {S} `{os} {A} text (Q : A → st S → Prop) E s :
  (∀ s', ran reports (trace s) (trace s') → glob s' = glob s → E (end_of true) s') → wp (fatal text) Q E s.
Proof.
  intros HE. unfold fatal. apply wp_bind. eapply wp_mono; [apply outputError_ran| |done].
  intros _ s' [H1 H2]. cbn beta. unfold wp. rewrite terminate_run. by apply HE.
Qed.

(** ** Histories without the flushes, and exit handlers *)

(** The calls other than flushes made between two states. *)
Definition acted {S} (s : st S) (b : list (call * reply)) (s' : st S) : Prop :=
  acts (trace s') = acts (trace s) ++ b ∧ glob s' = glob s.

Lemma acted_refl {S} (s : st S) : acted s [] s.
Proof. split; [by rewrite app_nil_r|done]. Qed.

Lemma acted_call {S} (s s1 s2 : st S) b c r : acted s b s1 →
  trace s2 = trace s1 ++ [Esys c r] → glob s2 = glob s1 → (∀ f, c ≠ Cfflush f) → acted s (b ++ [(c, r)]) s2.
Proof. intros [Ha Hg] Ht Hg2 Hc. split; [by rewrite Ht, acts_call, Ha, app_assoc|congruence]. Qed.

Lemma acted_unique {S} (s s' : st S) a b : acted s a s' → acted s b s' → a = b.
Proof. intros [H1 _] [H2 _]. rewrite H1 in H2. by apply app_inv_head in H2. Qed.

Lemma acted_same {S} (s s1 s2 : st S) b : acted s b s1 → acts (trace s2) = acts (trace s1) → glob s2 = glob s1 → acted s b s2.
Proof. intros [Ha Hg] H1 H2. split; congruence. Qed.

(** A function registered with atexit runs when the process exits, not when it
    is aborted or killed; it may not call exit itself. *)
Definition at_exit {S A} (cleanup : M S unit) (m : M S A) : M S A := λ s,
  match m s with
  | (Stop (Exit n), s') =>
      match cleanup s' with
      | (Ret _, s') => (Stop (Exit n), s')
      | (Stop (Exit _), s') => (Stop (Undefined "exit in an exit handler"), s')
      | (Stop t, s') => (Stop t, s')
      | (NoFuel, s') => (NoFuel, s')
      end
  | x => x
  end.

Lemma wp_at_exit {S A} cleanup (m : M S A) (Q : A → st S → Prop) E E' s :
  wp m Q E' s →
  (∀ n s', E' (Exit n) s' →
    wp cleanup (λ _, E (Exit n)) (λ t, E (match t with Exit _ => Undefined "exit in an exit handler" | _ => t end)) s') →
  (∀ t s', E' t s' → (∀ n, t ≠ Exit n) → E t s') →
  wp (at_exit cleanup m) Q E s.
Proof.
  unfold wp, at_exit. intros Hm Hc Ho. destruct (m s) as [[a|[]|] s']; try done; try (by apply Ho).
  specialize (Hc _ _ Hm). destruct (cleanup s') as [[|t|] s'']; [done| |done]. by destruct t.
Qed.

Lemma wlp_at_exit {S A} cleanup (m : M S A) (Q : A → st S → Prop) E E' F s :
  wlp m Q E' F s →
  (∀ n s', E' (Exit n) s' →
    wp cleanup (λ _, E (Exit n)) (λ t, E (match t with Exit _ => Undefined "exit in an exit handler" | _ => t end)) s') →
  (∀ t s', E' t s' → (∀ n, t ≠ Exit n) → E t s') →
  wlp (at_exit cleanup m) Q E F s.
Proof.
  unfold wp, wlp, at_exit. intros Hm Hc Ho. destruct (m s) as [[a|[]|] s']; try done; try (by apply Ho).
  specialize (Hc _ _ Hm). destruct (cleanup s') as [[|t|] s'']; [done| |done]. by destruct t.
Qed.

(** ** The properties *)

(** The function errMsg reports errno as it was on entry and leaves it so, whatever the
    flushes do to it: standard output is flushed before the message, the
    message is "ERROR [name text] msg" cut at 499 characters, and the caller's
    errno and state are unchanged. *)
Theorem errMsg_correct {S} `{os} text (s : st S) :
  ∃ s', errMsg text s = (Ret tt, s') ∧ errno s' = errno s ∧ glob s' = glob s ∧
    shown (trace s') = shown (trace s) ++
      [(Stdout, []); (Stderr, snprintf BUF_SIZE (whole_message (Some (errno s)) text)); (Stderr, [])].
Proof.
  destruct (outputError_run true (errno s) true text s) as (s1 & E & G & _ & Hs).
  exists (St (glob s1) (errno s) (trace s1)). split; [|done].
  unfold errMsg. rewrite (bind_Ret _ _ _ (errno s) s) by done.
  rewrite (bind_Ret _ _ _ (errno s) s) by done. by rewrite (bind_Ret _ _ _ _ _ E).
Qed.


Example fatal_run :
  let o := test_os (λ _ _, ok 0) in
  let r := fatal (A:=unit) (str "no luck") (init tt) in
  r.1 = Stop (Exit 1) ∧ shown (trace r.2) = [(Stdout, []); (Stderr, str "ERROR: no luck" ++ [NL]); (Stderr, [])].
Proof. by vm_compute. Qed.
