(* ===== verification/GetNum.v ===== *)
(** Numbers from text: strtol(3) and atoi(3) as the C library defines them,
    and tlpi-book/lib/get_num.c over them. *)
From S2P Require Import Prelude Sys.

(** ** strtol *)

Definition isspace (c : ascii) : bool :=
  let z := code c in (z =? 32) || ((9 <=? z) && (z <=? 13)).

(** The value of a digit or letter. *)
Definition digit_val (c : ascii) : option Z :=
  let z := code c in
  if (48 <=? z) && (z <=? 57) then Some (z - 48)
  else if (97 <=? z) && (z <=? 122) then Some (z - 87)
  else if (65 <=? z) && (z <=? 90) then Some (z - 55)
  else None.

Definition digit_in (b : Z) (c : ascii) : option Z :=
  v ← digit_val c; if v <? b then Some v else None.

Fixpoint skip_spaces (s : cstr) : cstr :=
  match s with
  | c :: r => if isspace c then skip_spaces r else s
  | [] => []
  end.

(** The longest run of digits of base [b], and what follows it. *)
Fixpoint take_digits (b : Z) (s : cstr) : list Z * cstr :=
  match s with
  | [] => ([], [])
  | c :: r =>
      match digit_in b c with
      | Some v => let '(vs, rest) := take_digits b r in (v :: vs, rest)
      | None => ([], s)
      end
  end.

Definition digits_value (b : Z) (vs : list Z) : Z := foldl (λ n v, n * b + v) 0 vs.

Definition is_x (c : ascii) : bool := (code c =? 120) || (code c =? 88).

(** The digits after the sign: the base they are in, and where they start. *)
Definition radix (base : Z) (s : cstr) : Z * cstr :=
  match s with
  | z :: x :: h :: r =>
      if ((base =? 0) || (base =? 16)) && (code z =? 48) && is_x x
         && bool_decide (is_Some (digit_in 16 h))
      then (16, h :: r)
      else if base =? 0 then (if code z =? 48 then 8 else 10, s) else (base, s)
  | z :: _ => if base =? 0 then (if code z =? 48 then 8 else 10, s) else (base, s)
  | [] => (if base =? 0 then 10 else base, s)
  end.

Definition take_sign (s : cstr) : bool * cstr :=
  match s with
  | c :: r => if code c =? 45 then (true, r) else if code c =? 43 then (false, r) else (false, s)
  | [] => (false, [])
  end.

(** [strtol (s, &endptr, base)]: the value, the text at [endptr], and the
    errno it sets (0 when it sets none). *)
Definition strtol (s : cstr) (base : Z) : Z * cstr * Z :=
  let '(neg, s1) := take_sign (skip_spaces s) in
  let '(b, s2) := radix base s1 in
  let '(vs, rest) := take_digits b s2 in
  match vs with
  | [] => (0, s, 0)
  | _ =>
      let n := if (neg : bool) then - digits_value b vs else digits_value b vs in
      if n >? LONG_MAX then (LONG_MAX, rest, ERANGE)
      else if n <? LONG_MIN then (LONG_MIN, rest, ERANGE)
      else (n, rest, 0)
  end.

(** glibc: [(int) strtol (s, NULL, 10)]. *)
Definition atoi (s : cstr) : Z := wrap_s 32 (fst (fst (strtol s 10))).

(** ** get_num.c *)

Definition GN_NONNEG : Z := 1.
Definition GN_GT_0 : Z := 2.
Definition GN_ANY_BASE : Z := 64.
Definition GN_BASE_8 : Z := 128.
Definition GN_BASE_16 : Z := 256.

Section Functions.
Context {S : Type} `{os}.

Definition gnFail {A} (fname msg : cstr) (arg name : option cstr) : M S A :=
  out Stderr (fname ++ str " error");;
  match name with
  | Some name => out Stderr (str " (in " ++ name ++ str ")")
  | None => mret tt
  end;;
  out Stderr (str ": " ++ msg ++ [NL]);;
  match arg with
  | Some (c :: r) => out Stderr (str "        offending text: " ++ (c :: r) ++ [NL])
  | _ => mret tt
  end;;
  stop_with (Exit 1).

Definition base_of (flags : Z) : Z :=
  if tst flags GN_ANY_BASE then 0
  else if tst flags GN_BASE_8 then 8
  else if tst flags GN_BASE_16 then 16
  else 10.

Definition getNum (fname : cstr) (arg : option cstr) (flags : Z) (name : option cstr) : M S Z :=
  match arg with
  | None | Some [] => gnFail fname (str "null or empty string") arg name
  | Some text =>
      set_errno 0;;
      let '(res, endptr, err) := strtol text (base_of flags) in
      when (negb (err =? 0)) (set_errno err);;
      e ← get_errno;
      if negb (e =? 0) then gnFail fname (str "strtol() failed") arg name
      else if negb (streq endptr []) then gnFail fname (str "nonnumeric characters") arg name
      else if tst flags GN_NONNEG && (res <? 0) then
        gnFail fname (str "negative value not allowed") arg name
      else if tst flags GN_GT_0 && (res <=? 0) then
        gnFail fname (str "value must be > 0") arg name
      else mret res
  end.

Definition getLong (arg : option cstr) (flags : Z) (name : option cstr) : M S Z :=
  getNum (str "getLong") arg flags name.

Definition getInt (arg : option cstr) (flags : Z) (name : option cstr) : M S Z :=
  res ← getNum (str "getInt") arg flags name;
  if (res >? INT_MAX) || (res <? INT_MIN) then
    gnFail (str "getInt") (str "integer out of range") arg name
  else mret (wrap_s 32 res).
End Functions.

(** ** What a text denotes *)

(** [numeral b ds n]: the text [ds] is one or more digits of base [b] with
    the value [n]. *)
Definition numeral (b : Z) (ds : cstr) (n : Z) : Prop :=
  ds ≠ [] ∧ ∃ vs, Forall2 (λ c v, digit_in b c = Some v) ds vs ∧ n = digits_value b vs.

(** The part after the sign, in a base of strtol: in base 0 a leading 0x means
    hexadecimal and a leading 0 octal; in base 16 a leading 0x is allowed. *)
Definition unsigned_text (base : Z) (s : cstr) (n : Z) : Prop :=
  (∃ z x ds, s = z :: x :: ds ∧ (base = 0 ∨ base = 16) ∧ code z = 48 ∧ is_x x = true ∧ numeral 16 ds n) ∨
  (base ≠ 0 ∧ numeral base s n) ∨
  (base = 0 ∧ (∃ z ds, s = z :: ds ∧ code z = 48) ∧ numeral 8 s n) ∨
  (base = 0 ∧ ¬ (∃ z ds, s = z :: ds ∧ code z = 48) ∧ numeral 10 s n).

Inductive sign_text : cstr → Z → Prop :=
  | sign_none : sign_text [] 1
  | sign_plus : sign_text (str "+") 1
  | sign_minus : sign_text (str "-") (-1).

(** [denotes base s v]: white space, a sign and a number, and nothing else. *)
Definition denotes (base : Z) (s : cstr) (v : Z) : Prop :=
  ∃ ws sg body k n, s = ws ++ sg ++ body ∧ Forall (λ c, isspace c = true) ws ∧
    sign_text sg k ∧ unsigned_text base body n ∧ v = k * n.

(** ** strtol reads what a text denotes *)

Lemma take_digits_spec b s vs rest :
  take_digits b s = (vs, rest) →
  ∃ ds, s = ds ++ rest ∧ Forall2 (λ c v, digit_in b c = Some v) ds vs ∧
    match rest with [] => True | c :: _ => digit_in b c = None end.
Proof.
  revert vs rest; induction s as [|c s IH]; intros vs rest; simpl.
  { intros [= <- <-]. exists []. split_and!; [done|constructor|done]. }
  destruct (digit_in b c) as [v|] eqn:E.
  - destruct (take_digits b s) as [vs' rest'] eqn:E2. intros [= <- <-].
    destruct (IH _ _ eq_refl) as (ds & -> & HF & Hr). exists (c :: ds). split_and!; [done|by constructor|done].
  - intros [= <- <-]. exists []. split_and!; [done|constructor|done].
Qed.

Lemma take_digits_all b ds vs :
  Forall2 (λ c v, digit_in b c = Some v) ds vs → take_digits b ds = (vs, []).
Proof. induction 1 as [|c v ds vs Hc _ IH]; simpl; [done|]. by rewrite Hc, IH. Qed.

Lemma digits_value_nonneg b vs : 0 <= b → Forall (λ v, 0 <= v) vs → 0 <= digits_value b vs.
Proof.
  intros Hb Hvs. unfold digits_value.
  enough (∀ acc, 0 <= acc → 0 <= foldl (λ n v, n * b + v) acc vs) as H by (by apply H).
  induction Hvs as [|v vs Hv _ IH]; intros acc Hacc; simpl; [done|]. apply IH. nia.
Qed.

Lemma digit_val_nonneg c v : digit_val c = Some v → 0 <= v.
Proof. unfold digit_val. intros H. cases; bools; lia. Qed.

Lemma digit_in_nonneg b ds vs :
  Forall2 (λ c v, digit_in b c = Some v) ds vs → Forall (λ v, 0 <= v) vs.
Proof.
  induction 1 as [|c v ds vs Hc _ IH]; constructor; [|done].
  unfold digit_in in Hc. destruct (digit_val c) eqn:E; simplify_eq/=. case_match; simplify_eq.
  by eapply digit_val_nonneg.
Qed.

Lemma digit_not_space b c v : digit_in b c = Some v → isspace c = false.
Proof.
  unfold digit_in, digit_val, isspace. intros H.
  destruct (_ && _) eqn:E1 in H; [|destruct (_ && _) eqn:E2 in H; [|destruct (_ && _) eqn:E3 in H; [|done]]];
    bools; apply orb_false_iff; (split; [apply Z.eqb_neq; lia|apply andb_false_iff; right; apply Z.leb_gt; lia]).
Qed.

Lemma digit_not_sign b c v : digit_in b c = Some v → code c ≠ 45 ∧ code c ≠ 43.
Proof.
  unfold digit_in, digit_val. intros H.
  destruct (_ && _) eqn:E1 in H; [|destruct (_ && _) eqn:E2 in H; [|destruct (_ && _) eqn:E3 in H; [|done]]];
    bools; lia.
Qed.

Lemma x_not_digit b c : b <= 16 → is_x c = true → digit_in b c = None.
Proof.
  unfold is_x, digit_in, digit_val. intros Hb Hx. apply orb_true_iff in Hx.
  assert (code c = 120 ∨ code c = 88) as [E|E] by (destruct Hx; bools; auto); rewrite E; simpl;
    (case_match; bools; [lia|done]).
Qed.

Lemma skip_spaces_app ws t : Forall (λ c, isspace c = true) ws → skip_spaces (ws ++ t) = skip_spaces t.
Proof. induction 1 as [|c ws Hc _ IH]; simpl; [done|]. by rewrite Hc. Qed.

Lemma skip_spaces_spec s : ∃ ws, s = ws ++ skip_spaces s ∧ Forall (λ c, isspace c = true) ws.
Proof.
  induction s as [|c s (ws & IH & Hws)]; simpl; [by exists []|].
  destruct (isspace c) eqn:E; [|by exists []].
  exists (c :: ws). split; [simpl; by rewrite <-IH|by constructor].
Qed.

Definition strtol_base (base : Z) : Prop := base = 0 ∨ base = 8 ∨ base = 10 ∨ base = 16.

Lemma base_of_base flags : strtol_base (base_of flags).
Proof. unfold strtol_base, base_of. cases; auto. Qed.

(** The head of a number is a digit. *)
Lemma unsigned_head base s n :
  strtol_base base → unsigned_text base s n → ∃ c r b v, s = c :: r ∧ digit_in b c = Some v.
Proof.
  intros Hb. assert (∀ b, numeral b s n → ∃ c r b' v, s = c :: r ∧ digit_in b' c = Some v) as Hn.
  { intros b (Hne & vs & HF & _). destruct HF as [|c v ds vs Hc]; [done|]. by exists c, ds, b, v. }
  intros [(z & x & ds & -> & _ & Hz & _)|[[_ H]|[(_ & _ & H)|(_ & _ & H)]]]; [|by eapply Hn..].
  exists z, (x :: ds), 10, 0. split; [done|]. unfold digit_in, digit_val. by rewrite Hz.
Qed.

Lemma radix_plain base s b :
  (∀ z x r, s = z :: x :: r → is_x x = false) →
  b = (if base =? 0 then match s with z :: _ => if code z =? 48 then 8 else 10 | [] => 10 end else base) →
  radix base s = (b, s).
Proof.
  intros Hx ->. unfold radix. destruct s as [|z [|x [|h r]]]; [done|by destruct (base =? 0)|by destruct (base =? 0)|].
  rewrite (Hx z x (h :: r)) by done. rewrite andb_false_r. simpl. by destruct (base =? 0).
Qed.

Lemma numeral_no_x b s n z x r : b <= 16 → numeral b s n → s = z :: x :: r → is_x x = false.
Proof.
  intros Hb (_ & vs & HF & _) ->. inversion HF as [|? ? ? ? _ HF']; subst.
  inversion HF' as [|? ? ? ? Hx _]; subst. destruct (is_x x) eqn:E; [|done].
  by rewrite (x_not_digit b x Hb E) in Hx.
Qed.

Lemma radix_unsigned base s n :
  strtol_base base → unsigned_text base s n →
  ∃ b ds, radix base s = (b, ds) ∧ numeral b ds n ∧ 0 <= b.
Proof.
  intros Hb [(z & x & ds & -> & Hbase & Hz & Hx & Hn)|[[Hb0 H]|[(-> & (z & ds & -> & Hz) & H)|(-> & Hz & H)]]].
  - exists 16, ds. split_and!; [|done|done]. destruct Hn as (Hne & vs & HF & _).
    destruct ds as [|h r]; [done|]. inversion HF as [|? v ? ? Hh _]; subst. unfold radix.
    assert (bool_decide (is_Some (digit_in 16 h)) = true) as -> by (apply bool_decide_eq_true; by exists v).
    rewrite Hx, Hz.
    by destruct Hbase as [-> | ->].
  - exists base, s. split_and!; [|done|unfold strtol_base in Hb; lia]. apply radix_plain.
    + intros z x r. eapply numeral_no_x; [|done]. unfold strtol_base in Hb. lia.
    + by destruct (Z.eqb_spec base 0).
  - exists 8, (z :: ds). split_and!; [|done|done]. apply radix_plain.
    + intros z' x r. by apply (numeral_no_x 8 _ n).
    + simpl. by rewrite Hz.
  - exists 10, s. split_and!; [|done|done]. apply radix_plain.
    + intros z' x r. by apply (numeral_no_x 10 _ n).
    + simpl. destruct s as [|z ds]; [done|]. destruct (Z.eqb_spec (code z) 48); [|done].
      destruct Hz. eauto.
Qed.

(** A text that denotes a number is read whole, saturating at the bounds of
    [long]. *)
Lemma strtol_denotes base s v :
  strtol_base base → denotes base s v →
  strtol s base = if v >? LONG_MAX then (LONG_MAX, [], ERANGE)
                  else if v <? LONG_MIN then (LONG_MIN, [], ERANGE) else (v, [], 0).
Proof.
  intros Hb (ws & sg & body & k & n & -> & Hws & Hsg & Hu & ->).
  destruct (unsigned_head base body n Hb Hu) as (c & r & b' & v & Hbody & Hc).
  pose proof (digit_not_space _ _ _ Hc) as Hsp. pose proof (digit_not_sign _ _ _ Hc) as [H45 H43].
  unfold strtol. rewrite skip_spaces_app by done.
  assert (skip_spaces (sg ++ body) = sg ++ body) as ->.
  { destruct Hsg; rewrite Hbody; simpl; [by rewrite Hsp|done|done]. }
  assert (take_sign (sg ++ body) = (bool_decide (k = -1), body)) as ->.
  { destruct Hsg; rewrite Hbody; [|done|done]. simpl.
    destruct (Z.eqb_spec (code c) 45); [done|]. by destruct (Z.eqb_spec (code c) 43). }
  destruct (radix_unsigned base body n Hb Hu) as (b & ds & -> & (Hne & vs & HF & ->) & Hb0).
  rewrite (take_digits_all _ _ _ HF).
  destruct vs as [|v0 vs]; [by inversion HF; subst|].
  set (m := digits_value b (v0 :: vs)).
  assert ((if bool_decide (k = -1) then - m else m) = k * m) as ->; [|done].
  destruct Hsg; simpl; lia.
Qed.

Lemma strtol_complete base s v :
  strtol_base base → s ≠ [] → strtol s base = (v, [], 0) → denotes base s v.
Proof.
  intros Hb Hs H. unfold strtol in H.
  destruct (skip_spaces_spec s) as (ws & Es & Hws). set (t := skip_spaces s) in *.
  destruct (take_sign t) as [neg s1] eqn:Esg.
  assert (∃ sg, t = sg ++ s1 ∧ sign_text sg (if neg then -1 else 1)) as (sg & Et & Hsg).
  { unfold take_sign in Esg. destruct t as [|c r]; [simplify_eq; exists []; split; [done|constructor]|].
    assert (∀ z, code c = z → 0 <= z < 128 → c = chr z) as Hchr.
    { intros z <- Hz. unfold chr, code in *. rewrite Z.mod_small by lia. by rewrite N2Z.id, ascii_N_embedding. }
    destruct (Z.eqb_spec (code c) 45) as [E|]; [simplify_eq|destruct (Z.eqb_spec (code c) 43) as [E|]; simplify_eq].
    - exists (str "-"). rewrite (Hchr _ E) by lia. split; [done|constructor].
    - exists (str "+"). rewrite (Hchr _ E) by lia. split; [done|constructor].
    - exists []. split; [done|constructor]. }
  destruct (radix base s1) as [b s2] eqn:Er. destruct (take_digits b s2) as [vs rest] eqn:Ed.
  destruct (take_digits_spec _ _ _ _ Ed) as (ds & Eds & HF & _).
  destruct vs as [|v0 vs']; [by simplify_eq|]. set (vs := v0 :: vs') in *.
  assert (rest = [] ∧ v = if neg then - digits_value b vs else digits_value b vs) as [-> Ev]
    by (cases; split; congruence).
  rewrite app_nil_r in Eds. subst s2.
  assert (numeral b ds (digits_value b vs)) as Hn.
  { split; [|by exists vs]. intros ->. inversion HF. }
  exists ws, sg, s1, (if neg then -1 else 1), (digits_value b vs). split_and!; [by rewrite <-Et|done|done| |destruct neg; lia].
  clear -Er Hn Hb. unfold radix in Er. destruct s1 as [|z [|x [|h r]]].
  - destruct Hn as [? _]. by simplify_eq.
  - destruct (Z.eqb_spec base 0); [destruct (Z.eqb_spec (code z) 48)|]; simplify_eq.
    + right; right; left. split_and!; [done|eauto|done].
    + right; right; right. split_and!; [done|intros (? & ? & ? & ?); by simplify_eq|done].
    + right; left. done.
  - destruct (Z.eqb_spec base 0); [destruct (Z.eqb_spec (code z) 48)|]; simplify_eq.
    + right; right; left. split_and!; [done|eauto|done].
    + right; right; right. split_and!; [done|intros (? & ? & ? & ?); by simplify_eq|done].
    + right; left. done.
  - destruct (_ && _) eqn:Ex in Er.
    + simplify_eq. apply andb_true_iff in Ex as [[[Hbase Hz]%andb_true_iff Hx]%andb_true_iff _].
      left. exists z, x, (h :: r). apply orb_true_iff in Hbase. bools.
      split_and!; [done|destruct Hbase; bools; auto|done|done|done].
    + destruct (Z.eqb_spec base 0); [destruct (Z.eqb_spec (code z) 48)|]; simplify_eq.
      * right; right; left. split_and!; [done|eauto|done].
      * right; right; right. split_and!; [done|intros (? & ? & ? & ?); by simplify_eq|done].
      * right; left. done.
Qed.

Lemma strtol_errno base s v rest e : strtol s base = (v, rest, e) → e = 0 ∨ e = ERANGE.
Proof. unfold strtol. intros H. cases; simplify_eq; auto. Qed.

(** getNum, as a decision on what the text denotes. *)
Definition flags_ok (flags v : Z) : Prop :=
  (tst flags GN_NONNEG = true → 0 <= v) ∧ (tst flags GN_GT_0 = true → 0 < v).
Definition wanted (arg : option cstr) (flags lo hi v : Z) : Prop :=
  ∃ text, arg = Some text ∧ denotes (base_of flags) text v ∧ lo <= v <= hi ∧ flags_ok flags v.

Section Specs.
Context {S : Type} `{os}.
Implicit Types s : st S.

Lemma wp_gnFail {A} fname msg arg name (Q : A → st S → Prop) s (P : Prop) :
  P → wp (gnFail fname msg arg name) Q (λ t _, t = Exit 1 ∧ P) s.
Proof.
  intros HP. assert (∃ s', gnFail (A:=A) fname msg arg name s = (Stop (Exit 1), s')) as [s' E].
  { destruct name, arg as [[|c r]|]; by eexists. }
  unfold wp. by rewrite E.
Qed.

Lemma denotes_nonempty base text v : strtol_base base → denotes base text v → text ≠ [].
Proof.
  intros Hb (ws & sg & body & k & n & -> & _ & _ & Hu & _).
  destruct (unsigned_head _ _ _ Hb Hu) as (c & r & _ & _ & -> & _).
  by destruct ws, sg.
Qed.

Lemma wp_getNum fname arg flags name s :
  wp (getNum fname arg flags name)
    (λ v s', wanted arg flags LONG_MIN LONG_MAX v ∧ s' = St (glob s) 0 (trace s))
    (λ t s', t = Exit 1 ∧ ¬ ∃ v, wanted arg flags LONG_MIN LONG_MAX v) s.
Proof.
  pose proof (base_of_base flags) as Hb. unfold getNum.
  destruct arg as [text|]; [|apply wp_gnFail; intros (v & text & ? & _); done].
  destruct text as [|c r].
  { apply wp_gnFail. intros (v & text & [= <-] & Hd & _). by apply (denotes_nonempty _ _ _ Hb) in Hd. }
  set (text := c :: r). apply wp_bind, wp_set_errno.
  destruct (strtol text (base_of flags)) as [[res endptr] err] eqn:E. cbn iota beta.
  assert (Hone : ∀ v, denotes (base_of flags) text v → LONG_MIN <= v <= LONG_MAX → (res, endptr, err) = (v, [], 0)).
  { intros v Hd Hv. rewrite <-E, (strtol_denotes _ _ v) by done.
    destruct (Z.gtb_spec v LONG_MAX); [lia|]. by destruct (Z.ltb_spec v LONG_MIN); [lia|]. }
  assert (Hnone : ∀ (P : Prop), (∀ v, denotes (base_of flags) text v → LONG_MIN <= v <= LONG_MAX → flags_ok flags v →
    (res, endptr, err) = (v, [], 0) → False) → ¬ ∃ v, wanted (Some text) flags LONG_MIN LONG_MAX v).
  { intros _ HP (v & t & [= <-] & Hd & Hv & Hf). by apply (HP v); auto. }
  apply wp_bind. destruct (strtol_errno _ _ _ _ _ E) as [-> | ->]; simpl.
  2:{ apply wp_set_errno, wp_bind, wp_get_errno. simpl. apply wp_gnFail, (Hnone True). by intros. }
  apply wp_ret, wp_bind, wp_get_errno. simpl.
  destruct (streq endptr []) eqn:Ee; simpl.
  2:{ apply wp_gnFail, (Hnone True). intros v _ _ _ [= _ ->]. by apply streq_false in Ee. }
  apply streq_true in Ee as ->.
  destruct (tst flags GN_NONNEG && (res <? 0)) eqn:E1.
  { apply wp_gnFail, (Hnone True). intros v _ _ [Hf _] [= ->]. apply andb_true_iff in E1 as [? ?%Z.ltb_lt].
    specialize (Hf ltac:(done)). lia. }
  destruct (tst flags GN_GT_0 && (res <=? 0)) eqn:E2.
  { apply wp_gnFail, (Hnone True). intros v _ _ [_ Hf] [= ->]. apply andb_true_iff in E2 as [? ?%Z.leb_le].
    specialize (Hf ltac:(done)). lia. }
  apply wp_ret. split; [|done]. exists text. split; [done|].
  pose proof (strtol_complete _ text res Hb ltac:(done) E) as Hd. split; [done|].
  split.
  - rewrite (strtol_denotes _ _ res) in E by done.
    destruct (Z.gtb_spec res LONG_MAX); [done|]. destruct (Z.ltb_spec res LONG_MIN); [done|lia].
  - split; intros Ht; rewrite Ht in *; simpl in *; bools; lia.
Qed.

Lemma wp_getInt arg flags name s :
  wp (getInt arg flags name)
    (λ v s', wanted arg flags INT_MIN INT_MAX v ∧ s' = St (glob s) 0 (trace s))
    (λ t s', t = Exit 1 ∧ ¬ ∃ v, wanted arg flags INT_MIN INT_MAX v) s.
Proof.
  apply wp_bind. eapply wp_mono; [apply wp_getNum| |].
  - intros v s' [(text & -> & Hd & Hv & Hf) ->].
    destruct (Z.gtb_spec v INT_MAX) as [H1|H1]; simpl.
    { apply wp_gnFail. intros (v' & t & [= <-] & Hd' & Hv' & _).
      pose proof (strtol_denotes _ _ _ (base_of_base flags) Hd) as E.
      rewrite (strtol_denotes _ _ _ (base_of_base flags) Hd') in E.
      unfold INT_MAX, INT_MIN, LONG_MAX, LONG_MIN in *.
      revert E. repeat (case_match; bools; try lia); intros; simplify_eq; lia. }
    destruct (Z.ltb_spec v INT_MIN) as [H2|H2]; simpl.
    { apply wp_gnFail. intros (v' & t & [= <-] & Hd' & Hv' & _).
      pose proof (strtol_denotes _ _ _ (base_of_base flags) Hd) as E.
      rewrite (strtol_denotes _ _ _ (base_of_base flags) Hd') in E.
      unfold INT_MAX, INT_MIN, LONG_MAX, LONG_MIN in *.
      revert E. repeat (case_match; bools; try lia); intros; simplify_eq; lia. }
    apply wp_ret. rewrite wrap_s_id by (unfold INT_MAX, INT_MIN in *; lia).
    split; [|done]. by exists text.
  - intros t s' [-> Hn]. split; [done|]. intros (v & text & -> & Hd & Hv & Hf). apply Hn.
    exists v, text. split_and!; [done|done|unfold INT_MIN, LONG_MIN in *; lia|unfold INT_MAX, LONG_MAX in *; lia|done].
Qed.
End Specs.

(** ** Printing and reading back *)

Lemma code_digit d : 0 <= d < 10 → code (digit d) = 48 + d.
Proof.
  intros Hd. unfold digit, code, chr. rewrite Z.mod_small by lia.
  rewrite N_ascii_embedding by lia. lia.
Qed.

Lemma digit_in_digit d : 0 <= d < 10 → digit_in 10 (digit d) = Some d.
Proof.
  intros Hd. unfold digit_in, digit_val. rewrite code_digit by done.
  destruct (Z.leb_spec 48 (48 + d)); [|lia]. destruct (Z.leb_spec (48 + d) 57); [|lia]. simpl.
  destruct (Z.ltb_spec (48 + d - 48) 10); [f_equal; lia|lia].
Qed.

Lemma digits_value_snoc b vs v : digits_value b (vs ++ [v]) = digits_value b vs * b + v.
Proof. unfold digits_value. by rewrite foldl_app. Qed.

Lemma dec_go_numeral fuel n acc :
  0 <= n < 10 ^ Z.of_nat fuel → (0 < fuel)%nat →
  ∃ ds, dec_go fuel n acc = ds ++ acc ∧ numeral 10 ds n.
Proof.
  revert n acc; induction fuel as [|fuel IH]; intros n acc Hn Hf; [lia|]. simpl.
  pose proof (Z.mod_pos_bound n 10 ltac:(lia)) as Hm.
  destruct (Z.ltb_spec n 10) as [Hlt|Hge].
  - exists [digit (n mod 10)]. split; [done|]. split; [done|]. exists [n mod 10].
    split; [constructor; [by apply digit_in_digit|constructor]|].
    unfold digits_value. simpl. rewrite Z.mod_small; lia.
  - assert (10 ^ Z.of_nat (S fuel) = 10 * 10 ^ Z.of_nat fuel) as Ep
      by (rewrite Nat2Z.inj_succ, Z.pow_succ_r; lia).
    pose proof (Z.div_mod n 10 ltac:(lia)) as Edm.
    assert (0 < fuel)%nat as Hf'. { destruct fuel; [|lia]. simpl in Ep. lia. }
    destruct (IH (n / 10) (digit (n mod 10) :: acc)) as (ds & -> & _ & vs & HF & Ev); [lia|done|].
    exists (ds ++ [digit (n mod 10)]). split; [by rewrite <-app_assoc|]. split; [by destruct ds|].
    exists (vs ++ [n mod 10]). split.
    + apply Forall2_app; [done|]. constructor; [by apply digit_in_digit|constructor].
    + rewrite digits_value_snoc. lia.
Qed.

Lemma dec_nat_numeral n : 0 <= n → numeral 10 (dec_nat n) n.
Proof.
  intros Hn. unfold dec_nat.
  destruct (dec_go_numeral (S (Z.to_nat (Z.log2 n))) n []) as (ds & E & Hd); [|lia|].
  - split; [done|]. rewrite Nat2Z.inj_succ, Z2Nat.id by apply Z.log2_nonneg.
    destruct (Z.eq_dec n 0) as [->|]; [done|].
    pose proof (Z.log2_spec n ltac:(lia)) as [_ Hlt].
    pose proof (Z.pow_le_mono_l 2 10 (Z.succ (Z.log2 n)) ltac:(lia)). lia.
  - rewrite E, app_nil_r. done.
Qed.

Lemma dec_denotes z : denotes 10 (dec z) z.
Proof.
  unfold dec. destruct (Z.ltb_spec z 0).
  - exists [], (str "-"), (dec_nat (- z)), (-1), (- z).
    split_and!; [done|constructor|constructor| |lia]. right; left. split; [done|]. apply dec_nat_numeral. lia.
  - exists [], [], (dec_nat z), 1, z.
    split_and!; [done|constructor|constructor| |lia]. right; left. split; [done|]. by apply dec_nat_numeral.
Qed.

(** ** The properties *)

(** C40: getInt(arg, flags, name) is the decision of what its documentation
    says, for every text and every flag: it returns [v] exactly when the text
    is white space, a sign and a number [v] of the base the flags select and
    nothing else, [v] fits an int, and it is nonnegative or positive as the
    flags require; in every other case the program exits with failure.  The
    int conversion is exact. *)
Theorem getInt_correct {S} `{os} arg flags name (s : st S) :
  (∃ v, getInt arg flags name s = (Ret v, St (glob s) 0 (trace s)) ∧ wanted arg flags INT_MIN INT_MAX v) ∨
  (∃ s', getInt arg flags name s = (Stop (Exit 1), s') ∧ ¬ ∃ v, wanted arg flags INT_MIN INT_MAX v).
Proof.
  destruct (wp_run _ _ _ _ (wp_getInt arg flags name s)) as [(v & s' & E & Hw & ->)|(t & s' & E & -> & Hn)];
    [left|right]; eauto.
Qed.

(** The function getLong reads back what printf("%ld") prints, for every long. *)
Theorem getLong_roundtrip {S} `{os} z name (s : st S) :
  LONG_MIN <= z <= LONG_MAX → getLong (Some (dec z)) 0 name s = (Ret z, St (glob s) 0 (trace s)).
Proof.
  intros Hz. assert (wanted (Some (dec z)) 0 LONG_MIN LONG_MAX z) as Hw.
  { exists (dec z). split_and!; [done|apply dec_denotes|lia|lia|by split]. }
  destruct (wp_run _ _ _ _ (wp_getNum (str "getLong") (Some (dec z)) 0 name s))
    as [(v & s' & E & (t & [= <-] & Hd & Hv & _) & ->)|(t & s' & E & -> & Hn)]; [|by destruct Hn; eauto].
  unfold getLong. rewrite E. do 2 f_equal.
  pose proof (strtol_denotes _ _ _ (base_of_base 0) Hd) as E1.
  pose proof (strtol_denotes (base_of 0) _ _ (base_of_base 0) (dec_denotes z)) as E2. rewrite E1 in E2. clear E1.
  destruct (Z.gtb_spec z LONG_MAX); [lia|]. destruct (Z.ltb_spec z LONG_MIN); [lia|].
  destruct (Z.gtb_spec v LONG_MAX); [lia|]. destruct (Z.ltb_spec v LONG_MIN); [lia|]. congruence.
Qed.

Theorem getLong_roundtrip_witness :
  let o := test_os (λ _ _, ok 0) in
  getLong (Some (dec (-9000))) 0 None (init tt) = (Ret (-9000), init tt).
Proof.
  intros o. apply (getLong_roundtrip (-9000) None (init tt)). unfold LONG_MIN, LONG_MAX. lia.
Defined.

Example getInt_run :
  let o := test_os (λ _ _, ok 0) in
  (getInt (Some (str " -0x1F")) GN_ANY_BASE None (init tt)).1 = Ret (-31) ∧
  (getInt (Some (str "12z")) 0 None (init tt)).1 = Stop (Exit 1) ∧
  (getInt (Some (str "2147483648")) 0 None (init tt)).1 = Stop (Exit 1) ∧
  (getLong (Some (str "0x")) GN_ANY_BASE None (init tt)).1 = Stop (Exit 1).
Proof. by vm_compute. Qed.
