(* ===== verification/Printing.v ===== *)
(** Functions of tlpi-book/lib that turn data into text and back:
    file_perms.c, print_wait_status.c, print_rlimit.c, signal_functions.c and
    itimerspec_from_str.c. *)
From S2P Require Import Prelude Sys ErrorFns GetNum.

(** ** Permissions *)

Definition S_ISUID : Z := 2048.
Definition S_ISGID : Z := 1024.
Definition S_ISVTX : Z := 512.
Definition FP_SPECIAL : Z := 1.
Definition STR_SIZE : Z := 10.

Definition perm_char (perm mask : Z) (c : string) : cstr := if tst perm mask then str c else str "-".

(** The last of three: execution, with the special bit. *)
Definition exec_char (perm flags mask special : Z) (both only : string) : cstr :=
  if tst perm mask then (if tst perm special && tst flags FP_SPECIAL then str both else str "x")
  else (if tst perm special && tst flags FP_SPECIAL then str only else str "-").

Definition filePermStr (perm flags : Z) : cstr :=
  snprintf STR_SIZE
    (perm_char perm 256 "r" ++ perm_char perm 128 "w" ++ exec_char perm flags 64 S_ISUID "s" "S" ++
     perm_char perm 32 "r" ++ perm_char perm 16 "w" ++ exec_char perm flags 8 S_ISGID "s" "S" ++
     perm_char perm 4 "r" ++ perm_char perm 2 "w" ++ exec_char perm flags 1 S_ISVTX "t" "T").

(** What the letters stand for, at each place. *)
Definition perm_letters : list (list (ascii * Z)) :=
  let c (s : string) z := (default NUL (head (str s)), z) in
  [ [c "r" 256]; [c "w" 128]; [c "x" 64; c "s" (64 + 2048); c "S" 2048];
    [c "r" 32]; [c "w" 16]; [c "x" 8; c "s" (8 + 1024); c "S" 1024];
    [c "r" 4]; [c "w" 2]; [c "x" 1; c "t" (1 + 512); c "T" 512] ]%string.

Definition letter_value (l : list (ascii * Z)) (c : ascii) : Z :=
  default 0 (snd <$> head (filter (λ x, x.1 = c) l)).

Definition perms_of (s : cstr) : Z := foldr Z.add 0 (zip_with letter_value perm_letters s).

(** The numbers made of given bits, lowest first. *)
Definition of_bits (bs : list bool) : Z := foldr (λ b n, Z.b2z b + 2 * n) 0 bs.

Fixpoint bit_lists (n : nat) : list (list bool) :=
  match n with O => [[]] | Datatypes.S n => (cons true <$> bit_lists n) ++ (cons false <$> bit_lists n) end.

Lemma bit_lists_all bs : bs ∈ bit_lists (length bs).
Proof.
  induction bs as [|b bs IH]; [by apply list_elem_of_singleton|]. cbn [length bit_lists]. apply elem_of_app.
  destruct b; [left|right]; by apply list_elem_of_fmap_2.
Qed.

Lemma low_bits n z : z mod 2 ^ Z.of_nat n = of_bits ((λ k, Z.testbit z (Z.of_nat k)) <$> seq 0 n).
Proof.
  revert z. induction n as [|n IH]; intros z; [by rewrite Z.mod_1_r|]. cbn [seq fmap list_fmap of_bits foldr]. fold (of_bits ((λ k, Z.testbit z (Z.of_nat k)) <$> seq 1 n)).
  assert (((λ k, Z.testbit z (Z.of_nat k)) <$> seq 1 n) = ((λ k, Z.testbit (z / 2) (Z.of_nat k)) <$> seq 0 n)) as ->.
  { rewrite <-seq_shift. change (map Datatypes.S (seq 0 n)) with (Datatypes.S <$> seq 0 n). rewrite <-list_fmap_compose. apply list_fmap_ext. intros i k _. cbn beta. unfold compose.
    rewrite Nat2Z.inj_succ, <-Z.div2_div. by rewrite Z.div2_spec, Z.shiftr_spec, Z.add_1_r by lia. }
  rewrite <-IH, Nat2Z.inj_succ, Z.pow_succ_r, Z.rem_mul_r by lia. f_equal. change (Z.of_nat 0) with 0. rewrite Z.bit0_odd, Zmod_odd. by destruct (Z.odd z).
Qed.

(** The text, from the bits. *)
Definition perm_text (bs : list bool) (special : bool) : cstr :=
  let b k := nth k bs false in
  let ch k c := if b k then str c else str "-" in
  let ex k s (both only : string) := if b k then (if b s && special then str both else str "x") else (if b s && special then str only else str "-") in
  snprintf STR_SIZE (ch 8%nat "r"%string ++ ch 7%nat "w"%string ++ ex 6%nat 11%nat "s"%string "S"%string ++ ch 5%nat "r"%string ++ ch 4%nat "w"%string ++ ex 3%nat 10%nat "s"%string "S"%string ++
    ch 2%nat "r"%string ++ ch 1%nat "w"%string ++ ex 0%nat 9%nat "t"%string "T"%string).

Lemma filePermStr_bits perm flags :
  filePermStr perm flags = perm_text ((λ k, Z.testbit perm (Z.of_nat k)) <$> seq 0 12) (tst flags FP_SPECIAL).
Proof.
  unfold filePermStr, perm_char, exec_char. rewrite (tst_pow2 perm 0 : 0 <= 0 → tst perm 1 = _) by lia.
  rewrite (tst_pow2 perm 1 : _ → tst perm 2 = _), (tst_pow2 perm 2 : _ → tst perm 4 = _), (tst_pow2 perm 3 : _ → tst perm 8 = _),
    (tst_pow2 perm 4 : _ → tst perm 16 = _), (tst_pow2 perm 5 : _ → tst perm 32 = _), (tst_pow2 perm 6 : _ → tst perm 64 = _),
    (tst_pow2 perm 7 : _ → tst perm 128 = _), (tst_pow2 perm 8 : _ → tst perm 256 = _), (tst_pow2 perm 9 : _ → tst perm S_ISVTX = _),
    (tst_pow2 perm 10 : _ → tst perm S_ISGID = _), (tst_pow2 perm 11 : _ → tst perm S_ISUID = _) by done.
  reflexivity.
Qed.

(** The text of a permission determines it: its twelve bits when the special
    ones are asked for, else the nine of reading, writing and execution. *)
Theorem filePermStr_roundtrip perm flags :
  perms_of (filePermStr perm flags) = perm mod (if tst flags FP_SPECIAL then 4096 else 512) ∧ strlen (filePermStr perm flags) = 9.
Proof.
  rewrite filePermStr_bits. set (bs := _ <$> seq 0 12).
  assert (perm mod (if tst flags FP_SPECIAL then 4096 else 512) = of_bits (if tst flags FP_SPECIAL then bs else take 9 bs)) as ->
    by (destruct (tst _ _); [exact (low_bits 12 perm)|exact (low_bits 9 perm)]).
  assert (forallb (λ bs, forallb (λ sp : bool, (perms_of (perm_text bs sp) =? of_bits (if sp then bs else take 9 bs)) && (strlen (perm_text bs sp) =? 9)) [true; false])
    (bit_lists 12) = true) as H by by vm_compute.
  rewrite forallb_forall in H. specialize (H bs). rewrite <-list_elem_of_In in H. specialize (H (bit_lists_all bs)).
  rewrite forallb_forall in H. specialize (H (tst flags FP_SPECIAL)). assert (In (tst flags FP_SPECIAL) [true; false]) as Hin by (destruct (tst _ _); cbn; auto).
  apply H, andb_true_iff in Hin as [H1%Z.eqb_eq H2%Z.eqb_eq]. by split.
Qed.

(** ** Wait statuses *)

Definition WIFEXITED (s : Z) : bool := Z.land s 0x7f =? 0.
Definition WEXITSTATUS (s : Z) : Z := Z.shiftr (Z.land s 0xff00) 8.
Definition WTERMSIG (s : Z) : Z := Z.land s 0x7f.
Definition WIFSIGNALED (s : Z) : bool := 0 <? Z.shiftr (wrap_s 8 (Z.land s 0x7f + 1)) 1.
Definition WCOREDUMP (s : Z) : bool := tst s 0x80.
Definition WIFSTOPPED (s : Z) : bool := Z.land s 0xff =? 0x7f.
Definition WSTOPSIG (s : Z) : Z := WEXITSTATUS s.
Definition WIFCONTINUED (s : Z) : bool := s =? 0xffff.

Section WaitStatus.
Context {S : Type} `{os}.

Definition printWaitStatus (msg : option cstr) (status : Z) : M S unit :=
  match msg with Some m => out Stdout m | None => mret tt end;;
  if WIFEXITED status then out Stdout (str "child exited, status=" ++ dec (WEXITSTATUS status) ++ [NL])
  else if WIFSIGNALED status then
    out Stdout (str "child killed by signal " ++ dec (WTERMSIG status) ++ str " (" ++ strsignal (WTERMSIG status) ++ str ")");;
    when (WCOREDUMP status) (out Stdout (str " (core dumped)"));;
    out Stdout [NL]
  else if WIFSTOPPED status then
    out Stdout (str "child stopped by signal " ++ dec (WSTOPSIG status) ++ str " (" ++ strsignal (WSTOPSIG status) ++ str ")" ++ [NL])
  else if WIFCONTINUED status then out Stdout (str "child continued" ++ [NL])
  else out Stdout (str "what happened to this child? (status=" ++ hex (wrap_u 32 status) ++ str ")" ++ [NL]).

(** What can become of a child, and the status Linux reports it with. *)
Inductive fate := Exited (code : Z) | Signaled (sig : Z) (core : bool) | Stopped (sig : Z) | Continued.

Definition fate_ok (f : fate) : Prop :=
  match f with
  | Exited c => 0 <= c < 256
  | Signaled sig _ => 0 < sig < 127
  | Stopped sig => 0 < sig < 256
  | Continued => True
  end.

Definition status_of (f : fate) : Z :=
  match f with
  | Exited c => 256 * c
  | Signaled sig core => sig + (if core then 128 else 0)
  | Stopped sig => 256 * sig + 127
  | Continued => 0xffff
  end.

Definition fate_text (f : fate) : cstr :=
  match f with
  | Exited c => str "child exited, status=" ++ dec c
  | Signaled sig core => str "child killed by signal " ++ dec sig ++ str " (" ++ strsignal sig ++ str ")" ++ if core then str " (core dumped)" else []
  | Stopped sig => str "child stopped by signal " ++ dec sig ++ str " (" ++ strsignal sig ++ str ")"
  | Continued => str "child continued"
  end.

(** The fates a status is tested for, in order. *)
Definition fate_of (s : Z) : option fate :=
  if WIFEXITED s then Some (Exited (WEXITSTATUS s))
  else if WIFSIGNALED s then Some (Signaled (WTERMSIG s) (WCOREDUMP s))
  else if WIFSTOPPED s then Some (Stopped (WSTOPSIG s))
  else if WIFCONTINUED s then Some Continued else None.
End WaitStatus.

#[export] Instance fate_eq_dec : EqDecision fate.
Proof. solve_decision. Defined.

Lemma fate_roundtrip f : fate_ok f → fate_of (status_of f) = Some f.
Proof.
  intros Hf. assert (∀ n (P : Z → bool), forallb P (seqZ 0 n) = true → ∀ z, 0 <= z < n → P z = true) as Hall.
  { intros n P HP z Hz. rewrite forallb_forall in HP. apply HP, list_elem_of_In, elem_of_seqZ. lia. }
  destruct f as [c|sig core|sig|]; cbn [fate_ok] in Hf; [| | |done].
  - pose proof (Hall 256 (λ z, bool_decide (fate_of (status_of (Exited z)) = Some (Exited z))) ltac:(by vm_compute) c Hf) as H0.
    by apply bool_decide_eq_true in H0.
  - pose proof (Hall 127 (λ z, bool_decide (0 < z → fate_of (status_of (Signaled z core)) = Some (Signaled z core)))
      ltac:(destruct core; by vm_compute) sig ltac:(lia)) as H0.
    apply bool_decide_eq_true in H0. apply H0. lia.
  - pose proof (Hall 256 (λ z, bool_decide (fate_of (status_of (Stopped z)) = Some (Stopped z))) ltac:(by vm_compute) sig ltac:(lia)) as H0.
    by apply bool_decide_eq_true in H0.
Qed.

(** printWaitStatus says what became of the child, for every status that Linux
    reports: the message, then one line. *)
Theorem printWaitStatus_correct {S} `{os} msg f (s : st S) :
  fate_ok f →
  wp (printWaitStatus msg (status_of f))
    (λ _ s', ∃ ts, trace s' = trace s ++ (Eout Stdout <$> ts) ∧ concat ts = default [] msg ++ fate_text f ++ [NL]) (λ _ _, False) s.
Proof.
  intros Hf. pose proof (fate_roundtrip f Hf) as Hr. unfold fate_of in Hr. generalize dependent (status_of f). intros n Hr.
  assert (∀ s1 : st S, wp (printWaitStatus None n) (λ _ s', ∃ ts, trace s' = trace s1 ++ (Eout Stdout <$> ts) ∧ concat ts = fate_text f ++ [NL]) (λ _ _, False) s1) as Hline.
  { intros s1. unfold printWaitStatus. apply wp_bind, wp_ret. destruct (WIFEXITED _).
    { injection Hr as <-. apply wp_emit. eexists [_]. split; [done|]. cbn [concat fate_text]. by rewrite ?app_nil_r, <-?app_assoc. }
    destruct (WIFSIGNALED _).
    { injection Hr as <-. apply wp_bind, wp_emit, wp_bind. destruct (WCOREDUMP _); cbn [when].
      - apply wp_emit, wp_emit. eexists [_; _; _]. split; [cbn [trace]; by rewrite <-!app_assoc|]. cbn [concat fate_text]. by rewrite ?app_nil_r, <-?app_assoc.
      - apply wp_ret, wp_emit. eexists [_; _]. split; [cbn [trace]; by rewrite <-!app_assoc|]. cbn [concat fate_text]. by rewrite ?app_nil_r, <-?app_assoc. }
    destruct (WIFSTOPPED _).
    { injection Hr as <-. apply wp_emit. eexists [_]. split; [done|]. cbn [concat fate_text]. by rewrite ?app_nil_r, <-?app_assoc. }
    destruct (WIFCONTINUED _); [|done]. injection Hr as <-. apply wp_emit. eexists [_]. split; [done|]. cbn [concat fate_text]. by rewrite ?app_nil_r, <-?app_assoc. }
  destruct msg as [m|]; [|exact (Hline s)]. unfold printWaitStatus. apply wp_bind, wp_emit.
  eapply wp_mono; [exact (Hline (St (glob s) (errno s) (trace s ++ [Eout Stdout m])))| |done].
  intros [] s' (ts & Ht & Hc). exists (m :: ts). cbn [trace] in Ht. rewrite Ht, <-app_assoc. split; [done|]. cbn. by rewrite Hc.
Qed.

(** ** Times *)

Record itimerspec := Itimerspec { value_sec : Z; value_nsec : Z; interval_sec : Z; interval_nsec : Z }.

(** "sec/nsec", after a null byte has been written over the '/'. *)
Definition two_numbers (text : cstr) : Z * Z :=
  match strchr "/"%char text with
  | Some (sec, nsec) => (atoi sec, atoi nsec)
  | None => (atoi text, 0)
  end.

Definition itimerspecFromStr (text : cstr) : itimerspec :=
  match strchr ":"%char text with
  | Some (value, interval) =>
      let v := two_numbers value in let i := two_numbers interval in Itimerspec v.1 v.2 i.1 i.2
  | None => let v := two_numbers text in Itimerspec v.1 v.2 0 0
  end.

(** The text for a pair of numbers, the second optional, and for both pairs. *)
Definition pair_text (p : Z * option Z) : cstr := dec p.1 ++ match p.2 with Some n => "/"%char :: dec n | None => [] end.
Definition times_text (v : Z * option Z) (i : option (Z * option Z)) : cstr :=
  pair_text v ++ match i with Some i => ":"%char :: pair_text i | None => [] end.

Lemma atoi_dec z : INT_MIN <= z <= INT_MAX → atoi (dec z) = z.
Proof.
  unfold INT_MIN, INT_MAX. intros Hz. unfold atoi. rewrite (strtol_denotes 10 (dec z) z) by (unfold strtol_base; auto || apply dec_denotes).
  destruct (Z.gtb_spec z LONG_MAX); [unfold LONG_MAX in *; lia|]. destruct (Z.ltb_spec z LONG_MIN); [unfold LONG_MIN in *; lia|]. cbn [fst]. apply wrap_s_id; lia.
Qed.

Lemma dec_chars z c : digit_in 10 c = None → c ≠ "-"%char → c ∉ dec z.
Proof.
  intros Hd Hm. assert (∀ n, 0 <= n → c ∉ dec_nat n) as Hn.
  { intros n Hn Hin. destruct (dec_nat_numeral n Hn) as (_ & vs & Hvs & _). apply list_elem_of_lookup in Hin as [i Hi].
    destruct (Forall2_lookup_l _ _ _ _ _ Hvs Hi) as (v & _ & Hv). congruence. }
  unfold dec. destruct (Z.ltb_spec z 0); [|by apply Hn].
  intros [Hc|Hc]%elem_of_cons; [done|]. revert Hc. apply Hn. lia.
Qed.

Lemma pair_no_colon p : ":"%char ∉ pair_text p.
Proof.
  unfold pair_text. rewrite not_elem_of_app. split; [by apply dec_chars|]. destruct p.2; [|apply not_elem_of_nil].
  apply not_elem_of_cons. split; [done|by apply dec_chars].
Qed.

Definition int_pair (p : Z * option Z) : Prop := INT_MIN <= p.1 <= INT_MAX ∧ ∀ n, p.2 = Some n → INT_MIN <= n <= INT_MAX.

Lemma two_numbers_pair p : int_pair p → two_numbers (pair_text p) = (p.1, default 0 p.2).
Proof.
  intros [H1 H2]. unfold two_numbers, pair_text. destruct p as [a [b|]]; cbn [fst snd default id] in *.
  - assert (strchr "/"%char (dec a ++ "/"%char :: dec b) = Some (dec a, dec b)) as ->.
    { apply strchr_Some. split; [done|by apply dec_chars]. }
    by rewrite !atoi_dec by auto.
  - rewrite app_nil_r. assert (strchr "/"%char (dec a) = None) as -> by (apply strchr_None; by apply dec_chars). by rewrite atoi_dec.
Qed.

(** itimerspecFromStr reads back what its comment says: the value, the interval,
    and 0 for what is left out. *)
Theorem itimerspec_roundtrip v i :
  int_pair v → (∀ p, i = Some p → int_pair p) →
  itimerspecFromStr (times_text v i) =
    Itimerspec v.1 (default 0 v.2) (default 0 (fst <$> i)) (default 0 (i ≫= snd)).
Proof.
  intros Hv Hi. unfold itimerspecFromStr, times_text. destruct i as [i|].
  - assert (strchr ":"%char (pair_text v ++ ":"%char :: pair_text i) = Some (pair_text v, pair_text i)) as ->.
    { apply strchr_Some. split; [done|by apply pair_no_colon]. }
    cbv zeta. rewrite !two_numbers_pair by auto. done.
  - rewrite app_nil_r. assert (strchr ":"%char (pair_text v) = None) as -> by (apply strchr_None; by apply pair_no_colon).
    cbv zeta. rewrite two_numbers_pair by done. done.
Qed.

(** ** Sets of signals, limits *)

Definition NSIG : Z := 65.
Definition RLIM_INFINITY : Z := 2 ^ 64 - 1.

Section Signals.
Context {S : Type} `{os}.

(** A signal set is the function sigismember gives. *)
Definition print_member (file : stream) (prefix : cstr) (sigset : Z → bool) (cnt sig : Z) : M S Z :=
  if sigset sig then
    out file (prefix ++ dec sig ++ str " (" ++ strsignal sig ++ str ")" ++ [NL]);;
    mret (cnt + 1)
  else mret cnt.

Fixpoint print_members (file : stream) (prefix : cstr) (sigset : Z → bool) (cnt : Z) (sigs : list Z) : M S Z :=
  match sigs with
  | [] => mret cnt
  | sig :: sigs => cnt ← print_member file prefix sigset cnt sig; print_members file prefix sigset cnt sigs
  end.

Definition printSigset (file : stream) (prefix : cstr) (sigset : Z → bool) : M S unit :=
  cnt ← print_members file prefix sigset 0 (seqZ 1 (NSIG - 1));
  when (cnt =? 0) (out file (prefix ++ str "<empty signal set>" ++ [NL])).

(** The set a call stores: bit [sig - 1] of its first eight bytes. *)
Definition sigset_of (r : reply) (sig : Z) : bool := Z.testbit (le (take 8 (rdata r))) (sig - 1).

Definition print_set_of (c : call) (file : stream) (msg : option cstr) : M S Z :=
  match msg with Some m => out file m | None => mret tt end;;
  r ← sys c;
  if rv r =? -1 then mret (-1) else
  printSigset file [TAB; TAB] (sigset_of r);;
  mret 0.

Definition printSigMask : stream → option cstr → M S Z := print_set_of (Cextern "sigprocmask" [0] []).
Definition printPendingSigs : stream → option cstr → M S Z := print_set_of (Cextern "sigpending" [] []).

Definition limit_text (v : Z) : cstr := if v =? RLIM_INFINITY then str "infinite" else dec (wrap_s 64 v).

Definition printRlimit (msg : cstr) (resource : Z) : M S Z :=
  r ← sys (Cextern "getrlimit" [resource] []);
  if rv r =? -1 then mret (-1) else
  out Stdout (msg ++ str " soft=");;
  out Stdout (limit_text (le (take 8 (rdata r))));;
  out Stdout (str "; hard=");;
  out Stdout (limit_text (le (take 8 (drop 8 (rdata r)))) ++ [NL]);;
  mret 0.

Definition sig_line (prefix : cstr) (sig : Z) : cstr := prefix ++ dec sig ++ str " (" ++ strsignal sig ++ str ")" ++ [NL].

Lemma print_members_run file prefix sigset cnt sigs (s : st S) :
  print_members file prefix sigset cnt sigs s =
    let l := filter (λ sig, sigset sig = true) sigs in
    (Ret (cnt + Z.of_nat (length l)), St (glob s) (errno s) (trace s ++ ((λ sig, Eout file (sig_line prefix sig)) <$> l))).
Proof using.
  revert cnt s. induction sigs as [|sig sigs IH]; intros cnt s; cbn [print_members].
  - cbn. rewrite app_nil_r, Z.add_0_r. by destruct s.
  - rewrite filter_cons. unfold print_member. destruct (decide (sigset sig = true)) as [E|E].
    + rewrite E. unfold mbind, M_bind. cbn [out emit mret M_ret]. rewrite IH. cbn [glob errno trace fmap list_fmap length].
      rewrite <-app_assoc. cbn [app]. do 2 f_equal. lia.
    + destruct (sigset sig); [done|]. unfold mbind, M_bind. cbn [mret M_ret]. apply IH.
Qed.

(** printSigset prints a line for every signal of the set, in order, or that
    there is none. *)
Theorem printSigset_correct file prefix sigset (s : st S) :
  wp (printSigset file prefix sigset)
    (λ _ s', let l := filter (λ sig, sigset sig = true) (seqZ 1 64) in
       trace s' = trace s ++ (Eout file <$> if decide (l = []) then [prefix ++ str "<empty signal set>" ++ [NL]] else sig_line prefix <$> l)) (λ _ _, False) s.
Proof using.
  unfold printSigset, wp. unfold mbind at 1, M_bind at 1. rewrite print_members_run. cbv zeta. change (NSIG - 1) with 64.
  set (l := filter _ _). clearbody l. destruct l as [|sig l].
  - cbn. by rewrite app_nil_r.
  - rewrite (proj2 (Z.eqb_neq _ _)) by (cbn [length]; lia). cbn [when mret M_ret trace]. destruct (decide (sig :: l = [])); [done|].
    by rewrite <-list_fmap_compose.
Qed.
End Signals.
