(* ===== verification/Sockets.v ===== *)
(** Sockets from names: tlpi-book/lib/inet_sockets.c and unix_sockets.c.

    The functions walk a list of addresses until one can be used; the theorems
    say which one that is, and that no other descriptor is left open. *)
From S2P Require Import Prelude Sys.

Definition AF_UNIX : Z := 1.
Definition SOCK_STREAM : Z := 1.
Definition SOCK_DGRAM : Z := 2.
Definition AI_PASSIVE : Z := 1.
Definition AI_NUMERICSERV : Z := 1024.
Definition NI_NUMERICSERV : Z := 2.

(** One result of getaddrinfo: in the kernel's reply, the three integers of
    the struct and then the address. *)
Record addrinfo := AddrInfo { ai_family : Z; ai_socktype : Z; ai_protocol : Z; ai_addr : cstr; ai_addrlen : Z }.
Definition addrinfo_of (x : cstr * Z) : addrinfo :=
  AddrInfo (le (take 4 x.1)) (le (take 4 (drop 4 x.1))) (le (take 4 (drop 8 x.1))) (drop 12 x.1) x.2.
Definition results (r : reply) : list addrinfo := addrinfo_of <$> rents r.

Definition socket_of (rp : addrinfo) : call := Csocket (ai_family rp) (ai_socktype rp) (ai_protocol rp).

Section Functions.
Context {S : Type} `{os}.

(** The loop over the results; [None] at the end of the list. *)
Fixpoint connect_first (l : list addrinfo) : M S (option Z) :=
  match l with
  | [] => mret None
  | rp :: l =>
      s ← sys (socket_of rp);
      let sfd := rv s in
      if sfd =? -1 then connect_first l else
      c ← sys (Cconnect sfd (ai_addr rp));
      if negb (rv c =? -1) then mret (Some sfd) else
      sys (Cclose sfd);;
      connect_first l
  end.

Definition inetConnect (host : option cstr) (service : cstr) (type : Z) : M S Z :=
  r ← sys (Cgetaddrinfo host service type 0);
  if negb (rv r =? 0) then set_errno ENOSYS;; mret (-1) else
  rp ← connect_first (results r);
  mret (default (-1) rp).

(** The other loop: [opt_failed] is what happens when setsockopt fails. *)
Fixpoint bind_first (doListen : bool) (opt_failed : Z → M S (option (Z * addrinfo) + Z)) (l : list addrinfo)
    : M S (option (Z * addrinfo) + Z) :=
  match l with
  | [] => mret (inl None)
  | rp :: l =>
      s ← sys (socket_of rp);
      let sfd := rv s in
      if sfd =? -1 then bind_first doListen opt_failed l else
      o ← (if doListen then r ← sys (Csetsockopt sfd); mret (rv r =? -1) else mret false);
      if o : bool then opt_failed sfd else
      b ← sys (Cbind sfd (ai_addr rp));
      if rv b =? 0 then mret (inl (Some (sfd, rp))) else
      sys (Cclose sfd);;
      bind_first doListen opt_failed l
  end.

(** The result, and what is stored through [addrlen]. *)
Definition inetPassiveSocket (service : cstr) (type : Z) (doListen : bool) (backlog : Z) : M S (Z * option Z) :=
  r ← sys (Cgetaddrinfo None service type AI_PASSIVE);
  if negb (rv r =? 0) then mret (-1, None) else
  rp ← bind_first doListen (λ sfd, sys (Cclose sfd);; mret (inr (-1))) (results r);
  match rp with
  | inr e => mret (e, None)
  | inl None => mret (-1, None)
  | inl (Some (sfd, rp)) =>
      l ← (if doListen then r ← sys (Clisten sfd backlog); mret (rv r =? -1) else mret false);
      if l : bool then mret (-1, None)
      else mret (sfd, Some (ai_addrlen rp))
  end.

Definition inetListen (service : cstr) (backlog : Z) : M S (Z * option Z) :=
  inetPassiveSocket service SOCK_STREAM true backlog.
Definition inetBind (service : cstr) (type : Z) : M S (Z * option Z) :=
  inetPassiveSocket service type false 0.

Definition inetAddressStr (addr : cstr) (addrStrLen : Z) : M S cstr :=
  r ← sys (Cgetnameinfo addr NI_NUMERICSERV);
  mret (snprintf addrStrLen
    (match rv r, rents r with
     | 0, [(host, _); (service, _)] => str "(" ++ host ++ str ", " ++ service ++ str ")"
     | _, _ => str "(?UNKNOWN?)"
     end)).

(** unix_sockets.c: the address, zero after the path. *)
Definition SUN_PATH : nat := 108.
Definition unixBuildAddress (path : option cstr) (addr_null : bool) : M S (Z * cstr) :=
  match path with
  | Some path =>
      if addr_null then set_errno EINVAL;; mret (-1, []) else
      let addr := le16 AF_UNIX ++ replicate SUN_PATH NUL in
      if strlen path <? Z.of_nat SUN_PATH
      then mret (0, le16 AF_UNIX ++ path ++ replicate (SUN_PATH - length path) NUL)
      else set_errno ENAMETOOLONG;; mret (-1, addr)
  | None => set_errno EINVAL;; mret (-1, [])
  end.

(** unixConnect and unixBind differ in the call they make on the socket. *)
Definition unix_socket (attach : Z → cstr → call) (path : cstr) (type : Z) : M S Z :=
  '(z, addr) ← unixBuildAddress (Some path) false;
  if z =? -1 then mret (-1) else
  s ← sys (Csocket AF_UNIX type 0);
  let sd := rv s in
  if sd =? -1 then mret (-1) else
  c ← sys (attach sd addr);
  if rv c =? -1 then
    savedErrno ← get_errno;
    sys (Cclose sd);;
    set_errno savedErrno;;
    mret (-1)
  else mret sd.

Definition unixConnect : cstr → Z → M S Z := unix_socket Cconnect.
Definition unixBind : cstr → Z → M S Z := unix_socket Cbind.
End Functions.

(** ** Descriptors opened and closed *)

(** The sockets a history leaves open, oldest first. *)
Definition fd_event (open : list Z) (x : call * reply) : list Z :=
  match x.1 with
  | Csocket _ _ _ => if rv x.2 =? -1 then open else open ++ [rv x.2]
  | Cclose fd => filter (λ z, z ≠ fd) open
  | _ => open
  end.
Definition left_open (l : list (call * reply)) : list Z := foldl fd_event [] l.

Lemma left_open_app l k : left_open (l ++ k) = foldl fd_event (left_open l) k.
Proof. unfold left_open. apply foldl_app. Qed.

(** An address was tried and given up: no socket of its kind, or [attach] on
    a socket of its kind failed. *)
Definition given_up (attach : Z → cstr → call) (l : list (call * reply)) (rp : addrinfo) : Prop :=
  (∃ s, (socket_of rp, s) ∈ l ∧ rv s = -1) ∨
  (∃ s c, (socket_of rp, s) ∈ l ∧ (attach (rv s) (ai_addr rp), c) ∈ l ∧ rv c ≠ 0).

(** The search through a list of addresses: all given up and nothing open; or
    all given up before the one in use, whose socket alone is open. *)
Definition searched (attach : Z → cstr → call) (good : reply → Prop) (addrs : list addrinfo)
    (l : list (call * reply)) (res : option (Z * addrinfo)) : Prop :=
  match res with
  | None => Forall (given_up attach l) addrs ∧ left_open l = []
  | Some (sfd, rp) => sfd ≠ -1 ∧ left_open l = [sfd] ∧
      (∃ c, (attach sfd (ai_addr rp), c) ∈ l ∧ good c) ∧
      ∃ before after, addrs = before ++ rp :: after ∧ Forall (given_up attach l) before
  end.

Lemma given_up_mono attach l k rp : given_up attach l rp → given_up attach (l ++ k) rp.
Proof.
  intros [(s & ? & ?)|(s & c & ? & ? & ?)]; [left; exists s|right; exists s, c]; rewrite !elem_of_app; auto.
Qed.

Section Specs.
Context {S : Type} `{os}.
Implicit Types s : st S.

(** The calls made between two states, the program's own state unchanged. *)
Definition since s (l : list (call * reply)) s' : Prop :=
  calls (trace s') = calls (trace s) ++ l ∧ glob s' = glob s.

Lemma since_refl s : since s [] s.
Proof. split; [by rewrite app_nil_r|done]. Qed.

Lemma since_call s l s1 c r s2 :
  since s l s1 → calls (trace s2) = calls (trace s1) ++ [(c, r)] → glob s2 = glob s1 → since s (l ++ [(c, r)]) s2.
Proof. intros [H1 H2] Hc Hg. split; [by rewrite Hc, H1, app_assoc|congruence]. Qed.

Lemma snoc2 {A} (l : list A) a b : l ++ [a; b] = (l ++ [a]) ++ [b].
Proof. by rewrite <-app_assoc. Qed.
Lemma snoc3 {A} (l : list A) a b c : l ++ [a; b; c] = (l ++ [a; b]) ++ [c].
Proof. by rewrite <-app_assoc. Qed.

(** The descriptors left open by one more call. *)
Lemma open_none l rp r : rv r = -1 → left_open (l ++ [(socket_of rp, r)]) = left_open l.
Proof. intros E. rewrite left_open_app. cbn [foldl]. unfold fd_event, socket_of; cbn [fst snd]. by rewrite (proj2 (Z.eqb_eq _ _) E). Qed.

Lemma open_one l rp r : rv r ≠ -1 → left_open (l ++ [(socket_of rp, r)]) = left_open l ++ [rv r].
Proof. intros E. rewrite left_open_app. cbn [foldl]. unfold fd_event, socket_of; cbn [fst snd]. by rewrite (proj2 (Z.eqb_neq _ _) E). Qed.

Lemma open_same l x : (∀ o, fd_event o x = o) → left_open (l ++ [x]) = left_open l.
Proof. intros E. rewrite left_open_app. apply E. Qed.

Lemma open_closed l fd c : left_open l = [fd] → left_open (l ++ [(Cclose fd, c)]) = [].
Proof. intros E. rewrite left_open_app, E. cbn [foldl]. unfold fd_event; cbn [fst]. rewrite filter_cons_False; auto. Qed.

(** The list after one more address was given up. *)
Lemma given_up_next attach l k rp before :
  Forall (given_up attach l) before → given_up attach (l ++ k) rp → Forall (given_up attach (l ++ k)) (before ++ [rp]).
Proof.
  intros Hb Hr. apply Forall_app. split; [|by constructor].
  eapply Forall_impl; [exact Hb|]. intros x Hx. by apply given_up_mono.
Qed.

(** From the rest of the list to the whole of it. *)
Lemma searched_after attach good before rp addrs l k res :
  searched attach good ((before ++ [rp]) ++ addrs) (l ++ k) res → searched attach good (before ++ rp :: addrs) (l ++ k) res.
Proof. by rewrite <-app_assoc. Qed.

Definition search_post (attach : Z → cstr → call) (good : reply → Prop) addrs s (l : list (call * reply))
    (x : option (Z * addrinfo)) s' : Prop :=
  ∃ k, since s (l ++ k) s' ∧ searched attach good addrs (l ++ k) x.

Lemma search_more attach good before rp addrs s l k x s' :
  search_post attach good ((before ++ [rp]) ++ addrs) s (l ++ k) x s' →
  search_post attach good (before ++ rp :: addrs) s l x s'.
Proof. intros (k' & Hs & Hf). exists (k ++ k'). rewrite app_assoc. rewrite <-app_assoc in Hf. done. Qed.

Lemma wp_connect_first addrs before l s s1 :
  since s l s1 → left_open l = [] → Forall (given_up Cconnect l) before →
  wp (connect_first addrs)
     (λ res s', ∃ x, res = fst <$> x ∧ search_post Cconnect (λ c, rv c ≠ -1) (before ++ addrs) s l x s')
     (λ _ _, False) s1.
Proof.
  revert before l s1. induction addrs as [|rp addrs IH]; intros before l s1 Hs Ho Hb; cbn [connect_first].
  { apply wp_ret. exists None. split; [done|]. exists []. rewrite !app_nil_r. by split_and!. }
  apply wp_bind, wp_call. intros r s2 _ Hg2 _ Hc2 _. pose proof (since_call _ _ _ _ _ _ Hs Hc2 Hg2) as Hs2.
  destruct (Z.eqb_spec (rv r) (-1)) as [E|E].
  { eapply wp_mono; [eapply (IH (before ++ [rp])); [exact Hs2|by rewrite open_none|]| |done].
    - apply given_up_next; [done|]. left. exists r. rewrite elem_of_app, list_elem_of_singleton. auto.
    - intros res s' (x & Hx & Hf). exists x. split; [done|by eapply search_more]. }
  assert (left_open (l ++ [(socket_of rp, r)]) = [rv r]) as Ho2 by by rewrite open_one, Ho.
  apply wp_bind, wp_call. intros c s3 _ Hg3 _ Hc3 _. pose proof (since_call _ _ _ _ _ _ Hs2 Hc3 Hg3) as Hs3.
  rewrite <-app_assoc in Hs3. cbn [app] in Hs3.
  assert (left_open (l ++ [(socket_of rp, r); (Cconnect (rv r) (ai_addr rp), c)]) = [rv r]) as Ho3.
  { rewrite snoc2. by rewrite open_same. }
  destruct (Z.eqb_spec (rv c) (-1)) as [Ec|Ec]; cbn [negb].
  - apply wp_bind, wp_call. intros z s4 _ Hg4 _ Hc4 _. pose proof (since_call _ _ _ _ _ _ Hs3 Hc4 Hg4) as Hs4.
    rewrite <-app_assoc in Hs4. cbn [app] in Hs4.
    eapply wp_mono; [eapply (IH (before ++ [rp])); [exact Hs4| |]| |done].
    + rewrite snoc3. by apply open_closed.
    + apply given_up_next; [done|]. right. exists r, c. rewrite !elem_of_app, !elem_of_cons. split_and!; [auto|auto|lia].
    + intros res s' (x & Hx & Hf). exists x. split; [done|by eapply search_more].
  - apply wp_ret. exists (Some (rv r, rp)). split; [done|]. eexists. split; [exact Hs3|]. split_and!; [done|done| |].
    + exists c. rewrite !elem_of_app, !elem_of_cons. auto.
    + exists before, addrs. split; [done|]. eapply Forall_impl; [exact Hb|]. intros x Hx. by apply given_up_mono.
Qed.

Lemma wp_bind_first doListen opt_failed (P : option (Z * addrinfo) + Z → st S → Prop) E addrs before l0 l s s1 :
  (∀ sfd l2 s2, doListen = true → l0 `prefix_of` l2 → since s l2 s2 → left_open l2 = [sfd] → wp (opt_failed sfd) P E s2) →
  l0 `prefix_of` l → since s l s1 → left_open l = [] → Forall (given_up Cbind l) before →
  wp (bind_first doListen opt_failed addrs)
     (λ x s', (∃ res, x = inl res ∧ search_post Cbind (λ c, rv c = 0) (before ++ addrs) s l res s') ∨ P x s')
     E s1.
Proof.
  intros Hopt. revert before l s1. induction addrs as [|rp addrs IH]; intros before l s1 Hpre Hs Ho Hb; cbn [bind_first].
  { apply wp_ret. left. exists None. split; [done|]. exists []. rewrite !app_nil_r. by split_and!. }
  assert (∀ before' l' s', since s l' s' → left_open l' = [] → Forall (given_up Cbind l') before' →
    before' = before ++ [rp] → (∃ k, l' = l ++ k) →
    wp (bind_first doListen opt_failed addrs)
     (λ x s', (∃ res, x = inl res ∧ search_post Cbind (λ c, rv c = 0) (before ++ rp :: addrs) s l res s') ∨ P x s')
     E s') as Hnext.
  { intros before' l' s' Hs' Ho' Hb' -> [k ->]. eapply wp_mono; [apply (IH (before ++ [rp]) (l ++ k)); [by apply prefix_app_r|done..]| |done].
    intros x s'' [(res & -> & Hf)|HP]; [left|by right]. exists res. split; [done|by eapply search_more]. }
  apply wp_bind, wp_call. intros r s2 _ Hg2 _ Hc2 _. pose proof (since_call _ _ _ _ _ _ Hs Hc2 Hg2) as Hs2.
  destruct (Z.eqb_spec (rv r) (-1)) as [Er|Er].
  { eapply Hnext; [exact Hs2|by rewrite open_none| |done|by eexists].
    apply given_up_next; [done|]. left. exists r. rewrite elem_of_app, list_elem_of_singleton. auto. }
  assert (left_open (l ++ [(socket_of rp, r)]) = [rv r]) as Ho2 by by rewrite open_one, Ho.
  apply wp_bind.
  eapply (wp_mono _ (λ b s', ∃ k, since s ((l ++ [(socket_of rp, r)]) ++ k) s' ∧
    left_open ((l ++ [(socket_of rp, r)]) ++ k) = [rv r] ∧ (b = true → doListen = true)) _ E); [| |done].
  { destruct doListen.
    - apply wp_bind, wp_call. intros o s3 _ Hg3 _ Hc3 _. pose proof (since_call _ _ _ _ _ _ Hs2 Hc3 Hg3) as Hs3.
      apply wp_ret. eexists. split; [exact Hs3|]. split; [|done]. by rewrite open_same.
    - apply wp_ret. exists []. by rewrite app_nil_r. }
  intros b s3 (k & Hs3 & Ho3 & Hb3). destruct b.
  { eapply wp_mono; [eapply Hopt; [by apply Hb3| |exact Hs3|exact Ho3]| |done].
    - by do 2 apply prefix_app_r.
    - intros x s' HP. by right. }
  apply wp_bind, wp_call. intros c s4 _ Hg4 _ Hc4 _. pose proof (since_call _ _ _ _ _ _ Hs3 Hc4 Hg4) as Hs4.
  set (l3 := (l ++ [(socket_of rp, r)]) ++ k) in *.
  assert (left_open (l3 ++ [(Cbind (rv r) (ai_addr rp), c)]) = [rv r]) as Ho4 by by rewrite open_same.
  assert (∀ m, (socket_of rp, r) ∈ l3 ++ m) as Hin.
  { intros m. unfold l3. rewrite !elem_of_app, list_elem_of_singleton. auto. }
  destruct (Z.eqb_spec (rv c) 0) as [Ec|Ec].
  - apply wp_ret. left. exists (Some (rv r, rp)). split; [done|].
    exists ([(socket_of rp, r)] ++ k ++ [(Cbind (rv r) (ai_addr rp), c)]).
    replace (l ++ [(socket_of rp, r)] ++ k ++ [(Cbind (rv r) (ai_addr rp), c)]) with (l3 ++ [(Cbind (rv r) (ai_addr rp), c)])
      by (unfold l3; by rewrite <-!app_assoc).
    split; [done|]. split_and!; [done|done| |].
    + exists c. rewrite elem_of_app, list_elem_of_singleton. auto.
    + exists before, addrs. split; [done|]. unfold l3. rewrite <-!app_assoc.
      eapply Forall_impl; [exact Hb|]. intros x Hx. by apply given_up_mono.
  - apply wp_bind, wp_call. intros z s5 _ Hg5 _ Hc5 _. pose proof (since_call _ _ _ _ _ _ Hs4 Hc5 Hg5) as Hs5.
    eapply Hnext; [exact Hs5|by apply open_closed| |done|].
    + apply Forall_app. split.
      * unfold l3. rewrite <-!app_assoc. eapply Forall_impl; [exact Hb|]. intros x Hx. by apply given_up_mono.
      * constructor; [|constructor]. right. exists r, c. rewrite <-app_assoc. split; [apply Hin|].
        split; [|done]. rewrite elem_of_app. right. apply elem_of_cons. by left.
    + unfold l3. rewrite <-!app_assoc. by eexists.
Qed.
End Specs.

(** ** The properties *)

(** [inetConnect], on any kernel: when the names cannot be resolved it
    returns -1 with errno ENOSYS; otherwise it returns a socket connected to
    the first address that every earlier one was given up for, that socket
    alone is open, or -1 when every address was given up, with nothing left
    open. *)
Theorem inetConnect_correct {S} `{os} host service type (s : st S) :
  wp (inetConnect host service type)
     (λ fd s', ∃ r l, since s ((Cgetaddrinfo host service type 0, r) :: l) s' ∧
        ((rv r ≠ 0 ∧ fd = -1 ∧ errno s' = ENOSYS ∧ l = []) ∨
         (rv r = 0 ∧ ∃ x, fd = default (-1) (fst <$> x) ∧
            searched Cconnect (λ c, rv c ≠ -1) (results r) ((Cgetaddrinfo host service type 0, r) :: l) x)))
     (λ _ _, False) s.
Proof.
  unfold inetConnect. apply wp_bind, wp_call. intros r s1 _ Hg _ Hc _.
  pose proof (since_call _ _ _ _ _ _ (since_refl s) Hc Hg) as Hs1. cbn [app] in Hs1.
  destruct (Z.eqb_spec (rv r) 0) as [E|E]; cbn [negb].
  - apply wp_bind. eapply wp_mono; [by eapply (wp_connect_first (results r) [])| |done].
    intros res s' (x & -> & k & Hk & Hf). apply wp_ret. exists r, k. split; [exact Hk|]. right. split; [done|]. by exists x.
  - apply wp_bind, wp_set_errno, wp_ret. exists r, []. split; [exact Hs1|]. by left.
Qed.

(** Both inetListen and inetBind, on any kernel: the socket returned is bound to
    the first address that every earlier one was given up for (and listens),
    the length stored is that address's, and it is the only one open; when -1
    is returned nothing is left open, unless it was listen that failed: then
    the bound socket is. *)
Theorem inetPassiveSocket_correct {S} `{os} service type doListen backlog (s : st S) :
  wp (inetPassiveSocket service type doListen backlog)
     (λ '(fd, len) s', ∃ r l, since s ((Cgetaddrinfo None service type AI_PASSIVE, r) :: l) s' ∧
        let l' := (Cgetaddrinfo None service type AI_PASSIVE, r) :: l in
        match len with
        | Some n => rv r = 0 ∧ left_open l' = [fd] ∧ (doListen = true → ∃ c, last l' = Some (Clisten fd backlog, c) ∧ rv c ≠ -1) ∧
            ∃ rp k, k `prefix_of` l' ∧ n = ai_addrlen rp ∧ searched Cbind (λ c, rv c = 0) (results r) k (Some (fd, rp))
        | None => fd = -1 ∧
            (left_open l' = [] ∨
             doListen = true ∧ ∃ sfd c, last l' = Some (Clisten sfd backlog, c) ∧ rv c = -1 ∧ left_open l' = [sfd])
        end)
     (λ _ _, False) s.
Proof.
  unfold inetPassiveSocket. apply wp_bind, wp_call. intros r s1 _ Hg _ Hc _.
  pose proof (since_call _ _ _ _ _ _ (since_refl s) Hc Hg) as Hs1. cbn [app] in Hs1.
  destruct (Z.eqb_spec (rv r) 0) as [E|E]; cbn [negb].
  2: { apply wp_ret. exists r, []. split; [exact Hs1|]. split; [done|]. by left. }
  set (c0 := (Cgetaddrinfo None service type AI_PASSIVE, r)) in *. apply wp_bind.
  eapply (wp_mono _ _ _ (λ _ _, False)); [| |done].
  { eapply (wp_bind_first _ _ (λ x s', ∃ k, x = inr (-1) ∧ since s k s' ∧ left_open k = [] ∧ [c0] `prefix_of` k) (λ _ _, False)
      (results r) [] [c0]); [|done|exact Hs1|done|done].
    intros sfd l2 s2 _ Hpre Hs2 Ho2. apply wp_bind, wp_call. intros c s3 _ Hg3 _ Hc3 _. apply wp_ret.
    exists (l2 ++ [(Cclose sfd, c)]). split; [done|]. split; [by eapply since_call|]. split; [by apply open_closed|].
    by apply prefix_app_r. }
  intros x s2 [(res & -> & k & Hs2 & Hf)|(k & -> & Hs2 & Ho2 & [k' ->])].
  2: { apply wp_ret. exists r, k'. split; [exact Hs2|]. split; [done|]. by left. }
  destruct res as [[sfd rp]|]; cbn [searched app] in Hf.
  2: { apply wp_ret. exists r, k. split; [exact Hs2|]. split; [done|]. left. apply Hf. }
  pose proof Hf as Hsearch. destruct Hf as (Hfd & Hopen & Hrest). apply wp_bind. destruct doListen.
  - apply wp_bind, wp_call. intros c s3 _ Hg3 _ Hc3 _. pose proof (since_call _ _ _ _ _ _ Hs2 Hc3 Hg3) as Hs3.
    apply wp_ret. assert (left_open (([c0] ++ k) ++ [(Clisten sfd backlog, c)]) = [sfd]) as Ho3 by by rewrite open_same.
    destruct (Z.eqb_spec (rv c) (-1)) as [Ec|Ec]; apply wp_ret; exists r, (k ++ [(Clisten sfd backlog, c)]); (split; [exact Hs3|]).
    + split; [done|]. right. split; [done|]. exists sfd, c. split; [|done].
      change (last (([c0] ++ k) ++ [(Clisten sfd backlog, c)]) = Some (Clisten sfd backlog, c)). apply last_snoc.
    + split; [done|]. split; [done|]. split.
      * intros _. exists c. split; [|done].
        change (last (([c0] ++ k) ++ [(Clisten sfd backlog, c)]) = Some (Clisten sfd backlog, c)). apply last_snoc.
      * exists rp, ([c0] ++ k). split; [by exists [(Clisten sfd backlog, c)]|]. done.
  - apply wp_ret, wp_ret. exists r, k. split; [exact Hs2|]. split; [done|]. split; [done|]. split; [done|].
    by exists rp, ([c0] ++ k).
Qed.

(** The functions unixConnect and unixBind, on any kernel: a path that does not fit the
    address is refused with ENAMETOOLONG and no call; otherwise the address is
    the path, zero to its end, and either its socket is returned and is the
    only one open, or -1 is returned with the errno of the call that failed
    (closing the socket does not change it) and nothing is left open. *)
Theorem unix_sockets_correct {S} `{os} path type (s : st S) (connecting : bool) :
  wp (if connecting then unixConnect path type else unixBind path type)
     (λ fd s', let attach := if connecting then Cconnect else Cbind in
        if strlen path <? Z.of_nat SUN_PATH then
          ∃ addr l, since s l s' ∧ length addr = (2 + SUN_PATH)%nat ∧ (NUL ∉ path → c_str (drop 2 addr) = path) ∧
            ((fd = -1 ∧ left_open l = [] ∧ ∃ c r, (c, r) ∈ l ∧ rv r = -1 ∧ errno s' = rerr r) ∨
             (fd ≠ -1 ∧ left_open l = [fd] ∧ ∃ r, (attach fd addr, r) ∈ l ∧ rv r ≠ -1))
        else fd = -1 ∧ errno s' = ENAMETOOLONG ∧ since s [] s')
     (λ _ _, False) s.
Proof.
  set (attach := if connecting then Cconnect else Cbind).
  assert (∀ o fd a r, fd_event o (attach fd a, r) = o) as Hatt by (by intros; destruct connecting).
  replace (if connecting then unixConnect path type else unixBind path type) with (unix_socket attach path type : M S Z)
    by (by destruct connecting).
  unfold unix_socket. cbn [unixBuildAddress]. unfold strlen.
  destruct (Z.ltb_spec (Z.of_nat (length path)) (Z.of_nat SUN_PATH)) as [Hlt|Hge].
  2: { apply wp_bind, wp_bind, wp_set_errno, wp_ret, wp_ret. split; [done|]. split; [done|]. split; [by rewrite app_nil_r|done]. }
  apply wp_bind, wp_ret. cbn [Z.eqb]. set (addr := le16 AF_UNIX ++ path ++ replicate (SUN_PATH - length path) NUL).
  assert (length addr = (2 + SUN_PATH)%nat) as Hlen.
  { unfold addr. rewrite !length_app, length_replicate. unfold le16. simpl. lia. }
  assert (NUL ∉ path → c_str (drop 2 addr) = path) as Hpath.
  { intros Hn. change (drop 2 addr) with (path ++ replicate (SUN_PATH - length path) NUL).
    destruct (SUN_PATH - length path)%nat as [|k] eqn:Ek; [lia|]. simpl. by apply c_str_text. }
  apply wp_bind, wp_call. intros r s1 _ Hg1 He1 Hc1 _.
  pose proof (since_call _ _ _ _ _ _ (since_refl s) Hc1 Hg1) as Hs1. cbn [app] in Hs1.
  destruct (Z.eqb_spec (rv r) (-1)) as [Er|Er].
  { apply wp_ret. exists addr, [(Csocket AF_UNIX type 0, r)]. split; [done|]. split; [done|]. split; [done|]. left.
    split; [done|]. split; [by unfold left_open, fd_event; simpl; rewrite Er|].
    exists (Csocket AF_UNIX type 0), r. rewrite list_elem_of_singleton. by split_and!; [| |apply He1]. }
  assert (left_open [(Csocket AF_UNIX type 0, r)] = [rv r]) as Ho1.
  { unfold left_open, fd_event; simpl. by rewrite (proj2 (Z.eqb_neq _ _) Er). }
  apply wp_bind, wp_call. intros c s2 _ Hg2 He2 Hc2 _. pose proof (since_call _ _ _ _ _ _ Hs1 Hc2 Hg2) as Hs2.
  assert (left_open ([(Csocket AF_UNIX type 0, r)] ++ [(attach (rv r) addr, c)]) = [rv r]) as Ho2 by by rewrite open_same.
  destruct (Z.eqb_spec (rv c) (-1)) as [Ec|Ec].
  - apply wp_bind, wp_get_errno, wp_bind, wp_call. intros k s3 _ Hg3 _ Hc3 _.
    pose proof (since_call _ _ _ _ _ _ Hs2 Hc3 Hg3) as Hs3. apply wp_bind, wp_set_errno, wp_ret.
    exists addr. eexists. split; [exact Hs3|]. split; [done|]. split; [done|]. left. split; [done|]. split; [by apply open_closed|].
    exists (attach (rv r) addr), c. rewrite !elem_of_app, !list_elem_of_singleton. split_and!; [auto|done|]. by apply He2.
  - apply wp_ret. exists addr. eexists. split; [exact Hs2|]. split; [done|]. split; [done|]. right. split; [done|].
    split; [done|]. exists c. rewrite !elem_of_app, !list_elem_of_singleton. auto.
Qed.

(** A kernel where names resolve to two addresses and the first refuses. *)
Definition two_addresses : os := test_os (λ tr c,
  match c with
  | Cgetaddrinfo _ _ _ _ =>
      Reply 0 0 [] [(le32 2 ++ le32 1 ++ le32 0 ++ str "one", 16); (le32 10 ++ le32 1 ++ le32 0 ++ str "two", 28)]
  | Csocket f _ _ => ok (f + 1)
  | Cconnect _ a | Cbind _ a => if streq a (str "one") then fail 111 else ok 0
  | Clisten _ b => if b =? 0 then fail EINVAL else ok 0
  | _ => ok 0
  end).

Example second_address :
  let o := two_addresses in
  (inetConnect (Some (str "host")) (str "50000") SOCK_STREAM (init tt)).1 = Ret 11 ∧
  (inetListen (str "50000") 5 (init tt)).1 = Ret (11, Some 28) ∧
  let x := inetListen (str "50000") 0 (init tt) in
  x.1 = Ret (-1, None) ∧ left_open (calls (trace x.2)) = [11].
Proof. by vm_compute. Qed.
