(* ===== verification/Seqnum.v ===== *)
(** Servers that hand out sequence numbers: over stream sockets
    (tlpi-book/sockets/is_seqnum_sv.c, is_seqnum_cl.c) and over FIFOs
    (tlpi-book/pipes/fifo_seqnum_server.c, fifo_seqnum_client.c).

    They are built from the library: getInt, readLine, the error functions and
    the searches of Sockets.v.  Both servers are proved against one
    specification, [chain]: the ranges granted follow each other. *)
From S2P Require Import Prelude Sys ReadLine ErrorFns GetNum Sockets.

Definition SIGPIPE : Z := 13.

(** ** is_seqnum.h *)

Definition PORT_NUM : cstr := str "50000".
Definition INT_LEN : Z := 30.
Definition BACKLOG : Z := 50.

Section Sockets.
Context {S : Type} `{os}.

(** "%s" of the printable address of a client. *)
Definition client_name (addr : cstr) : M S cstr :=
  r ← sys (Cgetnameinfo addr 0);
  mret (match rv r, rents r with
        | 0, [(host, _); (service, _)] => str "(" ++ host ++ str ", " ++ service ++ str ")"
        | _, _ => str "(?UNKNOWN?)"
        end).

(** One turn of the server's loop, from the current sequence number (a
    uint32_t, printed with %d) to the next. *)
Definition serve_client (fuel : nat) (lfd seqNum : Z) : M S Z :=
  c ← sys (Caccept lfd);
  let cfd := rv c in
  if cfd =? -1 then errMsg (str "accept");; mret seqNum else
  addrStr ← client_name (rdata c);
  out Stdout (str "Connection from " ++ addrStr ++ [NL]);;
  '(numRead, reqLenStr, _) ← readLine fuel cfd false INT_LEN;
  if numRead <=? 0 then sys (Cclose cfd);; mret seqNum else
  let reqLen := atoi (c_str reqLenStr) in
  if reqLen <=? 0 then sys (Cclose cfd);; mret seqNum else
  let seqNumStr := snprintf INT_LEN (dec (wrap_s 32 seqNum) ++ [NL]) in
  w ← sys (Cwrite cfd seqNumStr);
  when (negb (rv w =? strlen seqNumStr)) (out Stderr (str "Error on write"));;
  k ← sys (Cclose cfd);
  when (rv k =? -1) (errMsg (str "close"));;
  mret (wrap_u 32 (seqNum + reqLen)).

Definition seqnum_listen : M S Z :=
  r ← sys (Cgetaddrinfo None PORT_NUM SOCK_STREAM (Z.lor AI_PASSIVE AI_NUMERICSERV));
  if negb (rv r =? 0) then errExit (str "getaddrinfo") else
  rp ← bind_first true (λ _, errExit (str "setsockopt")) (results r);
  match rp with
  | inl (Some (lfd, _)) =>
      r ← sys (Clisten lfd BACKLOG);
      if rv r =? -1 then errExit (str "listen") else mret lfd
  | _ => fatal (str "Could not bind socket to any address")
  end.

Definition is_seqnum_sv_main (fuel : nat) (argv : list cstr) : M S unit :=
  when (bool_decide (argv !! 1%nat = Some (str "--help")))
    (usageErr (default [] (argv !! 0%nat) ++ str " [init-seq-num]" ++ [NL]));;
  seqNum ← (match argv !! 1%nat with
            | Some a => getInt (Some a) 0 (Some (str "init-seq-num"))
            | None => mret 0
            end);
  g ← sys (Csigaction SIGPIPE);
  when (rv g =? -1) (errExit (str "signal"));;
  lfd ← seqnum_listen;
  loop fuel (λ seqNum, n ← serve_client fuel lfd seqNum; mret (inl n)) (wrap_u 32 seqNum).

Definition is_seqnum_cl_main (fuel : nat) (argv : list cstr) : M S unit :=
  match argv !! 1%nat with
  | None => usageErr (default [] (argv !! 0%nat) ++ str " server-host [sequence-len]" ++ [NL])
  | Some host =>
      when (streq host (str "--help"))
        (usageErr (default [] (argv !! 0%nat) ++ str " server-host [sequence-len]" ++ [NL]));;
      r ← sys (Cgetaddrinfo (Some host) PORT_NUM SOCK_STREAM AI_NUMERICSERV);
      if negb (rv r =? 0) then errExit (str "getaddrinfo") else
      rp ← connect_first (results r);
      match rp with
      | None => fatal (str "Could not connect socket to any address")
      | Some cfd =>
          let reqLenStr := default (str "1") (argv !! 2%nat) in
          w ← sys (Cwrite cfd reqLenStr);
          when (negb (rv w =? strlen reqLenStr)) (fatal (str "Partial/failed write (reqLenStr)"));;
          w ← sys (Cwrite cfd [NL]);
          when (negb (rv w =? 1)) (fatal (str "Partial/failed write (newline)"));;
          '(numRead, seqNumStr, _) ← readLine fuel cfd false INT_LEN;
          when (numRead =? -1) (errExit (str "readLine"));;
          when (numRead =? 0) (fatal (str "Unexpected EOF from server"));;
          out Stdout (str "Sequence number: " ++ c_str seqNumStr);;
          stop_with (Exit 0)
      end
  end.
End Sockets.

(** ** fifo_seqnum.h *)

Definition SERVER_FIFO : cstr := str "/tmp/seqnum_sv".
(** CLIENT_FIFO_TEMPLATE with a process ID. *)
Definition CLIENT_FIFO_NAME_LEN : Z := 19 + 20.
Definition clientFifo (pid : Z) : cstr := snprintf CLIENT_FIFO_NAME_LEN (str "/tmp/seqnum_cl." ++ dec pid).

Record request := Request { req_pid : Z; req_seqLen : Z }.
Definition int_of (b : cstr) : Z := wrap_s 32 (le (take 4 b)).
Definition request_bytes (r : request) : cstr := le32 (req_pid r) ++ le32 (req_seqLen r).
Definition request_of (b : cstr) : request := Request (int_of b) (int_of (drop 4 b)).
Definition SIZEOF_REQUEST : Z := 8.
Definition SIZEOF_RESPONSE : Z := 4.

Definition O_WRONLY : Z := 1.
Definition FIFO_MODE : Z := 400.      (* S_IRUSR | S_IWUSR | S_IWGRP *)

Section Fifo.
Context {S : Type} `{os}.

Definition serve_request (serverFd seqNum : Z) : M S Z :=
  r ← sys (Cread serverFd SIZEOF_REQUEST);
  if negb (rv r =? SIZEOF_REQUEST) then
    out Stderr (str "Error reading request; discarding" ++ [NL]);; mret seqNum else
  let req := request_of (rdata r) in
  c ← sys (Copen (clientFifo (req_pid req)) O_WRONLY 0);
  let clientFd := rv c in
  if clientFd =? -1 then errMsg (str "open " ++ clientFifo (req_pid req));; mret seqNum else
  w ← sys (Cwrite clientFd (le32 seqNum));
  when (negb (rv w =? SIZEOF_RESPONSE)) (out Stderr (str "Error writing to FIFO " ++ clientFifo (req_pid req) ++ [NL]));;
  k ← sys (Cclose clientFd);
  when (rv k =? -1) (errMsg (str "close"));;
  let next := seqNum + req_seqLen req in
  if (INT_MIN <=? next) && (next <=? INT_MAX) then mret next else stop_with (Undefined "signed overflow").

Definition fifo_server_main (fuel : nat) : M S unit :=
  sys (Cumask 0);;
  m ← sys (Cmkfifo SERVER_FIFO FIFO_MODE);
  e ← get_errno;
  when ((rv m =? -1) && negb (e =? EEXIST)) (errExit (str "mkfifo " ++ SERVER_FIFO));;
  f ← sys (Copen SERVER_FIFO 0 0);
  when (rv f =? -1) (errExit (str "open " ++ SERVER_FIFO));;
  d ← sys (Copen SERVER_FIFO O_WRONLY 0);
  when (rv d =? -1) (errExit (str "open " ++ SERVER_FIFO));;
  g ← sys (Csigaction SIGPIPE);
  when (rv g =? -1) (errExit (str "signal"));;
  loop fuel (λ seqNum, n ← serve_request (rv f) seqNum; mret (inl n)) 0.

Definition removeFifo (fifo : cstr) : M S unit := sys (Cunlink fifo);; mret tt.

(** The client, once its FIFO exists. *)
Definition fifo_client_ask (argv : list cstr) (fifo : cstr) : M S unit :=
  p ← sys Cgetpid;
  seqLen ← (match argv !! 1%nat with
            | Some a => getInt (Some a) GN_GT_0 (Some (str "seq-len"))
            | None => mret 1
            end);
  f ← sys (Copen SERVER_FIFO O_WRONLY 0);
  when (rv f =? -1) (errExit (str "open " ++ SERVER_FIFO));;
  w ← sys (Cwrite (rv f) (request_bytes (Request (rv p) seqLen)));
  when (negb (rv w =? SIZEOF_REQUEST)) (fatal (str "Can't write to server"));;
  c ← sys (Copen fifo 0 0);
  when (rv c =? -1) (errExit (str "open " ++ fifo));;
  r ← sys (Cread (rv c) SIZEOF_RESPONSE);
  when (negb (rv r =? SIZEOF_RESPONSE)) (fatal (str "Can't read response from server"));;
  out Stdout (dec (int_of (rdata r)) ++ [NL]);;
  stop_with (Exit 0).

Definition fifo_client_main (argv : list cstr) : M S unit :=
  when (bool_decide (argv !! 1%nat = Some (str "--help")))
    (usageErr (default [] (argv !! 0%nat) ++ str " [seq-len]" ++ [NL]));;
  sys (Cumask 0);;
  p ← sys Cgetpid;
  let fifo := clientFifo (rv p) in
  m ← sys (Cmkfifo fifo FIFO_MODE);
  e ← get_errno;
  when ((rv m =? -1) && negb (e =? EEXIST)) (errExit (str "mkfifo " ++ fifo));;
  a ← sys Catexit;
  when (negb (rv a =? 0)) (errExit (str "atexit"));;
  at_exit (removeFifo fifo) (fifo_client_ask argv fifo).
End Fifo.

(** ** The specification of both servers

    [blocks] are the calls of the turns of the loop, one list each; [granted b
    n len]: in turn [b] the range of [len] numbers from [n] on was granted. *)
Definition silent (b : list (call * reply)) : Prop := Forall (λ x, ∀ fd t, x.1 ≠ Cwrite fd t) b.

Section Chain.
Context (granted : list (call * reply) → Z → Z → Prop) (wrap : Z → Z).

Inductive chain (n : Z) : list (list (call * reply)) → list (Z * Z) → Z → Prop :=
  | chain_start : chain n [] [] n
  | chain_silent bs gs m b : chain n bs gs m → silent b → chain n (bs ++ [b]) gs m
  | chain_grant bs gs m b len : chain n bs gs m → granted b m len → chain n (bs ++ [b]) (gs ++ [(m, len)]) (wrap (m + len)).

Definition total (gs : list (Z * Z)) : Z := foldr (λ g t, g.2 + t) 0 gs.

Lemma total_app gs hs : total (gs ++ hs) = total gs + total hs.
Proof using. induction gs as [|g gs IH]; simpl; lia. Qed.

(** As long as the numbers do not run out, the next is the sum, and the ranges
    follow each other. *)
Lemma chain_sum n bs gs m top : (∀ z, 0 <= z <= top → wrap z = z) → 0 <= n →
  chain n bs gs m → Forall (λ g, 0 < g.2) gs → n + total gs <= top →
  m = n + total gs ∧ ∀ i s l, gs !! i = Some (s, l) → n <= s ∧ s + l <= m.
Proof using.
  intros Hw Hn Hc. induction Hc as [|bs gs m b Hc IH _|bs gs m b len Hc IH _]; intros Hp Ht.
  - split; [simpl; lia|done].
  - by apply IH.
  - apply Forall_app in Hp as [Hp Hl]. apply Forall_inv in Hl. simpl in Hl.
    rewrite total_app in Ht |- *. simpl in Ht |- *. destruct IH as [-> IH]; [done|lia|].
    assert (0 <= total gs) as Htot by (clear -Hp; induction Hp; simpl; lia).
    rewrite Hw by lia. split; [lia|]. intros i s l [Hi|[_ Hi]]%lookup_app_Some.
    + specialize (IH _ _ _ Hi). lia.
    + apply list_lookup_singleton_Some in Hi as [_ [= <- <-]]. lia.
Qed.

Lemma chain_positive n bs gs m : (∀ b n len, granted b n len → 0 < len) → chain n bs gs m → Forall (λ g, 0 < g.2) gs.
Proof using.
  intros Hg Hc. induction Hc as [| |bs gs m b len _ IH Hb]; [by apply Forall_nil_2|done|].
  apply Forall_app. split; [done|]. constructor; [by eapply Hg|by apply Forall_nil_2].
Qed.

Lemma chain_disjoint n bs gs m top : (∀ z, 0 <= z <= top → wrap z = z) → 0 <= n →
  chain n bs gs m → Forall (λ g, 0 < g.2) gs → n + total gs <= top →
  ∀ i j a b, gs !! i = Some a → gs !! j = Some b → (i < j)%nat → a.1 + a.2 <= b.1.
Proof using.
  intros Hw Hn Hc. induction Hc as [|bs gs m b Hc IH _|bs gs m b len Hc IH _]; intros Hp Ht i j x y Hi Hj Hij; [done|by eapply IH|].
  apply Forall_app in Hp as [Hp Hl]. apply Forall_inv in Hl. simpl in Hl.
  rewrite total_app in Ht. simpl in Ht.
  apply lookup_app_Some in Hj as [Hj|[Hge Hj]].
  - rewrite lookup_app_l in Hi by (apply lookup_lt_Some in Hj; lia). eapply IH; [done|lia|done..].
  - apply list_lookup_singleton_Some in Hj as [Hj <-]. rewrite lookup_app_l in Hi by lia.
    destruct (chain_sum _ _ _ _ _ Hw Hn Hc Hp ltac:(lia)) as [_ H]. destruct x as [s l]. simpl. by apply H in Hi as [_ ?].
Qed.
End Chain.

(** ** The stream server *)

Lemma acts_sys_events l fd : reads_of fd l → acts (sys_events l) = l.
Proof.
  induction 1 as [|[c r] l Hc _ IH]; [done|]. simpl in Hc. subst c.
  change ((Cread fd 1, r) :: acts (sys_events l) = (Cread fd 1, r) :: l). by rewrite IH.
Qed.

(** What the server answers when the next number is [n], and the request it
    answers: a line of at most 29 characters that starts with a positive
    decimal number. *)
Definition seqnum_text (n : Z) : cstr := dec (wrap_s 32 n) ++ [NL].

Definition sock_grant (b : list (call * reply)) (n len : Z) : Prop :=
  ∃ lfd c a k w rs, b = (Caccept lfd, c) :: (Cgetnameinfo (rdata c) 0, a) :: rs ++
      [(Cwrite (rv c) (seqnum_text n), w); (Cclose (rv c), k)] ∧
    reads_of (rv c) rs ∧ len = atoi (c_str (take 29 (chars rs))) ∧ 0 < len.

Lemma dec_go_length fuel n acc k : 0 <= n < 10 ^ Z.of_nat k → (0 < k)%nat →
  (length (dec_go fuel n acc) <= length acc + k)%nat.
Proof.
  revert n acc k; induction fuel as [|fuel IH]; intros n acc k Hn Hk; cbn [dec_go]; [lia|].
  destruct (Z.ltb_spec n 10); [simpl; lia|].
  destruct k as [|[|k]]; [lia|simpl in Hn; lia|].
  etrans; [apply (IH _ _ (Datatypes.S k))|simpl; lia]; [|lia].
  rewrite (Nat2Z.inj_succ (Datatypes.S k)), Z.pow_succ_r in Hn by lia.
  split; [apply Z.div_pos; lia|apply Z.div_lt_upper_bound; lia].
Qed.

Lemma dec_int_length z : INT_MIN <= z <= INT_MAX → (length (dec z) <= 11)%nat.
Proof.
  intros Hz. unfold INT_MIN, INT_MAX in Hz. unfold dec, dec_nat.
  assert (∀ n, 0 <= n <= 2147483648 → (length (dec_go (Datatypes.S (Z.to_nat (Z.log2 n))) n []) <= 10)%nat) as Hd.
  { intros n Hn. apply (dec_go_length _ _ [] 10); [|lia]. change (10 ^ Z.of_nat 10) with 10000000000. lia. }
  destruct (Z.ltb_spec z 0); [specialize (Hd (-z) ltac:(lia))|specialize (Hd z ltac:(lia))]; cbn [length]; lia.
Qed.

Lemma seqnum_text_fits n : snprintf INT_LEN (seqnum_text n) = seqnum_text n.
Proof.
  apply snprintf_fits. unfold seqnum_text, strlen, INT_LEN. rewrite length_app. simpl.
  pose proof (wrap_s_range 32 n ltac:(lia)) as Hr. simpl in Hr.
  pose proof (dec_int_length (wrap_s 32 n)) as Hd. unfold INT_MIN, INT_MAX in Hd. lia.
Qed.

Section Server.
Context {S : Type} `{os}.
Implicit Types s : st S.

Lemma silent_snoc b c r : silent b → (∀ fd t, c ≠ Cwrite fd t) → silent (b ++ [(c, r)]).
Proof using. intros Hb Hc. apply Forall_app. split; [done|]. by repeat constructor. Qed.

Lemma silent_reads fd rs : reads_of fd rs → silent rs.
Proof using. intros Hr. eapply Forall_impl; [exact Hr|]. by intros x -> fd' t. Qed.

(** One turn: nothing is written, or a range is granted. *)
Lemma wlp_serve_seqnum_client fuel lfd n s :
  wlp (serve_client fuel lfd n)
    (λ n' s', ∃ b, acted s b s' ∧ (silent b ∧ n' = n ∨ ∃ len, sock_grant b n len ∧ n' = wrap_u 32 (n + len)))
    (λ _ _, False)
    (λ s', ∃ b, acted s b s' ∧ silent b) s.
Proof using.
  unfold serve_client. apply wlp_bind, wp_wlp, wp_call. intros c s1 _ Hg1 _ _ Ht1.
  pose proof (acted_call _ _ _ _ _ _ (acted_refl s) Ht1 Hg1 ltac:(done)) as Ha1. cbn [app] in Ha1.
  destruct (rv c =? -1).
  { apply wp_wlp, wp_bind, wp_errMsg. intros s2 Hg2 _ Hacts. apply wp_ret. eexists. split; [by eapply acted_same|].
    left. split; [|done]. by apply (silent_snoc []); [apply Forall_nil_2|]. }
  apply wlp_bind, wp_wlp, wp_bind, wp_call. intros a s2 _ Hg2 _ _ Ht2.
  pose proof (acted_call _ _ _ _ _ _ Ha1 Ht2 Hg2 ltac:(done)) as Ha2. cbn [app] in Ha2.
  apply wp_ret, wlp_bind, wp_wlp, wp_emit. apply wlp_bind.
  set (pre := [(Caccept lfd, c); (Cgetnameinfo (rdata c) 0, a)]) in *.
  assert (silent pre) as Hpre by by repeat constructor.
  eapply wlp_mono; [apply wlp_readLine; done| |done|].
  2: { intros s3 (Hg3 & l & Ht3 & Hr). exists (pre ++ l). split.
       - destruct Ha2 as [Ha2 Hg]. cbn [glob trace] in *. split; [|congruence].
         by rewrite Ht3, acts_app, acts_out, Ha2, (acts_sys_events _ _ Hr), app_assoc.
       - apply Forall_app. split; [done|by eapply silent_reads]. }
  intros [[res buf] term] s3 (Hg3 & l & _ & Ht3 & Hr & Hbuf). cbn [glob trace] in *.
  assert (acted s (pre ++ l) s3) as Ha3.
  { destruct Ha2 as [Ha2 Hg]. split; [|congruence].
    by rewrite Ht3, acts_app, acts_out, Ha2, (acts_sys_events _ _ Hr), app_assoc. }
  assert (silent (pre ++ l)) as Hsil by (apply Forall_app; split; [done|by eapply silent_reads]).
  assert (∀ s4, trace s4 = trace s3 → glob s4 = glob s3 →
    wp (sys (Cclose (rv c));; mret n) (λ n' s', ∃ b, acted s b s' ∧ (silent b ∧ n' = n ∨ ∃ len, sock_grant b n len ∧ n' = wrap_u 32 (n + len)))
       (λ _ _, False) s4) as Hclose.
  { intros s4 E1 E2. apply wp_bind, wp_call. intros k s5 _ Hg5 _ _ Ht5. apply wp_ret.
    exists ((pre ++ l) ++ [(Cclose (rv c), k)]). split; [eapply (acted_call _ s4); [|done|done|done]|].
    - destruct Ha3. split; congruence.
    - left. split; [by apply silent_snoc|done]. }
  destruct (Z.leb_spec res 0) as [|Hpos]; [by apply wp_wlp, Hclose|].
  destruct (Hbuf Hpos) as (-> & _ & _). change (Z.to_nat (INT_LEN - 1)) with 29%nat.
  set (len := atoi (c_str (take 29 (chars l)))). destruct (Z.leb_spec len 0) as [|Hlen]; [by apply wp_wlp, Hclose|].
  apply wp_wlp. change (dec (wrap_s 32 n) ++ [NL]) with (seqnum_text n). rewrite seqnum_text_fits.
  apply wp_bind, wp_call. intros w s4 _ Hg4 _ _ Ht4.
  pose proof (acted_call _ _ _ _ _ _ Ha3 Ht4 Hg4 ltac:(done)) as Ha4. apply wp_bind.
  eapply (wp_mono _ (λ _ s', acted s ((pre ++ l) ++ [(Cwrite (rv c) (seqnum_text n), w)]) s') _ (λ _ _, False)); [| |done].
  { destruct (rv w =? _); [by apply wp_ret|]. apply wp_emit. eapply acted_same; [exact Ha4| |done]. cbn [trace]. apply acts_out. }
  intros [] s5 Ha5. apply wp_bind, wp_call. intros k s6 _ Hg6 _ _ Ht6.
  pose proof (acted_call _ _ _ _ _ _ Ha5 Ht6 Hg6 ltac:(done)) as Ha6. apply wp_bind.
  eapply (wp_mono _ (λ _ s', acted s (((pre ++ l) ++ [(Cwrite (rv c) (seqnum_text n), w)]) ++ [(Cclose (rv c), k)]) s') _ (λ _ _, False)); [| |done].
  { destruct (rv k =? -1); [|by apply wp_ret]. apply wp_errMsg. intros s7 Hg7 _ H7. by eapply acted_same. }
  intros [] s7 Ha7. apply wp_ret. eexists. split; [exact Ha7|]. right. exists len. split; [|done].
  exists lfd, c, a, k, w, l. split_and!; [by rewrite <-!app_assoc|done..].
Qed.

(** What the server is doing after its start: the calls of complete turns, and
    of one that is under way. *)
Definition serving (granted : list (call * reply) → Z → Z → Prop) (wrap : Z → Z) (n : Z) s s' : Prop :=
  ∃ l bs gs m b, acted s (l ++ concat bs ++ b) s' ∧ silent l ∧ chain granted wrap n bs gs m ∧ silent b.

Lemma wlp_seqnum_loop fuel lfd n l s s1 :
  acted s l s1 → silent l →
  wlp (loop fuel (λ seqNum, n ← serve_client fuel lfd seqNum; mret (inl n)) n) (λ (_ : unit) _, False) (λ _ _, False)
    (serving sock_grant (wrap_u 32) n s) s1.
Proof using.
  intros Hl Hsil.
  apply (wlp_loop (λ m s', ∃ bs gs, acted s (l ++ concat bs) s' ∧ chain sock_grant (wrap_u 32) n bs gs m)).
  { exists [], []. rewrite app_nil_r. split; [done|]. constructor. }
  { intros m s' (bs & gs & Ha & Hc). exists l, bs, gs, m, []. rewrite app_nil_r. split_and!; [done..|by apply Forall_nil_2]. }
  intros m s2 (bs & gs & [Ha2 Hg2] & Hc). apply wlp_bind. eapply wlp_mono; [apply wlp_serve_seqnum_client| |done|].
  - intros n' s3 (b & [Ha3 Hg3] & Hb). apply wp_wlp, wp_ret.
    assert (acted s (l ++ concat (bs ++ [b])) s3) as Ha.
    { split; [|congruence]. rewrite Ha3, Ha2, concat_app. simpl. by rewrite app_nil_r, !app_assoc. }
    destruct Hb as [[Hb ->]|(len & Hb & ->)]; eexists _, _; (split; [exact Ha|]).
    + by apply chain_silent.
    + by apply chain_grant.
  - intros s3 (b & [Ha3 Hg3] & Hb). exists l, bs, gs, m, b. split_and!; [|done..].
    split; [by rewrite Ha3, Ha2, <-!app_assoc|congruence].
Qed.

(** Starting up writes to no one. *)
Definition started s s' : Prop := ∃ l, acted s l s' ∧ silent l.

Lemma started_refl s : started s s.
Proof using. exists []. split; [apply acted_refl|apply Forall_nil_2]. Qed.

Lemma started_call s s1 c r s2 : started s s1 → trace s2 = trace s1 ++ [Esys c r] → glob s2 = glob s1 →
  (∀ f, c ≠ Cfflush f) → (∀ fd t, c ≠ Cwrite fd t) → started s s2.
Proof using.
  intros (l & Ha & Hs) Ht Hg Hf Hw. exists (l ++ [(c, r)]). split; [by eapply acted_call|by apply silent_snoc].
Qed.

Lemma wp_start_call c s s1 (Q : reply → st S → Prop) E :
  started s s1 → (∀ f, c ≠ Cfflush f) → (∀ fd t, c ≠ Cwrite fd t) →
  (∀ r s2, r = kern (trace s1) c → started s s2 → Q r s2) → wp (sys c) Q E s1.
Proof using.
  intros Hs Hf Hw HQ. apply wp_call. intros r s2 Hr Hg _ _ Ht. apply HQ; [done|]. by eapply started_call.
Qed.

(** Every way to give up at the start is an exit with failure, or a core dump
    that EF_DUMPCORE asks for. *)
Definition start_failed (t : stop) s s' : Prop := (t = end_of true ∨ t = Exit 1) ∧ started s s'.

Lemma start_errExit {A} text s s1 (Q : A → st S → Prop) :
  started s s1 → wp (errExit text) Q (λ t s', start_failed t s s') s1.
Proof using.
  intros (l & Ha & Hl). apply wp_errExit. intros s2 Hg Hacts _. split; [by left|]. exists l. split; [by eapply acted_same|done].
Qed.

Lemma start_fatal {A} text s s1 (Q : A → st S → Prop) :
  started s s1 → wp (fatal text) Q (λ t s', start_failed t s s') s1.
Proof using.
  intros (l & Ha & Hl). apply wp_fatal. intros s2 Hg Hacts. split; [by left|]. exists l. split; [by eapply acted_same|done].
Qed.

Lemma start_usageErr {A} text s s1 (Q : A → st S → Prop) :
  started s s1 → wp (usageErr text) Q (λ t s', start_failed t s s') s1.
Proof using.
  intros (l & Ha & Hl). apply wp_usageErr. intros s2 Hg Hacts. split; [by right|]. exists l. split; [by eapply acted_same|done].
Qed.

Lemma wp_bind_first_start opt_failed addrs s s1 :
  (∀ sfd s2, started s s2 → wp (opt_failed sfd) (λ _ s', started s s') (λ t s', start_failed t s s') s2) →
  started s s1 → wp (bind_first true opt_failed addrs) (λ _ s', started s s') (λ t s', start_failed t s s') s1.
Proof using.
  intros Hopt. revert s1. induction addrs as [|rp addrs IH]; intros s1 Hs; cbn [bind_first]; [by apply wp_ret|].
  apply wp_bind. eapply wp_start_call; [done..|]. intros r s2 _ Hs2.
  destruct (rv r =? -1); [by apply IH|]. apply wp_bind, wp_bind. eapply wp_start_call; [done..|]. intros o s3 _ Hs3.
  apply wp_ret. destruct (rv o =? -1); [by apply Hopt|].
  apply wp_bind. eapply wp_start_call; [done..|]. intros b s4 _ Hs4.
  destruct (rv b =? 0); [by apply wp_ret|]. apply wp_bind. eapply wp_start_call; [done..|]. intros k s5 _ Hs5. by apply IH.
Qed.

Lemma wp_seqnum_listen s s1 : started s s1 →
  wp seqnum_listen (λ _ s', started s s') (λ t s', start_failed t s s') s1.
Proof using.
  intros Hs. unfold seqnum_listen. apply wp_bind. eapply wp_start_call; [done..|]. intros r s2 _ Hs2.
  destruct (negb _); [by apply start_errExit|]. apply wp_bind.
  eapply wp_mono; [apply wp_bind_first_start; [|done]| |done]; [by intros; apply start_errExit|].
  intros [[[lfd rp]|]|e] s3 Hs3; [|by apply start_fatal..].
  apply wp_bind. eapply wp_start_call; [done..|]. intros l s4 _ Hs4.
  destruct (_ =? _); [by apply start_errExit|by apply wp_ret].
Qed.

(** getInt makes no calls. *)
Lemma wp_gnFail_acts {A} fname msg arg name (Q : A → st S → Prop) s0 s :
  acted s0 [] s → wp (gnFail fname msg arg name) Q (λ t s', acted s0 [] s' ∧ t = Exit 1) s.
Proof using.
  intros [Ha Hg]. assert (∃ s', gnFail (A:=A) fname msg arg name s = (Stop (Exit 1), s') ∧
    acts (trace s') = acts (trace s) ∧ glob s' = glob s) as (s' & E & H1 & H2).
  { destruct name, arg as [[|c r]|]; eexists; (split; [reflexivity|]); cbn; rewrite !acts_out; done. }
  unfold wp. rewrite E. split; [|done]. split; congruence.
Qed.

Lemma wp_getInt_acts arg flags name s :
  wp (getInt arg flags name) (λ _ s', acted s [] s') (λ t s', acted s [] s' ∧ t = Exit 1) s.
Proof using.
  pose proof (acted_refl s) as Hr. set (E := λ t s', acted s [] s' ∧ t = Exit 1). apply wp_bind.
  eapply (wp_mono _ (λ _ s', acted s [] s') _ E E); [|intros v s' Hv|done].
  - unfold getNum. destruct arg as [[|c r]|]; [by apply wp_gnFail_acts| |by apply wp_gnFail_acts].
    apply wp_bind, wp_set_errno. destruct (strtol _ _) as [[res endptr] err]. apply wp_bind.
    eapply (wp_mono _ (λ _ s', acted s [] s') _ E E); [|intros ? s' Hs|done].
    { destruct (negb _); [by apply wp_set_errno|by apply wp_ret]. }
    apply wp_bind, wp_get_errno.
    destruct (negb _); [by apply wp_gnFail_acts|]. destruct (negb _); [by apply wp_gnFail_acts|].
    destruct (_ && _); [by apply wp_gnFail_acts|]. destruct (_ && _); [by apply wp_gnFail_acts|by apply wp_ret].
  - destruct (_ || _); [by apply wp_gnFail_acts|by apply wp_ret].
Qed.

Lemma start_getInt arg flags name s s1 : started s s1 →
  wp (getInt arg flags name) (λ v s', started s s' ∧ wanted arg flags INT_MIN INT_MAX v)
     (λ t s', start_failed t s s') s1.
Proof using.
  intros (l & [Ha Hg] & Hl). pose proof (wp_getInt_acts arg flags name s1) as W1.
  pose proof (wp_getInt arg flags name s1) as W2. unfold wp in *.
  assert (∀ s2, acted s1 [] s2 → started s s2) as Hs.
  { intros s2 [H1 H2]. exists l. split; [|done]. split; [rewrite H1, app_nil_r; done|congruence]. }
  destruct (getInt _ _ _ _) as [[v|t|] s2]; [|split; [right; by destruct W1|by apply Hs; destruct W1]|done].
  split; [by apply Hs|by destruct W2].
Qed.

Lemma wlp_is_seqnum_sv fuel argv s :
  wlp (is_seqnum_sv_main fuel argv) (λ _ _, False) (λ t s', start_failed t s s')
    (λ s', ∃ n, (match argv !! 1%nat with
                 | Some a => wanted (Some a) 0 INT_MIN INT_MAX n
                 | None => n = 0
                 end) ∧ serving sock_grant (wrap_u 32) (wrap_u 32 n) s s') s.
Proof using.
  unfold is_seqnum_sv_main. apply wlp_bind.
  eapply (wlp_mono _ (λ _ s', started s s') _ (λ t s', start_failed t s s') _ (λ _, False)); [|intros [] s1 Hs1|done|done].
  { apply wp_wlp. destruct (bool_decide _); [apply start_usageErr, started_refl|apply wp_ret, started_refl]. }
  apply wlp_bind.
  eapply (wlp_mono _ (λ n s', started s s' ∧ match argv !! 1%nat with
                 | Some a => wanted (Some a) 0 INT_MIN INT_MAX n
                 | None => n = 0
                 end) _ (λ t s', start_failed t s s') _ (λ _, False)); [|intros n s2 [Hs2 Hn]|done|done].
  { apply wp_wlp. destruct (argv !! 1%nat) as [a|]; [by apply start_getInt|by apply wp_ret]. }
  apply wlp_bind, wp_wlp. eapply wp_start_call; [done..|]. intros g s3 _ Hs3. apply wlp_bind.
  eapply (wlp_mono _ (λ _ s', started s s') _ (λ t s', start_failed t s s') _ (λ _, False)); [|intros [] s4 Hs4|done|done].
  { apply wp_wlp. destruct (rv g =? -1); [by apply start_errExit|by apply wp_ret]. }
  apply wlp_bind. eapply (wlp_mono _ _ _ _ _ (λ _, False)); [by apply wp_wlp, wp_seqnum_listen| |done|done].
  intros lfd s5 (l & Ha & Hl). eapply wlp_mono; [by eapply wlp_seqnum_loop|done|done|].
  intros s6 Hs6. by exists n.
Qed.

(** *** The FIFO server *)

Definition fifo_grant (b : list (call * reply)) (n len : Z) : Prop :=
  ∃ fd r c w k, b = [(Cread fd SIZEOF_REQUEST, r); (Copen (clientFifo (req_pid (request_of (rdata r)))) O_WRONLY 0, c);
      (Cwrite (rv c) (le32 n), w); (Cclose (rv c), k)] ∧
    rv r = SIZEOF_REQUEST ∧ len = req_seqLen (request_of (rdata r)).

Lemma wp_serve_request fd n s :
  wp (serve_request fd n)
    (λ n' s', ∃ b, acted s b s' ∧ (silent b ∧ n' = n ∨ ∃ len, fifo_grant b n len ∧ n' = n + len))
    (λ t s', t = Undefined "signed overflow") s.
Proof using.
  unfold serve_request. apply wp_bind, wp_call. intros r s1 _ Hg1 _ _ Ht1.
  pose proof (acted_call _ _ _ _ _ _ (acted_refl s) Ht1 Hg1 ltac:(done)) as Ha1. cbn [app] in Ha1.
  destruct (Z.eqb_spec (rv r) SIZEOF_REQUEST) as [E|E]; cbn [negb].
  2: { apply wp_bind, wp_emit, wp_ret. eexists. split; [eapply acted_same; [exact Ha1|apply acts_out|done]|]. left.
       split; [by repeat constructor|done]. }
  apply wp_bind, wp_call. intros c s2 _ Hg2 _ _ Ht2.
  pose proof (acted_call _ _ _ _ _ _ Ha1 Ht2 Hg2 ltac:(done)) as Ha2. cbn [app] in Ha2.
  destruct (rv c =? -1).
  { apply wp_bind, wp_errMsg. intros s3 Hg3 _ Hacts. apply wp_ret. eexists. split; [by eapply acted_same|].
    left. split; [by repeat constructor|done]. }
  apply wp_bind, wp_call. intros w s3 _ Hg3 _ _ Ht3.
  pose proof (acted_call _ _ _ _ _ _ Ha2 Ht3 Hg3 ltac:(done)) as Ha3. cbn [app] in Ha3.
  set (b3 := [_; _; _]) in Ha3. set (E3 := λ (t : stop) (_ : st S), t = Undefined "signed overflow").
  apply wp_bind. eapply (wp_mono _ (λ _ s', acted s b3 s') _ E3 E3); [|intros [] s4 Ha4|done].
  { destruct (negb _); [|by apply wp_ret]. apply wp_emit. eapply acted_same; [exact Ha3|apply acts_out|done]. }
  apply wp_bind, wp_call. intros k s5 _ Hg5 _ _ Ht5.
  pose proof (acted_call _ _ _ _ _ _ Ha4 Ht5 Hg5 ltac:(done)) as Ha5.
  apply wp_bind. eapply (wp_mono _ (λ _ s', acted s (b3 ++ [(Cclose (rv c), k)]) s') _ E3 E3); [|intros [] s6 Ha6|done].
  { destruct (_ =? -1); [|by apply wp_ret]. apply wp_errMsg. intros s6 Hg6 _ H6. by eapply acted_same. }
  destruct (_ && _); [|by apply wp_stop]. apply wp_ret. eexists. split; [exact Ha6|]. right.
  eexists. split; [|done]. by exists fd, r, c, w, k.
Qed.

Lemma wlp_fifo_loop fuel fd n l s s1 :
  acted s l s1 → silent l →
  wlp (loop fuel (λ seqNum, n ← serve_request fd seqNum; mret (inl n)) n) (λ (_ : unit) _, False)
    (λ t _, t = Undefined "signed overflow") (serving fifo_grant id n s) s1.
Proof using.
  intros Hl Hsil.
  apply (wlp_loop (λ m s', ∃ bs gs, acted s (l ++ concat bs) s' ∧ chain fifo_grant id n bs gs m)).
  { exists [], []. rewrite app_nil_r. split; [done|]. constructor. }
  { intros m s' (bs & gs & Ha & Hc). exists l, bs, gs, m, []. rewrite app_nil_r. split_and!; [done..|by apply Forall_nil_2]. }
  intros m s2 (bs & gs & [Ha2 Hg2] & Hc). apply wp_wlp, wp_bind. eapply wp_mono; [apply wp_serve_request| |done].
  intros n' s3 (b & [Ha3 Hg3] & Hb). apply wp_ret.
  assert (acted s (l ++ concat (bs ++ [b])) s3) as Ha.
  { split; [|congruence]. rewrite Ha3, Ha2, concat_app. simpl. by rewrite app_nil_r, !app_assoc. }
  destruct Hb as [[Hb ->]|(len & Hb & ->)]; eexists _, _; (split; [exact Ha|]).
  - by apply chain_silent.
  - by apply (chain_grant _ id).
Qed.

Lemma start_when (b : bool) text s s1 : started s s1 →
  wp (when b (errExit text)) (λ _ s', started s s') (λ t s', start_failed t s s') s1.
Proof using. intros Hs. destruct b; [by apply start_errExit|by apply wp_ret]. Qed.

Lemma wlp_fifo_server fuel s :
  wlp (fifo_server_main fuel) (λ _ _, False)
    (λ t s', start_failed t s s' ∨ t = Undefined "signed overflow") (serving fifo_grant id 0 s) s.
Proof using.
  set (E := λ t s', start_failed t s s' ∨ t = Undefined "signed overflow").
  assert (∀ b text s1 (F : st S → Prop), started s s1 →
    wlp (when b (errExit text)) (λ _ s', started s s') E F s1) as Hwhen.
  { intros b text s1 F Hs. apply wp_wlp. eapply wp_mono; [by apply start_when|done|]. intros; by left. }
  unfold fifo_server_main. apply wlp_bind, wp_wlp. eapply wp_start_call; [apply started_refl|done..|]. intros u s1 _ Hs1.
  apply wlp_bind, wp_wlp. eapply wp_start_call; [exact Hs1|done..|]. intros m s2 _ Hs2.
  apply wlp_bind, wp_wlp, wp_get_errno. apply wlp_bind. eapply wlp_mono; [by apply Hwhen|intros [] s3 Hs3|done|done].
  apply wlp_bind, wp_wlp. eapply wp_start_call; [exact Hs3|done..|]. intros f s4 _ Hs4.
  apply wlp_bind. eapply wlp_mono; [by apply Hwhen|intros [] s5 Hs5|done|done].
  apply wlp_bind, wp_wlp. eapply wp_start_call; [exact Hs5|done..|]. intros d s6 _ Hs6.
  apply wlp_bind. eapply wlp_mono; [by apply Hwhen|intros [] s7 Hs7|done|done].
  apply wlp_bind, wp_wlp. eapply wp_start_call; [exact Hs7|done..|]. intros g s8 _ Hs8.
  apply wlp_bind. eapply wlp_mono; [by apply Hwhen|intros [] s9 (l & Ha & Hl)|done|done].
  eapply wlp_mono; [by eapply wlp_fifo_loop|done| |done]. intros t s' ->. by right.
Qed.
End Server.

(** ** The properties *)

(** The granted ranges are pairwise disjoint, in the order of the grants. *)
Definition disjoint_ranges (gs : list (Z * Z)) : Prop :=
  ∀ i j a b, gs !! i = Some a → gs !! j = Some b → (i < j)%nat → a.1 + a.2 <= b.1.

Lemma serving_disjoint {S} granted wrap n top (s s' : st S) :
  (∀ z, 0 <= z <= top → wrap z = z) → 0 <= n → serving granted wrap n s s' →
  ∃ l bs gs m b, acted s (l ++ concat bs ++ b) s' ∧ silent l ∧ chain granted wrap n bs gs m ∧ silent b ∧
    (Forall (λ g, 0 < g.2) gs → n + total gs <= top → disjoint_ranges gs).
Proof.
  intros Hw Hn (l & bs & gs & m & b & Ha & Hl & Hc & Hb). exists l, bs, gs, m, b. split_and!; [done..|].
  intros Hp Ht i j x y Hi Hj Hij. by eapply chain_disjoint.
Qed.

(** C21: the sequence number server over sockets, on any kernel, with any
    clients, however long it runs: it stops only while starting up; afterwards
    it writes only grants, each in answer to a line with a positive number
    read on the same connection, the first range starting at the number of
    the command line and each at the end of the one before (modulo 2^32); and
    until 2^32 is reached the ranges are disjoint. *)
Theorem is_seqnum_sv_correct {S} `{os} fuel argv (s : st S) :
  wlp (is_seqnum_sv_main fuel argv) (λ _ _, False) (λ t s', start_failed t s s')
    (λ s', ∃ n l bs gs m b,
       (match argv !! 1%nat with Some a => wanted (Some a) 0 INT_MIN INT_MAX n | None => n = 0 end) ∧
       acted s (l ++ concat bs ++ b) s' ∧ silent l ∧ silent b ∧ chain sock_grant (wrap_u 32) (wrap_u 32 n) bs gs m ∧
       (wrap_u 32 n + total gs < 2 ^ 32 → disjoint_ranges gs)) s.
Proof.
  eapply wlp_mono; [apply wlp_is_seqnum_sv|done|done|]. intros s' (n & Hn & Hs).
  destruct (serving_disjoint sock_grant (wrap_u 32) (wrap_u 32 n) (2 ^ 32 - 1) s s') as (l & bs & gs & m & b & Ha & Hl & Hc & Hb & Hd); [| |done|].
  - intros z Hz. unfold wrap_u. apply Z.mod_small. lia.
  - unfold wrap_u. apply Z.mod_pos_bound. lia.
  - exists n, l, bs, gs, m, b. split_and!; [done..|]. intros Ht. apply Hd; [|lia].
    eapply chain_positive; [|exact Hc]. by intros ??? (?&?&?&?&?&?&?&?&?&?).
Qed.

(** The sequence number server over FIFOs: the same, a request being the
    bytes of a struct, the ranges disjoint as long as the clients ask for
    positive lengths (as the client does); it stops later only when the
    number would not fit an int. *)
Theorem fifo_server_correct {S} `{os} fuel (s : st S) :
  wlp (fifo_server_main fuel) (λ _ _, False) (λ t s', start_failed t s s' ∨ t = Undefined "signed overflow")
    (λ s', ∃ l bs gs m b, acted s (l ++ concat bs ++ b) s' ∧ silent l ∧ silent b ∧ chain fifo_grant id 0 bs gs m ∧
       (Forall (λ g, 0 < g.2) gs → disjoint_ranges gs)) s.
Proof.
  eapply wlp_mono; [apply wlp_fifo_server|done|done|]. intros s' (l & bs & gs & m & b & Ha & Hl & Hc & Hb).
  exists l, bs, gs, m, b. split_and!; [done..|]. intros Hp i j x y Hi Hj Hij.
  eapply (chain_disjoint fifo_grant id 0 bs gs m (total gs)); done || lia.
Qed.

(** *** The FIFO client *)

Lemma int_of_le32 z b : INT_MIN <= z <= INT_MAX → int_of (le32 z ++ b) = z.
Proof.
  intros Hz. unfold INT_MIN, INT_MAX in Hz. unfold int_of. change (take 4 (le32 z ++ b)) with (le32 z).
  rewrite le_le32. unfold wrap_s. rewrite Zplus_mod_idemp_l. fold (wrap_s 32 z). apply wrap_s_id; simpl; lia.
Qed.

Lemma request_roundtrip pid n : INT_MIN <= pid <= INT_MAX → INT_MIN <= n <= INT_MAX →
  request_of (request_bytes (Request pid n)) = Request pid n.
Proof.
  intros Hp Hn. unfold request_of, request_bytes. cbn [req_pid req_seqLen]. rewrite int_of_le32 by done. f_equal.
  change (drop 4 (le32 pid ++ le32 n)) with (le32 n). rewrite <-(app_nil_r (le32 n)). by apply int_of_le32.
Qed.

(** The length the command line asks for. *)
Definition asked_len (argv : list cstr) (n : Z) : Prop :=
  match argv !! 1%nat with
  | Some a => wanted (Some a) GN_GT_0 INT_MIN INT_MAX n
  | None => n = 1
  end.

Lemma asked_len_positive argv n : asked_len argv n → 0 < n <= INT_MAX.
Proof.
  unfold asked_len, INT_MAX. destruct (argv !! 1%nat) as [a|]; [|lia].
  intros (t & _ & _ & Hr & _ & Hp). unfold INT_MAX, INT_MIN in Hr. specialize (Hp eq_refl). lia.
Qed.

Section Client.
Context {S : Type} `{os}.
Implicit Types s : st S.

(** A successful exchange: the calls, and what is printed last. *)
Definition exchanged (argv : list cstr) (fifo : cstr) (l : list (call * reply)) (text : cstr) : Prop :=
  ∃ p n f w c r, asked_len argv n ∧
    l = [(Cgetpid, p); (Copen SERVER_FIFO O_WRONLY 0, f); (Cwrite (rv f) (request_bytes (Request (rv p) n)), w);
         (Copen fifo 0 0, c); (Cread (rv c) SIZEOF_RESPONSE, r)] ∧
    rv w = SIZEOF_REQUEST ∧ rv r = SIZEOF_RESPONSE ∧ text = dec (int_of (rdata r)) ++ [NL].

Definition client_end (argv : list cstr) (fifo : cstr) s (t : stop) s' : Prop :=
  ∃ l, acted s l s' ∧
    (t = Exit 0 ∧ (∃ text, exchanged argv fifo l text ∧ last (trace s') = Some (Eout Stdout text)) ∨
     t = Exit 1 ∨ t = Abort).

Lemma end_of_cases b : end_of b = Exit 1 ∨ end_of b = Abort ∨ end_of b = FastExit 1.
Proof using. unfold end_of. destruct (getenv _) as [[|c r]|], b; auto. Qed.

Lemma end_of_true : end_of true = Exit 1 ∨ end_of true = Abort.
Proof using. unfold end_of. destruct (getenv _) as [[|c r]|]; auto. Qed.

Lemma client_when (b : bool) (m : M S unit) argv fifo s l s1 :
  acted s l s1 → (∀ s', acted s l s' → wp m (λ _ _, False) (client_end argv fifo s) s') →
  wp (when b m) (λ _ s', s' = s1 ∧ b = false) (client_end argv fifo s) s1.
Proof using.
  intros Ha Hm. destruct b; [|by apply wp_ret]. eapply wp_mono; [by apply Hm|done|done].
Qed.

Lemma client_errExit {A} text argv fifo s l s1 (Q : A → st S → Prop) :
  acted s l s1 → wp (errExit text) Q (client_end argv fifo s) s1.
Proof using.
  intros Ha. apply wp_errExit. intros s2 Hg Hacts _. exists l. split; [by eapply acted_same|]. right. apply end_of_true.
Qed.

Lemma client_fatal {A} text argv fifo s l s1 (Q : A → st S → Prop) :
  acted s l s1 → wp (fatal text) Q (client_end argv fifo s) s1.
Proof using.
  intros Ha. apply wp_fatal. intros s2 Hg Hacts. exists l. split; [by eapply acted_same|]. right. apply end_of_true.
Qed.

Lemma wp_fifo_client_ask argv fifo s :
  wp (fifo_client_ask argv fifo) (λ _ _, False) (client_end argv fifo s) s.
Proof using.
  unfold fifo_client_ask. apply wp_bind, wp_call. intros p s1 _ Hg1 _ _ Ht1.
  pose proof (acted_call _ _ _ _ _ _ (acted_refl s) Ht1 Hg1 ltac:(done)) as Ha1. cbn [app] in Ha1.
  apply wp_bind. eapply (wp_mono _ (λ n s', asked_len argv n ∧ acted s [(Cgetpid, p)] s') _ (client_end argv fifo s));
    [|intros n s2 [Hn Ha2]|done].
  { unfold asked_len. destruct (argv !! 1%nat) as [a|]; [|by apply wp_ret].
    pose proof (wp_getInt_acts (Some a) GN_GT_0 (Some (str "seq-len")) s1) as W1.
    pose proof (wp_getInt (Some a) GN_GT_0 (Some (str "seq-len")) s1) as W2. unfold wp in *.
    assert (∀ s2, acted s1 [] s2 → acted s [(Cgetpid, p)] s2) as Hs.
    { intros s2 [H1 H2]. destruct Ha1 as [A1 A2]. split; [by rewrite H1, app_nil_r|congruence]. }
    destruct (getInt _ _ _ _) as [[v|t|] s2]; [split; [by destruct W2|by apply Hs]| |done].
    destruct W1 as [W1 ->]. exists [(Cgetpid, p)]. split; [by apply Hs|auto]. }
  apply wp_bind, wp_call. intros f s3 _ Hg3 _ _ Ht3.
  pose proof (acted_call _ _ _ _ _ _ Ha2 Ht3 Hg3 ltac:(done)) as Ha3. cbn [app] in Ha3.
  apply wp_bind. eapply wp_mono; [eapply client_when; [exact Ha3|by intros; eapply client_errExit]|intros [] ? [-> _]|done].
  apply wp_bind, wp_call. intros w s4 _ Hg4 _ _ Ht4.
  pose proof (acted_call _ _ _ _ _ _ Ha3 Ht4 Hg4 ltac:(done)) as Ha4. cbn [app] in Ha4.
  apply wp_bind. eapply wp_mono; [eapply client_when; [exact Ha4|by intros; eapply client_fatal]|intros [] ? [-> Hw]|done].
  apply wp_bind, wp_call. intros c s5 _ Hg5 _ _ Ht5.
  pose proof (acted_call _ _ _ _ _ _ Ha4 Ht5 Hg5 ltac:(done)) as Ha5. cbn [app] in Ha5.
  apply wp_bind. eapply wp_mono; [eapply client_when; [exact Ha5|by intros; eapply client_errExit]|intros [] ? [-> _]|done].
  apply wp_bind, wp_call. intros r s6 _ Hg6 _ _ Ht6.
  pose proof (acted_call _ _ _ _ _ _ Ha5 Ht6 Hg6 ltac:(done)) as Ha6. cbn [app] in Ha6.
  apply wp_bind. eapply wp_mono; [eapply client_when; [exact Ha6|by intros; eapply client_fatal]|intros [] ? [-> Hr]|done].
  apply wp_bind, wp_emit, wp_stop. eexists. split; [eapply acted_same; [exact Ha6|apply acts_out|done]|]. left.
  split; [done|]. exists (dec (int_of (rdata r)) ++ [NL]). split; [|apply last_snoc].
  exists p, n, f, w, c, r. bools. by split_and!.
Qed.

End Client.

(** The FIFO client, on any kernel: it ends; when it exits with status 0 it
    has asked the server for the positive length of the command line (1 by
    default), and printed the number received; once it has registered its exit
    handler, every exit removes its FIFO last; the request is read back by the
    server as it was made, and a number the server sends is printed as it
    is. *)
Theorem fifo_client_correct {S} `{os} argv (s : st S) :
  wp (fifo_client_main argv) (λ _ _, False)
    (λ t s', ∃ l, acted s l s' ∧
       ((t = Exit 1 ∨ t = Abort) ∧ Forall (λ x, x.1 = Catexit → rv x.2 ≠ 0) l ∨
        ∃ p m a l' fifo u, let l0 := [(Cumask 0, u); (Cgetpid, p); (Cmkfifo fifo FIFO_MODE, m); (Catexit, a)] in
          fifo = clientFifo (rv p) ∧
          (t = Abort ∨ ∃ x, l = l0 ++ l' ++ [(Cunlink fifo, x)] ∧
             (t = Exit 1 ∨ t = Exit 0 ∧ ∃ text, exchanged argv fifo l' text ∧ Eout Stdout text ∈ trace s')))) s ∧
  (∀ pid n, INT_MIN <= pid <= INT_MAX → asked_len argv n → request_of (request_bytes (Request pid n)) = Request pid n) ∧
  (∀ n, INT_MIN <= n <= INT_MAX → int_of (le32 n) = n).
Proof.
  split; [|split].
  2: { intros pid n Hp Hn%asked_len_positive. apply request_roundtrip; [done|]. unfold INT_MIN. lia. }
  2: { intros n Hn. rewrite <-(app_nil_r (le32 n)). by apply int_of_le32. }
  match goal with |- wp _ _ ?E0 _ => set (E := E0) end. unfold fifo_client_main.
  assert (∀ text l s1 (Q : unit → st S → Prop), acted s l s1 → Forall (λ x, x.1 = Catexit → rv x.2 ≠ 0) l →
    wp (errExit text) Q E s1) as Herr.
  { intros text l s1 Q Ha Hl. apply wp_errExit. intros s2 Hg Hacts _. exists l. split; [by eapply acted_same|].
    left. split; [apply end_of_true|done]. }
  apply wp_bind. eapply (wp_mono _ (λ _ s', s' = s) _ E); [|intros [] ? ->|done].
  { destruct (bool_decide _); [|by apply wp_ret]. apply wp_usageErr. intros s2 Hg Hacts. exists [].
    split; [eapply acted_same; [apply acted_refl|done|done]|]. left. split; [auto|by apply Forall_nil_2]. }
  apply wp_bind, wp_call. intros u s1 _ Hg1 _ _ Ht1.
  pose proof (acted_call _ _ _ _ _ _ (acted_refl s) Ht1 Hg1 ltac:(done)) as Ha1. cbn [app] in Ha1.
  apply wp_bind, wp_call. intros p s2 _ Hg2 _ _ Ht2.
  pose proof (acted_call _ _ _ _ _ _ Ha1 Ht2 Hg2 ltac:(done)) as Ha2. cbn [app] in Ha2. set (fifo := clientFifo (rv p)).
  apply wp_bind, wp_call. intros m s3 _ Hg3 _ _ Ht3.
  pose proof (acted_call _ _ _ _ _ _ Ha2 Ht3 Hg3 ltac:(done)) as Ha3. cbn [app] in Ha3.
  apply wp_bind, wp_get_errno, wp_bind. eapply (wp_mono _ (λ _ s', s' = s3) _ E); [|intros [] ? ->|done].
  { destruct (_ && _); [|by apply wp_ret]. eapply Herr; [exact Ha3|]. by repeat (apply Forall_cons_2; [done|]); apply Forall_nil_2. }
  apply wp_bind, wp_call. intros a s4 _ Hg4 _ _ Ht4.
  pose proof (acted_call _ _ _ _ _ _ Ha3 Ht4 Hg4 ltac:(done)) as Ha4. cbn [app] in Ha4.
  apply wp_bind. eapply (wp_mono _ (λ _ s', s' = s4 ∧ rv a = 0) _ E); [|intros [] ? [-> Ha]|done].
  { destruct (Z.eqb_spec (rv a) 0); [by apply wp_ret|]. eapply Herr; [exact Ha4|].
    by repeat (apply Forall_cons_2; [done|]); apply Forall_nil_2. }
  eapply wp_at_exit; [apply wp_fifo_client_ask| |].
  - intros n s5 (l & [Hl1 Hl2] & Hend). unfold removeFifo. apply wp_bind, wp_call. intros x s6 _ Hg6 _ _ Ht6. apply wp_ret.
    destruct Ha4 as [A1 A2]. eexists. split.
    { split; [rewrite Ht6, acts_call, Hl1, A1, <-!app_assoc; [reflexivity|done]|congruence]. }
    right. exists p, m, a, l, fifo, u. cbv zeta. split; [done|]. right. exists x. split; [done|].
    destruct Hend as [[[= ->] (text & Hex & Hlast)]|[[= ->]|?]]; [right|by left|done]. split; [done|].
    exists text. split; [done|]. rewrite Ht6. apply elem_of_app. left. apply last_Some in Hlast as [tr ->].
    apply elem_of_app. right. by apply list_elem_of_singleton.
  - intros t s5 (l & [Hl1 Hl2] & Hend) Hn. destruct Ha4 as [A1 A2].
    eexists. split; [split; [by rewrite Hl1, A1, <-!app_assoc|congruence]|]. right.
    exists p, m, a, l, fifo, u. split; [done|]. left. destruct Hend as [[-> _]|[-> | ->]]; [by destruct (Hn 0)|by destruct (Hn 1)|done].
Qed.
