(* ===== verification/Shell.v ===== *)
(** The shell of homework/hw5/5-2, part one: splitting a command line
    (parse.c) and the built-in commands (builtin.c).

    An argument vector is the list of its strings before the NULL. *)
From S2P Require Import Prelude Sys GetNum.

(** ** parse.c *)

Definition is_delim (c : ascii) : bool :=
  bool_decide (c = " "%char) || bool_decide (c = TAB) || bool_decide (c = NL).

(** What successive calls of strtok with the delimiters give: [cur] is the
    token being read. *)
Fixpoint strtok_all (cur line : cstr) : list cstr :=
  match line with
  | [] => match cur with [] => [] | _ => [cur] end
  | c :: line =>
      if is_delim c then match cur with [] => strtok_all [] line | _ => cur :: strtok_all [] line end
      else strtok_all (cur ++ [c]) line
  end.

Definition parse (line : cstr) : option (list cstr) :=
  if streq line [NL] then None
  else match strtok_all [] line with
       | [] => None
       | newArgv => Some newArgv
       end.

(** ** builtin.c *)

(** The static variable [this]: the row of the table found last. *)
Record shell := Shell { this : option nat }.

Definition inbuilts : list cstr :=
  str <$> ["builtin"; "echo"; "quit"; "exit"; "bye"; "logout"; "cd"; "pwd"; "id"; "hostname"]%string.

Fixpoint row_of (cmd : cstr) (table : list cstr) : option nat :=
  match table with
  | [] => None
  | k :: table => if streq k cmd then Some O else Datatypes.S <$> row_of cmd table
  end.

Section Builtins.
Context `{os}.
Abbreviation SH := (M shell).

Definition is_builtin (cmd : cstr) : SH bool :=
  match row_of cmd inbuilts with
  | Some j => put (Shell (Some j));; mret true
  | None => mret false
  end.

Definition bi_builtin (argv : list cstr) : SH unit :=
  match argv !! 1%nat with
  | None => out Stdout (str "Usage: builtin [command]" ++ [NL])
  | Some a =>
      b ← is_builtin a;
      if (b : bool) then out Stdout (a ++ str " is a builtin feature." ++ [NL])
      else out Stdout (a ++ str " is not a builtin feature." ++ [NL])
  end.

Definition bi_cd (argv : list cstr) : SH unit :=
  match argv !! 1%nat with
  | None => out Stderr (str "cd: missing argument" ++ [NL])
  | Some d =>
      r ← sys (Cchdir d);
      when (negb (rv r =? 0)) (perror (str "cd"))
  end.

Definition isdigit (c : ascii) : bool := (48 <=? code c) && (code c <=? 57).

Definition bi_echo (argv : list cstr) : SH unit :=
  match argv !! 1%nat with
  | None => stop_with (Undefined "strcmp of NULL")
  | Some a =>
      numbered ← (if streq a (str "-n") then
                    match argv !! 2%nat with
                    | None => stop_with (Undefined "argv[2] is NULL")
                    | Some n => mret (match n with c :: _ => isdigit c | [] => false end)
                    end
                  else mret false);
      if (numbered : bool) then
        let line := atoi (default [] (argv !! 2%nat)) in
        let j := wrap_s 32 (line + 2) in
        match (if j <? 0 then None else argv !! Z.to_nat j) with
        | Some a => out Stdout (a ++ [NL])
        | None => stop_with (Undefined "argv index out of range")
        end
      else
        for_each (drop 1 argv) (λ a, out Stdout (a ++ str " "));;
        out Stdout [NL]
  end.

Definition bi_hostname (argv : list cstr) : SH unit :=
  r ← sys Cgethostname;
  if rv r =? 0 then out Stdout (str "hostname: " ++ rdata r ++ [NL])
  else perror (str "gethostname").

Definition bi_id (argv : list cstr) : SH unit :=
  u ← sys Cgetuid;
  g ← sys Cgetgid;
  out Stdout (str "User ID: " ++ dec (wrap_s 32 (rv u)) ++ str ", Group ID: " ++
    dec (wrap_s 32 (rv g)) ++ [NL]).

(** [fuel] bounds the number of times the buffer doubles. *)
Definition bi_pwd (fuel : nat) (argv : list cstr) : SH unit :=
  loop fuel (λ size,
    m ← sys (Crealloc size);
    if rv m =? -1 then perror_exit (str "malloc") else
    r ← sys (Cgetcwd size);
    if negb (rv r =? -1) then
      out Stdout (rdata r ++ [NL]);;
      mret (inr tt)
    else
      e ← get_errno;
      if e =? ERANGE then mret (inl (wrap_u 64 (size * 2)))
      else perror_exit (str "getcwd")) 256.

Definition bi_quit (argv : list cstr) : SH unit := stop_with (Exit 0).

(** The second column of the table. *)
Definition do_it (fuel row : nat) (argv : list cstr) : SH unit :=
  match row with
  | 0 => bi_builtin argv
  | 1 => bi_echo argv
  | 2 | 3 | 4 | 5 => bi_quit argv
  | 6 => bi_cd argv
  | 7 => bi_pwd fuel argv
  | 8 => bi_id argv
  | 9 => bi_hostname argv
  | _ => stop_with (Undefined "no such row")
  end%nat.

Definition do_builtin (fuel : nat) (argv : list cstr) : SH unit :=
  g ← get;
  match this g with
  | Some row => do_it fuel row argv
  | None => stop_with (Undefined "this is NULL")
  end.
End Builtins.

(** ** parse, and what it loses *)

Definition plain (t : cstr) : Prop := t ≠ [] ∧ Forall (λ c, is_delim c = false) t.

Lemma strtok_all_word cur t line :
  Forall (λ c, is_delim c = false) t → strtok_all cur (t ++ line) = strtok_all (cur ++ t) line.
Proof.
  intros Ht. revert cur. induction Ht as [|c t Hc _ IH]; intros cur; simpl.
  - by rewrite app_nil_r.
  - rewrite Hc, IH. by rewrite <-app_assoc.
Qed.

Lemma strtok_all_plain cur line :
  Forall (λ c, is_delim c = false) cur → Forall plain (strtok_all cur line).
Proof.
  revert cur; induction line as [|c line IH]; intros cur Hcur; simpl.
  - destruct cur; [constructor|]. constructor; [by split|constructor].
  - destruct (is_delim c) eqn:E.
    + destruct cur; [by apply IH|]. constructor; [by split|by apply IH].
    + apply IH, Forall_app. split; [done|by constructor].
Qed.

(** A command line: words separated by delimiters, ended by a newline. *)
Fixpoint command_line (words : list cstr) : cstr :=
  match words with
  | [] => [NL]
  | [w] => w ++ [NL]
  | w :: words => w ++ str " " ++ command_line words
  end.

Lemma strtok_command_line words :
  Forall plain words → strtok_all [] (command_line words) = words.
Proof.
  induction 1 as [|w words [Hne Hw] Hws IH]; [done|].
  destruct words as [|w2 words]; simpl.
  - rewrite strtok_all_word by done. simpl. by destruct w.
  - rewrite strtok_all_word by done. cbn [app strtok_all]. change (is_delim " ") with true.
    cbn iota. destruct w; [done|]. f_equal. exact IH.
Qed.

(** ** The properties *)

(** Parse inverts typing: the words of a command line are its argument
    vector; a line of white space alone gives NULL, and whatever the line, an
    argument vector is nonempty and made of nonempty words without white
    space. *)
Theorem parse_correct words line :
  (Forall plain words → words ≠ [] → parse (command_line words) = Some words) ∧
  (∀ argv, parse line = Some argv → argv ≠ [] ∧ Forall plain argv) ∧
  (Forall (λ c, is_delim c = true) line → parse line = None).
Proof.
  split_and!.
  - intros Hw Hne. unfold parse. rewrite strtok_command_line by done.
    assert (streq (command_line words) [NL] = false) as ->.
    { apply streq_false. destruct words as [|w words]; [done|].
      inversion Hw as [|? ? [Hw1 Hw2] _]; subst. destruct w as [|c w]; [done|].
      inversion Hw2 as [|? ? Hc _]; subst. destruct words; simpl; intros [= -> _]; done. }
    by destruct words.
  - intros argv. unfold parse. case_match; [done|].
    pose proof (strtok_all_plain [] line ltac:(constructor)) as Hp.
    destruct (strtok_all [] line); [done|]. by intros [= <-].
  - intros Hl. unfold parse. case_match; [done|].
    assert (strtok_all [] line = []) as ->; [|done].
    clear H. induction Hl as [|c line Hc _ IH]; simpl; [done|]. by rewrite Hc.
Qed.

(** How getcwd(3) behaves for a directory whose pathname is [cwd]. *)
Class Getcwd `{os} (cwd : cstr) := getcwd_reply :
  ∀ tr size, kern tr (Cgetcwd size) = if size <=? strlen cwd then fail ERANGE else Reply 1 0 cwd [].
Class Malloc `{os} := malloc_reply : ∀ tr size, rv (kern tr (Crealloc size)) ≠ -1.

(** The command pwd prints the whole name of the working directory, however long, when
    there is memory: the buffer doubles until the name fits, in at most 55
    turns. *)
Theorem bi_pwd_correct `{Getcwd cwd} `{!Malloc} argv (s : st shell) :
  strlen cwd < 2 ^ 62 →
  ∃ s', bi_pwd 56 argv s = (Ret tt, s') ∧ glob s' = glob s ∧
    ∃ tr, trace s' = tr ++ [Eout Stdout (cwd ++ [NL])].
Proof.
  intros Hl.
  assert (wp (bi_pwd 56 argv) (λ _ s', glob s' = glob s ∧ ∃ tr, trace s' = tr ++ [Eout Stdout (cwd ++ [NL])])
    (λ _ _, False) s) as Hw.
  { apply (wp_loop (λ size s', glob s' = glob s ∧ ∃ k : Z, 0 <= k <= 54 ∧ size = 2 ^ (8 + k))
      (λ size _, Z.to_nat (62 - Z.log2 size))).
    - split; [done|]. exists 0. split; [lia|done].
    - vm_compute. lia.
    - intros size s1 [G1 (k & Hk & ->)]. apply wp_bind, wp_sys.
      destruct (Z.eqb_spec (rv (kern (trace s1) (Crealloc (2 ^ (8 + k))))) (-1)) as [E|_];
        [by apply malloc_reply in E|].
      apply wp_bind, wp_sys. cbn [glob errno trace]. rewrite getcwd_reply.
      destruct (Z.leb_spec (2 ^ (8 + k)) (strlen cwd)) as [Hle|Hgt]; simpl.
      + apply wp_bind, wp_get_errno. simpl. apply wp_ret.
        assert (2 ^ (8 + k) < 2 ^ 62) as Hlt by lia.
        apply Z.pow_lt_mono_r_iff in Hlt; [|lia|lia].
        assert (2 ^ (8 + k) * 2 = 2 ^ (8 + (k + 1))) as E2.
        { replace (8 + (k + 1)) with (Z.succ (8 + k)) by lia. rewrite Z.pow_succ_r; lia. }
        assert (wrap_u 64 (2 ^ (8 + k) * 2) = 2 ^ (8 + (k + 1))) as ->.
        { rewrite E2. unfold wrap_u. apply Z.mod_small. split; [apply Z.pow_nonneg; lia|].
          apply Z.pow_lt_mono_r; lia. }
        split; [split; [done|]; exists (k + 1); split; [|done]|]; [lia|].
        rewrite !Z.log2_pow2 by lia. lia.
      + apply wp_bind, wp_emit, wp_ret. split; [done|]. simpl. eauto. }
  destruct (wp_run _ _ _ _ Hw) as [([] & s' & E & ? & ?)|(? & ? & ? & [])]. eauto.
Qed.

Definition pwd_os (cwd : cstr) : os :=
  test_os (λ _ c, match c with
                  | Cgetcwd size => if size <=? strlen cwd then fail ERANGE else Reply 1 0 cwd []
                  | _ => ok 0
                  end).

Theorem bi_pwd_witness :
  let o := pwd_os (str "/home/user") in
  ∃ s', bi_pwd 56 [str "pwd"] (init (Shell None)) = (Ret tt, s') ∧ glob s' = Shell None ∧
    ∃ tr, trace s' = tr ++ [Eout Stdout (str "/home/user" ++ [NL])].
Proof.
  intros o.
  refine (@bi_pwd_correct o (str "/home/user") _ _ [str "pwd"] (init (Shell None)) _).
  - intros tr size. reflexivity.
  - intros tr size. done.
  - reflexivity.
Defined.

Theorem parse_witness :
  (Forall plain [str "ls"] → [str "ls"] ≠ [] → parse (command_line [str "ls"]) = Some [str "ls"]) ∧
  (∀ argv, parse (str "ls") = Some argv → argv ≠ [] ∧ Forall plain argv) ∧
  (Forall (λ c, is_delim c = true) (str "ls") → parse (str "ls") = None).
Proof. exact (parse_correct [str "ls"] (str "ls")). Defined.

Example parse_run : parse (str "  ls   -l | wc " ++ [NL]) = Some (str <$> ["ls"; "-l"; "|"; "wc"]%string).
Proof. reflexivity. Qed.
