(* ===== verification/ShellRun.v ===== *)
(** The shell of homework/hw5/5-2, part two: redirections, pipelines and the
    running of commands (redirect_in.c, redirect_out.c, pipe_present.c,
    pipe_command.c, is_background.c, run_command.c, shell.c).

    The code marks the end of an argument vector by storing NULL in it; here
    the vector is cut there.  fork(2) replies 0 or a positive number, so that a
    run is what the parent or the child does, as the replies say. *)
From S2P Require Import Prelude Sys GetNum Shell.

Definition O_RDONLY : Z := 0.
Definition O_WRONLY_CREAT_TRUNC : Z := 577.

(** The index of a string in an argument vector. *)
Fixpoint index_of (w : cstr) (argv : list cstr) : option nat :=
  match argv with
  | [] => None
  | a :: argv => if streq a w then Some O else Datatypes.S <$> index_of w argv
  end.

(** The result of pipe_present: -1, 0 or the index of the first "|". *)
Definition pipe_present (argv : list cstr) : Z :=
  match index_of (str "|") argv with
  | Some i => if (i =? 0)%nat || (Datatypes.S i =? length argv)%nat then -1 else Z.of_nat i
  | None => 0
  end.

(** The descriptors pipe(2) stored. *)
Definition pipe_read (r : reply) : Z := nth 0 (snd <$> rents r) 0.
Definition pipe_write (r : reply) : Z := nth 1 (snd <$> rents r) 0.

(** The status waitpid(2) stored, and its macros. *)
Definition wait_stat (r : reply) : Z := nth 0 (snd <$> rents r) 0.
Definition WIFEXITED (stat : Z) : bool := Z.land stat 127 =? 0.
Definition WEXITSTATUS (stat : Z) : Z := Z.land (Z.shiftr stat 8) 255.
Definition WTERMSIG (stat : Z) : Z := Z.land stat 127.
Definition WIFSIGNALED (stat : Z) : bool := (0 <? WTERMSIG stat) && (WTERMSIG stat <? 127).

Section Functions.
Context {S : Type} `{os}.

Definition open_path (p : option cstr) (flags mode : Z) : M S Z :=
  match p with
  | Some p => r ← sys (Copen p flags mode); mret (rv r)
  | None => set_errno EFAULT;; mret (-1)          (* open (NULL, ...) *)
  end.

(** The result is that of the function and the vector as it leaves it. *)
Definition redirect_in (argv : list cstr) : M S (Z * list cstr) :=
  match index_of (str "<") argv with
  | None => mret (-1, argv)
  | Some i =>
      fd ← open_path (argv !! Datatypes.S i) O_RDONLY 0;
      if fd =? -1 then perror (str "open");; mret (-1, argv) else
      r ← sys (Cdup2 fd 0);
      if rv r =? -1 then perror (str "dup2");; mret (-1, argv) else
      r ← sys (Cclose fd);
      if rv r =? -1 then perror (str "close");; mret (-1, argv) else
      mret (0, take i argv)
  end.

Definition redirect_out (argv : list cstr) : M S (Z * list cstr) :=
  match index_of (str ">") argv with
  | None => mret (-1, argv)
  | Some i =>
      fd ← open_path (argv !! Datatypes.S i) O_WRONLY_CREAT_TRUNC 420;
      if fd =? -1 then perror (str "open");; mret (-1, argv) else
      r ← sys (Cdup2 fd 1);
      if rv r =? -1 then perror (str "dup2");; mret (-1, argv) else
      r ← sys (Cclose fd);
      if rv r =? -1 then perror (str "close");; mret (-1, argv) else
      mret (0, take i argv)
  end.

(** execvp(argv[0], argv): it returns only when it fails. *)
Definition execvp (argv : list cstr) : M S unit :=
  match argv with
  | [] => set_errno EFAULT
  | file :: _ =>
      r ← sys (Cexec file argv);
      if rv r =? -1 then mret tt else stop_with (Execed file argv)
  end.

(** The recursion is on a shorter vector each time: its length is fuel
    enough. *)
Fixpoint pipe_and_exec_go (fuel : nat) (argv : list cstr) : M S unit :=
  match fuel with
  | O => no_fuel
  | Datatypes.S fuel =>
      let pipe_argv_index := pipe_present argv in
      if pipe_argv_index =? -1 then
        out Stderr (str "Missing command next to pipe in commandline." ++ [NL]);;
        set_errno EINVAL
      else if pipe_argv_index =? 0 then
        execvp argv;;
        perror (str "execvp")
      else
        let i := Z.to_nat pipe_argv_index in
        let left_argv := take i argv in
        p ← sys Cpipe;
        if rv p =? -1 then perror_exit (str "pipe") else
        f ← sys Cfork;
        if rv f =? -1 then perror_exit (str "fork")
        else if rv f =? 0 then
          sys (Cclose (pipe_write p));;
          sys (Cdup2 (pipe_read p) 0);;
          sys (Cclose (pipe_read p));;
          pipe_and_exec_go fuel (drop (Datatypes.S i) argv)
        else
          sys (Cclose (pipe_read p));;
          sys (Cdup2 (pipe_write p) 1);;
          sys (Cclose (pipe_write p));;
          execvp left_argv;;
          perror_exit (str "execvp")
  end.

Definition pipe_and_exec (argv : list cstr) : M S unit :=
  pipe_and_exec_go (Datatypes.S (length argv)) argv.

(** When no "&" is found the function ends without a return statement, and
    its caller uses a value that nothing determines. *)
Definition is_background (argv : list cstr) : M S bool :=
  match argv with
  | [] => mret false
  | _ =>
      match index_of (str "&") argv with
      | Some _ => mret true
      | None => r ← sys Cgarbage; mret (negb (rv r =? 0))
      end
  end.

Definition report_status (pid stat : Z) : M S unit :=
  if WIFEXITED stat && negb (WEXITSTATUS stat =? 0) then
    out Stderr (str "Child " ++ dec pid ++ str " exited with error status " ++ dec (WEXITSTATUS stat) ++
      str ": " ++ strerror (WEXITSTATUS stat) ++ [NL])
  else if WIFSIGNALED stat && negb (WTERMSIG stat =? 0) then
    out Stderr (str "Child " ++ dec pid ++ str " exited due to signal " ++ dec (WTERMSIG stat) ++
      str ": " ++ strsignal (WTERMSIG stat) ++ [NL])
  else mret tt.

Definition run_command (argv : list cstr) : M S unit :=
  run_in_background ← is_background argv;
  f ← sys Cfork;
  let pid := rv f in
  if pid =? -1 then
    perror (str "fork");;
    e ← get_errno;
    stop_with (Exit e)
  else if pid =? 0 then
    a ← redirect_in argv;
    a ← redirect_out (snd a);
    pipe_and_exec (snd a);;
    e ← get_errno;
    stop_with (Exit e)
  else if negb run_in_background then
    r ← sys (Cwait pid);
    report_status pid (wait_stat r)
  else mret tt.
End Functions.

(** shell.c: one turn of the loop, [None] at end of file; [fuel] is for the
    buffer of pwd. *)
Definition LONGLINE : Z := 255.
Definition shell_turn `{os} (fuel : nat) : M shell (unit + unit) :=
  r ← sys (Cfgets LONGLINE);
  if rv r =? 0 then mret (inr tt) else
  match parse (rdata r) with
  | Some ((cmd :: _) as myArgv) =>
      b ← is_builtin cmd;
      (if (b : bool) then do_builtin fuel myArgv else run_command myArgv)
  | _ => mret tt
  end;;
  out Stdout (str "myshell -> ");;
  mret (inl tt).

Definition shell_main `{os} (fuel turns : nat) : M shell unit :=
  out Stdout (str "myshell -> ");;
  loop turns (λ _, shell_turn fuel) tt;;
  stop_with (Exit 0).

(** ** Open descriptors *)

Inductive obj := Inherited (fd : Z) | PipeRead (n : nat) | PipeWrite (n : nat) | Opened (path : cstr).

(** The table of a process, and the number of pipes made so far, after its
    history. *)
Definition fd_step (st : nat * gmap Z obj) (e : event) : nat * gmap Z obj :=
  let '(n, t) := st in
  match e with
  | Esys Cpipe r =>
      if rv r =? -1 then st
      else (Datatypes.S n, <[pipe_read r := PipeRead n]> (<[pipe_write r := PipeWrite n]> t))
  | Esys (Cdup2 a b) r => if rv r =? -1 then st else (n, partial_alter (λ _, t !! a) b t)
  | Esys (Cclose fd) r => if rv r =? -1 then st else (n, delete fd t)
  | Esys (Copen p _ _) r => if rv r =? -1 then st else (n, <[rv r := Opened p]> t)
  | _ => st
  end.
Definition std_fds : gmap Z obj := {[0 := Inherited 0; 1 := Inherited 1; 2 := Inherited 2]}.
Definition fds (tr : list event) : nat * gmap Z obj := foldl fd_step (O, std_fds) tr.

Lemma fds_snoc tr e : fds (tr ++ [e]) = fd_step (fds tr) e.
Proof. unfold fds. by rewrite foldl_app. Qed.

(** What the calls promise: new descriptors are not in use; dup2 and close of
    an open descriptor succeed. *)
Class Descriptors `{os} := {
  pipe_reply : ∀ tr, let r := kern tr Cpipe in
    rv r = -1 ∨ rv r ≠ -1 ∧ pipe_read r ≠ pipe_write r ∧
      (fds tr).2 !! pipe_read r = None ∧ (fds tr).2 !! pipe_write r = None;
  dup2_reply : ∀ tr a b, is_Some ((fds tr).2 !! a) → rv (kern tr (Cdup2 a b)) ≠ -1;
  close_reply : ∀ tr a, is_Some ((fds tr).2 !! a) → rv (kern tr (Cclose a)) ≠ -1;
  open_reply : ∀ tr p f m, let r := kern tr (Copen p f m) in
    rv r = -1 ∨ (fds tr).2 !! rv r = None
}.

(** ** Pipelines *)

#[local] Arguments str : simpl never.

Fixpoint stages (argv : list cstr) : list (list cstr) :=
  match argv with
  | [] => [[]]
  | a :: argv =>
      if streq a (str "|") then [] :: stages argv
      else match stages argv with
           | c :: cs => (a :: c) :: cs
           | [] => [[a]]
           end
  end.

(** Stage [k] of [m], started with the table [t] after [n] pipes: it reads the
    pipe from the stage before and writes the pipe to the stage after, the
    ends of the pipeline are those of the whole, and no other descriptor
    differs. *)
Definition wired (n : nat) (t : gmap Z obj) (k m : nat) (t' : gmap Z obj) : Prop :=
  t' !! 0 = (match k with O => t !! 0 | Datatypes.S k => Some (PipeRead (n + k)) end) ∧
  t' !! 1 = (if (Datatypes.S k <? m)%nat then Some (PipeWrite (n + k)) else t !! 1) ∧
  ∀ fd, fd ≠ 0 → fd ≠ 1 → t' !! fd = t !! fd.

Lemma index_of_Some w argv i :
  index_of w argv = Some i ↔ argv !! i = Some w ∧ ∀ j a, (j < i)%nat → argv !! j = Some a → a ≠ w.
Proof.
  revert i; induction argv as [|a argv IH]; intros i; simpl; [split; [done|by intros [? _]; destruct i]|].
  destruct (streq a w) eqn:E; [apply streq_true in E as ->|apply streq_false in E].
  - split.
    + intros [= <-]. split; [done|]. intros; lia.
    + destruct i as [|i]; [done|]. intros [_ H]. by destruct (H O w ltac:(lia) eq_refl).
  - destruct (index_of w argv) as [k|]; simpl.
    + split.
      * intros [= <-]. destruct (proj1 (IH k) eq_refl) as [Hk Hl]. split; [done|].
        intros [|j] b Hj Hb; simplify_eq/=; [done|]. eapply Hl; [|done]. lia.
      * destruct i as [|i]; simpl; [intros [[= ->] _]; done|]. intros [Hi Hl]. do 2 f_equal.
        enough (Some k = Some i) by congruence. apply IH. split; [done|].
        intros j b Hj Hb. apply (Hl (Datatypes.S j) b); [lia|done].
    + split; [done|]. destruct i as [|i]; simpl; [intros [[= ->] _]; done|]. intros [Hi Hl].
      enough (None = Some i) by done. apply IH. split; [done|].
      intros j b Hj Hb. apply (Hl (Datatypes.S j) b); [lia|done].
Qed.

Lemma stages_nonempty argv : ∃ c cs, stages argv = c :: cs.
Proof.
  induction argv as [|a argv (c & cs & IH)]; simpl; [by exists [], []|].
  destruct (streq a (str "|")); [by exists [], (stages argv)|]. rewrite IH. by exists (a :: c), cs.
Qed.

Lemma stages_split argv i :
  index_of (str "|") argv = Some i → stages argv = take i argv :: stages (drop (Datatypes.S i) argv).
Proof.
  revert i; induction argv as [|a argv IH]; intros i; simpl; [done|].
  destruct (streq a (str "|")); [by intros [= <-]|].
  destruct (index_of _ argv) as [k|]; simpl; [|done]. intros [= <-]. by rewrite (IH k).
Qed.

Lemma stages_single argv : index_of (str "|") argv = None → stages argv = [argv].
Proof.
  induction argv as [|a argv IH]; simpl; [done|].
  destruct (streq a (str "|")); [done|]. destruct (index_of _ argv); [done|]. intros _. by rewrite IH.
Qed.

(** The vector is a command when it has no "|", it is refused when the first
    "|" is at an end of it, and it is cut at the first "|" otherwise. *)
Lemma pipe_present_spec argv :
  (pipe_present argv = 0 ∧ index_of (str "|") argv = None) ∨
  pipe_present argv = -1 ∨
  (∃ i, index_of (str "|") argv = Some i ∧ pipe_present argv = Z.of_nat i ∧
        (0 < i)%nat ∧ (Datatypes.S i < length argv)%nat).
Proof.
  unfold pipe_present. destruct (index_of _ argv) as [i|] eqn:E; [|by left].
  apply index_of_Some in E as [Hi _]. pose proof (lookup_lt_Some _ _ _ Hi).
  destruct (Nat.eqb_spec i 0); [by right; left|].
  destruct (Nat.eqb_spec (Datatypes.S i) (length argv)); [by right; left|].
  right; right. exists i. simpl. split_and!; [done|done|lia|lia].
Qed.

Section Specs.
Context {S : Type} `{Descriptors}.
Implicit Types s : st S.

(** How a process of a pipeline ends: it runs its stage, wired, or fails. *)
Definition stage_end (n : nat) (t : gmap Z obj) (argv : list cstr) (e : stop) (s : st S) : Prop :=
  match e with
  | Execed f a => ∃ k, stages argv !! k = Some a ∧ head a = Some f ∧
                       wired n t k (length (stages argv)) (fds (trace s)).2
  | Exit c => c = 1
  | _ => False
  end.

Lemma wp_execvp argv Q n t s m k (E : stop → st S → Prop) :
  (∀ s', (fds (trace s')).2 = (fds (trace s)).2 → Q tt s') →
  (∀ f s', head argv = Some f → (fds (trace s')).2 = (fds (trace s)).2 → E (Execed f argv) s') →
  wired n t k m (fds (trace s)).2 →
  wp (execvp argv) Q E s.
Proof.
  intros HQ HE _. destruct argv as [|f argv]; [by apply wp_set_errno, HQ|].
  apply wp_bind, wp_sys. destruct (_ =? -1); [apply wp_ret, HQ|apply wp_stop, HE; [done|]];
    simpl; rewrite fds_snoc; by destruct (fds (trace s)).
Qed.

Lemma wp_perror_end {A} msg (Q : A → st S → Prop) E s :
  (∀ s', E (Exit 1) s') → wp (perror_exit msg) Q E s.
Proof. intros HE. by apply wp_bind, wp_bind, wp_get_errno, wp_emit, wp_stop. Qed.

(** The child's wiring and the parent's, from a fresh pipe. *)
Lemma child_table n (t : gmap Z obj) r w :
  t !! r = None → t !! w = None → r ≠ w → is_Some (t !! 0) → is_Some (t !! 1) →
  let t1 := <[r := PipeRead n]> (<[w := PipeWrite n]> t) in
  let t2 := delete w t1 in
  let t3 := partial_alter (λ _, t2 !! r) 0 t2 in
  let t4 := delete r t3 in
  t4 = <[0 := PipeRead n]> t ∧ is_Some (t1 !! w) ∧ is_Some (t2 !! r) ∧ is_Some (t3 !! r).
Proof.
  intros Hr Hw Hrw Hin Hout t1 t2 t3 t4.
  assert (r ≠ 0 ∧ w ≠ 0) as [Hr0 Hw0] by (split; intros ->; destruct Hin; congruence).
  assert (t2 !! r = Some (PipeRead n)) as E2.
  { unfold t2. rewrite lookup_delete_ne by done. apply lookup_insert_eq. }
  split_and!.
  - apply map_eq. intros d. unfold t4. destruct (decide (d = r)) as [->|].
    + by rewrite lookup_delete_eq, lookup_insert_ne by done.
    + rewrite lookup_delete_ne by done. unfold t3. destruct (decide (d = 0)) as [->|].
      * by rewrite lookup_partial_alter_eq, lookup_insert_eq.
      * rewrite lookup_partial_alter_ne, lookup_insert_ne by done. unfold t2.
        destruct (decide (d = w)) as [->|]; [by rewrite lookup_delete_eq|].
        unfold t1. by rewrite lookup_delete_ne, !lookup_insert_ne by done.
  - unfold t1. rewrite lookup_insert_ne, lookup_insert_eq by done. eauto.
  - rewrite E2. eauto.
  - unfold t3. rewrite lookup_partial_alter_ne by done. rewrite E2. eauto.
Qed.

Lemma parent_table n (t : gmap Z obj) r w :
  t !! r = None → t !! w = None → r ≠ w → is_Some (t !! 0) → is_Some (t !! 1) →
  let t1 := <[r := PipeRead n]> (<[w := PipeWrite n]> t) in
  let t2 := delete r t1 in
  let t3 := partial_alter (λ _, t2 !! w) 1 t2 in
  let t4 := delete w t3 in
  t4 = <[1 := PipeWrite n]> t ∧ is_Some (t1 !! r) ∧ is_Some (t2 !! w) ∧ is_Some (t3 !! w).
Proof.
  intros Hr Hw Hrw Hin Hout t1 t2 t3 t4.
  assert (r ≠ 1 ∧ w ≠ 1) as [Hr0 Hw0] by (split; intros ->; destruct Hout; congruence).
  assert (t2 !! w = Some (PipeWrite n)) as E2.
  { unfold t2, t1. rewrite lookup_delete_ne, lookup_insert_ne by done. apply lookup_insert_eq. }
  split_and!.
  - apply map_eq. intros d. unfold t4. destruct (decide (d = w)) as [->|].
    + by rewrite lookup_delete_eq, lookup_insert_ne by done.
    + rewrite lookup_delete_ne by done. unfold t3. destruct (decide (d = 1)) as [->|].
      * by rewrite lookup_partial_alter_eq, lookup_insert_eq.
      * rewrite lookup_partial_alter_ne, lookup_insert_ne by done. unfold t2.
        destruct (decide (d = r)) as [->|]; [by rewrite lookup_delete_eq|].
        unfold t1. by rewrite lookup_delete_ne, !lookup_insert_ne by done.
  - unfold t1. rewrite lookup_insert_eq. eauto.
  - rewrite E2. eauto.
  - unfold t3. rewrite lookup_partial_alter_ne by done. rewrite E2. eauto.
Qed.

Lemma wired_start n t m : (m <= 1)%nat → wired n t 0 m t.
Proof. intros Hm. split_and!; [done| |done]. by destruct (Nat.ltb_spec 1 m); [lia|]. Qed.

Lemma wired_left n t m : (1 < m)%nat → wired n t 0 m (<[1 := PipeWrite n]> t).
Proof.
  intros Hm. split_and!.
  - by rewrite lookup_insert_ne.
  - rewrite lookup_insert_eq, Nat.add_0_r. by destruct (Nat.ltb_spec 1 m); [|lia].
  - intros fd ??. by rewrite lookup_insert_ne.
Qed.

Lemma wired_right n t k m t' :
  wired (Datatypes.S n) (<[0 := PipeRead n]> t) k m t' → wired n t (Datatypes.S k) (Datatypes.S m) t'.
Proof.
  intros (Hi & Ho & Hr). split_and!.
  - rewrite Hi. destruct k; [by rewrite lookup_insert_eq, Nat.add_0_r|]. do 2 f_equal. lia.
  - rewrite Ho. rewrite lookup_insert_ne by done.
    change (Datatypes.S (Datatypes.S k) <? Datatypes.S m)%nat with (Datatypes.S k <? m)%nat.
    destruct (_ <? m)%nat; [|done]. do 2 f_equal. lia.
  - intros fd ??. rewrite Hr by done. by rewrite lookup_insert_ne.
Qed.

(** The table after one more call. *)
Lemma fds_pipe tr r n t :
  fds tr = (n, t) → rv r ≠ -1 →
  fds (tr ++ [Esys Cpipe r]) =
    (Datatypes.S n, <[pipe_read r := PipeRead n]> (<[pipe_write r := PipeWrite n]> t)).
Proof. intros E Hr. rewrite fds_snoc, E. simpl. by destruct (Z.eqb_spec (rv r) (-1)). Qed.
Lemma fds_close tr r n t fd :
  fds tr = (n, t) → rv r ≠ -1 → fds (tr ++ [Esys (Cclose fd) r]) = (n, delete fd t).
Proof. intros E Hr. rewrite fds_snoc, E. simpl. by destruct (Z.eqb_spec (rv r) (-1)). Qed.
Lemma fds_dup2 tr r n t a b :
  fds tr = (n, t) → rv r ≠ -1 → fds (tr ++ [Esys (Cdup2 a b) r]) = (n, partial_alter (λ _, t !! a) b t).
Proof. intros E Hr. rewrite fds_snoc, E. simpl. by destruct (Z.eqb_spec (rv r) (-1)). Qed.
Lemma fds_fork tr r n t : fds tr = (n, t) → fds (tr ++ [Esys Cfork r]) = (n, t).
Proof. intros E. by rewrite fds_snoc, E. Qed.

(** Moving an open descriptor onto another: close, dup2, close. *)
Lemma wp_move {A} c d b (Q : A → st S → Prop) E s n t (k : M S A) :
  fds (trace s) = (n, t) → is_Some (t !! c) → is_Some (delete c t !! d) →
  is_Some (partial_alter (λ _, delete c t !! d) b (delete c t) !! d) →
  (∀ s', fds (trace s') = (n, delete d (partial_alter (λ _, delete c t !! d) b (delete c t))) →
    wp k Q E s') →
  wp (sys (Cclose c);; sys (Cdup2 d b);; sys (Cclose d);; k) Q E s.
Proof.
  intros E1 Hc Hd Hd2 Hk. apply wp_bind, wp_sys.
  pose proof (close_reply (trace s) c) as R1. rewrite E1 in R1.
  pose proof (fds_close _ _ _ _ c E1 (R1 Hc)) as E2.
  apply wp_bind, wp_sys. cbn [trace]. pose proof (dup2_reply _ d b ltac:(rewrite E2; exact Hd)) as R2.
  pose proof (fds_dup2 _ _ _ _ d b E2 R2) as E3.
  apply wp_bind, wp_sys. cbn [trace]. pose proof (close_reply _ d ltac:(rewrite E3; exact Hd2)) as R3.
  pose proof (fds_close _ _ _ _ d E3 R3) as E4. by apply Hk.
Qed.

Lemma wp_pipe_and_exec_go fuel argv n t s :
  (length argv < fuel)%nat → fds (trace s) = (n, t) → is_Some (t !! 0) → is_Some (t !! 1) →
  wp (pipe_and_exec_go fuel argv) (λ _ _, True) (stage_end n t argv) s.
Proof.
  revert argv n t s; induction fuel as [|fuel IH]; intros argv n t s Hf E Hin Hout; [lia|]. cbn [pipe_and_exec_go].
  destruct (pipe_present_spec argv) as [[-> Hi]|[->|(i & Hi & -> & Hi0 & Hil)]].
  - simpl. apply wp_bind. eapply (wp_execvp _ _ n t s 1 0).
    + intros s' _. apply wp_bind, wp_get_errno, wp_emit. done.
    + intros f s' Hhd E'. exists O. rewrite stages_single, E', E by done. split_and!; [done|done|].
      apply wired_start. simpl. lia.
    + rewrite E. by apply wired_start.
  - simpl. by apply wp_bind, wp_emit, wp_set_errno.
  - destruct (Z.eqb_spec (Z.of_nat i) (-1)); [lia|]. destruct (Z.eqb_spec (Z.of_nat i) 0); [lia|].
    rewrite Nat2Z.id. cbn zeta. pose proof (stages_split _ _ Hi) as Hst.
    destruct (stages_nonempty (drop (Datatypes.S i) argv)) as (c & cs & Hcs).
    apply wp_bind, wp_sys. set (p := kern _ _).
    pose proof (pipe_reply (trace s)) as Hp. fold p in Hp. cbn zeta in Hp.
    destruct (Z.eqb_spec (rv p) (-1)) as [E1|E1]; [by apply wp_perror_end|].
    destruct Hp as [?|(_ & Hrw & Hr & Hw)]; [done|]. rewrite E in Hr, Hw. simpl in Hr, Hw.
    apply wp_bind, wp_sys. cbn [trace]. set (f := kern _ Cfork).
    pose proof (fds_fork _ f _ _ (fds_pipe _ p _ _ E E1)) as E2.
    destruct (Z.eqb_spec (rv f) (-1)) as [F1|F1]; [by apply wp_perror_end|].
    destruct (Z.eqb_spec (rv f) 0) as [F0|F0].
    + destruct (child_table n t (pipe_read p) (pipe_write p) Hr Hw Hrw Hin Hout) as (T & T1 & T2 & T3).
      eapply wp_move; [exact E2|exact T1|exact T2|exact T3|]. intros s' E3. rewrite T in E3.
      eapply wp_mono; [apply (IH _ (Datatypes.S n) (<[0 := PipeRead n]> t))| |].
      * rewrite length_drop. lia.
      * done.
      * rewrite lookup_insert_eq. eauto.
      * by rewrite lookup_insert_ne.
      * done.
      * intros e s'' He. destruct e as [| | |f' a| |]; try done.
        destruct He as (k & Hk & Hhd & Hwd). exists (Datatypes.S k). rewrite Hst. split_and!; [done|done|].
        by apply wired_right.
    + destruct (parent_table n t (pipe_read p) (pipe_write p) Hr Hw Hrw Hin Hout) as (T & T1 & T2 & T3).
      eapply wp_move; [exact E2|exact T1|exact T2|exact T3|]. intros s' E3. rewrite T in E3.
      assert (wired n t 0 (length (stages argv)) (fds (trace s')).2) as Hwd.
      { rewrite E3, Hst, Hcs. apply wired_left. simpl. lia. }
      apply wp_bind. eapply (wp_execvp _ _ n t s' _ 0); [|intros f' s'' Hhd E'|exact Hwd].
      * intros s'' _. by apply wp_perror_end.
      * exists O. rewrite E'. split_and!; [by rewrite Hst|done|done].
Qed.

(** *** Redirections *)

(** The vector and the table after a redirection of descriptor [b] that the
    string [w] asks for: cut before [w], with the file open at [b]; or as they
    were. *)
Inductive redirected (w : cstr) (b : Z) (argv : list cstr) (t : gmap Z obj) :
    Z → list cstr → gmap Z obj → Prop :=
  | R_done i f :
      index_of w argv = Some i → argv !! Datatypes.S i = Some f →
      redirected w b argv t 0 (take i argv) (<[b := Opened f]> t)
  | R_not : redirected w b argv t (-1) argv t.

Lemma fds_other tr e n t :
  fds tr = (n, t) →
  match e with Esys (Cpipe | Cdup2 _ _ | Cclose _ | Copen _ _ _) _ => False | _ => True end →
  fds (tr ++ [e]) = (n, t).
Proof. intros E He. rewrite fds_snoc, E. by destruct e as [[]|]. Qed.

Lemma fds_open tr p f m r n t :
  fds tr = (n, t) → rv r ≠ -1 → fds (tr ++ [Esys (Copen p f m) r]) = (n, <[rv r := Opened p]> t).
Proof. intros E Hr. rewrite fds_snoc, E. simpl. by destruct (Z.eqb_spec (rv r) (-1)). Qed.

(** Both functions, which differ in the string, the descriptor and the flags of
    open. *)
Lemma wp_redirect w b flags mode argv n t (Q : Z * list cstr → st S → Prop) E s :
  fds (trace s) = (n, t) → is_Some (t !! b) →
  (∀ z a t' s', redirected w b argv t z a t' → fds (trace s') = (n, t') → Q (z, a) s') →
  wp (match index_of w argv with
      | None => mret (-1, argv)
      | Some i =>
          fd ← open_path (argv !! Datatypes.S i) flags mode;
          if fd =? -1 then perror (str "open");; mret (-1, argv) else
          r ← sys (Cdup2 fd b);
          if rv r =? -1 then perror (str "dup2");; mret (-1, argv) else
          r ← sys (Cclose fd);
          if rv r =? -1 then perror (str "close");; mret (-1, argv) else
          mret (0, take i argv)
      end) Q E s.
Proof.
  intros E1 Hb HQ. destruct (index_of w argv) as [i|] eqn:Ei; [|eapply wp_ret, HQ; [apply R_not|done]].
  assert (Hfail : ∀ msg s', fds (trace s') = (n, t) → wp (perror msg;; mret (-1, argv)) Q E s').
  { intros msg s' E'. apply wp_bind, wp_bind, wp_get_errno, wp_emit, wp_ret.
    eapply HQ; [apply R_not|]. by apply fds_other. }
  apply wp_bind. unfold open_path. destruct (argv !! Datatypes.S i) as [f|] eqn:Ef.
  2:{ by apply wp_bind, wp_set_errno, wp_ret, Hfail. }
  apply wp_bind, wp_sys, wp_ret. set (r := kern _ _).
  pose proof (open_reply (trace s) f flags mode) as Ho. fold r in Ho. cbn zeta in Ho.
  destruct (Z.eqb_spec (rv r) (-1)) as [Er|Er].
  { apply Hfail. simpl. rewrite fds_snoc, E1. simpl. by rewrite Er. }
  destruct Ho as [?|Hfree]; [done|]. rewrite E1 in Hfree. simpl in Hfree.
  pose proof (fds_open _ f flags mode _ _ _ E1 Er) as E2.
  assert (rv r ≠ b) as Hne by (intros Hrb; rewrite Hrb in Hfree; destruct Hb; congruence).
  assert (is_Some ((fds (trace s ++ [Esys (Copen f flags mode) r])).2 !! rv r)) as Hopen
    by (rewrite E2; simpl; rewrite lookup_insert_eq; eauto).
  apply wp_bind, wp_sys. cbn [trace].
  pose proof (dup2_reply _ (rv r) b Hopen) as R2. pose proof (fds_dup2 _ _ _ _ (rv r) b E2 R2) as E3.
  rewrite lookup_insert_eq in E3.
  destruct (Z.eqb_spec (rv (kern (trace s ++ [Esys (Copen f flags mode) r]) (Cdup2 (rv r) b))) (-1)); [done|].
  assert (is_Some ((fds ((trace s ++ [Esys (Copen f flags mode) r]) ++ [Esys (Cdup2 (rv r) b)
    (kern (trace s ++ [Esys (Copen f flags mode) r]) (Cdup2 (rv r) b))])).2 !! rv r)) as Hopen2.
  { rewrite E3. simpl. rewrite lookup_partial_alter_ne, lookup_insert_eq by done. eauto. }
  apply wp_bind, wp_sys. cbn [trace].
  pose proof (close_reply _ (rv r) Hopen2) as R3. pose proof (fds_close _ _ _ _ (rv r) E3 R3) as E4.
  match goal with |- context [rv ?k =? -1] => destruct (Z.eqb_spec (rv k) (-1)); [done|] end.
  apply wp_ret. eapply HQ; [by eapply R_done|]. cbn [trace]. rewrite E4. f_equal.
  apply map_eq. intros d. destruct (decide (d = rv r)) as [->|].
  - by rewrite lookup_delete_eq, lookup_insert_ne, Hfree by done.
  - rewrite lookup_delete_ne by done. destruct (decide (d = b)) as [->|].
    + by rewrite lookup_partial_alter_eq, lookup_insert_eq.
    + by rewrite lookup_partial_alter_ne, !lookup_insert_ne by done.
Qed.

Lemma redirected_open w b argv t z a t' d :
  redirected w b argv t z a t' → is_Some (t !! d) → is_Some (t' !! d).
Proof.
  destruct 1; [|done]. intros Hd. destruct (decide (d = b)) as [->|]; [rewrite lookup_insert_eq; eauto|].
  by rewrite lookup_insert_ne.
Qed.

(** *** Running a command *)

(** What the shell's own process did when run_command returns: it forked, and
    waited for the child unless told otherwise. *)
Definition parent_end (s s' : st S) : Prop :=
  ∃ pre f post, calls (trace s') = calls (trace s) ++ pre ++ (Cfork, f) :: post ∧
    (pre = [] ∨ ∃ r, pre = [(Cgarbage, r)]) ∧ rv f ≠ -1 ∧ rv f ≠ 0 ∧
    (post = [] ∨ ∃ r, post = [(Cwait (rv f), r)]).

(** What a child process did: it runs a stage of the redirected command. *)
Definition child_end (n : nat) (t : gmap Z obj) (argv : list cstr) (e : stop) (s : st S) : Prop :=
  match e with
  | Execed f a => ∃ z1 a1 t1 z2 a2 t2,
      redirected (str "<") 0 argv t z1 a1 t1 ∧ redirected (str ">") 1 a1 t1 z2 a2 t2 ∧
      stage_end n t2 a2 e s
  | Exit _ => True
  | _ => False
  end.

Lemma wp_is_background argv n t (Q : bool → st S → Prop) E s :
  fds (trace s) = (n, t) →
  (∀ b s' pre, fds (trace s') = (n, t) → calls (trace s') = calls (trace s) ++ pre →
    (pre = [] ∨ ∃ r, pre = [(Cgarbage, r)]) → Q b s') →
  wp (is_background argv) Q E s.
Proof.
  intros E1 HQ. unfold is_background.
  assert (∀ b, Q b s) as Hs by (intros b; apply (HQ b s []); [done|by rewrite app_nil_r|by left]).
  destruct argv as [|c argv]; [by apply wp_ret|].
  destruct (index_of _ _); [by apply wp_ret|]. apply wp_bind, wp_sys, wp_ret.
  eapply HQ; [by apply fds_other|apply calls_snoc_sys|right; eauto].
Qed.

Lemma wp_report_status pid stat (Q : unit → st S → Prop) E s :
  (∀ s', calls (trace s') = calls (trace s) → Q tt s') → wp (report_status pid stat) Q E s.
Proof.
  intros HQ. unfold report_status.
  destruct (_ && _); [apply wp_emit, HQ, calls_snoc_out|].
  destruct (_ && _); [apply wp_emit, HQ, calls_snoc_out|by apply wp_ret, HQ].
Qed.

Lemma wp_run_command argv n t s :
  fds (trace s) = (n, t) → is_Some (t !! 0) → is_Some (t !! 1) →
  wp (run_command argv) (λ _ s', parent_end s s') (child_end n t argv) s.
Proof.
  intros E1 Hin Hout. eapply wp_bind, wp_is_background; [done|]. intros bg s1 pre E2 C1 Hpre.
  apply wp_bind, wp_sys. set (f := kern _ _). cbn zeta.
  destruct (Z.eqb_spec (rv f) (-1)) as [F1|F1].
  { apply wp_bind, wp_bind, wp_get_errno, wp_emit, wp_bind, wp_get_errno, wp_stop. done. }
  assert (fds (trace s1 ++ [Esys Cfork f]) = (n, t)) as E3 by (by apply fds_fork).
  destruct (Z.eqb_spec (rv f) 0) as [F0|F0].
  - eapply wp_bind, (wp_redirect (str "<") 0); [done|done|]. intros z1 a1 t1 s2 R1 E4.
    eapply wp_bind, (wp_redirect (str ">") 1); [done|by eapply redirected_open|].
    intros z2 a2 t2 s3 R2 E5. apply wp_bind. eapply wp_mono; [apply (wp_pipe_and_exec_go _ a2 n t2); [simpl; lia|done|..]| |].
    + by eapply redirected_open, redirected_open.
    + by eapply redirected_open, redirected_open.
    + intros ? s4 _. apply wp_bind, wp_get_errno, wp_stop. done.
    + intros e s4 He. destruct e as [| | |f' a'| |]; try done. by exists z1, a1, t1, z2, a2, t2.
  - assert (Hend : ∀ s2 post, calls (trace s2) = calls (trace s1 ++ [Esys Cfork f]) ++ post →
      (post = [] ∨ ∃ r, post = [(Cwait (rv f), r)]) → parent_end s s2).
    { intros s2 post C2 Hpost. exists pre, f, post. split_and!; [|done..].
      rewrite C2, calls_snoc_sys, C1, <-!app_assoc. done. }
    destruct (negb bg); [|by apply wp_ret, (Hend _ []); [by rewrite app_nil_r|left]].
    apply wp_bind, wp_sys, wp_report_status. intros s2 C2.
    apply (Hend s2 [(Cwait (rv f), kern (trace s1 ++ [Esys Cfork f]) (Cwait (rv f)))]); [|right; eauto].
    rewrite C2. apply calls_snoc_sys.
Qed.
End Specs.

(** ** The properties *)


(** [run_command] returns only in the shell: then it forked once and waited
    for the child unless it runs in the background; the child never comes back
    as a second shell, it runs a stage of the command as redirected, or
    exits. *)
Theorem run_command_correct {S} `{Descriptors} argv n t (s : st S) :
  fds (trace s) = (n, t) → is_Some (t !! 0) → is_Some (t !! 1) →
  (∃ s', run_command argv s = (Ret tt, s') ∧ parent_end s s') ∨
  (∃ e s', run_command argv s = (Stop e, s') ∧ child_end n t argv e s').
Proof.
  intros E Hin Hout. destruct (wp_run _ _ _ _ (wp_run_command argv n t s E Hin Hout))
    as [([] & s' & ?)|?]; [left; by exists s'|by right].
Qed.

(** A system whose forks play the given roles, one after the other. *)
Definition is_fork (e : event) : bool :=
  match e with Esys Cfork _ => true | _ => false end.
Definition forks (tr : list event) : nat := length (filter is_fork tr).
Definition free_fd (t : gmap Z obj) : Z := fresh (C:=gset Z) (dom t).
Definition roles_os (roles : list Z) : os :=
  test_os (λ tr c,
    match c with
    | Cfork => ok (nth (forks tr) roles 7)
    | Cpipe =>
        let t := (fds tr).2 in
        let r := free_fd t in
        Reply 0 0 [] [([], r); ([], free_fd (<[r := Inherited r]> t))]
    | Copen _ _ _ => ok (free_fd (fds tr).2)
    | _ => ok 0
    end).

Lemma free_fd_free t : t !! free_fd t = None.
Proof. apply (not_elem_of_dom (D:=gset Z)), (is_fresh (C:=gset Z) (dom t)). Qed.

Lemma roles_os_Descriptors roles : @Descriptors (roles_os roles).
Proof.
  split.
  - intros tr r. right. subst r. simpl. set (t := (fds tr).2).
    pose proof (free_fd_free (<[free_fd t := Inherited (free_fd t)]> t)) as H1.
    set (w := free_fd (<[_ := _]> t)) in *.
    assert (free_fd t ≠ w) as Hne by (intros E; rewrite <-E, lookup_insert_eq in H1; done).
    rewrite lookup_insert_ne in H1 by done. split_and!; [done|done|apply free_fd_free|done].
  - done.
  - done.
  - intros tr p f m r. right. apply free_fd_free.
Qed.

Definition demo_pipeline : list cstr := str <$> ["ls"; "-l"; "|"; "sort"; "|"; "head"]%string.


Theorem run_command_witness :
  let o := roles_os [0; 0; 9] in
  (∃ s', run_command demo_pipeline (init tt) = (Ret tt, s') ∧ parent_end (init tt) s') ∨
  (∃ e s', run_command demo_pipeline (init tt) = (Stop e, s') ∧ child_end 0 std_fds demo_pipeline e s').
Proof.
  intros o.
  apply (@run_command_correct unit o (roles_os_Descriptors [0; 0; 9]) demo_pipeline 0 std_fds (init tt));
    [reflexivity|by eexists|by eexists].
Defined.

(** The middle stage: its input is the first pipe, its output the second. *)
Example middle_stage :
  let o := roles_os [0; 9] in
  let r := pipe_and_exec demo_pipeline (init tt) in
  r.1 = Stop (Execed (str "sort") [str "sort"]) ∧
  map_to_list (fds (trace r.2)).2 ≡ₚ [(0, PipeRead 0); (1, PipeWrite 1); (2, Inherited 2)].
Proof. split; [by vm_compute|]. vm_compute. solve_Permutation. Qed.

(** "sort < in > out": the vector is cut at "<", so that the output
    redirection is not seen. *)
Theorem input_redirection_hides_output :
  let o := roles_os [0] in
  let r := run_command (str <$> ["sort"; "<"; "in"; ">"; "out"]%string) (init tt) in
  r.1 = Stop (Execed (str "sort") [str "sort"]) ∧
  (fds (trace r.2)).2 !! 0 = Some (Opened (str "in")) ∧ (fds (trace r.2)).2 !! 1 = Some (Inherited 1).
Proof. by vm_compute. Qed.
