(* ===== verification/Getopt.v ===== *)
(** getopt(3).

    For a string that starts with '+', options come first and the first word
    that is not one ends them; otherwise, unless POSIXLY_CORRECT is set, words
    that are not options are moved behind the options. *)
From S2P Require Import Prelude Sys.

(** What getopt finds in turn: an option with its argument, or one that it
    rejects, unknown or without its argument. *)
Inductive found := Opt (c : ascii) (arg : option cstr) | Unknown_opt (c : ascii) | Missing_arg (c : ascii).

Section Getopt.
(** Of each character: whether it is an option, and whether it takes an
    argument. *)
Context (spec : ascii → option bool).

(** Options in one word, after its '-'; [rest] are the words after it.  The
    result is what is found and the words left. *)
Fixpoint getopt_word (w : cstr) (rest : list cstr) : list found * list cstr :=
  match w with
  | [] => ([], rest)
  | c :: w =>
      match spec c with
      | None => let '(fs, rest) := getopt_word w rest in (Unknown_opt c :: fs, rest)
      | Some false => let '(fs, rest) := getopt_word w rest in (Opt c None :: fs, rest)
      | Some true =>
          match w, rest with
          | _ :: _, _ => ([Opt c (Some w)], rest)
          | [], a :: rest => ([Opt c (Some a)], rest)
          | [], [] => ([Missing_arg c], [])
          end
      end
  end.

(** All options of a command line, and the words from optind on. *)
Fixpoint getopt_all (fuel : nat) (args : list cstr) : list found * list cstr :=
  match fuel, args with
  | Datatypes.S fuel, ("-"%char :: ((_ :: _) as w)) :: rest =>
      if streq w (str "-") then ([], rest) else
      let '(fs, rest) := getopt_word w rest in
      let '(fs', rest) := getopt_all fuel rest in (fs ++ fs', rest)
  | _, _ => ([], args)
  end.

(** Each word takes at least itself: the number of words is fuel enough. *)
Definition getopt (args : list cstr) : list found * list cstr := getopt_all (length args) args.

Lemma getopt_word_length w rest : (length (getopt_word w rest).2 <= length rest)%nat.
Proof using.
  induction w as [|c w IH]; simpl; [lia|]. destruct (spec c) as [[]|].
  - destruct w; [|simpl; lia]. destruct rest; simpl; lia.
  - destruct (getopt_word w rest); simpl in *; lia.
  - destruct (getopt_word w rest); simpl in *; lia.
Qed.

Lemma getopt_fuel fuel args : (length args <= fuel)%nat → getopt_all fuel args = getopt args.
Proof using.
  unfold getopt. enough (∀ n m args, (length args <= n)%nat → (length args <= m)%nat → getopt_all n args = getopt_all m args) as H.
  { intros Hf. by apply H. }
  clear. induction n as [|n IH]; intros m args Hn Hm.
  { destruct args; [|simpl in Hn; lia]. by destruct m. }
  destruct args as [|w rest]; [by destruct m|]. destruct m as [|m]; [simpl in Hm; lia|]. simpl in Hn, Hm.
  cbn [getopt_all]. destruct w as [|c w]; [done|]. destruct (ascii_dec c "-"%char) as [->|Hc].
  - destruct w as [|d w]; [done|]. destruct (streq _ _); [done|].
    pose proof (getopt_word_length (d :: w) rest) as Hl. destruct (getopt_word (d :: w) rest) as [fs rest'].
    simpl in Hl. rewrite (IH m rest') by lia. done.
  - by destruct c as [[] [] [] [] [] [] [] []].
Qed.

(** Words that are not options end the search. *)
Lemma getopt_stop w rest : head w ≠ Some "-"%char → getopt (w :: rest) = ([], w :: rest).
Proof using.
  intros Hw. unfold getopt. cbn [length getopt_all]. destruct w as [|c w]; [done|].
  destruct c as [[] [] [] [] [] [] [] []]; try done.
Qed.

Lemma getopt_nil : getopt [] = ([], []).
Proof using. done. Qed.

(** One option per word, as a shell would write them. *)
Lemma getopt_flag c rest : spec c = Some false → c ≠ "-"%char →
  getopt (("-"%char :: [c]) :: rest) = let '(fs, r) := getopt rest in (Opt c None :: fs, r).
Proof using.
  intros Hc Hd. unfold getopt. cbn [length getopt_all].
  rewrite (proj2 (streq_false _ _)); [|by intros [= ->]]. cbn [getopt_word]. rewrite Hc. by destruct (getopt_all _ _).
Qed.

Lemma getopt_all_S n x w rest :
  getopt_all (Datatypes.S n) (("-"%char :: x :: w) :: rest) =
    if streq (x :: w) (str "-") then ([], rest) else
    let '(fs, rest) := getopt_word (x :: w) rest in
    let '(fs', rest) := getopt_all n rest in (fs ++ fs', rest).
Proof using. done. Qed.

Lemma getopt_with c a rest : spec c = Some true → c ≠ "-"%char →
  getopt (("-"%char :: [c]) :: a :: rest) = let '(fs, r) := getopt rest in (Opt c (Some a) :: fs, r).
Proof using.
  intros Hc Hd. transitivity (getopt_all (Datatypes.S (Datatypes.S (length rest))) (("-"%char :: [c]) :: a :: rest)); [done|].
  rewrite getopt_all_S, (proj2 (streq_false _ _)) by by intros [= ->]. cbn [getopt_word]. rewrite Hc.
  rewrite getopt_fuel by lia. by destruct (getopt rest).
Qed.
(** What is found agrees with the string of options. *)
Definition found_ok (f : found) : Prop :=
  match f with
  | Opt c a => spec c = Some (bool_decide (is_Some a))
  | Unknown_opt c => spec c = None
  | Missing_arg c => spec c = Some true
  end.

Lemma getopt_word_ok w rest :
  Forall found_ok (getopt_word w rest).1 ∧ (getopt_word w rest).2 `suffix_of` rest.
Proof using.
  induction w as [|c w IH]; simpl; [by split|]. destruct (spec c) as [[]|] eqn:Hc.
  - destruct w; [destruct rest as [|a rest]|]; simpl; (split; [apply Forall_cons_2; [done|by apply Forall_nil_2]|]);
      [done|by apply suffix_cons_r|done].
  - destruct (getopt_word w rest). destruct IH. split; [by apply Forall_cons_2|done].
  - destruct (getopt_word w rest). destruct IH. split; [by apply Forall_cons_2|done].
Qed.

Lemma getopt_ok args : Forall found_ok (getopt args).1 ∧ (getopt args).2 `suffix_of` args.
Proof using.
  unfold getopt. generalize (length args). intros n. revert args. induction n as [|n IH]; intros args; [by split|].
  cbn [getopt_all]. destruct args as [|[|c [|x w]] rest]; try (by split).
  { by destruct c as [[] [] [] [] [] [] [] []]. }
  destruct (ascii_dec c "-"%char) as [->|Hc].
  2: { assert (getopt_all (Datatypes.S n) ((c :: x :: w) :: rest) = ([], (c :: x :: w) :: rest)) as E
         by by destruct c as [[] [] [] [] [] [] [] []].
       cbn [getopt_all] in E. rewrite E. by split. }
  destruct (streq _ _); [split; [by apply Forall_nil_2|by apply suffix_cons_r]|].
  destruct (getopt_word_ok (x :: w) rest) as [H1 H2]. destruct (getopt_word (x :: w) rest) as [fs rest'].
  destruct (IH rest') as [H3 H4]. destruct (getopt_all n rest') as [fs' rest''].
  split; [by apply Forall_app|]. apply suffix_cons_r. by etrans.
Qed.

Lemma getopt_end rest : getopt (str "--" :: rest) = ([], rest).
Proof using. done. Qed.

(** The search that moves the other words to the end: the words from optind on
    are those, in their order. *)
Fixpoint getopt_permute_all (fuel : nat) (args : list cstr) : list found * list cstr :=
  match fuel, args with
  | Datatypes.S fuel, ("-"%char :: ((_ :: _) as w)) :: rest =>
      if streq w (str "-") then ([], rest) else
      let '(fs, rest) := getopt_word w rest in
      let '(fs', ops) := getopt_permute_all fuel rest in (fs ++ fs', ops)
  | Datatypes.S fuel, w :: rest => let '(fs, ops) := getopt_permute_all fuel rest in (fs, w :: ops)
  | _, _ => ([], args)
  end.

Definition getopt_permute (args : list cstr) : list found * list cstr := getopt_permute_all (length args) args.

(** The word is not an option. *)
Definition operand (w : cstr) : bool := match w with c :: _ :: _ => negb (bool_decide (c = "-"%char)) | _ => true end.

Lemma permute_option_S n x w rest :
  getopt_permute_all (Datatypes.S n) (("-"%char :: x :: w) :: rest) =
    if streq (x :: w) (str "-") then ([], rest) else
    let '(fs, rest) := getopt_word (x :: w) rest in
    let '(fs', ops) := getopt_permute_all n rest in (fs ++ fs', ops).
Proof using. done. Qed.

Lemma permute_operand_S n w rest : operand w = true →
  getopt_permute_all (Datatypes.S n) (w :: rest) = let '(fs, ops) := getopt_permute_all n rest in (fs, w :: ops).
Proof using.
  intros Hw. cbn [getopt_permute_all]. destruct w as [|c [|x w]]; [done|by destruct c as [[] [] [] [] [] [] [] []]|].
  cbn in Hw. apply negb_true_iff, bool_decide_eq_false in Hw. by destruct c as [[] [] [] [] [] [] [] []].
Qed.

Lemma operand_or w : operand w = true ∨ ∃ x v, w = "-"%char :: x :: v.
Proof using.
  destruct w as [|c [|x v]]; [by left|by left|]. destruct (decide (c = "-"%char)) as [-> |Hc]; [right; eauto|left].
  cbn. by rewrite bool_decide_eq_false_2.
Qed.

Lemma permute_fuel fuel args : (length args <= fuel)%nat → getopt_permute_all fuel args = getopt_permute args.
Proof using.
  unfold getopt_permute. enough (∀ n m args, (length args <= n)%nat → (length args <= m)%nat →
    getopt_permute_all n args = getopt_permute_all m args) as H by (intros Hf; by apply H).
  clear. induction n as [|n IH]; intros m args Hn Hm.
  { destruct args; [|cbn in Hn; lia]. by destruct m. }
  destruct args as [|w rest]; [by destruct m|]. destruct m as [|m]; [cbn in Hm; lia|]. cbn [length] in Hn, Hm.
  destruct (operand_or w) as [Hw|(x & v & ->)].
  - rewrite !permute_operand_S by done. by rewrite (IH m) by lia.
  - rewrite !permute_option_S. destruct (streq _ _); [done|]. pose proof (getopt_word_length (x :: v) rest) as Hl.
    destruct (getopt_word _ _) as [fs rest']. cbn in Hl. by rewrite (IH m) by lia.
Qed.

Lemma permute_operand w rest : operand w = true →
  getopt_permute (w :: rest) = let '(fs, ops) := getopt_permute rest in (fs, w :: ops).
Proof using. intros Hw. unfold getopt_permute at 1. cbn [length]. by rewrite permute_operand_S. Qed.

Lemma permute_operands ops : forallb operand ops = true → getopt_permute ops = ([], ops).
Proof using.
  induction ops as [|w ops IH]; [done|]. cbn [forallb]. intros [Hw Ho]%andb_true_iff. by rewrite permute_operand, IH.
Qed.

Lemma permute_flag c rest : spec c = Some false → c ≠ "-"%char →
  getopt_permute (["-"%char; c] :: rest) = let '(fs, ops) := getopt_permute rest in (Opt c None :: fs, ops).
Proof using.
  intros Hc Hd. unfold getopt_permute at 1. cbn [length]. rewrite permute_option_S, (proj2 (streq_false _ _)) by by intros [= ->].
  cbn [getopt_word]. rewrite Hc. unfold getopt_permute. by destruct (getopt_permute_all _ _).
Qed.

Lemma permute_with c a rest : spec c = Some true → c ≠ "-"%char →
  getopt_permute (["-"%char; c] :: a :: rest) = let '(fs, ops) := getopt_permute rest in (Opt c (Some a) :: fs, ops).
Proof using.
  intros Hc Hd. unfold getopt_permute at 1. cbn [length]. rewrite permute_option_S, (proj2 (streq_false _ _)) by by intros [= ->].
  cbn [getopt_word]. rewrite Hc, permute_fuel by lia. by destruct (getopt_permute rest).
Qed.

(** As a program sees it: with POSIXLY_CORRECT in the environment nothing is
    moved. *)
Definition getopt_env `{os} (args : list cstr) : list found * list cstr :=
  match getenv (str "POSIXLY_CORRECT") with Some _ => getopt args | None => getopt_permute args end.
End Getopt.

(** What getopt says on standard error of an option it rejects. *)
Definition getopt_complaint (prog : cstr) (f : found) : option cstr :=
  match f with
  | Opt _ _ => None
  | Unknown_opt c => Some (prog ++ str ": invalid option -- '" ++ [c] ++ str "'" ++ [NL])
  | Missing_arg c => Some (prog ++ str ": option requires an argument -- '" ++ [c] ++ str "'" ++ [NL])
  end.
