(* ===== verification/Userns.v ===== *)
(** A command in new namespaces: tlpi-book/namespaces/userns_child_exec.c, with
    userns_functions.c and modifyCapSetting of cap_functions.c.

    The parent writes the maps of user and group IDs of the child's user
    namespace while the child waits for the end of file of a pipe. *)
From S2P Require Import Prelude Sys GetNum ErrorFns ShellRun Getopt.

(** ** cap_functions.c

    The functions of libcap are not part of the sources: calls of the system,
    by name. *)

Definition CAP_EFFECTIVE : Z := 0.
Definition CAP_PERMITTED : Z := 1.
Definition CAP_INHERITABLE : Z := 2.
Definition CAP_CLEAR : Z := 0.
Definition CAP_SET : Z := 1.
Definition CAP_LAST_CAP : Z := 40.

Section Caps.
Context {S : Type} `{os}.

Definition cap_free (caps : Z) : M S reply := sys (Cextern "cap_free" [caps] []).

Definition modifyCapSetting (flag capability setting : Z) : M S Z :=
  caps ← sys (Cextern "cap_get_proc" [] []);
  if rv caps =? -1 then mret (-1) else
  r ← sys (Cextern "cap_set_flag" [rv caps; flag; 1; capability; setting] []);
  if rv r =? -1 then cap_free (rv caps);; mret (-1) else
  r ← sys (Cextern "cap_set_proc" [rv caps] []);
  if rv r =? -1 then cap_free (rv caps);; mret (-1) else
  r ← cap_free (rv caps);
  mret (if rv r =? -1 then -1 else 0).

(** ** userns_functions.c *)

Definition display_creds_and_caps (text : cstr) : M S unit :=
  u ← sys Cgeteuid;
  g ← sys Cgetegid;
  out Stdout (text ++ str "eUID = " ++ dec (rv u) ++ str "; eGID=" ++ dec (rv g) ++ str ";  ");;
  caps ← sys (Cextern "cap_get_proc" [] []);
  if rv caps =? -1 then errExit (str "cap_get_proc") else
  s ← sys (Cextern "cap_to_text" [rv caps] []);
  if rv s =? -1 then errExit (str "cap_to_text") else
  out Stdout (str "capabilities: " ++ rdata s ++ [NL]);;
  cap_free (rv caps);;
  cap_free (rv s);;
  mret tt.

(** Commas become newlines (in the caller's string). *)
Definition map_records (mapping : cstr) : cstr := (λ c, if decide (c = ","%char) then NL else c) <$> mapping.

Definition O_RDWR : Z := 2.

Definition update_map (mapping map_file : cstr) : M S Z :=
  let mapping := map_records mapping in
  f ← sys (Copen map_file O_RDWR 0);
  if rv f =? -1 then
    e ← get_errno;
    out Stderr (str "ERROR: open " ++ map_file ++ str ": " ++ strerror e ++ [NL]);; mret (-1)
  else
    w ← sys (Cwrite (rv f) mapping);
    status ← (if negb (rv w =? strlen mapping) then
                e ← get_errno;
                out Stderr (str "ERROR: writing to " ++ map_file ++ str ": " ++ strerror e ++ [NL]);; mret (-1)
              else mret 0);
    sys (Cclose (rv f));;
    mret status.

Definition proc_path (pid : Z) (file : cstr) : cstr := str "/proc/" ++ dec pid ++ str "/" ++ file.

Definition proc_setgroups_write (child_pid : Z) (text : cstr) : M S Z :=
  let setgroups_path := proc_path child_pid (str "setgroups") in
  f ← sys (Copen setgroups_path O_RDWR 0);
  if rv f =? -1 then
    e ← get_errno;
    if e =? ENOENT then mret 0 else
    out Stderr (str "ERROR: open " ++ setgroups_path ++ str ": " ++ strerror e ++ [NL]);; mret (-1)
  else
    w ← sys (Cwrite (rv f) text);
    status ← (if rv w =? -1 then
                e ← get_errno;
                out Stderr (str "ERROR: writing to " ++ setgroups_path ++ str ": " ++ strerror e ++ [NL]);; mret (-1)
              else mret 0);
    sys (Cclose (rv f));;
    mret status.
End Caps.

(** ** userns_child_exec.c *)

Record cmd_options := CmdOptions {
  argv : list cstr;
  flags : Z;
  create_root_mappings : bool;
  deny_setgroups : bool;
  verbose : bool;
  uid_map : option cstr;
  gid_map : option cstr;
  opt_list : list (ascii * option cstr) }.       (* the first opt_cnt entries *)

Definition MAX_OPT : Z := 100.

Definition CLONE_NEWNS : Z := 0x00020000.
Definition CLONE_NEWCGROUP : Z := 0x02000000.
Definition CLONE_NEWUTS : Z := 0x04000000.
Definition CLONE_NEWIPC : Z := 0x08000000.
Definition CLONE_NEWUSER : Z := 0x10000000.
Definition CLONE_NEWPID : Z := 0x20000000.
Definition CLONE_NEWNET : Z := 0x40000000.

Definition usage_text (pname : cstr) : list cstr :=
  let fpe l := str "    " ++ l in
  let nl (s : string) := str s ++ [NL] in
  [str "Usage: " ++ pname ++ str " [options] cmd [arg...]" ++ [NL; NL];
   nl "Create a child process that executes a shell command in (typically) a new user" ++
   nl "namespace, and possibly also other new namespaces." ++ [NL];
   str "Options can be:" ++ [NL; NL];
   fpe (nl "-C          New cgroup namespace");
   fpe (nl "-i          New IPC namespace");
   fpe (nl "-m          New mount namespace");
   fpe (nl "-n          New network namespace");
   fpe (nl "-p          New PID namespace");
   fpe (nl "-u          New UTS namespace");
   fpe (nl "-U          New user namespace");
   fpe (nl "-M uid_map  Specify UID map for user namespace");
   fpe (nl "-G gid_map  Specify GID map for user namespace");
   fpe (str "-D          Do not write " ++ [DQ] ++ str "deny" ++ [DQ] ++ nl " to /proc/PID/setgroups before");
   fpe (nl "            updating GID map");
   fpe (nl "-r          Create 'root' mappings: map user's UID and GID to 0 in user");
   fpe (nl "            namespace (equivalent to: -M '0 <uid> 1' -G '0 <gid> 1')");
   fpe (str "-v          Display verbose messages" ++ [NL; NL]);
   fpe (str "If -r, -M, or -G is specified, -U is required." ++ [NL; NL]);
   fpe (nl "It is not permitted to specify both -r and either -M or -G.");
   fpe [NL];
   fpe (nl "Map strings for -M and -G consist of records of the form:");
   fpe [NL];
   fpe (nl "    ID-inside-ns   ID-outside-ns   len");
   fpe [NL];
   fpe (nl "A map string can contain multiple records, separated by commas;");
   fpe (nl "the commas are replaced by newlines before writing to map files.");
   [NL] ++ nl "The following additional options (primarily useful when experimenting with" ++
   nl "user namespaces) are repeatable: they can appear multiple times and are" ++
   nl "performed in the child in the order that they are specified, just before" ++
   nl "'cmd' is execed:" ++ [NL];
   fpe (nl "-I          Push all possible capabilities into inheritable set");
   fpe (nl "-A          Push all possible capabilities into inheritable and");
   fpe (nl "            ambient sets");
   fpe (nl "-s <uid>    Set all process UIDs to <uid>");
   fpe (nl "-S r,e,s    Set real/effective/saved-set UIDs");
   fpe (nl "-b <bits>   Set securebits flags; 'bits' can be '0' to clear the flags");
   fpe (nl "            or one or more of:");
   fpe (nl "                'a' - NO_CAP_AMBIENT_RAISE");
   fpe (nl "                'A' - NO_CAP_AMBIENT_RAISE_LOCKED");
   fpe (nl "                'k' - KEEP_CAPS");
   fpe (nl "                'K' - KEEP_CAPS_LOCKED");
   fpe (nl "                'r' - NOROOT");
   fpe (nl "                'R' - NOROOT_LOCKED");
   fpe (nl "                's' - NO_SETUID_FIXUP");
   fpe (nl "                'S' - NO_SETUID_FIXUP_LOCKED");
   fpe (nl "-d          Display process credentials and capabilities");
   fpe (nl "-w <nsecs>  Wait (sleep) for <nsecs> seconds");
   fpe (nl "-x <caps>   Set process capabilities; <caps> as per cap_from_text(3)");
   fpe (nl "-X [peiba]{+|-}<cap-name>");
   fpe (nl "            Modify one or more process sets by adding or removing");
   fpe (nl "            a capability.");
   fpe (nl "            Each set is modified as an individual operation");
   fpe (nl "            in the order specified before +/-.")].

Section Program.
Context {S : Type} `{os}.

Definition usage {A} (pname : cstr) : M S A :=
  for_each (usage_text pname) (out Stderr);; stop_with (Exit 1).

(** fprintf(stderr, ...), exit(EXIT_FAILURE). *)
Definition complain {A} (text : cstr) : M S A := out Stderr (text ++ [NL]);; stop_with (Exit 1).

Definition PR_CAP_AMBIENT : Z := 47.
Definition PR_CAP_AMBIENT_RAISE : Z := 2.
Definition PR_CAP_AMBIENT_LOWER : Z := 3.
Definition PR_CAPBSET_DROP : Z := 24.
Definition PR_SET_SECUREBITS : Z := 28.
Definition PR_SET_DUMPABLE : Z := 4.

Definition raiseInheritableAndAmbientCaps (doAmbient : bool) : M S unit :=
  for_each (seqZ 0 (CAP_LAST_CAP + 1)) (λ cap,
    modifyCapSetting CAP_INHERITABLE cap CAP_SET;;
    when doAmbient (sys (Cprctl3 PR_CAP_AMBIENT PR_CAP_AMBIENT_RAISE cap);; mret tt)).

(** The letters before the first '+' or '-', that character, and the name. *)
Fixpoint split_op (s : cstr) : cstr * option (ascii * cstr) :=
  match s with
  | [] => ([], None)
  | c :: s =>
      if decide (c = "+"%char ∨ c = "-"%char) then ([], Some (c, s)) else
      let '(l, r) := split_op s in (c :: l, r)
  end.

Definition modify_set (op : ascii) (name : cstr) (cap : Z) (p : ascii) : M S unit :=
  if decide (p = "p"%char ∨ p = "i"%char ∨ p = "e"%char) then
    let flag := if decide (p = "p"%char) then CAP_PERMITTED else if decide (p = "e"%char) then CAP_EFFECTIVE else CAP_INHERITABLE in
    let capval := if decide (op = "+"%char) then CAP_SET else CAP_CLEAR in
    r ← modifyCapSetting flag cap capval;
    when (r =? -1) (complain (str "-X: modifyCapSetting() failed while " ++
      str (if capval =? CAP_SET then "raising" else "lowering") ++ str " '" ++ name ++ str "' in '" ++ [p] ++ str "'"))
  else if decide (p = "b"%char) then
    if decide (op = "+"%char) then complain (str "Can't add capabilities to the bounding set") else
    r ← sys (Cprctl PR_CAPBSET_DROP cap);
    when (rv r =? -1) (perror_exit (str "-X: PR_CAPBSET_DROP"))
  else if decide (p = "a"%char) then
    r ← sys (Cprctl3 PR_CAP_AMBIENT (if decide (op = "+"%char) then PR_CAP_AMBIENT_RAISE else PR_CAP_AMBIENT_LOWER) cap);
    when (rv r =? -1) (perror_exit (str "-X: PR_CAP_AMBIENT"))
  else complain (str "Bad switch case ('-X'): " ++ [p]).

Definition modify_individual_capability (optval : cstr) : M S unit :=
  let '(sets, op) := split_op optval in
  let bad_cap := bool_decide (Exists (λ c, c ∉ str "peiba") sets) in
  match op with
  | Some (op, (_ :: _) as name) =>
      if bad_cap then complain (str "Badly formed -X option") else
      r ← sys (Cextern "cap_from_name" [] name);
      if rv r =? -1 then complain (str "-X: bad capability name") else
      for_each sets (modify_set op name (wrap_s 32 (le (rdata r))))
  | _ => complain (str "Badly formed -X option")
  end.

(** The bit of a letter of -b. *)
Definition secbit (c : ascii) : option Z :=
  if decide (c = "a"%char) then Some 64 else if decide (c = "A"%char) then Some 128 else
  if decide (c = "k"%char) then Some 16 else if decide (c = "K"%char) then Some 32 else
  if decide (c = "r"%char) then Some 1 else if decide (c = "R"%char) then Some 2 else
  if decide (c = "s"%char) then Some 4 else if decide (c = "S"%char) then Some 8 else None.

Fixpoint secbits_of (secbits : Z) (p : cstr) : Z + ascii :=
  match p with
  | [] => inl secbits
  | c :: p =>
      match secbit c with
      | Some b => secbits_of (Z.lor secbits b) p
      | None => if decide (c = "0"%char) then secbits_of 0 p else inr c
      end
  end.

Definition set_securebits (optval : cstr) : M S unit :=
  match secbits_of 0 optval with
  | inr c => complain (str "Unexpected value for '-b' (securebits flag): " ++ [c])
  | inl secbits =>
      r ← sys (Cprctl PR_SET_SECUREBITS secbits);
      when (rv r =? -1) (perror_exit (str "prctl-PR_SET_SECUREBITS"))
  end.

Definition uid_arg (text : cstr) : Z := wrap_u 32 (atoi text).

Definition set_process_uids (optval : cstr) : M S unit :=
  match '(a, rest) ← strchr ","%char optval; '(b, c) ← strchr ","%char rest; Some (a, b, c) with
  | None => complain (str "Expected three comma-separated UIDs: -S " ++ optval)
  | Some (a, b, c) =>
      r ← sys (Csetresuid (uid_arg a) (uid_arg b) (uid_arg c));
      when (rv r =? -1) (perror_exit (str "-S failed (setresuid)"))
  end.

(** One entry of the list, which counts the displays. *)
Definition perform_option (display_cnt : Z) (o : ascii * option cstr) : M S Z :=
  let '(opt, val) := o in
  let with_val (f : cstr → M S unit) : M S Z :=
    match val with Some v => f v;; mret display_cnt | None => stop_with (Undefined "null pointer") end in
  if decide (opt = "a"%char) then raiseInheritableAndAmbientCaps true;; mret display_cnt
  else if decide (opt = "b"%char) then with_val set_securebits
  else if decide (opt = "d"%char) then
    display_creds_and_caps (snprintf 10 (str "[-d " ++ dec (display_cnt + 1) ++ str "] "));;
    mret (display_cnt + 1)
  else if decide (opt = "h"%char) then raiseInheritableAndAmbientCaps false;; mret display_cnt
  else if decide (opt = "s"%char) then with_val (λ v,
    r ← sys (Csetresuid (uid_arg v) (uid_arg v) (uid_arg v));
    when (rv r =? -1) (perror_exit (str "setresuid")))
  else if decide (opt = "S"%char) then with_val set_process_uids
  else if decide (opt = "w"%char) then with_val (λ v, sys (Csleep (wrap_u 32 (atoi v)));; mret tt)
  else if decide (opt = "x"%char) then with_val (λ v,
    caps ← sys (Cextern "cap_from_text" [] v);
    if rv caps =? -1 then perror_exit (str "-x: cap_from_text") else
    r ← sys (Cextern "cap_set_proc" [rv caps] []);
    if rv r =? -1 then perror_exit (str "-x: cap_set_proc()") else
    cap_free (rv caps);; mret tt)
  else if decide (opt = "X"%char) then with_val modify_individual_capability
  else
    out Stderr (str "Unexpected option (-" ++ [opt] ++ str ") in perform_repeatable_options()" ++ [NL]);;
    mret display_cnt.

Fixpoint perform_options (display_cnt : Z) (l : list (ascii * option cstr)) : M S unit :=
  match l with
  | [] => mret tt
  | o :: l => n ← perform_option display_cnt o; perform_options n l
  end.

Definition perform_repeatable_options (opts : cmd_options) : M S unit := perform_options 0 (opt_list opts).

Definition childFunc {A} (pipe_fd : Z * Z) (opts : cmd_options) : M S A :=
  sys (Cclose pipe_fd.2);;
  r ← sys (Cread pipe_fd.1 1);
  if negb (rv r =? 0) then complain (str "Failure in child: read from pipe returned != 0") else
  sys (Cclose pipe_fd.1);;
  perform_repeatable_options opts;;
  when (verbose opts) (out Stdout (str "About to exec: " ++ default [] (head (argv opts)) ++ [NL]));;
  execvp (argv opts);;
  perror_exit (str "execvp").

Definition root_map (id : Z) : cstr := snprintf 100 (str "0 " ++ dec id ++ str " 1").

(** One of the two maps, if it is wanted. *)
Definition update_one_map (wanted : bool) (before : M S unit) (root : bool) (id : call) (map : option cstr)
    (path msg : cstr) : M S unit :=
  when wanted (
    before;;
    m ← (if root then u ← sys id; mret (root_map (rv u)) else mret (default [] map));
    r ← update_map m path;
    when (r =? -1) (perror_exit msg)).

Definition update_child_maps (opts : cmd_options) (child_pid : Z) : M S unit :=
  let root := create_root_mappings opts in
  update_one_map (bool_decide (is_Some (uid_map opts)) || root) (mret tt) root Cgetuid (uid_map opts)
    (proc_path child_pid (str "uid_map")) (str "update_map: uid_map");;
  update_one_map (bool_decide (is_Some (gid_map opts)) || root)
    (when (deny_setgroups opts) (
      r ← proc_setgroups_write child_pid (str "deny");
      when (r =? -1) (perror_exit (str "proc_setgroups_write"))))
    root Cgetgid (gid_map opts) (proc_path child_pid (str "gid_map")) (str "update_map: gid_map").
End Program.

Section Main.
Context {S : Type} `{os}.

(** "+CimnuUM:G:rDvpAIs:b:S:dx:X:w:" *)
Definition opt_spec (c : ascii) : option bool :=
  if decide (c ∈ str "CimnuUrDvpAId") then Some false
  else if decide (c ∈ str "MGsbSxXw") then Some true
  else None.

Definition no_options : cmd_options := CmdOptions [] 0 false true false None None [].

Definition with_flag (o : cmd_options) (f : Z) : cmd_options :=
  CmdOptions (argv o) (Z.lor (flags o) f) (create_root_mappings o) (deny_setgroups o) (verbose o) (uid_map o) (gid_map o) (opt_list o).

(** The switch on one option. *)
Definition parse_option (prog : cstr) (o : cmd_options) (f : found) : M S cmd_options :=
  let 'CmdOptions av fl root deny verb um gm ol := o in
  match f with
  | Opt opt optarg =>
      if decide (opt = "C"%char) then mret (with_flag o CLONE_NEWCGROUP)
      else if decide (opt = "i"%char) then mret (with_flag o CLONE_NEWIPC)
      else if decide (opt = "m"%char) then mret (with_flag o CLONE_NEWNS)
      else if decide (opt = "n"%char) then mret (with_flag o CLONE_NEWNET)
      else if decide (opt = "p"%char) then mret (with_flag o CLONE_NEWPID)
      else if decide (opt = "u"%char) then mret (with_flag o CLONE_NEWUTS)
      else if decide (opt = "U"%char) then mret (with_flag o CLONE_NEWUSER)
      else if decide (opt = "M"%char) then mret (CmdOptions av fl root deny verb optarg gm ol)
      else if decide (opt = "G"%char) then mret (CmdOptions av fl root deny verb um optarg ol)
      else if decide (opt = "r"%char) then mret (CmdOptions av fl true deny verb um gm ol)
      else if decide (opt = "D"%char) then mret (CmdOptions av fl root false verb um gm ol)
      else if decide (opt = "v"%char) then mret (CmdOptions av fl root deny true um gm ol)
      else if decide (opt ∈ str "IAbsdxXw") then
        if Z.of_nat (length ol) >=? MAX_OPT then
          complain (str "Too many repeatable options (maximum: " ++ dec MAX_OPT ++ str ")")
        else
          let val := if decide (opt ∈ str "sSxXwb") then optarg else None in
          mret (CmdOptions av fl root deny verb um gm (ol ++ [(opt, val)]))
      else usage prog
  | _ => out Stderr (default [] (getopt_complaint prog f));; usage prog
  end.

Fixpoint parse_options (prog : cstr) (o : cmd_options) (fs : list found) : M S cmd_options :=
  match fs with
  | [] => mret o
  | f :: fs => o ← parse_option prog o f; parse_options prog o fs
  end.

(** -M, -G or -r without -U, or -r with -M or -G. *)
Definition nonsensical (o : cmd_options) : bool :=
  let maps := bool_decide (is_Some (uid_map o)) || bool_decide (is_Some (gid_map o)) in
  ((maps || create_root_mappings o) && negb (tst (flags o) CLONE_NEWUSER)) || (create_root_mappings o && maps).

Definition parse_command_options (prog : cstr) (args : list cstr) : M S cmd_options :=
  let '(fs, rest) := getopt opt_spec args in
  o ← parse_options prog no_options fs;
  if nonsensical o then usage prog else
  match rest with
  | [] => usage prog
  | _ => mret (CmdOptions rest (flags o) (create_root_mappings o) (deny_setgroups o) (verbose o) (uid_map o) (gid_map o) (opt_list o))
  end.

Definition STACK_SIZE : Z := 1024 * 1024.
Definition SIGCHLD : Z := 17.

(** The parent, after clone. *)
Definition userns_parent (prog : cstr) (pipe_fd : Z * Z) (opts : cmd_options) (child_pid : Z) : M S unit :=
  when (verbose opts) (out Stdout (prog ++ str ": PID of child created by clone() is " ++ dec child_pid ++ [NL]));;
  update_child_maps opts child_pid;;
  sys (Cclose (pipe_fd.2));;
  w ← sys (Cwaitpid child_pid 0);
  when (rv w =? -1) (perror_exit (str "waitpid"));;
  when (verbose opts) (out Stdout (prog ++ str ": terminating" ++ [NL]));;
  stop_with (Exit 0).

(** The child starts in childFunc, with a copy of the options. *)
Definition userns_main (prog : cstr) (args : list cstr) : M S unit :=
  opts ← parse_command_options prog args;
  r ← sys (Cprctl PR_SET_DUMPABLE 1);
  if rv r =? -1 then perror_exit (str "prctl-PR_SET_DUMPABLE") else
  p ← sys Cpipe;
  if rv p =? -1 then perror_exit (str "pipe") else
  m ← sys (Cmmap (-1) STACK_SIZE);
  if rv m =? -1 then perror_exit (str "mmap") else
  c ← sys (Cclone (Z.lor (flags opts) SIGCHLD));
  if rv c =? -1 then perror_exit (str "clone") else
  if rv c =? 0 then childFunc (pipe_read p, pipe_write p) opts else
  userns_parent prog (pipe_read p, pipe_write p) opts (rv c).
End Main.

(** ** The command line *)

(** Options that are kept for the child, and those that keep an argument. *)
Definition repeatable (c : ascii) : Prop := c ∈ str "IAbsdxXw".
Definition keeps_arg (c : ascii) : Prop := c ∈ str "sSxXwb".

Definition entry_ok (e : ascii * option cstr) : Prop := repeatable e.1 ∧ (keeps_arg e.1 ↔ is_Some e.2).

Definition options_ok (o : cmd_options) : Prop :=
  Z.of_nat (length (opt_list o)) <= MAX_OPT ∧ Forall entry_ok (opt_list o).

(** What was parsed makes sense: maps are for a new user namespace, from one
    source; there is a command; the list of repeatable options is within its
    array and its entries have the arguments the child will look at. *)
Definition sound_options (args : list cstr) (o : cmd_options) : Prop :=
  options_ok o ∧ argv o ≠ [] ∧ argv o `suffix_of` args ∧
  (is_Some (uid_map o) ∨ is_Some (gid_map o) ∨ create_root_mappings o = true → tst (flags o) CLONE_NEWUSER = true) ∧
  (create_root_mappings o = true → uid_map o = None ∧ gid_map o = None).

(** A command line, one option to a word. *)
Definition ns_flags : list (ascii * Z) :=
  [("C"%char, CLONE_NEWCGROUP); ("i"%char, CLONE_NEWIPC); ("m"%char, CLONE_NEWNS); ("n"%char, CLONE_NEWNET);
   ("p"%char, CLONE_NEWPID); ("u"%char, CLONE_NEWUTS); ("U"%char, CLONE_NEWUSER)].

Definition option_words (c : ascii) (arg : option cstr) : list cstr :=
  match arg with Some a => [["-"%char; c]; a] | None => [["-"%char; c]] end.

Definition setting_words (c : ascii) (b : bool) : list (ascii * option cstr) := if b then [(c, None)] else [].
Definition map_words (c : ascii) (m : option cstr) : list (ascii * option cstr) :=
  match m with Some a => [(c, Some a)] | None => [] end.

(** The options that ask for [o], its flags being those of the letters [ns]. *)
Definition options_for (ns : list (ascii * Z)) (o : cmd_options) : list (ascii * option cstr) :=
  ((λ x, (x.1, None)) <$> ns) ++ setting_words "r" (create_root_mappings o) ++ setting_words "D" (negb (deny_setgroups o)) ++
  setting_words "v" (verbose o) ++ map_words "M" (uid_map o) ++ map_words "G" (gid_map o) ++ opt_list o.

Definition command_line (ns : list (ascii * Z)) (o : cmd_options) : list cstr :=
  concat ((λ x, option_words x.1 x.2) <$> options_for ns o) ++ str "--" :: argv o.

Section ParseSpecs.
Context {S : Type} `{os}.
Implicit Types s : st S.

Lemma entry_repeatable c : repeatable c → c ∉ str "CimnpuUMGrDv".
Proof using. unfold repeatable. rewrite !list_elem_of_In. cbn. intros Hc Hn. intuition congruence. Qed.

Lemma wp_usage {A} prog (Q : A → st S → Prop) (E : stop → st S → Prop) s0 s :
  acted s0 [] s → (∀ s', acted s0 [] s' → E (Exit 1) s') → wp (usage prog) Q E s.
Proof using.
  intros Ha HE. unfold usage. apply wp_bind.
  eapply wp_mono; [apply (wp_for_each (λ _ s', acted s0 [] s') _ _ E); [exact Ha|]| |done].
  - intros done a todo s1 _ Ha1. apply wp_emit. eapply acted_same; [exact Ha1| |reflexivity]. cbn [trace]. apply acts_out.
  - intros ? s' Ha'. by apply wp_stop, HE.
Qed.

Lemma wp_complain {A} text (Q : A → st S → Prop) (E : stop → st S → Prop) s0 l s :
  acted s0 l s → (∀ s', acted s0 l s' → E (Exit 1) s') → wp (complain text) Q E s.
Proof using.
  intros Ha HE. unfold complain. apply wp_bind, wp_emit, wp_stop, HE. eapply acted_same; [exact Ha| |done].
  cbn [trace]. apply acts_out.
Qed.

(** The switch on an option with its right argument. *)
Lemma wp_parse_option prog o f s0 s :
  acted s0 [] s → found_ok opt_spec f → options_ok o →
  wp (parse_option prog o f) (λ o' s', options_ok o' ∧ acted s0 [] s') (λ t s', t = Exit 1 ∧ acted s0 [] s') s.
Proof using.
  intros Ha Hf [Hlen Hent]. destruct o as [av fl root deny verb um gm ol]. cbn in Hlen, Hent.
  destruct f as [c a|c|c].
  - unfold parse_option.
    repeat (case_decide; [apply wp_ret; split; [split; [done|done]|done]|]).
    destruct (decide (c ∈ str "IAbsdxXw")) as [Hr|]; [|by eapply wp_usage].
    destruct (Z.geb_spec (Z.of_nat (length ol)) MAX_OPT) as [|Hlt]; [by eapply wp_complain|].
    apply wp_ret. split; [|done]. split; cbn.
    + rewrite length_app. cbn. lia.
    + apply Forall_app. split; [done|]. apply Forall_cons_2; [|by apply Forall_nil_2].
      split; [exact Hr|]. cbn. unfold keeps_arg. case_decide as Hk.
      * split; [|done]. intros _. cbn in Hf. apply (bool_decide_eq_true_1 (is_Some a)).
        assert (opt_spec c = Some true) as E.
        { clear -Hk. apply list_elem_of_In in Hk. cbn in Hk. by destruct Hk as [<-|[<-|[<-|[<-|[<-|[<-|[]]]]]]]. }
        congruence.
      * split; [done|]. by intros [? ?].
  - cbn [parse_option]. apply wp_bind, wp_emit. eapply wp_usage; [|done]. eapply acted_same; [exact Ha| |done]. cbn [trace]. apply acts_out.
  - cbn [parse_option]. apply wp_bind, wp_emit. eapply wp_usage; [|done]. eapply acted_same; [exact Ha| |done]. cbn [trace]. apply acts_out.
Qed.

Lemma wp_parse_options prog fs o s0 s :
  acted s0 [] s → Forall (found_ok opt_spec) fs → options_ok o →
  wp (parse_options prog o fs) (λ o' s', options_ok o' ∧ acted s0 [] s') (λ t s', t = Exit 1 ∧ acted s0 [] s') s.
Proof using.
  revert o s. induction fs as [|f fs IH]; intros o s Ha Hf Ho; cbn [parse_options]; [by apply wp_ret|].
  apply Forall_cons in Hf as [Hf Hfs]. apply wp_bind. eapply wp_mono; [by apply wp_parse_option| |done].
  intros o' s' [Ho' Ha']. by apply IH.
Qed.

Lemma wp_parse_command_options prog args s :
  wp (parse_command_options prog args) (λ o s', sound_options args o ∧ acted s [] s')
    (λ t s', t = Exit 1 ∧ acted s [] s') s.
Proof using.
  unfold parse_command_options. destruct (getopt_ok opt_spec args) as [Hfs Hrest].
  destruct (getopt opt_spec args) as [fs rest]. cbn in Hfs, Hrest. apply wp_bind.
  eapply wp_mono; [apply (wp_parse_options _ _ _ s); [apply acted_refl|done|]| |done].
  { split; [done|by apply Forall_nil_2]. }
  intros o s' [Ho Ha]. destruct (nonsensical o) eqn:Hn; [by eapply wp_usage|].
  destruct rest as [|w rest]; [by eapply wp_usage|]. apply wp_ret. split; [|done].
  unfold nonsensical in Hn. apply orb_false_iff in Hn as [H1 H2].
  split; [exact Ho|]. split; [done|]. split; [done|]. cbn. split.
  - intros Hm. destruct (tst (flags o) CLONE_NEWUSER); [done|]. rewrite andb_true_r in H1.
    apply orb_false_iff in H1 as [H1 H3]. apply orb_false_iff in H1 as [H1 H4].
    apply bool_decide_eq_false in H1, H4. destruct Hm as [?|[?|?]]; congruence || done.
  - intros Hr. rewrite Hr in H2. apply orb_false_iff in H2 as [H3 H4]. apply bool_decide_eq_false in H3, H4.
    rewrite eq_None_not_Some, (eq_None_not_Some (gid_map o)). done.
Qed.
End ParseSpecs.


Section ParseRun.
Context {S : Type} `{os}.
Implicit Types s : st S.

Definition opts_of (l : list (ascii * option cstr)) : list found := (λ x, Opt x.1 x.2) <$> l.

Lemma parse_options_app prog o o' fs gs s s' :
  parse_options prog o fs s = (Ret o', s') → parse_options prog o (fs ++ gs) s = parse_options prog o' gs s'.
Proof using.
  revert o s. induction fs as [|f fs IH]; intros o s; cbn [parse_options app].
  - by intros [= -> ->].
  - unfold mbind, M_bind. destruct (parse_option prog o f s) as [[o1|t|] s1]; [apply IH|done|done].
Qed.

Lemma parse_flags prog ns o s :
  (∀ x, x ∈ ns → x ∈ ns_flags) →
  parse_options prog o (opts_of ((λ x, (x.1, None)) <$> ns)) s = (Ret (foldl (λ o x, with_flag o x.2) o ns), s).
Proof using.
  revert o. induction ns as [|[c fl] ns IH]; intros o Hns; [done|]. cbn [fmap list_fmap opts_of parse_options foldl fst snd].
  assert (parse_option prog o (Opt c None) s = (Ret (with_flag o fl), s)) as E.
  { specialize (Hns (c, fl) (list_elem_of_here _ _)). destruct o. apply list_elem_of_In in Hns.
    cbn in Hns. by repeat destruct Hns as [[= <- <-]|Hns]. }
  rewrite (bind_Ret _ _ _ _ _ E). apply IH. intros x Hx. apply Hns. by apply list_elem_of_further.
Qed.

Lemma parse_entries prog l av fl root deny verb um gm ol s :
  Forall entry_ok l → Z.of_nat (length ol + length l) <= MAX_OPT →
  parse_options prog (CmdOptions av fl root deny verb um gm ol) (opts_of l) s =
    (Ret (CmdOptions av fl root deny verb um gm (ol ++ l)), s).
Proof using.
  revert ol. induction l as [|[c a] l IH]; intros ol Hl Hlen; [by rewrite app_nil_r|].
  apply Forall_cons in Hl as [[Hr Hk] Hl]. cbn [fmap list_fmap opts_of parse_options fst snd length] in *.
  assert (parse_option prog (CmdOptions av fl root deny verb um gm ol) (Opt c a) s =
    (Ret (CmdOptions av fl root deny verb um gm (ol ++ [(c, a)])), s)) as E.
  { assert ((Z.of_nat (length ol) >=? MAX_OPT) = false) as Hmax by lia.
    unfold repeatable, keeps_arg in *. apply list_elem_of_In in Hr. cbn in Hr.
    assert (∀ b : bool, bool_decide (c ∈ str "sSxXwb") = b → (if b then True else a = None)) as Ha.
    { intros [] Hb; [done|]. apply bool_decide_eq_false in Hb. apply eq_None_not_Some. by rewrite <-Hk. }
    repeat destruct Hr as [<-|Hr]; try done; specialize (Ha _ eq_refl); vm_compute in Ha;
      unfold parse_option; rewrite Hmax; try (rewrite Ha); reflexivity. }
  rewrite (bind_Ret _ _ _ _ _ E), IH; [by rewrite <-app_assoc|done|]. rewrite length_app. cbn. lia.
Qed.
End ParseRun.

(** Options written as words are found again. *)
Lemma getopt_option_words l tl :
  Forall (λ x, opt_spec x.1 = Some (bool_decide (is_Some x.2)) ∧ x.1 ≠ "-"%char) l →
  getopt opt_spec (concat ((λ x, option_words x.1 x.2) <$> l) ++ tl) =
    (opts_of l ++ (getopt opt_spec tl).1, (getopt opt_spec tl).2).
Proof.
  induction 1 as [|[c [a|]] l [Hc Hd] _ IH]; cbn [fmap list_fmap concat app fst snd option_words opts_of] in *;
    [by destruct (getopt _ tl)| |].
  - rewrite getopt_with by done. by rewrite IH.
  - rewrite getopt_flag by done. by rewrite IH.
Qed.

Lemma options_for_ok ns o : (∀ x, x ∈ ns → x ∈ ns_flags) → options_ok o →
  Forall (λ x, opt_spec x.1 = Some (bool_decide (is_Some x.2)) ∧ x.1 ≠ "-"%char) (options_for ns o).
Proof.
  intros Hns [_ Hent]. unfold options_for. repeat apply Forall_app_2.
  - apply Forall_fmap, Forall_forall. intros [c f] Hx. specialize (Hns _ Hx). cbn.
    apply list_elem_of_In in Hns. cbn in Hns. by repeat destruct Hns as [[= <- <-]|Hns].
  - destruct (create_root_mappings o); [by apply Forall_cons_2; [|apply Forall_nil_2]|by apply Forall_nil_2].
  - destruct (deny_setgroups o); [by apply Forall_nil_2|by apply Forall_cons_2; [|apply Forall_nil_2]].
  - destruct (verbose o); [by apply Forall_cons_2; [|apply Forall_nil_2]|by apply Forall_nil_2].
  - destruct (uid_map o); [by apply Forall_cons_2; [|apply Forall_nil_2]|by apply Forall_nil_2].
  - destruct (gid_map o); [by apply Forall_cons_2; [|apply Forall_nil_2]|by apply Forall_nil_2].
  - eapply Forall_impl; [exact Hent|]. intros [c a] [Hr Hk]. cbn in *. unfold repeatable, keeps_arg in *.
    rewrite <-(bool_decide_ext _ _ Hk). clear Hk.
    apply list_elem_of_In in Hr. cbn in Hr. by repeat destruct Hr as [<-|Hr].
Qed.


(** ** The parent and the child *)

(** The file [path] was opened and [text] written to it, whole. *)
Definition wrote (l : list (call * reply)) (path text : cstr) : Prop :=
  ∃ a f w b, l = a ++ [(Copen path O_RDWR 0, f); (Cwrite (rv f) text, w)] ++ b ∧ rv f ≠ -1 ∧ rv w = strlen text.

(** "deny" was written, or there is no such file. *)
Definition setgroups_denied (pid : Z) (l : list (call * reply)) : Prop :=
  ∃ f, (Copen (proc_path pid (str "setgroups")) O_RDWR 0, f) ∈ l ∧
    (rv f = -1 ∧ rerr f = ENOENT ∨ ∃ w, (Cwrite (rv f) (str "deny"), w) ∈ l ∧ rv w ≠ -1).

(** The text of a map: given, or for root, from the ID a call replied. *)
Definition map_text (root : bool) (id : call) (map : option cstr) (l : list (call * reply)) (text : cstr) : Prop :=
  if root then ∃ u, (id, u) ∈ l ∧ text = map_records (root_map (rv u)) else text = map_records (default [] map).

Definition wants (o : cmd_options) (map : option cstr) : bool := bool_decide (is_Some map) || create_root_mappings o.

(** What update_child_maps is for. *)
Definition maps_written (o : cmd_options) (pid : Z) (l : list (call * reply)) : Prop :=
  (wants o (uid_map o) = true → ∃ text, wrote l (proc_path pid (str "uid_map")) text ∧
     map_text (create_root_mappings o) Cgetuid (uid_map o) l text) ∧
  (wants o (gid_map o) = true → ∃ l1 l2 text, l = l1 ++ l2 ∧
     (deny_setgroups o = true → setgroups_denied pid l1) ∧ wrote l2 (proc_path pid (str "gid_map")) text ∧
     map_text (create_root_mappings o) Cgetgid (gid_map o) l text).

Lemma wrote_app l k path text : wrote l path text → wrote (l ++ k) path text.
Proof. intros (a & f & w & b & -> & H). exists a, f, w, (b ++ k). by rewrite <-!app_assoc. Qed.

Lemma wrote_after k l path text : wrote l path text → wrote (k ++ l) path text.
Proof. intros (a & f & w & b & -> & H). exists (k ++ a), f, w, b. by rewrite <-!app_assoc. Qed.

Lemma map_text_more root id map l k text : l ⊆ k → map_text root id map l text → map_text root id map k text.
Proof. unfold map_text. intros Hs. destruct root; [|done]. intros (u & Hu & ->). exists u. split; [by apply Hs|done]. Qed.

Lemma maps_written_more o pid l k : maps_written o pid l → maps_written o pid (l ++ k).
Proof.
  intros [Hu Hg]. assert (l ⊆ l ++ k) as Hs by (intros x; rewrite elem_of_app; by left). split.
  - intros Hw. destruct (Hu Hw) as (text & H1 & H2). exists text. split; [by apply wrote_app|by eapply map_text_more].
  - intros Hw. destruct (Hg Hw) as (l1 & l2 & text & -> & Hd & H1 & H2). exists l1, (l2 ++ k), text.
    split; [by rewrite app_assoc|]. split; [done|]. split; [by apply wrote_app|by eapply map_text_more].
Qed.

Section ParentSpecs.
Context {S : Type} `{os}.
Context (wr : Z) (Hwr : ∀ tr path fl m, rv (kern tr (Copen path fl m)) ≠ wr).
Implicit Types s : st S.

(** The calls keep off the pipe. *)
Definition off_pipe (l : list (call * reply)) : Prop := Forall (λ x, x.1 ≠ Cclose wr) l.

Lemma off_pipe_app a b : off_pipe a → off_pipe b → off_pipe (a ++ b).
Proof using. intros Ha Hb. by apply Forall_app. Qed.

Lemma off_pipe_snoc l c r : off_pipe l → c ≠ Cclose wr → off_pipe (l ++ [(c, r)]).
Proof using. intros Hl Hc. apply off_pipe_app; [done|]. apply Forall_cons_2; [done|by apply Forall_nil_2]. Qed.

(** Histories that keep off the pipe, growing by a call or by output. *)
Definition quietly s (l : list (call * reply)) s' : Prop := acted s l s' ∧ off_pipe l.

Lemma quietly_refl s : quietly s [] s.
Proof using. split; [apply acted_refl|by apply Forall_nil_2]. Qed.

Lemma quietly_out s l s1 f t : quietly s l s1 → quietly s l (St (glob s1) (errno s1) (trace s1 ++ [Eout f t])).
Proof using. intros [Ha Hl]. split; [|done]. eapply acted_same; [exact Ha| |done]. apply acts_out. Qed.

Lemma quietly_trans s s1 s2 a b : quietly s a s1 → quietly s1 b s2 → quietly s (a ++ b) s2.
Proof using. intros [[H1 G1] O1] [[H2 G2] O2]. split; [split; [by rewrite H2, H1, app_assoc|congruence]|by apply off_pipe_app]. Qed.

Lemma wp_quietly c s l s1 (Q : reply → st S → Prop) E :
  quietly s l s1 → (∀ f, c ≠ Cfflush f) → c ≠ Cclose wr →
  (∀ r s2, r = kern (trace s1) c → quietly s (l ++ [(c, r)]) s2 → (rv r = -1 → errno s2 = rerr r) → Q r s2) → wp (sys c) Q E s1.
Proof using.
  intros [Ha Hl] Hf Hc HQ. apply wp_call. intros r s2 Hr Hg He _ Ht. apply HQ; [done| |done].
  split; [by eapply acted_call|by apply off_pipe_snoc].
Qed.

Lemma wp_quietly_perror {A} msg s l s1 (Q : A → st S → Prop) (E : stop → st S → Prop) :
  quietly s l s1 → (∀ s2, quietly s l s2 → E (Exit 1) s2) → wp (perror_exit msg) Q E s1.
Proof using.
  intros Hl HE. unfold perror_exit, perror. apply wp_bind, wp_bind, wp_get_errno, wp_emit, wp_stop, HE. by apply quietly_out.
Qed.

Lemma wp_update_map m path s :
  wp (update_map m path) (λ r s', ∃ l, quietly s l s' ∧ (r = 0 ∧ wrote l path (map_records m) ∨ r = -1)) (λ _ _, False) s.
Proof using Hwr.
  unfold update_map. apply wp_bind. eapply wp_quietly; [apply quietly_refl|done|done|]. intros f s1 Hf Hl1 _. cbn [app] in Hl1.
  destruct (Z.eqb_spec (rv f) (-1)) as [E|E].
  { apply wp_bind, wp_get_errno, wp_bind, wp_emit, wp_ret. eexists. split; [by apply quietly_out|by right]. }
  apply wp_bind. eapply wp_quietly; [exact Hl1|done|done|]. intros w s2 _ Hl2 _. cbn [app] in Hl2. apply wp_bind.
  eapply (wp_mono _ (λ st s', quietly s [(Copen path O_RDWR 0, f); (Cwrite (rv f) (map_records m), w)] s' ∧
    (st = 0 ∧ rv w = strlen (map_records m) ∨ st = -1)) _ (λ _ _, False)); [| |done].
  { destruct (Z.eqb_spec (rv w) (strlen (map_records m))); cbn [negb]; [apply wp_ret; split; [done|by left]|].
    apply wp_bind, wp_get_errno, wp_bind, wp_emit, wp_ret. split; [by apply quietly_out|by right]. }
  intros st s3 [Hl3 Hst]. apply wp_bind. eapply wp_quietly; [exact Hl3|done| |].
  { intros [= E']. rewrite Hf in E'. by apply Hwr in E'. }
  intros k s4 _ Hl4 _. apply wp_ret. eexists. split; [exact Hl4|].
  destruct Hst as [[-> Hw]| ->]; [left|by right]. split; [done|]. by exists [], f, w, [(Cclose (rv f), k)].
Qed.

Lemma wp_deny pid s :
  wp (proc_setgroups_write pid (str "deny"))
    (λ r s', ∃ l, quietly s l s' ∧ (r = 0 ∧ setgroups_denied pid l ∨ r = -1)) (λ _ _, False) s.
Proof using Hwr.
  unfold proc_setgroups_write. apply wp_bind. eapply wp_quietly; [apply quietly_refl|done|done|]. intros f s1 Hf Hl1 He. cbn [app] in Hl1.
  destruct (Z.eqb_spec (rv f) (-1)) as [E|E].
  { apply wp_bind, wp_get_errno. rewrite (He E). destruct (Z.eqb_spec (rerr f) ENOENT).
    - apply wp_ret. eexists. split; [exact Hl1|]. left. split; [done|]. exists f. split; [by apply list_elem_of_here|by left].
    - apply wp_bind, wp_emit, wp_ret. eexists. split; [by apply quietly_out|by right]. }
  apply wp_bind. eapply wp_quietly; [exact Hl1|done|done|]. intros w s2 _ Hl2 _. cbn [app] in Hl2. apply wp_bind.
  eapply (wp_mono _ (λ st s', quietly s [(Copen (proc_path pid (str "setgroups")) O_RDWR 0, f); (Cwrite (rv f) (str "deny"), w)] s' ∧
    (st = 0 ∧ rv w ≠ -1 ∨ st = -1)) _ (λ _ _, False)); [| |done].
  { destruct (Z.eqb_spec (rv w) (-1)); [|apply wp_ret; split; [done|by left]].
    apply wp_bind, wp_get_errno, wp_bind, wp_emit, wp_ret. split; [by apply quietly_out|by right]. }
  intros st s3 [Hl3 Hst]. apply wp_bind. eapply wp_quietly; [exact Hl3|done| |].
  { intros [= E']. rewrite Hf in E'. by apply Hwr in E'. }
  intros k s4 _ Hl4 _. apply wp_ret. eexists. split; [exact Hl4|].
  destruct Hst as [[-> Hw]| ->]; [left|by right]. split; [done|]. exists f. split; [by apply list_elem_of_here|].
  right. exists w. split; [by apply list_elem_of_further, list_elem_of_here|done].
Qed.
(** One map; [P] is what is done before it. *)
Lemma wp_update_one_map (P : list (call * reply) → Prop) wanted before root id map path msg s :
  (∀ f, id ≠ Cfflush f) → id ≠ Cclose wr →
  (∀ s1, wp before (λ _ s', ∃ l, quietly s1 l s' ∧ P l) (λ t s', t = Exit 1 ∧ ∃ l, quietly s1 l s') s1) →
  wp (update_one_map wanted before root id map path msg)
    (λ _ s', ∃ l, quietly s l s' ∧
       (wanted = true → ∃ l1 l2 text, l = l1 ++ l2 ∧ P l1 ∧ wrote l2 path text ∧ map_text root id map l text))
    (λ t s', t = Exit 1 ∧ ∃ l, quietly s l s') s.
Proof using Hwr.
  intros Hid Hidwr Hb. unfold update_one_map. destruct wanted; cbn [when].
  2: { apply wp_ret. exists []. split; [apply quietly_refl|done]. }
  apply wp_bind. eapply wp_mono; [apply Hb| |done]. intros _ s1 (l1 & Hl1 & HP). apply wp_bind.
  eapply (wp_mono _ (λ m s', ∃ l2, quietly s (l1 ++ l2) s' ∧ map_text root id map (l1 ++ l2) (map_records m)) _ (λ _ _, False)); [| |done].
  { destruct root.
    - apply wp_bind. eapply wp_quietly; [exact Hl1|done|done|]. intros u s2 _ Hl2 _. apply wp_ret.
      exists [(id, u)]. split; [done|]. exists u. split; [|done]. apply elem_of_app. right. by apply list_elem_of_here.
    - apply wp_ret. exists []. rewrite app_nil_r. by split. }
  intros m s2 (l2 & Hl2 & Hm). apply wp_bind. eapply wp_mono; [apply wp_update_map| |done].
  intros r s3 (l3 & Hl3 & Hr). pose proof (quietly_trans _ _ _ _ _ Hl2 Hl3) as Hl.
  destruct Hr as [[-> Hr]| ->]; cbn [Z.eqb when].
  - apply wp_ret. eexists. split; [exact Hl|]. intros _. exists l1, (l2 ++ l3), (map_records m).
    split; [by rewrite app_assoc|]. split; [done|]. split; [by apply wrote_after|].
    eapply map_text_more; [|exact Hm]. intros x Hx. apply elem_of_app. by left.
  - eapply wp_quietly_perror; [exact Hl|]. intros s4 Hl4. split; [done|]. by eexists.
Qed.

Lemma wp_update_child_maps o pid s :
  wp (update_child_maps o pid) (λ _ s', ∃ l, quietly s l s' ∧ maps_written o pid l)
    (λ t s', t = Exit 1 ∧ ∃ l, quietly s l s') s.
Proof using Hwr.
  unfold update_child_maps. apply wp_bind. eapply wp_mono; [apply (wp_update_one_map (λ _, True)); [done|done|]| |done].
  { intros s1. apply wp_ret. exists []. split; [apply quietly_refl|done]. }
  intros _ s1 (l1 & Hl1 & Hu).
  eapply wp_mono; [apply (wp_update_one_map (λ l, deny_setgroups o = true → setgroups_denied pid l)); [done|done|]| |].
  - intros s2. destruct (deny_setgroups o); cbn [when].
    + apply wp_bind. eapply wp_mono; [apply wp_deny| |done]. intros r s3 (l & Hl & [[-> Hd]| ->]); cbn [Z.eqb when].
      * apply wp_ret. by exists l.
      * eapply wp_quietly_perror; [exact Hl|]. intros s4 Hl4. split; [done|]. by eexists.
    + apply wp_ret. exists []. split; [apply quietly_refl|done].
  - intros _ s2 (l2 & Hl2 & Hg). exists (l1 ++ l2). split; [by eapply quietly_trans|]. split.
    + intros Hw. destruct (Hu Hw) as (a & b & text & -> & _ & H1 & H2). exists text. split; [by apply wrote_app, wrote_after|].
      eapply map_text_more; [|exact H2]. intros x Hx. apply elem_of_app. by left.
    + intros Hw. destruct (Hg Hw) as (a & b & text & -> & Hd & H1 & H2). exists (l1 ++ a), b, text.
      split; [by rewrite app_assoc|]. split; [|split; [done|]].
      * intros Hdeny. destruct (Hd Hdeny) as (f & Hf & Hw'). exists f. split; [apply elem_of_app; by right|].
        destruct Hw' as [?|(w & Hw' & ?)]; [by left|]. right. exists w. split; [apply elem_of_app; by right|done].
      * eapply map_text_more; [|exact H2]. intros x Hx. apply elem_of_app. by right.
  - intros t s2 (-> & l2 & Hl2). split; [done|]. eexists. by eapply quietly_trans.
Qed.

(** The parent writes the maps, then closes the pipe; or it fails, the pipe
    still open. *)
Definition parent_calls_ok (o : cmd_options) (pid : Z) (l : list (call * reply)) (t : stop) : Prop :=
  (t = Exit 1 ∧ off_pipe l) ∨
  ∃ l1 k w, l = l1 ++ [(Cclose wr, k); (Cwaitpid pid 0, w)] ∧ off_pipe l1 ∧ maps_written o pid l1 ∧
    t = if rv w =? -1 then Exit 1 else Exit 0.

Lemma wp_userns_parent prog rd o pid s :
  wp (userns_parent prog (rd, wr) o pid) (λ _ _, False)
    (λ t s', ∃ l, acted s l s' ∧ parent_calls_ok o pid l t) s.
Proof using Hwr.
  unfold userns_parent. apply wp_bind.
  eapply (wp_mono _ (λ _ s', quietly s [] s') _ (λ _ _, False)); [| |done].
  { destruct (verbose o); [apply wp_emit, quietly_out, quietly_refl|apply wp_ret, quietly_refl]. }
  intros _ s1 Hl1. apply wp_bind. eapply wp_mono; [apply wp_update_child_maps| |].
  2: { intros t s2 (-> & l & Hl). pose proof (quietly_trans _ _ _ _ _ Hl1 Hl) as [Ha Ho]. eexists. split; [exact Ha|]. by left. }
  intros _ s2 (l & Hl & Hm). pose proof (quietly_trans _ _ _ _ _ Hl1 Hl) as [Ha Ho]. cbn [app snd] in *.
  apply wp_bind, wp_call. intros k s3 _ Hg3 _ _ Ht3. pose proof (acted_call _ _ _ _ _ _ Ha Ht3 Hg3 ltac:(done)) as Ha3.
  apply wp_bind, wp_call. intros w s4 _ Hg4 _ _ Ht4. pose proof (acted_call _ _ _ _ _ _ Ha3 Ht4 Hg4 ltac:(done)) as Ha4.
  rewrite <-app_assoc in Ha4. cbn [app] in Ha4. apply wp_bind. destruct (rv w =? -1) eqn:Ew; cbn [when].
  - unfold perror_exit, perror. apply wp_bind, wp_bind, wp_get_errno, wp_emit, wp_stop. eexists. split.
    { eapply acted_same; [exact Ha4| |done]. apply acts_out. }
    right. exists l, k, w. by rewrite Ew.
  - apply wp_ret, wp_bind. eapply (wp_mono _ (λ _ s', acted s (l ++ [(Cclose wr, k); (Cwaitpid pid 0, w)]) s') _ (λ _ _, False)); [| |done].
    { destruct (verbose o); [apply wp_emit; eapply acted_same; [exact Ha4| |done]; apply acts_out|by apply wp_ret]. }
    intros _ s5 Ha5. apply wp_stop. eexists. split; [exact Ha5|]. right. exists l, k, w. by rewrite Ew.
Qed.
End ParentSpecs.

Section ChildSpecs.
Context {S : Type} `{os}.
Implicit Types s : st S.

(** A part of the program that always ends. *)
Definition ends {A} (m : M S A) : Prop :=
  ∀ s, wp m (λ _ s', ∃ l, acted s l s') (λ _ s', ∃ l, acted s l s') s.

Lemma ends_ret {A} (a : A) : ends (mret a).
Proof using. intros s. apply wp_ret. exists []. apply acted_refl. Qed.
Lemma ends_stop {A} t : ends (stop_with t : M S A).
Proof using. intros s. apply wp_stop. exists []. apply acted_refl. Qed.
Lemma ends_out f t : ends (out f t).
Proof using. intros s. apply wp_emit. exists []. eapply acted_same; [apply acted_refl| |done]. apply acts_out. Qed.
Lemma ends_get_errno : ends get_errno.
Proof using. intros s. apply wp_get_errno. exists []. apply acted_refl. Qed.
Lemma ends_set_errno e : ends (set_errno e).
Proof using. intros s. apply wp_set_errno. exists []. by eapply acted_same; [apply acted_refl|..]. Qed.
Lemma ends_sys c : (∀ f, c ≠ Cfflush f) → ends (sys c).
Proof using.
  intros Hc s. apply wp_call. intros r s1 _ Hg _ _ Ht. eexists. by eapply acted_call; [apply acted_refl|..].
Qed.
Lemma ends_bind {A B} (m : M S A) (f : A → M S B) : ends m → (∀ a, ends (f a)) → ends (m ≫= f).
Proof using.
  intros Hm Hf s. apply wp_bind. eapply wp_mono; [apply Hm| |done]. intros a s1 [l [H1 G1]].
  eapply wp_mono; [apply Hf|..]; intros ? s2 [l2 [H2 G2]]; exists (l ++ l2); (split; [by rewrite H2, H1, app_assoc|congruence]).
Qed.
Lemma ends_when b (m : M S unit) : ends m → ends (when b m).
Proof using. intros Hm. destruct b; [done|apply ends_ret]. Qed.
Lemma ends_perror_exit {A} msg : ends (perror_exit msg : M S A).
Proof using. unfold perror_exit, perror. repeat (apply ends_bind; [|intros ?]); [apply ends_get_errno|apply ends_out|apply ends_stop]. Qed.
Lemma ends_complain {A} t : ends (complain t : M S A).
Proof using. unfold complain. apply ends_bind; [apply ends_out|]. intros _. apply ends_stop. Qed.
Lemma ends_errExit {A} t : ends (errExit t : M S A).
Proof using. intros s. apply wp_errExit. intros s' Hg Ha _. exists []. by eapply acted_same; [apply acted_refl|..]. Qed.
Lemma ends_for_each {A} (l : list A) body : (∀ a, ends (body a)) → ends (for_each l body).
Proof using.
  intros Hb. induction l as [|a l IH]; cbn [for_each]; [apply ends_ret|]. apply ends_bind; [apply Hb|]. intros _. exact IH.
Qed.

Lemma wp_ends_bind {A B} (m : M S A) (f : A → M S B) (Q : B → st S → Prop) s0 l (E : stop → st S → Prop) s :
  ends m → acted s0 l s → (∀ t s' l, acted s0 l s' → E t s') →
  (∀ a s' l, acted s0 l s' → wp (f a) Q E s') → wp (m ≫= f) Q E s.
Proof using.
  intros Hm [H0 G0] HE Hf. apply wp_bind. eapply wp_mono; [apply Hm|..].
  - intros a s1 [l1 [H1 G1]]. apply (Hf _ _ (l ++ l1)). split; [by rewrite H1, H0, app_assoc|congruence].
  - intros t s1 [l1 [H1 G1]]. apply (HE _ _ (l ++ l1)). split; [by rewrite H1, H0, app_assoc|congruence].
Qed.

Create HintDb ends.
#[local] Hint Resolve ends_ret ends_stop ends_out ends_get_errno ends_set_errno ends_perror_exit ends_complain ends_errExit : ends.

Ltac ends := repeat first
  [ progress auto with ends
  | apply ends_bind; [|intros ?]
  | apply ends_when
  | apply ends_for_each; intros ?
  | apply ends_sys; done
  | match goal with
    | |- ends (let '(_, _) := ?x in _) => destruct x
    | |- ends (if ?b then _ else _) => destruct b
    | |- ends (match ?x with _ => _ end) => destruct x
    end ].

Lemma ends_modifyCapSetting f c v : ends (modifyCapSetting f c v).
Proof using. unfold modifyCapSetting, cap_free. ends. Qed.
#[local] Hint Resolve ends_modifyCapSetting : ends.
Lemma ends_modify_set op name cap p : ends (modify_set op name cap p).
Proof using. unfold modify_set. ends. Qed.
#[local] Hint Resolve ends_modify_set : ends.
Lemma ends_modify_individual_capability v : ends (modify_individual_capability v).
Proof using. unfold modify_individual_capability. ends. Qed.
Lemma ends_set_securebits v : ends (set_securebits v).
Proof using. unfold set_securebits. ends. Qed.
Lemma ends_set_process_uids v : ends (set_process_uids v).
Proof using. unfold set_process_uids. ends. Qed.
Lemma ends_display t : ends (display_creds_and_caps t).
Proof using. unfold display_creds_and_caps, cap_free. ends. Qed.
Lemma ends_raise b : ends (raiseInheritableAndAmbientCaps b).
Proof using. unfold raiseInheritableAndAmbientCaps. ends. Qed.
#[local] Hint Resolve ends_modify_individual_capability ends_set_securebits ends_set_process_uids ends_display ends_raise : ends.
Lemma ends_perform_option n o : ends (perform_option n o).
Proof using. unfold perform_option, cap_free. ends. Qed.
Lemma ends_perform_options n l : ends (perform_options n l).
Proof using.
  revert n. induction l as [|o l IH]; intros n; cbn [perform_options]; [apply ends_ret|].
  apply ends_bind; [apply ends_perform_option|done].
Qed.
Lemma ends_execvp l : ends (execvp l).
Proof using. unfold execvp. ends. Qed.

(** The child does nothing before the pipe tells it to. *)
Lemma wp_childFunc {A} rd wr o s :
  wp (childFunc (rd, wr) o : M S A) (λ _ _, False)
    (λ t s', ∃ k r l, acted s ((Cclose wr, k) :: (Cread rd 1, r) :: l) s' ∧ (rv r ≠ 0 → l = [] ∧ t = Exit 1)) s.
Proof using.
  unfold childFunc. apply wp_bind, wp_call. intros k s1 _ Hg1 _ _ Ht1.
  pose proof (acted_call _ _ _ _ _ _ (acted_refl s) Ht1 Hg1 ltac:(done)) as Ha1.
  apply wp_bind, wp_call. intros r s2 _ Hg2 _ _ Ht2.
  pose proof (acted_call _ _ _ _ _ _ Ha1 Ht2 Hg2 ltac:(done)) as Ha2. cbn [app fst snd] in *.
  destruct (Z.eqb_spec (rv r) 0) as [Hr|Hr]; cbn [negb].
  2: { eapply wp_complain; [exact Ha2|]. intros s3 Ha3. by exists k, r, []. }
  match goal with |- wp _ _ ?E0 _ => set (E := E0) end. assert (∀ t s3 l, acted s2 l s3 → E t s3) as HE.
  { intros t s3 l [H3 G3]. exists k, r, l. split; [|done]. destruct Ha2 as [H2 G2].
    split; [by rewrite H3, H2, <-app_assoc|congruence]. }
  eapply (wp_ends_bind _ _ _ s2); [by apply ends_sys|apply acted_refl|exact HE|]. intros _ s3 l3 Ha3.
  eapply (wp_ends_bind _ _ _ s2); [apply ends_perform_options|exact Ha3|exact HE|]. intros _ s4 l4 Ha4.
  eapply (wp_ends_bind _ _ _ s2); [apply ends_when, ends_out|exact Ha4|exact HE|]. intros _ s5 l5 Ha5.
  eapply (wp_ends_bind _ _ _ s2); [apply ends_execvp|exact Ha5|exact HE|]. intros _ s6 l6 Ha6.
  unfold perror_exit, perror. apply wp_bind, wp_bind, wp_get_errno, wp_emit, wp_stop. apply (HE _ _ l6).
  eapply acted_same; [exact Ha6| |done]. apply acts_out.
Qed.
End ChildSpecs.

(** ** Both together *)

(** What happens over time: calls of either process, the end of the parent. *)
Inductive moment := By_parent (x : call * reply) | By_child (x : call * reply) | Parent_ended.

Definition parent_calls (T : list moment) : list (call * reply) :=
  omap (λ m, match m with By_parent x => Some x | _ => None end) T.
Definition child_calls (T : list moment) : list (call * reply) :=
  omap (λ m, match m with By_child x => Some x | _ => None end) T.

(** A pipe: its end is read when nobody has the other side open.  The child
    has closed its own; the parent has closed it, or has ended. *)
Definition pipe_law (rd wr : Z) (T : list moment) : Prop :=
  ∀ A B r, T = A ++ By_child (Cread rd 1, r) :: B → rv r = 0 →
    (∃ k, By_parent (Cclose wr, k) ∈ A) ∨ Parent_ended ∈ A.

(** A course of events in which the parent makes the calls [lp] and then ends,
    and the child makes [lc], as far as they get. *)
Definition course (lp lc : list (call * reply)) (T : list moment) : Prop :=
  parent_calls T `prefix_of` lp ∧ child_calls T `prefix_of` lc ∧
  ∀ A B, T = A ++ Parent_ended :: B → parent_calls A = lp.

Lemma parent_calls_app a b : parent_calls (a ++ b) = parent_calls a ++ parent_calls b.
Proof. apply omap_app. Qed.
Lemma child_calls_app a b : child_calls (a ++ b) = child_calls a ++ child_calls b.
Proof. apply omap_app. Qed.

Lemma child_calls_split T l x k : child_calls T = l ++ x :: k → ∃ A B, T = A ++ By_child x :: B ∧ child_calls A = l.
Proof.
  revert l. induction T as [|m T IH]; intros l; [by destruct l|].
  destruct m as [y|y|]; cbn; intros E.
  - destruct (IH _ E) as (A & B & -> & H). by exists (By_parent y :: A), B.
  - destruct l as [|z l]; cbn in E; injection E as -> E.
    + by exists [], T.
    + destruct (IH _ E) as (A & B & -> & <-). by exists (By_child z :: A), B.
  - destruct (IH _ E) as (A & B & -> & H). by exists (Parent_ended :: A), B.
Qed.

(** An exec of the child comes after its read. *)
Lemma exec_after_read rd wr k r l f a x T1 T2 :
  child_calls (T1 ++ By_child (Cexec f a, x) :: T2) `prefix_of` (Cclose wr, k) :: (Cread rd 1, r) :: l →
  l ≠ [] ∧ ∃ A B, T1 = A ++ By_child (Cread rd 1, r) :: B.
Proof.
  rewrite child_calls_app. change (child_calls (By_child (Cexec f a, x) :: T2)) with ((Cexec f a, x) :: child_calls T2).
  intros [tl E]. rewrite <-app_assoc in E. destruct (child_calls T1) as [|c1 [|c2 cs]] eqn:Ec; cbn in E; [done|done|].
  injection E as <- <- E. split; [intros ->; by destruct cs|].
  destruct (child_calls_split T1 [(Cclose wr, k)] (Cread rd 1, r) cs Ec) as (A & B & -> & _). by exists A, B.
Qed.

Lemma closed_prefix wr (p l : list (call * reply)) k rest :
  p `prefix_of` l ++ rest → (Cclose wr, k) ∈ p → off_pipe wr l → l `prefix_of` p.
Proof.
  intros Hp Hin Ho. destruct (prefix_weak_total p l (l ++ rest) Hp (prefix_app_r _ _ _ (reflexivity _))) as [[t E]|]; [|done].
  exfalso. rewrite E in Ho. apply Forall_app in Ho as [Ho _]. rewrite Forall_forall in Ho. by apply (Ho _ Hin).
Qed.

(** C24: parent and child after clone, each on its own system, the descriptors
    of files being no pipe's.  Both end.  In whatever order their calls come,
    as the pipe allows, when the child execs the command then either the maps
    that were asked for have been written whole (the group map after "deny"),
    or the parent has failed to write them and has ended: its end closes the
    pipe too, and the command runs without the maps. *)
Theorem userns_child_exec_correct {S} (Kp Kc : os) prog opts pid rd wr (sp sc : st S) :
  (∀ tr path fl m, rv (@kern Kp tr (Copen path fl m)) ≠ wr) →
  ∃ tp sp' lp tc sc' lc,
    @userns_parent S Kp prog (rd, wr) opts pid sp = (Stop tp, sp') ∧ acted sp lp sp' ∧
    @childFunc S Kc unit (rd, wr) opts sc = (Stop tc, sc') ∧ acted sc lc sc' ∧
    ∀ T1 T2 f a x, let T := T1 ++ By_child (Cexec f a, x) :: T2 in
      course lp lc T → pipe_law rd wr T →
      maps_written opts pid (parent_calls T1) ∨ (Parent_ended ∈ T1 ∧ tp = Exit 1 ∧ off_pipe wr lp).
Proof.
  intros Hwr. pose proof (wp_userns_parent (H:=Kp) wr Hwr prog rd opts pid sp) as Hp.
  pose proof (wp_childFunc (H:=Kc) (A:=unit) rd wr opts sc) as Hc.
  apply wp_run in Hp as [(? & ? & _ & [])|(tp & sp' & Hrp & lp & Hap & Hlp)].
  apply wp_run in Hc as [(? & ? & _ & [])|(tc & sc' & Hrc & k & r & l & Hac & Hr)].
  exists tp, sp', lp, tc, sc', ((Cclose wr, k) :: (Cread rd 1, r) :: l). split_and!; [done..|].
  intros T1 T2 f a x T (Hparent & Hchild & Hend) Hlaw.
  destruct (exec_after_read _ _ _ _ _ _ _ _ _ _ Hchild) as (Hl & A & B & ->).
  assert (rv r = 0) as Hr0 by (destruct (Z.eq_dec (rv r) 0) as [|Hne]; [done|]; by destruct (Hr Hne)).
  unfold T in *. clear T. rewrite parent_calls_app in Hparent |- *.
  destruct (Hlaw A (B ++ By_child (Cexec f a, x) :: T2) r) as [[k' Hk]|Hk]; [by rewrite <-app_assoc|done| |].
  - destruct Hlp as [[_ Ho]|(l1 & k1 & w & -> & Ho & Hm & _)].
    + exfalso. destruct Hparent as [tl ->]. apply Forall_app in Ho as [Ho _]. rewrite parent_calls_app in Ho.
      apply Forall_app in Ho as [Ho _]. apply Forall_app in Ho as [Ho _]. rewrite Forall_forall in Ho.
      eapply (Ho (Cclose wr, k')); [|done]. apply list_elem_of_omap. by exists (By_parent (Cclose wr, k')).
    + left. assert (l1 `prefix_of` parent_calls A) as [t E].
      { eapply (closed_prefix wr _ _ k'); [| |exact Ho].
        - etrans; [|exact Hparent]. rewrite parent_calls_app, <-app_assoc. by apply prefix_app_r.
        - apply list_elem_of_omap. by exists (By_parent (Cclose wr, k')). }
      rewrite E. by apply maps_written_more, maps_written_more.
  - apply list_elem_of_split in Hk as (A1 & A2 & ->). assert (parent_calls A1 = lp) as E.
    { eapply (Hend A1). by rewrite <-!app_assoc. }
    destruct Hlp as [[-> Ho]|(l1 & k1 & w & E' & Ho & Hm & _)]; [right|left].
    + split; [|done]. rewrite !elem_of_app, elem_of_cons. auto.
    + rewrite !parent_calls_app, E, E', <-!app_assoc. by apply maps_written_more.
Qed.

(** A system that lets files be opened (descriptor 7) if [ok_open], takes all
    that is written, and has nothing to read. *)
Definition plain_os (ok_open : bool) : os := test_os (λ tr c,
  match c with
  | Copen _ _ _ => if ok_open then ok 7 else fail EACCES
  | Cwrite _ b => ok (strlen b)
  | Cgetuid | Cgetgid => ok 1000
  | _ => ok 0
  end).

Definition root_shell : cmd_options :=
  CmdOptions [str "sh"] CLONE_NEWUSER true true false None None [("d"%char, None); ("s"%char, Some (str "0"))].

Lemma userns_child_exec_witness :
  (∀ tr path fl m, rv (@kern (plain_os true) tr (Copen path fl m)) ≠ 4) ∧
  ∃ tp sp' lp tc sc' lc,
    @userns_parent unit (plain_os true) (str "p") (3, 4) root_shell 99 (init tt) = (Stop tp, sp') ∧ acted (init tt) lp sp' ∧
    @childFunc unit (plain_os true) unit (3, 4) root_shell (init tt) = (Stop tc, sc') ∧ acted (init tt) lc sc' ∧
    ∀ T1 T2 f a x, let T := T1 ++ By_child (Cexec f a, x) :: T2 in
      course lp lc T → pipe_law 3 4 T →
      maps_written root_shell 99 (parent_calls T1) ∨ (Parent_ended ∈ T1 ∧ tp = Exit 1 ∧ off_pipe 4 lp).
Proof.
  assert (∀ tr path fl m, rv (@kern (plain_os true) tr (Copen path fl m)) ≠ 4) as H by done.
  split; [exact H|]. exact (userns_child_exec_correct (plain_os true) (plain_os true) (str "p") root_shell 99 3 4 (init tt) (init tt) H).
Defined.

(** The command line of [root_shell]. *)
Example root_shell_line :
  let o := plain_os true in
  (parse_command_options (str "p") (str <$> ["-Ur"; "-d"; "-s0"; "sh"]) (init tt)).1 = Ret root_shell ∧
  (parse_command_options (str "p") (command_line [("U"%char, CLONE_NEWUSER)] root_shell) (init tt)).1 = Ret root_shell ∧
  (parse_command_options (str "p") (str <$> ["-r"; "sh"]) (init tt)).1 = Stop (Exit 1).
Proof. by vm_compute. Qed.

(** The maps cannot be written: the parent exits with failure, and the child,
    whose read then meets the end of file, runs the command. *)
Example map_failure_runs_command :
  (userns_parent (H:=plain_os false) (str "p") (3, 4) root_shell 99 (init tt)).1 = Stop (Exit 1) ∧
  (childFunc (A:=unit) (H:=plain_os false) (3, 4) root_shell (init tt)).1 = Stop (Execed (str "sh") [str "sh"]).
Proof. by vm_compute. Qed.

(** -I and -A are kept as 'I' and 'A', which the child does not know, and -S
    is refused, though its usage lists it. *)
Example capability_options_unknown :
  let o := plain_os true in
  (parse_command_options (str "p") (str <$> ["-I"; "sh"]) (init tt)).1 =
    Ret (CmdOptions [str "sh"] 0 false true false None None [("I"%char, None)]) ∧
  trace (perform_option 0 ("I"%char, None) (init tt)).2 =
    [Eout Stderr (str "Unexpected option (-I) in perform_repeatable_options()" ++ [NL])] ∧
  (parse_command_options (str "p") (str <$> ["-S"; "1,2,3"; "sh"]) (init tt)).1 = Stop (Exit 1).
Proof. by vm_compute. Qed.
