(* ===== verification/AclText.v ===== *)
(** Text forms of access control lists: parseEntrySpec and parseACL of
    tlpi-book/acl/acl_update.c, and the names of users and groups in them
    (users_groups/ugid_functions.c). *)
From S2P Require Import Prelude Sys GetNum.

(** ** ugid_functions.c

    The password and group files are read by library functions that are not
    part of the sources: calls of the system, by name.  A uid_t is 32 bits
    without a sign, so -1 is the largest. *)

Definition NO_ID : Z := wrap_u 32 (-1).

Section Ugid.
Context {S : Type} `{os}.

Definition name_from_id (fn : string) (id : Z) : M S (option cstr) :=
  r ← sys (Cextern fn [id] []);
  mret (if rv r =? -1 then None else Some (c_str (rdata r))).

Definition userNameFromId (uid : Z) : M S (option cstr) := name_from_id "getpwuid" uid.
Definition groupNameFromId (gid : Z) : M S (option cstr) := name_from_id "getgrgid" gid.

(** The two functions differ in the file they look the name up in. *)
Definition id_from_name (fn : string) (name : option cstr) : M S Z :=
  match name with
  | None | Some [] => mret NO_ID
  | Some name =>
      let '(u, endptr, err) := strtol name 10 in
      when (negb (err =? 0)) (set_errno err);;
      if streq endptr [] then mret (wrap_u 32 u) else
      pwd ← sys (Cextern fn [] name);
      mret (if rv pwd =? -1 then NO_ID else wrap_u 32 (le (rdata pwd)))
  end.

Definition userIdFromName (name : option cstr) : M S Z := id_from_name "getpwnam" name.
Definition groupIdFromName (name : option cstr) : M S Z := id_from_name "getgrnam" name.
End Ugid.

(** ** Entries (sys/acl.h) *)

Definition ACL_USER_OBJ : Z := 1.
Definition ACL_USER : Z := 2.
Definition ACL_GROUP_OBJ : Z := 4.
Definition ACL_GROUP : Z := 8.
Definition ACL_MASK : Z := 16.
Definition ACL_OTHER : Z := 32.
Definition ACL_READ : Z := 4.
Definition ACL_WRITE : Z := 2.
Definition ACL_EXECUTE : Z := 1.

Definition MAX_ENTRIES : Z := 10000.

(** [perms] is [None] where the parser does not set it. *)
Record AccessControlEntry := Ace { tag : Z; qual : Z; perms : option Z }.

Section Parse.
Context {S : Type} `{os}.

(** The tag type, from the text before the first colon and the presence of a
    qualifier. *)
Definition tag_of (text : cstr) (hasQual : bool) : option Z :=
  if streq text (str "u") || streq text (str "user") then Some (if hasQual then ACL_USER else ACL_USER_OBJ)
  else if streq text (str "g") || streq text (str "group") then Some (if hasQual then ACL_GROUP else ACL_GROUP_OBJ)
  else if streq text (str "o") || streq text (str "other") then Some ACL_OTHER
  else if streq text (str "m") || streq text (str "mask") then Some ACL_MASK
  else None.

(** The loop over the permission string, from the mask so far; [inr] is the
    character it refuses. *)
Fixpoint perm_bits (acc : Z) (p : cstr) : Z + ascii :=
  match p with
  | [] => inl acc
  | c :: p =>
      if decide (c = "r"%char) then perm_bits (Z.lor acc ACL_READ) p
      else if decide (c = "w"%char) then perm_bits (Z.lor acc ACL_WRITE) p
      else if decide (c = "x"%char) then perm_bits (Z.lor acc ACL_EXECUTE) p
      else if decide (c = "-"%char) then perm_bits acc p
      else inr c
  end.

Definition complain_none {A} (text : cstr) : M S (option A) := out Stderr (text ++ [NL]);; mret None.

(** [None] is FALSE. *)
Definition parseEntrySpec (entryStr : cstr) (permsReqd : bool) : M S (option AccessControlEntry) :=
  match strchr ":"%char entryStr with
  | None => complain_none (str "Missing initial colon in ACL entry: " ++ entryStr)
  | Some (tagStr, afterColon1) =>
      let hasQual := match afterColon1 with [] => false | c :: _ => negb (bool_decide (c = ":"%char)) end in
      let colon2 := strchr ":"%char afterColon1 in
      let permStr := match colon2 with Some (_, p) => p | None => [] end in
      let hasPerms := negb (streq permStr []) in
      if hasPerms && negb permsReqd then complain_none (str "Cannot specify permissions here")
      else if negb hasPerms && permsReqd then complain_none (str "Must specify permissions")
      else match tag_of tagStr hasQual with
      | None => complain_none (str "Bad tag: " ++ tagStr)
      | Some tag =>
          let qualifier := match colon2 with Some (q, _) => q | None => afterColon1 end in
          id ← (if tag =? ACL_USER then userIdFromName (Some qualifier)
                else if tag =? ACL_GROUP then groupIdFromName (Some qualifier)
                else mret 0);
          if (tag =? ACL_USER) && (id =? NO_ID) then complain_none (str "Bad user ID: " ++ qualifier)
          else if (tag =? ACL_GROUP) && (id =? NO_ID) then complain_none (str "Bad group ID: " ++ qualifier)
          else if negb hasPerms then mret (Some (Ace tag id None))
          else match perm_bits 0 permStr with
          | inl bits => mret (Some (Ace tag id (Some bits)))
          | inr c => complain_none (str "Bad character in permissions string: " ++ [c])
          end
      end
  end.

(** The loop over the entries, [n] of them found so far; each turn takes the
    text up to a comma. *)
Fixpoint parseACL_go (fuel : nat) (n : Z) (nextEntry : cstr) (permsReqd : bool) : M S (option (list AccessControlEntry)) :=
  match fuel with
  | O => no_fuel
  | Datatypes.S fuel =>
      if n >=? MAX_ENTRIES then complain_none (str "Too many entries in ACL") else
      let comma := strchr ","%char nextEntry in
      let entry := match comma with Some (e, _) => e | None => nextEntry end in
      a ← parseEntrySpec entry permsReqd;
      match a, comma with
      | None, _ => mret None
      | Some a, None => mret (Some [a])
      | Some a, Some (_, rest) =>
          l ← parseACL_go fuel (n + 1) rest permsReqd;
          mret ((a ::.) <$> l)
      end
  end.

(** The entries stored in [aclist], whose number parseACL returns; [None] is
    -1. *)
Definition parseACL (aclStr : cstr) (permsReqd : bool) : M S (option (list AccessControlEntry)) :=
  parseACL_go (Datatypes.S (length aclStr)) 0 aclStr permsReqd.
End Parse.

(** ** What a text denotes *)

(** The names of the password file and of the group file, as the library
    functions find them. *)
Definition lookup_fn (fn : string) : Prop := fn = "getpwnam"%string ∨ fn = "getgrnam"%string.

Definition database (K : os) (db : string → cstr → option Z) : Prop :=
  ∀ tr fn q, lookup_fn fn →
    let r := @kern K tr (Cextern fn [] q) in
    match db fn q with
    | Some id => rv r ≠ -1 ∧ wrap_u 32 (le (rdata r)) = id
    | None => rv r = -1
    end.

(** Numbers stand for themselves. *)
Definition id_of (db : string → cstr → option Z) (fn : string) (q : cstr) : option Z :=
  let '(v, rest, _) := strtol q 10 in
  if streq rest [] then Some (wrap_u 32 v) else db fn q.

(** An entry is a tag, a qualifier and permissions, the last with their colon
    or without any. *)
Definition split3 (e t q pt : cstr) : Prop :=
  (":"%char ∉ t) ∧ (":"%char ∉ q) ∧ ((e = t ++ ":"%char :: q ∧ pt = []) ∨ e = t ++ ":"%char :: q ++ ":"%char :: pt).

Inductive tagged : cstr → cstr → Z → Prop :=
  | tagged_owner t : t = str "u" ∨ t = str "user" → tagged t [] ACL_USER_OBJ
  | tagged_user t q : t = str "u" ∨ t = str "user" → q ≠ [] → tagged t q ACL_USER
  | tagged_owning t : t = str "g" ∨ t = str "group" → tagged t [] ACL_GROUP_OBJ
  | tagged_group t q : t = str "g" ∨ t = str "group" → q ≠ [] → tagged t q ACL_GROUP
  | tagged_other t q : t = str "o" ∨ t = str "other" → tagged t q ACL_OTHER
  | tagged_mask t q : t = str "m" ∨ t = str "mask" → tagged t q ACL_MASK.

Definition lookup_of (tag : Z) : option string :=
  if tag =? ACL_USER then Some "getpwnam"%string else if tag =? ACL_GROUP then Some "getgrnam"%string else None.

Definition qualifies (db : string → cstr → option Z) (tag : Z) (q : cstr) (id : Z) : Prop :=
  match lookup_of tag with
  | Some fn => id_of db fn q = Some id ∧ id ≠ NO_ID
  | None => id = 0
  end.

Definition has (c : ascii) (p : cstr) (bit : Z) : Z := if bool_decide (c ∈ p) then bit else 0.

Definition permits (permsReqd : bool) (pt : cstr) (p : option Z) : Prop :=
  match p with
  | None => permsReqd = false ∧ pt = []
  | Some bits => permsReqd = true ∧ pt ≠ [] ∧ Forall (λ c, c ∈ str "rwx-") pt ∧
      bits = Z.lor (has "r"%char pt ACL_READ) (Z.lor (has "w"%char pt ACL_WRITE) (has "x"%char pt ACL_EXECUTE))
  end.

Definition entry_text (db : string → cstr → option Z) (permsReqd : bool) (e : cstr) (a : AccessControlEntry) : Prop :=
  ∃ t q pt, split3 e t q pt ∧ tagged t q (tag a) ∧ qualifies db (tag a) q (qual a) ∧ permits permsReqd pt (perms a).

(** Entries with commas between them. *)
Fixpoint acl_text (db : string → cstr → option Z) (permsReqd : bool) (text : cstr) (l : list AccessControlEntry) : Prop :=
  match l with
  | [] => False
  | [a] => (","%char ∉ text) ∧ entry_text db permsReqd text a
  | a :: l => ∃ e rest, text = e ++ ","%char :: rest ∧ (","%char ∉ e) ∧ entry_text db permsReqd e a ∧ acl_text db permsReqd rest l
  end.

(** Looking names up and complaining is all the parser does to the world. *)
Definition looks_up (e : event) : Prop :=
  match e with
  | Eout f _ => f = Stderr
  | Esys (Cextern fn [] _) _ => lookup_fn fn
  | Esys _ _ => False
  end.
Definition looked_up {S} `{os} (s s' : st S) : Prop := ran looks_up (trace s) (trace s') ∧ glob s' = glob s.

Lemma looked_up_refl {S} `{os} (s : st S) : looked_up s s.
Proof. split; [apply ran_refl|done]. Qed.

Lemma looked_up_trans {S} `{os} (s1 s2 s3 : st S) : looked_up s1 s2 → looked_up s2 s3 → looked_up s1 s3.
Proof. intros [H1 G1] [H2 G2]. split; [by eapply ran_trans|congruence]. Qed.

(** ** Lemmas *)

Definition qualifier_of (after : cstr) : cstr := match strchr ":"%char after with Some (q, _) => q | None => after end.
Definition perms_of (after : cstr) : cstr := match strchr ":"%char after with Some (_, p) => p | None => [] end.

Lemma strchr_app c b a : c ∉ b → strchr c (b ++ c :: a) = Some (b, a).
Proof. intros Hb. by apply strchr_Some. Qed.

Lemma split3_strchr e t q pt :
  split3 e t q pt → ∃ after, strchr ":"%char e = Some (t, after) ∧ qualifier_of after = q ∧ perms_of after = pt.
Proof.
  unfold qualifier_of, perms_of. intros (Ht & Hq & [[-> ->]| ->]); eexists; (split; [by apply strchr_app|]).
  - apply strchr_None in Hq. by rewrite Hq.
  - by rewrite strchr_app.
Qed.

Lemma strchr_split3 e t after : strchr ":"%char e = Some (t, after) → split3 e t (qualifier_of after) (perms_of after).
Proof.
  unfold qualifier_of, perms_of. intros [-> Ht]%strchr_Some. destruct (strchr _ after) as [[q p]|] eqn:E.
  - apply strchr_Some in E as [-> Hq]. split_and!; [done|done|]. by right.
  - apply strchr_None in E. split_and!; [done|done|]. by left.
Qed.

(** The test for a qualifier looks at one character. *)
Lemma has_qualifier after :
  match after with [] => false | c :: _ => negb (bool_decide (c = ":"%char)) end = bool_decide (qualifier_of after ≠ []).
Proof.
  unfold qualifier_of. destruct after as [|c r]; [done|]. cbn [strchr]. destruct (decide (c = ":"%char)) as [-> |Hc]; [done|].
  rewrite (bool_decide_eq_false_2 (c = _)) by done. symmetry. apply bool_decide_eq_true_2.
  destruct (strchr ":"%char r) as [[b a]|]; done.
Qed.

Lemma tag_of_tagged t q tag : tag_of t (bool_decide (q ≠ [])) = Some tag ↔ tagged t q tag.
Proof.
  unfold tag_of. split.
  - assert (∀ a b, streq t a || streq t b = true → t = a ∨ t = b) as Hor
      by (intros a b [?%streq_true|?%streq_true]%orb_true_iff; auto).
    intros H. destruct q as [|c q].
    + rewrite bool_decide_eq_false_2 in H by (intros []; done).
      repeat case_match; try done; injection H as <-; by constructor; apply Hor.
    + rewrite bool_decide_eq_true_2 in H by done.
      repeat case_match; try done; injection H as <-; constructor; done || by apply Hor.
  - destruct 1 as [t Ht|t q Ht Hq|t Ht|t q Ht Hq|t q Ht|t q Ht]; destruct Ht as [-> | ->]; try done;
      by rewrite (bool_decide_eq_true_2 _ Hq).
Qed.

(** The loop over the permissions. *)
Lemma has_cons c d p bit : has c (d :: p) bit = Z.lor (if decide (d = c) then bit else 0) (has c p bit).
Proof.
  unfold has. case_decide as Hd; subst.
  - rewrite bool_decide_eq_true_2 by (apply elem_of_cons; by left). case_bool_decide; [by rewrite Z.lor_diag|by rewrite Z.lor_0_r].
  - rewrite Z.lor_0_l. assert (c ∈ d :: p ↔ c ∈ p) as E by (rewrite elem_of_cons; intuition congruence).
    by rewrite (bool_decide_ext _ _ E).
Qed.

Lemma perm_bits_spec p acc :
  match perm_bits acc p with
  | inl b => Forall (λ c, c ∈ str "rwx-") p ∧
      b = Z.lor acc (Z.lor (has "r"%char p ACL_READ) (Z.lor (has "w"%char p ACL_WRITE) (has "x"%char p ACL_EXECUTE)))
  | inr c => ¬ Forall (λ c, c ∈ str "rwx-") p
  end.
Proof.
  revert acc. induction p as [|c p IH]; intros acc; [by rewrite Z.lor_0_r|].
  cbn [perm_bits]. rewrite !has_cons. repeat case_decide; subst; try done;
    try match goal with |- context [perm_bits ?a p] => specialize (IH a); destruct (perm_bits a p) as [b|d] end;
    try (destruct IH as [IH ->]; split; [apply Forall_cons; split; [cbn; rewrite !elem_of_cons; auto|done]|]);
    try (intros [_ Hf]%Forall_cons; by destruct IH).
  all: try (intros [Hc _]%Forall_cons; cbn in Hc; rewrite !elem_of_cons, elem_of_nil in Hc; intuition congruence).
  all: apply Z.bits_inj'; intros i _; rewrite ?Z.lor_spec, ?Z.bits_0; cbn; 
       repeat match goal with |- context [Z.testbit ?x ?i] => destruct (Z.testbit x i) end; done.
Qed.

(** Permissions are there exactly when they are required. *)
Lemma permits_reqd pr pt p : permits pr pt p → pr = negb (streq pt []).
Proof.
  unfold permits. destruct p; [intros (-> & Hn & _)|intros (-> & ->)]; [|done].
  symmetry. by apply negb_true_iff, streq_false.
Qed.

Lemma permits_unique pr pt p p' : permits pr pt p → permits pr pt p' → p = p'.
Proof. unfold permits. destruct p, p'; try done; [|by intros (-> & _) (? & _)|by intros (-> & _) (? & _)]. by intros (_ & _ & _ & ->) (_ & _ & _ & ->). Qed.

Section ParseSpecs.
Context {S : Type} {K : os} (db : string → cstr → option Z) (Hdb : database K db).
Implicit Types s : st S.

Lemma looked_up_call fn q s : lookup_fn fn →
  wp (sys (Cextern fn [] q)) (λ r s', r = kern (trace s) (Cextern fn [] q) ∧ looked_up s s') (λ _ _, False) s.
Proof using. intros Hf. apply wp_sys. split; [done|]. split; [|done]. apply ran_sys; [apply ran_refl|done]. Qed.

Lemma id_from_name_spec fn q s : lookup_fn fn → q ≠ [] →
  wp (id_from_name fn (Some q)) (λ id s', id = default NO_ID (id_of db fn q) ∧ looked_up s s') (λ _ _, False) s.
Proof using Hdb.
  intros Hf Hq. destruct q as [|c q]; [done|]. unfold id_from_name, id_of.
  destruct (strtol (c :: q) 10) as [[u rest] err]. cbn iota beta. apply wp_bind.
  assert (wp (when (negb (err =? 0)) (set_errno err)) (λ _ s', looked_up s s') (λ _ _, False) s) as Hw.
  { unfold when. destruct (negb _); cbn; (split; [apply ran_refl|done]). }
  eapply wp_mono; [exact Hw| |done]. intros [] s1 H1. cbn beta. destruct (streq rest []); [by apply wp_ret|].
  apply wp_bind. eapply wp_mono; [by apply looked_up_call| |done]. intros r s2 [-> H2]. cbn beta. apply wp_ret.
  split; [|by eapply looked_up_trans].
  pose proof (Hdb (trace s1) fn (c :: q) Hf) as Hd. cbn zeta in Hd. destruct (db fn (c :: q)).
  - destruct Hd as [Hn <-]. by rewrite (proj2 (Z.eqb_neq _ _) Hn).
  - by rewrite Hd.
Qed.

Lemma complain_none_spec {A} text (Q : option A → st S → Prop) E s :
  (∀ s', looked_up s s' → Q None s') → wp (complain_none text) Q E s.
Proof using. intros HQ. cbn. apply HQ. split; [|done]. apply ran_out; [apply ran_refl|done]. Qed.

(** At most one reading of an entry. *)
Lemma entry_text_unique pr e a a' : entry_text db pr e a → entry_text db pr e a' → a = a'.
Proof using.
  intros (t & q & pt & Hs & Ht & Hq & Hp) (t' & q' & pt' & Hs' & Ht' & Hq' & Hp').
  destruct (split3_strchr _ _ _ _ Hs) as (x & E1 & E2 & E3), (split3_strchr _ _ _ _ Hs') as (x' & E1' & E2' & E3').
  rewrite E1 in E1'. injection E1' as <- <-. subst q' pt' q pt.
  apply tag_of_tagged in Ht, Ht'. destruct a as [tg id p], a' as [tg' id' p']. cbn in *.
  assert (tg = tg') as <- by congruence. f_equal.
  - unfold qualifies in *. destruct (lookup_of tg); [destruct Hq, Hq'|]; congruence.
  - by eapply permits_unique.
Qed.

(** One entry: what it denotes, or a refusal when it denotes nothing. *)
Lemma parseEntrySpec_spec pr e s :
  wp (parseEntrySpec e pr)
    (λ r s', looked_up s s' ∧ match r with Some a => entry_text db pr e a | None => ∀ a, ¬ entry_text db pr e a end)
    (λ _ _, False) s.
Proof using Hdb.
  unfold parseEntrySpec. destruct (strchr ":"%char e) as [[t after]|] eqn:Ee.
  2: { apply complain_none_spec. intros s' H. split; [done|]. intros a (t & q & pt & Hs & _).
       apply split3_strchr in Hs as (? & E & _). congruence. }
  pose proof (strchr_split3 _ _ _ Ee) as Hsplit. rewrite has_qualifier.
  change (match strchr ":"%char after with Some (_, p) => p | None => [] end) with (perms_of after).
  change (match strchr ":"%char after with Some (q, _) => q | None => after end) with (qualifier_of after).
  set (q := qualifier_of after) in *. set (pt := perms_of after) in *.
  assert (∀ a, entry_text db pr e a → tagged t q (tag a) ∧ qualifies db (tag a) q (qual a) ∧ permits pr pt (perms a)) as Hun.
  { intros a (t' & q' & pt' & Hs & Ha). destruct (split3_strchr _ _ _ _ Hs) as (x & E & <- & <-). rewrite Ee in E.
    by injection E as <- <-. }
  assert (∀ Q : option AccessControlEntry → st S → Prop, ∀ text s, (∀ s', looked_up s s' → Q None s') → wp (complain_none text) Q (λ _ _, False) s) as Hc
    by (clear; intros; by apply complain_none_spec).
  assert (∀ a, entry_text db pr e a → pr = negb (streq pt [])) as Hr by (intros a (_ & _ & Hp)%Hun; by apply permits_reqd in Hp).
  destruct (negb (streq pt []) && negb pr) eqn:E1.
  { bools. apply Hc. intros s' Hl. split; [done|]. intros a Ha%Hr. clear -Ha H H0. destruct (streq pt []), pr; done. }
  destruct (negb (negb (streq pt [])) && pr) eqn:E2.
  { bools. apply Hc. intros s' Hl. split; [done|]. intros a Ha%Hr. clear -Ha H H0. destruct (streq pt []), pr; done. }
  destruct (tag_of t (bool_decide (q ≠ []))) as [tg|] eqn:Et.
  2: { apply Hc. intros s' Hl. split; [done|]. intros a (Hg & _)%Hun. apply tag_of_tagged in Hg. congruence. }
  apply wp_bind.
  assert (wp (if tg =? ACL_USER then userIdFromName (Some q) else if tg =? ACL_GROUP then groupIdFromName (Some q) else mret 0)
    (λ id s', looked_up s s' ∧ id = match lookup_of tg with Some fn => default NO_ID (id_of db fn q) | None => 0 end) (λ _ _, False) s) as Hid.
  { unfold lookup_of. apply tag_of_tagged in Et.
    assert (tg = ACL_USER ∨ tg = ACL_GROUP → q ≠ []) as Hq by (clear -Et; destruct Et; by intros [[=]|[=]]).
    destruct (tg =? ACL_USER) eqn:Eu; [|destruct (tg =? ACL_GROUP) eqn:Eg]; bools.
    - eapply wp_mono; [apply id_from_name_spec; [by left|auto]| |done]. by intros id s' [-> Hl].
    - eapply wp_mono; [apply id_from_name_spec; [by right|auto]| |done]. by intros id s' [-> Hl].
    - apply wp_ret. split; [apply looked_up_refl|done]. }
  eapply wp_mono; [exact Hid| |done]. intros id s' [Hl Eid]. cbn beta. apply tag_of_tagged in Et.
  assert (∀ i p, tagged t q tg → qualifies db tg q i → permits pr pt p → entry_text db pr e (Ace tg i p)) as Hyes by (intros; by exists t, q, pt).
  assert (∀ a, entry_text db pr e a → qualifies db tg q (qual a) ∧ permits pr pt (perms a)) as Hno.
  { intros a (Ht & Hq & Hp)%Hun. apply tag_of_tagged in Ht, Et. rewrite Ht in Et. injection Et as <-. done. }
  destruct ((tg =? ACL_USER) && (id =? NO_ID)) eqn:E3; [|destruct ((tg =? ACL_GROUP) && (id =? NO_ID)) eqn:E4].
  1, 2: bools; subst tg; apply complain_none_spec; intros s2 H2; (split; [by eapply looked_up_trans|]);
    intros a [Hq _]%Hno; unfold qualifies in Hq; cbn in Hq, Eid; destruct Hq as [Hq Hn]; rewrite Hq in Eid; cbn in Eid; congruence.
  assert (qualifies db tg q id) as Hq.
  { unfold qualifies, lookup_of in *. destruct (tg =? ACL_USER); [|destruct (tg =? ACL_GROUP)]; [| |done]; cbn [andb] in *; bools;
      (split; [|done]); destruct (id_of _ _ _); cbn in Eid; congruence. }
  destruct (negb (negb (streq pt []))) eqn:E5.
  { rewrite negb_involutive in E5. cbn [andb] in E2. apply streq_true in E5. apply wp_ret. split; [done|]. by apply Hyes. }
  rewrite negb_involutive in E5. rewrite E5 in E1. cbn in E1. apply negb_false_iff in E1 as ->. apply streq_false in E5.
  pose proof (perm_bits_spec pt 0) as Hb. destruct (perm_bits 0 pt) as [b|c].
  - destruct Hb as [Hf ->]. apply wp_ret. split; [done|]. by apply Hyes.
  - apply complain_none_spec. intros s2 H2. split; [by eapply looked_up_trans|]. intros a [_ Hp]%Hno.
    destruct (perms a); [by destruct Hp as (_ & _ & Hf & _)|by destruct Hp].
Qed.

(** What parseACL answers: the entries, or a refusal of a text that denotes
    none, or more than fit. *)
Definition acl_answer (pr : bool) (n : Z) (text : cstr) (r : option (list AccessControlEntry)) : Prop :=
  match r with
  | Some l => acl_text db pr text l ∧ n + Z.of_nat (length l) <= MAX_ENTRIES
  | None => ∀ l, acl_text db pr text l → n + Z.of_nat (length l) > MAX_ENTRIES
  end.

Lemma acl_text_cons pr text l : acl_text db pr text l ↔
  match strchr ","%char text with
  | None => ∃ a, l = [a] ∧ entry_text db pr text a
  | Some (e, rest) => ∃ a l', l = a :: l' ∧ entry_text db pr e a ∧ acl_text db pr rest l'
  end.
Proof using.
  destruct (strchr ","%char text) as [[e rest]|] eqn:E.
  - pose proof (proj1 (strchr_Some _ _ _ _) E) as [-> Hn]. split.
    + destruct l as [|a [|b l]]; [done| |].
      * intros [Hc _]. exfalso. apply Hc. rewrite elem_of_app, elem_of_cons. auto.
      * intros (e' & rest' & Ht & Hc & He & Hr). apply (f_equal (strchr ","%char)) in Ht. rewrite !strchr_app in Ht by done.
        injection Ht as <- <-. by exists a, (b :: l).
    + intros (a & l' & -> & He & Hr). destruct l' as [|b l]; [done|]. by exists e, rest.
  - apply strchr_None in E. split.
    + destruct l as [|a [|b l]]; [done|intros [_ H]; by exists a|].
      intros (e' & rest' & -> & _). exfalso. apply E. rewrite elem_of_app, elem_of_cons. auto.
    + by intros (a & -> & H).
Qed.

Lemma acl_text_unique pr text l l' : acl_text db pr text l → acl_text db pr text l' → l = l'.
Proof using.
  revert text l'. induction l as [|a l IH]; intros text l'; [done|]. rewrite !acl_text_cons.
  destruct (strchr _ text) as [[e rest]|].
  - intros (? & ? & [= <- <-] & He & Hr) (b & l2 & -> & He' & Hr'). f_equal; [by eapply entry_text_unique|eauto].
  - intros (? & [= <- ->] & He) (b & -> & He'). f_equal. by eapply entry_text_unique.
Qed.

Lemma parseACL_go_spec pr fuel n text s : (length text < fuel)%nat →
  wp (parseACL_go fuel n text pr) (λ r s', looked_up s s' ∧ acl_answer pr n text r) (λ _ _, False) s.
Proof using Hdb.
  revert n text s. induction fuel as [|fuel IH]; intros n text s Hf; [lia|]. cbn [parseACL_go].
  assert (∀ l, acl_text db pr text l → l ≠ []) as Hne by (by intros [] H).
  destruct (n >=? MAX_ENTRIES) eqn:En.
  { apply complain_none_spec. intros s' Hl. split; [done|]. intros l Ht. apply Hne in Ht. destruct l; [done|].
    rewrite Z.geb_leb in En. bools. cbn [length]. lia. }
  rewrite Z.geb_leb in En. bools. apply wp_bind. eapply wp_mono; [apply parseEntrySpec_spec| |done]. intros r s1 [H1 Hr]. cbn beta.
  pose proof (acl_text_cons pr text) as Hc. revert Hc. unfold acl_answer.
  destruct (strchr ","%char text) as [[e rest]|] eqn:Et; intros Hc.
  - destruct r as [a|]; [|apply wp_ret; split; [done|]; by intros l (a & l' & -> & Ha & _)%Hc; apply Hr in Ha].
    apply wp_bind. eapply wp_mono; [apply IH; apply strchr_shorter in Et; lia| |done]. intros l s2 [H2 Hl]. cbn beta. apply wp_ret.
    split; [by eapply looked_up_trans|]. destruct l as [l|]; cbn [fmap option_fmap option_map].
    + destruct Hl as [Hl Hn]. split; [apply Hc; by exists a, l|cbn [length]; lia].
    + intros l (b & l' & -> & _ & Hl')%Hc. apply Hl in Hl'. cbn [length]. lia.
  - destruct r as [a|]; apply wp_ret; (split; [done|]).
    + split; [apply Hc; by exists a|cbn [length]; lia].
    + by intros l (a & -> & Ha)%Hc; apply Hr in Ha.
Qed.
End ParseSpecs.

(** ** The properties *)

(** C12: parseACL, whatever the text: it ends, having done nothing but look
    names up and complain.  It returns the entries the text denotes, which are
    then at most MAX_ENTRIES and the only reading of the text, or it returns -1
    and the text denotes no list of entries that fits. *)
Theorem parseACL_correct {S} (K : os) (db : string → cstr → option Z) text permsReqd (s : st S) :
  database K db →
  ∃ r s', parseACL text permsReqd s = (Ret r, s') ∧ looked_up s s' ∧
    match r with
    | Some l => acl_text db permsReqd text l ∧ Z.of_nat (length l) <= MAX_ENTRIES ∧
        ∀ l', acl_text db permsReqd text l' → l' = l
    | None => ∀ l, acl_text db permsReqd text l → Z.of_nat (length l) > MAX_ENTRIES
    end.
Proof.
  intros Hdb. pose proof (parseACL_go_spec db Hdb permsReqd (Datatypes.S (length text)) 0 text s ltac:(lia)) as H.
  apply wp_run in H as [(r & s' & E & Hl & Ha)|(t & s' & _ & [])]. exists r, s'. split_and!; [done|done|].
  destruct r as [l|]; [|done]. destruct Ha as [Ht Hn]. split_and!; [done|done|]. intros l' Hl'. by eapply acl_text_unique.
Qed.

(** A password file with one name. *)
Definition mtk_db (fn : string) (q : cstr) : option Z := if decide (q = str "mtk" ∧ fn = "getpwnam"%string) then Some 1000 else None.
Definition mtk_os : os := test_os (λ _ c,
  match c with
  | Cextern fn [] q => match mtk_db fn q with Some id => Reply 1 0 (le32 id) [] | None => fail ENOENT end
  | _ => ok 0
  end).

Lemma mtk_database : database mtk_os mtk_db.
Proof.
  intros tr fn q _. cbn. unfold mtk_db. case_decide; [|done]. by vm_compute.
Qed.

Lemma parseACL_witness : database mtk_os mtk_db ∧
  ∃ r s', @parseACL unit mtk_os (str "u:mtk:rw,g::r--,m::x") true (init tt) = (Ret r, s') ∧ @looked_up unit mtk_os (init tt) s' ∧
    match r with
    | Some l => acl_text mtk_db true (str "u:mtk:rw,g::r--,m::x") l ∧ Z.of_nat (length l) <= MAX_ENTRIES ∧
        ∀ l', acl_text mtk_db true (str "u:mtk:rw,g::r--,m::x") l' → l' = l
    | None => ∀ l, acl_text mtk_db true (str "u:mtk:rw,g::r--,m::x") l → Z.of_nat (length l) > MAX_ENTRIES
    end.
Proof. split; [exact mtk_database|]. apply (parseACL_correct mtk_os mtk_db). exact mtk_database. Defined.

Example parseACL_run :
  (@parseACL unit mtk_os (str "u:mtk:rw,g::r--,m::x") true (init tt)).1 =
    Ret (Some [Ace ACL_USER 1000 (Some 6); Ace ACL_GROUP_OBJ 0 (Some 4); Ace ACL_MASK 0 (Some 1)]).
Proof. by vm_compute. Qed.

(** A number is not checked for its range: the one after the largest user ID
    is the superuser's. *)
Example user_id_wraps :
  (@userIdFromName unit mtk_os (Some (str "4294967296")) (init tt)).1 = Ret 0.
Proof. by vm_compute. Qed.

