(* ===== verification/Acl.v ===== *)
(** Access control lists of files: tlpi-book/acl/acl_update.c and acl_view.c,
    over what the library of POSIX.1e documents.

    The library is not part of the sources: its functions are calls of the
    system, by name; what they store through pointers is the bytes of the
    reply.  [library] states what its manual pages say. *)
From S2P Require Import Prelude Sys ErrorFns Getopt AclText.

(** ** The calls (sys/acl.h) *)

Definition ACL_TYPE_ACCESS : Z := 32768.
Definition ACL_TYPE_DEFAULT : Z := 16384.
Definition ACL_FIRST_ENTRY : Z := 0.
Definition ACL_NEXT_ENTRY : Z := 1.
Definition ACL_UNDEFINED_TAG : Z := 0.

Section Calls.
Context {S : Type} `{os}.

Definition acl_get_file (path : cstr) (type : Z) : M S reply := sys (Cextern "acl_get_file" [type] path).
Definition acl_set_file (path : cstr) (type acl : Z) : M S reply := sys (Cextern "acl_set_file" [type; acl] path).
Definition acl_delete_def_file (path : cstr) : M S reply := sys (Cextern "acl_delete_def_file" [] path).
Definition acl_get_entry (acl which : Z) : M S reply := sys (Cextern "acl_get_entry" [acl; which] []).
Definition acl_create_entry (acl : Z) : M S reply := sys (Cextern "acl_create_entry" [acl] []).
Definition acl_delete_entry (acl entry : Z) : M S reply := sys (Cextern "acl_delete_entry" [acl; entry] []).
Definition acl_get_tag_type (entry : Z) : M S reply := sys (Cextern "acl_get_tag_type" [entry] []).
Definition acl_set_tag_type (entry tag : Z) : M S reply := sys (Cextern "acl_set_tag_type" [entry; tag] []).
Definition acl_get_qualifier (entry : Z) : M S reply := sys (Cextern "acl_get_qualifier" [entry] []).
Definition acl_set_qualifier (entry id : Z) : M S reply := sys (Cextern "acl_set_qualifier" [entry; id] []).
Definition acl_get_permset (entry : Z) : M S reply := sys (Cextern "acl_get_permset" [entry] []).
Definition acl_set_permset (entry permset : Z) : M S reply := sys (Cextern "acl_set_permset" [entry; permset] []).
Definition acl_clear_perms (permset : Z) : M S reply := sys (Cextern "acl_clear_perms" [permset] []).
Definition acl_add_perm (permset perm : Z) : M S reply := sys (Cextern "acl_add_perm" [permset; perm] []).
Definition acl_get_perm (permset perm : Z) : M S reply := sys (Cextern "acl_get_perm" [permset; perm] []).
Definition acl_calc_mask (acl : Z) : M S reply := sys (Cextern "acl_calc_mask" [acl] []).
Definition acl_valid (acl : Z) : M S reply := sys (Cextern "acl_valid" [acl] []).
Definition acl_free (obj : Z) : M S reply := sys (Cextern "acl_free" [obj] []).

(** A call that ends the program when it fails. *)
Definition must (m : M S reply) (msg : cstr) : M S reply :=
  r ← m;
  if rv r =? -1 then errExit msg else mret r.
End Calls.

(** ** acl_update.c *)

Section Update.
Context {S : Type} `{os}.

Definition usage_lines (progName : cstr) : list cstr :=
  [str "Usage: " ++ progName ++ str " -m acl [-d] [-n] file..." ++ [NL];
   str "   or: " ++ progName ++ str " -x acl [-d] [-n] file..." ++ [NL];
   str "   or: " ++ progName ++ str " -k file..." ++ [NL; NL];
   str "   or: " ++ progName ++ str " -V acl" ++ [NL; NL];
   str "      -m  Modify/create ACL entries" ++ [NL];
   str "      -x  Remove ACL entries" ++ [NL];
   str "      -k  Remove default ACL" ++ [NL; NL];
   str "      -V  Check validity of 'acl'" ++ [NL; NL];
   str "      'acl' consists of one or more comma-separated entries of the form:" ++ [NL];
   str "      " ++ [NL] ++ str "            tag:[qualifier][:[perms]]" ++ [NL; NL];
   str "            'perms' are specified only for -m" ++ [NL; NL];
   str "      -d  Apply operation to default ACL" ++ [NL];
   str "      -n  Don't recalculate mask entry" ++ [NL];
   str "            NOTE: if you specify this option and have specified" ++ [NL];
   str "            the -m option, then you may encounter errors if the" ++ [NL];
   str "            file does not already have a mask entry." ++ [NL]].

Definition usageError {A} (progName : cstr) (msg : option cstr) (shortUsage : bool) : M S A :=
  match msg with Some m => out Stderr (m ++ [NL]) | None => mret tt end;;
  if shortUsage then
    out Stderr (str "Type '" ++ progName ++ str " --help' for usage information" ++ [NL]);;
    stop_with (Exit 1)
  else
    for_each (usage_lines progName) (out Stderr);;
    stop_with (Exit 1).

(** The qualifier of an entry: read, compared, freed. *)
Definition same_qualifier (entry qual : Z) : M S bool :=
  idp ← must (acl_get_qualifier entry) (str "acl_get_qualifier");
  must (acl_free (rv idp)) (str "acl_free");;
  mret (qual =? wrap_u 32 (le (rdata idp))).

(** One turn of the loop of findEntry; [inr] is what it returns. *)
Definition find_turn (acl tag qual ent : Z) : M S (Z + option Z) :=
  s ← must (acl_get_entry acl ent) (str "acl_get_entry");
  if rv s =? 0 then mret (inr None) else
  let entry := le (rdata s) in
  t ← must (acl_get_tag_type entry) (str "acl_get_tag_type");
  if tag =? le (rdata t) then
    if (tag =? ACL_USER) || (tag =? ACL_GROUP) then
      same ← same_qualifier entry qual;
      mret (if (same : bool) then inr (Some entry) else inl ACL_NEXT_ENTRY)
    else mret (inr (Some entry))
  else mret (inl ACL_NEXT_ENTRY).

Definition findEntry (fuel : nat) (acl tag qual : Z) : M S (option Z) :=
  loop fuel (find_turn acl tag qual) ACL_FIRST_ENTRY.

Definition add_perm_if (perms permset bit : Z) : M S unit :=
  when (tst perms bit) (must (acl_add_perm permset bit) (str "acl_add_perm");; mret tt).

Definition setPerms (entry perms : Z) : M S unit :=
  r ← must (acl_get_permset entry) (str "acl_get_permset");
  let permset := le (rdata r) in
  must (acl_clear_perms permset) (str "acl_clear_perms");;
  add_perm_if perms permset ACL_READ;;
  add_perm_if perms permset ACL_WRITE;;
  add_perm_if perms permset ACL_EXECUTE;;
  must (acl_set_permset entry permset) (str "acl_set_permset");;
  mret tt.

(** A new entry with the tag and the qualifier; the ACL may move: its address
    and the entry's are what acl_create_entry stores. *)
Definition new_entry (acl : Z) (a : AccessControlEntry) : M S (Z * Z) :=
  r ← must (acl_create_entry acl) (str "acl_create_entry");
  let acl := le (take 8 (rdata r)) in
  let entry := le (drop 8 (rdata r)) in
  must (acl_set_tag_type entry (tag a)) (str "acl_set_tag_type");;
  when ((tag a =? ACL_USER) || (tag a =? ACL_GROUP))
    (must (acl_set_qualifier entry (qual a)) (str "acl_set_qualifier");; mret tt);;
  mret (acl, entry).

Definition perms_set (a : AccessControlEntry) : M S Z :=
  match perms a with Some p => mret p | None => stop_with (Undefined "permissions that were not set") end.

(** The change one entry of the list asks for; the result is the address of
    the ACL. *)
Definition apply_entry (fuel : nat) (removeACL : bool) (acl : Z) (a : AccessControlEntry) : M S Z :=
  entry ← findEntry fuel acl (tag a) (qual a);
  if removeACL then
    match entry with Some e => must (acl_delete_entry acl e) (str "acl_delete_entry");; mret acl | None => mret acl end
  else
    '(acl, e) ← match entry with Some e => mret (acl, e) | None => new_entry acl a end;
    p ← perms_set a;
    setPerms e p;;
    mret acl.

(** One turn of the loop over the list: the change, the mask, the check and
    the file. *)
Definition update_entry (fuel : nat) (removeACL recalcMask : bool) (path : cstr) (type acl : Z) (a : AccessControlEntry) : M S Z :=
  acl ← apply_entry fuel removeACL acl a;
  acl ← (if recalcMask then r ← must (acl_calc_mask acl) (str "acl_calc_mask"); mret (le (rdata r)) else mret acl);
  must (acl_valid acl) (str "acl_valid");;
  must (acl_set_file path type acl) (str "acl_set_file");;
  mret acl.

Fixpoint update_entries (fuel : nat) (removeACL recalcMask : bool) (path : cstr) (type acl : Z) (l : list AccessControlEntry) : M S Z :=
  match l with
  | [] => mret acl
  | a :: l => acl ← update_entry fuel removeACL recalcMask path type acl a; update_entries fuel removeACL recalcMask path type acl l
  end.

Definition update_file (fuel : nat) (removeACL recalcMask : bool) (type : Z) (l : list AccessControlEntry) (path : cstr) : M S unit :=
  acl ← must (acl_get_file path type) (str "acl_get_file");
  acl ← update_entries fuel removeACL recalcMask path type (rv acl) l;
  must (acl_free acl) (str "acl_free");;
  mret tt.

(** The variables the options set. *)
Record options := Options {
  recalcMask : bool; useDefaultACL : bool; modifyACL : bool; removeACL : bool; removeDefaultACL : bool; checkValidity : bool;
  aclSpec : option cstr; optCnt : Z }.

(** "m:x:kdnV:" *)
Definition acl_spec (c : ascii) : option bool :=
  if decide (c ∈ str "mxV") then Some true else if decide (c ∈ str "kdn") then Some false else None.

Definition acl_option (prog : cstr) (o : options) (f : found) : M S options :=
  let 'Options rm df md re rd cv sp n := o in
  match f with
  | Opt c optarg =>
      if decide (c = "m"%char) then mret (Options rm df true re rd cv optarg (n + 1))
      else if decide (c = "x"%char) then mret (Options rm df md true rd cv optarg (n + 1))
      else if decide (c = "k"%char) then mret (Options rm df md re true cv sp (n + 1))
      else if decide (c = "V"%char) then mret (Options rm df md re rd true optarg (n + 1))
      else if decide (c = "d"%char) then mret (Options rm true md re rd cv sp n)
      else if decide (c = "n"%char) then mret (Options false df md re rd cv sp n)
      else usageError prog (Some (str "Bad option" ++ [NL])) true
  | _ => out Stderr (default [] (getopt_complaint prog f));; usageError prog (Some (str "Bad option" ++ [NL])) true
  end.

Fixpoint acl_options (prog : cstr) (o : options) (fs : list found) : M S options :=
  match fs with
  | [] => mret o
  | f :: fs => o ← acl_option prog o f; acl_options prog o fs
  end.

(** What is done to one file. *)
Definition process_file (fuel : nat) (o : options) (l : list AccessControlEntry) (path : cstr) : M S unit :=
  let type := if useDefaultACL o then ACL_TYPE_DEFAULT else ACL_TYPE_ACCESS in
  if removeDefaultACL o then
    must (acl_delete_def_file path) (str "acl_delete_def_file: " ++ path);; mret tt
  else if modifyACL o || removeACL o then update_file fuel (removeACL o) (recalcMask o) type l path
  else fatal (str "Bad logic!").

(** The text of an option with an argument: getopt has set it. *)
Definition spec_text (o : options) : cstr := default [] (aclSpec o).

Definition acl_update_main (fuel : nat) (prog : cstr) (args : list cstr) : M S unit :=
  if match args with [] => true | a :: _ => streq a (str "--help") end then usageError prog None false else
  let '(fs, files) := getopt_env acl_spec args in
  o ← acl_options prog (Options true false false false false false None 0) fs;
  if negb (optCnt o =? 1) then usageError prog (Some (str "Specify exactly one of -m, -x, -k, or -V" ++ [NL])) true else
  if checkValidity o && useDefaultACL o then usageError prog (Some (str "Can't specify -d with -V" ++ [NL])) true else
  if checkValidity o then
    l ← parseACL (spec_text o) true;
    match l with
    | None => fatal (str "Bad ACL entry specification")
    | Some _ => out Stdout (str "ACL is valid" ++ [NL]);; stop_with (Exit 0)
    end
  else
    l ← (if modifyACL o || removeACL o then
           l ← parseACL (spec_text o) (modifyACL o);
           match l with Some l => mret l | None => usageError prog (Some (str "Bad ACL specification" ++ [NL])) true end
         else mret []);
    for_each files (process_file fuel o l);;
    stop_with (Exit 0).
End Update.

(** ** acl_view.c *)

Definition pad_right (w : nat) (s : cstr) : cstr := s ++ replicate (w - length s) " "%char.

Section View.
Context {S : Type} `{os}.

Definition view_usage {A} (prog : cstr) : M S A :=
  out Stderr (str "Usage: " ++ prog ++ str " [-d] filename" ++ [NL]);;
  stop_with (Exit 1).

Definition tag_name (tag : Z) : cstr :=
  if tag =? ACL_USER_OBJ then str "user_obj" else if tag =? ACL_USER then str "user"
  else if tag =? ACL_GROUP_OBJ then str "group_obj" else if tag =? ACL_GROUP then str "group"
  else if tag =? ACL_MASK then str "mask" else if tag =? ACL_OTHER then str "other" else str "???".

(** The qualifier of a user or of a group: its name, or the number as an int. *)
Definition show_qualifier (entry : Z) (name_of : Z → M S (option cstr)) : M S unit :=
  idp ← must (acl_get_qualifier entry) (str "acl_get_qualifier");
  let id := wrap_u 32 (le (rdata idp)) in
  name ← name_of id;
  out Stdout (pad_right 8 (default (dec (wrap_s 32 id)) name) ++ str " ");;
  must (acl_free (rv idp)) (str "acl_free");;
  mret tt.

Definition show_perm (permset bit : Z) (msg : cstr) (letter : ascii) : M S unit :=
  v ← must (acl_get_perm permset bit) msg;
  out Stdout [if rv v =? 1 then letter else "-"%char].

(** One turn of the loop over the entries. *)
Definition view_turn (acl entryId : Z) : M S (Z + unit) :=
  r ← acl_get_entry acl entryId;
  if negb (rv r =? 1) then mret (inr tt) else
  let entry := le (rdata r) in
  t ← must (acl_get_tag_type entry) (str "acl_get_tag_type");
  let tag := le (rdata t) in
  out Stdout (pad_right 12 (tag_name tag));;
  (if tag =? ACL_USER then show_qualifier entry userNameFromId
   else if tag =? ACL_GROUP then show_qualifier entry groupNameFromId
   else out Stdout (str "         "));;
  p ← must (acl_get_permset entry) (str "acl_get_permset");
  let permset := le (rdata p) in
  show_perm permset ACL_READ (str "acl_get_perm - ACL_READ") "r"%char;;
  show_perm permset ACL_WRITE (str "acl_get_perm - ACL_WRITE") "w"%char;;
  show_perm permset ACL_EXECUTE (str "acl_get_perm - ACL_EXECUTE") "x"%char;;
  out Stdout [NL];;
  mret (inl ACL_NEXT_ENTRY).

Fixpoint view_type (prog : cstr) (type : Z) (fs : list found) : M S Z :=
  match fs with
  | [] => mret type
  | Opt _ _ :: fs => view_type prog ACL_TYPE_DEFAULT fs
  | f :: _ => out Stderr (default [] (getopt_complaint prog f));; view_usage prog
  end.

Definition acl_view_main (fuel : nat) (prog : cstr) (args : list cstr) : M S unit :=
  let '(fs, files) := getopt_env (λ c, if decide (c = "d"%char) then Some false else None) args in
  type ← view_type prog ACL_TYPE_ACCESS fs;
  match files with
  | [path] =>
      acl ← must (acl_get_file path type) (str "acl_get_file");
      loop fuel (view_turn (rv acl)) ACL_FIRST_ENTRY;;
      must (acl_free (rv acl)) (str "acl_free");;
      stop_with (Exit 0)
  | _ => view_usage prog
  end.
End View.

(** ** What the library promises

    An entry is a tag with a qualifier (0 where the tag has none) and its
    permissions; an ACL in memory has its entries at addresses, and remembers
    how far acl_get_entry has come.  The order of the entries is the library's
    business. *)

Abbreviation key := (Z * Z)%type.
Abbreviation row := (Z * Z * Z)%type.

Record world := World {
  files : gmap (cstr * Z) (list row);
  acls : gmap Z (list (Z * row) * nat);
  permsets : gmap Z Z }.          (* the entry whose permissions a set is *)

Definition with_acls (w : world) (a : gmap Z (list (Z * row) * nat)) : world := World (files w) a (permsets w).

(** [acl] has the entries [rows]. *)
Definition has_rows (w : world) (acl : Z) (rows : list (Z * row)) : Prop := ∃ cur, acls w !! acl = Some (rows, cur).

(** The entries of [acl] become [rows], in some order. *)
Definition set_rows (w : world) (acl : Z) (rows : list (Z * row)) (w' : world) : Prop :=
  ∃ rows' cur, rows' ≡ₚ rows ∧ w' = with_acls w (<[acl := (rows', cur)]> (acls w)).

(** The entry at [e] becomes [f] of it. *)
Definition change (e : Z) (f : row → row) (rows : list (Z * row)) : list (Z * row) :=
  (λ x, if decide (x.1 = e) then (e, f x.2) else x) <$> rows.

Definition change_in (w : world) (e : Z) (f : row → row) (w' : world) : Prop :=
  ∃ acl rows, has_rows w acl rows ∧ e ∈ rows.*1 ∧ set_rows w acl (change e f rows) w'.

(** The entry at [e] is [r]. *)
Definition entry_at (w : world) (e : Z) (r : row) : Prop := ∃ acl rows, has_rows w acl rows ∧ (e, r) ∈ rows.

Definition with_ids (tag : Z) : bool := (tag =? ACL_USER) || (tag =? ACL_GROUP).

(** acl_calc_mask: the union of the permissions of the group class. *)
Definition in_mask (k : key) : bool := (k.1 =? ACL_USER) || (k.1 =? ACL_GROUP_OBJ) || (k.1 =? ACL_GROUP).
Definition union_of (rows : list row) : Z := foldr Z.lor 0 (filter (λ r : row, in_mask r.1) rows).*2.
Definition mask_key : key := (ACL_MASK, 0).

(** What acl_valid checks: the three entries every ACL has, the mask that users
    and groups need, and no entry twice. *)
Definition valid_rows (rows : list row) : Prop :=
  (ACL_USER_OBJ, 0) ∈ rows.*1 ∧ (ACL_GROUP_OBJ, 0) ∈ rows.*1 ∧ (ACL_OTHER, 0) ∈ rows.*1 ∧
  ((∃ k, k ∈ rows.*1 ∧ with_ids k.1) → mask_key ∈ rows.*1) ∧ NoDup rows.*1.

(** Calls that succeed. *)
Inductive lib_ok (w : world) : string → list Z → cstr → reply → world → Prop :=
  | ok_get_file type path r rows :
      acls w !! rv r = None → NoDup rows.*1 → rows.*2 ≡ₚ default [] (files w !! (path, type)) →
      lib_ok w "acl_get_file" [type] path r (with_acls w (<[rv r := (rows, O)]> (acls w)))
  | ok_set_file type acl path r rows rows' :
      has_rows w acl rows → rows' ≡ₚ rows.*2 →
      lib_ok w "acl_set_file" [type; acl] path r (World (<[(path, type) := rows']> (files w)) (acls w) (permsets w))
  | ok_delete_def_file path r :
      lib_ok w "acl_delete_def_file" [] path r (World (delete (path, ACL_TYPE_DEFAULT) (files w)) (acls w) (permsets w))
  | ok_get_entry acl which r rows cur i x :
      acls w !! acl = Some (rows, cur) → (which = ACL_FIRST_ENTRY ∧ i = O ∨ which = ACL_NEXT_ENTRY ∧ i = cur) →
      rows !! i = Some x → rv r = 1 → le (rdata r) = x.1 →
      lib_ok w "acl_get_entry" [acl; which] [] r (with_acls w (<[acl := (rows, Datatypes.S i)]> (acls w)))
  | ok_no_entry acl which r rows cur i :
      acls w !! acl = Some (rows, cur) → (which = ACL_FIRST_ENTRY ∧ i = O ∨ which = ACL_NEXT_ENTRY ∧ i = cur) →
      rows !! i = None → rv r = 0 → lib_ok w "acl_get_entry" [acl; which] [] r w
  | ok_create_entry acl acl' e r rows cur :
      acls w !! acl = Some (rows, cur) → acl' = acl ∨ acls w !! acl' = None → e ∉ rows.*1 →
      le (take 8 (rdata r)) = acl' → le (drop 8 (rdata r)) = e →
      lib_ok w "acl_create_entry" [acl] [] r
        (with_acls w (<[acl' := ((e, ((ACL_UNDEFINED_TAG, 0), 0)) :: rows, O)]> (delete acl (acls w))))
  | ok_delete_entry acl e r rows w' :
      has_rows w acl rows → e ∈ rows.*1 → set_rows w acl (filter (λ x, x.1 ≠ e) rows) w' →
      lib_ok w "acl_delete_entry" [acl; e] [] r w'
  | ok_get_tag_type e r x :
      entry_at w e x → le (rdata r) = x.1.1 → lib_ok w "acl_get_tag_type" [e] [] r w
  | ok_set_tag_type e tag r w' :
      change_in w e (λ x, ((tag, 0), x.2)) w' → lib_ok w "acl_set_tag_type" [e; tag] [] r w'
  | ok_get_qualifier e r x :
      entry_at w e x → with_ids x.1.1 → acls w !! rv r = None → wrap_u 32 (le (rdata r)) = x.1.2 →
      lib_ok w "acl_get_qualifier" [e] [] r w
  | ok_set_qualifier e id r w' :
      change_in w e (λ x, ((x.1.1, id), x.2)) w' → lib_ok w "acl_set_qualifier" [e; id] [] r w'
  | ok_get_permset e r p :
      le (rdata r) = p → lib_ok w "acl_get_permset" [e] [] r (World (files w) (acls w) (<[p := e]> (permsets w)))
  | ok_clear_perms p e r w' :
      permsets w !! p = Some e → change_in w e (λ x, (x.1, 0)) w' → lib_ok w "acl_clear_perms" [p] [] r w'
  | ok_add_perm p e bit r w' :
      permsets w !! p = Some e → change_in w e (λ x, (x.1, Z.lor x.2 bit)) w' → lib_ok w "acl_add_perm" [p; bit] [] r w'
  | ok_get_perm p e bit r x :
      permsets w !! p = Some e → entry_at w e x → rv r = (if tst x.2 bit then 1 else 0) →
      lib_ok w "acl_get_perm" [p; bit] [] r w
  | ok_set_permset e p r :                (* the permissions are the entry's own *)
      permsets w !! p = Some e → lib_ok w "acl_set_permset" [e; p] [] r w
  | ok_calc_mask acl acl' e r rows cur rows' :
      acls w !! acl = Some (rows, cur) → acl' = acl ∨ acls w !! acl' = None → le (rdata r) = acl' →
      (mask_key ∈ rows.*2.*1 ∧ rows' = (λ x, if decide (x.2.1 = mask_key) then (x.1, (mask_key, union_of rows.*2)) else x) <$> rows ∨
       (mask_key ∉ rows.*2.*1) ∧ (e ∉ rows.*1) ∧ rows' = (e, (mask_key, union_of rows.*2)) :: rows) →
      lib_ok w "acl_calc_mask" [acl] [] r (with_acls w (<[acl' := (rows', O)]> (delete acl (acls w))))
  | ok_valid acl r rows :
      has_rows w acl rows → valid_rows rows.*2 → lib_ok w "acl_valid" [acl] [] r w
  | ok_free_acl acl r rows :
      has_rows w acl rows → lib_ok w "acl_free" [acl] [] r (with_acls w (delete acl (acls w)))
  | ok_free_qualifier p r :
      acls w !! p = None → lib_ok w "acl_free" [p] [] r w.

Definition lib_fn (fn : string) : bool := bool_decide (fn ∈
  ["acl_get_file"; "acl_set_file"; "acl_delete_def_file"; "acl_get_entry"; "acl_create_entry"; "acl_delete_entry";
   "acl_get_tag_type"; "acl_set_tag_type"; "acl_get_qualifier"; "acl_set_qualifier"; "acl_get_permset"; "acl_set_permset";
   "acl_clear_perms"; "acl_add_perm"; "acl_get_perm"; "acl_calc_mask"; "acl_valid"; "acl_free"]%string).

(** A call fails and changes nothing, or does what it says; other calls, and
    other processes, leave the ACLs alone. *)
Definition lib_step (w : world) (c : call) (r : reply) (w' : world) : Prop :=
  match c with
  | Cextern fn ints text => if lib_fn fn then (rv r = -1 ∧ w' = w) ∨ (rv r ≠ -1 ∧ lib_ok w fn ints text r w') else w' = w
  | _ => w' = w
  end.

Class library (K : os) := Library {
  view : list event → world;
  view_sys : ∀ tr c, lib_step (view tr) c (kern tr c) (view (tr ++ [Esys c (kern tr c)]));
  view_out : ∀ tr f t, view (tr ++ [Eout f t]) = view tr }.

(** ** Lemmas on the library *)

Arguments set_rows : simpl never.
Arguments change : simpl never.
Arguments valid_rows : simpl never.
Arguments union_of : simpl never.

(** The one ACL in memory is [acl], with the entries [rows] in some order, each
    at an address of its own. *)
Definition holds (w : world) (acl : Z) (rows : list (Z * row)) : Prop :=
  NoDup rows.*1 ∧ ∃ rows' cur, acls w = {[acl := (rows', cur)]} ∧ rows' ≡ₚ rows.

Lemma holds_perm w acl rows rows' : holds w acl rows → rows ≡ₚ rows' → holds w acl rows'.
Proof.
  intros (Hn & r & cur & E & Hr) Hp. split; [by rewrite <-Hp|]. exists r, cur. split; [done|by etrans].
Qed.

Lemma holds_has w acl rows a rs : holds w acl rows → has_rows w a rs → a = acl ∧ rs ≡ₚ rows.
Proof.
  intros (_ & r & cur & E & Hr) (c & Ha). rewrite E in Ha. apply lookup_singleton_Some in Ha as [<- Ha].
  injection Ha as <- <-. done.
Qed.

Lemma holds_set w acl rows rows' w' : holds w acl rows → NoDup rows'.*1 → set_rows w acl rows' w' →
  holds w' acl rows' ∧ files w' = files w ∧ permsets w' = permsets w.
Proof.
  intros (_ & r & cur & E & Hr) Hn (rs & c & Hp & ->). split; [|done]. split; [done|]. exists rs, c. cbn. rewrite E.
  split; [by rewrite insert_singleton_eq|done].
Qed.

Lemma change_fst e f rows : (change e f rows).*1 = rows.*1.
Proof. unfold change. rewrite <-list_fmap_compose. apply list_fmap_ext. intros i [h y] _. cbn. by case_decide. Qed.

Lemma change_perm e f rows rows' : rows ≡ₚ rows' → change e f rows ≡ₚ change e f rows'.
Proof. intros H. unfold change. by rewrite H. Qed.

Lemma change_other e f rows : e ∉ rows.*1 → change e f rows = rows.
Proof.
  intros He. unfold change. rewrite <-(list_fmap_id rows) at 2. apply list_fmap_ext. intros i [h y] Hx. cbn.
  rewrite decide_False; [done|]. intros ->. apply He, list_elem_of_fmap. exists (e, y). split; [done|]. by eapply list_elem_of_lookup_2.
Qed.

Lemma change_cons e f x rows : e ∉ rows.*1 → change e f ((e, x) :: rows) = (e, f x) :: rows.
Proof. intros He. unfold change. cbn [fmap list_fmap]. rewrite decide_True by done. f_equal. by apply change_other. Qed.

(** Changing the entry at the head. *)
Lemma holds_change w acl e x rest f w' : holds w acl ((e, x) :: rest) → change_in w e f w' →
  holds w' acl ((e, f x) :: rest) ∧ files w' = files w ∧ permsets w' = permsets w.
Proof.
  intros Hw (a & rs & Hh & _ & Hs). pose proof (proj1 Hw) as Hn. cbn in Hn. apply NoDup_cons in Hn as [He Hn].
  destruct (holds_has _ _ _ _ _ Hw Hh) as [-> Hp].
  assert (holds w acl rs) as Hw' by (eapply holds_perm; [exact Hw|done]).
  assert (NoDup (change e f rs).*1) as Hn' by (rewrite change_fst; apply Hw').
  destruct (holds_set _ _ _ _ _ Hw' Hn' Hs) as (H1 & H2 & H3). split; [|done]. eapply holds_perm; [exact H1|].
  rewrite (change_perm _ _ _ _ Hp). by rewrite change_cons.
Qed.

(** What is at an address. *)
Lemma holds_at w acl e x y rest : holds w acl ((e, x) :: rest) → entry_at w e y → y = x.
Proof.
  intros Hw (a & rs & Hh & Hin). destruct (holds_has _ _ _ _ _ Hw Hh) as [-> Hp]. rewrite Hp in Hin.
  destruct Hw as [Hn _]. cbn in Hn. apply NoDup_cons in Hn as [He _]. apply elem_of_cons in Hin as [[= ->]|Hin]; [done|].
  exfalso. apply He, list_elem_of_fmap. by exists (e, y).
Qed.

Lemma filter_all {A} (P : A → Prop) `{∀ x, Decision (P x)} (l : list A) : (∀ x, x ∈ l → P x) → filter P l = l.
Proof.
  induction l as [|x l IH]; intros HP; [done|]. rewrite filter_cons_True by (apply HP, elem_of_cons; by left).
  f_equal. apply IH. intros y Hy. apply HP, elem_of_cons. by right.
Qed.

(** Every call, run by a program that gives up when it fails. *)
Section Runs.
Context {S : Type} {K : os} {L : library K}.
Implicit Types s : st S.

Definition seen_world (s : st S) : world := view (trace s).
Definition no_acl (e : event) : Prop := match e with Esys (Cextern fn _ _) _ => lib_fn fn = false | _ => True end.

Lemma ran_view tr tr' : ran no_acl tr tr' → view tr' = view tr.
Proof using.
  induction 1 as [|tr' c _ IH Hc|tr' f t _ IH _]; [done| |by rewrite view_out].
  pose proof (view_sys tr' c) as Hv. rewrite <-IH. destruct c; cbn in Hv, Hc; try done. by rewrite Hc in Hv.
Qed.

Lemma wp_must fn ints text msg (Q : reply → st S → Prop) (E : stop → st S → Prop) s :
  lib_fn fn = true →
  (∀ s', seen_world s' = seen_world s → E (end_of true) s') →
  (∀ r s', lib_ok (seen_world s) fn ints text r (seen_world s') → Q r s') →
  wp (must (sys (Cextern fn ints text)) msg) Q E s.
Proof using.
  intros Hfn HE HQ. unfold must. apply wp_bind, wp_sys. pose proof (view_sys (trace s) (Cextern fn ints text)) as Hv. cbn in Hv.
  rewrite Hfn in Hv. cbn beta. set (r := kern _ _) in *. destruct Hv as [[Hr Hv]|[Hr Hv]].
  - rewrite (proj2 (Z.eqb_eq _ _) Hr). apply wp_errExit_ran. intros s' Hran Hg. apply HE. unfold seen_world. cbn in Hran.
    rewrite <-Hv. apply ran_view. eapply ran_mono; [|exact Hran]. by intros [[]|].
  - rewrite (proj2 (Z.eqb_neq _ _) Hr). apply wp_ret, HQ, Hv.
Qed.

(** The world but for the ACLs in memory. *)
Definition same_rest (w w' : world) : Prop := files w' = files w ∧ permsets w' = permsets w.

(** A stop that leaves the files as they are in [w]. *)
Definition stops_at (F : gmap (cstr * Z) (list row)) (E : stop → st S → Prop) : Prop :=
  ∀ s, files (seen_world s) = F → E (end_of true) s.

(** The key of an entry of the list. *)
Definition ace_key (a : AccessControlEntry) : key := (tag a, if with_ids (tag a) then qual a else 0).
Definition well_formed (ks : list key) : Prop := NoDup ks ∧ ∀ k, k ∈ ks → with_ids k.1 = false → k.2 = 0.

Lemma entry_at_lookup w acl r c i e x y :
  acls w = {[acl := (r, c)]} → NoDup r.*1 → r !! i = Some (e, x) → entry_at w e y → y = x.
Proof using.
  intros E Hn Hi Hy. assert (holds w acl r) as Hw by (split; [done|by exists r, c]).
  apply list_elem_of_lookup_2, list_elem_of_split in Hi as (l1 & l2 & ->).
  eapply (holds_at w acl e x y (l1 ++ l2)); [|done]. eapply holds_perm; [exact Hw|]. by rewrite <-Permutation_middle.
Qed.

Lemma wp_same_qualifier acl r c i e x (id : Z) (Q : bool → st S → Prop) E s :
  acls (seen_world s) = {[acl := (r, c)]} → NoDup r.*1 → r !! i = Some (e, x) →
  stops_at (files (seen_world s)) E →
  (∀ s', seen_world s' = seen_world s → Q (id =? x.1.2) s') →
  wp (same_qualifier e id) Q E s.
Proof using.
  intros Hw Hn Hi HE HQ. unfold same_qualifier. apply wp_bind, wp_must; [done|intros s' Hs'; apply HE; by rewrite Hs'|].
  intros r1 s1 H1. inversion H1 as [| | | | | | | | |e' r1' y Hy _ Hfree Hid| | | | | | | | | |]; subst.
  assert (y = x) as -> by (eapply entry_at_lookup; [|exact Hn|exact Hi|exact Hy]; exact Hw).
  apply wp_bind, wp_must; [done|intros s' Hs'; apply HE; rewrite Hs'; congruence|].
  intros r2 s2 H2. cbn beta. apply wp_ret. rewrite Hid. apply HQ.
  inversion H2 as [| | | | | | | | | | | | | | | | | |a' r' rows' Ha| ]; subst; [|congruence].
  exfalso. destruct Ha as [c' Ha]. congruence.
Qed.

(** The search has passed [i] entries, none of them the one looked for. *)
Definition passed (acl : Z) (r : list (Z * row)) (k : key) (w : world) (ent : Z) (s : st S) : Prop :=
  ∃ i cur, acls (seen_world s) = {[acl := (r, cur)]} ∧ same_rest w (seen_world s) ∧ (i <= length r)%nat ∧
    (ent = ACL_FIRST_ENTRY ∧ i = O ∨ ent = ACL_NEXT_ENTRY ∧ i = cur) ∧ ∀ x, x ∈ take i r → x.2.1 ≠ k.

(** How far the search has to go. *)
Definition to_pass (acl : Z) (r : list (Z * row)) (ent : Z) (s : st S) : nat :=
  if ent =? ACL_FIRST_ENTRY then length r else (length r - match acls (seen_world s) !! acl with Some (_, cur) => cur | None => O end)%nat.

Definition found_entry (acl : Z) (r : list (Z * row)) (k : key) (w : world) (e : option Z) (s : st S) : Prop :=
  (∃ cur, acls (seen_world s) = {[acl := (r, cur)]}) ∧ same_rest w (seen_world s) ∧
  match e with Some e => ∃ p, (e, (k, p)) ∈ r | None => k ∉ r.*2.*1 end.

Lemma passed_end (r : list (Z * row)) (k : key) i :
  r !! i = None → (∀ x, x ∈ take i r → x.2.1 ≠ k) → k ∉ r.*2.*1.
Proof using.
  intros Hi Hx [y [-> Hy]]%list_elem_of_fmap. apply list_elem_of_fmap in Hy as [x [-> Hx']].
  apply lookup_ge_None in Hi. rewrite take_ge in Hx by done. by apply (Hx x).
Qed.

Lemma find_turn_spec acl (r : list (Z * row)) a w ent s (E : stop → st S → Prop) :
  NoDup r.*1 → well_formed r.*2.*1 → stops_at (files w) E → passed acl r (ace_key a) w ent s →
  wp (find_turn acl (tag a) (qual a) ent) (λ res s', match res with
    | inl ent' => passed acl r (ace_key a) w ent' s' ∧ (to_pass acl r ent' s' < to_pass acl r ent s)%nat
    | inr e => found_entry acl r (ace_key a) w e s'
    end) E s.
Proof using.
  intros Hn [_ Hwf] HE (i & cur & Hw & [Hf Hp] & Hi & Hent & Hpassed). unfold find_turn.
  assert (stops_at (files (seen_world s)) E) as HE0 by by rewrite Hf.
  apply wp_bind, wp_must; [done|intros s' Hs'; apply HE0; by rewrite Hs'|]. intros r1 s1 H1. cbn beta.
  inversion H1 as [| | |? ? ? rows cur' i' [e x] Ha Hw1 Hx Hrv He|? ? ? rows cur' i' Ha Hw1 Hx Hrv| | | | | | | | | | | | | | |]; subst;
    match goal with E : _ = seen_world s1 |- _ => rename E into Heq end; rewrite Hw in Ha; apply lookup_singleton_Some in Ha as [_ [= <- <-]];
    assert (i' = i) as -> by (destruct Hent as [[-> ->]|[-> ->]], Hw1 as [[? ->]|[? ->]]; done).
  2: { rewrite Hrv, Z.eqb_refl. apply wp_ret. cbv beta iota. split; [exists cur; congruence|]. split; [split; congruence|by eapply passed_end]. }
  rewrite Hrv. change (1 =? 0) with false. cbn iota. cbn in He.
  assert (acls (seen_world s1) = {[acl := (r, Datatypes.S i)]}) as Hw1' by (rewrite <-Heq; cbn; by rewrite Hw, insert_singleton_eq).
  assert (same_rest w (seen_world s1)) as Hs1 by (rewrite <-Heq; done).
  assert (stops_at (files (seen_world s1)) E) as HE1 by (rewrite (proj1 Hs1); done).
  assert (i < length r)%nat as Hi' by by eapply lookup_lt_Some.
  assert (∀ s', seen_world s' = seen_world s1 → x.1 ≠ ace_key a →
    passed acl r (ace_key a) w ACL_NEXT_ENTRY s' ∧ (to_pass acl r ACL_NEXT_ENTRY s' < to_pass acl r ent s)%nat) as Hnext.
  { intros s' Hs' Hk. split.
    - exists (Datatypes.S i), (Datatypes.S i). rewrite Hs'. split; [done|]. split; [exact Hs1|]. split; [exact Hi'|]. split; [by right|].
      intros y. rewrite (take_S_r _ _ (e, x)) by done. rewrite elem_of_app, list_elem_of_singleton. intros [Hy| ->]; [by apply Hpassed|done].
    - unfold to_pass. rewrite Hs', Hw1', Hw, !lookup_singleton_eq. cbn. destruct Hent as [[-> ->]|[-> ->]]; cbn; lia. }
  apply wp_bind, wp_must; [done|intros s' Hs'; apply HE1; by rewrite Hs'|]. intros r2 s2 H2. cbn beta.
  inversion H2 as [| | | | | | |? ? y Hy Hy'| | | | | | | | | | | |]; subst.
  match goal with E : _ = seen_world s2 |- _ => rename E into Hv end.
  assert (y = x) as -> by (eapply entry_at_lookup; [|exact Hn|exact Hx|exact Hy]; exact Hw1').
  rewrite Hy'. destruct x as [[t q] p]. cbn [fst snd] in *.
  assert (with_ids (tag a) = (tag a =? ACL_USER) || (tag a =? ACL_GROUP)) as Hids by done.
  destruct (Z.eqb_spec (tag a) t) as [Ht|Ht].
  2: { apply wp_ret. cbv beta iota. apply Hnext; [congruence|]. cbn. unfold ace_key. congruence. }
  assert (∀ s', seen_world s' = seen_world s1 → (t, q) = ace_key a → found_entry acl r (ace_key a) w (Some (le (rdata r1))) s') as Hfound.
  { intros s' Hs' Hk. split; [exists (Datatypes.S i); congruence|]. split; [by rewrite Hs'|]. exists p. rewrite <-Hk. by eapply list_elem_of_lookup_2. }
  unfold ace_key in *. rewrite <-Hids, Ht in *. destruct (with_ids t) eqn:Hids'.
  - apply wp_bind. eapply wp_same_qualifier; [|exact Hn|exact Hx|by rewrite <-Hv|]; [by rewrite <-Hv|].
    intros s3 H3. cbn [fst snd]. apply wp_ret. destruct (Z.eqb_spec (qual a) q) as [Hq|Hq]; cbv beta iota.
    + apply Hfound; congruence.
    + apply Hnext; congruence.
  - apply wp_ret. cbv beta iota. apply Hfound; [congruence|]. f_equal. apply (Hwf (t, q)); [|done].
    apply list_elem_of_fmap. exists ((t, q), p). split; [done|]. apply list_elem_of_fmap. exists (le (rdata r1), ((t, q), p)). split; [done|].
    by eapply list_elem_of_lookup_2.
Qed.

Lemma findEntry_spec fuel acl rows a s (E : stop → st S → Prop) :
  holds (seen_world s) acl rows → well_formed rows.*2.*1 → (length rows < fuel)%nat → stops_at (files (seen_world s)) E →
  wp (findEntry fuel acl (tag a) (qual a)) (λ e s', holds (seen_world s') acl rows ∧ same_rest (seen_world s) (seen_world s') ∧
    match e with Some e => ∃ p, (e, (ace_key a, p)) ∈ rows | None => ace_key a ∉ rows.*2.*1 end) E s.
Proof using.
  intros (Hn & r & cur & Hw & Hp) Hwf Hf HE.
  assert (NoDup r.*1) as Hn' by by rewrite Hp.
  assert (well_formed r.*2.*1) as Hwf' by (destruct Hwf as [H1 H2]; split; [by rewrite Hp|intros k; rewrite Hp; apply H2]).
  eapply wp_mono; [eapply (wp_loop (passed acl r (ace_key a) (seen_world s)) (to_pass acl r))| |done].
  - exists O, cur. split; [done|]. split; [done|]. split; [lia|]. split; [by left|]. intros x Hx. by apply not_elem_of_nil in Hx.
  - unfold to_pass. cbn. by rewrite Hp.
  - intros ent s1 H1. by apply find_turn_spec.
  - intros e s' ((c & Hc) & Hs & He). cbn beta. split; [|split; [done|]].
    + split; [done|]. by exists r, c.
    + destruct e; [|by rewrite Hp in He]. destruct He as [p He]. exists p. by rewrite Hp in He.
Qed.

(** ** Permissions *)

Lemma tst_mod8 p b : b ∈ [4; 2; 1] → tst p b = tst (p mod 8) b.
Proof using.
  intros Hb. unfold tst. f_equal. f_equal. change 8 with (2 ^ 3). rewrite <-Z.land_ones, <-Z.land_assoc by lia. f_equal.
  rewrite !elem_of_cons, elem_of_nil in Hb. by destruct Hb as [-> |[-> |[-> |[]]]].
Qed.

(** The three bits, added one by one. *)
Lemma add_bits p :
  let add (b acc : Z) := if tst p b then Z.lor acc b else acc in
  add ACL_EXECUTE (add ACL_WRITE (add ACL_READ 0)) = Z.land p 7.
Proof using.
  cbn zeta. change 7 with (Z.ones 3). rewrite Z.land_ones by lia. change (2 ^ 3) with 8.
  unfold ACL_READ, ACL_WRITE, ACL_EXECUTE. rewrite (tst_mod8 p 4), (tst_mod8 p 2), (tst_mod8 p 1) by (rewrite !elem_of_cons; auto).
  pose proof (Z.mod_pos_bound p 8 ltac:(lia)) as Hb. generalize dependent (p mod 8). intros m Hm.
  assert (m ∈ [0; 1; 2; 3; 4; 5; 6; 7]) as Hin by (rewrite !elem_of_cons; lia).
  rewrite !elem_of_cons, elem_of_nil in Hin. repeat destruct Hin as [-> |Hin]; done.
Qed.

(** Permissions are added to the entry [e] of the set [ps]. *)
Definition setting (acl e ps : Z) (k : key) (v : Z) (rest : list (Z * row)) (F : gmap (cstr * Z) (list row)) (s : st S) : Prop :=
  holds (seen_world s) acl ((e, (k, v)) :: rest) ∧ files (seen_world s) = F ∧ permsets (seen_world s) !! ps = Some e.

Lemma setting_stops acl e ps k v rest F s E s' :
  setting acl e ps k v rest F s → stops_at F E → seen_world s' = seen_world s → E (end_of true) s'.
Proof using. intros (_ & HF & _) HE Hs. apply HE. by rewrite Hs. Qed.

Lemma setting_change acl e ps k v rest F s s' f :
  setting acl e ps k v rest F s → change_in (seen_world s) e f (seen_world s') → (f (k, v)).1 = k →
  setting acl e ps k (f (k, v)).2 rest F s'.
Proof using.
  intros (Hh & HF & Hp) Hc Hk. destruct (holds_change _ _ _ _ _ _ _ Hh Hc) as (H1 & H2 & H3).
  split; [|split; congruence]. destruct (f (k, v)) as [k' v'] eqn:Ef. cbn in *. by subst.
Qed.

Lemma add_perm_if_spec p acl e ps k v rest F bit s (E : stop → st S → Prop) :
  setting acl e ps k v rest F s → stops_at F E →
  wp (add_perm_if p ps bit) (λ _ s', setting acl e ps k (if tst p bit then Z.lor v bit else v) rest F s') E s.
Proof using.
  intros Hs HE. unfold add_perm_if, when. destruct (tst p bit); [|by apply wp_ret].
  apply wp_bind, wp_must; [done|intros s'; by eapply setting_stops|]. intros r s' H1. cbn beta. apply wp_ret.
  inversion H1 as [| | | | | | | | | | | | |? e' ? ? ? Hp Hc| | | | | |]; subst.
  assert (e' = e) as -> by (destruct Hs as (_ & _ & Hp'); congruence).
  exact (setting_change _ _ _ _ _ _ _ _ s' _ Hs Hc eq_refl).
Qed.

Lemma setPerms_spec acl e k v rest p s (E : stop → st S → Prop) :
  holds (seen_world s) acl ((e, (k, v)) :: rest) → stops_at (files (seen_world s)) E →
  wp (setPerms e p) (λ _ s', holds (seen_world s') acl ((e, (k, Z.land p 7)) :: rest) ∧ files (seen_world s') = files (seen_world s)) E s.
Proof using.
  intros Hh HE. set (F := files (seen_world s)) in *. unfold setPerms.
  apply wp_bind, wp_must; [done|intros s' Hs'; apply HE; by rewrite Hs'|]. intros r1 s1 H1. cbn beta.
  inversion H1 as [| | | | | | | | | | |? ? ps Hps| | | | | | | |]; subst.
  match goal with E : _ = seen_world s1 |- _ => rename E into Hw end.
  assert (setting acl e (le (rdata r1)) k v rest F s1) as Hs1.
  { split; [|split]; rewrite <-Hw; cbn; [done|done|apply lookup_insert_eq]. }
  apply wp_bind, wp_must; [done|intros s'; by eapply setting_stops|]. intros r2 s2 H2. cbn beta.
  inversion H2 as [| | | | | | | | | | | |? e' ? ? Hp Hc| | | | | | |]; subst.
  assert (e' = e) as -> by (destruct Hs1 as (_ & _ & Hp'); congruence).
  apply (setting_change _ _ _ _ _ _ _ _ s2 _) with (2 := Hc) in Hs1; [|done]. cbn [snd] in Hs1.
  do 3 (apply wp_bind; eapply wp_mono; [eapply add_perm_if_spec; [done|done]|cbn beta; clear Hs1; intros _ ? Hs1|done]).
  rewrite add_bits in Hs1.
  apply wp_bind, wp_must; [done|intros t'; by eapply setting_stops|]. intros r6 s6 H6. cbn beta. apply wp_ret.
  inversion H6; subst. destruct Hs1 as (H7 & H8 & _). done.
Qed.
End Runs.

(** ** What an update does

    An ACL is a map from tags with their qualifiers to permissions. *)

Definition acl_map (l : list row) : gmap key Z := list_to_map l.
Definition mask_of (m : gmap key Z) : Z := union_of (map_to_list m).

(** One entry of the list, then the mask. *)
Definition changed (removeACL : bool) (a : AccessControlEntry) (m : gmap key Z) : gmap key Z :=
  if removeACL then delete (ace_key a) m else <[ace_key a := Z.land (default 0 (perms a)) 7]> m.
Definition masked (recalcMask : bool) (m : gmap key Z) : gmap key Z := if recalcMask then <[mask_key := mask_of m]> m else m.
Definition updated (removeACL recalcMask : bool) (a : AccessControlEntry) (m : gmap key Z) : gmap key Z :=
  masked recalcMask (changed removeACL a m).

Lemma union_of_perm l l' : l ≡ₚ l' → union_of l = union_of l'.
Proof.
  intros Hp. unfold union_of. apply (foldr_permutation_proper (=) Z.lor 0).
  - intros a1 a2 b. by rewrite !Z.lor_assoc, (Z.lor_comm a1).
  - by rewrite Hp.
Qed.

Lemma mask_of_map l : NoDup l.*1 → mask_of (acl_map l) = union_of l.
Proof. intros Hn. apply union_of_perm. by apply map_to_list_to_map. Qed.

Lemma acl_map_perm l l' : NoDup l.*1 → l ≡ₚ l' → acl_map l = acl_map l'.
Proof. intros Hn Hp. by apply list_to_map_proper. Qed.

Lemma well_formed_perm ks ks' : ks ≡ₚ ks' → well_formed ks → well_formed ks'.
Proof. intros Hp [H1 H2]. split; [by rewrite <-Hp|]. intros k. rewrite <-Hp. apply H2. Qed.

Lemma well_formed_key a : with_ids (ace_key a).1 = false → (ace_key a).2 = 0.
Proof. unfold ace_key. cbn. by intros ->. Qed.

Lemma well_formed_cons k ks : well_formed ks → k ∉ ks → (with_ids k.1 = false → k.2 = 0) → well_formed (k :: ks).
Proof.
  intros [H1 H2] Hk Hw. split; [by apply NoDup_cons|]. intros k' [-> |Hk']%elem_of_cons; [done|by apply H2].
Qed.

Lemma well_formed_tail k ks : well_formed (k :: ks) → well_formed ks ∧ k ∉ ks.
Proof. intros [[H1 H3]%NoDup_cons H2]. split; [|done]. split; [done|]. intros k' Hk'. apply H2. by apply elem_of_cons; right. Qed.

(** An ACL in memory, as a map. *)
Definition holds_map (w : world) (acl : Z) (m : gmap key Z) (n : nat) : Prop :=
  ∃ rows, holds w acl rows ∧ well_formed rows.*2.*1 ∧ acl_map rows.*2 = m ∧ (length rows <= n)%nat.

Lemma holds_map_more w acl m n n' : holds_map w acl m n → (n <= n')%nat → holds_map w acl m n'.
Proof. intros (r & H1 & H2 & H3 & H4) Hn. exists r. split_and!; [done..|lia]. Qed.

Lemma holds_change_map w acl e k p rest n : holds w acl ((e, (k, p)) :: rest) → well_formed (k :: rest.*2.*1) →
  (length rest < n)%nat → holds_map w acl (<[k := p]> (acl_map rest.*2)) n.
Proof. intros Hh Hw Hn. exists ((e, (k, p)) :: rest). split_and!; [done|done|done|cbn [length]; lia]. Qed.

(** The entry found, at the head. *)
Lemma holds_found w acl rows e k p : holds w acl rows → well_formed rows.*2.*1 → (e, (k, p)) ∈ rows →
  ∃ rest, holds w acl ((e, (k, p)) :: rest) ∧ well_formed (k :: rest.*2.*1) ∧ acl_map rows.*2 = <[k := p]> (acl_map rest.*2) ∧
    length rows = Datatypes.S (length rest).
Proof.
  intros Hh Hw (l1 & l2 & ->)%list_elem_of_split.
  assert (l1 ++ (e, (k, p)) :: l2 ≡ₚ (e, (k, p)) :: l1 ++ l2) as Hp by (symmetry; apply Permutation_middle).
  exists (l1 ++ l2). split_and!.
  - by eapply holds_perm.
  - eapply well_formed_perm; [|exact Hw]. by rewrite Hp.
  - rewrite (acl_map_perm _ ((e, (k, p)) :: l1 ++ l2).*2); [done|apply Hw|by rewrite Hp].
  - rewrite !length_app. cbn [length]. lia.
Qed.

Section Updates.
Context {S : Type} {K : os} {L : library K}.
Implicit Types s : st S.

Lemma new_entry_spec acl rows a s (E : stop → st S → Prop) :
  holds (seen_world s) acl rows → stops_at (files (seen_world s)) E →
  wp (new_entry acl a) (λ '(acl', e) s', holds (seen_world s') acl' ((e, (ace_key a, 0)) :: rows) ∧
    files (seen_world s') = files (seen_world s)) E s.
Proof using.
  intros Hh HE. set (F := files (seen_world s)) in *. unfold new_entry.
  apply wp_bind, wp_must; [done|intros s' Hs'; apply HE; by rewrite Hs'|]. intros r1 s1 H1. cbn beta zeta.
  inversion H1 as [| | | | |? acl' e ? rs cur Ha Hfree He E1 E2| | | | | | | | | | | | | |]; subst.
  match goal with E : _ = seen_world s1 |- _ => rename E into Hw end.
  set (acl' := le (take 8 (rdata r1))) in *. set (e := le (drop 8 (rdata r1))) in *.
  destruct Hh as (Hn & rs' & cur' & Hacls & Hp). rewrite Hacls in Ha. apply lookup_singleton_Some in Ha as [_ [= -> ->]].
  assert (e ∉ rows.*1) as He' by by rewrite <-Hp.
  assert (holds (seen_world s1) acl' ((e, ((ACL_UNDEFINED_TAG, 0), 0)) :: rows)) as H1'.
  { split; [cbn; by apply NoDup_cons|]. exists ((e, ((ACL_UNDEFINED_TAG, 0), 0)) :: rs), O. rewrite <-Hw. cbn.
    rewrite Hacls, delete_singleton_eq, insert_empty. split; [done|by rewrite Hp]. }
  assert (files (seen_world s1) = F) as HF1 by (by rewrite <-Hw).
  apply wp_bind, wp_must; [done|intros s' Hs'; apply HE; by rewrite Hs'|]. intros r2 s2 H2. cbn beta.
  inversion H2 as [| | | | | | | |? ? ? ? Hc| | | | | | | | | | |]; subst.
  destruct (holds_change _ _ _ _ _ _ _ H1' Hc) as (H2' & HF2 & _). cbn in H2'. rewrite HF1 in HF2.
  unfold when, ace_key. apply wp_bind. fold (with_ids (tag a)). destruct (with_ids (tag a)).
  - apply wp_bind, wp_must; [done|intros s' Hs'; apply HE; by rewrite Hs'|]. intros r3 s3 H3. cbn beta. apply wp_ret.
    inversion H3 as [| | | | | | | | | |? ? ? ? Hc3| | | | | | | | |]; subst.
    destruct (holds_change _ _ _ _ _ _ _ H2' Hc3) as (H3' & HF3 & _). apply wp_ret. cbn in H3'. split; [done|congruence].
  - apply wp_ret, wp_ret. done.
Qed.

Lemma apply_entry_spec fuel removeACL acl m n a s (E : stop → st S → Prop) :
  holds_map (seen_world s) acl m n → (n < fuel)%nat → (removeACL = false → perms a ≠ None) → stops_at (files (seen_world s)) E →
  wp (apply_entry fuel removeACL acl a)
    (λ acl' s', holds_map (seen_world s') acl' (changed removeACL a m) (Datatypes.S n) ∧ files (seen_world s') = files (seen_world s)) E s.
Proof using.
  intros (rows & Hh & Hwf & <- & Hlen) Hf Hperms HE. unfold apply_entry.
  apply wp_bind. eapply wp_mono; [apply findEntry_spec; [exact Hh|exact Hwf|lia|exact HE]| |done].
  intros entry s1 (Hh1 & [HF1 _] & He). cbn beta. rewrite <-HF1 in *. clear HF1 Hh.
  unfold changed. destruct removeACL.
  - destruct entry as [e|].
    + destruct He as [p He]. destruct (holds_found _ _ _ _ _ _ Hh1 Hwf He) as (rest & Hh2 & Hwf2 & -> & Hlen2).
      apply wp_bind, wp_must; [done|intros s' Hs'; apply HE; by rewrite Hs'|]. intros r s2 H2. cbn beta. apply wp_ret.
      inversion H2 as [| | | | | |? ? ? rs ? Hrs Hin Hset| | | | | | | | | | | | |]; subst.
      destruct (holds_has _ _ _ _ _ Hh2 Hrs) as [_ Hp]. apply well_formed_tail in Hwf2 as [Hwf2 Hk].
      pose proof (proj1 Hh2) as Hn. cbn in Hn. apply NoDup_cons in Hn as [He' Hn].
      assert (filter (λ x, x.1 ≠ e) rs ≡ₚ rest) as Hfil.
      { rewrite Hp, filter_cons_False by (intros Hx; by apply Hx). rewrite filter_all; [done|].
        intros x Hx Hxe. apply He'. rewrite <-Hxe. apply list_elem_of_fmap. by exists x. }
      assert (holds (seen_world s1) acl rs) as Hh3 by by eapply holds_perm.
      assert (NoDup (filter (λ x, x.1 ≠ e) rs).*1) as Hnf by by rewrite Hfil.
      destruct (holds_set _ _ _ _ _ Hh3 Hnf Hset) as (Hh4 & HF4 & _).
      split; [|done]. exists rest. split; [by eapply holds_perm|]. split; [done|]. split; [|lia].
      rewrite delete_insert_id; [done|]. by apply not_elem_of_list_to_map_1.
    + apply wp_ret. split; [|done]. exists rows. split; [done|]. split; [done|]. split; [|lia].
      rewrite delete_id; [done|]. by apply not_elem_of_list_to_map_1.
  - assert (∃ p, perms a = Some p) as [p Hp] by (destruct (perms a); [eauto|by destruct Hperms]).
    unfold perms_set. rewrite Hp. cbn [default].
    assert (∀ acl e v rest s', holds (seen_world s') acl ((e, (ace_key a, v)) :: rest) → well_formed (ace_key a :: rest.*2.*1) →
      (length rest < Datatypes.S n)%nat → files (seen_world s') = files (seen_world s1) →
      wp (p ← mret p; setPerms e p;; mret acl)
        (λ acl' s', holds_map (seen_world s') acl' (<[ace_key a := Z.land p 7]> (acl_map rest.*2)) (Datatypes.S n) ∧
           files (seen_world s') = files (seen_world s1)) E s') as Hset.
    { intros acl0 e v rest s' Hh2 Hwf2 Hl2 HF2. apply wp_bind, wp_ret, wp_bind. eapply wp_mono; [eapply setPerms_spec; [done|by rewrite HF2]| |done].
      intros _ s3 [Hh3 HF3]. cbn beta. apply wp_ret. split; [by eapply holds_change_map|congruence]. }
    destruct entry as [e|].
    + destruct He as [v He]. destruct (holds_found _ _ _ _ _ _ Hh1 Hwf He) as (rest & Hh2 & Hwf2 & -> & Hlen2).
      rewrite insert_insert_eq. apply wp_bind, wp_ret. eapply Hset; [done|done|lia|done].
    + apply wp_bind. eapply wp_mono; [by apply new_entry_spec| |done]. intros [acl' e] s2 [Hh2 HF2]. cbn beta iota.
      eapply Hset; [exact Hh2| |lia|done]. apply well_formed_cons; [done|done|apply well_formed_key].
Qed.

(** The recomputed mask. *)
Lemma calc_mask_rows (rows rows' : list (Z * row)) e :
  NoDup rows.*1 → well_formed rows.*2.*1 →
  (mask_key ∈ rows.*2.*1 ∧ rows' = (λ x, if decide (x.2.1 = mask_key) then (x.1, (mask_key, union_of rows.*2)) else x) <$> rows ∨
   (mask_key ∉ rows.*2.*1) ∧ (e ∉ rows.*1) ∧ rows' = (e, (mask_key, union_of rows.*2)) :: rows) →
  NoDup rows'.*1 ∧ well_formed rows'.*2.*1 ∧ acl_map rows'.*2 = <[mask_key := mask_of (acl_map rows.*2)]> (acl_map rows.*2) ∧
  (length rows' <= Datatypes.S (length rows))%nat.
Proof using.
  intros Hn Hwf H. rewrite mask_of_map by apply Hwf. set (u := union_of rows.*2) in *.
  destruct H as [[Hin ->]|(Hout & He & ->)].
  2: { split; [cbn; by apply NoDup_cons|]. split; [by apply well_formed_cons|]. split; [done|cbn [length]; lia]. }
  clearbody u. apply list_elem_of_fmap in Hin as (y & Hy & Hin). apply list_elem_of_fmap in Hin as ([e' y'] & -> & Hin).
  destruct y' as [k p]. cbn in Hy. subst k. apply list_elem_of_split in Hin as (l1 & l2 & ->).
  rewrite !fmap_app in *. cbn [fmap list_fmap fst snd] in *.
  assert (mask_key ∉ l1.*2.*1 ++ l2.*2.*1) as Hk.
  { destruct Hwf as [Hwf _]. rewrite <-Permutation_middle in Hwf. by apply NoDup_cons in Hwf as [? _]. }
  apply not_elem_of_app in Hk as [Hk1 Hk2].
  assert (∀ l : list (Z * row), mask_key ∉ l.*2.*1 → (λ x, if decide (x.2.1 = mask_key) then (x.1, (mask_key, u)) else x) <$> l = l) as Hid.
  { intros l Hl. rewrite <-(list_fmap_id l) at 2. apply list_fmap_ext. intros i x Hx. rewrite decide_False; [done|].
    intros Hx'. apply Hl. rewrite <-Hx'. apply list_elem_of_fmap. exists x.2. split; [done|]. apply list_elem_of_fmap. exists x.
    split; [done|]. by eapply list_elem_of_lookup_2. }
  rewrite !Hid, decide_True by done. rewrite ?fmap_app. cbn [fmap list_fmap fst snd].
  split; [done|]. split; [by rewrite ?fmap_app|]. split; [|rewrite !length_app; cbn [length]; lia].
  assert (∀ v, acl_map (l1.*2 ++ (mask_key, v) :: l2.*2) = <[mask_key := v]> (acl_map (l1.*2 ++ l2.*2))) as Hm.
  { intros v. rewrite (acl_map_perm _ ((mask_key, v) :: l1.*2 ++ l2.*2)); [done| |symmetry; apply Permutation_middle].
    rewrite fmap_app. cbn [fmap list_fmap fst]. apply Hwf. }
  rewrite !Hm. by rewrite insert_insert_eq.
Qed.

Lemma calc_mask_spec (recalcMask : bool) acl m n s (E : stop → st S → Prop) :
  holds_map (seen_world s) acl m n → stops_at (files (seen_world s)) E →
  wp (S:=S) (if recalcMask then r ← must (acl_calc_mask acl) (str "acl_calc_mask"); mret (le (rdata r)) else mret acl)
    (λ acl' s', holds_map (seen_world s') acl' (masked recalcMask m) (Datatypes.S n) ∧ files (seen_world s') = files (seen_world s)) E s.
Proof using.
  intros Hm HE. destruct recalcMask; [|apply wp_ret; split; [|done]; by eapply holds_map_more, Nat.le_succ_diag_r].
  destruct Hm as (rows & (Hn & rs & cur & Hw & Hp) & Hwf & <- & Hlen).
  apply wp_bind, wp_must; [done|intros s' Hs'; apply HE; by rewrite Hs'|]. intros r s1 H1. cbn beta. apply wp_ret.
  inversion H1 as [| | | | | | | | | | | | | | | |? acl' e ? rs' cur' rs2 Ha Hfree Hd Hrs| | |]; subst.
  match goal with E : _ = seen_world s1 |- _ => rename E into Hw1 end.
  rewrite Hw in Ha. apply lookup_singleton_Some in Ha as [_ [= <- <-]].
  destruct (calc_mask_rows rs rs2 e) as (H2 & H3 & H4 & H5); [by rewrite Hp|by eapply well_formed_perm; [rewrite Hp|]|done|].
  split; [|done]. exists rs2. split_and!.
  - split; [done|]. exists rs2, O. cbn. by rewrite Hw, delete_singleton_eq, insert_empty.
  - done.
  - rewrite H4. unfold masked. rewrite (acl_map_perm _ rows.*2); [done| |by rewrite Hp]. rewrite Hp. apply Hwf.
  - rewrite (Permutation_length Hp) in H5. lia.
Qed.

(** The files as maps, each entry at most once. *)
Definition maps_of (F : gmap (cstr * Z) (list row)) : gmap (cstr * Z) (gmap key Z) := acl_map <$> F.
Definition files_ok (F : gmap (cstr * Z) (list row)) (n : nat) : Prop :=
  ∀ f l, F !! f = Some l → well_formed l.*1 ∧ (length l <= n)%nat.

(** What a turn writes. *)
Definition wrote (path : cstr) (type : Z) (m : gmap key Z) (n : nat) (F F' : gmap (cstr * Z) (list row)) : Prop :=
  ∃ l, F' = <[(path, type) := l]> F ∧ acl_map l = m ∧ well_formed l.*1 ∧ (length l <= n)%nat ∧ valid_rows l.

Lemma valid_perm l l' : l ≡ₚ l' → valid_rows l → valid_rows l'.
Proof using.
  unfold valid_rows. intros Hp (H1 & H2 & H3 & H4 & H5).
  assert (∀ k, k ∈ l.*1 ↔ k ∈ l'.*1) as Hk by (intros k; by rewrite Hp).
  split_and!; [by apply Hk..| |by rewrite <-Hp]. intros (k & Hin & Hk'). apply Hk, H4. exists k. split; [by apply Hk|done].
Qed.

Lemma update_entry_spec fuel removeACL recalcMask path type acl m n a s (E : stop → st S → Prop) :
  holds_map (seen_world s) acl m n → (n < fuel)%nat → (removeACL = false → perms a ≠ None) → stops_at (files (seen_world s)) E →
  wp (update_entry fuel removeACL recalcMask path type acl a)
    (λ acl' s', let m' := updated removeACL recalcMask a m in
       holds_map (seen_world s') acl' m' (n + 2) ∧ wrote path type m' (n + 2) (files (seen_world s)) (files (seen_world s'))) E s.
Proof using.
  intros Hm Hf Hp HE. unfold update_entry.
  apply wp_bind. eapply wp_mono; [by eapply apply_entry_spec| |done]. intros acl1 s1 [Hm1 HF1]. cbn beta.
  rewrite <-HF1 in *. apply wp_bind. eapply wp_mono; [by eapply calc_mask_spec| |done]. intros acl2 s2 [Hm2 HF2]. cbn beta.
  rewrite <-HF2 in *. fold (updated removeACL recalcMask a m) in Hm2. set (m' := updated removeACL recalcMask a m) in *.
  apply wp_bind, wp_must; [done|intros s' Hs'; apply HE; by rewrite Hs'|]. intros r3 s3 H3. cbn beta.
  inversion H3 as [| | | | | | | | | | | | | | | | |? ? rs Hrs Hv| |]; subst. match goal with E : _ = seen_world s3 |- _ => rename E into Hw3 end.
  rewrite Hw3 in *.
  apply wp_bind, wp_must; [done|intros s' Hs'; apply HE; by rewrite Hs'|]. intros r4 s4 H4. cbn beta. apply wp_ret.
  inversion H4 as [|? ? ? ? rs' l Hrs' Hl| | | | | | | | | | | | | | | | | |]; subst. match goal with E : _ = seen_world s4 |- _ => rename E into Hw4 end.
  destruct Hm2 as (rows & Hh & Hwf & Hmap & Hlen). destruct (holds_has _ _ _ _ _ Hh Hrs) as [_ Hp1].
  destruct (holds_has _ _ _ _ _ Hh Hrs') as [_ Hp2]. cbn. split.
  - exists rows. split_and!; [|done|done|lia]. destruct Hh as (Hn & r & c & Hr). split; [done|]. by exists r, c.
  - assert (l ≡ₚ rows.*2) as Hl2 by by rewrite Hl, Hp2. exists l. split; [done|]. split_and!.
    + rewrite <-Hmap. apply acl_map_perm; [|done]. rewrite Hl2. apply Hwf.
    + eapply well_formed_perm; [|exact Hwf]. by rewrite Hl2.
    + rewrite (Permutation_length Hl2), length_fmap. lia.
    + eapply valid_perm; [|exact Hv]. by rewrite Hp1.
Qed.
End Updates.

(** ** All files

    The changes asked for: every entry of the list, file after file. *)

Definition all_changes (paths : list cstr) (l : list AccessControlEntry) : list (cstr * AccessControlEntry) :=
  paths ≫= λ p, (λ a, (p, a)) <$> l.

Section AllFiles.
Context {S : Type} {K : os} {L : library K} (removeACL recalcMask : bool) (type : Z) (F : gmap (cstr * Z) (list row)) (n : nat).
Implicit Types s : st S.

Definition change_file (M : gmap (cstr * Z) (gmap key Z)) (u : cstr * AccessControlEntry) : gmap (cstr * Z) (gmap key Z) :=
  <[(u.1, type) := updated removeACL recalcMask u.2 (default ∅ (M !! (u.1, type)))]> M.

(** The files are [F'] after the changes [us]; what was changed is valid. *)
Definition applied (us : list (cstr * AccessControlEntry)) (F' : gmap (cstr * Z) (list row)) : Prop :=
  maps_of F' = foldl change_file (maps_of F) us ∧ files_ok F' (n + 2 * length us) ∧
  ∀ u, u ∈ us → ∃ l, F' !! (u.1, type) = Some l ∧ valid_rows l.

Lemma applied_snoc us path a F1 F2 : applied us F1 →
  wrote path type (updated removeACL recalcMask a (default ∅ (maps_of F1 !! (path, type)))) (n + 2 * length us + 2) F1 F2 →
  applied (us ++ [(path, a)]) F2.
Proof using.
  intros (Hm & Hok & Hv) (l & -> & Hl & Hwf & Hlen & Hval). split_and!.
  - unfold maps_of in *. rewrite fmap_insert, foldl_app, <-Hm. cbn. unfold change_file. cbn. by rewrite Hl.
  - intros f l'. rewrite length_app. cbn [length]. destruct (decide (f = (path, type))) as [-> |Hf].
    + rewrite lookup_insert_eq. intros [= <-]. split; [done|lia].
    + rewrite lookup_insert_ne by done. intros [H1 H2]%Hok. split; [done|lia].
  - intros u. rewrite elem_of_app, list_elem_of_singleton. destruct (decide ((u.1, type) = (path, type))) as [Hu|Hu].
    + intros _. exists l. by rewrite Hu, lookup_insert_eq.
    + intros [Hin| ->]; [|done]. destruct (Hv _ Hin) as (l' & ? & ?). exists l'. by rewrite lookup_insert_ne.
Qed.

(** A stop after some of the changes. *)
Definition halted (all : list (cstr * AccessControlEntry)) (t : stop) (s : st S) : Prop :=
  t = end_of true ∧ ∃ us, us `prefix_of` all ∧ applied us (files (seen_world s)).

Lemma halted_stops all us F' : us `prefix_of` all → applied us F' → stops_at F' (halted all).
Proof using. intros Hp Ha s Hs. split; [done|]. exists us. by rewrite Hs. Qed.

Definition holds_file (path : cstr) (acl : Z) (us : list (cstr * AccessControlEntry)) (s : st S) : Prop :=
  applied us (files (seen_world s)) ∧
  holds_map (seen_world s) acl (default ∅ (maps_of (files (seen_world s)) !! (path, type))) (n + 2 * length us).

Lemma update_entries_spec fuel path l all us acl s :
  (n + 2 * length all < fuel)%nat → us ++ ((λ a, (path, a)) <$> l) `prefix_of` all →
  (removeACL = false → Forall (λ a, perms a ≠ None) l) → holds_file path acl us s →
  wp (update_entries fuel removeACL recalcMask path type acl l)
    (λ acl' s', holds_file path acl' (us ++ ((λ a, (path, a)) <$> l)) s') (halted all) s.
Proof using.
  intros Hf. revert us acl s. induction l as [|a l IH]; intros us acl s Hp Hperms [Ha Hm].
  { apply wp_ret. cbn. by rewrite app_nil_r. }
  cbn [update_entries fmap list_fmap] in *.
  rewrite (cons_middle (path, a)), app_assoc in Hp |- *.
  assert (us `prefix_of` all) as Hp1 by (etrans; [|exact Hp]; rewrite <-app_assoc; by apply prefix_app_r).
  apply wp_bind. eapply wp_mono; [eapply update_entry_spec| |done].
  - exact Hm.
  - apply prefix_length in Hp1. lia.
  - intros Hr. specialize (Hperms Hr). by inversion Hperms.
  - by eapply halted_stops.
  - intros acl1 s1 [Hm1 Hw]. cbn beta zeta. apply IH; [done|intros Hr; specialize (Hperms Hr); by inversion Hperms|].
    assert (n + 2 * length us + 2 = n + 2 * length (us ++ [(path, a)]))%nat as El by (rewrite length_app; cbn [length]; lia).
    pose proof (applied_snoc _ _ _ _ _ Ha Hw) as Ha1. split; [done|]. rewrite <-El.
    destruct Hw as (l' & -> & Hl & _). unfold maps_of. rewrite lookup_fmap, lookup_insert_eq. cbn. by rewrite Hl.
Qed.

Lemma opened_file w path r w' m : files_ok (files w) m → lib_ok w "acl_get_file" [type] path r w' → acls w = ∅ →
  files w' = files w ∧ holds_map w' (rv r) (default ∅ (maps_of (files w) !! (path, type))) m.
Proof using.
  intros Hok H Hw. inversion H as [? ? ? rows Hfree Hn Hp| | | | | | | | | | | | | | | | | | |]; subst. cbn. split; [done|].
  unfold maps_of. rewrite lookup_fmap.
  assert (well_formed (default [] (files w !! (path, type))).*1 ∧ (length (default [] (files w !! (path, type))) <= m)%nat) as [Hwf Hlen].
  { destruct (files w !! (path, type)) as [l|] eqn:El; [by apply Hok in El|]. cbn. split; [|lia]. split; [by apply NoDup_nil_2|].
    intros k Hk. by apply not_elem_of_nil in Hk. }
  assert (well_formed rows.*2.*1) as Hwf' by (eapply well_formed_perm; [|exact Hwf]; by rewrite Hp).
  exists rows. split_and!.
  - split; [done|]. exists rows, O. cbn. by rewrite Hw, insert_empty.
  - done.
  - rewrite (acl_map_perm _ _ (proj1 Hwf') Hp). by destruct (files w !! _).
  - apply Permutation_length in Hp. rewrite length_fmap in Hp. lia.
Qed.

Lemma update_file_spec fuel path l all us s :
  (n + 2 * length all < fuel)%nat → us ++ ((λ a, (path, a)) <$> l) `prefix_of` all →
  (removeACL = false → Forall (λ a, perms a ≠ None) l) → acls (seen_world s) = ∅ → applied us (files (seen_world s)) →
  wp (update_file fuel removeACL recalcMask type l path)
    (λ _ s', acls (seen_world s') = ∅ ∧ applied (us ++ ((λ a, (path, a)) <$> l)) (files (seen_world s'))) (halted all) s.
Proof using.
  intros Hf Hp Hperms Hw Ha. unfold update_file.
  assert (us `prefix_of` all) as Hp1 by (etrans; [|exact Hp]; by apply prefix_app_r).
  pose proof (halted_stops _ _ _ Hp1 Ha) as HE.
  apply wp_bind, wp_must; [done|intros s' Hs'; apply HE; by rewrite Hs'|]. intros r s1 H1. cbn beta.
  destruct (opened_file _ _ _ _ (n + 2 * length us) (proj1 (proj2 Ha)) H1 Hw) as [HF1 Hm].
  apply wp_bind. eapply wp_mono; [apply (update_entries_spec fuel path l all us); [done..|]| |done].
  { split; rewrite HF1; done. }
  intros acl s2 [Ha2 (rows & Hh & _)]. cbn beta. pose proof (halted_stops _ _ _ Hp Ha2) as HE2.
  apply wp_bind, wp_must; [done|intros s' Hs'; apply HE2; by rewrite Hs'|]. intros r3 s3 H3. cbn beta. apply wp_ret.
  destruct Hh as (_ & rs & cur & Hacls & _).
  inversion H3 as [| | | | | | | | | | | | | | | | | |? ? rs' Hrs|? ? Hno]; subst.
  - cbn. by rewrite Hacls, delete_singleton_eq.
  - exfalso. match goal with H : acls _ !! _ = None |- _ => rewrite Hacls, lookup_singleton_eq in H end. done.
Qed.

Lemma update_files_spec fuel paths l s :
  (n + 2 * length (all_changes paths l) < fuel)%nat → (removeACL = false → Forall (λ a, perms a ≠ None) l) →
  acls (seen_world s) = ∅ → files (seen_world s) = F → files_ok F n →
  wp (for_each paths (update_file fuel removeACL recalcMask type l))
    (λ _ s', applied (all_changes paths l) (files (seen_world s'))) (halted (all_changes paths l)) s.
Proof using.
  intros Hf Hperms Hw HF Hok.
  eapply wp_mono; [apply (wp_for_each (λ done s, acls (seen_world s) = ∅ ∧ applied (all_changes done l) (files (seen_world s))))|by intros _ s' [_ H]|done].
  - split; [done|]. rewrite HF. split_and!; [done| |intros u Hu; by apply not_elem_of_nil in Hu]. intros f l' [H1 H2]%Hok. split; [done|lia].
  - intros prev path todo s' -> [Hw' Ha].
    assert (all_changes (prev ++ [path]) l = all_changes prev l ++ ((λ a, (path, a)) <$> l)) as Eall
      by (unfold all_changes; rewrite bind_app; cbn; by rewrite app_nil_r).
    rewrite Eall. apply update_file_spec; [done| |done..].
    rewrite <-Eall. exists (all_changes todo l). unfold all_changes. rewrite !bind_app. cbn. by rewrite app_nil_r, app_assoc.
Qed.
End AllFiles.

(** ** The program *)

Lemma acl_text_length db pr text l : acl_text db pr text l → (length l <= Datatypes.S (length text))%nat.
Proof.
  revert text. induction l as [|a [|b l] IH]; intros text; [done|intros _; cbn; lia|].
  intros (e & rest & -> & _ & _ & H). apply IH in H. rewrite length_app. cbn [length] in *. lia.
Qed.

Lemma acl_text_perms db text l : acl_text db true text l → Forall (λ a, perms a ≠ None) l.
Proof.
  revert text. assert (∀ e a, entry_text db true e a → perms a ≠ None) as He.
  { intros e a (t & q & pt & _ & _ & _ & Hp) Hn. rewrite Hn in Hp. by destruct Hp. }
  induction l as [|a [|b l] IH]; intros text; [done|intros [_ H]; by apply Forall_singleton, (He text)|].
  intros (e & rest & _ & _ & H & H'). apply Forall_cons; split; [by eapply He|by eapply IH].
Qed.

Lemma length_all_changes paths l : length (all_changes paths l) = (length paths * length l)%nat.
Proof. induction paths as [|p paths IH]; [done|]. cbn. rewrite length_app, length_fmap. f_equal. exact IH. Qed.

(** A command line that changes or removes entries. *)
Definition acl_command (removeACL : bool) (spec : cstr) (useDefaultACL noRecalc : bool) (paths : list cstr) : list cstr :=
  (if removeACL then str "-x" else str "-m") :: spec ::
  (if useDefaultACL then [str "-d"] else []) ++ (if noRecalc then [str "-n"] else []) ++ paths.

Lemma getopt_command `{os} rm spec dflt norecalc paths : Forall (λ p, head p ≠ Some "-"%char) paths →
  getopt_env acl_spec (acl_command rm spec dflt norecalc paths) =
    (Opt (if rm then "x"%char else "m"%char) (Some spec) ::
     (if dflt then [Opt "d"%char None] else []) ++ (if norecalc then [Opt "n"%char None] else []), paths).
Proof.
  intros Hp.
  assert (getopt acl_spec paths = ([], paths)) as H1
    by (destruct Hp as [|p paths Hp _]; [apply getopt_nil|by apply getopt_stop]).
  assert (getopt_permute acl_spec paths = ([], paths)) as H2.
  { apply permute_operands. clear H1. induction Hp as [|p paths Hp _ IH]; [done|]. cbn [forallb]. rewrite IH, andb_true_r.
    destruct p as [|c [|d p]]; [done|done|]. cbn in *. rewrite bool_decide_eq_false_2; [done|congruence]. }
  unfold getopt_env, acl_command, str. cbn [String.list_ascii_of_string].
  assert (∀ c, c ∈ ["x"; "m"; "d"; "n"]%char → c ≠ "-"%char) as Hc by (intros c; rewrite !elem_of_cons, elem_of_nil; by intros [-> |[-> |[-> |[-> |[]]]]]).
  destruct (getenv _), rm; rewrite ?getopt_with, ?permute_with by done; destruct dflt, norecalc; cbn [app];
    repeat rewrite ?getopt_flag, ?permute_flag by done; by rewrite ?H1, ?H2.
Qed.

(** C11: acl_update -m and -x, over a library that keeps its promises, when the
    ACLs of the files have each entry once.  The program ends.  If the list
    denotes no entries that fit, no file has changed.  Otherwise the files named
    have undergone the first of the changes asked for, one entry of one file
    after the other, and no other file has changed; all of them, when the
    program reports success.  A change sets or deletes the one entry with the
    tag and the qualifier, and makes the mask, unless told not to, the union of
    the group class.  What was changed is valid. *)
Theorem acl_update_correct {S} (K : os) (L : library K) db fuel prog (rm : bool) spec (dflt norecalc : bool) paths n (s : st S) :
  database K db → acls (view (trace s)) = ∅ → files_ok (files (view (trace s))) n →
  Forall (λ p, head p ≠ Some "-"%char) paths → (n + 2 * (length paths * Datatypes.S (length spec)) < fuel)%nat →
  let F := files (view (trace s)) in
  let type := if dflt then ACL_TYPE_DEFAULT else ACL_TYPE_ACCESS in
  ∃ t s', acl_update_main fuel prog (acl_command rm spec dflt norecalc paths) s = (Stop t, s') ∧
    ((t = Exit 1 ∧ files (view (trace s')) = F ∧ ∀ l, acl_text db (negb rm) spec l → Z.of_nat (length l) > MAX_ENTRIES) ∨
     ∃ l us, acl_text db (negb rm) spec l ∧ us `prefix_of` all_changes paths l ∧
       applied rm (negb norecalc) type F n us (files (view (trace s'))) ∧
       (t = Exit 0 ∧ us = all_changes paths l ∨ t = end_of true)).
Proof.
  intros Hdb Hw Hok Hpaths Hf F type.
  enough (wp (acl_update_main fuel prog (acl_command rm spec dflt norecalc paths)) (λ _ _, False) (λ t s',
    (t = Exit 1 ∧ files (view (trace s')) = F ∧ ∀ l, acl_text db (negb rm) spec l → Z.of_nat (length l) > MAX_ENTRIES) ∨
     ∃ l us, acl_text db (negb rm) spec l ∧ us `prefix_of` all_changes paths l ∧
       applied rm (negb norecalc) type F n us (files (view (trace s'))) ∧
       (t = Exit 0 ∧ us = all_changes paths l ∨ t = end_of true)) s) as Hwp.
  { apply wp_run in Hwp as [(? & ? & _ & [])|H]. done. }
  set (o := Options (negb norecalc) dflt (negb rm) rm false false (Some spec) 1).
  assert (acl_update_main fuel prog (acl_command rm spec dflt norecalc paths) =
    (l ← (l ← parseACL spec (negb rm);
          match l with Some l => mret l | None => usageError prog (Some (str "Bad ACL specification" ++ [NL])) true end);
     for_each paths (update_file fuel rm (negb norecalc) type l);;
     stop_with (A:=unit) (S:=S) (Exit 0))) as ->.
  { unfold acl_update_main. rewrite getopt_command by done. by destruct rm, dflt, norecalc. }
  apply wp_bind, wp_bind. eapply wp_mono; [by apply parseACL_go_spec; [|lia]| |done]. intros r s1 [[Hran _] Hr]. cbn beta.
  assert (view (trace s1) = view (trace s)) as Hv.
  { apply ran_view. eapply ran_mono; [|exact Hran]. intros [[] |]; cbn; try done. destruct ints; [|done]. by intros [-> | ->]. }
  destruct r as [l|].
  - destruct Hr as [Ht _]. apply wp_ret, wp_bind.
    eapply wp_mono; [eapply (update_files_spec rm (negb norecalc) type F n); unfold seen_world; rewrite ?Hv| |]; try done.
    + apply acl_text_length in Ht. rewrite length_all_changes. nia.
    + destruct rm; [done|]. intros _. by eapply acl_text_perms.
    + intros [] s2 H2. right. exists l, (all_changes paths l). split; [done|]. split; [done|]. split; [done|by left].
    + intros t s2 (-> & us & H2). right. exists l, us. split; [done|]. split; [apply H2|]. split; [apply H2|by right].
  - left. split; [done|]. split; [|done]. unfold F. rewrite <-Hv. cbn. by rewrite !view_out.
Qed.

(** ** A library in memory

    One ACL at a time, at address 100; a qualifier is read at address 200, an
    entry is its own permission set. *)

Definition no (w : world) : reply * world := (fail EINVAL, w).
Definition yes (v : Z) (b : cstr) (w : world) : reply * world := (Reply v 0 b [], w).

(** The bytes of a pointer. *)
Definition with_ptr (e : Z) (w : world) (f : cstr → reply * world) : reply * world :=
  if decide (le (le64 e) = e) then f (le64 e) else no w.

Definition change_100 (w : world) (e : Z) (f : row → row) : reply * world :=
  match acls w !! 100 with
  | Some (rows, _) => if decide (e ∈ rows.*1) then yes 0 [] (with_acls w (<[100 := (change e f rows, O)]> (acls w))) else no w
  | None => no w
  end.

Definition row_100 (w : world) (e : Z) : option row :=
  match acls w !! 100 with Some (rows, _) => snd <$> head (filter (λ x, x.1 = e) rows) | None => None end.

Definition new_address (rows : list (Z * row)) : Z := 1 + foldr Z.max 0 rows.*1.

Definition lib_do (w : world) (fn : string) (ints : list Z) (text : cstr) : reply * world :=
  if String.eqb fn "acl_get_file" then
    match ints, acls w !! 100 with
    | [type], None => yes 100 [] (with_acls w (<[100 := (imap (λ i x, (Z.of_nat i, x)) (default [] (files w !! (text, type))), O)]> (acls w)))
    | _, _ => no w
    end
  else if String.eqb fn "acl_set_file" then
    match ints with
    | [type; acl] => match acls w !! acl with
        | Some (rows, _) => yes 0 [] (World (<[(text, type) := rows.*2]> (files w)) (acls w) (permsets w))
        | None => no w end
    | _ => no w
    end
  else if negb (streq text []) then no w
  else if String.eqb fn "acl_get_entry" then
    match ints with
    | [acl; which] => match acls w !! acl with
        | Some (rows, cur) =>
            if decide (which = ACL_FIRST_ENTRY ∨ which = ACL_NEXT_ENTRY) then
              let i := if which =? ACL_FIRST_ENTRY then O else cur in
              match rows !! i with
              | Some x => with_ptr x.1 w (λ b, yes 1 b (with_acls w (<[acl := (rows, Datatypes.S i)]> (acls w))))
              | None => yes 0 [] w
              end
            else no w
        | None => no w end
    | _ => no w
    end
  else if String.eqb fn "acl_create_entry" then
    match ints with
    | [acl] => match acls w !! acl with
        | Some (rows, _) =>
            let e := new_address rows in
            with_ptr acl w (λ a, with_ptr e w (λ b, yes 0 (a ++ b)
              (with_acls w (<[acl := ((e, ((ACL_UNDEFINED_TAG, 0), 0)) :: rows, O)]> (delete acl (acls w))))))
        | None => no w end
    | _ => no w
    end
  else if String.eqb fn "acl_delete_entry" then
    match ints with
    | [acl; e] => match acls w !! acl with
        | Some (rows, _) => if decide (e ∈ rows.*1) then yes 0 [] (with_acls w (<[acl := (filter (λ x, x.1 ≠ e) rows, O)]> (acls w))) else no w
        | None => no w end
    | _ => no w
    end
  else if String.eqb fn "acl_get_tag_type" then
    match ints with [e] => match row_100 w e with Some x => with_ptr x.1.1 w (λ b, yes 0 b w) | None => no w end | _ => no w end
  else if String.eqb fn "acl_set_tag_type" then
    match ints with [e; tag] => change_100 w e (λ x, ((tag, 0), x.2)) | _ => no w end
  else if String.eqb fn "acl_get_qualifier" then
    match ints with
    | [e] => match row_100 w e, acls w !! 200 with
        | Some x, None => if decide (with_ids x.1.1 ∧ wrap_u 32 (le (le32 x.1.2)) = x.1.2) then yes 200 (le32 x.1.2) w else no w
        | _, _ => no w end
    | _ => no w
    end
  else if String.eqb fn "acl_set_qualifier" then
    match ints with [e; id] => change_100 w e (λ x, ((x.1.1, id), x.2)) | _ => no w end
  else if String.eqb fn "acl_get_permset" then
    match ints with [e] => with_ptr e w (λ b, yes 0 b (World (files w) (acls w) (<[e := e]> (permsets w)))) | _ => no w end
  else if String.eqb fn "acl_clear_perms" then
    match ints with [p] => match permsets w !! p with Some e => change_100 w e (λ x, (x.1, 0)) | None => no w end | _ => no w end
  else if String.eqb fn "acl_add_perm" then
    match ints with [p; bit] => match permsets w !! p with Some e => change_100 w e (λ x, (x.1, Z.lor x.2 bit)) | None => no w end | _ => no w end
  else if String.eqb fn "acl_set_permset" then
    match ints with [e; p] => if decide (permsets w !! p = Some e) then yes 0 [] w else no w | _ => no w end
  else if String.eqb fn "acl_calc_mask" then
    match ints with
    | [acl] => match acls w !! acl with
        | Some (rows, _) =>
            let u := union_of rows.*2 in
            let rows' := if decide (mask_key ∈ rows.*2.*1)
              then (λ x, if decide (x.2.1 = mask_key) then (x.1, (mask_key, u)) else x) <$> rows
              else (new_address rows, (mask_key, u)) :: rows in
            with_ptr acl w (λ a, yes 0 a (with_acls w (<[acl := (rows', O)]> (delete acl (acls w)))))
        | None => no w end
    | _ => no w
    end
  else if String.eqb fn "acl_valid" then
    match ints with
    | [acl] => match acls w !! acl with
        | Some (rows, _) => let ks := rows.*2.*1 in
            if decide ((ACL_USER_OBJ, 0) ∈ ks ∧ (ACL_GROUP_OBJ, 0) ∈ ks ∧ (ACL_OTHER, 0) ∈ ks ∧
              (Exists (λ k, with_ids k.1) ks → mask_key ∈ ks) ∧ NoDup ks) then yes 0 [] w else no w
        | None => no w end
    | _ => no w
    end
  else if String.eqb fn "acl_free" then
    match ints with [p] => yes 0 [] (with_acls w (delete p (acls w))) | _ => no w end
  else no w.

Lemma with_ptr_cases e w f : (le (le64 e) = e ∧ with_ptr e w f = f (le64 e)) ∨ with_ptr e w f = no w.
Proof. unfold with_ptr. case_decide; auto. Qed.

Definition lib_law (w : world) (fn : string) (ints : list Z) (text : cstr) (p : reply * world) : Prop :=
  (rv p.1 = -1 ∧ p.2 = w) ∨ (rv p.1 ≠ -1 ∧ lib_ok w fn ints text p.1 p.2).

Lemma law_no w fn ints text : lib_law w fn ints text (no w).
Proof. by left. Qed.

Lemma law_ptr w fn ints text e f : (le (le64 e) = e → lib_law w fn ints text (f (le64 e))) → lib_law w fn ints text (with_ptr e w f).
Proof. intros Hf. unfold with_ptr. case_decide; [auto|apply law_no]. Qed.

Lemma law_yes w fn ints text v b w' : v ≠ -1 → lib_ok w fn ints text (Reply v 0 b []) w' → lib_law w fn ints text (yes v b w').
Proof. by right. Qed.

Lemma law_change w fn ints text e f : (∀ w', change_in w e f w' → lib_ok w fn ints text (Reply 0 0 [] []) w') →
  lib_law w fn ints text (change_100 w e f).
Proof.
  intros Hf. unfold change_100. destruct (acls w !! 100) as [[rows cur]|] eqn:Ea; [|apply law_no].
  case_decide as He; [|apply law_no]. apply law_yes; [done|]. apply Hf. exists 100, rows. split; [by exists cur|]. split; [done|].
  by exists (change e f rows), O.
Qed.

Lemma row_100_at w e x : row_100 w e = Some x → entry_at w e x.
Proof.
  unfold row_100. destruct (acls w !! 100) as [[rows cur]|] eqn:Ea; [|done]. destruct (filter _ rows) as [|[e' y] l] eqn:Ef; [done|].
  intros [= <-]. exists 100, rows. split; [by exists cur|]. cbn.
  assert ((e', y) ∈ filter (λ x : Z * row, x.1 = e) rows) as Hin by (rewrite Ef; apply elem_of_cons; by left).
  apply list_elem_of_filter in Hin as [Hx Hin]. cbn in Hx. by subst.
Qed.

Lemma new_address_fresh rows : new_address rows ∉ rows.*1.
Proof.
  unfold new_address. assert (∀ e l, e ∈ l → e <= foldr Z.max 0 l) as H.
  { intros e l. induction l as [|x l IH]; [by intros ?%not_elem_of_nil|]. intros [-> |Hin]%elem_of_cons; cbn; [lia|]. apply IH in Hin. lia. }
  intros Hin%H. lia.
Qed.

Lemma numbered_rows (l : list row) : NoDup (imap (λ i x, (Z.of_nat i, x)) l).*1 ∧ (imap (λ i x, (Z.of_nat i, x)) l).*2 = l.
Proof.
  rewrite !fmap_imap. unfold compose. cbn. split.
  - rewrite imap_seq_0. apply NoDup_fmap_2_strong; [|apply NoDup_seq]. intros. lia.
  - etrans; [apply (imap_const id)|apply list_fmap_id].
Qed.

(** One case for each function. *)
Lemma lib_do_law w fn ints text : lib_law w fn ints text (lib_do w fn ints text).
Proof.
  unfold lib_do.
  destruct (String.eqb_spec fn "acl_get_file") as [-> |_].
  { destruct ints as [|type [|]]; try apply law_no. destruct (acls w !! 100) eqn:Ea; [apply law_no|]. apply law_yes; [done|].
    destruct (numbered_rows (default [] (files w !! (text, type)))) as [H1 H2].
    refine (ok_get_file w type text (Reply 100 0 [] []) _ Ea H1 _). by rewrite H2. }
  destruct (String.eqb_spec fn "acl_set_file") as [-> |_].
  { destruct ints as [|type [|acl [|]]]; try apply law_no. destruct (acls w !! acl) as [[rows cur]|] eqn:Ea; [|apply law_no].
    apply law_yes; [done|]. eapply ok_set_file; [by exists cur|done]. }
  destruct (negb (streq text [])) eqn:Et; [apply law_no|]. apply negb_false_iff, streq_true in Et as ->.
  assert (∀ b w', lib_ok w fn ints [] (Reply 0 0 b []) w' → lib_law w fn ints [] (yes 0 b w')) as Hyes by (intros; by apply law_yes).
  destruct (String.eqb_spec fn "acl_get_entry") as [-> |_].
  { destruct ints as [|acl [|which [|]]]; try apply law_no. destruct (acls w !! acl) as [[rows cur]|] eqn:Ea; [|apply law_no].
    case_decide as Hwhich; [|apply law_no].
    assert (which = ACL_FIRST_ENTRY ∧ (if which =? ACL_FIRST_ENTRY then O else cur) = O ∨
      which = ACL_NEXT_ENTRY ∧ (if which =? ACL_FIRST_ENTRY then O else cur) = cur) as Hi by (destruct Hwhich as [-> | ->]; auto).
    destruct (rows !! _) as [x|] eqn:Ex.
    - apply law_ptr. intros Hp. apply law_yes; [done|]. by eapply ok_get_entry.
    - apply law_yes; [done|]. by eapply ok_no_entry. }
  destruct (String.eqb_spec fn "acl_create_entry") as [-> |_].
  { destruct ints as [|acl [|]]; try apply law_no. destruct (acls w !! acl) as [[rows cur]|] eqn:Ea; [|apply law_no].
    apply law_ptr. intros H1. apply law_ptr. intros H2. apply Hyes. eapply ok_create_entry; [exact Ea|by left|apply new_address_fresh|exact H1|exact H2]. }
  destruct (String.eqb_spec fn "acl_delete_entry") as [-> |_].
  { destruct ints as [|acl [|e [|]]]; try apply law_no. destruct (acls w !! acl) as [[rows cur]|] eqn:Ea; [|apply law_no].
    case_decide as He; [|apply law_no]. apply Hyes. eapply ok_delete_entry; [by exists cur|done|]. eexists _, _. by split. }
  destruct (String.eqb_spec fn "acl_get_tag_type") as [-> |_].
  { destruct ints as [|e [|]]; try apply law_no. destruct (row_100 w e) as [x|] eqn:Ex; [|apply law_no].
    apply law_ptr. intros Hp. apply Hyes. eapply ok_get_tag_type; [by apply row_100_at|done]. }
  destruct (String.eqb_spec fn "acl_set_tag_type") as [-> |_].
  { destruct ints as [|e [|tag [|]]]; try apply law_no. apply law_change. intros w' Hc. by apply ok_set_tag_type. }
  destruct (String.eqb_spec fn "acl_get_qualifier") as [-> |_].
  { destruct ints as [|e [|]]; try apply law_no. destruct (row_100 w e) as [x|] eqn:Ex; [|apply law_no].
    destruct (acls w !! 200) eqn:Ea; [apply law_no|]. case_decide as Hd; [|apply law_no]. destruct Hd as [Hd1 Hd2].
    apply law_yes; [done|]. eapply ok_get_qualifier; [by apply row_100_at|done|done|done]. }
  destruct (String.eqb_spec fn "acl_set_qualifier") as [-> |_].
  { destruct ints as [|e [|id [|]]]; try apply law_no. apply law_change. intros w' Hc. by apply ok_set_qualifier. }
  destruct (String.eqb_spec fn "acl_get_permset") as [-> |_].
  { destruct ints as [|e [|]]; try apply law_no. apply law_ptr. intros Hp. apply Hyes. by apply ok_get_permset. }
  destruct (String.eqb_spec fn "acl_clear_perms") as [-> |_].
  { destruct ints as [|p [|]]; try apply law_no. destruct (permsets w !! p) as [e|] eqn:Ep; [|apply law_no].
    apply law_change. intros w' Hc. by eapply ok_clear_perms. }
  destruct (String.eqb_spec fn "acl_add_perm") as [-> |_].
  { destruct ints as [|p [|bit [|]]]; try apply law_no. destruct (permsets w !! p) as [e|] eqn:Ep; [|apply law_no].
    apply law_change. intros w' Hc. by eapply ok_add_perm. }
  destruct (String.eqb_spec fn "acl_set_permset") as [-> |_].
  { destruct ints as [|e [|p [|]]]; try apply law_no. case_decide as Hp; [|apply law_no]. apply Hyes. by eapply ok_set_permset. }
  destruct (String.eqb_spec fn "acl_calc_mask") as [-> |_].
  { destruct ints as [|acl [|]]; try apply law_no. destruct (acls w !! acl) as [[rows cur]|] eqn:Ea; [|apply law_no].
    apply law_ptr. intros Hp. apply Hyes. eapply (ok_calc_mask _ _ _ (new_address rows)); [exact Ea|by left|exact Hp|].
    case_decide as Hm; [by left|right]. split; [done|]. split; [apply new_address_fresh|done]. }
  destruct (String.eqb_spec fn "acl_valid") as [-> |_].
  { destruct ints as [|acl [|]]; try apply law_no. destruct (acls w !! acl) as [[rows cur]|] eqn:Ea; [|apply law_no].
    case_decide as Hv; [|apply law_no]. apply Hyes. eapply ok_valid; [by exists cur|]. destruct Hv as (H1 & H2 & H3 & H4 & H5).
    split_and!; [done..| |done]. intros (k & Hk & Hid). apply H4, Exists_exists. exists k. done. }
  destruct (String.eqb_spec fn "acl_free") as [-> |_]; [|apply law_no].
  destruct ints as [|p [|]]; try apply law_no. apply Hyes. destruct (acls w !! p) as [[rows cur]|] eqn:Ea.
  - eapply ok_free_acl. by exists cur.
  - rewrite delete_id by done. assert (with_acls w (acls w) = w) as -> by by destruct w. by apply ok_free_qualifier.
Qed.

(** The system of this library, with the files at first. *)
Definition event_step (w : world) (e : event) : world :=
  match e with Esys (Cextern fn ints text) _ => if lib_fn fn then (lib_do w fn ints text).2 else w | _ => w end.
Definition replay (w : world) (tr : list event) : world := foldl event_step w tr.

Definition lib_os (F : gmap (cstr * Z) (list row)) : os := test_os (λ tr c,
  match c with
  | Cextern fn ints text => if lib_fn fn then (lib_do (replay (World F ∅ ∅) tr) fn ints text).1 else fail ENOENT
  | _ => ok 0
  end).

#[export] Instance lib_os_library F : library (lib_os F).
Proof.
  refine (Library (lib_os F) (replay (World F ∅ ∅)) _ _).
  - intros tr c. unfold replay. rewrite foldl_app. cbn. fold (replay (World F ∅ ∅) tr). unfold lib_step. destruct c; try done.
    destruct (lib_fn fn); [|done]. apply lib_do_law.
  - intros tr f t. unfold replay. by rewrite foldl_app.
Defined.

Definition no_names (fn : string) (q : cstr) : option Z := None.

Lemma lib_os_database F : database (lib_os F) no_names.
Proof. intros tr fn q [-> | ->]; done. Qed.

(** A file with the minimal ACL. *)
Definition notes : gmap (cstr * Z) (list row) :=
  {[ (str "notes", ACL_TYPE_ACCESS) := [((ACL_USER_OBJ, 0), 6); ((ACL_GROUP_OBJ, 0), 4); ((ACL_OTHER, 0), 4)] ]}.

Lemma notes_ok : files_ok notes 3.
Proof.
  unfold notes. intros f l [<- <-]%lookup_singleton_Some. split; [|cbn; lia]. split.
  - by apply (bool_decide_unpack _); vm_compute.
  - intros k. cbn. rewrite !elem_of_cons, elem_of_nil. by intros [-> |[-> |[-> |[]]]].
Qed.

Lemma acl_update_witness :
  files_ok notes 3 ∧
  ∃ t s', @acl_update_main unit (lib_os notes) 100 (str "p") (acl_command false (str "u:1000:rw") false false [str "notes"]) (init tt) = (Stop t, s') ∧
    ((t = Exit 1 ∧ files (replay (World notes ∅ ∅) (trace s')) = notes ∧
      ∀ l, acl_text no_names true (str "u:1000:rw") l → Z.of_nat (length l) > MAX_ENTRIES) ∨
     ∃ l us, acl_text no_names true (str "u:1000:rw") l ∧ us `prefix_of` all_changes [str "notes"] l ∧
       applied false true ACL_TYPE_ACCESS notes 3 us (files (replay (World notes ∅ ∅) (trace s'))) ∧
       (t = Exit 0 ∧ us = all_changes [str "notes"] l ∨ t = @end_of (lib_os notes) true)).
Proof.
  split; [exact notes_ok|].
  apply (acl_update_correct (lib_os notes) (lib_os_library notes) no_names 100 (str "p") false (str "u:1000:rw") false false [str "notes"] 3 (init tt)).
  - apply lib_os_database.
  - reflexivity.
  - exact notes_ok.
  - by apply Forall_singleton.
  - apply (bool_decide_unpack _). vm_compute. exact I.
Defined.

(** The run: the new entry, and the mask that the library computes. *)
Example acl_update_run :
  let r := @acl_update_main unit (lib_os notes) 100 (str "p") (acl_command false (str "u:1000:rw") false false [str "notes"]) (init tt) in
  r.1 = Stop (Exit 0) ∧
  files (replay (World notes ∅ ∅) (trace r.2)) !! (str "notes", ACL_TYPE_ACCESS) =
    Some [((ACL_MASK, 0), 6); ((ACL_USER, 1000), 6); ((ACL_USER_OBJ, 0), 6); ((ACL_GROUP_OBJ, 0), 4); ((ACL_OTHER, 0), 4)].
Proof. by vm_compute. Qed.

(** The mask cannot be removed without -n: it is deleted and computed again. *)
Example mask_comes_back : mask_key ∈ dom (updated true true (Ace ACL_MASK 0 None) (acl_map [(mask_key, 7)])).
Proof. by vm_compute. Qed.


(** ** acl_view *)

(** What a program printed on standard output. *)
Definition on_stdout (e : event) : cstr := match e with Eout Stdout t => t | _ => [] end.
Definition printed (tr : list event) : cstr := tr ≫= on_stdout.

Lemma printed_app a b : printed (a ++ b) = printed a ++ printed b.
Proof. apply bind_app. Qed.

(** The names the system gives to numbers, the same each time. *)
Definition names_known (K : os) (names : string → Z → option cstr) : Prop :=
  ∀ tr fn id, fn = "getpwuid"%string ∨ fn = "getgrgid"%string →
    let r := @kern K tr (Cextern fn [id] []) in
    match names fn id with Some t => rv r ≠ -1 ∧ c_str (rdata r) = t | None => rv r = -1 end.

(** The line of an entry. *)
Definition letter_of (p bit : Z) (letter : ascii) : ascii := if tst p bit then letter else "-"%char.
Definition view_line (names : string → Z → option cstr) (x : row) : cstr :=
  let '((t, q), p) := x in
  let id fn := pad_right 8 (default (dec (wrap_s 32 q)) (names fn q)) ++ str " " in
  pad_right 12 (tag_name t) ++
  (if t =? ACL_USER then id "getpwuid"%string else if t =? ACL_GROUP then id "getgrgid"%string else str "         ") ++
  [letter_of p ACL_READ "r"%char; letter_of p ACL_WRITE "w"%char; letter_of p ACL_EXECUTE "x"%char; NL].

Section Views.
Context {S : Type} {K : os} {L : library K} (names : string → Z → option cstr) (Hnames : names_known K names).
Implicit Types s : st S.

(** The entries and what was printed. *)
Definition viewing (acl : Z) (r : list (Z * row)) (c : nat) (text : cstr) (s : st S) : Prop :=
  acls (seen_world s) = {[acl := (r, c)]} ∧ printed (trace s) = text.

Lemma wp_must_quiet fn ints text msg (Q : reply → st S → Prop) s :
  lib_fn fn = true →
  (∀ r s', lib_ok (seen_world s) fn ints text r (seen_world s') → printed (trace s') = printed (trace s) → Q r s') →
  wp (must (sys (Cextern fn ints text)) msg) Q (λ t _, t = end_of true) s.
Proof using.
  intros Hfn HQ. unfold must. apply wp_bind, wp_sys. pose proof (view_sys (trace s) (Cextern fn ints text)) as Hv. cbn in Hv.
  rewrite Hfn in Hv. cbn beta. set (r := kern _ _) in *. destruct Hv as [[Hr Hv]|[Hr Hv]].
  - rewrite (proj2 (Z.eqb_eq _ _) Hr). apply wp_errExit_ran. done.
  - rewrite (proj2 (Z.eqb_neq _ _) Hr). apply wp_ret, HQ; [exact Hv|]. cbn. rewrite printed_app. apply app_nil_r.
Qed.

Lemma viewing_out acl r c text s t (Q : unit → st S → Prop) E :
  viewing acl r c text s → (∀ s', viewing acl r c (text ++ t) s' → permsets (seen_world s') = permsets (seen_world s) → Q tt s') → wp (out Stdout t) Q E s.
Proof using.
  intros [H1 H2] HQ. apply wp_emit, HQ; [split|]; unfold seen_world; cbn.
  - by rewrite view_out.
  - rewrite printed_app, H2. cbn. by rewrite app_nil_r.
  - by rewrite view_out.
Qed.

Lemma wp_name fn id acl r c text s (Q : option cstr → st S → Prop) E :
  fn = "getpwuid"%string ∨ fn = "getgrgid"%string → viewing acl r c text s →
  (∀ s', viewing acl r c text s' → Q (names fn id) s') → wp (name_from_id fn id) Q E s.
Proof using Hnames.
  intros Hfn [H1 H2] HQ. unfold name_from_id. apply wp_bind, wp_sys, wp_ret.
  pose proof (Hnames (trace s) fn id Hfn) as Hn. cbn zeta in Hn.
  assert (names fn id = if rv (kern (trace s) (Cextern fn [id] [])) =? -1 then None else Some (c_str (rdata (kern (trace s) (Cextern fn [id] []))))) as <-.
  { destruct (names fn id).
    - destruct Hn as [Hr <-]. by rewrite (proj2 (Z.eqb_neq _ _) Hr).
    - by rewrite Hn. }
  apply HQ. split; unfold seen_world; cbn.
  - pose proof (view_sys (trace s) (Cextern fn [id] [])) as Hv. cbn in Hv.
    assert (lib_fn fn = false) as Hl by by destruct Hfn as [-> | ->]. rewrite Hl in Hv. by rewrite Hv.
  - rewrite printed_app, H2. apply app_nil_r.
Qed.

Lemma show_qualifier_spec acl r c i e x text fn s :
  fn = "getpwuid"%string ∨ fn = "getgrgid"%string → NoDup r.*1 → r !! i = Some (e, x) → viewing acl r c text s →
  wp (show_qualifier e (name_from_id fn))
    (λ _ s', viewing acl r c (text ++ pad_right 8 (default (dec (wrap_s 32 x.1.2)) (names fn x.1.2)) ++ str " ") s') (λ t _, t = end_of true) s.
Proof using Hnames.
  intros Hfn Hn Hi Hv. unfold show_qualifier. apply wp_bind, wp_must_quiet; [done|]. intros r1 s1 H1 Hp1. cbn beta.
  inversion H1 as [| | | | | | | | |? ? y Hy _ Hfree Hid| | | | | | | | | |]; subst.
  match goal with E : _ = seen_world s1 |- _ => rename E into Hw1 end. pose proof (proj1 Hv) as Hw.
  assert (y = x) as -> by (eapply entry_at_lookup; [exact Hw|exact Hn|exact Hi|exact Hy]).
  rewrite Hid. assert (viewing acl r c text s1) as Hv1 by (split; [by rewrite <-Hw1|rewrite Hp1; apply Hv]).
  apply wp_bind. eapply wp_name; [exact Hfn|exact Hv1|]. intros s2 Hv2. apply wp_bind. eapply viewing_out; [exact Hv2|]. intros s3 Hv3 _.
  apply wp_bind, wp_must_quiet; [done|]. intros r4 s4 H4 Hp4. cbn beta. apply wp_ret. destruct Hv3 as [Hw3 Ht3].
  inversion H4 as [| | | | | | | | | | | | | | | | | |? ? rows Hrs|? ? Hno]; subst.
  - exfalso. destruct Hrs as [c' Hrs]. rewrite Hw3, <-Hw in Hrs. congruence.
  - match goal with E : _ = seen_world s4 |- _ => rename E into Hw4 end. split; [by rewrite <-Hw4|by rewrite Hp4].
Qed.

Lemma show_perm_spec acl r c i e x ps text bit msg letter s :
  NoDup r.*1 → r !! i = Some (e, x) → viewing acl r c text s → permsets (seen_world s) !! ps = Some e →
  wp (show_perm ps bit msg letter)
    (λ _ s', viewing acl r c (text ++ [letter_of x.2 bit letter]) s' ∧ permsets (seen_world s') !! ps = Some e) (λ t _, t = end_of true) s.
Proof using.
  intros Hn Hi Hv Hps. unfold show_perm. apply wp_bind, wp_must_quiet; [done|]. intros r1 s1 H1 Hp1. cbn beta.
  inversion H1 as [| | | | | | | | | | | | | |? e' ? ? y Hps' Hy Hrv| | | | |]; subst. pose proof (proj1 Hv) as Hw.
  match goal with E : _ = seen_world s1 |- _ => rename E into Hw1 end.
  assert (e' = e) as -> by congruence.
  assert (y = x) as -> by (eapply entry_at_lookup; [exact Hw|exact Hn|exact Hi|exact Hy]).
  eapply viewing_out; [split; [by rewrite <-Hw1|rewrite Hp1; apply Hv]|]. intros s2 Hv2 Hps2. rewrite Hps2, <-Hw1. split; [|done].
  rewrite Hrv in Hv2. unfold letter_of. by destruct (tst _ _).
Qed.

(** How far the listing is. *)
Definition listed (acl : Z) (r : list (Z * row)) (text : cstr) (ent : Z) (s : st S) : Prop :=
  ∃ i cur, viewing acl r cur (text ++ (take i r.*2 ≫= view_line names)) s ∧ (i <= length r)%nat ∧
    (ent = ACL_FIRST_ENTRY ∧ i = O ∨ ent = ACL_NEXT_ENTRY ∧ i = cur).

(** The listing also stops, silently, when acl_get_entry fails. *)
Definition get_entry_fails (acl : Z) : Prop := ∃ tr which, rv (kern tr (Cextern "acl_get_entry" [acl; which] [])) = -1.

Lemma view_turn_spec acl (r : list (Z * row)) text ent s :
  NoDup r.*1 → listed acl r text ent s →
  wp (view_turn acl ent) (λ res s', match res with
    | inl ent' => listed acl r text ent' s' ∧ (to_pass acl r ent' s' < to_pass acl r ent s)%nat
    | inr _ => ∃ i cur, viewing acl r cur (text ++ (take i r.*2 ≫= view_line names)) s' ∧ (i = length r ∨ get_entry_fails acl)
    end) (λ t _, t = end_of true) s.
Proof using Hnames.
  intros Hn (i & cur & Hv & Hi & Hent). pose proof (proj1 Hv) as Hw. unfold view_turn.
  apply wp_bind, wp_sys. pose proof (view_sys (trace s) (Cextern "acl_get_entry" [acl; ent] [])) as H1. cbn in H1. cbn beta.
  set (r1 := kern _ _) in *. set (s1 := St _ _ _). fold (seen_world s) in H1.
  change (view (trace s ++ [Esys (Cextern "acl_get_entry" [acl; ent] []) r1])) with (seen_world s1) in H1.
  assert (printed (trace s1) = printed (trace s)) as Hp1 by (cbn; rewrite printed_app; apply app_nil_r).
  assert (rv r1 = -1 → get_entry_fails acl) as Hfails by (intros Hf; by exists (trace s), ent).
  clearbody s1. clearbody r1. destruct H1 as [[Hr H1]|[Hr H1]].
  { specialize (Hfails Hr). rewrite Hr. apply wp_ret. exists i, cur. split; [|by right]. split; [by rewrite H1|rewrite Hp1; apply Hv]. }
  inversion H1 as [| | |? ? ? rows cur' i' x Ha Hw1 Hx Hrv He|? ? ? rows cur' i' Ha Hw1 Hx Hrv| | | | | | | | | | | | | | |];
    subst; match goal with E : _ = seen_world s1 |- _ => rename E into Heq end; clear H1;
    rewrite Hw in Ha; apply lookup_singleton_Some in Ha as [_ [= <- <-]];
    assert (i' = i) as -> by (destruct Hent as [[-> ->]|[-> ->]], Hw1 as [[? ->]|[? ->]]; done).
  2: { rewrite Hrv. apply wp_ret. exists i, cur. split; [|left; apply lookup_ge_None in Hx; lia]. split; [by rewrite <-Heq|rewrite Hp1; apply Hv]. }
  rewrite Hrv. change (negb (1 =? 1)) with false. cbn iota. destruct x as [e [[t q] p]]. cbn in He.
  assert (viewing acl r (Datatypes.S i) (text ++ (take i r.*2 ≫= view_line names)) s1) as Hv1
    by (split; [rewrite <-Heq; cbn; by rewrite Hw, insert_singleton_eq|rewrite Hp1; apply Hv]).
  apply wp_bind, wp_must_quiet; [done|]. intros r2 s2 H2 Hp2. cbn beta. pose proof (proj1 Hv1) as Hw1'.
  inversion H2 as [| | | | | | |? ? y Hy Hy'| | | | | | | | | | | |]; subst.
  match goal with E : _ = seen_world s2 |- _ => rename E into Heq2 end.
  assert (y = ((t, q), p)) as -> by (eapply entry_at_lookup; [exact Hw1'|exact Hn|exact Hx|exact Hy]).
  rewrite Hy'. cbn [fst].
  assert (viewing acl r (Datatypes.S i) (text ++ (take i r.*2 ≫= view_line names)) s2) as Hv2
    by (split; [by rewrite <-Heq2|rewrite Hp2; apply Hv1]).
  apply wp_bind. eapply viewing_out; [exact Hv2|]. intros s3 Hv3 _. rewrite <-app_assoc in Hv3.
  set (e := le (rdata r1)) in *. set (qt := if t =? ACL_USER then pad_right 8 (default (dec (wrap_s 32 q)) (names "getpwuid" q)) ++ str " "
    else if t =? ACL_GROUP then pad_right 8 (default (dec (wrap_s 32 q)) (names "getgrgid" q)) ++ str " " else str "         ").
  apply wp_bind. eapply (wp_mono _ (λ _ s', viewing acl r (Datatypes.S i) (text ++ (take i r.*2 ≫= view_line names) ++ pad_right 12 (tag_name t) ++ qt) s') _ (λ t _, t = end_of true)); [| |done].
  { unfold qt. destruct (t =? ACL_USER); [|destruct (t =? ACL_GROUP)].
    - eapply wp_mono; [eapply (show_qualifier_spec _ _ _ _ e); [by left|exact Hn|exact Hx|exact Hv3]| |done]. intros [] s4 Hv4. cbn beta in *.
      by rewrite <-!app_assoc in Hv4.
    - eapply wp_mono; [eapply (show_qualifier_spec _ _ _ _ e); [by right|exact Hn|exact Hx|exact Hv3]| |done]. intros [] s4 Hv4. cbn beta in *.
      by rewrite <-!app_assoc in Hv4.
    - eapply viewing_out; [exact Hv3|]. intros s4 Hv4 _. by rewrite <-!app_assoc in Hv4. }
  intros [] s4 Hv4. cbn beta in Hv4.
  apply wp_bind, wp_must_quiet; [done|]. intros r5 s5 H5 Hp5. cbn beta.
  inversion H5 as [| | | | | | | | | | |? ? ps Hps| | | | | | | |]; subst.
  match goal with E : _ = seen_world s5 |- _ => rename E into Heq5 end.
  assert (permsets (seen_world s5) !! le (rdata r5) = Some e) as Hps by (rewrite <-Heq5; apply lookup_insert_eq).
  assert (viewing acl r (Datatypes.S i) (text ++ (take i r.*2 ≫= view_line names) ++ pad_right 12 (tag_name t) ++ qt) s5) as Hv5
    by (split; [rewrite <-Heq5; apply Hv4|rewrite Hp5; apply Hv4]).
  do 3 (apply wp_bind; eapply wp_mono; [eapply (show_perm_spec _ _ _ _ e ((t, q), p)); [exact Hn|exact Hx|exact Hv5|exact Hps]|cbn beta; clear Hv5 Hps; intros [] ? [Hv5 Hps]|done]).
  apply wp_bind. eapply viewing_out; [exact Hv5|]. intros s9 Hv9 _. apply wp_ret.
  assert (Datatypes.S i <= length r)%nat as Hi' by by eapply lookup_lt_Some.
  split.
  - exists (Datatypes.S i), (Datatypes.S i). split; [|split; [done|by right]].
    rewrite (take_S_r _ _ ((t, q), p)) by (rewrite list_lookup_fmap, Hx; done). rewrite bind_app.
    assert ([((t, q), p)] ≫= view_line names = pad_right 12 (tag_name t) ++ qt ++
      [letter_of p ACL_READ "r"%char; letter_of p ACL_WRITE "w"%char; letter_of p ACL_EXECUTE "x"%char; NL]) as -> by apply app_nil_r.
    rewrite <-!app_assoc in Hv9. exact Hv9.
  - unfold to_pass. rewrite (proj1 Hv9), Hw, !lookup_singleton_eq. cbn. destruct Hent as [[-> ->]|[-> ->]]; cbn; lia.
Qed.
End Views.

(** The program acl_view, over a library that keeps its promises: it ends, and
    unless a call failed it has printed a line for each entry of the file's ACL,
    in the library's order, up to the first failure to get one. *)
Theorem acl_view_correct {S} (K : os) (L : library K) names fuel prog (dflt : bool) path n (s : st S) :
  names_known K names → acls (view (trace s)) = ∅ → files_ok (files (view (trace s))) n → (n < fuel)%nat → head path ≠ Some "-"%char →
  let type := if dflt then ACL_TYPE_DEFAULT else ACL_TYPE_ACCESS in
  ∃ t s', acl_view_main fuel prog ((if dflt then [str "-d"] else []) ++ [path]) s = (Stop t, s') ∧
    (t = end_of true ∨
     t = Exit 0 ∧ ∃ acl rows i, rows ≡ₚ default [] (files (view (trace s)) !! (path, type)) ∧
       printed (trace s') = printed (trace s) ++ (take i rows ≫= view_line names) ∧
       (i = length rows ∨ get_entry_fails acl)).
Proof.
  intros Hnames Hw Hok Hf Hpath type.
  enough (wp (acl_view_main fuel prog ((if dflt then [str "-d"] else []) ++ [path])) (λ _ _, False) (λ t s', t = end_of true ∨
     t = Exit 0 ∧ ∃ acl rows i, rows ≡ₚ default [] (files (view (trace s)) !! (path, type)) ∧
       printed (trace s') = printed (trace s) ++ (take i rows ≫= view_line names) ∧ (i = length rows ∨ get_entry_fails acl)) s) as Hwp.
  { apply wp_run in Hwp as [(? & ? & _ & [])|H]. done. }
  assert (acl_view_main fuel prog ((if dflt then [str "-d"] else []) ++ [path]) =
    (acl ← must (acl_get_file path type) (str "acl_get_file");
     loop fuel (view_turn (rv acl)) ACL_FIRST_ENTRY;;
     must (acl_free (rv acl)) (str "acl_free");;
     stop_with (A:=unit) (S:=S) (Exit 0))) as ->.
  { set (sp := λ c, if decide (c = "d"%char) then Some false else None).
    assert (getopt_env sp ((if dflt then [str "-d"] else []) ++ [path]) = (if dflt then [Opt "d"%char None] else [], [path])) as Hg.
    { assert (operand path = true) as Ho.
      { destruct path as [|c [|d p]]; [done|done|]. cbn in *. rewrite bool_decide_eq_false_2; [done|congruence]. }
      unfold getopt_env, str. cbn [String.list_ascii_of_string].
      destruct (getenv _), dflt; cbn [app]; rewrite ?getopt_flag, ?permute_flag by done; by rewrite ?getopt_stop, ?permute_operand by done. }
    unfold acl_view_main. fold sp. rewrite Hg. by destruct dflt. }
  apply wp_bind. eapply wp_mono; [apply (wp_must_quiet _ _ _ _ (λ r s1, lib_ok (seen_world s) "acl_get_file" [type] path r (seen_world s1) ∧ printed (trace s1) = printed (trace s)))| |by left]; [done..|].
  intros r s1 [H1 Hp1]. cbn beta. inversion H1 as [? ? ? rows Hfree Hn Hp| | | | | | | | | | | | | | | | | | |]; subst.
  match goal with E : _ = seen_world s1 |- _ => rename E into Heq end.
  assert (acls (seen_world s1) = {[rv r := (rows, O)]}) as Hw1 by (rewrite <-Heq; cbn; unfold seen_world; by rewrite Hw, insert_empty).
  assert (length rows < fuel)%nat as Hlen.
  { apply Permutation_length in Hp. rewrite length_fmap in Hp. unfold seen_world in Hp.
    destruct (files (view (trace s)) !! (path, type)) eqn:Ef; [apply Hok in Ef as [_ ?]|]; cbn in Hp; lia. }
  apply wp_bind. eapply wp_mono; [eapply (wp_loop (listed names (rv r) rows (printed (trace s))) (to_pass (rv r) rows) _ _ (λ t _, t = end_of true))| |by left].
  - exists O, O. split; [split; [done|]|split; [lia|by left]]. by rewrite app_nil_r.
  - unfold to_pass. cbn. done.
  - intros ent s2 H2. by apply view_turn_spec.
  - intros [] s2 (i & cur & [Hw2 Hp2] & Hi). cbn beta.
    apply wp_bind. eapply wp_mono; [apply (wp_must_quiet _ _ _ _ (λ _ s3, printed (trace s3) = printed (trace s2)))| |by left]; [done..|].
    intros ? s3 Hp3. right. split; [done|]. exists (rv r), rows.*2, i. split; [done|]. split; [by rewrite Hp3|]. by rewrite length_fmap.
Qed.
