(* ===== verification/PidFile.v ===== *)
(** Record locks and files with a process ID: tlpi-book/lib/region_locking.c
    and create_pid_file.c.

    createPidFile is proved to keep a protocol, and any number of processes
    that keep it, under what fcntl(2) says of locks, never have two of them
    past it at a time. *)
From S2P Require Import Prelude Sys ErrorFns.

(** ** region_locking.c *)

Definition F_GETLK : Z := 5.
Definition F_SETLK : Z := 6.
Definition F_SETLKW : Z := 7.
Definition F_RDLCK : Z := 0.
Definition F_WRLCK : Z := 1.
Definition F_UNLCK : Z := 2.
Definition SEEK_SET : Z := 0.

(** The fields of struct flock that F_GETLK stores. *)
Definition l_type (b : cstr) : Z := wrap_s 16 (le (take 2 b)).
Definition l_pid (b : cstr) : Z := wrap_s 32 (le (take 4 (drop 24 b))).

Section Locking.
Context {S : Type} `{os}.

Definition lockReg (fd cmd type whence start len : Z) : M S Z :=
  r ← sys (Clock fd cmd type whence start len);
  mret (rv r).

Definition lockRegion (fd type whence start len : Z) : M S Z := lockReg fd F_SETLK type whence start len.
Definition lockRegionWait (fd type whence start len : Z) : M S Z := lockReg fd F_SETLKW type whence start len.

Definition regionIsLocked (fd type whence start len : Z) : M S Z :=
  r ← sys (Clock fd F_GETLK type whence start len);
  if rv r =? -1 then mret (-1)
  else mret (if l_type (rdata r) =? F_UNLCK then 0 else l_pid (rdata r)).
End Locking.

(** ** create_pid_file.c *)

Definition BUF_SIZE : Z := 100.
Definition CPF_CLOEXEC : Z := 1.
Definition O_RDWR_CREAT : Z := 66.        (* O_RDWR | O_CREAT *)
Definition PID_MODE : Z := 384.           (* S_IRUSR | S_IWUSR *)
Definition F_GETFD : Z := 1.
Definition F_SETFD : Z := 2.
Definition FD_CLOEXEC : Z := 1.

Section PidFile.
Context {S : Type} `{os}.

Definition set_cloexec (fd : Z) (pidFile : cstr) : M S unit :=
  flags ← sys (Cfcntl fd F_GETFD 0);
  when (rv flags =? -1) (errExit (str "Could not get flags for PID file " ++ pidFile));;
  r ← sys (Cfcntl fd F_SETFD (Z.lor (rv flags) FD_CLOEXEC));
  when (rv r =? -1) (errExit (str "Could not set flags for PID file " ++ pidFile)).

Definition createPidFile (progName pidFile : cstr) (flags : Z) : M S Z :=
  o ← sys (Copen pidFile O_RDWR_CREAT PID_MODE);
  let fd := rv o in
  when (fd =? -1) (errExit (str "Could not open PID file " ++ pidFile));;
  when (tst flags CPF_CLOEXEC) (set_cloexec fd pidFile);;
  l ← lockRegion fd F_WRLCK SEEK_SET 0 0;
  when (l =? -1) (
    e ← get_errno;
    if (e =? EAGAIN) || (e =? EACCES) then
      fatal (str "PID file '" ++ pidFile ++ str "' is locked; probably '" ++ progName ++ str "' is already running")
    else errExit (str "Unable to lock PID file '" ++ pidFile ++ str "'"));;
  t ← sys (Cftruncate fd 0);
  when (rv t =? -1) (errExit (str "Could not truncate PID file '" ++ pidFile ++ str "'"));;
  pid ← sys Cgetpid;
  let buf := snprintf BUF_SIZE (dec (rv pid) ++ [NL]) in
  w ← sys (Cwrite fd buf);
  when (negb (rv w =? strlen buf)) (fatal (str "Writing to PID file '" ++ pidFile ++ str "'"));;
  mret fd.
End PidFile.

(** ** The protocol

    How far a process is with the file [pf], whose descriptor it has. *)

Inductive phase :=
  | Start
  | Opened (fd : Z)
  | Locked (fd : Z)
  | Truncated (fd : Z)
  | Written (fd : Z) (text : cstr)
  | Broken (fd : Z).

Definition fd_of (ph : phase) : option Z :=
  match ph with Start => None | Opened fd | Locked fd | Truncated fd | Broken fd => Some fd | Written fd _ => Some fd end.

(** The process has the lock. *)
Definition has_lock (ph : phase) : bool := match ph with Start | Opened _ => false | _ => true end.

Definition whole_lock (fd : Z) : call := Clock fd F_SETLK F_WRLCK SEEK_SET 0 0.

Definition phase_step (pf : cstr) (ph : phase) (x : call * reply) : phase :=
  match ph, x.1 with
  | Start, Copen path _ _ => if bool_decide (path = pf) && negb (rv x.2 =? -1) then Opened (rv x.2) else ph
  | Opened fd, Clock fd' _ _ _ _ _ => if (fd' =? fd) && negb (rv x.2 =? -1) then Locked fd else ph
  | Locked fd, Cftruncate fd' _ => if fd' =? fd then (if rv x.2 =? -1 then Broken fd else Truncated fd) else ph
  | Truncated fd, Cwrite fd' b => if fd' =? fd then (if rv x.2 =? strlen b then Written fd b else Broken fd) else ph
  | _, _ => ph
  end.

(** What a process may do: open the file once, lock the whole of it, truncate
    it under the lock, write to it after that, and never close it. *)
Definition allowed (pf : cstr) (ph : phase) (c : call) : Prop :=
  match c with
  | Copen path _ _ => path = pf → ph = Start
  | Cclose fd => fd_of ph ≠ Some fd
  | Cdup2 a b => fd_of ph ≠ Some a ∧ fd_of ph ≠ Some b
  | Clock fd _ _ _ _ _ => fd_of ph = Some fd → ph = Opened fd ∧ c = whole_lock fd
  | Cftruncate fd len => fd_of ph = Some fd → ph = Locked fd ∧ len = 0
  | Cwrite fd _ => fd_of ph = Some fd → ph = Truncated fd
  | _ => True
  end.

Definition phase_of (pf : cstr) (l : list (call * reply)) : phase := foldl (phase_step pf) Start l.

Fixpoint keeps (pf : cstr) (ph : phase) (l : list (call * reply)) : Prop :=
  match l with
  | [] => True
  | x :: l => allowed pf ph x.1 ∧ keeps pf (phase_step pf ph x) l
  end.

Lemma keeps_app pf ph a b : keeps pf ph (a ++ b) ↔ keeps pf ph a ∧ keeps pf (foldl (phase_step pf) ph a) b.
Proof. revert ph. induction a as [|x a IH]; intros ph; cbn; [tauto|]. rewrite IH. tauto. Qed.

Lemma phase_of_snoc pf l x : phase_of pf (l ++ [x]) = phase_step pf (phase_of pf l) x.
Proof. unfold phase_of. by rewrite foldl_app. Qed.

(** ** createPidFile keeps it *)

Section Keeps.
Context {S : Type} `{os} (pf : cstr).
Implicit Types s : st S.

(** The calls made since [s0], and the phase they have come to. *)
Definition at_phase (s0 : st S) (ph : phase) (s : st S) : Prop :=
  ∃ l, acted s0 l s ∧ keeps pf Start l ∧ phase_of pf l = ph.

(** However it stops. *)
Definition stopped_keeping (s0 : st S) (t : stop) (s : st S) : Prop := ∃ l, acted s0 l s ∧ keeps pf Start l.

Lemma at_phase_start s : at_phase s Start s.
Proof using. exists []. split; [apply acted_refl|done]. Qed.

Lemma wp_keep c ph s0 s (Q : reply → st S → Prop) E :
  at_phase s0 ph s → allowed pf ph c → (∀ f, c ≠ Cfflush f) →
  (∀ r s', (∀ l, acted s0 l s → acted s0 (l ++ [(c, r)]) s') → at_phase s0 (phase_step pf ph (c, r)) s' → Q r s') → wp (sys c) Q E s.
Proof using.
  intros (l & Ha & Hk & Hp) Hc Hf HQ. apply wp_call. intros r s' _ Hg He _ Ht. apply HQ; [intros l' Hl'; by eapply acted_call|].
  exists (l ++ [(c, r)]). split; [by eapply acted_call|]. split; [|by rewrite phase_of_snoc, Hp].
  apply keeps_app. split; [done|]. fold (phase_of pf l). rewrite Hp. done.
Qed.

Lemma keep_errExit {A} text ph s0 s (Q : A → st S → Prop) : at_phase s0 ph s → wp (errExit text) Q (stopped_keeping s0) s.
Proof using.
  intros (l & Ha & Hk & _). apply wp_errExit. intros s' Hg Hacts _. exists l. split; [by eapply acted_same|done].
Qed.

Lemma keep_fatal {A} text ph s0 s (Q : A → st S → Prop) : at_phase s0 ph s → wp (fatal text) Q (stopped_keeping s0) s.
Proof using.
  intros (l & Ha & Hk & _). apply wp_fatal. intros s' Hg Hacts. exists l. split; [by eapply acted_same|done].
Qed.

Lemma set_cloexec_keeps fd s0 s : at_phase s0 (Opened fd) s →
  wp (set_cloexec fd pf) (λ _ s', at_phase s0 (Opened fd) s') (stopped_keeping s0) s.
Proof using.
  intros H1. unfold set_cloexec. apply wp_bind. eapply wp_keep; [exact H1|done|done|]. intros r1 s1 _ H2. cbn in H2.
  apply wp_bind. destruct (rv r1 =? -1); cbn [when]; [by eapply keep_errExit|]. apply wp_ret.
  apply wp_bind. eapply wp_keep; [exact H2|done|done|]. intros r2 s2 _ H3. cbn in H3.
  destruct (rv r2 =? -1); cbn [when]; [by eapply keep_errExit|]. by apply wp_ret.
Qed.

Lemma createPidFile_keeps progName flags s :
  wp (createPidFile progName pf flags)
    (λ fd s', ∃ g, at_phase s (Written fd (snprintf BUF_SIZE (dec (rv g) ++ [NL]))) s' ∧
       ∃ l, acted s l s' ∧ (Cgetpid, g) ∈ l) (stopped_keeping s) s.
Proof using.
  unfold createPidFile. apply wp_bind. eapply wp_keep; [apply at_phase_start|done|done|]. intros o s1 _ H1.
  cbn [phase_step fst snd] in H1. rewrite bool_decide_eq_true_2 in H1 by done. cbn [andb] in H1.
  apply wp_bind. destruct (rv o =? -1); cbn [when negb] in *; [by eapply keep_errExit|]. apply wp_ret.
  set (fd := rv o) in *. apply wp_bind.
  eapply (wp_mono _ (λ _ s', at_phase s (Opened fd) s') _ (stopped_keeping s)); [| |done].
  { destruct (tst flags CPF_CLOEXEC); cbn [when]; [by apply set_cloexec_keeps|by apply wp_ret]. }
  intros [] s2 H2. cbn beta in H2. unfold lockRegion, lockReg.
  apply wp_bind, wp_bind. eapply wp_keep; [exact H2|by intros _|done|]. intros k s3 _ H3. apply wp_ret.
  cbn [phase_step fst snd] in H3. rewrite Z.eqb_refl in H3. cbn [andb] in H3.
  apply wp_bind. destruct (rv k =? -1); cbn [when negb] in *.
  { apply wp_bind, wp_get_errno. destruct (_ || _); [by eapply keep_fatal|by eapply keep_errExit]. }
  apply wp_ret, wp_bind. eapply wp_keep; [exact H3|by intros _|done|]. intros t s4 _ H4.
  cbn [phase_step fst snd] in H4. rewrite Z.eqb_refl in H4.
  apply wp_bind. destruct (rv t =? -1); cbn [when]; [by eapply keep_errExit|]. apply wp_ret.
  apply wp_bind. eapply wp_keep; [exact H4|done|done|]. intros g s5 Hg H5. cbn in H5.
  apply wp_bind. eapply wp_keep; [exact H5|by intros _|done|]. intros w s6 Hw H6.
  cbn [phase_step fst snd] in H6. rewrite Z.eqb_refl in H6.
  apply wp_bind. destruct (rv w =? strlen _) eqn:Ew; cbn [when negb]; [|by eapply keep_fatal]. apply wp_ret, wp_ret.
  exists g. split; [done|]. destruct H4 as (l & Ha & _). eexists. split; [apply Hw, Hg, Ha|]. rewrite !elem_of_app, !list_elem_of_singleton. auto.
Qed.
End Keeps.

(** ** Several processes

    What happens over time: calls of the processes, which have numbers, and
    their ends. *)

Inductive moment := Does (p : nat) (x : call * reply) | Ends (p : nat).

Definition calls_of (p : nat) (T : list moment) : list (call * reply) :=
  omap (λ m, match m with Does q x => if decide (q = p) then Some x else None | Ends _ => None end) T.

Definition alive (p : nat) (T : list moment) : Prop := Ends p ∉ T.

(** The file: who has the lock, and what is in it.  A file that is opened anew
    is written from its beginning. *)
Record file := File { owner : option nat; content : cstr }.

Definition overwrite (old new : cstr) : cstr := new ++ drop (length new) old.

Definition file_step (pf : cstr) (ph : phase) (p : nat) (F : file) (x : call * reply) : file :=
  match fd_of ph, x.1 with
  | Some fd, Clock fd' _ _ _ _ _ => if (fd' =? fd) && negb (rv x.2 =? -1) then File (Some p) (content F) else F
  | Some fd, Cftruncate fd' len => if (fd' =? fd) && negb (rv x.2 =? -1) then File (owner F) (take (Z.to_nat len) (content F)) else F
  | Some fd, Cwrite fd' b => if fd' =? fd then File (owner F) (overwrite (content F) (take (Z.to_nat (rv x.2)) b)) else F
  | _, _ => F
  end.

(** The file over time; the lock goes with its owner. *)
Fixpoint file_at (pf : cstr) (F : file) (before todo : list moment) : file :=
  match todo with
  | [] => F
  | Does p x :: todo => file_at pf (file_step pf (phase_of pf (calls_of p before)) p F x) (before ++ [Does p x]) todo
  | Ends p :: todo => file_at pf (if decide (owner F = Some p) then File None (content F) else F) (before ++ [Ends p]) todo
  end.
Definition file_after (pf : cstr) (old : cstr) (T : list moment) : file := file_at pf (File None old) [] T.

(** fcntl(2): a write lock on the whole file is not given while another process
    has one. *)
Definition lock_law (pf old : cstr) (T : list moment) : Prop :=
  ∀ A p fd r B, T = A ++ Does p (whole_lock fd, r) :: B → fd_of (phase_of pf (calls_of p A)) = Some fd → rv r ≠ -1 →
    owner (file_after pf old A) = None ∨ owner (file_after pf old A) = Some p.

(** The processes make the calls [H p], as far as they get, and none after
    their end. *)
Definition course (H : nat → list (call * reply)) (T : list moment) : Prop :=
  (∀ p, calls_of p T `prefix_of` H p) ∧ ∀ p A B, T = A ++ Ends p :: B → calls_of p B = [].

Lemma calls_of_app p A B : calls_of p (A ++ B) = calls_of p A ++ calls_of p B.
Proof. apply omap_app. Qed.

Lemma file_at_app pf F before A B :
  file_at pf F before (A ++ B) = file_at pf (file_at pf F before A) (before ++ A) B.
Proof.
  revert F before. induction A as [|m A IH]; intros F before; cbn; [by rewrite app_nil_r|].
  destruct m as [p x|p]; rewrite IH, <-app_assoc; done.
Qed.

Lemma file_after_does pf old T p x :
  file_after pf old (T ++ [Does p x]) = file_step pf (phase_of pf (calls_of p T)) p (file_after pf old T) x.
Proof. unfold file_after. by rewrite file_at_app. Qed.

Lemma file_after_ends pf old T p :
  file_after pf old (T ++ [Ends p]) =
    let F := file_after pf old T in if decide (owner F = Some p) then File None (content F) else F.
Proof. unfold file_after. by rewrite file_at_app. Qed.

Lemma calls_of_does p q x T : calls_of p (T ++ [Does q x]) = calls_of p T ++ (if decide (q = p) then [x] else []).
Proof. rewrite calls_of_app. cbn. by case_decide. Qed.

Lemma calls_of_ends p q T : calls_of p (T ++ [Ends q]) = calls_of p T.
Proof. rewrite calls_of_app. apply app_nil_r. Qed.

Lemma alive_snoc p m T : alive p (T ++ [m]) ↔ alive p T ∧ m ≠ Ends p.
Proof. unfold alive. rewrite not_elem_of_app, list_elem_of_singleton. intuition congruence. Qed.

(** What the file holds, as far as its owner is concerned. *)
Definition content_in (ph : phase) (c : cstr) : Prop :=
  match ph with Truncated _ => c = [] | Written _ text => c = text | _ => True end.

Section Exclusive.
Context (pf old : cstr) (H : nat → list (call * reply)).
Hypothesis Hkeeps : ∀ p, keeps pf Start (H p).

Lemma kept p T x : calls_of p T ++ [x] `prefix_of` H p → allowed pf (phase_of pf (calls_of p T)) x.1.
Proof using Hkeeps.
  intros [k Hk]. pose proof (Hkeeps p) as Hp. rewrite Hk in Hp. apply keeps_app in Hp as [Hp _]. apply keeps_app in Hp as [_ [Hp _]].
  exact Hp.
Qed.

Lemma course_snoc T m : course H (T ++ [m]) → course H T.
Proof using.
  intros [H1 H2]. split.
  - intros p. etrans; [|apply H1]. rewrite calls_of_app. by apply prefix_app_r.
  - intros p A B ->. pose proof (H2 p A (B ++ [m])) as He. rewrite <-app_assoc, calls_of_app in He. specialize (He eq_refl).
    by apply app_eq_nil in He as [? _].
Qed.

Lemma lock_law_snoc T m : lock_law pf old (T ++ [m]) → lock_law pf old T.
Proof using. intros Hl A p fd r B -> Hfd Hr. eapply (Hl A p fd r (B ++ [m])); [by rewrite <-app_assoc|done|done]. Qed.

(** A step of the owner. *)
Lemma own_step ph x p F :
  allowed pf ph x.1 → has_lock (phase_step pf ph x) → (has_lock ph → owner F = Some p ∧ content_in ph (content F)) →
  owner (file_step pf ph p F x) = Some p ∧ content_in (phase_step pf ph x) (content (file_step pf ph p F x)).
Proof using.
  destruct x as [c r]. cbn [fst]. unfold file_step, phase_step. cbn [fst snd]. intros Ha Hlock Hinv.
  destruct ph as [|fd|fd|fd|fd text|fd]; cbn [fd_of has_lock] in *.
  - exfalso. destruct c; try done. destruct (_ && _); done.
  - destruct c; try done. destruct ((fd0 =? fd) && negb (rv r =? -1)); [done|by destruct Hlock].
  - destruct (Hinv I) as [Ho Hc]. destruct c; try done; cbn in Ha.
    + destruct (Z.eqb_spec fd0 fd) as [-> |_]; [by destruct (Ha eq_refl)|]. done.
    + destruct ((fd0 =? fd) && negb (rv r =? -1)) eqn:E; [by apply andb_true_iff in E as [->%Z.eqb_eq _]; destruct (Ha eq_refl)|done].
    + destruct (Z.eqb_spec fd0 fd) as [-> |_]; [|done]. destruct (Ha eq_refl) as [_ ->]. by destruct (rv r =? -1).
  - destruct (Hinv I) as [Ho Hc]. destruct c; try done; cbn in Ha, Hc.
    + destruct (Z.eqb_spec fd0 fd) as [-> |_]; [|done]. destruct (Z.eqb_spec (rv r) (strlen bytes)) as [Er|_]; [|done].
      split; [done|]. cbn. rewrite Er, Hc. unfold strlen, overwrite. rewrite Nat2Z.id, drop_nil, app_nil_r. by apply take_ge.
    + destruct ((fd0 =? fd) && negb (rv r =? -1)) eqn:E; [by apply andb_true_iff in E as [->%Z.eqb_eq _]; destruct (Ha eq_refl)|done].
    + destruct (Z.eqb_spec fd0 fd) as [-> |_]; [by destruct (Ha eq_refl)|done].
  - destruct (Hinv I) as [Ho Hc]. destruct c; try done; cbn in Ha.
    + destruct (Z.eqb_spec fd0 fd) as [-> |_]; [by specialize (Ha eq_refl)|done].
    + destruct ((fd0 =? fd) && negb (rv r =? -1)) eqn:E; [by apply andb_true_iff in E as [->%Z.eqb_eq _]; destruct (Ha eq_refl)|done].
    + destruct (Z.eqb_spec fd0 fd) as [-> |_]; [by destruct (Ha eq_refl)|done].
  - destruct (Hinv I) as [Ho Hc]. destruct c; try done; cbn in Ha.
    + destruct (Z.eqb_spec fd0 fd) as [-> |_]; done.
    + destruct ((fd0 =? fd) && negb (rv r =? -1)) eqn:E; [by apply andb_true_iff in E as [->%Z.eqb_eq _]; destruct (Ha eq_refl)|done].
    + destruct (Z.eqb_spec fd0 fd) as [-> |_]; [by destruct (Ha eq_refl)|done].
Qed.

(** A step of a process without the lock, which does not get it. *)
Lemma other_step ph x q F :
  allowed pf ph x.1 → has_lock ph = false → (∀ fd, fd_of ph = Some fd → x.1 = whole_lock fd → rv x.2 ≠ -1 → False) →
  file_step pf ph q F x = F.
Proof using.
  destruct x as [c r]. cbn [fst snd]. unfold file_step. cbn [fst snd]. intros Ha Hlock Hno.
  destruct ph as [|fd|fd|fd|fd text|fd]; cbn [fd_of has_lock] in *; try done. destruct c; try done; cbn in Ha.
  - destruct (Z.eqb_spec fd0 fd) as [-> |_]; [by specialize (Ha eq_refl)|done].
  - destruct (Z.eqb_spec fd0 fd) as [-> |_]; [|done]. destruct (Z.eqb_spec (rv r) (-1)) as [_|Hr]; [done|]. exfalso.
    destruct (Ha eq_refl) as [_ Hc]. by eapply Hno.
  - destruct (Z.eqb_spec fd0 fd) as [-> |_]; [by destruct (Ha eq_refl)|done].
Qed.

(** A process that has the lock owns the file, which is as it left it. *)
Lemma owner_invariant T : course H T → lock_law pf old T →
  ∀ p, alive p T → has_lock (phase_of pf (calls_of p T)) →
    owner (file_after pf old T) = Some p ∧ content_in (phase_of pf (calls_of p T)) (content (file_after pf old T)).
Proof using Hkeeps.
  induction T as [|m T IH] using rev_ind; [intros _ _ p _; done|]. intros Hc Hl p Hp Hlock.
  specialize (IH (course_snoc _ _ Hc) (lock_law_snoc _ _ Hl)). apply alive_snoc in Hp as [Hp Hm].
  destruct m as [q x|q].
  2: { rewrite calls_of_ends in *. destruct (IH p Hp Hlock) as [H1 H2]. rewrite file_after_ends. cbn zeta.
       rewrite decide_False; [done|]. rewrite H1. by intros [= ->]. }
  pose proof (proj1 Hc q) as Hq. rewrite calls_of_does, decide_True in Hq by done. apply kept in Hq.
  rewrite file_after_does, calls_of_does in *. destruct (decide (q = p)) as [-> |Hqp].
  - rewrite phase_of_snoc in *. apply own_step; [done|done|by apply IH].
  - rewrite app_nil_r in *. destruct (IH p Hp Hlock) as [H1 H2].
    assert (alive q T) as Hq2.
    { intros (A & B & ->)%list_elem_of_split. pose proof (proj2 Hc q A (B ++ [Does q x])) as He.
      rewrite <-app_assoc in He. specialize (He eq_refl). rewrite calls_of_does, decide_True in He by done. by destruct (calls_of q B). }
    rewrite other_step; [done|done| |].
    + destruct (has_lock (phase_of pf (calls_of q T))) eqn:Eq; [|done]. exfalso. destruct (IH q Hq2) as [H3 _]; [by rewrite Eq|]. congruence.
    + intros fd Hfd Hx Hr. destruct x as [c r]. cbn in Hx, Hr. subst c.
      destruct (Hl T q fd r [] eq_refl Hfd Hr) as [Hn|Hn]; congruence.
Qed.
End Exclusive.

Lemma written_stays pf fd text r : foldl (phase_step pf) (Written fd text) r = Written fd text.
Proof. induction r as [|[c x] r IH]; [done|]. exact IH. Qed.

(** ** The properties *)

(** C13: createPidFile in any number of processes, each on its own system, that
    go on afterwards without closing the file or touching its contents.  In
    whatever order their calls come and the processes end, as locks allow, no
    two of those that live have come through createPidFile, and while one lives
    the file holds its process ID and a newline.  A process that does not come
    through stops. *)
Theorem createPidFile_exclusive {S} (K : nat → os) progName pf flags (s s' : nat → st S) (o : nat → outcome Z)
    (l rest : nat → list (call * reply)) old T :
  (∀ p, @createPidFile S (K p) progName pf flags (s p) = (o p, s' p) ∧ acted (s p) (l p) (s' p)) →
  (∀ p, keeps pf (phase_of pf (l p)) (rest p)) → (∀ p fd, o p ≠ Ret fd → rest p = []) →
  course (λ p, l p ++ rest p) T → lock_law pf old T →
  (∀ p, (∃ fd, o p = Ret fd) ∨ ∃ t, o p = Stop t) ∧
  ∀ p fd, o p = Ret fd → alive p T → l p `prefix_of` calls_of p T →
    (∀ q fd', o q = Ret fd' → alive q T → l q `prefix_of` calls_of q T → q = p) ∧
    ∃ g, (Cgetpid, g) ∈ l p ∧ content (file_after pf old T) = snprintf BUF_SIZE (dec (rv g) ++ [NL]).
Proof.
  intros Hrun Hrest Hstop Hcourse Hlaw.
  assert (∀ p, keeps pf Start (l p) ∧ ((∃ fd g, o p = Ret fd ∧ (Cgetpid, g) ∈ l p ∧ phase_of pf (l p) = Written fd (snprintf BUF_SIZE (dec (rv g) ++ [NL]))) ∨
    ∃ t, o p = Stop t)) as Hp.
  { intros p. destruct (Hrun p) as [Hr Ha]. pose proof (@createPidFile_keeps S (K p) pf progName flags (s p)) as Hw. unfold wp in Hw. rewrite Hr in Hw.
    destruct (o p) as [fd|t|]; [| |done].
    - destruct Hw as (g & (l1 & Ha1 & Hk & Hph) & l2 & Ha2 & Hin).
      rewrite (acted_unique _ _ _ _ Ha Ha1), (acted_unique _ _ _ _ Ha1 Ha2) in *. split; [done|]. left. by exists fd, g.
    - destruct Hw as (l1 & Ha1 & Hk). rewrite (acted_unique _ _ _ _ Ha Ha1). split; [done|]. right. by exists t. }
  assert (∀ p, keeps pf Start (l p ++ rest p)) as Hkeeps by (intros p; apply keeps_app; split; [apply Hp|apply Hrest]).
  split; [intros p; destruct (Hp p) as [_ [(fd & g & Hr & _)|Ht]]; [left; by exists fd|by right]|].
  assert (∀ p fd, o p = Ret fd → alive p T → l p `prefix_of` calls_of p T →
    owner (file_after pf old T) = Some p ∧
    ∃ g, (Cgetpid, g) ∈ l p ∧ content (file_after pf old T) = snprintf BUF_SIZE (dec (rv g) ++ [NL])) as Hown.
  { intros p fd Hr Halive [r Hpre]. destruct (Hp p) as [_ [(fd' & g & _ & Hin & Hph)|[t Ht]]]; [|congruence].
    destruct (owner_invariant pf old _ Hkeeps T Hcourse Hlaw p Halive) as [H1 H2]; rewrite Hpre in *.
    - unfold phase_of in *. by rewrite foldl_app, Hph, written_stays.
    - split; [done|]. exists g. split; [done|]. unfold phase_of in *. by rewrite foldl_app, Hph, written_stays in H2. }
  intros p fd Hr Halive Hpre. destruct (Hown p fd Hr Halive Hpre) as [H1 H2]. split; [|done].
  intros q fd' Hq Hqa Hqp. destruct (Hown q fd' Hq Hqa Hqp) as [H3 _]. congruence.
Qed.

(** Process 0 gets the lock, the others are refused it. *)
Definition pid_os (p : nat) : os := test_os (λ _ c,
  match c with
  | Copen _ _ _ => ok 3
  | Clock _ _ _ _ _ _ => if decide (p = O) then ok 0 else fail EAGAIN
  | Cgetpid => ok (Z.of_nat p + 100)
  | Cwrite _ b => ok (strlen b)
  | _ => ok 0
  end).
Definition pid_run (p : nat) : outcome Z * st unit := @createPidFile unit (pid_os p) (str "d") (str "d.pid") 0 (init tt).
Definition pid_history (p : nat) : list (call * reply) := acts (trace (pid_run p).2).
Definition pid_course : list moment :=
  (Does 0 <$> pid_history 0) ++ (Does 1 <$> pid_history 1) ++ [Ends 1].

Lemma pid_run_acted p : acted (init tt) (pid_history p) (pid_run p).2.
Proof. split; [done|]. by destruct (pid_run p).2 as [[] ? ?]. Qed.

Lemma pid_history_other p : p ≠ O → pid_history p = [(Copen (str "d.pid") O_RDWR_CREAT PID_MODE, ok 3); (whole_lock 3, fail EAGAIN)].
Proof. intros Hp. destruct p; [done|]. by vm_compute. Qed.

Lemma pid_course_is : pid_course =
  [Does 0 (Copen (str "d.pid") O_RDWR_CREAT PID_MODE, ok 3); Does 0 (whole_lock 3, ok 0); Does 0 (Cftruncate 3 0, ok 0);
   Does 0 (Cgetpid, ok 100); Does 0 (Cwrite 3 (str "100" ++ [NL]), ok 4);
   Does 1 (Copen (str "d.pid") O_RDWR_CREAT PID_MODE, ok 3); Does 1 (whole_lock 3, fail EAGAIN); Ends 1].
Proof. by vm_compute. Qed.

Lemma pid_course_course : course (λ p, pid_history p ++ []) pid_course.
Proof.
  split.
  - intros p. rewrite app_nil_r, pid_course_is. destruct p as [|[|p]].
    + exists []. by vm_compute.
    + exists []. by vm_compute.
    + apply prefix_nil.
  - intros p A B E. rewrite pid_course_is in E.
    do 8 (destruct A as [|? A]; cbn in E; [first [discriminate E|injection E as <- <-; done]|injection E as _ E]).
    by destruct A.
Qed.

Lemma pid_course_law : lock_law (str "d.pid") [] pid_course.
Proof.
  intros A p fd r B E Hfd Hr. rewrite pid_course_is in E.
  do 8 (destruct A as [|? A]; cbn in E; [first [discriminate E|injection E as <- <- <- <-; first [by left|by destruct Hr]]|injection E as <- E]).
  by destruct A.
Qed.

Lemma createPidFile_witness :
  (∀ p, pid_run p = ((pid_run p).1, (pid_run p).2) ∧ acted (init tt) (pid_history p) (pid_run p).2) ∧
  course (λ p, pid_history p ++ []) pid_course ∧ lock_law (str "d.pid") [] pid_course ∧
  (∀ p, (∃ fd, (pid_run p).1 = Ret fd) ∨ ∃ t, (pid_run p).1 = Stop t) ∧
  ∀ p fd, (pid_run p).1 = Ret fd → alive p pid_course → pid_history p `prefix_of` calls_of p pid_course →
    (∀ q fd', (pid_run q).1 = Ret fd' → alive q pid_course → pid_history q `prefix_of` calls_of q pid_course → q = p) ∧
    ∃ g, (Cgetpid, g) ∈ pid_history p ∧
      content (file_after (str "d.pid") [] pid_course) = snprintf BUF_SIZE (dec (rv g) ++ [NL]).
Proof.
  assert (∀ p, pid_run p = ((pid_run p).1, (pid_run p).2) ∧ acted (init tt) (pid_history p) (pid_run p).2) as Hrun
    by (intros p; split; [by destruct (pid_run p)|apply pid_run_acted]).
  split; [exact Hrun|]. split; [exact pid_course_course|]. split; [exact pid_course_law|].
  exact (createPidFile_exclusive pid_os (str "d") (str "d.pid") 0 (λ _, init tt) (λ p, (pid_run p).2) (λ p, (pid_run p).1)
    pid_history (λ _, []) [] pid_course Hrun (λ _, I) (λ _ _ _, eq_refl) pid_course_course pid_course_law).
Defined.

(** Process 0 is through and lives. *)
Example pid_file_content : (pid_run 0).1 = Ret 3 ∧ file_after (str "d.pid") [] pid_course = File (Some O) (str "100" ++ [NL]).
Proof. by vm_compute. Qed.
