(* ===== verification/Daemon.v ===== *)
(** Daemons: tlpi-book/lib/become_daemon.c, daemons/daemon_SIGHUP.c and
    test_become_daemon.c. *)
From S2P Require Import Prelude Sys ErrorFns GetNum.

(** ** become_daemon.c *)

Definition BD_NO_CHDIR : Z := 1.
Definition BD_NO_CLOSE_FILES : Z := 2.
Definition BD_NO_REOPEN_STD_FDS : Z := 4.
Definition BD_NO_UMASK0 : Z := 8.
Definition BD_MAX_CLOSE : Z := 8192.
Definition O_RDWR : Z := 2.

Section BecomeDaemon.
Context {S : Type} `{os}.

(** The parent leaves, the child goes on: [false] when there is none. *)
Definition into_child : M S bool :=
  f ← sys Cfork;
  if rv f =? -1 then mret false
  else if rv f =? 0 then mret true
  else stop_with (FastExit 0).

Definition descriptors (maxfd : Z) : list Z := Z.of_nat <$> seq 0 (Z.to_nat maxfd).

(** The limit is a long, kept in an int. *)
Definition close_all : M S unit :=
  m ← sys Csysconf_open_max;
  let maxfd := wrap_s 32 (rv m) in
  for_each (descriptors (if maxfd =? -1 then BD_MAX_CLOSE else maxfd)) (λ fd, sys (Cclose fd);; mret tt).

Definition reopen_std_fds : M S Z :=
  sys (Cclose 0);;
  fd ← sys (Copen (str "/dev/null") O_RDWR 0);
  if negb (rv fd =? 0) then mret (-1) else
  o ← sys (Cdup2 0 1);
  if negb (rv o =? 1) then mret (-1) else
  e ← sys (Cdup2 0 2);
  if negb (rv e =? 2) then mret (-1) else
  mret 0.

Definition becomeDaemon (flags : Z) : M S Z :=
  c ← into_child;
  if negb c then mret (-1) else
  s ← sys Csetsid;
  if rv s =? -1 then mret (-1) else
  c ← into_child;
  if negb c then mret (-1) else
  when (negb (tst flags BD_NO_UMASK0)) (sys (Cumask 0);; mret tt);;
  when (negb (tst flags BD_NO_CHDIR)) (sys (Cchdir (str "/"));; mret tt);;
  when (negb (tst flags BD_NO_CLOSE_FILES)) close_all;;
  if tst flags BD_NO_REOPEN_STD_FDS then mret 0 else reopen_std_fds.

(** test_become_daemon.c *)
Definition test_become_daemon_main (args : list cstr) : M S unit :=
  becomeDaemon 0;;
  n ← match args with a :: _ => getInt (Some a) GN_GT_0 (Some (str "sleep-time")) | [] => mret 20 end;
  sys (Csleep n);;
  stop_with (Exit 0).
End BecomeDaemon.

(** ** What a daemon is

    The attributes of a process that becomeDaemon is about, and what the calls
    do to them. *)

Record proc := Proc {
  session_leader : bool;
  has_terminal : bool;              (* a controlling terminal *)
  open_files : gmap Z cstr;
  file_mask : Z;
  cwd : cstr }.

Definition with_files (p : proc) (f : gmap Z cstr) : proc := Proc (session_leader p) (has_terminal p) f (file_mask p) (cwd p).

Definition proc_step (p : proc) (x : call * reply) : proc :=
  let 'Proc l t f m d := p in
  let r := rv x.2 in
  match x.1 with
  | Cfork => if r =? 0 then Proc false t f m d else p
  | Csetsid => if r =? -1 then p else Proc true false f m d
  | Cumask m => Proc l t f m d
  | Cchdir d' => if r =? -1 then p else Proc l t f m d'
  | Cclose fd => Proc l t (delete fd f) m d
  | Copen path _ _ => if r =? -1 then p else Proc l t (<[r := path]> f) m d
  | Cdup2 a b => if r =? -1 then p else Proc l t (partial_alter (λ _, f !! a) b f) m d
  | _ => p
  end.

Lemma proc_close p fd r : proc_step p (Cclose fd, r) = with_files p (delete fd (open_files p)).
Proof. by destruct p. Qed.

Lemma proc_open p path fl m r : rv r ≠ -1 → proc_step p (Copen path fl m, r) = with_files p (<[rv r := path]> (open_files p)).
Proof. intros Hr. destruct p. cbn. by rewrite (proj2 (Z.eqb_neq _ _) Hr). Qed.

Lemma proc_dup2 p a b r : rv r ≠ -1 → proc_step p (Cdup2 a b, r) = with_files p (partial_alter (λ _, open_files p !! a) b (open_files p)).
Proof. intros Hr. destruct p. cbn. by rewrite (proj2 (Z.eqb_neq _ _) Hr). Qed.

Definition proc_after (p : proc) (l : list (call * reply)) : proc := foldl proc_step p l.

(** ** becomeDaemon makes one *)

Definition dev_null : option cstr := Some (str "/dev/null").

(** What becomes of each descriptor, after [m] of them have been closed. *)
Definition daemon_file (flags : Z) (m : Z) (p : proc) (fd : Z) : option cstr :=
  if negb (tst flags BD_NO_REOPEN_STD_FDS) && bool_decide (0 <= fd <= 2) then dev_null
  else if negb (tst flags BD_NO_CLOSE_FILES) && bool_decide (0 <= fd < m) then None
  else open_files p !! fd.

Section Specs.
Context {S : Type} `{os} (p0 : proc).
Implicit Types s : st S.

Definition is_proc (s0 : st S) (P : proc → Prop) (s : st S) : Prop := ∃ l, acted s0 l s ∧ P (proc_after p0 l).

Lemma wp_proc c s0 s P (Q : reply → st S → Prop) E :
  is_proc s0 P s → (∀ f, c ≠ Cfflush f) →
  (∀ r s', (∀ l, acted s0 l s → acted s0 (l ++ [(c, r)]) s') → is_proc s0 (λ p', ∃ p, P p ∧ p' = proc_step p (c, r)) s' → Q r s') →
  wp (sys c) Q E s.
Proof using.
  intros (l & Ha & Hp) Hc HQ. apply wp_call. intros r s' _ Hg _ _ Ht. apply HQ; [intros l' Hl'; by eapply acted_call|].
  exists (l ++ [(c, r)]). split; [by eapply acted_call|]. exists (proc_after p0 l). split; [done|]. unfold proc_after. by rewrite foldl_app.
Qed.

Lemma is_proc_mono s0 s (P P' : proc → Prop) : is_proc s0 P s → (∀ p, P p → P' p) → is_proc s0 P' s.
Proof using. intros (l & Ha & Hp) HP. exists l. auto. Qed.

(** A parent that leaves has just forked. *)
Definition left_parent (s0 : st S) (t : stop) (s : st S) : Prop :=
  t = FastExit 0 ∧ ∃ l f, acted s0 (l ++ [(Cfork, f)]) s ∧ rv f ≠ 0 ∧ rv f ≠ -1.

Lemma wp_into_child s0 s P (Q : bool → st S → Prop) :
  is_proc s0 P s → (∀ l s', acted s0 l s' → Q false s') →
  (∀ s', is_proc s0 (λ p', ∃ p, P p ∧ p' = Proc false (has_terminal p) (open_files p) (file_mask p) (cwd p)) s' → Q true s') →
  wp into_child Q (left_parent s0) s.
Proof using.
  intros Hs Hf Ht. unfold into_child. apply wp_bind. eapply wp_proc; [exact Hs|done|]. intros r s1 Ha H1.
  destruct (Z.eqb_spec (rv r) (-1)) as [Hr|Hr].
  { destruct H1 as (l & Hl & _). apply wp_ret. by eapply Hf. } destruct (Z.eqb_spec (rv r) 0) as [H0|H0].
  - apply wp_ret, Ht. eapply is_proc_mono; [exact H1|]. intros p' (p & Hp & ->). exists p. split; [done|].
    destruct p. cbn. by rewrite H0.
  - apply wp_stop. split; [done|]. destruct Hs as (l & Hl & _). exists l, r. auto.
Qed.

Lemma elem_of_descriptors m fd : fd ∈ descriptors m ↔ 0 <= fd < m.
Proof using.
  unfold descriptors. rewrite list_elem_of_fmap. split.
  - intros (n & -> & Hn). apply elem_of_seq in Hn. lia.
  - intros Hfd. exists (Z.to_nat fd). split; [lia|]. apply elem_of_seq. lia.
Qed.

(** How many descriptors are closed. *)
Definition limit (r : reply) : Z := if wrap_s 32 (rv r) =? -1 then BD_MAX_CLOSE else wrap_s 32 (rv r).

Definition some_closed (P : proc → Prop) (done : list Z) (p' : proc) : Prop :=
  ∃ p, P p ∧ p' = with_files p (filter (λ kv, kv.1 ∉ done) (open_files p)).

Lemma wp_close_all s0 s P (Q : unit → st S → Prop) E :
  is_proc s0 P s →
  (∀ m l s', acted s0 l s' → (Csysconf_open_max, m) ∈ l → is_proc s0 (some_closed P (descriptors (limit m))) s' → Q tt s') →
  wp close_all Q E s.
Proof using.
  intros Hs HQ. unfold close_all. apply wp_bind. eapply wp_proc; [exact Hs|done|]. intros m s1 Ha H1. cbn beta zeta. fold (limit m).
  assert (∃ l, acted s0 l s1 ∧ (Csysconf_open_max, m) ∈ l) as Hm.
  { destruct Hs as (l & Hl & _). exists (l ++ [(Csysconf_open_max, m)]). split; [auto|]. rewrite elem_of_app, list_elem_of_singleton. auto. }
  eapply wp_mono; [apply (wp_for_each (λ done s', (∃ l, acted s0 l s' ∧ (Csysconf_open_max, m) ∈ l) ∧ is_proc s0 (some_closed P done) s'))| |done].
  - split; [done|]. eapply is_proc_mono; [exact H1|]. intros p' (p & Hp & ->). exists p. split; [done|]. destruct p as [a b f c d]. cbn.
    unfold with_files. cbn. f_equal. symmetry. apply map_filter_id. intros i x _. cbn. apply not_elem_of_nil.
  - intros prev fd todo s2 _ [(l & Hl & Hin) H2]. apply wp_bind. eapply wp_proc; [exact H2|done|]. intros r s3 Ha3 H3. apply wp_ret. split.
    + exists (l ++ [(Cclose fd, r)]). split; [auto|]. rewrite elem_of_app. auto.
    + eapply is_proc_mono; [exact H3|]. intros p' (p & (p1 & Hp1 & ->) & ->). exists p1. split; [done|]. destruct p1 as [a b f c d].
      unfold with_files. cbn. f_equal. apply map_eq. intros i. destruct (decide (i = fd)) as [-> |Hi].
      * rewrite lookup_delete_eq. symmetry. apply map_lookup_filter_None. right. intros x _ Hx. apply Hx. cbn. rewrite elem_of_app, list_elem_of_singleton. auto.
      * rewrite lookup_delete_ne by done. apply option_eq. intros x. rewrite !map_lookup_filter_Some. cbn. rewrite not_elem_of_app, list_elem_of_singleton. tauto.
  - intros [] s2 [(l & Hl & Hin) H2]. by eapply HQ.
Qed.
End Specs.

(** A daemon: no leader of its session, without a terminal, with the mask, the
    directory and the files that were asked for. *)
Definition daemonized (flags : Z) (p0 : proc) (m : Z) (p : proc) : Prop :=
  session_leader p = false ∧ has_terminal p = false ∧
  file_mask p = (if tst flags BD_NO_UMASK0 then file_mask p0 else 0) ∧
  (cwd p = cwd p0 ∨ tst flags BD_NO_CHDIR = false ∧ cwd p = str "/") ∧
  ∀ fd, open_files p !! fd = daemon_file flags m p0 fd.

(** Before the standard descriptors are opened again. *)
Definition half_daemon (flags : Z) (p0 : proc) (m : Z) (p : proc) : Prop :=
  session_leader p = false ∧ has_terminal p = false ∧
  file_mask p = (if tst flags BD_NO_UMASK0 then file_mask p0 else 0) ∧
  (cwd p = cwd p0 ∨ tst flags BD_NO_CHDIR = false ∧ cwd p = str "/") ∧
  ∀ fd, open_files p !! fd = if negb (tst flags BD_NO_CLOSE_FILES) && bool_decide (0 <= fd < m) then None else open_files p0 !! fd.

(** The limit in the history, when descriptors were closed. *)
Definition asked_limit (flags m : Z) (l : list (call * reply)) : Prop :=
  tst flags BD_NO_CLOSE_FILES = false → ∃ r, (Csysconf_open_max, r) ∈ l ∧ m = limit r.

Section Becoming.
Context {S : Type} `{os} (p0 : proc).
Implicit Types s : st S.

Definition half_done (flags m : Z) (s0 s : st S) : Prop :=
  is_proc p0 s0 (half_daemon flags p0 m) s ∧ ∃ l, acted s0 l s ∧ asked_limit flags m l.

Lemma asked_more flags m l x : asked_limit flags m l → asked_limit flags m (l ++ x).
Proof using. intros Hl Hf. destruct (Hl Hf) as (r & Hr & Hm). exists r. rewrite elem_of_app. auto. Qed.

Lemma wp_when_call (b : bool) c s0 s P (Q : unit → st S → Prop) E :
  is_proc p0 s0 P s → (∀ f, c ≠ Cfflush f) →
  (∀ s', is_proc p0 s0 (λ p', ∃ p, P p ∧ if b then ∃ r, p' = proc_step p (c, r) else p' = p) s' → Q tt s') →
  wp (when b (sys c;; mret tt)) Q E s.
Proof using.
  intros Hs Hc HQ. destruct b; cbn [when].
  - apply wp_bind. eapply wp_proc; [exact Hs|done|]. intros r s1 _ H1. apply wp_ret, HQ.
    eapply is_proc_mono; [exact H1|]. intros p' (p & Hp & ->). eauto.
  - apply wp_ret, HQ. eapply is_proc_mono; [exact Hs|]. eauto.
Qed.

(** What has become of the process when it closes its files: all but those. *)
Definition settled (flags : Z) (p : proc) : Prop :=
  session_leader p = false ∧ has_terminal p = false ∧
  file_mask p = (if tst flags BD_NO_UMASK0 then file_mask p0 else 0) ∧
  (cwd p = cwd p0 ∨ tst flags BD_NO_CHDIR = false ∧ cwd p = str "/") ∧ open_files p = open_files p0.

Lemma wp_close_some flags s0 s (Q : unit → st S → Prop) E :
  is_proc p0 s0 (settled flags) s → (∀ m s', half_done flags m s0 s' → Q tt s') →
  wp (when (negb (tst flags BD_NO_CLOSE_FILES)) close_all) Q E s.
Proof using.
  intros Hs HQ. destruct (tst flags BD_NO_CLOSE_FILES) eqn:Hf; cbn [negb when].
  - apply wp_ret, (HQ 0). split.
    + eapply is_proc_mono; [exact Hs|]. intros p (G1 & G2 & G3 & G4 & G5). unfold half_daemon. rewrite Hf, G5. done.
    + destruct Hs as (l & Hl & _). exists l. split; [done|]. unfold asked_limit. congruence.
  - eapply wp_close_all; [exact Hs|]. intros m l s1 Hl Hin H1. apply (HQ (limit m)). split.
    + eapply is_proc_mono; [exact H1|]. intros p' (p & (G1 & G2 & G3 & G4 & G5) & ->). unfold half_daemon. rewrite Hf. cbn.
      repeat (split; [done|]). intros fd. rewrite G5. case_bool_decide as Hfd.
      * apply map_lookup_filter_None. right. intros x _ Hx. apply Hx. by apply elem_of_descriptors.
      * apply option_eq. intros x. rewrite map_lookup_filter_Some. cbn. rewrite elem_of_descriptors. tauto.
    + exists l. split; [done|]. intros _. eauto.
Qed.

Lemma wp_reopen flags m s0 s :
  half_done flags m s0 s → tst flags BD_NO_REOPEN_STD_FDS = false →
  wp reopen_std_fds (λ r s', ∃ l, acted s0 l s' ∧ (r = 0 → daemonized flags p0 m (proc_after p0 l) ∧ asked_limit flags m l) ∧ (r = 0 ∨ r = -1))
    (left_parent s0) s.
Proof using.
  intros [H0 (l0 & Hl0 & Hask)] Hflag. unfold reopen_std_fds.
  apply wp_bind. eapply wp_proc; [exact H0|done|]. intros r1 s1 Ha1 H1.
  apply wp_bind. eapply wp_proc; [exact H1|done|]. intros r2 s2 Ha2 H2.
  assert (∀ s', (∃ l, acted s0 l s') → ∃ l, acted s0 l s' ∧ (-1 = 0 → daemonized flags p0 m (proc_after p0 l) ∧ asked_limit flags m l) ∧ (-1 = 0 ∨ -1 = -1)) as Hfail
    by (intros s' [l Hl]; exists l; auto with lia).
  destruct (Z.eqb_spec (rv r2) 0) as [E2|E2]; cbn [negb]; [|apply wp_ret, Hfail; destruct H2 as (l & Hl & _); by exists l].
  apply wp_bind. eapply wp_proc; [exact H2|done|]. intros r3 s3 Ha3 H3.
  destruct (Z.eqb_spec (rv r3) 1) as [E3|E3]; cbn [negb]; [|apply wp_ret, Hfail; destruct H3 as (l & Hl & _); by exists l].
  apply wp_bind. eapply wp_proc; [exact H3|done|]. intros r4 s4 Ha4 H4.
  destruct (Z.eqb_spec (rv r4) 2) as [E4|E4]; cbn [negb]; [|apply wp_ret, Hfail; destruct H4 as (l & Hl & _); by exists l].
  apply wp_ret. destruct H4 as (l & Hl & p4 & (p3 & (p2 & (p & Hp & ->) & ->) & ->) & Hafter). exists l. split; [done|]. split; [|by left].
  intros _. rewrite Hafter. split.
  2: { rewrite (acted_unique _ _ _ _ Hl (Ha4 _ (Ha3 _ (Ha2 _ (Ha1 _ Hl0))))). by repeat apply asked_more. }
  destruct Hp as (G1 & G2 & G3 & G4 & G5).
  rewrite proc_close, proc_open, !proc_dup2, E2 by lia. split; [done|]. split; [done|]. split; [done|]. split; [done|].
  cbn [open_files with_files].
  intros fd. unfold daemon_file. rewrite Hflag. cbn [negb andb]. rewrite <-G5.
  destruct (decide (0 <= fd <= 2)) as [Hfd|Hfd].
  - rewrite bool_decide_eq_true_2 by done. assert (fd = 0 ∨ fd = 1 ∨ fd = 2) as [-> |[-> | ->]] by lia;
      unfold dev_null; repeat first [rewrite lookup_partial_alter_eq|rewrite lookup_partial_alter_ne by done|rewrite lookup_insert_eq]; done.
  - rewrite bool_decide_eq_false_2 by done. rewrite !lookup_partial_alter_ne, lookup_insert_ne, lookup_delete_ne by lia. done.
Qed.
End Becoming.

(** The mask and the directory, as the flags say. *)
Lemma settle flags p0 p1 p :
  (if negb (tst flags BD_NO_UMASK0) then ∃ r, p1 = proc_step (Proc false false (open_files p0) (file_mask p0) (cwd p0)) (Cumask 0, r)
   else p1 = Proc false false (open_files p0) (file_mask p0) (cwd p0)) →
  (if negb (tst flags BD_NO_CHDIR) then ∃ r, p = proc_step p1 (Cchdir (str "/"), r) else p = p1) → settled p0 flags p.
Proof.
  intros Hmask Hdir. unfold settled. destruct (tst flags BD_NO_UMASK0), (tst flags BD_NO_CHDIR); cbn [negb] in *;
    destruct_and?; repeat match goal with H : ∃ _, _ |- _ => destruct H as [? ->] end; simplify_eq; cbn; try case_match; cbn; auto 10.
Qed.

Lemma half_whole flags p0 m p : tst flags BD_NO_REOPEN_STD_FDS = true → half_daemon flags p0 m p → daemonized flags p0 m p.
Proof. intros Hf (G1 & G2 & G3 & G4 & G5). unfold daemonized, daemon_file. rewrite Hf. done. Qed.

(** A process came out of it. *)
Definition ended {S} (flags : Z) (p0 : proc) (s : st S) (r : Z) (s' : st S) : Prop :=
  ∃ l, acted s l s' ∧ (r = 0 ∨ r = -1) ∧ (r = 0 → ∃ m, daemonized flags p0 m (proc_after p0 l) ∧ asked_limit flags m l).

Lemma wp_becomeDaemon {S} `{os} flags p0 (s : st S) : wp (becomeDaemon flags) (ended flags p0 s) (left_parent s) s.
Proof.
  assert (∀ l s', acted s l s' → ended flags p0 s (-1) s') as Hfail by (intros l s' Hl; exists l; auto with lia).
  assert (is_proc p0 s (λ p, p = p0) s) as H0 by (exists []; split; [apply acted_refl|done]).
  unfold becomeDaemon.
  apply wp_bind. eapply wp_into_child; [exact H0|intros l s1; apply Hfail|intros s1 H1]. cbn [negb].
  apply wp_bind. eapply wp_proc; [exact H1|done|]. intros r s2 _ H2.
  destruct (Z.eqb_spec (rv r) (-1)) as [Hr|Hr]; [destruct H2 as (l & Hl & _); by eapply wp_ret, Hfail|].
  apply wp_bind. eapply wp_into_child; [exact H2|intros l s3; apply Hfail|intros s3 H3]. cbn [negb].
  apply wp_bind. eapply wp_when_call; [exact H3|done|intros s4 H4].
  apply wp_bind. eapply wp_when_call; [exact H4|done|intros s5 H5].
  apply wp_bind. apply (wp_close_some p0 flags s).
  { eapply is_proc_mono; [exact H5|]. intros p (p5 & (p4 & (p3 & (p2 & (p1 & -> & ->) & ->) & ->) & Hmask) & Hdir). cbn in Hmask, Hdir.
    rewrite (proj2 (Z.eqb_neq _ _) Hr) in Hmask. by eapply settle. }
  intros m s6 H6. destruct (tst flags BD_NO_REOPEN_STD_FDS) eqn:Hflag.
  - apply wp_ret. destruct H6 as [(l & Hl & Hd) (l' & Hl' & Hask)]. rewrite (acted_unique _ _ _ _ Hl' Hl) in Hask.
    exists l. split; [done|]. split; [by left|]. intros _. exists m. split; [|done]. by apply half_whole.
  - eapply wp_mono; [by eapply wp_reopen| |done]. intros r' s7 (l & Hl & Hd & Hr'). exists l. split; [done|]. split; [done|].
    intros Hz. exists m. auto.
Qed.

