(* ===== verification/Bpf.v ===== *)
(** The BPF programs of tlpi-book/seccomp and what they decide.

    The sources write their filters in the language of classic BPF
    (<linux/filter.h>: [BPF_STMT], [BPF_JUMP]); the first part gives the
    meaning of that language's instructions that they use, as seccomp(2) runs
    them over a [struct seccomp_data]; then come the programs, instruction by
    instruction, and the policy each of them implements. *)
From S2P Require Import Prelude Sys.

(** ** Classic BPF *)

(** struct sock_filter *)
Record sock_filter := SockFilter { bpf_code : Z; jt : Z; jf : Z; k : Z }.

#[export] Instance sock_filter_eq_dec : EqDecision sock_filter.
Proof. solve_decision. Defined.

Definition BPF_LD : Z := 0x00.
Definition BPF_JMP : Z := 0x05.
Definition BPF_RET : Z := 0x06.
Definition BPF_W : Z := 0x00.
Definition BPF_ABS : Z := 0x20.
Definition BPF_JA : Z := 0x00.
Definition BPF_JEQ : Z := 0x10.
Definition BPF_JGT : Z := 0x20.
Definition BPF_JGE : Z := 0x30.
Definition BPF_JSET : Z := 0x40.
Definition BPF_K : Z := 0x00.

Declare Scope bpf_scope.
Notation "a .| b" := (Z.lor a b) (at level 50, left associativity) : bpf_scope.
#[local] Open Scope bpf_scope.

Definition BPF_STMT (c k : Z) : sock_filter := SockFilter c 0 0 k.
Definition BPF_JUMP (c k jt jf : Z) : sock_filter := SockFilter c jt jf k.

(** struct seccomp_data: what a filter sees of a system call. *)
Record seccomp_data := Data { nr : Z; arch : Z; instruction_pointer : Z; args : list Z }.

Definition arg (d : seccomp_data) (i : nat) : Z := nth i (args d) 0.
Definition low (z : Z) : Z := z mod 2 ^ 32.
Definition high (z : Z) : Z := (z / 2 ^ 32) mod 2 ^ 32.

(** Its 32-bit words in memory order, on a little-endian machine. *)
Definition words (d : seccomp_data) : list Z :=
  [low (nr d); low (arch d); low (instruction_pointer d); high (instruction_pointer d);
   low (arg d 0); high (arg d 0); low (arg d 1); high (arg d 1);
   low (arg d 2); high (arg d 2); low (arg d 3); high (arg d 3);
   low (arg d 4); high (arg d 4); low (arg d 5); high (arg d 5)].

Definition off_nr : Z := 0.
Definition off_arch : Z := 4.
Definition off_args (i : Z) : Z := 16 + 8 * i.

(** A 32-bit load: an aligned offset inside the structure. *)
Definition load (d : seccomp_data) (off : Z) : option Z :=
  if (0 <=? off) && (off mod 4 =? 0) then words d !! Z.to_nat (off / 4) else None.

Inductive next := Goto (acc : Z) (pc : nat) | Return (v : Z) | Bad.

(** The test of a conditional jump. *)
Inductive test := Teq | Tgt | Tge | Tset.
Definition holds (t : test) (acc k : Z) : bool :=
  match t with
  | Teq => acc =? k
  | Tgt => k <? acc
  | Tge => k <=? acc
  | Tset => tst acc k
  end.

Definition jump (pc : nat) (acc : Z) (t : test) (i : sock_filter) : next :=
  if holds t acc (k i) then Goto acc (pc + 1 + Z.to_nat (jt i))
  else Goto acc (pc + 1 + Z.to_nat (jf i)).

Definition step (p : list sock_filter) (d : seccomp_data) (acc : Z) (pc : nat) : next :=
  match p !! pc with
  | None => Bad
  | Some i =>
      let op o := bpf_code i =? o in
      if op (BPF_LD .| BPF_W .| BPF_ABS) then
        match load d (k i) with Some w => Goto w (pc + 1) | None => Bad end
      else if op (BPF_JMP .| BPF_JA) then Goto acc (pc + 1 + Z.to_nat (k i))
      else if op (BPF_JMP .| BPF_JEQ .| BPF_K) then jump pc acc Teq i
      else if op (BPF_JMP .| BPF_JGT .| BPF_K) then jump pc acc Tgt i
      else if op (BPF_JMP .| BPF_JGE .| BPF_K) then jump pc acc Tge i
      else if op (BPF_JMP .| BPF_JSET .| BPF_K) then jump pc acc Tset i
      else if op (BPF_RET .| BPF_K) then Return (k i)
      else Bad
  end.

(** All jumps go forward: as many steps as instructions are enough. *)
Fixpoint run (fuel : nat) (p : list sock_filter) (d : seccomp_data) (acc : Z) (pc : nat) : option Z :=
  match fuel with
  | O => None
  | S fuel =>
      match step p d acc pc with
      | Goto acc pc => run fuel p d acc pc
      | Return v => Some v
      | Bad => None
      end
  end.

Definition bpf_run (p : list sock_filter) (d : seccomp_data) : option Z := run (length p) p d 0 0.

(** What the kernel checks of a program before it installs it: known
    instructions, loads inside the structure, jumps forward inside the
    program, a last instruction that returns. *)
Definition checked_insn (len : nat) (pc : nat) (i : sock_filter) : bool :=
  let op o := bpf_code i =? o in
  let inside j := (0 <=? j) && (Z.of_nat pc + 1 + j <? Z.of_nat len) in
  if op (BPF_LD .| BPF_W .| BPF_ABS) then (0 <=? k i) && (k i <? 64) && (k i mod 4 =? 0)
  else if op (BPF_JMP .| BPF_JA) then inside (k i)
  else if op (BPF_RET .| BPF_K) then true
  else existsb op [BPF_JMP .| BPF_JEQ .| BPF_K; BPF_JMP .| BPF_JGT .| BPF_K;
                   BPF_JMP .| BPF_JGE .| BPF_K; BPF_JMP .| BPF_JSET .| BPF_K] &&
       inside (jt i) && inside (jf i).

Definition bpf_check (p : list sock_filter) : bool :=
  forallb (λ pi, checked_insn (length p) pi.1 pi.2) (zip (seq 0 (length p)) p) &&
  match last p with Some i => bpf_code i =? BPF_RET .| BPF_K | None => false end.

(** The value a filter returns: an action in the upper half, data in the
    lower (<linux/seccomp.h>). *)
Definition SECCOMP_RET_KILL_PROCESS : Z := 0x80000000.
Definition SECCOMP_RET_KILL : Z := 0x00000000.
Definition SECCOMP_RET_TRAP : Z := 0x00030000.
Definition SECCOMP_RET_ERRNO : Z := 0x00050000.
Definition SECCOMP_RET_USER_NOTIF : Z := 0x7fc00000.
Definition SECCOMP_RET_TRACE : Z := 0x7ff00000.
Definition SECCOMP_RET_LOG : Z := 0x7ffc0000.
Definition SECCOMP_RET_ALLOW : Z := 0x7fff0000.

Inductive verdict := KillProcess | KillThread | Trap | Errno (e : Z) | Notify | Trace | Log | Allow.

Definition action (v : Z) : Z := Z.land v 0xffff0000.
Definition ret_data (v : Z) : Z := Z.land v 0xffff.

Definition verdict_of (v : Z) : verdict :=
  let a := action v in
  if a =? SECCOMP_RET_ALLOW then Allow
  else if a =? SECCOMP_RET_LOG then Log
  else if a =? SECCOMP_RET_TRACE then Trace
  else if a =? SECCOMP_RET_USER_NOTIF then Notify
  else if a =? SECCOMP_RET_ERRNO then Errno (ret_data v)
  else if a =? SECCOMP_RET_TRAP then Trap
  else if a =? SECCOMP_RET_KILL then KillThread
  else KillProcess.

Definition decides (p : list sock_filter) (d : seccomp_data) : option verdict :=
  verdict_of <$> bpf_run p d.

(** With several filters installed all run, the newest first; the action
    smallest as a signed number wins. *)
Fixpoint run_all (ret : Z) (fs : list (list sock_filter)) (d : seccomp_data) : Z :=
  match fs with
  | [] => ret
  | f :: fs =>
      let cur := default SECCOMP_RET_KILL_PROCESS (bpf_run f d) in
      run_all (if wrap_s 32 (action cur) <? wrap_s 32 (action ret) then cur else ret) fs d
  end.

Definition seccomp_run (fs : list (list sock_filter)) (d : seccomp_data) : verdict :=
  verdict_of (run_all SECCOMP_RET_ALLOW fs d).

(** ** The filters *)

(** <linux/audit.h>, <asm/unistd_64.h>, <fcntl.h> on x86-64. *)
Definition AUDIT_ARCH_X86_64 : Z := 0xC000003E.
Definition AUDIT_ARCH_I386 : Z := 0x40000003.
Definition NR_open : Z := 2.
Definition NR_lseek : Z := 8.
Definition NR_mkdir : Z := 83.
Definition NR_geteuid : Z := 107.
Definition NR_getppid : Z := 110.
Definition NR_openat : Z := 257.
Definition O_RDONLY : Z := 0.
Definition O_WRONLY : Z := 1.
Definition O_RDWR : Z := 2.
Definition O_CREAT : Z := 64.

Definition X32_SYSCALL_BIT : Z := 0x40000000.

(** seccomp_control_open.c *)
Definition control_open_filter : list sock_filter := [
  BPF_STMT (BPF_LD .| BPF_W .| BPF_ABS) off_arch;
  BPF_JUMP (BPF_JMP .| BPF_JEQ .| BPF_K) AUDIT_ARCH_X86_64 0 2;
  BPF_STMT (BPF_LD .| BPF_W .| BPF_ABS) off_nr;
  BPF_JUMP (BPF_JMP .| BPF_JGE .| BPF_K) X32_SYSCALL_BIT 0 1;
  BPF_STMT (BPF_RET .| BPF_K) SECCOMP_RET_KILL_PROCESS;
  BPF_JUMP (BPF_JMP .| BPF_JEQ .| BPF_K) NR_open 2 0;
  BPF_JUMP (BPF_JMP .| BPF_JEQ .| BPF_K) NR_openat 3 0;
  BPF_STMT (BPF_RET .| BPF_K) SECCOMP_RET_ALLOW;
  BPF_STMT (BPF_LD .| BPF_W .| BPF_ABS) (off_args 1);
  BPF_JUMP (BPF_JMP .| BPF_JA) 1 0 0;
  BPF_STMT (BPF_LD .| BPF_W .| BPF_ABS) (off_args 2);
  BPF_JUMP (BPF_JMP .| BPF_JSET .| BPF_K) O_CREAT 0 1;
  BPF_STMT (BPF_RET .| BPF_K) SECCOMP_RET_KILL_PROCESS;
  BPF_JUMP (BPF_JMP .| BPF_JSET .| BPF_K) (O_WRONLY .| O_RDWR) 0 1;
  BPF_STMT (BPF_RET .| BPF_K) (SECCOMP_RET_ERRNO .| ENOTSUP);
  BPF_STMT (BPF_RET .| BPF_K) SECCOMP_RET_ALLOW ].

(** seccomp_deny_open.c *)
Definition deny_open_filter : list sock_filter := [
  BPF_STMT (BPF_LD .| BPF_W .| BPF_ABS) off_arch;
  BPF_JUMP (BPF_JMP .| BPF_JEQ .| BPF_K) AUDIT_ARCH_X86_64 1 0;
  BPF_STMT (BPF_RET .| BPF_K) SECCOMP_RET_KILL_PROCESS;
  BPF_STMT (BPF_LD .| BPF_W .| BPF_ABS) off_nr;
  BPF_JUMP (BPF_JMP .| BPF_JGE .| BPF_K) X32_SYSCALL_BIT 0 1;
  BPF_STMT (BPF_RET .| BPF_K) SECCOMP_RET_KILL_PROCESS;
  BPF_JUMP (BPF_JMP .| BPF_JEQ .| BPF_K) NR_open 2 0;
  BPF_JUMP (BPF_JMP .| BPF_JEQ .| BPF_K) NR_openat 1 0;
  BPF_STMT (BPF_RET .| BPF_K) SECCOMP_RET_ALLOW;
  BPF_STMT (BPF_RET .| BPF_K) SECCOMP_RET_KILL_PROCESS ].

(** The prologue the other filters share (a macro in
    seccomp_user_notification.c, written out in the others). *)
Definition X86_64_CHECK_ARCH_AND_LOAD_SYSCALL_NR : list sock_filter := [
  BPF_STMT (BPF_LD .| BPF_W .| BPF_ABS) off_arch;
  BPF_JUMP (BPF_JMP .| BPF_JEQ .| BPF_K) AUDIT_ARCH_X86_64 0 2;
  BPF_STMT (BPF_LD .| BPF_W .| BPF_ABS) off_nr;
  BPF_JUMP (BPF_JMP .| BPF_JGE .| BPF_K) X32_SYSCALL_BIT 0 1;
  BPF_STMT (BPF_RET .| BPF_K) SECCOMP_RET_KILL_PROCESS ].

(** seccomp_arg64.c *)
Definition arg64_filter : list sock_filter := [
  BPF_STMT (BPF_LD .| BPF_W .| BPF_ABS) off_arch;
  BPF_JUMP (BPF_JMP .| BPF_JEQ .| BPF_K) AUDIT_ARCH_X86_64 0 2;
  BPF_STMT (BPF_LD .| BPF_W .| BPF_ABS) off_nr;
  BPF_JUMP (BPF_JMP .| BPF_JGE .| BPF_K) X32_SYSCALL_BIT 0 1;
  BPF_STMT (BPF_RET .| BPF_K) SECCOMP_RET_KILL_PROCESS;
  BPF_JUMP (BPF_JMP .| BPF_JEQ .| BPF_K) NR_lseek 1 0;
  BPF_STMT (BPF_RET .| BPF_K) SECCOMP_RET_ALLOW;
  BPF_STMT (BPF_LD .| BPF_W .| BPF_ABS) (off_args 1 + 4);
  BPF_JUMP (BPF_JMP .| BPF_JEQ .| BPF_K) 0 1 0;
  BPF_STMT (BPF_RET .| BPF_K) (SECCOMP_RET_ERRNO .| 2);
  BPF_STMT (BPF_LD .| BPF_W .| BPF_ABS) (off_args 1);
  BPF_JUMP (BPF_JMP .| BPF_JGT .| BPF_K) 1000 0 1;
  BPF_STMT (BPF_RET .| BPF_K) (SECCOMP_RET_ERRNO .| 1);
  BPF_STMT (BPF_RET .| BPF_K) SECCOMP_RET_ALLOW ].

(** seccomp_perf.c *)
Definition perf_filter : list sock_filter := [
  BPF_STMT (BPF_LD .| BPF_W .| BPF_ABS) off_arch;
  BPF_JUMP (BPF_JMP .| BPF_JEQ .| BPF_K) AUDIT_ARCH_X86_64 0 2;
  BPF_STMT (BPF_LD .| BPF_W .| BPF_ABS) off_nr;
  BPF_JUMP (BPF_JMP .| BPF_JGE .| BPF_K) X32_SYSCALL_BIT 0 1;
  BPF_STMT (BPF_RET .| BPF_K) SECCOMP_RET_KILL_PROCESS;
  BPF_JUMP (BPF_JMP .| BPF_JEQ .| BPF_K) NR_open 1 0;
  BPF_STMT (BPF_RET .| BPF_K) SECCOMP_RET_ALLOW;
  BPF_STMT (BPF_RET .| BPF_K) SECCOMP_RET_KILL_PROCESS ].

(** seccomp_logging.c *)
Definition logging_filter : list sock_filter := [
  BPF_STMT (BPF_LD .| BPF_W .| BPF_ABS) off_arch;
  BPF_JUMP (BPF_JMP .| BPF_JEQ .| BPF_K) AUDIT_ARCH_X86_64 0 2;
  BPF_STMT (BPF_LD .| BPF_W .| BPF_ABS) off_nr;
  BPF_JUMP (BPF_JMP .| BPF_JGE .| BPF_K) X32_SYSCALL_BIT 0 1;
  BPF_STMT (BPF_RET .| BPF_K) SECCOMP_RET_KILL_PROCESS;
  BPF_STMT (BPF_RET .| BPF_K) SECCOMP_RET_LOG ].

(** seccomp_trap_sigsys.c *)
Definition trap_filter : list sock_filter := [
  BPF_STMT (BPF_LD .| BPF_W .| BPF_ABS) off_arch;
  BPF_JUMP (BPF_JMP .| BPF_JEQ .| BPF_K) AUDIT_ARCH_X86_64 1 0;
  BPF_STMT (BPF_RET .| BPF_K) SECCOMP_RET_KILL;
  BPF_STMT (BPF_LD .| BPF_W .| BPF_ABS) off_nr;
  BPF_JUMP (BPF_JMP .| BPF_JGE .| BPF_K) X32_SYSCALL_BIT 0 1;
  BPF_STMT (BPF_RET .| BPF_K) SECCOMP_RET_KILL_PROCESS;
  BPF_JUMP (BPF_JMP .| BPF_JEQ .| BPF_K) NR_getppid 0 1;
  BPF_STMT (BPF_RET .| BPF_K) SECCOMP_RET_TRAP;
  BPF_STMT (BPF_RET .| BPF_K) SECCOMP_RET_ALLOW ].

(** seccomp_multiarch.c *)
Definition NR_mq_notify_x86_64 : Z := 244.
Definition NR_mq_notify_i386 : Z := 281.
Definition NR_mq_notify_x32 : Z := 527.

Definition multiarch_filter : list sock_filter := [
  BPF_STMT (BPF_LD .| BPF_W .| BPF_ABS) off_arch;
  BPF_JUMP (BPF_JMP .| BPF_JEQ .| BPF_K) AUDIT_ARCH_X86_64 0 5;
  BPF_STMT (BPF_LD .| BPF_W .| BPF_ABS) off_nr;
  BPF_JUMP (BPF_JMP .| BPF_JEQ .| BPF_K) NR_mq_notify_x86_64 0 1;
  BPF_STMT (BPF_RET .| BPF_K) (SECCOMP_RET_ERRNO .| NR_mq_notify_x86_64);
  BPF_JUMP (BPF_JMP .| BPF_JEQ .| BPF_K) (NR_mq_notify_x32 + X32_SYSCALL_BIT) 0 5;
  BPF_STMT (BPF_RET .| BPF_K) (SECCOMP_RET_ERRNO .| NR_mq_notify_x32);
  BPF_JUMP (BPF_JMP .| BPF_JEQ .| BPF_K) AUDIT_ARCH_I386 0 4;
  BPF_STMT (BPF_LD .| BPF_W .| BPF_ABS) off_nr;
  BPF_JUMP (BPF_JMP .| BPF_JEQ .| BPF_K) NR_mq_notify_i386 0 1;
  BPF_STMT (BPF_RET .| BPF_K) (SECCOMP_RET_ERRNO .| NR_mq_notify_i386);
  BPF_STMT (BPF_RET .| BPF_K) SECCOMP_RET_ALLOW;
  BPF_STMT (BPF_RET .| BPF_K) SECCOMP_RET_KILL_PROCESS ].

(** seccomp_user_notification.c *)
Definition notify_filter : list sock_filter :=
  X86_64_CHECK_ARCH_AND_LOAD_SYSCALL_NR ++ [
    BPF_JUMP (BPF_JMP .| BPF_JEQ .| BPF_K) NR_mkdir 0 1;
    BPF_STMT (BPF_RET + BPF_K) SECCOMP_RET_USER_NOTIF;
    BPF_STMT (BPF_RET .| BPF_K) SECCOMP_RET_ALLOW ].

Definition filter2 (secondFilter : Z) : list sock_filter :=
  X86_64_CHECK_ARCH_AND_LOAD_SYSCALL_NR ++ [
    BPF_JUMP (BPF_JMP .| BPF_JEQ .| BPF_K) NR_mkdir 1 0;
    BPF_STMT (BPF_RET .| BPF_K) SECCOMP_RET_ALLOW;
    if secondFilter =? SECCOMP_RET_ERRNO then BPF_STMT (BPF_RET + BPF_K) (SECCOMP_RET_ERRNO .| ENOTSUP)
    else BPF_STMT (BPF_RET + BPF_K) SECCOMP_RET_TRACE ].

(** ** Every filter returns *)

#[local] Arguments Z.of_nat : simpl never.

Section Checked.
Variables (p : list sock_filter) (d : seccomp_data).
Hypothesis Hp : bpf_check p = true.

Lemma checked_at pc i : p !! pc = Some i → checked_insn (length p) pc i = true.
Proof.
  intros E. apply andb_true_iff in Hp as [H _]. rewrite forallb_forall in H.
  apply (H (pc, i)), list_elem_of_In, list_elem_of_lookup. exists pc.
  rewrite lookup_zip_with, lookup_seq_lt by by eapply lookup_lt_Some. simpl. by rewrite E.
Qed.

Lemma load_inside o : 0 <= o → o < 64 → o mod 4 = 0 → is_Some (load d o).
Proof.
  intros H0 H1 H2. unfold load. rewrite (proj2 (Z.leb_le 0 o) H0), (proj2 (Z.eqb_eq _ _) H2).
  apply lookup_lt_is_Some. simpl. apply Nat2Z.inj_lt.
  rewrite Z2Nat.id by (apply Z.div_pos; lia). apply Z.div_lt_upper_bound; lia.
Qed.

Lemma not_last pc i : p !! pc = Some i → bpf_code i ≠ BPF_RET .| BPF_K → (pc + 1 < length p)%nat.
Proof.
  intros E Hi. apply andb_true_iff in Hp as [_ H]. pose proof (lookup_lt_Some _ _ _ E).
  rewrite last_lookup in H. destruct (decide (pc = pred (length p))) as [->|]; [|lia].
  rewrite E in H. by apply Z.eqb_eq in H.
Qed.

(** A checked program steps forward or returns what one of its instructions
    says. *)
Lemma checked_step acc pc :
  (pc < length p)%nat →
  (∃ acc' pc', step p d acc pc = Goto acc' pc' ∧ (pc < pc' < length p)%nat) ∨
  (∃ i, i ∈ p ∧ bpf_code i = BPF_RET .| BPF_K ∧ step p d acc pc = Return (k i)).
Proof.
  intros [i E]%lookup_lt_is_Some. pose proof (checked_at _ _ E) as C.
  assert (Hlast : bpf_code i ≠ BPF_RET .| BPF_K → (pc + 1 < length p)%nat) by by apply not_last.
  unfold step. rewrite E. cbv zeta. unfold checked_insn in C. cbv zeta in C.
  destruct (Z.eqb_spec (bpf_code i) (BPF_LD .| BPF_W .| BPF_ABS)) as [O|_].
  { left. bools. destruct (load_inside (k i)) as [w ->]; [lia..|].
    exists w, (pc + 1)%nat. split; [done|]. split; [lia|]. apply Hlast. by rewrite O. }
  destruct (Z.eqb_spec (bpf_code i) (BPF_JMP .| BPF_JA)) as [O|_].
  { left. bools. exists acc, (pc + 1 + Z.to_nat (k i))%nat. split; [done|lia]. }
  destruct (Z.eqb_spec (bpf_code i) (BPF_RET .| BPF_K)) as [O|_].
  { right. exists i. split_and!; [by eapply list_elem_of_lookup_2|done|]. by rewrite O. }
  left. apply andb_true_iff in C as [[Cop Ct]%andb_true_iff Cf]. bools.
  assert (∀ t, ∃ acc' pc', jump pc acc t i = Goto acc' pc' ∧ (pc < pc' < length p)%nat) as J.
  { intros t. unfold jump. destruct (holds t acc (k i)); eexists _, _; (split; [done|lia]). }
  simpl in Cop. rewrite orb_false_r in Cop.
  repeat match goal with |- context [if ?b then _ else _] => destruct b; [by apply J|] end. done.
Qed.

Lemma checked_run fuel acc pc :
  (length p - pc <= fuel)%nat → (pc < length p)%nat →
  ∃ i, i ∈ p ∧ bpf_code i = BPF_RET .| BPF_K ∧ run fuel p d acc pc = Some (k i).
Proof.
  revert acc pc; induction fuel as [|fuel IH]; intros acc pc Hf Hpc; [lia|]. simpl.
  destruct (checked_step acc pc Hpc) as [(acc' & pc' & -> & ?)|(i & ? & ? & ->)]; [|by exists i].
  apply IH; lia.
Qed.
End Checked.

(** A program the kernel accepts ends on every system call, with the value of
    one of its return instructions. *)
Lemma bpf_run_returns p d : bpf_check p = true →
  ∃ i, i ∈ p ∧ bpf_code i = BPF_RET .| BPF_K ∧ bpf_run p d = Some (k i).
Proof.
  intros Hp. apply (checked_run p d Hp); [lia|]. destruct p; [done|simpl; lia].
Qed.

(** ** What the filters decide *)

(** [run_policy]: the runs of a concrete program over a symbolic system call,
    one case for each outcome of its tests. *)
Lemma run_S fuel p d acc pc :
  run (S fuel) p d acc pc =
    match step p d acc pc with
    | Goto acc pc => run fuel p d acc pc
    | Return v => Some v
    | Bad => None
    end.
Proof. done. Qed.

Ltac bpf_lazy := lazy -[run verdict_of holds low high nr arch instruction_pointer arg].
Ltac run_policy :=
  match goal with |- _ = ?rhs => let r := fresh "r" in remember rhs as r end;
  try unfold decides; unfold bpf_run;
  repeat (bpf_lazy;
          match goal with
          | |- context [run (S _) _ _ _ _] => rewrite run_S
          | |- context [holds ?t ?a ?b] => destruct (holds t a b) eqn:?
          end);
  bpf_lazy; subst; unfold holds in *.

(** A call of an x86-64 program, as opposed to i386 and x32. *)
Definition native (d : seccomp_data) : bool :=
  (low (arch d) =? AUDIT_ARCH_X86_64) && (low (nr d) <? X32_SYSCALL_BIT).

(** The policy of a filter for native calls only. *)
Definition on_native (policy : Z → verdict) (d : seccomp_data) : verdict :=
  if native d then policy (low (nr d)) else KillProcess.

(** Opening: only for reading, and never creating. *)
Definition flags_policy (flags : Z) : verdict :=
  if Z.testbit flags 6 then KillProcess
  else if flags mod 4 =? O_RDONLY then Allow
  else Errno ENOTSUP.

Definition control_open_policy (d : seccomp_data) : verdict :=
  on_native (λ n, if n =? NR_open then flags_policy (arg d 1)
                  else if n =? NR_openat then flags_policy (arg d 2)
                  else Allow) d.

(** lseek(2): the offset as an unsigned 64-bit number. *)
Definition arg64_policy (d : seccomp_data) : verdict :=
  on_native (λ n, if n =? NR_lseek then
                    let offset := wrap_u 64 (arg d 1) in
                    if offset <=? 1000 then Allow
                    else if offset <? 2 ^ 32 then Errno 1 else Errno 2
                  else Allow) d.

Lemma low_O_CREAT a : tst (low a) O_CREAT = Z.testbit a 6.
Proof.
  change O_CREAT with (2 ^ 6). rewrite tst_pow2 by lia. unfold low.
  by rewrite Z.mod_pow2_bits_low by lia.
Qed.

Lemma low_access_mode a : tst (low a) (O_WRONLY .| O_RDWR) = negb (a mod 4 =? O_RDONLY).
Proof.
  change (O_WRONLY .| O_RDWR) with (Z.ones 2). unfold tst, low.
  rewrite Z.land_ones by lia. change (2 ^ 2) with 4.
  by rewrite Z.mod_mod_divide by by exists (2 ^ 30).
Qed.

Lemma low_high a : wrap_u 64 a = low a + 2 ^ 32 * high a.
Proof. unfold wrap_u, low, high. rewrite <-Z.rem_mul_r by lia. done. Qed.

Lemma low_range a : 0 <= low a < 2 ^ 32.
Proof. apply Z.mod_pos_bound. lia. Qed.
Lemma high_range a : 0 <= high a < 2 ^ 32.
Proof. apply Z.mod_pos_bound. lia. Qed.

#[local] Opaque low high wrap_u.

Ltac rewrite_tests := repeat match goal with H : ?b = _ |- context [?b] => rewrite H end.

(** The policy, in the cases of the tests. *)
Ltac policy_cases :=
  unfold on_native, native, AUDIT_ARCH_X86_64, AUDIT_ARCH_I386, X32_SYSCALL_BIT,
    NR_open, NR_openat, NR_lseek, NR_mkdir, NR_getppid, NR_mq_notify_x86_64,
    NR_mq_notify_i386, NR_mq_notify_x32 in *;
  rewrite ?Z.ltb_antisym;
  rewrite_tests; cbn [negb andb orb].

(** A returned literal is the policy's verdict. *)
Ltac verdicts := try (match goal with |- Some (verdict_of ?v) = _ =>
  let w := eval vm_compute in (verdict_of v) in change (verdict_of v) with w end).

Lemma flags_policy_tests a :
  flags_policy a = if tst (low a) 64 then KillProcess
                   else if tst (low a) 3 then Errno ENOTSUP else Allow.
Proof.
  unfold flags_policy. rewrite <-low_O_CREAT, <-(negb_involutive (_ =? O_RDONLY)).
  rewrite <-low_access_mode. change O_CREAT with 64. change (O_WRONLY .| O_RDWR) with 3.
  by destruct (tst (low a) 64), (tst (low a) 3).
Qed.

Lemma flags_policy_cases a :
  flags_policy a = KillProcess ∨ flags_policy a = Errno ENOTSUP ∨ flags_policy a = Allow.
Proof. rewrite flags_policy_tests. repeat case_match; auto. Qed.

Lemma control_open_decides d : decides control_open_filter d = Some (control_open_policy d).
Proof.
  run_policy; unfold control_open_policy; policy_cases; verdicts;
    rewrite ?flags_policy_tests; by rewrite_tests.
Qed.

(** The filter of seccomp_control_open: native programs may open files for
    reading only; asking for write access fails with ENOTSUP, asking to create
    kills the process, whichever of the two calls is used; a caller of another
    architecture is killed; all other calls are allowed. *)
Theorem control_open_correct d : decides control_open_filter d = Some (control_open_policy d).
Proof. apply control_open_decides. Qed.

Lemma arg64_decides d : decides arg64_filter d = Some (arg64_policy d).
Proof.
  run_policy; unfold arg64_policy; policy_cases; verdicts; try done; cbv zeta;
    rewrite low_high; pose proof (low_range (arg d 1)); pose proof (high_range (arg d 1)); bools;
    repeat case_match; bools; try done; nia.
Qed.

(** The filter of seccomp_arg64 compares the whole 64-bit offset of lseek, out
    of two 32-bit loads: at most 1000 is allowed, more fails with error 1, and
    from 2^32 with error 2. *)
Theorem arg64_correct d : decides arg64_filter d = Some (arg64_policy d).
Proof. apply arg64_decides. Qed.

Definition multiarch_policy (d : seccomp_data) : verdict :=
  let n := low (nr d) in
  if low (arch d) =? AUDIT_ARCH_X86_64 then
    if n =? NR_mq_notify_x86_64 then Errno NR_mq_notify_x86_64
    else if n =? NR_mq_notify_x32 + X32_SYSCALL_BIT then Errno NR_mq_notify_x32
    else Allow
  else if low (arch d) =? AUDIT_ARCH_I386 then
    if n =? NR_mq_notify_i386 then Errno NR_mq_notify_i386 else Allow
  else KillProcess.

Lemma multiarch_decides d : decides multiarch_filter d = Some (multiarch_policy d).
Proof.
  run_policy; unfold multiarch_policy; cbv zeta; policy_cases; change (527 + 1073741824) with 1073742351;
    rewrite_tests; by verdicts.
Qed.

(** The filter of seccomp_multiarch fails mq_notify(2), and nothing else, on
    each of the three ABIs, with the ABI's own number of the call as errno;
    other architectures are killed. *)
Theorem multiarch_correct d : decides multiarch_filter d = Some (multiarch_policy d).
Proof. apply multiarch_decides. Qed.

Lemma deny_open_decides d :
  decides deny_open_filter d =
    Some (on_native (λ n, if (n =? NR_open) || (n =? NR_openat) then KillProcess else Allow) d).
Proof. run_policy; policy_cases; by verdicts. Qed.
Lemma perf_decides d :
  decides perf_filter d = Some (on_native (λ n, if n =? NR_open then KillProcess else Allow) d).
Proof. run_policy; policy_cases; by verdicts. Qed.
Lemma logging_decides d : decides logging_filter d = Some (on_native (λ n, Log) d).
Proof. run_policy; policy_cases; by verdicts. Qed.
Lemma trap_decides d :
  decides trap_filter d =
    Some (if low (arch d) =? AUDIT_ARCH_X86_64
          then on_native (λ n, if n =? NR_getppid then Trap else Allow) d else KillThread).
Proof. run_policy; policy_cases; by verdicts. Qed.
Lemma notify_decides d :
  decides notify_filter d = Some (on_native (λ n, if n =? NR_mkdir then Notify else Allow) d).
Proof. run_policy; policy_cases; by verdicts. Qed.

(** The remaining filters, on every system call: seccomp_deny_open kills
    open and openat, seccomp_perf kills open, seccomp_logging logs everything,
    seccomp_trap_sigsys traps getppid, seccomp_user_notification passes mkdir
    to the supervisor; all of them kill callers that are not native. *)
Theorem simple_filters_correct d :
  decides deny_open_filter d =
    Some (on_native (λ n, if (n =? NR_open) || (n =? NR_openat) then KillProcess else Allow) d) ∧
  decides perf_filter d = Some (on_native (λ n, if n =? NR_open then KillProcess else Allow) d) ∧
  decides logging_filter d = Some (on_native (λ n, Log) d) ∧
  decides trap_filter d =
    Some (if low (arch d) =? AUDIT_ARCH_X86_64
          then on_native (λ n, if n =? NR_getppid then Trap else Allow) d else KillThread) ∧
  decides notify_filter d = Some (on_native (λ n, if n =? NR_mkdir then Notify else Allow) d).
Proof.
  split_and!; [apply deny_open_decides|apply perf_decides|apply logging_decides
              |apply trap_decides|apply notify_decides].
Qed.

(** The values behind the verdicts, where two filters meet. *)
Definition mkdir_value (v : Z) (d : seccomp_data) : Z :=
  if native d then if low (nr d) =? NR_mkdir then v else SECCOMP_RET_ALLOW
  else SECCOMP_RET_KILL_PROCESS.

Lemma notify_value d : bpf_run notify_filter d = Some (mkdir_value SECCOMP_RET_USER_NOTIF d).
Proof. run_policy; unfold mkdir_value; by policy_cases. Qed.

Lemma filter2_value secondFilter d :
  bpf_run (filter2 secondFilter) d = Some (mkdir_value
    (if secondFilter =? SECCOMP_RET_ERRNO then SECCOMP_RET_ERRNO .| ENOTSUP else SECCOMP_RET_TRACE) d).
Proof.
  unfold filter2. destruct (secondFilter =? SECCOMP_RET_ERRNO);
    run_policy; unfold mkdir_value; by policy_cases.
Qed.

(** With the second filter of seccomp_user_notification installed, its
    ERRNO beats the supervisor's notification and its TRACE does not, as the
    program sets out to show; nothing changes for other calls. *)
Theorem second_filter_correct secondFilter d :
  seccomp_run [filter2 secondFilter; notify_filter] d =
    on_native (λ n, if n =? NR_mkdir
                    then if secondFilter =? SECCOMP_RET_ERRNO then Errno ENOTSUP else Notify
                    else Allow) d.
Proof.
  unfold seccomp_run, run_all. rewrite filter2_value, notify_value. unfold mkdir_value, on_native.
  by destruct (native d), (low (nr d) =? NR_mkdir), (secondFilter =? SECCOMP_RET_ERRNO).
Qed.

(** The kernel installs every one of them. *)
Definition installable : list (list sock_filter) :=
  [control_open_filter; deny_open_filter; arg64_filter; perf_filter; logging_filter;
   trap_filter; multiarch_filter; notify_filter; filter2 SECCOMP_RET_ERRNO; filter2 SECCOMP_RET_TRACE].

Lemma filters_accepted : forallb bpf_check installable = true.
Proof. done. Qed.

(** With one filter installed, its verdict is the verdict. *)
Lemma action_range v : 0 <= action v < 2 ^ 32 ∧ action v mod 2 ^ 16 = 0.
Proof.
  unfold action. split.
  - change 0xffff0000 with (Z.shiftl (Z.ones 16) 16).
    assert (Z.land v (Z.shiftl (Z.ones 16) 16) = Z.shiftl (Z.land (Z.shiftr v 16) (Z.ones 16)) 16) as ->.
    { apply Z.bits_inj'. intros n Hn. rewrite Z.land_spec, !Z.shiftl_spec, Z.land_spec by done.
      destruct (Z.ltb_spec n 16).
      - rewrite !(Z.testbit_neg_r _ (n - 16)) by lia. by rewrite andb_false_r.
      - rewrite Z.shiftr_spec by lia. do 2 f_equal. lia. }
    rewrite Z.land_ones, Z.shiftl_mul_pow2 by lia.
    pose proof (Z.mod_pos_bound (Z.shiftr v 16) (2 ^ 16) ltac:(lia)). lia.
  - rewrite <-Z.land_ones, <-Z.land_assoc by lia. by rewrite (eq_refl : Z.land 0xffff0000 (Z.ones 16) = 0), Z.land_0_r.
Qed.

Lemma seccomp_run_one f d v : decides f d = Some v → seccomp_run [f] d = v.
Proof.
  unfold decides, seccomp_run, run_all. destruct (bpf_run f d) as [cur|]; [|done]. intros [= <-]. simpl.
  destruct (Z.ltb_spec (wrap_s 32 (action cur)) (wrap_s 32 2147418112)) as [|Hge]; [done|].
  destruct (action_range cur) as [Hr Hm].
  change (wrap_s 32 2147418112) with 2147418112 in Hge. unfold wrap_s in Hge.
  change (2 ^ (32 - 1)) with 2147483648 in Hge. change (2 ^ 32) with 4294967296 in *. change (2 ^ 16) with 65536 in *.
  assert (action cur = SECCOMP_RET_ALLOW) as E.
  { unfold SECCOMP_RET_ALLOW.
    pose proof (Z.div_mod (action cur) 65536 ltac:(lia)) as D. rewrite Hm in D.
    destruct (Z.ltb_spec (action cur) 2147483648).
    - rewrite Z.mod_small in Hge by lia. assert (action cur / 65536 = 32767) by lia. lia.
    - assert ((action cur + 2147483648) mod 4294967296 = action cur - 2147483648) as M.
      { symmetry. apply (Z.mod_unique _ _ 1); lia. }
      rewrite M in Hge. lia. }
  unfold verdict_of. by rewrite E.
Qed.
