(* ===== verification/Seccomp.v ===== *)
(** The programs of tlpi-book/seccomp that install a filter and run under it:
    seccomp_control_open, seccomp_deny_open, seccomp_arg64, seccomp_perf,
    seccomp_logging, seccomp_trap_sigsys, seccomp_multiarch.

    The filters in force are part of the state; a system call made under them
    is decided by [Bpf.seccomp_run] before it reaches the kernel.  Output
    through stdio and exit(2) are not sent through the filters: no policy
    restricts them on the architecture the program runs on. *)
From S2P Require Import Prelude Sys ErrorFns GetNum Bpf.

(** The filters in force, newest first; what the handler of SIGSYS prints, if
    there is one; the static flag of seccomp_launch.c. *)
Record sec := Sec {
  filters : list (list sock_filter);
  on_sigsys : option cstr;
  noNewPrivsAlreadySet : bool }.

Abbreviation SM := (M sec).

(** The bytes of a struct sock_filter, and of a program. *)
Definition insn_bytes (i : sock_filter) : cstr :=
  le16 (bpf_code i) ++ [chr (jt i); chr (jf i)] ++ le32 (k i).
Definition prog_bytes (p : list sock_filter) : cstr := mjoin (insn_bytes <$> p).

Definition SIGSYS : Z := 31.
Definition PR_SET_NO_NEW_PRIVS : Z := 38.
Definition SECCOMP_SET_MODE_FILTER : Z := 1.
Definition AT_FDCWD : Z := -100.
Definition EBADF : Z := 9.

Section Programs.
Context `{os}.
(** The address of a string, and whether the C library implements open()
    by openat(2). *)
Variables (addr : cstr → Z) (open_is_openat : bool).

(** A system call, by architecture, number and arguments, under the filters. *)
Definition filtered (arch nr : Z) (args : list Z) (c : call) : SM reply :=
  g ← get;
  match seccomp_run (filters g) (Data nr arch 0 args) with
  | Allow | Log | Notify => sys c
  | Errno e => if e =? 0 then mret (ok 0) else set_errno e;; mret (fail e)
  | Trace => set_errno ENOSYS;; mret (fail ENOSYS)
  | Trap =>
      match on_sigsys g with
      | Some t => out Stdout t;; sys Cgarbage
      | None => stop_with (Killed SIGSYS)
      end
  | KillProcess | KillThread => stop_with (Killed SIGSYS)
  end.

Definition native_call : Z → list Z → call → SM reply := filtered AUDIT_ARCH_X86_64.

Definition open_ (path : cstr) (flags mode : Z) : SM Z :=
  r ← (if open_is_openat
       then native_call NR_openat [AT_FDCWD; addr path; flags; mode]
       else native_call NR_open [addr path; flags; mode]) (Copen path flags mode);
  mret (rv r).

(** seccomp(SECCOMP_SET_MODE_FILTER, flags, &prog) *)
Definition seccomp (flags : Z) (p : list sock_filter) : SM Z :=
  r ← sys (Cseccomp SECCOMP_SET_MODE_FILTER flags (prog_bytes p));
  when (negb (rv r =? -1)) (g ← get; put (Sec (p :: filters g) (on_sigsys g) (noNewPrivsAlreadySet g)));;
  mret (rv r).

Definition no_new_privs (fail : SM unit) : SM unit :=
  r ← sys (Cprctl PR_SET_NO_NEW_PRIVS 1);
  when (negb (rv r =? 0)) fail.

Definition install_filter (p : list sock_filter) (fail : SM unit) : SM unit :=
  z ← seccomp 0 p;
  when (z =? -1) fail.

Definition control_open_install_filter : SM unit :=
  z ← seccomp 0 control_open_filter;
  when (negb (z =? 0)) (errExit (str "seccomp")).

Definition try_open (path : cstr) (flags mode : Z) (msg : cstr) : SM unit :=
  z ← open_ path flags mode;
  when (z =? -1) (perror msg).

(** seccomp_control_open.c *)
Definition control_open_main : SM unit :=
  no_new_privs (errExit (str "prctl"));;
  control_open_install_filter;;
  try_open (str "/tmp/a") O_RDONLY 0 (str "open1");;
  try_open (str "/tmp/a") O_WRONLY 0 (str "open2");;
  try_open (str "/tmp/a") O_RDWR 0 (str "open3");;
  try_open (str "/tmp/a") (Z.lor O_CREAT O_RDWR) 384 (str "open4");;
  stop_with (Exit 0).

(** seccomp_deny_open.c *)
Definition deny_open_main : SM unit :=
  no_new_privs (errExit (str "prctl"));;
  install_filter deny_open_filter (errExit (str "seccomp"));;
  z ← open_ (str "/tmp/a") O_RDONLY 0;
  when (z =? -1) (errExit (str "open"));;
  out Stdout (str "We shouldn't see this message" ++ [NL]);;
  stop_with (Exit 0).

(** seccomp_arg64.c *)
Definition seek_test (fd offset : Z) : SM unit :=
  out Stdout (str "Seek to byte " ++ dec offset ++ str ": ");;
  r ← native_call NR_lseek [fd; offset; 0] (Clseek fd offset 0);
  if rv r =? 0 then out Stdout (str "succeeded" ++ [NL])
  else e ← get_errno; out Stdout (str "failed with errno = " ++ dec e ++ [NL]).

Definition arg64_main : SM unit :=
  no_new_privs (errExit (str "prctl"));;
  install_filter arg64_filter (errExit (str "seccomp"));;
  fd ← open_ (str "/dev/zero") O_RDWR 0;
  when (fd =? -1) (errExit (str "open"));;
  seek_test fd 0;;
  seek_test fd 10000;;
  seek_test fd 0x100000001;;
  stop_with (Exit 0).

(** seccomp_logging.c *)
Definition logging_main : SM unit :=
  no_new_privs (errExit (str "prctl"));;
  install_filter logging_filter (errExit (str "seccomp"));;
  native_call NR_geteuid [] Cgeteuid;;
  native_call NR_getppid [] Cgetppid;;
  stop_with (Exit 0).

(** seccomp_trap_sigsys.c *)
Definition sigHandler_text : cstr := str "SIGSYS!" ++ [NL].

Definition trap_main : SM unit :=
  no_new_privs (errExit (str "prctl"));;
  install_filter trap_filter (errExit (str "seccomp"));;
  r ← sys (Csigaction SIGSYS);
  when (rv r =? -1) (errExit (str "sigaction"));;
  g ← get; put (Sec (filters g) (Some sigHandler_text) (noNewPrivsAlreadySet g));;
  out Stdout (str "About to call getppid()" ++ [NL]);;
  native_call NR_getppid [] Cgetppid;;
  out Stdout (str "Bye" ++ [NL]);;
  stop_with (Exit 0).

(** seccomp_perf.c *)
Definition perf_main (argv : list cstr) : SM unit :=
  match argv with
  | [] => stop_with (Undefined "argv[0] is NULL")
  | [pname] =>
      out Stderr (str "Usage: " ++ pname ++ str " <num-loops> [x]" ++ [NL]);;
      out Stderr (str "       (use 'x' to run with BPF filter applied)" ++ [NL]);;
      stop_with (Exit 1)
  | _ :: loops :: rest =>
      when (negb (bool_decide (rest = [])))
        (out Stdout (str "Applying BPF filter" ++ [NL]);;
         no_new_privs (perror_exit (str "prctl"));;
         install_filter perf_filter (perror_exit (str "seccomp")));;
      let nloops := atoi loops in
      for_acc 0 (Z.to_nat nloops) (λ _ _, native_call NR_getppid [] Cgetppid;; mret tt) tt;;
      stop_with (Exit 0)
  end.

(** seccomp_multiarch.c, built for one of the three ABIs. *)
Inductive abi := X86_64 | I386 | X32.
Definition abi_arch (a : abi) : Z :=
  match a with I386 => AUDIT_ARCH_I386 | _ => AUDIT_ARCH_X86_64 end.
Definition abi_mq_notify (a : abi) : Z :=
  match a with
  | X86_64 => NR_mq_notify_x86_64
  | I386 => NR_mq_notify_i386
  | X32 => NR_mq_notify_x32 + X32_SYSCALL_BIT
  end.

Definition no_seccomp_filter_var : cstr := str "NO_SECCOMP_FILTER".

Definition multiarch_run (a : abi) (argv : list cstr) : SM unit :=
  pid ← sys Cgetpid;
  out Stdout (TAB :: str "argv[0] = " ++ default [] (argv !! 0%nat) ++ str "; PID = " ++ dec (rv pid) ++ [NL]);;
  pid ← sys Cgetpid;
  sys (Csystem (snprintf 1024 (str "echo -n '" ++ TAB :: str "'; grep Seccomp /proc/" ++ dec (rv pid) ++ str "/status")));;
  pid ← sys Cgetpid;
  sys (Csystem (snprintf 1024 (str "echo -n '" ++ TAB :: str "'; file -L /proc/" ++ dec (rv pid) ++
                               str "/exe | sed 's/,.*//'")));;
  r ← filtered (abi_arch a) (abi_mq_notify a) [0; 0] (Cmq_notify 0);
  e ← get_errno;
  (if (rv r =? -1) && negb (e =? EBADF) then
     out Stdout (str "mq_notify() failed with errno = " ++ dec e ++ [NL])
   else
     out Stdout (str "mq_notify() was not failed by seccomp() filter!" ++ [NL]);;
     out Stdout (str "*** Make sure that the " ++ no_seccomp_filter_var ++ str " environment variable is not set" ++ [NL]);;
     out Stdout (str "    when running this program." ++ [NL]);;
     out Stdout (str "*** Otherwise, check the syscall numbers in kernel headers" ++ [NL]);;
     out Stdout (str "    to see that they are correct" ++ [NL]);;
     stop_with (Exit 1));;
  match argv !! 1%nat with
  | None => stop_with (Exit 0)
  | Some prog =>
      sys (Csetenv no_seccomp_filter_var (str "y") 1);;
      out Stdout [NL];;
      out Stdout (str "About to exec: " ++ prog ++ [NL]);;
      r ← sys (Cexec prog (drop 1 argv));
      if rv r =? -1 then perror_exit (str "execvp") else stop_with (Execed prog (drop 1 argv))
  end.

Definition multiarch_main (a : abi) (argv : list cstr) : SM unit :=
  when (bool_decide (getenv no_seccomp_filter_var = None))
    (no_new_privs (perror_exit (str "prctl"));;
     out Stdout (str "Initial execution; installing seccomp filter" ++ [NL]);;
     install_filter multiarch_filter (perror_exit (str "seccomp")));;
  multiarch_run a argv.
End Programs.

(** ** Reasoning about filtered calls *)

(** What is known of a state: the filters in force, the handler, the calls
    made and the text shown. *)
Definition sees (fs : list (list sock_filter)) (h : option cstr)
    (a : list (call * reply)) (t : list (stream * cstr)) (s : st sec) : Prop :=
  filters (glob s) = fs ∧ on_sigsys (glob s) = h ∧ acts (trace s) = a ∧ shown (trace s) = t.

Definition flush (c : call) : Prop := match c with Cfflush _ => True | _ => False end.
Definition perror_text `{os} (msg : cstr) (e : Z) : cstr := msg ++ str ": " ++ strerror e ++ [NL].

Section Rules.
Context `{os} (addr : cstr → Z) (openat : bool).
Implicit Types s : st sec.

Lemma sees_refl s : sees (filters (glob s)) (on_sigsys (glob s)) (acts (trace s)) (shown (trace s)) s.
Proof. done. Qed.

Lemma wp_sees_sys fs h a t c (Q : reply → st sec → Prop) E s :
  sees fs h a t s → ¬ flush c →
  (∀ r s', (rv r = -1 → errno s' = rerr r) → sees fs h (a ++ [(c, r)]) t s' → Q r s') →
  wp (sys c) Q E s.
Proof.
  intros (? & ? & <- & <-) Hc HQ. apply wp_sys, HQ.
  - intros ->. done.
  - repeat split; cbn [glob trace]; [done|done| |].
    + rewrite acts_app. by destruct c.
    + rewrite shown_app. destruct c; try (by rewrite app_nil_r). done.
Qed.

Lemma wp_sees_out fs h a t f x (Q : unit → st sec → Prop) E s :
  sees fs h a t s →
  (∀ s', errno s' = errno s → sees fs h a (t ++ [(f, x)]) s' → Q tt s') →
  wp (out f x) Q E s.
Proof.
  intros (? & ? & <- & <-) HQ. apply wp_emit, HQ; [done|].
  repeat split; cbn [glob trace]; [done|done|by rewrite acts_app, app_nil_r|by rewrite shown_app].
Qed.

Lemma wp_sees_perror fs h a t msg e (Q : unit → st sec → Prop) E s :
  sees fs h a t s → errno s = e →
  (∀ s', sees fs h a (t ++ [(Stderr, perror_text msg e)]) s' → Q tt s') →
  wp (perror msg) Q E s.
Proof.
  intros Hs <- HQ. apply wp_bind, wp_get_errno. eapply wp_sees_out; [done|]. intros s' _. apply HQ.
Qed.

Lemma wp_filtered fs h a t ar n args c v (Q : reply → st sec → Prop) E s :
  sees fs h a t s → ¬ flush c →
  seccomp_run fs (Data n ar 0 args) = v →
  match v with
  | Allow | Log | Notify =>
      ∀ r s', (rv r = -1 → errno s' = rerr r) → sees fs h (a ++ [(c, r)]) t s' → Q r s'
  | Errno e => e ≠ 0 ∧ ∀ s', errno s' = e → sees fs h a t s' → Q (fail e) s'
  | Trace => ∀ s', errno s' = ENOSYS → sees fs h a t s' → Q (fail ENOSYS) s'
  | Trap => match h with
            | Some x => ∀ r s', sees fs h (a ++ [(Cgarbage, r)]) (t ++ [(Stdout, x)]) s' → Q r s'
            | None => E (Killed SIGSYS) s
            end
  | KillProcess | KillThread => E (Killed SIGSYS) s
  end →
  wp (filtered ar n args c) Q E s.
Proof.
  intros Hs Hc Hv HQ. unfold filtered. apply wp_bind, wp_get. pose proof Hs as (Hf & Hh & _ & _).
  rewrite Hf, Hv, Hh. destruct v as [| | |e| | | |]; try (by eapply wp_sees_sys); try done.
  - destruct h; [|done]. apply wp_bind. eapply wp_sees_out; [done|]. intros s1 _ H1.
    eapply wp_sees_sys; [done|by intros []|]. auto.
  - destruct HQ as [He HQ]. destruct (Z.eqb_spec e 0); [done|].
    apply wp_bind, wp_set_errno. apply wp_ret, HQ; [done|]. exact Hs.
  - apply wp_bind, wp_set_errno. apply wp_ret, HQ; [done|]. exact Hs.
Qed.

(** The program ended while it set up its filter. *)
Definition gave_up (p : list sock_filter) (s s' : st sec) : Prop :=
  ∃ r rs, acts (trace s') = acts (trace s) ++ (Cprctl PR_SET_NO_NEW_PRIVS 1, r) ::
    match rs with Some r => [(Cseccomp SECCOMP_SET_MODE_FILTER 0 (prog_bytes p), r)] | None => [] end.

Definition set_up (p : list sock_filter) (r1 r2 : reply) : list (call * reply) :=
  [(Cprctl PR_SET_NO_NEW_PRIVS 1, r1); (Cseccomp SECCOMP_SET_MODE_FILTER 0 (prog_bytes p), r2)].

Lemma wp_errExit_gave_up {A} msg p s s' (Q : A → st sec → Prop) (E : stop → st sec → Prop) :
  gave_up p s s' → (∀ s', gave_up p s s' → E (end_of true) s') → wp (errExit msg) Q E s'.
Proof.
  intros Hs HE. apply wp_errExit. intros s2 _ Ha _. apply HE. unfold gave_up. by rewrite Ha.
Qed.

Lemma wp_perror_exit_gave_up {A} msg p s s' (Q : A → st sec → Prop) (E : stop → st sec → Prop) :
  gave_up p s s' → (∀ s', gave_up p s s' → E (Exit 1) s') → wp (perror_exit msg) Q E s'.
Proof.
  intros Hs HE. unfold perror_exit. apply wp_bind, wp_bind, wp_get_errno, wp_emit, wp_stop, HE.
  unfold gave_up. cbn [trace]. by rewrite acts_app, app_nil_r.
Qed.

Lemma wp_no_new_privs p fail t (Q : unit → st sec → Prop) E s :
  shown (trace s) = t →
  (∀ r s', sees (filters (glob s)) (on_sigsys (glob s)) (acts (trace s) ++ [(Cprctl PR_SET_NO_NEW_PRIVS 1, r)]) t s' →
    Q tt s') →
  (∀ s', gave_up p s s' → wp fail Q E s') →
  wp (no_new_privs fail) Q E s.
Proof.
  intros <- HQ Hfail. apply wp_bind. eapply wp_sees_sys; [apply sees_refl|by intros []|].
  intros r s' _ H'. destruct (rv r =? 0); simpl; [by eapply HQ|].
  apply Hfail. destruct H' as (_ & _ & Ha & _). by exists r, None.
Qed.

Lemma wp_seccomp p h a t (Q : Z → st sec → Prop) E s fs :
  sees fs h a t s →
  (∀ r s', rv r ≠ -1 → sees (p :: fs) h (a ++ [(Cseccomp SECCOMP_SET_MODE_FILTER 0 (prog_bytes p), r)]) t s' → Q (rv r) s') →
  (∀ r s', rv r = -1 → sees fs h (a ++ [(Cseccomp SECCOMP_SET_MODE_FILTER 0 (prog_bytes p), r)]) t s' → Q (-1) s') →
  wp (seccomp 0 p) Q E s.
Proof.
  intros Hs Hok Hfail. apply wp_bind. eapply wp_sees_sys; [done|by intros []|]. intros r s' _ H'.
  destruct (Z.eqb_spec (rv r) (-1)) as [E1|E1]; simpl; apply wp_bind.
  - apply wp_ret, wp_ret. rewrite E1. by eapply Hfail.
  - apply wp_bind, wp_get, wp_put, wp_ret. eapply Hok; [done|].
    destruct H' as (Hf & ? & ? & ?). repeat split; try done. simpl. by rewrite Hf.
Qed.

Lemma wp_install_filter p fail t r1 (Q : unit → st sec → Prop) E s s0 :
  sees (filters (glob s0)) (on_sigsys (glob s0)) (acts (trace s0) ++ [(Cprctl PR_SET_NO_NEW_PRIVS 1, r1)]) t s →
  (∀ r2 s', sees (p :: filters (glob s0)) (on_sigsys (glob s0)) (acts (trace s0) ++ set_up p r1 r2) t s' → Q tt s') →
  (∀ s', gave_up p s0 s' → wp fail Q E s') →
  wp (install_filter p fail) Q E s.
Proof.
  intros Hs HQ Hfail. apply wp_bind. eapply wp_seccomp; [done|..]; intros r s' Hr H'.
  - apply Z.eqb_neq in Hr. rewrite Hr. apply wp_ret. eapply HQ. rewrite <-app_assoc in H'. exact H'.
  - apply Hfail. destruct H' as (_ & _ & Ha & _). exists r1, (Some r). by rewrite <-app_assoc in Ha.
Qed.

(** Under one filter, by its decision. *)
Lemma wp_one p h a t ar n args c v (Q : reply → st sec → Prop) E s :
  sees [p] h a t s → ¬ flush c →
  decides p (Data n ar 0 args) = Some v →
  match v with
  | Allow | Log | Notify =>
      ∀ r s', (rv r = -1 → errno s' = rerr r) → sees [p] h (a ++ [(c, r)]) t s' → Q r s'
  | Errno e => e ≠ 0 ∧ ∀ s', errno s' = e → sees [p] h a t s' → Q (fail e) s'
  | Trace => ∀ s', errno s' = ENOSYS → sees [p] h a t s' → Q (fail ENOSYS) s'
  | Trap => match h with
            | Some x => ∀ r s', sees [p] h (a ++ [(Cgarbage, r)]) (t ++ [(Stdout, x)]) s' → Q r s'
            | None => E (Killed SIGSYS) s
            end
  | KillProcess | KillThread => E (Killed SIGSYS) s
  end →
  wp (filtered ar n args c) Q E s.
Proof. intros Hs Hc Hv. by apply wp_filtered; [| |apply seccomp_run_one]. Qed.

(** *** seccomp_control_open.c *)

Definition with_flags (flags mode : Z) : seccomp_data :=
  Data (if openat then NR_openat else NR_open) AUDIT_ARCH_X86_64 0
    (if openat then [AT_FDCWD; addr (str "/tmp/a"); flags; mode] else [addr (str "/tmp/a"); flags; mode]).

Lemma control_open_flags flags mode :
  decides control_open_filter (with_flags flags mode) = Some (flags_policy flags).
Proof. rewrite control_open_decides. unfold with_flags. by destruct openat. Qed.

(** The outcome of [try_open] under the filter. *)
Lemma wp_try_open flags mode msg h a t v (Q : unit → st sec → Prop) E s :
  sees [control_open_filter] h a t s →
  flags_policy flags = v →
  match v with
  | KillProcess => E (Killed SIGSYS) s
  | Errno e => e ≠ 0 ∧ ∀ s', sees [control_open_filter] h a (t ++ [(Stderr, perror_text msg e)]) s' → Q tt s'
  | _ => ∀ r s', sees [control_open_filter] h (a ++ [(Copen (str "/tmp/a") flags mode, r)])
      (t ++ if rv r =? -1 then [(Stderr, perror_text msg (rerr r))] else []) s' → Q tt s'
  end →
  wp (try_open addr openat (str "/tmp/a") flags mode msg) Q E s.
Proof.
  intros Hs Hv HQ. pose proof (control_open_flags flags mode) as D. rewrite Hv in D.
  unfold try_open, open_. apply wp_bind, wp_bind.
  assert (∀ k : M sec reply, k = filtered (arch (with_flags flags mode)) (nr (with_flags flags mode))
      (args (with_flags flags mode)) (Copen (str "/tmp/a") flags mode) →
    wp k (λ r s', wp (mret (rv r)) (λ z s'', wp (when (z =? -1) (perror msg)) Q E s'') E s') E s) as Hk.
  { intros k ->. eapply wp_one; [done|by intros []|by destruct openat|].
    assert (Hal : ∀ r s', (rv r = -1 → errno s' = rerr r) →
      sees [control_open_filter] h (a ++ [(Copen (str "/tmp/a") flags mode, r)]) t s' →
      (∀ r s', sees [control_open_filter] h (a ++ [(Copen (str "/tmp/a") flags mode, r)])
        (t ++ if rv r =? -1 then [(Stderr, perror_text msg (rerr r))] else []) s' → Q tt s') →
      wp (mret (rv r)) (λ z s'', wp (when (z =? -1) (perror msg)) Q E s'') E s').
    { intros r s' He H' HQ'. apply wp_ret. destruct (Z.eqb_spec (rv r) (-1)) as [E1|E1]; simpl.
      - eapply wp_sees_perror; [done|by apply He|]. intros s2 H2. apply (HQ' r). rewrite E1. exact H2.
      - apply wp_ret, (HQ' r). apply Z.eqb_neq in E1. rewrite E1, app_nil_r. exact H'. }
    destruct (flags_policy_cases flags) as [E1|[E1|E1]]; rewrite E1 in Hv; subst v; [done| |].
    - destruct HQ as [He HQ]. split; [done|]. intros s' E' H'. apply wp_ret. simpl.
      by eapply wp_sees_perror.
    - intros r s' He H'. by eapply Hal. }
  apply Hk. unfold with_flags, native_call. by destruct openat.
Qed.
End Rules.

(** *** What the programs do *)

(** Stopped while setting up, or opened "/tmp/a" for reading at most and was
    killed at the attempt to create. *)
Definition control_open_end `{os} (s : st sec) (e : stop) (s' : st sec) : Prop :=
  e = end_of true ∧ gave_up control_open_filter s s' ∨
  e = Killed SIGSYS ∧ ∃ r1 r2 r3,
    acts (trace s') = acts (trace s) ++ set_up control_open_filter r1 r2 ++
      [(Copen (str "/tmp/a") O_RDONLY 0, r3)] ∧
    shown (trace s') = shown (trace s) ++
      (if rv r3 =? -1 then [(Stderr, perror_text (str "open1") (rerr r3))] else []) ++
      [(Stderr, perror_text (str "open2") ENOTSUP); (Stderr, perror_text (str "open3") ENOTSUP)].

(** Stopped before the seeks, or all three were tried and only the first one
    reached the kernel. *)
Definition seek_line (offset : Z) (t : cstr) : list (stream * cstr) :=
  [(Stdout, str "Seek to byte " ++ dec offset ++ str ": "); (Stdout, t ++ [NL])].
Definition arg64_end `{os} (s : st sec) (e : stop) (s' : st sec) : Prop :=
  e = end_of true ∧ gave_up arg64_filter s s' ∨
  ∃ r1 r2 r3, let a := acts (trace s) ++ set_up arg64_filter r1 r2 ++ [(Copen (str "/dev/zero") O_RDWR 0, r3)] in
    e = end_of true ∧ rv r3 = -1 ∧ acts (trace s') = a ∨
    e = Exit 0 ∧ ∃ r4 e4, (rv r4 = -1 → e4 = rerr r4) ∧
      acts (trace s') = a ++ [(Clseek (rv r3) 0 0, r4)] ∧
      shown (trace s') = shown (trace s) ++
        seek_line 0 (if rv r4 =? 0 then str "succeeded" else str "failed with errno = " ++ dec e4) ++
        seek_line 10000 (str "failed with errno = 1") ++
        seek_line 0x100000001 (str "failed with errno = 2").

(** Stopped while setting up, or killed at the open. *)
Definition deny_open_end `{os} (s : st sec) (e : stop) (s' : st sec) : Prop :=
  e = end_of true ∧ gave_up deny_open_filter s s' ∨
  e = Killed SIGSYS ∧ ∃ r1 r2,
    acts (trace s') = acts (trace s) ++ set_up deny_open_filter r1 r2 ∧
    shown (trace s') = shown (trace s).

(** Stopped while setting up or before the handler was there, or SIGSYS was
    handled in place of getppid(2). *)
Definition trap_end `{os} (s : st sec) (e : stop) (s' : st sec) : Prop :=
  e = end_of true ∧ gave_up trap_filter s s' ∨
  ∃ r1 r2 r3, let a := acts (trace s) ++ set_up trap_filter r1 r2 ++ [(Csigaction SIGSYS, r3)] in
    e = end_of true ∧ rv r3 = -1 ∧ acts (trace s') = a ∨
    e = Exit 0 ∧ ∃ r4,
      acts (trace s') = a ++ [(Cgarbage, r4)] ∧
      shown (trace s') = shown (trace s) ++
        [(Stdout, str "About to call getppid()" ++ [NL]); (Stdout, sigHandler_text); (Stdout, str "Bye" ++ [NL])].

(** The error seccomp_multiarch gives mq_notify on an ABI. *)
Definition abi_error (a : abi) : Z :=
  match a with X86_64 => NR_mq_notify_x86_64 | I386 => NR_mq_notify_i386 | X32 => NR_mq_notify_x32 end.

Definition no_mq_notify (l : list (call * reply)) : Prop := ∀ z r, (Cmq_notify z, r) ∉ l.

(** Stopped while setting up, or reported the ABI's error without mq_notify(2)
    having reached the kernel, and went on to the program named, if any. *)
Definition multiarch_end `{os} (a : abi) (argv : list cstr) (s : st sec) (e : stop) (s' : st sec) : Prop :=
  e = Exit 1 ∧ gave_up multiarch_filter s s' ∨
  (∃ l, acts (trace s') = acts (trace s) ++ l ∧ no_mq_notify l) ∧
  (Stdout, str "mq_notify() failed with errno = " ++ dec (abi_error a) ++ [NL]) ∈ shown (trace s') ∧
  match argv !! 1%nat with
  | None => e = Exit 0
  | Some prog => e = Execed prog (drop 1 argv) ∨ e = Exit 1
  end.

(** The loop of seccomp_perf: as many calls as asked for, with the filter and
    without. *)
Definition perf_end (argv : list cstr) (s : st sec) (e : stop) (s' : st sec) : Prop :=
  match argv with
  | [] => e = Undefined "argv[0] is NULL"
  | [_] => e = Exit 1 ∧ acts (trace s') = acts (trace s)
  | _ :: loops :: rest =>
      e = Exit 1 ∧ rest ≠ [] ∧ gave_up perf_filter s s' ∨
      e = Exit 0 ∧ ∃ pre rs, acts (trace s') = acts (trace s) ++ pre ++ (pair Cgetppid <$> rs) ∧
        length rs = Z.to_nat (atoi loops) ∧
        if decide (rest = []) then pre = [] else ∃ r1 r2, pre = set_up perf_filter r1 r2
  end.

Lemma wp_stops {A} (m : SM A) (E : stop → st sec → Prop) s :
  wp m (λ _ _, False) E s → ∃ e s', m s = (Stop e, s') ∧ E e s'.
Proof. intros [(? & ? & _ & [])|?]%wp_run. done. Qed.

Section Ends.
Context `{os} (addr : cstr → Z) (openat : bool).
Implicit Types s : st sec.

(** The common start: prctl, seccomp, both checked with -1. *)
Lemma wp_start p m s (E : stop → st sec → Prop) (k : unit → SM unit) :
  filters (glob s) = [] →
  (∀ s', gave_up p s s' → E (end_of true) s') →
  (∀ r1 r2 s', sees [p] (on_sigsys (glob s)) (acts (trace s) ++ set_up p r1 r2) (shown (trace s)) s' →
    wp (k tt) (λ _ _, False) E s') →
  wp (no_new_privs (errExit (str "prctl"));; install_filter p (errExit m) ≫= k) (λ _ _, False) E s.
Proof.
  intros Hf Hg Hk. apply wp_bind. eapply wp_no_new_privs; [done| |].
  2: { intros s' Hs. eapply wp_errExit_gave_up; [done|]. exact Hg. }
  intros r1 s1 H1. apply wp_bind. eapply wp_install_filter; [done| |].
  2: { intros s' Hs. eapply wp_errExit_gave_up; [done|]. exact Hg. }
  intros r2 s2 H2. rewrite Hf in H2. by eapply Hk.
Qed.

Lemma wp_open_one p path flags mode v h a t (Q : Z → st sec → Prop) E s :
  sees [p] h a t s →
  (∀ n args, n = NR_open ∨ n = NR_openat → decides p (Data n AUDIT_ARCH_X86_64 0 args) = Some v) →
  match v with
  | Allow => ∀ r s', (rv r = -1 → errno s' = rerr r) → sees [p] h (a ++ [(Copen path flags mode, r)]) t s' → Q (rv r) s'
  | KillProcess => E (Killed SIGSYS) s
  | _ => False
  end →
  wp (open_ addr openat path flags mode) Q E s.
Proof.
  intros Hs Hd HQ. apply wp_bind. unfold native_call.
  destruct openat; (eapply wp_one; [exact Hs|by intros []|by apply Hd; auto|]); destruct v; try done;
    intros r s' He H'; by apply wp_ret, HQ.
Qed.

Lemma wp_control_open_main s :
  filters (glob s) = [] →
  wp (control_open_main addr openat) (λ _ _, False) (control_open_end s) s.
Proof.
  intros Hf.
  unfold control_open_main. apply wp_bind. eapply wp_no_new_privs; [done| |].
  2: { intros s' Hs. eapply wp_errExit_gave_up; [done|]. intros s2 H2. by left. }
  intros r1 s1 H1. rewrite Hf in H1. apply wp_bind, wp_bind. eapply wp_seccomp; [done|..]; intros r2 s2 Hr H2.
  2: { eapply wp_errExit_gave_up; [|by left].
       exists r1, (Some r2). destruct H2 as (_ & _ & -> & _). by rewrite <-app_assoc. }
  destruct (rv r2 =? 0).
  2: { eapply wp_errExit_gave_up; [|by left].
       exists r1, (Some r2). destruct H2 as (_ & _ & -> & _). by rewrite <-app_assoc. }
  apply wp_ret. rewrite <-app_assoc in H2. apply wp_bind.
  eapply wp_try_open; [done|reflexivity|]. intros r3 s3 H3. apply wp_bind.
  eapply wp_try_open; [done|reflexivity|]. split; [done|]. intros s4 H4. apply wp_bind.
  eapply wp_try_open; [done|reflexivity|]. split; [done|]. intros s5 H5. apply wp_bind.
  eapply wp_try_open; [done|reflexivity|]. right. split; [done|].
  destruct H5 as (_ & _ & -> & ->). exists r1, r2, r3. by rewrite <-!app_assoc.
Qed.

Lemma wp_deny_open_main s :
  filters (glob s) = [] → wp (deny_open_main addr openat) (λ _ _, False) (deny_open_end s) s.
Proof.
  intros Hf. apply wp_start; [done|by left|]. intros r1 r2 s2 H2. apply wp_bind.
  eapply (wp_open_one _ _ _ _ KillProcess); [done| |].
  - intros n args Hn. rewrite deny_open_decides. by destruct Hn as [-> | ->].
  - right. split; [done|]. destruct H2 as (_ & _ & -> & ->). eauto.
Qed.

Lemma seek_line_app t offset x :
  t ++ seek_line offset x =
    (t ++ [(Stdout, str "Seek to byte " ++ dec offset ++ str ": ")]) ++ [(Stdout, x ++ [NL])].
Proof. by rewrite <-app_assoc. Qed.

Lemma wp_seek_test fd offset v h a t (Q : unit → st sec → Prop) E s :
  sees [arg64_filter] h a t s →
  arg64_policy (Data NR_lseek AUDIT_ARCH_X86_64 0 [fd; offset; 0]) = v →
  match v with
  | Allow => ∀ r e s', (rv r = -1 → e = rerr r) →
      sees [arg64_filter] h (a ++ [(Clseek fd offset 0, r)]) (t ++ seek_line offset
        (if rv r =? 0 then str "succeeded" else str "failed with errno = " ++ dec e)) s' → Q tt s'
  | Errno e => e ≠ 0 ∧ ∀ s',
      sees [arg64_filter] h a (t ++ seek_line offset (str "failed with errno = " ++ dec e)) s' → Q tt s'
  | _ => False
  end →
  wp (seek_test fd offset) Q E s.
Proof.
  intros Hs Hv HQ. unfold seek_test. apply wp_bind. eapply wp_sees_out; [done|]. intros s1 _ H1.
  apply wp_bind. eapply wp_one; [done|by intros []|by rewrite arg64_decides|]. rewrite Hv.
  destruct v as [| | |e| | | |]; try done.
  - destruct HQ as [He HQ]. split; [done|]. intros s2 E2 H2. cbn [rv fail].
    change (-1 =? 0) with false. cbv iota.
    apply wp_bind, wp_get_errno. rewrite E2. eapply wp_sees_out; [done|]. intros s3 _ H3. apply HQ.
    by rewrite seek_line_app, <-(app_assoc (str _) (dec _)).
  - intros r s2 E2 H2. destruct (rv r =? 0) eqn:E0.
    + eapply wp_sees_out; [done|]. intros s3 _ H3. apply (HQ r (rerr r)); [done|]. rewrite E0.
      by rewrite seek_line_app.
    + apply wp_bind, wp_get_errno. eapply wp_sees_out; [done|]. intros s3 _ H3.
      apply (HQ r (errno s2)); [done|]. rewrite E0.
      by rewrite seek_line_app, <-(app_assoc (str _) (dec _)).
Qed.

Lemma wp_arg64_main s :
  filters (glob s) = [] → wp (arg64_main addr openat) (λ _ _, False) (arg64_end s) s.
Proof.
  intros Hf. apply wp_start; [done|by left|]. intros r1 r2 s2 H2. apply wp_bind.
  eapply (wp_open_one _ _ _ _ Allow); [done| |].
  { intros n args Hn. rewrite arg64_decides. by destruct Hn as [-> | ->]. }
  intros r3 s3 _ H3. rewrite <-app_assoc in H3. apply wp_bind. unfold when.
  destruct (Z.eqb_spec (rv r3) (-1)) as [E3|E3].
  { apply wp_errExit. intros s4 _ Ha _. right. exists r1, r2, r3. left.
    split_and!; [done|done|]. rewrite Ha. apply H3. }
  apply wp_ret, wp_bind. eapply wp_seek_test; [done|reflexivity|]. intros r4 e4 s4 E4 H4.
  apply wp_bind. eapply wp_seek_test; [done|reflexivity|]. split; [done|]. intros s5 H5.
  apply wp_bind. eapply wp_seek_test; [done|reflexivity|]. split; [done|]. intros s6 H6.
  right. exists r1, r2, r3. right. split; [done|]. exists r4, e4. split; [done|].
  destruct H6 as (_ & _ & -> & ->). by rewrite <-!app_assoc.
Qed.

Lemma wp_trap_main s :
  filters (glob s) = [] → on_sigsys (glob s) = None → wp trap_main (λ _ _, False) (trap_end s) s.
Proof.
  intros Hf Hh. apply wp_start; [done|by left|]. intros r1 r2 s2 H2. apply wp_bind.
  eapply wp_sees_sys; [done|by intros []|]. intros r3 s3 _ H3. rewrite <-app_assoc in H3.
  apply wp_bind. unfold when. destruct (Z.eqb_spec (rv r3) (-1)) as [E3|E3].
  { apply wp_errExit. intros s4 _ Ha _. right. exists r1, r2, r3. left.
    split_and!; [done|done|]. rewrite Ha. apply H3. }
  apply wp_ret, wp_bind, wp_get, wp_bind, wp_put.
  set (s4 := St _ _ _).
  assert (sees [trap_filter] (Some sigHandler_text) (acts (trace s3)) (shown (trace s3)) s4) as H4.
  { destruct H3 as (F3 & _). by repeat split. }
  destruct H3 as (_ & _ & Ha & Hsh). rewrite Ha, Hsh in H4.
  apply wp_bind. eapply wp_sees_out; [done|]. intros s5 _ H5.
  apply wp_bind. eapply wp_one; [done|by intros []|by rewrite trap_decides|]. intros r4 s6 H6.
  apply wp_bind. eapply wp_sees_out; [done|]. intros s7 _ H7. apply wp_stop.
  right. exists r1, r2, r3. right. split; [done|]. exists r4.
  destruct H7 as (_ & _ & -> & ->). by rewrite <-!app_assoc.
Qed.

Lemma getppid_allowed fs args :
  fs = [] ∨ fs = [perf_filter] → seccomp_run fs (Data NR_getppid AUDIT_ARCH_X86_64 0 args) = Allow.
Proof. intros [-> | ->]; [done|]. apply seccomp_run_one. by rewrite perf_decides. Qed.

Lemma wp_perf_loop fs h a t n (Q : unit → st sec → Prop) E s :
  fs = [] ∨ fs = [perf_filter] → sees fs h a t s →
  (∀ rs s', length rs = n → sees fs h (a ++ (pair Cgetppid <$> rs)) t s' → Q tt s') →
  wp (for_acc 0 n (λ _ _, native_call NR_getppid [] Cgetppid;; mret tt) tt) Q E s.
Proof.
  intros Hfs Hs HQ.
  eapply wp_mono; [apply (wp_for_acc (λ j _ s', ∃ rs, length rs = j ∧ sees fs h (a ++ (pair Cgetppid <$> rs)) t s') E)| |done].
  - exists []. split; [done|]. by rewrite app_nil_r.
  - intros j ? s1 _ (rs & <- & H1). apply wp_bind. eapply wp_filtered; [done|by intros []|by apply getppid_allowed|].
    intros r s2 _ H2. apply wp_ret. exists (rs ++ [r]). rewrite length_app, fmap_app, app_assoc. split; [simpl; lia|done].
  - intros [] s' (rs & Hl & H'). by eapply HQ.
Qed.

Lemma wp_perf_main argv s :
  filters (glob s) = [] → wp (perf_main argv) (λ _ _, False) (perf_end argv s) s.
Proof.
  intros Hf. destruct argv as [|pname [|loops rest]]; [by apply wp_stop| |].
  { apply wp_bind. eapply wp_sees_out; [apply sees_refl|]. intros s1 _ H1.
    apply wp_bind. eapply wp_sees_out; [done|]. intros s2 _ H2. apply wp_stop. split; [done|]. apply H2. }
  assert (Hend : ∀ fs pre s', fs = [] ∨ fs = [perf_filter] →
    (if decide (rest = []) then pre = [] else ∃ r1 r2, pre = set_up perf_filter r1 r2) →
    filters (glob s') = fs → acts (trace s') = acts (trace s) ++ pre →
    wp (for_acc 0 (Z.to_nat (atoi loops)) (λ _ _, native_call NR_getppid [] Cgetppid;; mret tt) tt;;
        (stop_with (Exit 0) : SM unit))
      (λ _ _, False) (perf_end (pname :: loops :: rest) s) s').
  { intros fs pre s' Hfs Hpre F A. apply wp_bind. eapply (wp_perf_loop fs); [done|by rewrite <-F; apply sees_refl|].
    intros rs s2 Hl H2. apply wp_stop. right. split; [done|]. exists pre, rs.
    split_and!; [|done|done]. destruct H2 as (_ & _ & -> & _). by rewrite A, <-app_assoc. }
  unfold perf_main. apply wp_bind. unfold when. rewrite bool_decide_decide. destruct (decide (rest = [])) as [Hr|Hr]; simpl.
  { apply wp_ret. apply (Hend [] []); auto. by rewrite app_nil_r. }
  assert (Hg : ∀ s', gave_up perf_filter s s' → perf_end (pname :: loops :: rest) s (Exit 1) s') by by left.
  apply wp_bind. eapply wp_sees_out; [apply sees_refl|]. intros s1 _ (F1 & _ & A1 & _).
  apply wp_bind. eapply wp_no_new_privs; [done| |].
  2: { intros s' Hs. eapply wp_perror_exit_gave_up; [|exact Hg]. unfold gave_up in *. by rewrite <-A1. }
  intros r1 s2 H2. eapply wp_install_filter; [done| |].
  2: { intros s' Hs. eapply wp_perror_exit_gave_up; [|exact Hg]. unfold gave_up in *. by rewrite <-A1. }
  intros r2 s3 (F3 & _ & A3 & _). rewrite F1, Hf in F3. rewrite A1 in A3.
  apply (Hend [perf_filter] (set_up perf_filter r1 r2)); auto. eauto.
Qed.

Lemma abi_decides a args :
  decides multiarch_filter (Data (abi_mq_notify a) (abi_arch a) 0 args) = Some (Errno (abi_error a)).
Proof. rewrite multiarch_decides. by destruct a. Qed.

Lemma no_mq_notify_snoc l c r :
  (∀ z, c ≠ Cmq_notify z) → no_mq_notify l → no_mq_notify (l ++ [(c, r)]).
Proof.
  intros Hc Hl z r'. rewrite elem_of_app, list_elem_of_singleton. intros [?|[= <- <-]]; [by eapply Hl|by eapply Hc].
Qed.

(** What the rest of the program does under the filter. *)
Definition mq_frame (s s' : st sec) : Prop :=
  filters (glob s') = [multiarch_filter] ∧
  ∃ l, acts (trace s') = acts (trace s) ++ l ∧ no_mq_notify l.

Lemma wp_mq_sys s0 c (Q : reply → st sec → Prop) E s :
  mq_frame s0 s → ¬ flush c → (∀ z, c ≠ Cmq_notify z) →
  (∀ r s', mq_frame s0 s' → shown (trace s') = shown (trace s) → Q r s') → wp (sys c) Q E s.
Proof.
  intros (Hf & l & Ha & Hl) Hc Hn HQ. eapply wp_sees_sys; [apply sees_refl|done|].
  intros r s' _ (F & _ & A & T). apply HQ; [|done]. split; [by rewrite F|].
  exists (l ++ [(c, r)]). split; [by rewrite A, Ha, <-app_assoc|by apply no_mq_notify_snoc].
Qed.

Lemma wp_mq_out s0 f t (Q : unit → st sec → Prop) E s :
  mq_frame s0 s →
  (∀ s', mq_frame s0 s' → shown (trace s') = shown (trace s) ++ [(f, t)] → Q tt s') →
  wp (out f t) Q E s.
Proof.
  intros (Hf & l & Ha & Hl) HQ. eapply wp_sees_out; [apply sees_refl|].
  intros s' _ (F & _ & A & T). apply HQ; [|done]. split; [by rewrite F|]. exists l. by rewrite A.
Qed.

Lemma mq_notify_fails a s s0 args (Q : reply → st sec → Prop) E :
  mq_frame s0 s →
  (∀ s', errno s' = abi_error a → mq_frame s0 s' → shown (trace s') = shown (trace s) → Q (fail (abi_error a)) s') →
  wp (filtered (abi_arch a) (abi_mq_notify a) args (Cmq_notify 0)) Q E s.
Proof.
  intros (Hf & l & Ha & Hl) HQ. eapply wp_filtered; [apply sees_refl|by intros []| |].
  { rewrite Hf. apply seccomp_run_one, abi_decides. }
  split; [by destruct a|]. intros s' E' (F & _ & A & T). apply HQ; [done| |done].
  split; [by rewrite F|]. exists l. by rewrite A.
Qed.

(** The program from the point where the filter is in force. *)
Lemma wp_multiarch_run a argv s0 s Q :
  mq_frame s0 s →
  wp (multiarch_run a argv) Q (multiarch_end a argv s0) s.
Proof.
  intros H1. unfold multiarch_run.
  apply wp_bind. eapply wp_mq_sys; [done|by intros []|done|]. intros p1 s2 H2 _.
  apply wp_bind. eapply wp_mq_out; [done|]. intros s3 H3 _.
  apply wp_bind. eapply wp_mq_sys; [done|by intros []|done|]. intros p2 s4 H4 _.
  apply wp_bind. eapply wp_mq_sys; [done|by intros []|done|]. intros ? s5 H5 _.
  apply wp_bind. eapply wp_mq_sys; [done|by intros []|done|]. intros p3 s6 H6 _.
  apply wp_bind. eapply wp_mq_sys; [done|by intros []|done|]. intros ? s7 H7 _.
  apply wp_bind. eapply mq_notify_fails; [done|]. intros s8 E8 H8 _.
  apply wp_bind, wp_get_errno, wp_bind. rewrite E8.
  replace ((rv (fail (abi_error a)) =? -1) && negb (abi_error a =? EBADF)) with true by by destruct a.
  eapply wp_mq_out; [done|]. intros s9 H9 T9.
  assert (∀ t, (Stdout, str "mq_notify() failed with errno = " ++ dec (abi_error a) ++ [NL]) ∈ shown (trace s9) ++ t) as Hin.
  { intros t. rewrite T9, !elem_of_app, list_elem_of_singleton. auto. }
  destruct (argv !! 1%nat) as [prog|] eqn:Eprog.
  2: { apply wp_stop. right. rewrite Eprog. split_and!; [by destruct H9|by rewrite <-(app_nil_r (shown _))|done]. }
  apply wp_bind. eapply wp_mq_sys; [done|by intros []|done|]. intros ? s10 H10 T10.
  apply wp_bind. eapply wp_mq_out; [done|]. intros s11 H11 T11.
  apply wp_bind. eapply wp_mq_out; [done|]. intros s12 H12 T12.
  apply wp_bind. eapply wp_mq_sys; [done|by intros []|done|]. intros rx s13 H13 T13.
  rewrite T12, T11, T10, <-app_assoc in T13.
  destruct (rv rx =? -1).
  - apply wp_bind, wp_bind, wp_get_errno. eapply wp_mq_out; [done|]. intros s14 H14 T14. apply wp_stop.
    right. rewrite Eprog. split_and!; [by destruct H14| |by right]. rewrite T14, T13, <-!app_assoc. apply Hin.
  - apply wp_stop. right. rewrite Eprog. split_and!; [by destruct H13| |by left]. rewrite T13. apply Hin.
Qed.

Lemma wp_multiarch_main a argv s :
  filters (glob s) = (if decide (getenv no_seccomp_filter_var = None) then [] else [multiarch_filter]) →
  wp (multiarch_main a argv) (λ _ _, False) (multiarch_end a argv s) s.
Proof.
  intros Hf. unfold multiarch_main. apply wp_bind. unfold when. rewrite bool_decide_decide.
  destruct (decide _).
  - apply wp_bind. eapply wp_no_new_privs; [done| |].
    2: { intros s' Hs. eapply wp_perror_exit_gave_up; [done|]. by left. }
    intros r1 s1 H1. rewrite Hf in H1. apply wp_bind. eapply wp_sees_out; [done|]. intros s2 _ H2.
    rewrite <-Hf in H2. eapply wp_install_filter; [done| |].
    2: { intros s' Hs. eapply wp_perror_exit_gave_up; [done|]. by left. }
    intros r2 s3 H3. apply wp_multiarch_run. destruct H3 as (F3 & _ & A3 & _).
    split; [by rewrite F3, Hf|]. exists (set_up multiarch_filter r1 r2). split; [done|].
    intros z r'. unfold set_up. rewrite !elem_of_cons. intros [?|[?|?%elem_of_nil]]; done.
  - apply wp_ret, wp_multiarch_run. split; [done|]. exists []. split; [by rewrite app_nil_r|].
    intros z r. apply not_elem_of_nil.
Qed.
End Ends.

(** ** The properties *)

(** C30: seccomp_control_open, on any kernel and with either implementation of
    open(): it stops while setting up, or it opens "/tmp/a" for reading at
    most, reports ENOTSUP for the two attempts to write, and is killed at the
    attempt to create, so that "open4" is never reached. *)
Theorem control_open_main_correct `{os} addr openat (s : st sec) :
  filters (glob s) = [] →
  ∃ e s', control_open_main addr openat s = (Stop e, s') ∧ control_open_end s e s'.
Proof. intros Hf. by apply wp_stops, wp_control_open_main. Qed.

(** The program seccomp_arg64, on any kernel: of the three seeks only the one to 0
    reaches the kernel; the one to 10000 fails with errno 1 and the one to
    0x100000001 with errno 2 — the test of the upper half is what tells it from
    a seek to byte 1. *)
Theorem arg64_main_correct `{os} addr openat (s : st sec) :
  filters (glob s) = [] →
  ∃ e s', arg64_main addr openat s = (Stop e, s') ∧ arg64_end s e s'.
Proof. intros Hf. by apply wp_stops, wp_arg64_main. Qed.

(** The program seccomp_deny_open is killed at its open() and never shows its message;
    seccomp_trap_sigsys runs its handler in place of getppid(2) and goes on;
    seccomp_perf makes the number of calls asked for, with and without the
    filter. *)
Theorem deny_trap_perf_correct `{os} addr openat argv (s : st sec) :
  filters (glob s) = [] → on_sigsys (glob s) = None →
  (∃ e s', deny_open_main addr openat s = (Stop e, s') ∧ deny_open_end s e s') ∧
  (∃ e s', trap_main s = (Stop e, s') ∧ trap_end s e s') ∧
  (∃ e s', perf_main argv s = (Stop e, s') ∧ perf_end argv s e s').
Proof.
  intros Hf Hh. split_and!;
    [by apply wp_stops, wp_deny_open_main|by apply wp_stops, wp_trap_main|by apply wp_stops, wp_perf_main].
Qed.

(** seccomp_multiarch, built for any of its ABIs, run for the first time or
    under the filter it left in force for the program it executes, on any
    kernel: mq_notify(2) never reaches the kernel, the program reports its own
    number of the call as errno, and goes on to the program it was given. *)
Theorem multiarch_main_correct `{os} a argv (s : st sec) :
  filters (glob s) = (if decide (getenv no_seccomp_filter_var = None) then [] else [multiarch_filter]) →
  ∃ e s', multiarch_main a argv s = (Stop e, s') ∧ multiarch_end a argv s e s'.
Proof. intros Hf. by apply wp_stops, wp_multiarch_main. Qed.

(** ** Runs on a kernel where everything succeeds *)

Definition no_filter : st sec := init (Sec [] None false).
Definition calm : os := test_os (λ _ _, ok 0).

Theorem control_open_main_witness :
  ∃ e s', @control_open_main calm (λ _, 4096) true no_filter = (Stop e, s') ∧
    @control_open_end calm no_filter e s'.
Proof. by apply (@control_open_main_correct calm). Defined.

Theorem arg64_main_witness :
  ∃ e s', @arg64_main calm (λ _, 4096) false no_filter = (Stop e, s') ∧ @arg64_end calm no_filter e s'.
Proof. by apply (@arg64_main_correct calm). Defined.

Theorem deny_trap_perf_witness :
  (∃ e s', @deny_open_main calm (λ _, 4096) true no_filter = (Stop e, s') ∧ @deny_open_end calm no_filter e s') ∧
  (∃ e s', @trap_main calm no_filter = (Stop e, s') ∧ @trap_end calm no_filter e s') ∧
  (∃ e s', @perf_main calm [str "perf"; str "3"; str "x"] no_filter = (Stop e, s') ∧
    perf_end [str "perf"; str "3"; str "x"] no_filter e s').
Proof. by apply (@deny_trap_perf_correct calm). Defined.

Theorem multiarch_main_witness :
  ∃ e s', @multiarch_main calm X32 [str "a.out"; str "/bin/next"] no_filter = (Stop e, s') ∧
    @multiarch_end calm X32 [str "a.out"; str "/bin/next"] no_filter e s'.
Proof. by apply (@multiarch_main_correct calm). Defined.

(** A seek that succeeds, but not to byte 0, is reported as a failure: the test
    is for a result of 0. *)
Example seek_test_reports_failure :
  let o := test_os (λ _ c, match c with Clseek _ off _ => ok off | _ => ok 0 end) in
  shown (trace (@seek_test o 3 500 (init (Sec [arg64_filter] None false))).2) =
    seek_line 500 (str "failed with errno = 0").
Proof. by vm_compute. Qed.
