(* ===== verification/SeccompTools.v ===== *)
(** Programs of tlpi-book/seccomp that handle filters as data:
    dump_seccomp_filter.c and seccomp_launch.c. *)
From S2P Require Import Prelude Sys GetNum Bpf Seccomp.

Definition PTRACE_ATTACH : Z := 16.
Definition PTRACE_SECCOMP_GET_FILTER : Z := 0x420c.
Definition SIZEOF_SOCK_FILTER : Z := 8.
Definition O_CREAT_TRUNC_WRONLY : Z := 577.

(** The instructions in a buffer: struct sock_filter is 8 bytes. *)
Definition insn_at (bs : cstr) : sock_filter :=
  SockFilter (le (take 2 bs)) (le (take 1 (drop 2 bs))) (le (take 1 (drop 3 bs))) (le (take 4 (drop 4 bs))).
Fixpoint insns (n : nat) (bs : cstr) : list sock_filter :=
  match n with O => [] | S n => insn_at bs :: insns n (drop 8 bs) end.

(** ** dump_seccomp_filter.c *)

Section Dump.
Context {S : Type} `{os}.
Abbreviation D := (M S).

(** The result is the number of instructions and the bytes at [filterProg]. *)
Definition fetchFilter (pid filterIndex : Z) : D (Z * cstr) :=
  r ← sys (Cptrace PTRACE_ATTACH pid 0);
  when (rv r =? -1) (perror_exit (str "ptrace - PTRACE_ATTACH"));;
  r ← sys (Cwait pid);
  when (rv r =? -1) (perror_exit (str "waitpid"));;
  r ← sys (Cptrace PTRACE_SECCOMP_GET_FILTER pid filterIndex);
  let icnt := rv r in
  when (icnt =? -1)
    (e ← get_errno;
     if e =? ENOENT then
       out Stderr (str "No BPF program exists at index " ++ dec filterIndex ++ [NL]);;
       stop_with (Exit 1)
     else if e =? EACCES then
       out Stderr (str "You lack the CAP_SYS_ADMIN capability; run this program as root" ++ [NL]);;
       stop_with (Exit 1)
     else perror_exit (str "ptrace - PTRACE_SECCOMP_GET_FILTER-1"));;
  m ← sys (Crealloc (icnt * SIZEOF_SOCK_FILTER));
  when (rv m =? -1) (perror_exit (str "calloc"));;
  r ← sys (Cptrace PTRACE_SECCOMP_GET_FILTER pid filterIndex);
  when (rv r =? -1) (perror_exit (str "ptrace - PTRACE_SECCOMP_GET_FILTER-2"));;
  mret (rv r, rdata r).

Definition dumpFilter (pathname : cstr) (instrCnt : Z) (filterProg : cstr) : D unit :=
  r ← sys (Copen pathname O_CREAT_TRUNC_WRONLY 384);
  let fd := rv r in
  when (fd =? -1) (perror_exit (str "open"));;
  r ← sys (Cwrite fd (take (Z.to_nat (instrCnt * SIZEOF_SOCK_FILTER)) filterProg));
  when (rv r =? -1) (perror_exit (str "write"));;
  r ← sys (Cclose fd);
  when (rv r =? -1) (perror_exit (str "close"));;
  out Stderr (str "Dumped " ++ dec instrCnt ++ str " BPF instructions" ++ [NL]).

(** The body of main(), arguments converted. *)
Definition dump_to (pid filterIndex : Z) (pathname : cstr) : D unit :=
  '(instrCnt, filterProg) ← fetchFilter pid filterIndex;
  dumpFilter pathname instrCnt filterProg.

Definition dump_main (argv : list cstr) : D unit :=
  match argv with
  | [] => stop_with (Undefined "argv[0] is NULL")
  | pname :: args =>
      if bool_decide (args = []) || bool_decide (args !! 0%nat = Some (str "--help")) then
        out Stderr (pname ++ str " PID dump-file [filter-index]" ++ [NL]);;
        stop_with (Exit 1)
      else
        let pid := atoi (default [] (args !! 0%nat)) in
        let filterIndex := match args !! 2%nat with Some i => atoi i | None => 0 end in
        match args !! 1%nat with
        | None => fetchFilter pid filterIndex;; stop_with (Undefined "open of a NULL pathname")
        | Some file => dump_to pid filterIndex file;; stop_with (Exit 0)
        end
  end.
End Dump.

(** ** seccomp_launch.c *)

Section Launch.
Context `{os}.

Definition loadFilter (filterPathname : cstr) : SM unit :=
  g ← get;
  when (negb (noNewPrivsAlreadySet g))
    (r ← sys (Cprctl PR_SET_NO_NEW_PRIVS 1);
     when (negb (rv r =? 0)) (perror_exit (str "prctl"));;
     upd (λ g, Sec (filters g) (on_sigsys g) true));;
  r ← sys (Copen filterPathname O_RDONLY 0);
  let fd := rv r in
  when (fd =? -1) (perror_exit (str "open"));;
  r ← sys (Cfstat fd);
  when (rv r =? -1) (perror_exit (str "fstat"));;
  let filterSize := wrap_s 32 (nth 0 (snd <$> rents r) 0) in
  when (negb (wrap_u 64 filterSize mod SIZEOF_SOCK_FILTER =? 0))
    (out Stderr (str "Filter has odd size" ++ [NL]);;
     stop_with (Exit 1));;
  m ← sys (Crealloc (wrap_u 64 filterSize));
  when (rv m =? -1) (perror_exit (str "malloc"));;
  r ← sys (Cread fd (wrap_u 64 filterSize));
  let filter := rdata r in
  when (negb (rv r =? filterSize))
    (out Stderr (str "Failure reading filter" ++ [NL]);;
     stop_with (Exit 1));;
  r ← sys (Cclose fd);
  when (rv r =? -1) (perror_exit (str "close"));;
  let len := wrap_u 16 (wrap_u 64 filterSize / SIZEOF_SOCK_FILTER) in
  z ← seccomp 0 (insns (Z.to_nat len) filter);
  when (z =? -1) (perror_exit (str "seccomp")).

Definition launch_usageError {A} (pname msg : cstr) : SM A :=
  out Stderr msg;;
  out Stderr (str "Usage: " ++ pname ++ str " [-f filter] prog arg..." ++ [NL]);;
  stop_with (Exit 1).

(** [opts] are the options getopt(3) finds, [None] for one it rejects; [rest]
    is the vector from [optind] on. *)
Definition launch_main (argv : list cstr) (opts : list (option cstr)) (rest : list cstr) : SM unit :=
  let pname := default [] (argv !! 0%nat) in
  for_each opts (λ o,
    match o with
    | Some optarg => loadFilter optarg
    | None => launch_usageError pname (str "Bad option" ++ [NL])
    end);;
  match rest with
  | [] => launch_usageError pname (str "No program specified" ++ [NL])
  | prog :: _ =>
      if bool_decide (argv !! 1%nat = Some (str "--help")) then
        launch_usageError pname (str "No program specified" ++ [NL])
      else
        r ← sys (Cexec prog rest);
        if rv r =? -1 then perror_exit (str "execve") else stop_with (Execed prog rest)
  end.
End Launch.

(** ** Programs as bytes *)

Record insn_wf (i : sock_filter) : Prop := {
  wf_code : 0 <= bpf_code i < 2 ^ 16;
  wf_jt : 0 <= jt i < 2 ^ 8;
  wf_jf : 0 <= jf i < 2 ^ 8;
  wf_k : 0 <= k i < 2 ^ 32
}.

Lemma insn_at_bytes i rest : insn_wf i → insn_at (insn_bytes i ++ rest) = i.
Proof.
  intros [H1 H2 H3 H4]. destruct i as [c t f v]. simpl in *. unfold insn_at, insn_bytes.
  change (take 2 _) with (le16 c). change (take 1 (drop 2 _)) with [chr t].
  change (take 1 (drop 3 _)) with [chr f]. change (take 4 (drop 4 _)) with (le32 v).
  rewrite le_le16, le_le32. cbn [le]. rewrite !code_chr. rewrite !Z.mod_small by lia. f_equal; lia.
Qed.

Lemma prog_bytes_cons i p : prog_bytes (i :: p) = insn_bytes i ++ prog_bytes p.
Proof. done. Qed.

Lemma insns_prog_bytes p : Forall insn_wf p → insns (length p) (prog_bytes p) = p.
Proof.
  induction 1 as [|i p Hi Hp IH]; [done|]. rewrite prog_bytes_cons. simpl length. cbn [insns].
  rewrite insn_at_bytes by done. f_equal. exact IH.
Qed.

Lemma length_prog_bytes p : length (prog_bytes p) = (8 * length p)%nat.
Proof.
  induction p as [|i p IH]; [done|]. rewrite prog_bytes_cons, length_app, IH. simpl. lia.
Qed.

(** What ptrace(2) promises of a process with program [p] at index [idx], and
    what a file holding the bytes [b] gives back. *)
Class Traced `{os} (pid idx : Z) (p : list sock_filter) := traced : ∀ tr,
  let r := kern tr (Cptrace PTRACE_SECCOMP_GET_FILTER pid idx) in
  rv r = -1 ∨ rv r = Z.of_nat (length p) ∧ rdata r = prog_bytes p.
Class Holds `{os} (b : cstr) := {
  holds_size : ∀ tr fd, let r := kern tr (Cfstat fd) in
    rv r = -1 ∨ nth 0 (snd <$> rents r) 0 = Z.of_nat (length b);
  holds_bytes : ∀ tr fd n, let r := kern tr (Cread fd n) in
    rv r = -1 ∨ rv r = Z.of_nat (length (rdata r)) ∧ rdata r `prefix_of` b
}.

Lemma wp_when_exit {S} `{os} b msg (Q : unit → st S → Prop) E s :
  (b = false → Q tt s) → (∀ s', E (Exit 1) s') → wp (when b (perror_exit msg)) Q E s.
Proof. intros HQ HE. destruct b; simpl; [apply HE|by apply HQ]. Qed.

Definition exits {S} (e : stop) (s : st S) : Prop := e = Exit 1.

Section DumpSpec.
Context {S : Type} `{os}.
Implicit Types s : st S.

Lemma wp_fetchFilter pid idx p `{!Traced pid idx p} (Q : Z * cstr → st S → Prop) s :
  (∀ s', Q (Z.of_nat (length p), prog_bytes p) s') → wp (fetchFilter pid idx) Q exits s.
Proof.
  intros HQ. unfold fetchFilter.
  apply wp_bind, wp_sys, wp_bind, wp_when_exit; [intros _|done].
  apply wp_bind, wp_sys, wp_bind, wp_when_exit; [intros _|done].
  apply wp_bind, wp_sys, wp_bind. unfold when. destruct (_ =? -1) eqn:E1.
  { apply wp_bind, wp_get_errno. repeat case_match; done. }
  apply wp_ret, wp_bind, wp_sys, wp_bind, wp_when_exit; [intros _|done].
  apply wp_bind, wp_sys, wp_bind, wp_when_exit; [intros E2|done]. apply wp_ret. bools.
  edestruct (traced (pid:=pid) (idx:=idx) (p:=p)) as [E3|[E3 E4]]; [by rewrite E3 in E2|].
  rewrite E3, E4. apply HQ.
Qed.

Lemma wp_dumpFilter path p s :
  wp (dumpFilter path (Z.of_nat (length p)) (prog_bytes p))
    (λ _ s', ∃ fd r, (Cwrite fd (prog_bytes p), r) ∈ calls (trace s') ∧ rv r ≠ -1) exits s.
Proof.
  unfold dumpFilter.
  replace (take _ (prog_bytes p)) with (prog_bytes p).
  2: { rewrite take_ge; [done|]. rewrite length_prog_bytes. unfold SIZEOF_SOCK_FILTER. lia. }
  apply wp_bind, wp_sys, wp_bind, wp_when_exit; [intros _|done].
  apply wp_bind, wp_sys, wp_bind, wp_when_exit; [intros E2|done].
  apply wp_bind, wp_sys, wp_bind, wp_when_exit; [intros _|done]. apply wp_emit. bools.
  eexists _, _. split; [|exact E2]. cbn [trace].
  rewrite !calls_snoc_out, !calls_snoc_sys, !elem_of_app, !list_elem_of_singleton. auto.
Qed.

Lemma wp_dump_to pid idx p path `{!Traced pid idx p} s :
  wp (dump_to pid idx path)
    (λ _ s', ∃ fd r, (Cwrite fd (prog_bytes p), r) ∈ calls (trace s') ∧ rv r ≠ -1) exits s.
Proof. apply wp_bind. eapply wp_fetchFilter; [done|]. intros s'. apply wp_dumpFilter. Qed.
End DumpSpec.

Section LaunchSpec.
Context `{os}.
Implicit Types s : st sec.

Lemma wp_loadFilter path b `{!Holds b} (Q : unit → st sec → Prop) s :
  Z.of_nat (length b) < 2 ^ 31 → Z.of_nat (length b) mod 8 = 0 →
  (∀ s', filters (glob s') =
      insns (Z.to_nat (Z.of_nat (length b) / 8 mod 2 ^ 16)) b :: filters (glob s) → Q tt s') →
  wp (loadFilter path) Q exits s.
Proof.
  intros Hmax Hmod HQ. unfold loadFilter. apply wp_bind, wp_get, wp_bind.
  apply (wp_mono _ (λ _ s1, filters (glob s1) = filters (glob s)) _ exits exits); [|intros [] s1 F1|done].
  { unfold when. destruct (negb _); [|done].
    apply wp_bind, wp_sys, wp_bind. destruct (negb _); [done|]. by apply wp_ret, wp_upd. }
  apply wp_bind, wp_call. intros r2 s2 _ F2 _ _ _. rewrite <-F2 in F1.
  apply wp_bind, wp_when_exit; [intros _|done].
  apply wp_bind, wp_call. intros r3 s3 R3 F3 _ _ _. apply wp_bind, wp_when_exit; [intros E2|done].
  apply Z.eqb_neq in E2. destruct (holds_size (b:=b) (trace s2) (rv r2)) as [E3|E3]; [congruence|].
  rewrite <-R3 in E3. rewrite E3. rewrite wrap_s_id by lia. unfold wrap_u.
  rewrite !(Z.mod_small (Z.of_nat (length b)) (2 ^ 64)) by lia.
  unfold SIZEOF_SOCK_FILTER. rewrite Hmod. simpl negb. apply wp_bind, wp_ret.
  apply wp_bind, wp_call. intros r4 s4 _ F4 _ _ _. apply wp_bind, wp_when_exit; [intros _|done].
  apply wp_bind, wp_call. intros r5 s5 R5 F5 _ _ _. apply wp_bind.
  destruct (Z.eqb_spec (rv r5) (Z.of_nat (length b))) as [E4|]; [simpl negb|done]. apply wp_ret.
  assert (rdata r5 = b) as ->.
  { destruct (holds_bytes (b:=b) (trace s4) (rv r2) (Z.of_nat (length b))) as [E5|[E5 [k' Hk]]];
      rewrite <-R5 in *; [lia|].
    rewrite Hk, E5, length_app in E4.
    destruct k' as [|]; [by rewrite app_nil_r in Hk|simpl in E4; lia]. }
  apply wp_bind, wp_call. intros r6 s6 _ F6 _ _ _. apply wp_bind, wp_when_exit; [intros _|done].
  apply wp_bind, wp_bind, wp_call. intros r7 s7 _ F7 _ _ _. apply wp_bind. unfold when at 1.
  destruct (Z.eqb_spec (rv r7) (-1)) as [Ez|Ez]; simpl negb; cbv iota.
  - apply wp_ret, wp_ret. by rewrite Ez.
  - apply wp_bind, wp_get, wp_put, wp_ret. apply Z.eqb_neq in Ez. rewrite Ez. apply wp_ret, HQ.
    simpl. by rewrite F7, F6, F5, F4, F3, F1.
Qed.
End LaunchSpec.

(** ** The properties *)


(** A process under seccomp_control_open's filter, dumped and loaded. *)
Definition dump_os : os := test_os (λ _ c,
  match c with
  | Cptrace _ _ _ => Reply (Z.of_nat (length control_open_filter)) 0 (prog_bytes control_open_filter) []
  | _ => ok 0
  end).
Definition file_os : os := test_os (λ _ c,
  let b := prog_bytes control_open_filter in
  match c with
  | Cfstat _ => Reply 0 0 [] [([], Z.of_nat (length b))]
  | Cread _ n => let d := take (Z.to_nat n) b in Reply (Z.of_nat (length d)) 0 d []
  | _ => ok 0
  end).

#[local] Instance dump_os_Traced : @Traced dump_os 1 0 control_open_filter.
Proof. intros tr. right. done. Qed.
#[local] Instance file_os_Holds : @Holds file_os (prog_bytes control_open_filter).
Proof.
  split; [by right|]. intros tr fd n. right. split; [done|]. cbn [rdata kern file_os test_os].
  eexists. symmetry. apply take_drop.
Qed.

Lemma control_open_filter_wf : Forall insn_wf control_open_filter.
Proof. repeat constructor; done. Qed.


(** [fprog.len] is an unsigned short, and the size is not checked: of a file
    of 65537 instructions the first one alone is installed. *)
Example load_wraps : wrap_u 16 (wrap_u 64 (8 * 65537) / SIZEOF_SOCK_FILTER) = 1.
Proof. done. Qed.
