(* ===== verification/SvmsgFile.v ===== *)
(** A file server over System V message queues, tlpi-book/svmsg:
    svmsg_file_server.c, svmsg_file_client.c and svmsg_file.h.

    A client sends its queue and a pathname to the server's queue; a child of
    the server answers with the contents of the file, a message for each read,
    and a message that ends them. *)
From S2P Require Import Prelude Sys Rdwrn ErrorFns GetNum Seqnum.

(** ** svmsg_file.h *)

Definition SERVER_KEY : Z := 0x1aaaaaa1.
Definition PATH_MAX : Z := 4096.

Record requestMsg := RequestMsg { clientId : Z; pathname : cstr }.
(** The text of a request: an int and an array of PATH_MAX characters. *)
Definition REQ_MSG_SIZE : Z := 4 + PATH_MAX.

Definition RESP_MSG_SIZE : Z := 8192.
Record responseMsg := ResponseMsg { mtype : Z; mdata : cstr }.
Definition RESP_MT_FAILURE : Z := 1.
Definition RESP_MT_DATA : Z := 2.
Definition RESP_MT_END : Z := 3.

(** What msgrcv(2) stores: the type and the text. *)
Definition msg_bytes (m : responseMsg) : cstr := le64 (mtype m) ++ mdata m.
Definition msg_of (b : cstr) : responseMsg := ResponseMsg (wrap_s 64 (le (take 8 b))) (drop 8 b).

Definition IPC_PRIVATE : Z := 0.
Definition QUEUE_MODE : Z := 400.        (* S_IRUSR | S_IWUSR | S_IWGRP *)
Definition SIGCHLD : Z := 17.
Definition WNOHANG : Z := 1.

(** ** svmsg_file_server.c *)

Section Server.
Context {S : Type} `{os}.

(** The handler of SIGCHLD. *)
Definition grimReaper (fuel : nat) : M S unit :=
  savedErrno ← get_errno;
  loop fuel (λ _, r ← sys (Cwaitpid (-1) WNOHANG); mret (if 0 <? rv r then inl tt else inr tt)) tt;;
  set_errno savedErrno.

(** Reading the file and sending it, up to the end, an error or a failure to
    send. *)
Definition send_file (fuel : nat) (fd client : Z) : M S unit :=
  loop fuel (λ _,
    r ← sys (Cread fd RESP_MSG_SIZE);
    if 0 <? rv r then
      s ← sys (Cmsgsnd client RESP_MT_DATA (take (Z.to_nat (rv r)) (rdata r)));
      mret (if rv s =? -1 then inr tt else inl tt)
    else mret (inr tt)) tt.

Definition serveRequest (fuel : nat) (req : requestMsg) : M S unit :=
  f ← sys (Copen (pathname req) 0 0);
  if rv f =? -1 then
    sys (Cmsgsnd (clientId req) RESP_MT_FAILURE (snprintf RESP_MSG_SIZE (str "Couldn't open") ++ [NUL]));;
    stop_with (Exit 1)
  else
    send_file fuel (rv f) (clientId req);;
    sys (Cmsgsnd (clientId req) RESP_MT_END []);;
    mret tt.

(** The request in the buffer, if its pathname is terminated. *)
Definition request_in (b : cstr) : option requestMsg :=
  if decide (NUL ∈ drop 4 b) then Some (RequestMsg (int_of b) (c_str (drop 4 b))) else None.

(** [req] is the text of the buffer that main reuses; a short message leaves
    the end of it as it was. *)
Definition overlay (new old : cstr) : cstr := new ++ drop (length new) old.

Definition server_turn (fuel : nat) (serverId : Z) (req : cstr) : M S (cstr + unit) :=
  m ← sys (Cmsgrcv serverId REQ_MSG_SIZE);
  if rv m =? -1 then
    e ← get_errno;
    if e =? EINTR then mret (inl req) else errMsg (str "msgrcv");; mret (inr tt)
  else
    let req := overlay (drop 8 (rdata m)) req in
    pid ← sys Cfork;
    if rv pid =? -1 then errMsg (str "fork");; mret (inr tt) else
    if rv pid =? 0 then
      match request_in req with
      | Some r => serveRequest fuel r;; stop_with (FastExit 0)
      | None => stop_with (Undefined "unterminated pathname")
      end
    else mret (inl req).

Definition file_server_main (fuel : nat) (req : cstr) : M S unit :=
  q ← sys (Cmsgget SERVER_KEY (512 + 1024 + QUEUE_MODE));
  if rv q =? -1 then errExit (str "msgget") else
  a ← sys (Csigaction SIGCHLD);
  if rv a =? -1 then errExit (str "sigaction") else
  loop fuel (server_turn fuel (rv q)) req;;
  r ← sys (Cmsgctl_rmid (rv q));
  if rv r =? -1 then errExit (str "msgctl") else stop_with (Exit 0).
End Server.

(** ** svmsg_file_client.c *)

Section Client.
Context {S : Type} `{os}.

Definition removeQueue (client : Z) : M S unit :=
  r ← sys (Cmsgctl_rmid client);
  when (rv r =? -1) (errExit (str "msgctl")).

(** The request structure: strncpy fills the array with NULs. *)
Definition request_text (r : requestMsg) : cstr :=
  le32 (clientId r) ++ pathname r ++ replicate (Z.to_nat PATH_MAX - length (pathname r)) NUL.

Definition receive (client : Z) : M S (responseMsg * Z) :=
  m ← sys (Cmsgrcv client RESP_MSG_SIZE);
  if rv m =? -1 then errExit (str "msgrcv") else mret (msg_of (rdata m), rv m).

(** From the first response on. *)
Definition receive_file (fuel : nat) (client : Z) : M S unit :=
  '(resp, msgLen) ← receive client;
  if mtype resp =? RESP_MT_FAILURE then
    if decide (NUL ∈ mdata resp) then out Stdout (c_str (mdata resp) ++ [NL]);; stop_with (Exit 1)
    else stop_with (Undefined "unterminated message")
  else
    '(totBytes, numMsgs) ← loop fuel (λ '(mt, totBytes, numMsgs),
      if mt =? RESP_MT_DATA then
        '(resp, msgLen) ← receive client;
        if numMsgs =? INT_MAX then stop_with (Undefined "signed overflow") else
        mret (inl (mtype resp, totBytes + msgLen, numMsgs + 1))
      else mret (inr (totBytes, numMsgs))) (mtype resp, msgLen, 1);
    out Stdout (str "Received " ++ dec totBytes ++ str " bytes (" ++ dec numMsgs ++ str " messages)" ++ [NL]);;
    stop_with (Exit 0).

Definition file_client_main (fuel : nat) (argv : list cstr) : M S unit :=
  match argv with
  | [prog; path] =>
      when (streq path (str "--help")) (usageErr (prog ++ str " pathname" ++ [NL]));;
      when (strlen path >? PATH_MAX - 1)
        (cmdLineErr (str "pathname too long (max: " ++ dec (PATH_MAX - 1) ++ str " bytes)" ++ [NL]));;
      sv ← sys (Cmsgget SERVER_KEY 128);
      if rv sv =? -1 then errExit (str "msgget - server message queue") else
      q ← sys (Cmsgget IPC_PRIVATE QUEUE_MODE);
      if rv q =? -1 then errExit (str "msgget - client message queue") else
      a ← sys Catexit;
      if negb (rv a =? 0) then errExit (str "atexit") else
      at_exit (removeQueue (rv q)) (
        s ← sys (Cmsgsnd (rv sv) 1 (request_text (RequestMsg (rv q) path)));
        if rv s =? -1 then errExit (str "msgsnd") else
        receive_file fuel (rv q))
  | _ => usageErr (default [] (argv !! 0%nat) ++ str " pathname" ++ [NL])
  end.
End Client.

(** ** What the server does, on any kernel *)

(** Turns of the parent, which change its buffer from [b] to the last index:
    interrupted, or a request passed to a child. *)
Inductive turns (q : Z) (b : cstr) : list (call * reply) → cstr → Prop :=
  | Turns_none : turns q b [] b
  | Turns_eintr l b' m : turns q b l b' → rv m = -1 → rerr m = EINTR →
      turns q b (l ++ [(Cmsgrcv q REQ_MSG_SIZE, m)]) b'
  | Turns_fork l b' m f : turns q b l b' → rv m ≠ -1 → rv f ≠ -1 → rv f ≠ 0 →
      turns q b (l ++ [(Cmsgrcv q REQ_MSG_SIZE, m); (Cfork, f)]) (overlay (drop 8 (rdata m)) b').

Definition data_of (r : reply) : cstr := take (Z.to_nat (rv r)) (rdata r).

(** Parts of a file, each read and sent. *)
Inductive sending (fd client : Z) : list (call * reply) → Prop :=
  | Sending_none : sending fd client []
  | Sending_more l r m : sending fd client l → 0 < rv r → rv m ≠ -1 →
      sending fd client (l ++ [(Cread fd RESP_MSG_SIZE, r); (Cmsgsnd client RESP_MT_DATA (data_of r), m)]).

(** How sending ends: nothing more was read, or the message could not be sent. *)
Definition sending_ended (fd client : Z) (l : list (call * reply)) : Prop :=
  ∃ r, l = [(Cread fd RESP_MSG_SIZE, r)] ∧ rv r <= 0 ∨
    ∃ m, l = [(Cread fd RESP_MSG_SIZE, r); (Cmsgsnd client RESP_MT_DATA (data_of r), m)] ∧ 0 < rv r ∧ rv m = -1.

Definition refused (req : requestMsg) (l : list (call * reply)) : Prop :=
  ∃ f m, l = [(Copen (pathname req) 0 0, f); (Cmsgsnd (clientId req) RESP_MT_FAILURE (str "Couldn't open" ++ [NUL]), m)] ∧
    rv f = -1.

Definition served (req : requestMsg) (l : list (call * reply)) : Prop :=
  ∃ f l1 l2 m, l = (Copen (pathname req) 0 0, f) :: l1 ++ l2 ++ [(Cmsgsnd (clientId req) RESP_MT_END [], m)] ∧
    rv f ≠ -1 ∧ sending (rv f) (clientId req) l1 ∧ sending_ended (rv f) (clientId req) l2.

Definition serving_file (req : requestMsg) (l : list (call * reply)) : Prop :=
  ∃ f l1, l = (Copen (pathname req) 0 0, f) :: l1 ∧ rv f ≠ -1 ∧ sending (rv f) (clientId req) l1.

Section Specs.
Context {S : Type} `{os}.
Implicit Types s : st S.

Lemma acted_app s s1 s2 a b : acted s a s1 → acted s1 b s2 → acted s (a ++ b) s2.
Proof using. intros [H1 G1] [H2 G2]. split; [by rewrite H2, H1, app_assoc|congruence]. Qed.

(** A call that is not a flush, in a history. *)
Lemma wp_act c s l s1 (Q : reply → st S → Prop) E :
  acted s l s1 → (∀ f, c ≠ Cfflush f) →
  (∀ r s2, r = kern (trace s1) c → acted s (l ++ [(c, r)]) s2 → (rv r = -1 → errno s2 = rerr r) →
    trace s2 = trace s1 ++ [Esys c r] → Q r s2) → wp (sys c) Q E s1.
Proof using.
  intros Ha Hc HQ. apply wp_call. intros r s2 Hr Hg He _ Ht. apply HQ; [done| |done|done]. by eapply acted_call.
Qed.

Lemma wp_act_errExit {A} text s l s1 (Q : A → st S → Prop) (E : stop → st S → Prop) :
  acted s l s1 → (∀ s2, acted s l s2 → E (end_of true) s2) → wp (errExit text) Q E s1.
Proof using. intros Ha HE. apply wp_errExit. intros s2 Hg Hacts _. apply HE. by eapply acted_same. Qed.

Lemma wlp_send_file fuel fd client s :
  wlp (send_file fuel fd client)
    (λ _ s', ∃ l l', acted s (l ++ l') s' ∧ sending fd client l ∧ sending_ended fd client l')
    (λ _ _, False)
    (λ s', ∃ l, acted s l s' ∧ sending fd client l) s.
Proof using.
  unfold send_file. apply (wlp_loop (λ _ s', ∃ l, acted s l s' ∧ sending fd client l)); [| by eauto|].
  { exists []. split; [apply acted_refl|constructor]. }
  intros [] s1 (l & Ha & Hl). apply wp_wlp, wp_bind. eapply wp_act; [exact Ha|done|]. intros r s2 _ Ha2 _ _.
  destruct (Z.ltb_spec 0 (rv r)) as [Hr|Hr].
  - apply wp_bind. eapply wp_act; [exact Ha2|done|]. intros m s3 _ Ha3 _ _. apply wp_ret.
    rewrite <-app_assoc in Ha3. destruct (Z.eqb_spec (rv m) (-1)) as [Hm|Hm].
    + exists l. eexists. split; [exact Ha3|]. split; [done|]. exists r. right. by exists m.
    + eexists. split; [exact Ha3|]. by apply Sending_more.
  - apply wp_ret. exists l. eexists. split; [exact Ha2|]. split; [done|]. exists r. by left.
Qed.

Lemma wlp_serveRequest fuel req s :
  wlp (serveRequest fuel req)
    (λ _ s', ∃ l, acted s l s' ∧ served req l)
    (λ t s', t = Exit 1 ∧ ∃ l, acted s l s' ∧ refused req l)
    (λ s', ∃ l, acted s l s' ∧ serving_file req l) s.
Proof using.
  unfold serveRequest. apply wlp_bind, wp_wlp. eapply wp_act; [apply acted_refl|done|]. intros f s1 _ Ha1 _ _. cbn [app] in Ha1.
  destruct (Z.eqb_spec (rv f) (-1)) as [Hf|Hf].
  - apply wlp_bind, wp_wlp. eapply wp_act; [exact Ha1|done|]. intros m s2 _ Ha2 _ _. split; [done|].
    eexists. split; [exact Ha2|]. by exists f, m.
  - apply wlp_bind. eapply wlp_mono; [apply wlp_send_file| |done|].
    + intros _ s2 (l & l' & Ha2 & Hl & Hl'). apply wlp_bind, wp_wlp.
      pose proof (acted_app _ _ _ _ _ Ha1 Ha2) as Ha. eapply wp_act; [exact Ha|done|]. intros m s3 _ Ha3 _ _.
      eexists. split; [exact Ha3|]. exists f, l, l', m. split; [by rewrite <-!app_assoc|done].
    + intros s2 (l & Ha2 & Hl). eexists. split; [by eapply acted_app|]. by exists f, l.
Qed.

(** The histories of the server: [body] after its start and complete turns,
    with the buffer [b'] reached. *)
Definition file_server_history (b : cstr) (l body : list (call * reply)) (q : Z) (b' : cstr) : Prop :=
  ∃ r a l1, l = [(Cmsgget SERVER_KEY (512 + 1024 + QUEUE_MODE), r); (Csigaction SIGCHLD, a)] ++ l1 ++ body ∧
    rv r ≠ -1 ∧ q = rv r ∧ turns q b l1 b'.

(** A child: it serves the request it was forked for and ends. *)
Definition child_done (q : Z) (b' : cstr) (body : list (call * reply)) (t : stop) : Prop :=
  ∃ m f l, body = (Cmsgrcv q REQ_MSG_SIZE, m) :: (Cfork, f) :: l ∧ rv m ≠ -1 ∧ rv f = 0 ∧
    match request_in (overlay (drop 8 (rdata m)) b') with
    | Some req => refused req l ∧ t = Exit 1 ∨ served req l ∧ t = FastExit 0
    | None => l = [] ∧ t = Undefined "unterminated pathname"
    end.

Definition child_running (q : Z) (b' : cstr) (body : list (call * reply)) : Prop :=
  ∃ m f l req, body = (Cmsgrcv q REQ_MSG_SIZE, m) :: (Cfork, f) :: l ∧ rv m ≠ -1 ∧ rv f = 0 ∧
    request_in (overlay (drop 8 (rdata m)) b') = Some req ∧ serving_file req l.

(** The parent gives up: the queue is removed. *)
Definition parent_gives_up (q : Z) (fails : list (call * reply)) : Prop :=
  ∃ m, fails = [(Cmsgrcv q REQ_MSG_SIZE, m)] ∧ rv m = -1 ∧ rerr m ≠ EINTR ∨
    ∃ f, fails = [(Cmsgrcv q REQ_MSG_SIZE, m); (Cfork, f)] ∧ rv m ≠ -1 ∧ rv f = -1.

Lemma wlp_server_turn fuel q b s :
  wlp (server_turn fuel q b)
    (λ r s', match r with
             | inl b' => ∃ l, acted s l s' ∧ ∀ b0 l0, turns q b0 l0 b → turns q b0 (l0 ++ l) b'
             | inr _ => ∃ l, acted s l s' ∧ parent_gives_up q l
             end)
    (λ t s', ∃ l, acted s l s' ∧ child_done q b l t)
    (λ s', ∃ l, acted s l s' ∧ child_running q b l) s.
Proof using.
  unfold server_turn. apply wlp_bind, wp_wlp. eapply wp_act; [apply acted_refl|done|]. intros m s1 _ Ha1 He _. cbn [app] in Ha1.
  destruct (Z.eqb_spec (rv m) (-1)) as [Hm|Hm].
  { apply wp_wlp, wp_bind, wp_get_errno. rewrite (He Hm). destruct (Z.eqb_spec (rerr m) EINTR) as [Hi|Hi].
    - apply wp_ret. eexists. split; [exact Ha1|]. intros b0 l0 Hl. by apply Turns_eintr.
    - apply wp_bind, wp_errMsg. intros s2 Hg2 _ Hacts. apply wp_ret. eexists. split; [by eapply acted_same|].
      exists m. by left. }
  apply wlp_bind, wp_wlp. eapply wp_act; [exact Ha1|done|]. intros f s2 _ Ha2 _ _. cbn [app] in Ha2.
  destruct (Z.eqb_spec (rv f) (-1)) as [Hf|Hf].
  { apply wp_wlp, wp_bind, wp_errMsg. intros s3 Hg3 _ Hacts. apply wp_ret. eexists. split; [by eapply acted_same|].
    exists m. right. by exists f. }
  destruct (Z.eqb_spec (rv f) 0) as [H0|H0].
  2: { apply wp_wlp, wp_ret. eexists. split; [exact Ha2|]. intros b0 l0 Hl. by apply Turns_fork. }
  destruct (request_in _) as [req|] eqn:Er.
  - apply wlp_bind. eapply wlp_mono; [apply wlp_serveRequest|..].
    + intros _ s3 (l & Ha3 & Hl). eexists. split; [by eapply acted_app|]. exists m, f, l. split; [done|].
      rewrite Er. split; [done|]. split; [done|]. by right.
    + intros t s3 (-> & l & Ha3 & Hl). eexists. split; [by eapply acted_app|]. exists m, f, l. split; [done|].
      rewrite Er. split; [done|]. split; [done|]. by left.
    + intros s3 (l & Ha3 & Hl). eexists. split; [by eapply acted_app|]. by exists m, f, l, req.
  - eexists. split; [exact Ha2|]. exists m, f, []. split; [done|]. by rewrite Er.
Qed.
End Specs.

Definition server_end `{os} (b : cstr) (l : list (call * reply)) (t : stop) : Prop :=
  (t = end_of true ∧ ∃ c r l', l = l' ++ [(c, r)] ∧ rv r = -1 ∧ l'.*1 ++ [c] `prefix_of` [Cmsgget SERVER_KEY (512 + 1024 + QUEUE_MODE); Csigaction SIGCHLD]) ∨
  ∃ q b' body, file_server_history b l body q b' ∧
    (child_done q b' body t ∨
     ∃ fails r, body = fails ++ [(Cmsgctl_rmid q, r)] ∧ parent_gives_up q fails ∧
       t = if rv r =? -1 then end_of true else Exit 0).

(** The file server, on any kernel, however long it runs and whatever the
    clients send.  The parent only receives requests and forks; an interrupted
    wait is taken up again.  It stops for a failure only, after removing its
    queue.  A child opens the file its request names, the text of the buffer
    after the messages so far, and sends every part it reads, in order, then
    one end message, and exits; or the failure message.  The one thing
    undefined is a request whose pathname does not end. *)
Theorem file_server_correct {S} `{os} fuel b (s : st S) :
  wlp (file_server_main fuel b) (λ _ _, False)
    (λ t s', ∃ l, acted s l s' ∧ server_end b l t)
    (λ s', ∃ l q b' body, acted s l s' ∧ file_server_history b l body q b' ∧ (body = [] ∨ child_running q b' body)) s.
Proof.
  unfold file_server_main. apply wlp_bind, wp_wlp. eapply wp_act; [apply acted_refl|done|]. intros r s1 _ Ha1 _ _. cbn [app] in Ha1.
  destruct (Z.eqb_spec (rv r) (-1)) as [Hr|Hr].
  { apply wp_wlp. eapply wp_act_errExit; [exact Ha1|]. intros s2 Ha2. eexists. split; [exact Ha2|]. left. split; [done|].
    exists (Cmsgget SERVER_KEY (512 + 1024 + QUEUE_MODE)), r, []. split; [done|]. split; [done|]. by eexists. }
  apply wlp_bind, wp_wlp. eapply wp_act; [exact Ha1|done|]. intros a s2 _ Ha2 _ _. cbn [app] in Ha2.
  destruct (Z.eqb_spec (rv a) (-1)) as [Hra|Hra].
  { apply wp_wlp. eapply wp_act_errExit; [exact Ha2|]. intros s3 Ha3. eexists. split; [exact Ha3|]. left. split; [done|].
    exists (Csigaction SIGCHLD), a, [(Cmsgget SERVER_KEY (512 + 1024 + QUEUE_MODE), r)]. split; [done|]. split; [done|]. by eexists. }
  assert (∀ l1 b' body, turns (rv r) b l1 b' →
    file_server_history b (([(Cmsgget SERVER_KEY (512 + 1024 + QUEUE_MODE), r); (Csigaction SIGCHLD, a)] ++ l1) ++ body) body (rv r) b') as Hh.
  { intros l1 b' body Hl. exists r, a, l1. by rewrite <-app_assoc. }
  set (start := [(Cmsgget _ _, r); (Csigaction _, a)]) in *.
  apply wlp_bind. eapply (wlp_loop (λ b' s', ∃ l1, acted s (start ++ l1) s' ∧ turns (rv r) b l1 b')).
  - exists []. rewrite app_nil_r. split; [done|constructor].
  - intros b' s' (l1 & Ha & Hl). exists (start ++ l1), (rv r), b', []. split; [done|].
    split; [rewrite <-(app_nil_r (start ++ l1)); by apply Hh|by left].
  - intros b' s3 (l1 & Ha3 & Hl). eapply wlp_mono; [apply wlp_server_turn|..].
    + intros [b1|[]] s4 (l & Ha4 & Hl4).
      * exists (l1 ++ l). rewrite app_assoc. split; [by eapply acted_app|by apply Hl4].
      * apply wlp_bind, wp_wlp. pose proof (acted_app _ _ _ _ _ Ha3 Ha4) as Ha. eapply wp_act; [exact Ha|done|].
        intros d s5 _ Ha5 _ _. rewrite <-app_assoc in Ha5. apply wp_wlp.
        assert (∀ s6, acted s ((start ++ l1) ++ l ++ [(Cmsgctl_rmid (rv r), d)]) s6 →
          ∃ l', acted s l' s6 ∧ server_end b l' (if rv d =? -1 then end_of true else Exit 0)) as Hend.
        { intros s6 Ha6. eexists. split; [exact Ha6|]. right. eexists _, _, _. split; [by apply Hh|]. right. by exists l, d. }
        destruct (rv d =? -1); [eapply wp_act_errExit; [exact Ha5|exact Hend]|by apply Hend].
    + intros t s4 (l & Ha4 & Hl4). eexists. split; [by eapply acted_app|]. right. eexists _, _, _.
      split; [by apply Hh|]. by left.
    + intros s4 (l & Ha4 & Hl4). eexists _, _, _, _. split; [by eapply acted_app|]. split; [by apply Hh|]. by right.
Qed.

(** ** A file through the queues *)

(** The messages of a history that reached the queue [q]. *)
Definition msg_sent (q : Z) (x : call * reply) : option responseMsg :=
  match x with
  | (Cmsgsnd q' t text, r) => if (q' =? q) && negb (rv r =? -1) then Some (ResponseMsg t text) else None
  | _ => None
  end.
Definition sent (q : Z) (l : list (call * reply)) : list responseMsg := omap (msg_sent q) l.

(** How many messages a process has received from [q]. *)
Definition is_rcv (q : Z) (x : call * reply) : bool :=
  match x.1 with Cmsgrcv q' _ => q' =? q | _ => false end.
Definition got (q : Z) (tr : list event) : nat := length (filter (is_rcv q) (calls tr)).

(** The queue [q] delivers [ms], in order. *)
Class Delivers `{os} (q : Z) (ms : list responseMsg) := delivers :
  ∀ tr m, ms !! got q tr = Some m →
    kern tr (Cmsgrcv q RESP_MSG_SIZE) = Reply (strlen (mdata m)) 0 (msg_bytes m) [].

(** A system where the client finds the server's queue [sv] and gets [q]. *)
Record ClientSystem (K : os) (sv q : Z) := {
  cs_server : ∀ tr, rv (kern tr (Cmsgget SERVER_KEY 128)) = sv;
  cs_client : ∀ tr, rv (kern tr (Cmsgget IPC_PRIVATE QUEUE_MODE)) = q;
  cs_found : sv ≠ -1;
  cs_created : q ≠ -1;
  cs_atexit : ∀ tr, rv (kern tr Catexit) = 0;
  cs_sends : ∀ tr t, rv (kern tr (Cmsgsnd sv 1 t)) ≠ -1;
  cs_removes : ∀ tr, rv (kern tr (Cmsgctl_rmid q)) ≠ -1 }.

Lemma sent_app q a b : sent q (a ++ b) = sent q a ++ sent q b.
Proof. unfold sent. apply omap_app. Qed.

Lemma sent_snoc q l t x r : rv r ≠ -1 → sent q (l ++ [(Cmsgsnd q t x, r)]) = sent q l ++ [ResponseMsg t x].
Proof.
  intros Hr. rewrite sent_app. f_equal. unfold sent. simpl. by rewrite Z.eqb_refl, (proj2 (Z.eqb_neq _ _) Hr).
Qed.

Lemma msg_roundtrip m : - 2 ^ 63 <= mtype m < 2 ^ 63 → msg_of (msg_bytes m) = m.
Proof.
  intros Hm. destruct m as [t d]. unfold msg_of, msg_bytes. cbn [mtype mdata] in *.
  rewrite take_app_length', drop_app_length' by done. rewrite le_le64. f_equal.
  unfold wrap_s. rewrite Zplus_mod_idemp_l. change (64 - 1) with 63. rewrite Z.mod_small; [lia|].
  change (2 ^ 64) with (2 * 2 ^ 63). lia.
Qed.

Lemma file_request_roundtrip client path buf :
  INT_MIN <= client <= INT_MAX → (NUL ∉ path) → strlen path < PATH_MAX →
  request_in (overlay (request_text (RequestMsg client path)) buf) = Some (RequestMsg client path).
Proof.
  intros Hc Hp Hl. unfold request_in, overlay, request_text. cbn [clientId pathname].
  unfold strlen, PATH_MAX in *. rewrite <-!app_assoc. rewrite drop_app_length' by done.
  destruct (Z.to_nat 4096 - length path)%nat as [|k] eqn:E; [lia|]. cbn [replicate app].
  rewrite decide_True.
  - f_equal. f_equal; [|by apply c_str_text]. apply int_of_le32. done.
  - apply elem_of_app. right. apply elem_of_cons. by left.
Qed.

Section Sender.
Context {S : Type} `{os} (fd client : Z) (content : cstr) (budget : nat) `{!Source fd content budget}.
Context (Hsend : ∀ tr t x, rv (kern tr (Cmsgsnd client t x)) ≠ -1).
Implicit Types s : st S.

(** What was read so far is what was sent so far, in pieces. *)
Definition sent_so_far s s1 : Prop :=
  ∃ l chunks, acted s l s1 ∧ sent client l = ResponseMsg RESP_MT_DATA <$> chunks ∧ Forall (.≠ []) chunks ∧
    concat chunks = taken fd (trace s1) ∧ taken fd (trace s1) `prefix_of` content.

Lemma wp_send_file fuel s :
  taken fd (trace s) = [] → (length content < fuel)%nat →
  wp (send_file fuel fd client)
    (λ _ s', sent_so_far s s' ∧ ((∀ tr n, rv (kern tr (Cread fd n)) ≠ -1) → taken fd (trace s') = content))
    (λ _ _, False) s.
Proof using All.
  intros Ht Hf. unfold send_file.
  apply (wp_loop (λ _ s1, sent_so_far s s1) (λ _ s1, length content - length (taken fd (trace s1)))%nat).
  - exists [], []. split; [apply acted_refl|]. split; [done|]. split; [by apply Forall_nil_2|]. rewrite Ht.
    split; [done|apply prefix_nil].
  - rewrite Ht. simpl. lia.
  - intros [] s1 (l & chunks & Ha & Hl & Hne & Hcat & Hpre). apply wp_bind.
    eapply wp_act; [exact Ha|done|]. intros r s2 Hr Ha2 _ Ht2.
    pose proof (source_reply (trace s1) RESP_MSG_SIZE ltac:(done)) as Hsrc. cbv zeta in Hsrc. rewrite <-Hr in Hsrc.
    pose proof (taken_snoc_read fd (trace s1) RESP_MSG_SIZE r) as Htk. rewrite <-Ht2 in Htk.
    destruct (Z.ltb_spec 0 (rv r)) as [Hpos|Hpos].
    + destruct Hsrc as [[? _]|(Hrv & _ & Hd & _)]; [lia|].
      assert (take (Z.to_nat (rv r)) (rdata r) = rdata r) as Hdata by (apply take_ge; unfold strlen in Hrv; lia).
      rewrite Hdata. apply wp_bind. eapply wp_act; [exact Ha2|done|]. intros m s3 Hm Ha3 _ Ht3. apply wp_ret.
      destruct (Z.eqb_spec (rv m) (-1)) as [E|E]; [by rewrite Hm in E; destruct (Hsend _ _ _ E)|].
      assert (taken fd (trace s3) = taken fd (trace s1) ++ rdata r) as Htk3.
      { rewrite Ht3, taken_app, Htk. apply app_nil_r. }
      pose proof (prefix_next _ _ _ Hpre Hd) as Hpre3. split.
      * exists ((l ++ [(Cread fd RESP_MSG_SIZE, r)]) ++ [(Cmsgsnd client RESP_MT_DATA (rdata r), m)]), (chunks ++ [rdata r]).
        split; [exact Ha3|]. rewrite Htk3. split_and!; [| | |done].
        -- rewrite sent_snoc by done. rewrite sent_app, Hl, fmap_app. f_equal. apply app_nil_r.
        -- apply Forall_app. split; [done|]. apply Forall_cons_2; [|by apply Forall_nil_2]. intros En.
           rewrite En in Hrv. unfold strlen in Hrv. simpl in Hrv. lia.
        -- rewrite concat_app, Hcat. simpl. by rewrite app_nil_r.
      * rewrite Htk3, length_app. apply prefix_length in Hpre3. rewrite length_app in Hpre3. unfold strlen in Hrv. lia.
    + apply wp_ret. rewrite app_nil_r in Htk. split.
      * exists (l ++ [(Cread fd RESP_MSG_SIZE, r)]), chunks. split; [exact Ha2|]. rewrite Htk. split_and!; [|done..].
        rewrite sent_app, Hl. apply app_nil_r.
      * intros Hok. destruct Hsrc as [[E _]|(Hrv & _ & _ & Hend)]; [by rewrite Hr in E; destruct (Hok _ _ E)|].
        unfold strlen in Hrv. rewrite Htk. destruct Hpre as [rest Erest]. rewrite Erest, drop_app_length in Hend.
        rewrite (Hend ltac:(lia)), app_nil_r in Erest. done.
Qed.
End Sender.

Lemma got_snoc q tr c r : got q (tr ++ [Esys c r]) = (got q tr + if is_rcv q (c, r) then 1 else 0)%nat.
Proof.
  unfold got. rewrite calls_snoc_sys, filter_app, length_app. f_equal. unfold filter. simpl.
  case_decide as Hd; destruct (is_rcv q (c, r)); done.
Qed.

Definition file_of (chunks : list cstr) : list responseMsg :=
  (ResponseMsg RESP_MT_DATA <$> chunks) ++ [ResponseMsg RESP_MT_END []].

Section Receiver.
Context {S : Type} `{os} (q : Z) (ms : list responseMsg) `{!Delivers q ms}.
Implicit Types s : st S.

Lemma wp_receive m s (Q : responseMsg * Z → st S → Prop) E :
  ms !! got q (trace s) = Some m → - 2 ^ 63 <= mtype m < 2 ^ 63 →
  (∀ s', got q (trace s') = Datatypes.S (got q (trace s)) → Q (m, strlen (mdata m)) s') → wp (receive q) Q E s.
Proof using All.
  intros Hm Ht HQ. unfold receive. apply wp_bind, wp_call. intros r s1 Hr _ _ _ Ht1.
  rewrite (delivers (trace s) m Hm) in Hr. subst r. cbn [rv rdata].
  destruct (Z.eqb_spec (strlen (mdata m)) (-1)) as [E1|_]; [pose proof (strlen_nonneg (mdata m)); lia|].
  rewrite msg_roundtrip by done. apply wp_ret, HQ. rewrite Ht1, got_snoc. unfold is_rcv. cbn [fst]. rewrite Z.eqb_refl. lia.
Qed.

Definition receiving (x : Z * Z * Z) : M S (Z * Z * Z + Z * Z) :=
  let '(mt, totBytes, numMsgs) := x in
  if mt =? RESP_MT_DATA then
    '(resp, msgLen) ← receive q;
    if numMsgs =? INT_MAX then stop_with (Undefined "signed overflow") else
    mret (inl (mtype resp, totBytes + msgLen, numMsgs + 1))
  else mret (inr (totBytes, numMsgs)).

Lemma wp_receiving chunks fuel tot num s (Q : Z * Z → st S → Prop) E :
  drop (got q (trace s)) ms = file_of chunks → (length chunks + 1 < fuel)%nat →
  num + Z.of_nat (length chunks) + 1 <= INT_MAX →
  (∀ s', Q (tot + strlen (concat chunks), num + Z.of_nat (length chunks) + 1) s') →
  wp (loop fuel receiving (RESP_MT_DATA, tot, num)) Q E s.
Proof using All.
  revert fuel tot num s; induction chunks as [|c chunks IH]; intros fuel tot num s Hms Hf Hn HQ;
    (destruct fuel as [|fuel]; [lia|]); cbn [loop receiving length] in *.
  - assert (ms !! got q (trace s) = Some (ResponseMsg RESP_MT_END [])) as Hm.
    { rewrite <-(Nat.add_0_r (got q (trace s))), <-lookup_drop, Hms. done. }
    apply wp_bind, wp_bind. eapply wp_receive; [exact Hm|done|]. intros s1 _.
    rewrite (proj2 (Z.eqb_neq num INT_MAX)) by lia. apply wp_ret. cbn [mtype mdata].
    destruct fuel as [|fuel]; [lia|]. cbn [loop receiving]. apply wp_bind, wp_ret, wp_ret. replace (num + 1) with (num + Z.of_nat 0 + 1) by lia. apply HQ.
  - assert (ms !! got q (trace s) = Some (ResponseMsg RESP_MT_DATA c)) as Hm.
    { rewrite <-(Nat.add_0_r (got q (trace s))), <-lookup_drop, Hms. done. }
    apply wp_bind, wp_bind. eapply wp_receive; [exact Hm|done|]. intros s1 Hg.
    rewrite (proj2 (Z.eqb_neq num INT_MAX)) by lia. apply wp_ret. cbn [mtype mdata]. apply IH; [|lia|lia|].
    + rewrite Hg, <-Nat.add_1_r, <-drop_drop, Hms. done.
    + intros s'. replace (tot + strlen c + strlen (concat chunks)) with (tot + strlen (concat (c :: chunks))).
      { replace (num + 1 + Z.of_nat (length chunks) + 1) with (num + Z.of_nat (Datatypes.S (length chunks)) + 1) by lia. apply HQ. }
      simpl. rewrite strlen_app. lia.
Qed.

Definition received_text (bytes msgs : Z) : cstr :=
  str "Received " ++ dec bytes ++ str " bytes (" ++ dec msgs ++ str " messages)" ++ [NL].

Lemma wp_receive_file chunks fuel s E :
  drop (got q (trace s)) ms = file_of chunks → (length chunks < fuel)%nat →
  Z.of_nat (length chunks) + 1 <= INT_MAX →
  (∀ s', last (trace s') = Some (Eout Stdout (received_text (strlen (concat chunks)) (Z.of_nat (length chunks) + 1))) →
     E (Exit 0) s') →
  wp (receive_file fuel q) (λ _ _, False) E s.
Proof using All.
  intros Hms Hf Hn HE. unfold receive_file. apply wp_bind.
  destruct chunks as [|c chunks]; cbn [file_of fmap list_fmap app length] in *.
  - eapply (wp_receive (ResponseMsg RESP_MT_END [])); [|done|].
    { rewrite <-(Nat.add_0_r (got q (trace s))), <-lookup_drop, Hms. done. }
    intros s1 _. cbn. destruct fuel as [|fuel]; [lia|]. cbn [loop]. apply wp_bind, wp_bind, wp_ret, wp_ret, wp_bind, wp_emit, wp_stop.
    apply HE. cbn [trace]. apply last_snoc.
  - eapply (wp_receive (ResponseMsg RESP_MT_DATA c)); [|done|].
    { rewrite <-(Nat.add_0_r (got q (trace s))), <-lookup_drop, Hms. done. }
    intros s1 Hg. change (mtype (ResponseMsg RESP_MT_DATA c) =? RESP_MT_FAILURE) with false. cbn [mtype mdata].
    apply wp_bind. change (λ '(mt, totBytes, numMsgs), _) with receiving.
    apply (wp_receiving chunks); [by rewrite Hg, <-Nat.add_1_r, <-drop_drop, Hms|lia|lia|].
    intros s2. apply wp_bind, wp_emit, wp_stop, HE. cbn [trace]. rewrite last_snoc. f_equal. f_equal. unfold received_text.
    simpl concat. rewrite strlen_app. do 4 f_equal. f_equal. lia.
Qed.
End Receiver.

(** The client, from its start: it prints the size of the file and the number
    of messages, and its last call removes its queue. *)
Lemma wp_file_client_main {S} (K : os) sv q chunks fuel prog path (s : st S) :
  ClientSystem K sv q → Delivers q (file_of chunks) → trace s = [] →
  path ≠ str "--help" → strlen path < PATH_MAX → (length chunks < fuel)%nat → Z.of_nat (length chunks) + 1 <= INT_MAX →
  wp (file_client_main fuel [prog; path]) (λ _ _, False)
    (λ t s', t = Exit 0 ∧ ∃ tr r, trace s' = tr ++ [Eout Stdout (received_text (strlen (concat chunks)) (Z.of_nat (length chunks) + 1));
       Esys (Cmsgctl_rmid q) r]) s.
Proof.
  intros HK HD Ht Hh Hp Hf Hn. unfold file_client_main.
  rewrite (proj2 (streq_false path (str "--help"))) by done. cbn [when]. apply wp_bind, wp_ret.
  assert ((strlen path >? PATH_MAX - 1) = false) as -> by lia. cbn [when]. apply wp_bind, wp_ret.
  apply wp_bind, wp_call. intros r1 s1 Hr1 _ _ _ Ht1. rewrite Hr1, (cs_server _ _ _ HK), (proj2 (Z.eqb_neq _ _) (cs_found _ _ _ HK)).
  apply wp_bind, wp_call. intros r2 s2 Hr2 _ _ _ Ht2. rewrite Hr2, (cs_client _ _ _ HK), (proj2 (Z.eqb_neq _ _) (cs_created _ _ _ HK)).
  apply wp_bind, wp_call. intros r3 s3 Hr3 _ _ _ Ht3. rewrite Hr3, (cs_atexit _ _ _ HK). cbn [Z.eqb negb].
  eapply (wp_at_exit _ _ _ _ (λ t s', t = Exit 0 ∧
    last (trace s') = Some (Eout Stdout (received_text (strlen (concat chunks)) (Z.of_nat (length chunks) + 1))))).
  - apply wp_bind, wp_call. intros r4 s4 Hr4 _ _ _ Ht4. rewrite Hr4, (proj2 (Z.eqb_neq _ _) (cs_sends _ _ _ HK _ _)).
    eapply (wp_receive_file q (file_of chunks) chunks); [|done|done|by intros s' ->].
    rewrite Ht4, Ht3, Ht2, Ht1, Ht, !got_snoc. done.
  - intros n s4 [[= ->] Hlast]. unfold removeQueue. apply wp_bind, wp_call. intros r5 s5 Hr5 _ _ _ Ht5.
    rewrite Hr5, (proj2 (Z.eqb_neq _ _) (cs_removes _ _ _ HK _)). cbn [when]. apply wp_ret. split; [done|].
    apply last_Some in Hlast as [tr Htr]. exists tr, r5. by rewrite Ht5, Htr, <-app_assoc.
  - intros t s4 [-> _] Hne. by destruct (Hne 0).
Qed.

Lemma length_le_concat (chunks : list cstr) : Forall (.≠ []) chunks → (length chunks <= length (concat chunks))%nat.
Proof. induction 1 as [|c l Hc _ IH]; simpl; [lia|]. rewrite length_app. destruct c; [done|]. simpl. lia. Qed.

(** C23: a file through the queues.  The text of a request, received into any
    buffer, is the request.  A server's child that can open the file and send
    sends it whole (or the part before a read that fails), in pieces of one
    read each, and an end message; and a client whose queue delivers what the
    child sent, on any system that gives it its queues, prints the number of
    bytes and of messages, removes its queue and exits with status 0. *)
Theorem file_transfer_correct {S S'} (Ks Kc : os) path client sv fd content budget buf fuel fuel' prog (s : st S) (c : st S') :
  INT_MIN <= client <= INT_MAX → (NUL ∉ path) → strlen path < PATH_MAX → path ≠ str "--help" →
  (∀ tr, rv (@kern Ks tr (Copen path 0 0)) = fd) → fd ≠ -1 → @Source Ks fd content budget → taken fd (trace s) = [] →
  (∀ tr t x, rv (@kern Ks tr (Cmsgsnd client t x)) ≠ -1) →
  (length content < fuel)%nat → (length content < fuel')%nat → strlen content < INT_MAX → trace c = [] →
  request_in (overlay (request_text (RequestMsg client path)) buf) = Some (RequestMsg client path) ∧
  ∃ s' l chunks, @serveRequest S Ks fuel (RequestMsg client path) s = (Ret tt, s') ∧ acted s l s' ∧
    sent client l = file_of chunks ∧ concat chunks `prefix_of` content ∧
    ((∀ tr n, rv (@kern Ks tr (Cread fd n)) ≠ -1) → concat chunks = content) ∧
    (@Delivers Kc client (sent client l) → ClientSystem Kc sv client →
     ∃ c' tr r, @file_client_main S' Kc fuel' [prog; path] c = (Stop (Exit 0), c') ∧
       trace c' = tr ++ [Eout Stdout (received_text (strlen (concat chunks)) (Z.of_nat (length chunks) + 1));
         Esys (Cmsgctl_rmid client) r]).
Proof.
  intros Hc Hp Hlen Hh Hopen Hfd Hsrc Ht Hsend Hf Hf' Hmax Htc. split; [by apply file_request_roundtrip|].
  assert (wp (@serveRequest S Ks fuel (RequestMsg client path)) (λ _ s', ∃ l chunks, acted s l s' ∧
    sent client l = file_of chunks ∧ Forall (.≠ []) chunks ∧ concat chunks `prefix_of` content ∧
    ((∀ tr n, rv (@kern Ks tr (Cread fd n)) ≠ -1) → concat chunks = content)) (λ _ _, False) s) as Hserve.
  { unfold serveRequest. apply wp_bind. eapply wp_act; [apply acted_refl|done|]. intros f s1 Hr1 Ha1 _ Ht1. cbn [app pathname clientId] in *.
    rewrite Hr1, Hopen, (proj2 (Z.eqb_neq fd (-1))) by done. apply wp_bind.
    eapply wp_mono; [apply (wp_send_file fd client content budget Hsend); [|done]| |done].
    - rewrite Ht1, taken_app, Ht. done.
    - intros [] s2 [(l & chunks & Ha2 & Hl & Hne & Hcat & Hpre) Hall]. apply wp_bind.
      eapply wp_act; [exact (acted_app _ _ _ _ _ Ha1 Ha2)|done|]. intros e s3 Hre Ha3 _ _. apply wp_ret.
      eexists _, chunks. split; [exact Ha3|]. rewrite Hcat. split_and!; [|done..].
      rewrite sent_snoc by (rewrite Hre; apply Hsend). unfold file_of. f_equal. rewrite <-Hl. by rewrite sent_app. }
  apply wp_run in Hserve as [([] & s' & Hrun & l & chunks & Ha & Hl & Hne & Hpre & Hall)|(? & ? & _ & [])].
  exists s', l, chunks. split_and!; [done..|]. intros HD HK. rewrite Hl in HD.
  pose proof (length_le_concat _ Hne) as Hcl. pose proof (prefix_length _ _ Hpre) as Hpl.
  pose proof (wp_file_client_main Kc sv client chunks fuel' prog path c HK HD Htc Hh Hlen ltac:(lia)
    ltac:(unfold strlen in Hmax; lia)) as Hcli.
  apply wp_run in Hcli as [(? & c' & _ & [])|(t & c' & Hrun' & -> & tr & r & Htr)]. by exists c', tr, r.
Qed.

(** A system that delivers [ms], and a whole transfer in pieces of four bytes. *)
Definition queue_os (ms : list responseMsg) : os := test_os (λ tr c,
  match c with
  | Cmsgrcv q _ =>
      match ms !! got q tr with
      | Some m => Reply (strlen (mdata m)) 0 (msg_bytes m) []
      | None => fail EINTR
      end
  | Cmsgget k _ => ok (if k =? IPC_PRIVATE then 5 else 3)
  | _ => ok 0
  end).

Lemma queue_os_delivers ms q : @Delivers (queue_os ms) q ms.
Proof. intros tr m Hm. cbn. by rewrite Hm. Qed.

Lemma queue_os_system ms : ClientSystem (queue_os ms) 3 5.
Proof. by constructor. Qed.

Lemma file_of_inj a b : file_of a = file_of b → a = b.
Proof.
  intros E. apply app_inv_tail in E. revert b E. induction a as [|x a IH]; intros [|y b] E; try done.
  injection E as -> E. f_equal. by apply IH.
Qed.

Definition hello_pieces : list cstr := [str "hell"; str "o wo"; str "rld"].

Lemma file_transfer_witness :
  ∃ c', @file_client_main unit (queue_os (file_of hello_pieces)) 20 [str "client"; str "/etc/motd"] (init tt) = (Stop (Exit 0), c') ∧
    Eout Stdout (received_text 11 4) ∈ trace c'.
Proof.
  set (Ks := chunked 0 (str "hello world") 4).
  destruct (file_transfer_correct (S:=unit) (S':=unit) Ks (queue_os (file_of hello_pieces)) (str "/etc/motd") 5 3 0 (str "hello world") 0 [] 20 20
      (str "client") (init tt) (init tt)) as (_ & s' & l & chunks & Hrun & [Ha _] & Hl & _ & Hcat & Hcli);
      [by vm_compute|by apply (bool_decide_unpack _)|by vm_compute|by vm_compute|done|done|by apply chunked_source; lia|done|done|simpl; lia|simpl; lia|by vm_compute|done|].
  assert (sent 5 l = file_of hello_pieces) as Hl'.
  { change (acts (trace s') = l) in Ha. rewrite <-Ha.
    change s' with (Ret tt, s').2. rewrite <-Hrun. by vm_compute. }
  destruct Hcli as (c' & tr & r & Hc & Htr); [rewrite Hl'; apply queue_os_delivers|apply queue_os_system|].
  exists c'. split; [exact Hc|]. rewrite Htr. apply elem_of_app. right. apply elem_of_cons. left.
  assert (chunks = hello_pieces) as -> by (apply file_of_inj; congruence).
  by vm_compute.
Defined.

(** The handler reaps children until none is left, and keeps errno for the
    code it interrupts. *)
Lemma grimReaper_keeps_errno {S} `{os} fuel (s : st S) :
  wlp (grimReaper fuel)
    (λ _ s', errno s' = errno s ∧ ∃ l r, acted s (l ++ [(Cwaitpid (-1) WNOHANG, r)]) s' ∧ rv r <= 0 ∧
       Forall (λ x, x.1 = Cwaitpid (-1) WNOHANG ∧ 0 < rv x.2) l)
    (λ _ _, False) (λ _, True) s.
Proof.
  unfold grimReaper. apply wlp_bind, wp_wlp, wp_get_errno. apply wlp_bind.
  apply (wlp_loop (λ _ s', ∃ l, acted s l s' ∧ Forall (λ x, x.1 = Cwaitpid (-1) WNOHANG ∧ 0 < rv x.2) l)); [|done|].
  { exists []. split; [apply acted_refl|by apply Forall_nil_2]. }
  intros [] s1 (l & Ha & Hl). apply wp_wlp, wp_bind. eapply wp_act; [exact Ha|done|]. intros r s2 _ Ha2 _ _. apply wp_ret.
  destruct (Z.ltb_spec 0 (rv r)) as [Hr|Hr].
  - eexists. split; [exact Ha2|]. apply Forall_app. split; [done|]. apply Forall_cons_2; [done|by apply Forall_nil_2].
  - apply wp_wlp, wp_set_errno. split; [done|]. exists l, r. split; [exact Ha2|done].
Qed.
