(* ===== verification/Cmsg.v ===== *)
(** Control messages of Unix sockets: the layout of a control buffer, with the
    macros of cmsg(3), and the functions that pass a descriptor from process to
    process (tlpi-book/sockets/scm_functions.c). *)
From S2P Require Import Prelude Sys ErrorFns SvmsgFile.

Definition SOL_SOCKET : Z := 1.
Definition SCM_RIGHTS : Z := 1.
Definition SCM_CREDENTIALS : Z := 2.

(** ** Control buffers

    A header is at a position of the buffer: its length (header included) in
    eight bytes, its level and type in four each, then the data. *)

Definition SIZEOF_CMSGHDR : Z := 16.
Definition CMSG_ALIGN (n : Z) : Z := (n + 7) / 8 * 8.
Definition CMSG_LEN (n : Z) : Z := CMSG_ALIGN SIZEOF_CMSGHDR + n.
Definition CMSG_SPACE (n : Z) : Z := CMSG_ALIGN n + CMSG_ALIGN SIZEOF_CMSGHDR.

Definition bytes_at (ctl : cstr) (p n : Z) : cstr := take (Z.to_nat n) (drop (Z.to_nat p) ctl).
Definition cmsg_len (ctl : cstr) (p : Z) : Z := le (bytes_at ctl p 8).
Definition cmsg_level (ctl : cstr) (p : Z) : Z := wrap_s 32 (le (bytes_at ctl (p + 8) 4)).
Definition cmsg_type (ctl : cstr) (p : Z) : Z := wrap_s 32 (le (bytes_at ctl (p + 12) 4)).
Definition CMSG_DATA (ctl : cstr) (p n : Z) : cstr := bytes_at ctl (p + SIZEOF_CMSGHDR) n.

Definition CMSG_FIRSTHDR (ctl : cstr) : option Z :=
  if SIZEOF_CMSGHDR <=? strlen ctl then Some 0 else None.

(** As glibc has it since 2.37: there must be room for this message, its
    padding and one more header. *)
Definition CMSG_NXTHDR (ctl : cstr) (p : Z) : option Z :=
  let len := cmsg_len ctl p in
  if len <? SIZEOF_CMSGHDR then None else
  let size_needed := SIZEOF_CMSGHDR + (CMSG_ALIGN len - len) in
  if (strlen ctl - p <? size_needed) || (strlen ctl - p - size_needed <? len) then None
  else Some (p + CMSG_ALIGN len).

(** The stores through a header: its fields and its data. *)
Definition store (ctl : cstr) (p : Z) (bs : cstr) : cstr :=
  take (Z.to_nat p) ctl ++ bs ++ drop (Z.to_nat p + length bs) ctl.
Definition set_cmsg (ctl : cstr) (p level type : Z) (data : cstr) : cstr :=
  store ctl p (le64 (CMSG_LEN (strlen data)) ++ le32 level ++ le32 type ++ data).

(** The control data and the flags of a received message. *)
Definition control_of (size : Z) (r : reply) : cstr :=
  match rents r with (ctl, _) :: _ => take (Z.to_nat size) ctl | [] => [] end.
Definition msg_flags (r : reply) : Z := match rents r with (_, fl) :: _ => fl | [] => 0 end.

(** An array nobody has written to. *)
Definition garbage {S} `{os} (size : Z) : M S cstr :=
  r ← sys Cgarbage;
  mret (take (Z.to_nat size) (rdata r ++ replicate (Z.to_nat size) NUL)).

(** ** scm_functions.c *)

Section Functions.
Context {S : Type} `{os}.

Definition sendfd (sockfd fd : Z) : M S Z :=
  buf ← garbage (CMSG_SPACE 4);
  let ctl := set_cmsg buf 0 SOL_SOCKET SCM_RIGHTS (le32 fd) in
  r ← sys (Csendmsg sockfd (le32 12345) ctl);
  mret (if rv r =? -1 then -1 else 0).

Definition recvfd (sockfd : Z) : M S Z :=
  r ← sys (Crecvmsg sockfd 4 (CMSG_SPACE 4));
  if rv r =? -1 then mret (-1) else
  let ctl := control_of (CMSG_SPACE 4) r in
  match CMSG_FIRSTHDR ctl with
  | Some p =>
      if (cmsg_len ctl p =? CMSG_LEN 4) && (cmsg_level ctl p =? SOL_SOCKET) && (cmsg_type ctl p =? SCM_RIGHTS)
      then mret (wrap_s 32 (le (CMSG_DATA ctl p 4)))
      else set_errno EINVAL;; mret (-1)
  | None => set_errno EINVAL;; mret (-1)
  end.
End Functions.

(** ** What a control buffer carries *)

Record cmsg := Cmsg { level : Z; type : Z; data : cstr }.

Definition int (z : Z) : Prop := - 2 ^ 31 <= z < 2 ^ 31.
Definition cmsg_ok (m : cmsg) : Prop := int (level m) ∧ int (type m) ∧ strlen (data m) < 2 ^ 32.

Definition image (m : cmsg) : cstr := le64 (CMSG_LEN (strlen (data m))) ++ le32 (level m) ++ le32 (type m) ++ data m.

(** Messages one after the other, each padded to a multiple of eight bytes;
    the padding of the last one may be short. *)
Inductive carries : cstr → list cmsg → Prop :=
  | Carries_none : carries [] []
  | Carries_last m pad : cmsg_ok m → strlen (data m) + strlen pad <= CMSG_ALIGN (strlen (data m)) → carries (image m ++ pad) [m]
  | Carries_more m pad ctl ms : cmsg_ok m → strlen (data m) + strlen pad = CMSG_ALIGN (strlen (data m)) →
      carries ctl ms → ms ≠ [] → carries (image m ++ pad ++ ctl) (m :: ms).

(** The messages [ms] are at position [p]. *)
Definition carries_at (ctl : cstr) (p : Z) (ms : list cmsg) : Prop :=
  ∃ pre rest, ctl = pre ++ rest ∧ p = strlen pre ∧ carries rest ms.

Lemma CMSG_ALIGN_bounds n : n <= CMSG_ALIGN n < n + 8.
Proof. unfold CMSG_ALIGN. pose proof (Z.div_mod (n + 7) 8 ltac:(lia)). pose proof (Z.mod_pos_bound (n + 7) 8 ltac:(lia)). lia. Qed.

Lemma CMSG_ALIGN_len n : CMSG_ALIGN (CMSG_LEN n) = 16 + CMSG_ALIGN n.
Proof.
  unfold CMSG_LEN. change (CMSG_ALIGN SIZEOF_CMSGHDR) with (2 * 8). unfold CMSG_ALIGN.
  replace (2 * 8 + n + 7) with (n + 7 + 2 * 8) by lia. rewrite Z.div_add by lia. lia.
Qed.

Lemma length_image m : length (image m) = (16 + length (data m))%nat.
Proof. done. Qed.

Lemma bytes_at_app pre a b p n : p = strlen pre → Z.to_nat n = length a → bytes_at (pre ++ a ++ b) p n = a.
Proof. intros -> Hn. unfold bytes_at, strlen. by rewrite Nat2Z.id, drop_app_length, Hn, take_app_length. Qed.

Lemma wrap_s_modulus w z : 0 < w → wrap_s w (z mod 2 ^ w) = wrap_s w z.
Proof. intros Hw. unfold wrap_s. by rewrite Zplus_mod_idemp_l. Qed.

Lemma le_int z : int z → wrap_s 32 (le (le32 z)) = z.
Proof. intros [H1 H2]. rewrite le_le32, wrap_s_modulus by done. by apply wrap_s_id. Qed.

(** What the macros read of a header. *)
Lemma read_header pre m rest : cmsg_ok m →
  let ctl := pre ++ image m ++ rest in let p := strlen pre in
  cmsg_len ctl p = CMSG_LEN (strlen (data m)) ∧ cmsg_level ctl p = level m ∧ cmsg_type ctl p = type m ∧
  CMSG_DATA ctl p (strlen (data m)) = data m.
Proof.
  intros (Hl & Ht & Hd). cbv zeta. set (len := le64 (CMSG_LEN (strlen (data m)))).
  assert (∀ k x y, image m = k ++ x ++ y → ∀ q n, q = strlen pre + strlen k → Z.to_nat n = length x → bytes_at (pre ++ image m ++ rest) q n = x) as Hat.
  { intros k x y E q n Hq Hn. rewrite E. replace (pre ++ (k ++ x ++ y) ++ rest) with ((pre ++ k) ++ x ++ (y ++ rest)) by by rewrite <-!app_assoc.
    apply bytes_at_app; [|done]. rewrite Hq. unfold strlen. rewrite length_app. lia. }
  unfold cmsg_len, cmsg_level, cmsg_type, CMSG_DATA.
  rewrite (Hat [] len (le32 (level m) ++ le32 (type m) ++ data m)) by (done || (change (strlen []) with 0; lia)).
  rewrite (Hat len (le32 (level m)) (le32 (type m) ++ data m)) by done.
  rewrite (Hat (len ++ le32 (level m)) (le32 (type m)) (data m)) by done.
  rewrite (Hat (len ++ le32 (level m) ++ le32 (type m)) (data m) []) by (done || (unfold strlen; by rewrite Nat2Z.id) || by rewrite app_nil_r).
  split_and!; [|by apply le_int|by apply le_int|done].
  unfold len. rewrite le_le64, Z.mod_small; [done|]. unfold CMSG_LEN. change (CMSG_ALIGN SIZEOF_CMSGHDR) with 16. unfold strlen in *. lia.
Qed.

Lemma first_header ctl ms : carries ctl ms → CMSG_FIRSTHDR ctl = match ms with [] => None | _ => Some 0 end.
Proof.
  unfold CMSG_FIRSTHDR. intros [|m pad Hm Hp|m pad rest ms' Hm Hp Hc _]; [done| |];
    rewrite (proj2 (Z.leb_le _ _)); try done; unfold strlen, SIZEOF_CMSGHDR; rewrite !length_app, length_image; lia.
Qed.

Lemma carries_length ctl m ms : carries ctl (m :: ms) → CMSG_LEN (strlen (data m)) <= strlen ctl.
Proof.
  intros Hc. unfold CMSG_LEN. change (CMSG_ALIGN SIZEOF_CMSGHDR) with 16.
  inversion Hc; subst; unfold strlen; rewrite !length_app, length_image; lia.
Qed.

(** CMSG_NXTHDR goes from each message to the next, and stops after the last. *)
Lemma next_header ctl p m ms : carries_at ctl p (m :: ms) →
  match ms with
  | [] => CMSG_NXTHDR ctl p = None
  | _ => let q := p + CMSG_SPACE (strlen (data m)) in CMSG_NXTHDR ctl p = Some q ∧ carries_at ctl q ms
  end.
Proof.
  intros (pre & rest & -> & -> & Hc). unfold CMSG_NXTHDR, CMSG_SPACE. change (CMSG_ALIGN SIZEOF_CMSGHDR) with 16.
  pose proof (CMSG_ALIGN_len (strlen (data m))) as Hal. unfold SIZEOF_CMSGHDR. set (d := strlen (data m)) in *.
  assert (CMSG_LEN d = 16 + d) as Hlen by done. assert (0 <= d) by apply strlen_nonneg.
  inversion Hc as [|m' pad Hm Hp|m' pad ctl' ms' Hm Hp Hc' Hne]; subst m'.
  - subst rest ms. destruct (read_header pre m pad Hm) as (-> & _). fold d. rewrite Hal, Hlen.
    rewrite (proj2 (Z.ltb_ge _ _)) by lia.
    rewrite (proj2 (Z.ltb_lt (strlen (pre ++ image m ++ pad) - strlen pre - (16 + (16 + CMSG_ALIGN d - (16 + d)))) (16 + d))); [by rewrite orb_true_r|].
    unfold d, strlen in *. rewrite !length_app, length_image. lia.
  - subst rest ms'. destruct (read_header pre m (pad ++ ctl') Hm) as (-> & _). fold d. rewrite Hal, Hlen.
    destruct ms as [|m1 ms]; [done|]. pose proof (carries_length _ _ _ Hc') as Hl. unfold CMSG_LEN in Hl. change (CMSG_ALIGN SIZEOF_CMSGHDR) with 16 in Hl.
    assert (strlen (pre ++ image m ++ pad ++ ctl') - strlen pre = 16 + CMSG_ALIGN d + strlen ctl') as ->
      by (unfold d, strlen in *; rewrite !length_app, length_image; lia).
    pose proof (strlen_nonneg (data m1)). rewrite !(proj2 (Z.ltb_ge _ _)) by lia. cbn [orb]. split; [f_equal; lia|].
    exists (pre ++ image m ++ pad), ctl'. split; [by rewrite <-!app_assoc|]. split; [|done].
    unfold d, strlen in *. rewrite !length_app, length_image. lia.
Qed.

Lemma first_at ctl ms : carries ctl ms → carries_at ctl 0 ms.
Proof. intros Hc. by exists [], ctl. Qed.

Lemma header_at ctl p m ms : carries_at ctl p (m :: ms) →
  cmsg_ok m ∧ cmsg_len ctl p = CMSG_LEN (strlen (data m)) ∧ cmsg_level ctl p = level m ∧ cmsg_type ctl p = type m ∧
  CMSG_DATA ctl p (strlen (data m)) = data m.
Proof.
  intros (pre & rest & -> & -> & Hc). inversion Hc as [|m' pad Hm Hp|m' pad ctl' ms' Hm Hp Hc' Hne]; subst; (split; [done|]); by apply read_header.
Qed.

(** The headers of a buffer, as the macros walk them: their positions. *)
Fixpoint walk (fuel : nat) (ctl : cstr) (h : option Z) : list Z :=
  match fuel, h with
  | Datatypes.S fuel, Some p => p :: walk fuel ctl (CMSG_NXTHDR ctl p)
  | _, _ => []
  end.

Definition cmsg_at (ctl : cstr) (p : Z) : cmsg :=
  Cmsg (cmsg_level ctl p) (cmsg_type ctl p) (CMSG_DATA ctl p (cmsg_len ctl p - CMSG_LEN 0)).

(** A buffer with these messages, each with its padding. *)
Definition control (ms : list cmsg) : cstr :=
  concat ((λ m, image m ++ replicate (Z.to_nat (CMSG_ALIGN (strlen (data m)) - strlen (data m))) NUL) <$> ms).

Lemma carries_control ms : Forall cmsg_ok ms → carries (control ms) ms.
Proof.
  unfold control. induction 1 as [|m ms Hm Hms IH]; [constructor|]. cbn [fmap list_fmap concat].
  pose proof (CMSG_ALIGN_bounds (strlen (data m))) as Hb.
  assert (strlen (replicate (Z.to_nat (CMSG_ALIGN (strlen (data m)) - strlen (data m))) NUL) = CMSG_ALIGN (strlen (data m)) - strlen (data m)) as Hp
    by (unfold strlen at 1; rewrite length_replicate; lia).
  destruct ms as [|m1 ms].
  - cbn [fmap list_fmap concat]. rewrite app_nil_r. apply Carries_last; [done|lia].
  - rewrite <-app_assoc. apply Carries_more; [done|lia|done|done].
Qed.

Lemma walk_carries fuel ctl p ms : (length ms < fuel)%nat → carries_at ctl p ms → ms ≠ [] → cmsg_at ctl <$> walk fuel ctl (Some p) = ms.
Proof.
  revert p fuel. induction ms as [|m ms IH]; intros p fuel Hf Hc Hne; [done|]. destruct fuel as [|fuel]; [cbn in Hf; lia|]. cbn [length] in Hf.
  cbn [walk fmap list_fmap]. destruct (header_at _ _ _ _ Hc) as (_ & H1 & H2 & H3 & H4). pose proof (next_header _ _ _ _ Hc) as Hn.
  f_equal.
  - unfold cmsg_at. rewrite H1, H2, H3. replace (CMSG_LEN (strlen (data m)) - CMSG_LEN 0) with (strlen (data m)) by (unfold CMSG_LEN; lia).
    rewrite H4. by destruct m.
  - destruct ms as [|m1 ms].
    + rewrite Hn. by destruct fuel.
    + destruct Hn as [-> Hn]. by apply IH; [lia| |].
Qed.

(** Messages laid out in a control buffer are found again by walking it
    with CMSG_FIRSTHDR and CMSG_NXTHDR: all of them, in order, with their level,
    type and data. *)
Theorem control_roundtrip ms fuel :
  Forall cmsg_ok ms → (length ms < fuel)%nat → cmsg_at (control ms) <$> walk fuel (control ms) (CMSG_FIRSTHDR (control ms)) = ms.
Proof.
  intros Hms Hf. pose proof (carries_control _ Hms) as Hc. rewrite (first_header _ _ Hc).
  destruct ms as [|m ms]; [by destruct fuel|]. by apply walk_carries; [done|apply first_at|].
Qed.

(** ** Descriptors *)

Definition rights (fds : list Z) : cmsg := Cmsg SOL_SOCKET SCM_RIGHTS (concat (le32 <$> fds)).

(** The descriptors in the data of a message. *)
Fixpoint ints (bs : cstr) : list Z :=
  match bs with
  | a :: b :: c :: d :: bs => wrap_s 32 (le [a; b; c; d]) :: ints bs
  | _ => []
  end.

Lemma ints_le32 fds : Forall int fds → ints (concat (le32 <$> fds)) = fds.
Proof. induction 1 as [|z fds Hz _ IH]; [done|]. cbn [fmap list_fmap concat app le32 ints]. rewrite IH. f_equal. by apply le_int. Qed.

Lemma strlen_le32s fds : strlen (concat (le32 <$> fds)) = 4 * Z.of_nat (length fds).
Proof. unfold strlen. induction fds as [|z fds IH]; [done|]. cbn [fmap list_fmap concat]. rewrite length_app. cbn [length]. change (length (le32 z)) with 4%nat. lia. Qed.

Lemma rights_ok fds : Z.of_nat (length fds) < 2 ^ 29 → cmsg_ok (rights fds).
Proof. intros Hl. split; [done|]. split; [done|]. cbn [data rights]. rewrite strlen_le32s. lia. Qed.

Section Specs.
Context {S : Type} `{os}.
Implicit Types s : st S.

Lemma store_all buf bs : (length bs <= length buf)%nat → store buf 0 bs = bs ++ drop (length bs) buf.
Proof using. done. Qed.

(** What sendfd sends. *)
Definition fd_message (fd : Z) (ctl : cstr) : Prop := strlen ctl = CMSG_SPACE 4 ∧ carries ctl [rights [fd]].

Lemma set_rights buf fd : strlen buf = CMSG_SPACE 4 → fd_message fd (set_cmsg buf 0 SOL_SOCKET SCM_RIGHTS (le32 fd)).
Proof using.
  intros Hb. change (CMSG_SPACE 4) with 24 in Hb. unfold strlen in Hb. unfold set_cmsg.
  assert (length (drop 20 buf) = 4%nat) as Hd by (rewrite length_drop; lia).
  change (store _ _ _) with (image (rights [fd]) ++ drop 20 buf). split.
  - unfold strlen. rewrite length_app, Hd. done.
  - apply Carries_last; [by apply rights_ok|]. unfold strlen. rewrite Hd. done.
Qed.

Lemma wp_garbage size s (Q : cstr → st S → Prop) E :
  (∀ g s', strlen (take (Z.to_nat size) (rdata g ++ replicate (Z.to_nat size) NUL)) = Z.max 0 size → acted s [(Cgarbage, g)] s' →
     Q (take (Z.to_nat size) (rdata g ++ replicate (Z.to_nat size) NUL)) s') → wp (garbage size) Q E s.
Proof using.
  intros HQ. unfold garbage. apply wp_bind. eapply wp_act; [apply acted_refl|done|]. intros g s1 _ H1 _ _. apply wp_ret, HQ; [|done].
  unfold strlen. rewrite length_take, length_app, length_replicate. lia.
Qed.

Lemma wp_sendfd sockfd fd s (Q : Z → st S → Prop) E :
  (∀ g ctl r s', acted s [(Cgarbage, g); (Csendmsg sockfd (le32 12345) ctl, r)] s' → fd_message fd ctl → (rv r = -1 → errno s' = rerr r) →
     Q (if rv r =? -1 then -1 else 0) s') → wp (sendfd sockfd fd) Q E s.
Proof using.
  intros HQ. unfold sendfd. apply wp_bind, wp_garbage. intros g s1 Hg H1. apply wp_bind. eapply wp_act; [exact H1|done|].
  intros r s2 _ H2 He _. apply wp_ret. eapply HQ; [exact H2| |done]. apply set_rights. rewrite Hg. done.
Qed.

(** What recvfd makes of the control data it gets. *)
Definition fd_in (ctl : cstr) (z : Z) : Prop :=
  ∃ p, CMSG_FIRSTHDR ctl = Some p ∧ cmsg_len ctl p = CMSG_LEN 4 ∧ cmsg_level ctl p = SOL_SOCKET ∧ cmsg_type ctl p = SCM_RIGHTS ∧
    z = wrap_s 32 (le (CMSG_DATA ctl p 4)).

Lemma wp_recvfd sockfd s (Q : Z → st S → Prop) E :
  (∀ r s' z, r = kern (trace s) (Crecvmsg sockfd 4 (CMSG_SPACE 4)) → acted s [(Crecvmsg sockfd 4 (CMSG_SPACE 4), r)] s' →
     (rv r = -1 ∧ z = -1 ∧ errno s' = rerr r ∨
      rv r ≠ -1 ∧ fd_in (control_of (CMSG_SPACE 4) r) z ∨
      rv r ≠ -1 ∧ (¬ ∃ z, fd_in (control_of (CMSG_SPACE 4) r) z) ∧ z = -1 ∧ errno s' = EINVAL) → Q z s') →
  wp (recvfd sockfd) Q E s.
Proof using.
  intros HQ. unfold recvfd. apply wp_bind. eapply wp_act; [apply acted_refl|done|]. intros r s1 Hr H1 He _. cbn [app] in H1.
  destruct (Z.eqb_spec (rv r) (-1)) as [E1|E1]; [apply wp_ret, HQ with r; auto 6|].
  assert (¬ (∃ z, fd_in (control_of (CMSG_SPACE 4) r) z) → wp (set_errno EINVAL;; mret (-1)) Q E s1) as Hbad.
  { intros Hno. apply wp_bind, wp_set_errno, wp_ret, HQ with r; [done|exact H1|]. right; right. auto. }
  destruct (CMSG_FIRSTHDR _) as [p|] eqn:Ep.
  - destruct (_ && _ && _) eqn:Ec.
    + apply andb_true_iff in Ec as [[Hl%Z.eqb_eq Hv%Z.eqb_eq]%andb_true_iff Ht%Z.eqb_eq]. apply wp_ret, HQ with r; [done|done|].
      right; left. split; [done|]. by exists p.
    + apply Hbad. intros (z & q & Hq & Hl & Hv & Ht & _). rewrite Ep in Hq. injection Hq as <-. by rewrite Hl, Hv, Ht in Ec.
  - apply Hbad. intros (z & q & Hq & _). by rewrite Ep in Hq.
Qed.

Lemma fd_in_rights ctl fd z : int fd → carries ctl [rights [fd]] → fd_in ctl z → z = fd.
Proof using.
  intros Hfd Hc (p & Hp & _ & _ & _ & ->). rewrite (first_header _ _ Hc) in Hp. injection Hp as <-.
  destruct (header_at _ _ _ _ (first_at _ _ Hc)) as (_ & _ & _ & _ & H4). change (strlen (data (rights [fd]))) with 4 in H4. rewrite H4.
  cbn [rights data fmap list_fmap concat]. rewrite app_nil_r. by apply le_int.
Qed.

(** A buffer determines the descriptors in it. *)
Lemma rights_unique ctl a b : Forall int a → Forall int b → carries ctl [rights a] → carries ctl [rights b] → b = a.
Proof using.
  intros Ha Hb Hca Hcb. destruct (header_at _ _ _ _ (first_at _ _ Hca)) as (_ & E1 & _ & _ & E2).
  destruct (header_at _ _ _ _ (first_at _ _ Hcb)) as (_ & E3 & _ & _ & E4).
  assert (strlen (data (rights b)) = strlen (data (rights a))) as Hs by (rewrite E1 in E3; unfold CMSG_LEN in E3; lia).
  rewrite Hs, E2 in E4. apply (f_equal ints) in E4. cbn [rights data] in E4. by rewrite !ints_le32 in E4.
Qed.

Lemma rights_fd_in ctl fd : carries ctl [rights [fd]] → ∃ z, fd_in ctl z.
Proof using.
  intros Hc. eexists. exists 0. rewrite (first_header _ _ Hc). destruct (header_at _ _ _ _ (first_at _ _ Hc)) as (_ & H1 & H2 & H3 & _). auto.
Qed.
End Specs.

(** A descriptor passed with sendfd and recvfd, from a process to another on
    any two systems.  sendfd sends four bytes and a control message with the
    descriptor, whatever its uninitialised buffer holds; its result is that of
    the call.  When the message that recvfd gets carries the descriptors of the
    one sent, each as the receiver's descriptor for the same open file, recvfd
    returns that descriptor. *)
Theorem fd_passing {S S'} (Ks Kr : os) sock sock' fd (install : Z → Z) (s : st S) (s' : st S') :
  int fd → int (install fd) →
  ∃ g ctl r s1, @sendfd S Ks sock fd s = (Ret (if rv r =? -1 then -1 else 0), s1) ∧
    acted s [(Cgarbage, g); (Csendmsg sock (le32 12345) ctl, r)] s1 ∧ carries ctl [rights [fd]] ∧
    let q := @kern Kr (trace s') (Crecvmsg sock' 4 (CMSG_SPACE 4)) in
    (rv q ≠ -1 → (∀ fds, Forall int fds → carries ctl [rights fds] → carries (control_of (CMSG_SPACE 4) q) [rights (install <$> fds)]) →
      ∃ s2, @recvfd S' Kr sock' s' = (Ret (install fd), s2)).
Proof.
  intros Hfd Hint. destruct (wp_run _ (λ z s1, ∃ g ctl r, z = (if rv r =? -1 then -1 else 0) ∧
    acted s [(Cgarbage, g); (Csendmsg sock (le32 12345) ctl, r)] s1 ∧ carries ctl [rights [fd]]) (λ _ _, False) _
    (@wp_sendfd S Ks sock fd s _ _ (λ g ctl r s1 Ha Hm _, ex_intro _ g (ex_intro _ ctl (ex_intro _ r (conj eq_refl (conj Ha (proj2 Hm))))))))
    as [(z & s1 & Hrun & g & ctl & r & -> & Ha & Hc)|(? & ? & _ & [])].
  exists g, ctl, r, s1. split; [done|]. split; [done|]. split; [done|]. intros q Hq Hdel. specialize (Hdel [fd] (proj2 (Forall_singleton int fd) Hfd) Hc).
  assert (wp (@recvfd S' Kr sock') (λ z _, z = install fd) (λ _ _, False) s') as Hrecv.
  { apply (@wp_recvfd S' Kr sock'). intros q' s2 z -> _ [(E & _)|[(_ & Hin)|(_ & Hno & _)]];
      [destruct (Hq E)|exact (fd_in_rights _ _ _ Hint Hdel Hin)|destruct Hno; exact (rights_fd_in _ _ Hdel)]. }
  apply wp_run in Hrecv as [(z & s2 & Hr & ->)|(? & ? & _ & [])]. by exists s2.
Qed.

(** A system whose sockets give back the control data 24 bytes at a time, with
    descriptor 7 for descriptor 3. *)
Definition passing_os : os := test_os (λ _ c,
  match c with
  | Crecvmsg _ _ _ => Reply 4 0 (le32 12345) [(control [rights [7]], 0)]
  | _ => ok 4
  end).

Lemma fd_passing_witness :
  ∃ s2, @recvfd unit passing_os 9 (init tt) = (Ret 7, s2).
Proof.
  destruct (fd_passing passing_os passing_os 8 9 3 (λ z, z + 4) (init tt) (init tt) ltac:(done) ltac:(done)) as (g & ctl & r & s1 & _ & _ & Hc & H).
  apply H; [done|]. intros fds Hint Hfds. rewrite (rights_unique _ [3] _ ltac:(by apply Forall_singleton) Hint Hc Hfds).
  exact (carries_control [rights [7]] ltac:(by repeat constructor)).
Defined.
