(* ===== verification/Environ.v ===== *)
(** tlpi-book/proc/setenv.c: setenv and unsetenv over the list of environment
    strings, with putenv as the C library has it. *)
From S2P Require Import Prelude Sys ErrorFns SvmsgFile.

(** The pointers of [environ], without the null pointer at their end. *)
Abbreviation environ := (list cstr).

(** strncmp (e, name, len) == 0 && e[len] == '=' *)
Definition names (name e : cstr) : bool :=
  has_prefix name e && bool_decide (e !! length name = Some "="%char).

(** getenv(3): the value in the first string with the name. *)
Fixpoint env_get (name : cstr) (env : environ) : option cstr :=
  match env with
  | [] => None
  | e :: env => if names name e then Some (drop (Datatypes.S (length name)) e) else env_get name env
  end.

(** What putenv(3) makes of the list, given "name=value": the first string with
    that name is replaced, or the new one is added. *)
Fixpoint env_put (name es : cstr) (env : environ) : environ :=
  match env with
  | [] => [es]
  | e :: env => if names name e then es :: env else e :: env_put name es env
  end.

Definition bad_name (name : option cstr) : bool :=
  match name with
  | None | Some [] => true
  | Some name => bool_decide ("="%char ∈ name)
  end.

Section Functions.
Context `{os}.

(** The two loops: [ep] is an index, and an entry is removed by shifting those
    after it. *)
Definition remove_entry (ep : nat) (env : environ) : environ := take ep env ++ drop (Datatypes.S ep) env.

Definition unset_turn (name : cstr) (ep : nat) : M environ (nat + unit) :=
  env ← get;
  match env !! ep with
  | None => mret (inr tt)
  | Some e => if names name e then put (remove_entry ep env);; mret (inl ep) else mret (inl (Datatypes.S ep))
  end.

Definition unsetenv (fuel : nat) (name : option cstr) : M environ Z :=
  if bad_name name then set_errno EINVAL;; mret (-1) else
  loop fuel (unset_turn (default [] name)) 0%nat;;
  mret 0.

Definition setenv (fuel : nat) (name value : option cstr) (overwrite : Z) : M environ Z :=
  match bad_name name, name, value with
  | false, Some name, Some value =>
      env ← get;
      if bool_decide (is_Some (env_get name env)) && (overwrite =? 0) then mret 0 else
      unsetenv fuel (Some name);;
      m ← sys (Crealloc (strlen name + strlen value + 2));
      if rv m =? -1 then mret (-1) else
      let es := name ++ "="%char :: value in
      p ← sys (Cextern "putenv" [] es);
      if rv p =? 0 then upd (env_put name es);; mret 0 else mret (-1)
  | _, _, _ => set_errno EINVAL;; mret (-1)
  end.
End Functions.

(** ** The environment as a map *)

Lemma names_spec name e : names name e = true ↔ ∃ v, e = name ++ "="%char :: v.
Proof.
  unfold names. rewrite andb_true_iff, has_prefix_spec, bool_decide_eq_true. split.
  - intros [[k ->] He]. rewrite lookup_app_r, Nat.sub_diag in He by done. destruct k as [|c k]; [done|]. injection He as ->. eauto.
  - intros [v ->]. split; [by apply prefix_app_r|]. by rewrite lookup_app_r, Nat.sub_diag.
Qed.

(** The text has no '=': two names of one entry are equal. *)
Lemma names_unique a b e : "="%char ∉ a → "="%char ∉ b → names a e = true → names b e = true → a = b.
Proof.
  intros Ha Hb [v ->]%names_spec [w E]%names_spec. revert b w Hb E. induction a as [|c a IH]; intros [|d b] w Hb E; cbn in E.
  - done.
  - injection E as <- _. destruct Hb. by left.
  - injection E as -> _. destruct Ha. by left.
  - injection E as -> E. f_equal. eapply IH; [|by intros Hin; apply Hb; right|exact E]. intros Hin. apply Ha. by right.
Qed.

Definition unset (name : cstr) (env : environ) : environ := filter (λ e, names name e = false) env.

Lemma get_unset_same name env : env_get name (unset name env) = None.
Proof.
  unfold unset. induction env as [|e env IH]; [done|]. rewrite filter_cons. destruct (decide (names name e = false)) as [E|E]; [|done].
  cbn [env_get]. by rewrite E.
Qed.

Lemma get_unset_other name other env : "="%char ∉ name → "="%char ∉ other → other ≠ name → env_get other (unset name env) = env_get other env.
Proof.
  intros Hn Ho Hne. unfold unset. induction env as [|e env IH]; [done|]. rewrite filter_cons. cbn [env_get].
  destruct (decide (names name e = false)) as [E|E]; [cbn [env_get]; by rewrite IH|].
  destruct (names other e) eqn:Eo; [|done]. destruct (names name e) eqn:En; [|done]. by destruct (Hne (names_unique _ _ _ Ho Hn Eo En)).
Qed.

Lemma put_absent name es env : env_get name env = None → env_put name es env = env ++ [es].
Proof. induction env as [|e env IH]; [done|]. cbn [env_get env_put]. destruct (names name e); [done|]. intros H. cbn. by rewrite IH. Qed.

Lemma get_app name env e : env_get name (env ++ [e]) =
  match env_get name env with Some v => Some v | None => if names name e then Some (drop (Datatypes.S (length name)) e) else None end.
Proof. induction env as [|d env IH]; [done|]. cbn [app env_get]. by destruct (names name d). Qed.

Section Specs.
Context `{os}.
Implicit Types s : st environ.

Lemma remove_is ep env e : env !! ep = Some e →
  take ep (remove_entry ep env) = take ep env ∧ drop ep (remove_entry ep env) = drop (Datatypes.S ep) env ∧
  length (remove_entry ep env) = (length env - 1)%nat.
Proof using.
  intros He. pose proof (lookup_lt_Some _ _ _ He) as Hlt. unfold remove_entry. assert (length (take ep env) = ep) as Hl by (rewrite length_take; lia). split_and!.
  - by rewrite take_app_le, take_ge by lia.
  - by rewrite drop_app_ge, Hl, Nat.sub_diag by lia.
  - rewrite length_app, Hl, length_drop. lia.
Qed.

(** All strings with the name are removed; the others stay, in order. *)
Lemma wp_unset_loop fuel name s (Q : unit → st environ → Prop) (E : stop → st environ → Prop) :
  (length (glob s) < fuel)%nat → Q tt (St (unset name (glob s)) (errno s) (trace s)) →
  wp (loop fuel (unset_turn name) 0%nat) Q E s.
Proof using.
  intros Hf HQ. apply (wp_loop (λ ep s', (ep <= length (glob s'))%nat ∧ errno s' = errno s ∧ trace s' = trace s ∧ Forall (λ e, names name e = false) (take ep (glob s')) ∧
      take ep (glob s') ++ unset name (drop ep (glob s')) = unset name (glob s)) (λ ep s', length (glob s') - ep)%nat); [split_and!; done || lia|lia|].
  intros ep [env er tr] (Hle & He & Ht & Hdone & Hrest). cbn [glob errno trace] in *. unfold unset_turn. apply wp_bind, wp_get. cbn [glob].
  destruct (env !! ep) as [e|] eqn:Ee.
  - pose proof (lookup_lt_Some _ _ _ Ee) as Hlt. rewrite (drop_S _ _ _ Ee) in Hrest. unfold unset in Hrest at 1. rewrite filter_cons in Hrest.
    destruct (names name e) eqn:En.
    + apply wp_bind, wp_put, wp_ret. cbn [glob errno trace]. destruct (remove_is ep env e Ee) as (E1 & E2 & E3). rewrite E1, E2, E3. split; [|lia].
      split_and!; try done; lia.
    + apply wp_ret. cbn [glob errno trace]. split; [|lia]. rewrite (take_S_r _ _ _ Ee).
      split; [lia|]. split; [done|]. split; [done|]. split; [apply Forall_app; split; [done|by constructor]|].
      rewrite <-app_assoc. exact Hrest.
  - apply wp_ret. apply lookup_ge_None in Ee. rewrite drop_ge, app_nil_r, take_ge in Hrest by lia. subst. by cbn in HQ |- *.
Qed.

Lemma wp_unsetenv fuel name s (Q : Z → st environ → Prop) (E : stop → st environ → Prop) :
  (length (glob s) < fuel)%nat →
  (if bad_name name then Q (-1) (St (glob s) EINVAL (trace s)) else Q 0 (St (unset (default [] name) (glob s)) (errno s) (trace s))) →
  wp (unsetenv fuel name) Q E s.
Proof using.
  intros Hf HQ. unfold unsetenv. destruct (bad_name name); [exact HQ|]. apply wp_bind, wp_unset_loop; [done|]. exact HQ.
Qed.
End Specs.

(** C10: setenv acts on the environment as on a map from names to values: it
    refuses a name that is null, empty or has '=' in it, and a null value; it
    keeps a value that exists when it is not to overwrite; otherwise
    it returns 0 and the name has the value, in one string, or -1 when there
    is no memory, and then the name has no value any more.  No other name is
    touched, and it ends. *)
Theorem setenv_correct `{os} fuel name value overwrite (s : st environ) :
  (length (glob s) < fuel)%nat →
  wp (setenv fuel name value overwrite)
    (λ z s', match name, value with
       | Some n, Some v =>
           if bad_name name then z = -1 ∧ errno s' = EINVAL ∧ glob s' = glob s else
           (∀ other, "="%char ∉ other → other ≠ n → env_get other (glob s') = env_get other (glob s)) ∧
           (if bool_decide (is_Some (env_get n (glob s))) && (overwrite =? 0) then z = 0 ∧ glob s' = glob s
            else z = 0 ∧ env_get n (glob s') = Some v ∧ unset n (glob s') = unset n (glob s) ∧ length (glob s') = Datatypes.S (length (unset n (glob s))) ∨
              z = -1 ∧ glob s' = unset n (glob s) ∧ env_get n (glob s') = None)
       | _, _ => z = -1 ∧ errno s' = EINVAL ∧ glob s' = glob s
       end) (λ _ _, False) s.
Proof.
  intros Hf. unfold setenv. destruct name as [n|]; [|by apply wp_bind, wp_set_errno, wp_ret]. destruct value as [v|]; [|by destruct (bad_name _); apply wp_bind, wp_set_errno, wp_ret].
  destruct (bad_name (Some n)) eqn:Eb; [by apply wp_bind, wp_set_errno, wp_ret|].
  assert ("="%char ∉ n) as Hn by (cbn in Eb; destruct n; [apply not_elem_of_nil|by apply bool_decide_eq_false in Eb]).
  apply wp_bind, wp_get. destruct (_ && _); [by apply wp_ret|].
  apply wp_bind, wp_unsetenv; [done|]. rewrite Eb. change (default [] (Some n)) with n. set (u := unset n (glob s)).
  assert (∀ other, "="%char ∉ other → other ≠ n → env_get other u = env_get other (glob s)) as Hother by (intros; by apply get_unset_other).
  assert (env_get n u = None) as Hgone by apply get_unset_same.
  apply wp_bind, wp_call. intros m s1 _ Hg1 _ _ _. cbn [glob] in Hg1. fold u in Hg1. destruct (rv m =? -1).
  { apply wp_ret. rewrite Hg1. split; [done|]. by right. }
  apply wp_bind, wp_call. intros p s2 _ Hg2 _ _ _. rewrite Hg1 in Hg2. destruct (rv p =? 0).
  2: { apply wp_ret. rewrite Hg2. split; [done|]. by right. }
  apply wp_bind, wp_upd, wp_ret. cbn [glob]. rewrite Hg2, put_absent by done.
  assert (names n (n ++ "="%char :: v) = true) as Hes by (apply names_spec; eauto). split.
  - intros other Ho Hne. rewrite get_app, Hother by done. destruct (env_get other (glob s)); [done|].
    destruct (names other _) eqn:En; [|done]. by destruct (Hne (names_unique _ _ _ Ho Hn En Hes)).
  - left. split; [done|]. rewrite get_app, Hgone, Hes. split.
    + f_equal. rewrite drop_app_ge by lia. by replace (Datatypes.S (length n) - length n)%nat with 1%nat by lia.
    + split; [|rewrite length_app; cbn; lia]. unfold unset at 1. rewrite filter_app, filter_cons, Hes. cbn. rewrite app_nil_r. unfold u, unset. by rewrite list_filter_filter_l.
Qed.

(** unsetenv refuses the same names, and otherwise leaves the name without a
    value. *)
Theorem unsetenv_correct `{os} fuel name (s : st environ) :
  (length (glob s) < fuel)%nat →
  wp (unsetenv fuel name)
    (λ z s', if bad_name name then z = -1 ∧ errno s' = EINVAL ∧ glob s' = glob s
             else z = 0 ∧ env_get (default [] name) (glob s') = None ∧
               ∀ other, "="%char ∉ other → other ≠ default [] name → env_get other (glob s') = env_get other (glob s)) (λ _ _, False) s.
Proof.
  intros Hf. apply wp_unsetenv; [done|]. destruct (bad_name name) eqn:Eb; [done|]. cbn [glob]. split; [done|]. split; [apply get_unset_same|].
  intros other Ho Hne. apply get_unset_other; [|done|done]. destruct name as [n|]; cbn in *; [destruct n; [apply not_elem_of_nil|by apply bool_decide_eq_false in Eb]|apply not_elem_of_nil].
Qed.

(** A variable is lost when there is no memory for its new value. *)
Example setenv_loses :
  let o := test_os (λ _ c, match c with Crealloc _ => fail 12 | _ => ok 0 end) in
  let r := @setenv o 9 (Some (str "PATH")) (Some (str "/bin")) 1 (init [str "HOME=/root"; str "PATH=/usr/bin"]) in
  r.1 = Ret (-1) ∧ glob r.2 = [str "HOME=/root"].
Proof. by vm_compute. Qed.

Lemma setenv_witness :
  let s := init [str "HOME=/root"; str "PATH=/bin"; str "PATH=/usr/bin"] in
  let r := @setenv (test_os (λ _ _, ok 0)) 4 (Some (str "PATH")) (Some (str "/sbin")) 1 s in
  r.1 = Ret 0 ∧ env_get (str "PATH") (glob r.2) = Some (str "/sbin") ∧ env_get (str "HOME") (glob r.2) = Some (str "/root") ∧ length (glob r.2) = 2%nat.
Proof.
  intros s r.
  pose proof (@setenv_correct (test_os (λ _ _, ok 0)) 4 (Some (str "PATH")) (Some (str "/sbin")) 1 s ltac:(vm_compute; lia)) as H.
  destruct (wp_run _ _ _ _ H) as [(z & s' & Hrun & Hother & [(-> & Hget & _ & Hlen)|(-> & _)])|(t & s' & _ & [])].
  - unfold r. rewrite Hrun. cbn [fst snd]. split; [reflexivity|]. split; [exact Hget|]. split; [|rewrite Hlen; vm_compute; reflexivity].
    rewrite Hother; [vm_compute; reflexivity| |discriminate]. apply (bool_decide_unpack _). vm_compute. exact I.
  - exfalso. apply (f_equal fst) in Hrun. vm_compute in Hrun. discriminate Hrun.
Defined.
