(* ===== verification/SeccompNotify.v ===== *)
(** tlpi-book/seccomp/seccomp_user_notification.c: a target process whose
    mkdir(2) calls are passed to a tracer, which makes the directory on its
    behalf or has the call fail.  The descriptor goes from one to the other with
    sendfd and recvfd (Cmsg.v). *)
From S2P Require Import Prelude Sys GetNum Bpf Seccomp Cmsg.

Definition EPERM : Z := 1.
Definition PATH_MAX : Z := 4096.
Definition SIGINT : Z := 2.
Definition SIGTERM : Z := 15.
Definition SECCOMP_FILTER_FLAG_NEW_LISTENER : Z := 8.
Definition SECCOMP_GET_NOTIF_SIZES : Z := 3.

Record cmdLineOpts := Opts { delaySecs : Z; secondFilter : Z; killTracer : bool }.

Section Programs.
Context `{os} (addr : cstr → Z).

(** ** The target *)

Definition check (b : bool) (msg : cstr) : SM unit := when b (perror_exit msg).

Definition installNotifyFilter : SM Z :=
  notifyFd ← seccomp SECCOMP_FILTER_FLAG_NEW_LISTENER notify_filter;
  check (notifyFd =? -1) (str "seccomp-install-notify-filter");;
  mret notifyFd.

Definition installFilter2 (opts : cmdLineOpts) : SM unit :=
  z ← seccomp 0 (filter2 (secondFilter opts));
  check (z =? -1) (str "seccomp-install-filter-2").

Definition closeSocketPair (sockPair : Z * Z) : SM unit :=
  r ← sys (Cclose sockPair.1);
  check (rv r =? -1) (str "closeSocketPair-close-0");;
  r ← sys (Cclose sockPair.2);
  check (rv r =? -1) (str "closeSocketPair-close-1").

Definition target_mkdir (ap : cstr) : SM unit :=
  out Stdout (NL :: str "Target process: about to make directory " ++ [DQ] ++ ap ++ [DQ; NL]);;
  r ← native_call NR_mkdir [addr ap; 384] (Cmkdir ap 384);
  if rv r =? -1 then perror (str "Target process: mkdir")
  else out Stdout (str "Target process: SUCCESS: mkdir(2) returned = " ++ dec (rv r) ++ [NL]).

Definition targetProcess (sockPair : Z * Z) (argv : list cstr) (opts : cmdLineOpts) : SM Z :=
  r ← sys Cfork;
  let targetPid := rv r in
  check (targetPid =? -1) (str "fork");;
  if 0 <? targetPid then mret targetPid else
  pid ← sys Cgetpid;
  out Stdout (str "Target process: PID = " ++ dec (rv pid) ++ [NL]);;
  r ← sys (Csigaction SIGINT);
  check (rv r =? -1) (str "sigaction");;
  no_new_privs (perror_exit (str "prctl"));;
  notifyFd ← installNotifyFilter;
  when (negb (secondFilter opts =? -1)) (installFilter2 opts);;
  z ← sendfd sockPair.1 notifyFd;
  check (z =? -1) (str "sendfd");;
  r ← sys (Cclose notifyFd);
  check (rv r =? -1) (str "close-target-notify-fd");;
  closeSocketPair sockPair;;
  for_each argv target_mkdir;;
  out Stdout (str "Target process: terminating" ++ [NL]);;
  stop_with (Exit 0).

(** ** The tracer *)

Definition checkNotificationIdIsValid (notifyFd id : Z) (tag : cstr) : SM unit :=
  r ← sys (Cnotif_id_valid notifyFd id);
  when (rv r =? -1)
    (out Stderr (str "Tracer: notification ID check (" ++ tag ++ str "): target has died!!!!!!!!!!!" ++ [NL])).

(** Bytes stored at the start of a buffer that holds [buf]. *)
Definition store (bytes buf : cstr) : cstr := bytes ++ drop (length bytes) buf.

Definition delay (notifyFd id : Z) (opts : cmdLineOpts) : SM unit :=
  when (0 <? delaySecs opts)
    (out Stdout (str "Tracer: delaying for " ++ dec (delaySecs opts) ++ str " seconds:");;
     checkNotificationIdIsValid notifyFd id (str "pre-delay");;
     for_acc 0 (Z.to_nat (delaySecs opts)) (λ j _,
       out Stdout (" "%char :: dec (delaySecs opts - Z.of_nat j));;
       sys (Csleep 1);;
       mret tt) tt;;
     out Stdout [NL];;
     checkNotificationIdIsValid notifyFd id (str "post-delay")).

(** The memory of the target at the address of its argument, as far as it
    fits the array [path], which holds [buf]. *)
Definition read_path (notifyFd pid id address : Z) (buf : cstr) : SM cstr :=
  let mem := snprintf PATH_MAX (str "/proc/" ++ dec (wrap_s 32 pid) ++ str "/mem") in
  let buf := store (mem ++ [NUL]) buf in
  r ← sys (Copen mem O_RDONLY 0);
  let procMem := rv r in
  check (procMem =? -1) (str "Tracer: open");;
  checkNotificationIdIsValid notifyFd id (str "post-open");;
  r ← sys (Clseek procMem (wrap_s 64 address) 0);
  check (rv r =? -1) (str "Tracer: lseek");;
  r ← sys (Cread procMem PATH_MAX);
  check (rv r =? -1) (str "read");;
  when (rv r =? 0)
    (out Stderr (str "Tracer: read returned EOF" ++ [NL]);;
     stop_with (Exit 1));;
  let buf := store (rdata r) buf in
  if bool_decide (NUL ∈ buf) then
    r ← sys (Cclose procMem);
    check (rv r =? -1) (str "close-/proc/PID/mem");;
    mret buf
  else stop_with (Undefined "path is not terminated").

Definition respond (notifyFd id : Z) (path : cstr) (error : Z) : SM unit :=
  r ← sys (Cnotif_send notifyFd id (strlen path) error 0);
  when (rv r =? -1)
    (e ← get_errno;
     if e =? ENOENT then
       out Stdout (str "Tracer: response failed with ENOENT; perhaps target process's syscall was interrupted by signal?" ++ [NL])
     else perror (str "ioctl-SECCOMP_IOCTL_NOTIF_SEND")).

Definition answer (notifyFd id mode : Z) (path : cstr) : SM unit :=
  error ← (if has_prefix (str "/tmp/") path
           then sys (Cmkdir path (wrap_u 32 mode));; mret 0
           else mret (- EPERM));
  respond notifyFd id path error.

(** The fields of struct seccomp_notif that are used. *)
Definition notification (r : reply) : Z * Z * Z * Z :=
  let f i := nth i (snd <$> rents r) 0 in (f 0, f 1, f 2, f 3)%nat.

(** One turn of the loop, over the contents of [path]. *)
Definition watch_turn (notifyFd : Z) (opts : cmdLineOpts) (buf : cstr) : SM cstr :=
  r ← sys (Cnotif_recv notifyFd);
  check (rv r =? -1) (str "Tracer: ioctlSECCOMP_IOCTL_NOTIF_RECV");;
  let '(id, pid, arg0, arg1) := notification r in
  out Stdout (str "Tracer: got notification for PID " ++ dec (wrap_s 32 pid) ++ str "; ID is " ++ hex id ++ [NL]);;
  delay notifyFd id opts;;
  buf ← read_path notifyFd pid id arg0 buf;
  let path := c_str buf in
  out Stdout (str "Tracer: mkdir(" ++ [DQ] ++ path ++ [DQ] ++ str ", " ++ oct arg1 ++ str ")" ++ [NL]);;
  answer notifyFd id arg1 path;;
  when (streq path (str "/bye"))
    (out Stdout (str "Tracer: terminating <<<<<<<<<<<<<<<<<<<<<<<<<<<<<<<<" ++ [NL]);;
     stop_with (Exit 1));;
  mret buf.

Definition watch_setup : SM unit :=
  r ← sys (Cseccomp SECCOMP_GET_NOTIF_SIZES 0 []);
  check (rv r =? -1) (str "Tracer: seccomp-SECCOMP_GET_NOTIF_SIZES");;
  let size i := nth i (snd <$> rents r) 0 in
  m ← sys (Crealloc (size 0%nat));
  check (rv m =? -1) (str "Tracer: malloc");;
  m ← sys (Crealloc (size 1%nat));
  check (rv m =? -1) (str "Tracer: malloc").

(** The loop has no exit: [turns] turns of it. *)
Definition watchForNotifications {A} (turns : nat) (notifyFd : Z) (opts : cmdLineOpts) : SM A :=
  watch_setup;;
  for_acc 0 turns (λ _, watch_turn notifyFd opts) [];;
  no_fuel.

Definition tracerProcess (turns : nat) (sockPair : Z * Z) (opts : cmdLineOpts) : SM Z :=
  r ← sys Cfork;
  let tracerPid := rv r in
  check (tracerPid =? -1) (str "fork");;
  if 0 <? tracerPid then mret tracerPid else
  pid ← sys Cgetpid;
  out Stdout (str "Tracer: PID = " ++ dec (rv pid) ++ [NL]);;
  notifyFd ← recvfd sockPair.2;
  check (notifyFd =? -1) (str "recvfd");;
  closeSocketPair sockPair;;
  watchForNotifications turns notifyFd opts.

(** ** main *)

Definition usageError {A} (msg : option cstr) (pname : cstr) : SM A :=
  match msg with Some m => out Stderr (m ++ [NL]) | None => mret tt end;;
  out Stderr (str "Usage: " ++ pname ++ str " [options] <dir> <dir>..." ++ [NL]);;
  out Stderr (str "      Options" ++ [NL]);;
  out Stderr (str "      -d <nsecs>    Tracer delays 'nsecs' before inspecting target" ++ [NL]);;
  out Stderr (str "      -f <val>      Install second filter whose return value is:" ++ [NL]);;
  out Stderr (str "                    'e' - SECCOMP_RET_ERRNO" ++ [NL]);;
  out Stderr (str "                    't' - SECCOMP_RET_TRACE" ++ [NL]);;
  out Stderr (str "      -K            Don't kill tracer on termination of target process" ++ [NL]);;
  stop_with (Exit 1).

(** What getopt(3) finds. *)
Inductive opt := OptK | Optf (arg : cstr) | Optd (arg : cstr) | OptBad.

Fixpoint parseCommandLineOptions (pname : cstr) (found : list opt) (opts : cmdLineOpts) : SM cmdLineOpts :=
  match found with
  | [] => mret opts
  | OptK :: found => parseCommandLineOptions pname found (Opts (delaySecs opts) (secondFilter opts) false)
  | Optf a :: found =>
      match a with
      | "e"%char :: _ =>
          parseCommandLineOptions pname found (Opts (delaySecs opts) SECCOMP_RET_ERRNO (killTracer opts))
      | "t"%char :: _ =>
          parseCommandLineOptions pname found (Opts (delaySecs opts) SECCOMP_RET_TRACE (killTracer opts))
      | _ => usageError (Some (str "Bad value for -f")) pname
      end
  | Optd a :: found => parseCommandLineOptions pname found (Opts (atoi a) (secondFilter opts) (killTracer opts))
  | OptBad :: found => usageError (Some (str "Bad option")) pname
  end.

Definition notify_main (turns : nat) (pname : cstr) (found : list opt) (dirs : list cstr) : SM unit :=
  opts ← parseCommandLineOptions pname found (Opts 0 (-1) true);
  when (bool_decide (dirs = [])) (usageError (Some (str "At least one pathname argument should be supplied")) pname);;
  r ← sys Csocketpair;
  check (rv r =? -1) (str "socketpair");;
  let sockPair := (nth 0 (snd <$> rents r) 0, nth 1 (snd <$> rents r) 0) in
  targetPid ← targetProcess sockPair dirs opts;
  tracerPid ← tracerProcess turns sockPair opts;
  closeSocketPair sockPair;;
  sys (Cwait targetPid);;
  out Stdout (str "Parent: target process has terminated" ++ [NL]);;
  (if killTracer opts then
     out Stdout (str "Parent: killing tracer" ++ [NL]);;
     sys (Ckill tracerPid SIGTERM)
   else sys (Cwait tracerPid));;
  stop_with (Exit 0).
End Programs.

(** ** What the tracer does on behalf of the target

    Its calls that receive a notification, make a directory or respond; the
    others inspect. *)

Definition effect (e : event) : option (call * reply) :=
  match e with
  | Esys (Cnotif_recv fd) r => Some (Cnotif_recv fd, r)
  | Esys (Cmkdir p m) r => Some (Cmkdir p m, r)
  | Esys (Cnotif_send fd id v e f) r => Some (Cnotif_send fd id v e f, r)
  | _ => None
  end.
Definition effects (tr : list event) : list (call * reply) := omap effect tr.

Lemma effects_app a b : effects (a ++ b) = effects a ++ effects b.
Proof. apply omap_app. Qed.

Lemma effects_one e : effects [e] = match effect e with Some x => [x] | None => [] end.
Proof. done. Qed.

(** A notification, and the response to it for the path the target gave: a
    directory under "/tmp/" is made and the call succeeds with the length of
    the path, for any other path it fails with EPERM. *)
Inductive exchange (fd : Z) : list (call * reply) → Prop :=
  | Made r path r' r'' :
      str "/tmp/" `prefix_of` path → NUL ∉ path →
      exchange fd [(Cnotif_recv fd, r); (Cmkdir path (wrap_u 32 (notification r).2), r');
                   (Cnotif_send fd (notification r).1.1.1 (strlen path) 0 0, r'')]
  | Refused r path r'' :
      ¬ str "/tmp/" `prefix_of` path → NUL ∉ path →
      exchange fd [(Cnotif_recv fd, r); (Cnotif_send fd (notification r).1.1.1 (strlen path) (- EPERM) 0, r'')].

(** Complete exchanges, then at most a notification that is not answered. *)
Definition served (fd : Z) (l : list (call * reply)) : Prop :=
  ∃ ls rest, l = concat ls ++ rest ∧ Forall (exchange fd) ls ∧
    (rest = [] ∨ ∃ r, rest = [(Cnotif_recv fd, r)]).

Create HintDb inspect.

Section Tracer.
Context `{os}.
Implicit Types s : st sec.

(** [m] has no effects of this kind. *)
Definition inspects {A} (m : SM A) : Prop := ∀ s (Q : A → st sec → Prop) (E : stop → st sec → Prop),
  (∀ a s', effects (trace s') = effects (trace s) → Q a s') →
  (∀ e s', effects (trace s') = effects (trace s) → E e s') → wp m Q E s.

Lemma inspects_ret {A} (a : A) : inspects (mret a).
Proof. intros s Q E HQ HE. by apply wp_ret, HQ. Qed.

Lemma inspects_bind {A B} (m : SM A) (f : A → SM B) :
  inspects m → (∀ a, inspects (f a)) → inspects (m ≫= f).
Proof.
  intros Hm Hf s Q E HQ HE. apply wp_bind, Hm; [|done].
  intros a s1 E1. apply Hf; intros; [apply HQ|apply HE]; congruence.
Qed.

Lemma inspects_out f t : inspects (out f t).
Proof.
  intros s Q E HQ _. apply wp_emit, HQ. cbn [trace]. by rewrite effects_app, app_nil_r.
Qed.

Lemma inspects_sys c : (∀ r, effect (Esys c r) = None) → inspects (sys c).
Proof.
  intros Hc s Q E HQ _. apply wp_sys, HQ. cbn [trace]. rewrite effects_app.
  by rewrite effects_one, Hc, app_nil_r.
Qed.

Lemma inspects_stop {A} e : inspects (stop_with (A:=A) e).
Proof. intros s Q E _ HE. by apply wp_stop, HE. Qed.

Lemma inspects_get_errno : inspects get_errno.
Proof. intros s Q E HQ _. by apply wp_get_errno, HQ. Qed.

Lemma inspects_when b m : inspects m → inspects (when b m).
Proof. intros Hm. destruct b; [done|apply inspects_ret]. Qed.

Lemma inspects_for_acc {A} (body : nat → A → SM A) j n a :
  (∀ i a, inspects (body i a)) → inspects (for_acc j n body a).
Proof.
  intros Hb. revert j a; induction n as [|n IH]; intros j a; [apply inspects_ret|].
  by apply inspects_bind.
Qed.

#[local] Ltac inspects :=
  cbv zeta; repeat first
    [ apply inspects_ret | apply inspects_bind; [|intros] | apply inspects_out | apply inspects_stop
    | apply inspects_get_errno | apply inspects_when | apply inspects_for_acc; intros
    | apply inspects_sys; intros; reflexivity
    | match goal with
      | |- inspects (perror_exit _) => unfold perror_exit
      | |- inspects (perror _) => unfold perror
      | |- inspects (check _ _) => unfold check
      | |- inspects (if ?b then _ else _) => destruct b
      end
    | solve [eauto with inspect] ].

Lemma inspects_valid fd id tag : inspects (checkNotificationIdIsValid fd id tag).
Proof. unfold checkNotificationIdIsValid. inspects. Qed.
Hint Resolve inspects_valid : inspect.

Lemma inspects_delay fd id opts : inspects (delay fd id opts).
Proof. unfold delay. inspects. Qed.
Hint Resolve inspects_delay : inspect.

Lemma inspects_setup : inspects watch_setup.
Proof. unfold watch_setup. inspects. Qed.

Lemma inspects_read_path fd pid id a buf : inspects (read_path fd pid id a buf).
Proof. unfold read_path. inspects. Qed.

(** The effects seen since [s0]. *)
Definition since (s0 s : st sec) (l : list (call * reply)) : Prop :=
  effects (trace s) = effects (trace s0) ++ l.

Lemma wp_effect s0 l c (Q : reply → st sec → Prop) E s :
  since s0 s l → (∀ r, effect (Esys c r) = Some (c, r)) →
  (∀ r s', since s0 s' (l ++ [(c, r)]) → Q r s') → wp (sys c) Q E s.
Proof.
  intros Hs Hc HQ. apply wp_sys, HQ. unfold since. cbn [trace].
  by rewrite effects_app, effects_one, Hc, Hs, <-app_assoc.
Qed.

Lemma wp_inspects {A} s0 l (m : SM A) (Q : A → st sec → Prop) (E : stop → st sec → Prop) s :
  inspects m → since s0 s l → (∀ a s', since s0 s' l → Q a s') → (∀ e s', since s0 s' l → E e s') → wp m Q E s.
Proof.
  intros Hm Hs HQ HE. apply Hm; intros x s' Hx; [apply HQ|apply HE]; unfold since in *; congruence.
Qed.

Lemma wp_respond fd id path e s0 l (Q : unit → st sec → Prop) (E : stop → st sec → Prop) s :
  since s0 s l →
  (∀ r' s', since s0 s' (l ++ [(Cnotif_send fd id (strlen path) e 0, r')]) → Q tt s') →
  wp (respond fd id path e) Q E s.
Proof.
  intros H1 HQ. apply wp_bind. eapply wp_effect; [done|done|]. intros r' s2 H2.
  unfold when. destruct (_ =? -1); [|by eapply wp_ret, HQ].
  assert (Hout : ∀ f t, wp (out f t) Q E s2).
  { intros f t. eapply wp_emit, HQ. unfold since. cbn [trace]. by rewrite effects_app, app_nil_r. }
  apply wp_bind, wp_get_errno. destruct (_ =? ENOENT); [apply Hout|]. apply wp_bind, wp_get_errno, Hout.
Qed.

Lemma wp_answer fd id mode path s0 l (Q : unit → st sec → Prop) (E : stop → st sec → Prop) s :
  since s0 s l →
  (∀ l' s', since s0 s' (l ++ l') →
    (if has_prefix (str "/tmp/") path
     then ∃ r r', l' = [(Cmkdir path (wrap_u 32 mode), r); (Cnotif_send fd id (strlen path) 0 0, r')]
     else ∃ r', l' = [(Cnotif_send fd id (strlen path) (- EPERM) 0, r')]) → Q tt s') →
  wp (answer fd id mode path) Q E s.
Proof.
  intros Hs HQ. unfold answer. apply wp_bind.
  destruct (has_prefix (str "/tmp/") path).
  - apply wp_bind. eapply wp_effect; [done|done|]. intros r s1 H1. apply wp_ret. eapply wp_respond; [exact H1|].
    intros r' s' H'. rewrite <-app_assoc in H'. eapply HQ; [exact H'|]. simpl. eauto.
  - apply wp_ret. eapply wp_respond; [exact Hs|]. intros r' s' H'. eapply HQ; [exact H'|]. eauto.
Qed.

(** One turn. *)
Lemma wp_watch_turn fd opts buf s0 l (Q : cstr → st sec → Prop) (E : stop → st sec → Prop) s :
  since s0 s l →
  (∀ b x s', exchange fd x → since s0 s' (l ++ x) → Q b s') →
  (∀ e x s', x = [] ∨ (∃ r, x = [(Cnotif_recv fd, r)]) ∨ exchange fd x → since s0 s' (l ++ x) → E e s') →
  wp (watch_turn fd opts buf) Q E s.
Proof.
  intros Hs HQ HE. unfold watch_turn. apply wp_bind. eapply wp_effect; [done|done|]. intros r s1 H1.
  apply wp_bind. eapply (wp_inspects s0); [unfold check; inspects|exact H1| |intros e s' H'; by eapply HE; eauto].
  clear s1 H1. intros _ s1 H1. destruct (notification r) as [[[id pid] a0] a1] eqn:En.
  apply wp_bind. eapply (wp_inspects s0); [inspects|exact H1| |intros e s' H'; by eapply HE; eauto].
  clear s1 H1. intros _ s1 H1. apply wp_bind.
  eapply (wp_inspects s0); [inspects|exact H1| |intros e s' H'; by eapply HE; eauto].
  clear s1 H1. intros _ s1 H1. apply wp_bind.
  eapply (wp_inspects s0); [apply inspects_read_path|exact H1| |intros e s' H'; by eapply HE; eauto].
  clear s1 H1. intros b s1 H1. set (path := c_str b). apply wp_bind.
  eapply (wp_inspects s0); [inspects|exact H1| |intros e s' H'; by eapply HE; eauto].
  clear s1 H1. intros _ s1 H1. apply wp_bind. eapply wp_answer; [exact H1|].
  intros l' s2 H2 Hl'. rewrite <-app_assoc in H2.
  assert (exchange fd ([(Cnotif_recv fd, r)] ++ l')) as Hx.
  { pose proof (has_prefix_spec (str "/tmp/") path) as Hp. pose proof (c_str_no_nul b) as Hn.
    destruct (has_prefix (str "/tmp/") path).
    - destruct Hl' as (r' & r'' & ->). pose proof (Made fd r path r' r'' (proj1 Hp eq_refl) Hn) as X.
      by rewrite En in X.
    - destruct Hl' as (r' & ->). assert (¬ str "/tmp/" `prefix_of` path) as Hno by (intros ?%Hp; done).
      pose proof (Refused fd r path r' Hno Hn) as X. by rewrite En in X. }
  apply wp_bind. eapply (wp_inspects s0); [inspects|exact H2| |].
  - intros _ s3 H3. by eapply wp_ret, HQ.
  - intros e s3 H3. eapply HE; [right; right; exact Hx|exact H3].
Qed.

Lemma wp_watch fd opts s0 turns buf s :
  since s0 s [] →
  wp (for_acc 0 turns (λ _, watch_turn fd opts) buf)
    (λ _ s', ∃ ls, since s0 s' (concat ls) ∧ Forall (exchange fd) ls ∧ length ls = turns)
    (λ _ s', ∃ l, since s0 s' l ∧ served fd l) s.
Proof.
  intros Hs. apply (wp_for_acc (λ n _ s', ∃ ls, since s0 s' (concat ls) ∧ Forall (exchange fd) ls ∧ length ls = n)).
  - by exists [].
  - intros n b s1 _ (ls & H1 & Hls & <-). eapply wp_watch_turn; [exact H1| |].
    + intros b' x s2 Hx H2. exists (ls ++ [x]). rewrite concat_app, length_app. simpl. rewrite app_nil_r.
      split_and!; [done|apply Forall_app; auto|simpl; lia].
    + intros e x s2 Hx H2. eexists. split; [exact H2|]. destruct Hx as [->|[[r ->]|Hx]].
      * exists ls, []. auto.
      * exists ls, [(Cnotif_recv fd, r)]. eauto.
      * exists (ls ++ [x]), []. rewrite concat_app, app_nil_r. simpl. rewrite app_nil_r.
        split_and!; [done|apply Forall_app; auto|by left].
Qed.
End Tracer.

(** ** The properties *)


(** The test is on the text of the path: "/tmp/../etc/d" passes it, although
    the directory is not in /tmp. *)
Definition escape_os : os := test_os (λ _ c,
  match c with
  | Cnotif_recv _ => Reply 0 0 [] [([], 7); ([], 42); ([], 4096); ([], 511)]
  | Cread _ _ => let d := str "/tmp/../etc/d" ++ [NUL] in Reply (strlen d) 0 d []
  | _ => ok 0
  end).

Example path_outside_tmp :
  let r := @watch_turn escape_os 5 (Opts 0 (-1) true) [] no_filter in
  fst <$> effects (trace r.2) =
    [Cnotif_recv 5; Cmkdir (str "/tmp/../etc/d") 511; Cnotif_send 5 7 13 0 0].
Proof. by vm_compute. Qed.
