(* ===== verification/Copy.v ===== *)
(** Programs that copy a stream from one descriptor to another:
    tlpi-book/fileio/copy.c, homework/hw1 (cp.c, tee.c), and the transfers over
    a Unix socket of tlpi-book/sockets (us_xfr_cl.c, us_xfr_sv.c,
    us_xfr_v2_cl.c, us_xfr_v2_sv.c).

    They share a loop, [copy_loop], which reads and writes until there is
    nothing more to read; it is proved once, against what read(2) promises
    ([Source]), and the programs from it. *)
From S2P Require Import Prelude Sys Rdwrn ErrorFns Sockets Getopt SvmsgFile.

(** ** The loop *)

Section Loop.
Context {S : Type} `{os}.

(** while ((n = read (src, buf, size)) > 0) if (write (dst, buf, n) != n) ...;
    the bytes can be changed on the way by [f].  [short] is what is done when
    not all was written.  The result is that of the last read. *)
Definition copy_loop (fuel : nat) (src size : Z) (f : ascii → ascii) (dst : Z) (short : M S (unit + Z)) : M S Z :=
  loop fuel (λ _,
    r ← sys (Cread src size);
    if 0 <? rv r then
      w ← sys (Cwrite dst (f <$> data_of r));
      if negb (rv w =? rv r) then short else mret (inl tt)
    else mret (inr (rv r))) tt.
End Loop.

Section LoopSpecs.
Context {S : Type} `{os}.
Implicit Types s : st S.

(** Chunks, each read and written whole. *)
Inductive copying (src size : Z) (f : ascii → ascii) (dst : Z) : list (call * reply) → Prop :=
  | Copying_none : copying src size f dst []
  | Copying_more l r w : copying src size f dst l → 0 < rv r → rv w = rv r →
      copying src size f dst (l ++ [(Cread src size, r); (Cwrite dst (f <$> data_of r), w)]).

(** A chunk that was not. *)
Definition cut_short (src size : Z) (f : ascii → ascii) (dst : Z) (l : list (call * reply)) : Prop :=
  ∃ r w, l = [(Cread src size, r); (Cwrite dst (f <$> data_of r), w)] ∧ 0 < rv r ∧ rv w ≠ rv r.

Lemma wlp_copy_loop fuel src size f dst short s (Q : Z → st S → Prop) (E : stop → st S → Prop) (F : st S → Prop) :
  (∀ l r s', acted s (l ++ [(Cread src size, r)]) s' → copying src size f dst l → rv r <= 0 → (rv r = -1 → errno s' = rerr r) → Q (rv r) s') →
  (∀ l l' s', acted s (l ++ l') s' → copying src size f dst l → cut_short src size f dst l' →
     wlp short (λ _ _, False) E F s') →
  (∀ l s', acted s l s' → copying src size f dst l → F s') →
  wlp (copy_loop fuel src size f dst short) Q E F s.
Proof using.
  intros HQ HE HF. unfold copy_loop. apply (wlp_loop (λ _ s', ∃ l, acted s l s' ∧ copying src size f dst l)).
  { exists []. split; [apply acted_refl|constructor]. }
  { intros _ s1 (l & Ha & Hl). by eapply HF. }
  intros [] s1 (l & Ha & Hl). apply wlp_bind, wp_wlp. eapply wp_act; [exact Ha|done|]. intros r s2 _ Ha2 He _.
  destruct (Z.ltb_spec 0 (rv r)) as [Hr|Hr].
  - apply wlp_bind, wp_wlp. eapply wp_act; [exact Ha2|done|]. intros w s3 _ Ha3 _ _. rewrite <-app_assoc in Ha3.
    destruct (Z.eqb_spec (rv w) (rv r)) as [Hw|Hw]; cbn [negb].
    + apply wp_wlp, wp_ret. eexists. split; [exact Ha3|]. by apply Copying_more.
    + eapply wlp_mono; [eapply HE; [exact Ha3|done|by exists r, w]|by intros ? ? []|done|done].
  - apply wp_wlp, wp_ret. by eapply HQ.
Qed.

(** The bytes read from and accepted by a descriptor in a list of calls. *)
Definition events (l : list (call * reply)) : list event := (λ x, Esys x.1 x.2) <$> l.
Definition got_from (src : Z) (l : list (call * reply)) : cstr := taken src (events l).
Definition put_to (dst : Z) (l : list (call * reply)) : cstr := written dst (events l).

Lemma got_from_app src a b : got_from src (a ++ b) = got_from src a ++ got_from src b.
Proof using. unfold got_from, events. by rewrite fmap_app, taken_app. Qed.

Lemma put_to_app dst a b : put_to dst (a ++ b) = put_to dst a ++ put_to dst b.
Proof using. unfold put_to, events. by rewrite fmap_app, written_app. Qed.

Lemma got_from_read src l n r : got_from src (l ++ [(Cread src n, r)]) = got_from src l ++ if 0 <? rv r then rdata r else [].
Proof using. rewrite got_from_app. f_equal. apply (taken_snoc_read src []). Qed.

Lemma put_to_write dst l bs r : put_to dst (l ++ [(Cwrite dst bs, r)]) = put_to dst l ++ if 0 <? rv r then take (Z.to_nat (rv r)) bs else [].
Proof using. rewrite put_to_app. f_equal. apply (written_snoc_write dst []). Qed.

Lemma got_from_other src l x : taken_by src (Esys x.1 x.2) = [] → got_from src (l ++ [x]) = got_from src l.
Proof using. intros Hx. rewrite got_from_app. assert (got_from src [x] = taken_by src (Esys x.1 x.2)) as E by apply app_nil_r.
  by rewrite E, Hx, app_nil_r. Qed.

Lemma put_to_other dst l x : put_by dst (Esys x.1 x.2) = [] → put_to dst (l ++ [x]) = put_to dst l.
Proof using. intros Hx. rewrite put_to_app. assert (put_to dst [x] = put_by dst (Esys x.1 x.2)) as E by apply app_nil_r.
  by rewrite E, Hx, app_nil_r. Qed.

Lemma taken_acts src tr : taken src tr = got_from src (acts tr).
Proof using.
  induction tr as [|e tr IH]; [done|]. change (e :: tr) with ([e] ++ tr). rewrite taken_app, acts_app, got_from_app, IH. f_equal.
  destruct e as [c r|f t]; [|done]. by destruct c.
Qed.

Lemma written_acts dst tr : written dst tr = put_to dst (acts tr).
Proof using.
  induction tr as [|e tr IH]; [done|]. change (e :: tr) with ([e] ++ tr). rewrite written_app, acts_app, put_to_app, IH. f_equal.
  destruct e as [c r|f t]; [|done]. by destruct c.
Qed.

Lemma acted_taken src s l s' : acted s l s' → taken src (trace s') = taken src (trace s) ++ got_from src l.
Proof using. intros [H1 _]. by rewrite !taken_acts, H1, got_from_app. Qed.

Lemma acted_written dst s l s' : acted s l s' → written dst (trace s') = written dst (trace s) ++ put_to dst l.
Proof using. intros [H1 _]. by rewrite !written_acts, H1, put_to_app. Qed.

(** A call failed, or not all was written. *)
Definition went_wrong (dst : Z) (l : list (call * reply)) : Prop :=
  ∃ c r, (c, r) ∈ l ∧ (rv r = -1 ∨ ∃ bs, c = Cwrite dst bs ∧ rv r ≠ strlen bs).

(** Against a source: the loop ends.  What it has read goes to the other
    descriptor in order; all there is, when a read finds the end. *)
Definition copied (src : Z) (content : cstr) (f : ascii → ascii) (dst : Z) (s s' : st S) (z : Z) : Prop :=
  ∃ l, acted s l s' ∧ put_to dst l = f <$> got_from src l ∧
    let rest := drop (length (taken src (trace s))) content in
    (z = 0 ∧ got_from src l = rest ∨ z = -1 ∧ got_from src l `prefix_of` rest ∧ went_wrong dst l).

(** Cut short: the last chunk did not go out whole. *)
Definition cut (src : Z) (content : cstr) (f : ascii → ascii) (dst : Z) (s s' : st S) : Prop :=
  ∃ l got, acted s l s' ∧ got `prefix_of` drop (length (taken src (trace s))) content ∧
    put_to dst l = f <$> got ∧ went_wrong dst l.

Lemma went_wrong_app dst a b : went_wrong dst a ∨ went_wrong dst b → went_wrong dst (a ++ b).
Proof using. intros [(c & r & Hin & H1)|(c & r & Hin & H1)]; exists c, r; rewrite elem_of_app; auto. Qed.

Lemma went_wrong_last dst l c r : rv r = -1 ∨ (∃ bs, c = Cwrite dst bs ∧ rv r ≠ strlen bs) → went_wrong dst (l ++ [(c, r)]).
Proof using. intros H1. exists c, r. rewrite elem_of_app, list_elem_of_singleton. auto. Qed.

Lemma wp_copy_loop content budget fuel src size f dst short s (Q : Z → st S → Prop) (E : stop → st S → Prop) :
  0 < size → Source src content budget → (length (drop (length (taken src (trace s))) content) < fuel)%nat →
  (∀ z s', copied src content f dst s s' z → Q z s') →
  (∀ s', cut src content f dst s s' → wp short (λ _ _, False) E s') →
  wp (copy_loop fuel src size f dst short) Q E s.
Proof using.
  intros Hsize Hsrc Hfuel HQ HE. set (rest := drop (length (taken src (trace s))) content) in *.
  apply (wp_loop (λ _ s', ∃ l, acted s l s' ∧ put_to dst l = f <$> got_from src l ∧ got_from src l `prefix_of` rest)
    (λ _ s', length content - length (taken src (trace s')))%nat).
  { exists []. split; [apply acted_refl|]. split; [done|]. apply prefix_nil. }
  { unfold rest in Hfuel. rewrite length_drop in Hfuel. lia. }
  intros [] s1 (l & Ha & Hw & Hpre). pose proof (acted_taken src _ _ _ Ha) as Ht.
  apply wp_bind. eapply wp_act; [exact Ha|done|]. intros r s2 Hr Ha2 _ _.
  pose proof (source_reply (trace s1) size Hsize) as Hlaw. cbv zeta in Hlaw. rewrite <-Hr in Hlaw.
  rewrite Ht, length_app, <-drop_drop in Hlaw. fold rest in Hlaw.
  pose proof (got_from_read src l size r) as Hgot. pose proof (put_to_other dst l (Cread src size, r) eq_refl) as Hput.
  destruct (Z.ltb_spec 0 (rv r)) as [Hpos|Hpos].
  2: { rewrite app_nil_r in Hgot. apply wp_ret, HQ. eexists. split; [exact Ha2|]. rewrite Hput, Hgot. split; [done|].
    cbv zeta. fold rest. destruct Hlaw as [[Hz _]|(Hz & _ & _ & Hend)].
    - right. split; [done|]. split; [done|]. apply went_wrong_last. auto.
    - left. assert (rv r = 0) as Hz0 by (unfold strlen in Hz; lia). split; [done|].
      destruct Hpre as [k Hk]. rewrite Hk, drop_app_length in Hend. by rewrite Hk, Hend, app_nil_r. }
  destruct Hlaw as [[? _]|(Hlen & _ & Hdata & _)]; [lia|].
  assert (data_of r = rdata r) as Hd by (unfold data_of; rewrite Hlen; unfold strlen; rewrite Nat2Z.id; by apply take_ge).
  rewrite Hd. apply wp_bind. eapply wp_act; [exact Ha2|done|]. intros w s3 Hrw Ha3 _ _.
  assert (got_from src l ++ rdata r `prefix_of` rest) as Hmore by by apply prefix_next.
  set (l2 := (l ++ [(Cread src size, r)]) ++ [(Cwrite dst (f <$> rdata r), w)]) in *.
  assert (got_from src l2 = got_from src l ++ rdata r) as Hgot2 by (unfold l2; by rewrite got_from_other, Hgot).
  pose proof (put_to_write dst (l ++ [(Cread src size, r)]) (f <$> rdata r) w) as Hw3. fold l2 in Hw3. rewrite Hput, Hw in Hw3.
  destruct (Z.eqb_spec (rv w) (rv r)) as [Hall|Hshort]; cbn [negb].
  - apply wp_ret. split.
    + exists l2. split; [done|]. rewrite Hgot2. split; [|done].
      rewrite Hw3, fmap_app. f_equal. rewrite Hall. destruct (Z.ltb_spec 0 (rv r)); [|lia].
      apply take_ge. rewrite length_fmap, Hlen. unfold strlen. lia.
    + rewrite (acted_taken src _ _ _ Ha3), Hgot2, !length_app. apply prefix_length in Hmore. unfold rest in Hmore. rewrite length_app, length_drop in Hmore.
      rewrite Ht, length_app. unfold strlen in Hlen. lia.
  - eapply wp_mono; [apply HE|by intros ? ? []|done].
    exists l2, (got_from src l ++ if 0 <? rv w then take (Z.to_nat (rv w)) (rdata r) else []). split; [done|]. split.
    + etrans; [|exact Hmore]. apply prefix_app. destruct (0 <? rv w); [apply prefix_take|apply prefix_nil].
    + split; [|apply went_wrong_last; right; eexists; split; [done|]; unfold strlen in *; rewrite length_fmap; lia].
      rewrite Hw3, fmap_app. f_equal. destruct (0 <? rv w); [by rewrite fmap_take|done].
Qed.
End LoopSpecs.

(** ** Files *)

Definition O_RDONLY : Z := 0.
Definition O_CREAT_WRONLY_TRUNC : Z := 577.
Definition O_RDWR_APPEND : Z := 1026.
Definition rw_all : Z := 438.             (* rw-rw-rw- *)
Definition COPY_SIZE : Z := 1024.
Definition BUFSIZ : Z := 8192.

Section Files.
Context {S : Type} `{os}.

(** fileio/copy.c *)
Definition copy_main (fuel : nat) (argv : list cstr) : M S unit :=
  let usage := usageErr (default [] (argv !! 0%nat) ++ str " old-file new-file" ++ [NL]) in
  match argv with
  | [_; old; new] =>
      when (streq old (str "--help")) usage;;
      i ← sys (Copen old O_RDONLY 0);
      if rv i =? -1 then errExit (str "opening file " ++ old) else
      o ← sys (Copen new O_CREAT_WRONLY_TRUNC rw_all);
      if rv o =? -1 then errExit (str "opening file " ++ new) else
      n ← copy_loop fuel (rv i) COPY_SIZE id (rv o) (fatal (str "write() returned error or partial write occurred"));
      when (n =? -1) (errExit (str "read"));;
      k ← sys (Cclose (rv i));
      when (rv k =? -1) (errExit (str "close input"));;
      k ← sys (Cclose (rv o));
      when (rv k =? -1) (errExit (str "close output"));;
      stop_with (Exit 0)
  | _ => usage
  end.

(** homework/hw1/errExit.h: the message goes through an array of 1024
    characters. *)
Definition errexit {A} (text : cstr) : M S A :=
  if strlen text <? 1024 then
    out Stderr (str "ERROR: " ++ text ++ [NL]);;
    stop_with (Exit 1)
  else stop_with (Undefined "message longer than its array").

(** homework/hw1/1-2/cp.c *)
Definition cp_main (fuel : nat) (argv : list cstr) : M S unit :=
  match argv with
  | _ :: source :: rest =>
      i ← sys (Copen source O_RDONLY 0);
      if rv i =? -1 then errexit (str "Failed to open the source file !") else
      match rest with
      | target :: _ =>
          o ← sys (Copen target O_CREAT_WRONLY_TRUNC rw_all);
          if rv o =? -1 then errexit (str "Failed to open the target file !") else
          n ← copy_loop fuel (rv i) BUFSIZ id (rv o) (errexit (str "Failed to Write !"));
          when (n =? -1) (errexit (str "Failed to Read !"));;
          sys (Cclose (rv i));;
          sys (Cclose (rv o));;
          stop_with (Exit 0)
      | [] => stop_with (Undefined "open of a null pointer")
      end
  | _ => stop_with (Undefined "open of a null pointer")
  end.

(** homework/hw1/1-1/tee.c: one call of getopt, then the words as they are. *)
Definition tee_spec (c : ascii) : option bool := if decide (c = "a"%char) then Some false else None.

Definition tee_loop (fuel : nat) (fd : Z) : M S Z :=
  loop fuel (λ _,
    r ← sys (Cread 0 BUFSIZ);
    if 0 <? rv r then
      sys (Cwrite 1 (data_of r));;
      w ← sys (Cwrite fd (data_of r));
      if rv w =? -1 then errexit (str "Fail to Write!") else mret (inl tt)
    else mret (inr (rv r))) tt.

Definition tee_main (fuel : nat) (argv : list cstr) : M S unit :=
  match (getopt_env tee_spec (tail argv)).1 with
  | [] => errexit (str "Wrong option!")
  | f :: _ =>
      match getopt_complaint (default [] (argv !! 0%nat)) f with Some t => out Stderr t | None => mret tt end;;
      match argv with
      | [_; _; file] =>
          o ← sys (Copen file O_RDWR_APPEND 0);
          if rv o =? -1 then errexit (str "Fail to open " ++ file ++ str "!") else
          n ← tee_loop fuel (rv o);
          when (n =? -1) (errexit (str "Fail to Read!"));;
          k ← sys (Cclose (rv o));
          if rv k =? -1 then errexit (str "Fail to close!") else
          out Stdout ([NL] ++ str "Success !" ++ [NL]);;
          stop_with (Exit 0)
      | _ => errexit (str "Usage: ./tee -a file1 < file2 | ./tee -a file1")
      end
  end.
End Files.

(** ** Transfers over a Unix socket *)

Definition SV_SOCK_PATH : cstr := str "/tmp/us_xfr".
Definition SV_SOCK_PATH_v2 : cstr := str "us_xfr_v2".
Definition XFR_SIZE : Z := 100.
Definition XFR_BACKLOG : Z := 5.

(** memset, then strncpy of all but the last byte. *)
Definition sun_address (path : cstr) : cstr :=
  let p := take (SUN_PATH - 1) path in le16 AF_UNIX ++ p ++ replicate (SUN_PATH - length p) NUL.

Section Xfr.
Context {S : Type} `{os}.

(** Standard input to the socket. *)
Definition xfr_send (fuel : nat) (sfd : Z) : M S unit :=
  n ← copy_loop fuel 0 XFR_SIZE id sfd (fatal (str "partial/failed write"));
  when (n =? -1) (errExit (str "read"));;
  stop_with (Exit 0).

Definition us_xfr_cl_main (fuel : nat) : M S unit :=
  s ← sys (Csocket AF_UNIX SOCK_STREAM 0);
  if rv s =? -1 then errExit (str "socket") else
  c ← sys (Cconnect (rv s) (sun_address SV_SOCK_PATH));
  if rv c =? -1 then errExit (str "connect") else
  xfr_send fuel (rv s).

Definition us_xfr_v2_cl_main (fuel : nat) : M S unit :=
  sfd ← unixConnect SV_SOCK_PATH_v2 SOCK_STREAM;
  if sfd =? -1 then errExit (str "unixConnect") else
  xfr_send fuel sfd.

(** A connection to standard output. *)
Definition xfr_turn (fuel : nat) (sfd : Z) : M S (unit + unit) :=
  c ← sys (Caccept sfd);
  let cfd := rv c in
  if cfd =? -1 then errExit (str "accept") else
  n ← copy_loop fuel cfd XFR_SIZE id 1 (fatal (str "partial/failed write"));
  when (n =? -1) (errExit (str "read"));;
  k ← sys (Cclose cfd);
  when (rv k =? -1) (errMsg (str "close"));;
  mret (inl tt).

Definition xfr_serve (fuel : nat) (sfd : Z) : M S unit :=
  l ← sys (Clisten sfd XFR_BACKLOG);
  if rv l =? -1 then errExit (str "listen") else
  loop fuel (λ _, xfr_turn fuel sfd) tt.

(** The path is removed first; that it does not exist is no error. *)
Definition remove_path (path : cstr) : M S unit :=
  u ← sys (Cunlink path);
  e ← get_errno;
  when ((rv u =? -1) && negb (e =? ENOENT)) (errExit (str "remove-" ++ path)).

Definition us_xfr_sv_main (fuel : nat) : M S unit :=
  s ← sys (Csocket AF_UNIX SOCK_STREAM 0);
  if rv s =? -1 then errExit (str "socket") else
  remove_path SV_SOCK_PATH;;
  b ← sys (Cbind (rv s) (sun_address SV_SOCK_PATH));
  if rv b =? -1 then errExit (str "bind") else
  xfr_serve fuel (rv s).

Definition us_xfr_v2_sv_main (fuel : nat) : M S unit :=
  sfd ← unixBind SV_SOCK_PATH_v2 SOCK_STREAM;
  if sfd =? -1 then errExit (str "unixBind") else
  xfr_serve fuel sfd.
End Xfr.

(** ** Copying a file *)

(** A path is opened as [fd], or not at all. *)
Class Opens `{os} (path : cstr) (fd : Z) := opens : ∀ tr fl m, rv (kern tr (Copen path fl m)) = -1 ∨ rv (kern tr (Copen path fl m)) = fd.

Lemma end_of_fails `{os} b : end_of b ≠ Exit 0.
Proof. unfold end_of. destruct (getenv _) as [[|]|]; by destruct b. Qed.

Section CopySpecs.
Context {S : Type} `{os} (content : cstr) (fi fo : Z).
Implicit Types s : st S.

(** With success everything is in the new file; otherwise a first part is, and
    something went wrong. *)
Definition file_copied s (t : stop) s' : Prop :=
  ∃ l, acted s l s' ∧
    (t = Exit 0 ∧ got_from fi l = content ∧ put_to fo l = content ∨
     t ≠ Exit 0 ∧ put_to fo l `prefix_of` content ∧ went_wrong fo l).

(** How far it is. *)
Definition copied_part s (s' : st S) (part : cstr) (fine : Prop) : Prop :=
  ∃ l, acted s l s' ∧ put_to fo l = part ∧ part `prefix_of` content ∧ (¬ fine → went_wrong fo l) ∧ (fine → got_from fi l = content).

Lemma copied_errExit {A} text s s1 part (fine : Prop) (Q : A → st S → Prop) :
  copied_part s s1 part fine → ¬ fine → wp (errExit text) Q (file_copied s) s1.
Proof using.
  intros (l & Ha & Hp & Hpre & Hw & _) Hf. eapply wp_act_errExit; [exact Ha|]. intros s2 Ha2. exists l. split; [done|]. right.
  rewrite Hp. split; [apply end_of_fails|]. auto.
Qed.

Lemma copied_fatal {A} text s s1 part (fine : Prop) (Q : A → st S → Prop) :
  copied_part s s1 part fine → ¬ fine → wp (fatal text) Q (file_copied s) s1.
Proof using.
  intros (l & Ha & Hp & Hpre & Hw & _) Hf. apply wp_fatal. intros s2 Hg2 Hacts. exists l. split; [by eapply acted_same|]. right.
  rewrite Hp. split; [apply end_of_fails|]. auto.
Qed.

Lemma copied_errexit {A} text s s1 part (fine : Prop) (Q : A → st S → Prop) :
  strlen text < 1024 → copied_part s s1 part fine → ¬ fine → wp (errexit text) Q (file_copied s) s1.
Proof using.
  intros Ht (l & Ha & Hp & Hpre & Hw & _) Hf. unfold errexit. rewrite (proj2 (Z.ltb_lt _ _)) by done.
  apply wp_bind, wp_emit, wp_stop. exists l. split; [eapply acted_same; [exact Ha|apply acts_out|done]|]. right.
  rewrite Hp. split; [done|]. auto.
Qed.

(** A call that neither reads nor writes. *)
Lemma wp_copied_call c s s1 part fine (Q : reply → st S → Prop) E :
  copied_part s s1 part fine → (∀ f, c ≠ Cfflush f) → (∀ r, taken_by fi (Esys c r) = [] ∧ put_by fo (Esys c r) = []) →
  (∀ r s2, r = kern (trace s1) c → copied_part s s2 part (fine ∧ rv r ≠ -1) → copied_part s s2 part fine → Q r s2) → wp (sys c) Q E s1.
Proof using.
  intros (l & Ha & Hp & Hpre & Hw & Hg) Hc Ho HQ. eapply wp_act; [exact Ha|done|]. intros r s2 Hr Ha2 _ _.
  destruct (Ho r) as [Ho1 Ho2]. apply HQ; [done| |].
  - exists (l ++ [(c, r)]). rewrite put_to_other by done. rewrite got_from_other by done. split_and!; try done; [|tauto].
    intros Hn. destruct (decide (rv r = -1)); [apply went_wrong_last; auto|]. apply went_wrong_app. left. tauto.
  - exists (l ++ [(c, r)]). rewrite put_to_other by done. rewrite got_from_other by done. split_and!; try done.
    intros Hn. apply went_wrong_app. auto.
Qed.

Lemma wp_copied_loop budget fuel size short s s1 (Q : Z → st S → Prop) :
  0 < size → Source fi content budget → (length content < fuel)%nat → taken fi (trace s1) = [] →
  (∃ l, acted s l s1 ∧ put_to fo l = [] ∧ got_from fi l = []) →
  (∀ z s2 part, copied_part s s2 part (z = 0) → z = 0 ∧ part = content ∨ z = -1 → Q z s2) →
  (∀ s2 part, copied_part s s2 part False → wp short (λ _ _, False) (file_copied s) s2) →
  wp (copy_loop fuel fi size id fo short) Q (file_copied s) s1.
Proof using.
  intros Hsize Hsrc Hfuel Ht (l0 & Ha0 & Hp0 & Hg0) HQ HE. eapply wp_copy_loop; [done|done|by rewrite Ht| |].
  - intros z s2 (l & Ha & Hp & Hz). rewrite Ht in Hz. cbn [length drop] in Hz. rewrite list_fmap_id in Hp.
    assert (got_from fi l `prefix_of` content) as Hpre by (destruct Hz as [[_ ->]|(_ & ? & _)]; done).
    eapply (HQ _ _ (got_from fi l)); [|destruct Hz as [[-> ->]|(-> & _)]; auto].
    exists (l0 ++ l). rewrite put_to_app, got_from_app, Hp0, Hg0, Hp. split; [by eapply acted_app|]. split; [done|]. split; [done|].
    split; [|intros ->; by destruct Hz as [[_ ?]|[? _]]].
    intros Hn. destruct Hz as [[? _]|(_ & _ & Hw)]; [done|]. apply went_wrong_app. auto.
  - intros s2 (l & got & Ha & Hpre & Hp & Hw). rewrite Ht in Hpre. cbn [length drop] in Hpre. rewrite list_fmap_id in Hp. eapply (HE _ got).
    exists (l0 ++ l). rewrite put_to_app, Hp0, Hp. split; [by eapply acted_app|]. split; [done|]. split; [done|]. split; [|done].
    intros _. apply went_wrong_app. auto.
Qed.

(** Before the loop. *)
Definition unread s (s1 : st S) : Prop := ∃ l, acted s l s1 ∧ put_to fo l = [] ∧ got_from fi l = [].

Lemma unread_refl s : unread s s.
Proof using. exists []. split; [apply acted_refl|done]. Qed.

Lemma wp_opening path fl m fd s s1 (Q : reply → st S → Prop) E :
  Opens path fd → unread s s1 →
  (∀ r s2, rv r = -1 → copied_part s s2 [] False → Q r s2) →
  (∀ r s2, rv r = fd → rv r ≠ -1 → unread s s2 → Q r s2) → wp (sys (Copen path fl m)) Q E s1.
Proof using.
  intros Hop (l & Ha & Hp & Hg) Hf Hs. eapply wp_act; [exact Ha|done|]. intros r s2 Hr Ha2 _ _.
  pose proof (opens (trace s1) fl m) as Hl. rewrite <-Hr in Hl. destruct (decide (rv r = -1)) as [E1|E1].
  - apply Hf; [done|]. exists (l ++ [(Copen path fl m, r)]). rewrite put_to_other by done. split; [done|]. split; [done|].
    split; [apply prefix_nil|]. split; [|done]. intros _. apply went_wrong_last. auto.
  - apply Hs; [tauto|done|]. exists (l ++ [(Copen path fl m, r)]). rewrite put_to_other, got_from_other by done. done.
Qed.
End CopySpecs.

(** C26: copying a file: tlpi-book/fileio/copy.c and homework/hw1/1-2/cp.c, on
    any system that opens the two files, if at all, as two descriptors, and
    gives the contents of the first in reads of any size, with any failures.
    Both end.  With success, all of the old file is in the new one.  Otherwise
    what is in the new one is a first part of the old, and some call failed or
    wrote less than it was given. *)
Theorem copy_programs_correct {S} (K : os) old new fi fo content budget fuel prog (s : st S) :
  old ≠ str "--help" → Opens old fi → Opens new fo → Source fi content budget →
  (length content < fuel)%nat → taken fi (trace s) = [] →
  ∀ main, main = copy_main fuel ∨ main = cp_main fuel →
  ∃ t s', main [prog; old; new] s = (Stop t, s') ∧ file_copied content fi fo s t s'.
Proof.
  intros Hhelp Hold Hnew Hsrc Hfuel Ht main Hmain.
  enough (wp (main [prog; old; new]) (λ _ _, False) (file_copied content fi fo s) s) as Hwp
    by (apply wp_run in Hwp as [(? & ? & _ & [])|(t & s' & Hr & H)]; eauto).
  assert (∀ s1, unread fi fo s s1 → taken fi (trace s1) = []) as Htk.
  { intros s1 (l & Ha & _ & Hg). by rewrite (acted_taken fi _ _ _ Ha), Ht, Hg. }
  destruct Hmain as [-> | ->].
  - unfold copy_main. apply wp_bind. rewrite (proj2 (streq_false _ _)) by done. apply wp_ret.
    apply wp_bind. eapply (wp_opening content fi fo); [exact Hold|apply unread_refl| |].
    { intros i s1 -> H1. cbn [Z.eqb Pos.eqb]. eapply copied_errExit; [exact H1|tauto].  }
    intros i s1 Hi Hi1 H1. rewrite (proj2 (Z.eqb_neq _ _) Hi1), Hi.
    apply wp_bind. eapply (wp_opening content fi fo); [exact Hnew|exact H1| |].
    { intros o s2 -> H2. cbn [Z.eqb Pos.eqb]. eapply copied_errExit; [exact H2|tauto]. }
    intros o s2 Ho Ho1 H2. rewrite (proj2 (Z.eqb_neq _ _) Ho1), Ho.
    apply wp_bind. eapply (wp_copied_loop content fi fo); [done|exact Hsrc|done|by apply Htk|exact H2| |].
    2: { intros s3 part H3. eapply copied_fatal; [exact H3|lia]. }
    intros z s3 part H3 [[-> ->]| ->]; apply wp_bind; cbn [Z.eqb Pos.eqb when].
    2: { eapply copied_errExit; [exact H3|lia]. }
    apply wp_ret. apply wp_bind. eapply wp_copied_call; [exact H3|done|done|]. intros k s4 _ H4 _.
    apply wp_bind. destruct (Z.eqb_spec (rv k) (-1)) as [Hk|Hk]; cbn [when]; [eapply copied_errExit; [exact H4|tauto]|].
    apply wp_ret, wp_bind. eapply wp_copied_call; [exact H4|done|done|]. intros k' s5 _ H5 _.
    apply wp_bind. destruct (Z.eqb_spec (rv k') (-1)) as [Hk'|Hk']; cbn [when]; [eapply copied_errExit; [exact H5|tauto]|].
    apply wp_ret, wp_stop. destruct H5 as (l & Ha & Hp & _ & _ & Hg). exists l. split; [done|]. left. rewrite Hp. tauto.
  - unfold cp_main. apply wp_bind. eapply (wp_opening content fi fo); [exact Hold|apply unread_refl| |].
    { intros i s1 -> H1. cbn [Z.eqb Pos.eqb]. eapply copied_errexit; [done|exact H1|tauto]. }
    intros i s1 Hi Hi1 H1. rewrite (proj2 (Z.eqb_neq _ _) Hi1), Hi.
    apply wp_bind. eapply (wp_opening content fi fo); [exact Hnew|exact H1| |].
    { intros o s2 -> H2. cbn [Z.eqb Pos.eqb]. eapply copied_errexit; [done|exact H2|tauto]. }
    intros o s2 Ho Ho1 H2. rewrite (proj2 (Z.eqb_neq _ _) Ho1), Ho.
    apply wp_bind. eapply (wp_copied_loop content fi fo); [done|exact Hsrc|done|by apply Htk|exact H2| |].
    2: { intros s3 part H3. eapply copied_errexit; [done|exact H3|lia]. }
    intros z s3 part H3 [[-> ->]| ->]; apply wp_bind; cbn [Z.eqb Pos.eqb when].
    2: { eapply copied_errexit; [done|exact H3|lia]. }
    apply wp_ret. apply wp_bind. eapply wp_copied_call; [exact H3|done|done|]. intros k s4 _ _ H4.
    apply wp_bind. eapply wp_copied_call; [exact H4|done|done|]. intros k' s5 _ _ H5.
    apply wp_stop. destruct H5 as (l & Ha & Hp & _ & _ & Hg). exists l. split; [done|]. left. rewrite Hp. auto.
Qed.

(** A system with files in chunks of four bytes. *)
Definition files_os (content old : cstr) : os := test_os (λ tr c,
  match c with
  | Copen path _ _ => ok (if streq path old then 3 else 4)
  | _ => @kern (chunked 0 content 4) tr c
  end).

Lemma files_os_opens content old path : @Opens (files_os content old) path (if streq path old then 3 else 4).
Proof. intros tr fl m. by right. Qed.

Lemma files_os_source content old fd : @Source (files_os content old) fd content 0.
Proof. intros tr n Hn. exact (@chunked_source 0 content 4 fd ltac:(lia) tr n Hn). Qed.

Lemma copy_programs_witness :
  let o := files_os (str "hello world") (str "a") in
  ∃ s', copy_main 12 [str "copy"; str "a"; str "b"] (init tt) = (Stop (Exit 0), s') ∧ file_copied (str "hello world") 3 4 (init tt) (Exit 0) s'.
Proof.
  intros o.
  destruct (copy_programs_correct o (str "a") (str "b") 3 4 (str "hello world") 0 12 (str "copy") (init tt) ltac:(by vm_compute)
    (files_os_opens _ _ (str "a")) (files_os_opens _ _ (str "b")) (files_os_source _ _ 3) ltac:(simpl; lia) eq_refl (copy_main 12)
    (or_introl eq_refl)) as (t & s' & Hr & Hc).
  exists s'. assert (t = Exit 0) as ->; [|by split]. apply (f_equal fst) in Hr. vm_compute in Hr. congruence.
Defined.

(** ** What goes through a Unix socket *)

Section XfrSpecs.
Context {S : Type} `{os}.
Implicit Types s : st S.

(** A client: success means that all of its standard input went out. *)
Definition client_sent (content : cstr) (sfd : Z) s (t : stop) s' : Prop :=
  ∃ l, acted s l s' ∧ (t = Exit 0 ∧ put_to sfd l = content ∨ t ≠ Exit 0 ∧ put_to sfd l `prefix_of` content).

Lemma client_failed {A} text content sfd s s1 l (Q : A → st S → Prop) :
  acted s l s1 → put_to sfd l `prefix_of` content → wp (errExit text) Q (client_sent content sfd s) s1.
Proof using. intros Ha Hp. eapply wp_act_errExit; [exact Ha|]. intros s2 Ha2. exists l. split; [done|]. right. split; [apply end_of_fails|done]. Qed.

Lemma wp_xfr_send content budget fuel sfd s s1 l0 :
  Source 0 content budget → (length content < fuel)%nat → acted s l0 s1 → taken 0 (trace s) = [] → got_from 0 l0 = [] → put_to sfd l0 = [] →
  wp (xfr_send fuel sfd) (λ _ _, False) (client_sent content sfd s) s1.
Proof using.
  intros Hsrc Hfuel Ha0 Ht Hg0 Hp0. assert (taken 0 (trace s1) = []) as Ht1 by by rewrite (acted_taken 0 _ _ _ Ha0), Ht, Hg0.
  unfold xfr_send. apply wp_bind. eapply wp_copy_loop; [done|exact Hsrc|by rewrite Ht1| |].
  - intros z s2 (l & Ha & Hp & Hz). rewrite Ht1, list_fmap_id in *. cbn [length drop] in Hz.
    assert (put_to sfd (l0 ++ l) = got_from 0 l) as Hall by by rewrite put_to_app, Hp0, Hp.
    pose proof (acted_app _ _ _ _ _ Ha0 Ha) as Ha2. destruct Hz as [[-> Hz]|(-> & Hz & _)]; cbn [Z.eqb Pos.eqb when]; apply wp_bind.
    + apply wp_ret, wp_stop. exists (l0 ++ l). split; [done|]. left. rewrite Hall. done.
    + eapply client_failed; [exact Ha2|by rewrite Hall].
  - intros s2 (l & got & Ha & Hpre & Hp & _). rewrite Ht1, list_fmap_id in *. cbn [length drop] in Hpre. apply wp_fatal. intros s3 Hg3 Hacts3.
    exists (l0 ++ l). split; [eapply acted_same; [by eapply acted_app|done|done]|]. right. split; [apply end_of_fails|].
    by rewrite put_to_app, Hp0, Hp.
Qed.

(** The clients, up to the loop. *)
Lemma wp_clients content budget fuel s :
  Source 0 content budget → (length content < fuel)%nat → taken 0 (trace s) = [] →
  ∀ main, main = us_xfr_cl_main fuel ∨ main = us_xfr_v2_cl_main fuel →
  wp main (λ _ _, False) (λ t s', ∃ sfd, client_sent content sfd s t s') s.
Proof using.
  intros Hsrc Hfuel Ht main Hmain.
  assert (∀ A text l s1 (Q : A → st S → Prop), acted s l s1 → put_to 0 l = [] → wp (errExit text) Q (λ t s', ∃ sfd, client_sent content sfd s t s') s1) as Hfail.
  { intros A text l s1 Q Ha Hp. eapply wp_mono; [eapply (client_failed text content 0); [exact Ha|rewrite Hp; apply prefix_nil]|done|eauto]. }
  assert (∀ l s1 sfd, acted s l s1 → put_to sfd l = [] → got_from 0 l = [] →
    wp (xfr_send fuel sfd) (λ _ _, False) (λ t s', ∃ sfd, client_sent content sfd s t s') s1) as Hsend.
  { intros l s1 sfd Ha Hp Hg. eapply wp_mono; [by eapply wp_xfr_send|done|eauto]. }
  destruct Hmain as [-> | ->].
  - unfold us_xfr_cl_main. apply wp_bind. eapply wp_act; [apply acted_refl|done|]. intros r s1 _ H1 _ _.
    destruct (rv r =? -1); [by eapply Hfail|]. apply wp_bind. eapply wp_act; [exact H1|done|]. intros c s2 _ H2 _ _.
    destruct (rv c =? -1); [by eapply Hfail|]. by eapply Hsend.
  - unfold us_xfr_v2_cl_main. apply wp_bind. unfold unixConnect, unix_socket, unixBuildAddress.
    replace (strlen SV_SOCK_PATH_v2 <? Z.of_nat SUN_PATH) with true by done. apply wp_bind, wp_ret. cbn [Z.eqb].
    apply wp_bind. eapply wp_act; [apply acted_refl|done|]. intros r s1 _ H1 _ _.
    destruct (Z.eqb_spec (rv r) (-1)) as [E1|E1]; [apply wp_ret; by eapply Hfail|].
    apply wp_bind. eapply wp_act; [exact H1|done|]. intros c s2 _ H2 _ _. destruct (rv c =? -1).
    + apply wp_bind, wp_get_errno, wp_bind. eapply wp_act; [exact H2|done|]. intros k s3 _ H3 _ _.
      apply wp_bind, wp_set_errno, wp_ret. eapply (Hfail _ _ _ (St (glob s3) (errno s2) (trace s3))); [exact H3|done].
    + apply wp_ret. rewrite (proj2 (Z.eqb_neq _ _) E1). by eapply Hsend.
Qed.
End XfrSpecs.

Section XfrServer.
Context {S : Type} `{os}.
Implicit Types s : st S.

(** A turn of the server, when the connection delivers [rest]. *)
Lemma wp_xfr_turn content budget fuel lfd s :
  let cfd := rv (kern (trace s) (Caccept lfd)) in
  let rest := drop (length (taken cfd (trace s))) content in
  Source cfd content budget → (length rest < fuel)%nat →
  wp (xfr_turn fuel lfd) (λ x s', x = inl tt ∧ ∃ l, acted s l s' ∧ put_to 1 l = rest)
    (λ t s', t ≠ Exit 0 ∧ ∃ l, acted s l s' ∧ put_to 1 l `prefix_of` rest) s.
Proof using.
  intros cfd rest Hsrc Hfuel. unfold xfr_turn. apply wp_bind. eapply wp_act; [apply acted_refl|done|]. intros c s1 Hc H1 _ Ht1. cbn [app] in H1.
  assert (rv c = cfd) as -> by by rewrite Hc. assert (taken cfd (trace s1) = taken cfd (trace s)) as Htk
    by (rewrite (acted_taken cfd _ _ _ H1); apply app_nil_r).
  assert (∀ A text l s2 (Q : A → st S → Prop), acted s l s2 → put_to 1 l `prefix_of` rest →
    wp (errExit text) Q (λ t s', t ≠ Exit 0 ∧ ∃ l, acted s l s' ∧ put_to 1 l `prefix_of` rest) s2) as Hfail.
  { intros A text l s2 Q Ha Hp. eapply wp_act_errExit; [exact Ha|]. intros s3 Ha3. split; [apply end_of_fails|]. eauto. }
  destruct (Z.eqb_spec cfd (-1)) as [E|E]; [eapply Hfail; [exact H1|apply prefix_nil]|].
  apply wp_bind. eapply wp_copy_loop; [done|exact Hsrc|by rewrite Htk| |].
  - intros z s2 (l & Ha & Hp & Hz). rewrite Htk, list_fmap_id in *. fold rest in Hz.
    pose proof (acted_app _ _ _ _ _ H1 Ha) as Ha2. destruct Hz as [[-> Hz]|(-> & Hz & _)]; cbn [Z.eqb Pos.eqb when]; apply wp_bind.
    + apply wp_ret, wp_bind. eapply wp_act; [exact Ha2|done|]. intros k s3 _ Ha3 _ _.
      assert (put_to 1 (([(Caccept lfd, c)] ++ l) ++ [(Cclose cfd, k)]) = rest) as Hout by (rewrite put_to_other, put_to_app, Hp, Hz by done; done).
      apply wp_bind. destruct (rv k =? -1); cbn [when]; [apply wp_errMsg; intros s4 Hg4 _ Hacts4|]; apply wp_ret; (split; [done|]).
      * eexists. split; [by eapply acted_same|done].
      * eexists. split; [exact Ha3|done].
    + eapply Hfail; [exact Ha2|]. by rewrite put_to_app, Hp.
  - intros s2 (l & got & Ha & Hpre & Hp & _). rewrite Htk, list_fmap_id in *. fold rest in Hpre. apply wp_fatal. intros s3 Hg3 Hacts3.
    split; [apply end_of_fails|]. eexists. split; [eapply acted_same; [by eapply acted_app|done|done]|]. by rewrite put_to_app, Hp.
Qed.

(** A connection served to its end. *)
Definition connection (lfd : Z) (l : list (call * reply)) : Prop :=
  ∃ c body r k, l = (Caccept lfd, c) :: (body ++ [(Cread (rv c) XFR_SIZE, r)]) ++ [(Cclose (rv c), k)] ∧ rv c ≠ -1 ∧
    copying (rv c) XFR_SIZE id 1 body ∧ rv r <= 0 ∧ rv r ≠ -1.

Definition connected_to (lfd : Z) (l : list (call * reply)) : Prop :=
  ∃ c body, l = (Caccept lfd, c) :: body ∧ rv c ≠ -1 ∧ copying (rv c) XFR_SIZE id 1 body.

(** What stops the server: accept, a write or a read. *)
Definition connection_failed (lfd : Z) (l : list (call * reply)) : Prop :=
  ∃ c body, l = (Caccept lfd, c) :: body ∧
    (rv c = -1 ∧ body = [] ∨
     rv c ≠ -1 ∧ ∃ l1 l2, body = l1 ++ l2 ∧ copying (rv c) XFR_SIZE id 1 l1 ∧
       (cut_short (rv c) XFR_SIZE id 1 l2 ∨ ∃ r, l2 = [(Cread (rv c) XFR_SIZE, r)] ∧ rv r = -1)).

(** After [l0], which writes nothing, connections one after the other. *)
Definition xfr_served (lfd : Z) s (last : list (call * reply) → Prop) s' : Prop :=
  ∃ l0 ls l, acted s (l0 ++ concat ls ++ l) s' ∧ put_to 1 l0 = [] ∧ Forall (connection lfd) ls ∧ last l.

Lemma wlp_xfr_turn fuel lfd s0 l s :
  acted s0 l s →
  wlp (xfr_turn fuel lfd) (λ x s', x = inl tt ∧ ∃ k, acted s0 (l ++ k) s' ∧ connection lfd k)
    (λ t s', t ≠ Exit 0 ∧ ∃ k, acted s0 (l ++ k) s' ∧ connection_failed lfd k)
    (λ s', ∃ k, acted s0 (l ++ k) s' ∧ connected_to lfd k) s.
Proof using.
  intros Ha0. unfold xfr_turn. apply wlp_bind, wp_wlp. eapply wp_act; [exact Ha0|done|]. intros c s1 _ H1 _ _.
  destruct (Z.eqb_spec (rv c) (-1)) as [E|E].
  { apply wp_wlp. eapply wp_act_errExit; [exact H1|]. intros s2 H2. split; [apply end_of_fails|]. eexists. split; [exact H2|].
    exists c, []. auto. }
  assert (∀ k s', acted s1 k s' → acted s0 (l ++ (Caccept lfd, c) :: k) s') as Hacted.
  { intros k s' Hk. pose proof (acted_app _ _ _ _ _ H1 Hk) as Hx. by rewrite <-app_assoc in Hx. }
  apply wlp_bind. apply wlp_copy_loop.
  - intros k r s2 Ha2 Hk Hr _. apply wlp_bind. destruct (Z.eqb_spec (rv r) (-1)) as [E2|E2]; cbn [when]; apply wp_wlp.
    + eapply wp_act_errExit; [by apply Hacted|]. intros s3 H3. split; [apply end_of_fails|]. eexists. split; [exact H3|].
      exists c. eexists. split; [done|]. right. split; [done|]. exists k. eexists. split; [done|]. split; [done|]. right. eauto.
    + apply wp_ret, wp_wlp, wp_bind. eapply wp_act; [by apply Hacted|done|]. intros q s3 _ H3 _ _.
      rewrite <-app_assoc in H3. cbn [app] in H3.
      assert (connection lfd ((Caccept lfd, c) :: (k ++ [(Cread (rv c) XFR_SIZE, r)]) ++ [(Cclose (rv c), q)])) as Hconn by (exists c, k, r, q; auto).
      apply wp_bind. destruct (rv q =? -1); cbn [when]; [apply wp_errMsg; intros s4 Hg4 _ Hacts4|]; apply wp_ret; (split; [done|]); eexists; (split; [|exact Hconn]).
      * by eapply acted_same.
      * exact H3.
  - intros k k' s2 Ha2 Hk Hk'. apply wp_wlp, wp_fatal. intros s3 Hg3 Hacts3. split; [apply end_of_fails|].
    eexists. split; [eapply acted_same; [by apply Hacted|done|done]|]. exists c. eexists. split; [done|]. right. split; [done|]. exists k, k'. auto.
  - intros k s2 Ha2 Hk. eexists. split; [by apply Hacted|]. exists c, k. auto.
Qed.

Lemma wlp_xfr_serve fuel lfd s0 l s :
  acted s0 l s → put_to 1 l = [] →
  wlp (xfr_serve fuel lfd) (λ _ _, False) (λ t s', t ≠ Exit 0 ∧ xfr_served lfd s0 (λ k, k = [] ∨ connection_failed lfd k) s')
    (xfr_served lfd s0 (λ k, k = [] ∨ connected_to lfd k)) s.
Proof using.
  intros Ha0 Hp0. unfold xfr_serve. apply wlp_bind, wp_wlp. eapply wp_act; [exact Ha0|done|]. intros r s1 _ H1 _ _.
  assert (put_to 1 (l ++ [(Clisten lfd XFR_BACKLOG, r)]) = []) as Hp1 by by rewrite put_to_other.
  destruct (rv r =? -1).
  { apply wp_wlp. eapply wp_act_errExit; [exact H1|]. intros s2 H2. split; [apply end_of_fails|]. eexists _, [], []. cbn [concat app]. rewrite app_nil_r. split_and!; [exact H1||exact H2|done|by apply Forall_nil_2|auto]. }
  apply (wlp_loop (λ _ s', xfr_served lfd s0 (λ k, k = []) s')).
  - eexists _, [], []. cbn [concat app]. rewrite app_nil_r. split_and!; [exact H1||exact H2|done|by apply Forall_nil_2|auto].
  - intros _ s' (l0 & ls & k & Hk & Hl0 & Hls & ->). exists l0, ls, []. auto.
  - intros [] s2 (l0 & ls & k & Hk & Hl0 & Hls & ->). rewrite app_nil_r in Hk.
    eapply wlp_mono; [eapply wlp_xfr_turn; exact Hk| | |].
    + intros x s3 (-> & k & Hk3 & Hc). exists l0, (ls ++ [k]), []. rewrite concat_app, app_nil_r. cbn [concat]. rewrite app_nil_r, app_assoc.
      split; [done|]. split; [done|]. split; [|done]. apply Forall_app. auto.
    + intros t s3 (Ht & k & Hk3 & Hc). split; [done|]. exists l0, ls, k. rewrite app_assoc. auto.
    + intros s3 (k & Hk3 & Hc). exists l0, ls, k. rewrite app_assoc. auto.
Qed.
End XfrServer.

(** The servers us_xfr_sv.c and us_xfr_v2_sv.c, on any system, for however
    long: they never return.  They write to their standard output what they
    read from one connection after the other, chunk by chunk, each to its end;
    they stop only when starting up, accept, a read or a write fails, with
    failure. *)
Theorem us_xfr_servers_correct {S} (K : os) fuel main (s : st S) :
  main = us_xfr_sv_main fuel ∨ main = us_xfr_v2_sv_main fuel →
  wlp main (λ _ _, False) (λ t s', t ≠ Exit 0 ∧ ∃ lfd, xfr_served lfd s (λ k, k = [] ∨ connection_failed lfd k) s')
    (λ s', ∃ lfd, xfr_served lfd s (λ k, k = [] ∨ connected_to lfd k) s') s.
Proof.
  assert (∀ A text l s1 (Q : A → st S → Prop) F, acted s l s1 → put_to 1 l = [] →
    wlp (errExit text) Q (λ t s', t ≠ Exit 0 ∧ ∃ lfd, xfr_served lfd s (λ k, k = [] ∨ connection_failed lfd k) s') F s1) as Hfail.
  { intros A text l s1 Q F Ha Hp. apply wp_wlp. eapply wp_act_errExit; [exact Ha|]. intros s2 H2. split; [apply end_of_fails|].
    exists 0, l, [], []. cbn [concat app]. rewrite app_nil_r. auto. }
  assert (∀ l s1 lfd, acted s l s1 → put_to 1 l = [] →
    wlp (xfr_serve fuel lfd) (λ _ _, False) (λ t s', t ≠ Exit 0 ∧ ∃ lfd, xfr_served lfd s (λ k, k = [] ∨ connection_failed lfd k) s')
    (λ s', ∃ lfd, xfr_served lfd s (λ k, k = [] ∨ connected_to lfd k) s') s1) as Hserve.
  { intros l s1 lfd Ha Hp. eapply wlp_mono; [exact (wlp_xfr_serve fuel lfd s l s1 Ha Hp)|done|intros ? ? [? ?]; eauto|eauto]. }
  intros [-> | ->].
  - unfold us_xfr_sv_main. apply wlp_bind, wp_wlp. eapply wp_act; [apply acted_refl|done|]. intros r s1 _ H1 _ _. cbn [app] in H1.
    destruct (rv r =? -1); [by eapply Hfail|]. unfold remove_path. apply wlp_bind, wlp_bind, wp_wlp. eapply wp_act; [exact H1|done|].
    intros u s2 _ H2 _ _. apply wlp_bind, wp_wlp, wp_get_errno. destruct ((rv u =? -1) && negb (errno s2 =? ENOENT)); cbn [when].
    + by eapply Hfail.
    + apply wp_wlp, wp_ret. apply wlp_bind, wp_wlp. eapply wp_act; [exact H2|done|]. intros b s3 _ H3 _ _.
      destruct (rv b =? -1); [by eapply Hfail|by eapply Hserve].
  - unfold us_xfr_v2_sv_main. apply wlp_bind. unfold unixBind, unix_socket, unixBuildAddress.
    replace (strlen SV_SOCK_PATH_v2 <? Z.of_nat SUN_PATH) with true by done. apply wlp_bind, wp_wlp, wp_ret. cbn [Z.eqb].
    apply wlp_bind, wp_wlp. eapply wp_act; [apply acted_refl|done|]. intros r s1 _ H1 _ _.
    destruct (Z.eqb_spec (rv r) (-1)) as [E1|E1]; [apply wp_wlp, wp_ret; by eapply Hfail|].
    apply wlp_bind, wp_wlp. eapply wp_act; [exact H1|done|]. intros c s2 _ H2 _ _. destruct (rv c =? -1).
    + apply wlp_bind, wp_wlp, wp_get_errno, wlp_bind, wp_wlp. eapply wp_act; [exact H2|done|]. intros k s3 _ H3 _ _.
      apply wlp_bind, wp_wlp, wp_set_errno, wp_wlp, wp_ret. eapply (Hfail _ _ _ (St (glob s3) (errno s2) (trace s3))); [exact H3|done].
    + apply wp_wlp, wp_ret. rewrite (proj2 (Z.eqb_neq _ _) E1). by eapply Hserve.
Qed.

(** A transfer (us_xfr_cl.c or its second version, to the server's loop),
    on any two systems: the client ends, and has sent a first part of its
    standard input, all of it when it ends with success.  A turn of the server
    that is given what the client sent ends too: it has written that to its
    standard output when it goes on to the next turn, and a first part of it
    when it stops, with failure. *)
Theorem us_xfr_transfer {S S'} (Kc Ks : os) content budget budget' fuel fuel' lfd (c : st S) (s : st S') main :
  @Source Kc 0 content budget → (length content < fuel)%nat → taken 0 (trace c) = [] →
  main = @us_xfr_cl_main S Kc fuel ∨ main = @us_xfr_v2_cl_main S Kc fuel →
  ∃ t c' sfd l, main c = (Stop t, c') ∧ acted c l c' ∧ put_to sfd l `prefix_of` content ∧ (t = Exit 0 → put_to sfd l = content) ∧
    ∀ given, let cfd := rv (@kern Ks (trace s) (Caccept lfd)) in
      @Source Ks cfd given budget' → drop (length (taken cfd (trace s))) given = put_to sfd l → (length (put_to sfd l) < fuel')%nat →
      ∃ o s' l', @xfr_turn S' Ks fuel' lfd s = (o, s') ∧ acted s l' s' ∧
        (o = Ret (inl tt) ∧ put_to 1 l' = put_to sfd l ∨
         (∃ t', o = Stop t' ∧ t' ≠ Exit 0) ∧ put_to 1 l' `prefix_of` put_to sfd l).
Proof.
  intros Hsrc Hfuel Ht Hmain.
  destruct (wp_run _ _ _ _ (@wp_clients S Kc content budget fuel c Hsrc Hfuel Ht main Hmain)) as [(? & ? & _ & [])|(t & c' & Hrun & sfd & l & Ha & Hl)].
  exists t, c', sfd, l. split; [done|]. split; [done|]. split; [by destruct Hl as [[_ ->]|[_ ?]]|]. split; [tauto|].
  intros given cfd Hgiven Hrest Hf'. pose proof (@wp_xfr_turn S' Ks given budget' fuel' lfd s) as Hturn. cbv zeta in Hturn. fold cfd in Hturn.
  rewrite Hrest in Hturn. specialize (Hturn Hgiven Hf').
  apply wp_run in Hturn as [(x & s' & Hr & -> & l' & Ha' & Hp)|(t' & s' & Hr & Ht' & l' & Ha' & Hp)]; exists (@xfr_turn S' Ks fuel' lfd s).1, s', l'; rewrite Hr; eauto 10.
Qed.

(** A connection that delivers [content], in chunks. *)
Definition socket_os (content : cstr) : os := test_os (λ tr c,
  match c with
  | Csocket _ _ _ | Caccept _ => ok 5
  | _ => @kern (chunked 0 content 4) tr c
  end).

Lemma socket_os_source content fd : @Source (socket_os content) fd content 0.
Proof. intros tr n Hn. exact (@chunked_source 0 content 4 fd ltac:(lia) tr n Hn). Qed.

Lemma us_xfr_transfer_witness :
  ∃ s' l', @xfr_turn unit (socket_os (str "hello world")) 12 3 (init tt) = (Ret (inl tt), s') ∧ acted (init tt) l' s' ∧
    put_to 1 l' = str "hello world".
Proof.
  destruct (us_xfr_transfer (S:=unit) (S':=unit) (socket_os (str "hello world")) (socket_os (str "hello world")) (str "hello world") 0 0 12 12 3
    (init tt) (init tt) (@us_xfr_cl_main unit (socket_os (str "hello world")) 12) (socket_os_source _ _) ltac:(simpl; lia) eq_refl (or_introl eq_refl))
    as (t & c' & sfd & l & Hrun & Ha & Hpre & Hall & Hsrv).
  assert (put_to sfd l = str "hello world") as Hl by (apply Hall; apply (f_equal fst) in Hrun; vm_compute in Hrun; congruence).
  rewrite Hl in Hsrv. destruct (Hsrv (str "hello world") (socket_os_source _ _) eq_refl ltac:(simpl; lia)) as (o & s' & l' & Hr & Ha' & Hcases).
  exists s', l'. destruct Hcases as [[-> Hp]|[(t' & -> & _) _]]; [exact (conj Hr (conj Ha' Hp))|]. apply (f_equal fst) in Hr. vm_compute in Hr. congruence.
Defined.

(** ** tee *)

(** The bytes handed to a descriptor, accepted or not. *)
Definition offer (dst : Z) (x : call * reply) : cstr :=
  match x.1 with Cwrite fd bs => if fd =? dst then bs else [] | _ => [] end.
Definition offered (dst : Z) (l : list (call * reply)) : cstr := concat (offer dst <$> l).

Lemma offered_snoc dst l x : offered dst (l ++ [x]) = offered dst l ++ offer dst x.
Proof. unfold offered. by rewrite fmap_app, concat_app; cbn; rewrite app_nil_r. Qed.

(** tee -a file, on any system that gives its standard input in reads of any
    size: it ends; with success all of the input has been handed to its standard
    output and to the file, otherwise the same first part to both.  It does not look whether all was accepted. *)
Theorem tee_correct {S} (K : os) file fd content budget fuel prog (s : st S) :
  Opens file fd → fd ≠ 1 → Source 0 content budget → (length content < fuel)%nat → taken 0 (trace s) = [] → strlen file < 1000 →
  wp (tee_main fuel [prog; str "-a"; file]) (λ _ _, False)
    (λ t s', ∃ l, acted s l s' ∧
      (t = Exit 0 ∧ offered 1 l = content ∧ offered fd l = content ∨
       t = Exit 1 ∧ offered 1 l `prefix_of` content ∧ offered fd l = offered 1 l)) s.
Proof.
  intros Hop Hfd Hsrc Hfuel Ht Hlen.
  assert (∃ fs, (getopt_env tee_spec [str "-a"; file]).1 = Opt "a"%char None :: fs) as [fs Hfs].
  { unfold getopt_env. destruct (getenv _).
    - change (str "-a") with ("-"%char :: ["a"%char]). rewrite getopt_flag by done. destruct (getopt _ _). by eexists.
    - change (str "-a") with ("-"%char :: ["a"%char]). rewrite permute_flag by done. destruct (getopt_permute _ _). by eexists. }
  assert (∀ A text l s1 (Q : A → st S → Prop), acted s l s1 → strlen text < 1020 → offered 1 l `prefix_of` content → offered fd l = offered 1 l →
    wp (errexit text) Q (λ t s', ∃ l, acted s l s' ∧ (t = Exit 0 ∧ offered 1 l = content ∧ offered fd l = content ∨
       t = Exit 1 ∧ offered 1 l `prefix_of` content ∧ offered fd l = offered 1 l)) s1) as Hfail.
  { intros A text l s1 Q Ha Htx Hp Ho. unfold errexit. rewrite (proj2 (Z.ltb_lt _ _)) by lia. apply wp_bind, wp_emit, wp_stop.
    exists l. split; [eapply acted_same; [exact Ha|apply acts_out|done]|]. auto. }
  unfold tee_main. cbn [tail]. rewrite Hfs. cbn [getopt_complaint]. apply wp_bind, wp_ret.
  apply wp_bind. eapply wp_act; [apply acted_refl|done|]. intros o s1 Hro H1 _ _. cbn [app] in H1.
  destruct (Z.eqb_spec (rv o) (-1)) as [E|E].
  { eapply Hfail; [exact H1| |apply prefix_nil|done]. unfold strlen in *. rewrite !length_app. cbn. lia. }
  assert (rv o = fd) as -> by (destruct (opens (trace s) O_RDWR_APPEND 0) as [Hx|Hx]; rewrite <-Hro in Hx; done).
  apply wp_bind. unfold tee_loop.
  apply (wp_loop (λ _ s', ∃ l, acted s l s' ∧ got_from 0 l `prefix_of` content ∧ offered 1 l = got_from 0 l ∧ offered fd l = got_from 0 l)
    (λ _ s', length content - length (taken 0 (trace s')))%nat).
  { exists [(Copen file O_RDWR_APPEND 0, o)]. split; [done|]. split; [apply prefix_nil|done]. }
  { lia. }
  intros [] s2 (l & Ha & Hpre & Ho1 & Hofd). pose proof (acted_taken 0 _ _ _ Ha) as Htk. rewrite Ht in Htk. cbn [app] in Htk.
  apply wp_bind. eapply wp_act; [exact Ha|done|]. intros r s3 Hr Ha3 _ _.
  pose proof (source_reply (trace s2) BUFSIZ ltac:(done)) as Hlaw. cbv zeta in Hlaw. rewrite <-Hr, Htk in Hlaw.
  pose proof (got_from_read 0 l BUFSIZ r) as Hgot.
  destruct (Z.ltb_spec 0 (rv r)) as [Hpos|Hpos].
  - destruct Hlaw as [[? _]|(Hl & _ & Hdata & _)]; [lia|].
    assert (data_of r = rdata r) as -> by (unfold data_of; rewrite Hl; unfold strlen; rewrite Nat2Z.id; by apply take_ge).
    assert (got_from 0 l ++ rdata r `prefix_of` content) as Hmore by by apply prefix_next.
    apply wp_bind. eapply wp_act; [exact Ha3|done|]. intros w1 s4 _ Ha4 _ _.
    apply wp_bind. eapply wp_act; [exact Ha4|done|]. intros w2 s5 _ Ha5 _ _.
    set (l2 := ((l ++ [(Cread 0 BUFSIZ, r)]) ++ [(Cwrite 1 (rdata r), w1)]) ++ [(Cwrite fd (rdata r), w2)]) in *.
    assert (offered 1 l2 = got_from 0 l ++ rdata r) as Ho1'.
    { unfold l2. rewrite !offered_snoc, Ho1. unfold offer. cbn [fst]. rewrite (proj2 (Z.eqb_neq fd 1)) by done. by rewrite Z.eqb_refl, !app_nil_r. }
    assert (offered fd l2 = got_from 0 l ++ rdata r) as Hofd'.
    { unfold l2. rewrite !offered_snoc, Hofd. unfold offer. cbn [fst]. rewrite (proj2 (Z.eqb_neq 1 fd)) by done. by rewrite Z.eqb_refl, !app_nil_r. }
    assert (got_from 0 l2 = got_from 0 l ++ rdata r) as Hgot2 by (unfold l2; rewrite got_from_other, got_from_other, Hgot by done; done).
    destruct (rv w2 =? -1).
    + eapply Hfail; [exact Ha5|by vm_compute|by rewrite Ho1'|by rewrite Ho1', Hofd'].
    + apply wp_ret. split; [exists l2; rewrite Hgot2, Ho1', Hofd'; auto|].
      rewrite (acted_taken 0 _ _ _ Ha5), Ht, Htk, Hgot2. apply prefix_length in Hmore. rewrite !length_app in *. cbn. unfold strlen in Hl. lia.
  - rewrite app_nil_r in Hgot. apply wp_ret. apply wp_bind. set (l2 := l ++ [(Cread 0 BUFSIZ, r)]) in *.
    assert (offered 1 l2 = got_from 0 l ∧ offered fd l2 = got_from 0 l) as [Ho1' Hofd']
      by (unfold l2; rewrite !offered_snoc, Ho1, Hofd; by rewrite !app_nil_r).
    destruct Hlaw as [[Hz _]|(Hz & _ & _ & Hend)].
    + rewrite Hz. cbn [Z.eqb Pos.eqb when]. eapply Hfail; [exact Ha3|by vm_compute|by rewrite Ho1'|by rewrite Ho1', Hofd'].
    + assert (rv r = 0) as Hz0 by (unfold strlen in Hz; lia). rewrite Hz0. cbn [Z.eqb when]. apply wp_ret.
      assert (got_from 0 l = content) as Hall by (destruct Hpre as [k Hk]; rewrite Hk, drop_app_length in Hend; by rewrite Hk, Hend, app_nil_r).
      apply wp_bind. eapply wp_act; [exact Ha3|done|]. intros k s4 _ Ha4 _ _.
      assert (offered 1 (l2 ++ [(Cclose fd, k)]) = content ∧ offered fd (l2 ++ [(Cclose fd, k)]) = content) as [Hc1 Hc2]
        by (rewrite !offered_snoc, Ho1', Hofd', Hall; cbn; by rewrite app_nil_r).
      destruct (rv k =? -1).
      * eapply Hfail; [exact Ha4|by vm_compute|by rewrite Hc1|by rewrite Hc1, Hc2].
      * apply wp_bind, wp_emit, wp_stop. eexists. split; [eapply acted_same; [exact Ha4|apply acts_out|done]|]. auto.
Qed.

(** A short write is not noticed: a system that takes one byte of each. *)
Example tee_short_write :
  let o := test_os (λ tr c, match c with Copen _ _ _ => ok 3 | Cwrite _ _ => ok 1 | Cread _ _ => @kern (chunked 0 (str "hello") 4) tr c | _ => ok 0 end) in
  let r := tee_main 9 [str "tee"; str "-a"; str "f"] (init tt) in
  r.1 = Stop (Exit 0) ∧ written 3 (trace r.2) = str "ho".
Proof. by vm_compute. Qed.
