(* ===== verification/Scm.v ===== *)
(** Programs of tlpi-book/sockets that pass descriptors and credentials over a
    Unix socket: scm_rights_send.c and scm_rights_recv.c (one descriptor),
    scm_cred_send.c and scm_cred_recv.c (credentials), scm_multi_send.c and
    scm_multi_recv.c (any number of descriptors, with credentials). *)
From S2P Require Import Prelude Sys Rdwrn ErrorFns GetNum Sockets Getopt SvmsgFile Cmsg Copy.

Definition RIGHTS_PATH : cstr := str "scm_rights".
Definition CRED_PATH : cstr := str "scm_cred".
Definition MULTI_PATH : cstr := str "scm_multi".
Definition MAX_FDS : Z := 1024.
Definition SCM_BUF_SIZE : Z := 100.
Definition MSG_CTRUNC : Z := 8.
Definition SIZEOF_UCRED : Z := 12.

(** struct ucred, in memory. *)
Definition ucred (pid uid gid : Z) : cstr := le32 pid ++ le32 uid ++ le32 gid.
Definition ucred_text (creds : cstr) (uid gid : cstr) : cstr :=
  str "pid=" ++ dec (wrap_s 32 (le (take 4 creds))) ++ str ", " ++ uid ++ str "=" ++ dec (le (take 4 (drop 4 creds))) ++
  str ", " ++ gid ++ str "=" ++ dec (le (take 4 (drop 8 creds))).

Definition letters (flags args : cstr) (c : ascii) : option bool :=
  if decide (c ∈ flags) then Some false else if decide (c ∈ args) then Some true else None.

Section Programs.
Context {S : Type} `{os}.

Definition line (f : stream) (text : cstr) : M S unit := out f (text ++ [NL]).

(** The loop around getopt: [step] takes an option, [usage] is called for one
    that getopt rejects. *)
Fixpoint option_loop {A} (prog : cstr) (step : A → ascii → option cstr → A) (usage : M S A) (a : A) (fs : list found) : M S A :=
  match fs with
  | [] => mret a
  | Opt c arg :: fs => option_loop prog step usage (step a c arg) fs
  | f :: _ => match getopt_complaint prog f with Some t => out Stderr t | None => mret tt end;; usage
  end.

Definition sock_type (dgram : bool) : Z := if dgram then SOCK_DGRAM else SOCK_STREAM.

(** The socket of a receiver: a bound datagram socket, or a connection. *)
Definition receiving_socket (dgram : bool) (path : cstr) : M S Z :=
  remove_path path;;
  if dgram then
    sfd ← unixBind path SOCK_DGRAM;
    if sfd =? -1 then errExit (str "unixBind") else mret sfd
  else
    lfd ← unixBind path SOCK_STREAM;
    if lfd =? -1 then errExit (str "unixBind") else
    l ← sys (Clisten lfd 5);
    if rv l =? -1 then errExit (str "listen") else
    a ← sys (Caccept lfd);
    if rv a =? -1 then errExit (str "accept") else mret (rv a).

(** A file printed by read and write; what write returns is not looked at. *)
Definition show_content (fuel : nat) (fd : Z) : M S unit :=
  loop fuel (λ _,
    r ← sys (Cread fd SCM_BUF_SIZE);
    if rv r =? -1 then errExit (str "read") else
    if rv r =? 0 then mret (inr tt) else
    sys (Cwrite 1 (data_of r));;
    mret (inl tt)) tt.

(** The int that data was read into. *)
Definition int_data (r : reply) (before : cstr) : Z := wrap_s 32 (le (overlay (data_of r) before)).

(** ** scm_rights *)

Definition scm_rights_send_main (argv : list cstr) : M S unit :=
  let prog := default [] (argv !! 0%nat) in
  let '(fs, ops) := getopt_env (letters (str "d") []) (tail argv) in
  useDatagramSocket ← option_loop prog (λ _ _ _, true)
    (usageErr (prog ++ str " [-d] file" ++ [NL] ++ str "        -d    use datagram socket" ++ [NL])) false fs;
  match ops with
  | [file] =>
      f ← sys (Copen file O_RDONLY 0);
      let fd := rv f in
      if fd =? -1 then errExit (str "open") else
      line Stderr (str "Sending data = 12345");;
      let ctl := set_cmsg (replicate (Z.to_nat (CMSG_SPACE 4)) NUL) 0 SOL_SOCKET SCM_RIGHTS (le32 fd) in
      sfd ← unixConnect RIGHTS_PATH (sock_type useDatagramSocket);
      if sfd =? -1 then errExit (str "unixConnect") else
      line Stderr (str "Sending FD " ++ dec fd);;
      n ← sys (Csendmsg sfd (le32 12345) ctl);
      if rv n =? -1 then errExit (str "sendmsg") else
      line Stderr (str "sendmsg() returned " ++ dec (rv n));;
      k ← sys (Cclose fd);
      if rv k =? -1 then errExit (str "close") else
      stop_with (Exit 0)
  | _ => usageErr (prog ++ str " [-d] file" ++ [NL])
  end.

Definition scm_rights_recv_main (fuel : nat) (argv : list cstr) : M S unit :=
  let prog := default [] (argv !! 0%nat) in
  let '(fs, _) := getopt_env (letters (str "d") []) (tail argv) in
  useDatagramSocket ← option_loop prog (λ _ _ _, true)
    (usageErr (prog ++ str " [-d]" ++ [NL] ++ str "        -d    use datagram socket" ++ [NL])) false fs;
  sfd ← receiving_socket useDatagramSocket RIGHTS_PATH;
  data0 ← garbage 4;
  r ← sys (Crecvmsg sfd 4 (CMSG_SPACE 4));
  if rv r =? -1 then errExit (str "recvmsg") else
  line Stderr (str "recvmsg() returned " ++ dec (rv r));;
  when (0 <? rv r) (line Stderr (str "Received data = " ++ dec (int_data r data0)));;
  let ctl := control_of (CMSG_SPACE 4) r in
  match CMSG_FIRSTHDR ctl with
  | Some p =>
      if negb (cmsg_len ctl p =? CMSG_LEN 4) then fatal (str "bad cmsg header / message length") else
      if negb (cmsg_level ctl p =? SOL_SOCKET) then fatal (str "cmsg_level != SOL_SOCKET") else
      if negb (cmsg_type ctl p =? SCM_RIGHTS) then fatal (str "cmsg_type != SCM_RIGHTS") else
      let fd := wrap_s 32 (le (CMSG_DATA ctl p 4)) in
      line Stderr (str "Received FD " ++ dec fd);;
      show_content fuel fd;;
      stop_with (Exit 0)
  | None => fatal (str "bad cmsg header / message length")
  end.

(** ** scm_cred *)

(** A word of the command line that is not "-" replaces the value. *)
Definition override (ops : list cstr) (i : nat) (own : Z) : Z :=
  match ops !! i with Some w => if streq w (str "-") then own else atoi w | None => own end.

Definition cred_usage (prog : cstr) : cstr :=
  prog ++ str " [-d] [-n] [data [PID [UID [GID]]]]" ++ [NL] ++ str "        -d    use datagram socket" ++ [NL] ++
  str "        -n    don't construct explicit credentials structure" ++ [NL].

Definition cred_opt (o : bool * bool) (c : ascii) (_ : option cstr) : bool * bool :=
  if decide (c = "d"%char) then (true, o.2) else (o.1, true).

Definition cred_control (ops : list cstr) : M S cstr :=
  pid ← sys Cgetpid;
  uid ← sys Cgetuid;
  gid ← sys Cgetgid;
  let creds := ucred (override ops 1 (rv pid)) (override ops 2 (rv uid)) (override ops 3 (rv gid)) in
  line Stdout (str "Send credentials " ++ ucred_text creds (str "uid") (str "gid"));;
  mret (set_cmsg (replicate (Z.to_nat (CMSG_SPACE SIZEOF_UCRED)) NUL) 0 SOL_SOCKET SCM_CREDENTIALS creds).

Definition scm_cred_send_main (argv : list cstr) : M S unit :=
  let prog := default [] (argv !! 0%nat) in
  let '(fs, ops) := getopt_env (letters (str "dn") []) (tail argv) in
  '(useDatagramSocket, noExplicitCreds) ← option_loop prog
    cred_opt (usageErr (cred_usage prog)) (false, false) fs;
  let data := match ops with w :: _ => atoi w | [] => 12345 end in
  line Stderr (str "Sending data = " ++ dec data);;
  ctl ← (if noExplicitCreds : bool then
           line Stdout (str "Not explicitly sending a credentials structure");; mret []
         else cred_control ops);
  sfd ← unixConnect CRED_PATH (sock_type useDatagramSocket);
  if sfd =? -1 then errExit (str "unixConnect") else
  n ← sys (Csendmsg sfd (le32 data) ctl);
  if rv n =? -1 then errExit (str "sendmsg") else
  line Stdout (str "sendmsg() returned " ++ dec (rv n));;
  stop_with (Exit 0).

Definition scm_cred_recv_main (argv : list cstr) : M S unit :=
  let prog := default [] (argv !! 0%nat) in
  let '(fs, _) := getopt_env (letters (str "d") []) (tail argv) in
  useDatagramSocket ← option_loop prog (λ _ _ _, true)
    (usageErr (prog ++ str " [-d]" ++ [NL] ++ str "        -d    use datagram socket" ++ [NL])) false fs;
  sfd ← receiving_socket useDatagramSocket CRED_PATH;
  o ← sys (Csetsockopt sfd);
  if rv o =? -1 then errExit (str "setsockopt") else
  data0 ← garbage 4;
  r ← sys (Crecvmsg sfd 4 (CMSG_SPACE SIZEOF_UCRED));
  if rv r =? -1 then errExit (str "recvmsg") else
  line Stdout (str "recvmsg() returned " ++ dec (rv r));;
  when (0 <? rv r) (line Stdout (str "Received data = " ++ dec (int_data r data0)));;
  let ctl := control_of (CMSG_SPACE SIZEOF_UCRED) r in
  match CMSG_FIRSTHDR ctl with
  | Some p =>
      if negb (cmsg_len ctl p =? CMSG_LEN SIZEOF_UCRED) then fatal (str "bad cmsg header / message length") else
      if negb (cmsg_level ctl p =? SOL_SOCKET) then fatal (str "cmsg_level != SOL_SOCKET") else
      if negb (cmsg_type ctl p =? SCM_CREDENTIALS) then fatal (str "cmsg_type != SCM_CREDENTIALS") else
      line Stdout (str "Received credentials " ++ ucred_text (CMSG_DATA ctl p SIZEOF_UCRED) (str "uid") (str "gid"));;
      c ← sys (Cextern "getsockopt(SO_PEERCRED)" [sfd] []);
      if rv c =? -1 then errExit (str "getsockopt") else
      line Stdout (str "Credentials from SO_PEERCRED: " ++ ucred_text (rdata c) (str "euid") (str "egid"));;
      stop_with (Exit 0)
  | None => fatal (str "bad cmsg header / message length")
  end.

(** ** scm_multi *)

Definition multi_usage : list cstr :=
  str <$> ["    Options:"; "	-d        Use datagram (instead of stream) socket";
    "	-n        Don't send any real data with the ancillary data";
    "	-p <pid>  Use this PID when sending credentials";
    "	-u <uid>  Use this UID when sending credentials";
    "	-g <gid>  Use this GID when sending credentials";
    "    If any of any of -p/-u/-g is absent, the corresponding real"; "    credential is used."].

Definition multi_usageError {A} (pname : cstr) : M S A :=
  line Stderr (str "Usage: " ++ pname ++ str " [options] file...");;
  for_each multi_usage (line Stderr);;
  stop_with (Exit 1).

Record send_opts := SendOpts { dgram : bool; sendData : bool; s_pid : Z; s_uid : Z; s_gid : Z }.

Definition send_opt (o : send_opts) (c : ascii) (arg : option cstr) : send_opts :=
  let v := atoi (default [] arg) in
  if decide (c = "d"%char) then SendOpts true (sendData o) (s_pid o) (s_uid o) (s_gid o)
  else if decide (c = "n"%char) then SendOpts (dgram o) false (s_pid o) (s_uid o) (s_gid o)
  else if decide (c = "p"%char) then SendOpts (dgram o) (sendData o) v (s_uid o) (s_gid o)
  else if decide (c = "u"%char) then SendOpts (dgram o) (sendData o) (s_pid o) v (s_gid o)
  else SendOpts (dgram o) (sendData o) (s_pid o) (s_uid o) v.

Fixpoint open_files (files : list cstr) : M S (list Z) :=
  match files with
  | [] => mret []
  | file :: files =>
      f ← sys (Copen file O_RDONLY 0);
      if rv f =? -1 then errExit (str "open") else
      fds ← open_files files;
      mret (rv f :: fds)
  end.

Definition scm_multi_send_main (argv : list cstr) : M S unit :=
  let prog := default [] (argv !! 0%nat) in
  pid ← sys Cgetpid;
  uid ← sys Cgetuid;
  gid ← sys Cgetgid;
  let '(fs, files) := getopt_env (letters (str "dn") (str "pug")) (tail argv) in
  o ← option_loop prog send_opt (multi_usageError prog) (SendOpts false true (rv pid) (rv uid) (rv gid)) fs;
  let fdCnt := Z.of_nat (length files) in
  if fdCnt <=? 0 then multi_usageError prog else
  let controlMsgSize := CMSG_SPACE (4 * fdCnt) + CMSG_SPACE SIZEOF_UCRED in
  m ← sys (Crealloc controlMsgSize);
  if rv m =? -1 then errExit (str "malloc") else
  line Stdout (str "cmsg_len 1: " ++ dec (CMSG_LEN (4 * fdCnt)));;
  m ← sys (Crealloc (4 * fdCnt));
  if rv m =? -1 then errExit (str "calloc") else
  fdList ← open_files files;
  let ctl := set_cmsg (replicate (Z.to_nat controlMsgSize) NUL) 0 SOL_SOCKET SCM_RIGHTS (concat (le32 <$> fdList)) in
  match CMSG_NXTHDR ctl 0 with
  | None => stop_with (Undefined "store through a null pointer")
  | Some p =>
      line Stdout (str "cmsg_len 2: " ++ dec (CMSG_LEN SIZEOF_UCRED));;
      let ctl := set_cmsg ctl p SOL_SOCKET SCM_CREDENTIALS (ucred (s_pid o) (s_uid o) (s_gid o)) in
      sfd ← unixConnect MULTI_PATH (sock_type (dgram o));
      if sfd =? -1 then errExit (str "unixConnect") else
      n ← sys (Csendmsg sfd (if sendData o then le32 12345 else []) ctl);
      if rv n =? -1 then errExit (str "sendmsg") else
      line Stdout (str "sendmsg() returned " ++ dec (rv n));;
      stop_with (Exit 0)
  end.

Definition show_fd (fuel : nat) (x : nat * Z) : M S unit :=
  line Stdout (str "--- [" ++ dec (Z.of_nat x.1) ++ str "] Received FD " ++ dec x.2);;
  show_content fuel x.2;;
  k ← sys (Cclose x.2);
  when (rv k =? -1) (errExit (str "close")).

(** One control message. *)
Definition show_message (fuel : nat) (ctl : cstr) (p : Z) : M S unit :=
  line Stdout (str "=================================");;
  line Stdout (str "cmsg_len: " ++ dec (cmsg_len ctl p));;
  if negb (cmsg_level ctl p =? SOL_SOCKET) then fatal (str "cmsg_level != SOL_SOCKET") else
  if cmsg_type ctl p =? SCM_RIGHTS then
    out Stdout (str "SCM_RIGHTS: ");;
    let fdCnt := wrap_s 32 (wrap_u 64 (cmsg_len ctl p - CMSG_LEN 0) / 4) in
    line Stdout (str "received " ++ dec fdCnt ++ str " file descriptors");;
    m ← sys (Crealloc (4 * fdCnt));
    if rv m =? -1 then errExit (str "calloc") else
    for_each (imap pair (ints (CMSG_DATA ctl p (4 * fdCnt)))) (show_fd fuel)
  else if cmsg_type ctl p =? SCM_CREDENTIALS then
    if negb (cmsg_len ctl p =? CMSG_LEN SIZEOF_UCRED) then fatal (str "cmsg data has incorrect size") else
    line Stdout (str "SCM_CREDENTIALS: " ++ ucred_text (CMSG_DATA ctl p SIZEOF_UCRED) (str "uid") (str "gid"))
  else fatal (str "Bad cmsg_type (" ++ dec (cmsg_type ctl p) ++ str ")").

Definition recv_usage (prog : cstr) : cstr :=
  prog ++ str " [-d]" ++ [NL] ++ str "        -d           use datagram socket" ++ [NL] ++
  str "        -n nbytes    limit on size of received ancillary data" ++ [NL].

Definition recv_opt (o : bool * Z) (c : ascii) (arg : option cstr) : bool * Z :=
  if decide (c = "d"%char) then (true, o.2) else (o.1, atoi (default [] arg)).

Definition scm_multi_recv_main (fuel : nat) (argv : list cstr) : M S unit :=
  let prog := default [] (argv !! 0%nat) in
  let controlMsgSize := CMSG_SPACE (4 * MAX_FDS) + CMSG_SPACE SIZEOF_UCRED in
  m ← sys (Crealloc controlMsgSize);
  if rv m =? -1 then errExit (str "malloc") else
  let '(fs, _) := getopt_env (letters (str "d") (str "n")) (tail argv) in
  '(useDatagramSocket, optControlMsgSize) ← option_loop prog recv_opt (usageErr (recv_usage prog)) (false, -1) fs;
  sfd ← receiving_socket useDatagramSocket MULTI_PATH;
  o ← sys (Csetsockopt sfd);
  if rv o =? -1 then errExit (str "setsockopt") else
  data0 ← garbage 4;
  let size := if optControlMsgSize =? -1 then controlMsgSize else wrap_u 64 optControlMsgSize in
  r ← sys (Crecvmsg sfd 4 size);
  if rv r =? -1 then errExit (str "recvmsg") else
  line Stdout (str "recvmsg() returned " ++ dec (rv r));;
  when (0 <? rv r) (line Stdout (str "Received data = " ++ dec (int_data r data0)));;
  (if optControlMsgSize =? -1 then mret tt else
     line Stdout (str "=================================");;
     pid ← sys Cgetpid;
     sys (Csystem (str "ls -l /proc/" ++ dec (rv pid) ++ str "/fd"));;
     line Stdout (str "================================="));;
  when (tst (msg_flags r) MSG_CTRUNC) (line Stdout (str "********** Ancillary data was truncated!!! **********"));;
  let ctl := control_of size r in
  loop fuel (λ h : option Z,
    match h with
    | Some p => show_message fuel ctl p;; mret (inl (CMSG_NXTHDR ctl p))
    | None => mret (inr tt)
    end) (CMSG_FIRSTHDR ctl);;
  stop_with (Exit 0).
End Programs.

(** What the options come to, when getopt rejects none. *)
Definition option_value {A} (step : A → ascii → option cstr → A) (a : A) (fs : list found) : A :=
  foldl (λ a f, match f with Opt c arg => step a c arg | _ => a end) a fs.

(** ** What the receivers print

    Descriptors [rest] are still to be read; [text] has been written to the
    standard output. *)

Section Reading.
Context {S : Type} `{os} (s0 : st S).
Implicit Types s : st S.

Definition shows (text : cstr) (rest : list Z) s : Prop :=
  ∃ l, acted s0 l s ∧ offered 1 l = text ∧ Forall (λ fd, got_from fd l = []) rest.

(** Calls that neither read nor write. *)
Definition apart (c : call) : Prop := match c with Cread _ _ | Cwrite _ _ | Cfflush _ => False | _ => True end.

Lemma shows_start rest : shows [] rest s0.
Proof using. exists []. split; [apply acted_refl|]. split; [done|]. by apply Forall_true. Qed.

Lemma shows_call c text rest s (Q : reply → st S → Prop) E :
  apart c → shows text rest s →
  (∀ r s', r = kern (trace s) c → trace s' = trace s ++ [Esys c r] → shows text rest s' → Q r s') → wp (sys c) Q E s.
Proof using.
  intros Hc (l & Ha & Ho & Hr) HQ. eapply wp_act; [exact Ha|by intros f ->|]. intros r s1 Hk H1 _ Ht. apply HQ; [done|done|].
  eexists. split; [exact H1|]. split; [rewrite offered_snoc, Ho; destruct c; try done; apply app_nil_r|].
  eapply Forall_impl; [exact Hr|]. intros fd Hfd. cbn beta. rewrite got_from_other; [done|by destruct c].
Qed.

Lemma shows_emit f t text rest s (Q : unit → st S → Prop) E :
  shows text rest s → (∀ s', shows text rest s' → Q tt s') → wp (out f t) Q E s.
Proof using.
  intros (l & Ha & Ho & Hr) HQ. apply wp_emit, HQ. exists l. split; [eapply acted_same; [exact Ha|apply acts_out|done]|done].
Qed.

Lemma shows_when b f t text rest s (Q : unit → st S → Prop) E :
  shows text rest s → (∀ s', shows text rest s' → Q tt s') → wp (when b (line f t)) Q E s.
Proof using. intros Hs HQ. destruct b; cbn [when]; [by eapply shows_emit|by apply wp_ret, HQ]. Qed.

(** The end: a part of the text is printed, all of it by success. *)
Definition ended (all : cstr) (t : stop) s : Prop :=
  ∃ text rest, shows text rest s ∧ text `prefix_of` all ∧ (t = Exit 0 → text = all).

Lemma shows_errExit {A} m text rest all s (Q : A → st S → Prop) :
  shows text rest s → text `prefix_of` all → wp (errExit m) Q (ended all) s.
Proof using.
  intros (l & Ha & Ho & Hr) Hp. apply wp_errExit. intros s' Hg Hacts _. exists text, rest. split; [|split; [done|intros Hz; by destruct (end_of_fails _ Hz)]].
  exists l. split; [by eapply acted_same|done].
Qed.

Lemma shows_fatal {A} m text rest all s (Q : A → st S → Prop) :
  shows text rest s → text `prefix_of` all → wp (fatal m) Q (ended all) s.
Proof using.
  intros (l & Ha & Ho & Hr) Hp. apply wp_fatal. intros s' Hg Hacts. exists text, rest. split; [|split; [done|intros Hz; by destruct (end_of_fails _ Hz)]].
  exists l. split; [by eapply acted_same|done].
Qed.

Lemma shows_usageErr {A} m text rest all s (Q : A → st S → Prop) :
  shows text rest s → text `prefix_of` all → wp (usageErr m) Q (ended all) s.
Proof using.
  intros (l & Ha & Ho & Hr) Hp. apply wp_usageErr. intros s' Hg Hacts. exists text, rest. split; [|split; done].
  exists l. split; [by eapply acted_same|done].
Qed.

Lemma shows_options {A} prog step (usage : M S A) a fs text rest s (Q : A → st S → Prop) (E : stop → st S → Prop) :
  shows text rest s → (∀ s', shows text rest s' → wp usage Q E s') → (∀ s', shows text rest s' → Q (option_value step a fs) s') →
  wp (option_loop prog step usage a fs) Q E s.
Proof using.
  intros Hs Hu HQ. revert a HQ. induction fs as [|f fs IH]; intros a HQ; cbn [option_loop]; [by apply wp_ret, HQ|].
  destruct f as [c arg|c|c]; [by apply IH| |]; cbn [getopt_complaint]; apply wp_bind; (eapply shows_emit; [exact Hs|exact Hu]).
Qed.

Lemma shows_unixBind path type text rest s (Q : Z → st S → Prop) E :
  shows text rest s → (∀ z s', shows text rest s' → Q z s') → wp (unixBind path type) Q E s.
Proof using.
  intros Hs HQ. unfold unixBind, unix_socket, unixBuildAddress. apply wp_bind.
  destruct (strlen path <? Z.of_nat SUN_PATH).
  2: { apply wp_bind, wp_set_errno, wp_ret. cbn [Z.eqb Pos.eqb]. apply wp_ret, HQ. exact Hs. }
  apply wp_ret. cbn [Z.eqb]. apply wp_bind. eapply shows_call; [done|exact Hs|]. intros r s1 _ _ H1.
  destruct (rv r =? -1); [by apply wp_ret, HQ|]. apply wp_bind. eapply shows_call; [done|exact H1|]. intros c s2 _ _ H2.
  destruct (rv c =? -1); [|by apply wp_ret, HQ]. apply wp_bind, wp_get_errno, wp_bind. eapply shows_call; [done|exact H2|]. intros k s3 _ _ H3.
  apply wp_bind, wp_set_errno, wp_ret, HQ. exact H3.
Qed.

Lemma wp_errExit_fails {A} m text rest s (Q : A → st S → Prop) (E : stop → st S → Prop) :
  shows text rest s → (∀ t s', t ≠ Exit 0 → shows text rest s' → E t s') → wp (errExit m) Q E s.
Proof using.
  intros (l & Ha & Ho & Hr) HE. apply wp_errExit. intros s' Hg Hacts _. apply HE; [apply end_of_fails|].
  exists l. split; [by eapply acted_same|done].
Qed.

Lemma ended_failing text rest all : text `prefix_of` all → ∀ t s, t ≠ Exit 0 → shows text rest s → ended all t s.
Proof using. intros Hp t s Ht Hs. by exists text, rest. Qed.

Lemma shows_receiving_socket dg path text rest s (Q : Z → st S → Prop) (E : stop → st S → Prop) :
  shows text rest s → (∀ t s', t ≠ Exit 0 → shows text rest s' → E t s') → (∀ z s', shows text rest s' → Q z s') →
  wp (receiving_socket dg path) Q E s.
Proof using.
  intros Hs HE HQ. unfold receiving_socket, remove_path. apply wp_bind, wp_bind. eapply shows_call; [done|exact Hs|]. intros u s1 _ _ H1.
  apply wp_bind, wp_get_errno. destruct (_ && _); cbn [when]; [by eapply wp_errExit_fails|]. apply wp_ret. destruct dg.
  - apply wp_bind. eapply shows_unixBind; [exact H1|]. intros z s2 H2. destruct (z =? -1); [by eapply wp_errExit_fails|by apply wp_ret, HQ].
  - apply wp_bind. eapply shows_unixBind; [exact H1|]. intros z s2 H2. destruct (z =? -1); [by eapply wp_errExit_fails|].
    apply wp_bind. eapply shows_call; [done|exact H2|]. intros r s3 _ _ H3. destruct (rv r =? -1); [by eapply wp_errExit_fails|].
    apply wp_bind. eapply shows_call; [done|exact H3|]. intros a s4 _ _ H4. destruct (rv a =? -1); [by eapply wp_errExit_fails|by apply wp_ret, HQ].
Qed.

Lemma shows_garbage size text rest s (Q : cstr → st S → Prop) E :
  shows text rest s → (∀ z s', shows text rest s' → Q z s') → wp (garbage size) Q E s.
Proof using. intros Hs HQ. unfold garbage. apply wp_bind. eapply shows_call; [done|exact Hs|]. intros r s1 _ _ H1. by apply wp_ret, HQ. Qed.

(** One file, to its end. *)
Lemma shows_content content budget fuel fd text rest all s (Q : unit → st S → Prop) :
  Source fd content budget → taken fd (trace s0) = [] → fd ∉ rest → (length content < fuel)%nat →
  shows text (fd :: rest) s → text ++ content `prefix_of` all →
  (∀ s', shows (text ++ content) rest s' → Q tt s') → wp (show_content fuel fd) Q (ended all) s.
Proof using.
  intros Hsrc Ht0 Hfd Hf (l0 & Ha0 & Ho0 & Hr0) Hall HQ. apply Forall_cons in Hr0 as [Hg0 Hr0].
  assert (∀ got, got `prefix_of` content → text ++ got `prefix_of` all) as Hpart.
  { intros got Hgot. etrans; [|exact Hall]. by apply prefix_app. }
  apply (wp_loop (λ _ s', ∃ l, acted s0 l s' ∧ offered 1 l = text ++ got_from fd l ∧ got_from fd l `prefix_of` content ∧ Forall (λ d, got_from d l = []) rest)
    (λ _ s', length content - length (taken fd (trace s')))%nat).
  { exists l0. rewrite Hg0, app_nil_r. split; [done|]. split; [done|]. split; [apply prefix_nil|done]. }
  { lia. }
  intros [] s1 (l & Ha & Ho & Hpre & Hr). pose proof (acted_taken fd _ _ _ Ha) as Htk. rewrite Ht0 in Htk. cbn [app] in Htk.
  apply wp_bind. eapply wp_act; [exact Ha|done|]. intros r s2 Hk Ha2 _ _.
  pose proof (source_reply (trace s1) SCM_BUF_SIZE ltac:(done)) as Hlaw. cbv zeta in Hlaw. rewrite <-Hk, Htk in Hlaw.
  pose proof (got_from_read fd l SCM_BUF_SIZE r) as Hgot.
  assert (∀ x, Forall (λ d, got_from d ((l ++ [(Cread fd SCM_BUF_SIZE, r)]) ++ x) = []) rest ↔ Forall (λ d, got_from d x = []) rest) as Hrest.
  { intros x. split; intros Hx; rewrite Forall_forall in Hx, Hr |- *; intros d Hd; specialize (Hx d Hd); specialize (Hr d Hd);
      rewrite !got_from_app, Hr in *; (assert (got_from d [(Cread fd SCM_BUF_SIZE, r)] = []) as Hn
        by (unfold got_from, events, taken; cbn; rewrite (proj2 (Z.eqb_neq fd d)) by (intros ->; done); done)); rewrite Hn in *; done. }
  destruct (Z.eqb_spec (rv r) (-1)) as [Hm|Hm].
  { eapply shows_errExit; [|exact (Hpart _ Hpre)]. exists (l ++ [(Cread fd SCM_BUF_SIZE, r)]). split; [exact Ha2|].
    split; [by rewrite offered_snoc, Ho, app_nil_r|]. rewrite <-(app_nil_r (l ++ _)). apply Hrest. by apply Forall_true. }
  destruct Hlaw as [[? _]|(Hl & Hle & Hdata & Hend)]; [done|].
  destruct (Z.eqb_spec (rv r) 0) as [Hz|Hz].
  { apply wp_ret, HQ. exists (l ++ [(Cread fd SCM_BUF_SIZE, r)]). split; [exact Ha2|]. split.
    - rewrite offered_snoc, Ho, app_nil_r. f_equal. destruct Hpre as [k Hpre]. rewrite Hpre, drop_app_length in Hend. by rewrite Hpre, (Hend Hz), app_nil_r.
    - rewrite <-(app_nil_r (l ++ _)). apply Hrest. by apply Forall_true. }
  assert (0 < rv r) as Hpos by (pose proof (strlen_nonneg (rdata r)); lia). rewrite (proj2 (Z.ltb_lt _ _) Hpos) in Hgot.
  assert (data_of r = rdata r) as -> by (unfold data_of; rewrite Hl; unfold strlen; rewrite Nat2Z.id; by apply take_ge).
  apply wp_bind. eapply wp_act; [exact Ha2|done|]. intros w s3 _ Ha3 _ _. apply wp_ret.
  assert (got_from fd l ++ rdata r `prefix_of` content) as Hmore by by apply prefix_next.
  set (l3 := (l ++ [(Cread fd SCM_BUF_SIZE, r)]) ++ [(Cwrite 1 (rdata r), w)]) in *.
  assert (got_from fd l3 = got_from fd l ++ rdata r) as Hg3 by (unfold l3; by rewrite got_from_other, Hgot).
  split.
  - exists l3. split; [done|]. split; [|split; [by rewrite Hg3|]].
    + unfold l3 at 1. rewrite !offered_snoc, Ho. fold l3. rewrite Hg3. cbn. by rewrite app_nil_r, app_assoc.
    + apply Hrest. by apply Forall_true.
  - rewrite (acted_taken fd _ _ _ Ha3), Ht0, Htk, Hg3. apply prefix_length in Hmore. rewrite !length_app in *. cbn. unfold strlen in Hl. lia.
Qed.

(** The descriptors of a message; what they give. *)
Definition fds_of (m : cmsg) : list Z := if type m =? SCM_RIGHTS then ints (data m) else [].

Context (content : Z → cstr) (budget : nat).
Definition given (fds : list Z) : cstr := concat (content <$> fds).

(** Each can be read, from its start. *)
Definition readable (fuel : nat) (fds : list Z) : Prop :=
  NoDup fds ∧ Forall (λ fd, Source fd (content fd) budget ∧ taken fd (trace s0) = [] ∧ (length (content fd) < fuel)%nat) fds.

Lemma given_app a b : given (a ++ b) = given a ++ given b.
Proof using. unfold given. by rewrite fmap_app, concat_app. Qed.

Lemma shows_fds fuel xs rest text all s (Q : unit → st S → Prop) :
  readable fuel (xs.*2 ++ rest) → shows text (xs.*2 ++ rest) s → text ++ given (xs.*2) `prefix_of` all →
  (∀ s', shows (text ++ given (xs.*2)) rest s' → Q tt s') → wp (for_each xs (show_fd fuel)) Q (ended all) s.
Proof using.
  revert text s. induction xs as [|[j fd] xs IH]; intros text s Hok Hs Hp HQ; cbn [for_each].
  { apply wp_ret, HQ. cbn. by rewrite app_nil_r. }
  destruct Hok as [Hnd Hall]. cbn [fmap list_fmap app snd] in Hnd, Hall, Hs. apply NoDup_cons in Hnd as [Hfd Hnd].
  apply Forall_cons in Hall as [(Hsrc & Ht & Hf) Hall]. change (((j, fd) :: xs).*2) with ([fd] ++ xs.*2) in Hp, HQ.
  assert (given [fd] = content fd) as Hg by apply app_nil_r. rewrite given_app, Hg, app_assoc in Hp, HQ.
  apply wp_bind. unfold show_fd. cbn [fst snd]. apply wp_bind. eapply shows_emit; [exact Hs|]. intros s1 H1.
  apply wp_bind. eapply shows_content; [exact Hsrc|exact Ht|exact Hfd|exact Hf|exact H1|by etrans; [apply prefix_app_r|]|]. intros s2 H2.
  apply wp_bind. eapply shows_call; [done|exact H2|]. intros k s3 _ _ H3. destruct (rv k =? -1); cbn [when].
  - eapply shows_errExit; [exact H3|]. by etrans; [apply prefix_app_r|].
  - apply wp_ret. apply (IH (text ++ content fd)); [by split|exact H3|exact Hp|exact HQ].
Qed.

Lemma imap_pair_snd {A} (l : list A) : (imap pair l).*2 = l.
Proof using. rewrite fmap_imap. apply list_eq. intros i. rewrite list_lookup_imap. by destruct (l !! i). Qed.

(** The descriptors a message holds are counted from its length. *)
Lemma ints_whole bs : ints (take (Z.to_nat (4 * (strlen bs / 4))) bs) = ints bs.
Proof using.
  assert (∀ n bs, (length bs < n)%nat → ints (take (Z.to_nat (4 * (strlen bs / 4))) bs) = ints bs) as H0; [|apply (H0 (Datatypes.S (length bs))); lia].
  clear bs. induction n as [|n IH]; intros bs Hn; [lia|]. destruct bs as [|a [|b [|c [|d bs]]]]; try done. cbn [length] in Hn.
  assert (strlen (a :: b :: c :: d :: bs) / 4 = strlen bs / 4 + 1) as ->.
  { replace (strlen (a :: b :: c :: d :: bs)) with (strlen bs + 1 * 4) by (unfold strlen; cbn [length]; lia). by rewrite Z.div_add. }
  pose proof (strlen_nonneg bs). assert (0 <= strlen bs / 4) by (apply Z.div_pos; lia).
  replace (Z.to_nat (4 * (strlen bs / 4 + 1))) with (4 + Z.to_nat (4 * (strlen bs / 4)))%nat by lia. cbn [take Nat.add ints]. f_equal. apply IH. lia.
Qed.

Lemma shows_message fuel ctl p m ms rest text all s (Q : unit → st S → Prop) :
  carries_at ctl p (m :: ms) → readable fuel (fds_of m ++ rest) → shows text (fds_of m ++ rest) s → text ++ given (fds_of m) `prefix_of` all →
  (∀ s', shows (text ++ given (fds_of m)) rest s' → Q tt s') → wp (show_message fuel ctl p) Q (ended all) s.
Proof using.
  intros Hc Hok Hs Hp HQ. assert (text `prefix_of` all) as Hp0 by (etrans; [apply prefix_app_r|exact Hp]; done).
  destruct (header_at _ _ _ _ Hc) as ((_ & _ & Hd) & E1 & E2 & E3 & E4). unfold show_message. rewrite E1, E2, E3.
  apply wp_bind. eapply shows_emit; [exact Hs|]. intros s1 H1. apply wp_bind. eapply shows_emit; [exact H1|]. intros s2 H2.
  destruct (negb _); [by eapply shows_fatal|]. unfold fds_of in *. destruct (type m =? SCM_RIGHTS).
  - replace (CMSG_LEN (strlen (data m)) - CMSG_LEN 0) with (strlen (data m)) by (unfold CMSG_LEN; lia). pose proof (strlen_nonneg (data m)) as Hn.
    assert (wrap_u 64 (strlen (data m)) = strlen (data m)) as -> by (apply Z.mod_small; lia).
    assert (0 <= strlen (data m) / 4 < 2 ^ 30) as Hq by (split; [apply Z.div_pos; lia|apply Z.div_lt_upper_bound; lia]).
    rewrite wrap_s_id by lia.
    apply wp_bind. eapply shows_emit; [exact H2|]. intros s3 H3. apply wp_bind. eapply shows_emit; [exact H3|]. intros s4 H4.
    apply wp_bind. eapply shows_call; [done|exact H4|]. intros k s5 _ _ H5. destruct (rv k =? -1); [by eapply shows_errExit|].
    assert (ints (CMSG_DATA ctl p (4 * (strlen (data m) / 4))) = ints (data m)) as ->.
    { rewrite <-(ints_whole (data m)). pose proof (Z.mul_div_le (strlen (data m)) 4 ltac:(lia)) as Hle.
      set (q := strlen (data m) / 4) in *. f_equal. rewrite <-E4. unfold CMSG_DATA, bytes_at. rewrite take_take. f_equal. lia. }
    eapply shows_fds; rewrite ?imap_pair_snd; [exact Hok|exact H5|exact Hp|exact HQ].
  - cbn [app] in *. unfold given in HQ. cbn in HQ. rewrite app_nil_r in HQ.
    destruct (type m =? SCM_CREDENTIALS); [|by eapply shows_fatal]. destruct (negb _); [by eapply shows_fatal|]. eapply shows_emit; [exact H2|exact HQ].
Qed.

Lemma readable_app fuel a b : readable fuel (a ++ b) → readable fuel b.
Proof using. intros [Hnd Hall]. apply NoDup_app in Hnd as (_ & _ & Hnd). apply Forall_app in Hall as [_ Hall]. by split. Qed.

Lemma shows_walk fuel fuel' ctl p m ms text all s (Q : unit → st S → Prop) :
  (length ms < fuel')%nat → carries_at ctl p (m :: ms) → readable fuel (concat (fds_of <$> (m :: ms))) →
  shows text (concat (fds_of <$> (m :: ms))) s → text ++ given (concat (fds_of <$> (m :: ms))) `prefix_of` all →
  (∀ s', shows (text ++ given (concat (fds_of <$> (m :: ms)))) [] s' → Q tt s') →
  wp (loop (Datatypes.S fuel') (λ h : option Z, match h with Some p => show_message fuel ctl p;; mret (inl (CMSG_NXTHDR ctl p)) | None => mret (inr tt) end) (Some p))
    Q (ended all) s.
Proof using.
  revert fuel' p m text s. induction ms as [|m1 ms IH]; intros fuel' p m text s Hf Hc Hok Hs Hp HQ;
    (destruct fuel' as [|fuel']; [cbn in Hf; lia|]); rewrite loop_S; apply wp_bind, wp_bind; pose proof (next_header _ _ _ _ Hc) as Hn.
  - eapply shows_message; [exact Hc|exact Hok|exact Hs|by cbn in Hp; rewrite app_nil_r in Hp|]. intros s1 H1. apply wp_ret. rewrite Hn.
    rewrite loop_S. apply wp_bind, wp_ret, wp_ret, HQ. cbn. by rewrite app_nil_r.
  - change (concat (fds_of <$> m :: m1 :: ms)) with (fds_of m ++ concat (fds_of <$> m1 :: ms)) in *. rewrite given_app, app_assoc in Hp, HQ.
    destruct Hn as [-> Hn]. eapply shows_message; [exact Hc|exact Hok|exact Hs|by etrans; [apply prefix_app_r|]|]. intros s1 H1. apply wp_ret.
    apply (IH fuel' _ m1 (text ++ given (fds_of m))); [cbn in Hf; lia|exact Hn|by eapply readable_app|exact H1|exact Hp|exact HQ].
Qed.

(** Of any receiver: into an array with room for them, the messages [ms] are
    delivered. *)
Definition Delivers (ms : list cmsg) : Prop :=
  ∀ tr fd n size, strlen (control ms) <= size →
    let r := kern tr (Crecvmsg fd n size) in rv r = -1 ∨ carries (control_of size r) ms.

(** The room scm_multi_recv gives. *)
Definition recv_size (fs : list found) : Z :=
  let opt := (option_value recv_opt (false, -1) fs).2 in
  if opt =? -1 then CMSG_SPACE (4 * MAX_FDS) + CMSG_SPACE SIZEOF_UCRED else wrap_u 64 opt.

Lemma wp_multi_recv ms fuel argv :
  Delivers ms → readable fuel (concat (fds_of <$> ms)) → (length ms < fuel)%nat →
  strlen (control ms) <= recv_size (getopt_env (letters (str "d") (str "n")) (tail argv)).1 →
  wp (scm_multi_recv_main fuel argv) (λ _ _, False) (ended (given (concat (fds_of <$> ms)))) s0.
Proof using.
  intros Hdel Hok Hf Hroom. unfold recv_size in Hroom. set (all := given (concat (fds_of <$> ms))). pose proof (prefix_nil all) as Hp.
  unfold scm_multi_recv_main. apply wp_bind. eapply shows_call; [done|exact (shows_start (concat (fds_of <$> ms)))|]. intros m s1 _ _ H1.
  destruct (rv m =? -1); [by eapply shows_errExit|]. destruct (getopt_env _ _) as [fs ops]. cbn [fst] in Hroom. apply wp_bind.
  eapply shows_options; [exact H1|intros; by eapply shows_usageErr|]. intros s2 H2. destruct (option_value _ _ _) as [dg opt]. cbn [snd] in Hroom. apply wp_bind.
  eapply shows_receiving_socket; [exact H2|by apply ended_failing|]. intros sfd s3 H3. apply wp_bind. eapply shows_call; [done|exact H3|]. intros o s4 _ _ H4.
  destruct (rv o =? -1); [by eapply shows_errExit|]. apply wp_bind. eapply shows_garbage; [exact H4|]. intros data0 s5 H5. cbv zeta.
  set (size := if opt =? -1 then _ else _) in *. apply wp_bind. eapply shows_call; [done|exact H5|]. intros r s6 Hr _ H6.
  destruct (Z.eqb_spec (rv r) (-1)) as [E|E]; [by eapply shows_errExit|]. pose proof (Hdel (trace s5) sfd 4 size Hroom) as Hc. cbv zeta in Hc.
  rewrite <-Hr in Hc. destruct Hc as [Hc|Hc]; [done|]. clear Hroom. clearbody size.
  apply wp_bind. eapply shows_emit; [exact H6|]. intros s7 H7. apply wp_bind. eapply shows_when; [exact H7|]. intros s8 H8.
  assert (∀ s, shows [] (concat (fds_of <$> ms)) s →
    wp (loop fuel (λ h : option Z, match h with Some p => show_message fuel (control_of size r) p;; mret (inl (CMSG_NXTHDR (control_of size r) p)) | None => mret (inr tt) end)
       (CMSG_FIRSTHDR (control_of size r));; stop_with (Exit 0)) (λ (_ : unit) (_ : st S), False) (ended all) s) as Hloop.
  { intros s Hs. rewrite (first_header _ _ Hc). apply wp_bind. destruct fuel as [|fuel']; [lia|]. destruct ms as [|m1 ms].
    - rewrite loop_S. apply wp_bind, wp_ret, wp_ret, wp_stop. exists [], []. cbn in Hs. done.
    - eapply (shows_walk (Datatypes.S fuel')); [|by apply first_at|exact Hok|exact Hs|done|].
      + cbn in Hf. lia.
      + intros s' Hs'. apply wp_stop. exists all, []. split; [exact Hs'|]. split; done. }
  apply wp_bind. destruct (opt =? -1).
  - apply wp_ret, wp_bind. eapply shows_when; [exact H8|]. intros s9 H9. by apply Hloop.
  - apply wp_bind. eapply shows_emit; [exact H8|]. intros s9 H9. apply wp_bind. eapply shows_call; [done|exact H9|]. intros pid s10 _ _ H10.
    apply wp_bind. eapply shows_call; [done|exact H10|]. intros sy s11 _ _ H11. eapply shows_emit; [exact H11|]. intros s12 H12.
    apply wp_bind. eapply shows_when; [exact H12|]. intros s13 H13. by apply Hloop.
Qed.

(** scm_cred_recv prints the credentials it is given, and those of the peer. *)
Lemma wp_cred_recv p u g argv :
  Delivers [Cmsg SOL_SOCKET SCM_CREDENTIALS (ucred p u g)] → int p → 0 <= u < 2 ^ 32 → 0 <= g < 2 ^ 32 →
  wp (scm_cred_recv_main argv) (λ _ _, False)
    (λ t s, t = Exit 0 → ∃ c sfd, rv c ≠ -1 ∧ Esys (Cextern "getsockopt(SO_PEERCRED)" [sfd] []) c ∈ trace s ∧
       Eout Stdout (str "Received credentials pid=" ++ dec p ++ str ", uid=" ++ dec u ++ str ", gid=" ++ dec g ++ [NL]) ∈ trace s ∧
       Eout Stdout (str "Credentials from SO_PEERCRED: " ++ ucred_text (rdata c) (str "euid") (str "egid") ++ [NL]) ∈ trace s) s0.
Proof using.
  intros Hdel Hp Hu Hg. unfold scm_cred_recv_main. destruct (getopt_env _ _) as [fs ops]. set (E := λ (t : stop) (s : st S), _ → _).
  assert (∀ t s, t ≠ Exit 0 → shows [] [] s → E t s) as HE by (intros t s Ht _ ->; done).
  assert (∀ A text s (Q : A → st S → Prop), wp (usageErr text) Q E s) as Hus by (intros A text s Q; apply wp_usageErr; by intros ? _ _ ?).
  apply wp_bind. eapply shows_options; [exact (shows_start [])|intros; apply Hus|]. intros s2 H2. apply wp_bind.
  eapply shows_receiving_socket; [exact H2|done|]. intros sfd s3 H3. apply wp_bind. eapply shows_call; [done|exact H3|]. intros o s4 _ _ H4.
  destruct (rv o =? -1); [by eapply wp_errExit_fails|]. apply wp_bind. eapply shows_garbage; [exact H4|]. intros data0 s5 H5.
  apply wp_bind. eapply shows_call; [done|exact H5|]. intros r s6 Hr _ H6.
  destruct (Z.eqb_spec (rv r) (-1)) as [Er|Er]; [by eapply wp_errExit_fails|].
  pose proof (Hdel (trace s5) sfd 4 (CMSG_SPACE SIZEOF_UCRED) ltac:(done)) as Hc. cbv zeta in Hc. rewrite <-Hr in Hc. destruct Hc as [Hc|Hc]; [done|].
  apply wp_bind. eapply shows_emit; [exact H6|]. intros s7 H7. apply wp_bind. eapply shows_when; [exact H7|]. intros s8 H8. cbv zeta.
  rewrite (first_header _ _ Hc). destruct (header_at _ _ _ _ (first_at _ _ Hc)) as (_ & E1 & E2 & E3 & E4). cbn [data level type] in E1, E2, E3, E4.
  rewrite E1, E2, E3. change (strlen (ucred p u g)) with SIZEOF_UCRED in *. rewrite !Z.eqb_refl. cbn [negb]. rewrite E4.
  assert (ucred_text (ucred p u g) (str "uid") (str "gid") = str "pid=" ++ dec p ++ str ", uid=" ++ dec u ++ str ", gid=" ++ dec g) as ->.
  { unfold ucred_text, ucred. change (take 4 (le32 p ++ le32 u ++ le32 g)) with (le32 p). rewrite le_int by done.
    change (take 4 (drop 4 (le32 p ++ le32 u ++ le32 g))) with (le32 u). change (take 4 (drop 8 (le32 p ++ le32 u ++ le32 g))) with (le32 g).
    rewrite !le_le32, !Z.mod_small by done. done. }
  apply wp_bind. unfold line. apply wp_emit. apply wp_bind, wp_sys. cbn [trace]. set (c := kern _ _).
  destruct (Z.eqb_spec (rv c) (-1)) as [Ec|Ec].
  { apply wp_errExit. intros s' _ _ _ Hz. by destruct (end_of_fails _ Hz). }
  apply wp_bind, wp_emit, wp_stop. intros _. exists c, sfd. cbn [trace]. split; [done|]. rewrite !elem_of_app, !list_elem_of_singleton.
  split; [auto|]. split; [left; left; right|right]; by rewrite <-?app_assoc.
Qed.

Lemma wp_rights_recv fd fuel argv :
  Delivers [rights [fd]] → int fd → readable fuel [fd] →
  wp (scm_rights_recv_main fuel argv) (λ _ _, False) (ended (content fd)) s0.
Proof using.
  intros Hdel Hint [_ Hok]. apply Forall_singleton in Hok as (Hsrc & Ht & Hf). set (all := content fd). pose proof (prefix_nil all) as Hp.
  unfold scm_rights_recv_main. destruct (getopt_env _ _) as [fs ops]. apply wp_bind.
  eapply shows_options; [exact (shows_start [fd])|intros; by eapply shows_usageErr|]. intros s2 H2. apply wp_bind.
  eapply shows_receiving_socket; [exact H2|by apply ended_failing|]. intros sfd s3 H3. apply wp_bind. eapply shows_garbage; [exact H3|]. intros data0 s5 H5.
  apply wp_bind. eapply shows_call; [done|exact H5|]. intros r s6 Hr _ H6.
  destruct (Z.eqb_spec (rv r) (-1)) as [E|E]; [by eapply shows_errExit|]. pose proof (Hdel (trace s5) sfd 4 (CMSG_SPACE 4) ltac:(done)) as Hc. cbv zeta in Hc.
  rewrite <-Hr in Hc. destruct Hc as [Hc|Hc]; [done|].
  apply wp_bind. eapply shows_emit; [exact H6|]. intros s7 H7. apply wp_bind. eapply shows_when; [exact H7|]. intros s8 H8. cbv zeta.
  rewrite (first_header _ _ Hc). destruct (header_at _ _ _ _ (first_at _ _ Hc)) as (_ & E1 & E2 & E3 & E4).
  rewrite E1, E2, E3. change (strlen (data (rights [fd]))) with 4 in *. cbn [rights level type]. rewrite !Z.eqb_refl. cbn [negb]. rewrite E4.
  assert (wrap_s 32 (le (data (rights [fd]))) = fd) as -> by (cbn [rights data fmap list_fmap concat]; rewrite app_nil_r; by apply le_int).
  apply wp_bind. eapply shows_emit; [exact H8|]. intros s9 H9. apply wp_bind.
  eapply (shows_content _ _ _ fd [] []); [exact Hsrc|exact Ht|by apply not_elem_of_nil|exact Hf|exact H9|done|]. intros s10 H10.
  apply wp_stop. exists all, []. split; [exact H10|]. split; done.
Qed.
End Reading.

(** ** What the senders send *)

Lemma set_second m1 m2 : cmsg_ok m1 → cmsg_ok m2 →
  let z := replicate (Z.to_nat (CMSG_SPACE (strlen (data m1)) + CMSG_SPACE (strlen (data m2)))) NUL in
  let ctl := set_cmsg z 0 (level m1) (type m1) (data m1) in
  ∃ p, CMSG_NXTHDR ctl 0 = Some p ∧ set_cmsg ctl p (level m2) (type m2) (data m2) = control [m1; m2].
Proof.
  intros H1 H2. cbv zeta. unfold CMSG_SPACE. change (CMSG_ALIGN SIZEOF_CMSGHDR) with 16.
  pose proof (CMSG_ALIGN_bounds (strlen (data m1))) as B1. pose proof (CMSG_ALIGN_bounds (strlen (data m2))) as B2.
  pose proof (strlen_nonneg (data m1)). pose proof (strlen_nonneg (data m2)).
  set (a1 := CMSG_ALIGN (strlen (data m1))) in *. set (a2 := CMSG_ALIGN (strlen (data m2))) in *.
  set (d1 := strlen (data m1)) in *. set (d2 := strlen (data m2)) in *.
  assert (length (data m1) = Z.to_nat d1 ∧ length (data m2) = Z.to_nat d2) as [L1 L2] by (unfold d1, d2, strlen; lia).
  assert (set_cmsg (replicate (Z.to_nat (a1 + 16 + (a2 + 16))) NUL) 0 (level m1) (type m1) (data m1) =
    (image m1 ++ replicate (Z.to_nat (a1 - d1)) NUL) ++ replicate (Z.to_nat (a2 + 16)) NUL) as E1.
  { unfold set_cmsg, store. change (Z.to_nat 0) with 0%nat. rewrite take_0, app_nil_l. cbn [Nat.add]. fold (image m1). rewrite length_image, drop_replicate, <-app_assoc, <-replicate_add.
    do 2 f_equal. rewrite L1. lia. }
  rewrite E1. exists (16 + a1). split.
  - unfold CMSG_NXTHDR. pose proof (read_header [] m1 (replicate (Z.to_nat (a1 - d1)) NUL ++ replicate (Z.to_nat (a2 + 16)) NUL) H1) as (Hl & _).
    cbn [app] in Hl. change (strlen []) with 0 in Hl. rewrite <-app_assoc, Hl. fold d1.
    assert (CMSG_ALIGN (CMSG_LEN d1) = 16 + a1) as -> by apply CMSG_ALIGN_len. change (CMSG_LEN d1) with (16 + d1). unfold SIZEOF_CMSGHDR.
    assert (strlen (image m1 ++ replicate (Z.to_nat (a1 - d1)) NUL ++ replicate (Z.to_nat (a2 + 16)) NUL) = 16 + a1 + a2 + 16) as ->
      by (unfold strlen; rewrite !length_app, length_image, !length_replicate, L1; lia).
    rewrite !(proj2 (Z.ltb_ge _ _)) by lia. cbn [orb]. f_equal; lia.
  - set (one := image m1 ++ replicate (Z.to_nat (a1 - d1)) NUL).
    assert (length one = Z.to_nat (16 + a1)) as Lone by (unfold one; rewrite length_app, length_image, length_replicate, L1; lia).
    unfold set_cmsg, store. rewrite take_app_le, take_ge by lia. fold (image m2).
    rewrite drop_app_ge by lia. rewrite drop_replicate, Lone, length_image, L2.
    unfold control. cbn [fmap list_fmap concat]. rewrite app_nil_r. fold d1 d2 a1 a2. fold one. do 3 f_equal. lia.
Qed.

Lemma set_only m : cmsg_ok m → set_cmsg (replicate (Z.to_nat (CMSG_SPACE (strlen (data m)))) NUL) 0 (level m) (type m) (data m) = control [m].
Proof.
  intros Hm. unfold CMSG_SPACE. change (CMSG_ALIGN SIZEOF_CMSGHDR) with 16. pose proof (CMSG_ALIGN_bounds (strlen (data m))).
  unfold set_cmsg, store. change (Z.to_nat 0) with 0%nat. rewrite take_0, app_nil_l. cbn [Nat.add]. fold (image m). rewrite length_image, drop_replicate.
  unfold control. cbn [fmap list_fmap concat]. rewrite app_nil_r. do 2 f_equal. unfold strlen. lia.
Qed.

Definition opens (files : list cstr) (rs : list reply) : list (call * reply) := zip_with (λ f r, (Copen f O_RDONLY 0, r)) files rs.

Definition no_send (x : call * reply) : Prop := match x.1 with Csendmsg _ _ _ => False | _ => True end.

Section Sending.
Context {S : Type} `{os} (s0 : st S).
Implicit Types s : st S.

(** Nothing is sent, or nothing was accepted. *)
Definition unsent (t : stop) s : Prop :=
  t ≠ Exit 0 ∧ ∃ l, acted s0 l s ∧ Forall (λ x, no_send x ∨ rv x.2 = -1) l.

Lemma sends_options {A} prog step (usage : M S A) a fs l s (Q : A → st S → Prop) (E : stop → st S → Prop) :
  acted s0 l s → (∀ s', acted s0 l s' → wp usage Q E s') →
  (∀ s', acted s0 l s' → Q (option_value step a fs) s') → wp (option_loop prog step usage a fs) Q E s.
Proof using.
  intros Hs Hu HQ. revert a HQ. induction fs as [|f fs IH]; intros a HQ; cbn [option_loop]; [by apply wp_ret, HQ|].
  destruct f as [c arg|c|c]; [by apply IH| |]; cbn [getopt_complaint]; apply wp_bind, wp_emit, Hu; (eapply acted_same; [exact Hs|apply acts_out|done]).
Qed.

Lemma sends_emit f t l s (Q : unit → st S → Prop) E : acted s0 l s → (∀ s', acted s0 l s' → Q tt s') → wp (out f t) Q E s.
Proof using. intros Hs HQ. apply wp_emit, HQ. eapply acted_same; [exact Hs|apply acts_out|done]. Qed.

Lemma unsent_errExit {A} m l s (Q : A → st S → Prop) : acted s0 l s → Forall (λ x, no_send x ∨ rv x.2 = -1) l → wp (errExit m) Q unsent s.
Proof using. intros Hs Hl. apply wp_errExit. intros s' Hg Ha _. split; [apply end_of_fails|]. exists l. split; [by eapply acted_same|done]. Qed.

Lemma unsent_usageErr {A} m l s (Q : A → st S → Prop) : acted s0 l s → Forall (λ x, no_send x ∨ rv x.2 = -1) l → wp (usageErr m) Q unsent s.
Proof using. intros Hs Hl. apply wp_usageErr. intros s' Hg Ha. split; [done|]. exists l. split; [by eapply acted_same|done]. Qed.

Lemma sends_unixConnect path type l s (Q : Z → st S → Prop) E :
  acted s0 l s → (∀ z l' s', acted s0 (l ++ l') s' → Forall no_send l' → Q z s') → wp (unixConnect path type) Q E s.
Proof using.
  intros Hs HQ. unfold unixConnect, unix_socket, unixBuildAddress. apply wp_bind.
  destruct (strlen path <? Z.of_nat SUN_PATH).
  2: { apply wp_bind, wp_set_errno, wp_ret. cbn [Z.eqb Pos.eqb]. apply wp_ret, (HQ _ []); [|done]. rewrite app_nil_r. exact Hs. }
  apply wp_ret. cbn [Z.eqb]. apply wp_bind. eapply wp_act; [exact Hs|done|]. intros r s1 _ H1 _ _.
  destruct (rv r =? -1); [apply wp_ret; eapply HQ; [exact H1|by repeat constructor]|]. apply wp_bind. eapply wp_act; [exact H1|done|]. intros c s2 _ H2 _ _.
  rewrite <-app_assoc in H2. destruct (rv c =? -1); [|apply wp_ret; eapply HQ; [exact H2|by repeat constructor]].
  apply wp_bind, wp_get_errno, wp_bind. eapply wp_act; [exact H2|done|]. intros k s3 _ H3 _ _. rewrite <-app_assoc in H3.
  apply wp_bind, wp_set_errno, wp_ret. eapply (HQ _ _ (St (glob s3) (errno s2) (trace s3))); [exact H3|by repeat constructor].
Qed.

Lemma no_send_weaken l : Forall no_send l → Forall (λ x, no_send x ∨ rv x.2 = -1) l.
Proof using. intros Hl. eapply Forall_impl; [exact Hl|]. auto. Qed.

Lemma sends_open_files files l s (Q : list Z → st S → Prop) :
  acted s0 l s → Forall no_send l →
  (∀ rs s', acted s0 (l ++ opens files rs) s' → length rs = length files → Forall no_send (opens files rs) → Q (rv <$> rs) s') →
  wp (open_files files) Q unsent s.
Proof using.
  revert l s Q. induction files as [|file files IH]; intros l s Q Hs Hl HQ; cbn [open_files].
  { apply wp_ret, (HQ []); [by rewrite app_nil_r|done|constructor]. }
  apply wp_bind. eapply wp_act; [exact Hs|done|]. intros r s1 _ H1 _ _. assert (Forall no_send (l ++ [(Copen file O_RDONLY 0, r)])) as Hl1
    by (apply Forall_app; split; [done|by repeat constructor]).
  destruct (rv r =? -1); [by eapply unsent_errExit, no_send_weaken|].
  apply wp_bind, (IH (l ++ [(Copen file O_RDONLY 0, r)])); [exact H1|done|]. intros rs s2 H2 Hlen Hns. apply wp_ret, (HQ (r :: rs)).
  - by rewrite <-app_assoc in H2.
  - cbn. by rewrite Hlen.
  - cbn. by constructor.
Qed.

Definition credentials (pid uid gid : Z) : cmsg := Cmsg SOL_SOCKET SCM_CREDENTIALS (ucred pid uid gid).

Lemma credentials_ok pid uid gid : cmsg_ok (credentials pid uid gid).
Proof using. done. Qed.

(** The program asked for its identity, opened the files, and sent their
    descriptors with credentials; [o] are the values the options give. *)
Definition multi_sent (fs : list found) (files : list cstr) (ctl : cstr) (rs : list reply) s : Prop :=
  ∃ p u g l0 l1 sfd r, let o := option_value send_opt (SendOpts false true (rv p) (rv u) (rv g)) fs in
    acted s0 ((Cgetpid, p) :: (Cgetuid, u) :: (Cgetgid, g) :: l0 ++ opens files rs ++ l1 ++
      [(Csendmsg sfd (if sendData o then le32 12345 else []) ctl, r)]) s ∧
    Forall no_send (l0 ++ l1) ∧ rv r ≠ -1 ∧ length rs = length files ∧ files ≠ [] ∧
    ctl = control [rights (rv <$> rs); credentials (s_pid o) (s_uid o) (s_gid o)].

Lemma wp_multi_send argv fs files :
  getopt_env (letters (str "dn") (str "pug")) (tail argv) = (fs, files) → Z.of_nat (length files) < 2 ^ 29 →
  wp (scm_multi_send_main argv) (λ _ _, False)
    (λ t s, unsent t s ∨ t = Exit 0 ∧ ∃ ctl rs, multi_sent fs files ctl rs s) s0.
Proof using.
  intros Hopt Hn. unfold scm_multi_send_main. rewrite Hopt.
  set (E := λ (t : stop) (s : st S), unsent t s ∨ _).
  assert (∀ A (m : M S A) Q s, wp m Q unsent s → wp m Q E s) as Hun by (intros A m Q s Hm; eapply wp_mono; [exact Hm|done|by left]).
  assert (∀ A l s (Q : A → st S → Prop), acted s0 l s → Forall no_send l → wp (multi_usageError (default [] (argv !! 0%nat))) Q E s) as Husage.
  { intros A l s Q Hs Hl. apply Hun. unfold multi_usageError. apply wp_bind. eapply sends_emit; [exact Hs|]. intros s1 H1. apply wp_bind.
    eapply wp_mono; [apply (wp_for_each (λ _ s', acted s0 l s')); [exact H1|]| |done].
    - intros x k todo s2 _ H2. by eapply sends_emit.
    - intros [] s2 H2. apply wp_stop. split; [done|]. exists l. split; [done|]. by apply no_send_weaken. }
  apply wp_bind. eapply wp_act; [apply acted_refl|done|]. intros p s1 _ H1 _ _. apply wp_bind. eapply wp_act; [exact H1|done|]. intros u s2 _ H2 _ _.
  apply wp_bind. eapply wp_act; [exact H2|done|]. intros g s3 _ H3 _ _. cbn [app] in H3. set (base := [(Cgetpid, p); (Cgetuid, u); (Cgetgid, g)]) in *.
  assert (Forall no_send base) as Hb by by repeat constructor.
  apply wp_bind. eapply sends_options; [exact H3|intros s4 H4; by eapply Husage|]. intros s4 H4.
  set (o := option_value _ _ fs). destruct (Z.leb_spec (Z.of_nat (length files)) 0) as [Hz|Hz]; [by eapply Husage|].
  apply wp_bind. eapply wp_act; [exact H4|done|]. intros m s5 _ H5 _ _. set (l5 := base ++ [(_, m)]) in *. assert (Forall no_send l5) as Hl5 by by repeat constructor.
  destruct (rv m =? -1); [by eapply Hun, unsent_errExit, no_send_weaken|]. apply wp_bind. eapply sends_emit; [exact H5|]. intros s6 H6.
  apply wp_bind. eapply wp_act; [exact H6|done|]. intros c s7 _ H7 _ _. set (l7 := l5 ++ [(_, c)]) in *. assert (Forall no_send l7) as Hl7 by by repeat constructor.
  destruct (rv c =? -1); [by eapply Hun, unsent_errExit, no_send_weaken|]. apply wp_bind.
  eapply wp_mono; [apply (sends_open_files files l7 s7 (λ fds s', ∃ rs, fds = rv <$> rs ∧ acted s0 (l7 ++ opens files rs) s' ∧ length rs = length files ∧ Forall no_send (opens files rs)));
    [exact H7|done|eauto 6]| |by left].
  intros fds s8 (rs & -> & H8 & Hlen & Hns). cbv zeta.
  assert (Z.of_nat (length (rv <$> rs)) = Z.of_nat (length files)) as Hlen' by by rewrite length_fmap, Hlen.
  destruct (set_second (rights (rv <$> rs)) (credentials (s_pid o) (s_uid o) (s_gid o))) as (q & Hq & Hctl);
    [apply rights_ok; lia|apply credentials_ok|]. cbv zeta in Hq, Hctl. cbn [data level type rights credentials] in Hq, Hctl.
  rewrite strlen_le32s, Hlen' in Hq, Hctl. change (strlen (ucred _ _ _)) with SIZEOF_UCRED in Hq, Hctl. rewrite Hq, Hctl.
  apply wp_bind. eapply sends_emit; [exact H8|]. intros s9 H9. apply wp_bind. eapply sends_unixConnect; [exact H9|]. intros sfd l1 s10 H10 Hl1.
  assert (Forall no_send ((l7 ++ opens files rs) ++ l1)) as Hl10 by (rewrite !Forall_app; auto).
  destruct (sfd =? -1); [by eapply Hun, unsent_errExit, no_send_weaken|]. apply wp_bind. eapply wp_act; [exact H10|done|]. intros r s11 _ H11 _ _.
  destruct (Z.eqb_spec (rv r) (-1)) as [Hr|Hr].
  - eapply Hun, unsent_errExit; [exact H11|]. apply Forall_app. split; [by apply no_send_weaken|]. apply Forall_singleton. by right.
  - apply wp_bind. eapply sends_emit; [exact H11|]. intros s12 H12. apply wp_stop. right. split; [done|].
    eexists _, rs, p, u, g, _, l1, sfd, r. cbv zeta. fold o. rewrite <-!app_assoc in H12. unfold l7, l5, base in H12. cbn [app] in H12.
    split; [exact (H12 : acted s0 (_ :: _ :: _ :: [_; _] ++ _) _)|]. split; [apply Forall_app; split; [by repeat constructor|done]|].
    split; [done|]. split; [done|]. split; [by intros ->|done].
Qed.

Definition rights_sent (file ctl : cstr) (f : reply) s : Prop :=
  ∃ l1 sfd n k, acted s0 ((Copen file O_RDONLY 0, f) :: l1 ++ [(Csendmsg sfd (le32 12345) ctl, n); (Cclose (rv f), k)]) s ∧
    Forall no_send l1 ∧ rv f ≠ -1 ∧ rv n ≠ -1 ∧ carries ctl [rights [rv f]].

Lemma wp_rights_send argv fs ops :
  getopt_env (letters (str "d") []) (tail argv) = (fs, ops) →
  wp (scm_rights_send_main argv) (λ _ _, False)
    (λ t s, t ≠ Exit 0 ∨ ∃ file ctl f, ops = [file] ∧ rights_sent file ctl f s) s0.
Proof using.
  intros Hopt. unfold scm_rights_send_main. rewrite Hopt. set (E := λ (t : stop) (s : st S), _ ∨ _).
  assert (∀ A text s (Q : A → st S → Prop), wp (usageErr text) Q E s) as Hus by (intros A text s Q; apply wp_usageErr; intros ? _ _; by left).
  assert (∀ A text s (Q : A → st S → Prop), wp (errExit text) Q E s) as Hfail by (intros A text s Q; apply wp_errExit; intros ? _ _ _; left; apply end_of_fails).
  apply wp_bind. eapply sends_options; [apply acted_refl|intros; apply Hus|]. intros s1 H1. destruct ops as [|file [|? ?]]; try apply Hus.
  apply wp_bind. eapply wp_act; [exact H1|done|]. intros f s2 _ H2 _ _. destruct (Z.eqb_spec (rv f) (-1)) as [Ef|Ef]; [apply Hfail|].
  apply wp_bind. eapply sends_emit; [exact H2|]. intros s3 H3. apply wp_bind. eapply sends_unixConnect; [exact H3|]. intros sfd l1 s4 H4 Hl1.
  destruct (sfd =? -1); [apply Hfail|]. apply wp_bind. eapply sends_emit; [exact H4|]. intros s5 H5. apply wp_bind. eapply wp_act; [exact H5|done|].
  intros n s6 _ H6 _ _. destruct (Z.eqb_spec (rv n) (-1)) as [En|En]; [apply Hfail|]. apply wp_bind. eapply sends_emit; [exact H6|]. intros s7 H7.
  apply wp_bind. eapply wp_act; [exact H7|done|]. intros k s8 _ H8 _ _. destruct (rv k =? -1); [apply Hfail|]. apply wp_stop. right.
  eexists file, _, f. split; [done|]. exists l1, sfd, n, k. rewrite <-!app_assoc in H8. cbn [app] in H8. split; [exact H8|]. split; [done|]. split; [done|]. split; [done|].
  apply set_rights. done.
Qed.

(** The data and the control data scm_cred_send has sent: none with -n, else the
    credentials of the command line, its own where there are none. *)
Definition cred_sent (fs : list found) (ops : list cstr) s : Prop :=
  ∃ l l1 sfd n ctl, acted s0 (l ++ l1 ++ [(Csendmsg sfd (le32 (match ops with w :: _ => atoi w | [] => 12345 end)) ctl, n)]) s ∧
    Forall no_send l1 ∧ rv n ≠ -1 ∧
    ((option_value cred_opt (false, false) fs).2 = true ∧ l = [] ∧ ctl = [] ∨
     ∃ p u g, l = [(Cgetpid, p); (Cgetuid, u); (Cgetgid, g)] ∧
       ctl = control [credentials (override ops 1 (rv p)) (override ops 2 (rv u)) (override ops 3 (rv g))]).

Lemma wp_cred_send argv fs ops :
  getopt_env (letters (str "dn") []) (tail argv) = (fs, ops) →
  wp (scm_cred_send_main argv) (λ _ _, False) (λ t s, t ≠ Exit 0 ∨ cred_sent fs ops s) s0.
Proof using.
  intros Hopt. unfold scm_cred_send_main. rewrite Hopt. set (E := λ (t : stop) (s : st S), _ ∨ _).
  assert (∀ A text s (Q : A → st S → Prop), wp (usageErr text) Q E s) as Hus by (intros A text s Q; apply wp_usageErr; intros ? _ _; by left).
  assert (∀ A text s (Q : A → st S → Prop), wp (errExit text) Q E s) as Hfail by (intros A text s Q; apply wp_errExit; intros ? _ _ _; left; apply end_of_fails).
  apply wp_bind. eapply sends_options; [apply acted_refl|intros; apply Hus|]. intros s1 H1. destruct (option_value cred_opt _ fs) as [dg noExplicit] eqn:Eo.
  apply wp_bind. eapply sends_emit; [exact H1|]. intros s2 H2. cbv zeta. set (d := match ops with [] => _ | _ => _ end).
  assert (∀ l ctl s, acted s0 l s → (noExplicit = true ∧ l = [] ∧ ctl = [] ∨ ∃ p u g, l = [(Cgetpid, p); (Cgetuid, u); (Cgetgid, g)] ∧
       ctl = control [credentials (override ops 1 (rv p)) (override ops 2 (rv u)) (override ops 3 (rv g))]) →
    wp (sfd ← unixConnect CRED_PATH (sock_type dg);
        if sfd =? -1 then errExit (str "unixConnect") else
        n ← sys (Csendmsg sfd (le32 d) ctl);
        if rv n =? -1 then errExit (str "sendmsg") else
        line Stdout (str "sendmsg() returned " ++ dec (rv n));;
        stop_with (Exit 0)) (λ (_ : unit) (_ : st S), False) E s) as Hrest.
  { intros l ctl s Hs Hctl. apply wp_bind. eapply sends_unixConnect; [exact Hs|]. intros sfd l1 s4 H4 Hl1.
    destruct (sfd =? -1); [apply Hfail|]. apply wp_bind. eapply wp_act; [exact H4|done|]. intros n s6 _ H6 _ _.
    destruct (Z.eqb_spec (rv n) (-1)) as [En|En]; [apply Hfail|]. apply wp_bind. eapply sends_emit; [exact H6|]. intros s7 H7.
    apply wp_stop. right. exists l, l1, sfd, n, ctl. rewrite <-app_assoc in H7. rewrite Eo. auto. }
  apply wp_bind. destruct noExplicit.
  - apply wp_bind. eapply sends_emit; [exact H2|]. intros s3 H3. apply wp_ret. eapply Hrest; [exact H3|auto].
  - unfold cred_control. apply wp_bind. eapply wp_act; [exact H2|done|]. intros p s3 _ H3 _ _. apply wp_bind. eapply wp_act; [exact H3|done|]. intros u s4 _ H4 _ _.
    apply wp_bind. eapply wp_act; [exact H4|done|]. intros g s5 _ H5 _ _. cbv zeta. apply wp_bind. eapply sends_emit; [exact H5|]. intros s6 H6.
    apply wp_ret. eapply Hrest; [exact H6|]. right. exists p, u, g. split; [done|].
    exact (set_only (credentials (override ops 1 (rv p)) (override ops 2 (rv u)) (override ops 3 (rv g))) (credentials_ok _ _ _)).
Qed.
End Sending.

(** ** From sender to receiver *)


(** One descriptor, from scm_rights_send.c to scm_rights_recv.c. *)
Theorem scm_rights_transfer {S S'} (Ks Kr : os) argv fs ops (s : st S) :
  @getopt_env (letters (str "d") []) Ks (tail argv) = (fs, ops) →
  wp (@scm_rights_send_main S Ks argv) (λ _ _, False)
    (λ t s1, t ≠ Exit 0 ∨ ∃ file ctl f, ops = [file] ∧ rights_sent s file ctl f s1 ∧
       ∀ fd content budget fuel argv' (s' : st S'),
         int fd → @Delivers Kr [rights [fd]] → @Source Kr fd content budget → taken fd (trace s') = [] → (length content < fuel)%nat →
         wp (@scm_rights_recv_main S' Kr fuel argv') (λ _ _, False) (ended s' content) s') s.
Proof.
  intros Hopt. eapply wp_mono; [apply (@wp_rights_send S Ks s argv fs ops Hopt)|done|].
  intros t s1 [Hu|(file & ctl & f & -> & Hsent)]; [by left|right]. exists file, ctl, f. split; [done|]. split; [done|].
  intros fd content budget fuel argv' s' Hint Hdel Hsrc Ht Hf.
  apply (@wp_rights_recv S' Kr s' (λ _, content) budget fd fuel argv' Hdel Hint). split; [apply NoDup_singleton|by apply Forall_singleton].
Qed.

(** Credentials, from scm_cred_send.c to scm_cred_recv.c: the sender ends, with
    failure or having sent the credentials of its command line; a receiver to
    which these are delivered ends, with failure or having printed them. *)
Theorem scm_cred_transfer {S S'} (Ks Kr : os) argv fs ops (s : st S) :
  @getopt_env (letters (str "dn") []) Ks (tail argv) = (fs, ops) →
  wp (@scm_cred_send_main S Ks argv) (λ _ _, False)
    (λ t s1, t ≠ Exit 0 ∨ cred_sent s fs ops s1 ∧
       ∀ p u g argv' (s' : st S'), @Delivers Kr [credentials p u g] → int p → 0 <= u < 2 ^ 32 → 0 <= g < 2 ^ 32 →
         wp (@scm_cred_recv_main S' Kr argv') (λ _ _, False)
           (λ t s2, t = Exit 0 → Eout Stdout (str "Received credentials pid=" ++ dec p ++ str ", uid=" ++ dec u ++ str ", gid=" ++ dec g ++ [NL]) ∈ trace s2) s') s.
Proof.
  intros Hopt. eapply wp_mono; [apply (@wp_cred_send S Ks s argv fs ops Hopt)|done|]. intros t s1 [Ht|Hsent]; [by left|right].
  split; [done|]. intros p u g argv' s' Hdel Hp Hu Hg. eapply wp_mono; [exact (@wp_cred_recv S' Kr s' p u g argv' Hdel Hp Hu Hg)|done|].
  intros t2 s2 H E. destruct (H E) as (c & sfd & _ & _ & Hout & _). exact Hout.
Qed.

(** A receiver whose message has descriptors 7 and 9, of two files, when there is
    room for it. *)
Definition two_files (fd : Z) : cstr := if fd =? 7 then str "first" else str "second".
Definition delivered : list cmsg := [rights [7; 9]; credentials 1 2 3].
Definition multi_os : os := test_os (λ tr c,
  match c with
  | Cread fd n => @kern (chunked 0 (two_files fd) 4) tr c
  | Crecvmsg _ _ size => if strlen (control delivered) <=? size then Reply 4 0 (le32 12345) [(control delivered, 0)] else fail EINVAL
  | Copen f _ _ => ok (strlen f)
  | _ => ok 5
  end).

Lemma multi_os_source fd : @Source multi_os fd (two_files fd) 0.
Proof. intros tr n Hn. exact (@chunked_source 0 (two_files fd) 4 fd ltac:(lia) tr n Hn). Qed.

Lemma multi_os_readable : @readable unit multi_os (init tt) two_files 0 20 [7; 9].
Proof.
  split; [apply (bool_decide_eq_true_1 (NoDup [7; 9])); by vm_compute|]. repeat (apply Forall_cons; split; [split; [apply multi_os_source|split; [done|cbn; lia]]|]). constructor.
Qed.

Lemma multi_os_delivers : @Delivers multi_os delivered.
Proof.
  intros tr fd n size Hs. right. cbn [kern multi_os test_os]. rewrite (proj2 (Z.leb_le _ _) Hs). unfold control_of. cbn [rents].
  rewrite take_ge by (unfold strlen in Hs; lia). apply carries_control. by repeat (constructor; [done|]).
Qed.

