(* ===== verification/Pty.v ===== *)
(** Pseudoterminals and terminal modes: tlpi-book/lib/tty_functions.c,
    pty_master_open.c, pty_fork.c, tlpi-book/pty/pty_master_open_bsd.c, and the
    programs that run another one on a pseudoterminal, tlpi-book/pty/script.c
    and unbuffer.c. *)
From S2P Require Import Prelude Sys Rdwrn ErrorFns SvmsgFile Copy.

(** ** Terminal modes *)

(** struct termios: its flags, its control characters, and the rest (the line
    discipline and the speeds). *)
Record termios := Termios { c_iflag : Z; c_oflag : Z; c_cflag : Z; c_lflag : Z; c_line : cstr; c_cc : cstr; c_speed : cstr }.

Definition termios_of (bs : cstr) : termios :=
  Termios (le (take 4 bs)) (le (take 4 (drop 4 bs))) (le (take 4 (drop 8 bs))) (le (take 4 (drop 12 bs)))
    (take 1 (drop 16 bs)) (take 32 (drop 17 bs)) (drop 49 bs).
Definition termios_bytes (t : termios) : cstr :=
  le32 (c_iflag t) ++ le32 (c_oflag t) ++ le32 (c_cflag t) ++ le32 (c_lflag t) ++ c_line t ++ c_cc t ++ c_speed t.

Definition ISIG : Z := 1.
Definition ICANON : Z := 2.
Definition ECHO : Z := 8.
Definition IEXTEN : Z := 32768.
Definition IGNBRK : Z := 1.
Definition BRKINT : Z := 2.
Definition PARMRK : Z := 8.
Definition INPCK : Z := 16.
Definition ISTRIP : Z := 32.
Definition INLCR : Z := 64.
Definition IGNCR : Z := 128.
Definition ICRNL : Z := 256.
Definition IXON : Z := 1024.
Definition OPOST : Z := 1.
Definition VTIME : nat := 5.
Definition VMIN : nat := 6.
Definition TCSANOW : Z := 0.
Definition TCSAFLUSH : Z := 2.

Definition any_of (flags : list Z) : Z := foldr Z.lor 0 flags.
Definition clear (v m : Z) : Z := Z.land v (Z.lnot m).

(** Character at a time, blocking. *)
Definition one_at_a_time (cc : cstr) : cstr := <[VTIME := chr 0]> (<[VMIN := chr 1]> cc).

Definition cbreak (t : termios) : termios :=
  Termios (clear (c_iflag t) ICRNL) (c_oflag t) (c_cflag t) (Z.lor (clear (c_lflag t) (any_of [ICANON; ECHO])) ISIG)
    (c_line t) (one_at_a_time (c_cc t)) (c_speed t).

Definition raw (t : termios) : termios :=
  Termios (clear (c_iflag t) (any_of [BRKINT; ICRNL; IGNBRK; IGNCR; INLCR; INPCK; ISTRIP; IXON; PARMRK])) (clear (c_oflag t) OPOST)
    (c_cflag t) (clear (c_lflag t) (any_of [ICANON; ISIG; IEXTEN; ECHO])) (c_line t) (one_at_a_time (c_cc t)) (c_speed t).

Section Tty.
Context {S : Type} `{os}.

(** The result, and what is stored through prevTermios. *)
Definition tty_set (mode : termios → termios) (fd : Z) : M S (Z * option termios) :=
  g ← sys (Ctcgetattr fd);
  if rv g =? -1 then mret (-1, None) else
  let t := termios_of (rdata g) in
  r ← sys (Ctcsetattr fd TCSAFLUSH (termios_bytes (mode t)));
  mret (if rv r =? -1 then -1 else 0, Some t).

Definition ttySetCbreak : Z → M S (Z * option termios) := tty_set cbreak.
Definition ttySetRaw : Z → M S (Z * option termios) := tty_set raw.

(** ** Masters *)

(** close may change errno. *)
Definition close_keeping_errno (fd : Z) : M S unit :=
  savedErrno ← get_errno;
  sys (Cclose fd);;
  set_errno savedErrno.

Definition O_RDWR_NOCTTY : Z := 258.

(** The result, and the name of the slave. *)
Definition ptyMasterOpen (snLen : Z) : M S (Z * cstr) :=
  m ← sys Cposix_openpt;
  let masterFd := rv m in
  if masterFd =? -1 then mret (-1, []) else
  g ← sys (Cgrantpt masterFd);
  if rv g =? -1 then close_keeping_errno masterFd;; mret (-1, []) else
  u ← sys (Cunlockpt masterFd);
  if rv u =? -1 then close_keeping_errno masterFd;; mret (-1, []) else
  p ← sys (Cptsname masterFd);
  if rv p =? -1 then close_keeping_errno masterFd;; mret (-1, []) else
  if strlen (rdata p) <? snLen then mret (masterFd, strncpy snLen (rdata p)) else
  sys (Cclose masterFd);;
  set_errno EOVERFLOW;;
  mret (-1, []).

(** pty_master_open_bsd.c: the names are tried in order. *)
Definition X_RANGE : cstr := str "pqrstuvwxyzabcde".
Definition Y_RANGE : cstr := str "0123456789abcdef".
Definition PTY_NAME_LEN : Z := 11.
Definition O_RDWR : Z := 2.

Definition bsd_names : list (ascii * ascii) := concat ((λ x, pair x <$> Y_RANGE) <$> X_RANGE).

Fixpoint bsd_open (snLen : Z) (names : list (ascii * ascii)) : M S (Z * cstr) :=
  match names with
  | [] => mret (-1, [])
  | (x, y) :: names =>
      m ← sys (Copen (str "/dev/pty" ++ [x; y]) O_RDWR 0);
      if rv m =? -1 then
        e ← get_errno;
        if e =? ENOENT then mret (-1, []) else bsd_open snLen names
      else
        let slave := str "/dev/tty" ++ [x; y] in
        if snLen <=? strlen slave then set_errno EOVERFLOW;; mret (-1, []) else mret (rv m, slave)
  end.

Definition bsd_ptyMasterOpen (snLen : Z) : M S (Z * cstr) :=
  if snLen <? PTY_NAME_LEN then set_errno EOVERFLOW;; mret (-1, []) else bsd_open snLen bsd_names.

(** ** ptyFork *)

Definition MAX_SNAME : Z := 1000.
Definition TIOCSCTTY : Z := 0x540E.
Definition TIOCGWINSZ : Z := 0x5413.
Definition TIOCSWINSZ : Z := 0x5414.

Definition must (r : reply) (text : cstr) : M S unit := when (rv r =? -1) (err_exit (str "ptyFork:" ++ text)).

(** The child: a new session on the slave. *)
Definition pty_child (mfd : Z) (slname : cstr) (slaveTermios : option termios) (slaveWS : option cstr) : M S unit :=
  z ← sys Csetsid;
  must z (str "setsid");;
  sys (Cclose mfd);;
  o ← sys (Copen slname O_RDWR 0);
  must o (str "open-slave");;
  let slaveFd := rv o in
  i ← sys (Cioctl slaveFd TIOCSCTTY);
  must i (str "ioctl-TIOCSCTTY");;
  match slaveTermios with
  | Some t => a ← sys (Ctcsetattr slaveFd TCSANOW (termios_bytes t)); must a (str "tcsetattr")
  | None => mret tt
  end;;
  match slaveWS with
  | Some ws => w ← sys (Cextern "ioctl" [slaveFd; TIOCSWINSZ] ws); must w (str "ioctl-TIOCSWINSZ")
  | None => mret tt
  end;;
  for_each [(0, str "STDIN_FILENO"); (1, str "STDOUT_FILENO"); (2, str "STDERR_FILENO")] (λ x,
    d ← sys (Cdup2 slaveFd x.1);
    when (negb (rv d =? x.1)) (err_exit (str "ptyFork:dup2-" ++ x.2)));;
  when (2 <? slaveFd) (sys (Cclose slaveFd);; mret tt).

(** The result, what is stored through masterFd, and through slaveName when it
    is not null ([snLen]). *)
Definition ptyFork (snLen : option Z) (slaveTermios : option termios) (slaveWS : option cstr) : M S (Z * option Z * cstr) :=
  '(mfd, slname) ← ptyMasterOpen MAX_SNAME;
  if mfd =? -1 then mret (-1, None, []) else
  let too_small := match snLen with Some n => negb (strlen slname <? n) | None => false end in
  if too_small then sys (Cclose mfd);; set_errno EOVERFLOW;; mret (-1, None, []) else
  let slaveName := match snLen with Some n => strncpy n slname | None => [] end in
  f ← sys Cfork;
  let childPid := rv f in
  if childPid =? -1 then close_keeping_errno mfd;; mret (-1, None, slaveName) else
  if negb (childPid =? 0) then mret (childPid, Some mfd, slaveName) else
  pty_child mfd slname slaveTermios slaveWS;;
  mret (0, None, slaveName).

(** ** Relaying between the terminal and the master *)

Definition RELAY_SIZE : Z := 256.
Definition ready (r : reply) (fd : Z) : bool := existsb (λ x, x.2 =? fd) (rents r).

Definition relay_from (src : Z) (outs : list (Z * cstr)) : M S unit :=
  n ← sys (Cread src RELAY_SIZE);
  if rv n <=? 0 then stop_with (Exit 0) else
  for_each outs (λ o,
    w ← sys (Cwrite o.1 (data_of n));
    when (negb (rv w =? rv n)) (fatal (str "partial/failed write (" ++ o.2 ++ str ")"))).

Definition relay_turn (mfd : Z) (outs : list (Z * cstr)) : M S (unit + unit) :=
  r ← sys (Cselect [0; mfd]);
  if rv r =? -1 then errExit (str "select") else
  when (ready r 0) (relay_from 0 [(mfd, str "masterFd")]);;
  when (ready r mfd) (relay_from mfd outs);;
  mret (inl tt).

(** The exit handler. *)
Definition ttyReset (ttyOrig : termios) : M S unit :=
  r ← sys (Ctcsetattr 0 TCSANOW (termios_bytes ttyOrig));
  when (rv r =? -1) (errExit (str "tcsetattr")).

(** What both programs do before they fork, and the parent after: the terminal
    is made raw, and put back on exit. *)
Definition in_raw_mode (fuel : nat) (ttyOrig : termios) (mfd : Z) (outs : list (Z * cstr)) : M S unit :=
  '(_, prev) ← ttySetRaw 0;
  let ttyOrig := default ttyOrig prev in
  a ← sys Catexit;
  if negb (rv a =? 0) then errExit (str "atexit") else
  at_exit (ttyReset ttyOrig) (loop fuel (λ _, relay_turn mfd outs) tt).

Definition script_main (fuel : nat) (argv : list cstr) : M S unit :=
  g ← sys (Ctcgetattr 0);
  if rv g =? -1 then errExit (str "tcgetattr") else
  let ttyOrig := termios_of (rdata g) in
  w ← sys (Cioctl 0 TIOCGWINSZ);
  if rv w <? 0 then errExit (str "ioctl-TIOCGWINSZ") else
  '(childPid, mfd, _) ← ptyFork (Some MAX_SNAME) (Some ttyOrig) (Some (rdata w));
  if childPid =? -1 then errExit (str "ptyFork") else
  if childPid =? 0 then
    let shell := match getenv (str "SHELL") with None | Some [] => str "/bin/sh" | Some sh => sh end in
    e ← sys (Cexec shell [shell]);
    if rv e =? -1 then errExit (str "execlp") else stop_with (Execed shell [shell])
  else
    let masterFd := default 0 mfd in
    o ← sys (Copen (match argv with _ :: file :: _ => file | _ => str "typescript" end) O_CREAT_WRONLY_TRUNC rw_all);
    if rv o =? -1 then errExit (str "open typescript") else
    in_raw_mode fuel ttyOrig masterFd [(1, str "STDOUT_FILENO"); (rv o, str "scriptFd")].

Definition unbuffer_main (fuel : nat) (argv : list cstr) : M S unit :=
  g ← sys (Ctcgetattr 0);
  if rv g =? -1 then errExit (str "tcgetattr") else
  let ttyOrig := termios_of (rdata g) in
  w ← sys (Cioctl 0 TIOCGWINSZ);
  if rv w <? 0 then errExit (str "TIOCGWINSZ error") else
  '(childPid, mfd, _) ← ptyFork (Some MAX_SNAME) (Some ttyOrig) (Some (rdata w));
  if childPid =? -1 then errExit (str "ptyFork") else
  if childPid =? 0 then
    match argv with
    | _ :: command :: _ =>
        e ← sys (Cexec command (tail argv));
        if rv e =? -1 then errExit (str "execvp") else stop_with (Execed command (tail argv))
    | _ => stop_with (Undefined "execvp of a null pointer")
    end
  else in_raw_mode fuel ttyOrig (default 0 mfd) [(1, str "STDOUT_FILENO")].
End Tty.

(** ** Modes *)

Lemma chr_add a k : chr (code a + 256 * k) = a.
Proof.
  unfold chr, code. rewrite Z.mul_comm, Z_mod_plus_full, Z.mod_small.
  - by rewrite N2Z.id, ascii_N_embedding.
  - pose proof (N_ascii_bounded a). lia.
Qed.

Lemma code_range a : 0 <= code a < 256.
Proof. unfold code. pose proof (N_ascii_bounded a). lia. Qed.

Lemma le32_le a b c d : le32 (le [a; b; c; d]) = [a; b; c; d].
Proof.
  pose proof (code_range a). pose proof (code_range b). pose proof (code_range c). pose proof (code_range d). cbn [le]. unfold le32.
  replace (code a + 256 * (code b + 256 * (code c + 256 * (code d + 256 * 0)))) with (code a + 256 * (code b + 256 * (code c + 256 * code d))) by lia.
  assert ((code a + 256 * (code b + 256 * (code c + 256 * code d))) / 256 = code b + 256 * (code c + 256 * code d)) as -> by (Z.div_mod_to_equations; lia).
  assert ((code a + 256 * (code b + 256 * (code c + 256 * code d))) / 65536 = code c + 256 * code d) as -> by (Z.div_mod_to_equations; lia).
  assert ((code a + 256 * (code b + 256 * (code c + 256 * code d))) / 16777216 = code d + 256 * 0) as -> by (Z.div_mod_to_equations; lia).
  by rewrite !chr_add.
Qed.

(** A mode that was read and is set again is the same, byte for byte. *)
Lemma termios_roundtrip bs : (49 <= length bs)%nat → termios_bytes (termios_of bs) = bs.
Proof.
  intros Hl. unfold termios_bytes, termios_of. cbn [c_iflag c_oflag c_cflag c_lflag c_line c_cc c_speed].
  do 17 (destruct bs as [|? bs]; [cbn in Hl; lia|]). cbn [take drop]. rewrite !le32_le. cbn [app]. by rewrite take_drop.
Qed.

Lemma clear_spec v m i : 0 <= i → Z.testbit (clear v m) i = Z.testbit v i && negb (Z.testbit m i).
Proof. intros Hi. unfold clear. by rewrite Z.land_spec, Z.lnot_spec. Qed.

Lemma mask_bits ks i : 0 <= i → Forall (λ k, 0 <= k) ks → Z.testbit (any_of (Z.pow 2 <$> ks)) i = bool_decide (i ∈ ks).
Proof.
  intros Hi. induction 1 as [|k ks Hk _ IH].
  - cbn. by rewrite Z.bits_0, bool_decide_eq_false_2 by apply not_elem_of_nil.
  - cbn [fmap list_fmap any_of foldr]. fold (any_of (Z.pow 2 <$> ks)). rewrite Z.lor_spec, IH, Z.pow2_bits_eqb by done.
    destruct (Z.eqb_spec k i) as [-> |Hne]; [rewrite (bool_decide_eq_true_2 (i ∈ i :: ks)) by left; done|]. cbn [orb].
    apply bool_decide_ext. rewrite elem_of_cons. split; [by right|]. by intros [-> |].
Qed.

Section TtySpecs.
Context {S : Type} `{os}.
Implicit Types s : st S.

Lemma wp_tty_set mode fd l s0 s (Q : Z * option termios → st S → Prop) (E : stop → st S → Prop) :
  acted s0 l s →
  (∀ g s', acted s0 (l ++ [(Ctcgetattr fd, g)]) s' → rv g = -1 → Q (-1, None) s') →
  (∀ g r s', rv g ≠ -1 → acted s0 (l ++ [(Ctcgetattr fd, g); (Ctcsetattr fd TCSAFLUSH (termios_bytes (mode (termios_of (rdata g)))), r)]) s' →
     Q (if rv r =? -1 then -1 else 0, Some (termios_of (rdata g))) s') →
  wp (tty_set mode fd) Q E s.
Proof using.
  intros Ha HQ1 HQ2. unfold tty_set. apply wp_bind. eapply wp_act; [exact Ha|done|]. intros g s1 _ H1 _ _.
  destruct (Z.eqb_spec (rv g) (-1)) as [E1|E1]; [by apply wp_ret, (HQ1 g)|].
  apply wp_bind. eapply wp_act; [exact H1|done|]. intros r s2 _ H2 _ _. rewrite <-app_assoc in H2. by apply wp_ret, (HQ2 g).
Qed.
End TtySpecs.

(** ttySetCbreak and ttySetRaw: -1 when the mode cannot be read or set; else the
    terminal gets its mode without the flags of the functions' comments, input a
    character at a time, and every other bit as it was.  The mode before is
    given back, and setting it again restores the terminal byte for byte. *)
Theorem tty_modes_correct {S} `{os} fd (isRaw : bool) (s : st S) :
  wp (if isRaw then ttySetRaw fd else ttySetCbreak fd)
    (λ x s', ∃ g, (acted s [(Ctcgetattr fd, g)] s' ∧ rv g = -1 ∧ x = (-1, None)) ∨
       ∃ r t', acted s [(Ctcgetattr fd, g); (Ctcsetattr fd TCSAFLUSH (termios_bytes t'), r)] s' ∧ rv g ≠ -1 ∧
         let t := termios_of (rdata g) in
         x = (if rv r =? -1 then -1 else 0, Some t) ∧
         (49 <= length (rdata g) → termios_bytes t = rdata g)%nat ∧
         (∀ i, 0 <= i →
            Z.testbit (c_lflag t') i = (if isRaw then Z.testbit (c_lflag t) i && negb (bool_decide (i ∈ [0; 1; 3; 15]))
                                        else bool_decide (i = 0) || Z.testbit (c_lflag t) i && negb (bool_decide (i ∈ [1; 3]))) ∧
            Z.testbit (c_iflag t') i = (Z.testbit (c_iflag t) i && negb (bool_decide (i ∈ if isRaw then [0; 1; 3; 4; 5; 6; 7; 8; 10] else [8]))) ∧
            Z.testbit (c_oflag t') i = (Z.testbit (c_oflag t) i && negb (isRaw && bool_decide (i = 0)))) ∧
         c_cflag t' = c_cflag t ∧ c_cc t' = one_at_a_time (c_cc t)) (λ _ _, False) s.
Proof.
  replace (if isRaw then ttySetRaw fd else ttySetCbreak fd) with (tty_set (if isRaw then raw else cbreak) fd : M S _) by by destruct isRaw.
  eapply wp_tty_set; [apply acted_refl|intros g s' Ha Hg; exists g; by left|]. intros g r s' Hg Ha. exists g. right.
  exists r, ((if isRaw then raw else cbreak) (termios_of (rdata g))). split; [done|]. split; [done|]. cbv zeta. split; [done|].
  split; [intros Hl; by apply termios_roundtrip|]. split; [|by destruct isRaw].
  intros i Hi. assert (∀ ks, Forall (λ k, 0 <= k) ks → Z.testbit (any_of (Z.pow 2 <$> ks)) i = bool_decide (i ∈ ks)) as Hm by (intros; by apply mask_bits).
  set (t := termios_of (rdata g)). destruct isRaw; cbn [raw cbreak c_lflag c_iflag c_oflag andb].
  - change (any_of [ICANON; ISIG; IEXTEN; ECHO]) with (any_of (Z.pow 2 <$> [1; 0; 15; 3])).
    change (any_of [BRKINT; ICRNL; IGNBRK; IGNCR; INLCR; INPCK; ISTRIP; IXON; PARMRK]) with (any_of (Z.pow 2 <$> [1; 8; 0; 7; 6; 4; 5; 10; 3])).
    change OPOST with (any_of (Z.pow 2 <$> [0])). rewrite !clear_spec, !Hm by (done || by repeat constructor).
    split_and!; do 2 f_equal; apply bool_decide_ext; rewrite !elem_of_cons, ?elem_of_nil; tauto.
  - change (any_of [ICANON; ECHO]) with (any_of (Z.pow 2 <$> [1; 3])). change ICRNL with (any_of (Z.pow 2 <$> [8])). change ISIG with (any_of (Z.pow 2 <$> [0])).
    rewrite Z.lor_spec, !clear_spec, !Hm by (done || by repeat constructor). split_and!; [|done|by rewrite andb_true_r].
    rewrite orb_comm. f_equal. apply bool_decide_ext; rewrite !elem_of_cons, ?elem_of_nil; tauto.
Qed.

(** ** Masters and slaves *)

Section PtySpecs.
Context {S : Type} `{os} (s0 : st S).
Implicit Types s : st S.

Lemma wp_act_err_exit {A} text l s (Q : A → st S → Prop) (E : stop → st S → Prop) :
  acted s0 l s → (∀ s', acted s0 l s' → E (end_of false) s') → wp (err_exit text) Q E s.
Proof using.
  intros Ha HE. destruct (outputError_run true (errno s) false text s) as (s1 & E1 & G & A1 & _).
  unfold wp, err_exit. rewrite (bind_Ret _ _ _ (errno s) s) by done. rewrite (bind_Ret _ _ _ _ _ E1), terminate_run.
  apply HE. by eapply acted_same.
Qed.

Lemma wp_close_keeping_errno fd l s (Q : unit → st S → Prop) E :
  acted s0 l s → (∀ k s', acted s0 (l ++ [(Cclose fd, k)]) s' → errno s' = errno s → Q tt s') → wp (close_keeping_errno fd) Q E s.
Proof using.
  intros Ha HQ. unfold close_keeping_errno. apply wp_bind, wp_get_errno, wp_bind. eapply wp_act; [exact Ha|done|]. intros k s1 _ H1 _ _.
  by apply wp_set_errno, (HQ k).
Qed.

(** The calls that give a master: its descriptor and the name of its slave. *)
Definition master_calls (m g u p : reply) : list (call * reply) :=
  [(Cposix_openpt, m); (Cgrantpt (rv m), g); (Cunlockpt (rv m), u); (Cptsname (rv m), p)].

Definition reads_none (l : list (call * reply)) : Prop := Forall (λ x, match x.1 with Cread _ _ => False | _ => True end) l.

(** No master is left open, and nothing was read. *)
Definition no_master (l : list (call * reply)) : Prop :=
  ∃ m l1, l = (Cposix_openpt, m) :: l1 ∧ reads_none l1 ∧ (rv m = -1 ∧ l1 = [] ∨ rv m ≠ -1 ∧ ∃ l2 k, l1 = l2 ++ [(Cclose (rv m), k)]).

Lemma wp_ptyMasterOpen snLen s (Q : Z * cstr → st S → Prop) E :
  acted s0 [] s →
  (∀ l s' name, acted s0 l s' → no_master l → Q (-1, name) s') →
  (∀ m g u p s', rv m ≠ -1 → (∃ tr, m = kern tr Cposix_openpt) → acted s0 (master_calls m g u p) s' → strlen (rdata p) < snLen → Q (rv m, rdata p) s') →
  wp (ptyMasterOpen snLen) Q E s.
Proof using.
  intros Ha HQ1 HQ2. unfold ptyMasterOpen. apply wp_bind. eapply wp_act; [exact Ha|done|]. intros m s1 Hk H1 _ _. cbn [app] in H1.
  destruct (Z.eqb_spec (rv m) (-1)) as [Em|Em]; [apply wp_ret; eapply HQ1; [exact H1|]; exists m, []; split_and!; [done|by constructor|auto]|].
  assert (∀ l2 s, acted s0 ((Cposix_openpt, m) :: l2) s → reads_none l2 → wp (close_keeping_errno (rv m);; mret (-1, [])) Q E s) as Hclose.
  { intros l2 s2 H2 Hn2. apply wp_bind. eapply wp_close_keeping_errno; [exact H2|]. intros k s3 H3 _. apply wp_ret. eapply HQ1; [exact H3|].
    exists m, (l2 ++ [(Cclose (rv m), k)]). split; [done|]. split; [apply Forall_app; split; [done|by repeat constructor]|]. right. eauto. }
  apply wp_bind. eapply wp_act; [exact H1|done|]. intros g s2 _ H2 _ _. destruct (rv g =? -1); [eapply Hclose; [exact H2|by repeat constructor]|].
  apply wp_bind. eapply wp_act; [exact H2|done|]. intros u s3 _ H3 _ _. destruct (rv u =? -1); [eapply Hclose; [exact H3|by repeat constructor]|].
  apply wp_bind. eapply wp_act; [exact H3|done|]. intros p s4 _ H4 _ _. destruct (rv p =? -1); [eapply Hclose; [exact H4|by repeat constructor]|].
  destruct (Z.ltb_spec (strlen (rdata p)) snLen) as [Hl|Hl].
  - apply wp_ret. unfold strncpy. rewrite take_ge by (unfold strlen in Hl; lia). eapply HQ2; [exact Em|by eexists|exact H4|exact Hl].
  - apply wp_bind. eapply wp_act; [exact H4|done|]. intros k s5 _ H5 _ _. apply wp_bind, wp_set_errno, wp_ret. eapply HQ1; [exact H5|].
    exists m, ([(Cgrantpt (rv m), g); (Cunlockpt (rv m), u); (Cptsname (rv m), p)] ++ [(Cclose (rv m), k)]). split; [done|]. split; [by repeat constructor|]. right. split; [done|]. by eexists _, k.
Qed.

(** The child has a new session with the slave as its terminal, and as its
    standard input, output and error, and does not have the master. *)
Definition on_slave (mfd : Z) (slname : cstr) (tio : option termios) (ws : option cstr) (l : list (call * reply)) : Prop :=
  ∃ z k o i a w d0 d1 d2 c, let slave := rv o in
    l = [(Csetsid, z); (Cclose mfd, k); (Copen slname O_RDWR 0, o); (Cioctl slave TIOCSCTTY, i)] ++
        match tio with Some t => [(Ctcsetattr slave TCSANOW (termios_bytes t), a)] | None => [] end ++
        match ws with Some x => [(Cextern "ioctl" [slave; TIOCSWINSZ] x, w)] | None => [] end ++
        [(Cdup2 slave 0, d0); (Cdup2 slave 1, d1); (Cdup2 slave 2, d2)] ++ (if 2 <? slave then [(Cclose slave, c)] else []) ∧
    rv z ≠ -1 ∧ slave ≠ -1 ∧ rv i ≠ -1 ∧ (is_Some tio → rv a ≠ -1) ∧ (is_Some ws → rv w ≠ -1) ∧ rv d0 = 0 ∧ rv d1 = 1 ∧ rv d2 = 2.

Lemma wp_pty_must r text l s (Q : unit → st S → Prop) (E : stop → st S → Prop) :
  acted s0 l s → (∀ s', acted s0 l s' → E (end_of false) s') → (rv r ≠ -1 → Q tt s) → wp (must r text) Q E s.
Proof using. intros Ha HE HQ. unfold must. destruct (Z.eqb_spec (rv r) (-1)); cbn [when]; [by eapply wp_act_err_exit|by apply wp_ret, HQ]. Qed.

Lemma wp_pty_child mfd slname tio ws l s (Q : unit → st S → Prop) (E : stop → st S → Prop) :
  acted s0 l s → (∀ s' l', acted s0 (l ++ l') s' → E (end_of false) s') →
  (∀ s' l', acted s0 (l ++ l') s' → on_slave mfd slname tio ws l' → Q tt s') → wp (pty_child mfd slname tio ws) Q E s.
Proof using.
  intros Ha HE HQ. unfold pty_child. apply wp_bind. eapply wp_act; [exact Ha|done|]. intros z s1 _ H1 _ _.
  apply wp_bind. eapply wp_pty_must; [exact H1|by intros; eapply HE|]. intros Ez. apply wp_bind. eapply wp_act; [exact H1|done|]. intros k s2 _ H2 _ _. rewrite <-app_assoc in H2.
  apply wp_bind. eapply wp_act; [exact H2|done|]. intros o s3 _ H3 _ _. rewrite <-app_assoc in H3. apply wp_bind. eapply wp_pty_must; [exact H3|by intros; eapply HE|]. intros Eo. cbv zeta.
  apply wp_bind. eapply wp_act; [exact H3|done|]. intros i s4 _ H4 _ _. rewrite <-app_assoc in H4. apply wp_bind. eapply wp_pty_must; [exact H4|by intros; eapply HE|]. intros Ei.
  cbn [app] in H4. set (l4 := [(Csetsid, z); (Cclose mfd, k); (Copen slname O_RDWR 0, o); (Cioctl (rv o) TIOCSCTTY, i)]) in *.
  assert (∀ a s5, acted s0 (l ++ l4 ++ match tio with Some t => [(Ctcsetattr (rv o) TCSANOW (termios_bytes t), a)] | None => [] end) s5 → (is_Some tio → rv a ≠ -1) →
    wp (match ws with Some ws => w ← sys (Cextern "ioctl" [rv o; TIOCSWINSZ] ws); must w (str "ioctl-TIOCSWINSZ") | None => mret tt end;;
        for_each [(0, str "STDIN_FILENO"); (1, str "STDOUT_FILENO"); (2, str "STDERR_FILENO")] (λ x,
          d ← sys (Cdup2 (rv o) x.1); when (negb (rv d =? x.1)) (err_exit (str "ptyFork:dup2-" ++ x.2)));;
        when (2 <? rv o) (sys (Cclose (rv o));; mret tt)) Q E s5) as Hrest.
  2: { apply wp_bind. destruct tio as [t|].
       - apply wp_bind. eapply wp_act; [exact H4|done|]. intros a s5 _ H5 _ _. rewrite <-app_assoc in H5. eapply wp_pty_must; [exact H5|by intros; eapply HE|]. intros Er. by eapply Hrest.
       - apply wp_ret, (Hrest z); [by rewrite app_nil_r|by intros [? ?]]. }
  intros a s5 H5 Er. set (l5 := match tio with Some _ => _ | None => _ end) in *.
  assert (∀ w s6, acted s0 (l ++ l4 ++ l5 ++ match ws with Some x => [(Cextern "ioctl" [rv o; TIOCSWINSZ] x, w)] | None => [] end) s6 → (is_Some ws → rv w ≠ -1) →
    wp (for_each [(0, str "STDIN_FILENO"); (1, str "STDOUT_FILENO"); (2, str "STDERR_FILENO")] (λ x,
          d ← sys (Cdup2 (rv o) x.1); when (negb (rv d =? x.1)) (err_exit (str "ptyFork:dup2-" ++ x.2)));;
        when (2 <? rv o) (sys (Cclose (rv o));; mret tt)) Q E s6) as Hrest.
  2: { apply wp_bind. destruct ws as [x|].
       - apply wp_bind. eapply wp_act; [exact H5|done|]. intros w s6 _ H6 _ _. rewrite <-!app_assoc in H6. eapply wp_pty_must; [exact H6|by intros; eapply HE|]. intros Ew. by eapply Hrest.
       - apply wp_ret, (Hrest z); [by rewrite app_nil_r|by intros [? ?]]. }
  intros w s6 H6 Ew. set (l6 := match ws with Some _ => _ | None => _ end) in *. cbn [for_each].
  assert (∀ n m (x : cstr) s7 (R : unit → st S → Prop), acted s0 (l ++ m) s7 → (∀ d s8, rv d = n → acted s0 (l ++ m ++ [(Cdup2 (rv o) n, d)]) s8 → R tt s8) →
    wp (d ← sys (Cdup2 (rv o) n); when (negb (rv d =? n)) (err_exit (str "ptyFork:dup2-" ++ x))) R E s7) as Hdup.
  { intros n m x s7 R H7 HR. apply wp_bind. eapply wp_act; [exact H7|done|]. intros d s8 _ H8 _ _. rewrite <-app_assoc in H8.
    destruct (Z.eqb_spec (rv d) n); cbn [negb when]; [by eapply wp_ret, HR|]. eapply wp_act_err_exit; [exact H8|by intros; eapply HE]. }
  apply wp_bind, wp_bind. eapply Hdup; [exact H6|]. intros d0 s7 E0 H7. apply wp_bind. eapply Hdup; [exact H7|]. intros d1 s8 E1 H8.
  apply wp_bind. eapply Hdup; [exact H8|]. intros d2 s9 E2 H9. apply wp_ret. rewrite <-!app_assoc in H9. cbn [app] in H9.
  assert (∀ c s', acted s0 (l ++ l4 ++ l5 ++ l6 ++ [(Cdup2 (rv o) 0, d0); (Cdup2 (rv o) 1, d1); (Cdup2 (rv o) 2, d2)] ++ (if 2 <? rv o then [(Cclose (rv o), c)] else [])) s' → Q tt s') as Hend.
  { intros c s' H'. eapply HQ; [exact H'|]. exists z, k, o, i, a, w, d0, d1, d2, c. cbv zeta. split; [done|]. split_and!; done. }
  destruct (2 <? rv o) eqn:E2o; cbn [when].
  - apply wp_bind. eapply wp_act; [exact H9|done|]. intros c s10 _ H10 _ _. apply wp_ret, (Hend c). rewrite <-!app_assoc in H10. exact H10.
  - apply wp_ret, (Hend z). exact H9.
Qed.
End PtySpecs.

(** ptyFork: the parent gets the master and the process ID of the child, and the
    child comes out with the slave alone; when it fails no master is left open,
    and a child that cannot get its terminal exits with failure. *)
Theorem ptyFork_correct {S} `{os} snLen tio ws (s : st S) :
  wp (ptyFork snLen tio ws)
    (λ x s', ∃ l, acted s l s' ∧
       ((x.1 = (-1, None) ∧ no_master l) ∨
        ∃ m g u p f, rv m ≠ -1 ∧ (∃ tr, m = kern tr Cposix_openpt) ∧ (∀ n, snLen = Some n → x.2 = rdata p ∧ strlen (rdata p) < n) ∧
          ((x.1 = (rv f, Some (rv m)) ∧ rv f ≠ -1 ∧ rv f ≠ 0 ∧ l = master_calls m g u p ++ [(Cfork, f)]) ∨
           (x.1 = (0, None) ∧ rv f = 0 ∧ ∃ l', on_slave (rv m) (rdata p) tio ws l' ∧ l = master_calls m g u p ++ (Cfork, f) :: l'))))
    (λ t s', t = end_of false ∧ ∃ m g u p f l', rv f = 0 ∧ acted s (master_calls m g u p ++ (Cfork, f) :: l') s') s.
Proof.
  unfold ptyFork. apply wp_bind. eapply (wp_ptyMasterOpen s); [apply acted_refl| |].
  { intros l s1 name H1 Hno. apply wp_ret. exists l. split; [done|]. by left. }
  intros m g u p s1 Em Hk H1 Hlen. rewrite (proj2 (Z.eqb_neq _ _) Em).
  set (small := match snLen with Some n => _ | None => false end). destruct small eqn:Es.
  { apply wp_bind. eapply wp_act; [exact H1|done|]. intros k s2 _ H2 _ _. apply wp_bind, wp_set_errno, wp_ret. eexists. split; [exact H2|]. left. split; [done|].
    exists m, ([(Cgrantpt (rv m), g); (Cunlockpt (rv m), u); (Cptsname (rv m), p)] ++ [(Cclose (rv m), k)]). split; [done|]. split; [by repeat constructor|]. right. split; [done|]. by eexists _, k. }
  assert (∀ n, snLen = Some n → strncpy n (rdata p) = rdata p ∧ strlen (rdata p) < n) as Hname.
  { intros n ->. unfold small in Es. apply negb_false_iff, Z.ltb_lt in Es. split; [|done]. unfold strncpy. apply take_ge. unfold strlen in Es. lia. }
  set (name := match snLen with Some n => strncpy n (rdata p) | None => [] end).
  assert (∀ n, snLen = Some n → name = rdata p ∧ strlen (rdata p) < n) as Hnm by (unfold name; intros n ->; by apply Hname).
  apply wp_bind. eapply wp_act; [exact H1|done|]. intros f s2 _ H2 _ _. cbv zeta. destruct (Z.eqb_spec (rv f) (-1)) as [Ef|Ef].
  { apply wp_bind. eapply wp_close_keeping_errno; [exact H2|]. intros k s3 H3 _. apply wp_ret. eexists. split; [exact H3|]. left. split; [done|].
    exists m, ([(Cgrantpt (rv m), g); (Cunlockpt (rv m), u); (Cptsname (rv m), p); (Cfork, f)] ++ [(Cclose (rv m), k)]). split; [done|]. split; [by repeat constructor|]. right. split; [done|]. by eexists _, k. }
  destruct (Z.eqb_spec (rv f) 0) as [E0|E0]; cbn [negb].
  - apply wp_bind. eapply (wp_pty_child s); [exact H2| |].
    + intros s3 l' H3. split; [done|]. exists m, g, u, p, f, l'. rewrite <-app_assoc in H3. done.
    + intros s3 l' H3 Hon. apply wp_ret. eexists. split; [exact H3|]. right. exists m, g, u, p, f. split; [done|]. split; [done|]. split; [done|]. right.
      rewrite <-app_assoc. split; [done|]. split; [done|]. by exists l'.
  - apply wp_ret. eexists. split; [exact H2|]. right. exists m, g, u, p, f. split; [done|]. split; [done|]. split; [done|]. by left.
Qed.

(** ** BSD masters *)

(** The search of a BSD master: the first name that opens, with the name of its
    slave; no further than a name that does not exist. *)
Inductive bsd_search : list (ascii * ascii) → Z * cstr → list (call * reply) → Prop :=
  | Bsd_none : bsd_search [] (-1, []) []
  | Bsd_no_more x y ns m : rv m = -1 → rerr m = ENOENT →
      bsd_search ((x, y) :: ns) (-1, []) [(Copen (str "/dev/pty" ++ [x; y]) O_RDWR 0, m)]
  | Bsd_busy x y ns m r l : rv m = -1 → rerr m ≠ ENOENT → bsd_search ns r l →
      bsd_search ((x, y) :: ns) r ((Copen (str "/dev/pty" ++ [x; y]) O_RDWR 0, m) :: l)
  | Bsd_open x y ns m : rv m ≠ -1 →
      bsd_search ((x, y) :: ns) (rv m, str "/dev/tty" ++ [x; y]) [(Copen (str "/dev/pty" ++ [x; y]) O_RDWR 0, m)].

(** pty_master_open_bsd.c: a buffer shorter than a name is refused without a
    call, and any other is long enough. *)
Theorem bsd_ptyMasterOpen_correct {S} `{os} snLen (s : st S) :
  wp (bsd_ptyMasterOpen snLen)
    (λ x s', (snLen < PTY_NAME_LEN ∧ x = (-1, []) ∧ errno s' = EOVERFLOW ∧ trace s' = trace s) ∨
       (PTY_NAME_LEN <= snLen ∧ ∃ l, acted s l s' ∧ bsd_search bsd_names x l)) (λ _ _, False) s.
Proof.
  unfold bsd_ptyMasterOpen. destruct (Z.ltb_spec snLen PTY_NAME_LEN) as [Hl|Hl]; [apply wp_bind, wp_set_errno, wp_ret; by left|].
  enough (wp (bsd_open snLen bsd_names) (λ x s', ∃ l, acted s l s' ∧ bsd_search bsd_names x l) (λ _ _, False) s) as Hwp
    by (eapply wp_mono; [exact Hwp|by right|intros ? ? []]).
  generalize bsd_names. intros ns.
  enough (∀ l s1, acted s l s1 → wp (bsd_open snLen ns) (λ x s', ∃ l', acted s (l ++ l') s' ∧ bsd_search ns x l') (λ _ _, False) s1) as Hgo by by apply (Hgo []), acted_refl.
  induction ns as [|[x y] ns IH]; intros l s1 Ha; cbn [bsd_open].
  { apply wp_ret. exists []. rewrite app_nil_r. split; [done|constructor]. }
  apply wp_bind. eapply wp_act; [exact Ha|done|]. intros m s2 _ H2 He _. destruct (Z.eqb_spec (rv m) (-1)) as [Em|Em].
  - apply wp_bind, wp_get_errno. rewrite (He Em). destruct (Z.eqb_spec (rerr m) ENOENT) as [Ee|Ee].
    + apply wp_ret. eexists. split; [exact H2|]. by apply Bsd_no_more.
    + eapply wp_mono; [by apply IH| |done]. intros r s3 (l' & H3 & Hs). rewrite <-app_assoc in H3. eexists. split; [exact H3|]. by apply Bsd_busy.
  - cbv zeta. rewrite (proj2 (Z.leb_gt _ _)) by (unfold PTY_NAME_LEN in Hl; unfold strlen; cbn; lia).
    apply wp_ret. eexists. split; [exact H2|]. by apply Bsd_open.
Qed.

(** Each of 256 devices is tried once at most. *)
Lemma bsd_names_once : length bsd_names = 256%nat ∧ NoDup bsd_names.
Proof. split; [vm_compute; reflexivity|]. apply (bool_decide_unpack _). vm_compute. exact I. Qed.

(** ** What is relayed *)

(** The bytes a descriptor gave. *)
Definition gave (src : Z) (x : call * reply) : cstr :=
  match x.1 with Cread d _ => if (d =? src) && (0 <? rv x.2) then data_of x.2 else [] | _ => [] end.
Definition read_in (src : Z) (l : list (call * reply)) : cstr := concat (gave src <$> l).

Lemma read_in_app src a b : read_in src (a ++ b) = read_in src a ++ read_in src b.
Proof. unfold read_in. by rewrite fmap_app, concat_app. Qed.

Section Relay.
Context (mfd : Z) (outs : list (Z * cstr)).

(** All that came from the terminal went to the master, and all that came from
    the master went to each output, in order; or a first part of it. *)
Definition relayed (l : list (call * reply)) : Prop :=
  put_to mfd l = read_in 0 l ∧ Forall (λ o, put_to o l = read_in mfd l) outs.*1.
Definition relayed_part (l : list (call * reply)) : Prop :=
  put_to mfd l `prefix_of` read_in 0 l ∧ Forall (λ o, put_to o l `prefix_of` read_in mfd l) outs.*1.

Lemma relayed_is_part l : relayed l → relayed_part l.
Proof using. intros [H1 H2]. split; [by rewrite H1|]. eapply Forall_impl; [exact H2|]. intros o Ho. cbn in Ho. by rewrite Ho. Qed.

(** Calls that neither read nor write. *)
Lemma relayed_app l k : relayed l → (∀ d, put_to d k = []) → (∀ d, read_in d k = []) → relayed (l ++ k).
Proof using.
  intros [H1 H2] Hp Hg. split; [by rewrite put_to_app, read_in_app, H1, Hp, Hg|]. eapply Forall_impl; [exact H2|].
  intros o Ho. cbn in Ho |- *. by rewrite put_to_app, read_in_app, Ho, Hp, Hg.
Qed.

Definition whole (dst : list Z) (n : reply) (ws : list (call * reply)) : Prop :=
  Forall2 (λ o x, x.1 = Cwrite o (data_of n) ∧ rv x.2 = rv n) dst ws.

Lemma put_one d o bs w : put_to d [(Cwrite o bs, w)] = if (o =? d) && (0 <? rv w) then take (Z.to_nat (rv w)) bs else [].
Proof using. apply app_nil_r. Qed.

Lemma whole_put dst n ws d : 0 < rv n → NoDup dst → whole dst n ws → put_to d ws = if bool_decide (d ∈ dst) then data_of n else [].
Proof using.
  intros Hn Hnd Hw. induction Hw as [|o [c w] dst ws [Hc Hr] Hw IH].
  - by rewrite bool_decide_eq_false_2 by apply not_elem_of_nil.
  - apply NoDup_cons in Hnd as [Ho Hnd]. cbn [fst snd] in Hc, Hr. subst c. change ((Cwrite o (data_of n), w) :: ws) with ([(Cwrite o (data_of n), w)] ++ ws).
    rewrite put_to_app, put_one, (IH Hnd), Hr, (proj2 (Z.ltb_lt _ _) Hn), andb_true_r.
    assert (take (Z.to_nat (rv n)) (data_of n) = data_of n) as -> by (unfold data_of; by rewrite take_take, Nat.min_id).
    destruct (Z.eqb_spec o d) as [-> |Hne].
    + rewrite bool_decide_eq_false_2 by done. by rewrite app_nil_r, bool_decide_eq_true_2 by by left.
    + cbn [app]. erewrite bool_decide_ext; [done|]. rewrite elem_of_cons. split; [by right|]. by intros [-> |].
Qed.

Lemma whole_read dst n ws d : whole dst n ws → read_in d ws = [].
Proof using. induction 1 as [|o [c w] dst ws [Hc _] _ IH]; [done|]. cbn [fst] in Hc. subst c. exact IH. Qed.

Lemma given_one d src m n : read_in d [(Cread src m, n)] = if (src =? d) && (0 <? rv n) then data_of n else [].
Proof using. apply app_nil_r. Qed.

Lemma put_read d src m n : put_to d [(Cread src m, n)] = [].
Proof using. done. Qed.

Context (Hmfd : mfd ≠ 0) (Hnd : NoDup outs.*1) (Hfresh : mfd ∉ outs.*1).

(** A chunk from the terminal, and from the master. *)
Lemma relayed_typed l n ws : relayed l → 0 < rv n → whole [mfd] n ws → relayed (l ++ (Cread 0 RELAY_SIZE, n) :: ws).
Proof using Hfresh Hmfd.
  intros [H1 H2] Hn Hw. change ((Cread 0 RELAY_SIZE, n) :: ws) with ([(Cread 0 RELAY_SIZE, n)] ++ ws).
  pose proof (whole_put _ _ _ mfd Hn (NoDup_singleton mfd) Hw) as Hp. rewrite bool_decide_eq_true_2 in Hp by by apply list_elem_of_singleton.
  split.
  - rewrite !put_to_app, !read_in_app, H1, put_read, given_one, Hp, (whole_read _ _ _ _ Hw), (proj2 (Z.ltb_lt _ _) Hn). cbn. by rewrite app_nil_r.
  - rewrite Forall_forall in H2 |- *. intros o Ho. rewrite !put_to_app, !read_in_app, (H2 o Ho), put_read, given_one, (whole_read _ _ _ _ Hw).
    rewrite (whole_put _ _ _ o Hn (NoDup_singleton mfd) Hw), bool_decide_eq_false_2 by (rewrite list_elem_of_singleton; by intros ->).
    by rewrite (proj2 (Z.eqb_neq 0 mfd)) by done.
Qed.

Lemma relayed_shown l n ws : relayed l → 0 < rv n → whole outs.*1 n ws → relayed (l ++ (Cread mfd RELAY_SIZE, n) :: ws).
Proof using Hfresh Hmfd Hnd.
  intros [H1 H2] Hn Hw. change ((Cread mfd RELAY_SIZE, n) :: ws) with ([(Cread mfd RELAY_SIZE, n)] ++ ws). split.
  - rewrite !put_to_app, !read_in_app, H1, put_read, given_one, (whole_read _ _ _ _ Hw), (whole_put _ _ _ mfd Hn Hnd Hw), bool_decide_eq_false_2 by done.
    by rewrite (proj2 (Z.eqb_neq mfd 0)) by done.
  - rewrite Forall_forall in H2 |- *. intros o Ho. rewrite !put_to_app, !read_in_app, (H2 o Ho), put_read, given_one, (whole_read _ _ _ _ Hw).
    rewrite (whole_put _ _ _ o Hn Hnd Hw), bool_decide_eq_true_2 by done. rewrite Z.eqb_refl, (proj2 (Z.ltb_lt _ _) Hn). cbn. by rewrite app_nil_r.
Qed.

(** A chunk that one output did not take whole. *)
Definition broken (dst : list Z) (n : reply) (ws : list (call * reply)) : Prop :=
  ∃ dst1 o dst2 ws1 w, dst = dst1 ++ o :: dst2 ∧ whole dst1 n ws1 ∧ ws = ws1 ++ [(Cwrite o (data_of n), w)].

Lemma broken_put dst n ws d : 0 < rv n → NoDup dst → broken dst n ws → (d ∈ dst → put_to d ws `prefix_of` data_of n) ∧ (d ∉ dst → put_to d ws = []).
Proof using.
  intros Hn Hdst (dst1 & o & dst2 & ws1 & w & -> & Hw & ->). apply NoDup_app in Hdst as (Hd1 & Hdis & _).
  rewrite put_to_app, put_one, (whole_put _ _ _ d Hn Hd1 Hw). split.
  - intros _. destruct (bool_decide_reflect (d ∈ dst1)) as [Hin|Hin].
    + assert (o ≠ d) as Hne by (intros ->; apply (Hdis d Hin); by left). rewrite (proj2 (Z.eqb_neq o d)) by done. cbn. by rewrite app_nil_r.
    + cbn [app]. destruct (_ && _); [apply prefix_take|apply prefix_nil].
  - rewrite elem_of_app, elem_of_cons. intros Hd. rewrite bool_decide_eq_false_2 by tauto. rewrite (proj2 (Z.eqb_neq o d)) by (intros ->; tauto). done.
Qed.

Lemma broken_read dst n ws d : broken dst n ws → read_in d ws = [].
Proof using. intros (dst1 & o & dst2 & ws1 & w & _ & Hw & ->). by rewrite read_in_app, (whole_read _ _ _ _ Hw). Qed.

Lemma part_typed l n ws : relayed l → 0 < rv n → broken [mfd] n ws → relayed_part (l ++ (Cread 0 RELAY_SIZE, n) :: ws).
Proof using Hfresh Hmfd.
  intros [H1 H2] Hn Hw. change ((Cread 0 RELAY_SIZE, n) :: ws) with ([(Cread 0 RELAY_SIZE, n)] ++ ws). split.
  - rewrite !put_to_app, !read_in_app, H1, put_read, given_one, (broken_read _ _ _ _ Hw), (proj2 (Z.ltb_lt _ _) Hn). cbn. rewrite app_nil_r. apply prefix_app.
    apply (broken_put _ _ _ mfd Hn (NoDup_singleton mfd) Hw). by apply list_elem_of_singleton.
  - rewrite Forall_forall in H2 |- *. intros o Ho. rewrite !put_to_app, !read_in_app, (H2 o Ho), put_read, given_one, (broken_read _ _ _ _ Hw).
    rewrite (proj2 (broken_put _ _ _ o Hn (NoDup_singleton mfd) Hw)) by (rewrite list_elem_of_singleton; by intros ->).
    by rewrite (proj2 (Z.eqb_neq 0 mfd)) by done.
Qed.

Lemma part_shown l n ws : relayed l → 0 < rv n → broken outs.*1 n ws → relayed_part (l ++ (Cread mfd RELAY_SIZE, n) :: ws).
Proof using Hfresh Hmfd Hnd.
  intros [H1 H2] Hn Hw. change ((Cread mfd RELAY_SIZE, n) :: ws) with ([(Cread mfd RELAY_SIZE, n)] ++ ws). split.
  - rewrite !put_to_app, !read_in_app, H1, put_read, given_one, (broken_read _ _ _ _ Hw), (proj2 (broken_put _ _ _ mfd Hn Hnd Hw)) by done.
    by rewrite (proj2 (Z.eqb_neq mfd 0)) by done.
  - rewrite Forall_forall in H2 |- *. intros o Ho. rewrite !put_to_app, !read_in_app, (H2 o Ho), put_read, given_one, (broken_read _ _ _ _ Hw).
    rewrite Z.eqb_refl, (proj2 (Z.ltb_lt _ _) Hn). cbn. rewrite app_nil_r. apply prefix_app. by apply (broken_put _ _ _ o Hn Hnd Hw).
Qed.
End Relay.

Section RelaySpecs.
Context {S : Type} `{os} (s0 : st S) (pre : list (call * reply)) (mfd : Z) (outs : list (Z * cstr)).
Context (Hmfd : mfd ≠ 0) (Hnd : NoDup outs.*1) (Hfresh : mfd ∉ outs.*1).
Implicit Types s : st S.

Lemma wp_relay_from src dst l s (Q : unit → st S → Prop) (E : stop → st S → Prop) :
  acted s0 l s →
  (∀ n ws s', acted s0 (l ++ (Cread src RELAY_SIZE, n) :: ws) s' → 0 < rv n → whole dst.*1 n ws → Q tt s') →
  (∀ n s', acted s0 (l ++ [(Cread src RELAY_SIZE, n)]) s' → rv n <= 0 → E (Exit 0) s') →
  (∀ n ws t s', t ≠ Exit 0 → acted s0 (l ++ (Cread src RELAY_SIZE, n) :: ws) s' → 0 < rv n → broken dst.*1 n ws → E t s') →
  wp (relay_from src dst) Q E s.
Proof using.
  intros Ha HQ HE1 HE2. unfold relay_from. apply wp_bind. eapply wp_act; [exact Ha|done|]. intros n s1 _ H1 _ _.
  destruct (Z.leb_spec (rv n) 0) as [Hn|Hn]; [by eapply wp_stop, HE1|].
  eapply wp_mono; [apply (wp_for_each (λ done s', ∃ ws, acted s0 (l ++ (Cread src RELAY_SIZE, n) :: ws) s' ∧ whole done.*1 n ws) _ dst E s1)| |done].
  - exists []. split; [exact H1|constructor].
  - intros done_ o todo s2 Hdst (ws & H2 & Hw). apply wp_bind. eapply wp_act; [exact H2|done|]. intros w s3 _ H3 _ _. rewrite <-app_assoc in H3. cbn [app] in H3.
    destruct (Z.eqb_spec (rv w) (rv n)) as [Ew|Ew]; cbn [negb when].
    + apply wp_ret. eexists. split; [exact H3|]. rewrite fmap_app. apply Forall2_app; [done|]. by constructor.
    + apply wp_fatal. intros s4 Hg4 Ha4. eapply HE2; [apply end_of_fails|by eapply acted_same; [exact H3| |]|done|].
      exists done_.*1, o.1, todo.*1, ws, w. split; [|done]. by rewrite Hdst, fmap_app.
  - intros [] s2 (ws & H2 & Hw). by eapply HQ.
Qed.

(** The end of the relaying, and any moment of it. *)
Definition relay_ended (t : stop) s : Prop :=
  ∃ l, acted s0 (pre ++ l) s ∧ relayed_part mfd outs l ∧ (t = Exit 0 → relayed mfd outs l).
Definition relaying s : Prop := ∃ l, acted s0 (pre ++ l) s ∧ relayed mfd outs l.

Lemma wp_relay_turn s : relaying s → wp (relay_turn mfd outs) (λ r s', r = inl tt ∧ relaying s') relay_ended s.
Proof using Hfresh Hmfd Hnd.
  intros (l & Ha & Hl). unfold relay_turn. apply wp_bind. eapply wp_act; [exact Ha|done|]. intros r s1 _ H1 _ _. rewrite <-app_assoc in H1.
  assert (relayed mfd outs (l ++ [(Cselect [0; mfd], r)])) as Hl1 by by apply relayed_app. set (l1 := l ++ _) in *.
  destruct (rv r =? -1).
  { eapply wp_act_errExit; [exact H1|]. intros s2 H2. exists l1. split; [done|]. split; [by apply relayed_is_part|done]. }
  assert (∀ s2, relaying s2 → wp (when (ready r mfd) (relay_from mfd outs);; (mret (inl tt) : M S (unit + unit))) (λ r s', r = inl tt ∧ relaying s') relay_ended s2) as Hsecond.
  { intros s2 (l2 & H2 & Hl2). destruct (ready r mfd); cbn [when]; [|apply wp_bind, wp_ret, wp_ret; split; [done|by exists l2]].
    apply wp_bind. eapply wp_relay_from; [exact H2| | |].
    - intros n ws s3 H3 Hn Hw. apply wp_ret. split; [done|]. eexists. rewrite <-app_assoc in H3. split; [exact H3|]. by apply relayed_shown.
    - intros n s3 H3 Hn. eexists. rewrite <-app_assoc in H3. split; [exact H3|].
      assert (relayed mfd outs (l2 ++ [(Cread mfd RELAY_SIZE, n)])) as Hr
        by (apply relayed_app; [done|done|]; intros d; rewrite given_one; by rewrite (proj2 (Z.ltb_ge _ _) Hn), andb_false_r).
      split; [by apply relayed_is_part|done].
    - intros n ws t s3 Ht H3 Hn Hb. eexists. rewrite <-app_assoc in H3. split; [exact H3|]. split; [by apply part_shown|done]. }
  destruct (ready r 0); cbn [when]; [|apply wp_bind, wp_ret, Hsecond; by exists l1].
  apply wp_bind. eapply wp_relay_from; [exact H1| | |].
  - intros n ws s3 H3 Hn Hw. apply Hsecond. eexists. rewrite <-app_assoc in H3. split; [exact H3|]. by apply relayed_typed.
  - intros n s3 H3 Hn. eexists. rewrite <-app_assoc in H3. split; [exact H3|].
    assert (relayed mfd outs (l1 ++ [(Cread 0 RELAY_SIZE, n)])) as Hr
      by (apply relayed_app; [done|done|]; intros d; rewrite given_one; by rewrite (proj2 (Z.ltb_ge _ _) Hn), andb_false_r).
    split; [by apply relayed_is_part|done].
  - intros n ws t s3 Ht H3 Hn Hb. eexists. rewrite <-app_assoc in H3. split; [exact H3|]. split; [by apply part_typed|done].
Qed.

Lemma wlp_relaying fuel s : acted s0 pre s → wlp (loop fuel (λ _, relay_turn mfd outs) tt) (λ _ _, False) relay_ended relaying s.
Proof using Hfresh Hmfd Hnd.
  intros Ha. apply (wlp_loop (λ (_ : unit) s', relaying s')); [exists []; rewrite app_nil_r; split; [done|split; [done|by apply Forall_true]]|done|].
  intros [] s1 H1. apply wp_wlp. eapply wp_mono; [by apply wp_relay_turn| |done]. by intros r s2 [-> H2].
Qed.
End RelaySpecs.

Section RawMode.
Context {S : Type} `{os} (s0 : st S) (mfd : Z) (outs : list (Z * cstr)).
Context (Hmfd : mfd ≠ 0) (Hnd : NoDup outs.*1) (Hfresh : mfd ∉ outs.*1).
Implicit Types s : st S.

(** A mode the terminal had. *)
Definition mode_read (l : list (call * reply)) (t : termios) : Prop :=
  ∃ g, (Ctcgetattr 0, g) ∈ l ∧ rv g ≠ -1 ∧ t = termios_of (rdata g).

(** After an exit the terminal has been put back; all was relayed when it was a
    success. *)
Definition put_back (t : stop) s : Prop :=
  ∀ n, t = Exit n → n ≠ 0 ∧ (∃ l, acted s0 l s ∧ reads_none l) ∨
    ∃ l0 l1 m k, acted s0 (l0 ++ l1 ++ [(Ctcsetattr 0 TCSANOW (termios_bytes m), k)]) s ∧ rv k ≠ -1 ∧ mode_read l0 m ∧
      relayed_part mfd outs l1 ∧ (n = 0 → relayed mfd outs l1).

Definition in_relay s : Prop := ∃ l0 l1, acted s0 (l0 ++ l1) s ∧ relayed mfd outs l1.

Lemma put_back_errExit {A} m l s (Q : A → st S → Prop) : acted s0 l s → reads_none l → wp (errExit m) Q put_back s.
Proof using.
  intros Ha Hl. eapply wp_act_errExit; [exact Ha|]. intros s1 H1 n Hn. left. split; [|by exists l]. intros ->. by destruct (end_of_fails true).
Qed.

Lemma wlp_in_raw_mode fuel orig l s :
  acted s0 l s → reads_none l → mode_read l orig → wlp (in_raw_mode fuel orig mfd outs) (λ _ _, False) put_back in_relay s.
Proof using Hfresh Hmfd Hnd.
  intros Ha Hl Hm. unfold in_raw_mode. apply wlp_bind.
  assert (∀ l1 prev s1, acted s0 (l ++ l1) s1 → reads_none l1 → mode_read (l ++ l1) (default orig prev) →
    wlp (a ← sys Catexit; if negb (rv a =? 0) then errExit (str "atexit") else
         at_exit (ttyReset (default orig prev)) (loop fuel (λ _, relay_turn mfd outs) tt)) (λ _ _, False) put_back in_relay s1) as Hrest.
  { intros l1 prev s1 H1 Hl1 Hm1. set (t := default orig prev) in *. apply wlp_bind, wp_wlp. eapply wp_act; [exact H1|done|]. intros a s2 _ H2 _ _.
    assert (reads_none ((l ++ l1) ++ [(Catexit, a)])) as Hl2 by (repeat (apply Forall_app; split); try done; by repeat constructor).
    destruct (rv a =? 0); cbn [negb]; [|apply wp_wlp; by eapply put_back_errExit]. set (l2 := (l ++ l1) ++ _) in *.
    assert (mode_read l2 t) as (g & Hg & Hm2).
    { destruct Hm1 as (g & Hg & Hm1). exists g. split; [apply elem_of_app; by left|done]. }
    eapply (wlp_at_exit _ _ _ _ (relay_ended s0 l2 mfd outs)).
    - eapply wlp_mono; [by apply wlp_relaying|done|done|]. intros s3 (l3 & H3 & Hr3). by exists l2, l3.
    - intros n s3 (l3 & H3 & Hp3 & Hr3). unfold ttyReset. apply wp_bind. eapply wp_act; [exact H3|done|]. intros k s4 _ H4 _ _. rewrite <-app_assoc in H4.
      destruct (Z.eqb_spec (rv k) (-1)) as [Ek|Ek]; cbn [when].
      + eapply wp_act_errExit; [exact H4|]. intros s5 _ n' Hn'. unfold end_of in Hn'. destruct (getenv _) as [[|]|]; done.
      + apply wp_ret. intros n' [= <-]. right. exists l2, l3, t, k. split; [done|]. split; [done|]. split; [by exists g|]. split; [done|]. intros ->. by apply Hr3.
    - intros t' s3 _ Hn n ->. by destruct (Hn n). }
  unfold ttySetRaw, tty_set. apply wlp_bind, wp_wlp. eapply wp_act; [exact Ha|done|]. intros g s1 _ H1 _ _. destruct (Z.eqb_spec (rv g) (-1)) as [E1|E1].
  - apply wp_wlp, wp_ret, (Hrest [(Ctcgetattr 0, g)]); [exact H1|by repeat constructor|].
    destruct Hm as (g0 & Hg0 & Hm). exists g0. split; [apply elem_of_app; by left|exact Hm].
  - apply wlp_bind, wp_wlp. eapply wp_act; [exact H1|done|]. intros r s2 _ H2 _ _. rewrite <-app_assoc in H2. cbn [app] in H2.
    eapply wp_wlp, wp_ret, Hrest; [exact H2|by repeat constructor|]. exists g. split; [apply elem_of_app; right; by left|done].
Qed.

(** The child of the fork: it runs the program on the slave, or fails. *)
Definition child_ended (t : stop) s : Prop :=
  t ≠ Exit 0 ∧ ∃ l0 f l1, acted s0 (l0 ++ (Cfork, f) :: l1) s ∧ rv f = 0 ∧
    (∀ file args, t = Execed file args → ∃ name t ws l2 e, on_slave mfd name (Some t) (Some ws) l2 ∧ l1 = l2 ++ [(Cexec file args, e)]).

(** What both programs do first, up to what parent and child do. *)
Lemma wlp_on_pty text (child : M S unit) (parent : termios → Z → M S unit) s :
  (∀ tr, rv (kern tr Cposix_openpt) = -1 ∨ rv (kern tr Cposix_openpt) = mfd) → acted s0 [] s →
  (∀ l f l2 name t ws s1, acted s0 (l ++ (Cfork, f) :: l2) s1 → rv f = 0 → on_slave mfd name (Some t) (Some ws) l2 → wlp child (λ _ _, False) child_ended (λ _, False) s1) →
  (∀ l t s1, acted s0 l s1 → reads_none l → mode_read l t → wlp (parent t mfd) (λ _ _, False) put_back in_relay s1) →
  wlp (g ← sys (Ctcgetattr 0);
       if rv g =? -1 then errExit (str "tcgetattr") else
       let ttyOrig := termios_of (rdata g) in
       w ← sys (Cioctl 0 TIOCGWINSZ);
       if rv w <? 0 then errExit text else
       '(childPid, m, _) ← ptyFork (Some MAX_SNAME) (Some ttyOrig) (Some (rdata w));
       if childPid =? -1 then errExit (str "ptyFork") else
       if childPid =? 0 then child else parent ttyOrig (default 0 m))
    (λ _ _, False) (λ t s', put_back t s' ∨ child_ended t s') in_relay s.
Proof using.
  intros Hk Ha Hchild Hparent.
  assert (∀ m l s1, acted s0 l s1 → reads_none l → wlp (errExit m) (λ (_ : unit) _, False) (λ t s', put_back t s' ∨ child_ended t s') in_relay s1) as Hfail.
  { intros m l s1 H1 Hl. apply wp_wlp. eapply wp_mono; [by eapply put_back_errExit| |by left]. cbn. exact (λ _ _ H, H). }
  apply wlp_bind, wp_wlp. eapply wp_act; [exact Ha|done|]. intros g s1 _ H1 _ _. cbn [app] in H1.
  destruct (Z.eqb_spec (rv g) (-1)) as [Eg|Eg]; [eapply Hfail; [exact H1|by repeat constructor]|].
  apply wlp_bind, wp_wlp. eapply wp_act; [exact H1|done|]. intros w s2 _ H2 _ _. cbn [app] in H2.
  destruct (rv w <? 0); [eapply Hfail; [exact H2|by repeat constructor]|].
  apply wlp_bind, wp_wlp. eapply wp_mono; [apply ptyFork_correct| |].
  - intros [[pid m] name] s3 (l & H3 & Hl). pose proof (acted_app _ _ _ _ _ H2 H3) as H4. cbn [fst snd] in Hl.
    destruct Hl as [([= -> ->] & Hno)|(x & x1 & u & p & f & Ex & (tr & Hx) & _ & Hl)].
    + cbn. eapply Hfail; [exact H4|]. destruct Hno as (? & ? & -> & ? & _). by repeat constructor.
    + assert (rv x = mfd) as Em by (destruct (Hk tr) as [E|E]; subst x; [done|exact E]).
      destruct Hl as [([= -> ->] & Ef & Ef0 & ->)|([= -> ->] & Ef0 & l' & Hon & ->)].
      * rewrite (proj2 (Z.eqb_neq _ _) Ef), (proj2 (Z.eqb_neq _ _) Ef0). cbn [default]. unfold id. rewrite Em.
        eapply wlp_mono; [eapply Hparent; [exact H4|by repeat constructor|exists g; split; [by left|done]]|intros ? ? []|intros t s4 Ht; by left|exact (λ _ H, H)].
      * cbn. rewrite Em in Hon. rewrite (app_assoc [_; _] (master_calls _ _ _ _)) in H4.
        eapply wlp_mono; [eapply Hchild; [exact H4|exact Ef0|exact Hon]|intros ? ? []|intros t s4 Ht; by right|intros ? []].
  - intros t s3 (Ht & x & x1 & u & p & f & l' & Ef0 & H3). right. split; [subst t; apply end_of_fails|]. pose proof (acted_app _ _ _ _ _ H2 H3) as H4.
    eexists _, f, l'. rewrite app_assoc in H4. split; [exact H4|]. split; [done|].
    intros file args ->. unfold end_of in Ht. by destruct (getenv _) as [[|]|].
Qed.
End RawMode.

(** ** The programs *)

Section Programs.
Context {S : Type} `{os} (s : st S) (mfd : Z).

Lemma child_execs {A} file args m l f l2 name t ws s1 :
  acted s (l ++ (Cfork, f) :: l2) s1 → rv f = 0 → on_slave mfd name (Some t) (Some ws) l2 →
  wlp (e ← sys (Cexec file args); if rv e =? -1 then errExit m else stop_with (Execed file args)) (λ (_ : A) _, False) (child_ended s mfd) (λ _, False) s1.
Proof using.
  intros Ha Ef Hon. apply wlp_bind, wp_wlp. eapply wp_act; [exact Ha|done|]. intros e s2 _ H2 _ _. rewrite <-app_assoc in H2. cbn [app] in H2.
  apply wp_wlp. destruct (rv e =? -1).
  - eapply wp_act_errExit; [exact H2|]. intros s3 H3. split; [apply end_of_fails|]. eexists l, f, _. split; [exact H3|]. split; [done|].
    intros ? ? E1. unfold end_of in E1. by destruct (getenv _) as [[|]|].
  - apply wp_stop. split; [done|]. eexists l, f, _. split; [exact H2|]. split; [done|]. intros ? ? [= <- <-]. by exists name, t, ws, l2, e.
Qed.
End Programs.


(** A terminal whose input has ended. *)
Definition closed_terminal : os := test_os (λ _ c,
  match c with
  | Cposix_openpt => ok 5
  | Copen _ _ _ => ok 6
  | Cfork => ok 77
  | Cselect _ => Reply 1 0 [] [(str "", 0)]
  | _ => ok 0
  end).

