(* ===== verification/ProcTree.v ===== *)
(** homework/hw4/4-2/getTree.c: the processes under /proc as a linked structure
    on the heap: read, linked into families by their parents, and printed. *)
From S2P Require Import Prelude Sys ErrorFns GetNum SvmsgFile.

(** struct ProcessNode.  A pointer is the number of an allocated node, and
    [None] is the null pointer; [parent] is indeterminate until it is set. *)
Record node := Node {
  pid : Z; ppid : Z; command : cstr;
  sibling : option nat; child : option nat; parent : option (option nat); tmpLink : option nat }.

Abbreviation heap := (list node).

Definition with_sibling (p : option nat) (n : node) : node := Node (pid n) (ppid n) (command n) p (child n) (parent n) (tmpLink n).
Definition with_child (p : option nat) (n : node) : node := Node (pid n) (ppid n) (command n) (sibling n) p (parent n) (tmpLink n).
Definition with_parent (p : option nat) (n : node) : node := Node (pid n) (ppid n) (command n) (sibling n) (child n) (Some p) (tmpLink n).
Definition with_tmpLink (p : option nat) (n : node) : node := Node (pid n) (ppid n) (command n) (sibling n) (child n) (parent n) p.

Definition NODE_SIZE : Z := 296.
Definition COMMAND_SIZE : Z := 256.
Definition DT_DIR : Z := 4.

(** sscanf (line, "label %s", ...): the word after the label, if there is one. *)
Fixpoint token (s : cstr) : cstr :=
  match s with
  | [] => []
  | c :: s => if isspace c then [] else c :: token s
  end.
Definition scan_word (label line : cstr) : option cstr :=
  if has_prefix label line then
    match token (skip_spaces (drop (length label) line)) with [] => None | w => Some w end
  else None.

Section Functions.
Context `{os}.

Definition deref (p : option nat) : M heap node :=
  h ← get;
  match a ← p; h !! a with
  | Some n => mret n
  | None => stop_with (Undefined "invalid pointer")
  end.
Definition assign (a : nat) (f : node → node) : M heap unit := upd (alter f a).

Definition createProcessNode (pid ppid : Z) (command : cstr) : M heap nat :=
  m ← sys (Crealloc NODE_SIZE);
  if rv m =? -1 then perror_exit (str "malloc") else
  h ← get;
  put (h ++ [Node pid ppid (strncpy (COMMAND_SIZE - 1) command) None None None None]);;
  mret (length h).

(** ** Families *)

Definition find_turn (tmp_ppid : Z) (find : option nat) : M heap (option nat + option nat) :=
  match find with
  | None => mret (inr None)
  | Some f => n ← deref find; mret (if pid n =? tmp_ppid then inr find else inl (tmpLink n))
  end.

Definition last_sibling_turn (s : nat) : M heap (nat + nat) :=
  n ← deref (Some s);
  mret (match sibling n with None => inr s | Some s' => inl s' end).

Definition adopt (fuel : nat) (cur find : nat) : M heap unit :=
  assign cur (with_parent (Some find));;
  f ← deref (Some find);
  match child f with
  | None => assign find (with_child (Some cur))
  | Some c => s ← loop fuel last_sibling_turn c; assign s (with_sibling (Some cur))
  end.

Definition sort_turn (fuel : nat) (root : nat) (cur : option nat) : M heap (option nat + unit) :=
  match cur with
  | None => mret (inr tt)
  | Some c =>
      n ← deref cur;
      found ← loop fuel (find_turn (ppid n)) (Some root);
      match found with None => mret tt | Some find => adopt fuel c find end;;
      n ← deref cur;
      mret (inl (tmpLink n))
  end.

Definition sortNode (fuel : nat) (root : option nat) : M heap unit :=
  newRoot ← createProcessNode 0 (-1) (str "test");
  assign newRoot (with_tmpLink root);;
  loop fuel (sort_turn fuel newRoot) (Some newRoot).

(** ** Reading /proc *)

(** The command and the parent, from the lines of a status file; [PPid] is
    indeterminate without a line for it. *)
Definition status_turn (file : stream) (found : cstr * Z) : M heap (cstr * Z + cstr * Z) :=
  let '(command, PPid) := found in
  r ← sys (Cfgets_from file 1024);
  if rv r =? 0 then mret (inr found) else
  let line := c_str (rdata r) in
  match scan_word (str "Name:") line with
  | Some name =>
      if COMMAND_SIZE <=? strlen name then stop_with (Undefined "array overrun") else mret (inl (name, PPid))
  | None =>
      match scan_word (str "PPid:") line with
      | Some text => if COMMAND_SIZE <=? strlen text then stop_with (Undefined "array overrun") else mret (inr (command, atoi text))
      | None => mret (inl found)
      end
  end.

Definition add_process (fuel : nat) (name : cstr) (state : option nat * option nat) : M heap (option nat * option nat) :=
  let '(root, last) := state in
  let statusPath := snprintf 256 (str "/proc/" ++ name ++ str "/status") in
  f ← sys (Cfopen statusPath);
  if rv f =? -1 then mret state else
  g ← sys Cgarbage;
  '(command, PPid) ← loop fuel (status_turn (Named statusPath)) ([], rv g);
  node ← createProcessNode (atoi name) PPid command;
  match root, last with
  | None, _ => mret tt
  | Some _, Some l => assign l (with_tmpLink (Some node))
  | Some _, None => stop_with (Undefined "null pointer")
  end;;
  sys (Cfclose (Named statusPath));;
  mret (Some (default node root), Some node).

(** readdir gives an entry, with its name and type, or a null pointer. *)
Definition build_turn (fuel : nat) (dir : Z) (state : option nat * option nat) : M heap ((option nat * option nat) + option nat) :=
  r ← sys (Cextern "readdir" [dir] []);
  match (if rv r =? -1 then None else head (rents r)) with
  | None => mret (inr state.1)
  | Some (name, d_type) =>
      if (d_type =? DT_DIR) && negb (atoi name =? 0) then
        state' ← add_process fuel name state;
        mret (inl state')
      else mret (inl state)
  end.

(** The loops of sortNode take no more turns than there are nodes. *)
Definition buildProcessTree (fuel : nat) (root : option nat) : M heap (option nat) :=
  dir ← sys (Cextern "opendir" [] (str "/proc"));
  if rv dir =? -1 then perror_exit (str "opendir") else
  root ← loop fuel (build_turn fuel (rv dir)) (root, None);
  sys (Cextern "closedir" [rv dir] []);;
  h ← get;
  sortNode (length h + 2) root;;
  mret root.

(** ** Printing *)

Definition node_line (n : node) : cstr := str "PID: " ++ dec (pid n) ++ str ", PPID: " ++ dec (ppid n) ++ str ", Command: " ++ command n ++ [NL].
Definition print_node (n : node) : M heap unit := out Stdout (node_line n).

(** The inner loop: [sibs] and [cur_layer]. *)
Definition sibs_turn (count : nat) (sibs : option nat) : M heap (option nat + unit) :=
  match sibs with
  | None => mret (inr tt)
  | Some _ =>
      s ← deref sibs;
      out Stdout (concat (replicate count (str "    ")));;
      print_node s;;
      match sibling s with
      | Some s' => mret (inl (Some s'))
      | None =>
          match parent s with
          | None => stop_with (Undefined "indeterminate pointer")
          | Some cur_layer =>
              c ← deref cur_layer;
              match sibling c with
              | Some c' => c' ← deref (Some c'); mret (inl (child c'))
              | None => mret (inr tt)
              end
          end
      end
  end.

Definition layer_turn (fuel : nat) (layer : option nat * nat) : M heap (option nat * nat + unit) :=
  let '(cur_layer, count) := layer in
  match cur_layer with
  | None => mret (inr tt)
  | Some _ =>
      c ← deref cur_layer;
      print_node c;;
      loop fuel (sibs_turn count) (sibling c);;
      last_layer ← deref cur_layer;
      mret (inl (child last_layer, Datatypes.S count))
  end.

Definition printProcessTree (fuel : nat) (root : option nat) : M heap unit := loop fuel (layer_turn fuel) (root, 0%nat).

Definition getTree_main (fuel : nat) : M heap Z :=
  root ← buildProcessTree fuel None;
  match root with
  | None => mret 0
  | Some _ =>
      out Stdout (str "Process Tree:" ++ [NL]);;
      printProcessTree fuel root;;
      mret 0
  end.
End Functions.

(** ** Linked lists *)

(** The nodes reached from a pointer are exactly these, in this order. *)
Fixpoint chain (next : node → option nat) (h : heap) (p : option nat) (l : list nat) : Prop :=
  match l with
  | [] => p = None
  | a :: l => p = Some a ∧ ∃ n, h !! a = Some n ∧ chain next h (next n) l
  end.

Lemma chain_mono next h h' p l :
  (∀ a n, a ∈ l → h !! a = Some n → ∃ n', h' !! a = Some n' ∧ next n' = next n) → chain next h p l → chain next h' p l.
Proof.
  revert p. induction l as [|a l IH]; intros p Hs; [done|]. intros (-> & n & Ha & Hl). split; [done|].
  destruct (Hs a n) as (n' & Hn' & E); [by left|done|]. exists n'. split; [done|]. rewrite E. apply IH; [|done]. intros b m Hb. apply Hs. by right.
Qed.

Lemma chain_alter next h p l f a : (∀ n, next (f n) = next n) ∨ a ∉ l → chain next h p l → chain next (alter f a h) p l.
Proof.
  intros Hf. apply chain_mono. intros b n Hb Hn. destruct (decide (b = a)) as [-> |Hne].
  - destruct Hf as [Hf|Hf]; [|done]. exists (f n). by rewrite list_lookup_alter, decide_True, Hn by done.
  - exists n. by rewrite list_lookup_alter_ne by done.
Qed.

Lemma chain_defined next h p l a : chain next h p l → a ∈ l → is_Some (h !! a).
Proof.
  revert p. induction l as [|b l IH]; intros p; [by intros _ ?%elem_of_nil|]. intros (_ & n & Hn & Hl) [-> |Ha]%elem_of_cons; [by exists n|by eapply IH].
Qed.

Lemma chain_snoc (next : node → option nat) (set : option nat → node → node) h p l s a n :
  (∀ p n, next (set p n) = p) →
  chain next h p (l ++ [s]) → NoDup (l ++ [s]) → a ∉ l ++ [s] → h !! a = Some n → next n = None →
  chain next (alter (set (Some a)) s h) p ((l ++ [s]) ++ [a]).
Proof.
  intros Hset Hc Hnd Ha Hn Hs. revert p Hc. induction l as [|b l IH]; intros p; cbn [app] in *.
  - intros (-> & m & Hm & _). split; [done|]. exists (set (Some a) m). rewrite list_lookup_alter, decide_True, Hm by done. split; [done|].
    split; [by rewrite Hset|]. exists n. rewrite list_lookup_alter_ne, Hn by (intros ->; apply Ha; by left). done.
  - intros (-> & m & Hm & Hc). apply NoDup_cons in Hnd as [Hb Hnd]. split; [done|]. exists m. rewrite list_lookup_alter_ne, Hm by (intros ->; apply Hb, elem_of_app; right; by left).
    split; [done|]. apply IH; [done| |done]. intros Hin. apply Ha. by right.
Qed.

(** What a program keeps in a node: everything but the family. *)
Definition data (h : heap) : list (Z * Z * cstr * option nat) := (λ n, (pid n, ppid n, command n, tmpLink n)) <$> h.

Lemma data_alter f a h : (∀ n, (pid (f n), ppid (f n), command (f n), tmpLink (f n)) = (pid n, ppid n, command n, tmpLink n)) → data (alter f a h) = data h.
Proof.
  intros Hf. apply list_eq. intros i. unfold data. rewrite !list_lookup_fmap, list_lookup_alter. destruct (decide (a = i)) as [-> |]; [|done].
  destruct (h !! i) as [n|]; [|done]. cbn. by rewrite Hf.
Qed.

Lemma data_lookup h h' a n : data h = data h' → h !! a = Some n → ∃ n', h' !! a = Some n' ∧ pid n' = pid n ∧ ppid n' = ppid n ∧ command n' = command n ∧ tmpLink n' = tmpLink n.
Proof.
  intros Hd Hn. assert (data h' !! a = Some (pid n, ppid n, command n, tmpLink n)) as H by (rewrite <-Hd; unfold data; by rewrite list_lookup_fmap, Hn).
  unfold data in H. rewrite list_lookup_fmap in H. destruct (h' !! a) as [n'|]; [|done]. exists n'. cbn in H. by simplify_eq.
Qed.

(** The parent a node gets: the first node, in the order of the list, whose
    process ID is its [ppid]. *)
Definition mother (h : heap) (order : list nat) (a : nat) : option nat :=
  n ← h !! a; head (filter (λ b, pid <$> h !! b = Some (ppid n)) order).

(** The nodes among [l] with a given parent. *)
Definition children (h : heap) (order l : list nat) (p : nat) : list nat := filter (λ a, mother h order a = Some p) l.

Lemma children_snoc h order l a p : children h order (l ++ [a]) p = children h order l p ++ if decide (mother h order a = Some p) then [a] else [].
Proof. unfold children. rewrite filter_app, filter_cons. by destruct (decide _). Qed.

Lemma children_in h order l p a : a ∈ children h order l p ↔ mother h order a = Some p ∧ a ∈ l.
Proof. exact (list_elem_of_filter (λ b, mother h order b = Some p) l a). Qed.

(** Every node's children are linked, in the order of the list, and each knows
    its parent; a node whose parent is not there has no siblings. *)
Definition families (h : heap) (order : list nat) : Prop :=
  ∀ p n, p ∈ order → h !! p = Some n →
    chain sibling h (child n) (children h order order p) ∧
    match mother h order p with Some q => parent n = Some (Some q) | None => sibling n = None end.

Lemma mother_data h h' order a : data h = data h' → mother h order a = mother h' order a.
Proof.
  intros Hd. unfold mother. destruct (h !! a) as [n|] eqn:Hn.
  - destruct (data_lookup _ _ _ _ Hd Hn) as (n' & -> & _ & E & _). cbn. rewrite E. f_equal. apply list_filter_iff. intros b.
    assert (pid <$> h !! b = pid <$> h' !! b) as ->; [|done].
    assert (data h !! b = data h' !! b) as Hb by by rewrite Hd. unfold data in Hb. rewrite !list_lookup_fmap in Hb. destruct (h !! b), (h' !! b); cbn in *; congruence.
  - destruct (h' !! a) as [n'|] eqn:Hn'; [|done]. symmetry in Hd. destruct (data_lookup _ _ _ _ Hd Hn') as (n & Hn2 & _). congruence.
Qed.

(** ** Linking *)

Section Linking.
Context `{os}.
Implicit Types s : st heap.

Lemma wp_deref a n s (Q : node → st heap → Prop) E : glob s !! a = Some n → Q n s → wp (deref (Some a)) Q E s.
Proof using. intros Hn HQ. unfold deref. apply wp_bind, wp_get. cbn. by rewrite Hn. Qed.

Lemma wp_assign a f s (Q : unit → st heap → Prop) E : Q tt (St (alter f a (glob s)) (errno s) (trace s)) → wp (assign a f) Q E s.
Proof using. apply wp_upd. Qed.

Lemma wp_find fuel x p l s (Q : option nat → st heap → Prop) E :
  chain tmpLink (glob s) p l → (length l < fuel)%nat → Q (head (filter (λ b, pid <$> glob s !! b = Some x) l)) s →
  wp (loop fuel (find_turn x) p) Q E s.
Proof using.
  revert fuel p. induction l as [|a l IH]; intros [|fuel] p Hc Hl HQ; cbn [length] in Hl; try lia; rewrite loop_S; apply wp_bind.
  - rewrite Hc. unfold find_turn. by apply wp_ret, wp_ret.
  - destruct Hc as (-> & n & Hn & Hc). unfold find_turn. apply wp_bind. eapply wp_deref; [exact Hn|]. apply wp_ret. rewrite filter_cons, Hn in HQ. cbn [fmap option_fmap option_map] in HQ.
    destruct (Z.eqb_spec (pid n) x) as [E1|E1].
    + rewrite decide_True in HQ by congruence. by apply wp_ret.
    + rewrite decide_False in HQ by congruence. apply IH; [done|lia|done].
Qed.

Lemma wp_last_sibling fuel c l z s (Q : nat → st heap → Prop) E :
  chain sibling (glob s) (Some c) (l ++ [z]) → (length l < fuel)%nat → Q z s → wp (loop fuel last_sibling_turn c) Q E s.
Proof using.
  revert fuel c. induction l as [|a l IH]; intros [|fuel] c Hc Hl HQ; cbn [length] in Hl; try lia; rewrite loop_S; apply wp_bind; cbn [app] in Hc; destruct Hc as ([= ->] & n & Hn & Hc);
    unfold last_sibling_turn; apply wp_bind; (eapply wp_deref; [exact Hn|]); apply wp_ret.
  - cbn in Hc. rewrite Hc. by apply wp_ret.
  - destruct (sibling n) as [c|]; [apply IH; [done|lia|done]|]. by destruct l; destruct Hc.
Qed.

(** The nodes of [done] are in their families, the others alone. *)
Context (h0 : heap) (order : list nat) (Hnd : NoDup order).

Definition linked (done todo : list nat) (h : heap) : Prop :=
  data h = data h0 ∧
  (∀ p n, p ∈ order → h !! p = Some n → chain sibling h (child n) (children h0 order done p)) ∧
  (∀ a n, a ∈ todo ∨ a ∈ order ∧ mother h0 order a = None → h !! a = Some n → sibling n = None) ∧
  (∀ a n q, a ∈ done → h !! a = Some n → mother h0 order a = Some q → parent n = Some (Some q)).

Lemma mother_in a p : mother h0 order a = Some p → p ∈ order.
Proof using.
  unfold mother. destruct (h0 !! a) as [n|]; [|done]. cbn. intros Hh. destruct (filter _ order) as [|b l] eqn:Hf; [done|]. injection Hh as ->.
  eapply (list_elem_of_filter (λ b, pid <$> h0 !! b = Some (ppid n))). rewrite Hf. by left.
Qed.

Lemma mother_defined a p h : mother h0 order a = Some p → data h = data h0 → is_Some (h !! a).
Proof using.
  intros Hm Hd. unfold mother in Hm. destruct (h0 !! a) as [n|] eqn:Hn; [|done]. symmetry in Hd.
  destruct (data_lookup _ _ _ _ Hd Hn) as (n' & -> & _). by eexists.
Qed.

Lemma lookup_alter_inv {A} (f : A → A) a (h : list A) b n : alter f a h !! b = Some n → ∃ m, h !! b = Some m ∧ n = (if decide (a = b) then f m else m).
Proof using.
  rewrite list_lookup_alter. destruct (decide (a = b)) as [-> |]; [|by exists n].
  destruct (h !! b) as [m|]; [|done]. intros [= <-]. by exists m.
Qed.

Lemma linked_orphan done a todo h : mother h0 order a = None → linked done (a :: todo) h → linked (done ++ [a]) todo h.
Proof using.
  intros Hm (Hd & Hc & Hs & Hp). split; [done|]. split; [|split].
  - intros p n Hpo Hn. rewrite children_snoc, decide_False, app_nil_r by by rewrite Hm. by apply Hc.
  - intros b n [Hb|Hb]; apply Hs; [left; by right|by right].
  - intros b n q [Hb|Hb%list_elem_of_singleton]%elem_of_app; [by apply Hp|]. subst b. by rewrite Hm.
Qed.

(** Between the assignment of the parent and the link from it. *)
Definition linking (done : list nat) (a : nat) (todo : list nat) (h : heap) : Prop :=
  data h = data h0 ∧
  (∀ p n, p ∈ order → h !! p = Some n → chain sibling h (child n) (children h0 order done p)) ∧
  (∀ b n, b ∈ a :: todo ∨ b ∈ order ∧ mother h0 order b = None → h !! b = Some n → sibling n = None) ∧
  (∀ b n q, b ∈ done ++ [a] → h !! b = Some n → mother h0 order b = Some q → parent n = Some (Some q)).

Lemma linked_parent done a todo h p :
  mother h0 order a = Some p → linked done (a :: todo) h → linking done a todo (alter (with_parent (Some p)) a h).
Proof using.
  intros Hm (Hd & Hc & Hs & Hp). split; [by rewrite data_alter|]. split; [|split].
  - intros q n Hq (m & Hn & ->)%lookup_alter_inv. apply chain_alter; [by left|]. assert (child (if decide (a = q) then with_parent (Some p) m else m) = child m) as -> by by destruct (decide _). by apply Hc.
  - intros b n Hb (m & Hn & ->)%lookup_alter_inv. assert (sibling (if decide (a = b) then with_parent (Some p) m else m) = sibling m) as -> by by destruct (decide _). by eapply Hs.
  - intros b n q Hb (m & Hn & ->)%lookup_alter_inv Hq. destruct (decide (a = b)) as [-> |Hne]; [cbn; congruence|].
    apply elem_of_app in Hb as [Hb|Hb%list_elem_of_singleton]; [by eapply Hp|congruence].
Qed.

Lemma linking_first done a todo h p n :
  order = done ++ a :: todo → mother h0 order a = Some p → linking done a todo h → h !! p = Some n → child n = None →
  linked (done ++ [a]) todo (alter (with_child (Some a)) p h).
Proof using Hnd.
  intros Ho Hm (Hd & Hc & Hs & Hp) Hn Hch. split; [by rewrite data_alter|].
  assert (p ∈ order) as Hpo by by eapply mother_in. pose proof (Hc p n Hpo Hn) as Hnone. rewrite Hch in Hnone.
  assert (children h0 order done p = []) as Hempty by (destruct (children h0 order done p); [done|by destruct Hnone]). split; [|split].
  - intros q m Hq (m' & Hm' & ->)%lookup_alter_inv. apply chain_alter; [by left|]. rewrite children_snoc. destruct (decide (p = q)) as [<- |Hne].
    + rewrite Hempty, decide_True by done. cbn. split; [done|]. destruct (mother_defined _ _ h Hm Hd) as (na & Hna).
      exists na. split; [done|]. eapply Hs; [left; by left|done].
    + rewrite decide_False, app_nil_r by congruence. by apply Hc.
  - intros b m Hb (m' & Hm' & ->)%lookup_alter_inv. assert (sibling (if decide (p = b) then with_child (Some a) m' else m') = sibling m') as -> by by destruct (decide _). eapply Hs; [|done]. destruct Hb; [left; by right|by right].
  - intros b m q Hb (m' & Hm' & ->)%lookup_alter_inv Hq. assert (parent (if decide (p = b) then with_child (Some a) m' else m') = parent m') as -> by by destruct (decide _). by eapply Hp.
Qed.

Lemma linking_next done a todo h p n l z :
  order = done ++ a :: todo → mother h0 order a = Some p → linking done a todo h → h !! p = Some n → children h0 order done p = l ++ [z] →
  linked (done ++ [a]) todo (alter (with_sibling (Some a)) z h).
Proof using Hnd.
  intros Ho Hm (Hd & Hc & Hs & Hp) Hn Hl. split; [by rewrite data_alter|].
  assert (p ∈ order) as Hpo by by eapply mother_in.
  assert (z ∈ children h0 order done p) as [Hzm Hzd]%children_in by (rewrite Hl; apply elem_of_app; right; by left).
  assert (NoDup (done ++ a :: todo)) as Hnd' by by rewrite <-Ho. apply NoDup_app in Hnd' as (Hnd1 & Hdis & Hnd2). apply NoDup_cons in Hnd2 as [Ha Hnd2]. split; [|split].
  - intros q m Hq (m' & Hm' & ->)%lookup_alter_inv. assert (child (if decide (z = q) then with_sibling (Some a) m' else m') = child m') as -> by by destruct (decide _).
    rewrite children_snoc. destruct (decide (p = q)) as [<- |Hne].
    + rewrite decide_True by done. pose proof (Hc p m' Hpo Hm') as Hch. rewrite Hl in Hch |- *.
      destruct (mother_defined _ _ h Hm Hd) as (na & Hna).
      eapply (chain_snoc sibling with_sibling); [done|done| | |exact Hna|eapply Hs; [left; by left|done]].
      * rewrite <-Hl. by apply NoDup_filter.
      * rewrite <-Hl. intros [_ Hin]%children_in. apply (Hdis a Hin). by left.
    + rewrite decide_False, app_nil_r by congruence. apply chain_alter; [|by apply Hc]. right. intros [Hin _]%children_in. congruence.
  - intros b m Hb (m' & Hm' & ->)%lookup_alter_inv. destruct (decide (z = b)) as [-> |]; [destruct Hb as [Hb|[_ Hb]]; [destruct (Hdis b Hzd); by right|congruence]|]. eapply Hs; [|done]. destruct Hb; [left; by right|by right].
  - intros b m q Hb (m' & Hm' & ->)%lookup_alter_inv Hq. assert (parent (if decide (z = b) then with_sibling (Some a) m' else m') = parent m') as -> by by destruct (decide _). by eapply Hp.
Qed.

Lemma data_defined h a : data h = data h0 → is_Some (h0 !! a) → is_Some (h !! a).
Proof using. intros Hd [n Hn]. symmetry in Hd. destruct (data_lookup _ _ _ _ Hd Hn) as (n' & -> & _). by eexists. Qed.

Context (Hdef : ∀ a, a ∈ order → is_Some (h0 !! a)).

Lemma wp_adopt fuel done a todo p s (Q : unit → st heap → Prop) E :
  order = done ++ a :: todo → mother h0 order a = Some p → (length order < fuel)%nat → linked done (a :: todo) (glob s) →
  (∀ s', linked (done ++ [a]) todo (glob s') → trace s' = trace s → Q tt s') → wp (adopt fuel a p) Q E s.
Proof using Hnd Hdef.
  intros Ho Hm Hf Hl HQ. apply linked_parent with (p := p) in Hl; [|done]. unfold adopt. apply wp_bind, wp_assign.
  set (s1 := St (alter (with_parent (Some p)) a (glob s)) (errno s) (trace s)). change (alter _ _ _) with (glob s1) in Hl.
  destruct (data_defined (glob s1) p (proj1 Hl) (Hdef _ (mother_in _ _ Hm))) as (n & Hn).
  apply wp_bind. eapply wp_deref; [exact Hn|]. destruct (child n) as [c|] eqn:Hc.
  - pose proof (proj1 (proj2 Hl) p n (mother_in _ _ Hm) Hn) as Hch. rewrite Hc in Hch.
    destruct (children h0 order done p) as [|b l _] eqn:Hk using rev_ind; [done|]. apply wp_bind. eapply (wp_last_sibling _ _ l b); [exact Hch| |].
    + assert (length (children h0 order done p) <= length done)%nat as Hlen by apply length_filter. rewrite Hk, length_app in Hlen. rewrite Ho, length_app in Hf. cbn in *. lia.
    + apply wp_assign, HQ; [|done]. by eapply linking_next.
  - apply wp_assign, HQ; [|done]. by eapply linking_first.
Qed.

Lemma wp_sort_turn fuel root done a todo s (Q : option nat + unit → st heap → Prop) E :
  order = done ++ a :: todo → (length order < fuel)%nat → chain tmpLink h0 (Some root) order → linked done (a :: todo) (glob s) →
  (∀ s' n, linked (done ++ [a]) todo (glob s') → trace s' = trace s → h0 !! a = Some n → Q (inl (tmpLink n)) s') →
  wp (sort_turn fuel root (Some a)) Q E s.
Proof using Hnd Hdef.
  intros Ho Hf Hch Hl HQ. destruct (Hdef a) as (n0 & Hn0); [rewrite Ho; apply elem_of_app; right; by left|].
  assert (∀ h, data h = data h0 → ∃ n, h !! a = Some n ∧ ppid n = ppid n0 ∧ tmpLink n = tmpLink n0) as Hget.
  { intros h Hd. symmetry in Hd. destruct (data_lookup _ _ _ _ Hd Hn0) as (n & Hn & _ & E1 & _ & E2). by exists n. }
  unfold sort_turn. destruct (Hget _ (proj1 Hl)) as (n & Hn & Ep & _). apply wp_bind. eapply wp_deref; [exact Hn|].
  assert (head (filter (λ b, pid <$> glob s !! b = Some (ppid n)) order) = mother h0 order a) as Hfind.
  { rewrite <-(mother_data _ _ order a (proj1 Hl)). unfold mother. by rewrite Hn. }
  apply wp_bind. eapply (wp_find _ _ _ order); [|exact Hf|].
  { eapply chain_mono; [|exact Hch]. intros b m _ Hm. destruct (data_lookup _ _ _ _ (eq_sym (proj1 Hl)) Hm) as (m' & Hm' & _ & _ & _ & E1). by exists m'. }
  rewrite Hfind. apply wp_bind.
  assert (∀ s', linked (done ++ [a]) todo (glob s') → trace s' = trace s → wp (n ← deref (Some a); mret (inl (tmpLink n))) Q E s') as Hend.
  { intros s' Hl' Ht'. destruct (Hget _ (proj1 Hl')) as (n' & Hn' & _ & Et). apply wp_bind. eapply wp_deref; [exact Hn'|]. apply wp_ret. rewrite Et. by apply HQ. }
  destruct (mother h0 order a) as [p|] eqn:Hm.
  - eapply wp_adopt; [done|exact Hm|done|done|exact Hend].
  - apply wp_ret, Hend; [|done]. by apply linked_orphan.
Qed.

Lemma wp_sort_loop fuel fuel' root done todo p s (Q : unit → st heap → Prop) E :
  order = done ++ todo → (length order < fuel)%nat → (length todo < fuel')%nat → chain tmpLink h0 (Some root) order → chain tmpLink h0 p todo →
  linked done todo (glob s) → (∀ s', linked order [] (glob s') → trace s' = trace s → Q tt s') → wp (loop fuel' (sort_turn fuel root) p) Q E s.
Proof using Hnd Hdef.
  revert fuel' done p s. induction todo as [|a todo IH]; intros [|fuel'] done p s Ho Hf Hf' Hch Hp Hl HQ; cbn [length] in Hf'; try lia; rewrite loop_S; apply wp_bind.
  - rewrite Hp. apply wp_ret, wp_ret, HQ; [|done]. by rewrite Ho, app_nil_r.
  - destruct Hp as (-> & n & Hn & Hp). eapply wp_sort_turn; [done|done|done|done|]. intros s' m Hl' Ht' Hm. assert (m = n) as -> by congruence.
    eapply (IH _ (done ++ [a])); [by rewrite <-app_assoc|done|lia|done|done|done|]. intros s'' H1 H2. apply HQ; [done|congruence].
Qed.
End Linking.

(** C5: sortNode, on nodes linked one by one and each alone: it ends, with one more
    node, for process 0, before them; the process IDs, parents, commands and the
    order are kept, and every node's children are those whose [ppid] is its
    process ID, in order; a process whose parent is not there is in no family. *)
Theorem sortNode_correct `{os} fuel root order (s : st heap) :
  chain tmpLink (glob s) root order → NoDup order → (length order + 1 < fuel)%nat →
  (∀ a n, a ∈ order → glob s !! a = Some n → child n = None ∧ sibling n = None) →
  wp (sortNode fuel root)
    (λ _ s', let zero := length (glob s) in
       data (glob s') = data (glob s) ++ [(0, -1, str "test", root)] ∧
       chain tmpLink (glob s') (Some zero) (zero :: order) ∧ families (glob s') (zero :: order))
    (λ t _, t = Exit 1) s.
Proof.
  intros Hch Hnd Hf Halone. unfold sortNode. apply wp_bind. unfold createProcessNode. apply wp_bind, wp_call. intros m s1 _ Hg1 _ _ _.
  destruct (rv m =? -1); [by apply wp_bind, wp_bind, wp_get_errno, wp_emit, wp_stop|]. apply wp_bind, wp_get, wp_bind, wp_put, wp_ret. rewrite Hg1. cbn [glob].
  apply wp_bind, wp_assign. cbn [glob errno trace]. set (zero := length (glob s)). set (h0 := alter _ _ _).
  assert (h0 = glob s ++ [Node 0 (-1) (str "test") None None None root]) as Hh0.
  { unfold h0, zero. apply list_eq. intros i. rewrite list_lookup_alter. destruct (decide (length (glob s) = i)) as [<- |Hne].
    - by rewrite !list_lookup_middle by done.
    - destruct (decide (i < length (glob s))%nat); [by rewrite !lookup_app_l by lia|]. by rewrite !lookup_ge_None_2 by (rewrite length_app; cbn; lia). }
  assert (∀ a, a ∈ order → (a < zero)%nat) as Hlt by (intros a Ha; apply lookup_lt_is_Some; by eapply chain_defined).
  assert (chain tmpLink h0 root order) as Hch0.
  { eapply chain_mono; [|exact Hch]. intros a n Ha Hn. exists n. split; [|done]. rewrite Hh0. by apply lookup_app_l_Some. }
  assert (chain tmpLink h0 (Some zero) (zero :: order)) as Hch1.
  { split; [done|]. exists (Node 0 (-1) (str "test") None None None root). split; [|done]. rewrite Hh0. by apply list_lookup_middle. }
  assert (NoDup (zero :: order)) as Hnd1 by (apply NoDup_cons; split; [intros Hin; specialize (Hlt _ Hin); lia|done]).
  eapply (wp_sort_loop h0 (zero :: order) Hnd1); [|exact (eq_refl (zero :: order) : _ = [] ++ _)|cbn; lia|cbn; lia|exact Hch1|exact Hch1| |].
  - intros a Ha. by eapply chain_defined.
  - split; [done|]. split; [|split; [|by intros ? ? ? ?%elem_of_nil]].
    + intros p n Hp Hn. cbn. cbn [glob] in Hn. rewrite Hh0 in Hn. apply elem_of_cons in Hp as [-> |Hp].
      * rewrite list_lookup_middle in Hn by done. by injection Hn as <-.
      * rewrite lookup_app_l in Hn by by apply Hlt. by apply (Halone p).
    + intros p n Hp Hn. cbn [glob] in Hn. rewrite Hh0 in Hn. assert (p ∈ zero :: order) as [-> |Hp']%elem_of_cons by tauto.
      * rewrite list_lookup_middle in Hn by done. by injection Hn as <-.
      * rewrite lookup_app_l in Hn by by apply Hlt. by apply (Halone p).
  - intros s' (Hd & Hc & Hs & Hp) _. split; [rewrite Hd, Hh0; unfold data; by rewrite fmap_app|]. split.
    { eapply chain_mono; [|exact Hch1]. intros b n _ Hn. destruct (data_lookup _ _ _ _ (eq_sym Hd) Hn) as (n' & Hn' & _ & _ & _ & E1). by exists n'. }
    intros p n Hpo Hn. assert (children (glob s') (zero :: order) (zero :: order) p = children h0 (zero :: order) (zero :: order) p) as ->
      by (unfold children; apply list_filter_iff; intros b; by rewrite (mother_data _ _ _ _ Hd)).
    split; [by apply Hc|]. rewrite (mother_data _ _ _ _ Hd). destruct (mother h0 (zero :: order) p) as [q|] eqn:Hq; [by eapply Hp|]. eapply Hs; [by right|done].
Qed.

(** ** Printing *)

Lemma chain_next next h p l a n : chain next h p l → a ∈ l → h !! a = Some n → ∃ l', chain next h (next n) l' ∧ l' ⊆ l.
Proof.
  revert p. induction l as [|b l IH]; intros p; [by intros _ ?%elem_of_nil|]. intros (_ & m & Hm & Hl) [-> |Ha]%elem_of_cons Hn.
  - assert (m = n) as -> by congruence. exists l. split; [done|]. intros b' Hb. by right.
  - destruct (IH _ Hl Ha Hn) as (l' & Hl' & Hsub). exists l'. split; [done|]. intros b' Hb. right. by apply Hsub.
Qed.

Section Shape.
Context (h : heap) (order : list nat) (Hfam : families h order) (Hdef : ∀ a, a ∈ order → is_Some (h !! a)).

(** The siblings that follow a node. *)
Definition family (p : option nat) : Prop := ∃ q l, q ∈ order ∧ chain sibling h p l ∧ ∀ b, b ∈ l → b ∈ order ∧ mother h order b = Some q.

Lemma mother_listed a p : mother h order a = Some p → p ∈ order.
Proof using. apply mother_in. Qed.

Lemma children_family p n : p ∈ order → h !! p = Some n → family (child n).
Proof using Hfam.
  intros Hp Hn. exists p, (children h order order p). split; [done|]. split; [by apply Hfam|]. by intros b [Hm Hb]%children_in.
Qed.

Lemma sibling_family a n : a ∈ order → h !! a = Some n → family (sibling n).
Proof using Hfam Hdef.
  intros Ha Hn. destruct (mother h order a) as [q|] eqn:Hm.
  - assert (q ∈ order) as Hq by by eapply mother_in. destruct (Hdef q Hq) as (m & Hnq). destruct (Hfam q m Hq Hnq) as [Hc _].
    destruct (chain_next _ _ _ _ a n Hc) as (l' & Hl' & Hsub); [by apply children_in|done|]. exists q, l'. split; [done|]. split; [done|]. by intros b [Hb1 Hb2]%Hsub%children_in.
  - destruct (Hfam a n Ha Hn) as [_ Hs]. rewrite Hm in Hs. exists a, []. split; [done|]. split; [done|]. by intros b ?%elem_of_nil.
Qed.

Lemma family_head b : family (Some b) → b ∈ order ∧ ∃ n q, h !! b = Some n ∧ mother h order b = Some q ∧ q ∈ order ∧ parent n = Some (Some q).
Proof using Hfam.
  intros (q & [|b' l] & Hq & Hc & Hl); [done|]. destruct Hc as ([= <-] & n & Hn & _). destruct (Hl b) as [Hb Hm]; [by left|]. split; [done|]. exists n, q.
  split; [done|]. split; [done|]. split; [done|]. destruct (Hfam b n Hb Hn) as [_ Hp]. by rewrite Hm in Hp.
Qed.

Context `{os}.
Implicit Types s : st heap.

Lemma wp_print_node n s (Q : unit → st heap → Prop) E : (∀ s', glob s' = glob s → Q tt s') → wp (print_node n) Q E s.
Proof using. intros HQ. by apply wp_emit, HQ. Qed.

Lemma wp_sibs_turn count sibs s :
  glob s = h → family sibs → wp (sibs_turn count sibs) (λ r s', glob s' = h ∧ match r with inl p => family p | inr _ => True end) (λ _ _, False) s.
Proof using Hfam Hdef.
  intros Hg Hs. unfold sibs_turn. destruct sibs as [b|]; [|by apply wp_ret]. destruct (family_head b Hs) as (Hb & n & q & Hn & Hm & Hq & Hp).
  apply wp_bind. eapply wp_deref; [by rewrite Hg|]. apply wp_bind, wp_emit, wp_bind, wp_print_node. intros s1 Hg1. cbn [glob] in Hg1. rewrite Hg in Hg1.
  destruct (sibling n) as [s'|] eqn:Es. { apply wp_ret. split; [done|]. rewrite <-Es. by apply (sibling_family b). }
  rewrite Hp. destruct (Hdef q Hq) as (m & Hnq). apply wp_bind. eapply wp_deref; [by rewrite Hg1|].
  destruct (sibling m) as [c'|] eqn:Ec; [|by apply wp_ret]. assert (family (Some c')) as (Hc & k & _ & Hk & _)%family_head by (rewrite <-Ec; by apply (sibling_family q)).
  apply wp_bind. eapply wp_deref; [by rewrite Hg1|]. apply wp_ret. split; [done|]. by apply (children_family c').
Qed.

(** printProcessTree follows no null, dangling or indeterminate pointer. *)
Lemma wlp_printProcessTree fuel root s :
  glob s = h → (∀ a, root = Some a → a ∈ order) → wlp (printProcessTree fuel root) (λ _ s', glob s' = h) (λ _ _, False) (λ _, True) s.
Proof using Hfam Hdef.
  intros Hg Hr. unfold printProcessTree. apply (wlp_loop (λ (x : option nat * nat) s', glob s' = h ∧ ∀ a, x.1 = Some a → a ∈ order)); [done|done|].
  clear s Hg Hr. intros [cur count] s [Hg Hcur]. cbn in Hcur. unfold layer_turn. destruct cur as [c|]; [|by apply wp_wlp, wp_ret]. specialize (Hcur c eq_refl).
  destruct (Hdef c Hcur) as (n & Hn). apply wlp_bind, wp_wlp. eapply wp_deref; [by rewrite Hg|]. apply wlp_bind, wp_wlp, wp_print_node. intros s1 Hg1. rewrite Hg in Hg1.
  apply wlp_bind. eapply wlp_mono; [apply (wlp_loop (λ p s', glob s' = h ∧ family p) _ (λ _ s', glob s' = h) (λ _ _, False) (λ _, True))| |done|done].
  - split; [done|]. by eapply sibling_family.
  - done.
  - intros p s2 [Hg2 Hp]. apply wp_wlp. eapply wp_mono; [by apply wp_sibs_turn| |done]. intros [p'|[]] s3 [H3 H3']; done.
  - intros [] s2 Hg2. apply wlp_bind, wp_wlp. eapply wp_deref; [by rewrite Hg2|]. apply wp_wlp, wp_ret. split; [done|]. intros a Ha. cbn in Ha.
    assert (family (Some a)) as (? & _)%family_head; [|done]. rewrite <-Ha. by eapply children_family.
Qed.
End Shape.

(** ** Reading *)

(** The nodes read so far: linked in the order of their creation, each alone. *)
Definition listed (state : option nat * option nat) (h : heap) : Prop :=
  chain tmpLink h state.1 (seq 0 (length h)) ∧ (∀ a n, h !! a = Some n → child n = None ∧ sibling n = None) ∧
  (h ≠ [] → state.2 = Some (Nat.pred (length h))).

Lemma listed_first n : child n = None → sibling n = None → tmpLink n = None → listed (Some 0%nat, Some 0%nat) [n].
Proof.
  intros Hc Hs Ht. split; [by split; [|exists n]|]. split; [|done]. intros a m Hm. apply list_lookup_singleton_Some in Hm as [_ <-]. done.
Qed.

Lemma listed_next root last h n :
  h ≠ [] → child n = None → sibling n = None → tmpLink n = None → listed (root, Some last) h →
  listed (root, Some (length h)) (alter (with_tmpLink (Some (length h))) last (h ++ [n])).
Proof.
  intros Hne Hc Hs Ht (Hch & Ha & Hl). specialize (Hl Hne). cbn [fst snd] in *. injection Hl as ->. set (k := Nat.pred (length h)).
  assert (length h = k + 1)%nat as Hk by (unfold k; destruct h; [done|cbn; lia]). split; [|split].
  - cbn [fst]. rewrite length_alter, length_app, seq_app. cbn [length Nat.add seq]. rewrite Hk, seq_app in Hch |- *. cbn [Nat.add seq] in *.
    apply (chain_snoc tmpLink with_tmpLink _ _ _ _ _ n); [done| | | | |done].
    + eapply chain_mono; [|exact Hch]. intros b m _ Hm. exists m. split; [by apply lookup_app_l_Some|done].
    + change [k] with (seq (0 + k) 1). rewrite <-seq_app. apply NoDup_seq.
    + change [k] with (seq (0 + k) 1). rewrite <-seq_app, elem_of_seq. lia.
    + by apply list_lookup_middle.
  - intros a m (m' & Hm & ->)%(@lookup_alter_inv node). assert (child m' = None ∧ sibling m' = None) as [? ?]; [|by destruct (decide _)].
    apply lookup_app_Some in Hm as [Hm|[_ Hm]]; [by apply (Ha a)|]. apply list_lookup_singleton_Some in Hm as [_ <-]. done.
  - intros _. rewrite length_alter, length_app. cbn. f_equal. lia.
Qed.

Section Reading.
Context `{os}.
Implicit Types s : st heap.

(** How a run can stop: an error that was reported, or a name longer than its
    array. *)
Definition gives_up (t : stop) (_ : st heap) : Prop := t = Exit 1 ∨ t = Undefined "array overrun".

Lemma wp_perror_gives_up {A} text s (Q : A → st heap → Prop) : wp (perror_exit text) Q gives_up s.
Proof using. apply wp_bind, wp_bind, wp_get_errno, wp_emit, wp_stop. by left. Qed.

Lemma wp_any_call c s (Q : reply → st heap → Prop) E : (∀ r s', glob s' = glob s → Q r s') → wp (sys c) Q E s.
Proof using. intros HQ. apply wp_call. intros r s' _ Hg _ _ _. by apply HQ. Qed.

Lemma wp_status_turn file found s :
  wp (status_turn file found) (λ _ s', glob s' = glob s) gives_up s.
Proof using.
  unfold status_turn. destruct found as [command PPid]. apply wp_bind, wp_any_call. intros r s1 Hg. destruct (rv r =? 0); [by apply wp_ret|].
  repeat case_match; first [by apply wp_ret|apply wp_stop; by right].
Qed.

Lemma wlp_add_process fuel name state s :
  listed state (glob s) → wlp (add_process fuel name state) (λ state' s', listed state' (glob s')) gives_up (λ _, True) s.
Proof using.
  intros Hl. unfold add_process. destruct state as [root last]. apply wlp_bind, wp_wlp, wp_any_call. intros f s1 Hg1.
  destruct (rv f =? -1); [apply wp_wlp, wp_ret; by rewrite Hg1|]. apply wlp_bind, wp_wlp, wp_any_call. intros g s2 Hg2. apply wlp_bind.
  eapply wlp_mono; [apply (wlp_loop (λ _ s', glob s' = glob s) _ (λ _ s', glob s' = glob s) gives_up (λ _, True))| |done|done].
  - congruence.
  - done.
  - intros x s3 Hg3. apply wp_wlp. eapply wp_mono; [apply wp_status_turn| |done]. intros r s4 Hg4. destruct r; congruence.
  - intros [command PPid] s3 Hg3. apply wlp_bind, wp_wlp. unfold createProcessNode. apply wp_bind, wp_any_call. intros m s4 Hg4.
    destruct (rv m =? -1); [by apply wp_perror_gives_up|]. apply wp_bind, wp_get, wp_bind, wp_put, wp_ret. rewrite Hg4, Hg3.
    set (n := Node _ _ _ _ _ _ _).
    assert (∀ s5, listed (Some (default (length (glob s)) root), Some (length (glob s))) (glob s5) →
      wlp (sys (Cfclose (Named (snprintf 256 (str "/proc/" ++ name ++ str "/status"))));;
           mret (Some (default (length (glob s)) root), Some (length (glob s)))) (λ state' s', listed state' (glob s')) gives_up (λ _, True) s5) as Hend.
    { intros s5 H5. apply wlp_bind, wp_wlp, wp_any_call. intros c s6 Hg6. apply wp_wlp, wp_ret. by rewrite Hg6. }
    apply wlp_bind, wp_wlp. destruct root as [r0|].
    + destruct last as [l0|].
      * apply wp_assign, Hend. cbn [glob]. apply listed_next; [|done|done|done|done]. destruct Hl as [Hl _]. intros Hnil. by rewrite Hnil in Hl.
      * exfalso. destruct Hl as (Hch & _ & Hl). destruct (glob s) eqn:Hh; [done|]. by discriminate Hl.
    + apply wp_ret, Hend. cbn [glob default]. destruct Hl as (Hch & _ & _). destruct (glob s) eqn:Hh; [by apply listed_first|]. by destruct Hch.
Qed.

Lemma wlp_build_loop fuel fuel' dir state s :
  listed state (glob s) →
  wlp (loop fuel' (build_turn fuel dir) state) (λ root s', ∃ last, listed (root, last) (glob s')) gives_up (λ _, True) s.
Proof using.
  intros Hl. apply (wlp_loop (λ state s', listed state (glob s'))); [done|done|]. clear s state Hl. intros state s Hl. unfold build_turn.
  apply wlp_bind, wp_wlp, wp_any_call. intros r s1 Hg1. rewrite <-Hg1 in Hl.
  destruct (if rv r =? -1 then None else head (rents r)) as [[name d_type]|]; [|apply wp_wlp, wp_ret; exists state.2; by destruct state].
  destruct (_ && _); [|by apply wp_wlp, wp_ret]. apply wlp_bind. eapply wlp_mono; [by apply wlp_add_process| |done|done]. intros state' s2 H2. by apply wp_wlp, wp_ret.
Qed.
End Reading.

(** The program, on any kernel: it follows no null, dangling or indeterminate
    pointer, and stops, other than by returning, only after an error that it
    reported or when a name overruns its array; when it returns, the processes
    that it read, and process 0, are in their families. *)
Theorem getTree_correct `{os} fuel (s : st heap) :
  glob s = [] →
  wlp (getTree_main fuel)
    (λ z s', z = 0 ∧ ∃ k, length (glob s') = Datatypes.S k ∧ let order := k :: seq 0 k in
       chain tmpLink (glob s') (Some k) order ∧ families (glob s') order)
    gives_up (λ _, True) s.
Proof.
  intros Hg. unfold getTree_main, buildProcessTree. apply wlp_bind, wlp_bind, wp_wlp, wp_any_call. intros dir s1 Hg1. rewrite Hg in Hg1.
  destruct (rv dir =? -1); [apply wp_wlp, wp_perror_gives_up|]. apply wlp_bind. eapply wlp_mono; [apply wlp_build_loop| |done|done].
  { rewrite Hg1. split; [done|]. split; [by intros [|a] n ?|done]. }
  intros root s2 (last & Hl). apply wlp_bind, wp_wlp, wp_any_call. intros c s3 Hg3. rewrite <-Hg3 in Hl. destruct Hl as (Hch & Halone & _). cbn [fst] in Hch. set (k := length (glob s3)) in *.
  apply wlp_bind, wp_wlp, wp_get, wlp_bind, wp_wlp. eapply wp_mono; [apply (sortNode_correct _ root (seq 0 k)); [done|apply NoDup_seq|rewrite length_seq; lia|by intros; eapply Halone]| |by left].
  cbv zeta. fold k. intros [] s4 (Hd & Hch4 & Hfam).
  assert (length (glob s4) = Datatypes.S k) as Hlen.
  { apply (f_equal length) in Hd. unfold data in Hd. rewrite length_app, !length_fmap in Hd. cbn in Hd. lia. }
  apply wp_wlp, wp_ret. assert (∀ s5, glob s5 = glob s4 → ∃ k, length (glob s5) = Datatypes.S k ∧ chain tmpLink (glob s5) (Some k) (k :: seq 0 k) ∧ families (glob s5) (k :: seq 0 k)) as Hend
    by (intros s5 ->; by exists k).
  destruct root as [r|]; [|apply wp_wlp, wp_ret; split; [done|by apply Hend]]. apply wlp_bind, wp_wlp, wp_emit, wlp_bind.
  eapply wlp_mono; [apply (wlp_printProcessTree (glob s4) (k :: seq 0 k) Hfam)| |done|done]; [|done| |].
  - intros a Ha. by eapply chain_defined.
  - intros a [= <-]. right. destruct (seq 0 k) as [|b l] eqn:Hseq; [done|]. destruct Hch as ([= ->] & _). by left.
  - intros [] s5 Hg5. apply wp_wlp, wp_ret. split; [done|]. by apply Hend.
Qed.

(** ** Four processes *)

Definition four : heap :=
  [ Node 1 0 (str "init") None None None (Some 1%nat); Node 20 1 (str "sshd") None None None (Some 2%nat);
    Node 21 1 (str "bash") None None None (Some 3%nat); Node 22 21 (str "vi") None None None None ].

Definition quiet_os : os := test_os (λ _ _, ok 0).

Lemma sortNode_witness :
  ∃ h, @sortNode quiet_os 6 (Some 0%nat) (init four) = (Ret tt, St h 0 [Esys (Crealloc NODE_SIZE) (ok 0)]) ∧
    families h [4; 0; 1; 2; 3]%nat ∧ children h [4; 0; 1; 2; 3]%nat [4; 0; 1; 2; 3]%nat 0 = [1; 2]%nat.
Proof.
  assert (chain tmpLink four (Some 0%nat) [0; 1; 2; 3]%nat) as Hch by (repeat (split; [reflexivity|eexists; split; [reflexivity|]]); reflexivity).
  pose proof (@sortNode_correct quiet_os 6 (Some 0%nat) [0; 1; 2; 3]%nat (init four) Hch (NoDup_seq 0 4) ltac:(cbn; lia)) as H.
  assert (∀ a n, a ∈ [0; 1; 2; 3]%nat → glob (init four) !! a = Some n → child n = None ∧ sibling n = None) as Halone.
  { intros a n _ Hn. apply list_elem_of_lookup_2 in Hn. cbn in Hn. repeat (apply elem_of_cons in Hn as [-> |Hn]; [split; reflexivity|]). by apply elem_of_nil in Hn. }
  specialize (H Halone). apply wp_run in H as [([] & s' & Hrun & _ & _ & Hfam)|(t & s' & Hrun & ->)]; [|exfalso; apply (f_equal fst) in Hrun; vm_compute in Hrun; discriminate Hrun].
  exists (glob s'). change (length (glob (init four))) with 4%nat in Hfam. split; [rewrite Hrun; apply (f_equal snd) in Hrun; cbn [snd] in Hrun; rewrite <-Hrun; vm_compute; reflexivity|].
  split; [exact Hfam|]. apply (f_equal snd) in Hrun. cbn [snd] in Hrun. rewrite <-Hrun. vm_compute. reflexivity.
Defined.

(** What is printed descends only through the first process of each layer: the
    child of bash, the second of the two children of init, is not shown. *)
Example printProcessTree_misses :
  trace ((@sortNode quiet_os 6 (Some 0%nat) ≫= λ _, printProcessTree 9 (Some 0%nat)) (init four)).2 =
    Esys (Crealloc NODE_SIZE) (ok 0) ::
    (Eout Stdout <$> [str "PID: 1, PPID: 0, Command: init" ++ [NL]; str "PID: 20, PPID: 1, Command: sshd" ++ [NL];
                      str "    "; str "PID: 21, PPID: 1, Command: bash" ++ [NL]]).
Proof. vm_compute. reflexivity. Qed.
