(* ===== verification/Broadcast.v ===== *)
(** homework/hw10/program.c: data handed to a group of processes through shared
    memory, a batch at a time, with a signal for each batch; the processes count
    what they received in the same memory.

    After the forks the parent and its consumers are a transition system: a
    step is what one process does between two accesses to what they share. *)
From S2P Require Import Prelude Sys ErrorFns GetNum.

Definition MESSAGE_SIZE : Z := 80.
Definition SIZEOF_DATA : Z := 84.
Definition SIGUSR1 : Z := 10.
Definition SIGTERM : Z := 15.
Definition O_RDWR_CREAT_TRUNC : Z := 578.
Definition rw_rw_rw : Z := 438.

(** generator *)
Definition message (i : Z) : cstr := str "This is message " ++ dec i.
Definition generator (data_num : Z) : list cstr := message <$> seqZ 0 data_num.

(** ** The start *)

(** Where a process comes out of the forks. *)
Inductive role := Parent (pids : list Z) | Consumer.

Section Start.
Context {S : Type} `{os}.

Fixpoint fork_consumers (n : nat) (pids : list Z) : M S role :=
  match n with
  | O => mret (Parent pids)
  | Datatypes.S n =>
      f ← sys Cfork;
      if rv f =? -1 then perror_exit (str "fork") else
      if rv f =? 0 then
        p ← sys Cgetpid;
        out Stdout (str "Child " ++ dec (rv p) ++ str " is created" ++ [NL]);;
        mret Consumer
      else fork_consumers n (pids ++ [rv f])
  end.

Definition open_map (path : cstr) (len : Z) : M S Z :=
  f ← sys (Copen path O_RDWR_CREAT_TRUNC rw_rw_rw);
  if rv f <? 0 then perror_exit (str "open") else
  t ← sys (Cftruncate (rv f) len);
  if rv t =? -1 then perror_exit (str "ftruncate") else
  mret (rv f).

(** From the arguments M, R, N and B to the forks.  An array of [M] or [N]
    elements needs a positive size. *)
Definition program_start (argv : list cstr) : M S (role * Z * Z * Z * Z) :=
  match argv with
  | [_; m; r; n; b] =>
      let M := atoi m in let R := atoi r in let N := atoi n in let B := atoi b in
      out Stdout (str "M: " ++ dec M ++ str ", R: " ++ dec R ++ str ", N: " ++ dec N ++ str ", B: " ++ dec B ++ [NL]);;
      if (M <=? 0) || (N <=? 0) then stop_with (Undefined "array of no elements") else
      fd ← open_map (str "mapfile") (wrap_u 64 (SIZEOF_DATA * B));
      fd2 ← open_map (str "mapfile2") 4;
      addr ← sys (Cmmap fd (wrap_u 64 (SIZEOF_DATA * B)));
      shared ← sys (Cmmap fd2 8);
      if rv shared =? -1 then stop_with (Killed 11) else   (* the counts are stored before the test *)
      if rv addr =? -1 then perror_exit (str "mmap") else
      sys (Cclose fd);;
      sys (Cclose fd2);;
      sys (Csigaction SIGTERM);;
      sys (Csigaction SIGUSR1);;
      who ← fork_consumers (Z.to_nat N) [];
      mret (who, M, R, N, B)
  | _ =>
      out Stdout (str "Usage: ./program <DataNum(M)> <Rate(R)> <ProcessNum(N)> <bufferSize(B)>" ++ [NL]);;
      stop_with (Exit 1)
  end.
End Start.

(** ** The processes *)

(** A consumer waits in pause, or runs the handler of SIGUSR1: it prints
    [addr[i]], then loads [shared_count[0]], adds and stores.  [Gone]: it has
    printed its EXIT line and ended; [printed] are the lines of data. *)
Inductive activity :=
  | Paused
  | Printing (num_batch i : Z)
  | Adding (count : Z)
  | Storing (sum count : Z)
  | Gone.

Record consumer := Cons { c_pid : Z; usr1 : bool; term : bool; act : activity; printed : list cstr }.

(** The parent: before a batch, filling the buffer, signalling, ending and
    reaping the consumers. *)
Inductive phase :=
  | Next (num_of_data : Z)
  | Filling (num_of_data batch_size j : Z)
  | Signalling (num_of_data i : Z)
  | Ending (i : Z)
  | Reaping (i : Z)
  | Over.

Record run := Run { parent : phase; addr : list cstr; count0 : Z; batch1 : Z; consumers : list consumer; p_out : list cstr }.

Section Program.
Context (M N B : Z) (loss_rate : Z → Z → cstr).   (* the text of the loss rate, a float *)

Definition with_parent (p : phase) (s : run) : run := Run p (addr s) (count0 s) (batch1 s) (consumers s) (p_out s).
Definition with_consumer (k : nat) (f : consumer → consumer) (s : run) : run :=
  Run (parent s) (addr s) (count0 s) (batch1 s) (alter f k (consumers s)) (p_out s).
Definition say (line : cstr) (s : run) : run := Run (parent s) (addr s) (count0 s) (batch1 s) (consumers s) (p_out s ++ [line]).

(** kill: a signal that is pending is not counted again. *)
Definition post_usr1 (c : consumer) : consumer := Cons (c_pid c) true (term c) (act c) (printed c).
Definition post_term (c : consumer) : consumer := Cons (c_pid c) (usr1 c) true (act c) (printed c).

Definition is_gone (c : consumer) : bool := match act c with Gone => true | _ => false end.

Definition parent_step (s : run) : option run :=
  match parent s with
  | Next num =>
      if num <? M then
        let batch_size := if M - num >? B then B else M - num in
        Some (Run (Filling num batch_size 0) (addr s) (count0 s) (if batch_size <? B then batch_size else batch1 s) (consumers s) (p_out s))
      else Some (with_parent (Ending 0) s)
  | Filling num batch_size j =>
      if j <? batch_size then
        Some (Run (Filling num batch_size (j + 1)) (<[Z.to_nat j := message (num + j)]> (addr s)) (count0 s) (batch1 s) (consumers s) (p_out s))
      else Some (with_parent (Signalling (num + batch_size) 0) s)
  | Signalling num i =>
      if i <? N then Some (with_parent (Signalling num (i + 1)) (with_consumer (Z.to_nat i) post_usr1 s))
      else Some (with_parent (Next num) (say (str "num_of_data: " ++ dec num) s))
  | Ending i =>
      if i <? N then Some (with_parent (Reaping i) (with_consumer (Z.to_nat i) post_term s))
      else
        let totalMessage := wrap_s 32 (M * N) in
        Some (with_parent Over
          (say (str "Loss rate: " ++ loss_rate (count0 s) totalMessage ++ str "%")
          (say (str "Sum of received messages by all consumers: " ++ dec (count0 s))
          (say (str "Total messages: " ++ dec totalMessage) s))))
  | Reaping i =>
      c ← consumers s !! Z.to_nat i;
      if is_gone c then Some (with_parent (Ending (i + 1)) (say (str "Child " ++ dec (c_pid c) ++ str " is terminated") s)) else None
  | Over => None
  end.

Definition say_data (c : consumer) (m : cstr) : cstr := dec (c_pid c) ++ str " -> Data: " ++ m.

Definition goes (a : activity) (out : list cstr) (c : consumer) : consumer := Cons (c_pid c) (usr1 c) (term c) a (printed c ++ out).
Definition takes_usr1 (batch : Z) (c : consumer) : consumer := Cons (c_pid c) false (term c) (Printing batch 0) (printed c).

(** A consumer takes the signal that ends it, at any moment, or goes on. *)
Definition consumer_step (k : nat) (ends : bool) (s : run) : option run :=
  c ← consumers s !! k;
  let set a out := with_consumer k (goes a out) s in
  if ends then
    if term c && negb (is_gone c) then Some (set Gone []) else None
  else
  match act c with
  | Paused =>
      if usr1 c then Some (with_consumer k (takes_usr1 (batch1 s)) s) else None
  | Printing num_batch i =>
      if i <? num_batch then
        m ← addr s !! Z.to_nat i;
        Some (set (Printing num_batch (i + 1)) [say_data c m])
      else Some (set (Adding i) [])
  | Adding count => Some (set (Storing (wrap_s 32 (count0 s + count)) count) [])
  | Storing sum count =>
      let s' := set Paused [] in
      Some (Run (parent s') (addr s') sum (batch1 s') (consumers s') (p_out s'))
  | Gone => None
  end.

Inductive step (s s' : run) : Prop :=
  | Step_parent : parent_step s = Some s' → step s s'
  | Step_consumer k ends : consumer_step k ends s = Some s' → step s s'.

Definition start (pids : list Z) : run :=
  Run (Next 0) (replicate (Z.to_nat B) []) 0 B ((λ p, Cons p false false Paused []) <$> pids) [].
End Program.

(** ** Accounts *)

Definition lines (c : consumer) : Z := Z.of_nat (length (printed c)).
(** Of its lines, those it has yet to add to the count; and the lines of the
    batch it has yet to print. *)
Definition uncounted (c : consumer) : Z :=
  match act c with Printing _ i => i | Adding n => n | Storing _ n => n | _ => 0 end.
Definition owed (c : consumer) : Z := match act c with Printing n i => n - i | _ => 0 end.
Definition counted (c : consumer) : Z := lines c - uncounted c.

Lemma counted_eq c : counted c = lines c - uncounted c.
Proof. done. Qed.

Record account (sent batch total : Z) (c : consumer) : Prop := {
  ac_uncounted : 0 <= uncounted c <= lines c;
  ac_owed : 0 <= owed c;
  ac_sent : lines c + owed c + (if usr1 c then batch else 0) <= sent;
  ac_sum : match act c with Storing v n => 0 <= v <= total + n | _ => True end }.

Lemma account_mono sent batch total sent' batch' total' c :
  account sent batch total c → sent <= sent' → batch' <= batch → total <= total' → account sent' batch' total' c.
Proof.
  intros [H1 H2 H3 H4] Hs Hb Ht. split; [done|done| |].
  - destruct (usr1 c); lia.
  - destruct (act c); lia.
Qed.

Section Invariant.
Context (M N B : Z) (loss_rate : Z → Z → cstr).
Context (HM : 0 < M) (HN : 0 < N) (HB : 0 < B) (Hint : M * N <= INT_MAX).

(** How many messages consumer [k] was sent a signal for. *)
Definition sent (s : run) (k : nat) : Z :=
  match parent s with
  | Next num | Filling num _ _ => num
  | Signalling num i => if Z.of_nat k <? i then num else num - batch1 s
  | _ => M
  end.

Definition ended (s : run) (i : Z) : Prop := ∀ k c, consumers s !! k = Some c → Z.of_nat k < i → act c = Gone.

Definition parent_ok (s : run) : Prop :=
  match parent s with
  | Next num => 0 <= num <= M ∧ (num < M → batch1 s = B)
  | Filling num batch j => 0 <= num < M ∧ 0 <= j <= batch ∧ batch1 s = batch ∧ batch = Z.min B (M - num)
  | Signalling num i => 0 <= i <= N ∧ 0 <= num - batch1 s ∧ num <= M ∧ (num < M → batch1 s = B)
  | Ending i => 0 <= i <= N ∧ ended s i
  | Reaping i => 0 <= i < N ∧ ended s i ∧ ∀ c, consumers s !! Z.to_nat i = Some c → term c = true
  | Over => ended s N
  end.

Record ok_run (s : run) : Prop := {
  ok_parent : parent_ok s;
  ok_batch : 0 < batch1 s <= B;
  ok_addr : length (addr s) = Z.to_nat B;
  ok_number : length (consumers s) = Z.to_nat N;
  ok_count : 0 <= count0 s <= zsum counted (consumers s);
  ok_accounts : ∀ k c, consumers s !! k = Some c → account (sent s k) (batch1 s) (zsum counted (consumers s)) c }.

Lemma sent_le s k : parent_ok s → 0 < batch1 s → sent s k <= M.
Proof using. unfold parent_ok, sent. destruct (parent s); try lia. destruct (Z.ltb_spec (Z.of_nat k) i); lia. Qed.

Lemma lines_le s : ok_run s → zsum lines (consumers s) <= M * N.
Proof using HN.
  intros Hs. etransitivity; [apply (zsum_le _ M)|rewrite (ok_number _ Hs); lia].
  apply Forall_lookup. intros k c Hk. destruct (ok_accounts _ Hs k c Hk) as [H1 H2 H3 _]. pose proof (sent_le s k (ok_parent _ Hs)). pose proof (ok_batch _ Hs). destruct (usr1 c); lia.
Qed.

Lemma counted_lines s : ok_run s → Forall (λ c, counted c <= lines c) (consumers s).
Proof using. intros Hs. apply Forall_lookup. intros k c Hk. destruct (ok_accounts _ Hs k c Hk) as [H1 _ _ _]. unfold counted. lia. Qed.

(** One consumer changes, and perhaps the count. *)
Lemma ok_consumer s k c f v :
  ok_run s → consumers s !! k = Some c →
  counted c <= counted (f c) → (act c = Gone → act (f c) = Gone) → (term c = true → term (f c) = true) →
  account (sent s k) (batch1 s) (zsum counted (consumers s) + (counted (f c) - counted c)) (f c) →
  0 <= v <= zsum counted (consumers s) + (counted (f c) - counted c) →
  ok_run (Run (parent s) (addr s) v (batch1 s) (alter f k (consumers s)) (p_out s)).
Proof using.
  intros [Hp Hb Ha Hn Hc Hacc] Hk Hle Hgone Hterm Hf Hv.
  assert (∀ j d, alter f k (consumers s) !! j = Some d → ∃ d0, consumers s !! j = Some d0 ∧ (act d0 = Gone → act d = Gone) ∧ (term d0 = true → term d = true)) as Hold.
  { intros j d Hj. rewrite list_lookup_alter in Hj. destruct (decide (k = j)) as [<- |Hne]; [|by exists d].
    rewrite Hk in Hj. injection Hj as <-. by exists c. }
  split; cbn [parent addr count0 batch1 consumers p_out]; [|done|done|by rewrite length_alter| |].
  - unfold parent_ok, ended in *. cbn [parent batch1 consumers]. destruct (parent s); try done.
    + destruct Hp as [Hi He]. split; [done|]. intros j d (d0 & Hj & Hg & _)%Hold Hlt. by apply Hg, (He j).
    + destruct Hp as (Hi & He & Ht). split; [done|]. split; [intros j d (d0 & Hj & Hg & _)%Hold Hlt; by apply Hg, (He j)|].
      intros d (d0 & Hj & _ & Htr)%Hold. by apply Htr, Ht.
    + intros j d (d0 & Hj & Hg & _)%Hold Hlt. by apply Hg, (Hp j).
  - by rewrite (zsum_alter _ _ _ _ _ Hk).
  - intros j d Hj. rewrite (zsum_alter _ _ _ _ _ Hk). rewrite list_lookup_alter in Hj. destruct (decide (k = j)) as [<- |Hne].
    + rewrite Hk in Hj. injection Hj as <-. exact Hf.
    + eapply account_mono; [by apply (Hacc j)|done|done|lia].
Qed.

Lemma lines_goes a out c : lines (goes a out c) = lines c + Z.of_nat (length out).
Proof using. unfold lines, goes. cbn [printed]. rewrite length_app. lia. Qed.

(** A handler goes on by an act of its own. *)
Lemma ok_goes s k c a out v :
  ok_run s → consumers s !! k = Some c → act c ≠ Gone →
  (let c' := goes a out c in
   0 <= uncounted c' <= lines c' ∧ 0 <= owed c' ∧ lines c' + owed c' <= lines c + owed c ∧ counted c <= counted c' ∧
   match a with Storing w n => 0 <= w <= zsum counted (consumers s) + n | _ => True end) →
  0 <= v <= zsum counted (consumers s) + (counted (goes a out c) - counted c) →
  ok_run (Run (parent s) (addr s) v (batch1 s) (alter (goes a out) k (consumers s)) (p_out s)).
Proof using.
  intros Hs Hk Hng (Hu & Ho & Hsum & Hcount & Hst) Hv. destruct (ok_accounts _ Hs k c Hk) as [H1 H2 H3 H4].
  eapply ok_consumer; [done|exact Hk|done|done|done| |done]. split; [done|done| |].
  - change (usr1 (goes a out c)) with (usr1 c). destruct (usr1 c); lia.
  - cbn [act goes]. destruct a; try done. lia.
Qed.

Lemma consumer_step_ok k ends s s' : ok_run s → consumer_step k ends s = Some s' → ok_run s'.
Proof using HM HN HB Hint.
  intros Hs Hstep. unfold consumer_step in Hstep. destruct (consumers s !! k) as [c|] eqn:Hk; [|done]. cbn in Hstep.
  pose proof (ok_accounts _ Hs k c Hk) as [H1 H2 H3 H4]. pose proof (ok_count _ Hs) as Hc.
  destruct ends.
  - destruct (term c && negb (is_gone c)) eqn:Et; [|done]. injection Hstep as <-. apply andb_true_iff in Et as [_ Eg].
    assert (act c ≠ Gone) as Hng by (intros Eq; unfold is_gone in Eg; by rewrite Eq in Eg).
    eapply ok_goes; [done|exact Hk|done| |]; cbv zeta; rewrite ?counted_eq, ?lines_goes; cbn; repeat split; lia.
  - destruct (act c) as [|nb i|n|v n|] eqn:Ea; unfold uncounted, owed in *; rewrite ?Ea in *.
    + destruct (usr1 c) eqn:Eu; [|done]. injection Hstep as <-. pose proof (ok_batch _ Hs).
      eapply ok_consumer; [done|exact Hk|rewrite ?counted_eq; unfold uncounted, lines; cbn; rewrite Ea; lia|by rewrite Ea|done| |rewrite ?counted_eq; unfold uncounted, lines; cbn; rewrite Ea; lia].
      split; unfold uncounted, owed, lines in *; cbn; lia.
    + destruct (Z.ltb_spec i nb) as [Hi|Hi].
      * destruct (addr s !! Z.to_nat i) as [m|]; [|done]. injection Hstep as <-.
        eapply ok_goes; [done|exact Hk|by rewrite Ea| |]; cbv zeta; rewrite ?counted_eq, ?lines_goes; unfold uncounted, owed; rewrite ?Ea; cbn; repeat split; lia.
      * injection Hstep as <-.
        eapply ok_goes; [done|exact Hk|by rewrite Ea| |]; cbv zeta; rewrite ?counted_eq, ?lines_goes; unfold uncounted, owed; rewrite ?Ea; cbn; repeat split; lia.
    + injection Hstep as <-. pose proof (lines_le s Hs) as Hl. pose proof (zsum_part _ _ _ _ _ (counted_lines s Hs) Hk) as Hpart.
      rewrite counted_eq in Hpart. unfold uncounted in Hpart. rewrite Ea in Hpart. assert (wrap_s 32 (count0 s + n) = count0 s + n) as -> by (apply wrap_s_id; unfold INT_MAX in Hint; cbn; lia).
      eapply ok_goes; [done|exact Hk|by rewrite Ea| |]; cbv zeta; rewrite ?counted_eq, ?lines_goes; unfold uncounted, owed; rewrite ?Ea; cbn; repeat split; lia.
    + injection Hstep as <-.
      eapply ok_goes; [done|exact Hk|by rewrite Ea| |]; cbv zeta; rewrite ?counted_eq, ?lines_goes; unfold uncounted, owed; rewrite ?Ea; cbn; repeat split; lia.
    + done.
Qed.

(** Only the parent changes. *)
Lemma ok_parent_only s p ad b o :
  ok_run s → length ad = Z.to_nat B → 0 < b <= B → b <= batch1 s →
  let s' := Run p ad (count0 s) b (consumers s) o in
  parent_ok s' → (∀ k, sent s k <= sent s' k) → ok_run s'.
Proof using.
  intros [Hp Hb Ha Hn Hc Hacc] Had Hb1 Hb2 s' Hp' Hsent. split; cbn [addr batch1 consumers count0 s']; try done.
  intros k c Hk. eapply account_mono; [by apply (Hacc k)|apply Hsent|done|done].
Qed.

(** A consumer is sent a signal. *)
Lemma ok_posted s p k c f :
  ok_run s → consumers s !! k = Some c → counted (f c) = counted c →
  let s' := Run p (addr s) (count0 s) (batch1 s) (alter f k (consumers s)) (p_out s) in
  parent_ok s' → (∀ j, sent s j <= sent s' j) → account (sent s' k) (batch1 s) (zsum counted (consumers s)) (f c) → ok_run s'.
Proof using HB HN.
  intros [Hp Hb Ha Hn Hc Hacc] Hk Hf s' Hp' Hsent Hk'.
  assert (zsum counted (consumers s') = zsum counted (consumers s)) as Hz by (change (consumers s') with (alter f k (consumers s)); rewrite (zsum_alter _ _ _ _ _ Hk); lia).
  split; [done|done|done|by change (consumers s') with (alter f k (consumers s)); rewrite length_alter|by rewrite Hz|].
  intros j d Hj. rewrite Hz. cbn [consumers s'] in Hj. rewrite list_lookup_alter in Hj. destruct (decide (k = j)) as [<- |Hne].
  - rewrite Hk in Hj. injection Hj as <-. exact Hk'.
  - eapply account_mono; [by apply (Hacc j)|apply Hsent|done|done].
Qed.

Lemma parent_step_ok s s' : ok_run s → parent_step M N B loss_rate s = Some s' → ok_run s'.
Proof using HM HN HB Hint.
  intros Hs Hstep. pose proof (ok_parent _ Hs) as Hp. pose proof (ok_batch _ Hs) as Hb. pose proof (ok_addr _ Hs) as Ha. pose proof (ok_number _ Hs) as Hn.
  unfold parent_step, parent_ok in *. destruct (parent s) as [num|num batch j|num i|i|i|] eqn:Epar.
  - destruct (Z.ltb_spec num M) as [Hlt|Hge]; injection Hstep as <-.
    + set (bs := if M - num >? B then B else M - num). assert (bs = Z.min B (M - num)) as Hbs by (unfold bs; destruct (Z.gtb_spec (M - num) B); lia).
      assert ((if bs <? B then bs else batch1 s) = bs) as Hb' by (destruct (Z.ltb_spec bs B); lia). rewrite Hb'.
      apply ok_parent_only; [done|done|lia|lia| |intros k; unfold sent; rewrite Epar; cbn; lia]. unfold parent_ok. cbn. lia.
    + apply (ok_parent_only s _ (addr s) (batch1 s)); [done|done|lia|lia| |intros k; unfold sent; rewrite Epar; cbn; lia]. unfold parent_ok. cbn. split; [lia|]. intros k c Hk Hk2. lia.
  - destruct (Z.ltb_spec j batch) as [Hlt|Hge]; injection Hstep as <-.
    + apply ok_parent_only; [done|by rewrite length_insert|lia|lia| |intros k; unfold sent; rewrite Epar; cbn; lia]. unfold parent_ok. cbn. lia.
    + apply (ok_parent_only s _ (addr s) (batch1 s)); [done|done|lia|lia| |intros k; unfold sent; rewrite Epar; cbn; destruct (Z.ltb_spec (Z.of_nat k) 0); lia]. unfold parent_ok. cbn. lia.
  - destruct (Z.ltb_spec i N) as [Hlt|Hge]; injection Hstep as <-.
    + destruct (consumers s !! Z.to_nat i) as [c|] eqn:Hk; [|apply lookup_ge_None in Hk; lia].
      assert (∀ j, sent s j <= if Z.of_nat j <? i + 1 then num else num - batch1 s) as Hle
        by (intros j; unfold sent; rewrite Epar; destruct (Z.ltb_spec (Z.of_nat j) i), (Z.ltb_spec (Z.of_nat j) (i + 1)); lia).
      apply (ok_posted s _ _ c); [done|exact Hk|done|unfold parent_ok; cbn; lia|exact Hle|].
      destruct (ok_accounts _ Hs _ c Hk) as [H1 H2 H3 H4]. split; [done|done| |exact H4].
      change (lines c + owed c + batch1 s <= if Z.of_nat (Z.to_nat i) <? i + 1 then num else num - batch1 s).
      unfold sent in H3. rewrite Epar in H3. rewrite Z2Nat.id in * by lia. rewrite (proj2 (Z.ltb_ge i i)) in H3 by lia. rewrite (proj2 (Z.ltb_lt i (i + 1))) by lia.
      destruct (usr1 c); lia.
    + apply (ok_parent_only s _ (addr s) (batch1 s)); [done|done|lia|lia| |]. { unfold parent_ok. cbn. lia. }
      intros k. unfold sent. rewrite Epar. cbn. destruct (Z.ltb_spec (Z.of_nat k) i); lia.
  - destruct (Z.ltb_spec i N) as [Hlt|Hge]; injection Hstep as <-.
    + destruct (consumers s !! Z.to_nat i) as [c|] eqn:Hk; [|apply lookup_ge_None in Hk; lia].
      apply (ok_posted s _ _ c); [done|exact Hk|done| |by intros j; unfold sent; rewrite Epar|].
      * unfold parent_ok. cbn. split; [lia|]. destruct Hp as [_ He]. split.
        -- intros j d Hj Hlt2. change (alter post_term (Z.to_nat i) (consumers s) !! j = Some d) in Hj. rewrite list_lookup_alter_ne in Hj by lia. by apply (He j).
        -- intros d Hd. change (alter post_term (Z.to_nat i) (consumers s) !! Z.to_nat i = Some d) in Hd. rewrite list_lookup_alter, decide_True, Hk in Hd by done. by injection Hd as <-.
      * destruct (ok_accounts _ Hs _ c Hk) as [H1 H2 H3 H4]. unfold sent in *. rewrite Epar in H3. by split.
    + apply (ok_parent_only s _ (addr s) (batch1 s)); [done|done|lia|lia| |by intros j; unfold sent; rewrite Epar].
      unfold parent_ok. cbn. destruct Hp as [Hi He]. by replace N with i by lia.
  - destruct (consumers s !! Z.to_nat i) as [c|] eqn:Hk; [|done]. cbn in Hstep. destruct (is_gone c) eqn:Hg; [|done]. injection Hstep as <-.
    apply (ok_parent_only s _ (addr s) (batch1 s)); [done|done|lia|lia| |by intros j; unfold sent; rewrite Epar].
    unfold parent_ok. cbn. destruct Hp as (Hi & He & _). split; [lia|]. intros j d Hj Hlt. change (consumers s !! j = Some d) in Hj. destruct (decide (j = Z.to_nat i)) as [-> |Hne].
    + assert (d = c) as -> by congruence. unfold is_gone in Hg. by destruct (act c).
    + apply (He j); [done|lia].
  - done.
Qed.

Lemma step_ok s s' : ok_run s → step M N B loss_rate s s' → ok_run s'.
Proof using HM HN HB Hint. intros Hs [Hp|k ends Hc]; [by eapply parent_step_ok|by eapply consumer_step_ok]. Qed.

Lemma zsum_fresh (f : consumer → Z) z pids : (∀ p, f (Cons p false false Paused []) = z) → zsum f ((λ p, Cons p false false Paused []) <$> pids) = Z.of_nat (length pids) * z.
Proof using. intros Hf. induction pids as [|p pids IH]; [done|]. change (f (Cons p false false Paused []) + zsum f ((λ p, Cons p false false Paused []) <$> pids) = Z.of_nat (Datatypes.S (length pids)) * z). rewrite IH, Hf. lia. Qed.

Lemma start_ok pids : Z.of_nat (length pids) = N → ok_run (start B pids).
Proof using HM HN HB.
  intros Hl. split; cbn [addr consumers batch1 count0 start]; [unfold parent_ok; cbn; lia|lia|by rewrite length_replicate|rewrite length_fmap; lia| |].
  - rewrite (zsum_fresh counted 0) by done. lia.
  - intros k c Hk. rewrite list_lookup_fmap in Hk. destruct (pids !! k) as [p|]; [|done]. injection Hk as <-. split; cbn; lia || done.
Qed.

(** ** Every run ends *)

Definition batch_cost : Z := N * (B + 5) + 4.
Definition parent_work (s : run) : Z :=
  let next num := (M - num) * batch_cost + 2 * N + 2 in
  match parent s with
  | Next num => next num
  | Filling num batch j => (batch - j) + N * (B + 5) + 2 + next (num + batch)
  | Signalling num i => (N - i) * (B + 5) + 1 + next num
  | Ending i => 2 * (N - i) + 1
  | Reaping i => 2 * (N - i)
  | Over => 0
  end.
Definition handler_work (a : activity) : Z :=
  match a with Printing n i => n - i + 4 | Adding _ => 3 | Storing _ _ => 2 | Paused => 1 | Gone => 0 end.
Definition work (c : consumer) : Z := (if usr1 c then B + 4 else 0) + handler_work (act c).
Definition total_work (s : run) : Z := parent_work s + zsum work (consumers s).

Lemma work_nonneg s : ok_run s → 0 <= total_work s.
Proof using HM HN HB.
  intros Hs. assert (0 <= zsum work (consumers s)) as Hz.
  { assert (zsum (λ _ : consumer, 0) (consumers s) = 0) as <- by (induction (consumers s) as [|? ? IH]; [done|exact IH]).
    apply zsum_mono, Forall_lookup. intros k c Hk. destruct (ok_accounts _ Hs k c Hk) as [_ H2 _ _]. unfold work, owed in *. destruct (usr1 c), (act c); cbn; lia. }
  pose proof (ok_parent _ Hs) as Hp. unfold total_work, parent_work, parent_ok, batch_cost in *. destruct (parent s); try lia; nia.
Qed.

Lemma consumer_step_work k ends s s' : ok_run s → consumer_step k ends s = Some s' → total_work s' < total_work s.
Proof using HM HN HB.
  intros Hs Hstep. unfold consumer_step in Hstep. destruct (consumers s !! k) as [c|] eqn:Hk; [|done]. cbn in Hstep.
  destruct (ok_accounts _ Hs k c Hk) as [_ Ho _ _]. pose proof (ok_batch _ Hs) as Hb.
  assert (∀ f, work (f c) < work c → parent_work s + zsum work (alter f k (consumers s)) < total_work s) as Hless
    by (intros f Hf; unfold total_work; rewrite (zsum_alter _ _ _ _ _ Hk); lia).
  assert (∀ a out, handler_work a < handler_work (act c) → work (goes a out c) < work c) as Hgoes by (intros a out Ha; unfold work; cbn; lia).
  destruct ends.
  - destruct (term c && negb (is_gone c)) eqn:Et; [|done]. injection Hstep as <-. apply andb_true_iff in Et as [_ Eg].
    apply Hless, Hgoes. unfold is_gone, owed in *. destruct (act c); cbn; lia || done.
  - unfold owed in Ho. destruct (act c) as [|nb i|n|v n|] eqn:Ea.
    + destruct (usr1 c) eqn:Eu; [|done]. injection Hstep as <-. apply Hless. unfold work. cbn. rewrite Eu, Ea. cbn. lia.
    + destruct (Z.ltb_spec i nb); [destruct (addr s !! Z.to_nat i); [|done]|]; injection Hstep as <-; apply Hless, Hgoes; cbn; lia.
    + injection Hstep as <-. apply Hless, Hgoes. cbn. lia.
    + injection Hstep as <-. apply Hless, Hgoes. cbn. lia.
    + done.
Qed.

Lemma parent_step_work s s' : ok_run s → parent_step M N B loss_rate s = Some s' → total_work s' < total_work s.
Proof using HM HN HB.
  intros Hs Hstep. pose proof (ok_parent _ Hs) as Hp. pose proof (ok_number _ Hs) as Hn. unfold parent_step, parent_ok, total_work, parent_work in *.
  assert (∀ k f, zsum work (alter f k (consumers s)) = zsum work (consumers s) ∨ ∃ c, consumers s !! k = Some c ∧ zsum work (alter f k (consumers s)) = zsum work (consumers s) + (work (f c) - work c)) as Hpost.
  { intros k f. destruct (consumers s !! k) as [c|] eqn:Hk; [right; exists c; split; [done|by apply zsum_alter]|left]. f_equal. apply list_eq. intros j. rewrite list_lookup_alter. destruct (decide (k = j)) as [<- |]; [by rewrite Hk|done]. }
  destruct (parent s) as [num|num batch j|num i|i|i|] eqn:Epar.
  - destruct (Z.ltb_spec num M) as [Hlt|Hge]; injection Hstep as <-; cbn [parent consumers with_parent]; [|replace (M - num) with 0 by lia; lia].
    set (bs := if M - num >? B then B else M - num). assert (1 <= bs) as Hbs by (unfold bs; destruct (Z.gtb_spec (M - num) B); lia).
    unfold batch_cost. set (c := N * (B + 5)). assert (0 < c) by nia. nia.
  - destruct (Z.ltb_spec j batch) as [Hlt|Hge]; injection Hstep as <-; cbn [parent consumers with_parent]; lia.
  - destruct (Z.ltb_spec i N) as [Hlt|Hge]; injection Hstep as <-; cbn [parent consumers with_parent with_consumer say]; [|nia].
    destruct (Hpost (Z.to_nat i) post_usr1) as [-> |(c & _ & ->)]; [nia|]. unfold work. cbn [usr1 act post_usr1]. destruct (usr1 c); nia.
  - destruct (Z.ltb_spec i N) as [Hlt|Hge]; injection Hstep as <-; cbn [parent consumers with_parent with_consumer say]; [|lia].
    destruct (Hpost (Z.to_nat i) post_term) as [-> |(c & _ & ->)]; [lia|]. unfold work. cbn [usr1 act post_term]. lia.
  - destruct (consumers s !! Z.to_nat i) as [c|]; [|done]. cbn in Hstep. destruct (is_gone c); [|done]. injection Hstep as <-. cbn [parent consumers with_parent say]. lia.
  - done.
Qed.

Lemma progress s : ok_run s → parent s ≠ Over → ∃ s', step M N B loss_rate s s'.
Proof using HM HN HB.
  intros Hs Hnot. destruct (parent_step M N B loss_rate s) as [s'|] eqn:Hstep; [by exists s'; left|].
  pose proof (ok_parent _ Hs) as Hp. pose proof (ok_number _ Hs) as Hn. unfold parent_step, parent_ok in *.
  destruct (parent s) as [num|num batch j|num i|i|i|]; try (by destruct (Z.ltb _ _)); [|done].
  destruct (consumers s !! Z.to_nat i) as [c|] eqn:Hk; [|apply lookup_ge_None in Hk; lia]. cbn in Hstep.
  destruct (is_gone c) eqn:Hg; [done|]. destruct Hp as (_ & _ & Ht).
  eexists. right with (k := Z.to_nat i) (ends := true). unfold consumer_step. rewrite Hk. cbn. by rewrite (Ht c eq_refl), Hg.
Qed.
End Invariant.

(** C4: The program, whatever the order in which its processes run and signals
    are taken: the count never exceeds M * N, so that the loss rate is not
    negative, and no consumer prints more than M lines; until the parent is
    through some process can go on, and a run has a bounded number of steps;
    when the parent is through all consumers have ended. *)
Theorem broadcast_correct M N B loss_rate pids n s :
  0 < M → 0 < N → 0 < B → M * N <= INT_MAX → Z.of_nat (length pids) = N →
  nsteps (step M N B loss_rate) n (start B pids) s →
  0 <= count0 s <= M * N ∧ Forall (λ c, lines c <= M) (consumers s) ∧
  Z.of_nat n <= M * (N * (B + 5) + 4) + 3 * N + 2 ∧
  (parent s ≠ Over → ∃ s', step M N B loss_rate s s') ∧ (parent s = Over → Forall (λ c, act c = Gone) (consumers s)).
Proof.
  intros HM HN HB Hint Hl Hsteps.
  assert (∀ n s1 s2, nsteps (step M N B loss_rate) n s1 s2 → ok_run M N B s1 → ok_run M N B s2 ∧ total_work M N B s2 + Z.of_nat n <= total_work M N B s1) as Hrun.
  { clear n s Hsteps. induction 1 as [s1|n s1 s2 s3 H12 _ IH]; intros H1; [split; [done|lia]|].
    assert (ok_run M N B s2) as H2 by by eapply (step_ok M N B loss_rate). destruct (IH H2) as [H3 Hw]. split; [done|].
    assert (total_work M N B s2 < total_work M N B s1) by (destruct H12; [by eapply parent_step_work|by eapply consumer_step_work]). lia. }
  destruct (Hrun _ _ _ Hsteps (start_ok M N B HM HN HB pids Hl)) as [Hs Hw]. pose proof (lines_le M N B HN s Hs) as Hlines.
  pose proof (ok_count _ _ _ _ Hs) as Hc. pose proof (zsum_mono _ _ _ (counted_lines M N B s Hs)) as Hcl. split; [lia|]. split; [|split; [|split]].
  - apply Forall_lookup. intros k c Hk. destruct (ok_accounts _ _ _ _ Hs k c Hk) as [_ Ho H3 _]. pose proof (ok_batch _ _ _ _ Hs).
    pose proof (sent_le M N B s k (ok_parent _ _ _ _ Hs)). destruct (usr1 c); lia.
  - pose proof (work_nonneg M N B HM HN HB s Hs) as Hnn. unfold total_work in Hw at 2. unfold start in Hw at 1 2. cbn [parent consumers] in Hw.
    rewrite (zsum_fresh (work B) 1) in Hw by done. rewrite Hl in Hw. unfold parent_work, batch_cost in Hw. cbn [parent start] in Hw. lia.
  - by apply progress.
  - intros Hover. pose proof (ok_parent _ _ _ _ Hs) as Hp. unfold parent_ok in Hp. rewrite Hover in Hp. apply Forall_lookup. intros k c Hk. apply (Hp k c Hk).
    pose proof (ok_number _ _ _ _ Hs). apply lookup_lt_Some in Hk. lia.
Qed.

(** ** Runs *)

(** A schedule: the parent, or a consumer that goes on or ends. *)
Fixpoint schedule (M N B : Z) (loss_rate : Z → Z → cstr) (moves : list (option (nat * bool))) (s : run) : option run :=
  match moves with
  | [] => Some s
  | m :: moves =>
      s' ← match m with None => parent_step M N B loss_rate s | Some (k, ends) => consumer_step k ends s end;
      schedule M N B loss_rate moves s'
  end.

Lemma schedule_steps M N B loss_rate moves s s' : schedule M N B loss_rate moves s = Some s' → nsteps (step M N B loss_rate) (length moves) s s'.
Proof.
  revert s. induction moves as [|m moves IH]; intros s Hs; [injection Hs as ->; constructor|]. cbn in Hs.
  destruct m as [[k ends]|].
  - destruct (consumer_step k ends s) as [s1|] eqn:H1; [|done]. econstructor; [by right with k ends|by apply IH].
  - destruct (parent_step M N B loss_rate s) as [s1|] eqn:H1; [|done]. econstructor; [by left|by apply IH].
Qed.

Definition no_text (received total : Z) : cstr := [].
Definition parent_moves (n : nat) : list (option (nat * bool)) := replicate n None.
Definition handler_moves (n : nat) : list (option (nat * bool)) := replicate n (Some (0%nat, false)).

(** Two messages, one at a time, to one consumer that keeps up. *)
Definition in_step : list (option (nat * bool)) :=
  parent_moves 4 ++ handler_moves 5 ++ parent_moves 5 ++ handler_moves 5 ++ parent_moves 3 ++ [Some (0%nat, true)] ++ parent_moves 2.

Lemma broadcast_witness :
  ∃ s, schedule 2 1 1 no_text in_step (start 1 [700]) = Some s ∧ parent s = Over ∧ count0 s = 2 ∧
    Forall (λ c, act c = Gone) (consumers s) ∧ Z.of_nat (length in_step) <= 25.
Proof.
  destruct (schedule 2 1 1 no_text in_step (start 1 [700])) as [s|] eqn:Hs; [|vm_compute in Hs; discriminate Hs].
  pose proof (broadcast_correct 2 1 1 no_text [700] (length in_step) s ltac:(lia) ltac:(lia) ltac:(lia) ltac:(vm_compute; congruence) eq_refl (schedule_steps _ _ _ _ _ _ _ Hs))
    as (_ & _ & Hn & _ & Hover).
  assert (parent s = Over ∧ count0 s = 2) as [Hp Hc] by (vm_compute in Hs; injection Hs as <-; split; reflexivity).
  exists s. split; [reflexivity|]. split; [exact Hp|]. split; [exact Hc|]. split; [exact (Hover Hp)|]. vm_compute in Hn |- *. exact Hn.
Defined.

(** The second signal comes while the first is pending: one message of two is
    received. *)
Example signal_lost :
  (λ s, (parent s, count0 s, printed <$> consumers s)) <$>
    schedule 2 1 1 no_text (parent_moves 9 ++ handler_moves 5 ++ parent_moves 3 ++ [Some (0%nat, true)] ++ parent_moves 2) (start 1 [700]) =
  Some (Over, 1, [[str "700 -> Data: This is message 1"]]).
Proof. vm_compute. reflexivity. Qed.

(** The handler runs after the buffer has the next message: the first message is
    lost, the second received twice, and the loss reported is none. *)
Example loss_not_reported :
  (λ s, (parent s, count0 s, printed <$> consumers s)) <$>
    schedule 2 1 1 no_text (parent_moves 7 ++ handler_moves 5 ++ parent_moves 2 ++ handler_moves 5 ++ parent_moves 3 ++ [Some (0%nat, true)] ++ parent_moves 2) (start 1 [700]) =
  Some (Over, 2, [[str "700 -> Data: This is message 1"; str "700 -> Data: This is message 1"]]).
Proof. vm_compute. reflexivity. Qed.

(** Two consumers add to the count at the same time: one addition is lost. *)
Example addition_lost :
  let both := [Some (0%nat, false); Some (1%nat, false)] in
  (λ s, (parent s, count0 s)) <$>
    schedule 1 2 1 no_text (parent_moves 5 ++ both ++ both ++ both ++ both ++ both ++ parent_moves 3 ++ [Some (0%nat, true)] ++ parent_moves 2 ++ [Some (1%nat, true)] ++ parent_moves 2) (start 1 [700; 701]) =
  Some (Over, 1).
Proof. vm_compute. reflexivity. Qed.

(** ** The start, again *)

Section StartSpecs.
Context {S : Type} `{os}.
Implicit Types s : st S.

Lemma wp_perror_leave {A} text s (Q : A → st S → Prop) (E : stop → st S → Prop) : (∀ s', E (Exit 1) s') → wp (perror_exit text) Q E s.
Proof using. intros HE. by apply wp_bind, wp_bind, wp_get_errno, wp_emit, wp_stop. Qed.

Lemma wp_fork_consumers n pids s (Q : role → st S → Prop) (E : stop → st S → Prop) :
  (∀ s', E (Exit 1) s') → (∀ s', Q Consumer s') → (∀ more s', length more = n → 0 ∉ more → Q (Parent (pids ++ more)) s') →
  wp (fork_consumers n pids) Q E s.
Proof using.
  intros HE HC. revert pids s. induction n as [|n IH]; intros pids s HP; cbn [fork_consumers].
  { apply wp_ret. rewrite <-(app_nil_r pids). apply HP; [done|by apply not_elem_of_nil]. }
  apply wp_bind, wp_call. intros f s1 _ _ _ _ _. destruct (Z.eqb_spec (rv f) (-1)) as [E1|E1]; [by apply wp_perror_leave|].
  destruct (Z.eqb_spec (rv f) 0) as [E0|E0].
  - apply wp_bind, wp_call. intros p s2 _ _ _ _ _. by apply wp_bind, wp_emit, wp_ret.
  - apply IH. intros more s2 Hl Hm. rewrite <-app_assoc. apply HP; [by cbn; rewrite Hl|]. cbn. rewrite elem_of_cons. intros [?|?]; [congruence|done].
Qed.

Lemma wp_open_map path len s (Q : Z → st S → Prop) (E : stop → st S → Prop) :
  (∀ s', E (Exit 1) s') → (∀ fd s', Q fd s') → wp (open_map path len) Q E s.
Proof using.
  intros HE HQ. unfold open_map. apply wp_bind, wp_call. intros f s1 _ _ _ _ _. destruct (rv f <? 0); [by apply wp_perror_leave|].
  apply wp_bind, wp_call. intros t s2 _ _ _ _ _. destruct (rv t =? -1); [by apply wp_perror_leave|by apply wp_ret].
Qed.
End StartSpecs.

(** The start: with numbers of data and of processes that are positive, a
    process comes out of it as the parent of N consumers, or as one of them, or
    it exits with failure; or it dies, when the counts cannot be mapped. *)
Theorem program_start_correct {S} `{os} prog m r n b (s : st S) :
  0 < atoi m → 0 < atoi n →
  wp (program_start [prog; m; r; n; b])
    (λ x s', match x with (who, M, R, N, B) => M = atoi m ∧ N = atoi n ∧ B = atoi b ∧
       match who with Parent pids => Z.of_nat (length pids) = N ∧ 0 ∉ pids | Consumer => True end end)
    (λ t s', t = Exit 1 ∨ t = Killed 11) s.
Proof.
  intros Hm Hn. unfold program_start. apply wp_bind, wp_emit. rewrite (proj2 (Z.leb_gt _ _) Hm), (proj2 (Z.leb_gt _ _) Hn). cbn [orb].
  apply wp_bind, wp_open_map; [by left|]. intros fd s1. apply wp_bind, wp_open_map; [by left|]. intros fd2 s2.
  apply wp_bind, wp_call. intros a s3 _ _ _ _ _. apply wp_bind, wp_call. intros c s4 _ _ _ _ _.
  destruct (rv c =? -1); [by apply wp_stop; right|]. destruct (rv a =? -1); [by apply wp_perror_leave; left|].
  apply wp_bind, wp_call. intros k1 s5 _ _ _ _ _. apply wp_bind, wp_call. intros k2 s6 _ _ _ _ _. apply wp_bind, wp_call. intros g1 s7 _ _ _ _ _. apply wp_bind, wp_call. intros g2 s8 _ _ _ _ _.
  apply wp_bind, wp_fork_consumers; [by left|by intros; apply wp_ret|]. intros more s9 Hl H0. apply wp_ret. split_and!; [done..| |done]. cbn [app]. lia.
Qed.
