(* ===== verification/Tail.v ===== *)
(** homework/hw2/tail.c: the last lines of a file. *)
From S2P Require Import Prelude Sys ErrorFns GetNum Getopt SvmsgFile Copy.

(** The loop over the buffer, from its end: [n] is i + 1; the result is [cur]. *)
Fixpoint find_start (buf : cstr) (numLines lines : Z) (n : nat) : Z :=
  match n with
  | O => -1
  | Datatypes.S i =>
      if decide (buf !! i = Some NL) then find_start buf numLines (lines + 1) i
      else if (0 <? Z.of_nat i) && (lines =? numLines - 1) && bool_decide (buf !! Nat.pred i = Some NL) then Z.of_nat i
      else find_start buf numLines lines i
  end.

Definition opts (c : ascii) : option bool := if decide (c = "n"%char) then Some true else None.

Section Program.
Context {S : Type} `{os}.

(** The words getopt leaves before the others. *)
Fixpoint option_words (fuel : nat) (args : list cstr) : list cstr :=
  match fuel, args with
  | Datatypes.S fuel, w :: rest =>
      if operand w then option_words fuel rest else
      if streq w (str "--") then [w] else
      let rest' := (getopt_word opts (tail w) rest).2 in
      take (length args - length rest') args ++ option_words fuel rest'
  | _, _ => []
  end.

(** argv after the loop of getopt. *)
Definition permuted (argv : list cstr) : list cstr :=
  match getenv (str "POSIXLY_CORRECT"), argv with
  | None, prog :: args => prog :: option_words (length args) args ++ (getopt_env opts args).2
  | _, _ => argv
  end.

(** numLines and fileArgvIndex, as the options set them one after the other. *)
Definition take_option (prog : cstr) (x : Z * nat) (f : found) : M S (Z * nat) :=
  match f with
  | Opt _ (Some arg) => mret (atoi arg, 3%nat)
  | _ => match getopt_complaint prog f with Some text => out Stderr text | None => mret tt end;; mret x
  end.
Fixpoint take_options (prog : cstr) (x : Z * nat) (fs : list found) : M S (Z * nat) :=
  match fs with [] => mret x | f :: fs => x ← take_option prog x f; take_options prog x fs end.

Definition tail_file (file : cstr) (numLines : Z) : M S Z :=
  f ← sys (Copen file O_RDONLY 0);
  if rv f =? -1 then errexit (str "Fail to open") else
  r ← sys (Cread (rv f) 1024);
  if rv r =? -1 then errexit (str "Fail to read!") else
  let buf := data_of r in
  let cur := find_start buf numLines 0 (length buf) in
  let cur := if cur =? -1 then 0 else cur in
  w ← sys (Cwrite 1 (drop (Z.to_nat cur) buf));
  if rv w =? -1 then errexit (str "Fail to write!") else
  k ← sys (Cclose (rv f));
  if rv k =? -1 then errexit (str "Fail to close the file!") else
  mret 0.

Definition tail_main (argv : list cstr) : M S Z :=
  let prog := default [] (argv !! 0%nat) in
  let first := atoi (default [] (argv !! 1%nat)) in
  if (length argv =? 3)%nat && (first =? INT_MIN) then stop_with (Undefined "signed overflow") else
  if (length argv =? 3)%nat && (0 <? first * -1) then tail_file (default [] (argv !! 2%nat)) (first * -1) else
  if (length argv =? 2)%nat || (length argv =? 4)%nat then
    '(numLines, fileArgvIndex) ← take_options prog (10, 1%nat) (getopt_env opts (tail argv)).1;
    match permuted argv !! fileArgvIndex with
    | Some file => tail_file file numLines
    | None => stop_with (Undefined "open of a null pointer")
    end
  else errexit (str "Usage: " ++ prog ++ str " filename or " ++ prog ++ str " -n num filename or " ++ prog ++ str " -num filename").
End Program.

(** ** The last lines of a text *)

Fixpoint join (ls : list cstr) : cstr :=
  match ls with [] => [] | [l] => l | l :: ls => l ++ NL :: join ls end.

Definition last_lines (k : Z) (ls : list cstr) : list cstr := if k <=? 0 then ls else drop (length ls - Z.to_nat k) ls.

(** Lines that are not empty. *)
Definition full_line (l : cstr) : Prop := l ≠ [] ∧ NL ∉ l.

Lemma join_snoc ls l : ls ≠ [] → join (ls ++ [l]) = join ls ++ NL :: l.
Proof.
  induction ls as [|a [|b ls] IH]; [done|done|]. intros _. cbn [app]. change (a ++ NL :: join ((b :: ls) ++ [l]) = (a ++ NL :: join (b :: ls)) ++ NL :: l).
  rewrite IH by done. by rewrite <-app_assoc.
Qed.

Lemma find_shift buf k lines n : find_start buf k lines n = find_start buf (k - lines) 0 n.
Proof.
  revert k lines. induction n as [|n IH]; intros k lines; [done|]. cbn [find_start]. destruct (decide _).
  - rewrite IH, (IH _ (0 + 1)). f_equal. lia.
  - assert ((lines =? k - 1) = (0 =? k - lines - 1)) as -> by (destruct (Z.eqb_spec lines (k - 1)), (Z.eqb_spec 0 (k - lines - 1)); lia). by rewrite IH.
Qed.

Lemma find_prefix a b k lines n : (n <= length a)%nat → find_start (a ++ b) k lines n = find_start a k lines n.
Proof.
  revert lines. induction n as [|n IH]; intros lines Hn; [done|]. cbn [find_start]. rewrite !lookup_app_l by lia. rewrite !IH by lia. done.
Qed.

(** A line after [p], from its end. *)
Lemma find_line p w k : NL ∉ w → k ≠ 1 → find_start (p ++ w) k 0 (length p + length w) = find_start p k 0 (length p).
Proof.
  intros Hw Hk. induction w as [|c w IH] using rev_ind; [by rewrite app_nil_r, Nat.add_0_r|]. rewrite length_app, Nat.add_assoc, Nat.add_1_r. cbn [find_start].
  rewrite app_assoc.
  assert (((p ++ w) ++ [c]) !! (length p + length w)%nat = Some c) as -> by (rewrite <-length_app; by apply list_lookup_middle).
  rewrite decide_False by (intros [= ->]; apply Hw, elem_of_app; right; by left).
  rewrite (proj2 (Z.eqb_neq 0 (k - 1))), andb_false_r by lia. rewrite find_prefix by (rewrite length_app; lia).
  apply IH. intros Hin. apply Hw, elem_of_app. by left.
Qed.

Lemma find_first p w : full_line w → (p ≠ [] → last p = Some NL) →
  find_start (p ++ w) 1 0 (length p + length w) = if decide (p = []) then -1 else Z.of_nat (length p).
Proof.
  intros [Hne Hw] Hp. induction w as [|c w IH] using rev_ind; [done|]. rewrite length_app, Nat.add_assoc, Nat.add_1_r. cbn [find_start]. rewrite app_assoc.
  assert (((p ++ w) ++ [c]) !! (length p + length w)%nat = Some c) as -> by (rewrite <-length_app; by apply list_lookup_middle).
  rewrite decide_False by (intros [= ->]; apply Hw, elem_of_app; right; by left). cbn [Z.sub Z.eqb]. rewrite andb_true_r.
  assert (NL ∉ w) as Hw' by (intros Hin; apply Hw, elem_of_app; by left). destruct w as [|d w _] using rev_ind.
  - rewrite app_nil_r, Nat.add_0_r. destruct p as [|e p _] using rev_ind; [done|]. rewrite decide_False by (by destruct p).
    rewrite length_app, Nat.add_1_r. cbn [Nat.pred]. rewrite <-app_assoc. cbn [app]. rewrite list_lookup_middle by done. specialize (Hp ltac:(by destruct p)). rewrite last_snoc in Hp. rewrite bool_decide_eq_true_2 by done.
    rewrite (proj2 (Z.ltb_lt _ _)) by lia. done.
  - rewrite length_app. replace (length p + (length w + length [d]))%nat with (Datatypes.S (length (p ++ w))) by (rewrite length_app; cbn; lia). cbn [Nat.pred].
    rewrite bool_decide_eq_false_2.
    2: { rewrite (app_assoc p w [d]), <-(app_assoc _ [d]). cbn [app]. rewrite list_lookup_middle by done. intros [= ->]. apply Hw', elem_of_app. right. by left. }
    rewrite andb_false_r. rewrite find_prefix by (rewrite !length_app; cbn; lia).
    replace (Datatypes.S (length (p ++ w))) with (length p + length (w ++ [d]))%nat by (rewrite !length_app; cbn; lia). apply IH; [by destruct w|done].
Qed.

Definition from (cur : Z) : nat := Z.to_nat (if cur =? -1 then 0 else cur).

Lemma find_bounds buf k lines n : -1 <= find_start buf k lines n < Z.of_nat n ∨ n = 0%nat ∧ find_start buf k lines n = -1.
Proof.
  revert lines. induction n as [|n IH]; intros lines; [by right|]. left. cbn [find_start].
  assert (∀ l, -1 <= find_start buf k l n < Z.of_nat (Datatypes.S n)) as H by (intros l; destruct (IH l) as [?|[-> ->]]; lia).
  destruct (decide _); [apply H|]. destruct (_ && _); [lia|apply H].
Qed.

Lemma join_nonempty ls : ls ≠ [] → Forall full_line ls → join ls ≠ [].
Proof. intros Hne Hl. destruct Hl as [|l ls [Hl _] _]; [done|]. destruct ls; [done|]. cbn. by destruct l. Qed.

(** The text that is kept of lines that are not empty. *)
Lemma find_last k ls :
  1 <= k → ls ≠ [] → Forall full_line ls →
  drop (from (find_start (join ls) k 0 (length (join ls)))) (join ls) = join (drop (length ls - Z.to_nat k) ls).
Proof.
  revert k. induction ls as [|l ls IH] using rev_ind; [done|]. intros k Hk _ Hf. apply Forall_app in Hf as [Hf Hl]. apply Forall_cons in Hl as [Hl _].
  assert (Hw : NL ∉ l) by apply Hl. destruct (decide (ls = [])) as [-> |Hne].
  { cbn [app join length]. destruct (decide (k = 1)) as [-> |Hk1].
    - pose proof (find_first [] l Hl ltac:(done)) as H. cbn [app length Nat.add] in H. by rewrite H.
    - pose proof (find_line [] l k Hw Hk1) as H. cbn [app length Nat.add] in H. rewrite H. cbn. by replace (1 - Z.to_nat k)%nat with 0%nat by lia. }
  rewrite join_snoc by done. replace (join ls ++ NL :: l) with ((join ls ++ [NL]) ++ l) by by rewrite <-app_assoc.
  assert (length ((join ls ++ [NL]) ++ l) = length (join ls ++ [NL]) + length l)%nat as -> by apply length_app. rewrite (length_app ls [l]). cbn [length].
  destruct (decide (k = 1)) as [-> |Hk1].
  - rewrite (find_first (join ls ++ [NL]) l Hl) by (intros _; apply last_snoc). rewrite decide_False by (by destruct (join ls)).
    unfold from. rewrite (proj2 (Z.eqb_neq _ _)) by lia. rewrite Nat2Z.id, drop_app_length. rewrite drop_app_ge by lia.
    by replace (length ls + 1 - Z.to_nat 1 - length ls)%nat with 0%nat by lia.
  - rewrite (find_line (join ls ++ [NL]) l k Hw Hk1). rewrite length_app, Nat.add_1_r. cbn [find_start]. rewrite list_lookup_middle, decide_True by done.
    rewrite find_prefix, find_shift by lia. change (0 + 1) with 1. specialize (IH (k - 1) ltac:(lia) Hne Hf). set (cur := find_start (join ls) (k - 1) 0 (length (join ls))) in *.
    assert (from cur <= length (join ls))%nat as Hcur.
    { destruct (find_bounds (join ls) (k - 1) 0 (length (join ls))) as [Hb|[_ Hb]]; fold cur in Hb; unfold from; destruct (Z.eqb_spec cur (-1)); lia. }
    rewrite <-app_assoc, drop_app_le by done. rewrite IH. rewrite drop_app_le by lia.
    replace (length ls - Z.to_nat (k - 1))%nat with (length ls + 1 - Z.to_nat k)%nat by lia. cbn [app]. symmetry. apply join_snoc.
    intros Hnil. apply (f_equal length) in Hnil. rewrite length_drop in Hnil. cbn in Hnil. assert (length ls ≠ 0)%nat by (by destruct ls). lia.
Qed.

Lemma find_none buf k n : k <= 0 → find_start buf k 0 n = -1.
Proof.
  intros Hk. enough (∀ lines, 0 <= lines → find_start buf k lines n = -1) as H by by apply H. induction n as [|n IH]; intros lines Hl; [done|]. cbn [find_start].
  destruct (decide _); [apply IH; lia|]. rewrite (proj2 (Z.eqb_neq lines (k - 1))), andb_false_r by lia. by apply IH.
Qed.

(** The same, when the text may end with a newline: then it is the number of
    newlines that counts. *)
Lemma find_text numLines ls (ends : bool) :
  let d := join ls ++ (if ends then [NL] else []) in
  ls ≠ [] → Forall full_line ls →
  drop (from (find_start d numLines 0 (length d))) d = join (last_lines (if ends then numLines - 1 else numLines) ls) ++ (if ends then [NL] else []).
Proof.
  intros d Hne Hf. assert (∀ k, drop (from (find_start (join ls) k 0 (length (join ls)))) (join ls) = join (last_lines k ls)) as H.
  { intros k. unfold last_lines. destruct (Z.leb_spec k 0); [by rewrite find_none|]. apply find_last; [lia|done|done]. }
  destruct ends; [|unfold d; rewrite !app_nil_r; apply H]. unfold d. rewrite length_app, Nat.add_1_r. cbn [find_start]. rewrite list_lookup_middle, decide_True by done.
  rewrite find_prefix, find_shift by lia. change (0 + 1) with 1. rewrite drop_app_le; [by rewrite H|].
  destruct (find_bounds (join ls) (numLines - 1) 0 (length (join ls))) as [Hb|[_ Hb]]; unfold from; destruct (Z.eqb_spec (find_start (join ls) (numLines - 1) 0 (length (join ls))) (-1)); lia.
Qed.

(** ** The program *)

(** The command lines that ask for the last lines of a file. *)
Inductive asks : list cstr → cstr → Z → Prop :=
  | Asks_default prog file : operand file = true → asks [prog; file] file 10
  | Asks_n prog num file : operand file = true → asks [prog; str "-n"; num; file] file (atoi num)
  | Asks_dash prog num file : INT_MIN < atoi num < 0 → asks [prog; num; file] file (- atoi num).

Section Specs.
Context {S : Type} `{os}.
Implicit Types s : st S.

Lemma wp_errexit text s (Q : Z → st S → Prop) (E : stop → st S → Prop) : strlen text < 1024 → (∀ s', E (Exit 1) s') → wp (errexit text) Q E s.
Proof using. intros Ht HE. unfold errexit. rewrite (proj2 (Z.ltb_lt _ _)) by done. by apply wp_bind, wp_emit, wp_stop. Qed.

Lemma wp_tail_file file numLines s :
  wp (tail_file file numLines)
    (λ z s', z = 0 ∧ ∃ f r w k text, acted s [(Copen file O_RDONLY 0, f); (Cread (rv f) 1024, r); (Cwrite 1 text, w); (Cclose (rv f), k)] s' ∧
       ∀ ls ends, data_of r = join ls ++ (if ends : bool then [NL] else []) → ls ≠ [] → Forall full_line ls →
         text = join (last_lines (if ends then numLines - 1 else numLines) ls) ++ (if ends then [NL] else []))
    (λ t _, t = Exit 1) s.
Proof using.
  unfold tail_file. apply wp_bind. eapply wp_act; [apply acted_refl|done|]. intros f s1 _ H1 _ _. destruct (rv f =? -1); [by apply wp_errexit|].
  apply wp_bind. eapply wp_act; [exact H1|done|]. intros r s2 _ H2 _ _. destruct (rv r =? -1); [by apply wp_errexit|]. cbv zeta.
  apply wp_bind. eapply wp_act; [exact H2|done|]. intros w s3 _ H3 _ _. destruct (rv w =? -1); [by apply wp_errexit|].
  apply wp_bind. eapply wp_act; [exact H3|done|]. intros k s4 _ H4 _ _. destruct (rv k =? -1); [by apply wp_errexit|].
  apply wp_ret. split; [done|]. eexists f, r, w, k, _. split; [exact H4|]. intros ls ends Hd Hne Hf. rewrite Hd. exact (find_text numLines ls ends Hne Hf).
Qed.
End Specs.

Lemma option_words_n num file : operand file = true → option_words 3 [["-"%char; "n"%char]; num; file] = [["-"%char; "n"%char]; num].
Proof.
  intros Hop. cbn [option_words]. change (operand ["-"%char; "n"%char]) with false. change (streq ["-"%char; "n"%char] (str "--")) with false.
  change ((getopt_word opts (tail ["-"%char; "n"%char]) [num; file]).2) with [file]. cbn [length Nat.sub take app]. by rewrite Hop.
Qed.

(** tail, for a file whose lines are not empty and that one read of 1024 bytes
    gives whole: the text written is that of its last [numLines] lines, when
    it does not end with a newline; when it does, of one line less, or of the
    whole file when one line was asked for.  Otherwise it exits with failure. *)
Theorem tail_correct {S} `{os} argv file numLines (s : st S) :
  asks argv file numLines → getenv (str "POSIXLY_CORRECT") = None →
  wp (tail_main argv)
    (λ z s', z = 0 ∧ ∃ f r w k text, acted s [(Copen file O_RDONLY 0, f); (Cread (rv f) 1024, r); (Cwrite 1 text, w); (Cclose (rv f), k)] s' ∧
       ∀ ls ends, data_of r = join ls ++ (if ends : bool then [NL] else []) → ls ≠ [] → Forall full_line ls →
         text = join (last_lines (if ends then numLines - 1 else numLines) ls) ++ (if ends then [NL] else []))
    (λ t _, t = Exit 1) s.
Proof.
  intros Hasks Henv. unfold tail_main, permuted, getopt_env. rewrite Henv. destruct Hasks as [prog file Hop|prog num file Hop|prog num file Hnum]; cbn [length Nat.eqb andb orb tail].
  - rewrite (permute_operands opts [file]) by (cbn; by rewrite Hop). apply wp_bind, wp_ret. cbn. rewrite Hop. apply wp_tail_file.
  - change (str "-n") with ["-"%char; "n"%char]. rewrite (permute_with opts "n"%char num [file]) by done. rewrite (permute_operands opts [file]) by (cbn; by rewrite Hop).
    cbn [fst snd take_options take_option]. apply wp_bind, wp_bind, wp_ret, wp_ret. rewrite option_words_n by done. apply wp_tail_file.
  - change (default [] ([prog; num; file] !! 1%nat)) with num. rewrite (proj2 (Z.eqb_neq _ _)) by lia. rewrite (proj2 (Z.ltb_lt 0 (atoi num * -1))) by lia. cbn.
    replace (atoi num * -1) with (- atoi num) by lia. apply wp_tail_file.
Qed.

(** A file of three lines, with a newline at its end or without. *)
Definition three_lines (ends : bool) : cstr := join [str "one"; str "two"; str "three"] ++ (if ends then [NL] else []).
Definition file_os (content : cstr) : os := test_os (λ _ c,
  match c with
  | Copen _ _ _ => ok 3
  | Cread _ n => let d := take (Z.to_nat n) content in Reply (strlen d) 0 d []
  | Cwrite _ bs => ok (strlen bs)
  | _ => ok 0
  end).

Lemma tail_witness :
  ∃ s' f r w k text, @tail_main unit (file_os (three_lines false)) [str "tail"; str "-n"; str "2"; str "log"] (init tt) = (Ret 0, s') ∧
    acted (init tt) [(Copen (str "log") O_RDONLY 0, f); (Cread (rv f) 1024, r); (Cwrite 1 text, w); (Cclose (rv f), k)] s' ∧
    text = join [str "two"; str "three"].
Proof.
  pose proof (@tail_correct unit (file_os (three_lines false)) [str "tail"; str "-n"; str "2"; str "log"] (str "log") (atoi (str "2")) (init tt)
    ltac:(by apply Asks_n) eq_refl) as H.
  apply wp_run in H as [(z & s' & Hrun & -> & f & r & w & k & text & Ha & Htext)|(t & s' & Hrun & ->)].
  - exists s', f, r, w, k, text. split; [exact Hrun|]. split; [exact Ha|].
    assert (data_of r = three_lines false) as Hr.
    { apply (f_equal snd) in Hrun. cbn [snd] in Hrun. destruct Ha as [Ha _]. rewrite <-Hrun in Ha. vm_compute in Ha. injection Ha as _ _ Hr _ _ _. rewrite <-Hr. vm_compute. reflexivity. }
    rewrite (Htext [str "one"; str "two"; str "three"] false Hr); [vm_compute; reflexivity|discriminate|].
    repeat (apply Forall_cons_2; [split; [discriminate|apply (bool_decide_unpack _); vm_compute; exact I]|]). apply Forall_nil_2.
  - exfalso. apply (f_equal fst) in Hrun. vm_compute in Hrun. discriminate Hrun.
Defined.

(** Of a file that ends with a newline two lines are one, and one is all. *)
Example tail_one_less :
  let shown num := calls (trace (@tail_main unit (file_os (three_lines true)) [str "tail"; str "-n"; num; str "log"] (init tt)).2) !! 2%nat in
  shown (str "2") = Some (Cwrite 1 (str "three" ++ [NL]), ok 6) ∧ shown (str "1") = Some (Cwrite 1 (three_lines true), ok 14).
Proof. split; vm_compute; reflexivity. Qed.
