(* ===== verification/BinarySems.v ===== *)
(** Binary semaphores and event flags over System V semaphores:
    tlpi-book/lib/binary_sems.c and tlpi-book/lib/event_flags.c. *)
From S2P Require Import Prelude Sys.

(** The two static switches of binary_sems.c. *)
Record bs := Bs { bsUseSemUndo : bool; bsRetryOnEintr : bool }.
Definition bs_initial : bs := Bs false true.

Definition SEM_UNDO : Z := 4096.

Section Functions.
Context `{os}.

Definition sem_flg : M bs Z := g ← get; mret (if bsUseSemUndo g then SEM_UNDO else 0).

Definition initSemAvailable (semId semNum : Z) : M bs Z :=
  r ← sys (Csemctl_setval semId semNum 1); mret (rv r).

Definition initSemInUse (semId semNum : Z) : M bs Z :=
  r ← sys (Csemctl_setval semId semNum 0); mret (rv r).

(** [while (semop (...) == -1) if (errno != EINTR || !retry) return -1;
    return 0;] *)
Definition semop_retry {S} (fuel : nat) (retry : bool) (c : call) : M S Z :=
  loop fuel (λ _ : unit,
    r ← sys c;
    if rv r =? -1 then
      e ← get_errno;
      if negb (e =? EINTR) || negb retry then mret (inr (-1)) else mret (inl tt)
    else mret (inr 0)) tt.

Definition reserveSem (fuel : nat) (semId semNum : Z) : M bs Z :=
  flg ← sem_flg;
  g ← get;
  semop_retry fuel (bsRetryOnEintr g) (Csemop semId semNum (-1) flg).

Definition releaseSem (semId semNum : Z) : M bs Z :=
  flg ← sem_flg;
  r ← sys (Csemop semId semNum 1 flg); mret (rv r).

Definition waitForEventFlag {S} (fuel : nat) (semId semNum : Z) : M S Z :=
  semop_retry fuel true (Csemop semId semNum 0 0).

Definition clearEventFlag {S} (semId semNum : Z) : M S Z :=
  r ← sys (Csemctl_setval semId semNum 1); mret (rv r).

Definition setEventFlag {S} (semId semNum : Z) : M S Z :=
  r ← sys (Csemctl_setval semId semNum 0); mret (rv r).

(** The second component is [*isSet], when it is written. *)
Definition getFlagState {S} (semId semNum : Z) : M S (Z * option bool) :=
  r ← sys (Csemctl_getval semId semNum);
  if rv r =? -1 then mret (-1, None) else mret (0, Some (rv r =? 0)).
End Functions.

(** ** Waiting *)

(** A call that a signal handler interrupted, and the promise that this does
    not go on for ever: at most [n] times in a history. *)
Definition interrupted (c : call) (x : call * reply) : Prop :=
  x.1 = c ∧ rv x.2 = -1 ∧ rerr x.2 = EINTR.
#[export] Instance interrupted_dec c x : Decision (interrupted c x).
Proof.
  unfold interrupted. assert (Decision (x.1 = c)) by (unfold Decision; repeat decide equality). apply _.
Defined.

Definition interruptions (c : call) (tr : list event) : nat := length (filter (interrupted c) (calls tr)).

Class Patient `{os} (c : call) (n : nat) :=
  patient : ∀ tr, (n <= interruptions c tr)%nat → rv (kern tr c) = -1 → rerr (kern tr c) ≠ EINTR.

(** How a wait ends: after interruptions, all retried, by a call that
    succeeds, or fails for good. *)
Definition waited (c : call) (retry : bool) (l : list (call * reply)) (z : Z) : Prop :=
  ∃ pre r, l = pre ++ [(c, r)] ∧ Forall (interrupted c) pre ∧ (retry = false → pre = []) ∧
    if rv r =? -1 then z = -1 ∧ (retry = true → rerr r ≠ EINTR) else z = 0.

Lemma wp_semop_retry {S} `{os} c n `{!Patient c n} fuel retry (s : st S) Q E :
  (n < fuel)%nat →
  (∀ z l s', glob s' = glob s → calls (trace s') = calls (trace s) ++ l → waited c retry l z →
    (z = -1 → ∃ r, last l = Some (c, r) ∧ errno s' = rerr r) → Q z s') →
  wp (semop_retry fuel retry c) Q E s.
Proof.
  intros Hn HQ.
  apply (wp_loop (λ _ s1, glob s1 = glob s ∧ ∃ pre, calls (trace s1) = calls (trace s) ++ pre ∧
      Forall (interrupted c) pre ∧ (retry = false → pre = []))
    (λ _ s1, n - interruptions c (trace s1))%nat); [|lia|].
  { split; [done|]. exists []. by rewrite app_nil_r. }
  intros [] s1 (G1 & pre & C1 & Hpre & Hret). apply wp_bind, wp_call. intros r s2 Hr G2 E2 C2 _.
  assert (Hend : ∀ z, (if rv r =? -1 then z = -1 ∧ (retry = true → rerr r ≠ EINTR) else z = 0) → Q z s2).
  { intros z Hz. apply (HQ z (pre ++ [(c, r)])); [congruence|by rewrite C2, C1, app_assoc|by exists pre, r|].
    intros ->. exists r. rewrite last_snoc. split; [done|]. destruct (Z.eqb_spec (rv r) (-1)); [auto|done]. }
  destruct (Z.eqb_spec (rv r) (-1)) as [Er|Er]; [|by apply wp_ret, Hend].
  apply wp_bind, wp_get_errno. rewrite (E2 Er).
  destruct (Z.eqb_spec (rerr r) EINTR) as [Ei|Ei]; simpl; [|by apply wp_ret, Hend].
  destruct retry; simpl; [|by apply wp_ret, Hend].
  assert (Hi : interrupted c (c, r)) by done. apply wp_ret. split.
  - split; [congruence|]. exists (pre ++ [(c, r)]). split_and!; [by rewrite C2, C1, app_assoc| |done].
    apply Forall_app. auto.
  - destruct (decide (n <= interruptions c (trace s1))%nat) as [Hle|Hlt].
    + subst r. by destruct (patient (c:=c) (n:=n) _ Hle Er).
    + unfold interruptions in *. rewrite C2, filter_app, length_app.
      rewrite filter_cons_True by done. simpl. lia.
Qed.

(** The function reserveSem decrements the semaphore exactly once, or reports why it
    could not: interruptions by signal handlers are retried if the switch asks
    for it and reported if not, and the wait ends if they do. *)
Theorem reserveSem_correct `{os} semId semNum (s : st bs) n fuel :
  let c := Csemop semId semNum (-1) (if bsUseSemUndo (glob s) then SEM_UNDO else 0) in
  Patient c n → (n < fuel)%nat →
  ∃ z l s', reserveSem fuel semId semNum s = (Ret z, s') ∧
    calls (trace s') = calls (trace s) ++ l ∧ waited c (bsRetryOnEintr (glob s)) l z ∧
    (z = -1 → ∃ r, last l = Some (c, r) ∧ errno s' = rerr r).
Proof.
  intros c HP Hn.
  assert (wp (reserveSem fuel semId semNum) (λ z s', ∃ l, calls (trace s') = calls (trace s) ++ l ∧
    waited c (bsRetryOnEintr (glob s)) l z ∧ (z = -1 → ∃ r, last l = Some (c, r) ∧ errno s' = rerr r))
    (λ _ _, False) s) as W.
  { unfold reserveSem, sem_flg. apply wp_bind, wp_bind, wp_get, wp_ret, wp_bind, wp_get.
    eapply wp_semop_retry; [exact HP|done|]. intros z l s' _. eauto. }
  destruct (wp_run _ _ _ _ W) as [(z & s' & E & l & ?)|(? & ? & _ & [])]. exists z, l, s'. tauto.
Qed.

(** Two interruptions, then the semaphore. *)
Definition busy_os : os := test_os (λ tr c,
  if decide (length (calls tr) < 2)%nat then fail EINTR else ok 0).
Lemma busy_Patient c : @Patient busy_os c 2.
Proof.
  intros tr H. unfold interruptions in H. simpl. rewrite decide_False; [done|].
  pose proof (length_filter (interrupted c) (calls tr)). lia.
Qed.

Theorem reserveSem_witness :
  ∃ z l s', @reserveSem busy_os 3 7 0 (init bs_initial) = (Ret z, s') ∧
    calls (trace s') = [] ++ l ∧ waited (Csemop 7 0 (-1) 0) true l z ∧
    (z = -1 → ∃ r, last l = Some (Csemop 7 0 (-1) 0, r) ∧ errno s' = rerr r).
Proof. apply (@reserveSem_correct busy_os 7 0 (init bs_initial) 2 3 (busy_Patient _)). lia. Defined.
