(* ===== verification/SvshmXfr.v ===== *)
(** The transfer of a stream through shared memory, tlpi-book/svshm:
    svshm_xfr_writer.c and svshm_xfr_reader.c, two processes that take turns
    by two binary semaphores.

    The processes run interleaved, one access to a shared object at a time:
    each has a program counter, and a transition system over both is the
    program.  Semaphore operations are atomic, blocking at zero, as
    BinarySems.v has them; what a signal handler can do to them is settled
    there. *)
From S2P Require Import Prelude.

Definition BUF_SIZE : nat := 1024.

(** Where the processes are: the name is the next thing they do. *)
Inductive wpc := W_init_write | W_init_read | W_reserve | W_read | W_store (n : nat) | W_release
  | W_test | W_next | W_last | W_rmsem | W_rmshm | W_done | W_failed.
Inductive rpc := R_reserve | R_test | R_count | R_write | R_release | R_next
  | R_detach | R_last | R_done | R_failed.

Record xfr := Xfr {
  write_sem : nat; read_sem : nat;       (* WRITE_SEM, READ_SEM *)
  cnt : nat; buf : cstr;                 (* struct shmseg *)
  input : cstr; output : cstr;           (* what is left of stdin; stdout *)
  wp : wpc; wbytes : Z; wxfrs : Z;
  rp : rpc; rbytes : Z; rxfrs : Z;
  removed : bool }.                      (* the IPC objects are gone *)

Definition incr (z : Z) (n : nat) : Z := wrap_s 32 (z + Z.of_nat n).

(** One step of the writer; [k] is the number of bytes its read(2) gets, which
    is 0 at the end of the input only. *)
Definition writer_step (k : nat) (s : xfr) : option xfr :=
  let 'Xfr w r c b i o p wb wx q rb rx d := s in
  match p with
  | W_init_write => Some (Xfr 1 r c b i o W_init_read wb wx q rb rx d)
  | W_init_read => Some (Xfr w 0 c b i o W_reserve wb wx q rb rx d)
  | W_reserve =>
      match w with O => None | S w => Some (Xfr w r c b i o W_read wb wx q rb rx d) end
  | W_read =>
      if bool_decide (k <= BUF_SIZE ∧ k <= length i ∧ (k = 0 → i = []))%nat
      then Some (Xfr w r c (take k i ++ drop k b) (drop k i) o (W_store k) wb wx q rb rx d)
      else None
  | W_store n => Some (Xfr w r n b i o W_release wb wx q rb rx d)
  | W_release => Some (Xfr w (S r) c b i o W_test wb wx q rb rx d)
  | W_test => Some (Xfr w r c b i o (match c with O => W_last | _ => W_next end) wb wx q rb rx d)
  | W_next => Some (Xfr w r c b i o W_reserve (incr wb c) (incr wx 1) q rb rx d)
  | W_last =>
      match w with O => None | S w => Some (Xfr w r c b i o W_rmsem wb wx q rb rx d) end
  | W_rmsem => Some (Xfr w r c b i o W_rmshm wb wx q rb rx true)
  | W_rmshm => Some (Xfr w r c b i o W_done wb wx q rb rx d)
  | W_done | W_failed => None
  end.

(** One step of the reader; [k] is the number of bytes its write(2) takes. *)
Definition reader_step (k : nat) (s : xfr) : option xfr :=
  let 'Xfr w r c b i o p wb wx q rb rx d := s in
  match q with
  | R_reserve =>
      if d then Some (Xfr w r c b i o p wb wx R_failed rb rx d) else
      match r with O => None | S r => Some (Xfr w r c b i o p wb wx R_test rb rx d) end
  | R_test => Some (Xfr w r c b i o p wb wx (match c with O => R_detach | _ => R_count end) rb rx d)
  | R_count => Some (Xfr w r c b i o p wb wx R_write (incr rb c) rx d)
  | R_write =>
      if bool_decide (k <= c)%nat
      then Some (Xfr w r c b i (o ++ take k b) p wb wx (if bool_decide (k = c) then R_release else R_failed) rb rx d)
      else None
  | R_release =>
      if d then Some (Xfr w r c b i o p wb wx R_failed rb rx d)
      else Some (Xfr (S w) r c b i o p wb wx R_next rb rx d)
  | R_next => Some (Xfr w r c b i o p wb wx R_reserve rb (incr rx 1) d)
  | R_detach => Some (Xfr w r c b i o p wb wx R_last rb rx d)
  | R_last =>
      if d then Some (Xfr w r c b i o p wb wx R_failed rb rx d)
      else Some (Xfr (S w) r c b i o p wb wx R_done rb rx d)
  | R_done | R_failed => None
  end.

(** A call that fails ends its process (errExit, fatal); the other one goes
    on. *)
Definition writer_fails (s : xfr) : xfr :=
  let 'Xfr w r c b i o p wb wx q rb rx d := s in Xfr w r c b i o W_failed wb wx q rb rx d.
Definition reader_fails (s : xfr) : xfr :=
  let 'Xfr w r c b i o p wb wx q rb rx d := s in Xfr w r c b i o p wb wx R_failed rb rx d.

Definition w_running (s : xfr) : Prop := wp s ≠ W_done ∧ wp s ≠ W_failed.
Definition r_running (s : xfr) : Prop := rp s ≠ R_done ∧ rp s ≠ R_failed.

Inductive step : xfr → xfr → Prop :=
  | By_writer k s s' : writer_step k s = Some s' → step s s'
  | By_reader k s s' : reader_step k s = Some s' → step s s'
  | Writer_fails s : w_running s → step s (writer_fails s)
  | Reader_fails s : r_running s → step s (reader_fails s).

(** The objects are new: semaphores zero, memory zero. *)
Definition initial (data : cstr) : xfr :=
  Xfr 0 0 0 [] data [] W_init_write 0 0 R_reserve 0 0 false.

Inductive reachable (data : cstr) : xfr → Prop :=
  | Start : reachable data (initial data)
  | Next s s' : reachable data s → step s s' → reachable data s'.

(** ** The invariant *)

(** What is reported after the blocks [bs]. *)
Definition bytes_of (bs : list cstr) : Z := wrap_s 32 (Z.of_nat (length (concat bs))).
Definition xfrs_of (bs : list cstr) : Z := wrap_s 32 (Z.of_nat (length bs)).

Lemma incr_wrap a n : incr (wrap_s 32 (Z.of_nat a)) n = wrap_s 32 (Z.of_nat (a + n)).
Proof.
  unfold incr, wrap_s. rewrite Nat2Z.inj_add. f_equal.
  set (m := 2 ^ 32). set (h := 2 ^ (32 - 1)).
  replace ((Z.of_nat a + h) mod m - h + Z.of_nat n + h) with ((Z.of_nat a + h) mod m + Z.of_nat n) by lia.
  rewrite Zplus_mod_idemp_l. f_equal. lia.
Qed.

Lemma bytes_of_snoc bs x : incr (bytes_of bs) (length x) = bytes_of (bs ++ [x]).
Proof.
  unfold bytes_of. rewrite incr_wrap, concat_app, length_app. simpl. by rewrite app_nil_r.
Qed.
Lemma xfrs_of_snoc bs x : incr (xfrs_of bs) 1 = xfrs_of (bs ++ [x]).
Proof. unfold xfrs_of. by rewrite incr_wrap, length_app. Qed.

(** The writer between its turns, all of [bs] handed over, the last block
    counted or not; [c] is the size of the last block. *)
Inductive w_between (bs : list cstr) (c : nat) : wpc → Z → Z → Prop :=
  | Counted : w_between bs c W_reserve (bytes_of bs) (xfrs_of bs)
  | Uncounted p bs' x : bs = bs' ++ [x] → c = length x → c ≠ O → p = W_test ∨ p = W_next →
      w_between bs c p (bytes_of bs') (xfrs_of bs')
  | W_dead wb wx : w_between bs c W_failed wb wx.

(** The writer after it handed over the end of the input. *)
Inductive w_ending (bs : list cstr) : wpc → Z → Z → Prop :=
  | Ending p : p = W_test ∨ p = W_last → w_ending bs p (bytes_of bs) (xfrs_of bs)
  | W_dead_ending wb wx : w_ending bs W_failed wb wx.

(** The writer after the block [x], empty at the end. *)
Definition w_after (bs : list cstr) (x : cstr) : wpc → Z → Z → Prop :=
  match x with [] => w_ending bs | _ => w_between (bs ++ [x]) (length x) end.

(** The writer in its turn: [x] is what it read. *)
Inductive w_turn (b i : cstr) (bs : list cstr) (c : nat) (x : cstr) : wpc → Z → Z → Prop :=
  | Reading : x = [] → w_turn b i bs c x W_read (bytes_of bs) (xfrs_of bs)
  | Storing : x = take (length x) b → (x = [] → i = []) →
      w_turn b i bs c x (W_store (length x)) (bytes_of bs) (xfrs_of bs)
  | Releasing : x = take (length x) b → (x = [] → i = []) → c = length x →
      w_turn b i bs c x W_release (bytes_of bs) (xfrs_of bs)
  | W_dead_turn wb wx : w_turn b i bs c x W_failed wb wx.

(** The reader between its turns, the last block counted or not. *)
Inductive r_between (bs : list cstr) : rpc → Z → Z → Prop :=
  | R_counted : r_between bs R_reserve (bytes_of bs) (xfrs_of bs)
  | R_uncounted bs' x : bs = bs' ++ [x] → r_between bs R_next (bytes_of bs) (xfrs_of bs').

(** The reader in its turn, with the block [x]; [o] is the output. *)
Inductive r_turn (bs : list cstr) (x : cstr) : rpc → Z → Z → cstr → Prop :=
  | Testing : r_turn bs x R_test (bytes_of bs) (xfrs_of bs) (concat bs)
  | Counting : x ≠ [] → r_turn bs x R_count (bytes_of bs) (xfrs_of bs) (concat bs)
  | Writing : x ≠ [] → r_turn bs x R_write (bytes_of (bs ++ [x])) (xfrs_of bs) (concat bs)
  | R_releasing : x ≠ [] → r_turn bs x R_release (bytes_of (bs ++ [x])) (xfrs_of bs) (concat bs ++ x)
  | R_leaving q : x = [] → q = R_detach ∨ q = R_last →
      r_turn bs x q (bytes_of bs) (xfrs_of bs) (concat bs).

Inductive w_leaving (bs : list cstr) : bool → wpc → Z → Z → Prop :=
  | Leaving d p : (p = W_rmsem ∧ d = false ∨ p = W_rmshm ∧ d = true ∨ p = W_done ∧ d = true) →
      w_leaving bs d p (bytes_of bs) (xfrs_of bs)
  | W_dead_leaving d wb wx : w_leaving bs d W_failed wb wx.

(** Whose turn it is, and what that says of everything else.  [bs] are the
    blocks the reader has seen, or is about to see. *)
Inductive inv (data : cstr) : xfr → Prop :=
  | I_init p w c b : p = W_init_write ∧ w = O ∨ p = W_init_read ∧ w = 1%nat ∨ p = W_failed →
      inv data (Xfr w 0 c b data [] p 0 0 R_reserve 0 0 false)
  | I_write_free bs c b i p wb wx q rb rx :
      data = concat bs ++ i → w_between bs c p wb wx → r_between bs q rb rx →
      inv data (Xfr 1 0 c b i (concat bs) p wb wx q rb rx false)
  | I_writing bs x c b i p wb wx q rb rx :
      data = concat bs ++ x ++ i → w_turn b i bs c x p wb wx → r_between bs q rb rx →
      inv data (Xfr 0 0 c b i (concat bs) p wb wx q rb rx false)
  | I_read_free bs x b i p wb wx q rb rx :
      data = concat bs ++ x ++ i → x = take (length x) b → (x = [] → i = []) →
      w_after bs x p wb wx → r_between bs q rb rx →
      inv data (Xfr 0 1 (length x) b i (concat bs) p wb wx q rb rx false)
  | I_reading bs x b i o p wb wx q rb rx :
      data = concat bs ++ x ++ i → x = take (length x) b → (x = [] → i = []) →
      w_after bs x p wb wx → r_turn bs x q rb rx o →
      inv data (Xfr 0 0 (length x) b i o p wb wx q rb rx false)
  | I_finished bs b p wb wx :
      data = concat bs → w_ending bs p wb wx →
      inv data (Xfr 1 0 0 b [] data p wb wx R_done (bytes_of bs) (xfrs_of bs) false)
  | I_leaving bs b p wb wx d :
      data = concat bs → w_leaving bs d p wb wx →
      inv data (Xfr 0 0 0 b [] data p wb wx R_done (bytes_of bs) (xfrs_of bs) d)
  | I_broken s : rp s = R_failed → output s `prefix_of` data → inv data s.

(** ** The invariant holds *)

Lemma inv_output data s : inv data s → output s `prefix_of` data.
Proof.
  destruct 1 as [| | | |bs x b i o p wb wx q rb rx Hd Hb He Hw Hr| | |]; simpl; subst;
    try done; try apply prefix_nil; try by eexists.
  destruct Hr; try by eexists. exists i. by rewrite app_assoc.
Qed.

Lemma writer_step_reader k s s' : writer_step k s = Some s' → rp s' = rp s ∧ output s' = output s.
Proof. destruct s as [w r c b i o p]; simpl. intros E. repeat (case_match; simplify_eq/=); done. Qed.

Create HintDb xfr.
#[local] Hint Constructors inv w_between w_ending w_turn r_between r_turn w_leaving : xfr.

Lemma inv_reading data bs c b i k q rb rx :
  data = concat bs ++ i → (k <= length i)%nat → (k = 0%nat → i = []) → r_between bs q rb rx →
  inv data (Xfr 0 0 c (take k i ++ drop k b) (drop k i) (concat bs) (W_store k)
    (bytes_of bs) (xfrs_of bs) q rb rx false).
Proof.
  intros -> Hk H0 Hr. assert (L : length (take k i) = k) by (rewrite length_take; lia).
  pose proof (Storing (take k i ++ drop k b) (drop k i) bs c (take k i)) as Hw.
  rewrite L in Hw. eapply (I_writing _ bs (take k i)); [by rewrite take_drop| |done].
  apply Hw; [by rewrite take_app_length'|].
  intros E. rewrite E in L. rewrite (H0 (eq_sym L)). apply drop_nil.
Qed.

Lemma w_after_test bs x : w_after bs x W_test (bytes_of bs) (xfrs_of bs).
Proof. destruct x; [constructor; auto|eapply Uncounted; [done|done|done|auto]]. Qed.

Lemma w_after_step bs x p wb wx :
  w_after bs x p wb wx →
  (p = W_test → w_after bs x (match length x with O => W_last | _ => W_next end) wb wx) ∧
  (p = W_next → w_after bs x W_reserve (incr wb (length x)) (incr wx 1)).
Proof.
  intros H. destruct x as [|a x].
  - destruct H as [? [-> | ->]|]; split; try done; intros _; constructor; auto.
  - destruct H as [|p' bs' y Hy Hl Hn Hp|]; split; try done; intros ->.
    + eapply Uncounted; [done..|auto].
    + rewrite Hl, bytes_of_snoc, (xfrs_of_snoc _ y), <-Hy. constructor.
Qed.

Lemma w_after_pc bs x p wb wx :
  w_after bs x p wb wx → p = W_test ∨ p = W_next ∨ p = W_reserve ∨ p = W_last ∨ p = W_failed.
Proof. destruct x; simpl; destruct 1; tauto. Qed.

Lemma inv_writer data k s s' : inv data s → writer_step k s = Some s' → inv data s'.
Proof.
  destruct 1 as [p w c b Hp|bs c b i p wb wx q rb rx Hd Hw Hr|bs x c b i p wb wx q rb rx Hd Hw Hr
    |bs x b i p wb wx q rb rx Hd Hb He Hw Hr|bs x b i o p wb wx q rb rx Hd Hb He Hw Hr
    |bs b p wb wx Hd Hw|bs b p wb wx d Hd Hw|s Hq Ho]; simpl; intros E.
  - destruct Hp as [[-> ->]|[[-> ->]| ->]]; simplify_eq; [apply I_init; auto|].
    apply (I_write_free data [] c b data); [done|constructor..].
  - destruct Hw as [|p bs' x Hb Hc Hn [-> | ->]|]; simplify_eq.
    + eapply (I_writing _ bs []); [by simpl|by constructor|done].
    + eapply I_write_free; [done| |done]. destruct x; [done|]. simpl. eapply Uncounted; eauto.
    + eapply I_write_free; [done| |done]. rewrite bytes_of_snoc, (xfrs_of_snoc _ x). constructor.
  - destruct Hw as [->|Hx Hxi|Hx Hxi ->|]; simplify_eq.
    + case_bool_decide as Hk; [|done]. destruct Hk as (_ & Hk & H0). simplify_eq. by apply inv_reading.
    + eapply I_writing; [done|by constructor|done].
    + eapply I_read_free; [done..|apply w_after_test|done].
  - destruct (w_after_step _ _ _ _ _ Hw) as [Ht Hn].
    destruct (w_after_pc _ _ _ _ _ Hw) as [-> |[-> |[-> |[-> | ->]]]]; simplify_eq; eapply I_read_free; eauto.
  - destruct (w_after_step _ _ _ _ _ Hw) as [Ht Hn].
    destruct (w_after_pc _ _ _ _ _ Hw) as [-> |[-> |[-> |[-> | ->]]]]; simplify_eq; eapply I_reading; eauto.
  - destruct Hw as [p [-> | ->]|]; simplify_eq.
    + apply I_finished; [done|constructor; auto].
    + apply I_leaving; [done|constructor; auto].
  - destruct Hw as [d p [[-> ->]|[[-> ->]|[-> ->]]]|]; simplify_eq; apply I_leaving; try done; constructor; auto.
  - destruct (writer_step_reader _ _ _ E) as [Eq Eo]. apply I_broken; congruence.
Qed.

(** The block the reader writes is a prefix of what the buffer holds. *)
Lemma take_block (x b : cstr) k : x = take (length x) b → (k <= length x)%nat → take k b = take k x.
Proof. intros Hx Hk. rewrite Hx, take_take. f_equal. lia. Qed.

Lemma inv_reader data k s s' : inv data s → reader_step k s = Some s' → inv data s'.
Proof.
  destruct 1 as [p w c b Hp|bs c b i p wb wx q rb rx Hd Hw Hr|bs x c b i p wb wx q rb rx Hd Hw Hr
    |bs x b i p wb wx q rb rx Hd Hb He Hw Hr|bs x b i o p wb wx q rb rx Hd Hb He Hw Hr
    |bs b p wb wx Hd Hw|bs b p wb wx d Hd Hw|s Hq Ho]; simpl; intros E; try done.
  - destruct Hr as [|bs' x ->]; simplify_eq. rewrite (xfrs_of_snoc _ x).
    eapply I_write_free; [done|done|constructor].
  - destruct Hr as [|bs' y ->]; simplify_eq. rewrite (xfrs_of_snoc _ y).
    eapply I_writing; [done|done|constructor].
  - destruct Hr as [|bs' y ->]; simplify_eq.
    + eapply I_reading; [done..|constructor].
    + rewrite (xfrs_of_snoc _ y). eapply I_read_free; [done..|constructor].
  - destruct Hr as [| | | |q -> [-> | ->]]; simplify_eq.
    + eapply I_reading; [done..|]. destruct x; constructor; auto.
    + rewrite bytes_of_snoc. eapply I_reading; [done..|by constructor].
    + case_bool_decide as Hk; [|done]. simplify_eq. rewrite (take_block x b k Hb Hk).
      case_bool_decide as Hkx; subst.
      * rewrite take_ge by done. eapply I_reading; [done..|by constructor].
      * apply I_broken; [done|]. simpl. rewrite app_assoc. apply prefix_app_r.
        apply prefix_app. apply prefix_take.
    + replace (concat bs ++ x) with (concat (bs ++ [x])) by (rewrite concat_app; simpl; by rewrite app_nil_r).
      eapply I_write_free; [|by destruct x|by econstructor].
      rewrite concat_app. simpl. by rewrite app_nil_r, <-app_assoc.
    + eapply I_reading; [done..|constructor; auto].
    + rewrite He, app_nil_r by done. apply I_finished; [done|exact Hw].
  - destruct s as [w r c b i o p wb wx q rb rx d]. simpl in *. by subst.
Qed.

Lemma inv_fails data s : inv data s → inv data (writer_fails s) ∧ inv data (reader_fails s).
Proof.
  intros H. split; [|apply I_broken; [by destruct s|by destruct s; apply (inv_output _ _ H)]].
  destruct H as [p w c b Hp| | | | | | |[] Hq Ho]; [apply I_init; auto|..]; simpl; eauto using inv, W_dead, W_dead_turn, W_dead_ending, W_dead_leaving.
  - eapply I_read_free; eauto. destruct x; constructor.
  - eapply I_reading; eauto. destruct x; constructor.
Qed.

Lemma reachable_inv data s : reachable data s → inv data s.
Proof.
  induction 1 as [|s s' _ IH Hs]; [apply I_init; auto|].
  destruct Hs; [by eapply inv_writer|by eapply inv_reader|by apply inv_fails|by apply inv_fails].
Qed.

(** ** Progress and termination *)

(** A bound on the steps left: a byte of input pays for a round of both
    processes. *)
Definition w_weight (c : nat) (p : wpc) : nat :=
  let full n := bool_decide (n ≠ 0%nat) in
  match p with
  | W_init_write => 60 | W_init_read => 40
  | W_reserve => 30 | W_read => 35
  | W_store n => if full n then 50 else 21
  | W_release => if full c then 49 else 20
  | W_test => if full c then 32 else 3
  | W_next => 31 | W_last => 2
  | W_rmsem => 4 | W_rmshm => 3 | W_done => 0 | W_failed => 0
  end.
Definition r_weight (q : rpc) : nat :=
  match q with
  | R_reserve => 1 | R_test => 16 | R_count => 15 | R_write => 14 | R_release => 13 | R_next => 2
  | R_detach => 13 | R_last => 12 | R_done => 0 | R_failed => 0
  end.
Definition measure (s : xfr) : nat :=
  (16 * length (input s) + 10 * write_sem s + 16 * read_sem s + w_weight (cnt s) (wp s) + r_weight (rp s))%nat.

(** Both ended, neither by an error. *)
Definition completed (s : xfr) : Prop := wp s = W_done ∧ rp s = R_done.

#[local] Arguments Nat.mul : simpl never.

Lemma step_decreases s s' : step s s' → (measure s' < measure s)%nat.
Proof.
  destruct 1 as [k s s' E|k s s' E|s Hs|s Hs]; destruct s as [w r c b i o p wb wx q rb rx d];
    unfold measure; simpl in E || simpl.
  - destruct p; try (destruct w); repeat (case_match || case_bool_decide); simplify_eq/=;
      repeat case_bool_decide; rewrite ?length_drop; lia.
  - destruct q; try (destruct r); try (destruct d); repeat (case_match || case_bool_decide); simplify_eq/=; lia.
  - destruct Hs as [H1 H2]. simpl in *. destruct p; simpl; try done; repeat case_bool_decide; lia.
  - destruct Hs as [H1 H2]. simpl in *. destruct q; simpl; try done; lia.
Qed.

(** A process can go on, or waits for the other one. *)
Lemma inv_progress data s :
  inv data s → wp s ≠ W_failed → rp s ≠ R_failed →
  completed s ∨ (∃ k s', writer_step k s = Some s' ∧ wp s' ≠ W_failed ∧ rp s' ≠ R_failed) ∨
  (∃ k s', reader_step k s = Some s' ∧ wp s' ≠ W_failed ∧ rp s' ≠ R_failed).
Proof.
  destruct 1 as [p w c b Hp|bs c b i p wb wx q rb rx Hd Hw Hr|bs x c b i p wb wx q rb rx Hd Hw Hr
    |bs x b i p wb wx q rb rx Hd Hb He Hw Hr|bs x b i o p wb wx q rb rx Hd Hb He Hw Hr
    |bs b p wb wx Hd Hw|bs b p wb wx d Hd Hw|s Hq Ho]; simpl; intros Nw Nr; try done.
  - right; left. exists 0%nat. destruct Hp as [[-> ->]|[[-> ->]| ->]]; try done; by eexists.
  - right; left. exists 0%nat. destruct Hw as [|p bs' x _ Hc Hn [-> | ->]|]; try done; eexists;
      (split; [done|]); simpl; (split; [by destruct c|done]).
  - right; left. destruct Hw as [_| | |]; [|exists 0%nat; by eexists..|done].
    exists (BUF_SIZE `min` length i)%nat. eexists. cbn [writer_step]. rewrite bool_decide_true; [by split|].
    split_and!; [lia|lia|]. intros E. destruct i; [done|]. unfold BUF_SIZE in E. simpl in E. lia.
  - right; right. exists 0%nat. destruct Hr; by eexists.
  - right; right. destruct Hr as [|Hx|Hx|Hx|q -> [-> | ->]].
    + exists 0%nat. eexists. split; [done|]. split; [done|]. by destruct x.
    + exists 0%nat. by eexists.
    + exists (length x). eexists. cbn [reader_step]. by rewrite !bool_decide_true by lia.
    + exists 0%nat. by eexists.
    + exists 0%nat. by eexists.
    + exists 0%nat. by eexists.
  - right; left. exists 0%nat. destruct Hw as [p [-> | ->]|]; try done; by eexists.
  - destruct Hw as [d p [[-> ->]|[[-> ->]|[-> ->]]]|]; [right; left; exists 0%nat; by eexists..|by left|done].
Qed.

Lemma inv_completed data s :
  inv data s → completed s →
  output s = data ∧ ∃ bs, data = concat bs ∧
    wbytes s = bytes_of bs ∧ rbytes s = bytes_of bs ∧ wxfrs s = xfrs_of bs ∧ rxfrs s = xfrs_of bs.
Proof.
  intros H [Hw Hr].
  destruct H as [p w c b Hp|bs c b i p wb wx q rb rx Hd Hb Hq|bs x c b i p wb wx q rb rx Hd Hb Hq
    |bs x b i p wb wx q rb rx Hd Hb He Ha Hq|bs x b i o p wb wx q rb rx Hd Hb He Ha Hq
    |bs b p wb wx Hd Ha|bs b p wb wx d Hd Hl|s Hq Ho]; simpl in *; subst; try done; try (by inversion Hq).
  - inversion Hq as [| | | |q' _ [? | ?]]; subst; done.
  - inversion Ha as [p' [? | ?]|]; subst; done.
  - inversion Hl; subst; try done. split; [done|]. by exists bs.
  - congruence.
Qed.

(** A run by choices of which process goes and how much it transfers; a
    process that has to wait does nothing. *)
Definition turn (s : xfr) (a : bool * nat) : xfr :=
  default s ((if a.1 then writer_step else reader_step) a.2 s).

Lemma turns_reachable data l s : reachable data s → reachable data (foldl turn s l).
Proof.
  revert s; induction l as [|[[] k] l IH]; intros s Hs; [done|..]; apply IH; unfold turn; simpl.
  - destruct (writer_step k s) as [s1|] eqn:E; [|done]. eapply Next; [done|]. by eapply By_writer.
  - destruct (reader_step k s) as [s1|] eqn:E; [|done]. eapply Next; [done|]. by eapply By_reader.
Qed.

(** ** The properties *)

(** C28: whatever the interleaving, the sizes of the reads, short writes and
    failures of either process: what the reader has written is a prefix of the
    input; the IPC objects are removed only when the reader is through; and
    when both have ended without an error the output is the input, and both
    report the same numbers of bytes and transfers. *)
Theorem transfer_safe data s :
  reachable data s →
  output s `prefix_of` data ∧
  (removed s = true → rp s = R_done ∨ rp s = R_failed) ∧
  (completed s → output s = data ∧ wbytes s = rbytes s ∧ wxfrs s = rxfrs s ∧
    wbytes s = wrap_s 32 (Z.of_nat (length data))).
Proof.
  intros H%reachable_inv. split; [by apply inv_output|]. split.
  - destruct H; simpl; try done; auto.
  - intros Hc. destruct (inv_completed _ _ H Hc) as (-> & bs & Hd & -> & -> & -> & ->).
    split_and!; [done..|]. unfold bytes_of. by rewrite Hd.
Qed.

(** C29: the processes do not wait for each other for ever, and do not go on for
    ever: as long as neither has failed, they are both through or one of them
    can take a step that does not fail; and no run, with or without failures,
    has more steps than the measure of its first state. *)
Theorem transfer_live data s :
  reachable data s →
  (wp s ≠ W_failed → rp s ≠ R_failed →
    completed s ∨ ∃ s', step s s' ∧ wp s' ≠ W_failed ∧ rp s' ≠ R_failed) ∧
  (∀ s', step s s' → (measure s' < measure s)%nat).
Proof.
  intros H%reachable_inv. split; [|intros s'; apply step_decreases].
  intros Nw Nr. destruct (inv_progress _ _ H Nw Nr) as [?|[(k & s' & E & ?)|(k & s' & E & ?)]];
    [by left|right; exists s'..]; (split; [by econstructor|done]).
Qed.

(** Four bytes in blocks of two, the processes taking turns. *)
Definition demo_schedule : list (bool * nat) :=
  concat (replicate 40 [(true, 2); (true, 0); (false, 2)]%nat).
Definition demo : xfr := foldl turn (initial (str "abcd")) demo_schedule.

Lemma demo_reachable : reachable (str "abcd") demo.
Proof. apply turns_reachable, Start. Qed.

Example demo_completed : completed demo ∧ output demo = str "abcd" ∧ rxfrs demo = 2.
Proof. by vm_compute. Qed.

Theorem transfer_safe_witness :
  output demo `prefix_of` str "abcd" ∧
  (removed demo = true → rp demo = R_done ∨ rp demo = R_failed) ∧
  (completed demo → output demo = str "abcd" ∧ wbytes demo = rbytes demo ∧ wxfrs demo = rxfrs demo ∧
    wbytes demo = wrap_s 32 (Z.of_nat (length (str "abcd")))).
Proof. apply (transfer_safe (str "abcd") demo demo_reachable). Defined.

Theorem transfer_live_witness :
  let s := initial (str "abcd") in
  (wp s ≠ W_failed → rp s ≠ R_failed →
    completed s ∨ ∃ s', step s s' ∧ wp s' ≠ W_failed ∧ rp s' ≠ R_failed) ∧
  (∀ s', step s s' → (measure s' < measure s)%nat).
Proof. intros s. apply (transfer_live (str "abcd") s), Start. Defined.
