(* ===== verification/Monitor.v ===== *)
(** The bounded stack shared by processes, quiz/quiz3: the monitor of stack.c
    (a mutex and one condition variable in shared memory) and the program of
    process.c, which forks one process per operation.

    The processes of the monitor run interleaved, one access to a shared object
    at a time; theorems are about every reachable state of a transition system,
    and say that the accesses amount to operations on an abstract stack, done
    one after the other. *)
From stdpp Require Import relations.
From S2P Require Import Prelude Sys GetNum.

(** ** stack.h and stack.c *)

Definition STACK_SIZE : Z := 3.

Record data := Data { index : Z; buffer : list Z }.

Inductive oper := Push (oneInt : Z) | Pop.

(** Where a process is: the name is the next thing it does, the argument a
    value it has in a register or a local variable. *)
Inductive pc :=
  | Hello                       (* printf of its process ID *)
  | Lock | Test | Waiting | Relock
  | Load | Access (i : Z) | Finish (i : Z)
  | Report (v : Z) | Notify (v : Z) | Unlock (v : Z)
  | Returned (v : Z) | Exited (v : Z).

#[export] Instance pc_eq_dec : EqDecision pc.
Proof. solve_decision. Defined.

Record process := Process { pid : Z; op : oper; at_ : pc }.

(** Lines of output; push and pop print the text followed by another newline. *)
Inductive line := Line_pid (p : Z) | Line_pushed (v i : Z) | Line_popped (v i : Z).

Definition line_text (l : line) : cstr :=
  match l with
  | Line_pid p => str "pid: " ++ dec p ++ [NL]
  | Line_pushed v i => str "Pushed:" ++ [TAB] ++ str "Int: " ++ dec v ++ [TAB] ++ str "index " ++ dec i ++ [NL]
  | Line_popped v i => str "Pop:" ++ [TAB] ++ str "Int: " ++ dec v ++ [TAB] ++ str "index " ++ dec i ++ [NL]
  end.

(** char string[25] of push and pop, where sprintf puts a line. *)
Definition fits_string (l : line) : bool := strlen (line_text l) + 1 <=? 25.

(** The shared memory, the processes by number, what was printed, and whether
    a process did something undefined. *)
Record monitor := Monitor {
  globalStack : data; mutex : option nat; procs : gmap nat process;
  output : list (nat * line); undefined : bool }.

Definition full_or_empty (o : oper) : Z := match o with Push _ => STACK_SIZE | Pop => 0 end.

Definition report_line (o : oper) (v idx : Z) : line :=
  match o with Push _ => Line_pushed v (idx - 1) | Pop => Line_popped v idx end.

Definition nobody_waits (ps : gmap nat process) : bool :=
  bool_decide (map_Forall (λ _ x, at_ x ≠ Waiting) ps).

Definition in_buffer (i : Z) : bool := (0 <=? i) && (i <? STACK_SIZE).

(** buffer[index++] = oneInt and toReturn = buffer[--index], once index is
    loaded: first the store at the old index or the store of the new index,
    then the other half. *)
Definition access (o : oper) (i : Z) (d : data) : option (data * pc) :=
  match o with
  | Push v => if in_buffer i then Some (Data (index d) (<[Z.to_nat i := v]> (buffer d)), Finish i) else None
  | Pop => Some (Data (i - 1) (buffer d), Finish (i - 1))
  end.

Definition finish (o : oper) (i : Z) (d : data) : option (data * pc) :=
  match o with
  | Push v => Some (Data (i + 1) (buffer d), Report v)
  | Pop => if in_buffer i then v ← buffer d !! Z.to_nat i; Some (d, Report v) else None
  end.

(** One step of process [p] in push or pop.  A waiting process may wake up
    without being signalled (POSIX allows it); [c] is the process that
    pthread_cond_signal wakes, if any waits. *)
Definition step_proc (p c : nat) (s : monitor) : option monitor :=
  let 'Monitor d m ps o u := s in
  x ← ps !! p;
  let go (q : pc) := <[p := Process (pid x) (op x) q]> ps in
  if u then None else
  match at_ x with
  | Hello => Some (Monitor d m (go Lock) (o ++ [(p, Line_pid (pid x))]) u)
  | Lock | Relock =>
      match m with Some _ => None | None => Some (Monitor d (Some p) (go Test) o u) end
  | Test =>
      if index d =? full_or_empty (op x)
      then Some (Monitor d None (go Waiting) o u)
      else Some (Monitor d m (go Load) o u)
  | Waiting => Some (Monitor d m (go Relock) o u)
  | Load => Some (Monitor d m (go (Access (index d))) o u)
  | Access i =>
      match access (op x) i d with
      | Some (d, q) => Some (Monitor d m (go q) o u)
      | None => Some (Monitor d m ps o true)
      end
  | Finish i =>
      match finish (op x) i d with
      | Some (d, q) => Some (Monitor d m (go q) o u)
      | None => Some (Monitor d m ps o true)
      end
  | Report v =>
      let l := report_line (op x) v (index d) in
      if fits_string l then Some (Monitor d m (go (Notify v)) (o ++ [(p, l)]) u)
      else Some (Monitor d m ps o true)
  | Notify v =>
      if nobody_waits ps then Some (Monitor d m (go (Unlock v)) o u) else
      y ← ps !! c;
      if bool_decide (at_ y = Waiting)
      then Some (Monitor d m (<[c := Process (pid y) (op y) Relock]> (go (Unlock v))) o u) else None
  | Unlock v => Some (Monitor d None (go (Returned v)) o u)
  | Returned v => Some (Monitor d m (go (Exited v)) o u)
  | Exited _ => None
  end.

(** A new process [p], about to push or to pop. *)
Definition arrive (p : nat) (id : Z) (o : oper) (s : monitor) : monitor :=
  let 'Monitor d m ps out u := s in Monitor d m (<[p := Process id o Hello]> ps) out u.

(** Numbers that are printed with two characters at most. *)
Definition small (o : oper) : Prop := match o with Push v => -9 <= v <= 99 | Pop => True end.

Inductive mstep : monitor → monitor → Prop :=
  | By_process p c s s' : step_proc p c s = Some s' → mstep s s'
  | Arrives p id o s : procs s !! p = None → small o → mstep s (arrive p id o s).

(** A mapped file of zeros. *)
Definition fresh_monitor : monitor := Monitor (Data 0 [0; 0; 0]) None ∅ [] false.

Definition reachable (s : monitor) : Prop := rtc mstep fresh_monitor s.

(** ** The abstract stack *)

(** One operation: the process, what it asks for, the number pushed or popped. *)
Definition entry : Type := nat * oper * Z.

Definition stack_do (st : list Z) (e : entry) : option (list Z * (nat * line)) :=
  let '(p, o, v) := e in
  match o with
  | Push w =>
      if bool_decide (Z.of_nat (length st) < STACK_SIZE ∧ v = w)
      then Some (st ++ [v], (p, Line_pushed v (Z.of_nat (length st)))) else None
  | Pop =>
      if bool_decide (last st = Some v)
      then Some (take (pred (length st)) st, (p, Line_popped v (Z.of_nat (pred (length st))))) else None
  end.

Fixpoint stack_run (st : list Z) (h : list entry) : option (list Z * list (nat * line)) :=
  match h with
  | [] => Some (st, [])
  | e :: h =>
      '(st, l) ← stack_do st e;
      '(st, ls) ← stack_run st h;
      Some (st, l :: ls)
  end.

(** ** process.c *)

(** What a child does, from the two numbers rand() gave. *)
Definition draw (r : N * N) : oper :=
  if (Z.of_N r.1 mod 2 =? 0) then Push (Z.of_N r.2 mod 100) else Pop.

(** main up to its loop; the result is the number of children.  The shared
    [data] is 4 + 3 * 4 bytes, a mutex of 40 and a condition variable of 48. *)
Definition SIZEOF_DATA : Z := 104.

Definition process_setup {S} `{os} (argv : list cstr) : M S Z :=
  let try (what : cstr) : M S unit :=
    r ← sys (Cpthread what); when (negb (rv r =? 0)) (perror_exit what) in
  match argv with
  | [_; a] =>
      let n := atoi a in
      if n <=? 0 then stop_with (Undefined "array of no elements") else
      f ← sys (Copen (str "mapfile") 578 438);
      t ← sys (Cftruncate (rv f) SIZEOF_DATA);
      when (rv t =? -1) (perror_exit (str "ftruncate"));;
      m ← sys (Cmmap (rv f) SIZEOF_DATA);
      when (rv m =? -1) (perror_exit (str "mmap"));;
      sys (Cclose (rv f));;
      try (str "pthread_mutexattr_init");;
      try (str "pthread_mutexattr_setpshared");;
      try (str "pthread_mutex_init");;
      sys (Cpthread (str "pthread_condattr_init"));;
      sys (Cpthread (str "pthread_condattr_setpshared"));;
      sys (Cpthread (str "pthread_cond_init"));;
      sys (Cpthread (str "pthread_condattr_destroy"));;
      sys Ctime;;
      mret n
  | _ =>
      out Stdout (str "Usage: " ++ default [] (argv !! 0%nat) ++ str " <n>" ++ [NL]);;
      stop_with (Exit 1)
  end.

Inductive parent_pc := At_fork (i : nat) | At_wait (i : nat) | Parent_exit (status : Z).
Record system := System { mon : monitor; parent : parent_pc }.

(** One step of the parent; [child] is what fork returns in it. *)
Definition parent_step (ops : list oper) (child : Z) (s : system) : option system :=
  let 'System m par := s in
  match par with
  | At_fork i =>
      match ops !! i with
      | None => Some (System m (Parent_exit 0))
      | Some o => Some (if child =? -1 then System m (Parent_exit 1) else System (arrive i child o m) (At_wait i))
      end
  | At_wait i =>
      x ← procs m !! i;
      match at_ x with Exited _ => Some (System m (At_fork (S i))) | _ => None end
  | Parent_exit _ => None
  end.

Inductive sys_step (ops : list oper) : system → system → Prop :=
  | By_parent child s s' : parent_step ops child s = Some s' → sys_step ops s s'
  | By_child p c m m' par : step_proc p c m = Some m' → sys_step ops (System m par) (System m' par).

Definition fresh_system : system := System fresh_monitor (At_fork 0).

(** ** The invariant *)

Definition pids (h : list entry) : list nat := (λ e, e.1.1) <$> h.

Definition is_report (l : nat * line) : Prop := match l.2 with Line_pid _ => False | _ => True end.
#[export] Instance is_report_dec l : Decision (is_report l).
Proof. destruct l as [? []]; apply _. Defined.

(** The lines of push and pop among what was printed. *)
Definition reports (o : list (nat * line)) : list (nat * line) := filter is_report o.

Arguments reports : simpl never.

Definition two_chars (v : Z) : Prop := -9 <= v <= 99.

(** The process that has the mutex: what it knows of the shared memory, of the
    operations [h] and of their lines [ls], those in [outs] being printed. *)
Definition holder_ok (h : list entry) (ls outs : list (nat * line)) (d : data) (p : nat) (x : process) : Prop :=
  match at_ x with
  | Test => ls = outs ∧ (p ∉ pids h)
  | Load => ls = outs ∧ (p ∉ pids h) ∧ index d ≠ full_or_empty (op x)
  | Access i => ls = outs ∧ (p ∉ pids h) ∧ index d ≠ full_or_empty (op x) ∧ i = index d
  | Finish i => i = index d ∧ i < STACK_SIZE ∧
      match op x with
      | Push v => ls = outs ∧ (p ∉ pids h) ∧ buffer d !! Z.to_nat i = Some v
      | Pop => ∃ v, buffer d !! Z.to_nat i = Some v ∧ ls = outs ++ [(p, Line_popped v i)] ∧ (p, Pop, v) ∈ h
      end
  | Report v => ls = outs ++ [(p, report_line (op x) v (index d))] ∧ (p, op x, v) ∈ h ∧ two_chars v ∧
      match op x with Push _ => 0 < index d | Pop => index d < STACK_SIZE end
  | Notify v | Unlock v => ls = outs ∧ (p, op x, v) ∈ h
  | _ => False
  end.

Definition outsider_ok (h : list entry) (p : nat) (x : process) : Prop :=
  match at_ x with
  | Hello | Lock | Waiting | Relock => p ∉ pids h
  | Returned v | Exited v => (p, op x, v) ∈ h
  | _ => False
  end.

Definition proc_ok h ls outs d (m : option nat) p x : Prop :=
  if decide (m = Some p) then holder_ok h ls outs d p x else outsider_ok h p x.

Record Inv (h : list entry) (ls : list (nat * line)) (s : monitor) : Prop := {
  inv_defined : undefined s = false;
  inv_range : 0 <= index (globalStack s) <= STACK_SIZE;
  inv_length : length (buffer (globalStack s)) = Z.to_nat STACK_SIZE;
  inv_chars : Forall two_chars (buffer (globalStack s));
  inv_run : stack_run [] h = Some (take (Z.to_nat (index (globalStack s))) (buffer (globalStack s)), ls);
  inv_nodup : NoDup (pids h);
  inv_known : ∀ p, p ∈ pids h → is_Some (procs s !! p);
  inv_small : ∀ p x, procs s !! p = Some x → small (op x);
  inv_procs : ∀ p x, procs s !! p = Some x → proc_ok h ls (reports (output s)) (globalStack s) (mutex s) p x;
  inv_free : mutex s = None → ls = reports (output s);
  inv_holder : ∀ p, mutex s = Some p → is_Some (procs s !! p) }.

Lemma pids_snoc h e : pids (h ++ [e]) = pids h ++ [e.1.1].
Proof. unfold pids. by rewrite fmap_app. Qed.

Lemma pids_of h p o v : (p, o, v) ∈ h → p ∈ pids h.
Proof. intros H. unfold pids. apply list_elem_of_fmap. by exists (p, o, v). Qed.

Lemma stack_run_snoc st h e st' ls st'' l :
  stack_run st h = Some (st', ls) → stack_do st' e = Some (st'', l) →
  stack_run st (h ++ [e]) = Some (st'', ls ++ [l]).
Proof.
  revert st ls; induction h as [|e' h IH]; intros st ls; simpl.
  { intros [= -> <-] ->. done. }
  destruct (stack_do st e') as [[st1 l1]|]; [|done]; simpl.
  destruct (stack_run st1 h) as [[st2 l2]|] eqn:E; [|done]; simpl. intros [= -> <-] Hd.
  by rewrite (IH _ _ E Hd).
Qed.

Lemma upd_procs (P : nat → process → Prop) (ps : gmap nat process) p y :
  P p y → (∀ p' x', p' ≠ p → ps !! p' = Some x' → P p' x') → ∀ p' x', <[p := y]> ps !! p' = Some x' → P p' x'.
Proof.
  intros Hy Ho p' x'. destruct (decide (p' = p)) as [->|Hp].
  - rewrite lookup_insert_eq. by intros [= <-].
  - rewrite lookup_insert_ne by done. by apply Ho.
Qed.

Lemma outsider_more h e p x : outsider_ok h p x → p ≠ e.1.1 → outsider_ok (h ++ [e]) p x.
Proof.
  unfold outsider_ok. rewrite pids_snoc. intros H Hp.
  destruct (at_ x); rewrite ?not_elem_of_app, ?list_elem_of_singleton, ?elem_of_app; auto.
Qed.

(** What the two parts of an access do to the contents. *)
Lemma push_contents (d : data) p v :
  0 <= index d < STACK_SIZE → length (buffer d) = Z.to_nat STACK_SIZE → buffer d !! Z.to_nat (index d) = Some v →
  stack_do (take (Z.to_nat (index d)) (buffer d)) (p, Push v, v) =
    Some (take (Z.to_nat (index d + 1)) (buffer d), (p, Line_pushed v (index d))).
Proof.
  intros Hi Hl Hv. unfold stack_do. rewrite length_take, Hl.
  replace (Z.of_nat (Z.to_nat (index d) `min` Z.to_nat STACK_SIZE)) with (index d) by (unfold STACK_SIZE in *; lia).
  rewrite bool_decide_eq_true_2 by (split; [lia|done]).
  replace (Z.to_nat (index d + 1)) with (S (Z.to_nat (index d))) by lia. by rewrite (take_S_r _ _ _ Hv).
Qed.

Lemma pop_contents (d : data) p v :
  0 < index d <= STACK_SIZE → length (buffer d) = Z.to_nat STACK_SIZE → buffer d !! Z.to_nat (index d - 1) = Some v →
  stack_do (take (Z.to_nat (index d)) (buffer d)) (p, Pop, v) =
    Some (take (Z.to_nat (index d - 1)) (buffer d), (p, Line_popped v (index d - 1))).
Proof.
  intros Hi Hl Hv. unfold stack_do. rewrite length_take, Hl.
  replace (Z.to_nat (index d) `min` Z.to_nat STACK_SIZE)%nat with (Z.to_nat (index d)) by (unfold STACK_SIZE in *; lia).
  replace (Z.to_nat (index d)) with (S (Z.to_nat (index d - 1))) by lia.
  rewrite (take_S_r _ _ _ Hv), last_snoc, bool_decide_eq_true_2 by done. cbn [pred].
  rewrite take_app_le by (rewrite length_take; lia). rewrite take_take, Nat.min_id.
  by rewrite Z2Nat.id by lia.
Qed.

(** A step of the process that has the mutex, or takes it, or gives it back. *)
Lemma inv_holder_step h ls d m ps o p x q d' m' o' h' ls' :
  Inv h ls (Monitor d m ps o false) → ps !! p = Some x → m = None ∨ m = Some p →
  (m' = None ∧ ls' = reports o' ∨ m' = Some p) →
  0 <= index d' <= STACK_SIZE → length (buffer d') = Z.to_nat STACK_SIZE → Forall two_chars (buffer d') →
  stack_run [] h' = Some (take (Z.to_nat (index d')) (buffer d'), ls') →
  (h' = h ∨ (p ∉ pids h) ∧ ∃ v, h' = h ++ [(p, op x, v)]) →
  proc_ok h' ls' (reports o') d' m' p (Process (pid x) (op x) q) →
  Inv h' ls' (Monitor d' m' (<[p := Process (pid x) (op x) q]> ps) o' false).
Proof.
  intros [_ _ _ _ _ Hnd Hk Hsm Hps Hfr Hho] Hp Hm Hm' Hr Hl Hc Hrun Hh Hok; cbn in *.
  constructor; cbn; try done.
  - destruct Hh as [->|[Hn [v ->]]]; [done|]. rewrite pids_snoc. apply NoDup_app. split; [done|].
    split; [|apply NoDup_singleton]. intros a Ha ->%list_elem_of_singleton. done.
  - intros p' H'. rewrite lookup_insert_is_Some'. destruct Hh as [->|[Hn [v ->]]]; [by right; apply Hk|].
    rewrite pids_snoc, elem_of_app, list_elem_of_singleton in H'. destruct H' as [?| ->]; [by right; apply Hk|by left].
  - apply (upd_procs (λ _ x, small (op x))); [by apply (Hsm p x)|]. intros p' x' _. apply Hsm.
  - apply upd_procs; [done|]. intros p' x' Hne Hx'. pose proof (Hps p' x' Hx') as H'. unfold proc_ok in *.
    rewrite decide_False in H' by (destruct Hm as [->| ->]; congruence).
    rewrite decide_False by (destruct Hm' as [[-> _]| ->]; congruence).
    destruct Hh as [->|[Hn [v ->]]]; [done|]. by apply outsider_more.
  - intros E. destruct Hm' as [[_ ->]|E']; [done|congruence].
  - intros p' E. destruct Hm' as [[-> _]| ->]; [done|]. injection E as <-. rewrite lookup_insert_is_Some'. by left.
Qed.

(** A step of a process that does not have the mutex. *)
Lemma inv_outsider_step h ls d m ps o p x q o' :
  Inv h ls (Monitor d m ps o false) → ps !! p = Some x → m ≠ Some p → reports o' = reports o →
  outsider_ok h p (Process (pid x) (op x) q) →
  Inv h ls (Monitor d m (<[p := Process (pid x) (op x) q]> ps) o' false).
Proof.
  intros [H1 H2 H3 H4 H5 Hnd Hk Hsm Hps Hfr Hho] Hp Hm Ho Hok; cbn in *.
  constructor; cbn; rewrite ?Ho; try done.
  - intros p' H'. rewrite lookup_insert_is_Some'. right. by apply Hk.
  - apply (upd_procs (λ _ x, small (op x))); [by apply (Hsm p x)|]. intros p' x' _. apply Hsm.
  - apply upd_procs; [unfold proc_ok; by rewrite decide_False|]. intros p' x' _. apply Hps.
  - intros p' H'. rewrite lookup_insert_is_Some'. right. by apply Hho.
Qed.

(** A process inside the monitor has the mutex; one outside has not. *)
Lemma inv_inside h ls s p x :
  Inv h ls s → procs s !! p = Some x → (outsider_ok h p x → False) →
  mutex s = Some p ∧ holder_ok h ls (reports (output s)) (globalStack s) p x.
Proof.
  intros HI Hp Hn. pose proof (inv_procs _ _ _ HI p x Hp) as H. unfold proc_ok in H. by case_decide.
Qed.

Lemma inv_outside h ls s p x :
  Inv h ls s → procs s !! p = Some x → (holder_ok h ls (reports (output s)) (globalStack s) p x → False) →
  mutex s ≠ Some p ∧ outsider_ok h p x.
Proof.
  intros HI Hp Hn. pose proof (inv_procs _ _ _ HI p x Hp) as H. unfold proc_ok in H. by case_decide.
Qed.

Lemma reports_snoc o l : reports (o ++ [l]) = reports o ++ (if decide (is_report l) then [l] else []).
Proof. unfold reports. by rewrite filter_app. Qed.

(** The lines of numbers of two characters fit the array. *)
Lemma two_chars_cases (P : Z → Prop) v : two_chars v →
  Forall P (seqZ (-9) 109) → P v.
Proof.
  intros Hv HP. rewrite Forall_forall in HP. apply HP, elem_of_seqZ. unfold two_chars in Hv. lia.
Qed.

Lemma report_fits o v idx :
  two_chars v → (match o with Push _ => 0 < idx <= STACK_SIZE | Pop => 0 <= idx < STACK_SIZE end) →
  fits_string (report_line o v idx) = true.
Proof.
  intros Hv Hi.
  apply (two_chars_cases (λ v, fits_string (report_line o v idx) = true) v Hv). clear v Hv.
  assert (∃ w, o = Push w ∧ (idx = 1 ∨ idx = 2 ∨ idx = 3) ∨ o = Pop ∧ (idx = 0 ∨ idx = 1 ∨ idx = 2)) as [w Hc].
  { unfold STACK_SIZE in Hi. destruct o as [w|]; [exists w; left|exists 0; right]; (split; [done|lia]). }
  destruct Hc as [[-> [->|[-> | ->]]]|[-> [->|[-> | ->]]]];
    apply (bool_decide_unpack (Forall _ _)); by vm_compute.
Qed.

(** ** Every step keeps the invariant *)

(** What a step of [p] adds to the operations. *)
Definition extends (h h' : list entry) (p : nat) (x : process) : Prop :=
  h' = h ∨ (p ∉ pids h) ∧ ∃ v, h' = h ++ [(p, op x, v)].

Lemma access_inv h ls d ps o p x i q d' :
  Inv h ls (Monitor d (Some p) ps o false) → ps !! p = Some x → at_ x = Access i →
  access (op x) i d = Some (d', q) →
  ∃ h' ls', Inv h' ls' (Monitor d' (Some p) (<[p := Process (pid x) (op x) q]> ps) o false) ∧ extends h h' p x.
Proof.
  intros HI Hp Hat Hacc. pose proof HI as [_ Hr Hl Hc Hrun _ _ Hsm Hps _ _]; cbn in *.
  pose proof (Hps p x Hp) as Hok. unfold proc_ok in Hok. rewrite decide_True in Hok by done.
  unfold holder_ok in Hok. rewrite Hat in Hok. destruct Hok as (-> & Hn & Hlim & ->).
  specialize (Hsm p x Hp). destruct (op x) as [v|] eqn:Hop; cbn [full_or_empty access] in *.
  - unfold in_buffer in Hacc. destruct (Z.leb_spec 0 (index d)); [|lia].
    destruct (Z.ltb_spec (index d) STACK_SIZE); [|lia]. cbn in Hacc. injection Hacc as <- <-.
    exists h, (reports o). split; [|by left]. rewrite <-Hop.
    eapply (inv_holder_step _ _ _ _ _ _ _ _ _ _ _ _ _ _ HI Hp); [by right|by right|done| | | |by left|].
    + cbn. by rewrite length_insert.
    + cbn. by apply Forall_insert.
    + cbn. rewrite take_insert_ge by lia. done.
    + unfold proc_ok. rewrite decide_True by done. cbn. rewrite Hop. split_and!; try done.
      apply list_lookup_insert_eq. lia.
  - injection Hacc as <- <-. assert (∃ v, buffer d !! Z.to_nat (index d - 1) = Some v) as [v Hv].
    { apply lookup_lt_is_Some. unfold STACK_SIZE in *. lia. }
    exists (h ++ [(p, Pop, v)]), (reports o ++ [(p, Line_popped v (index d - 1))]).
    split; [|right; split; [done|]; exists v; by rewrite Hop]. rewrite <-Hop.
    eapply (inv_holder_step _ _ _ _ _ _ _ _ _ _ _ _ _ _ HI Hp); [by right|by right| |done|done| | |].
    + cbn. unfold STACK_SIZE in *. lia.
    + cbn. eapply stack_run_snoc; [exact Hrun|]. rewrite Hop. by apply pop_contents; [lia| |].
    + right. split; [done|]. by exists v.
    + unfold proc_ok. rewrite decide_True by done. cbn. rewrite Hop. split; [done|]. split; [lia|].
      exists v. split; [done|]. split; [done|]. rewrite elem_of_app, list_elem_of_singleton. by right.
Qed.

Lemma finish_inv h ls d ps o p x i :
  Inv h ls (Monitor d (Some p) ps o false) → ps !! p = Some x → at_ x = Finish i →
  ∃ d' q h' ls', finish (op x) i d = Some (d', q) ∧
    Inv h' ls' (Monitor d' (Some p) (<[p := Process (pid x) (op x) q]> ps) o false) ∧ extends h h' p x.
Proof.
  intros HI Hp Hat. pose proof HI as [_ Hr Hl Hc Hrun _ _ Hsm Hps _ _]; cbn in *.
  pose proof (Hps p x Hp) as Hok. unfold proc_ok in Hok. rewrite decide_True in Hok by done.
  unfold holder_ok in Hok. rewrite Hat in Hok. destruct Hok as (-> & Hi & Hok).
  specialize (Hsm p x Hp). destruct (op x) as [v|] eqn:Hop; cbn [finish] in *.
  - destruct Hok as (-> & Hn & Hv). do 4 eexists. split; [done|].
    split; [|right; split; [done|]; exists v; by rewrite Hop]. rewrite <-Hop.
    eapply (inv_holder_step _ _ _ _ _ _ _ _ _ _ _ _ _ _ HI Hp); [by right|by right| |done|done| | |].
    + cbn. lia.
    + cbn. eapply stack_run_snoc; [exact Hrun|]. rewrite Hop. by apply push_contents; [lia| |].
    + right. split; [done|]. by exists v.
    + unfold proc_ok. rewrite decide_True by done. cbn. rewrite Hop. cbn [report_line].
      replace (index d + 1 - 1) with (index d) by lia. split; [done|].
      split; [rewrite elem_of_app, list_elem_of_singleton; by right|]. split; [done|lia].
  - destruct Hok as (v & Hv & -> & Hin). unfold in_buffer. destruct (Z.leb_spec 0 (index d)); [|lia].
    destruct (Z.ltb_spec (index d) STACK_SIZE); [|lia]. cbn [andb]. rewrite Hv. do 4 eexists. split; [done|].
    split; [|by left]. rewrite <-Hop.
    eapply (inv_holder_step _ _ _ _ _ _ _ _ _ _ _ _ _ _ HI Hp); [by right|by right|done|done|done|done|by left|].
    unfold proc_ok. rewrite decide_True by done. cbn. rewrite Hop. split; [done|]. split; [done|].
    split; [|done]. rewrite Forall_lookup in Hc. by eapply Hc.
Qed.

Lemma access_defined h ls d ps o p x i :
  Inv h ls (Monitor d (Some p) ps o false) → ps !! p = Some x → at_ x = Access i → is_Some (access (op x) i d).
Proof.
  intros HI Hp Hat. pose proof HI as [_ Hr _ _ _ _ _ _ Hps _ _]; cbn in *.
  pose proof (Hps p x Hp) as Hok. unfold proc_ok in Hok. rewrite decide_True in Hok by done.
  unfold holder_ok in Hok. rewrite Hat in Hok. destruct Hok as (_ & _ & Hlim & ->).
  destruct (op x); cbn in *; [|by eexists]. unfold in_buffer. destruct (Z.leb_spec 0 (index d)); [|lia].
  destruct (Z.ltb_spec (index d) STACK_SIZE); [by eexists|lia].
Qed.

(** Taking the mutex, the first time or after a wait. *)
Lemma acquire_inv h ls d ps o p x :
  Inv h ls (Monitor d None ps o false) → ps !! p = Some x → (p ∉ pids h) →
  Inv h ls (Monitor d (Some p) (<[p := Process (pid x) (op x) Test]> ps) o false).
Proof.
  intros HI Hp Hn. pose proof HI as [_ Hr Hl Hc Hrun _ _ _ _ Hfr _]; cbn in *.
  eapply (inv_holder_step _ _ _ _ _ _ _ _ _ _ _ _ _ _ HI Hp); [by left|by right|done..|by left|].
  unfold proc_ok. rewrite decide_True by done. cbn. split; [by apply Hfr|done].
Qed.

(** A signalled process goes for the mutex. *)
Lemma wake_inv h ls d m ps o c y :
  Inv h ls (Monitor d m ps o false) → ps !! c = Some y → at_ y = Waiting →
  Inv h ls (Monitor d m (<[c := Process (pid y) (op y) Relock]> ps) o false).
Proof.
  intros HI Hy Hw. pose proof (inv_outside _ _ _ _ _ HI Hy) as [Hm Hok]; [by unfold holder_ok; rewrite Hw|].
  eapply (inv_outsider_step _ _ _ _ _ _ _ _ _ _ HI Hy Hm); [done|]. unfold outsider_ok in *. by rewrite Hw in Hok.
Qed.

Lemma step_inv h ls p c s s' :
  Inv h ls s → step_proc p c s = Some s' →
  ∃ x h' ls', procs s !! p = Some x ∧ Inv h' ls' s' ∧ extends h h' p x.
Proof.
  intros HI Hs. destruct s as [d m ps o u]. pose proof (inv_defined _ _ _ HI) as Hu. cbn in Hu. subst u.
  unfold step_proc in Hs. destruct (ps !! p) as [x|] eqn:Hp; [|done]. cbn in Hs. exists x.
  pose proof (inv_inside _ _ _ _ _ HI Hp) as Hin. pose proof (inv_outside _ _ _ _ _ HI Hp) as Hout. cbn in Hin, Hout.
  pose proof HI as [_ Hr Hl Hc Hrun _ _ _ _ Hfr _]; cbn in *.
  unfold holder_ok, outsider_ok in Hin, Hout. destruct (at_ x) eqn:Hat.
  - destruct Hout as [Hm Hn]; [done|]. injection Hs as <-. exists h, ls. split; [done|]. split; [|by left].
    apply (inv_outsider_step _ _ _ _ _ _ _ _ _ _ HI Hp Hm); [by rewrite reports_snoc, app_nil_r|done].
  - destruct Hout as [Hm Hn]; [done|]. destruct m; [done|]. injection Hs as <-. exists h, ls.
    split; [done|]. split; [|by left]. by apply acquire_inv.
  - destruct Hin as (-> & -> & Hn); [done|]. exists h, (reports o). split; [done|].
    destruct (Z.eqb_spec (index d) (full_or_empty (op x))) as [E|E]; injection Hs as <-; (split; [|by left]).
    + eapply (inv_holder_step _ _ _ _ _ _ _ _ _ _ _ _ _ _ HI Hp); [by right|by left|done..|by left|done].
    + eapply (inv_holder_step _ _ _ _ _ _ _ _ _ _ _ _ _ _ HI Hp); [by right|by right|done..|by left|].
      unfold proc_ok. by rewrite decide_True.
  - destruct Hout as [Hm Hn]; [done|]. injection Hs as <-. exists h, ls. split; [done|]. split; [|by left].
    by apply (inv_outsider_step _ _ _ _ _ _ _ _ _ _ HI Hp Hm).
  - destruct Hout as [Hm Hn]; [done|]. destruct m; [done|]. injection Hs as <-. exists h, ls.
    split; [done|]. split; [|by left]. by apply acquire_inv.
  - destruct Hin as (-> & -> & Hn & Hlim); [done|]. injection Hs as <-. exists h, (reports o). split; [done|].
    split; [|by left].
    eapply (inv_holder_step _ _ _ _ _ _ _ _ _ _ _ _ _ _ HI Hp); [by right|by right|done..|by left|].
    unfold proc_ok. by rewrite decide_True.
  - destruct Hin as (-> & _); [done|]. destruct (access_defined _ _ _ _ _ _ _ _ HI Hp Hat) as [[d' q] Ha].
    rewrite Ha in Hs. injection Hs as <-. destruct (access_inv _ _ _ _ _ _ _ _ _ _ HI Hp Hat Ha) as (h' & ls' & ?).
    by exists h', ls'.
  - destruct Hin as (-> & _); [done|]. destruct (finish_inv _ _ _ _ _ _ _ _ HI Hp Hat) as (d' & q & h' & ls' & Hf & ?).
    rewrite Hf in Hs. injection Hs as <-. by exists h', ls'.
  - destruct Hin as (-> & -> & Hv & Hch & Hix); [done|].
    rewrite report_fits in Hs; [|done|destruct (op x); lia]. injection Hs as <-. exists h. eexists.
    split; [done|]. split; [|by left].
    eapply (inv_holder_step _ _ _ _ _ _ _ _ _ _ _ _ _ _ HI Hp); [by right|by right|done..|by left|].
    unfold proc_ok. rewrite decide_True by done. cbn. split; [|done]. rewrite reports_snoc. f_equal.
    by destruct (op x).
  - destruct Hin as (-> & -> & Hv); [done|]. exists h, (reports o). split; [done|].
    assert (Inv h (reports o) (Monitor d (Some p) (<[p := Process (pid x) (op x) (Unlock v)]> ps) o false)) as HI'.
    { eapply (inv_holder_step _ _ _ _ _ _ _ _ _ _ _ _ _ _ HI Hp); [by right|by right|done..|by left|].
      unfold proc_ok. by rewrite decide_True. }
    destruct (nobody_waits ps); [injection Hs as <-; split; [done|by left]|].
    destruct (ps !! c) as [y|] eqn:Hy; [|done]. cbn in Hs. case_bool_decide as Hw; [|done]. injection Hs as <-.
    split; [|by left]. apply wake_inv; [exact HI'| |done]. rewrite lookup_insert_ne by congruence. exact Hy.
  - destruct Hin as (-> & -> & Hv); [done|]. injection Hs as <-. exists h, (reports o). split; [done|].
    split; [|by left].
    by eapply (inv_holder_step _ _ _ _ _ _ _ _ _ _ _ _ _ _ HI Hp); [by right|by left|done..|by left|].
  - destruct Hout as [Hm Hn]; [done|]. injection Hs as <-. exists h, ls. split; [done|]. split; [|by left].
    by apply (inv_outsider_step _ _ _ _ _ _ _ _ _ _ HI Hp Hm).
  - done.
Qed.

(** A new process changes nothing of what was done. *)
Lemma arrive_inv h ls s p id o :
  Inv h ls s → procs s !! p = None → small o → Inv h ls (arrive p id o s).
Proof.
  intros [H1 H2 H3 H4 H5 Hnd Hk Hsm Hps Hfr Hho] Hp Ho. destruct s as [d m ps out u]; cbn in *.
  assert (p ∉ pids h) as Hn by (intros H; apply Hk in H; rewrite Hp in H; by destruct H).
  constructor; cbn; try done.
  - intros p' H'. rewrite lookup_insert_is_Some'. right. by apply Hk.
  - apply (upd_procs (λ _ x, small (op x))); [done|]. intros p' x' _. apply Hsm.
  - apply upd_procs; [|intros p' x' _; apply Hps]. unfold proc_ok. rewrite decide_False; [done|].
    intros ->. destruct (Hho p eq_refl). congruence.
  - intros p' H'. rewrite lookup_insert_is_Some'. right. by apply Hho.
Qed.

Lemma monitor_inv s : reachable s → ∃ h ls, Inv h ls s.
Proof.
  unfold reachable. revert s. apply (rtc_ind_r (λ s, ∃ h ls, Inv h ls s)).
  - exists [], []. constructor; cbn; try done.
    + by repeat (apply Forall_cons_2; [done|]); apply Forall_nil_2.
    + apply NoDup_nil_2.
    + intros p. by rewrite elem_of_nil.
  - intros s s' _ Hs (h & ls & HI). destruct Hs as [p c s s' Hs|p id o s Hp Ho].
    + destruct (step_inv _ _ _ _ _ _ HI Hs) as (x & h' & ls' & _ & HI' & _). by exists h', ls'.
    + exists h, ls. by apply arrive_inv.
Qed.

(** ** Progress *)

(** The process that has the mutex can always go on. *)
Lemma holder_steps h ls s p :
  Inv h ls s → mutex s = Some p →
  ∃ x c s', procs s !! p = Some x ∧ at_ x ≠ Waiting ∧ step_proc p c s = Some s'.
Proof.
  intros HI Hm. destruct (inv_holder _ _ _ HI p Hm) as [x Hp]. pose proof (inv_procs _ _ _ HI p x Hp) as Hok.
  unfold proc_ok in Hok. rewrite decide_True in Hok by done. destruct s as [d m ps o u].
  pose proof (inv_defined _ _ _ HI) as Hu. cbn in *. subst u m. exists x. rewrite Hp. cbn.
  unfold holder_ok in Hok. destruct (at_ x) eqn:Hat; try done.
  - exists O. destruct (_ =? _); eexists; (split; [done|]; split; [done|reflexivity]).
  - exists O. by eexists.
  - exists O. destruct (access_defined _ _ _ _ _ _ _ _ HI Hp Hat) as [[d' q] ->]. by eexists.
  - exists O. destruct (finish_inv _ _ _ _ _ _ _ _ HI Hp Hat) as (d' & q & h' & ls' & -> & _). by eexists.
  - exists O. destruct (fits_string _); eexists; (split; [done|]; split; [done|reflexivity]).
  - unfold nobody_waits. case_bool_decide as Hw; [exists O; by eexists|].
    apply map_not_Forall in Hw as (c & y & Hy & Hyw); [|apply _]. apply dec_stable in Hyw.
    exists c. rewrite Hy. cbn. rewrite bool_decide_eq_true_2 by done. by eexists.
  - exists O. by eexists.
Qed.

Lemma monitor_progress h ls s p x :
  Inv h ls s → procs s !! p = Some x → at_ x ≠ Waiting → (∀ v, at_ x ≠ Exited v) →
  ∃ p' x' c s', procs s !! p' = Some x' ∧ at_ x' ≠ Waiting ∧ step_proc p' c s = Some s'.
Proof.
  intros HI Hp Hw He. destruct (mutex s) as [q|] eqn:Hm; [exists q; by eapply holder_steps|].
  pose proof (inv_procs _ _ _ HI p x Hp) as Hok. unfold proc_ok in Hok. rewrite decide_False in Hok by congruence.
  destruct s as [d m ps o u]. pose proof (inv_defined _ _ _ HI) as Hu. cbn in *. subst u m.
  exists p, x, O. rewrite Hp. cbn. unfold outsider_ok in Hok.
  destruct (at_ x) as [| | | | | | | | | | | |w] eqn:Hat; try done; try (eexists; split_and!; [done|done|reflexivity]).
  by destruct (He w).
Qed.

(** ** The monitor is a stack *)

(** Between pthread_mutex_lock and pthread_mutex_unlock. *)
Definition inside (q : pc) : bool :=
  match q with Test | Load | Access _ | Finish _ | Report _ | Notify _ | Unlock _ => true | _ => false end.

(** The number a process pushed or popped, once it has. *)
Definition result (q : pc) : option Z :=
  match q with Report v | Notify v | Unlock v | Returned v | Exited v => Some v | _ => None end.

Lemma h_unique (h : list entry) p o v o' v' : NoDup (pids h) → (p, o, v) ∈ h → (p, o', v') ∈ h → o = o' ∧ v = v'.
Proof.
  intros Hnd [i Hi]%list_elem_of_lookup [j Hj]%list_elem_of_lookup. unfold pids in Hnd.
  assert (i = j) as ->; [|rewrite Hi in Hj; by simplify_eq].
  eapply NoDup_lookup; [exact Hnd|rewrite list_lookup_fmap, Hi|rewrite list_lookup_fmap, Hj]; done.
Qed.

Lemma inv_inside_iff h ls s p x :
  Inv h ls s → procs s !! p = Some x → inside (at_ x) = true ↔ mutex s = Some p.
Proof.
  intros HI Hp. pose proof (inv_procs _ _ _ HI p x Hp) as Hok. unfold proc_ok, holder_ok, outsider_ok in Hok.
  case_decide; destruct (at_ x); cbn; (contradiction || (split; congruence)).
Qed.

Lemma inv_result h ls s p x v :
  Inv h ls s → procs s !! p = Some x → result (at_ x) = Some v → (p, op x, v) ∈ h.
Proof.
  intros HI Hp Hv. pose proof (inv_procs _ _ _ HI p x Hp) as Hok. unfold proc_ok, holder_ok, outsider_ok in Hok.
  case_decide; destruct (at_ x); simplify_eq/=; tauto.
Qed.

Lemma inv_entry h ls s p o v :
  Inv h ls s → (p, o, v) ∈ h →
  ∃ x, procs s !! p = Some x ∧ op x = o ∧ (result (at_ x) = Some v ∨ mutex s = Some p).
Proof.
  intros HI Hin. destruct (inv_known _ _ _ HI p (pids_of _ _ _ _ Hin)) as [x Hp]. exists x. split; [done|].
  pose proof (inv_procs _ _ _ HI p x Hp) as Hok. unfold proc_ok, holder_ok, outsider_ok in Hok.
  pose proof (pids_of _ _ _ _ Hin) as Hpid.
  assert (∀ o' v', (p, o', v') ∈ h → o' = o ∧ v' = v) as Hu.
  { intros o' v' Hin'. by eapply h_unique; [exact (inv_nodup _ _ _ HI)|..]. }
  case_decide as Hm; destruct (at_ x); try (by tauto).
  1: { destruct Hok as (_ & _ & Hok). destruct (op x); [tauto|]. destruct Hok as (w & _ & _ & Hw).
       split; [by eapply Hu|by right]. }
  1-3: (split; [eapply (Hu _ v0); tauto|by right]).
  1-2: (destruct (Hu _ _ Hok) as [-> ->]; split; [done|by left]).
Qed.

Lemma inv_reports h ls s : Inv h ls s → reports (output s) `prefix_of` ls.
Proof.
  intros HI. destruct (mutex s) as [p|] eqn:Hm; [|by rewrite (inv_free _ _ _ HI Hm)].
  destruct (inv_holder _ _ _ HI p Hm) as [x Hp]. pose proof (inv_procs _ _ _ HI p x Hp) as Hok.
  unfold proc_ok in Hok. rewrite decide_True in Hok by done. unfold holder_ok in Hok.
  destruct (at_ x); try done; try (destruct Hok as [-> _]; done).
  - destruct Hok as (_ & _ & Hok). destruct (op x); [by destruct Hok as [-> _]|].
    destruct Hok as (v & _ & -> & _). by apply prefix_app_r.
  - destruct Hok as [-> _]. by apply prefix_app_r.
Qed.

(** C22: the monitor of stack.c, for any number of processes in any
    interleaving, spurious wake-ups included.  Nothing undefined happens: no
    access is outside the buffer and no text overruns the array of 25.  Only
    the process that has the mutex is inside.  The accesses amount to a
    sequence [h] of operations, one per process at most, of a stack of at most
    STACK_SIZE numbers: the buffer holds its contents, the lines printed are
    its lines in its order (all of them when nobody is inside), and the number
    a process has is the one of its operation.  And a process that is neither
    waiting nor through means that some process can go on. *)
Theorem monitor_correct s :
  reachable s →
  undefined s = false ∧ 0 <= index (globalStack s) <= STACK_SIZE ∧
  (∀ p x, procs s !! p = Some x → inside (at_ x) = true ↔ mutex s = Some p) ∧
  (∃ h ls, stack_run [] h = Some (take (Z.to_nat (index (globalStack s))) (buffer (globalStack s)), ls) ∧
     NoDup (pids h) ∧
     reports (output s) `prefix_of` ls ∧ (mutex s = None → ls = reports (output s)) ∧
     (∀ p x v, procs s !! p = Some x → result (at_ x) = Some v → (p, op x, v) ∈ h) ∧
     (∀ p o v, (p, o, v) ∈ h →
        ∃ x, procs s !! p = Some x ∧ op x = o ∧ (result (at_ x) = Some v ∨ mutex s = Some p))) ∧
  (∀ p x, procs s !! p = Some x → at_ x ≠ Waiting → (∀ v, at_ x ≠ Exited v) →
     ∃ p' x' c s', procs s !! p' = Some x' ∧ at_ x' ≠ Waiting ∧ step_proc p' c s = Some s').
Proof.
  intros (h & ls & HI)%monitor_inv.
  split; [apply (inv_defined _ _ _ HI)|]. split; [apply (inv_range _ _ _ HI)|].
  split; [intros p x; by eapply inv_inside_iff|]. split; [|intros p x; by eapply monitor_progress].
  exists h, ls. split; [apply (inv_run _ _ _ HI)|]. split; [apply (inv_nodup _ _ _ HI)|].
  split; [by eapply inv_reports|]. split; [apply (inv_free _ _ _ HI)|].
  split; [intros p x v; by eapply inv_result|intros p o v; by eapply inv_entry].
Qed.

(** A schedule: which process goes next, and whom it wakes if it signals. *)
Fixpoint run_schedule (sched : list (nat * nat)) (s : monitor) : option monitor :=
  match sched with
  | [] => Some s
  | (p, c) :: sched => s ← step_proc p c s; run_schedule sched s
  end.

Fixpoint arrivals (p : nat) (ops : list oper) (s : monitor) : monitor :=
  match ops with
  | [] => s
  | o :: ops => arrivals (S p) ops (arrive p (100 + Z.of_nat p) o s)
  end.

Lemma run_schedule_reachable sched s s' : reachable s → run_schedule sched s = Some s' → reachable s'.
Proof.
  revert s; induction sched as [|[p c] sched IH]; intros s Hs; simpl; [by intros [= <-]|].
  destruct (step_proc p c s) as [s1|] eqn:E; [|done]. simpl. apply IH.
  eapply rtc_r; [exact Hs|]. by apply (By_process p c).
Qed.

Lemma arrivals_reachable ops p s :
  reachable s → (∀ q, (p <= q)%nat → procs s !! q = None) → Forall small ops → reachable (arrivals p ops s).
Proof.
  revert p s; induction ops as [|o ops IH]; intros p s Hs Hn Hops; simpl; [done|].
  apply Forall_cons in Hops as [Ho Hops]. apply IH; [|intros q Hq|done].
  - eapply rtc_r; [exact Hs|]. by apply Arrives; [apply Hn; lia|].
  - destruct s as [d m ps out u]; cbn in *. rewrite lookup_insert_ne by lia. apply Hn. lia.
Qed.

(** Two numbers pushed and one popped; the popper came first, waited and was
    woken by the first push. *)
Definition three_ops : option monitor :=
  run_schedule (replicate 3 (0, 0) ++ replicate 10 (1, 0) ++ replicate 10 (2, 0) ++ replicate 9 (0, 0))%nat
    (arrivals 0 [Pop; Push 42; Push (-7)] fresh_monitor).

Lemma three_ops_reachable s : three_ops = Some s → reachable s.
Proof.
  apply run_schedule_reachable, arrivals_reachable; [apply rtc_refl|done|].
  by repeat (apply Forall_cons_2; [done|]); apply Forall_nil_2.
Qed.

Lemma monitor_witness :
  ∃ s, three_ops = Some s ∧ result <$> (at_ <$> procs s !! 0%nat) = Some (Some (-7)) ∧
    undefined s = false ∧ take (Z.to_nat (index (globalStack s))) (buffer (globalStack s)) = [42].
Proof.
  destruct three_ops as [s|] eqn:E; [|by vm_compute in E]. exists s. split; [done|].
  assert (reachable s) as Hr by (by apply three_ops_reachable).
  assert (three_ops = Some s → result <$> (at_ <$> procs s !! 0%nat) = Some (Some (-7)) ∧
    take (Z.to_nat (index (globalStack s))) (buffer (globalStack s)) = [42]) as H.
  { vm_compute. intros [= <-]. by split. }
  destruct (H E) as [H1 H2]. split; [exact H1|]. split; [apply (monitor_correct s Hr)|exact H2].
Defined.

(** One condition variable for both sorts of waiting: a pop may wake another
    popper instead of the pusher that waits for room.  Six poppers come first,
    then four pushers; in the end one pusher and three poppers wait, though
    the stack is empty. *)
Definition lost_wakeup : option monitor :=
  let popper_waits p := replicate 3 (p, O) in
  let pushes p c := replicate 10 (p, c) in
  let pops p c := replicate 9 (p, c) in
  run_schedule (concat ((popper_waits <$> [0; 1; 2; 3; 4; 5]) ++
      [pushes 6 0; pushes 7 1; pushes 8 2; replicate 3 (9, 0)] ++
      [pops 0 3; pops 1 4; pops 2 5; replicate 2 (3, 0); replicate 2 (4, 0); replicate 2 (5, 0)]))%nat
    (arrivals 0 (replicate 6 Pop ++ [Push 1; Push 2; Push 3; Push 4]) fresh_monitor).

Example wakeup_lost :
  (λ s, (index (globalStack s), mutex s, at_ <$> procs s !! 9%nat, op <$> procs s !! 9%nat,
     bool_decide (map_Forall (λ _ x, at_ x = Waiting ∨ result (at_ x) ≠ None) (procs s)))) <$> lost_wakeup =
  Some (0, None, Some Waiting, Some (Push 4), true).
Proof. by vm_compute. Qed.

(** A number of three digits overruns the array. *)
Example long_number_overruns :
  undefined <$> run_schedule (replicate 7 (0, 0))%nat (arrive 0 100 (Push 100) fresh_monitor) = Some true.
Proof. by vm_compute. Qed.

(** ** The program: one child at a time *)

(** The operations of the children, one after the other on a stack. *)
Fixpoint do_ops (i : nat) (ops : list oper) (st : list Z) : option (list Z * list (nat * line)) :=
  match ops with
  | [] => Some (st, [])
  | o :: ops =>
      '(st, l) ← stack_do st (i, o, match o with Push v => v | Pop => default 0 (last st) end);
      '(st, ls) ← do_ops (S i) ops st;
      Some (st, l :: ls)
  end.

Definition rank (q : pc) : nat :=
  match q with
  | Hello => 11 | Lock => 10 | Waiting | Relock => 10 | Test => 9 | Load => 8 | Access _ => 7 | Finish _ => 6
  | Report _ => 5 | Notify _ => 4 | Unlock _ => 3 | Returned _ => 2 | Exited _ => 1
  end.

(** A step of a process that has no other one to wake. *)
Lemma alone_step p c s s' :
  step_proc p c s = Some s' → undefined s' = false → (∀ j y, j ≠ p → procs s !! j = Some y → at_ y ≠ Waiting) →
  ∃ x q, procs s !! p = Some x ∧ procs s' = <[p := Process (pid x) (op x) q]> (procs s) ∧
    ((rank q < rank (at_ x))%nat ∧ q ≠ Waiting ∧ q ≠ Relock ∧ at_ x ≠ Waiting ∧ at_ x ≠ Relock ∨
     globalStack s' = globalStack s ∧
     (at_ x = Test ∧ q = Waiting ∧ index (globalStack s) = full_or_empty (op x) ∨
      at_ x = Waiting ∧ q = Relock ∨
      at_ x = Relock ∧ q = Test)).
Proof.
  destruct s as [d m ps o u]. unfold step_proc. cbn. intros Hs Hu Hc.
  destruct (ps !! p) as [x|] eqn:Hp; [|done]. cbn in Hs. exists x. destruct u; [done|].
  destruct (at_ x) eqn:Hat.
  - injection Hs as <-. exists Lock. cbn. split_and!; [done..|]. left. split_and!; [lia|done..].
  - destruct m; [done|]. injection Hs as <-. exists Test. cbn. split_and!; [done..|]. left. split_and!; [lia|done..].
  - destruct (Z.eqb_spec (index d) (full_or_empty (op x))); injection Hs as <-.
    + exists Waiting. cbn. split_and!; [done..|]. right. split; [done|]. by left.
    + exists Load. cbn. split_and!; [done..|]. left. split_and!; [lia|done..].
  - injection Hs as <-. exists Relock. cbn. split_and!; [done..|]. right. split; [done|]. right. by left.
  - destruct m; [done|]. injection Hs as <-. exists Test. cbn. split_and!; [done..|]. right. split; [done|]. right. by right.
  - injection Hs as <-. exists (Access (index d)). cbn. split_and!; [done..|]. left. split_and!; [lia|done..].
  - destruct (access (op x) i d) as [[d' q]|] eqn:Ha; injection Hs as <-; [|done]. exists q. cbn. split_and!; [done..|].
    left. unfold access in Ha. destruct (op x); [case_match; [|done]|]; injection Ha as <- <-; cbn; split_and!; (lia || done).
  - destruct (finish (op x) i d) as [[d' q]|] eqn:Ha; injection Hs as <-; [|done]. exists q. cbn. split_and!; [done..|].
    left. unfold finish in Ha. destruct (op x).
    + injection Ha as <- <-; cbn; split_and!; (lia || done).
    + destruct (in_buffer i); [|done]. destruct (buffer d !! _) as [v|]; [|done]. cbn in Ha.
      injection Ha as <- <-; cbn; split_and!; (lia || done).
  - destruct (fits_string _); injection Hs as <-; [|done]. exists (Notify v). cbn. split_and!; [done..|].
    left. split_and!; [lia|done..].
  - exists (Unlock v). assert (nobody_waits ps = true) as Hn.
    { unfold nobody_waits. apply bool_decide_eq_true. intros j y Hy. destruct (decide (j = p)) as [->|Hj]; [congruence|].
      by apply (Hc j). }
    rewrite Hn in Hs. injection Hs as <-. cbn. split_and!; [done..|]. left. split_and!; [lia|done..].
  - injection Hs as <-. exists (Returned v). cbn. split_and!; [done..|]. left. split_and!; [lia|done..].
  - injection Hs as <-. exists (Exited v). cbn. split_and!; [done..|]. left. split_and!; [lia|done..].
  - done.
Qed.

(** All processes but [i] have exited, and their numbers are below it. *)
Definition quiet (i : nat) (m : monitor) : Prop :=
  ∀ j x, j ≠ i → procs m !! j = Some x → (j < i)%nat ∧ ∃ v, at_ x = Exited v.

(** [k] operations are done, [h]. *)
Definition sys_ok (ops : list oper) (s : system) (k : nat) (h : list entry) (ls : list (nat * line)) : Prop :=
  Inv h ls (mon s) ∧ h.*1 = imap pair (take k ops) ∧ (k <= length ops)%nat ∧
  match parent s with
  | At_fork i => k = i ∧ procs (mon s) !! i = None ∧ quiet i (mon s)
  | At_wait i => (k = i ∨ k = S i) ∧ quiet i (mon s) ∧
      ∃ x, procs (mon s) !! i = Some x ∧ ops !! i = Some (op x) ∧
        (at_ x = Waiting ∨ at_ x = Relock → k = i ∧ index (globalStack (mon s)) = full_or_empty (op x))
  | Parent_exit c => (c = 1 ∨ c = 0 ∧ k = length ops) ∧ procs (mon s) !! k = None ∧ quiet k (mon s)
  end.

Lemma imap_pair_fst {A} (l : list A) n : (imap (λ i, pair (n + i)%nat) l).*1 = seq n (length l).
Proof.
  revert n; induction l as [|a l IH]; intros n; [done|]. cbn. rewrite Nat.add_0_r. f_equal.
  rewrite <-(IH (S n)). f_equal. apply imap_ext. intros i y _. cbn. f_equal. lia.
Qed.

Lemma done_pids (ops : list oper) k (h : list entry) : h.*1 = imap pair (take k ops) → (k <= length ops)%nat → pids h = seq 0 k.
Proof.
  intros Hh Hk. transitivity (h.*1.*1); [unfold pids; by rewrite <-list_fmap_compose|].
  rewrite Hh. replace (imap pair (take k ops)) with (imap (λ i, pair (0 + i)%nat) (take k ops)) by done.
  rewrite imap_pair_fst, length_take. f_equal. lia.
Qed.

Lemma done_next (ops : list oper) i (h : list entry) o (x : Z) :
  h.*1 = imap pair (take i ops) → ops !! i = Some o → (h ++ [(i, o, x)]).*1 = imap pair (take (S i) ops).
Proof.
  intros Hh Ho. rewrite fmap_app, Hh, (take_S_r _ _ _ Ho), imap_app. f_equal. cbn.
  rewrite length_take. apply lookup_lt_Some in Ho. do 2 f_equal. lia.
Qed.

Lemma quiet_arrive i id o m : quiet i m → quiet i (arrive i id o m).
Proof. intros Hq j x Hj. destruct m; cbn. rewrite lookup_insert_ne by done. by apply Hq. Qed.

Lemma parent_ok ops child s s' k h ls :
  Forall small ops → sys_ok ops s k h ls → parent_step ops child s = Some s' → ∃ k', sys_ok ops s' k' h ls.
Proof.
  intros Hops (HI & Hh & Hk & Hp) Hs. destruct s as [m [i|i|c]]; cbn in *; [| |done].
  - destruct Hp as (-> & Hi & Hq). destruct (ops !! i) as [o|] eqn:Ho; [destruct (child =? -1)|]; injection Hs as <-; exists i.
    + split; [done|]. split; [done|]. split; [done|]. split; [by left|done].
    + assert (small o) as Hsm by (rewrite Forall_lookup in Hops; by eapply Hops).
      split; [by apply arrive_inv|]. split; [done|]. split; [done|]. cbn. split; [by left|].
      split; [by apply quiet_arrive|]. destruct m; cbn. rewrite lookup_insert_eq. eexists. split; [done|]. split; [done|].
      by intros [?|?].
    + apply lookup_ge_None in Ho. split; [done|]. split; [done|]. split; [done|]. split; [right; split; [done|lia]|done].
  - destruct Hp as (Hki & Hq & x & Hx & Ho & _). rewrite Hx in Hs. cbn in Hs.
    destruct (at_ x) eqn:Hat; try done. injection Hs as <-. exists k.
    assert (i ∈ pids h) as Hin by (eapply pids_of, (inv_result _ _ _ _ _ v HI Hx); by rewrite Hat).
    rewrite (done_pids _ _ _ Hh Hk), elem_of_seq in Hin. assert (k = S i) as -> by lia.
    split; [done|]. split; [done|]. split; [done|]. cbn. split; [done|]. split.
    + destruct (procs m !! S i) eqn:E; [|done]. destruct (Hq (S i) _ ltac:(lia) E). lia.
    + intros j y Hj Hy. destruct (decide (j = i)) as [->|Hji].
      * rewrite Hx in Hy. injection Hy as <-. split; [lia|]. by exists v.
      * destruct (Hq _ _ Hji Hy) as [? ?]. split; [lia|done].
Qed.

(** Only the last child has steps to take. *)
Lemma runner ops p c m m' par k h ls :
  sys_ok ops (System m par) k h ls → step_proc p c m = Some m' → par = At_wait p.
Proof.
  intros (_ & _ & _ & Hp) Hs. cbn in *.
  assert (∃ x, procs m !! p = Some x ∧ ∀ v, at_ x ≠ Exited v) as (x & Hx & Hne).
  { destruct m as [d mu ps o u]. unfold step_proc in Hs. cbn in *. destruct (ps !! p) as [x|]; [|done]. exists x.
    split; [done|]. intros v Hv. cbn in Hs. rewrite Hv in Hs. by destruct u. }
  assert (∀ i, quiet i m → p = i) as Hq.
  { intros i Hq. destruct (decide (p = i)) as [|Hpi]; [done|]. destruct (Hq p x Hpi Hx) as [_ [v Hv]]. by destruct (Hne v). }
  destruct par as [i|i|e].
  - destruct Hp as (_ & Hn & Hp). rewrite (Hq i Hp) in Hx. congruence.
  - destruct Hp as (_ & Hp & _). by rewrite (Hq i Hp).
  - destruct Hp as (_ & Hn & Hp). rewrite (Hq k Hp) in Hx. congruence.
Qed.

Lemma inv_before h ls s p (x : process) :
  Inv h ls s → procs s !! p = Some x → at_ x = Test ∨ at_ x = Waiting ∨ at_ x = Relock → p ∉ pids h.
Proof.
  intros HI Hp Hat. pose proof (inv_procs _ _ _ HI p x Hp) as Hok. unfold proc_ok, holder_ok, outsider_ok in Hok.
  case_decide; destruct Hat as [E|[E|E]]; rewrite E in Hok; tauto.
Qed.

(** What a step of the child adds to what is done. *)
Lemma extends_done (ops : list oper) i (x : process) k h h' :
  h.*1 = imap pair (take k ops) → (k <= length ops)%nat → k = i ∨ k = S i → ops !! i = Some (op x) → extends h h' i x →
  ∃ k', h'.*1 = imap pair (take k' ops) ∧ (k' <= length ops)%nat ∧ (k' = i ∨ k' = S i).
Proof.
  intros Hh Hk Hki Ho [->|[Hn [v ->]]]; [by exists k|].
  rewrite (done_pids _ _ _ Hh Hk), elem_of_seq in Hn. assert (k = i) as -> by lia. exists (S i).
  split; [by apply done_next|]. apply lookup_lt_Some in Ho. split; [lia|by right].
Qed.

(** The child steps alone. *)
Lemma child_ok ops p c m m' par k h ls :
  sys_ok ops (System m par) k h ls → step_proc p c m = Some m' →
  ∃ k' h' ls', sys_ok ops (System m' par) k' h' ls' ∧
    ∃ x q, procs m !! p = Some x ∧ procs m' !! p = Some (Process (pid x) (op x) q) ∧ ops !! p = Some (op x) ∧
      ((rank q < rank (at_ x))%nat ∨ k = p ∧ index (globalStack m) = full_or_empty (op x)).
Proof.
  intros Hok Hs. pose proof (runner _ _ _ _ _ _ _ _ _ Hok Hs) as ->. destruct Hok as (HI & Hh & Hk & Hki & Hq & x & Hx & Ho & Hw).
  cbn in *. destruct (step_inv _ _ _ _ _ _ HI Hs) as (x' & h' & ls' & Hx' & HI' & Hext).
  assert (x' = x) as -> by congruence.
  destruct (alone_step _ _ _ _ Hs (inv_defined _ _ _ HI')) as (x' & q & Hx'' & Hps & Hq').
  { intros j y Hj Hy. destruct (Hq j y Hj Hy) as [_ [v ->]]. done. }
  assert (x' = x) as -> by congruence. clear Hx' Hx''.
  destruct (extends_done _ _ _ _ _ _ Hh Hk Hki Ho Hext) as (k' & Hh' & Hk' & Hki').
  assert (procs m' !! p = Some (Process (pid x) (op x) q)) as Hx' by (by rewrite Hps, lookup_insert_eq).
  assert (p ∉ pids h → k = p) as Hkp by (rewrite (done_pids _ _ _ Hh Hk), elem_of_seq; lia).
  assert (p ∉ pids h' → k' = p) as Hkp' by (rewrite (done_pids _ _ _ Hh' Hk'), elem_of_seq; lia).
  exists k', h', ls'. split.
  - split; [done|]. split; [done|]. split; [done|]. cbn. split; [done|]. split.
    { intros j y Hj. rewrite Hps, lookup_insert_ne by done. by apply Hq. }
    eexists. split; [exact Hx'|]. split; [done|]. cbn. intros Hw'.
    split; [apply Hkp', (inv_before _ _ _ _ _ HI' Hx'); cbn; tauto|].
    destruct Hq' as [(_ & ? & ? & _)|[-> [(_ & _ & E)|[(E & _)|(_ & E)]]]]; [tauto|exact E|apply Hw; tauto|].
    rewrite E in Hw'. by destruct Hw'.
  - exists x, q. split; [done|]. split; [done|]. split; [done|].
    destruct Hq' as [(? & _)|[_ Hq']]; [by left|]. right.
    destruct Hq' as [(E & _ & Hfull)|[(E & _)|(E & _)]]; [|apply Hw; tauto..].
    split; [|done]. apply Hkp, (inv_before _ _ _ _ _ HI Hx). tauto.
Qed.

Lemma sys_step_ok ops s s' k h ls :
  Forall small ops → sys_ok ops s k h ls → sys_step ops s s' → ∃ k' h' ls', sys_ok ops s' k' h' ls'.
Proof.
  intros Hops Hok Hstep. destruct Hstep as [child s s' Hs|p c m m' par Hs].
  - destruct (parent_ok _ _ _ _ _ _ _ Hops Hok Hs) as [k' ?]. by exists k', h, ls.
  - destruct (child_ok _ _ _ _ _ _ _ _ _ Hok Hs) as (k' & h' & ls' & ? & _). by exists k', h', ls'.
Qed.

Lemma sys_reach ops s : Forall small ops → rtc (sys_step ops) fresh_system s → ∃ k h ls, sys_ok ops s k h ls.
Proof.
  intros Hops. revert s. apply (rtc_ind_r (λ s, ∃ k h ls, sys_ok ops s k h ls)).
  - destruct (monitor_inv fresh_monitor) as (h & ls & HI); [apply rtc_refl|].
    assert (h = []) as ->.
    { destruct h as [|e h]; [done|]. destruct (inv_known _ _ _ HI e.1.1) as [x Hx]; [by apply elem_of_cons; left|].
      cbn in Hx. by rewrite lookup_empty in Hx. }
    exists O, [], ls. split; [done|]. split; [done|]. split; [lia|]. cbn. split; [done|]. split; [done|].
    intros j x _. cbn. by rewrite lookup_empty.
  - intros s s' _ Hs (k & h & ls & Hok). by eapply sys_step_ok.
Qed.

(** The entries of the children are the operations drawn, in order. *)
Lemma run_do i ops st h r :
  stack_run st h = Some r → h.*1 = imap (λ j, pair (i + j)%nat) ops → do_ops i ops st = Some r.
Proof.
  revert i ops st r; induction h as [|[[p o] v] h IH]; intros i ops st r Hr Hh; destruct ops as [|o' ops]; try done.
  cbn in Hh. rewrite Nat.add_0_r in Hh. injection Hh as -> -> Hh. cbn [stack_run do_ops] in *.
  destruct (stack_do st (i, o', v)) as [[st1 l]|] eqn:E; [|done]. cbn in Hr.
  assert (match o' with Push v => v | Pop => default 0 (last st) end = v) as ->.
  { destruct o'; cbn in E; case_bool_decide as Hb; try done; [by destruct Hb|by rewrite Hb]. }
  rewrite E. cbn. destruct (stack_run st1 h) as [[st2 ls]|] eqn:E2; [|done]. cbn in Hr.
  rewrite (IH (S i) ops st1 _ E2); [exact Hr|]. rewrite Hh. apply imap_ext. intros j y _. cbn. f_equal. lia.
Qed.

Lemma do_ops_app i a b st st1 l1 :
  do_ops i a st = Some (st1, l1) →
  do_ops i (a ++ b) st = '(st2, l2) ← do_ops (i + length a) b st1; Some (st2, l1 ++ l2).
Proof.
  revert i st l1; induction a as [|o a IH]; intros i st l1; cbn [do_ops app length].
  - intros [= -> <-]. rewrite Nat.add_0_r. by destruct (do_ops i b st1) as [[? ?]|].
  - destruct (stack_do st _) as [[st2 l]|]; [|done]. cbn. destruct (do_ops (S i) a st2) as [[st3 l3]|] eqn:E; [|done].
    cbn. intros [= -> <-]. rewrite (IH _ _ _ E), Nat.add_succ_r. cbn.
    by destruct (do_ops _ b st1) as [[? ?]|].
Qed.

Lemma do_ops_prefix i a b st : do_ops i a st = None → do_ops i (a ++ b) st = None.
Proof.
  revert i st; induction a as [|o a IH]; intros i st; cbn [do_ops app]; [done|].
  destruct (stack_do st _) as [[st2 l]|]; [|done]. cbn. destruct (do_ops (S i) a st2) as [[st3 l3]|] eqn:E; [done|].
  intros _. by rewrite (IH _ _ E).
Qed.

Lemma sys_done ops s k h ls :
  sys_ok ops s k h ls → 
  do_ops 0 (take k ops) [] = Some (take (Z.to_nat (index (globalStack (mon s)))) (buffer (globalStack (mon s))), ls).
Proof. intros (HI & Hh & _). by apply (run_do 0 _ _ h); [apply (inv_run _ _ _ HI)|]. Qed.

(** A process that found the stack full or empty asks for the impossible. *)
Lemma impossible ops s k h ls x :
  sys_ok ops s k h ls → ops !! k = Some (op x) → index (globalStack (mon s)) = full_or_empty (op x) →
  do_ops 0 (take (S k) ops) [] = None.
Proof.
  intros Hok Ho Hi. pose proof (sys_done _ _ _ _ _ Hok) as Hd. destruct Hok as (HI & _).
  pose proof (inv_length _ _ _ HI) as Hl.
  rewrite (take_S_r _ _ _ Ho), (do_ops_app _ _ _ _ _ _ Hd), Hi. cbn [do_ops]. destruct (op x) as [v|]; cbn.
  - rewrite length_take, Hl, bool_decide_eq_false_2; [done|]. unfold STACK_SIZE. lia.
  - done.
Qed.

Lemma draws_small rands : Forall small (draw <$> rands).
Proof.
  apply Forall_fmap, Forall_true. intros [a b]. unfold compose, draw, small. cbn.
  destruct (_ =? 0); [|done]. pose proof (Z.mod_pos_bound (Z.of_N b) 100 ltac:(lia)). lia.
Qed.

(** What is left to do. *)
Definition steps_left (ops : list oper) (s : system) : nat :=
  match parent s with
  | At_fork i => 20 * (length ops - i) + 12
  | At_wait i => 20 * (length ops - i) + match procs (mon s) !! i with Some x => rank (at_ x) | None => 0 end
  | Parent_exit _ => 0
  end.

Lemma sys_step_fewer ops s s' k h ls :
  Forall small ops → is_Some (do_ops 0 ops []) → sys_ok ops s k h ls → sys_step ops s s' →
  (steps_left ops s' < steps_left ops s)%nat.
Proof.
  intros Hops [r Hr] Hok Hstep. unfold steps_left. destruct Hstep as [child s s' Hs|p c m m' par Hs].
  - destruct Hok as (HI & _ & _ & Hp). destruct s as [m [i|i|e]]; cbn in *; [| |done].
    + destruct (ops !! i) as [o|] eqn:Ho; [destruct (child =? -1)|]; injection Hs as <-; cbn; try lia.
      apply lookup_lt_Some in Ho. destruct m; cbn. rewrite lookup_insert_eq. cbn. lia.
    + destruct Hp as (_ & _ & x & Hx & Ho & _). rewrite Hx in *. cbn in Hs. apply lookup_lt_Some in Ho.
      destruct (at_ x); try done. injection Hs as <-. cbn. lia.
  - pose proof (runner _ _ _ _ _ _ _ _ _ Hok Hs) as ->.
    destruct (child_ok _ _ _ _ _ _ _ _ _ Hok Hs) as (_ & _ & _ & _ & x & q & Hx & Hx' & Ho & [Hlt|[-> Hfull]]); cbn.
    + rewrite Hx, Hx'. cbn. lia.
    + pose proof (impossible _ _ _ _ _ _ Hok Ho Hfull) as Hn.
      apply (do_ops_prefix _ _ (drop (S p) ops)) in Hn. rewrite take_drop in Hn. congruence.
Qed.

Lemma sys_not_stuck ops s k h ls :
  is_Some (do_ops 0 ops []) → sys_ok ops s k h ls → (∃ c, parent s = Parent_exit c) ∨ ∃ s', sys_step ops s s'.
Proof.
  intros [r Hr] Hok. pose proof Hok as (HI & _ & _ & Hp). destruct s as [m [i|i|e]]; cbn in *; [| |left; by eexists].
  - right. destruct (ops !! i) as [o|] eqn:Ho.
    + exists (System m (Parent_exit 1)). apply (By_parent _ (-1)). cbn. by rewrite Ho.
    + eexists. apply (By_parent _ 0). cbn. by rewrite Ho.
  - right. destruct Hp as (_ & Hq & x & Hx & Ho & Hw).
    destruct (decide (at_ x = Waiting)) as [E|Hnw].
    { destruct (Hw (or_introl E)) as [-> Hfull]. pose proof (impossible _ _ _ _ _ _ Hok Ho Hfull) as Hn.
      apply (do_ops_prefix _ _ (drop (S i) ops)) in Hn. rewrite take_drop in Hn. congruence. }
    destruct (at_ x) as [| | | | | | | | | | | |v] eqn:Hat.
    all: try (destruct (monitor_progress _ _ _ _ _ HI Hx) as (p & y & c & m' & _ & _ & Hs); [by rewrite Hat|by rewrite Hat|];
              exists (System m' (At_wait i)); by apply (By_child _ p c)).
    exists (System m (At_fork (S i))). apply (By_parent _ 0). cbn. rewrite Hx. cbn. by rewrite Hat.
Qed.

Lemma steps_bounded ops n s s' k h ls :
  Forall small ops → is_Some (do_ops 0 ops []) → sys_ok ops s k h ls → nsteps (sys_step ops) n s s' →
  (n <= steps_left ops s)%nat.
Proof.
  intros Hops Hall Hok Hn. revert k h ls Hok. induction Hn as [s|n s s1 s2 Hs _ IH]; intros k h ls Hok; [lia|].
  destruct (sys_step_ok _ _ _ _ _ _ Hops Hok Hs) as (k1 & h1 & ls1 & Hok1).
  pose proof (sys_step_fewer _ _ _ _ _ _ Hops Hall Hok Hs). pose proof (IH _ _ _ Hok1). lia.
Qed.

Lemma steps_left_le ops s : (steps_left ops s <= 20 * length ops + 12)%nat.
Proof.
  unfold steps_left. destruct (parent s) as [i|i|]; [lia| |lia].
  destruct (procs (mon s) !! i) as [x|]; [|lia]. assert (rank (at_ x) <= 12)%nat by (destruct (at_ x); cbn; lia). lia.
Qed.

(** Past the impossible there is nothing. *)
Lemma do_ops_beyond ops k k0 st : do_ops 0 (take (S k0) ops) st = None → (k0 < k)%nat → do_ops 0 (take k ops) st = None.
Proof.
  intros Hn Hk. apply (do_ops_prefix _ _ (drop (S k0) (take k ops))) in Hn.
  replace (take (S k0) ops) with (take (S k0) (take k ops)) in Hn by (rewrite take_take; f_equal; lia).
  by rewrite take_drop in Hn.
Qed.

(** A child that asks for the impossible blocks the program for ever. *)
Lemma sys_blocked ops s s' k :
  Forall small ops → do_ops 0 (take (S k) ops) [] = None → (∃ k' h ls, sys_ok ops s k' h ls) →
  rtc (sys_step ops) s s' → parent s = At_wait k → parent s' = At_wait k.
Proof.
  intros Hops Hn Hok Hrun. induction Hrun as [s|s s1 s2 Hs _ IH]; [done|]. intros Hw.
  destruct Hok as (k' & h & ls & Hok). apply IH; [by eapply sys_step_ok|].
  destruct (sys_step_ok _ _ _ _ _ _ Hops Hok Hs) as (k1 & h1 & ls1 & Hok1).
  destruct Hs as [child s s' Hs|p c m m' par Hs]; [|done]. exfalso.
  destruct s as [m par]; cbn in Hw. subst par. cbn in Hs. destruct (procs m !! k) as [x|]; [|done]. cbn in Hs.
  destruct (at_ x); try done. injection Hs as <-. pose proof (sys_done _ _ _ _ _ Hok1) as Hd.
  destruct Hok1 as (_ & _ & _ & -> & _). congruence.
Qed.

(** The program of process.c after its set-up, for the numbers rand()
    gave and any interleaving of parent and child: the operations are done in
    the order of the children, each once, and the lines printed are those of a
    stack; nothing undefined happens.  When all the operations drawn are
    possible in that order, the program always ends, in a number of steps
    bounded by that of the children, and unless fork failed it did them all.
    When the operation of child [k] is impossible, a pop of the empty stack or
    a push on the full one, the parent never gets past it: it waits for ever
    for a child that nobody will wake. *)
Theorem process_main_correct rands s :
  let ops := draw <$> rands in
  rtc (sys_step ops) fresh_system s →
  undefined (mon s) = false ∧
  (∃ k st ls, do_ops 0 (take k ops) [] = Some (st, ls) ∧ reports (output (mon s)) `prefix_of` ls ∧
     match parent s with
     | At_fork i => k = i ∧ reports (output (mon s)) = ls
     | At_wait i => k = i ∨ k = S i
     | Parent_exit c => (c = 1 ∨ c = 0 ∧ k = length rands) ∧ reports (output (mon s)) = ls
     end) ∧
  (is_Some (do_ops 0 ops []) →
     ((∃ c, parent s = Parent_exit c) ∨ ∃ s', sys_step ops s s') ∧
     ∀ n s', nsteps (sys_step ops) n s s' → (n <= 20 * length rands + 12)%nat) ∧
  (∀ k, do_ops 0 (take (S k) ops) [] = None →
     parent s ≠ Parent_exit 0 ∧ (∀ i, parent s = At_fork i ∨ parent s = At_wait i → (i <= k)%nat) ∧
     (parent s = At_wait k → ∀ s', rtc (sys_step ops) s s' → parent s' = At_wait k)).
Proof.
  intros ops Hrun. pose proof (draws_small rands) as Hops. fold ops in Hops.
  destruct (sys_reach ops s Hops Hrun) as (k & h & ls & Hok). pose proof Hok as (HI & Hh & Hk & Hp).
  pose proof (sys_done _ _ _ _ _ Hok) as Hd.
  assert (∀ i, procs (mon s) !! i = None ∧ quiet i (mon s) → reports (output (mon s)) = ls) as Hfree.
  { intros i [Hi Hq]. symmetry. apply (inv_free _ _ _ HI). destruct (mutex (mon s)) as [p|] eqn:Hm; [|done].
    destruct (inv_holder _ _ _ HI p Hm) as [x Hx]. destruct (decide (p = i)) as [->|Hpi]; [congruence|].
    destruct (Hq p x Hpi Hx) as [_ [v Hv]]. pose proof (proj2 (inv_inside_iff _ _ _ _ _ HI Hx) Hm) as Hin.
    by rewrite Hv in Hin. }
  split; [apply (inv_defined _ _ _ HI)|]. split; [|split].
  - eexists k, _, ls. split; [exact Hd|]. split; [by eapply inv_reports|].
    assert (length ops = length rands) as Hlen by apply length_fmap.
    destruct (parent s) as [i|i|c]; [|tauto|].
    + split; [tauto|]. apply (Hfree i). tauto.
    + split; [rewrite <-Hlen; tauto|]. apply (Hfree k). tauto.
  - intros Hall. split; [by eapply sys_not_stuck|]. intros n s' Hn.
    rewrite <-(length_fmap draw rands). fold ops. etransitivity; [by eapply steps_bounded|apply steps_left_le].
  - intros k0 Hn. assert (k <= k0)%nat as Hle.
    { destruct (decide (k0 < k)%nat) as [Hlt|]; [|lia]. pose proof (do_ops_beyond _ _ _ _ Hn Hlt). congruence. }
    split; [|split].
    + intros E. rewrite E in Hp. destruct Hp as ([?|[_ ->]] & _); [done|]. rewrite take_ge in Hn by lia.
      rewrite firstn_all in Hd. congruence.
    + intros i [E|E]; rewrite E in Hp; [destruct Hp; lia|]. destruct Hp as ([-> | ->] & _); lia.
    + intros E s' Hs'. eapply sys_blocked; [exact Hops|exact Hn| |exact Hs'|exact E]. by exists k, h, ls.
Qed.

(** A run: what fork returns to the parent, or which process steps. *)
Fixpoint run_sys (ops : list oper) (moves : list (Z + nat * nat)) (s : system) : option system :=
  match moves with
  | [] => Some s
  | inl child :: moves => s ← parent_step ops child s; run_sys ops moves s
  | inr (p, c) :: moves => m ← step_proc p c (mon s); run_sys ops moves (System m (parent s))
  end.

Lemma run_sys_rtc ops moves s s' : run_sys ops moves s = Some s' → rtc (sys_step ops) s s'.
Proof.
  revert s; induction moves as [|[child|[p c]] moves IH]; intros s; simpl.
  - intros [= ->]. apply rtc_refl.
  - destruct (parent_step ops child s) as [s1|] eqn:E; [|done]. intros H%IH.
    eapply rtc_l; [by apply (By_parent _ child)|done].
  - destruct s as [m par]. cbn. destruct (step_proc p c m) as [m1|] eqn:E; [|done]. intros H%IH.
    eapply rtc_l; [by apply (By_child _ p c)|done].
Qed.

(** A push and a pop, up to the end; and a pop that comes first. *)
Definition child_moves (i : nat) (n : nat) : list (Z + nat * nat) := inl (200 + Z.of_nat i) :: replicate n (inr (i, O)).

Lemma process_main_witness :
  let good := [(0, 7); (1, 0)]%N in
  let bad := [(1, 0); (0, 7)]%N in
  (∃ s, run_sys (draw <$> good) (child_moves 0 10 ++ [inl 0] ++ child_moves 1 10 ++ [inl 0; inl 0]) fresh_system = Some s ∧
     parent s = Parent_exit 0 ∧ reports (output (mon s)) = [(0%nat, Line_pushed 7 0); (1%nat, Line_popped 7 0)] ∧
     undefined (mon s) = false) ∧
  (∃ s, run_sys (draw <$> bad) (child_moves 0 3) fresh_system = Some s ∧
     ∀ s', rtc (sys_step (draw <$> bad)) s s' → parent s' = At_wait 0).
Proof.
  intros good bad. split.
  - set (ops := draw <$> good).
    destruct (run_sys ops (child_moves 0 10 ++ [inl 0] ++ child_moves 1 10 ++ [inl 0; inl 0]) fresh_system) as [s|] eqn:E;
      [|by vm_compute in E].
    exists s. split; [done|].
    assert (rtc (sys_step ops) fresh_system s) as Hr by (eapply run_sys_rtc; exact E).
    assert (parent s = Parent_exit 0 ∧ reports (output (mon s)) = [(0%nat, Line_pushed 7 0); (1%nat, Line_popped 7 0)]) as [H1 H2].
    { clear Hr. revert E. vm_compute. by intros [= <-]. }
    split; [exact H1|]. split; [exact H2|]. exact (proj1 (process_main_correct good s Hr)).
  - set (ops := draw <$> bad).
    destruct (run_sys ops (child_moves 0 3) fresh_system) as [s|] eqn:E; [|by vm_compute in E].
    exists s. split; [done|].
    assert (rtc (sys_step ops) fresh_system s) as Hr by (eapply run_sys_rtc; exact E).
    assert (parent s = At_wait 0) as H1.
    { clear Hr. revert E. vm_compute. by intros [= <-]. }
    destruct (process_main_correct bad s Hr) as (_ & _ & _ & Hbad).
    apply (Hbad 0%nat); [by vm_compute|exact H1].
Defined.

(** The set-up: it leaves with a positive number of children, or ends. *)
Lemma process_setup_ends {S} `{os} argv (s : st S) :
  wp (process_setup argv)
    (λ n _, ∃ prog a, argv = [prog; a] ∧ n = atoi a ∧ 0 < n)
    (λ t _, t = Exit 1 ∨ ∃ prog a w, argv = [prog; a] ∧ atoi a <= 0 ∧ t = Undefined w) s.
Proof.
  unfold process_setup. destruct argv as [|prog [|a [|? ?]]]; try (apply wp_bind, wp_emit, wp_stop; by left).
  destruct (Z.leb_spec (atoi a) 0).
  { apply wp_stop. right. by eexists prog, a, _. }
  repeat match goal with
  | |- wp (perror_exit _) _ _ _ => unfold perror_exit, perror; apply wp_bind, wp_bind, wp_get_errno, wp_emit, wp_stop; by left
  | |- wp (mret _) _ _ _ => apply wp_ret
  | |- wp (when ?b _) _ _ _ => destruct b; cbn [when]
  | |- wp (sys _) _ _ _ => apply wp_call; intros ? ? _ _ _ _ _
  | |- wp (_ ≫= _) _ _ _ => apply wp_bind
  | |- wp (let _ := _ in _) _ _ _ => cbv zeta
  end.
  by exists prog, a.
Qed.
