(* ===== verification/Dict.v ===== *)
(** The dictionary of homework/hw5/5-3 and homework/hw11.

    The programs share dict.h and main.c: "the same main will do to test all
    the versions of lookup".  Here are the records of dict.h, the interface
    [Dictionary] that states what every version of [lookup] promises, and the
    main program, proved against the interface.  The versions are in
    DictLookup.v (local files) and DictNet.v (sockets). *)
From S2P Require Import Prelude Sys.

(** ** dict.h *)

Definition WORD : nat := 32.
Definition TEXT : nat := 480.
Definition FOUND : Z := 0.
Definition NOTFOUND : Z := 1.
Definition UNAVAIL : Z := 2.

(** The two character arrays of a Dictrec, and the record as bytes. *)
Record Dictrec := Rec { word : cstr; text : cstr }.
Definition SIZEOF_DICTREC : Z := 512.

Definition rec_bytes (r : Dictrec) : cstr := word r ++ text r.
Definition rec_of (bs : cstr) : Dictrec := Rec (take WORD bs) (take TEXT (drop WORD bs)).
Definition zero_rec : Dictrec := Rec (replicate WORD NUL) (replicate TEXT NUL).

(** strcpy and strcat into an array; [None] when it does not fit. *)
Definition strcpy (dst src : cstr) : option cstr :=
  if bool_decide (length src < length dst)%nat
  then Some (src ++ NUL :: drop (S (length src)) dst) else None.
Definition strcat (dst src : cstr) : option cstr :=
  let n := (length (c_str dst) + length src)%nat in
  if bool_decide (n < length dst)%nat
  then Some (c_str dst ++ src ++ NUL :: drop (S n) dst) else None.

(** [strcmp]: characters compare as unsigned char. *)
Fixpoint strcmp (a b : cstr) : comparison :=
  match a, b with
  | [], [] => Eq
  | [], _ => Lt
  | _, [] => Gt
  | c :: a, d :: b => match code c ?= code d with Eq => strcmp a b | r => r end
  end.

(** [s[strcspn (s, "\n")] = '\0']: the text up to the first newline. *)
Definition chomp (s : cstr) : cstr := match strchr NL s with Some (b, _) => b | None => s end.

Section Functions.
Context {S : Type} `{os}.

(** #define DIE(x) perror(x),exit(1) *)
Definition DIE {A} (x : cstr) : M S A := perror_exit x.

Definition fits (o : option cstr) : M S cstr :=
  match o with Some b => mret b | None => stop_with (Undefined "array overrun") end.
End Functions.

(** ** main.c (hw11), for any version of lookup *)

Section Main.
Context {S : Type} `{os} (lookup : Dictrec → M S (Z * Dictrec)).

(** The line read into the array [word], less its last character. *)
Definition enter_word (w line : cstr) : M S cstr :=
  b ← fits (strcpy w line);
  match length line with
  | O => stop_with (Undefined "tryit.word[-1]")
  | Datatypes.S n => mret (<[n := NUL]> b)
  end.

(** One turn: [inr] at the end of the input. *)
Definition ask (resource : cstr) (tryit : Dictrec) : M S (Dictrec + unit) :=
  out Stderr (str "What word do you want : ");;
  r ← sys (Cfgets (Z.of_nat WORD));
  if rv r =? 0 then mret (inr tt) else
  w ← enter_word (word tryit) (c_str (rdata r));
  '(z, tryit) ← lookup (Rec w (text tryit));
  (if z =? FOUND then out Stdout (c_str (word tryit) ++ str " : " ++ c_str (text tryit))
   else if z =? NOTFOUND then out Stdout (c_str (word tryit) ++ str " : Not Found!" ++ [NL])
   else if z =? UNAVAIL then DIE resource
   else mret tt);;
  mret (inl tryit).

(** [tryit] is not initialised: any contents. *)
Definition dict_main (fuel : nat) (argv : list cstr) (tryit : Dictrec) : M S Z :=
  match argv with
  | [_; resource] => loop fuel (ask resource) tryit;; mret 0
  | _ =>
      out Stderr (str "Usage : " ++ default [] (argv !! 0%nat) ++ str " <resource>" ++ [NL]);;
      e ← get_errno;
      stop_with (Exit e)
  end.
End Main.

(** ** Arrays and strings *)

(** A record whose arrays have their sizes, and one whose word is terminated. *)
Definition shape (r : Dictrec) : Prop := length (word r) = WORD ∧ length (text r) = TEXT.
Definition query (r : Dictrec) : Prop := shape r ∧ NUL ∈ word r.
Definition rec_ok (r : Dictrec) : Prop := query r ∧ NUL ∈ text r.

Lemma c_str_id s : NUL ∉ s → c_str s = s.
Proof.
  induction s as [|c s IH]; simpl; [done|]. intros [Hc Hs]%not_elem_of_cons.
  rewrite decide_False by done. by rewrite IH.
Qed.

Lemma c_str_length b : (length (c_str b) <= length b)%nat.
Proof. induction b as [|c b IH]; simpl; [lia|]. case_decide; simpl; lia. Qed.

Lemma c_str_short b : NUL ∈ b → (length (c_str b) < length b)%nat.
Proof.
  induction b as [|c b IH]; [by intros ?%elem_of_nil|]. simpl. case_decide; simpl; [lia|].
  intros [Hc|Hb]%elem_of_cons; [congruence|]. specialize (IH Hb). lia.
Qed.

Lemma strcpy_fits dst src : (length src < length dst)%nat → NUL ∉ src →
  ∃ b, strcpy dst src = Some b ∧ c_str b = src ∧ length b = length dst ∧ NUL ∈ b.
Proof.
  intros Hl Hn. unfold strcpy. rewrite bool_decide_true by done. eexists. split; [done|].
  split; [by apply c_str_text|]. split; [rewrite length_app, length_cons, length_drop; lia|].
  apply elem_of_app. right. apply elem_of_cons. by left.
Qed.

Lemma strcat_fits dst src : (length (c_str dst) + length src < length dst)%nat → NUL ∉ src →
  ∃ b, strcat dst src = Some b ∧ c_str b = c_str dst ++ src ∧ length b = length dst ∧ NUL ∈ b.
Proof.
  intros Hl Hn. unfold strcat. rewrite bool_decide_true by done. eexists. split; [done|].
  rewrite app_assoc. split.
  { apply c_str_text. rewrite not_elem_of_app. split; [apply c_str_no_nul|done]. }
  split; [rewrite !length_app, length_cons, length_drop; lia|].
  apply elem_of_app. right. apply elem_of_cons. by left.
Qed.

Lemma rec_of_bytes r tl : shape r → rec_of (rec_bytes r ++ tl) = r.
Proof.
  intros [Hw Ht]. destruct r as [w t]; simpl in *. unfold rec_of, rec_bytes; simpl.
  rewrite <-app_assoc. f_equal.
  - rewrite take_app_le by lia. apply take_ge. lia.
  - rewrite drop_app_le, drop_ge by lia. simpl. rewrite take_app_le by lia. apply take_ge. lia.
Qed.

Lemma rec_of_rec_bytes r : shape r → rec_of (rec_bytes r) = r.
Proof. intros Hr. pose proof (rec_of_bytes r [] Hr) as E. by rewrite app_nil_r in E. Qed.

Lemma rec_bytes_length r : shape r → length (rec_bytes r) = (WORD + TEXT)%nat.
Proof. intros [Hw Ht]. unfold rec_bytes. rewrite length_app. lia. Qed.

Lemma wp_fits {S} (o : option cstr) b (Q : cstr → st S → Prop) E s :
  o = Some b → Q b s → wp (fits o) Q E s.
Proof. by intros ->. Qed.

(** ** What a run prints *)

Definition said (f : stream) (tr : list event) : cstr :=
  concat (omap (λ e, match e with Eout g t => if decide (g = f) then Some t else None | _ => None end) tr).

Lemma said_app f a b : said f (a ++ b) = said f a ++ said f b.
Proof. unfold said. by rewrite omap_app, concat_app. Qed.

Definition asked (tr : list event) : nat :=
  length (filter (λ x, match x.1 with Cfgets _ => true | _ => false end = true) (calls tr)).

Lemma asked_app a b : asked (a ++ b) = (asked a + asked b)%nat.
Proof. unfold asked. by rewrite calls_app, filter_app, length_app. Qed.

Lemma asked_gets tr n r : asked (tr ++ [Esys (Cfgets n) r]) = Datatypes.S (asked tr).
Proof. rewrite asked_app. change (asked [Esys (Cfgets n) r]) with 1%nat. lia. Qed.

Lemma asked_out tr f t : asked (tr ++ [Eout f t]) = asked tr.
Proof. rewrite asked_app. change (asked [Eout f t]) with 0%nat. lia. Qed.

Lemma said_sys f tr c r : said f (tr ++ [Esys c r]) = said f tr.
Proof. rewrite said_app. apply app_nil_r. Qed.

Lemma said_out f tr t : said f (tr ++ [Eout f t]) = said f tr ++ t.
Proof. rewrite said_app. f_equal. unfold said. simpl. rewrite decide_True by done. apply app_nil_r. Qed.

(** What a library function does on its own: calls it is known to use, and
    messages on standard error. *)
Section Quiet.
Context (uses : call → bool).

Definition quiet_event (e : event) : Prop :=
  match e with Esys c _ => uses c = true | Eout f _ => f = Stderr end.
Definition quiet {S} (s s' : st S) : Prop :=
  ∃ l, trace s' = trace s ++ l ∧ Forall quiet_event l.

#[export] Instance quiet_preorder {S} : PreOrder (@quiet S).
Proof using.
  split.
  - intros s. exists []. by rewrite app_nil_r.
  - intros a b c [l [Hb Hl]] [k [Hc Hk]]. exists (l ++ k). rewrite Hc, Hb, app_assoc.
    split; [done|]. by apply Forall_app.
Qed.

Lemma quiet_nothing l : (∀ n, uses (Cfgets n) = false) → Forall quiet_event l →
  said Stdout l = [] ∧ asked l = 0%nat.
Proof using.
  intros Hu. induction 1 as [|e l He _ [IH1 IH2]]; [done|].
  change (e :: l) with ([e] ++ l). rewrite said_app, asked_app, IH1, IH2.
  destruct e as [c r|f t]; simpl in He; [|by subst f]. split; [done|].
  destruct c; try done. by rewrite Hu in He.
Qed.

Lemma quiet_said {S} (s s' : st S) : (∀ n, uses (Cfgets n) = false) → quiet s s' →
  said Stdout (trace s') = said Stdout (trace s) ∧ asked (trace s') = asked (trace s).
Proof using.
  intros Hu [l [-> [H1 H2]%quiet_nothing]]; [|done]. rewrite said_app, asked_app, H1, H2, app_nil_r. split; [done|lia].
Qed.

Lemma quiet_step {S} (s s' : st S) e : trace s' = trace s ++ [e] → quiet_event e → quiet s s'.
Proof using. intros Ht He. exists [e]. split; [done|]. by constructor. Qed.

Lemma quiet_snoc {S} (s s1 s2 : st S) e : quiet s s1 → trace s2 = trace s1 ++ [e] → quiet_event e → quiet s s2.
Proof using. intros Hq Ht He. etrans; [exact Hq|by eapply quiet_step]. Qed.

Lemma wp_DIE {S A} `{os} msg (Q : A → st S → Prop) E (s : st S) :
  (∀ s', quiet s s' → E (Exit 1) s') → wp (DIE msg) Q E s.
Proof using.
  intros HE. unfold DIE, perror_exit, perror, out. apply wp_bind, wp_bind, wp_get_errno, wp_emit, wp_stop, HE.
  by eapply quiet_step.
Qed.
End Quiet.

(** ** The interface of lookup

    [find] is the dictionary: what a word means, if anything.  [fresh] are the
    static variables before the first call.  A version of lookup that is
    [ready] answers a query, stays ready as long as no descriptor is closed,
    leaves the word as it was and the terminal alone; the only way out is
    [exit(1)].  [uses] are the calls it may make. *)
Definition answered (find : cstr → option cstr) (q : cstr) (z : Z) (r : Dictrec) : Prop :=
  match find q with
  | Some t => (z = FOUND) ∧ c_str (text r) = t
  | None => z = NOTFOUND
  end.

Definition idle_event (e : event) : Prop := match e with Esys (Cclose _) _ => False | _ => True end.
Definition idle {S} (s s' : st S) : Prop :=
  glob s' = glob s ∧ ∃ l, trace s' = trace s ++ l ∧ Forall idle_event l.

Class Dictionary `{os} {S} (lookup : Dictrec → M S (Z * Dictrec)) (find : cstr → option cstr)
    (fresh : S) (uses : call → bool) := {
  ready : st S → Prop;
  ready_fresh : ∀ s, glob s = fresh → ready s;
  ready_idle : ∀ s s', idle s s' → ready s → ready s';
  lookup_spec : ∀ q s, ready s → query q →
    wp (lookup q)
       (λ '(z, r) s', quiet uses s s' ∧ ready s' ∧ query r ∧ c_str (word r) = c_str (word q) ∧
                      answered find (c_str (word q)) z r)
       (λ t s', t = Exit 1 ∧ quiet uses s s') s
}.

Lemma idle_refl {S} (s : st S) : idle s s.
Proof. split; [done|]. exists []. by rewrite app_nil_r. Qed.

Lemma idle_trans {S} (a b c : st S) : idle a b → idle b c → idle a c.
Proof.
  intros [H1 [l [T1 F1]]] [H2 [k [T2 F2]]]. split; [congruence|].
  exists (l ++ k). rewrite T2, T1, app_assoc. split; [done|]. by apply Forall_app.
Qed.

Lemma idle_step {S} (s s' : st S) e : glob s' = glob s → trace s' = trace s ++ [e] → idle_event e → idle s s'.
Proof. intros Hg Ht He. split; [done|]. exists [e]. split; [done|]. by constructor. Qed.
#[export] Hint Resolve idle_refl : cprog.

(** ** The main program, over any dictionary *)

(** Standard input holds these lines, each ending in a newline and short
    enough for one fgets. *)
Class Typed `{os} (ls : list cstr) := {
  typed_line : ∀ l, l ∈ ls → (NUL ∉ l) ∧ (length l < WORD)%nat ∧ last l = Some NL;
  typed_reply : ∀ tr,
    match ls !! asked tr with
    | Some l => rv (kern tr (Cfgets (Z.of_nat WORD))) ≠ 0 ∧ c_str (rdata (kern tr (Cfgets (Z.of_nat WORD)))) = l
    | None => rv (kern tr (Cfgets (Z.of_nat WORD))) = 0
    end }.

(** The answer to one line. *)
Definition answer_line (find : cstr → option cstr) (l : cstr) : cstr :=
  let w := take (length l - 1) l in
  match find w with
  | Some t => w ++ str " : " ++ t
  | None => w ++ str " : Not Found!" ++ [NL]
  end.

Section MainProof.
Context `{os} {S : Type} (lookup : Dictrec → M S (Z * Dictrec)) (find : cstr → option cstr) (g0 : S).
Context (uses : call → bool) (Huses : ∀ n, uses (Cfgets n) = false).
Context `{!Dictionary lookup find g0 uses} (ls : list cstr) `{!Typed ls}.
Implicit Types s : st S.

Lemma wp_enter_word w l (Q : cstr → st S → Prop) E s :
  length w = WORD → NUL ∉ l → (length l < WORD)%nat → last l = Some NL →
  (∀ b, c_str b = take (length l - 1) l → length b = WORD → NUL ∈ b → Q b s) →
  wp (enter_word w l) Q E s.
Proof.
  intros Hw Hn Hl Hlast HQ. unfold enter_word. apply wp_bind.
  assert (∃ l', l = l' ++ [NL]) as [l' ->] by (by apply last_Some).
  rewrite length_app in *. replace (length l' + length [NL] - 1)%nat with (length l') in HQ by (simpl; lia).
  rewrite take_app_length in HQ. unfold strcpy. rewrite bool_decide_true by (rewrite length_app; lia).
  cbn [fits]. apply wp_ret. rewrite length_app. replace (length l' + length [NL])%nat with (Datatypes.S (length l')) by (simpl; lia).
  apply wp_ret, HQ.
  - rewrite <-app_assoc, insert_app_r_alt by lia. rewrite Nat.sub_diag. simpl.
    apply c_str_text. by apply not_elem_of_app in Hn as [? _].
  - rewrite length_insert, !length_app, !length_cons, length_drop, length_nil. simpl in Hl. lia.
  - apply list_elem_of_lookup_2 with (length l'). apply list_lookup_insert_eq.
    rewrite !length_app. simpl. lia.
Qed.

(** What has been printed after some of the lines. *)
Definition answers_of (k : nat) : cstr := concat (answer_line find <$> take k ls).

Lemma answers_of_S k l : ls !! k = Some l → answers_of (Datatypes.S k) = answers_of k ++ answer_line find l.
Proof.
  intros Hl. unfold answers_of. rewrite (take_S_r _ _ _ Hl), fmap_app, concat_app. simpl. by rewrite app_nil_r.
Qed.

(** One turn of the main loop. *)
Lemma wp_ask resource r s :
  ready s → shape r →
  wp (ask lookup resource r)
     (λ x s', match x with
              | inl r' => ready s' ∧ shape r' ∧ ∃ l, ls !! asked (trace s) = Some l ∧
                  asked (trace s') = Datatypes.S (asked (trace s)) ∧
                  said Stdout (trace s') = said Stdout (trace s) ++ answer_line find l
              | inr _ => ls !! asked (trace s) = None ∧ said Stdout (trace s') = said Stdout (trace s)
              end)
     (λ t s', t = Exit 1 ∧ said Stdout (trace s') = said Stdout (trace s)) s.
Proof using Type*.
  intros Hr Hs. unfold ask, out. apply wp_bind, wp_emit. set (s1 := St _ _ _).
  apply wp_bind, wp_call. intros p s2 Hp Hg _ _ Ht.
  assert (said Stdout (trace s2) = said Stdout (trace s) ∧ asked (trace s2) = Datatypes.S (asked (trace s))) as [Hsaid Hasked].
  { rewrite Ht, said_sys, asked_gets. subst s1; cbn [trace]. rewrite asked_out, said_app. by rewrite app_nil_r. }
  assert (asked (trace s1) = asked (trace s)) as Ha by apply asked_out.
  pose proof (typed_reply (trace s1)) as Hrep. rewrite Ha, <-Hp in Hrep.
  destruct (ls !! asked (trace s)) as [l|] eqn:El.
  2: { rewrite (proj2 (Z.eqb_eq _ _) Hrep). apply wp_ret. by rewrite Hsaid. }
  destruct Hrep as [Hnz Hl]. rewrite (proj2 (Z.eqb_neq _ _) Hnz).
  destruct (typed_line l) as (Hn & Hlen & Hlast); [by eapply list_elem_of_lookup_2|].
  apply wp_bind. rewrite Hl. apply wp_enter_word; [apply Hs|done..|]. intros w Hw Hwl Hwn.
  assert (ready s2) as Hr2.
  { apply (ready_idle s); [|done]. apply (idle_trans _ s1); eapply idle_step; done. }
  apply wp_bind. eapply wp_mono; [apply lookup_spec; [done|by split; [split; [|apply Hs]|]]| |].
  2: { intros t s3 [-> [Hq1 Hq2]%quiet_said]; [|done]. by rewrite Hq1, Hsaid. }
  intros [z r'] s3 (Hquiet & Hr3 & [Hsh _] & Hword & Hans). destruct (quiet_said _ _ _ Huses Hquiet) as [Hq1 Hq2]. simpl in Hword, Hans. rewrite Hw in Hword, Hans.
  rewrite Hsaid in Hq1. rewrite Hasked in Hq2.
  apply wp_bind. unfold answered in Hans.
  assert (∀ t s4, trace s4 = trace s3 ++ [Eout Stdout t] → glob s4 = glob s3 → answer_line find l = t →
     ready s4 ∧ shape r' ∧ ∃ l', Some l = Some l' ∧ asked (trace s4) = Datatypes.S (asked (trace s)) ∧
       said Stdout (trace s4) = said Stdout (trace s) ++ answer_line find l') as Hend.
  { intros t s4 Ht4 Hg4 <-. split; [apply (ready_idle s3); [by eapply idle_step|done]|]. split; [done|].
    exists l. by rewrite Ht4, asked_out, said_out, Hq1, Hq2. }
  unfold answer_line in Hend. destruct (find (take (length l - 1) l)) as [t|].
  - destruct Hans as [-> Htext]. simpl. apply wp_emit, wp_ret. eapply Hend; [done|done|]. by rewrite Hword, Htext.
  - subst z. simpl. apply wp_emit, wp_ret. eapply Hend; [done|done|]. by rewrite Hword.
Qed.

Lemma wp_dict_main fuel prog resource tryit s :
  glob s = g0 → shape tryit → asked (trace s) = 0%nat → (length ls < fuel)%nat →
  wp (dict_main lookup fuel [prog; resource] tryit)
     (λ z s', z = 0 ∧ said Stdout (trace s') = said Stdout (trace s) ++ concat (answer_line find <$> ls))
     (λ t s', t = Exit 1 ∧ ∃ k, said Stdout (trace s') = said Stdout (trace s) ++ answers_of k) s.
Proof using Type*.
  intros Hg Hs H0 Hfuel. unfold dict_main. apply wp_bind.
  eapply (wp_mono _ (λ _ s', said Stdout (trace s') = said Stdout (trace s) ++ concat (answer_line find <$> ls))).
  2: { intros [] s' H'. apply wp_ret. by split. }
  2: { intros t s' H'. exact H'. }
  eapply (wp_loop (λ r s', ready s' ∧ shape r ∧ (asked (trace s') <= length ls)%nat ∧
            said Stdout (trace s') = said Stdout (trace s) ++ answers_of (asked (trace s')))
           (λ _ s', (length ls - asked (trace s'))%nat)).
  - rewrite H0. split; [by apply ready_fresh|]. split; [done|]. split; [lia|]. unfold answers_of. simpl. by rewrite app_nil_r.
  - lia.
  - intros r s1 (Hr & Hsh & Hle & Hsaid). eapply wp_mono; [by apply wp_ask| |].
    + intros [r'|[]] s2.
      * intros (Hr2 & Hs2 & l & Hl & Ha & Hsd). pose proof (lookup_lt_Some _ _ _ Hl). rewrite Ha.
        split; [|lia]. split; [done|]. split; [done|]. split; [lia|].
        by rewrite Hsd, Hsaid, (answers_of_S _ _ Hl), app_assoc.
      * intros [Hnone ->]. rewrite Hsaid. apply lookup_ge_None in Hnone. unfold answers_of.
        by rewrite take_ge by done.
    + intros t s2 [-> ->]. split; [done|]. by eexists.
Qed.
End MainProof.
