(* ===== verification/SeekIo.v ===== *)
(** tlpi-book/fileio/seek_io.c: reads, writes and seeks on a file, as its
    arguments say, against a regular file with an offset. *)
From S2P Require Import Prelude Sys Rdwrn ErrorFns GetNum SvmsgFile Copy Dict.

Definition O_RDWR_CREAT : Z := 66.
Definition isprint (c : ascii) : bool := (32 <=? code c) && (code c <? 127).

(** "%02x" *)
Definition hex2 (c : ascii) : cstr := [hexdigit (code c / 16); hexdigit (code c mod 16)].
Definition show_text (bs : cstr) : cstr := (λ c, if isprint c then c else "?"%char) <$> bs.
Definition show_hex (bs : cstr) : cstr := concat ((λ c, hex2 c ++ str " ") <$> bs).

Section Program.
Context {S : Type} `{os}.

Definition do_read (fd : Z) (arg : cstr) (show : cstr → cstr) (rest : cstr) : M S unit :=
  len ← getLong (Some rest) GN_ANY_BASE (Some arg);
  m ← sys (Crealloc (wrap_u 64 len));
  if rv m =? -1 then errExit (str "malloc") else
  r ← sys (Cread fd (wrap_u 64 len));
  if rv r =? -1 then errExit (str "read") else
  if rv r =? 0 then out Stdout (arg ++ str ": end-of-file" ++ [NL]) else
  out Stdout (arg ++ str ": ");;
  out Stdout (show (data_of r));;
  out Stdout [NL].

(** One argument. *)
Definition seek_io_arg (fd : Z) (arg : cstr) : M S unit :=
  match arg with
  | "r"%char :: rest => do_read fd arg show_text rest
  | "R"%char :: rest => do_read fd arg show_hex rest
  | "w"%char :: rest =>
      w ← sys (Cwrite fd rest);
      if rv w =? -1 then errExit (str "write") else
      out Stdout (arg ++ str ": wrote " ++ dec (rv w) ++ str " bytes" ++ [NL])
  | "s"%char :: rest =>
      offset ← getLong (Some rest) GN_ANY_BASE (Some arg);
      l ← sys (Clseek fd offset 0);
      if rv l =? -1 then errExit (str "lseek") else
      out Stdout (arg ++ str ": seek succeeded" ++ [NL])
  | _ => cmdLineErr (str "Argument must start with [rRws]: " ++ arg ++ [NL])
  end.

Definition seek_io_main (argv : list cstr) : M S unit :=
  let usage := usageErr (default [] (argv !! 0%nat) ++ str " file {r<length>|R<length>|w<string>|s<offset>}..." ++ [NL]) in
  match argv with
  | _ :: file :: (_ :: _) as args =>
      if streq file (str "--help") then usage else
      f ← sys (Copen file O_RDWR_CREAT rw_all);
      if rv f =? -1 then errExit (str "open") else
      for_each args (seek_io_arg (rv f));;
      k ← sys (Cclose (rv f));
      if rv k =? -1 then errExit (str "close") else
      stop_with (Exit 0)
  | _ => usage
  end.
End Program.

(** ** A regular file *)

Record file := File { bytes : cstr; pos : Z }.

(** Written over what is there; a hole before it reads as null bytes. *)
Definition write_at (bs old : cstr) (p : nat) : cstr :=
  take p (old ++ replicate (p - length old) NUL) ++ bs ++ drop (p + length bs) old.

Definition remaining (f : file) : cstr := drop (Z.to_nat (pos f)) (bytes f).

Definition file_step (fd : Z) (f : file) (x : call * reply) : file :=
  if rv x.2 =? -1 then f else
  match x.1 with
  | Cread d _ => if d =? fd then File (bytes f) (pos f + rv x.2) else f
  | Cwrite d bs => if d =? fd then File (write_at (take (Z.to_nat (rv x.2)) bs) (bytes f) (Z.to_nat (pos f))) (pos f + rv x.2) else f
  | Clseek d off _ => if d =? fd then File (bytes f) off else f
  | _ => f
  end.
Definition file_after (fd : Z) (f : file) (tr : list event) : file := foldl (file_step fd) f (acts tr).

(** [fd] is such a file: reads get some of what is left, writes take some of
    what they are given, and seeks go where they are asked to, or they fail. *)
Class RegularFile `{os} (fd : Z) (f0 : file) := {
  file_read : ∀ tr n, 0 <= n → let r := kern tr (Cread fd n) in
    rv r = -1 ∨ rv r = strlen (rdata r) ∧ rv r <= n ∧ rdata r `prefix_of` remaining (file_after fd f0 tr) ∧
      (rv r = 0 → n = 0 ∨ remaining (file_after fd f0 tr) = []);
  file_write : ∀ tr bs, let r := kern tr (Cwrite fd bs) in rv r = -1 ∨ 0 <= rv r <= strlen bs;
  file_seek : ∀ tr off, let r := kern tr (Clseek fd off 0) in rv r = -1 ∨ rv r = off ∧ 0 <= off }.

(** What an argument prints and does to the file. *)
Definition number_in (text : cstr) (v : Z) : Prop := wanted (Some text) GN_ANY_BASE LONG_MIN LONG_MAX v.

Inductive does (f : file) : cstr → cstr → file → Prop :=
  | Does_read c rest show len data :
      c = "r"%char ∧ show = show_text ∨ c = "R"%char ∧ show = show_hex → number_in rest len →
      data `prefix_of` remaining f → data ≠ [] → strlen data <= wrap_u 64 len →
      does f (c :: rest) ((c :: rest) ++ str ": " ++ show data ++ [NL]) (File (bytes f) (pos f + strlen data))
  | Does_end c rest len :
      c = "r"%char ∨ c = "R"%char → number_in rest len → len = 0 ∨ remaining f = [] →
      does f (c :: rest) ((c :: rest) ++ str ": end-of-file" ++ [NL]) f
  | Does_write text n : 0 <= n <= strlen text →
      does f ("w"%char :: text) (("w"%char :: text) ++ str ": wrote " ++ dec n ++ str " bytes" ++ [NL])
        (File (write_at (take (Z.to_nat n) text) (bytes f) (Z.to_nat (pos f))) (pos f + n))
  | Does_seek rest off : number_in rest off → 0 <= off →
      does f ("s"%char :: rest) (("s"%char :: rest) ++ str ": seek succeeded" ++ [NL]) (File (bytes f) off).

Inductive session : file → list cstr → cstr → file → Prop :=
  | Session_done f : session f [] [] f
  | Session_arg f arg t f1 args t' f2 : does f arg t f1 → session f1 args t' f2 → session f (arg :: args) (t ++ t') f2.

Lemma session_snoc f args t f1 arg t' f2 : session f args t f1 → does f1 arg t' f2 → session f (args ++ [arg]) (t ++ t') f2.
Proof.
  induction 1 as [f|f a t1 f1 args t2 f2' Hd Hs IH]; intros H2; cbn [app].
  - rewrite <-(app_nil_r t'). econstructor; [exact H2|constructor].
  - rewrite <-app_assoc. econstructor; [exact Hd|by apply IH].
Qed.

Section Specs.
Context {S : Type} `{os} (fd : Z) (f0 : file) `{!RegularFile fd f0}.
Implicit Types s : st S.

(** The file is [f] and this was printed since [s0]. *)
Definition stage (s0 : st S) (f : file) (text : cstr) (s : st S) : Prop :=
  file_after fd f0 (trace s) = f ∧ said Stdout (trace s) = said Stdout (trace s0) ++ text.

Lemma stage_call s0 f text c s (Q : reply → st S → Prop) E :
  stage s0 f text s → (∀ g, c ≠ Cfflush g) →
  (∀ r s', r = kern (trace s) c → stage s0 (file_step fd f (c, r)) text s' → Q r s') → wp (sys c) Q E s.
Proof using.
  intros [Hf Ht] Hc HQ. apply wp_call. intros r s' Hr _ _ _ Htr. apply HQ; [done|]. split.
  - rewrite Htr. unfold file_after. rewrite acts_call, foldl_app by done. unfold file_after in Hf. rewrite Hf. done.
  - by rewrite Htr, said_sys.
Qed.

Lemma stage_out s0 f text t s (Q : unit → st S → Prop) E :
  stage s0 f text s → (∀ s', stage s0 f (text ++ t) s' → Q tt s') → wp (out Stdout t) Q E s.
Proof using.
  intros [Hf Ht] HQ. apply wp_emit, HQ. split; cbn [trace].
  - unfold file_after. by rewrite acts_out.
  - by rewrite said_out, Ht, app_assoc.
Qed.

Definition fails (t : stop) (_ : st S) : Prop := t ≠ Exit 0.

Lemma wp_fails_errExit {A} m s (Q : A → st S → Prop) : wp (errExit m) Q fails s.
Proof using. apply wp_errExit. intros. apply end_of_fails. Qed.

Lemma stage_getLong s0 f text rest arg s (Q : Z → st S → Prop) :
  stage s0 f text s → (∀ v s', number_in rest v → stage s0 f text s' → Q v s') → wp (getLong (Some rest) GN_ANY_BASE (Some arg)) Q fails s.
Proof using.
  intros [Hf Ht] HQ. eapply wp_mono; [apply wp_getNum| |].
  - intros v s' [Hv ->]. apply HQ; [done|]. by split.
  - intros t s' [-> _]. done.
Qed.

Lemma wp_do_read s0 f text c rest show s (Q : unit → st S → Prop) :
  c = "r"%char ∧ show = show_text ∨ c = "R"%char ∧ show = show_hex → stage s0 f text s →
  (∀ t f' s', does f (c :: rest) t f' → stage s0 f' (text ++ t) s' → Q tt s') →
  wp (do_read fd (c :: rest) show rest) Q fails s.
Proof using RegularFile0.
  intros Hc Hs HQ. unfold do_read. apply wp_bind. eapply stage_getLong; [exact Hs|]. intros len s1 Hlen H1.
  apply wp_bind. eapply stage_call; [exact H1|done|]. intros m s2 _ H2. destruct (rv m =? -1); [apply wp_fails_errExit|].
  assert (file_step fd f (Crealloc (wrap_u 64 len), m) = f) as Em by (unfold file_step; by destruct (_ =? _)). rewrite Em in H2.
  apply wp_bind. eapply stage_call; [exact H2|done|]. intros r s3 Hr H3.
  assert (0 <= wrap_u 64 len) as Hn by (apply Z.mod_pos_bound; lia). pose proof (file_read (trace s2) _ Hn) as Hlaw. cbv zeta in Hlaw. rewrite <-Hr, (proj1 H2) in Hlaw.
  unfold file_step in H3. cbn [fst snd] in H3. rewrite Z.eqb_refl in H3.
  destruct (Z.eqb_spec (rv r) (-1)) as [E|E]; [apply wp_fails_errExit|]. destruct Hlaw as [?|(Hl & Hle & Hpre & Hend)]; [done|].
  destruct (Z.eqb_spec (rv r) 0) as [Ez|Ez].
  - eapply stage_out; [exact H3|]. intros s4 H4. rewrite Ez, Z.add_0_r in H4. eapply HQ; [|destruct f; exact H4].
    eapply Does_end; [tauto|exact Hlen|]. destruct (Hend Ez) as [H0|H0]; [left|by right].
    destruct Hlen as (? & _ & _ & [Hlo Hhi] & _). unfold LONG_MIN, LONG_MAX in *. unfold wrap_u in H0. apply Z.mod_divide in H0 as [k Hk]; lia.
  - assert (data_of r = rdata r) as -> by (unfold data_of; rewrite Hl; unfold strlen; rewrite Nat2Z.id; by apply take_ge).
    apply wp_bind. eapply stage_out; [exact H3|]. intros s4 H4. apply wp_bind. eapply stage_out; [exact H4|]. intros s5 H5.
    eapply stage_out; [exact H5|]. intros s6 H6. rewrite <-!app_assoc in H6. rewrite Hl in H6.
    eapply HQ; [|exact H6]. eapply Does_read; [exact Hc|exact Hlen|exact Hpre| |lia]. intros E0. rewrite E0 in Hl. done.
Qed.

Lemma wp_seek_io_arg s0 f text arg s (Q : unit → st S → Prop) :
  stage s0 f text s → (∀ t f' s', does f arg t f' → stage s0 f' (text ++ t) s' → Q tt s') → wp (seek_io_arg fd arg) Q fails s.
Proof using RegularFile0.
  intros Hs HQ. assert (∀ text (Q : unit → st S → Prop), wp (cmdLineErr text) Q fails s) as Hbad
    by (intros t0 Q0; apply wp_bind, wp_sys, wp_bind, wp_emit, wp_bind, wp_emit, wp_bind, wp_sys, wp_stop; done).
  unfold seek_io_arg. destruct arg as [|c rest]; [apply Hbad|].
  destruct (ascii_dec c "r"%char) as [-> |Hr]; [eapply wp_do_read; [left; done|exact Hs|exact HQ]|].
  destruct (ascii_dec c "R"%char) as [-> |HR]; [eapply wp_do_read; [right; done|exact Hs|exact HQ]|].
  destruct (ascii_dec c "w"%char) as [-> |Hw].
  { apply wp_bind. eapply stage_call; [exact Hs|done|]. intros w s1 Hk H1. pose proof (file_write (trace s) rest) as Hlaw. cbv zeta in Hlaw. rewrite <-Hk in Hlaw.
    unfold file_step in H1. cbn [fst snd] in H1. rewrite Z.eqb_refl in H1. destruct (Z.eqb_spec (rv w) (-1)) as [E|E]; [apply wp_fails_errExit|].
    destruct Hlaw as [?|Hlaw]; [done|]. eapply stage_out; [exact H1|]. intros s2 H2. eapply HQ; [|exact H2]. by apply Does_write. }
  destruct (ascii_dec c "s"%char) as [-> |Hse].
  { apply wp_bind. eapply stage_getLong; [exact Hs|]. intros off s1 Hoff H1. apply wp_bind. eapply stage_call; [exact H1|done|]. intros l s2 Hk H2.
    pose proof (file_seek (trace s1) off) as Hlaw. cbv zeta in Hlaw. rewrite <-Hk in Hlaw.
    unfold file_step in H2. cbn [fst snd] in H2. rewrite Z.eqb_refl in H2. destruct (Z.eqb_spec (rv l) (-1)) as [E|E]; [apply wp_fails_errExit|].
    destruct Hlaw as [?|[_ Hlaw]]; [done|]. eapply stage_out; [exact H2|]. intros s3 H3. eapply HQ; [|exact H3]. by apply Does_seek. }
  destruct c as [[] [] [] [] [] [] [] []]; try apply Hbad; done.
Qed.
End Specs.

(** C7: seek_io ends, whatever its arguments and the system do.  With success it
    has done what its arguments say, one after the other, to the file and its
    offset: each argument has printed what the file held at that place, or how
    much was written there, or that the seek was done, and the file and the
    offset are what these leave. *)
Theorem seek_io_refines {S} (K : os) fd f0 path args prog (s : st S) :
  RegularFile fd f0 → Opens path fd → file_after fd f0 (trace s) = f0 →
  wp (seek_io_main (prog :: path :: args)) (λ _ _, False)
    (λ t s', t = Exit 0 → ∃ text f', session f0 args text f' ∧ file_after fd f0 (trace s') = f' ∧
       said Stdout (trace s') = said Stdout (trace s) ++ text) s.
Proof.
  intros Hreg Hop Hf0. set (E := λ (t : stop) (s' : st S), _ → _).
  assert (∀ A text (Q : A → st S → Prop) s1, wp (usageErr text) Q E s1) as Hus by (intros; apply wp_usageErr; by intros ? _ _ ?).
  assert (∀ A text (Q : A → st S → Prop) s1, wp (errExit text) Q E s1) as Herr by (intros; apply wp_errExit; intros ? _ _ _ Hz; by destruct (end_of_fails _ Hz)).
  unfold seek_io_main. destruct args as [|arg args]; [apply Hus|]. destruct (streq path _); [apply Hus|].
  assert (stage fd f0 s f0 [] s) as H0 by (split; [done|by rewrite app_nil_r]).
  apply wp_bind. eapply stage_call; [exact H0|done|]. intros r s1 Hr H1. destruct (Z.eqb_spec (rv r) (-1)) as [Er|Er]; [apply Herr|].
  assert (rv r = fd) as Efd by (destruct (opens (trace s) O_RDWR_CREAT rw_all) as [Hx|Hx]; rewrite <-Hr in Hx; done).
  assert (file_step fd f0 (Copen path O_RDWR_CREAT rw_all, r) = f0) as Es by (unfold file_step; by destruct (_ =? _)). rewrite Es in H1. rewrite Efd.
  apply wp_bind. eapply wp_mono; [apply (wp_for_each (λ done s', ∃ text f', session f0 done text f' ∧ stage fd f0 s f' text s') (seek_io_arg fd) (arg :: args) fails)| |].
  - exists [], f0. split; [constructor|done].
  - intros done_ a todo s2 _ (text & f' & Hses & H2). eapply (wp_seek_io_arg fd f0); [exact H2|]. intros t f2 s3 Hd H3. exists (text ++ t), f2. split; [by eapply session_snoc|done].
  - intros [] s2 (text & f' & Hses & H2). apply wp_bind. eapply stage_call; [exact H2|done|]. intros k s3 _ H3. destruct (rv k =? -1); [apply Herr|].
    assert (file_step fd f' (Cclose fd, k) = f') as Ec by (unfold file_step; by destruct (_ =? _)). rewrite Ec in H3.
    apply wp_stop. intros _. exists text, f'. destruct H3. done.
  - intros t s2 Ht Hz. by destruct Ht.
Qed.

(** A file in memory. *)
Definition disk (fd : Z) (f0 : file) : os := test_os (λ tr c,
  let f := file_after fd f0 tr in
  match c with
  | Copen _ _ _ => ok fd
  | Cread _ n => let d := take (Z.to_nat n) (remaining f) in Reply (strlen d) 0 d []
  | Cwrite _ bs => ok (strlen bs)
  | Clseek _ off _ => if off <? 0 then fail EINVAL else ok off
  | _ => ok 0
  end).

Lemma disk_regular fd f0 : @RegularFile (disk fd f0) fd f0.
Proof.
  split.
  - intros tr n Hn. right. cbn [kern disk test_os rv rdata]. split; [done|]. split; [unfold strlen; rewrite length_take; lia|]. split; [apply prefix_take|].
    intros Hz. unfold strlen in Hz. rewrite length_take in Hz. destruct (decide (n = 0)); [by left|right]. apply nil_length_inv. lia.
  - intros tr bs. right. cbn. pose proof (strlen_nonneg bs). lia.
  - intros tr off. cbn. destruct (Z.ltb_spec off 0); cbn; auto.
Qed.

Lemma seek_io_witness :
  ∃ text f', session (File (str "hello") 0) [str "s3"; str "wXYZ"; str "s1"; str "r100"] text f' ∧ bytes f' = str "helXYZ" ∧
    text = str "s3: seek succeeded" ++ [NL] ++ str "wXYZ: wrote 3 bytes" ++ [NL] ++ str "s1: seek succeeded" ++ [NL] ++ str "r100: elXYZ" ++ [NL].
Proof.
  pose proof (seek_io_refines (disk 3 (File (str "hello") 0)) 3 (File (str "hello") 0) (str "f") [str "s3"; str "wXYZ"; str "s1"; str "r100"] (str "seek_io") (init tt)
    (disk_regular _ _) (λ _ _ _, or_intror eq_refl) eq_refl) as H.
  apply wp_run in H as [(? & ? & _ & [])|(t & s' & Hrun & H)].
  assert (t = Exit 0) as -> by (apply (f_equal fst) in Hrun; vm_compute in Hrun; congruence).
  destruct (H eq_refl) as (text & f' & Hs & Hf & Ht). exists text, f'. split; [exact Hs|].
  pose proof (f_equal (λ x, bytes (file_after 3 (File (str "hello") 0) (trace x.2))) Hrun) as E1. cbn [snd] in E1. rewrite Hf in E1.
  pose proof (f_equal (λ x, said Stdout (trace x.2)) Hrun) as E2. cbn [snd] in E2. rewrite Ht in E2.
  split; [rewrite <-E1; by vm_compute|]. etransitivity; [symmetry; exact E2|]. by vm_compute.
Defined.

(** A read of no bytes reports the end of the file, wherever it is. *)
Example seek_io_r0 :
  said Stdout (trace (@seek_io_main unit (disk 3 (File (str "hello") 0)) [str "seek_io"; str "f"; str "r0"] (init tt)).2) = str "r0: end-of-file" ++ [NL].
Proof. by vm_compute. Qed.
