(* ===== verification/Coprocess.v ===== *)
(** quiz/quiz5: quiz5.c hands the lines of its input to a coprocess, add2.c, and
    prints its answers. *)
From S2P Require Import Prelude Sys Rdwrn ErrorFns GetNum ShellRun SvmsgFile Printing Seqnum Dict.

Definition MAXLINE : Z := 4096.
Definition SIGPIPE : Z := 13.

(** sscanf (line, "%d%d", ...): both numbers, when there are two. *)
Definition scan_int (s : cstr) : option (Z * cstr) :=
  let '(v, rest, _) := strtol s 10 in
  if bool_decide (rest = s) then None else Some (wrap_s 32 v, rest).
Definition scan_two (s : cstr) : option (Z * Z) :=
  '(int1, s) ← scan_int s;
  '(int2, _) ← scan_int s;
  Some (int1, int2).

Definition answer (line : cstr) : cstr :=
  match scan_two line with
  | Some (int1, int2) => dec (wrap_s 32 (int1 + int2)) ++ [NL]
  | None => str "invalid args" ++ [NL]
  end.

Section Programs.
Context {S : Type} `{os}.

(** ** add2.c *)

Definition add2_turn : M S (unit + unit) :=
  r ← sys (Cread 0 MAXLINE);
  if rv r <=? 0 then mret (inr tt) else
  if rv r =? MAXLINE then stop_with (Undefined "array overrun") else
  let line := c_str (data_of r) in
  w ← sys (Cwrite 1 (answer line));
  when (negb (rv w =? strlen (answer line))) (perror (str "write error"));;
  mret (inl tt).

Definition add2_main (fuel : nat) : M S unit :=
  loop fuel (λ _, add2_turn) tt;;
  stop_with (Exit 0).

(** ** quiz5.c *)

(** One line: [parent_out] and [parent_in] are the streams to and from the
    coprocess. *)
Definition parent_turn (parent_out parent_in : Z) : M S (unit + unit) :=
  r ← sys (Cfgets MAXLINE);
  if rv r =? 0 then mret (inr tt) else
  let line := c_str (rdata r) in
  let n := strlen line in
  w ← sys (Cextern "fwrite" [parent_out] line);
  when (negb (rv w =? n)) (perror (str "write error to pipe"));;
  sys (Cextern "fflush" [parent_out] []);;
  a ← sys (Cextern "fgets" [parent_in; MAXLINE] []);
  line ← (if rv a =? -1 then perror (str "read error from pipe");; mret line else mret (c_str (rdata a)));
  if n =? 0 then perror (str "child closed pipe");; mret (inr tt) else
  out Stdout (take (Z.to_nat n) line);;
  mret (inl tt).

Definition quiz5_child (fd1 fd2 : reply) : M S unit :=
  sys (Cclose (pipe_write fd1));;
  sys (Cclose (pipe_read fd2));;
  sys (Cextern "fdopen" [pipe_read fd1] (str "r"));;
  sys (Cextern "fdopen" [pipe_write fd2] (str "w"));;
  when (negb (pipe_read fd1 =? 0)) (
    d ← sys (Cdup2 (pipe_read fd1) 0);
    when (negb (rv d =? 0)) (perror (str "dup2 error to stdin")));;
  when (negb (pipe_write fd2 =? 1)) (
    d ← sys (Cdup2 (pipe_write fd2) 1);
    when (negb (rv d =? 1)) (perror (str "dup2 error to stdout")));;
  e ← sys (Cexec (str "./add2") [str "add2"]);
  if rv e <? 0 then perror (str "execl error");; stop_with (Exit 0) else
  stop_with (Execed (str "./add2") [str "add2"]).

Definition quiz5_main (fuel : nat) : M S unit :=
  g ← sys (Csigaction SIGPIPE);
  when (rv g =? -1) (perror (str "signal error"));;
  fd1 ← sys Cpipe;
  fd2 ← (if rv fd1 <? 0 then mret fd1 else sys Cpipe);
  if rv fd2 <? 0 then perror (str "pipe error");; stop_with (Undefined "indeterminate descriptors") else
  f ← sys Cfork;
  if rv f <? 0 then perror (str "fork error");; stop_with (Exit 0) else
  if rv f =? 0 then quiz5_child fd1 fd2 else
  sys (Cclose (pipe_read fd1));;
  sys (Cclose (pipe_write fd2));;
  sys (Cextern "fdopen" [pipe_write fd1] (str "w"));;
  sys (Cextern "fdopen" [pipe_read fd2] (str "r"));;
  loop fuel (λ _, parent_turn (pipe_write fd1) (pipe_read fd2)) tt;;
  e ← sys (Cextern "ferror" [0] []);
  when (negb (rv e =? 0)) (perror (str "fgets error on stdin"));;
  stop_with (Exit 0).
End Programs.

(** ** Sums *)

Definition question (a b : Z) : cstr := dec a ++ " "%char :: dec b ++ [NL].
Definition is_int (z : Z) : Prop := INT_MIN <= z <= INT_MAX.

(** What follows a number: no digit of its base. *)
Definition ends_number (b : Z) (rest : cstr) : Prop := match rest with c :: _ => digit_in b c = None | [] => True end.

Lemma take_digits_rest b ds vs rest :
  Forall2 (λ c v, digit_in b c = Some v) ds vs → ends_number b rest → take_digits b (ds ++ rest) = (vs, rest).
Proof. intros Hd Hr. induction Hd as [|d v ds vs Hd _ IH]; cbn [app take_digits]; [destruct rest as [|c rest]; [done|]; cbn; cbn in Hr; by rewrite Hr|]. by rewrite Hd, IH. Qed.

Lemma take_digits_app b ds vs c rest :
  Forall2 (λ c v, digit_in b c = Some v) ds vs → digit_in b c = None → take_digits b (ds ++ c :: rest) = (vs, c :: rest).
Proof. intros Hd Hc. by apply take_digits_rest. Qed.

Lemma radix_10 s : radix 10 s = (10, s).
Proof. by destruct s as [|z [|x [|h r]]]. Qed.

Lemma dec_nat_digits n : 0 <= n →
  ∃ d ds v vs, dec_nat n = d :: ds ∧ Forall2 (λ c v, digit_in 10 c = Some v) (d :: ds) (v :: vs) ∧ digits_value 10 (v :: vs) = n ∧
    isspace d = false ∧ code d ≠ 45 ∧ code d ≠ 43.
Proof.
  intros Hn. destruct (dec_nat_numeral n Hn) as (Hne & vs & HF & Hv). destruct (dec_nat n) as [|d ds] eqn:E; [done|]. inversion HF as [|? v ? vs' Hd HF' E1 E2]; subst.
  exists d, ds, v, vs'. pose proof (digit_not_sign _ _ _ Hd) as [? ?]. split_and!; try done. by eapply digit_not_space.
Qed.

(** A number in a text. *)
Lemma strtol_text z rest ws :
  LONG_MIN <= z <= LONG_MAX → ends_number 10 rest → Forall (λ c, isspace c = true) ws → strtol (ws ++ dec z ++ rest) 10 = (z, rest, 0).
Proof.
  intros Hz Hrest Hws. unfold strtol. rewrite skip_spaces_app by done. unfold dec. destruct (Z.ltb_spec z 0) as [Hneg|Hpos].
  - destruct (dec_nat_digits (- z) ltac:(lia)) as (d & ds & v & vs & -> & HF & Hv & Hsp & _). cbn [app skip_spaces]. change (isspace "-"%char) with false. cbv iota.
    change (take_sign ("-"%char :: d :: ds ++ rest)) with (true, d :: ds ++ rest). cbv beta iota. rewrite radix_10. change (d :: ds ++ rest) with ((d :: ds) ++ rest). rewrite (take_digits_rest _ _ _ _ HF Hrest), Hv.
    rewrite Z.opp_involutive. destruct (Z.gtb_spec z LONG_MAX) as [Hgt|_]; [lia|]. destruct (Z.ltb_spec z LONG_MIN) as [Hlt|_]; [lia|]. done.
  - destruct (dec_nat_digits z ltac:(lia)) as (d & ds & v & vs & -> & HF & Hv & Hsp & H45 & H43). cbn [app skip_spaces]. rewrite Hsp.
    assert (take_sign (d :: ds ++ rest) = (false, d :: ds ++ rest)) as -> by (cbn [take_sign]; by rewrite (proj2 (Z.eqb_neq _ _) H45), (proj2 (Z.eqb_neq _ _) H43)).
    cbv beta iota. rewrite radix_10. change (d :: ds ++ rest) with ((d :: ds) ++ rest). rewrite (take_digits_rest _ _ _ _ HF Hrest), Hv.
    destruct (Z.gtb_spec z LONG_MAX) as [Hgt|_]; [lia|]. destruct (Z.ltb_spec z LONG_MIN) as [Hlt|_]; [lia|]. done.
Qed.

Lemma strtol_dec z c rest ws :
  is_int z → digit_in 10 c = None → Forall (λ c, isspace c = true) ws → strtol (ws ++ dec z ++ c :: rest) 10 = (z, c :: rest, 0).
Proof. intros Hz Hc Hws. apply strtol_text; [unfold is_int, INT_MIN, INT_MAX in Hz; unfold LONG_MIN, LONG_MAX; lia|done|done]. Qed.

Lemma scan_int_text z rest ws :
  LONG_MIN <= z <= LONG_MAX → ends_number 10 rest → Forall (λ c, isspace c = true) ws → scan_int (ws ++ dec z ++ rest) = Some (wrap_s 32 z, rest).
Proof.
  intros Hz Hrest Hws. unfold scan_int. rewrite strtol_text by done. rewrite bool_decide_eq_false_2; [done|].
  intros E. apply (f_equal length) in E. rewrite !length_app in E. assert (dec z ≠ []) as Hne.
  { unfold dec. destruct (Z.ltb_spec z 0); [done|]. destruct (dec_nat_digits z ltac:(lia)) as (? & ? & ? & ? & -> & _). done. }
  destruct (dec z); [done|]. cbn in E. lia.
Qed.

Lemma scan_int_dec z c rest ws :
  is_int z → digit_in 10 c = None → Forall (λ c, isspace c = true) ws → scan_int (ws ++ dec z ++ c :: rest) = Some (z, c :: rest).
Proof.
  intros Hz Hc Hws. rewrite scan_int_text; [|unfold is_int, INT_MIN, INT_MAX in Hz; unfold LONG_MIN, LONG_MAX; lia|done|done].
  rewrite wrap_s_id; [done|lia|]. unfold is_int, INT_MIN, INT_MAX in Hz. cbn. lia.
Qed.

(** add2 adds. *)
Lemma answer_question a b : is_int a → is_int b → is_int (a + b) → answer (question a b) = dec (a + b) ++ [NL].
Proof.
  intros Ha Hb Hab. unfold answer, scan_two, question. pose proof (scan_int_dec a " "%char (dec b ++ [NL]) [] Ha eq_refl (Forall_nil_2 _)) as H1. cbn [app] in H1. rewrite H1. cbn.
  pose proof (scan_int_dec b NL [] [" "%char] Hb eq_refl ltac:(by apply Forall_singleton)) as H2. cbn [app] in H2. rewrite H2. cbn.
  rewrite wrap_s_id; [done|lia|]. unfold is_int, INT_MIN, INT_MAX in Hab. cbn. lia.
Qed.

(** The answer is no longer than the question. *)
Lemma dec_nat_bound n : 0 <= n → n < 10 ^ Z.of_nat (length (dec_nat n)).
Proof.
  intros Hn. destruct (dec_nat_numeral n Hn) as (_ & vs & HF & ->). rewrite (Forall2_length _ _ _ HF). clear Hn.
  assert (Forall (λ v, 0 <= v < 10) vs) as Hvs.
  { clear -HF. induction HF as [|c v ds vs Hc _ IH]; constructor; [|done]. pose proof (digit_in_nonneg 10 [c] [v] ltac:(by repeat constructor)) as Hn. apply Forall_cons in Hn as [Hn _].
    split; [done|]. unfold digit_in in Hc. destruct (digit_val c); [|done]. cbn in Hc. destruct (Z.ltb_spec z 10); [|done]. injection Hc as <-. done. }
  clear HF. induction vs as [|v vs IH] using rev_ind; [done|]. apply Forall_app in Hvs as [Hvs Hv]. apply Forall_cons in Hv as [Hv _].
  rewrite digits_value_snoc, length_app, Nat.add_1_r, Nat2Z.inj_succ, Z.pow_succ_r by lia. specialize (IH Hvs). lia.
Qed.

Lemma dec_nat_length n k : 0 <= n < 10 ^ Z.of_nat k → (0 < k)%nat → (length (dec_nat n) <= k)%nat.
Proof. intros Hn Hk. unfold dec_nat. pose proof (dec_go_length (Datatypes.S (Z.to_nat (Z.log2 n))) n [] k Hn Hk). done. Qed.

Lemma dec_size z : length (dec z) = ((if (z <? 0)%Z then 1 else 0) + length (dec_nat (Z.abs z)))%nat.
Proof. unfold dec. destruct (Z.ltb_spec z 0); [rewrite Z.abs_neq by lia; done|by rewrite Z.abs_eq by lia]. Qed.

Lemma dec_nat_pos n : 0 <= n → (0 < length (dec_nat n))%nat.
Proof. intros Hn. destruct (dec_nat_digits n Hn) as (? & ? & ? & ? & -> & _). cbn. lia. Qed.

Lemma sum_fits a b : (length (dec (a + b) ++ [NL]) <= length (question a b))%nat.
Proof.
  unfold question. rewrite !length_app. cbn [length]. rewrite length_app. cbn [length]. rewrite !dec_size.
  pose proof (dec_nat_bound (Z.abs a) ltac:(lia)) as Ha. pose proof (dec_nat_bound (Z.abs b) ltac:(lia)) as Hb.
  pose proof (dec_nat_pos (Z.abs a) ltac:(lia)) as Pa. pose proof (dec_nat_pos (Z.abs b) ltac:(lia)) as Pb.
  set (ka := length (dec_nat (Z.abs a))) in *. set (kb := length (dec_nat (Z.abs b))) in *.
  assert (length (dec_nat (Z.abs (a + b))) <= ka + kb)%nat as Hsum.
  { apply dec_nat_length; [|lia]. split; [lia|]. rewrite Nat2Z.inj_add, Z.pow_add_r by lia.
    assert (10 ^ Z.of_nat 1 <= 10 ^ Z.of_nat ka) by (apply Z.pow_le_mono_r; lia). assert (10 ^ Z.of_nat 1 <= 10 ^ Z.of_nat kb) by (apply Z.pow_le_mono_r; lia).
    change (10 ^ Z.of_nat 1) with 10 in *. nia. }
  destruct (Z.ltb_spec (a + b) 0), (Z.ltb_spec a 0), (Z.ltb_spec b 0); lia.
Qed.

(** ** The coprocess *)

Section Specs.
Context {S : Type} `{os}.
Implicit Types s : st S.

(** add2 reads a line and writes its answer, any number of times. *)
Definition answers (l : list (call * reply)) : Prop :=
  ∃ xs, l = concat ((λ x, [(Cread 0 MAXLINE, x.1); (Cwrite 1 (answer (c_str (data_of x.1))), x.2)]) <$> xs) ∧ Forall (λ x : reply * reply, 0 < rv x.1) xs.

Lemma answers_snoc l r w : answers l → 0 < rv r → answers (l ++ [(Cread 0 MAXLINE, r); (Cwrite 1 (answer (c_str (data_of r))), w)]).
Proof using.
  intros (xs & -> & Hxs) Hr. exists (xs ++ [(r, w)]). split; [by rewrite fmap_app, concat_app|]. apply Forall_app. split; [done|by apply Forall_singleton].
Qed.
End Specs.

(** add2.c answers line by line, for ever or until the end of its input; a read
    that fills the array, with no room for the null character, is the only
    thing that can go wrong. *)
Theorem add2_correct {S} `{os} fuel (s : st S) :
  wlp (add2_main fuel) (λ _ _, False)
    (λ t s', ∃ l r, answers l ∧ acted s (l ++ [(Cread 0 MAXLINE, r)]) s' ∧ (t = Exit 0 ∧ rv r <= 0 ∨ t = Undefined "array overrun" ∧ rv r = MAXLINE))
    (λ s', ∃ l, answers l ∧ acted s l s') s.
Proof.
  unfold add2_main. apply wlp_bind. eapply wlp_mono; [apply (wlp_loop (λ (_ : unit) s', ∃ l, answers l ∧ acted s l s') _ (λ _ s', ∃ l r, answers l ∧ acted s (l ++ [(Cread 0 MAXLINE, r)]) s' ∧ rv r <= 0)
    (λ t s', ∃ l r, answers l ∧ acted s (l ++ [(Cread 0 MAXLINE, r)]) s' ∧ (t = Exit 0 ∧ rv r <= 0 ∨ t = Undefined "array overrun" ∧ rv r = MAXLINE)))| |done|].
  - exists []. split; [by exists []|apply acted_refl].
  - intros _ s1 H1. exact H1.
  - intros _ s1 (l & Hl & H1). apply wp_wlp. unfold add2_turn. apply wp_bind. eapply wp_act; [exact H1|done|]. intros r s2 _ H2 _ _.
    destruct (Z.leb_spec (rv r) 0) as [Hr|Hr]; [apply wp_ret; by exists l, r|]. destruct (Z.eqb_spec (rv r) MAXLINE) as [Em|Em]; [apply wp_stop; exists l, r; auto|].
    apply wp_bind. eapply wp_act; [exact H2|done|]. intros w s3 _ H3 _ _. rewrite <-app_assoc in H3. apply wp_bind.
    assert (∀ s4, acts (trace s4) = acts (trace s3) → glob s4 = glob s3 → ∃ l, answers l ∧ acted s l s4) as Hend.
    { intros s4 Ha Hg. eexists. split; [by apply (answers_snoc l r w)|]. by eapply acted_same. }
    destruct (negb _); cbn [when]; [|by apply wp_ret, wp_ret, Hend]. apply wp_bind, wp_get_errno, wp_emit, wp_ret, Hend; [|done]. cbn. by rewrite acts_out.
  - intros _ s1 (l & r & Hl & H1 & Hr). apply wp_wlp, wp_stop. exists l, r. auto.
  - intros s1 H1. exact H1.
Qed.

(** What the coprocess promises to the parent: what it reads from the stream is
    the answer to what it wrote last. *)
Definition last_question (fd : Z) (tr : list event) : option cstr :=
  last (omap (λ x, match x.1 with Cextern "fwrite" [d] t => if d =? fd then Some t else None | _ => None end) (calls tr)).

Class Adder `{os} (parent_out parent_in : Z) := adds : ∀ tr q, last_question parent_out tr = Some q →
  let r := kern tr (Cextern "fgets" [parent_in; MAXLINE] []) in rv r ≠ -1 ∧ c_str (rdata r) = answer q.

Section Parent.
Context {S : Type} `{os} (out_fd in_fd : Z) `{!Adder out_fd in_fd}.
Implicit Types s : st S.

(** The lines asked, and what was printed. *)
Definition asked_sums (s0 : st S) (qs : list (Z * Z)) s : Prop :=
  said Stdout (trace s) = said Stdout (trace s0) ++ concat ((λ q, dec (q.1 + q.2) ++ [NL]) <$> qs).

(** Standard input gives questions. *)
Definition asks_sums (ints : Z * Z → Prop) : Prop := ∀ tr, let r := kern tr (Cfgets MAXLINE) in
  rv r = 0 ∨ ∃ a b, ints (a, b) ∧ is_int a ∧ is_int b ∧ is_int (a + b) ∧ c_str (rdata r) = question a b.

Lemma wp_parent_turn ints s0 qs s :
  asks_sums ints → asked_sums s0 qs s →
  wp (parent_turn out_fd in_fd) (λ r s', match r with inl _ => ∃ q, ints q ∧ asked_sums s0 (qs ++ [q]) s' | inr _ => asked_sums s0 qs s' end) (λ _ _, False) s.
Proof using Adder0.
  intros Hasks Hs. unfold parent_turn. apply wp_bind, wp_call. intros r s1 Hr _ _ _ Ht1. destruct (Z.eqb_spec (rv r) 0) as [E0|E0].
  { apply wp_ret. unfold asked_sums. by rewrite Ht1, said_sys. }
  destruct (Hasks (trace s)) as [Hz|(a & b & Hints & Ha & Hb & Hab & Hq)]; [rewrite <-Hr in Hz; congruence|]. rewrite <-Hr in Hq. rewrite Hq. cbv zeta.
  apply wp_bind, wp_call. intros w s2 _ _ _ _ Ht2. apply wp_bind.
  assert (∀ s3, said Stdout (trace s3) = said Stdout (trace s) → last_question out_fd (trace s3) = Some (question a b) →
    wp (sys (Cextern "fflush" [out_fd] []);;
        x ← sys (Cextern "fgets" [in_fd; MAXLINE] []);
        line ← (if rv x =? -1 then perror (str "read error from pipe");; mret (question a b) else mret (c_str (rdata x)));
        if strlen (question a b) =? 0 then perror (str "child closed pipe");; mret (inr tt) else
        out Stdout (take (Z.to_nat (strlen (question a b))) line);;
        mret (inl tt)) (λ r s', match r with inl _ => ∃ q, ints q ∧ asked_sums s0 (qs ++ [q]) s' | inr _ => asked_sums s0 qs s' end) (λ _ _, False) s3) as Hrest.
  { intros s3 Hsaid Hlast. apply wp_bind, wp_call. intros f s4 _ _ _ _ Ht4. apply wp_bind, wp_call. intros x s5 Hx _ _ _ Ht5.
    assert (last_question out_fd (trace s4) = Some (question a b)) as Hlast4.
    { rewrite Ht4. unfold last_question in *. rewrite calls_snoc_sys, omap_app. cbn. by rewrite app_nil_r. }
    destruct (adds (trace s4) _ Hlast4) as [Hx1 Hx2]. rewrite <-Hx in Hx1, Hx2. rewrite (proj2 (Z.eqb_neq _ _) Hx1). apply wp_bind, wp_ret. rewrite Hx2.
    pose proof (sum_fits a b) as Hfit. rewrite (proj2 (Z.eqb_neq (strlen (question a b)) 0)) by (unfold strlen; rewrite length_app in Hfit; cbn in Hfit; lia).
    apply wp_bind, wp_emit, wp_ret. exists (a, b). split; [done|]. unfold asked_sums. cbn [trace]. rewrite said_out, Ht5, said_sys, Ht4, said_sys, Hsaid, Hs.
    rewrite answer_question by done. rewrite take_ge by (unfold strlen; lia). rewrite fmap_app, concat_app. cbn. by rewrite app_nil_r, <-!app_assoc. }
  assert (last_question out_fd (trace s2) = Some (question a b)) as Hlast2.
  { rewrite Ht2. unfold last_question. rewrite calls_snoc_sys, omap_app, last_app. cbn. by rewrite Z.eqb_refl. }
  destruct (negb _); cbn [when].
  - apply wp_bind, wp_get_errno, wp_emit, Hrest; cbn [trace].
    + rewrite said_app, Ht2, said_sys, Ht1, said_sys. apply app_nil_r.
    + unfold last_question in *. by rewrite calls_snoc_out.
  - apply wp_ret, Hrest; [by rewrite Ht2, said_sys, Ht1, said_sys|done].
Qed.
End Parent.

(** The parent of quiz5, on questions that are two numbers whose sum is an int:
    after each line it has printed the sums of the questions so far, each on
    its line, whole and in order. *)
Theorem quiz5_sums {S} `{os} fuel out_fd in_fd ints (s : st S) :
  Adder out_fd in_fd → asks_sums ints →
  wlp (loop fuel (λ _, parent_turn out_fd in_fd) tt)
    (λ _ s', ∃ qs, Forall ints qs ∧ asked_sums s qs s') (λ _ _, False) (λ s', ∃ qs, Forall ints qs ∧ asked_sums s qs s') s.
Proof.
  intros Hadd Hasks. apply (wlp_loop (λ (_ : unit) s', ∃ qs, Forall ints qs ∧ asked_sums s qs s')).
  - exists []. split; [by constructor|]. unfold asked_sums. by rewrite app_nil_r.
  - done.
  - intros [] s1 (qs & Hqs & H1). apply wp_wlp. eapply wp_mono; [by apply (wp_parent_turn out_fd in_fd ints s qs)| |done].
    intros [[]|[]] s2 H2; [|by exists qs]. destruct H2 as (q & Hq & H2). exists (qs ++ [q]). split; [|done]. apply Forall_app. split; [done|by apply Forall_singleton].
Qed.

(** The child: the coprocess runs with the pipes as its standard input and
    output, or the child exits. *)
Theorem quiz5_child_correct {S} `{os} fd1 fd2 (s : st S) :
  let i := pipe_read fd1 in let o := pipe_write fd2 in
  wp (quiz5_child fd1 fd2) (λ _ _, False)
    (λ t s', ∃ k1 k2 f1 f2 d0 d1 e,
       acted s ([(Cclose (pipe_write fd1), k1); (Cclose (pipe_read fd2), k2); (Cextern "fdopen" [i] (str "r"), f1); (Cextern "fdopen" [o] (str "w"), f2)] ++
         (if i =? 0 then [] else [(Cdup2 i 0, d0)]) ++ (if o =? 1 then [] else [(Cdup2 o 1, d1)]) ++ [(Cexec (str "./add2") [str "add2"], e)]) s' ∧
       t = if rv e <? 0 then Exit 0 else Execed (str "./add2") [str "add2"]) s.
Proof.
  intros i o. unfold quiz5_child. fold i o. apply wp_bind. eapply wp_act; [apply acted_refl|done|]. intros k1 s1 _ H1 _ _.
  apply wp_bind. eapply wp_act; [exact H1|done|]. intros k2 s2 _ H2 _ _. apply wp_bind. eapply wp_act; [exact H2|done|]. intros f1 s3 _ H3 _ _.
  apply wp_bind. eapply wp_act; [exact H3|done|]. intros f2 s4 _ H4 _ _. cbn [app] in H4. set (l4 := [(Cclose (pipe_write fd1), k1); _; _; _]) in *.
  assert (∀ (b : bool) c m l s5 (Q : unit → st S → Prop) E, acted s l s5 → (∀ f, c ≠ Cfflush f) → (∀ d s6, acted s (l ++ (if b then [] else [(c, d)])) s6 → Q tt s6) →
    wp (when (negb b) (d ← sys c; when (negb (rv d =? m)) (perror (if m =? 0 then str "dup2 error to stdin" else str "dup2 error to stdout")))) Q E s5) as Hdup.
  { intros b c m l s5 Q E H5 Hc HQ. destruct b; cbn [negb when]; [apply wp_ret, (HQ k1); by rewrite app_nil_r|].
    apply wp_bind. eapply wp_act; [exact H5|exact Hc|]. intros d s6 _ H6 _ _. destruct (negb _); cbn [when]; [|by apply wp_ret, (HQ d)].
    apply wp_bind, wp_get_errno, wp_emit, (HQ d). eapply acted_same; [exact H6| |done]. cbn. by rewrite acts_out. }
  apply wp_bind. eapply (Hdup (i =? 0) (Cdup2 i 0) 0); [exact H4|done|]. intros d0 s5 H5.
  apply wp_bind. eapply (Hdup (o =? 1) (Cdup2 o 1) 1); [exact H5|done|]. intros d1 s6 H6.
  apply wp_bind. eapply wp_act; [exact H6|done|]. intros e s7 _ H7 _ _. rewrite <-!app_assoc in H7.
  destruct (rv e <? 0) eqn:Ee.
  - apply wp_bind, wp_bind, wp_get_errno, wp_emit, wp_stop. exists k1, k2, f1, f2, d0, d1, e. rewrite Ee. split; [|done]. eapply acted_same; [exact H7| |done]. cbn. by rewrite acts_out.
  - apply wp_stop. exists k1, k2, f1, f2, d0, d1, e. by rewrite Ee.
Qed.

(** ** A session *)

(** Standard input asks 1 2, then 99 -100, and ends. *)
Definition adder_os : os := test_os (λ tr c,
  match c with
  | Cfgets _ => match asked tr with O => Reply 1 0 (question 1 2) [] | 1%nat => Reply 1 0 (question 99 (-100)) [] | _ => ok 0 end
  | Cextern "fgets" _ _ => Reply 1 0 (answer (default [] (last_question 4 tr))) []
  | Cextern "fwrite" _ t => ok (strlen t)
  | _ => ok 0
  end).

Lemma answer_text line : c_str (answer line) = answer line.
Proof.
  apply c_str_id. unfold answer. destruct (scan_two line) as [[a b]|]; [|apply (bool_decide_unpack _); vm_compute; exact I].
  rewrite not_elem_of_app. split; [by apply dec_chars|apply (bool_decide_unpack _); vm_compute; exact I].
Qed.

Lemma quiz5_witness :
  ∃ s', @loop unit unit unit 3 (λ _, @parent_turn unit adder_os 4 5) tt (init tt) = (Ret tt, s') ∧
    ∃ qs, Forall (λ q, q = (1, 2) ∨ q = (99, -100)) qs ∧ asked_sums (init tt) qs s'.
Proof.
  assert (@Adder adder_os 4 5) as Hadd by (intros tr q Hq; cbn; rewrite Hq; split; [discriminate|apply answer_text]).
  assert (@asks_sums adder_os (λ q, q = (1, 2) ∨ q = (99, -100))) as Hasks.
  { intros tr. cbn. destruct (asked tr) as [|[|n]]; [right; exists 1, 2|right; exists 99, (-100)|by left];
      (split; [auto|]; split; [split; discriminate|]; split; [split; discriminate|]; split; [split; discriminate|vm_compute; reflexivity]). }
  pose proof (@quiz5_sums unit adder_os 3 4 5 (λ q, q = (1, 2) ∨ q = (99, -100)) (init tt) Hadd Hasks) as H. unfold wlp in H.
  destruct (loop 3 _ tt (init tt)) as [o s'] eqn:Hrun. exists s'.
  assert (o = Ret tt) as -> by (apply (f_equal fst) in Hrun; vm_compute in Hrun; congruence). split; [reflexivity|exact H].
Defined.

(** An answer that is longer than the question is cut to its length. *)
Example answer_cut :
  let o := test_os (λ tr c, match c with Cfgets _ => Reply 1 0 (str "?" ++ [NL]) [] | Cextern "fgets" _ _ => Reply 1 0 (answer (str "?" ++ [NL])) [] | _ => ok 2 end) in
  said Stdout (trace (@parent_turn unit o 4 5 (init tt)).2) = str "in".
Proof. vm_compute. reflexivity. Qed.
