(* ===== verification/Threads.v ===== *)
(** Threads that share variables, as transition systems: a step is what one
    thread does between two accesses to what is shared.  Of
    tlpi-book/threads: thread_incr.c and its variants with a mutex, a spin lock
    and a read-write lock; prod_condvar.c and prod_no_condvar.c. *)
From S2P Require Import Prelude GetNum.

(** ** An element of a list that changes *)

Lemma zsum_insert {A} (f : A → Z) k b l a : l !! k = Some a → zsum f (<[k := b]> l) = zsum f l + (f b - f a).
Proof.
  intros Hk. assert (<[k := b]> l = alter (λ _, b) k l) as ->; [|by apply (zsum_alter f (λ _, b))].
  apply list_eq. intros i. rewrite list_lookup_alter, list_lookup_insert. destruct (decide (k = i)) as [<- |Hne].
  - rewrite Hk. apply lookup_lt_Some in Hk. rewrite decide_True by done. done.
  - by rewrite decide_False by tauto.
Qed.

Lemma zsum_nonneg {A} (f : A → Z) l : Forall (λ a, 0 <= f a) l → 0 <= zsum f l.
Proof. induction 1 as [|a l Ha _ IH]; [done|]. change (0 <= f a + zsum f l). lia. Qed.

Lemma insert_cases {A} (l : list A) k x y i v : l !! k = Some x → <[k := y]> l !! i = Some v → i = k ∧ v = y ∨ i ≠ k ∧ l !! i = Some v.
Proof.
  intros Hk Hv. destruct (decide (i = k)) as [-> |Hne]; [left|right; by rewrite list_lookup_insert_ne in Hv].
  split; [done|]. rewrite list_lookup_insert_eq in Hv by (by eapply lookup_lt_Some). congruence.
Qed.

(** ** thread_incr *)

Module Incr.

(** In threadFunc: before the lock, between the lock and the load, with the
    value loaded, after the store, and returned; [Unborn] before the thread is
    created. *)
Inductive place := Unborn | At_top | Locked | Loaded (loc : Z) | Stored | Returned.
Record worker := Worker { j : Z; at_ : place }.

(** main creates the threads, joins them, and prints. *)
Inductive main_place := Creating (i : nat) | Joining (i : nat) | Printed (value : Z).
Record state := State { glob : Z; holder : option nat; workers : list worker; main : main_place }.

Section System.
Context (locks : bool) (loops : Z).

Definition set_worker (k : nat) (w : worker) (s : state) : state := State (glob s) (holder s) (<[k := w]> (workers s)) (main s).

Definition worker_step (k : nat) (s : state) : option state :=
  w ← workers s !! k;
  match at_ w with
  | Unborn | Returned => None
  | At_top =>
      if j w <? loops then
        if locks then
          match holder s with
          | None => Some (set_worker k (Worker (j w) Locked) (State (glob s) (Some k) (workers s) (main s)))
          | Some _ => None
          end
        else Some (set_worker k (Worker (j w) Locked) s)
      else Some (set_worker k (Worker (j w) Returned) s)
  | Locked => Some (set_worker k (Worker (j w) (Loaded (glob s))) s)
  | Loaded loc => Some (set_worker k (Worker (j w) Stored) (State (wrap_s 32 (loc + 1)) (holder s) (workers s) (main s)))
  | Stored => Some (set_worker k (Worker (j w + 1) At_top) (State (glob s) (if locks then None else holder s) (workers s) (main s)))
  end.

Definition main_step (s : state) : option state :=
  match main s with
  | Creating i =>
      match workers s !! i with
      | Some w => Some (State (glob s) (holder s) (<[i := Worker 0 At_top]> (workers s)) (Creating (S i)))
      | None => Some (State (glob s) (holder s) (workers s) (Joining 0))
      end
  | Joining i =>
      match workers s !! i with
      | Some w => match at_ w with Returned => Some (State (glob s) (holder s) (workers s) (Joining (S i))) | _ => None end
      | None => Some (State (glob s) (holder s) (workers s) (Printed (glob s)))
      end
  | Printed _ => None
  end.

Inductive step (s s' : state) : Prop :=
  | Step_worker k : worker_step k s = Some s' → step s s'
  | Step_main : main_step s = Some s' → step s s'.

(** Two threads. *)
Definition start : state := State 0 None [Worker 0 Unborn; Worker 0 Unborn] (Creating 0).
End System.

(** ** What the threads have added *)

Definition added (w : worker) : Z := j w + match at_ w with Stored => 1 | _ => 0 end.
Definition inside (w : worker) : bool := match at_ w with Locked | Loaded _ | Stored => true | _ => false end.

Section Invariant.
Context (locks : bool) (loops : Z) (Hloops : 0 <= loops) (Hint : 2 * loops <= INT_MAX).

Record worker_ok (total : Z) (s : state) (k : nat) (w : worker) : Prop := {
  wk_j : 0 <= j w <= loops;
  wk_inside : inside w = true → j w < loops ∧ (locks = true → holder s = Some k);
  wk_loaded : match at_ w with Loaded loc => 0 <= loc <= total ∧ (locks = true → loc = glob s) | _ => True end;
  wk_returned : at_ w = Returned → j w = loops }.

Definition main_ok (s : state) : Prop :=
  match main s with
  | Creating i => ∀ k w, workers s !! k = Some w → ((i <= k)%nat → w = Worker 0 Unborn) ∧ ((k < i)%nat → at_ w ≠ Unborn)
  | Joining i => ∀ k w, workers s !! k = Some w → at_ w ≠ Unborn ∧ ((k < i)%nat → at_ w = Returned)
  | Printed v => v = glob s ∧ Forall (λ w, at_ w = Returned) (workers s)
  end.

Record ok (s : state) : Prop := {
  ok_two : length (workers s) = 2%nat;
  ok_glob : 0 <= glob s <= zsum added (workers s);
  ok_exact : locks = true → glob s = zsum added (workers s);
  ok_holder : ∀ k, holder s = Some k → locks = true ∧ ∃ w, workers s !! k = Some w ∧ inside w = true;
  ok_workers : ∀ k w, workers s !! k = Some w → worker_ok (zsum added (workers s)) s k w;
  ok_main : main_ok s }.

Lemma incr_start_ok : ok start.
Proof using Hloops.
  split; try done; cbn.
  - intros [|[|k]] w Hw; [injection Hw as <-|injection Hw as <-|done]; (split; [cbn; lia|done|done|done]).
  - intros [|[|k]] w Hw; [injection Hw as <-|injection Hw as <-|done]; (split; [done|intros H; exfalso; clear -H; lia]).
Qed.

Lemma added_bound total s k w : worker_ok total s k w → added w <= loops.
Proof using. intros [H1 H2 _ _]. unfold added, inside in *. destruct (at_ w); try lia; destruct (H2 eq_refl); lia. Qed.

Lemma total_bound s : ok s → zsum added (workers s) <= 2 * loops.
Proof using.
  intros Hs. etransitivity; [apply (zsum_le _ loops)|rewrite (ok_two _ Hs); lia].
  apply Forall_lookup. intros k w Hk. by eapply added_bound, (ok_workers _ Hs).
Qed.

(** A worker changes, with the lock it may take or release and the value it may
    store. *)
Lemma ok_move s k w w' g h m :
  ok s → workers s !! k = Some w → added w <= added w' →
  let total := zsum added (workers s) + (added w' - added w) in
  0 <= g <= total → (locks = true → g = total) →
  (∀ i, h = Some i → locks = true ∧ (i = k ∧ inside w' = true ∨ i ≠ k ∧ holder s = Some i)) →
  (∀ i, i ≠ k → holder s = Some i → h = Some i) →
  (locks = true → holder s = Some k ∨ g = glob s) →
  worker_ok total (State g h (<[k := w']> (workers s)) m) k w' →
  main_ok (State g h (<[k := w']> (workers s)) m) →
  ok (State g h (<[k := w']> (workers s)) m).
Proof using.
  intros Hs Hk Hadd total Hg Hex Hh Hh' Hst Hw' Hm.
  assert (zsum added (<[k := w']> (workers s)) = total) as Hz by (by apply zsum_insert).
  split; cbn [glob holder workers main].
  - rewrite length_insert. apply (ok_two _ Hs).
  - by rewrite Hz.
  - intros Hl. rewrite Hz. by apply Hex.
  - intros i Hi. destruct (Hh i Hi) as (Hl & [[-> Hin]|[Hne Hi']]); (split; [done|]).
    + exists w'. split; [|done]. apply list_lookup_insert_eq. by eapply lookup_lt_Some.
    + destruct (ok_holder _ Hs i Hi') as (_ & v & Hv & Hin). exists v. split; [|done]. by rewrite list_lookup_insert_ne.
  - intros i v Hv. rewrite Hz. destruct (insert_cases _ _ _ _ _ _ Hk Hv) as [[-> ->]|[Hne Hv']]; [done|].
    destruct (ok_workers _ Hs i v Hv') as [H1 H2 H3 H4]. split; [done| | |done]; cbn [holder glob].
    + intros Hin. destruct (H2 Hin) as [H5 H6]. split; [done|]. intros Hl. by apply Hh', H6.
    + destruct (at_ v) eqn:Ev; try done. destruct H3 as [H5 H6]. split; [fold total; lia|]. intros Hl.
      assert (holder s = Some i) as Hhi by (apply H2; [unfold inside; by rewrite Ev|done]).
      destruct (Hst Hl) as [Hc|Hc]; [congruence|]. rewrite (H6 Hl). done.
  - exact Hm.
Qed.

(** What main has seen of a worker still holds after its step. *)
Lemma main_ok_move s k w w' g h :
  main_ok s → workers s !! k = Some w → at_ w ≠ Unborn → at_ w ≠ Returned → at_ w' ≠ Unborn →
  main_ok (State g h (<[k := w']> (workers s)) (main s)).
Proof using.
  intros Hm Hk Hun Hre Hun'. unfold main_ok in *. cbn [main workers glob]. destruct (main s).
  - intros i' v Hv. destruct (insert_cases _ _ _ _ _ _ Hk Hv) as [[-> ->]|[Hne Hv']]; [|by apply (Hm i')]. split; [|done]. intros Hle. exfalso. apply Hun. by rewrite (proj1 (Hm k w Hk) Hle).
  - intros i' v Hv. destruct (insert_cases _ _ _ _ _ _ Hk Hv) as [[-> ->]|[Hne Hv']]; [|by apply (Hm i')]. split; [done|]. intros Hlt. exfalso. by apply Hre, (Hm k w Hk).
  - exfalso. destruct Hm as [_ Hm]. rewrite Forall_lookup in Hm. by apply Hre, (Hm k w Hk).
Qed.

Lemma total_after s k w w' : ok s → workers s !! k = Some w → added w' <= loops → zsum added (workers s) + (added w' - added w) <= 2 * loops.
Proof using.
  intros Hs Hk Hw'. rewrite <-(zsum_insert added k w' (workers s) w Hk). etransitivity; [apply (zsum_le _ loops)|rewrite length_insert, (ok_two _ Hs); lia].
  apply Forall_lookup. intros i v Hv. destruct (insert_cases _ _ _ _ _ _ Hk Hv) as [[-> ->]|[_ Hv']]; [done|]. by eapply added_bound, (ok_workers _ Hs).
Qed.

Lemma worker_step_ok k s s' : ok s → worker_step locks loops k s = Some s' → ok s'.
Proof using Hint Hloops.
  intros Hs. unfold worker_step. destruct (workers s !! k) as [[n a]|] eqn:Hk; cbn; [|done].
  destruct (ok_workers _ Hs k _ Hk) as [Hj Hin Hlo Hre]. cbn [j at_] in *. pose proof (ok_glob _ Hs) as Hg. pose proof (ok_exact _ Hs) as He. pose proof (ok_main _ Hs) as Hm.
  destruct a; intros Hstep.
  - done.
  - destruct (Z.ltb_spec n loops) as [Hlt|Hge]; [destruct (Bool.bool_dec locks true) as [El|El]|].
    + rewrite El in Hstep. destruct (holder s) eqn:Eh; [done|]. injection Hstep as <-.
      apply (ok_move s k _ (Worker n Locked) _ _ _ Hs Hk); unfold added; cbn; fold added; [lia|lia| | | |auto| |by eapply main_ok_move].
      * intros Hl. rewrite (He Hl). cbn. lia.
      * intros i [= <-]. auto.
      * intros i _ Hi. congruence.
      * split; cbn; [lia|auto|done|done].
    + apply not_true_is_false in El. rewrite El in Hstep. injection Hstep as <-.
      apply (ok_move s k _ (Worker n Locked) _ _ _ Hs Hk); unfold added; cbn; fold added; [lia|lia|intros; congruence| |auto|intros; congruence| |by eapply main_ok_move].
      * intros i Hi. destruct (ok_holder _ Hs i Hi). congruence.
      * split; cbn; [lia|split; [done|congruence]|done|done].
    + injection Hstep as <-. apply (ok_move s k _ (Worker n Returned) _ _ _ Hs Hk); unfold added; cbn; fold added; [lia|lia| | |auto|auto| |by eapply main_ok_move].
      * intros Hl. rewrite (He Hl). lia.
      * intros i Hi. destruct (ok_holder _ Hs i Hi) as (Hl & v & Hv & Hins). split; [done|]. right. split; [|done]. intros ->. rewrite Hk in Hv. by injection Hv as <-.
      * split; cbn; [lia|done|done|intros; lia].
  - injection Hstep as <-. destruct (Hin eq_refl) as [Hlt Hhk]. apply (ok_move s k _ (Worker n (Loaded (glob s))) _ _ _ Hs Hk); unfold added; cbn; fold added; [lia|lia| | |auto|auto| |by eapply main_ok_move].
    + intros Hl. rewrite (He Hl). lia.
    + intros i Hi. destruct (ok_holder _ Hs i Hi) as (Hl & _). split; [done|]. left. rewrite (Hhk Hl) in Hi. by injection Hi as <-.
    + split; cbn; [lia|auto|split; [lia|done]|done].
  - injection Hstep as <-. destruct (Hin eq_refl) as [Hlt Hhk]. destruct Hlo as [Hlo Hle].
    pose proof (total_after s k _ (Worker n Stored) Hs Hk ltac:(unfold added; cbn; lia)) as Hb. unfold added at 2 3 in Hb. cbn [j at_] in Hb.
    rewrite wrap_s_id by (unfold INT_MAX in Hint; cbn; lia).
    apply (ok_move s k _ (Worker n Stored) _ _ _ Hs Hk); unfold added; cbn; fold added; [lia|lia| | |auto| | |by eapply main_ok_move].
    + intros Hl. rewrite (Hle Hl), (He Hl). lia.
    + intros i Hi. destruct (ok_holder _ Hs i Hi) as (Hl & _). split; [done|]. left. rewrite (Hhk Hl) in Hi. by injection Hi as <-.
    + intros Hl. left. auto.
    + split; cbn; [lia|auto|done|done].
  - injection Hstep as <-. destruct (Hin eq_refl) as [Hlt Hhk]. apply (ok_move s k _ (Worker (n + 1) At_top) _ _ _ Hs Hk); unfold added; cbn; fold added; [lia|lia| | | |auto| |by eapply main_ok_move].
    + intros Hl. rewrite (He Hl). lia.
    + intros i Hi. destruct (Bool.bool_dec locks true) as [El|El]; [by rewrite El in Hi|]. apply not_true_is_false in El. rewrite El in Hi. destruct (ok_holder _ Hs i Hi). congruence.
    + intros i Hne Hi. destruct (ok_holder _ Hs i Hi) as [Hl _]. rewrite (Hhk Hl) in Hi. congruence.
    + split; cbn; [lia|done|done|done].
  - done.
Qed.

Lemma ok_same s m : ok s → main_ok (State (glob s) (holder s) (workers s) m) → ok (State (glob s) (holder s) (workers s) m).
Proof using. intros [H1 H2 H3 H4 H5 H6] Hm. split; try done. cbn. intros k w Hk. destruct (H5 k w Hk). by split. Qed.

Lemma main_step_ok s s' : ok s → main_step s = Some s' → ok s'.
Proof using Hloops.
  intros Hs. unfold main_step. pose proof (ok_main _ Hs) as Hm. unfold main_ok in Hm. destruct (main s) as [i|i|v] eqn:Em; [| |done].
  - destruct (workers s !! i) as [w|] eqn:Hi; intros [= <-].
    + pose proof (proj1 (Hm i w Hi) ltac:(lia)) as ->. pose proof (ok_workers _ Hs i _ Hi) as [Hj _ _ _]. cbn in Hj. pose proof (ok_glob _ Hs) as Hg. pose proof (ok_exact _ Hs) as He.
      apply (ok_move s i _ (Worker 0 At_top) _ _ _ Hs Hi); unfold added; cbn; fold added; [lia|lia| | |auto|auto| |].
      * intros Hl. rewrite (He Hl). lia.
      * intros k Hk. destruct (ok_holder _ Hs k Hk) as (Hl & v & Hv & Hins). split; [done|]. right. split; [|done]. intros ->. rewrite Hi in Hv. by injection Hv as <-.
      * split; cbn; [lia|done|done|done].
      * unfold main_ok. cbn. intros k v Hv. destruct (insert_cases _ _ _ _ _ _ Hi Hv) as [[-> ->]|[Hne Hv']]; [split; [lia|done]|].
        destruct (Hm k v Hv') as [H1 H2]. split; [intros Hle; apply H1; lia|intros Hlt; apply H2; lia].
    + apply ok_same; [done|]. unfold main_ok. cbn. intros k w Hk. split; [|lia]. apply (proj2 (Hm k w Hk)). apply lookup_lt_Some in Hk. apply lookup_ge_None in Hi. lia.
  - destruct (workers s !! i) as [w|] eqn:Hi.
    + destruct (at_ w) eqn:Ew; try done. intros [= <-]. apply ok_same; [done|]. unfold main_ok. cbn. intros k v Hk. split; [by eapply Hm|]. intros Hlt.
      destruct (decide (k = i)) as [-> |Hne]; [congruence|]. apply (Hm k v Hk). lia.
    + intros [= <-]. apply ok_same; [done|]. unfold main_ok. cbn. split; [done|]. apply Forall_lookup. intros k w Hk. apply (Hm k w Hk).
      apply lookup_lt_Some in Hk. apply lookup_ge_None in Hi. lia.
Qed.

Lemma reach_ok s : rtc (step locks loops) start s → ok s.
Proof using Hint Hloops.
  intros Hr. assert (∀ s1, ok s1 → rtc (step locks loops) s1 s → ok s) as H; [|by apply (H start), Hr; apply incr_start_ok].
  clear Hr. intros s1 H1 Hr. induction Hr as [|s1 s2 s3 [k Hstep|Hstep] _ IH]; [done| |]; apply IH; [by eapply worker_step_ok|by eapply main_step_ok].
Qed.

(** Some thread can go on until main has printed. *)
Lemma ok_progress s : ok s → (∃ v, main s = Printed v) ∨ ∃ s', step locks loops s s'.
Proof using.
  intros Hs. pose proof (ok_main _ Hs) as Hm. unfold main_ok in Hm. destruct (main s) as [i|i|v] eqn:Em; [| |by left; exists v]; right.
  - destruct (workers s !! i) as [w|] eqn:Hi; eexists; apply Step_main; unfold main_step; by rewrite Em, Hi.
  - destruct (workers s !! i) as [[n a]|] eqn:Hi; [|eexists; apply Step_main; unfold main_step; by rewrite Em, Hi].
    assert (a ≠ Unborn) as Hun by apply (Hm i _ Hi). assert (∀ s', worker_step locks loops i s = Some s' → ∃ s', step locks loops s s') as Hgo by (intros s' H; exists s'; by eapply Step_worker).
    unfold worker_step in Hgo. rewrite Hi in Hgo. cbn in Hgo. destruct a; [done| |by eapply Hgo|by eapply Hgo|by eapply Hgo|eexists; apply Step_main; unfold main_step; by rewrite Em, Hi].
    destruct (n <? loops); [|by eapply Hgo]. destruct (Bool.bool_dec locks true) as [El|El]; [|apply not_true_is_false in El; rewrite El in *; by eapply Hgo].
    rewrite El in Hgo. destruct (holder s) as [k|] eqn:Eh; [|rewrite El; by eapply Hgo].
    destruct (ok_holder _ Hs k Eh) as (_ & [n' a'] & Hk & Hin). unfold inside in Hin. cbn in Hin.
    assert (∀ s', worker_step locks loops k s = Some s' → ∃ s', step locks loops s s') as Hgo' by (intros s' H; exists s'; by eapply Step_worker).
    unfold worker_step in Hgo'. rewrite Hk in Hgo'. cbn in Hgo'. destruct a'; try done; by eapply Hgo'.
Qed.

(** What is left to do. *)
Definition left_of (w : worker) : Z :=
  4 * (loops - j w) + match at_ w with Unborn => 3 | At_top => 2 | Locked => 1 | Loaded _ => 0 | Stored => -1 | Returned => 1 end.
Definition main_left (m : main_place) : Z := match m with Creating i => Z.of_nat (2 - i) + 6 | Joining i => Z.of_nat (2 - i) + 1 | Printed _ => 0 end.
Definition measure (s : state) : Z := zsum left_of (workers s) + main_left (main s).

Lemma measure_nonneg s : ok s → 0 <= measure s.
Proof using.
  intros Hs. assert (0 <= zsum left_of (workers s)).
  { apply zsum_nonneg, Forall_lookup. intros k w Hk. destruct (ok_workers _ Hs k w Hk) as [Hj Hin _ _]. unfold left_of, inside in *.
    destruct (at_ w); try lia. }
  unfold measure, main_left. destruct (main s); lia.
Qed.

Lemma step_measure s s' : ok s → step locks loops s s' → measure s' < measure s.
Proof using.
  intros Hs [k Hstep|Hstep].
  - unfold worker_step in Hstep. destruct (workers s !! k) as [[n a]|] eqn:Hk; [|done]. cbn in Hstep.
    assert (∀ w g h, left_of w < left_of (Worker n a) → measure (State g h (<[k := w]> (workers s)) (main s)) < measure s) as H.
    { intros w g h Hlt. unfold measure. cbn [workers main]. rewrite (zsum_insert _ _ _ _ _ Hk). lia. }
    destruct a; [done| |injection Hstep as <-; apply H; unfold left_of; cbn; lia..|done].
    destruct (n <? loops); [destruct locks; [destruct (holder s); [done|]|]|]; injection Hstep as <-; apply H; unfold left_of; cbn; lia.
  - pose proof (ok_main _ Hs) as Hm. unfold main_ok in Hm. unfold main_step in Hstep. unfold measure. destruct (main s) as [i|i|v]; [| |done].
    + destruct (workers s !! i) as [w|] eqn:Hi; injection Hstep as <-; cbn [workers main main_left].
      * rewrite (zsum_insert _ _ _ _ _ Hi). 
        pose proof (proj1 (Hm i w Hi) ltac:(lia)) as ->. apply lookup_lt_Some in Hi. rewrite (ok_two _ Hs) in Hi. unfold left_of. cbn. lia.
      * lia.
    + destruct (workers s !! i) as [w|] eqn:Hi; [destruct (at_ w); try done|]; injection Hstep as <-; cbn [workers main main_left]; [|lia].
      apply lookup_lt_Some in Hi. rewrite (ok_two _ Hs) in Hi. lia.
Qed.

Lemma all_returned l : Forall (λ w, added w = loops) l → zsum added l = Z.of_nat (length l) * loops.
Proof using. induction 1 as [|w l Hw _ IH]; [done|]. change (added w + zsum added l = Z.of_nat (Datatypes.S (length l)) * loops). lia. Qed.

Lemma printed_total s v : ok s → main s = Printed v → 0 <= v <= 2 * loops ∧ (locks = true → v = 2 * loops).
Proof using.
  intros Hs Hv. pose proof (ok_main _ Hs) as Hm. unfold main_ok in Hm. rewrite Hv in Hm. destruct Hm as [-> Hall].
  assert (zsum added (workers s) = 2 * loops) as Hz.
  { rewrite all_returned, (ok_two _ Hs); [lia|]. rewrite Forall_lookup in Hall |- *. intros k w Hk. pose proof (Hall k w Hk) as Hw.
    unfold added. rewrite (wk_returned _ _ _ _ (ok_workers _ Hs k w Hk) Hw), Hw. lia. }
  pose proof (ok_glob _ Hs). pose proof (ok_exact _ Hs). split; [lia|]. intros Hl. rewrite <-Hz. auto.
Qed.
End Invariant.

(** Two threads that each add one to a counter [loops] times.  Every schedule
    comes to an end and none gets stuck before main has printed; with the lock
    the number is twice [loops], and without it no more. *)
Theorem thread_incr_correct locks loops s :
  0 <= loops → 2 * loops <= INT_MAX → rtc (step locks loops) start s →
  (∀ v, main s = Printed v → 0 <= v <= 2 * loops ∧ (locks = true → v = 2 * loops)) ∧
  ((∃ v, main s = Printed v) ∨ ∃ s', step locks loops s s') ∧
  0 <= measure loops s ∧ (∀ s', step locks loops s s' → measure loops s' < measure loops s).
Proof.
  intros Hloops Hint Hr. apply reach_ok in Hr; [|done..]. split; [|split; [|split]].
  - intros v. by apply printed_total.
  - by apply ok_progress.
  - by eapply measure_nonneg.
  - intros s' Hstep. by eapply step_measure.
Qed.

(** A schedule: who goes next, [None] for main. *)
Definition follow (locks : bool) (loops : Z) (sched : list (option nat)) (s : state) : option state :=
  foldl (λ s who, s ← s; match who with Some k => worker_step locks loops k s | None => main_step s end) (Some s) sched.

Lemma follow_reach locks loops sched s s' : follow locks loops sched s = Some s' → rtc (step locks loops) s s'.
Proof.
  revert s s'. induction sched as [|who sched IH] using rev_ind; intros s s'; unfold follow; [intros [= ->]; apply rtc_refl|].
  rewrite foldl_snoc. fold (follow locks loops sched s). destruct (follow locks loops sched s) as [s1|] eqn:E; [|done]. cbn. intros Hstep.
  eapply rtc_r; [by apply IH|]. destruct who; [by eapply Step_worker|by apply Step_main].
Qed.

Definition turns (n : nat) (who : option nat) : list (option nat) := replicate n who.

(** With the lock, two times three is six. *)
Lemma thread_incr_witness :
  ∃ s, rtc (step true 3) start s ∧ main s = Printed 6 ∧ (∀ v, main s = Printed v → 0 <= v <= 6 ∧ (true = true → v = 6)).
Proof.
  destruct (follow true 3 (turns 3 None ++ turns 13 (Some 0%nat) ++ turns 13 (Some 1%nat) ++ turns 3 None) start) as [s|] eqn:Hs; [|vm_compute in Hs; discriminate Hs].
  exists s. pose proof (follow_reach _ _ _ _ _ Hs) as Hr. split; [exact Hr|]. split; [vm_compute in Hs; injection Hs as <-; reflexivity|].
  apply (thread_incr_correct true 3 s); [lia|vm_compute; discriminate|exact Hr].
Defined.

(** Without it, it may be two: each thread keeps a stale value over the work of
    the other. *)
Example two_of_six :
  main <$> follow false 3 (turns 3 None ++ turns 2 (Some 0%nat) ++ turns 8 (Some 1%nat) ++ turns 2 (Some 0%nat) ++ turns 2 (Some 1%nat) ++ turns 9 (Some 0%nat) ++ turns 3 (Some 1%nat) ++ turns 3 None) start
  = Some (Printed 2).
Proof. vm_compute. reflexivity. Qed.
End Incr.

(** ** prod_condvar and prod_no_condvar *)

Module Units.

(** The mutex is held by main or by a producer. *)
Inductive thread := Main | Maker (k : nat).

(** In threadFunc: at the top of the loop, holding the mutex before [avail++]
    and after it, about to signal, and returned. *)
Inductive place := Unborn | At_top | Adding | Unlocking | Signalling | Returned.
Record producer := Producer { cnt : Z; j : Z; at_ : place }.

(** In main: creating, about to lock, at [while (avail == 0)], in
    pthread_cond_wait before and after it is woken, at [while (avail > 0)], about
    to unlock, and out. *)
Inductive main_place := Creating (i : nat) | Locking | Check | Waiting | Woken | Consuming | Releasing | Out.
Record state := State { avail : Z; holder : option thread; producers : list producer; main : main_place; totRequired : Z; numConsumed : Z; done_ : bool }.

#[global] Instance place_eq : EqDecision place.
Proof. solve_decision. Defined.
#[global] Instance main_place_eq : EqDecision main_place.
Proof. solve_decision. Defined.

Section System.
Context (cond : bool).

Definition set_producer (k : nat) (p : producer) (m : main_place) (a : Z) (h : option thread) (s : state) : state :=
  State a h (<[k := p]> (producers s)) m (totRequired s) (numConsumed s) (done_ s).
Definition set_main (m : main_place) (h : option thread) (s : state) : state :=
  State (avail s) h (producers s) m (totRequired s) (numConsumed s) (done_ s).

Definition maker_step (k : nat) (s : state) : option state :=
  p ← producers s !! k;
  let goes pl := set_producer k (Producer (cnt p) (j p) pl) (main s) in
  match at_ p with
  | Unborn | Returned => None
  | At_top =>
      if j p <? cnt p then
        match holder s with
        | None => Some (goes Adding (avail s) (Some (Maker k)) s)
        | Some _ => None
        end
      else Some (goes Returned (avail s) (holder s) s)
  | Adding => Some (goes Unlocking (wrap_s 32 (avail s + 1)) (holder s) s)
  | Unlocking => Some (goes Signalling (avail s) None s)
  | Signalling =>
      let m := match main s with Waiting => if cond then Woken else Waiting | m => m end in
      Some (set_producer k (Producer (cnt p) (j p + 1) At_top) m (avail s) (holder s) s)
  end.

Definition main_step (s : state) : option state :=
  match main s with
  | Creating i =>
      match producers s !! i with
      | Some p => Some (State (avail s) (holder s) (<[i := Producer (cnt p) 0 At_top]> (producers s)) (Creating (S i)) (wrap_s 32 (totRequired s + cnt p)) (numConsumed s) (done_ s))
      | None => Some (State (avail s) (holder s) (producers s) Locking (totRequired s) 0 false)
      end
  | Locking => match holder s with None => Some (set_main (if cond then Check else Consuming) (Some Main) s) | Some _ => None end
  | Check => Some (if avail s =? 0 then set_main Waiting None s else set_main Consuming (holder s) s)
  | Waiting => None
  | Woken => match holder s with None => Some (set_main Check (Some Main) s) | Some _ => None end
  | Consuming =>
      Some (if 0 <? avail s then
        let n := wrap_s 32 (numConsumed s + 1) in
        State (wrap_s 32 (avail s - 1)) (holder s) (producers s) Consuming (totRequired s) n (totRequired s <=? n)
      else set_main Releasing (holder s) s)
  | Releasing => Some (set_main (if done_ s then Out else Locking) None s)
  | Out => None
  end.

(** pthread_cond_wait may return with no signal. *)
Inductive step (s s' : state) : Prop :=
  | Step_maker k : maker_step k s = Some s' → step s s'
  | Step_main : main_step s = Some s' → step s s'.
Inductive spurious (s : state) : state → Prop :=
  | Spurious : main s = Waiting → spurious s (set_main Woken (holder s) s).

(** The words of the command line are what each thread has to produce. *)
Definition start (args : list cstr) : state :=
  State 0 None ((λ a, Producer (atoi a) 0 Unborn) <$> args) (Creating 0) 0 0 false.
End System.

(** ** What is kept *)

Definition made (p : producer) : Z := j p + match at_ p with Unlocking | Signalling => 1 | _ => 0 end.
Definition born (p : producer) : Z := match at_ p with Unborn => 0 | _ => cnt p end.
Definition holds (p : producer) : bool := match at_ p with Adding | Unlocking => true | _ => false end.
Definition told (p : producer) : bool := match at_ p with Unlocking | Signalling => true | _ => false end.
Definition main_holds (m : main_place) : bool := match m with Check | Consuming | Releasing => true | _ => false end.

Section Invariant.
Context (cond : bool) (total : Z) (Htotal : 0 < total <= INT_MAX).

Record producer_ok (h : option thread) (k : nat) (p : producer) : Prop := {
  pk_j : 0 <= j p <= cnt p;
  pk_busy : match at_ p with Adding | Unlocking | Signalling => j p < cnt p | Returned => j p = cnt p | Unborn => j p = 0 | At_top => True end;
  pk_holds : holds p = true ↔ h = Some (Maker k) }.

Definition all_born (s : state) : Prop :=
  match main s with
  | Creating i => ∀ k p, producers s !! k = Some p → ((i <= k)%nat → at_ p = Unborn) ∧ ((k < i)%nat → at_ p ≠ Unborn)
  | _ => ∀ k p, producers s !! k = Some p → at_ p ≠ Unborn
  end.

Record ok (s : state) : Prop := {
  ok_producers : ∀ k p, producers s !! k = Some p → producer_ok (holder s) k p;
  ok_maker_there : ∀ i, holder s = Some (Maker i) → (i < length (producers s))%nat;
  ok_cnt : zsum cnt (producers s) = total;
  ok_born : all_born s;
  ok_total : totRequired s = zsum born (producers s);
  ok_avail : 0 <= avail s;
  ok_consumed : 0 <= numConsumed s;
  ok_units : avail s + numConsumed s = zsum made (producers s);
  ok_holds : main_holds (main s) = true ↔ holder s = Some Main;
  ok_done : done_ s = (total <=? numConsumed s);
  ok_early : match main s with Creating _ => numConsumed s = 0 | Consuming | Releasing => True | Out => total <= numConsumed s | _ => numConsumed s < total end;
  ok_cond : cond = false → match main s with Check | Waiting | Woken => False | _ => True end;
  ok_waiting : main s = Waiting → avail s = 0 ∨ ∃ k p, producers s !! k = Some p ∧ told p = true }.

Lemma made_cnt h k p : producer_ok h k p → made p <= cnt p.
Proof using. intros [H1 H2 _]. unfold made. destruct (at_ p); lia. Qed.

Lemma born_cnt h k p : producer_ok h k p → born p <= cnt p.
Proof using. intros [H1 H2 _]. unfold born. destruct (at_ p); lia. Qed.

Lemma made_bound s : ok s → zsum made (producers s) <= total.
Proof using.
  intros Hs. rewrite <-(ok_cnt _ Hs). apply zsum_mono, Forall_lookup. intros k p Hk. by eapply made_cnt, (ok_producers _ Hs).
Qed.

(** A producer moves. *)
Lemma ok_maker s k p p' m a h :
  ok s → producers s !! k = Some p → at_ p ≠ Unborn → at_ p' ≠ Unborn → cnt p' = cnt p →
  producer_ok h k p' → 0 <= a → a + numConsumed s = zsum made (producers s) + (made p' - made p) →
  (∀ i, i ≠ k → h = Some (Maker i) ↔ holder s = Some (Maker i)) → (h = Some Main ↔ holder s = Some Main) →
  (m = main s ∨ cond = true ∧ main s = Waiting ∧ m = Woken) →
  (m = Waiting → told p' = true ∨ a = avail s ∧ told p = false) →
  ok (set_producer k p' m a h s).
Proof using.
  intros Hs Hk Hun Hun' Hcnt Hp' Ha Hunits Hh Hmain Hm Hw.
  assert (∀ i v, <[k := p']> (producers s) !! i = Some v → i = k ∧ v = p' ∨ i ≠ k ∧ producers s !! i = Some v) as Hget by (intros i v; exact (insert_cases _ k p p' i v Hk)).
  pose proof (ok_born _ Hs) as Hb. unfold all_born in Hb. pose proof (ok_cond _ Hs) as Hc. pose proof (ok_early _ Hs) as He.
  split; cbn [set_producer avail holder producers main totRequired numConsumed done_]; try apply Hs.
  - intros i v Hv. destruct (Hget i v Hv) as [[-> ->]|[Hne Hv']]; [done|]. destruct (ok_producers _ Hs i v Hv') as [H1 H2 H3]. split; [done|done|]. by rewrite H3, Hh.
  - intros i Hi. rewrite length_insert. destruct (decide (i = k)) as [-> |Hne]; [by eapply lookup_lt_Some|]. by apply (ok_maker_there _ Hs), Hh.
  - rewrite (zsum_insert _ _ _ _ _ Hk), Hcnt, (ok_cnt _ Hs). lia.
  - unfold all_born. cbn. destruct Hm as [-> |(_ & Hm & ->)]; [destruct (main s) as [n| | | | | | |]|rewrite Hm in Hb]; intros i v Hv; destruct (Hget i v Hv) as [[-> ->]|[Hne Hv']]; try done; try (by eapply Hb).
    split; [|done]. intros Hle. exfalso. apply Hun. by apply (Hb k p Hk).
  - rewrite (zsum_insert _ _ _ _ _ Hk), (ok_total _ Hs). unfold born at 3 4. destruct (at_ p), (at_ p'); try done; rewrite Hcnt; lia.
  - done.
  - by rewrite (zsum_insert _ _ _ _ _ Hk).
  - rewrite Hmain, <-(ok_holds _ Hs). by destruct Hm as [-> |(_ & -> & ->)].
  - destruct Hm as [-> |(_ & Hm & ->)]; [done|by rewrite Hm in He].
  - destruct Hm as [-> |(? & Hm & ->)]; [done|congruence].
  - intros Hwait. destruct (Hw Hwait) as [Htold|[-> Htold]].
    + right. exists k, p'. split; [apply list_lookup_insert_eq; by eapply lookup_lt_Some|done].
    + destruct (ok_waiting _ Hs) as [H0|(i & v & Hv & Hvt)]; [destruct Hm as [-> |(? & Hm & ->)]; congruence|by left|].
      right. exists i, v. split; [|done]. rewrite list_lookup_insert_ne; [done|]. intros ->. congruence.
Qed.

Lemma maker_step_ok k s s' : ok s → maker_step cond k s = Some s' → ok s'.
Proof using Htotal.
  intros Hs. unfold maker_step. destruct (producers s !! k) as [[c n a]|] eqn:Hk; cbn; [|done].
  pose proof (ok_producers _ Hs k _ Hk) as [Hj Hb Hh]. cbn in Hj, Hb. unfold holds in Hh. cbn in Hh.
  pose proof (ok_units _ Hs) as Hu. pose proof (ok_avail _ Hs) as Ha. pose proof (ok_consumed _ Hs) as Hn.
  pose proof (zsum_insert made k (Producer c n Unlocking) _ _ Hk) as Hz. unfold made at 3 4 in Hz. cbn in Hz.
  destruct a; intros Hstep; try done.
  - destruct (Z.ltb_spec n c) as [Hlt|Hge].
    + destruct (holder s) as [t|] eqn:Eh; [done|]. injection Hstep as <-.
      eapply (ok_maker s k _ (Producer c n Adding)); [done|exact Hk|done..| |lia| | | |auto|intros _; right; done].
      * split; cbn; [lia|lia|done].
      * unfold made at 2 3. cbn. lia.
      * intros i Hne. rewrite Eh. split; congruence.
      * rewrite Eh. split; congruence.
    + injection Hstep as <-. eapply (ok_maker s k _ (Producer c n Returned)); [done|exact Hk|done..| |lia| |done|done|auto|intros _; right; done].
      * split; cbn; [lia|lia|done].
      * unfold made at 2 3. cbn. lia.
  - injection Hstep as <-.
    assert (avail s + 1 <= total) as Hle.
    { rewrite <-(ok_cnt _ Hs). transitivity (zsum made (<[k := Producer c n Unlocking]> (producers s))); [lia|].
      transitivity (zsum cnt (<[k := Producer c n Unlocking]> (producers s))); [|rewrite (zsum_insert _ _ _ _ _ Hk); cbn; lia].
      apply zsum_mono, Forall_lookup. intros i v Hv. destruct (insert_cases _ k _ _ i v Hk Hv) as [[-> ->]|[_ Hv']]; [unfold made; cbn; lia|]. by eapply made_cnt, (ok_producers _ Hs). }
    rewrite wrap_s_id by (unfold INT_MAX in Htotal; cbn; lia).
    eapply (ok_maker s k _ (Producer c n Unlocking)); [done|exact Hk|done..| |lia| |done|done|auto|auto].
    + split; cbn; [lia|lia|done].
    + unfold made at 2 3. cbn. lia.
  - injection Hstep as <-. assert (holder s = Some (Maker k)) as Hhk by by apply Hh.
    eapply (ok_maker s k _ (Producer c n Signalling)); [done|exact Hk|done..| |lia| | | |auto|auto].
    + split; cbn; [lia|lia|done].
    + unfold made at 2 3. cbn. lia.
    + intros i Hne. rewrite Hhk. split; congruence.
    + rewrite Hhk. split; congruence.
  - injection Hstep as <-. eapply (ok_maker s k _ (Producer c (n + 1) At_top)); [done|exact Hk|done..| |lia| |done|done| |].
    + split; cbn; [lia|done|done].
    + unfold made at 2 3. cbn. lia.
    + destruct (main s) eqn:Em; auto. destruct (Bool.bool_dec cond true) as [Ec|Ec]; [rewrite Ec; auto|]. apply not_true_is_false in Ec. rewrite Ec. auto.
    + intros Hw. destruct (main s) eqn:Em; try done. exfalso. destruct (Bool.bool_dec cond true) as [Ec|Ec]; [by rewrite Ec in Hw|]. apply not_true_is_false in Ec. pose proof (ok_cond _ Hs Ec) as Hc. by rewrite Em in Hc.
Qed.

(** Main goes on, once it has created the threads. *)
Lemma ok_main_move s m h a n d :
  ok s → (∀ k p, producers s !! k = Some p → at_ p ≠ Unborn) → (∀ i, h = Some (Maker i) ↔ holder s = Some (Maker i)) → (main_holds m = true ↔ h = Some Main) →
  0 <= a → 0 <= n → a + n = avail s + numConsumed s → d = (total <=? n) →
  match m with Creating _ => False | Consuming | Releasing => True | Out => total <= n | _ => n < total end →
  (cond = false → match m with Check | Waiting | Woken => False | _ => True end) → (m = Waiting → a = 0) →
  ok (State a h (producers s) m (totRequired s) n d).
Proof using.
  intros Hs Hb Hh Hm Ha Hn Hu Hd He Hc Hw. split; cbn; try done; try apply Hs.
  - intros k p Hk. destruct (ok_producers _ Hs k p Hk) as [H1 H2 H3]. split; [done|done|]. by rewrite H3, Hh.
  - intros i Hi. by apply (ok_maker_there _ Hs), Hh.
  - unfold all_born. cbn. by destruct m.
  - rewrite Hu. apply Hs.
  - by destruct m.
  - auto.
Qed.

Lemma all_born_total s : ok s → (∀ k p, producers s !! k = Some p → at_ p ≠ Unborn) → totRequired s = total.
Proof using.
  intros Hs Hb. rewrite (ok_total _ Hs), <-(ok_cnt _ Hs). apply Z.le_antisymm; apply zsum_mono, Forall_lookup; intros k p Hk.
  - by eapply born_cnt, (ok_producers _ Hs).
  - pose proof (Hb k p Hk). unfold born. by destruct (at_ p).
Qed.

(** Main creates a thread. *)
Lemma ok_create s i c n :
  ok s → main s = Creating i → producers s !! i = Some (Producer c n Unborn) →
  ok (State (avail s) (holder s) (<[i := Producer c 0 At_top]> (producers s)) (Creating (S i)) (wrap_s 32 (totRequired s + c)) (numConsumed s) (done_ s)).
Proof using Htotal.
  intros Hs Em Hi. pose proof (ok_producers _ Hs i _ Hi) as [Hj Hn0 Hh]. cbn in Hj, Hn0. subst n. pose proof (ok_early _ Hs) as He. rewrite Em in He.
  pose proof (ok_holds _ Hs) as Hmh. rewrite Em in Hmh. pose proof (ok_born _ Hs) as Hb. unfold all_born in Hb. rewrite Em in Hb.
  assert (zsum born (<[i := Producer c 0 At_top]> (producers s)) = totRequired s + c) as Hz by (rewrite (zsum_insert _ _ _ _ _ Hi), (ok_total _ Hs); unfold born at 2 3; cbn; lia).
  assert (0 <= totRequired s) as H0.
  { rewrite (ok_total _ Hs). apply zsum_nonneg, Forall_lookup. intros k p Hk. destruct (ok_producers _ Hs k p Hk) as [H1 _ _]. unfold born. destruct (at_ p); lia. }
  assert (totRequired s + c <= total) as Hle.
  { rewrite <-(ok_cnt _ Hs), (ok_total _ Hs). pose proof (zsum_part born cnt (producers s) i _ ltac:(apply Forall_lookup; intros k p Hk; by eapply born_cnt, (ok_producers _ Hs)) Hi) as H. unfold born at 2 in H. cbn in H. lia. }
  split; cbn [avail holder producers main totRequired numConsumed done_]; try apply Hs; try done.
  - intros k p Hk. destruct (insert_cases _ i _ _ k p Hi Hk) as [[-> ->]|[_ Hk']]; [|by apply (ok_producers _ Hs)]. split; cbn; [lia|done|done].
  - intros k Hk. rewrite length_insert. by apply (ok_maker_there _ Hs).
  - rewrite (zsum_insert _ _ _ _ _ Hi), (ok_cnt _ Hs). cbn. lia.
  - unfold all_born. cbn. intros k p Hk. destruct (insert_cases _ i _ _ k p Hi Hk) as [[-> ->]|[Hne Hk']]; [split; [lia|done]|].
    destruct (Hb k p Hk') as [H1 H2]. split; [intros; apply H1; lia|intros; apply H2; lia].
  - rewrite Hz, wrap_s_id; [done|lia|]. unfold INT_MAX in Htotal. cbn. lia.
  - rewrite (zsum_insert _ _ _ _ _ Hi), (ok_units _ Hs). unfold made at 3 4. cbn. lia.
Qed.

Lemma units_main_step_ok s s' : ok s → main_step cond s = Some s' → ok s'.
Proof using Htotal.
  intros Hs. pose proof (ok_born _ Hs) as Hb. unfold all_born in Hb. pose proof (ok_avail _ Hs) as Ha. pose proof (ok_consumed _ Hs) as Hn. pose proof (ok_done _ Hs) as Hd.
  pose proof (ok_early _ Hs) as He. pose proof (ok_holds _ Hs) as Hh. pose proof (ok_cond _ Hs) as Hc. pose proof (ok_units _ Hs) as Hu. pose proof (made_bound _ Hs) as Hmb.
  unfold main_step, set_main. destruct (main s) as [i| | | | | | |] eqn:Em; [| | |done| | | |done]; cbn in Hh.
  - destruct (producers s !! i) as [[c n a]|] eqn:Hi; intros [= <-].
    + pose proof (proj1 (Hb i _ Hi) ltac:(lia)) as Hun. cbn in Hun. subst a. by eapply ok_create.
    + assert (∀ k p, producers s !! k = Some p → at_ p ≠ Unborn) as Hall.
      { intros k p Hk. apply (proj2 (Hb k p Hk)). apply lookup_lt_Some in Hk. apply lookup_ge_None in Hi. lia. }
      apply ok_main_move; try done; try (by destruct cond); try lia.
  - destruct (holder s) as [t|] eqn:Eh; [done|]. intros [= <-]. apply ok_main_move; try done; try by destruct cond.
    intros i. rewrite Eh. split; congruence.
  - intros [= <-]. destruct (Z.eqb_spec (avail s) 0) as [E0|E0]; apply ok_main_move; try done.
    intros i. rewrite (proj1 Hh eq_refl). split; congruence.
  - destruct (holder s) as [t|] eqn:Eh; [done|]. intros [= <-]. apply ok_main_move; try done. intros i. rewrite Eh. split; congruence.
  - intros [= <-]. destruct (Z.ltb_spec 0 (avail s)) as [Hlt|Hge]; [|by apply ok_main_move].
    unfold INT_MAX in Htotal. rewrite !wrap_s_id by (cbn; lia). apply ok_main_move; try done; try lia.
    by rewrite all_born_total.
  - intros [= <-]. assert (∀ i, None = Some (Maker i) ↔ holder s = Some (Maker i)) as Hnone by (intros i; rewrite (proj1 Hh eq_refl); split; congruence).
    destruct (done_ s); apply ok_main_move; try done; lia.
Qed.

Lemma spurious_ok s s' : ok s → spurious s s' → ok s'.
Proof using.
  intros Hs [Em]. pose proof (ok_born _ Hs) as Hb. unfold all_born in Hb. rewrite Em in Hb. pose proof (ok_early _ Hs) as He. rewrite Em in He.
  pose proof (ok_holds _ Hs) as Hh. rewrite Em in Hh. pose proof (ok_cond _ Hs) as Hc. rewrite Em in Hc. unfold set_main. apply ok_main_move; try done; apply Hs.
Qed.

Definition reaches : state → state → Prop := rtc (λ s s', step cond s s' ∨ spurious s s').

Lemma reaches_ok s s' : ok s → reaches s s' → ok s'.
Proof using Htotal.
  intros Hs Hr. induction Hr as [|s1 s2 s3 [[k Hstep|Hstep]|Hstep] _ IH]; [done|apply IH..]; [by eapply maker_step_ok|by eapply units_main_step_ok|by eapply spurious_ok].
Qed.

Lemma units_start_ok args : Forall (λ a, 0 <= atoi a) args → zsum atoi args = total → ok (start args).
Proof using Htotal.
  intros Hargs Hsum.
  assert (∀ f, (∀ a, f (Producer (atoi a) 0 Unborn) = 0) → zsum f ((λ a, Producer (atoi a) 0 Unborn) <$> args) = 0) as Hz.
  { intros f Hf. clear Hargs Hsum. induction args as [|a l IH]; [done|]. change (f (Producer (atoi a) 0 Unborn) + zsum f ((λ a, Producer (atoi a) 0 Unborn) <$> l) = 0). rewrite Hf, IH. done. }
  split; cbn [start avail holder producers main totRequired numConsumed done_]; try done.
  - intros k p Hk. apply list_lookup_fmap_Some in Hk as (a & -> & Hk). rewrite Forall_lookup in Hargs. specialize (Hargs k a Hk). split; cbn; [lia|done|done].
  - rewrite <-Hsum. clear. induction args as [|a l IH]; [done|]. change (atoi a + zsum cnt ((λ a, Producer (atoi a) 0 Unborn) <$> l) = atoi a + zsum atoi l). by rewrite IH.
  - unfold all_born. cbn. intros k p Hk. apply list_lookup_fmap_Some in Hk as (a & -> & Hk). split; [done|lia].
  - symmetry. by apply Hz.
  - symmetry. by apply Hz.
  - symmetry. apply Z.leb_gt. lia.
Qed.

(** Whoever has the mutex can go on, and a producer that has not returned can,
    unless it waits for the mutex. *)
Lemma holder_progress s i : ok s → holder s = Some (Maker i) → ∃ s', step cond s s'.
Proof using.
  intros Hs Hi. destruct (lookup_lt_is_Some_2 _ _ (ok_maker_there _ Hs i Hi)) as [v Hv]. pose proof (ok_producers _ Hs i v Hv) as [_ _ Hh].
  rewrite Hi in Hh. pose proof (proj2 Hh eq_refl) as Hin. assert (∀ s', maker_step cond i s = Some s' → ∃ s', step cond s s') as Hgo by (intros s' H; exists s'; by eapply Step_maker).
  unfold maker_step in Hgo. rewrite Hv in Hgo. cbn in Hgo. unfold holds in Hin. destruct (at_ v); try done; by eapply Hgo.
Qed.

Lemma maker_progress s k p :
  ok s → producers s !! k = Some p → at_ p ≠ Unborn → at_ p ≠ Returned → holder s ≠ Some Main → ∃ s', step cond s s'.
Proof using.
  intros Hs Hk Hun Hre Hmain. assert (∀ s', maker_step cond k s = Some s' → ∃ s', step cond s s') as Hgo by (intros s' H; exists s'; by eapply Step_maker).
  unfold maker_step in Hgo. rewrite Hk in Hgo. cbn in Hgo. destruct (at_ p) eqn:Ep; try done; try (by eapply Hgo).
  destruct (j p <? cnt p); [|by eapply Hgo]. destruct (holder s) as [[|i]|] eqn:Eh; [done|by eapply holder_progress|by eapply Hgo].
Qed.

Lemma units_progress s : ok s → main s = Out ∨ ∃ s', step cond s s'.
Proof using.
  intros Hs. destruct (decide (main s = Out)) as [|Hout]; [by left|right].
  assert (∀ s', main_step cond s = Some s' → ∃ s', step cond s s') as Hgo by (intros s' H; exists s'; by eapply Step_main). unfold main_step in Hgo.
  pose proof (ok_holds _ Hs) as Hh. pose proof (ok_early _ Hs) as He. pose proof (ok_born _ Hs) as Hb. unfold all_born in Hb. pose proof (ok_waiting _ Hs) as Hw.
  destruct (main s) as [i| | | | | | |] eqn:Em; try done; try (by eapply Hgo); cbn in Hh.
  - destruct (producers s !! i); by eapply Hgo.
  - destruct (holder s) as [[|i]|] eqn:Eh; [by discriminate (proj2 Hh eq_refl)|by eapply holder_progress|by eapply Hgo].
  - destruct (decide (Forall (λ p, at_ p = Returned) (producers s))) as [Hall|Hsome].
    + exfalso. destruct (Hw eq_refl) as [H0|(k & p & Hk & Hp)].
      * pose proof (ok_units _ Hs) as Hu. enough (zsum made (producers s) = total) by lia. rewrite <-(ok_cnt _ Hs).
        apply Z.le_antisymm; apply zsum_mono, Forall_lookup; intros k p Hk; destruct (ok_producers _ Hs k p Hk) as [_ Hp _];
          rewrite Forall_lookup in Hall; specialize (Hall k p Hk); rewrite Hall in Hp; unfold made; rewrite Hall; lia.
      * rewrite Forall_lookup in Hall. specialize (Hall k p Hk). unfold told in Hp. by rewrite Hall in Hp.
    + apply (not_Forall_Exists (λ p, at_ p = Returned)) in Hsome. apply Exists_exists in Hsome as (p & Hin & Hp). apply list_elem_of_lookup in Hin as [k Hk].
      eapply maker_progress; [done|exact Hk|by eapply Hb|done|]. intros Hm. by apply Hh in Hm.
  - destruct (holder s) as [[|i]|] eqn:Eh; [by discriminate (proj2 Hh eq_refl)|by eapply holder_progress|by eapply Hgo].
Qed.

(** At the end every unit has been produced and consumed. *)
Lemma out_total s : ok s → main s = Out → numConsumed s = total ∧ avail s = 0.
Proof using.
  intros Hs Em. pose proof (ok_early _ Hs) as He. rewrite Em in He. pose proof (ok_units _ Hs). pose proof (ok_avail _ Hs). pose proof (made_bound _ Hs). lia.
Qed.
End Invariant.

(** What is left to do, when the consumer waits for its condition. *)
Definition left_of (p : producer) : Z :=
  12 * (cnt p - j p) + match at_ p with Unborn => 3 | At_top => 2 | Adding => 1 | Unlocking => -5 | Signalling => -6 | Returned => 1 end.
Definition main_left (s : state) : Z :=
  match main s with
  | Creating i => Z.of_nat (length (producers s) - i) + 7
  | Locking => 4 | Check => 3 | Waiting => 1 | Woken => 4 | Consuming => if avail s =? 0 then 6 else 2 | Releasing => 5 | Out => 0
  end.
Definition measure (s : state) : Z := zsum left_of (producers s) + 5 * avail s + main_left s.

Lemma units_measure_nonneg cond total s : ok cond total s → 0 <= measure s.
Proof.
  intros Hs. assert (0 <= zsum left_of (producers s)).
  { apply zsum_nonneg, Forall_lookup. intros k p Hk. destruct (ok_producers _ _ _ Hs k p Hk) as [H1 H2 _]. unfold left_of. destruct (at_ p); lia. }
  pose proof (ok_avail _ _ _ Hs). unfold measure, main_left. destruct (main s); try lia. destruct (_ =? _); lia.
Qed.

Lemma maker_measure total k s s' : 0 < total <= INT_MAX → ok true total s → maker_step true k s = Some s' → measure s' < measure s.
Proof.
  intros Htotal Hs Hstep. pose proof (ok_avail _ _ _ Hs) as Ha.
  unfold maker_step in Hstep. destruct (producers s !! k) as [[c n a]|] eqn:Hk; [|done]. cbn in Hstep.
  assert (∀ w m a' h, left_of w + 5 * a' + main_left (State a' h (producers s) m (totRequired s) (numConsumed s) (done_ s)) < left_of (Producer c n a) + 5 * avail s + main_left s →
    measure (set_producer k w m a' h s) < measure s) as H.
  { intros w m a' h Hlt. unfold measure, set_producer, main_left in *. cbn [avail holder producers main totRequired numConsumed done_] in *. rewrite (zsum_insert _ _ _ _ _ Hk), length_insert. lia. }
  destruct a; [done| | | | |done].
  - destruct (n <? c); [destruct (holder s); [done|]|]; injection Hstep as <-; apply H; unfold left_of, main_left; cbn; destruct (main s); lia.
  - injection Hstep as <-. pose proof (maker_step_ok true total Htotal k s _ Hs ltac:(unfold maker_step; rewrite Hk; reflexivity)) as Hs'.
    pose proof (ok_units _ _ _ Hs') as Hu. pose proof (ok_units _ _ _ Hs) as Hu0. cbn [set_producer avail producers numConsumed] in Hu. rewrite (zsum_insert _ _ _ _ _ Hk) in Hu. unfold made at 2 3 in Hu. cbn in Hu.
    apply H. unfold left_of, main_left. cbn [at_ cnt j avail main producers]. assert (wrap_s 32 (avail s + 1) = avail s + 1) as -> by lia.
    destruct (main s); try lia. destruct (Z.eqb_spec (avail s) 0), (Z.eqb_spec (avail s + 1) 0); lia.
  - injection Hstep as <-. apply H. unfold left_of, main_left. cbn. destruct (main s); lia.
  - injection Hstep as <-. apply H. unfold left_of, main_left. cbn. destruct (main s); cbn; try lia.
Qed.

Lemma main_measure total s s' : 0 < total <= INT_MAX → ok true total s → main_step true s = Some s' → measure s' < measure s.
Proof.
  intros Htotal Hs. pose proof (ok_avail _ _ _ Hs) as Ha. pose proof (ok_units _ _ _ Hs) as Hu. pose proof (ok_consumed _ _ _ Hs) as Hn. pose proof (made_bound _ _ _ Hs) as Hb.
  pose proof (ok_born _ _ _ Hs) as Hborn. unfold all_born in Hborn. unfold main_step, measure, main_left, set_main.
  destruct (main s) as [i| | | | | | |]; [| |intros [= <-]|done| |intros [= <-]|intros [= <-]|done].
  - destruct (producers s !! i) as [[c n a]|] eqn:Hi; intros [= <-]; cbn [avail holder producers main]; [|lia].
    rewrite (zsum_insert _ _ _ _ _ Hi), length_insert. pose proof (proj1 (Hborn i _ Hi) ltac:(lia)) as Hun. cbn in Hun. subst a.
    pose proof (ok_producers _ _ _ Hs i _ Hi) as [_ Hj _]. cbn in Hj. subst n. unfold left_of at 2 3. cbn. lia.
  - destruct (holder s); [done|]. intros [= <-]. cbn [avail producers main]. lia.
  - destruct (Z.eqb_spec (avail s) 0); cbn [avail producers main]; [lia|]. rewrite (proj2 (Z.eqb_neq _ _)) by done. lia.
  - destruct (holder s); [done|]. intros [= <-]. cbn [avail producers main]. lia.
  - destruct (Z.ltb_spec 0 (avail s)); cbn [avail producers main]; [|destruct (Z.eqb_spec (avail s) 0); lia].
    unfold INT_MAX in Htotal. rewrite wrap_s_id by (cbn; lia). destruct (Z.eqb_spec (avail s - 1) 0), (Z.eqb_spec (avail s) 0); lia.
  - cbn [avail producers main]. destruct (done_ s); lia.
Qed.

(** C3: Producers and a consumer, for as many threads as the command line names.
    Whatever the schedule, and with spurious wake-ups: every unit made is
    available or consumed, and no more are consumed than asked for; the program
    is never stuck, so no wake-up is lost; when it ends it has consumed what
    was asked for, exactly.  With the condition variable every step but a
    spurious wake-up brings the end nearer. *)
Theorem prod_correct cond args s :
  let total := zsum atoi args in
  Forall (λ a, 0 <= atoi a) args → 0 < total <= INT_MAX → reaches cond (start args) s →
  (0 <= avail s ∧ avail s + numConsumed s = zsum made (producers s) ∧ 0 <= numConsumed s <= total) ∧
  (main s = Out ∨ ∃ s', step cond s s') ∧
  (main s = Out → numConsumed s = total ∧ avail s = 0) ∧
  (cond = true → 0 <= measure s ∧ ∀ s', step cond s s' → measure s' < measure s).
Proof.
  intros total Hargs Htotal Hr. assert (ok cond total s) as Hs by (eapply (reaches_ok cond total Htotal); [by apply units_start_ok|done]).
  split; [|split; [|split]].
  - pose proof (ok_avail _ _ _ Hs). pose proof (ok_consumed _ _ _ Hs). pose proof (ok_units _ _ _ Hs). pose proof (made_bound _ _ _ Hs). lia.
  - by eapply units_progress.
  - by eapply out_total.
  - intros ->. split; [by eapply units_measure_nonneg|]. intros s' [k Hstep|Hstep]; [by eapply maker_measure|by eapply main_measure].
Qed.

(** A schedule, [None] for main. *)
Definition follow (cond : bool) (sched : list (option nat)) (s : state) : option state :=
  foldl (λ s who, s ← s; match who with Some k => maker_step cond k s | None => main_step cond s end) (Some s) sched.

Lemma follow_reaches cond sched s s' : follow cond sched s = Some s' → reaches cond s s'.
Proof.
  revert s s'. induction sched as [|who sched IH] using rev_ind; intros s s'; unfold follow; [intros [= ->]; apply rtc_refl|].
  rewrite foldl_snoc. fold (follow cond sched s). destruct (follow cond sched s) as [s1|] eqn:E; [|done]. cbn. intros Hstep.
  eapply rtc_r; [by apply IH|]. left. destruct who; [by eapply Step_maker|by apply Step_main].
Qed.

(** One unit and one more, the second made while the first is consumed. *)
Definition two_units : list (option nat) :=
  replicate 5 None ++ replicate 4 (Some 0%nat) ++ replicate 1 None ++ replicate 4 None ++ replicate 1 None ++ replicate 1 None ++ replicate 4 (Some 1%nat) ++ replicate 5 None.

Lemma prod_witness :
  ∃ s, reaches true (start [str "1"; str "1"]) s ∧ main s = Out ∧ numConsumed s = 2 ∧ avail s = 0.
Proof.
  destruct (follow true two_units (start [str "1"; str "1"])) as [s|] eqn:Hs; [|vm_compute in Hs; discriminate Hs].
  pose proof (follow_reaches _ _ _ _ Hs) as Hr. exists s. split; [exact Hr|]. assert (main s = Out) as Hout by (vm_compute in Hs; injection Hs as <-; reflexivity). split; [exact Hout|].
  refine (proj1 (proj2 (proj2 (prod_correct true [str "1"; str "1"] s _ _ Hr))) Hout).
  - repeat (apply Forall_cons_2; [vm_compute; discriminate|]). apply Forall_nil_2.
  - vm_compute. split; [reflexivity|discriminate].
Defined.

(** Nothing asked for: the consumer waits, and nobody will wake it. *)
Example nothing_asked :
  follow true [None; None; None] (start []) = Some (State 0 None [] Waiting 0 0 false) ∧
  ∀ s', ¬ step true (State 0 None [] Waiting 0 0 false) s'.
Proof. split; [vm_compute; reflexivity|]. intros s' [k Hstep|Hstep]; [by destruct k|done]. Qed.
End Units.
