(* ===== verification/Procexec.v ===== *)
(** Starting programs: execlp over a PATH (tlpi-book/procexec/execlp.c), system
    (system.c, simple_system.c) with its demonstration (t_system.c), and popen
    of homework/hw6/6-2. *)
From S2P Require Import Prelude Sys ErrorFns Printing ShellRun SvmsgFile Dict.

Definition SHELL_PATH : cstr := str "/bin/sh".
Definition SIGINT : Z := 2.
Definition SIGQUIT : Z := 3.
Definition SIG_DFL : Z := 0.
Definition SIG_IGN : Z := 1.
Definition SIG_BLOCK : Z := 0.
Definition SIG_SETMASK : Z := 2.
Definition MAX_CMD_LEN : Z := 200.

(** "%04x". *)
Definition hex4 (n : Z) : cstr := let h := hex (wrap_u 32 n) in replicate (4 - length h) "0"%char ++ h.

Section Programs.
Context {S : Type} `{os}.

(** ** execlp *)

(** execve comes back only when it fails. *)
Definition execve (path : cstr) (argv : list cstr) : M S unit :=
  r ← sys (Cexec path argv);
  if rv r =? -1 then mret tt else stop_with (Execed path argv).

(** [argc] counts the null pointer that ends argv: the loop goes one past the
    end of shArgv. *)
Definition execShScript (argv : list cstr) : M S unit :=
  let argc := Z.of_nat (length argv) + 1 in
  let shArgv_size := argc + 1 in
  if shArgv_size <? argc + 2 then stop_with (Undefined "array overrun") else
  execve SHELL_PATH (SHELL_PATH :: argv).

(** One prefix: where it ends, the pathname, and what follows a colon. *)
Definition prefix_end (prStart : cstr) : cstr * option cstr :=
  match strchr ":"%char prStart with Some (pr, rest) => (pr, Some rest) | None => (prStart, None) end.
Definition pathname (filename pr : cstr) : cstr :=
  (if decide (pr = []) then str "." else pr) ++ str "/" ++ filename.

(** A turn of the loop over PATH: the rest of it and fndEACCES; at the end,
    fndEACCES and savedErrno. *)
Definition prefix_turn (filename : cstr) (argv : list cstr) (x : cstr * bool) : M S (cstr * bool + bool * Z) :=
  let '(prStart, fndEACCES) := x in
  let '(pr, rest) := prefix_end prStart in
  execve (pathname filename pr) argv;;
  savedErrno ← get_errno;
  let fndEACCES := fndEACCES || (savedErrno =? EACCES) in
  when (savedErrno =? ENOEXEC) (execShScript argv);;
  match rest with Some prStart => mret (inl (prStart, fndEACCES)) | None => mret (inr (fndEACCES, savedErrno)) end.

Definition the_PATH : cstr :=
  match getenv (str "PATH") with Some p => if strlen p =? 0 then str "." else p | None => str "." end.

(** [args] are the strings before the null pointer.  The array has 100 elements;
    growing it leaves room for one. *)
Definition execlp (fuel : nat) (filename : cstr) (args : list cstr) : M S Z :=
  c ← sys (Cextern "calloc" [100; 8] []);
  if rv c =? -1 then mret (-1) else
  if 99 <=? Z.of_nat (length args) then
    n ← sys (Cextern "realloc" [8] []);
    if rv n =? -1 then mret (-1) else stop_with (Undefined "array overrun")
  else
  c ← sys (Cextern "calloc" [8] []);
  if rv c =? -1 then mret (-1) else
  '(fndEACCES, savedErrno) ←
    (if bool_decide ("/"%char ∈ filename) then
       execve filename args;;
       savedErrno ← get_errno;
       when (savedErrno =? ENOEXEC) (execShScript args);;
       mret (false, savedErrno)
     else loop fuel (prefix_turn filename args) (the_PATH, false));
  set_errno (if fndEACCES : bool then EACCES else savedErrno);;
  mret (-1).

(** ** system *)

(** The disposition sigaction stored, and the mask sigprocmask stored. *)
Definition old_handler (r : reply) : Z := match rents r with (_, h) :: _ => h | [] => SIG_DFL end.
Definition sigaction (sig handler : Z) : M S reply := sys (Cextern "sigaction" [sig; handler] []).

Definition shell_c (command : cstr) : M S unit :=
  r ← sys (Cexec SHELL_PATH [str "sh"; str "-c"; command]);
  if rv r =? -1 then mret tt else stop_with (Execed SHELL_PATH [str "sh"; str "-c"; command]).

(** The loop around waitpid. *)
Definition wait_turn (childPid : Z) : M S (unit + Z) :=
  w ← sys (Cwaitpid childPid 0);
  if rv w =? -1 then
    e ← get_errno;
    mret (if e =? EINTR then inl tt else inr (-1))
  else mret (inr (wait_stat w)).

Definition system_child (command : cstr) (saOrigInt saOrigQuit : Z) (origMask : cstr) : M S unit :=
  when (negb (saOrigInt =? SIG_IGN)) (sigaction SIGINT SIG_DFL;; mret tt);;
  when (negb (saOrigQuit =? SIG_IGN)) (sigaction SIGQUIT SIG_DFL;; mret tt);;
  sys (Cextern "sigprocmask" [SIG_SETMASK] origMask);;
  shell_c command;;
  stop_with (FastExit 127).

Definition system_cmd (fuel : nat) (command : cstr) : M S Z :=
  m ← sys (Cextern "sigprocmask" [SIG_BLOCK; SIGCHLD] []);
  let origMask := rdata m in
  saOrigInt ← sigaction SIGINT SIG_IGN;
  saOrigQuit ← sigaction SIGQUIT SIG_IGN;
  childPid ← sys Cfork;
  status ←
    (if rv childPid =? -1 then mret (-1)
     else if rv childPid =? 0 then system_child command (old_handler saOrigInt) (old_handler saOrigQuit) origMask;; mret (-1)
     else loop fuel (λ _, wait_turn (rv childPid)) tt);
  savedErrno ← get_errno;
  sys (Cextern "sigprocmask" [SIG_SETMASK] origMask);;
  sigaction SIGINT (old_handler saOrigInt);;
  sigaction SIGQUIT (old_handler saOrigQuit);;
  set_errno savedErrno;;
  mret status.

Definition system (fuel : nat) (command : option cstr) : M S Z :=
  match command with
  | None => status ← system_cmd fuel (str ":"); mret (if status =? 0 then 1 else 0)
  | Some command => system_cmd fuel command
  end.

(** simple_system.c *)
Definition simple_system (command : cstr) : M S Z :=
  childPid ← sys Cfork;
  if rv childPid =? -1 then mret (-1) else
  if rv childPid =? 0 then shell_c command;; stop_with (FastExit 127) else
  w ← sys (Cwaitpid (rv childPid) 0);
  if rv w =? -1 then mret (-1) else mret (wait_stat w).

(** t_system.c, over the library's system or ours: *)
Definition t_system_turn (system : option cstr → M S Z) : M S (unit + unit) :=
  out Stdout (str "Command: ");;
  sys (Cfflush Stdout);;
  r ← sys (Cfgets MAX_CMD_LEN);
  if rv r =? 0 then mret (inr tt) else
  status ← system (Some (c_str (rdata r)));
  out Stdout (str "system() returned: status=0x" ++ hex4 status ++ str " (" ++ dec (Z.shiftr status 8) ++ str "," ++ dec (Z.land status 0xff) ++ str ")" ++ [NL]);;
  (if status =? -1 then errExit (str "system")
   else if WIFEXITED status && (WEXITSTATUS status =? 127) then out Stdout (str "(Probably) could not invoke shell" ++ [NL])
   else printWaitStatus None status);;
  mret (inl tt).

(** ** popen *)

Definition custom_popen (command mode : cstr) : M S (option Z) :=
  pd ← sys Cpipe;
  if rv pd =? -1 then perror (str "pipe error");; mret None else
  pid ← sys Cfork;
  if rv pid =? -1 then perror (str "fork error");; mret None else
  if rv pid =? 0 then
    sys (Cclose (pipe_read pd));;
    if streq mode (str "r") then
      sys (Cdup2 (pipe_write pd) 1);;
      sys (Cclose (pipe_write pd));;
      shell_c command;;
      stop_with (Exit 1)
    else if streq mode (str "w") then
      sys (Cdup2 (pipe_read pd) 0);;
      sys (Cclose (pipe_read pd));;
      shell_c command;;
      stop_with (Exit 1)
    else perror (str "Invalid mode");; stop_with (Exit 1)
  else
  sys (Cclose (pipe_write pd));;
  if streq mode (str "r") then
    fp ← sys (Cextern "fdopen" [pipe_read pd] (str "r"));
    if rv fp =? -1 then perror (str "fdopen error");; sys (Cclose (pipe_read pd));; mret None else mret (Some (pipe_read pd))
  else if streq mode (str "w") then
    fp ← sys (Cextern "fdopen" [pipe_write pd] (str "w"));
    if rv fp =? -1 then perror (str "fdopen error");; sys (Cclose (pipe_write pd));; mret None else mret (Some (pipe_write pd))
  else perror (str "Invalid mode");; mret None.

Definition custom_pclose (fp : Z) : M S Z :=
  k ← sys (Cextern "fclose" [fp] []);
  if rv k =? -1 then perror (str "fclose error");; mret (-1) else
  w ← sys (Cwaitpid (-1) 0);
  if rv w =? -1 then perror (str "waitpid error");; mret (-1) else mret (wait_stat w).

(** The words of the command line, in an array of 32 characters. *)
Definition command_of (words : list cstr) : cstr :=
  match words with [] => [] | w :: ws => foldl (λ c w, c ++ str " " ++ w) w ws end.

Definition print_turn (fp : Z) : M S (unit + unit) :=
  r ← sys (Cextern "fgets" [fp; 256] []);
  if rv r =? -1 then mret (inr tt) else
  out Stdout (c_str (rdata r));;
  mret (inl tt).

Definition popen_main (fuel : nat) (argv : list cstr) : M S Z :=
  match tail argv with
  | [] => stop_with (Undefined "strcpy of a null pointer")
  | words =>
      let command := command_of words in
      if 32 <=? strlen command then stop_with (Undefined "array overrun") else
      fp ← custom_popen command (str "r");
      match fp with
      | None => perror (str "custom_popen error");; mret 1
      | Some fp =>
          loop fuel (λ _, print_turn fp) tt;;
          status ← custom_pclose fp;
          if status =? -1 then perror (str "custom_pclose error");; mret 1 else mret 0
      end
  end.
End Programs.

(** ** What execlp tries *)

(** The parts of a text between colons. *)
Fixpoint prefixes (s : cstr) : list cstr :=
  match s with
  | [] => [[]]
  | c :: s =>
      if decide (c = ":"%char) then [] :: prefixes s
      else match prefixes s with p :: ps => (c :: p) :: ps | [] => [[c]] end
  end.

Definition candidates `{os} (filename : cstr) : list cstr :=
  if bool_decide ("/"%char ∈ filename) then [filename] else pathname filename <$> prefixes the_PATH.

Lemma prefixes_strchr s : prefixes s = match strchr ":"%char s with Some (pr, rest) => pr :: prefixes rest | None => [s] end.
Proof.
  induction s as [|c s IH]; [done|]. cbn [prefixes strchr]. destruct (decide (c = ":"%char)); [done|].
  rewrite IH. destruct (strchr ":"%char s) as [[a b]|]; done.
Qed.

Lemma strchr_rest c s a b : strchr c s = Some (a, b) → (length b < length s)%nat.
Proof.
  revert a b. induction s as [|d s IH]; intros a b; [done|]. cbn. destruct (decide (d = c)); [intros [= <- <-]; lia|].
  destruct (strchr c s) as [[a' b']|]; [|done]. cbn. intros [= <- <-]. specialize (IH a' b' eq_refl). lia.
Qed.

Section Specs.
Context {S : Type} `{os}.
Implicit Types s : st S.

(** The calls of execve on pathnames, with their replies. *)
Definition tries (args : list cstr) (paths : list cstr) (rs : list reply) : list (call * reply) :=
  zip_with (λ p r, (Cexec p args, r)) paths rs.

(** A failed execve, other than of a file that has no recognised format. *)
Definition refused (r : reply) : Prop := rv r = -1 ∧ rerr r ≠ ENOEXEC.

(** How a search over pathnames stops before it has tried all: the first that
    is not refused runs, or needs the shell. *)
Definition stopped (args paths : list cstr) (l : list (call * reply)) (t : stop) : Prop :=
  ∃ pre path post rs r, paths = pre ++ path :: post ∧ length rs = length pre ∧ Forall refused rs ∧
    l = tries args pre rs ++ [(Cexec path args, r)] ∧
    (rv r ≠ -1 ∧ t = Execed path args ∨ rv r = -1 ∧ rerr r = ENOEXEC ∧ t = Undefined "array overrun").

Lemma wp_execShScript args (Q : unit → st S → Prop) E s : E (Undefined "array overrun") s → wp (execShScript args) Q E s.
Proof using. intros HE. unfold execShScript. rewrite (proj2 (Z.ltb_lt _ _)) by lia. by apply wp_stop. Qed.

(** One pathname. *)
Lemma wp_try {A} path args (k : Z → M S A) Q E s s0 l :
  acted s0 l s →
  (∀ r s', refused r → acted s0 (l ++ [(Cexec path args, r)]) s' → wp (k (rerr r)) Q E s') →
  (∀ r s' t, acted s0 (l ++ [(Cexec path args, r)]) s' →
     (rv r ≠ -1 ∧ t = Execed path args ∨ rv r = -1 ∧ rerr r = ENOEXEC ∧ t = Undefined "array overrun") → E t s') →
  wp (execve path args;; e ← get_errno; when (e =? ENOEXEC) (execShScript args);; k e) Q E s.
Proof using.
  intros Ha Hk HE. apply wp_bind. unfold execve. apply wp_bind. eapply wp_act; [exact Ha|done|]. intros r s1 _ H1 He _.
  destruct (Z.eqb_spec (rv r) (-1)) as [Er|Er]; [|apply wp_stop; eapply HE; [exact H1|by left]].
  apply wp_ret, wp_bind, wp_get_errno. rewrite He by done. apply wp_bind. destruct (Z.eqb_spec (rerr r) ENOEXEC) as [Ee|Ee]; cbn [when].
  - apply wp_execShScript. eapply HE; [exact H1|by right].
  - apply wp_ret. by apply Hk.
Qed.

Definition denied (r : reply) : bool := rerr r =? EACCES.
Definition last_error (rs : list reply) : Z := default 0 (rerr <$> last rs).

Lemma wp_search filename args s0 fuel path fnd l s :
  acted s0 l s → (length path < fuel)%nat →
  wp (loop fuel (prefix_turn filename args) (path, fnd))
    (λ x s', ∃ rs, length rs = length (prefixes path) ∧ Forall refused rs ∧
       acted s0 (l ++ tries args (pathname filename <$> prefixes path) rs) s' ∧ x = (fnd || existsb denied rs, last_error rs))
    (λ t s', ∃ l', stopped args (pathname filename <$> prefixes path) l' t ∧ acted s0 (l ++ l') s') s.
Proof using.
  revert path fnd l s. induction fuel as [|fuel IH]; intros path fnd l s Ha Hf; [lia|]. rewrite loop_S. unfold prefix_turn, prefix_end.
  rewrite prefixes_strchr. destruct (strchr ":"%char path) as [[pr rest]|] eqn:Hc; cbn [fmap list_fmap]; apply wp_bind.
  - apply strchr_rest in Hc as Hlt. eapply wp_try; [exact Ha| |].
    + intros r s1 Hr H1. apply wp_ret. eapply wp_mono; [apply (IH rest (fnd || denied r) _ s1 H1); lia| |].
      * intros x s2 (rs & Hl & Hrs & H2 & ->). exists (r :: rs). split; [cbn; by rewrite Hl|]. split; [by constructor|]. rewrite <-app_assoc in H2. split; [exact H2|].
        cbn [existsb]. rewrite orb_assoc. f_equal. destruct rs as [|r' rs]; [exfalso; rewrite prefixes_strchr in Hl; by destruct (strchr ":"%char rest) as [[]|]|done].
      * intros t s2 (l' & (pre & path' & post & rs & r' & Hp & Hl & Hrs & -> & Ht) & H2). exists ((Cexec (pathname filename pr) args, r) :: tries args pre rs ++ [(Cexec path' args, r')]).
        rewrite <-app_assoc in H2. split; [|exact H2]. exists (pathname filename pr :: pre), path', post, (r :: rs), r'. split_and!; [by rewrite Hp|by cbn; rewrite Hl|by constructor|done|done].
    + intros r s1 t H1 Ht. eexists. split; [|exact H1]. exists [], (pathname filename pr), (pathname filename <$> prefixes rest), [], r. by split_and!.
  - eapply wp_try; [exact Ha| |].
    + intros r s1 Hr H1. apply wp_ret, wp_ret. exists [r]. split_and!; [done|by constructor|exact H1|]. cbn. by rewrite orb_false_r.
    + intros r s1 t H1 Ht. eexists. split; [|exact H1]. exists [], (pathname filename path), [], [], r. by split_and!.
Qed.

(** What memory the function asks for. *)
Definition no_memory (l : list (call * reply)) : Prop :=
  ∃ c, rv c = -1 ∧ (l = [(Cextern "calloc" [100; 8] [], c)] ∨ ∃ c', rv c' ≠ -1 ∧ l = [(Cextern "calloc" [100; 8] [], c'); (Cextern "calloc" [8] [], c)]).
End Specs.

(** C2: execlp, with fewer than 99 arguments: it asks execve for the file, or for the
    file in each directory of PATH in turn, an empty one being the current one,
    until one runs.  When all are refused it returns -1 with EACCES if that was
    the reason once, and with the last reason otherwise. *)
Theorem execlp_correct {S} `{os} fuel filename args (s : st S) :
  (length args < 99)%nat → (length the_PATH < fuel)%nat →
  wp (execlp fuel filename args)
    (λ z s', z = -1 ∧ ((∃ l, no_memory l ∧ acted s l s') ∨
       ∃ c c' rs, length rs = length (candidates filename) ∧ Forall refused rs ∧
         acted s ((Cextern "calloc" [100; 8] [], c) :: (Cextern "calloc" [8] [], c') :: tries args (candidates filename) rs) s' ∧
         errno s' = if existsb denied rs then EACCES else last_error rs))
    (λ t s', ∃ c c' l, stopped args (candidates filename) l t ∧ acted s ((Cextern "calloc" [100; 8] [], c) :: (Cextern "calloc" [8] [], c') :: l) s') s.
Proof.
  intros Hargs Hfuel. unfold execlp. apply wp_bind. eapply wp_act; [apply acted_refl|done|]. intros c s1 _ H1 _ _.
  destruct (Z.eqb_spec (rv c) (-1)) as [Ec|Ec]; [apply wp_ret; split; [done|left; eexists; split; [exists c; split; [done|by left]|exact H1]]|].
  rewrite (proj2 (Z.leb_gt _ _)) by lia. apply wp_bind. eapply wp_act; [exact H1|done|]. intros c' s2 _ H2 _ _.
  destruct (Z.eqb_spec (rv c') (-1)) as [Ec'|Ec']; [apply wp_ret; split; [done|left; eexists; split; [exists c'; split; [done|right; by exists c]|exact H2]]|].
  apply wp_bind. cbn [app] in H2. unfold candidates. destruct (bool_decide _).
  - eapply wp_try; [exact H2| |].
    + intros r s3 Hr H3. apply wp_ret, wp_bind, wp_set_errno, wp_ret. split; [done|]. right. exists c, c', [r]. split_and!; [done|by constructor|by destruct H3|].
      unfold existsb, denied, last_error. cbn. destruct (Z.eqb_spec (rerr r) EACCES) as [E|E]; [exact E|done].
    + intros r s3 t H3 Ht. exists c, c', [(Cexec filename args, r)]. split; [|exact H3]. exists [], filename, [], [], r. by split_and!.
  - eapply wp_mono; [by apply (wp_search filename args s fuel the_PATH false _ s2 H2)| |].
    + intros x s3 (rs & Hl & Hrs & H3 & ->). apply wp_bind, wp_set_errno, wp_ret. split; [done|]. right. exists c, c', rs. rewrite length_fmap. by split_and!.
    + intros t s3 (l & Hst & H3). by exists c, c', l.
Qed.

(** ** Signals around system *)

(** The disposition of a signal and the mask after a history, from those at its
    start; [blocked] adds a signal to a mask. *)
Section Signals.
Context (disp0 : Z → Z) (mask0 : cstr) (blocked : Z → cstr → cstr).

Definition sig_step (x : (Z → Z) * cstr) (e : event) : (Z → Z) * cstr :=
  match e with
  | Esys (Cextern "sigaction" [sig; h] _) _ => ((λ n, if n =? sig then h else x.1 n), x.2)
  | Esys (Cextern "sigprocmask" [how; sig] _) _ => (x.1, if how =? SIG_BLOCK then blocked sig x.2 else x.2)
  | Esys (Cextern "sigprocmask" [how] m) _ => (x.1, if how =? SIG_SETMASK then m else x.2)
  | _ => x
  end.
Definition sigs (tr : list event) : (Z → Z) * cstr := foldl sig_step (disp0, mask0) tr.

Lemma sigs_snoc tr e : sigs (tr ++ [e]) = sig_step (sigs tr) e.
Proof using. apply foldl_snoc. Qed.

(** What sigaction(2) and sigprocmask(2) store. *)
Class Signals `{os} := {
  sigaction_old : ∀ tr sig h, old_handler (kern tr (Cextern "sigaction" [sig; h] [])) = (sigs tr).1 sig;
  sigprocmask_old : ∀ tr sig, rdata (kern tr (Cextern "sigprocmask" [SIG_BLOCK; sig] [])) = (sigs tr).2 }.

(** Two processes treat SIGINT and SIGQUIT alike and block the same signals. *)
Definition same_signals (a b : (Z → Z) * cstr) : Prop := (∀ n, a.1 n = b.1 n) ∧ a.2 = b.2.
Definition start_signals (a b : (Z → Z) * cstr) : Prop :=
  (∀ n, b.1 n = if ((n =? SIGINT) || (n =? SIGQUIT)) && negb (a.1 n =? SIG_IGN) then SIG_DFL else a.1 n) ∧ b.2 = a.2.

(** The waits for the child: interrupted ones, then one that ends the loop. *)
Definition interrupted (pid : Z) (x : call * reply) : Prop := x.1 = Cwaitpid pid 0 ∧ rv x.2 = -1 ∧ rerr x.2 = EINTR.
Definition waited (pid : Z) (l : list (call * reply)) (status : Z) : Prop :=
  ∃ li w, l = li ++ [(Cwaitpid pid 0, w)] ∧ Forall (interrupted pid) li ∧
    (if rv w =? -1 then rerr w ≠ EINTR ∧ status = -1 else status = wait_stat w).

Section Specs.
Context {S : Type} `{Signals}.
Implicit Types s : st S.

(** [errno] is that of the last of these calls, when it failed. *)
Definition failed_with (l : list (call * reply)) s : Prop := ∀ c r, last l = Some (c, r) → rv r = -1 → errno s = rerr r.

Lemma failed_snoc l l' c r s : (rv r = -1 → errno s = rerr r) → failed_with (l ++ l' ++ [(c, r)]) s.
Proof using. intros He c' r'. rewrite app_assoc, last_snoc. by intros [= <- <-]. Qed.

Lemma sigs_wait tr pid o r : sigs (tr ++ [Esys (Cwaitpid pid o) r]) = sigs tr.
Proof using. apply sigs_snoc. Qed.

Lemma wlp_wait fuel pid s0 l s :
  acted s0 l s →
  wlp (loop fuel (λ _, wait_turn pid) tt)
    (λ status s', ∃ lw, acted s0 (l ++ lw) s' ∧ waited pid lw status ∧ failed_with (l ++ lw) s' ∧ sigs (trace s') = sigs (trace s))
    (λ _ _, False) (λ s', ∃ lw, acted s0 (l ++ lw) s' ∧ Forall (interrupted pid) lw) s.
Proof using.
  intros Ha. apply (wlp_loop (λ _ s', ∃ lw, acted s0 (l ++ lw) s' ∧ Forall (interrupted pid) lw ∧ sigs (trace s') = sigs (trace s))).
  - exists []. rewrite app_nil_r. split_and!; [done|by constructor|done].
  - intros _ s1 (lw & H1 & Hl & _). by exists lw.
  - intros _ s1 (lw & H1 & Hl & Hsig). apply wp_wlp. unfold wait_turn. apply wp_bind. eapply wp_act; [exact H1|done|]. intros w s2 _ H2 He Ht.
    rewrite <-app_assoc in H2. assert (sigs (trace s2) = sigs (trace s)) as Hsig2 by (by rewrite Ht, sigs_wait).
    destruct (Z.eqb_spec (rv w) (-1)) as [Ew|Ew].
    + apply wp_bind, wp_get_errno, wp_ret. rewrite He by done. destruct (Z.eqb_spec (rerr w) EINTR) as [Ei|Ei].
      * eexists. split; [exact H2|]. split; [|done]. apply Forall_app. split; [done|]. by apply Forall_singleton.
      * eexists. split; [exact H2|]. split; [|split; [|done]]; [exists lw, w; split_and!; [done|done|by rewrite Ew]|]. apply failed_snoc. intros _. by apply He.
    + apply wp_ret. eexists. split; [exact H2|]. split; [|split; [|done]]; [exists lw, w; split_and!; [done|done|by rewrite (proj2 (Z.eqb_neq _ _) Ew)]|]. apply failed_snoc. done.
Qed.

(** The calls of system before the fork, and after the wait. *)
Definition opening (m i q f : reply) : list (call * reply) :=
  [(Cextern "sigprocmask" [SIG_BLOCK; SIGCHLD] [], m); (Cextern "sigaction" [SIGINT; SIG_IGN] [], i); (Cextern "sigaction" [SIGQUIT; SIG_IGN] [], q); (Cfork, f)].
Definition closing (sg : (Z → Z) * cstr) (m i q : reply) : list (call * reply) :=
  [(Cextern "sigprocmask" [SIG_SETMASK] sg.2, m); (Cextern "sigaction" [SIGINT; sg.1 SIGINT] [], i); (Cextern "sigaction" [SIGQUIT; sg.1 SIGQUIT] [], q)].

(** The signals of the caller and of its child before they part. *)
Definition during (sg sg' : (Z → Z) * cstr) : Prop :=
  (∀ n, sg'.1 n = if (n =? SIGINT) || (n =? SIGQUIT) then SIG_IGN else sg.1 n) ∧ sg'.2 = blocked SIGCHLD sg.2.

Lemma wp_shell_c command (Q : unit → st S → Prop) E s :
  (∀ s', sigs (trace s') = sigs (trace s) → Q tt s') →
  (∀ s', sigs (trace s') = sigs (trace s) → E (Execed SHELL_PATH [str "sh"; str "-c"; command]) s') →
  wp (shell_c command) Q E s.
Proof using.
  intros HQ HE. unfold shell_c. apply wp_bind, wp_call. intros r s1 _ _ _ _ Ht. assert (sigs (trace s1) = sigs (trace s)) by (by rewrite Ht, sigs_snoc).
  destruct (_ =? _); [by apply wp_ret, HQ|by apply wp_stop, HE].
Qed.

Lemma wp_sigaction sig h (Q : reply → st S → Prop) E s :
  (∀ r s', sigs (trace s') = ((λ n, if n =? sig then h else (sigs (trace s)).1 n), (sigs (trace s)).2) → Q r s') → wp (sigaction sig h) Q E s.
Proof using. intros HQ. apply wp_call. intros r s1 _ _ _ _ Ht. apply HQ. by rewrite Ht, sigs_snoc. Qed.

Lemma wp_system_child command sg s (Q : unit → st S → Prop) :
  during sg (sigs (trace s)) →
  wp (system_child command (sg.1 SIGINT) (sg.1 SIGQUIT) sg.2) Q
    (λ t s', (t = Execed SHELL_PATH [str "sh"; str "-c"; command] ∨ t = FastExit 127) ∧ start_signals sg (sigs (trace s'))) s.
Proof using.
  intros [Hd Hm]. unfold system_child. apply wp_bind.
  assert (∀ s0 (b : bool) n (Q' : unit → st S → Prop) E', (∀ s', (sigs (trace s')).1 n = (if b then SIG_DFL else (sigs (trace s0)).1 n) → (∀ k, k ≠ n → (sigs (trace s')).1 k = (sigs (trace s0)).1 k) → Q' tt s') →
    wp (when b (sigaction n SIG_DFL;; mret tt)) Q' E' s0) as Hset.
  { intros s0 [|] n Q' E' HQ; cbn [when]; [|by apply wp_ret, HQ]. apply wp_bind, wp_sigaction. intros r s1 H1. apply wp_ret, HQ; rewrite H1; cbn; [by rewrite Z.eqb_refl|].
    intros k Hk. by rewrite (proj2 (Z.eqb_neq _ _)). }
  apply Hset. intros s1 Hi1 Ho1. apply wp_bind, Hset. intros s2 Hq2 Ho2. apply wp_bind, wp_call. intros r s3 _ _ _ _ Ht.
  assert (start_signals sg (sigs (trace s3))) as Hstart.
  { rewrite Ht, sigs_snoc. cbn. split; [|done]. intros n. cbn. destruct (Z.eqb_spec n SIGINT) as [-> |Hni]; [|destruct (Z.eqb_spec n SIGQUIT) as [-> |Hnq]]; cbn [orb andb].
    - rewrite (Ho2 SIGINT), Hi1, Hd by done. cbn. by destruct (Z.eqb_spec (sg.1 SIGINT) SIG_IGN).
    - rewrite Hq2, (Ho1 SIGQUIT), Hd by done. cbn. by destruct (Z.eqb_spec (sg.1 SIGQUIT) SIG_IGN).
    - rewrite (Ho2 n), (Ho1 n), Hd by done. by rewrite (proj2 (Z.eqb_neq n SIGINT)), (proj2 (Z.eqb_neq n SIGQUIT)) by done. }
  apply wp_bind, wp_shell_c; intros s4 H4; [apply wp_stop|]; rewrite H4; auto.
Qed.
End Specs.

(** C1: system, given a kernel that keeps dispositions and the mask: the child starts
    the shell on the command with the mask of the caller, and with SIGINT and
    SIGQUIT as the caller had them when it ignored them, by default otherwise;
    the caller waits for this child, through interruptions, and returns its
    status, or -1 with errno telling why; and it has its own mask and
    dispositions back. *)
Theorem system_correct {S} `{Signals} fuel command (s : st S) :
  let sg := sigs (trace s) in
  wlp (system_cmd fuel command)
    (λ status s', same_signals sg (sigs (trace s')) ∧ ∃ m i q f lw m' i' q',
       acted s (opening m i q f ++ lw ++ closing sg m' i' q') s' ∧ failed_with (opening m i q f ++ lw) s' ∧
       (rv f = -1 ∧ lw = [] ∧ status = -1 ∨ rv f ≠ -1 ∧ rv f ≠ 0 ∧ waited (rv f) lw status))
    (λ t s', (t = Execed SHELL_PATH [str "sh"; str "-c"; command] ∨ t = FastExit 127) ∧ start_signals sg (sigs (trace s')))
    (λ s', ∃ m i q f lw, acted s (opening m i q f ++ lw) s' ∧ Forall (interrupted (rv f)) lw) s.
Proof.
  intros sg. unfold system_cmd. apply wlp_bind, wp_wlp. eapply wp_act; [apply acted_refl|done|]. intros m s1 Em H1 _ T1.
  assert (rdata m = sg.2) as Hm by (rewrite Em; apply sigprocmask_old). rewrite Hm.
  apply wlp_bind, wp_wlp. eapply wp_act; [exact H1|done|]. intros i s2 Ei H2 _ T2. assert (old_handler i = sg.1 SIGINT) as -> by (by rewrite Ei, sigaction_old, T1, sigs_snoc).
  apply wlp_bind, wp_wlp. eapply wp_act; [exact H2|done|]. intros q s3 Eq H3 _ T3. assert (old_handler q = sg.1 SIGQUIT) as -> by (by rewrite Eq, sigaction_old, T2, T1, !sigs_snoc).
  apply wlp_bind, wp_wlp. eapply wp_act; [exact H3|done|]. intros f s4 _ H4 He4 T4. cbn [app] in H4. fold (opening m i q f) in H4.
  assert (during sg (sigs (trace s4))) as Hduring.
  { rewrite T4, T3, T2, T1, !sigs_snoc. cbn. split; [|done]. intros n. cbn. destruct (Z.eqb_spec n SIGQUIT), (Z.eqb_spec n SIGINT); done. }
  assert (∀ status lw s5, acted s (opening m i q f ++ lw) s5 → failed_with (opening m i q f ++ lw) s5 → during sg (sigs (trace s5)) →
    (rv f = -1 ∧ lw = [] ∧ status = -1 ∨ rv f ≠ -1 ∧ rv f ≠ 0 ∧ waited (rv f) lw status) →
    wlp (savedErrno ← get_errno; sys (Cextern "sigprocmask" [SIG_SETMASK] sg.2);; sigaction SIGINT (sg.1 SIGINT);; sigaction SIGQUIT (sg.1 SIGQUIT);; set_errno savedErrno;; mret status)
    (λ status s', same_signals sg (sigs (trace s')) ∧ ∃ m i q f lw m' i' q',
       acted s (opening m i q f ++ lw ++ closing sg m' i' q') s' ∧ failed_with (opening m i q f ++ lw) s' ∧
       (rv f = -1 ∧ lw = [] ∧ status = -1 ∨ rv f ≠ -1 ∧ rv f ≠ 0 ∧ waited (rv f) lw status))
    (λ t s', (t = Execed SHELL_PATH [str "sh"; str "-c"; command] ∨ t = FastExit 127) ∧ start_signals sg (sigs (trace s')))
    (λ s', ∃ m i q f lw, acted s (opening m i q f ++ lw) s' ∧ Forall (interrupted (rv f)) lw) s5) as Hend.
  { intros status lw s5 H5 Hf5 [Hd5 Hm5] Hstatus. apply wp_wlp, wp_bind, wp_get_errno, wp_bind. eapply wp_act; [exact H5|done|]. intros m' s6 _ H6 _ T6.
    apply wp_bind. eapply wp_act; [exact H6|done|]. intros i' s7 _ H7 _ T7. apply wp_bind. eapply wp_act; [exact H7|done|]. intros q' s8 _ H8 _ T8.
    apply wp_bind, wp_set_errno, wp_ret. cbn [trace]. split.
    - rewrite T8, T7, T6, !sigs_snoc. cbn. split; [|done]. intros n. cbn. destruct (Z.eqb_spec n SIGQUIT) as [-> |Hq]; [done|]. destruct (Z.eqb_spec n SIGINT) as [-> |Hi]; [done|].
      rewrite Hd5. by rewrite (proj2 (Z.eqb_neq n SIGINT)), (proj2 (Z.eqb_neq n SIGQUIT)) by done.
    - exists m, i, q, f, lw, m', i', q'. rewrite <-!app_assoc in H8. split_and!; [by destruct H8|exact Hf5|exact Hstatus]. }
  apply wlp_bind. destruct (Z.eqb_spec (rv f) (-1)) as [Ef|Ef]; [|destruct (Z.eqb_spec (rv f) 0) as [E0|E0]].
  - apply wp_wlp, wp_ret, (Hend (-1) []); [by rewrite app_nil_r| |done|by left].
    intros c r. cbn. intros [= <- <-]. exact He4.
  - apply wp_wlp, wp_bind, wp_system_child. exact Hduring.
  - eapply wlp_mono; [by apply (wlp_wait fuel (rv f) s (opening m i q f))| |done|].
    + intros status s5 (lw & H5 & Hw & Hf5 & Hsig). apply (Hend status lw); [done|done|by rewrite Hsig|by right].
    + intros s5 (lw & H5 & Hw). by exists m, i, q, f, lw.
Qed.
End Signals.

(** simple_system waits once and leaves the signals as they are. *)
Theorem simple_system_correct {S} `{os} command (s : st S) :
  wp (simple_system command)
    (λ status s', ∃ f, rv f = -1 ∧ status = -1 ∧ acted s [(Cfork, f)] s' ∨
       rv f ≠ -1 ∧ rv f ≠ 0 ∧ ∃ w, acted s [(Cfork, f); (Cwaitpid (rv f) 0, w)] s' ∧ status = (if rv w =? -1 then -1 else wait_stat w))
    (λ t s', ∃ f e, rv f = 0 ∧ acted s [(Cfork, f); (Cexec SHELL_PATH [str "sh"; str "-c"; command], e)] s' ∧
       t = if rv e =? -1 then FastExit 127 else Execed SHELL_PATH [str "sh"; str "-c"; command]) s.
Proof.
  unfold simple_system. apply wp_bind. eapply wp_act; [apply acted_refl|done|]. intros f s1 _ H1 _ _.
  destruct (Z.eqb_spec (rv f) (-1)) as [Ef|Ef]; [apply wp_ret; exists f; by left|]. destruct (Z.eqb_spec (rv f) 0) as [E0|E0].
  - apply wp_bind. unfold shell_c. apply wp_bind. eapply wp_act; [exact H1|done|]. intros e s2 _ H2 _ _.
    destruct (rv e =? -1) eqn:Ee; [apply wp_ret|]; apply wp_stop; exists f, e; by rewrite Ee.
  - apply wp_bind. eapply wp_act; [exact H1|done|]. intros w s2 _ H2 _ _.
    destruct (rv w =? -1) eqn:Ew; apply wp_ret; exists f; right; (split_and!; [done|done|]); exists w; by rewrite Ew.
Qed.

(** ** popen *)

Section Popen.
Context {S : Type} `{Descriptors}.
Implicit Types s : st S.

(** The child of popen (command, "r"): it writes the new pipe, and has no other
    end of it. *)
Definition writes_pipe (n : nat) (t : gmap Z obj) (command : cstr) (e : stop) s : Prop :=
  fds (trace s) = (Datatypes.S n, <[1 := PipeWrite n]> t) ∧ (e = Execed SHELL_PATH [str "sh"; str "-c"; command] ∨ e = Exit 1).

Lemma wp_perror text (Q : unit → st S → Prop) E s : (∀ s1, fds (trace s1) = fds (trace s) → said Stdout (trace s1) = said Stdout (trace s) → calls (trace s1) = calls (trace s) → Q tt s1) → wp (perror text) Q E s.
Proof using.
  intros HQ. apply wp_bind, wp_get_errno, wp_emit. apply HQ; cbn [trace].
  - rewrite fds_snoc. by destruct (fds (trace s)).
  - rewrite said_app. unfold said at 2. cbn. by rewrite app_nil_r.
  - apply calls_snoc_out.
Qed.

(** The lines read from a stream. *)
Definition line_of (fp : Z) (x : call * reply) : option cstr :=
  match x.1 with
  | Cextern "fgets" [fd; 256] _ => if bool_decide (fd = fp) && negb (rv x.2 =? -1) then Some (c_str (rdata x.2)) else None
  | _ => None
  end.
Definition lines_read (fp : Z) (tr : list event) : cstr := concat (omap (line_of fp) (calls tr)).

Lemma lines_read_sys fp tr c r : lines_read fp (tr ++ [Esys c r]) = lines_read fp tr ++ default [] (line_of fp (c, r)).
Proof using.
  unfold lines_read. rewrite calls_snoc_sys, omap_app, concat_app. f_equal. cbn [omap list_omap]. destruct (line_of fp (c, r)); [apply app_nil_r|done].
Qed.

(** Nothing printed, and nothing read from a stream. *)
Definition silent s s' : Prop := said Stdout (trace s') = said Stdout (trace s) ∧ ∀ fp, lines_read fp (trace s') = lines_read fp (trace s).

Lemma silent_call s s1 s2 c r : silent s s1 → trace s2 = trace s1 ++ [Esys c r] → (∀ fp, line_of fp (c, r) = None) → silent s s2.
Proof using. intros [H1 H2] Ht Hc. unfold silent. rewrite Ht. split; [by rewrite said_sys|]. intros fp. by rewrite lines_read_sys, Hc, app_nil_r. Qed.

Lemma silent_perror s s1 s2 : silent s s1 → said Stdout (trace s2) = said Stdout (trace s1) → calls (trace s2) = calls (trace s1) → silent s s2.
Proof using. intros [H1 H2] Hs Hc. split; [by rewrite Hs|]. intros fp. unfold lines_read in *. by rewrite Hc, H2. Qed.

Lemma wp_popen_r command n t s :
  fds (trace s) = (n, t) → is_Some (t !! 0) → is_Some (t !! 1) →
  wp (custom_popen command (str "r"))
    (λ fp s', silent s s' ∧ ∀ fd, fp = Some fd → t !! fd = None ∧ fds (trace s') = (Datatypes.S n, <[fd := PipeRead n]> t))
    (writes_pipe n t command) s.
Proof using All.
  intros Et Hin Hout. unfold custom_popen. apply wp_bind, wp_call. intros p s1 Hp _ _ _ T1. pose proof (pipe_reply (trace s)) as Hpipe. cbn zeta in Hpipe. rewrite <-Hp, Et in Hpipe. cbn [snd] in Hpipe.
  assert (silent s s1) as Q1 by (eapply (silent_call s s); [done|exact T1|done]).
  assert (∀ s0 text, silent s s0 → wp (perror text;; mret None) (λ fp s', silent s s' ∧ ∀ fd, fp = Some fd → t !! fd = None ∧ fds (trace s') = (Datatypes.S n, <[fd := PipeRead n]> t)) (writes_pipe n t command) s0) as Hnone.
  { intros s0 text Q0. apply wp_bind, wp_perror. intros s' _ Hs Hc. apply wp_ret. split; [by eapply silent_perror|done]. }
  destruct (Z.eqb_spec (rv p) (-1)) as [Ep|Ep]; [by apply Hnone|]. destruct Hpipe as [?|(_ & Hrw & Hr & Hw)]; [done|].
  assert (fds (trace s1) = (Datatypes.S n, <[pipe_read p := PipeRead n]> (<[pipe_write p := PipeWrite n]> t))) as E1 by (rewrite T1; by apply fds_pipe).
  apply wp_bind, wp_call. intros f s2 _ _ _ _ T2. assert (silent s s2) as Q2 by (eapply silent_call; [exact Q1|exact T2|done]).
  destruct (rv f =? -1); [by apply Hnone|]. pose proof (fds_fork _ f _ _ E1) as E2. rewrite <-T2 in E2.
  change (streq (str "r") (str "r")) with true. cbv beta iota. destruct (rv f =? 0).
  - destruct (parent_table n t _ _ Hr Hw Hrw Hin Hout) as (Tb & I1 & I2 & I3).
    eapply (wp_move (pipe_read p) (pipe_write p) 1); [exact E2|exact I1|exact I2|exact I3|]. intros s3 E3. rewrite Tb in E3.
    apply wp_bind. unfold shell_c. apply wp_bind, wp_call. intros r s4 _ _ _ _ T4. pose proof (fds_other _ (Esys (Cexec SHELL_PATH [str "sh"; str "-c"; command]) r) _ _ E3 I) as E4. rewrite <-T4 in E4.
    destruct (rv r =? -1); [apply wp_ret|]; apply wp_stop; (split; [exact E4|auto]).
  - apply wp_bind, wp_call. intros k s3 Hk _ _ _ T3. assert (silent s s3) as Q3 by (eapply silent_call; [exact Q2|exact T3|done]).
    assert (rv k ≠ -1) as Hk1. { rewrite Hk. apply close_reply. rewrite E2. cbn. rewrite lookup_insert_ne by done. rewrite lookup_insert_eq. eauto. }
    pose proof (fds_close _ k _ _ (pipe_write p) E2 Hk1) as E3. rewrite <-T3 in E3. rewrite delete_insert_ne in E3 by done. rewrite delete_insert_id in E3 by done.
    apply wp_bind, wp_call. intros g s4 _ _ _ _ T4. assert (silent s s4) as Q4 by (eapply silent_call; [exact Q3|exact T4|done]).
    pose proof (fds_other _ (Esys (Cextern "fdopen" [pipe_read p] (str "r")) g) _ _ E3 I) as E4. rewrite <-T4 in E4.
    destruct (rv g =? -1); [|apply wp_ret; split; [done|]; by intros fd [= <-]].
    apply wp_bind, wp_perror. intros s5 _ Hs Hc. assert (silent s s5) as Q5 by by eapply silent_perror.
    apply wp_bind, wp_call. intros k' s6 _ _ _ _ T6. apply wp_ret. split; [|done]. by eapply silent_call; [exact Q5|exact T6|].
Qed.

(** popen (command, "w") gives a stream on a descriptor it has closed, if any. *)
Lemma wp_popen_w command n t s (E : stop → st S → Prop) :
  fds (trace s) = (n, t) → (∀ e s', E e s') →
  wp (custom_popen command (str "w")) (λ fp s', ∀ fd, fp = Some fd → (fds (trace s')).2 !! fd = None) E s.
Proof using All.
  intros Et HE. unfold custom_popen. apply wp_bind, wp_call. intros p s1 Hp _ _ _ T1. pose proof (pipe_reply (trace s)) as Hpipe. cbn zeta in Hpipe. rewrite <-Hp, Et in Hpipe. cbn [snd] in Hpipe.
  assert (∀ s0 text, wp (perror text;; mret None) (λ fp s', ∀ fd, fp = Some fd → (fds (trace s')).2 !! fd = None) E s0) as Hnone by (intros s0 text; by apply wp_bind, wp_perror).
  destruct (Z.eqb_spec (rv p) (-1)) as [Ep|Ep]; [apply Hnone|]. destruct Hpipe as [?|(_ & Hrw & Hr & Hw)]; [done|].
  pose proof (fds_pipe _ p _ _ Et Ep) as E1. rewrite <-T1 in E1. apply wp_bind, wp_call. intros f s2 _ _ _ _ T2. pose proof (fds_fork _ f _ _ E1) as E2. rewrite <-T2 in E2.
  destruct (rv f =? -1); [apply Hnone|]. change (streq (str "w") (str "r")) with false. change (streq (str "w") (str "w")) with true. cbv beta iota. destruct (rv f =? 0).
  - apply wp_bind, wp_call. intros k1 s3 _ _ _ _ _. apply wp_bind, wp_call. intros k2 s4 _ _ _ _ _. apply wp_bind, wp_call. intros k3 s5 _ _ _ _ _.
    apply wp_bind. unfold shell_c. apply wp_bind, wp_call. intros r s6 _ _ _ _ _. destruct (rv r =? -1); [apply wp_ret|]; by apply wp_stop.
  - apply wp_bind, wp_call. intros k s3 Hk _ _ _ T3.
    assert (rv k ≠ -1) as Hk1. { rewrite Hk. apply close_reply. rewrite E2. cbn. rewrite lookup_insert_ne by done. rewrite lookup_insert_eq. eauto. }
    pose proof (fds_close _ k _ _ (pipe_write p) E2 Hk1) as E3. rewrite <-T3 in E3.
    apply wp_bind, wp_call. intros g s4 _ _ _ _ T4. pose proof (fds_other _ (Esys (Cextern "fdopen" [pipe_write p] (str "w")) g) _ _ E3 I) as E4. rewrite <-T4 in E4.
    destruct (rv g =? -1); [by apply wp_bind, wp_perror; intros; apply wp_bind, wp_call; intros; apply wp_ret|].
    apply wp_ret. intros fd [= <-]. rewrite E4. apply lookup_delete_eq.
Qed.

(** The parent prints what it reads. *)
Definition relays (fp : Z) s s' : Prop :=
  ∃ text, said Stdout (trace s') = said Stdout (trace s) ++ text ∧ lines_read fp (trace s') = lines_read fp (trace s) ++ text.

Lemma wlp_print_lines fuel fp s0 s :
  relays fp s0 s → wlp (loop fuel (λ _, print_turn fp) tt) (λ _ s', relays fp s0 s') (λ _ _, False) (relays fp s0) s.
Proof using All.
  intros Hs. apply (wlp_loop (λ _, relays fp s0)); [done|done|]. intros _ s1 (text & Hsaid & Hread). apply wp_wlp. unfold print_turn. apply wp_bind, wp_call. intros r s2 _ _ _ _ T2.
  assert (lines_read fp (trace s2) = lines_read fp (trace s0) ++ text ++ (if rv r =? -1 then [] else c_str (rdata r))) as Hr2.
  { rewrite T2, lines_read_sys, Hread, <-app_assoc. do 2 f_equal. unfold line_of. cbn. rewrite bool_decide_eq_true_2 by done. by destruct (rv r =? -1). }
  destruct (rv r =? -1).
  - apply wp_ret. exists text. split; [by rewrite T2, said_sys|]. by rewrite Hr2, app_nil_r.
  - apply wp_bind, wp_emit, wp_ret. exists (text ++ c_str (rdata r)). cbn [trace]. split; [by rewrite said_out, T2, said_sys, Hsaid, app_assoc|].
    unfold lines_read. rewrite calls_snoc_out. fold (lines_read fp (trace s2)). exact Hr2.
Qed.
End Popen.

(** popen.c, with words that fit its array: the child runs the shell on them with
    its standard output in the pipe; the parent prints exactly what it reads,
    in order, and comes back with 0 once it has waited for a child, with 1 when
    it could not. *)
Theorem popen_main_correct {S} `{Descriptors} fuel prog words n t (s : st S) :
  words ≠ [] → strlen (command_of words) < 32 → fds (trace s) = (n, t) → is_Some (t !! 0) → is_Some (t !! 1) →
  wlp (popen_main fuel (prog :: words))
    (λ z s', (z = 1 ∧ silent s s') ∨ ∃ fp, t !! fp = None ∧ relays fp s s' ∧ (z = 0 ∧ last (calls (trace s')) = Some (Cwaitpid (-1) 0, kern (removelast (trace s')) (Cwaitpid (-1) 0)) ∨ z = 1))
    (writes_pipe n t (command_of words)) (λ s', ∃ fp, t !! fp = None ∧ relays fp s s') s.
Proof.
  intros Hne Hlen Et Hin Hout. unfold popen_main. cbn [tail]. destruct words as [|w ws]; [done|]. rewrite (proj2 (Z.leb_gt _ _)) by done.
  apply wlp_bind, wp_wlp. eapply wp_mono; [by apply (wp_popen_r (command_of (w :: ws)) n t s)| |done].
  intros [fp|] s1 [[Hsaid Hread] Hfp].
  - destruct (Hfp fp eq_refl) as [Hfree _]. apply wlp_bind. eapply wlp_mono; [apply (wlp_print_lines fuel fp s s1); exists []; by rewrite !app_nil_r, Hsaid, Hread| |done|by intros s2 H2; exists fp].
    intros [] s2 H2. apply wp_wlp, wp_bind.
    assert (∀ s3 s4, relays fp s s3 → said Stdout (trace s4) = said Stdout (trace s3) → lines_read fp (trace s4) = lines_read fp (trace s3) → relays fp s s4) as Hkeep.
    { intros s3 s4 (text & Ha & Hb) Hc Hd. exists text. by rewrite Hc, Hd. }
    assert (∀ s3 text, relays fp s s3 → wp (perror text;; mret (-1)) (λ z s4, z = -1 ∧ relays fp s s4) (λ _ _, False) s3) as Hfail.
    { intros s3 text H3. apply wp_bind, wp_perror. intros s4 _ Hs4 Hc4. apply wp_ret. split; [done|]. eapply Hkeep; [exact H3|done|]. unfold lines_read. by rewrite Hc4. }
    assert (∀ s3 c r s4, relays fp s s3 → trace s4 = trace s3 ++ [Esys c r] → line_of fp (c, r) = None → relays fp s s4) as Hcall.
    { intros s3 c r s4 H3 T4 Hl. eapply Hkeep; [exact H3|by rewrite T4, said_sys|]. by rewrite T4, lines_read_sys, Hl, app_nil_r. }
    assert (∀ s3, relays fp s s3 → wp (perror (str "custom_pclose error");; mret 1) (λ z s4, z = 1 ∧ relays fp s s4) (λ _ _, False) s3) as Hone.
    { intros s3 H3. apply wp_bind, wp_perror. intros s4 _ Hs4 Hc4. apply wp_ret. split; [done|]. eapply Hkeep; [exact H3|done|]. unfold lines_read. by rewrite Hc4. }
    apply (wp_mono _ (λ z s3, relays fp s s3 ∧ (z ≠ -1 → last (calls (trace s3)) = Some (Cwaitpid (-1) 0, kern (removelast (trace s3)) (Cwaitpid (-1) 0)))) _ (λ _ _, False)); [| |done].
    + unfold custom_pclose. apply wp_bind, wp_call. intros k s3 _ _ _ _ T3. assert (relays fp s s3) as H3 by by eapply Hcall.
      destruct (rv k =? -1); [eapply wp_mono; [by apply Hfail|intros z s4 [-> H4]; by split|done]|].
      apply wp_bind, wp_call. intros x s4 Hx _ _ _ T4. assert (relays fp s s4) as H4 by by eapply Hcall.
      destruct (rv x =? -1); [eapply wp_mono; [by apply Hfail|intros z s5 [-> H5]; by split|done]|].
      apply wp_ret. split; [done|]. intros _. rewrite T4, calls_snoc_sys, last_snoc, removelast_last, Hx. done.
    + intros z s3 [H3 Hw]. destruct (Z.eqb_spec z (-1)) as [Ez|Ez].
      * eapply wp_mono; [by apply Hone| |done]. intros y s4 [-> H4]. right. exists fp. auto.
      * apply wp_ret. right. exists fp. split_and!; [done|done|left; auto].
  - apply wp_wlp, wp_bind, wp_perror. intros s2 _ Hs2 Hc2. apply wp_ret. left. split; [done|]. by eapply silent_perror; [split; [exact Hsaid|exact Hread]| |].
Qed.

(** ** Sessions *)

(** The directories of PATH, the current one between two colons; the file is not
    there, not allowed, and found. *)
Definition err (e : Z) : reply := Reply (-1) e [] [].
Definition path_os (reply_to : cstr → reply) : os :=
  Os (λ _ c, match c with Cexec path _ => reply_to path | _ => ok 1 end) (λ _, []) (λ _, []) (λ _, []) 0 (λ n, if streq n (str "PATH") then Some (str "/bin::/opt") else None) (λ n, n).

Lemma execlp_witness :
  let o := path_os (λ p, if streq p (str "./prog") then err EACCES else err ENOENT) in
  ∃ s', @execlp unit o 20 (str "prog") [str "prog"] (init tt) = (Ret (-1), s') ∧ errno s' = EACCES ∧
    ∃ c c' rs, acted (init tt) ((Cextern "calloc" [100; 8] [], c) :: (Cextern "calloc" [8] [], c') :: tries [str "prog"] [str "/bin/prog"; str "./prog"; str "/opt/prog"] rs) s'.
Proof.
  intros o. pose proof (@execlp_correct unit o 20 (str "prog") [str "prog"] (init tt) ltac:(cbn; lia) ltac:(vm_compute; lia)) as H.
  apply wp_run in H as [(z & s' & Hrun & -> & [(l & Hl & Ha)|(c & c' & rs & _ & _ & Ha & _)])|(t & s' & Hrun & _)].
  - exfalso. apply (f_equal snd) in Hrun. destruct Ha as [Ha _]. cbn [snd] in Hrun. rewrite <-Hrun in Ha. vm_compute in Ha.
    destruct Hl as (c & Hc & [-> |(c' & _ & ->)]); discriminate Ha.
  - exists s'. split; [exact Hrun|]. split; [apply (f_equal (λ x, errno x.2)) in Hrun; vm_compute in Hrun; symmetry; exact Hrun|]. by exists c, c', rs.
  - exfalso. apply (f_equal fst) in Hrun. vm_compute in Hrun. discriminate Hrun.
Defined.

(** A file without a recognised format: the copy for the shell overruns its
    array. *)
Example script_overruns :
  (@execlp unit (path_os (λ p, if streq p (str "/opt/run") then err ENOEXEC else err ENOENT)) 20 (str "run") [str "run"] (init tt)).1 = Stop (Undefined "array overrun").
Proof. vm_compute. reflexivity. Qed.

(** A kernel that keeps dispositions and a mask; the first wait is interrupted. *)
Definition sig_start : Z → Z := λ n, if n =? SIGQUIT then SIG_IGN else 4198.
Definition add_signal (n : Z) (m : cstr) : cstr := m ++ [chr n].
Definition signal_os (child : Z) : os := test_os (λ tr c,
  match c with
  | Cextern "sigaction" [sig; _] _ => Reply 0 0 [] [([], (sigs sig_start [] add_signal tr).1 sig)]
  | Cextern "sigprocmask" [_; _] _ => Reply 0 0 (sigs sig_start [] add_signal tr).2 []
  | Cfork => ok child
  | Cwaitpid _ _ => if existsb (λ x, match x.1 with Cwaitpid _ _ => true | _ => false end) (calls tr) then Reply 77 0 [] [([], 512)] else err EINTR
  | Cexec _ _ => ok 0
  | _ => ok 0
  end).

Lemma signal_os_Signals child : @Signals sig_start [] add_signal (signal_os child).
Proof. by split. Qed.

(** A run whose result is known. *)
Lemma wlp_run_ret {S A} (m : M S A) Q E F s a : wlp m Q E F s → (m s).1 = Ret a → ∃ s', m s = (Ret a, s') ∧ Q a s'.
Proof. unfold wlp. destruct (m s) as [o s']. cbn. intros H ->. by exists s'. Qed.
Lemma wlp_run_stop {S A} (m : M S A) Q E F s t : wlp m Q E F s → (m s).1 = Stop t → ∃ s', m s = (Stop t, s') ∧ E t s'.
Proof. unfold wlp. destruct (m s) as [o s']. cbn. intros H ->. by exists s'. Qed.

Lemma system_witness :
  (∃ s', @system_cmd unit (signal_os 77) 3 (str "exit 2") (init tt) = (Ret 512, s') ∧
     same_signals (sigs sig_start [] add_signal (trace (init tt))) (sigs sig_start [] add_signal (trace s'))) ∧
  (∃ s', @system_cmd unit (signal_os 0) 3 (str "exit 2") (init tt) = (Stop (Execed SHELL_PATH [str "sh"; str "-c"; str "exit 2"]), s') ∧
     start_signals (sigs sig_start [] add_signal (trace (init tt))) (sigs sig_start [] add_signal (trace s'))).
Proof.
  split.
  - destruct (wlp_run_ret _ _ _ _ _ 512 (@system_correct sig_start [] add_signal unit (signal_os 77) (signal_os_Signals 77) 3 (str "exit 2") (init tt)) ltac:(vm_compute; reflexivity)) as (s' & Hrun & Hs & _).
    exists s'. split; [exact Hrun|exact Hs].
  - destruct (wlp_run_stop _ _ _ _ _ (Execed SHELL_PATH [str "sh"; str "-c"; str "exit 2"]) (@system_correct sig_start [] add_signal unit (signal_os 0) (signal_os_Signals 0) 3 (str "exit 2") (init tt)) ltac:(vm_compute; reflexivity)) as (s' & Hrun & _ & Hs).
    exists s'. split; [exact Hrun|exact Hs].
Defined.
