(* ===== verification/Sigs.v ===== *)
(** Signals: two processes that send each other one signal after the other
    (homework/hw7/7-1, tlpi-book/signals/sig_speed_sigsuspend.c), and the System
    V functions of homework/hw7/7-2. *)
From S2P Require Import Prelude Sys ErrorFns GetNum SvmsgFile.

(** ** The exchange *)

Module Speed.

(** In the loop of each process: about to kill, about to call sigsuspend or
    sigwaitinfo, in the call, and through. *)
Inductive place := Sending | About | Suspended | Through.
#[global] Instance place_eq : EqDecision place.
Proof. solve_decision. Defined.
Record side := Side { scnt : Z; at_ : place }.

(** A pending signal is one bit for each process. *)
Record state := State { child : side; parent : side; to_child : bool; to_parent : bool }.

Section System.
Context (blocked : bool) (numSigs : Z).

(** A signal to a process that does not block it and does not wait runs the
    handler, and that is all. *)
Definition post (target : side) (pending : bool) : bool :=
  if blocked || bool_decide (at_ target = Suspended) then true else pending.

(** The end of a turn: scnt++, and the test of the loop. *)
Definition next_turn (first : place) (s : side) : side :=
  if scnt s + 1 <? numSigs then Side (scnt s + 1) first else Side (scnt s + 1) Through.

Definition child_step (s : state) : option state :=
  match at_ (child s) with
  | Sending => Some (State (Side (scnt (child s)) About) (parent s) (to_child s) (post (parent s) (to_parent s)))
  | About => Some (State (Side (scnt (child s)) Suspended) (parent s) (to_child s) (to_parent s))
  | Suspended => if to_child s then Some (State (next_turn Sending (child s)) (parent s) false (to_parent s)) else None
  | Through => None
  end.
Definition parent_step (s : state) : option state :=
  match at_ (parent s) with
  | About => Some (State (child s) (Side (scnt (parent s)) Suspended) (to_child s) (to_parent s))
  | Suspended => if to_parent s then Some (State (child s) (Side (scnt (parent s)) Sending) (to_child s) false) else None
  | Sending => Some (State (child s) (next_turn About (parent s)) (post (child s) (to_child s)) (to_parent s))
  | Through => None
  end.

Inductive step (s s' : state) : Prop :=
  | Step_child : child_step s = Some s' → step s s'
  | Step_parent : parent_step s = Some s' → step s s'.

(** After the fork. *)
Definition start : state := State (Side 0 Sending) (Side 0 About) false false.
End System.

(** Where the exchange is: it goes round, and nobody sends to a process that has
    a signal pending. *)
Definition waits (p : place) : Prop := p = About ∨ p = Suspended.
Inductive round (n : Z) : state → Prop :=
  | R_ask i q : 0 <= i < n → waits q → round n (State (Side i Sending) (Side i q) false false)
  | R_asked i p q : 0 <= i < n → waits p → waits q → round n (State (Side i p) (Side i q) false true)
  | R_answer i p : 0 <= i < n → waits p → round n (State (Side i p) (Side i Sending) false false)
  | R_answered i p q : 0 <= i → i + 1 < n → waits p → waits q → round n (State (Side i p) (Side (i + 1) q) true false)
  | R_last i p : 0 <= i → n = i + 1 → waits p → round n (State (Side i p) (Side n Through) true false)
  | R_end : round n (State (Side n Through) (Side n Through) false false).

(** Steps that are left. *)
Definition left_of (n : Z) (s : state) : Z :=
  3 * (n - scnt (child s)) - match at_ (child s) with Sending | Through => 0 | About => 1 | Suspended => 2 end +
  3 * (n - scnt (parent s)) - match at_ (parent s) with About | Through => 0 | Suspended => 1 | Sending => 2 end.

Ltac in_round :=
  first [solve [apply R_ask; unfold waits in *; (lia || auto)] | solve [apply R_asked; unfold waits in *; (lia || auto)] | solve [apply R_answer; unfold waits in *; (lia || auto)]
        | solve [apply R_answered; unfold waits in *; (lia || auto)] | solve [apply R_last; unfold waits in *; (lia || auto)] | solve [apply R_end]].

Lemma round_child n s s' : round n s → child_step true n s = Some s' → round n s' ∧ left_of n s' = left_of n s - 1.
Proof.
  intros Hr Hs. destruct Hr as [i q Hi Hq|i p q Hi Hp Hq|i p Hi Hp|i p q Hi Hi' Hp Hq|i p Hi -> Hp|]; try destruct Hp as [-> | ->]; unfold child_step, next_turn, post in Hs; cbn in Hs; try done.
  all: try (injection Hs as <-; split; [in_round|unfold left_of; cbn; lia]).
  - rewrite (proj2 (Z.ltb_lt _ _)) in Hs by lia. injection Hs as <-. split; [in_round|]. unfold left_of. cbn. lia.
  - rewrite (proj2 (Z.ltb_ge _ _)) in Hs by lia. injection Hs as <-. split; [in_round|]. unfold left_of. cbn. lia.
Qed.

Lemma round_parent n s s' : round n s → parent_step true n s = Some s' → round n s' ∧ left_of n s' = left_of n s - 1.
Proof.
  intros Hr Hs. destruct Hr as [i q Hi Hq|i p q Hi Hp Hq|i p Hi Hp|i p q Hi Hi' Hp Hq|i p Hi -> Hp|]; try destruct Hq as [-> | ->]; unfold parent_step, next_turn, post in Hs; cbn in Hs; try done.
  all: try (injection Hs as <-; split; [in_round|unfold left_of; cbn; lia]).
  destruct (Z.ltb_spec (i + 1) n) as [Hlt|Hge]; injection Hs as <-.
  - split; [in_round|]. unfold left_of. cbn. lia.
  - assert (n = i + 1) as -> by lia. split; [in_round|unfold left_of; cbn; lia].
Qed.

Lemma round_progress n s : round n s → s = State (Side n Through) (Side n Through) false false ∨ ∃ s', step true n s s'.
Proof.
  intros [i q Hi Hq|i p q Hi Hp [-> | ->]|i p Hi Hp|i p q Hi Hi' [-> | ->] Hq|i p Hi -> [-> | ->]|]; [right..|by left]; eexists;
    first [by apply Step_child|by apply Step_parent].
Qed.

(** Both processes, with the signal blocked before the fork, for any schedule: no
    signal is sent to a process that has one pending, so none is lost; nobody
    waits for ever; and after exactly 6 n steps both have sent and taken n
    signals. *)
Theorem exchange_correct n s :
  0 < n → rtc (step true n) (start) s →
  (s = State (Side n Through) (Side n Through) false false ∨ ∃ s', step true n s s') ∧
  0 <= left_of n s <= 6 * n ∧ (∀ s', step true n s s' → left_of n s' = left_of n s - 1) ∧
  (at_ (child s) = Sending → to_parent s = false) ∧ (at_ (parent s) = Sending → to_child s = false) ∧
  scnt (child s) <= scnt (parent s) <= scnt (child s) + 1.
Proof.
  intros Hn Hr. assert (round n s ∧ left_of n s <= 6 * n) as [Hs Hle].
  { assert (∀ s1, round n s1 → left_of n s1 <= 6 * n → rtc (step true n) s1 s → round n s ∧ left_of n s <= 6 * n) as H.
    { clear Hr. intros s1 H1 Hl Hr. induction Hr as [|s1 s2 s3 Hstep _ IH]; [done|].
      assert (round n s2 ∧ left_of n s2 = left_of n s1 - 1) as [H2 Hl2] by (destruct Hstep; [by apply round_child|by apply round_parent]). apply IH; [done|lia]. }
    apply (H start); [by constructor; [lia|left]|unfold left_of; cbn; lia|done]. }
  assert (0 <= left_of n s) as H0.
  { destruct Hs as [i q Hi [-> | ->]|i p q Hi [-> | ->] [-> | ->]|i p Hi [-> | ->]|i p q Hi Hi' [-> | ->] [-> | ->]|i p Hi -> [-> | ->]|]; unfold left_of; cbn; lia. }
  split; [by apply round_progress|]. split; [lia|]. split; [intros s' [Hstep|Hstep]; [by apply round_child|by apply round_parent]|].
  destruct Hs as [i q Hi [-> | ->]|i p q Hi [-> | ->] [-> | ->]|i p Hi [-> | ->]|i p q Hi Hi' [-> | ->] [-> | ->]|i p Hi -> [-> | ->]|]; cbn; split_and!; try done; lia.
Qed.

(** A schedule, [true] for the child. *)
Definition follow (blocked : bool) (n : Z) (sched : list bool) (s : state) : option state :=
  foldl (λ s (c : bool), s ← s; if c then child_step blocked n s else parent_step blocked n s) (Some s) sched.

Lemma exchange_follow blocked n sched s s' : follow blocked n sched s = Some s' → rtc (step blocked n) s s'.
Proof.
  revert s s'. induction sched as [|c sched IH] using rev_ind; intros s s'; unfold follow; [intros [= ->]; apply rtc_refl|].
  rewrite foldl_snoc. fold (follow blocked n sched s). destruct (follow blocked n sched s) as [s1|] eqn:E; [|done]. cbn. intros Hstep.
  eapply rtc_r; [by apply IH|]. destruct c; [by apply Step_child|by apply Step_parent].
Qed.

Lemma exchange_witness :
  ∃ s, rtc (step true 1) start s ∧ at_ (child s) = Sending ∧ to_parent s = false ∧ left_of 1 s = 5.
Proof.
  destruct (follow true 1 [false] start) as [s|] eqn:Hs; [|vm_compute in Hs; discriminate Hs]. pose proof (exchange_follow _ _ _ _ _ Hs) as Hr. exists s.
  assert (at_ (child s) = Sending ∧ left_of 1 s = 5) as [Hc Hl] by (vm_compute in Hs; injection Hs as <-; split; reflexivity). split; [exact Hr|]. split; [exact Hc|]. split; [|exact Hl].
  pose proof (exchange_correct 1 s) as H. apply H; [lia|exact Hr|exact Hc].
Defined.

(** Were the signal not blocked, the child's first one could come before the
    parent waits, and both would wait for ever. *)
Example lost_without_mask :
  ∃ s, follow false 1 [true; true; false] start = Some s ∧ ∀ s', ¬ step false 1 s s'.
Proof. eexists. split; [vm_compute; reflexivity|]. by intros s' [Hs|Hs]. Qed.

(** The program up to the fork: the number of signals, with the signal caught
    and blocked. *)
Definition TESTSIG : Z := 10.            (* SIGUSR1 *)
Definition HANDLER : Z := 4096.          (* the address of handler() *)

Section Program.
Context {S : Type} `{os}.

Definition speed_setup (argv : list cstr) : M S (Z * reply) :=
  match argv with
  | [prog; num] =>
      if streq num (str "--help") then usageErr (prog ++ str " num-sigs" ++ [NL]) else
      numSigs ← getInt (Some num) GN_GT_0 (Some (str "num-sigs"));
      a ← sys (Cextern "sigaction" [TESTSIG; HANDLER] []);
      if rv a =? -1 then errExit (str "sigaction") else
      m ← sys (Cextern "sigprocmask" [2; TESTSIG] []);
      if rv m =? -1 then errExit (str "sigprocmask") else
      childPid ← sys Cfork;
      if rv childPid =? -1 then errExit (str "fork") else
      mret (numSigs, childPid)
  | _ => usageErr (default [] (argv !! 0%nat) ++ str " num-sigs" ++ [NL])
  end.
End Program.

(** Both processes come out of it with the handler and the mask set, and a number
    to exchange. *)
Lemma wp_speed_setup {S} `{os} argv (s : st S) :
  wp (speed_setup argv)
    (λ x s', 0 < x.1 ∧ ∃ a m, acted s [(Cextern "sigaction" [TESTSIG; HANDLER] [], a); (Cextern "sigprocmask" [2; TESTSIG] [], m); (Cfork, x.2)] s')
    (λ t _, t = end_of true ∨ t = Exit 1) s.
Proof.
  unfold speed_setup. destruct argv as [|prog [|num [|? ?]]]; try (apply wp_usageErr; intros; by right). destruct (streq _ _); [apply wp_usageErr; intros; by right|].
  apply wp_bind. eapply wp_mono; [apply (wp_getInt (Some num))| |intros t s1 (-> & _); by right].
  intros n s1 [(text & _ & _ & _ & _ & Hn) ->]. apply wp_bind. eapply wp_act; [split; [by rewrite app_nil_r|done]|done|]. intros a s2 _ H2 _ _. destruct (rv a =? -1); [by eapply wp_act_errExit; [exact H2|auto]|].
  apply wp_bind. eapply wp_act; [exact H2|done|]. intros m s3 _ H3 _ _. destruct (rv m =? -1); [by eapply wp_act_errExit; [exact H3|auto]|].
  apply wp_bind. eapply wp_act; [exact H3|done|]. intros f s4 _ H4 _ _. destruct (rv f =? -1); [by eapply wp_act_errExit; [exact H4|auto]|].
  apply wp_ret. split; [by apply Hn|]. exists a, m. exact H4.
Qed.
End Speed.

(** ** The System V functions *)

Module SystemV.

Definition SIG_HOLD : Z := 2.
Definition SIG_IGN : Z := 1.
Definition SIG_BLOCK : Z := 0.
Definition SIG_UNBLOCK : Z := 1.

Section Functions.
Context {S : Type} `{os}.

(** sigprocmask on a set with one signal; the old set is what it stores.  The
    mask during a handler goes with sigaction. *)
Definition sigprocmask (how signo : Z) : M S reply := sys (Cextern "sigprocmask" [how; signo] []).
Definition sigaction (signo handler : Z) (mask : list Z) : M S reply := sys (Cextern "sigaction" (signo :: handler :: mask) []).
Definition old_set (r : reply) : list Z := snd <$> rents r.
Definition old_handler (r : reply) : Z := nth 0 (snd <$> rents r) 0.

(** The result is oact.sa_handler, set or not. *)
Definition sigset (signo func : Z) : M S Z :=
  if func =? SIG_HOLD then
    sigprocmask SIG_BLOCK signo;;
    g ← sys Cgarbage;
    mret (rv g)
  else
    r ← sigaction signo func [signo];
    sigprocmask SIG_UNBLOCK signo;;
    if rv r =? -1 then g ← sys Cgarbage; mret (rv g) else mret (old_handler r).

Definition sighold (signo : Z) : M S Z := r ← sigprocmask SIG_BLOCK signo; mret (rv r).
Definition sigrelse (signo : Z) : M S Z := r ← sigprocmask SIG_UNBLOCK signo; mret (rv r).
Definition sigignore (signo : Z) : M S Z := r ← sigaction signo SIG_IGN []; mret (rv r).

Definition sigpause (signo : Z) : M S Z :=
  r ← sigprocmask SIG_UNBLOCK signo;
  let oset := filter (λ n, n ≠ signo) (old_set r) in
  w ← sys (Cextern "sigsuspend" oset []);
  mret (rv w).
End Functions.

(** *** What they do to the signals of a process *)

Record signals := Signals { disp : Z → Z; mask : gset Z }.

Definition masked (how signo : Z) (m : gset Z) : gset Z :=
  if how =? SIG_BLOCK then {[signo]} ∪ m else if how =? SIG_UNBLOCK then m ∖ {[signo]} else m.
Definition sig_step (x : signals) (e : event) : signals :=
  match e with
  | Esys (Cextern "sigprocmask" [how; signo] _) r => if rv r =? -1 then x else Signals (disp x) (masked how signo (mask x))
  | Esys (Cextern "sigaction" (signo :: handler :: _) _) r => if rv r =? -1 then x else Signals (λ n, if n =? signo then handler else disp x n) (mask x)
  | _ => x
  end.
Definition after (x0 : signals) (tr : list event) : signals := foldl sig_step x0 tr.

(** sigaction(2) gives the disposition it replaces and sigprocmask(2) the mask,
    and the valid signals are not refused. *)
Class Kernel (x0 : signals) (valid : Z → Prop) `{os} := {
  mask_ok : ∀ tr how n, valid n → rv (kern tr (Cextern "sigprocmask" [how; n] [])) = 0;
  mask_old : ∀ tr how n, list_to_set (old_set (kern tr (Cextern "sigprocmask" [how; n] []))) = mask (after x0 tr);
  action_ok : ∀ tr n h m, valid n → rv (kern tr (Cextern "sigaction" (n :: h :: m) [])) = 0;
  action_old : ∀ tr n h m, old_handler (kern tr (Cextern "sigaction" (n :: h :: m) [])) = disp (after x0 tr) n }.

Definition same (x y : signals) : Prop := (∀ n, disp x n = disp y n) ∧ mask x = mask y.

Section Specs.
Context {S : Type} (x0 : signals) (valid : Z → Prop) `{!os, !Kernel x0 valid}.
Implicit Types s : st S.

Lemma after_snoc tr e : after x0 (tr ++ [e]) = sig_step (after x0 tr) e.
Proof using. apply foldl_snoc. Qed.

Lemma wp_sigprocmask how n (Q : reply → st S → Prop) E s :
  valid n →
  (∀ r s', rv r = 0 → list_to_set (old_set r) = mask (after x0 (trace s)) →
     after x0 (trace s') = Signals (disp (after x0 (trace s))) (masked how n (mask (after x0 (trace s)))) → Q r s') →
  wp (sigprocmask how n) Q E s.
Proof using Kernel0.
  intros Hn HQ. apply wp_call. intros r s' Hr _ _ _ Ht. assert (rv r = 0) as H0 by (rewrite Hr; by apply mask_ok).
  apply HQ; [done|rewrite Hr; apply mask_old|]. rewrite Ht, after_snoc. cbn. by rewrite H0.
Qed.

Lemma wp_sysv_sigaction n h m (Q : reply → st S → Prop) E s :
  valid n →
  (∀ r s', rv r = 0 → old_handler r = disp (after x0 (trace s)) n →
     after x0 (trace s') = Signals (λ k, if k =? n then h else disp (after x0 (trace s)) k) (mask (after x0 (trace s))) → Q r s') →
  wp (sigaction n h m) Q E s.
Proof using Kernel0.
  intros Hn HQ. apply wp_call. intros r s' Hr _ _ _ Ht. assert (rv r = 0) as H0 by (rewrite Hr; by apply action_ok).
  apply HQ; [done|rewrite Hr; apply action_old|]. rewrite Ht, after_snoc. cbn. by rewrite H0.
Qed.
End Specs.

(** What the functions are for, as changes to the signals of the process; the
    result of sigset with SIG_HOLD is not known. *)
Definition holds (n : Z) (x : signals) : signals := Signals (disp x) ({[n]} ∪ mask x).
Definition releases (n : Z) (x : signals) : signals := Signals (disp x) (mask x ∖ {[n]}).
Definition sets (n h : Z) (x : signals) : signals := Signals (λ k, if k =? n then h else disp x k) (mask x).

(** The five functions on a valid signal: sigset holds the signal, or sets its
    disposition, releases it and gives the old one back; sighold, sigrelse and
    sigignore do what they say and return 0; sigpause releases the signal, and
    suspends the process with the mask it had but for this signal. *)
Theorem systemV_correct {S} x0 valid `{!os, !Kernel x0 valid} n func (s : st S) :
  valid n → let x := after x0 (trace s) in
  wp (sigset n func) (λ old s', after x0 (trace s') = (if func =? SIG_HOLD then holds n x else releases n (sets n func x)) ∧ (func ≠ SIG_HOLD → old = disp x n)) (λ _ _, False) s ∧
  wp (sighold n) (λ z s', z = 0 ∧ after x0 (trace s') = holds n x) (λ _ _, False) s ∧
  wp (sigrelse n) (λ z s', z = 0 ∧ after x0 (trace s') = releases n x) (λ _ _, False) s ∧
  wp (sigignore n) (λ z s', z = 0 ∧ after x0 (trace s') = sets n SIG_IGN x) (λ _ _, False) s ∧
  wp (sigpause n) (λ _ s', after x0 (trace s') = releases n x ∧
    ∃ l w, last (trace s') = Some (Esys (Cextern "sigsuspend" l []) w) ∧ list_to_set l = mask x ∖ {[n]}) (λ _ _, False) s.
Proof.
  intros Hn x. split_and!.
  - unfold sigset. destruct (Z.eqb_spec func SIG_HOLD) as [E|E].
    + apply wp_bind. eapply (wp_sigprocmask x0 valid); [exact Hn|]. intros r s1 _ _ H1. apply wp_bind, wp_call. intros g s2 _ _ _ _ T2. apply wp_ret. split; [|done]. by rewrite T2, after_snoc, H1.
    + apply wp_bind. eapply (wp_sysv_sigaction x0 valid); [exact Hn|]. intros r s1 Hr Hold H1. apply wp_bind. eapply (wp_sigprocmask x0 valid); [exact Hn|]. intros r' s2 _ _ H2. rewrite Hr. apply wp_ret. split; [|done]. by rewrite H2, H1.
  - apply wp_bind. eapply (wp_sigprocmask x0 valid); [exact Hn|]. intros r s1 Hr _ H1. by apply wp_ret.
  - apply wp_bind. eapply (wp_sigprocmask x0 valid); [exact Hn|]. intros r s1 Hr _ H1. by apply wp_ret.
  - apply wp_bind. eapply (wp_sysv_sigaction x0 valid); [exact Hn|]. intros r s1 Hr _ H1. by apply wp_ret.
  - apply wp_bind. eapply (wp_sigprocmask x0 valid); [exact Hn|]. intros r s1 Hr Hold H1. apply wp_bind, wp_call. intros w s2 _ _ _ _ T2. apply wp_ret. split; [by rewrite T2, after_snoc, H1|].
    eexists _, w. split; [by rewrite T2, last_snoc|]. fold x in Hold. rewrite <-Hold. apply set_eq. intros k. rewrite elem_of_difference, !elem_of_list_to_set, elem_of_singleton, list_elem_of_filter. tauto.
Qed.

(** A kernel that keeps the signals of a process. *)
Definition sysv_start : signals := Signals (λ _, 0) {[10; 12]}.
Definition sysv_os : os := test_os (λ tr c,
  let x := after sysv_start tr in
  match c with
  | Cextern "sigprocmask" _ _ => Reply 0 0 [] ((λ n, ([], n)) <$> elements (mask x))
  | Cextern "sigaction" (n :: _) _ => Reply 0 0 [] [([], disp x n)]
  | _ => ok 0
  end).

Lemma sysv_Kernel : @Kernel sysv_start (λ n, 0 < n) sysv_os.
Proof.
  split; try done. intros tr how n. cbn [kern sysv_os test_os]. unfold old_set. cbn [rents]. rewrite <-list_fmap_compose.
  rewrite (list_fmap_ext _ id) by done. rewrite list_fmap_id. apply list_to_set_elements_L.
Qed.

Lemma systemV_witness :
  ∃ s', @sigset unit sysv_os 10 4096 (init tt) = (Ret 0, s') ∧ after sysv_start (trace s') = releases 10 (sets 10 4096 sysv_start).
Proof.
  destruct (@systemV_correct unit sysv_start (λ n, 0 < n) sysv_os sysv_Kernel 10 4096 (init tt) ltac:(reflexivity)) as (H & _).
  apply wp_run in H as [(z & s' & Hrun & Ha & Hz)|(t & s' & _ & [])]. exists s'. rewrite Hrun, (Hz ltac:(discriminate)). split; [reflexivity|exact Ha].
Defined.
End SystemV.
