(* ===== verification/Sync.v ===== *)
(** Threads that synchronise: one-time initialisation (tlpi-book/threads/
    one_time_init.c), a main thread that joins the others as they end
    (thread_multijoin.c), and the reader and the writer of quiz/quiz4. *)
From S2P Require Import Prelude Threads.

(** ** one_time_init *)

Module Once.

(** In one_time_init: before the lock, at the test of [called], in the
    function, before [called] is set, and before the unlock. *)
Inductive place := Outside | Testing | Initialising | Setting | Unlocking.
#[global] Instance place_eq : EqDecision place.
Proof. solve_decision. Defined.
Record thread := Thread { calls_left : nat; at_ : place }.

(** [begun] and [finished] count the runs of the function. *)
Record state := State { mtx : option nat; called : bool; begun : nat; finished : nat; threads : list thread }.

Definition put (k : nat) (t : thread) (m : option nat) (c : bool) (b f : nat) (s : state) : state := State m c b f (<[k := t]> (threads s)).

Definition thread_step (k : nat) (s : state) : option state :=
  t ← threads s !! k;
  let goes pl := put k (Thread (calls_left t) pl) in
  match at_ t with
  | Outside =>
      match calls_left t, mtx s with
      | O, _ | _, Some _ => None
      | _, None => Some (goes Testing (Some k) (called s) (begun s) (finished s) s)
      end
  | Testing => Some (if called s then goes Unlocking (mtx s) (called s) (begun s) (finished s) s else goes Initialising (mtx s) (called s) (S (begun s)) (finished s) s)
  | Initialising => Some (goes Setting (mtx s) (called s) (begun s) (S (finished s)) s)
  | Setting => Some (goes Unlocking (mtx s) true (begun s) (finished s) s)
  | Unlocking => Some (put k (Thread (pred (calls_left t)) Outside) None (called s) (begun s) (finished s) s)
  end.

Inductive step (s s' : state) : Prop := Step k : thread_step k s = Some s' → step s s'.

(** Any number of threads that call it [calls] times each; those of the program
    are two, with two calls each. *)
Definition start (n calls : nat) : state := State None false 0 0 (replicate n (Thread calls Outside)).

Section Invariant.
Context (calls : nat).

(** What one thread sees, from the holder and the shared variables. *)
Record thread_ok (s : state) (k : nat) (t : thread) : Prop := {
  th_holds : at_ t ≠ Outside ↔ mtx s = Some k;
  th_left : (calls_left t <= calls)%nat ∧ (at_ t ≠ Outside → (0 < calls_left t)%nat);
  th_called : (calls_left t < calls)%nat ∨ at_ t = Unlocking → called s = true;
  th_counts : match at_ t with
              | Initialising => called s = false ∧ begun s = 1%nat ∧ finished s = 0%nat
              | Setting => called s = false ∧ begun s = 1%nat ∧ finished s = 1%nat
              | _ => True end }.

Record ok (s : state) : Prop := {
  ok_threads : ∀ k t, threads s !! k = Some t → thread_ok s k t;
  ok_there : ∀ k, mtx s = Some k → (k < length (threads s))%nat;
  ok_called : called s = true → begun s = 1%nat ∧ finished s = 1%nat;
  ok_idle : called s = false → (∀ k t, threads s !! k = Some t → at_ t ≠ Initialising ∧ at_ t ≠ Setting) → begun s = 0%nat ∧ finished s = 0%nat }.

Lemma once_start_ok n : ok (start n calls).
Proof using.
  split; cbn; [|done|done|done]. intros k t Hk. apply lookup_replicate in Hk as [-> _]. split; cbn; [done|split; [lia|done]|intros [?|?]; [lia|done]|done].
Qed.

(** A thread moves; the others have not got the mutex before, or do not get it. *)
Lemma once_move s k t t' m c b f :
  ok s → threads s !! k = Some t → (∀ i, i ≠ k → mtx s ≠ Some i ∧ m ≠ Some i) → (called s = true → c = true) →
  thread_ok (put k t' m c b f s) k t' → (c = true → b = 1%nat ∧ f = 1%nat) →
  (c = false → at_ t' ≠ Initialising → at_ t' ≠ Setting → b = 0%nat ∧ f = 0%nat) → (m = Some k ∨ m = None) →
  ok (put k t' m c b f s).
Proof using.
  intros Hs Hk Hm Hc Ht' Hcount Hidle Hmk.
  assert (∀ i v, <[k := t']> (threads s) !! i = Some v → i = k ∧ v = t' ∨ i ≠ k ∧ threads s !! i = Some v) as Hget by (intros i v; exact (insert_cases _ k t t' i v Hk)).
  split; cbn [put threads mtx called begun finished].
  - intros i v Hv. destruct (Hget i v Hv) as [[-> ->]|[Hne Hv']]; [done|]. destruct (ok_threads _ Hs i v Hv') as [H1 H2 H3 H4]. destruct (Hm i Hne) as [Hm1 Hm2].
    assert (at_ v = Outside) as Hout by (destruct (at_ v); [done|by destruct Hm1; apply H1..]).
    split; cbn [put mtx called begun finished]; rewrite Hout; [split; [done|intros ?; congruence]|split; [by apply H2|done]| |done]. intros [Hl|?]; [|done]. apply Hc, H3. by left.
  - intros i Hi. rewrite length_insert. destruct Hmk as [-> | ->]; [|done]. injection Hi as <-. by eapply lookup_lt_Some.
  - done.
  - intros Hcf Hall. apply Hidle; [done|..]; apply (Hall k t'), list_lookup_insert_eq; by eapply lookup_lt_Some.
Qed.

Lemma once_step_ok s s' : ok s → step s s' → ok s'.
Proof using.
  intros Hs [k Hstep]. unfold thread_step in Hstep. destruct (threads s !! k) as [[c p]|] eqn:Hk; [|done]. cbn in Hstep.
  pose proof (ok_threads _ Hs k _ Hk) as [Hh Hl Hc Hn]. cbn in Hh, Hl, Hc, Hn.
  assert (p ≠ Outside → ∀ i, i ≠ k → mtx s ≠ Some i ∧ mtx s ≠ Some i) as Hoth by (intros Hp i Hne; apply Hh in Hp; split; congruence).
  destruct p.
  - destruct c as [|c]; [done|]. destruct (mtx s) as [|] eqn:Em; [done|]. injection Hstep as <-. eapply once_move; [exact Hs|exact Hk|intros i Hne; split; congruence|done| |apply (ok_called _ Hs)| |by left].
    + split; cbn; [done|split; [lia|lia]|intros [?|?]; [apply Hc; by left|done]|done].
    + cbn. intros Hcf _ _. apply (ok_idle _ Hs); [done|]. intros i v Hv. destruct (ok_threads _ Hs i v Hv) as [H1 _ _ _]. rewrite Em in H1. split; intros E; (assert (None = Some i) by (apply H1; rewrite E; done); done).
  - specialize (Hoth ltac:(done)). assert (mtx s = Some k) as Hmk by by apply Hh. destruct (called s) eqn:Ec; injection Hstep as <-.
    + eapply once_move; [exact Hs|exact Hk|exact Hoth|done| |intros _; by apply (ok_called _ Hs)|done|by left]. split; cbn; [done|split; [apply Hl|intros _; by apply Hl]|done|done].
    + assert (begun s = 0%nat ∧ finished s = 0%nat) as [Hb Hf].
      { apply (ok_idle _ Hs Ec). intros i v Hv. destruct (decide (i = k)) as [-> |Hne]; [rewrite Hk in Hv; by injection Hv as <-|]. destruct (ok_threads _ Hs i v Hv) as [H1 _ _ _].
        split; intros E; (assert (mtx s = Some i) by (apply H1; rewrite E; done); congruence). }
      eapply once_move; [exact Hs|exact Hk|exact Hoth|congruence| |congruence|done|by left].
      split; cbn; [done|split; [apply Hl|intros _; by apply Hl]|intros [?|?]; [apply Hc; by left|done]|by rewrite Hb].
  - specialize (Hoth ltac:(done)). assert (mtx s = Some k) as Hmk by by apply Hh. destruct Hn as (Ec & Hb & Hf). injection Hstep as <-.
    eapply once_move; [exact Hs|exact Hk|exact Hoth|congruence| |congruence|done|by left]. split; cbn; [done|split; [apply Hl|intros _; by apply Hl]|intros [?|?]; [apply Hc; by left|done]|by rewrite Hb, Hf].
  - specialize (Hoth ltac:(done)). assert (mtx s = Some k) as Hmk by by apply Hh. destruct Hn as (Ec & Hb & Hf). injection Hstep as <-.
    eapply once_move; [exact Hs|exact Hk|exact Hoth|done| |done|done|by left]. split; cbn; [done|split; [apply Hl|intros _; by apply Hl]|done|done].
  - specialize (Hoth ltac:(done)). assert (called s = true) as Ec by (apply Hc; by right). injection Hstep as <-.
    eapply once_move; [exact Hs|exact Hk|intros i Hne; split; [by apply Hoth|done]|done| |intros _; by apply (ok_called _ Hs)|congruence|by right].
    split; cbn; [done|split; [lia|done]|done|done].
Qed.

Definition left_of (t : thread) : Z := 5 * Z.of_nat (calls_left t) - match at_ t with Outside => 0 | Testing => 1 | Initialising => 2 | Setting => 3 | Unlocking => 4 end.
Definition measure (s : state) : Z := zsum left_of (threads s).

Lemma once_measure s s' : ok s → step s s' → measure s' < measure s.
Proof using.
  intros Hs [k Hstep]. unfold thread_step in Hstep. destruct (threads s !! k) as [[c p]|] eqn:Hk; [|done]. cbn in Hstep.
  pose proof (ok_threads _ Hs k _ Hk) as [_ [_ Hl] _ _]. cbn in Hl.
  assert (∀ t' m b1 b f, left_of t' < left_of (Thread c p) → measure (put k t' m b1 b f s) < measure s) as H by (intros; unfold measure, put; cbn [threads]; rewrite (zsum_insert _ _ _ _ _ Hk); lia).
  destruct p; [destruct c; [done|]; destruct (mtx s); [done|]|destruct (called s)| | |]; injection Hstep as <-; apply H; unfold left_of; cbn [calls_left at_]; try lia.
  assert (0 < c)%nat by by apply Hl. lia.
Qed.

Lemma once_progress s : ok s → Forall (λ t, calls_left t = 0%nat ∧ at_ t = Outside) (threads s) ∨ ∃ s', step s s'.
Proof using.
  intros Hs. assert (∀ k t, threads s !! k = Some t → at_ t ≠ Outside → ∃ s', step s s') as Hin.
  { intros k [c p] Hk Hp. cbn in Hp. destruct p; [done|..]; (eexists; apply (Step _ _ k); unfold thread_step; rewrite Hk; reflexivity). }
  destruct (mtx s) as [k|] eqn:Em.
  - right. destruct (lookup_lt_is_Some_2 _ _ (ok_there _ Hs k Em)) as [t Ht]. eapply Hin; [exact Ht|]. by apply (ok_threads _ Hs k t Ht).
  - destruct (decide (Forall (λ t, calls_left t = 0%nat) (threads s))) as [Hall|Hsome].
    + left. rewrite Forall_lookup in Hall |- *. intros k t Hk. split; [by eapply Hall|]. destruct (ok_threads _ Hs k t Hk) as [H1 _ _ _]. rewrite Em in H1. destruct (at_ t); [done|by destruct H1 as [H1 _]; specialize (H1 ltac:(done))..].
    + right. apply (not_Forall_Exists (λ t, calls_left t = 0%nat)) in Hsome. apply Exists_exists in Hsome as (t & Ht & Hc). apply list_elem_of_lookup in Ht as [k Hk].
      destruct (ok_threads _ Hs k t Hk) as [H1 _ _ _]. rewrite Em in H1. destruct t as [[|c] p]; [by destruct Hc|]. destruct p; [|by destruct H1 as [H1 _]; specialize (H1 ltac:(done))..].
      eexists. apply (Step _ _ k). unfold thread_step. rewrite Hk. cbn. by rewrite Em.
Qed.
End Invariant.

(** Any number of threads that call one_time_init any number of times, under any
    schedule: the function begins at most once; it has run to its end before any
    call returns; the threads are never stuck, and are through after a bounded
    number of steps. *)
Theorem once_correct n calls s :
  rtc step (start n calls) s →
  (begun s <= 1)%nat ∧ (∀ k t, threads s !! k = Some t → (calls_left t < calls)%nat → finished s = 1%nat ∧ called s = true) ∧
  (Forall (λ t, calls_left t = 0%nat ∧ at_ t = Outside) (threads s) ∨ ∃ s', step s s') ∧
  (∀ s', step s s' → measure s' < measure s) ∧ 0 <= measure s.
Proof.
  intros Hr. assert (ok calls s) as Hs.
  { assert (∀ s1, ok calls s1 → rtc step s1 s → ok calls s) as H; [|by apply (H _ (once_start_ok calls n))]. clear Hr. intros s1 H1 Hr. induction Hr as [|s1 s2 s3 Hstep _ IH]; [done|]. by apply IH, (once_step_ok calls s1). }
  split; [|split; [|split; [|split]]].
  - destruct (called s) eqn:Ec; [destruct (ok_called _ _ Hs Ec) as [-> _]; lia|].
    destruct (decide (Forall (λ t, at_ t ≠ Initialising ∧ at_ t ≠ Setting) (threads s))) as [Hall|Hsome].
    + rewrite Forall_lookup in Hall. destruct (ok_idle _ _ Hs Ec Hall) as [-> _]. lia.
    + apply (not_Forall_Exists (λ t, at_ t ≠ Initialising ∧ at_ t ≠ Setting)) in Hsome. apply Exists_exists in Hsome as (t & Ht & Hp). apply list_elem_of_lookup in Ht as [k Hk].
      destruct (ok_threads _ _ Hs k t Hk) as [_ _ _ Hn]. destruct (at_ t) eqn:Ep; [exfalso; apply Hp; by rewrite Ep..|destruct Hn as (_ & -> & _); lia|destruct Hn as (_ & -> & _); lia|exfalso; apply Hp; by rewrite Ep].
  - intros k t Hk Hl. assert (called s = true) as Ec by (apply (ok_threads _ _ Hs k t Hk); by left). split; [by apply (ok_called _ _ Hs)|done].
  - by eapply once_progress.
  - intros s'. by eapply once_measure.
  - apply zsum_nonneg, Forall_lookup. intros k t Hk. destruct (ok_threads _ _ Hs k t Hk) as [_ [_ Hl] _ _]. unfold left_of. destruct (at_ t); try lia; specialize (Hl ltac:(done)); lia.
Qed.
End Once.

(** ** thread_multijoin *)

Module Reaper.

Inductive tstate := TS_ALIVE | TS_TERMINATED | TS_JOINED.
(** In threadFunc: asleep, with the mutex before [numUnjoined++], before the
    state is set, about to unlock, about to signal, and returned. *)
Inductive place := Unborn | Running | Counting | Marking | Unlocking | Signalling | Ended.
#[global] Instance tstate_eq : EqDecision tstate.
Proof. solve_decision. Defined.
#[global] Instance place_eq : EqDecision place.
Proof. solve_decision. Defined.
Record thread := Thread { state_of : tstate; at_ : place }.

Inductive owner := Main | Child (k : nat).
(** In main: creating, at [while (numLive > 0)], about to lock, at
    [while (numUnjoined == 0)], in the wait before and after the signal, in the
    for loop, in pthread_join, about to unlock, and out. *)
Inductive main_place := Creating (i : nat) | Testing | Locking | Check | Waiting | Woken | Scanning (idx : nat) | Joining (idx : nat) | Releasing | Out.
#[global] Instance main_place_eq : EqDecision main_place.
Proof. solve_decision. Defined.
Record state := State { threadMutex : option owner; numLive : Z; numUnjoined : Z; threads : list thread; main : main_place }.

Definition put (k : nat) (t : thread) (h : option owner) (u : Z) (m : main_place) (s : state) : state := State h (numLive s) u (<[k := t]> (threads s)) m.
Definition move (m : main_place) (h : option owner) (s : state) : state := State h (numLive s) (numUnjoined s) (threads s) m.

Definition thread_step (k : nat) (s : state) : option state :=
  t ← threads s !! k;
  match at_ t with
  | Unborn | Ended => None
  | Running => match threadMutex s with None => Some (put k (Thread (state_of t) Counting) (Some (Child k)) (numUnjoined s) (main s) s) | Some _ => None end
  | Counting => Some (put k (Thread (state_of t) Marking) (threadMutex s) (numUnjoined s + 1) (main s) s)
  | Marking => Some (put k (Thread TS_TERMINATED Unlocking) (threadMutex s) (numUnjoined s) (main s) s)
  | Unlocking => Some (put k (Thread (state_of t) Signalling) None (numUnjoined s) (main s) s)
  | Signalling => Some (put k (Thread (state_of t) Ended) (threadMutex s) (numUnjoined s) (match main s with Waiting => Woken | m => m end) s)
  end.

Definition main_step (s : state) : option state :=
  match main s with
  | Creating i =>
      match threads s !! i with
      | Some _ => Some (put i (Thread TS_ALIVE Running) (threadMutex s) (numUnjoined s) (Creating (S i)) s)
      | None => Some (State (threadMutex s) (Z.of_nat (length (threads s))) (numUnjoined s) (threads s) Testing)
      end
  | Testing => Some (move (if 0 <? numLive s then Locking else Out) (threadMutex s) s)
  | Locking | Woken => match threadMutex s with None => Some (move Check (Some Main) s) | Some _ => None end
  | Check => Some (if numUnjoined s =? 0 then move Waiting None s else move (Scanning 0) (threadMutex s) s)
  | Waiting => None
  | Scanning idx =>
      match threads s !! idx with
      | Some t => Some (move (if decide (state_of t = TS_TERMINATED) then Joining idx else Scanning (S idx)) (threadMutex s) s)
      | None => Some (move Releasing (threadMutex s) s)
      end
  | Joining idx =>
      t ← threads s !! idx;
      if decide (at_ t = Ended) then
        Some (State (threadMutex s) (numLive s - 1) (numUnjoined s - 1) (<[idx := Thread TS_JOINED Ended]> (threads s)) (Scanning (S idx)))
      else None
  | Releasing => Some (move Testing None s)
  | Out => None
  end.

Inductive step (s s' : state) : Prop :=
  | Step_thread k : thread_step k s = Some s' → step s s'
  | Step_main : main_step s = Some s' → step s s'.

Definition start (n : nat) : state := State None 0 0 (replicate n (Thread TS_ALIVE Unborn)) (Creating 0).

(** *** What is kept *)

Definition holds (t : thread) : bool := match at_ t with Counting | Marking | Unlocking => true | _ => false end.
Definition told (t : thread) : bool := match at_ t with Marking | Unlocking | Signalling => true | _ => false end.
Definition main_holds (m : main_place) : bool := match m with Check | Scanning _ | Joining _ | Releasing => true | _ => false end.
Definition unjoined (t : thread) : Z :=
  (match state_of t with TS_TERMINATED => 1 | _ => 0 end) + match at_ t with Marking => 1 | _ => 0 end.
Definition live (t : thread) : Z := match state_of t with TS_JOINED => 0 | _ => 1 end.

Record thread_ok (h : option owner) (k : nat) (t : thread) : Prop := {
  th_holds : holds t = true ↔ h = Some (Child k);
  th_state : match at_ t with Unlocking | Signalling => state_of t = TS_TERMINATED | Ended => state_of t ≠ TS_ALIVE | _ => state_of t = TS_ALIVE end }.

(** What main has seen. *)
Definition main_ok (s : state) : Prop :=
  match main s with
  | Creating i => ∀ k t, threads s !! k = Some t → state_of t ≠ TS_JOINED ∧ ((i <= k)%nat → at_ t = Unborn) ∧ ((k < i)%nat → at_ t ≠ Unborn)
  | m => (∀ k t, threads s !! k = Some t → at_ t ≠ Unborn) ∧ numLive s = zsum live (threads s) ∧
      match m with
      | Locking | Check | Woken => 0 < numLive s
      | Waiting => 0 < numLive s ∧ (numUnjoined s = 0 ∨ ∃ k t, threads s !! k = Some t ∧ told t = true)
      | Joining idx => ∃ t, threads s !! idx = Some t ∧ state_of t = TS_TERMINATED
      | Out => numLive s <= 0
      | _ => True
      end
  end.

Record ok (s : state) : Prop := {
  ok_threads : ∀ k t, threads s !! k = Some t → thread_ok (threadMutex s) k t;
  ok_there : ∀ k, threadMutex s = Some (Child k) → (k < length (threads s))%nat;
  ok_unjoined : numUnjoined s = zsum unjoined (threads s);
  ok_holds : main_holds (main s) = true ↔ threadMutex s = Some Main;
  ok_main : main_ok s }.

Lemma reaper_start_ok n : ok (start n).
Proof.
  assert (∀ f : thread → Z, f (Thread TS_ALIVE Unborn) = 0 → zsum f (replicate n (Thread TS_ALIVE Unborn)) = 0) as Hz.
  { intros f Hf. induction n as [|n IH]; [done|]. change (f (Thread TS_ALIVE Unborn) + zsum f (replicate n (Thread TS_ALIVE Unborn)) = 0). lia. }
  split; cbn [start threads threadMutex numUnjoined main]; [|done|by rewrite Hz|done|].
  - intros k t Hk. apply lookup_replicate in Hk as [-> _]. by split.
  - intros k t Hk. apply lookup_replicate in Hk as [-> _]. split; [done|]. split; [done|lia].
Qed.

(** A thread changes, with the mutex it takes or releases. *)
Lemma reaper_move s k t t' h u m l :
  ok s → threads s !! k = Some t → thread_ok h k t' → (∀ i, i ≠ k → h = Some (Child i) ↔ threadMutex s = Some (Child i)) →
  (main_holds m = true ↔ h = Some Main) → u = numUnjoined s + (unjoined t' - unjoined t) → main_ok (State h l u (<[k := t']> (threads s)) m) →
  ok (State h l u (<[k := t']> (threads s)) m).
Proof.
  intros Hs Hk Ht' Hh Hm Hu Hmain. split; cbn [threads threadMutex numUnjoined main]; [| | |done|done].
  - intros i v Hv. destruct (insert_cases _ k _ _ i v Hk Hv) as [[-> ->]|[Hne Hv']]; [done|]. destruct (ok_threads _ Hs i v Hv') as [H1 H2]. split; [by rewrite H1, Hh|done].
  - intros i Hi. rewrite length_insert. destruct (decide (i = k)) as [-> |Hne]; [by eapply lookup_lt_Some|]. by apply (ok_there _ Hs), Hh.
  - rewrite (zsum_insert _ _ _ _ _ Hk), <-(ok_unjoined _ Hs). done.
Qed.

(** What main has seen still holds when a thread goes on. *)
Lemma main_ok_thread s k t t' h u :
  main_ok s → threads s !! k = Some t → at_ t ≠ Unborn → at_ t' ≠ Unborn → live t' = live t →
  (state_of t = TS_TERMINATED → state_of t' = TS_TERMINATED) →
  (main s = Waiting → told t' = true ∨ told t = false ∧ u = numUnjoined s) →
  main_ok (State h (numLive s) u (<[k := t']> (threads s)) (main s)).
Proof.
  intros Hm Hk Hun Hun' Hl Hst Hw. unfold main_ok in *. cbn [main threads numLive numUnjoined].
  assert (∀ i v, <[k := t']> (threads s) !! i = Some v → i = k ∧ v = t' ∨ i ≠ k ∧ threads s !! i = Some v) as Hget by (intros i v; exact (insert_cases _ k t t' i v Hk)).
  assert (∀ P, (∀ i v, threads s !! i = Some v → at_ v ≠ Unborn) ∧ numLive s = zsum live (threads s) ∧ P →
    (∀ i v, <[k := t']> (threads s) !! i = Some v → at_ v ≠ Unborn) ∧ numLive s = zsum live (<[k := t']> (threads s)) ∧ P) as Hkeep.
  { intros P (H1 & H2 & H3). split; [|split; [|done]]; [|by rewrite (zsum_insert _ _ _ _ _ Hk), Hl, H2, Z.sub_diag, Z.add_0_r].
    intros i v Hv. destruct (Hget i v Hv) as [[-> ->]|[_ Hv']]; [done|by eapply H1]. }
  destruct (main s) as [i| | | | | |idx|idx| |]; try by apply Hkeep.
  - intros i' v Hv. destruct (Hget i' v Hv) as [[-> ->]|[Hne Hv']]; [|by apply Hm]. destruct (Hm k t Hk) as (H1 & H2 & H3).
    split; [|split; [intros Hle; by destruct Hun; apply H2|done]]. intros E. unfold live in Hl. rewrite E in Hl. by destruct (state_of t).
  - destruct Hm as (H1 & H2 & H3 & H4). apply Hkeep. split_and!; [done|done|done|]. destruct (Hw eq_refl) as [Ht'|[Ht ->]].
    + right. exists k, t'. split; [apply list_lookup_insert_eq; by eapply lookup_lt_Some|done].
    + destruct H4 as [H4|(i & v & Hv & Hvt)]; [by left|]. right. exists i, v. split; [|done]. rewrite list_lookup_insert_ne; [done|]. intros ->. congruence.
  - destruct Hm as (H1 & H2 & v & Hv & Hvs). apply Hkeep. split_and!; [done|done|]. destruct (decide (k = idx)) as [<- |Hne].
    + exists t'. split; [apply list_lookup_insert_eq; by eapply lookup_lt_Some|]. apply Hst. congruence.
    + exists v. by rewrite list_lookup_insert_ne.
Qed.

Lemma reaper_thread_ok k s s' : ok s → thread_step k s = Some s' → ok s'.
Proof.
  intros Hs Hstep. unfold thread_step in Hstep. destruct (threads s !! k) as [[st p]|] eqn:Hk; [|done]. cbn in Hstep.
  pose proof (ok_threads _ Hs k _ Hk) as [Hh Hst]. unfold holds in Hh. cbn in Hh, Hst. pose proof (ok_holds _ Hs) as Hmh. pose proof (ok_main _ Hs) as Hm. unfold put in Hstep.
  destruct p; try done.
  - destruct (threadMutex s) as [|] eqn:Em; [done|]. injection Hstep as <-. eapply reaper_move; [exact Hs|exact Hk|by split| | |unfold unjoined; cbn; lia|by eapply main_ok_thread; [exact Hm|exact Hk|..|auto]].
    + intros i Hne. rewrite Em. split; congruence.
    + rewrite Hmh. split; congruence.
  - injection Hstep as <-. eapply reaper_move; [exact Hs|exact Hk|by split|done|done|unfold unjoined; cbn; subst st; lia|by eapply main_ok_thread; [exact Hm|exact Hk|..|auto]].
  - injection Hstep as <-. subst st. eapply reaper_move; [exact Hs|exact Hk|by split|done|done|unfold unjoined; cbn; lia|by eapply main_ok_thread; [exact Hm|exact Hk|..|auto]].
  - injection Hstep as <-. assert (threadMutex s = Some (Child k)) as Hmk by by apply Hh.
    eapply reaper_move; [exact Hs|exact Hk|by split| | |unfold unjoined; cbn; lia|by eapply main_ok_thread; [exact Hm|exact Hk|..|auto]].
    + intros i Hne. rewrite Hmk. split; congruence.
    + rewrite Hmh, Hmk. split; congruence.
  - injection Hstep as <-. eapply reaper_move; [exact Hs|exact Hk|split; [done|cbn; congruence]|done|by destruct (main s)|unfold unjoined; cbn; lia|].
    assert (main s = Waiting ∨ main s ≠ Waiting) as [Ew|Ew] by (destruct (decide (main s = Waiting)); auto).
    + rewrite Ew. pose proof (main_ok_thread (State (threadMutex s) (numLive s) (numUnjoined s) (threads s) Woken) k (Thread st Signalling) (Thread st Ended) (threadMutex s) (numUnjoined s)) as H.
      apply H; try done. unfold main_ok in *. rewrite Ew in Hm. cbn. tauto.
    + assert ((match main s with Waiting => Woken | m => m end) = main s) as -> by by destruct (main s). eapply main_ok_thread; [exact Hm|exact Hk|..]; done.
Qed.

(** Main goes on without touching the threads. *)
Lemma reaper_main_move s m h : 
  ok s → (∀ i, h = Some (Child i) ↔ threadMutex s = Some (Child i)) → (main_holds m = true ↔ h = Some Main) →
  main_ok (State h (numLive s) (numUnjoined s) (threads s) m) → ok (move m h s).
Proof.
  intros Hs Hh Hm Hok. split; cbn; [|intros i Hi; by apply (ok_there _ Hs), Hh|apply Hs|done|done].
  intros k t Hk. destruct (ok_threads _ Hs k t Hk) as [H1 H2]. split; [by rewrite H1, Hh|done].
Qed.

(** When main has the mutex, what it counts are threads that have ended or are
    about to. *)
Lemma main_unjoined s : ok s → threadMutex s = Some Main → numUnjoined s ≠ 0 → ∃ k t, threads s !! k = Some t ∧ state_of t = TS_TERMINATED.
Proof.
  intros Hs Hmk Hu. destruct (decide (Forall (λ t, state_of t ≠ TS_TERMINATED) (threads s))) as [Hall|Hsome].
  - exfalso. apply Hu. rewrite (ok_unjoined _ Hs). rewrite Forall_lookup in Hall.
    assert (∀ k t, threads s !! k = Some t → unjoined t = 0) as H0.
    { intros k t Hk. destruct (ok_threads _ Hs k t Hk) as [H1 _]. pose proof (Hall k t Hk) as H2. unfold unjoined, holds in *. destruct (at_ t); destruct (state_of t); try done;
        (assert (threadMutex s = Some (Child k)) by (by apply H1)); congruence. }
    clear -H0. induction (threads s) as [|t l IH]; [done|]. change (unjoined t + zsum unjoined l = 0). rewrite (H0 0%nat t eq_refl), IH; [done|]. intros k v Hk. by apply (H0 (S k)).
  - apply (not_Forall_Exists (λ t, state_of t ≠ TS_TERMINATED)) in Hsome. apply Exists_exists in Hsome as (t & Ht & Hp). apply list_elem_of_lookup in Ht as [k Hk].
    exists k, t. split; [done|]. destruct (decide (state_of t = TS_TERMINATED)); [done|]. by destruct Hp.
Qed.

Lemma reaper_main_ok s s' : ok s → main_step s = Some s' → ok s'.
Proof.
  intros Hs. pose proof (ok_main _ Hs) as Hm. pose proof (ok_holds _ Hs) as Hh. unfold main_ok in Hm. unfold main_step.
  destruct (main s) as [i| | | | | |idx|idx| |] eqn:Em; cbn in Hh; try done.
  - destruct (threads s !! i) as [t|] eqn:Hi; intros [= <-].
    + destruct (Hm i t Hi) as (H1 & H2 & H3). specialize (H2 ltac:(lia)). pose proof (ok_threads _ Hs i t Hi) as [Ht1 Ht2]. rewrite H2 in Ht2. unfold holds in Ht1. rewrite H2 in Ht1.
      eapply reaper_move; [exact Hs|exact Hi|by split|done|done|unfold unjoined; rewrite Ht2, H2; cbn; lia|]. unfold main_ok. cbn. intros k v Hv.
      destruct (insert_cases _ i _ _ k v Hi Hv) as [[-> ->]|[Hne Hv']]; [split; [done|split; [intros ?; exfalso; lia|done]]|].
      destruct (Hm k v Hv') as (K1 & K2 & K3). split; [done|]. split; [intros ?; apply K2; lia|intros ?; apply K3; lia].
    + destruct Hs as [K1 K2 K3 K4 K5]. rewrite Em in K4. split; cbn; try done. unfold main_ok. cbn. apply lookup_ge_None in Hi. split.
      * intros k t Hk. apply (Hm k t Hk). apply lookup_lt_Some in Hk. lia.
      * split; [|done]. clear -Hm. assert (∀ k t, threads s !! k = Some t → live t = 1) as H1 by (intros k t Hk; destruct (Hm k t Hk) as [H _]; unfold live; by destruct (state_of t)).
        clear Hm. induction (threads s) as [|t l IH]; [done|]. change (Z.of_nat (S (length l)) = live t + zsum live l). pose proof (H1 0%nat t eq_refl) as Ht. assert (Z.of_nat (length l) = zsum live l) by (apply IH; intros k v Hk; by apply (H1 (S k))). lia.
  - intros [= <-]. destruct Hm as (H1 & H2 & _). destruct (Z.ltb_spec 0 (numLive s)) as [Hlt|Hge]; (apply reaper_main_move; [done|done|done|]); unfold main_ok; cbn; auto.
  - destruct (threadMutex s) as [|] eqn:Ek; [done|]. intros [= <-]. apply reaper_main_move; [done|intros i; rewrite Ek; split; congruence|done|]. unfold main_ok. cbn. auto.
  - intros [= <-]. destruct Hm as (H1 & H2 & H3). pose proof (proj1 Hh eq_refl) as Hmk. destruct (Z.eqb_spec (numUnjoined s) 0) as [E0|E0].
    + apply reaper_main_move; [done|intros i; rewrite Hmk; split; congruence|done|]. unfold main_ok. cbn. auto 6.
    + apply reaper_main_move; [done|done|done|]. unfold main_ok. cbn. auto.
  - destruct (threadMutex s) as [|] eqn:Ek; [done|]. intros [= <-]. apply reaper_main_move; [done|intros i; rewrite Ek; split; congruence|done|]. unfold main_ok. cbn. tauto.
  - destruct Hm as (H1 & H2 & _). destruct (threads s !! idx) as [t|] eqn:Hi; intros [= <-]; [|apply reaper_main_move; [done|done|done|]; unfold main_ok; cbn; auto].
    apply reaper_main_move; [done|done|by destruct (decide _)|]. unfold main_ok. cbn. destruct (decide (state_of t = TS_TERMINATED)) as [Et|Et]; cbn; [|auto]. split_and!; [done|done|by exists t].
  - destruct Hm as (H1 & H2 & t & Hi & Ht). rewrite Hi. cbn. destruct (decide (at_ t = Ended)) as [Ee|Ee]; [|done]. intros [= <-]. pose proof (ok_threads _ Hs idx t Hi) as [Ht1 _]. unfold holds in Ht1. rewrite Ee in Ht1.
    eapply reaper_move; [exact Hs|exact Hi|by split|done|done|unfold unjoined; rewrite Ht, Ee; cbn; lia|]. unfold main_ok. cbn [main threads numLive]. split; [|split; [|done]].
    + intros k v Hv. destruct (insert_cases _ idx _ _ k v Hi Hv) as [[-> ->]|[Hne Hv']]; [done|by eapply H1].
    + rewrite (zsum_insert _ _ _ _ _ Hi), <-H2. unfold live. rewrite Ht. cbn. lia.
  - destruct Hm as (H1 & H2 & _). pose proof (proj1 Hh eq_refl) as Hmk. intros [= <-]. apply reaper_main_move; [done|intros i; rewrite Hmk; split; congruence|done|]. unfold main_ok. cbn. auto.
Qed.

Lemma thread_progress s k t : ok s → threads s !! k = Some t → at_ t ≠ Unborn → at_ t ≠ Ended → (at_ t = Running → threadMutex s ≠ Some Main) → ∃ s', step s s'.
Proof.
  intros Hs Hk Hun He Hrun. assert (∀ i v, threads s !! i = Some v → holds v = true ∨ at_ v = Signalling → ∃ s', step s s') as Hgo.
  { intros i [st p] Hv Hp. unfold holds in Hp. cbn in Hp. destruct p; try (by destruct Hp); (eexists; apply (Step_thread _ _ i); unfold thread_step; rewrite Hv; reflexivity). }
  destruct (at_ t) eqn:Ep; try done; try (by apply (Hgo k t Hk); unfold holds; rewrite Ep; auto). destruct (threadMutex s) as [[|i]|] eqn:Em.
  - by destruct Hrun.
  - destruct (lookup_lt_is_Some_2 _ _ (ok_there _ Hs i Em)) as [v Hv]. apply (Hgo i v Hv). left. by apply (ok_threads _ Hs i v Hv).
  - eexists. apply (Step_thread _ _ k). unfold thread_step. rewrite Hk. cbn. rewrite Ep, Em. reflexivity.
Qed.

Lemma reaper_progress s : ok s → main s = Out ∨ ∃ s', step s s'.
Proof.
  intros Hs. pose proof (ok_main _ Hs) as Hm. pose proof (ok_holds _ Hs) as Hh. unfold main_ok in Hm. assert (∀ s', main_step s = Some s' → ∃ s', step s s') as Hgo by (intros s' H; exists s'; by apply Step_main).
  assert (∀ i, threadMutex s = Some (Child i) → ∃ s', step s s') as Hholder.
  { intros i Hi. destruct (lookup_lt_is_Some_2 _ _ (ok_there _ Hs i Hi)) as [v Hv]. pose proof (ok_threads _ Hs i v Hv) as [H1 _]. pose proof (proj2 H1 Hi) as Hin. unfold holds in Hin.
    eapply thread_progress; [exact Hs|exact Hv|..]; intros E; rewrite E in Hin; done. }
  unfold main_step in Hgo. destruct (main s) as [i| | | | | |idx|idx| |] eqn:Em; cbn in Hh; try (by left); right; try (by eapply Hgo).
  - destruct (threads s !! i); by eapply Hgo.
  - destruct (threadMutex s) as [[|i]|] eqn:Ek; [by discriminate (proj2 Hh eq_refl)|by eapply Hholder|by eapply Hgo].
  - destruct Hm as (H1 & H2 & H3 & H4). destruct (decide (Forall (λ t, at_ t = Ended) (threads s))) as [Hall|Hsome].
    + exfalso. rewrite Forall_lookup in Hall. destruct H4 as [H4|(k & t & Hk & Ht)]; [|specialize (Hall k t Hk); unfold told in Ht; by rewrite Hall in Ht].
      assert (zsum live (threads s) <= zsum unjoined (threads s)) as Hle; [|rewrite <-(ok_unjoined _ Hs), H4 in Hle; lia].
      apply zsum_mono, Forall_lookup. intros k t Hk. specialize (Hall k t Hk). destruct (ok_threads _ Hs k t Hk) as [_ H]. rewrite Hall in H. unfold live, unjoined. rewrite Hall. by destruct (state_of t).
    + apply (not_Forall_Exists (λ t, at_ t = Ended)) in Hsome. apply Exists_exists in Hsome as (t & Ht & Hp). apply list_elem_of_lookup in Ht as [k Hk].
      eapply thread_progress; [exact Hs|exact Hk|by eapply H1|exact Hp|]. intros _ Hc. by discriminate (proj2 Hh Hc).
  - destruct (threadMutex s) as [[|i]|] eqn:Ek; [by discriminate (proj2 Hh eq_refl)|by eapply Hholder|by eapply Hgo].
  - destruct (threads s !! idx); by eapply Hgo.
  - destruct Hm as (H1 & H2 & t & Hi & Ht). rewrite Hi in Hgo. cbn in Hgo. destruct (decide (at_ t = Ended)); [by eapply Hgo|].
    eapply thread_progress; [exact Hs|exact Hi|by eapply H1|done|]. intros Er. exfalso. destruct (ok_threads _ Hs idx t Hi) as [_ H]. rewrite Er in H. congruence.
Qed.

(** *** What is left to do *)

(** A thread that can be joined from here on in the scan. *)
Definition pending (idx : nat) (l : list thread) : bool := bool_decide (TS_TERMINATED ∈ drop idx (state_of <$> l)).

Definition size (s : state) : Z := Z.of_nat (length (threads s)).
Definition rank (n : Z) (t : thread) : Z :=
  match at_ t with Unborn => n + 10 | Running => n + 9 | Counting => n + 8 | Marking => n + 7 | Unlocking => n + 6 | Signalling => n + 5 | Ended => 0 end.
Definition main_rank (n : Z) (l : list thread) (m : main_place) : Z :=
  match m with
  | Creating _ => n + 10 | Testing => n + 5 | Locking => n + 4 | Check => n + 2 | Waiting => 0 | Woken => n + 3
  | Scanning idx => Z.of_nat (length l - idx) + if pending idx l then 1 else n + 7
  | Joining idx => Z.of_nat (length l - idx)
  | Releasing => n + 6 | Out => 0
  end.
Definition measure (s : state) : Z :=
  (2 * size s + 10) * zsum live (threads s) + main_rank (size s) (threads s) (main s) + zsum (rank (size s)) (threads s).

Lemma pending_same idx l k t t' : l !! k = Some t → state_of t' = state_of t → pending idx (<[k := t']> l) = pending idx l.
Proof.
  intros Hk Hst. unfold pending. rewrite list_fmap_insert, Hst, list_insert_id; [done|]. by rewrite list_lookup_fmap, Hk.
Qed.

Lemma pending_next idx l t : l !! idx = Some t → state_of t ≠ TS_TERMINATED → pending (S idx) l = pending idx l.
Proof.
  intros Hk Hst. unfold pending. rewrite (drop_S _ (state_of t) idx) by (by rewrite list_lookup_fmap, Hk). apply bool_decide_ext. rewrite elem_of_cons. split; [by right|intros [?|?]; congruence].
Qed.

Lemma thread_measure k s s' : ok s → thread_step k s = Some s' → measure s' < measure s.
Proof.
  intros Hs Hstep. unfold thread_step in Hstep. destruct (threads s !! k) as [[st p]|] eqn:Hk; [|done]. cbn in Hstep.
  pose proof (ok_threads _ Hs k _ Hk) as [Hh Hst]. unfold holds in Hh. cbn in Hh, Hst. pose proof (ok_holds _ Hs) as Hmh.
  assert (∀ t' h u m, live t' = live (Thread st p) →
    main_rank (size s) (<[k := t']> (threads s)) m + rank (size s) t' < main_rank (size s) (threads s) (main s) + rank (size s) (Thread st p) → measure (put k t' h u m s) < measure s) as H.
  { intros t' h u m Hl Hlt. unfold measure, put, size in *. cbn [threads main]. rewrite length_insert, !(zsum_insert _ _ _ _ _ Hk), Hl. lia. }
  assert (∀ t', main_holds (main s) = false ∨ state_of t' = st → main_rank (size s) (<[k := t']> (threads s)) (main s) = main_rank (size s) (threads s) (main s)) as Hsame.
  { intros t' Ht'. unfold main_rank. destruct (main s) as [i| | | | | |idx|idx| |]; try done; rewrite ?length_insert; [|done]. destruct Ht' as [?|Ht']; [done|]. by rewrite (pending_same _ _ _ _ _ Hk). }
  assert (main_holds (main s) = true → threadMutex s = Some Main) as Hm1 by apply Hmh.
  assert (p = Running ∨ p = Counting ∨ p = Marking ∨ p = Unlocking → threadMutex s ≠ Some Main → main_holds (main s) = false) as Hfree by (intros _ Hne; destruct (main_holds (main s)); [by destruct Hne; apply Hm1|done]).
  destruct p; try done.
  - destruct (threadMutex s) as [|] eqn:Em; [done|]. injection Hstep as <-. apply H; [done|]. rewrite Hsame by auto. unfold rank. cbn. lia.
  - injection Hstep as <-. apply H; [done|]. rewrite Hsame by auto. unfold rank. cbn. lia.
  - injection Hstep as <-. assert (threadMutex s = Some (Child k)) as Hmk by by apply Hh. apply H; [unfold live; cbn; by subst st|]. rewrite Hsame by (left; apply Hfree; [auto|congruence]). unfold rank. cbn. lia.
  - injection Hstep as <-. apply H; [done|]. rewrite Hsame by auto. unfold rank. cbn. lia.
  - injection Hstep as <-. apply H; [done|]. assert (0 <= size s) by (unfold size; lia). destruct (decide (main s = Waiting)) as [Ew|Ew].
    + rewrite Ew. unfold rank. cbn. lia.
    + assert ((match main s with Waiting => Woken | m => m end) = main s) as -> by by destruct (main s). rewrite Hsame by auto. unfold rank. cbn. lia.
Qed.

Lemma reaper_main_measure s s' : ok s → main_step s = Some s' → measure s' < measure s.
Proof.
  intros Hs. pose proof (ok_main _ Hs) as Hm. pose proof (ok_holds _ Hs) as Hh. unfold main_ok in Hm. unfold main_step. assert (0 <= size s) as Hsz by (unfold size; lia).
  assert (∀ m h, main_rank (size s) (threads s) m < main_rank (size s) (threads s) (main s) → measure (move m h s) < measure s) as H.
  { intros m h Hlt. unfold measure, move, size in *. cbn [threads main]. lia. }
  destruct (main s) as [i| | | | | |idx|idx| |] eqn:Em; cbn in Hh; try done.
  - destruct (threads s !! i) as [t|] eqn:Hi; intros [= <-].
    + destruct (Hm i t Hi) as (H1 & H2 & _). specialize (H2 ltac:(lia)). unfold measure, put, size in *. cbn [threads main main_rank]. rewrite Em, length_insert, !(zsum_insert _ _ _ _ _ Hi).
      assert (live (Thread TS_ALIVE Running) = live t) as -> by (unfold live; by destruct (state_of t)). unfold rank at 2 3. rewrite H2. cbn. lia.
    + unfold measure, size in *. cbn [threads main main_rank]. rewrite Em. cbn. lia.
  - intros [= <-]. apply H. destruct (_ <? _); cbn; lia.
  - destruct (threadMutex s); [done|]. intros [= <-]. apply H. cbn. lia.
  - intros [= <-]. pose proof (proj1 Hh eq_refl) as Hmk. destruct (Z.eqb_spec (numUnjoined s) 0) as [E0|E0]; apply H; cbn; [lia|].
    destruct (main_unjoined s Hs Hmk E0) as (k & t & Hk & Ht). unfold pending. rewrite drop_0, bool_decide_eq_true_2; [unfold size; lia|]. rewrite <-Ht. apply list_elem_of_fmap. exists t. split; [done|by eapply list_elem_of_lookup_2].
  - destruct (threadMutex s); [done|]. intros [= <-]. apply H. cbn. lia.
  - destruct (threads s !! idx) as [t|] eqn:Hi; intros [= <-]; apply H; cbn.
    + apply lookup_lt_Some in Hi as Hlt. destruct (decide (state_of t = TS_TERMINATED)) as [Et|Et]; cbn.
      * unfold pending. rewrite bool_decide_eq_true_2; [lia|]. rewrite (drop_S _ (state_of t) idx) by (by rewrite list_lookup_fmap, Hi). rewrite Et. by left.
      * rewrite (pending_next _ _ _ Hi Et). destruct (pending _ _); lia.
    + apply lookup_ge_None in Hi. unfold pending. rewrite bool_decide_eq_false_2; [lia|]. rewrite drop_ge by (rewrite length_fmap; lia). by apply not_elem_of_nil.
  - destruct Hm as (H1 & H2 & t & Hi & Ht). rewrite Hi. cbn. destruct (decide (at_ t = Ended)) as [Ee|Ee]; [|done]. intros [= <-]. apply lookup_lt_Some in Hi as Hlt.
    unfold measure, size in *. cbn [threads main]. rewrite Em, length_insert, !(zsum_insert _ _ _ _ _ Hi). unfold live at 2 3, rank at 2 3. rewrite Ht, Ee. cbn [state_of at_ main_rank]. rewrite length_insert.
    destruct (pending _ _); lia.
  - intros [= <-]. apply H. cbn. lia.
Qed.

(** thread_multijoin with any number of threads, under any schedule: main joins
    each thread once, after it has ended; main is never stuck, with a signal
    before or after it waits; every step brings the end nearer, and at the end
    all threads have been joined. *)
Theorem multijoin_correct n s :
  rtc step (start n) s →
  (main s = Out ∨ ∃ s', step s s') ∧ (∀ s', step s s' → measure s' < measure s) ∧ 0 <= measure s ∧
  (∀ k t, threads s !! k = Some t → state_of t = TS_JOINED → at_ t = Ended) ∧
  (main s = Out → Forall (λ t, state_of t = TS_JOINED) (threads s) ∧ numUnjoined s = 0).
Proof.
  intros Hr. assert (ok s) as Hs.
  { assert (∀ s1, ok s1 → rtc step s1 s → ok s) as H; [|by apply (H _ (reaper_start_ok n))]. clear Hr. intros s1 H1 Hr.
    induction Hr as [|s1 s2 s3 [k Hstep|Hstep] _ IH]; [done|apply IH; by eapply reaper_thread_ok|apply IH; by eapply reaper_main_ok]. }
  split; [by apply reaper_progress|]. split; [intros s' [k Hstep|Hstep]; [by eapply thread_measure|by apply reaper_main_measure]|]. split; [|split].
  - assert (0 <= size s) by (unfold size; lia). assert (0 <= zsum live (threads s)) by (apply zsum_nonneg, Forall_lookup; intros k t Hk; unfold live; by destruct (state_of t)).
    assert (0 <= zsum (rank (size s)) (threads s)) by (apply zsum_nonneg, Forall_lookup; intros k t Hk; unfold rank; destruct (at_ t); lia).
    assert (0 <= main_rank (size s) (threads s) (main s)) by (unfold main_rank; destruct (main s); try lia; destruct (pending _ _); lia). unfold measure. nia.
  - intros k t Hk Hj. destruct (ok_threads _ Hs k t Hk) as [_ H]. destruct (at_ t); congruence.
  - intros Eo. pose proof (ok_main _ Hs) as Hm. unfold main_ok in Hm. rewrite Eo in Hm. destruct Hm as (H1 & H2 & H3).
    assert (∀ k t, threads s !! k = Some t → state_of t = TS_JOINED) as Hall.
    { intros k t Hk. destruct (decide (state_of t = TS_JOINED)) as [|Hne]; [done|exfalso]. pose proof (zsum_part (λ _, 0) live (threads s) k t ltac:(apply Forall_lookup; intros i v Hv; unfold live; by destruct (state_of v)) Hk) as Hp.
      assert (zsum (λ _ : thread, 0) (threads s) = 0) as Hz by (clear; induction (threads s) as [|t l IH]; [done|exact IH]). rewrite Hz in Hp. unfold live at 1 in Hp. destruct (state_of t); [lia|lia|done]. }
    split; [by apply Forall_lookup|]. rewrite (ok_unjoined _ Hs). clear -Hs Hall. assert (∀ k t, threads s !! k = Some t → unjoined t = 0) as H0.
    { intros k t Hk. destruct (ok_threads _ Hs k t Hk) as [_ H]. pose proof (Hall k t Hk) as Hj. unfold unjoined. rewrite Hj. destruct (at_ t); (reflexivity || congruence). }
    clear -H0. induction (threads s) as [|t l IH]; [done|]. change (unjoined t + zsum unjoined l = 0). rewrite (H0 0%nat t eq_refl), IH; [done|]. intros k v Hk. by apply (H0 (S k)).
Qed.
End Reaper.

(** A schedule: a thread, or [None] for main. *)
Definition reaper_follow (sched : list (option nat)) (s : Reaper.state) : option Reaper.state :=
  foldl (λ s who, s ← s; match who with Some k => Reaper.thread_step k s | None => Reaper.main_step s end) (Some s) sched.

Lemma reaper_follow_reaches sched s s' : reaper_follow sched s = Some s' → rtc Reaper.step s s'.
Proof.
  revert s s'. induction sched as [|who sched IH] using rev_ind; intros s s'; unfold reaper_follow; [intros [= ->]; apply rtc_refl|].
  rewrite foldl_snoc. fold (reaper_follow sched s). destruct (reaper_follow sched s) as [s1|] eqn:E; [|done]. cbn. intros Hstep.
  eapply rtc_r; [by apply IH|]. destruct who; [by eapply Reaper.Step_thread|by apply Reaper.Step_main].
Qed.

(** Two threads, that end one after the other while main waits. *)
Definition reaper_schedule : list (option nat) :=
  replicate 6 None ++ replicate 5 (Some 1%nat) ++ replicate 10 None ++ replicate 5 (Some 0%nat) ++ replicate 8 None.

Lemma multijoin_witness :
  ∃ s, rtc Reaper.step (Reaper.start 2) s ∧ Reaper.main s = Reaper.Out ∧ Forall (λ t, Reaper.state_of t = Reaper.TS_JOINED) (Reaper.threads s) ∧ Reaper.numUnjoined s = 0.
Proof.
  destruct (reaper_follow reaper_schedule (Reaper.start 2)) as [s|] eqn:Hs; [|vm_compute in Hs; discriminate Hs]. pose proof (reaper_follow_reaches _ _ _ Hs) as Hr.
  assert (Reaper.main s = Reaper.Out) as Ho by (vm_compute in Hs; injection Hs as <-; reflexivity). exists s. split; [exact Hr|]. split; [exact Ho|].
  apply (Reaper.multijoin_correct 2 s Hr). exact Ho.
Defined.

(** ** quiz4 *)

Module Handoff.

Definition BUF_SIZE : nat := 1024.
Inductive reader_place := Reading | Posting | Read_done.
Inductive writer_place := Waiting | Writing | Write_done.

(** The buffer, the semaphore, what was written; [dead] after exit in a thread. *)
Record state := State { buf : cstr; sem_write : Z; reader : reader_place; writer : writer_place; written : option cstr; dead : bool }.

Section System.
(** What read(2) gives, at most BUF_SIZE bytes or a failure, and whether
    write(2) succeeds. *)
Context (input : option cstr) (write_ok : bool).

Definition reader_step (s : state) : option state :=
  if dead s then None else
  match reader s with
  | Reading =>
      Some match input with
           | Some bytes => State (take BUF_SIZE bytes) (sem_write s) Posting (writer s) (written s) false
           | None => State (buf s) (sem_write s) (reader s) (writer s) (written s) true
           end
  | Posting => Some (State (buf s) (sem_write s + 1) Read_done (writer s) (written s) false)
  | Read_done => None
  end.
Definition writer_step (s : state) : option state :=
  if dead s then None else
  match writer s with
  | Waiting => if 0 <? sem_write s then Some (State (buf s) (sem_write s - 1) (reader s) Writing (written s) false) else None
  | Writing =>
      Some (if write_ok then State (buf s) (sem_write s) (reader s) Write_done (Some (buf s)) false
            else State (buf s) (sem_write s) (reader s) (writer s) (written s) true)
  | Write_done => None
  end.
Inductive step (s s' : state) : Prop :=
  | Step_reader : reader_step s = Some s' → step s s'
  | Step_writer : writer_step s = Some s' → step s s'.

(** sem_open creates the semaphore at 0, or opens one that is there. *)
Definition start (value : Z) : state := State [] value Reading Waiting None false.

Record ok (s : state) : Prop := {
  ok_sem : sem_write s = match reader s, writer s with Read_done, Waiting => 1 | _, _ => 0 end;
  ok_order : writer s ≠ Waiting → reader s = Read_done;
  ok_buf : reader s ≠ Reading → Some (buf s) = take BUF_SIZE <$> input;
  ok_written : written s = match writer s with Write_done => Some (buf s) | _ => None end;
  ok_dead : dead s = true → input = None ∨ write_ok = false }.

Lemma handoff_step s s' : ok s → step s s' → ok s'.
Proof using.
  intros [H1 H2 H3 H4 H5] [Hs|Hs]; unfold reader_step, writer_step in Hs; destruct (dead s) eqn:Ed; try done; destruct s as [b v r w o d]; cbn in *; subst v o.
  - destruct r; [|injection Hs as <-|done].
    + destruct w; [|by specialize (H2 ltac:(done))..]. destruct input as [bytes|] eqn:Ei; injection Hs as <-; split; cbn; try done; [intros _; by rewrite Ei|intros _; by left].
    + destruct w; [|by specialize (H2 ltac:(done))..]. split; cbn; try done; intros _; by apply H3.
  - destruct w; [|injection Hs as <-|done].
    + destruct r; cbn in Hs; try done. injection Hs as <-. split; cbn; try done; intros _; by apply H3.
    + assert (r = Read_done) as -> by by apply H2. destruct write_ok eqn:Ew; split; cbn; try done. intros _; by right.
Qed.
End System.

(** With a semaphore that starts at 0, under any schedule: nothing is written but
    what was read, and when no thread can go on it has been written, unless read
    or write failed. *)
Theorem handoff_correct input write_ok s :
  rtc (step input write_ok) (start 0) s →
  (∀ text, written s = Some text → Some text = take BUF_SIZE <$> input) ∧
  ((∃ s', step input write_ok s s') ∨ written s = take BUF_SIZE <$> input ∧ is_Some input ∨ dead s = true ∧ (input = None ∨ write_ok = false)).
Proof.
  intros Hr. assert (ok input write_ok s) as [H1 H2 H3 H4 H5].
  { assert (∀ s1, ok input write_ok s1 → rtc (step input write_ok) s1 s → ok input write_ok s) as H; [|apply (H (start 0)); [by split|done]]. clear Hr. intros s1 H1 Hr.
    induction Hr as [|s1 s2 s3 Hstep _ IH]; [done|]. by apply IH, (handoff_step _ _ s1). }
  destruct s as [b v r w o d]. cbn in *. subst v o. split.
  - intros text. destruct w; [done|done|]. intros [= <-]. apply H3. by rewrite H2.
  - destruct d; [right; right; auto|]. destruct r; [left; eexists; by apply Step_reader|left; eexists; by apply Step_reader|]. destruct w.
    + left. eexists. apply Step_writer. reflexivity.
    + left. eexists. apply Step_writer. reflexivity.
    + right. left. rewrite <-H3 by done. split; [done|]. specialize (H3 ltac:(done)). destruct input; [by eexists|done].
Qed.

(** A semaphore left over from a run that was killed lets the writer go first:
    nothing is written. *)
Example leftover_semaphore :
  (s1 ← writer_step true (start 1); written <$> writer_step true s1) = Some (Some []).
Proof. reflexivity. Qed.
End Handoff.
