(* ===== verification/Queues.v ===== *)
(** The adding servers and their clients over message queues: System V
    (homework/hw8/46-2) and POSIX (homework/hw9/52-3). *)
From S2P Require Import Prelude Sys ErrorFns GetNum SvmsgFile Dict.

Definition MAX_TEXT : Z := 512.
Definition BUFSIZ : Z := 8192.
Definition QUEUE_NAME : cstr := str "/my_queue".
Definition KEY : Z := 1234.
Definition QUEUE_FLAGS : Z := 950.            (* 0666 | IPC_CREAT *)

Section Programs.
Context {S : Type} `{os}.

(** *** Clients.  [text] is the array of the message, as it was. *)

(** The array after strcpy. *)
Definition sysv_text (text content : cstr) : cstr := overlay (content ++ [NUL]) text.

Definition sysv_client_main (argv : list cstr) (text : cstr) : M S Z :=
  match argv with
  | [_; msgcontent] =>
      q ← sys (Cmsgget KEY QUEUE_FLAGS);
      if rv q =? -1 then (e ← get_errno; out Stderr (str "msgget failed error: " ++ dec e ++ [NL]);; stop_with (Exit 1)) else
      if MAX_TEXT <=? strlen msgcontent then stop_with (Undefined "array overrun") else
      s ← sys (Cmsgsnd (rv q) 1 (sysv_text text msgcontent));
      if rv s =? -1 then out Stderr (str "msgsnd failed" ++ [NL]);; stop_with (Exit 1) else
      stop_with (Exit 0)
  | _ => out Stderr (str "Usage: " ++ default [] (argv !! 0%nat) ++ str " INTEGER" ++ [NL]);; stop_with (Exit 1)
  end.

(** strncpy and the null character after it. *)
Definition posix_text (content : cstr) : cstr := take 511 content.

Definition posix_client_main (argv : list cstr) : M S Z :=
  match argv with
  | [_; msgcontent] =>
      mq ← sys (Cextern "mq_open" [65; 420] QUEUE_NAME);
      if rv mq =? -1 then perror_exit (str "mq_open") else
      s ← sys (Cextern "mq_send" [rv mq; 0] (posix_text msgcontent ++ [NUL]));
      if rv s =? -1 then perror (str "mq_send");; sys (Cextern "mq_close" [rv mq] []);; stop_with (Exit 1) else
      k ← sys (Cextern "mq_close" [rv mq] []);
      if rv k =? -1 then perror_exit (str "mq_close") else
      mret 0
  | _ => out Stderr (str "Usage: " ++ default [] (argv !! 0%nat) ++ str " <Message>" ++ [NL]);; stop_with (Exit 1)
  end.

(** *** Servers *)

Definition response (count : Z) : cstr := str "Response: " ++ dec count ++ [NL].
Definition is_end (text : cstr) : bool := has_prefix (str "end") text.

(** The rest of a turn, with the message in the array. *)
Definition answer_turn (count : Z) (text : cstr) : M S (Z * cstr + unit) :=
  out Stdout (response count);;
  mret (if is_end (c_str text) then inr tt else inl (wrap_s 32 (count + atoi (c_str text)), text)).

(** A message that could not be received is taken to be the one before. *)
Definition sysv_turn (msgid : Z) (x : Z * cstr) : M S (Z * cstr + unit) :=
  let '(count, text) := x in
  r ← sys (Cmsgrcv msgid BUFSIZ);
  e ← get_errno;
  when (rv r =? -1) (out Stderr (str "msgrcv failed width erro: " ++ dec e));;
  answer_turn count (if rv r =? -1 then text else overlay (take (Z.to_nat (rv r)) (drop 8 (rdata r))) text).

Definition sysv_server_main (fuel : nat) (text : cstr) : M S Z :=
  q ← sys (Cmsgget KEY QUEUE_FLAGS);
  if rv q =? -1 then (e ← get_errno; out Stderr (str "msgget failed width error: " ++ dec e ++ [NL]);; stop_with (Exit 1)) else
  loop fuel (sysv_turn (rv q)) (0, text);;
  k ← sys (Cmsgctl_rmid (rv q));
  when (rv k =? -1) (out Stderr (str "msgctl(IPC_RMID) failed" ++ [NL]));;
  stop_with (Exit 0).

Definition posix_turn (mq : Z) (x : Z * cstr) : M S (Z * cstr + unit) :=
  let '(count, text) := x in
  r ← sys (Cextern "mq_receive" [mq; BUFSIZ] []);
  if rv r =? -1 then (e ← get_errno; out Stderr (str "mq_receive failed with error: " ++ dec e ++ [NL]);; mret (inl (count, text))) else
  answer_turn count (overlay (data_of r) text).

Definition posix_server_main (fuel : nat) (text : cstr) : M S Z :=
  mq ← sys (Cextern "mq_open" [64; 420] QUEUE_NAME);
  if rv mq =? -1 then (e ← get_errno; out Stderr (str "mq_open failed with error: " ++ dec e ++ [NL]);; stop_with (Exit 1)) else
  loop fuel (posix_turn (rv mq)) (0, text);;
  k ← sys (Cextern "mq_close" [rv mq] []);
  when (rv k =? -1) (out Stderr (str "mq_close failed" ++ [NL]));;
  u ← sys (Cextern "mq_unlink" [] QUEUE_NAME);
  when (rv u =? -1) (out Stderr (str "mq_unlink failed" ++ [NL]));;
  stop_with (Exit 0).
End Programs.

(** ** Running sums *)

(** What the server answers to a sequence of messages. *)
Fixpoint responses (count : Z) (ws : list cstr) : cstr :=
  match ws with [] => [] | w :: ws => response count ++ responses (wrap_s 32 (count + atoi w)) ws end.

(** Words that fit, the last of which alone asks to end. *)
Definition conversation (ws : list cstr) : Prop :=
  ∃ ns e, ws = ns ++ [e] ∧ Forall (λ w, is_end w = false) ns ∧ is_end e = true ∧ Forall (λ w, (NUL ∉ w) ∧ (length w < 511)%nat) ws.

Definition is_receive (x : call * reply) : bool :=
  match x.1 with Cmsgrcv _ _ => true | Cextern "mq_receive" _ _ => true | _ => false end.
Definition received (tr : list event) : nat := length (filter (λ x, is_receive x = true) (calls tr)).

Lemma received_sys tr c r : received (tr ++ [Esys c r]) = (received tr + if is_receive (c, r) then 1 else 0)%nat.
Proof. unfold received. rewrite calls_snoc_sys, filter_app, length_app. cbn. by destruct (is_receive (c, r)). Qed.
Lemma received_out tr f t : received (tr ++ [Eout f t]) = received tr.
Proof. unfold received. by rewrite calls_snoc_out. Qed.

Section Specs.
Context {S : Type} `{os}.
Implicit Types s : st S.

(** A turn that takes the next word of the conversation. *)
Definition takes_next (turn : Z * cstr → M S (Z * cstr + unit)) (ws : list cstr) : Prop :=
  ∀ i w count text s, ws !! i = Some w → received (trace s) = i →
  wp (turn (count, text)) (λ r s', received (trace s') = Datatypes.S i ∧ said Stdout (trace s') = said Stdout (trace s) ++ response count ∧
    match r with inl (c, _) => is_end w = false ∧ c = wrap_s 32 (count + atoi w) | inr _ => is_end w = true end) (λ _ _, False) s.

Lemma wp_conversation turn ws fuel :
  takes_next turn ws → ∀ ns e i count text s, drop i ws = ns ++ [e] → Forall (λ w, is_end w = false) ns → is_end e = true → received (trace s) = i → (length ns < fuel)%nat →
  wp (loop fuel turn (count, text)) (λ _ s', said Stdout (trace s') = said Stdout (trace s) ++ responses count (ns ++ [e])) (λ _ _, False) s.
Proof using.
  intros Hturn. induction fuel as [|fuel IH]; intros ns e i count text s Hd Hns He Hi Hf; [lia|]. rewrite loop_S. apply wp_bind.
  assert (∃ w rest, drop i ws = w :: rest) as (w & rest & Hw) by (rewrite Hd; destruct ns; cbn; eauto).
  assert (ws !! i = Some w) as Hl by (rewrite <-(Nat.add_0_r i), <-lookup_drop, Hw; done).
  eapply wp_mono; [by apply (Hturn i w count text s)| |done]. intros r s1 (Hr & Hs & Hc). destruct ns as [|w' ns]; cbn [app] in Hd; rewrite Hw in Hd; injection Hd as -> Hrest.
  - destruct r as [[c t]|[]]; [destruct Hc; congruence|]. apply wp_ret. rewrite Hs. cbn. by rewrite app_nil_r.
  - apply Forall_cons in Hns as [Hw' Hns]. destruct r as [[c t]|[]]; [|congruence]. destruct Hc as [_ ->]. eapply wp_mono; [apply (IH ns e (Datatypes.S i) _ t s1)| |done].
    + rewrite <-Nat.add_1_r, <-drop_drop, Hw. cbn. by rewrite drop_0.
    + done.
    + done.
    + done.
    + cbn in Hf. lia.
    + intros [] s2 H2. rewrite H2, Hs, <-app_assoc. done.
Qed.
End Specs.

(** Both queues keep the messages in order, as their clients put them in. *)
Definition sysv_gives (ws : list cstr) (r : reply) (i : nat) : Prop :=
  ∀ w, ws !! i = Some w → ∃ mtype old, length mtype = 8%nat ∧ length old = 512%nat ∧ rv r = 512 ∧ rdata r = mtype ++ sysv_text old w.
Definition posix_gives (ws : list cstr) (r : reply) (i : nat) : Prop :=
  ∀ w, ws !! i = Some w → rv r = strlen w + 1 ∧ rdata r = posix_text w ++ [NUL].

Class Queue `{os} (ws : list cstr) := {
  sysv_receive : ∀ tr id, sysv_gives ws (kern tr (Cmsgrcv id BUFSIZ)) (received tr);
  posix_receive : ∀ tr mq, posix_gives ws (kern tr (Cextern "mq_receive" [mq; BUFSIZ] [])) (received tr) }.

Section Turns.
Context {S : Type} `{Queue}.
Implicit Types s : st S.

Lemma wp_response (w text : cstr) count s i s0 :
  c_str text = w → received (trace s) = i → said Stdout (trace s) = said Stdout (trace s0) →
  wp (answer_turn count text) (λ r s', received (trace s') = i ∧ said Stdout (trace s') = said Stdout (trace s0) ++ response count ∧
    match r with inl (c, _) => is_end w = false ∧ c = wrap_s 32 (count + atoi w) | inr _ => is_end w = true end) (λ _ _, False) s.
Proof using.
  intros Hw Hr Hs. unfold answer_turn. rewrite Hw. apply wp_bind, wp_emit, wp_ret. cbn [trace]. rewrite received_out, said_out, Hs. split; [done|]. split; [done|]. by destruct (is_end w).
Qed.

Lemma sysv_takes_next id : Forall (λ w, (NUL ∉ w) ∧ (length w < 511)%nat) ws → takes_next (S:=S) (sysv_turn id) ws.
Proof using All.
  intros Hws i w count text s Hi Hrec. rewrite Forall_lookup in Hws. destruct (Hws i w Hi) as [Hnul Hlen].
  unfold sysv_turn. apply wp_bind, wp_call. intros r s1 Hr _ _ _ T1. pose proof (sysv_receive (trace s) id) as Hg. rewrite <-Hr, Hrec in Hg. destruct (Hg w Hi) as (mtype & old & Ht & Ho & Hrv & Hd).
  apply wp_bind, wp_get_errno, wp_bind. rewrite Hrv, Hd. change (512 =? -1) with false. cbn [when]. apply wp_ret. cbv iota. rewrite drop_app_length' by done.
  eapply wp_mono; [apply (wp_response w _ count s1 (Datatypes.S i) s)| |done]; [|by rewrite T1, received_sys, Hrec, Nat.add_comm|by rewrite T1, said_sys|done].
  unfold sysv_text, overlay at 2. rewrite take_ge.
  2: { rewrite !length_app, length_drop, Ho. cbn. lia. }
  unfold overlay. rewrite <-!app_assoc. by apply c_str_text.
Qed.

Lemma posix_takes_next mq : Forall (λ w, (NUL ∉ w) ∧ (length w < 511)%nat) ws → takes_next (S:=S) (posix_turn mq) ws.
Proof using All.
  intros Hws i w count text s Hi Hrec. rewrite Forall_lookup in Hws. destruct (Hws i w Hi) as [Hnul Hlen].
  unfold posix_turn. apply wp_bind, wp_call. intros r s1 Hr _ _ _ T1. pose proof (posix_receive (trace s) mq) as Hg. rewrite <-Hr, Hrec in Hg. destruct (Hg w Hi) as [Hrv Hd].
  rewrite (proj2 (Z.eqb_neq (rv r) (-1))) by (unfold strlen in Hrv; lia).
  eapply wp_mono; [apply (wp_response w _ count s1 (Datatypes.S i) s)| |done]; [|by rewrite T1, received_sys, Hrec, Nat.add_comm|by rewrite T1, said_sys|done].
  unfold data_of, posix_text in *. rewrite Hd, (take_ge w) by lia. rewrite take_ge by (rewrite length_app; unfold strlen in Hrv; cbn; lia).
  unfold overlay. rewrite <-!app_assoc. by apply c_str_text.
Qed.
End Turns.

(** Both servers, on the words their clients sent, the last of which begins with
    "end": they answer each with the sum of those before it, and end. *)
Theorem servers_add {S} `{Queue} fuel text id (s : st S) :
  conversation ws → received (trace s) = 0%nat → (length ws <= fuel)%nat →
  wp (loop fuel (sysv_turn id) (0, text)) (λ _ s', said Stdout (trace s') = said Stdout (trace s) ++ responses 0 ws) (λ _ _, False) s ∧
  wp (loop fuel (posix_turn id) (0, text)) (λ _ s', said Stdout (trace s') = said Stdout (trace s) ++ responses 0 ws) (λ _ _, False) s.
Proof.
  intros (ns & e & Hws & Hns & He & Hall) Hr Hf.
  assert (length ns < fuel)%nat by (rewrite Hws, length_app in Hf; cbn in Hf; lia).
  assert (responses 0 ws = responses 0 (ns ++ [e])) as -> by (f_equal; exact Hws).
  split; (eapply (wp_conversation _ ws); [|by rewrite drop_0|done|done|done|done]).
  - by apply sysv_takes_next.
  - by apply posix_takes_next.
Qed.

(** The clients put their word into the queue so, or stop with failure. *)
Theorem clients_send {S} `{os} prog w text (s : st S) :
  strlen w < MAX_TEXT →
  wp (sysv_client_main [prog; w] text) (λ _ _, False)
    (λ t s', t = Exit 1 ∨ t = Exit 0 ∧ ∃ q r, rv r ≠ -1 ∧ acted s [(Cmsgget KEY QUEUE_FLAGS, q); (Cmsgsnd (rv q) 1 (sysv_text text w), r)] s') s ∧
  wp (posix_client_main [prog; w])
    (λ z s', z = 0 ∧ ∃ q r k, rv r ≠ -1 ∧ acted s [(Cextern "mq_open" [65; 420] QUEUE_NAME, q); (Cextern "mq_send" [rv q; 0] (posix_text w ++ [NUL]), r); (Cextern "mq_close" [rv q] [], k)] s')
    (λ t _, t = Exit 1) s.
Proof.
  intros Hw. split.
  - unfold sysv_client_main. apply wp_bind. eapply wp_act; [apply acted_refl|done|]. intros q s1 _ H1 _ _. destruct (rv q =? -1); [by apply wp_bind, wp_get_errno, wp_bind, wp_emit, wp_stop; left|].
    rewrite (proj2 (Z.leb_gt _ _)) by done. apply wp_bind. eapply wp_act; [exact H1|done|]. intros r s2 _ H2 _ _. destruct (Z.eqb_spec (rv r) (-1)); [by apply wp_bind, wp_emit, wp_stop; left|].
    apply wp_stop. right. split; [done|]. by exists q, r.
  - unfold posix_client_main. apply wp_bind. eapply wp_act; [apply acted_refl|done|]. intros q s1 _ H1 _ _.
    assert (∀ msg s2 (Q : Z → st S → Prop), wp (perror_exit msg) Q (λ t _, t = Exit 1) s2) as Hpe by (intros; by apply wp_bind, wp_bind, wp_get_errno, wp_emit, wp_stop).
    destruct (rv q =? -1); [apply Hpe|]. apply wp_bind. eapply wp_act; [exact H1|done|]. intros r s2 _ H2 _ _. destruct (Z.eqb_spec (rv r) (-1)).
    + apply wp_bind, wp_bind, wp_get_errno, wp_emit. apply wp_bind, wp_call. intros k s3 _ _ _ _ _. by apply wp_stop.
    + apply wp_bind. eapply wp_act; [exact H2|done|]. intros k s3 _ H3 _ _. destruct (rv k =? -1); [apply Hpe|]. apply wp_ret. split; [done|]. by exists q, r, k.
Qed.

(** ** A session *)

Definition session : list cstr := [str "10"; str "-3"; str "end"].
Definition queue_os (ws : list cstr) : os := test_os (λ tr c,
  let w := default [] (ws !! received tr) in
  match c with
  | Cmsgrcv _ _ => Reply 512 0 (replicate 8 NUL ++ sysv_text (replicate 512 NUL) w) []
  | Cextern "mq_receive" _ _ => Reply (strlen w + 1) 0 (posix_text w ++ [NUL]) []
  | _ => ok 0
  end).

Lemma session_Queue : @Queue (queue_os session) session.
Proof.
  split.
  - intros tr id w Hw. cbn [kern queue_os test_os]. rewrite Hw. exists (replicate 8 NUL), (replicate 512 NUL). done.
  - intros tr mq w Hw. cbn [kern queue_os test_os]. rewrite Hw. done.
Qed.

Lemma servers_add_witness :
  ∃ s', @loop unit _ unit 3 (@sysv_turn unit (queue_os session) 7) (0, []) (init tt) = (Ret tt, s') ∧
    said Stdout (trace s') = str "Response: 0" ++ [NL] ++ str "Response: 10" ++ [NL] ++ str "Response: 7" ++ [NL].
Proof.
  destruct (@servers_add unit (queue_os session) session session_Queue 3 [] 7 (init tt)) as [H _].
  - exists [str "10"; str "-3"], (str "end"). split; [reflexivity|]. split; [repeat constructor|]. split; [reflexivity|]. apply (bool_decide_unpack _). vm_compute. exact I.
  - reflexivity.
  - cbn. lia.
  - apply wp_run in H as [([] & s' & Hrun & Hs)|(t & s' & _ & [])]. exists s'. split; [exact Hrun|]. rewrite Hs. vm_compute. reflexivity.
Defined.

(** A failed msgrcv is answered like the message before it, which is added once
    more; the POSIX server tries again. *)
Example failure_added :
  let o := test_os (λ tr c, match c with Cmsgrcv _ _ => Reply (-1) 4 [] [] | _ => ok 0 end) in
  (@sysv_turn unit o 7 (10, str "5" ++ [NUL]) (init tt)).1 = Ret (inl (15, str "5" ++ [NUL])).
Proof. vm_compute. reflexivity. Qed.
