(* ===== verification/ProcFs.v ===== *)
(** homework/hw4: the processes of a user (4-1/userProcess.c) and those that
    have a file open (4-3/getAllProcess.c), from the directories under /proc. *)
From S2P Require Import Prelude Sys ErrorFns GetNum SvmsgFile Dict AclText Coprocess ProcTree.

Definition DT_LNK : Z := 10.
Definition ULONG_MAX : Z := 2 ^ 64 - 1.

(** sscanf (line, "label %u", ...) *)
Definition scan_unsigned (label line : cstr) : option Z :=
  if has_prefix label line then
    let '(neg, s) := take_sign (skip_spaces (drop (length label) line)) in
    let '(vs, _) := take_digits 10 s in
    match vs with
    | [] => None
    | _ => let n := digits_value 10 vs in Some (wrap_u 32 (if n >? ULONG_MAX then ULONG_MAX else if neg then - n else n))
    end
  else None.

(** An entry of /proc that is a process, by its name and type. *)
Definition is_process (e : cstr * Z) : bool := (e.2 =? DT_DIR) && negb (atoi e.1 =? 0).

Definition status_path (name : cstr) : cstr := snprintf 512 (str "/proc/" ++ name ++ str "/status").
Definition fd_path (name : cstr) : cstr := snprintf 512 (str "/proc/" ++ name ++ str "/fd").
Definition link_path (name fd : cstr) : cstr := snprintf 1024 (fd_path name ++ str "/" ++ fd).

Definition user_line (name command : cstr) : cstr := str "Process ID: " ++ name ++ str ", Command Name: " ++ command ++ [NL].
Definition fd_line (name fd target : cstr) : cstr := str "PID: " ++ name ++ str ", FD: " ++ fd ++ str ",  targetFile: " ++ target ++ [NL].

Section Programs.
Context {S : Type} `{os}.

(** while ((entry = readdir (dir)) != NULL): [body] tells whether to go on. *)
Definition entry_turn (dir : Z) (body : cstr * Z → M S bool) : M S (unit + unit) :=
  r ← sys (Cextern "readdir" [dir] []);
  match (if rv r =? -1 then None else head (rents r)) with
  | None => mret (inr tt)
  | Some entry => more ← body entry; mret (if (more : bool) then inl tt else inr tt)
  end.
Definition each_entry (fuel : nat) (dir : Z) (body : cstr * Z → M S bool) : M S unit := loop fuel (λ _, entry_turn dir body) tt.

(** *** userProcess.c *)

(** A line of a status file; [command] is the name read so far, less the
    character taken for its newline. *)
Definition user_turn (userId : Z) (name : cstr) (file : stream) (command : cstr) : M S (cstr + unit) :=
  r ← sys (Cfgets_from file 256);
  if rv r =? 0 then mret (inr tt) else
  let line := c_str (rdata r) in
  if match scan_unsigned (str "Uid:") line with Some uid => uid =? userId | None => false end then
    out Stdout (user_line name command);; mret (inr tt)
  else mret (inl match scan_word (str "Name:") line with Some w => take (length w - 1) w | None => command end).

Definition user_entry (fuel : nat) (userId : Z) (entry : cstr * Z) : M S bool :=
  if is_process entry then
    let statusPath := status_path entry.1 in
    f ← sys (Cfopen statusPath);
    if rv f =? -1 then mret true else
    loop fuel (user_turn userId entry.1 (Named statusPath)) [];;
    sys (Cfclose (Named statusPath));;
    mret true
  else mret true.

Definition user_process_main (fuel : nat) (argv : list cstr) : M S Z :=
  match argv with
  | [_; user] =>
      userId ← userIdFromName (Some user);
      dir ← sys (Cextern "opendir" [] (str "/proc"));
      if rv dir =? -1 then perror_exit (str "opendir") else
      each_entry fuel (rv dir) (user_entry fuel userId);;
      sys (Cextern "closedir" [rv dir] []);;
      mret 0
  | _ => out Stderr (str "Usage: " ++ default [] (argv !! 0%nat) ++ str " <username>" ++ [NL]);; stop_with (Exit 1)
  end.

(** *** getAllProcess.c *)

Definition fd_entry (name filePath : cstr) (entry : cstr * Z) : M S bool :=
  when (entry.2 =? DT_LNK) (
    t ← sys (Cextern "readlink" [511] (link_path name entry.1));
    if rv t =? -1 then mret tt else
    let targetPath := c_str (data_of t) in
    when (streq targetPath filePath) (out Stdout (fd_line name entry.1 targetPath)));;
  mret true.

Definition process_entry (fuel : nat) (filePath : cstr) (entry : cstr * Z) : M S bool :=
  if is_process entry then
    fdDir ← sys (Cextern "opendir" [] (fd_path entry.1));
    if rv fdDir =? -1 then perror (str "openfdDir");; mret false else
    each_entry fuel (rv fdDir) (fd_entry entry.1 filePath);;
    sys (Cextern "closedir" [rv fdDir] []);;
    mret true
  else mret true.

Definition inspectFD (fuel : nat) (filePath : cstr) : M S unit :=
  dir ← sys (Cextern "opendir" [] (str "/proc"));
  if rv dir =? -1 then perror_exit (str "opendir") else
  each_entry fuel (rv dir) (process_entry fuel filePath).

Definition get_all_main (fuel : nat) (argv : list cstr) : M S Z :=
  match argv with
  | [_; filePath] => inspectFD fuel filePath;; mret 0
  | _ => out Stderr (str "Usage: sudo " ++ default [] (argv !! 0%nat) ++ str " <PID>" ++ [NL]);; stop_with (Exit 1)
  end.
End Programs.

(** ** Directories and files as the programs see them *)

(** Where a directory stream is: its path and the entries it has given. *)
Definition dir_step (d : Z) (p : option (cstr * nat)) (x : call * reply) : option (cstr * nat) :=
  match x.1 with
  | Cextern "opendir" _ path => if rv x.2 =? d then Some (path, 0%nat) else p
  | Cextern "readdir" [d'] _ => if d' =? d then (λ '(path, n), (path, Datatypes.S n)) <$> p else p
  | Cextern "closedir" [d'] _ => if d' =? d then None else p
  | _ => p
  end.
Definition dir_at (d : Z) (tr : list event) : option (cstr * nat) := foldl (dir_step d) None (calls tr).

(** Where a stdio stream is: the pieces fgets has given. *)
Definition file_step (p : cstr) (n : option nat) (x : call * reply) : option nat :=
  match x.1 with
  | Cfopen q => if bool_decide (q = p) && negb (rv x.2 =? -1) then Some 0%nat else n
  | Cfgets_from (Named q) _ => if bool_decide (q = p) then Datatypes.S <$> n else n
  | Cfclose (Named q) => if bool_decide (q = p) then None else n
  | _ => n
  end.
Definition file_at (p : cstr) (tr : list event) : option nat := foldl (file_step p) None (calls tr).

(** [dir], [file] and [link] are what is under /proc: the entries of a
    directory, the lines of a file, which fit in any of the programs' arrays,
    the target of a symbolic link; [None] is what may not be read.  An open stream has a number of its
    own. *)
Class Tree `{os} (dir : cstr → option (list (cstr * Z))) (file : cstr → option (list cstr)) (link : cstr → option cstr) := {
  opendir_reply tr p : let r := kern tr (Cextern "opendir" [] p) in
    match dir p with None => rv r = -1 | Some _ => rv r ≠ -1 ∧ dir_at (rv r) tr = None end;
  readdir_reply tr d p n l : dir_at d tr = Some (p, n) → dir p = Some l →
    let r := kern tr (Cextern "readdir" [d] []) in
    match l !! n with Some e => rv r ≠ -1 ∧ head (rents r) = Some e | None => rv r = -1 end;
  fopen_reply tr p : rv (kern tr (Cfopen p)) = -1 ↔ file p = None;
  fgets_reply tr p n ls size : 256 <= size → file_at p tr = Some n → file p = Some ls →
    let r := kern tr (Cfgets_from (Named p) size) in
    match ls !! n with Some l => rv r ≠ 0 ∧ c_str (rdata r) = l | None => rv r = 0 end;
  readlink_reply tr p : let r := kern tr (Cextern "readlink" [511] p) in
    match link p with None => rv r = -1 | Some t => rv r ≠ -1 ∧ c_str (data_of r) = t end }.

Lemma dir_at_sys d tr c r : dir_at d (tr ++ [Esys c r]) = dir_step d (dir_at d tr) (c, r).
Proof. unfold dir_at. by rewrite calls_snoc_sys, foldl_app. Qed.
Lemma dir_at_out d tr f t : dir_at d (tr ++ [Eout f t]) = dir_at d tr.
Proof. unfold dir_at. by rewrite calls_snoc_out. Qed.
Lemma file_at_sys p tr c r : file_at p (tr ++ [Esys c r]) = file_step p (file_at p tr) (c, r).
Proof. unfold file_at. by rewrite calls_snoc_sys, foldl_app. Qed.
Lemma file_at_out p tr f t : file_at p (tr ++ [Eout f t]) = file_at p tr.
Proof. unfold file_at. by rewrite calls_snoc_out. Qed.

(** ** What the programs print *)

(** The lines of a status file: the name, lines of other kinds, the user, and
    what follows the number. *)
Record process := Process { p_name : cstr; p_before : list cstr; p_uid : Z; p_rest : cstr; p_after : list cstr }.
Definition status_lines (p : process) : list cstr :=
  (str "Name:" ++ TAB :: p_name p ++ [NL]) :: p_before p ++ (str "Uid:" ++ TAB :: dec (p_uid p) ++ TAB :: p_rest p) :: p_after p.
Definition other_line (l : cstr) : Prop := has_prefix (str "Uid:") l = false ∧ has_prefix (str "Name:") l = false.
Definition process_ok (p : process) : Prop :=
  p_name p ≠ [] ∧ Forall (λ c, isspace c = false) (p_name p) ∧ 0 <= p_uid p < 2 ^ 32 ∧ Forall other_line (p_before p) ∧ Forall other_line (p_after p).

Section Texts.
Context (dir : cstr → option (list (cstr * Z))) (procs : cstr → option process) (link : cstr → option cstr).

Definition user_text (userId : Z) (e : cstr * Z) : cstr :=
  if is_process e then
    match procs (status_path e.1) with
    | Some p => if p_uid p =? userId then user_line e.1 (take (length (p_name p) - 1) (p_name p)) else []
    | None => []
    end
  else [].

Definition fd_text (name filePath : cstr) (e : cstr * Z) : cstr :=
  if (e.2 =? DT_LNK) && bool_decide (link (link_path name e.1) = Some filePath) then fd_line name e.1 filePath else [].

(** The search ends at a process whose descriptors may not be read. *)
Fixpoint file_text (filePath : cstr) (es : list (cstr * Z)) : cstr :=
  match es with
  | [] => []
  | e :: es =>
      if is_process e then
        match dir (fd_path e.1) with
        | None => []
        | Some fds => concat (fd_text e.1 filePath <$> fds) ++ file_text filePath es
        end
      else file_text filePath es
  end.
End Texts.

(** ** Numbers and names in a status file *)

Lemma scan_unsigned_dec n rest : 0 <= n < 2 ^ 32 → scan_unsigned (str "Uid:") (str "Uid:" ++ TAB :: dec n ++ TAB :: rest) = Some n.
Proof.
  intros Hn. unfold scan_unsigned. rewrite (proj2 (has_prefix_spec _ _)) by by apply prefix_app_r. rewrite drop_app_length.
  unfold dec. rewrite (proj2 (Z.ltb_ge n 0)) by lia. destruct (dec_nat_digits n ltac:(lia)) as (d & ds & v & vs & -> & HF & Hv & Hsp & H45 & H43).
  cbn [app skip_spaces]. change (isspace TAB) with true. cbv iota. rewrite Hsp. cbn [take_sign]. rewrite (proj2 (Z.eqb_neq _ _) H45), (proj2 (Z.eqb_neq _ _) H43). cbv beta iota.
  change (d :: ds ++ TAB :: rest) with ((d :: ds) ++ TAB :: rest). rewrite (take_digits_app _ _ _ TAB rest HF eq_refl), Hv.
  destruct (Z.gtb_spec n ULONG_MAX) as [Hgt|_]; [unfold ULONG_MAX in Hgt; lia|]. unfold wrap_u. by rewrite Z.mod_small.
Qed.

Lemma scan_word_name w : w ≠ [] → Forall (λ c, isspace c = false) w → scan_word (str "Name:") (str "Name:" ++ TAB :: w ++ [NL]) = Some w.
Proof.
  intros Hne Hw. unfold scan_word. rewrite (proj2 (has_prefix_spec _ _)) by by apply prefix_app_r. rewrite drop_app_length. cbn [skip_spaces]. change (isspace TAB) with true. cbv iota.
  assert (skip_spaces (w ++ [NL]) = w ++ [NL]) as ->.
  { destruct w as [|c w]; [done|]. apply Forall_cons in Hw as [Hc _]. cbn. by rewrite Hc. }
  assert (∀ w, Forall (λ c, isspace c = false) w → token (w ++ [NL]) = w) as ->; [|by destruct w|done].
  clear. induction 1 as [|c w Hc _ IH]; [done|]. cbn. by rewrite Hc, IH.
Qed.

Lemma scan_other l : has_prefix (str "Uid:") l = false → scan_unsigned (str "Uid:") l = None.
Proof. unfold scan_unsigned. by intros ->. Qed.
Lemma word_other l : has_prefix (str "Name:") l = false → scan_word (str "Name:") l = None.
Proof. unfold scan_word. by intros ->. Qed.

(** ** Walking a directory *)

Section Walks.
Context {S : Type} `{Tree}.
Implicit Types s : st S.

(** What a walk prints when [goes] tells which entries it goes on after. *)
Fixpoint walk_text (text : cstr * Z → cstr) (goes : cstr * Z → bool) (es : list (cstr * Z)) : cstr :=
  match es with [] => [] | e :: es => text e ++ if goes e then walk_text text goes es else [] end.

(** [K] is what a walk of [d] keeps besides. *)
Lemma wp_each_entry (K : st S → Prop) text goes body p es d fuel :
  dir p = Some es → (length es < fuel)%nat →
  (∀ s s' r, K s → trace s' = trace s ++ [Esys (Cextern "readdir" [d] []) r] → K s') →
  (∀ e n s, e ∈ es → K s → dir_at d (trace s) = Some (p, n) →
     wp (body e) (λ more s', K s' ∧ dir_at d (trace s') = Some (p, n) ∧ more = goes e ∧ said Stdout (trace s') = said Stdout (trace s) ++ text e) (λ _ _, False) s) →
  ∀ s, K s → dir_at d (trace s) = Some (p, 0%nat) →
  wp (each_entry fuel d body) (λ _ s', K s' ∧ said Stdout (trace s') = said Stdout (trace s) ++ walk_text text goes es) (λ _ _, False) s.
Proof using H0.
  intros Hes Hfuel HK Hbody. unfold each_entry.
  enough (∀ fuel n s, K s → dir_at d (trace s) = Some (p, n) → (length es < n + fuel)%nat → (n <= length es)%nat →
    wp (loop fuel (λ _, entry_turn d body) tt) (λ _ s', K s' ∧ said Stdout (trace s') = said Stdout (trace s) ++ walk_text text goes (drop n es)) (λ _ _, False) s) as Hgen.
  { intros s Ks Hs. apply (Hgen fuel 0%nat s); [done|done|lia|lia]. }
  clear fuel Hfuel. intros fuel. induction fuel as [|fuel IH]; intros n s Ks Hs Hf Hn; [lia|]. rewrite loop_S. apply wp_bind. unfold entry_turn at 1. apply wp_bind, wp_call.
  intros r s1 Hr _ _ _ T1. pose proof (readdir_reply (trace s) d p n es Hs Hes) as Hreply. cbv zeta in Hreply. rewrite <-Hr in Hreply.
  assert (K s1) as K1 by (by eapply HK). assert (dir_at d (trace s1) = Some (p, Datatypes.S n)) as D1 by (rewrite T1, dir_at_sys, Hs; cbn; by rewrite Z.eqb_refl).
  destruct (es !! n) as [e|] eqn:En.
  - destruct Hreply as [Hrv Hhd]. rewrite (proj2 (Z.eqb_neq _ _) Hrv), Hhd. apply wp_bind. eapply wp_mono; [apply (Hbody e (Datatypes.S n) s1); [by eapply list_elem_of_lookup_2|done|done]| |done].
    intros more s2 (K2 & D2 & -> & S2). rewrite (drop_S _ _ _ En). cbn [walk_text]. apply wp_ret. apply lookup_lt_Some in En.
    assert (said Stdout (trace s2) = said Stdout (trace s) ++ text e) as S2' by (by rewrite S2, T1, said_sys).
    destruct (goes e); [|apply wp_ret; by rewrite app_nil_r]. eapply wp_mono; [apply (IH (Datatypes.S n) s2); [done|done|lia|lia]| |done]. intros _ s3 [K3 S3]. split; [done|]. by rewrite S3, S2', <-app_assoc.
  - rewrite Hreply. apply wp_ret, wp_ret. apply lookup_ge_None in En. rewrite drop_ge by done. split; [done|]. cbn. by rewrite T1, said_sys, app_nil_r.
Qed.
End Walks.

(** ** A status file *)

Definition names_user (userId : Z) (line : cstr) : bool :=
  match scan_unsigned (str "Uid:") line with Some uid => uid =? userId | None => false end.
Definition next_command (command line : cstr) : cstr :=
  match scan_word (str "Name:") line with Some w => take (length w - 1) w | None => command end.
Fixpoint lines_text (userId : Z) (name command : cstr) (ls : list cstr) : cstr :=
  match ls with
  | [] => []
  | l :: ls => if names_user userId l then user_line name command else lines_text userId name (next_command command l) ls
  end.

Lemma lines_text_others userId name command ls rest : Forall other_line ls → lines_text userId name command (ls ++ rest) = lines_text userId name command rest.
Proof. induction 1 as [|l ls [Hu Hn] _ IH]; [done|]. cbn [app lines_text]. unfold names_user, next_command. by rewrite scan_other, word_other. Qed.

Lemma status_text p userId name : process_ok p →
  lines_text userId name [] (status_lines p) = if p_uid p =? userId then user_line name (take (length (p_name p) - 1) (p_name p)) else [].
Proof.
  intros (Hne & Hw & Hu & Hb & Ha). unfold status_lines. cbn [lines_text]. unfold names_user at 1, next_command at 1. rewrite scan_other by done. cbv iota.
  rewrite scan_word_name by done. rewrite lines_text_others by done. cbn [lines_text]. unfold names_user at 1. rewrite scan_unsigned_dec by done.
  destruct (p_uid p =? userId); [done|]. rewrite <-(app_nil_r (p_after p)), lines_text_others by done. done.
Qed.

Section Users.
Context {S : Type} `{Tree}.
Implicit Types s : st S.

Lemma wp_user_lines userId name path ls fuel : file path = Some ls → ∀ n command s, file_at path (trace s) = Some n → (n <= length ls)%nat → (length ls < n + fuel)%nat →
  wp (loop fuel (user_turn userId name (Named path)) command)
    (λ _ s', (∀ d, dir_at d (trace s') = dir_at d (trace s)) ∧ said Stdout (trace s') = said Stdout (trace s) ++ lines_text userId name command (drop n ls)) (λ _ _, False) s.
Proof using H0.
  intros Hls. induction fuel as [|fuel IH]; intros n command s Hs Hn Hf; [lia|]. rewrite loop_S. apply wp_bind. unfold user_turn at 1. apply wp_bind, wp_call.
  intros r s1 Hr _ _ _ T1. pose proof (fgets_reply (trace s) path n ls 256 ltac:(lia) Hs Hls) as Hreply. cbv zeta in Hreply. rewrite <-Hr in Hreply.
  assert (∀ d, dir_at d (trace s1) = dir_at d (trace s)) as D1 by (intros d; by rewrite T1, dir_at_sys).
  destruct (ls !! n) as [l|] eqn:En.
  - destruct Hreply as [Hrv Hl]. rewrite (proj2 (Z.eqb_neq _ _) Hrv), Hl. cbv zeta. rewrite (drop_S _ _ _ En). cbn [lines_text]. fold (names_user userId l) (next_command command l). apply lookup_lt_Some in En.
    destruct (names_user userId l).
    + apply wp_bind, wp_emit, wp_ret, wp_ret. cbn [trace]. split; [intros d; by rewrite dir_at_out|]. by rewrite said_out, T1, said_sys.
    + apply wp_ret. eapply wp_mono; [apply (IH (Datatypes.S n) (next_command command l) s1); [|lia|lia]| |done].
      * rewrite T1, file_at_sys, Hs. cbn. by rewrite bool_decide_eq_true_2.
      * intros _ s2 [D2 S2]. split; [intros d; by rewrite D2|]. by rewrite S2, T1, said_sys.
  - rewrite Hreply. apply wp_ret, wp_ret. apply lookup_ge_None in En. rewrite drop_ge by done. split; [done|]. cbn. by rewrite T1, said_sys, app_nil_r.
Qed.

(** A status file may be read when its process is there. *)
Context (procs : cstr → option process) (Hfile : ∀ path, file path = status_lines <$> procs path) (Hprocs : ∀ path p, procs path = Some p → process_ok p).

Lemma wp_user_entry fuel userId e d s :
  (∀ path p, procs path = Some p → length (p_before p) + length (p_after p) + 2 < fuel)%nat →
  wp (user_entry fuel userId e)
    (λ more s', dir_at d (trace s') = dir_at d (trace s) ∧ more = true ∧ said Stdout (trace s') = said Stdout (trace s) ++ user_text procs userId e) (λ _ _, False) s.
Proof using All.
  intros Hfuel. unfold user_entry, user_text. destruct (is_process e); [|apply wp_ret; by rewrite app_nil_r]. cbv zeta. set (path := status_path e.1).
  apply wp_bind, wp_call. intros r s1 Hr _ _ _ T1. pose proof (fopen_reply (trace s) path) as Hopen. rewrite <-Hr, Hfile in Hopen.
  assert (dir_at d (trace s1) = dir_at d (trace s)) as D1 by by rewrite T1, dir_at_sys.
  destruct (procs path) as [p|] eqn:Ep; cbn in Hopen.
  - assert (rv r ≠ -1) as Hrv by (intros E; by apply Hopen in E). rewrite (proj2 (Z.eqb_neq _ _) Hrv). apply wp_bind.
    assert (file path = Some (status_lines p)) as Hls by (rewrite Hfile, Ep; done).
    eapply wp_mono; [apply (wp_user_lines userId e.1 path _ fuel Hls 0%nat [] s1)| |done].
    + rewrite T1, file_at_sys. cbn. rewrite bool_decide_eq_true_2 by done. by rewrite (proj2 (Z.eqb_neq _ _) Hrv).
    + lia.
    + specialize (Hfuel _ _ Ep). unfold status_lines. cbn [length]. rewrite length_app. cbn [length]. lia.
    + intros _ s2 [D2 S2]. apply wp_bind, wp_call. intros k s3 _ _ _ _ T3. apply wp_ret. rewrite drop_0, (status_text p) in S2 by by eapply Hprocs.
      split; [by rewrite T3, dir_at_sys, D2|]. split; [done|]. by rewrite T3, said_sys, S2, T1, said_sys.
  - rewrite (proj2 Hopen eq_refl). apply wp_ret. split; [done|]. split; [done|]. by rewrite T1, said_sys, app_nil_r.
Qed.
End Users.

(** userProcess prints, for every process under /proc that belongs to the user
    and whose status it may read, in order, its number and the name in its
    status file without its last letter. *)
Theorem user_process_correct {S} `{Tree} procs prog user userId es fuel (s : st S) :
  (∀ path, file path = status_lines <$> procs path) → (∀ path p, procs path = Some p → process_ok p ∧ (length (p_before p) + length (p_after p) + 2 < fuel)%nat) →
  dir (str "/proc") = Some es → (length es < fuel)%nat → (userIdFromName (Some user) s).1 = Ret userId →
  wp (user_process_main fuel [prog; user]) (λ z s', z = 0 ∧ said Stdout (trace s') = said Stdout (trace s) ++ concat (user_text procs userId <$> es)) (λ _ _, False) s.
Proof.
  intros Hfile Hprocs Hes Hf Huser. unfold user_process_main. apply wp_bind.
  assert (wp (userIdFromName (Some user)) (λ u s', u = userId ∧ said Stdout (trace s') = said Stdout (trace s)) (λ _ _, False) s) as Hid.
  { enough (wp (userIdFromName (Some user)) (λ _ s', said Stdout (trace s') = said Stdout (trace s)) (λ _ _, False) s) as Hsaid.
    { unfold wp in *. destruct (userIdFromName (Some user) s) as [[u|t|] s']; [|done..]. cbn in Huser. injection Huser as ->. done. }
    unfold userIdFromName, id_from_name. destruct user as [|c user]; [by apply wp_ret|]. destruct (strtol _ 10) as [[u rest] err]. apply wp_bind.
    assert (∀ s1 : st S, said Stdout (trace s1) = said Stdout (trace s) → wp (if streq rest [] then mret (wrap_u 32 u) else
        pwd ← sys (Cextern "getpwnam" [] (c :: user)); mret (if rv pwd =? -1 then NO_ID else wrap_u 32 (le (rdata pwd)))) (λ _ s', said Stdout (trace s') = said Stdout (trace s)) (λ _ _, False) s1) as Hrest.
    { intros s1 H1. destruct (streq rest []); [by apply wp_ret|]. apply wp_bind, wp_call. intros r s2 _ _ _ _ T2. apply wp_ret. by rewrite T2, said_sys. }
    destruct (negb _); cbn [when]; [by apply wp_set_errno, Hrest|by apply wp_ret, Hrest]. }
  eapply wp_mono; [exact Hid| |done]. intros u s1 [-> S1]. apply wp_bind, wp_call. intros r s2 Hr _ _ _ T2. pose proof (opendir_reply (trace s1) (str "/proc")) as Hopen. cbv zeta in Hopen. rewrite <-Hr, Hes in Hopen. destruct Hopen as [Hrv _].
  rewrite (proj2 (Z.eqb_neq _ _) Hrv). apply wp_bind. eapply wp_mono; [apply (wp_each_entry (λ _, True) (user_text procs userId) (λ _, true) _ (str "/proc") es (rv r) fuel Hes Hf); [done| |done|]| |done].
  - intros e n s3 _ _ D3. eapply wp_mono; [apply (wp_user_entry procs Hfile (λ p q Hq, proj1 (Hprocs p q Hq)) fuel userId e (rv r)); intros p q Hq; by apply (Hprocs p q)| |done].
    intros more s4 (D4 & -> & S4). by rewrite D4.
  - rewrite T2, dir_at_sys. cbn. by rewrite Z.eqb_refl.
  - intros _ s3 [_ S3]. apply wp_bind, wp_call. intros k s4 _ _ _ _ T4. apply wp_ret. split; [done|]. rewrite T4, said_sys, S3, T2, said_sys, S1. f_equal.
    clear. induction es as [|e es IH]; [done|]. cbn. by rewrite IH.
Qed.

Section Descriptors.
Context {S : Type} `{Tree}.
Implicit Types s : st S.

Lemma walk_text_true text es : walk_text text (λ _, true) es = concat (text <$> es).
Proof. induction es as [|e es IH]; [done|]. cbn. by rewrite IH. Qed.

Lemma wp_fd_entry name filePath e s :
  wp (fd_entry name filePath e)
    (λ more s', (∀ d, dir_at d (trace s') = dir_at d (trace s)) ∧ more = true ∧ said Stdout (trace s') = said Stdout (trace s) ++ fd_text link name filePath e) (λ _ _, False) s.
Proof using H0.
  unfold fd_entry, fd_text. destruct (e.2 =? DT_LNK); cbn [when andb]; [|apply wp_bind, wp_ret, wp_ret; by rewrite app_nil_r].
  apply wp_bind, wp_bind, wp_call. intros r s1 Hr _ _ _ T1. pose proof (readlink_reply (trace s) (link_path name e.1)) as Hlink. cbv zeta in Hlink. rewrite <-Hr in Hlink.
  assert (∀ d, dir_at d (trace s1) = dir_at d (trace s)) as D1 by (intros d; by rewrite T1, dir_at_sys).
  assert (said Stdout (trace s1) = said Stdout (trace s)) as S1 by by rewrite T1, said_sys.
  destruct (link _) as [t|]; [|rewrite Hlink; apply wp_ret, wp_ret; by rewrite app_nil_r]. destruct Hlink as [Hrv Ht]. rewrite (proj2 (Z.eqb_neq _ _) Hrv), Ht. cbv zeta.
  destruct (streq t filePath) eqn:Et; cbn [when].
  - apply streq_true in Et as ->. apply wp_emit, wp_ret. cbn [trace]. split; [intros d; by rewrite dir_at_out|]. split; [done|]. rewrite said_out, S1. by rewrite bool_decide_eq_true_2.
  - apply streq_false in Et. apply wp_ret, wp_ret. rewrite bool_decide_eq_false_2 by congruence. by rewrite app_nil_r.
Qed.

Definition may_go_on (e : cstr * Z) : bool := negb (is_process e) || bool_decide (is_Some (dir (fd_path e.1))).
Definition process_text (filePath : cstr) (e : cstr * Z) : cstr :=
  if is_process e then concat (fd_text link e.1 filePath <$> default [] (dir (fd_path e.1))) else [].

Lemma process_texts filePath es : walk_text (process_text filePath) may_go_on es = file_text dir link filePath es.
Proof.
  induction es as [|e es IH]; [done|]. cbn [walk_text file_text]. unfold process_text at 1, may_go_on at 1. rewrite IH. destruct (is_process e); [|done].
  destruct (dir (fd_path e.1)); [done|]. done.
Qed.

Lemma wp_process_entry fuel filePath e d p n s :
  (∀ fds, dir (fd_path e.1) = Some fds → length fds < fuel)%nat → d ≠ -1 → dir_at d (trace s) = Some (p, n) →
  wp (process_entry fuel filePath e)
    (λ more s', dir_at d (trace s') = Some (p, n) ∧ more = may_go_on e ∧ said Stdout (trace s') = said Stdout (trace s) ++ process_text filePath e) (λ _ _, False) s.
Proof using H0.
  intros Hfuel Hd1 Hd. unfold process_entry, process_text, may_go_on. destruct (is_process e); cbn [negb orb]; [|apply wp_ret; by rewrite app_nil_r].
  apply wp_bind, wp_call. intros r s1 Hr _ _ _ T1. pose proof (opendir_reply (trace s) (fd_path e.1)) as Hopen. cbv zeta in Hopen. rewrite <-Hr in Hopen.
  destruct (dir (fd_path e.1)) as [fds|] eqn:Efds.
  - destruct Hopen as [Hrv Hfree]. rewrite (proj2 (Z.eqb_neq _ _) Hrv). assert (rv r ≠ d) as Hne by (intros E; rewrite E in Hfree; congruence). specialize (Hfuel fds eq_refl).
    apply wp_bind. eapply wp_mono; [apply (wp_each_entry (λ s', dir_at d (trace s') = Some (p, n)) (fd_text link e.1 filePath) (λ _, true) _ (fd_path e.1) fds (rv r) fuel Efds Hfuel)| |done].
    + intros s2 s3 r' D2 ->. rewrite dir_at_sys, D2. cbn. by rewrite (proj2 (Z.eqb_neq _ _) Hne).
    + intros fd k s2 _ D2 D2'. eapply wp_mono; [apply (wp_fd_entry e.1 filePath fd s2)| |done]. intros more s3 (D3 & -> & S3). by rewrite !D3.
    + rewrite T1, dir_at_sys, Hd. cbn. by rewrite (proj2 (Z.eqb_neq _ _) Hne).
    + rewrite T1, dir_at_sys. cbn. by rewrite Z.eqb_refl.
    + intros _ s2 [D2 S2]. apply wp_bind, wp_call. intros k s3 _ _ _ _ T3. apply wp_ret. rewrite T3, dir_at_sys, D2, said_sys, S2, walk_text_true, T1, said_sys. cbn.
      by rewrite (proj2 (Z.eqb_neq _ _) Hne).
  - rewrite Hopen. change (-1 =? -1) with true. cbv iota. apply wp_bind, wp_bind, wp_get_errno, wp_emit, wp_ret. cbn [trace]. rewrite dir_at_out, said_app, T1, dir_at_sys, Hd, said_sys. cbn.
    rewrite Hopen, (proj2 (Z.eqb_neq (-1) d)) by congruence. by rewrite !app_nil_r.
Qed.
End Descriptors.

(** getAllProcess prints, in order, every descriptor under /proc that is a link
    to the path, until the first process whose descriptors it may not read:
    there the search ends. *)
Theorem get_all_correct {S} `{Tree} prog filePath es fuel (s : st S) :
  dir (str "/proc") = Some es → (∀ p fds, dir p = Some fds → length fds < fuel)%nat →
  wp (get_all_main fuel [prog; filePath]) (λ z s', z = 0 ∧ said Stdout (trace s') = said Stdout (trace s) ++ file_text dir link filePath es) (λ _ _, False) s.
Proof.
  intros Hes Hfuel. unfold get_all_main, inspectFD. apply wp_bind, wp_bind, wp_call. intros r s1 Hr _ _ _ T1. pose proof (opendir_reply (trace s) (str "/proc")) as Hopen. cbv zeta in Hopen.
  rewrite <-Hr, Hes in Hopen. destruct Hopen as [Hrv _]. rewrite (proj2 (Z.eqb_neq _ _) Hrv).
  eapply wp_mono; [apply (wp_each_entry (λ _, True) (process_text (dir:=dir) (link:=link) filePath) (may_go_on (dir:=dir)) _ (str "/proc") es (rv r) fuel Hes (Hfuel _ _ Hes)); [done| |done|]| |done].
  - intros e n s2 _ _ D2. eapply wp_mono; [apply (wp_process_entry fuel filePath e (rv r) _ n s2 (Hfuel _) Hrv D2)| |done]. tauto.
  - rewrite T1, dir_at_sys. cbn. by rewrite Z.eqb_refl.
  - intros _ s2 [_ S2]. apply wp_ret. split; [done|]. by rewrite S2, process_texts, T1, said_sys.
Qed.

(** ** A system *)

(** Two processes of two users, one of which has its descriptors closed to
    others. *)
Definition small_dir (p : cstr) : option (list (cstr * Z)) :=
  if streq p (str "/proc") then Some [(str "1", 4); (str "self", 10); (str "20", 4); (str "net", 4)]
  else if streq p (str "/proc/1/fd") then Some [(str ".", 4); (str "0", 10); (str "3", 10)]
  else None.
Definition small_procs (p : cstr) : option process :=
  if streq p (str "/proc/1/status") then Some (Process (str "init") [str "State: S" ++ [NL]] 0 (str "0" ++ [NL]) [])
  else if streq p (str "/proc/20/status") then Some (Process (str "bash") [] 1000 [NL] [str "Gid:" ++ [NL]])
  else None.
Definition small_link (p : cstr) : option cstr := if streq p (str "/proc/1/fd/3") then Some (str "/var/log") else None.

(** A number no directory stream has had. *)
Definition fresh (tr : list event) : Z := 1 + zsum (λ x, Z.abs (rv x.2)) (calls tr).

Definition tree_os (dir : cstr → option (list (cstr * Z))) (file : cstr → option (list cstr)) (link : cstr → option cstr) : os := test_os (λ tr c,
  match c with
  | Cextern "opendir" _ p => match dir p with None => fail EACCES | Some _ => ok (fresh tr) end
  | Cextern "readdir" [d] _ =>
      match '(p, n) ← dir_at d tr; l ← dir p; l !! n with Some e => Reply 0 0 [] [e] | None => fail 0 end
  | Cfopen p => match file p with None => fail EACCES | Some _ => ok 0 end
  | Cfgets_from (Named p) _ => match n ← file_at p tr; ls ← file p; ls !! n with Some l => Reply 1 0 l [] | None => ok 0 end
  | Cextern "readlink" _ p => match link p with None => fail EINVAL | Some t => Reply (strlen t) 0 t [] end
  | _ => ok 0
  end).

Lemma zsum_snoc {A} (f : A → Z) l a : zsum f (l ++ [a]) = zsum f l + f a.
Proof. unfold zsum. induction l as [|b l IH]; cbn [app foldr]; [lia|]. rewrite IH. lia. Qed.

Lemma dir_at_old d tr : dir_at d tr ≠ None → Z.abs d < fresh tr.
Proof.
  unfold dir_at, fresh. induction (calls tr) as [|[c r] l IH] using rev_ind; [done|]. rewrite foldl_app, zsum_snoc. cbn [foldl snd]. intros Hd.
  set (x := foldl (dir_step d) None l) in *. assert (x ≠ None ∨ rv r = d) as [Hx|Hx].
  { unfold dir_step in Hd. cbn in Hd. destruct x as [x|]; [by left|right]. repeat case_match; simplify_eq; try done; lia. }
  - specialize (IH Hx). lia.
  - assert (0 <= zsum (λ x : call * reply, Z.abs (rv x.2)) l) by (unfold zsum; clear; induction l; cbn; lia). lia.
Qed.

Lemma tree_os_Tree dir file link : (∀ p ls, file p = Some ls → Forall (λ l, NUL ∉ l) ls) → (∀ p t, link p = Some t → NUL ∉ t) → @Tree (tree_os dir file link) dir file link.
Proof.
  intros Hfile Hlink. split; intros tr.
  - intros p. cbn. destruct (dir p); [|done]. cbn. pose proof (dir_at_old (fresh tr) tr) as Hold. assert (1 <= fresh tr) by (unfold fresh; assert (0 <= zsum (λ x : call * reply, Z.abs (rv x.2)) (calls tr)) by (unfold zsum; clear; induction (calls tr); cbn; lia); lia).
    split; [lia|]. destruct (dir_at (fresh tr) tr); [|done]. exfalso. lapply Hold; [lia|done].
  - intros d p n l Hd Hl. cbn. rewrite Hd. cbn. rewrite Hl. cbn. by destruct (l !! n).
  - intros p. cbn. by destruct (file p).
  - intros p n ls size _ Hn Hls. cbn. rewrite Hn. cbn. rewrite Hls. cbn. destruct (ls !! n) as [l|] eqn:El; [|done]. cbn. split; [done|]. apply c_str_id. specialize (Hfile p ls Hls). rewrite Forall_lookup in Hfile. by eapply Hfile.
  - intros p. cbn. destruct (link p) as [t|] eqn:Et; [|done]. cbn. split; [unfold strlen; lia|]. unfold data_of. cbn. rewrite take_ge by (unfold strlen; lia). apply c_str_id. by eapply Hlink.
Qed.

Definition small_file (p : cstr) : option (list cstr) := status_lines <$> small_procs p.
Definition small_os : os := tree_os small_dir small_file small_link.

Lemma small_Tree : @Tree small_os small_dir small_file small_link.
Proof.
  apply tree_os_Tree.
  - intros p ls. unfold small_file, small_procs. repeat case_match; intros E; cbn in E; simplify_eq; apply (bool_decide_unpack _); vm_compute; exact I.
  - intros p t. unfold small_link. case_match; intros E; simplify_eq. apply (bool_decide_unpack _). vm_compute. exact I.
Qed.

Lemma small_procs_ok p q : small_procs p = Some q → process_ok q ∧ (length (p_before q) + length (p_after q) + 2 < 5)%nat.
Proof.
  unfold small_procs. repeat case_match; intros E; simplify_eq; (split; [|cbn; lia]);
    (split; [done|]; split; [apply (bool_decide_unpack _); vm_compute; exact I|]; split; [cbn; lia|]; split; repeat constructor).
Qed.

(** The shell of the user appears as "bas": the character taken for a newline was
    its last letter. *)
Lemma user_process_witness :
  ∃ s', @user_process_main unit small_os 5 [str "up"; str "1000"] (init tt) = (Ret 0, s') ∧
    said Stdout (trace s') = str "Process ID: 20, Command Name: bas" ++ [NL].
Proof.
  pose proof (@user_process_correct unit small_os small_dir small_file small_link small_Tree small_procs (str "up") (str "1000") 1000
    [(str "1", 4); (str "self", 10); (str "20", 4); (str "net", 4)] 5 (init tt) (λ _, eq_refl) small_procs_ok eq_refl ltac:(cbn; lia) ltac:(vm_compute; reflexivity)) as H.
  apply wp_run in H as [(z & s' & Hrun & -> & Hs)|(t & s' & _ & [])]. exists s'. split; [exact Hrun|]. rewrite Hs. vm_compute. reflexivity.
Defined.

Lemma get_all_witness :
  ∃ s', @get_all_main unit small_os 5 [str "ga"; str "/var/log"] (init tt) = (Ret 0, s') ∧
    said Stdout (trace s') = str "PID: 1, FD: 3,  targetFile: /var/log" ++ [NL].
Proof.
  assert (∀ p fds, small_dir p = Some fds → (length fds < 5)%nat) as Hlen by (intros p fds; unfold small_dir; repeat case_match; intros E; simplify_eq; cbn; lia).
  pose proof (@get_all_correct unit small_os small_dir small_file small_link small_Tree (str "ga") (str "/var/log")
    [(str "1", 4); (str "self", 10); (str "20", 4); (str "net", 4)] 5 (init tt) eq_refl Hlen) as H.
  apply wp_run in H as [(z & s' & Hrun & -> & Hs)|(t & s' & _ & [])]. exists s'. split; [exact Hrun|]. rewrite Hs. vm_compute. reflexivity.
Defined.

(** What an ordinary user gets who may not look at the first process: nothing,
    though a later process has the file open. *)
Example search_ends :
  let dir p := if streq p (str "/proc") then Some [(str "1", 4); (str "20", 4)] else if streq p (str "/proc/20/fd") then Some [(str "3", 10)] else None in
  let link p := if streq p (str "/proc/20/fd/3") then Some (str "/var/log") else None in
  said Stdout (trace (@get_all_main unit (tree_os dir (λ _, None) link) 5 [str "ga"; str "/var/log"] (init tt)).2) = [].
Proof. vm_compute. reflexivity. Qed.
