(* ===== verification/UserExe.v ===== *)
(** tlpi-book/sysinfo/procfs_user_exe.c: the processes of a user. *)
From S2P Require Import Prelude Sys ErrorFns GetNum Shell SvmsgFile Dict AclText Coprocess ProcTree Procexec ProcFs.

Definition EXE_LINE : Z := 1000.
Definition exe_path (name : cstr) : cstr := snprintf 4096 (str "/proc/" ++ name ++ str "/status").
Definition exe_line (name cmd : cstr) : cstr := pad_left 5 " "%char name ++ " "%char :: cmd.

(** What the lines of a status file have told so far. *)
Record found := Found { cmd : option cstr; uid : option Z }.

Definition read_line (f : found) (line : cstr) : found :=
  let f := if has_prefix (str "Name:") line then Found (Some (take 999 (skip_spaces (drop 5 line)))) (uid f) else f in
  if has_prefix (str "Uid:") line then Found (cmd f) (Some (wrap_u 32 (strtol (drop 4 line) 10).1.1)) else f.

Definition complete (f : found) : bool := match f with Found (Some _) (Some _) => true | _ => false end.

Section Program.
Context {S : Type} `{os}.

(** while (!gotName || !gotUid) *)
Definition exe_turn (fp : stream) (f : found) : M S (found + found) :=
  if complete f then mret (inr f) else
  r ← sys (Cfgets_from fp EXE_LINE);
  if rv r =? 0 then mret (inr f) else mret (inl (read_line f (c_str (rdata r)))).

Definition is_numbered (e : cstr * Z) : bool := (e.2 =? DT_DIR) && match e.1 with c :: _ => isdigit c | [] => false end.

Definition exe_entry (fuel : nat) (checkedUid : Z) (dp : cstr * Z) : M S unit :=
  if negb (is_numbered dp) then mret tt else
  let path := exe_path dp.1 in
  fp ← sys (Cfopen path);
  if rv fp =? -1 then mret tt else
  f ← loop fuel (exe_turn (Named path)) (Found None None);
  sys (Cfclose (Named path));;
  match f with
  | Found (Some cmd) (Some uid) => when (uid =? checkedUid) (out Stdout (exe_line dp.1 cmd))
  | _ => mret tt
  end.

Definition exe_dir_turn (fuel : nat) (dirp checkedUid : Z) : M S (unit + unit) :=
  set_errno 0;;
  r ← sys (Cextern "readdir" [dirp] []);
  match (if rv r =? -1 then None else head (rents r)) with
  | None =>
      e ← get_errno;
      if negb (e =? 0) then errExit (str "readdir") else mret (inr tt)
  | Some dp => exe_entry fuel checkedUid dp;; mret (inl tt)
  end.

Definition user_exe_main (fuel : nat) (argv : list cstr) : M S unit :=
  match argv with
  | progName :: user :: _ =>
      if streq user (str "--help") then usageErr (progName ++ str " username" ++ [NL]) else
      checkedUid ← userIdFromName (Some user);
      if checkedUid =? NO_ID then cmdLineErr (str "Bad username: " ++ user ++ [NL]) else
      dirp ← sys (Cextern "opendir" [] (str "/proc"));
      if rv dirp =? -1 then errExit (str "opendir") else
      loop fuel (λ _, exe_dir_turn fuel (rv dirp) checkedUid) tt;;
      stop_with (Exit 0)
  | _ => usageErr (default [] (argv !! 0%nat) ++ str " username" ++ [NL])
  end.
End Program.

(** ** What is printed *)

Fixpoint read_lines (f : found) (ls : list cstr) : found :=
  match ls with
  | [] => f
  | l :: ls => if complete f then f else read_lines (read_line f l) ls
  end.

Definition exe_text (procs : cstr → option process) (user : Z) (e : cstr * Z) : cstr :=
  if is_numbered e then
    match procs (exe_path e.1) with Some p => if p_uid p =? user then exe_line e.1 (p_name p ++ [NL]) else [] | None => [] end
  else [].

(** Names are shorter than the array. *)
Definition exe_ok (p : process) : Prop := process_ok p ∧ (length (p_name p) < 999)%nat.

Lemma read_other f l : other_line l → read_line f l = f.
Proof. intros [H1 H2]. unfold read_line. by rewrite H1, H2. Qed.

Lemma read_lines_others f ls rest : complete f = false → Forall other_line ls → read_lines f (ls ++ rest) = read_lines f rest.
Proof.
  intros Hf. induction 1 as [|l ls Hl _ IH]; [done|]. cbn [app read_lines]. rewrite Hf, read_other by done. exact IH.
Qed.

Lemma read_status p : exe_ok p → read_lines (Found None None) (status_lines p) = Found (Some (p_name p ++ [NL])) (Some (p_uid p)).
Proof.
  intros [(Hne & Hw & Hu & Hb & Ha) Hlen]. unfold status_lines. cbn [read_lines].
  assert (read_line (Found None None) (str "Name:" ++ TAB :: p_name p ++ [NL]) = Found (Some (p_name p ++ [NL])) None) as ->.
  { unfold read_line. rewrite (proj2 (has_prefix_spec (str "Name:") _)) by by apply prefix_app_r. change (has_prefix (str "Uid:") (str "Name:" ++ _)) with false. cbv iota. cbn [uid]. do 2 f_equal.
    change (drop 5 (str "Name:" ++ TAB :: p_name p ++ [NL])) with (TAB :: p_name p ++ [NL]). cbn [skip_spaces]. change (isspace TAB) with true. cbv iota.
    assert (skip_spaces (p_name p ++ [NL]) = p_name p ++ [NL]) as -> by (destruct (p_name p) as [|c w]; [done|]; apply Forall_cons in Hw as [Hc _]; cbn; by rewrite Hc).
    apply take_ge. rewrite length_app. cbn. lia. }
  change (complete (Found None None)) with false. cbv iota. rewrite read_lines_others by done. cbn [read_lines]. change (complete (Found _ None)) with false. cbv iota.
  assert (read_line (Found (Some (p_name p ++ [NL])) None) (str "Uid:" ++ TAB :: dec (p_uid p) ++ TAB :: p_rest p) = Found (Some (p_name p ++ [NL])) (Some (p_uid p))) as ->.
  { unfold read_line. rewrite (proj2 (has_prefix_spec (str "Uid:") _)) by by apply prefix_app_r. change (has_prefix (str "Name:") (str "Uid:" ++ _)) with false. cbv iota. cbn [cmd]. do 2 f_equal.
    change (drop 4 (str "Uid:" ++ TAB :: dec (p_uid p) ++ TAB :: p_rest p)) with ([TAB] ++ dec (p_uid p) ++ TAB :: p_rest p). rewrite strtol_text; [|unfold LONG_MIN, LONG_MAX; lia|done|by apply Forall_singleton].
    cbn. unfold wrap_u. by rewrite Z.mod_small. }
  by destruct (p_after p).
Qed.

Section Specs.
Context {S : Type} `{Tree}.
Implicit Types s : st S.

Lemma wp_exe_lines path ls fuel : file path = Some ls → ∀ n f s, file_at path (trace s) = Some n → (n <= length ls)%nat → (length ls < n + fuel)%nat →
  wp (loop fuel (exe_turn (Named path)) f)
    (λ f' s', (∀ d, dir_at d (trace s') = dir_at d (trace s)) ∧ said Stdout (trace s') = said Stdout (trace s) ∧ f' = read_lines f (drop n ls)) (λ _ _, False) s.
Proof using H0.
  intros Hls. induction fuel as [|fuel IH]; intros n f s Hs Hn Hf; [lia|]. rewrite loop_S. apply wp_bind.
  unfold exe_turn at 1. destruct (complete f) eqn:Ef.
  { apply wp_ret, wp_ret. split; [done|]. split; [done|]. destruct (drop n ls); cbn [read_lines]; [done|by rewrite Ef]. }
  apply wp_bind, wp_call. intros r s1 Hr _ _ _ T1. pose proof (fgets_reply (trace s) path n ls EXE_LINE ltac:(unfold EXE_LINE; lia) Hs Hls) as Hreply. cbv zeta in Hreply. rewrite <-Hr in Hreply.
  assert (∀ d, dir_at d (trace s1) = dir_at d (trace s)) as D1 by (intros d; by rewrite T1, dir_at_sys).
  assert (said Stdout (trace s1) = said Stdout (trace s)) as S1 by by rewrite T1, said_sys.
  destruct (ls !! n) as [l|] eqn:En.
  - destruct Hreply as [Hrv Hl]. rewrite (proj2 (Z.eqb_neq _ _) Hrv), Hl, (drop_S _ _ _ En). apply lookup_lt_Some in En. apply wp_ret.
    eapply wp_mono; [apply (IH (Datatypes.S n) (read_line f l) s1); [|lia|lia]| |done].
    + rewrite T1, file_at_sys, Hs. cbn. by rewrite bool_decide_eq_true_2.
    + intros f' s2 (D2 & S2 & ->). cbn [read_lines]. rewrite Ef, S2. split; [intros d; by rewrite D2|done].
  - rewrite Hreply. apply wp_ret, wp_ret. apply lookup_ge_None in En. by rewrite drop_ge.
Qed.

Context (procs : cstr → option process) (Hfile : ∀ path, file path = status_lines <$> procs path) (Hprocs : ∀ path p, procs path = Some p → exe_ok p).

Lemma wp_exe_entry fuel user e d s :
  (∀ path p, procs path = Some p → length (p_before p) + length (p_after p) + 2 < fuel)%nat →
  wp (exe_entry fuel user e)
    (λ _ s', dir_at d (trace s') = dir_at d (trace s) ∧ said Stdout (trace s') = said Stdout (trace s) ++ exe_text procs user e) (λ _ _, False) s.
Proof using All.
  intros Hfuel. unfold exe_entry, exe_text. destruct (is_numbered e); cbn [negb]; [|apply wp_ret; by rewrite app_nil_r]. cbv zeta. set (path := exe_path e.1).
  apply wp_bind, wp_call. intros r s1 Hr _ _ _ T1. pose proof (fopen_reply (trace s) path) as Hopen. rewrite <-Hr, Hfile in Hopen.
  assert (dir_at d (trace s1) = dir_at d (trace s)) as D1 by by rewrite T1, dir_at_sys.
  destruct (procs path) as [p|] eqn:Ep; cbn in Hopen.
  - assert (rv r ≠ -1) as Hrv by (intros E; by apply Hopen in E). rewrite (proj2 (Z.eqb_neq _ _) Hrv). apply wp_bind.
    assert (file path = Some (status_lines p)) as Hls by (rewrite Hfile, Ep; done).
    eapply wp_mono; [apply (wp_exe_lines path _ fuel Hls 0%nat (Found None None) s1)| |done].
    + rewrite T1, file_at_sys. cbn. rewrite bool_decide_eq_true_2 by done. by rewrite (proj2 (Z.eqb_neq _ _) Hrv).
    + lia.
    + specialize (Hfuel _ _ Ep). unfold status_lines. cbn [length]. rewrite length_app. cbn [length]. lia.
    + intros f s2 (D2 & S2 & ->). rewrite drop_0, read_status by by eapply Hprocs. apply wp_bind, wp_call. intros k s3 _ _ _ _ T3.
      destruct (p_uid p =? user); cbn [when].
      * apply wp_emit. cbn [trace]. rewrite dir_at_out, said_out, T3, dir_at_sys, said_sys, D2, S2, T1, said_sys. split; [|done]. rewrite <-D1, T1. by rewrite dir_at_sys.
      * apply wp_ret. rewrite T3, dir_at_sys, said_sys, D2, S2, T1, said_sys, app_nil_r. split; [|done]. rewrite <-D1, T1. by rewrite dir_at_sys.
  - rewrite (proj2 Hopen eq_refl). apply wp_ret. split; [done|]. by rewrite T1, said_sys, app_nil_r.
Qed.
End Specs.

(** Every process of the user is printed, in the order of the directory, with
    the whole name its status file gives. *)
Theorem user_exe_correct {S} `{Tree} procs prog user rest uid es fuel (s : st S) :
  (∀ path, file path = status_lines <$> procs path) → (∀ path p, procs path = Some p → exe_ok p ∧ (length (p_before p) + length (p_after p) + 2 < fuel)%nat) →
  dir (str "/proc") = Some es → (length es < fuel)%nat → (∀ tr d, let r := kern tr (Cextern "readdir" [d] []) in rv r = -1 → rerr r = 0) →
  user ≠ str "--help" → strtol user 10 = (uid, [], 0) → user ≠ [] → 0 <= uid < 2 ^ 32 - 1 →
  wp (user_exe_main fuel (prog :: user :: rest)) (λ _ _, False)
    (λ t s', t = Exit 0 ∧ said Stdout (trace s') = said Stdout (trace s) ++ concat (exe_text procs uid <$> es)) s.
Proof.
  intros Hfile Hprocs Hes Hf Herr Hhelp Huser Hne Hu. unfold user_exe_main. rewrite (proj2 (streq_false _ _) Hhelp). apply wp_bind.
  assert (userIdFromName (Some user) s = (Ret uid, s)) as Hid.
  { unfold userIdFromName, id_from_name. destruct user as [|c user]; [done|]. rewrite Huser. cbn [Z.eqb negb when]. rewrite (bind_Ret _ _ s tt s) by done. change (streq [] []) with true. cbv iota. unfold wrap_u. by rewrite Z.mod_small by lia. }
  unfold wp at 1. rewrite Hid. change NO_ID with 4294967295. rewrite (proj2 (Z.eqb_neq uid 4294967295)) by lia.
  apply wp_bind, wp_call. intros r s1 Hr _ _ _ T1. pose proof (opendir_reply (trace s) (str "/proc")) as Hopen. cbv zeta in Hopen. rewrite <-Hr, Hes in Hopen. destruct Hopen as [Hrv _].
  rewrite (proj2 (Z.eqb_neq _ _) Hrv). apply wp_bind.
  enough (∀ k n (s2 : st S), dir_at (rv r) (trace s2) = Some (str "/proc", n) → (n <= length es)%nat → (length es < n + k)%nat → said Stdout (trace s2) = said Stdout (trace s) ++ concat (exe_text procs uid <$> take n es) →
    wp (loop k (λ _, exe_dir_turn fuel (rv r) uid) tt) (λ _ s', said Stdout (trace s') = said Stdout (trace s) ++ concat (exe_text procs uid <$> es)) (λ _ _, False) s2) as Hgen.
  { eapply wp_mono; [apply (Hgen fuel 0%nat s1); [|lia|lia|]| |done].
    - rewrite T1, dir_at_sys. cbn. by rewrite Z.eqb_refl.
    - by rewrite T1, said_sys, app_nil_r.
    - intros [] s2 Hs2. by apply wp_stop. }
  clear Hf. intros k. induction k as [|k IH]; intros n s2 D2 Hn Hk S2; [lia|]. rewrite loop_S. apply wp_bind. unfold exe_dir_turn. apply wp_bind, wp_set_errno. apply wp_bind, wp_call. cbn [trace glob].
  intros q s3 Hq _ He3 _ T3. pose proof (readdir_reply (trace s2) (rv r) (str "/proc") n es D2 Hes) as Hreply. cbv zeta in Hreply. rewrite <-Hq in Hreply.
  destruct (es !! n) as [e|] eqn:En.
  - destruct Hreply as [Hrq Hhd]. rewrite (proj2 (Z.eqb_neq _ _) Hrq), Hhd. apply wp_bind. apply lookup_lt_Some in En as Hlt.
    eapply wp_mono; [apply (wp_exe_entry procs Hfile (λ p q Hq, proj1 (Hprocs p q Hq)) fuel uid e (rv r)); intros p p' Hp; by apply (Hprocs p p')| |done].
    intros [] s4 (D4 & S4). apply wp_ret. apply (IH (Datatypes.S n)); [|lia|lia|].
    + rewrite D4, T3, dir_at_sys, D2. cbn. by rewrite Z.eqb_refl.
    + rewrite S4, T3, said_sys, S2, (take_S_r _ _ _ En), fmap_app, concat_app. cbn. by rewrite app_nil_r, <-app_assoc.
  - specialize (Herr (trace s2) (rv r)). cbv zeta in Herr. rewrite <-Hq in Herr. specialize (He3 Hreply). rewrite (Herr Hreply) in He3. rewrite Hreply. change (-1 =? -1) with true. cbv iota.
    apply wp_bind, wp_get_errno. rewrite He3. change (negb (0 =? 0)) with false. apply wp_ret, wp_ret. apply lookup_ge_None in En. by rewrite T3, said_sys, S2, take_ge.
Qed.

Lemma tree_os_end dir file link tr d : let r := @kern (tree_os dir file link) tr (Cextern "readdir" [d] []) in rv r = -1 → rerr r = 0.
Proof. cbn. by case_match. Qed.

Lemma user_exe_witness :
  ∃ s', @user_exe_main unit small_os 5 [str "ue"; str "1000"] (init tt) = (Stop (Exit 0), s') ∧ said Stdout (trace s') = str "   20 bash" ++ [NL].
Proof.
  pose proof (@user_exe_correct unit small_os small_dir small_file small_link small_Tree small_procs (str "ue") (str "1000") [] 1000
    [(str "1", 4); (str "self", 10); (str "20", 4); (str "net", 4)] 5 (init tt) (λ _, eq_refl)) as H.
  lapply H; [clear H; intros H|intros p q Hq; destruct (small_procs_ok p q Hq) as [Hok Hl]; split; [split; [exact Hok|]|exact Hl]].
  2: { unfold small_procs in Hq. repeat case_match; simplify_eq; cbn; lia. }
  lapply H; [clear H; intros H|reflexivity].
  lapply H; [clear H; intros H|cbn; lia].
  lapply H; [clear H; intros H|exact (tree_os_end small_dir small_file small_link)].
  lapply H; [clear H; intros H|discriminate].
  lapply H; [clear H; intros H|vm_compute; reflexivity].
  lapply H; [clear H; intros H|discriminate].
  lapply H; [clear H; intros H|lia].
  apply (wp_wlp _ _ _ (λ _, True)) in H. destruct (wlp_run_stop _ _ _ _ _ (Exit 0) H) as (s' & Hrun & _ & Hs); [vm_compute; reflexivity|]. exists s'. split; [exact Hrun|]. rewrite Hs. vm_compute. reflexivity.
Defined.
