(* ===== verification/TtyName.v ===== *)
(** tlpi-book/tty/ttyname.c: the name of a terminal, from the directories of
    the devices. *)
From S2P Require Import Prelude Sys ErrorFns GetNum SvmsgFile Dict Coprocess Procexec ProcFs.

(** The static variables of ttynameCheckDir: the length of the array, and the
    string in it. *)
Record tty := Tty { ttyLen : Z; ttyPath : cstr }.

(** struct stat: mode and device. *)
Record device := Device { st_mode : Z; st_rdev : Z }.
Definition device_of (r : reply) : device := let f k := nth k (snd <$> rents r) 0 in Device (f 0%nat) (f 1%nat).
Definition S_ISCHR (mode : Z) : bool := Z.land mode 0xf000 =? 0x2000.
Definition same_device (fdStat devStat : device) : bool := S_ISCHR (st_mode devStat) && (st_rdev fdStat =? st_rdev devStat).
Definition dev_path (devDir name : cstr) : cstr := devDir ++ str "/" ++ name.

Section Functions.
Context `{os}.

(** A turn of the loop gives whether the device was found. *)
Definition check_turn (fdStat : device) (devDir : cstr) (dirh : Z) : M tty (unit + bool) :=
  r ← sys (Cextern "readdir" [dirh] []);
  match (if rv r =? -1 then None else head (rents r)) with
  | None => mret (inr false)
  | Some (d_name, _) =>
      let requiredLen := strlen devDir + 1 + strlen d_name + 1 in
      g ← get;
      room ← (if ttyLen g <? requiredLen then
                n ← sys (Crealloc requiredLen);
                if rv n =? -1 then mret false else put (Tty requiredLen (ttyPath g));; mret true
              else mret true);
      if negb room then mret (inr false) else
      g ← get;
      put (Tty (ttyLen g) (snprintf (ttyLen g) (dev_path devDir d_name)));;
      g ← get;
      s ← sys (Cextern "stat" [] (ttyPath g));
      if rv s =? -1 then mret (inl tt)
      else if same_device fdStat (device_of s) then mret (inr true)
      else mret (inl tt)
  end.

Definition ttynameCheckDir (fuel : nat) (fdStat : device) (devDir : cstr) : M tty (option cstr) :=
  g ← get;
  ready ← (if ttyLen g =? 0 then
             m ← sys (Crealloc 50);
             if rv m =? -1 then mret false else put (Tty 50 (ttyPath g));; mret true
           else mret true);
  if negb ready then mret None else
  dirh ← sys (Cextern "opendir" [] devDir);
  if rv dirh =? -1 then mret None else
  found ← loop fuel (λ _, check_turn fdStat devDir (rv dirh)) tt;
  sys (Cextern "closedir" [rv dirh] []);;
  g ← get;
  mret (if (found : bool) then Some (ttyPath g) else None).

Definition ttyname (fuel : nat) (fd : Z) : M tty (option cstr) :=
  t ← sys (Cextern "isatty" [fd] []);
  if rv t =? 0 then mret None else
  s ← sys (Cfstat fd);
  if rv s =? -1 then mret None else
  let fdStat := device_of s in
  if negb (S_ISCHR (st_mode fdStat)) then mret None else
  d ← ttynameCheckDir fuel fdStat (str "/dev/pts");
  match d with Some d => mret (Some d) | None => ttynameCheckDir fuel fdStat (str "/dev") end.
End Functions.

(** ** The search *)

(** [devs] is what stat tells of a path. *)
Definition devices `{os} (devs : cstr → option device) : Prop := ∀ tr p,
  let r := kern tr (Cextern "stat" [] p) in match devs p with None => rv r = -1 | Some d => rv r ≠ -1 ∧ device_of r = d end.

Section Search.
Context (dir : cstr → option (list (cstr * Z))) (devs : cstr → option device).

Definition is_device (fdStat : device) (p : cstr) : bool := match devs p with Some d => same_device fdStat d | None => false end.

(** The first entry of a directory that is the device. *)
Definition found_in (fdStat : device) (devDir : cstr) : option cstr :=
  es ← dir devDir; snd <$> list_find (λ p, is_device fdStat p = true) (dev_path devDir <$> (fst <$> es)).
End Search.

Section Specs.
Context `{Tree} (devs : cstr → option device) (Hdevs : devices devs) (Halloc : ∀ tr n, rv (kern tr (Crealloc n)) ≠ -1).
Implicit Types s : st tty.

Lemma wp_check devDir es d fdStat fuel :
  dir devDir = Some es → ∀ n s, dir_at d (trace s) = Some (devDir, n) → (n <= length es)%nat → (length es < n + fuel)%nat →
  wp (loop fuel (λ _, check_turn fdStat devDir d) tt)
    (λ found s', ttyLen (glob s) <= ttyLen (glob s') ∧ (if found then Some (ttyPath (glob s')) else None) = snd <$> list_find (λ p, is_device devs fdStat p = true) (dev_path devDir <$> (fst <$> drop n es))) (λ _ _, False) s.
Proof using All.
  intros Hes. induction fuel as [|fuel IH]; intros n s Hs Hn Hf; [lia|]. rewrite loop_S. apply wp_bind. unfold check_turn at 1. apply wp_bind, wp_call.
  intros r s1 Hr G1 _ _ T1. pose proof (readdir_reply (trace s) d devDir n es Hs Hes) as Hreply. cbv zeta in Hreply. rewrite <-Hr in Hreply.
  assert (dir_at d (trace s1) = Some (devDir, Datatypes.S n)) as D1 by (rewrite T1, dir_at_sys, Hs; cbn; by rewrite Z.eqb_refl).
  destruct (es !! n) as [[name ty]|] eqn:En.
  - destruct Hreply as [Hrv Hhd]. rewrite (proj2 (Z.eqb_neq _ _) Hrv), Hhd, (drop_S _ _ _ En). apply lookup_lt_Some in En. cbv zeta. set (requiredLen := strlen devDir + 1 + strlen name + 1).
    cbn [fmap list_fmap fst]. set (p := dev_path devDir name). apply wp_bind, wp_get, wp_bind. rewrite G1.
    assert (∀ s2, requiredLen <= ttyLen (glob s2) → ttyLen (glob s) <= ttyLen (glob s2) → dir_at d (trace s2) = Some (devDir, Datatypes.S n) →
      wp (g ← get; put (Tty (ttyLen g) (snprintf (ttyLen g) p));; g ← get; x ← sys (Cextern "stat" [] (ttyPath g));
          if rv x =? -1 then mret (inl tt) else if same_device fdStat (device_of x) then mret (inr true) else mret (inl tt))
        (λ r s', wp (match r with inl a => loop fuel (λ _ : unit, check_turn fdStat devDir d) a | inr b => mret b end)
          (λ found s', ttyLen (glob s) <= ttyLen (glob s') ∧ (if found then Some (ttyPath (glob s')) else None) = snd <$> list_find (λ p, is_device devs fdStat p = true) (p :: (dev_path devDir <$> (fst <$> drop (Datatypes.S n) es)))) (λ _ _, False) s') (λ _ _, False) s2) as Hrest.
    { intros s2 Hlen Hle D2. apply wp_bind, wp_get, wp_bind, wp_put, wp_bind, wp_get. cbn [glob ttyPath ttyLen].
      rewrite snprintf_fits by (unfold requiredLen in Hlen; unfold p, dev_path; rewrite !strlen_app; change (strlen (str "/")) with 1; lia). apply wp_bind, wp_call. intros x s3 Hx G3 _ _ T3. cbn [trace glob] in *. pose proof (Hdevs (trace s2) p) as Hd. cbv zeta in Hd. rewrite <-Hx in Hd.
      assert (wp (loop fuel (λ _ : unit, check_turn fdStat devDir d) tt) (λ found s', ttyLen (glob s3) <= ttyLen (glob s') ∧ (if found then Some (ttyPath (glob s')) else None) =
          snd <$> list_find (λ p, is_device devs fdStat p = true) (dev_path devDir <$> (fst <$> drop (Datatypes.S n) es))) (λ _ _, False) s3) as Hgo.
      { apply IH; [|lia|lia]. rewrite T3, dir_at_sys, D2. done. }
      rewrite G3 in Hgo. cbn [ttyLen] in Hgo. cbn [list_find].
      assert (is_device devs fdStat p = false → wp (loop fuel (λ _ : unit, check_turn fdStat devDir d) tt) (λ found s', ttyLen (glob s) <= ttyLen (glob s') ∧ (if found then Some (ttyPath (glob s')) else None) =
          snd <$> list_find (λ p, is_device devs fdStat p = true) (p :: (dev_path devDir <$> (fst <$> drop (Datatypes.S n) es)))) (λ _ _, False) s3) as Hnext.
      { intros Hp. eapply wp_mono; [exact Hgo| |done]. intros found s4 [Hl ->]. split; [lia|]. cbn [list_find]. rewrite decide_False by congruence. by destruct (list_find _ _) as [[]|]. }
      unfold is_device in Hnext at 1. destruct (devs p) as [dv|] eqn:Edv.
      - destruct Hd as [Hrx Hdv]. rewrite (proj2 (Z.eqb_neq _ _) Hrx), Hdv. destruct (same_device fdStat dv) eqn:Esame; [|apply wp_ret; by apply Hnext].
        apply wp_ret, wp_ret. rewrite G3. cbn [ttyLen ttyPath]. split; [lia|]. rewrite decide_True by (unfold is_device; by rewrite Edv). done.
      - rewrite Hd. apply wp_ret. by apply Hnext. }
    destruct (Z.ltb_spec (ttyLen (glob s)) requiredLen) as [Hlt|Hge].
    + apply wp_bind, wp_call. intros a s2 Ha G2 _ _ T2. assert (rv a ≠ -1) as Hra by (rewrite Ha; apply Halloc). rewrite (proj2 (Z.eqb_neq _ _) Hra). apply wp_bind, wp_put, wp_ret. cbn [negb].
      apply Hrest; cbn [glob trace ttyLen]; [lia|lia|]. by rewrite T2, dir_at_sys.
    + apply wp_ret. cbn [negb]. apply Hrest; [by rewrite G1|by rewrite G1|done].
  - rewrite Hreply. apply wp_ret, wp_ret. apply lookup_ge_None in En. rewrite drop_ge by done. rewrite G1. split; [lia|done].
Qed.
End Specs.

Section Directories.
Context `{Tree} (devs : cstr → option device) (Hdevs : devices devs) (Halloc : ∀ tr n, rv (kern tr (Crealloc n)) ≠ -1).
Implicit Types s : st tty.

Lemma wp_check_dir fuel fdStat devDir s (Q : option cstr → st tty → Prop) :
  (∀ es, dir devDir = Some es → length es < fuel)%nat → 0 <= ttyLen (glob s) →
  (∀ s', 0 <= ttyLen (glob s') → Q (found_in dir devs fdStat devDir) s') →
  wp (ttynameCheckDir fuel fdStat devDir) Q (λ _ _, False) s.
Proof using All.
  intros Hfuel Hlen HQ. unfold ttynameCheckDir. apply wp_bind, wp_get, wp_bind.
  assert (∀ s1, 0 <= ttyLen (glob s1) → wp (dirh ← sys (Cextern "opendir" [] devDir); if rv dirh =? -1 then mret None else
      found ← loop fuel (λ _, check_turn fdStat devDir (rv dirh)) tt; sys (Cextern "closedir" [rv dirh] []);; g ← get; mret (if (found : bool) then Some (ttyPath g) else None)) Q (λ _ _, False) s1) as Hrest.
  { intros s1 Hl1. apply wp_bind, wp_call. intros r s2 Hr G2 _ _ T2. pose proof (opendir_reply (trace s1) devDir) as Hopen. cbv zeta in Hopen. rewrite <-Hr in Hopen. unfold found_in in HQ. destruct (dir devDir) as [es|] eqn:Ees.
    - destruct Hopen as [Hrv _]. rewrite (proj2 (Z.eqb_neq _ _) Hrv). apply wp_bind. eapply wp_mono; [apply (wp_check devs Hdevs Halloc devDir es (rv r) fdStat fuel Ees 0%nat s2)| |done].
      + rewrite T2, dir_at_sys. cbn. by rewrite Z.eqb_refl.
      + lia.
      + specialize (Hfuel es eq_refl). lia.
      + rewrite drop_0. intros found s3 [Hl3 Hfound]. apply wp_bind, wp_call. intros k s4 _ G4 _ _ _. apply wp_bind, wp_get, wp_ret. rewrite G4, Hfound. apply HQ. rewrite G4. rewrite G2 in Hl3. lia.
    - rewrite Hopen. apply wp_ret. apply HQ. by rewrite G2. }
  destruct (ttyLen (glob s) =? 0).
  - apply wp_bind, wp_call. intros m s1 Hm G1 _ _ _. assert (rv m ≠ -1) as Hrm by (rewrite Hm; apply Halloc). rewrite (proj2 (Z.eqb_neq _ _) Hrm). apply wp_bind, wp_put, wp_ret. cbn [negb]. by apply Hrest.
  - apply wp_ret. cbn [negb]. by apply Hrest.
Qed.
End Directories.

(** The name of a terminal is the first entry of /dev/pts that is its device,
    or else the first entry of /dev; what is not a terminal has no name. *)
Theorem ttyname_correct `{Tree} devs fuel fd (s : st tty) :
  devices devs → (∀ tr n, rv (kern tr (Crealloc n)) ≠ -1) → (∀ p es, dir p = Some es → length es < fuel)%nat → 0 <= ttyLen (glob s) →
  wp (ttyname fuel fd)
    (λ name s', ∃ t d, name =
       (if (rv t =? 0) || (rv d =? -1) || negb (S_ISCHR (st_mode (device_of d))) then None
       else match found_in dir devs (device_of d) (str "/dev/pts") with Some n => Some n | None => found_in dir devs (device_of d) (str "/dev") end) ∧
       t = kern (trace s) (Cextern "isatty" [fd] []) ∧ d = kern (trace s ++ [Esys (Cextern "isatty" [fd] []) t]) (Cfstat fd)) (λ _ _, False) s.
Proof.
  intros Hdevs Halloc Hfuel Hlen. unfold ttyname. apply wp_bind, wp_call. intros t s1 Ht G1 _ _ T1.
  set (d := kern (trace s ++ [Esys (Cextern "isatty" [fd] []) t]) (Cfstat fd)). destruct (rv t =? 0) eqn:Et; [apply wp_ret; exists t, d; by rewrite Et|].
  apply wp_bind, wp_call. intros x s2 Hx G2 _ _ T2. rewrite T1 in Hx. fold d in Hx. subst x. destruct (rv d =? -1) eqn:Ed; [apply wp_ret; exists t, d; by rewrite Et, Ed|]. cbv zeta.
  destruct (S_ISCHR (st_mode (device_of d))) eqn:Ec; cbn [negb]; [|apply wp_ret; exists t, d; by rewrite Et, Ed, Ec]. apply wp_bind.
  apply (wp_check_dir devs Hdevs Halloc); [by apply Hfuel|by rewrite G2, G1|]. intros s3 Hl3. destruct (found_in dir devs (device_of d) (str "/dev/pts")) as [n|] eqn:En.
  - apply wp_ret. exists t, d. by rewrite Et, Ed, Ec, En.
  - apply (wp_check_dir devs Hdevs Halloc); [by apply Hfuel|done|]. intros s4 _. exists t, d. by rewrite Et, Ed, Ec, En.
Qed.

(** ** Two terminals *)

Definition tty_dir (p : cstr) : option (list (cstr * Z)) :=
  if streq p (str "/dev/pts") then Some [(str ".", 4); (str "0", 2); (str "1", 2)]
  else if streq p (str "/dev") then Some [(str "null", 2); (str "sda", 6); (str "tty1", 2)]
  else None.
Definition tty_devs (p : cstr) : option device :=
  if streq p (str "/dev/pts/0") then Some (Device 8592 34816)
  else if streq p (str "/dev/pts/1") then Some (Device 8592 34817)
  else if streq p (str "/dev/sda") then Some (Device 25008 1025)
  else if streq p (str "/dev/tty1") then Some (Device 8592 1025)
  else None.

(** The system of [ProcFs], with devices; [fd] is the device [d]. *)
Definition tty_os (d : Z) : os := test_os (λ tr c,
  match c with
  | Cextern "isatty" _ _ => ok 1
  | Cfstat _ => Reply 0 0 [] [([], 8592); ([], d)]
  | Cextern "stat" _ p => match tty_devs p with Some dv => Reply 0 0 [] [([], st_mode dv); ([], st_rdev dv)] | None => fail ENOENT end
  | _ => @kern (tree_os tty_dir (λ _, None) (λ _, None)) tr c
  end).

Lemma tty_Tree d : @Tree (tty_os d) tty_dir (λ _, None) (λ _, None).
Proof.
  destruct (tree_os_Tree tty_dir (λ _, None) (λ _, None)) as [H1 H2 H3 H4 H5]; [done|done|]. split; [exact H1|exact H2|exact H3|exact H4|exact H5].
Qed.

Lemma tty_devices d : @devices (tty_os d) tty_devs.
Proof. intros tr p. cbn [kern tty_os test_os]. destruct (tty_devs p) as [[m r]|]; [split; [discriminate|reflexivity]|reflexivity]. Qed.

Lemma ttyname_witness :
  (@ttyname (tty_os 34817) 4 0 (init (Tty 0 []))).1 = Ret (Some (str "/dev/pts/1")) ∧ (@ttyname (tty_os 1025) 4 0 (init (Tty 0 []))).1 = Ret (Some (str "/dev/tty1")).
Proof.
  assert (∀ p es, tty_dir p = Some es → (length es < 4)%nat) as Hlen by (intros p es; unfold tty_dir; repeat case_match; intros E; simplify_eq; cbn; lia).
  assert (∀ d tr n, rv (@kern (tty_os d) tr (Crealloc n)) ≠ -1) as Halloc by discriminate.
  split.
  - pose proof (@ttyname_correct (tty_os 34817) tty_dir (λ _, None) (λ _, None) (tty_Tree _) tty_devs 4 0 (init (Tty 0 [])) (tty_devices _) (Halloc _) Hlen ltac:(cbn; lia)) as H.
    apply (wp_wlp _ _ _ (λ _, True)) in H. destruct (wlp_run_ret _ _ _ _ _ (Some (str "/dev/pts/1")) H) as (s' & Hrun & _); [vm_compute; reflexivity|]. by rewrite Hrun.
  - pose proof (@ttyname_correct (tty_os 1025) tty_dir (λ _, None) (λ _, None) (tty_Tree _) tty_devs 4 0 (init (Tty 0 [])) (tty_devices _) (Halloc _) Hlen ltac:(cbn; lia)) as H.
    apply (wp_wlp _ _ _ (λ _, True)) in H. destruct (wlp_run_ret _ _ _ _ _ (Some (str "/dev/tty1")) H) as (s' & Hrun & _); [vm_compute; reflexivity|]. by rewrite Hrun.
Defined.
