(* ===== verification/Pipes.v ===== *)
(** A filter behind two pipes (homework/hw6/6-1/toUpper.c), and a server that
    polls a FIFO with its client (homework/hw8/44-7). *)
From S2P Require Import Prelude Sys ErrorFns ShellRun SvmsgFile Dict.

Definition BUF : Z := 1024.

(** Upper case as the loop of the child has it. *)
Definition upper (c : ascii) : ascii := if (97 <=? code c) && (code c <=? 122) then chr (code c - 32) else c.

Section Programs.
Context {S : Type} `{os}.

(** *** toUpper.c *)

(** Reading into the array. *)
Definition read_into (fd : Z) (buf : cstr) : M S cstr :=
  r ← sys (Cread fd BUF);
  mret (if rv r =? -1 then buf else overlay (data_of r) buf).

(** A string of the array. *)
Definition string_in (buf : cstr) : M S cstr :=
  if bool_decide (NUL ∈ buf) then mret (c_str buf) else stop_with (Undefined "unterminated string").

(** All of the string but its last character is written. *)
Definition child_side (pd_in pd_out : reply) (buf : cstr) : M S unit :=
  sys (Cclose (pipe_write pd_in));;
  sys (Cclose (pipe_read pd_out));;
  buf ← read_into (pipe_read pd_in) buf;
  sys (Cclose (pipe_read pd_in));;
  text ← string_in buf;
  (if strlen text =? 0 then sys (Cextern "write" [pipe_write pd_out; -1] buf)
   else sys (Cwrite (pipe_write pd_out) (take (length text - 1) (upper <$> text))));;
  sys (Cclose (pipe_write pd_out));;
  mret tt.

Definition parent_side (pd_in pd_out : reply) (buf : cstr) : M S unit :=
  sys (Cclose (pipe_read pd_in));;
  sys (Cclose (pipe_write pd_out));;
  sys (Cwrite (pipe_write pd_in) buf);;
  sys (Cclose (pipe_write pd_in));;
  buf ← read_into (pipe_read pd_out) buf;
  sys (Cclose (pipe_read pd_out));;
  text ← string_in buf;
  out Stdout text.

(** [buf] is the array as it was. *)
Definition to_upper_main (buf : cstr) : M S Z :=
  g ← sys (Cfgets BUF);
  let buf := if rv g =? 0 then buf else overlay (c_str (rdata g) ++ [NUL]) buf in
  pd_in ← sys Cpipe;
  if rv pd_in =? -1 then perror (str "pipe error");; mret (-1) else
  pd_out ← sys Cpipe;
  if rv pd_out =? -1 then perror (str "pipe error");; mret (-1) else
  pid ← sys Cfork;
  (if rv pid =? -1 then perror (str "fork error")
   else if rv pid =? 0 then child_side pd_in pd_out buf
   else parent_side pd_in pd_out buf);;
  mret 0.

(** *** The server and the client of the FIFO *)

Definition GREET_FIFO : cstr := str "/tmp/server_fifo".
Definition greeting : cstr := str "Client has opened FIFO for reading.".

(** The branch for a client that does not open the FIFO is for [argc <= 1],
    which has ended by then. *)
Definition greet_main (argv : list cstr) : M S Z :=
  if (length argv <=? 1)%nat then out Stderr (str "Usage: ./client /tmp/server_fifo" ++ [NL]);; stop_with (Exit 1) else
  clientFd ← sys (Copen GREET_FIFO 1 0);
  if rv clientFd =? -1 then perror_exit (str "open") else
  sys (Cwrite (rv clientFd) (greeting ++ [NUL]));;
  out Stdout (greeting ++ [NL]);;
  sys (Cclose (rv clientFd));;
  mret 0.

Definition received_line (req_num : Z) (text : cstr) : cstr := str "Received data " ++ dec req_num ++ str ": " ++ text ++ [NL].

(** One turn; the array is new in each. *)
Definition poll_turn (serverFd req_num : Z) : M S (Z + unit) :=
  g ← sys Cgarbage;
  numRead ← sys (Cread serverFd 100);
  if rv numRead =? -1 then
    e ← get_errno;
    when (negb (e =? EAGAIN)) (perror (str "read"));;
    mret (inl req_num)
  else if rv numRead =? 0 then
    out Stdout (str "End of file reached. Client has closed the FIFO." ++ [NL]);;
    mret (inl req_num)
  else
    text ← string_in (overlay (data_of numRead) (take 100 (rdata g)));
    out Stdout (received_line req_num text);;
    mret (inl (wrap_s 32 (req_num + 1))).

Definition nonblocking_server_main (fuel : nat) : M S Z :=
  sys (Cumask 0);;
  m ← sys (Cmkfifo GREET_FIFO 384);
  e ← get_errno;
  if (rv m =? -1) && negb (e =? EEXIST) then perror_exit (str "mkfifo") else
  serverFd ← sys (Copen GREET_FIFO 2048 0);
  if rv serverFd =? -1 then perror_exit (str "open") else
  dummyFd ← sys (Copen GREET_FIFO 1 0);
  if rv dummyFd =? -1 then perror (str "open dummy");; sys (Cclose (rv serverFd));; stop_with (Exit 1) else
  out Stdout (str "Server is running. Waiting for client to open FIFO for reading..." ++ [NL]);;
  loop fuel (poll_turn (rv serverFd)) 1;;
  mret 0.
End Programs.

(** ** The filter *)

Definition child_text (buf : cstr) : cstr := let text := c_str buf in take (length text - 1) (upper <$> text).

(** A line in upper case, its last character as it was. *)
Definition upper_line (w : cstr) : cstr := (upper <$> take (length w - 1) w) ++ drop (length w - 1) w.

Lemma upper_line_newline l : upper_line (l ++ [NL]) = (upper <$> l) ++ [NL].
Proof. unfold upper_line. rewrite length_app, Nat.add_sub, take_app_length, drop_app_length. done. Qed.

Lemma upper_not_nul c : c ≠ NUL → upper c ≠ NUL.
Proof.
  unfold upper. destruct (Z.leb_spec 97 (code c)), (Z.leb_spec (code c) 122); cbn [andb]; try done. intros _ E. apply (f_equal code) in E. rewrite code_chr in E. change (code NUL) with 0 in E. rewrite Z.mod_small in E by lia. lia.
Qed.

Lemma uppers_no_nul (w : cstr) : NUL ∉ w → NUL ∉ upper <$> w.
Proof. intros Hw Hin. apply list_elem_of_fmap in Hin as (c & E & Hc). by apply (upper_not_nul c); [intros ->|]. Qed.

(** What the parent's array is after the child has answered. *)
Lemma answer_overlaid (w rest : cstr) : NUL ∉ w → c_str (overlay (child_text (w ++ NUL :: rest)) (w ++ NUL :: rest)) = upper_line w.
Proof.
  intros Hw. unfold child_text. rewrite c_str_text by done. cbv zeta. unfold overlay. rewrite length_take, length_fmap, (Nat.min_l _ (length w)) by lia.
  rewrite drop_app_le by lia. rewrite <-fmap_take, app_assoc. apply c_str_text. unfold upper_line. rewrite not_elem_of_app. split.
  - apply uppers_no_nul. intros Hin. apply Hw. rewrite <-(take_drop (length w - 1) w), elem_of_app. by left.
  - intros Hin. apply Hw. rewrite <-(take_drop (length w - 1) w), elem_of_app. by right.
Qed.

Section Filter.
Context {S : Type} `{os}.
Implicit Types s : st S.

(** The child writes its text of what it reads. *)
Lemma child_side_correct pd_in pd_out buf s :
  wp (child_side pd_in pd_out buf)
    (λ _ s', ∃ k1 k2 r k3 w k4, let buf' := if rv r =? -1 then buf else overlay (data_of r) buf in NUL ∈ buf' ∧
       acted s [(Cclose (pipe_write pd_in), k1); (Cclose (pipe_read pd_out), k2); (Cread (pipe_read pd_in) BUF, r); (Cclose (pipe_read pd_in), k3);
         (if strlen (c_str buf') =? 0 then Cextern "write" [pipe_write pd_out; -1] buf' else Cwrite (pipe_write pd_out) (child_text buf'), w);
         (Cclose (pipe_write pd_out), k4)] s')
    (λ t _, t = Undefined "unterminated string") s.
Proof using.
  unfold child_side. apply wp_bind. eapply wp_act; [apply acted_refl|done|]. intros k1 s1 _ H1 _ _. apply wp_bind. eapply wp_act; [exact H1|done|]. intros k2 s2 _ H2 _ _.
  unfold read_into. apply wp_bind, wp_bind. eapply wp_act; [exact H2|done|]. intros r s3 _ H3 _ _. apply wp_ret. apply wp_bind. eapply wp_act; [exact H3|done|]. intros k3 s4 _ H4 _ _.
  set (buf' := if rv r =? -1 then buf else _). apply wp_bind. unfold string_in. destruct (bool_decide (NUL ∈ buf')) eqn:En; [|by apply wp_stop]. apply bool_decide_eq_true in En. apply wp_ret.
  apply wp_bind.
  destruct (strlen (c_str buf') =? 0) eqn:Ez; (eapply wp_act; [exact H4|done|]; intros w s5 _ H5 _ _; apply wp_bind; eapply wp_act; [exact H5|done|]; intros k4 s6 _ H6 _ _; apply wp_ret;
    exists k1, k2, r, k3, w, k4; cbv zeta; fold buf'; rewrite Ez; split; [done|exact H6]).
Qed.
End Filter.

Definition last_written (tr : list event) : option cstr := last (omap (λ x, match x.1 with Cwrite _ t => Some t | _ => None end) (calls tr)).

(** The pipe back gives what the child wrote when it had read what was written
    to the other. *)
Class Filtered `{os} : Prop := filtered : ∀ tr fd b, last_written tr = Some b →
  let r := kern tr (Cread fd BUF) in rv r ≠ -1 ∧ data_of r = child_text b.

(** The line is printed in upper case, its last character as it was: that is
    the newline of a whole line. *)
Theorem to_upper_correct {S} `{Filtered} w buf (s : st S) :
  NUL ∉ w → (length w < length buf)%nat →
  (∀ tr, let r := kern tr (Cfgets BUF) in rv r ≠ 0 ∧ c_str (rdata r) = w) →
  (∀ tr, rv (kern tr Cpipe) ≠ -1 ∧ 0 < rv (kern tr Cfork)) →
  wp (to_upper_main buf) (λ z s', z = 0 ∧ said Stdout (trace s') = said Stdout (trace s) ++ upper_line w) (λ _ _, False) s.
Proof.
  intros Hw Hlen Hgets Hok. unfold to_upper_main. apply wp_bind, wp_call. intros g s1 Hg _ _ _ T1. destruct (Hgets (trace s)) as [Hg0 Hgw]. rewrite <-Hg in Hg0, Hgw. rewrite (proj2 (Z.eqb_neq _ _) Hg0), Hgw. cbv zeta.
  assert (overlay (w ++ [NUL]) buf = w ++ NUL :: drop (length w + 1) buf) as -> by (unfold overlay; rewrite length_app, <-app_assoc; done). set (b := w ++ _).
  apply wp_bind, wp_call. intros p1 s2 E1 _ _ _ T2. destruct (Hok (trace s1)) as [Hp1 _]. rewrite <-E1 in Hp1. rewrite (proj2 (Z.eqb_neq _ _) Hp1).
  apply wp_bind, wp_call. intros p2 s3 E2 _ _ _ T3. destruct (Hok (trace s2)) as [Hp2 _]. rewrite <-E2 in Hp2. rewrite (proj2 (Z.eqb_neq _ _) Hp2).
  apply wp_bind, wp_call. intros f s4 E4 _ _ _ T4. destruct (Hok (trace s3)) as [_ Hf]. rewrite <-E4 in Hf. rewrite (proj2 (Z.eqb_neq (rv f) (-1))), (proj2 (Z.eqb_neq (rv f) 0)) by lia.
  apply wp_bind. unfold parent_side. apply wp_bind, wp_call. intros k1 s5 _ _ _ _ T5. apply wp_bind, wp_call. intros k2 s6 _ _ _ _ T6. apply wp_bind, wp_call. intros wr s7 _ _ _ _ T7. apply wp_bind, wp_call. intros k3 s8 _ _ _ _ T8.
  unfold read_into. apply wp_bind, wp_bind, wp_call. intros r s9 E9 _ _ _ T9. destruct (filtered (trace s8) (pipe_read p2) b) as [Hr Hd].
  { rewrite T8, T7. unfold last_written. rewrite !calls_snoc_sys, !omap_app. cbn. by rewrite app_nil_r, last_snoc. }
  rewrite <-E9 in Hr, Hd. rewrite (proj2 (Z.eqb_neq _ _) Hr), Hd. apply wp_ret. apply wp_bind, wp_call. intros k4 s10 _ _ _ _ T10.
  unfold string_in. apply wp_bind. destruct (bool_decide _) eqn:En.
  - apply wp_ret, wp_emit, wp_ret. cbn [trace]. split; [done|]. rewrite said_out. unfold b. rewrite answer_overlaid by done. f_equal. rewrite T10, T9, T8, T7, T6, T5, T4, T3, T2, T1. by rewrite !said_sys.
  - apply bool_decide_eq_false in En. destruct En. unfold b, overlay, child_text. rewrite c_str_text by done. cbv zeta. rewrite length_take, length_fmap, elem_of_app. right.
    rewrite drop_app_le by lia. rewrite elem_of_app. right. by left.
Qed.

(** A whole line. *)
Definition filter_os (line : cstr) : os := test_os (λ tr c,
  match c with
  | Cfgets _ => Reply 1 0 line []
  | Cread _ _ => let t := child_text (default [] (last_written tr)) in Reply (strlen t) 0 t []
  | Cfork => ok 7
  | Cpipe => Reply 0 0 [] [([], 3); ([], 4)]
  | _ => ok 0
  end).

Lemma to_upper_witness :
  ∃ s', @to_upper_main unit (filter_os (str "abc Z1" ++ [NL])) (replicate 10 NUL) (init tt) = (Ret 0, s') ∧ said Stdout (trace s') = str "ABC Z1" ++ [NL].
Proof.
  assert (@Filtered (filter_os (str "abc Z1" ++ [NL]))) as Hf.
  { intros tr fd b Hb. cbn. rewrite Hb. cbn. split; [unfold strlen; lia|]. unfold data_of. cbn. by rewrite take_ge by (unfold strlen; lia). }
  pose proof (@to_upper_correct unit _ Hf (str "abc Z1" ++ [NL]) (replicate 10 NUL) (init tt)) as H.
  lapply H; [clear H; intros H|apply (bool_decide_unpack _); vm_compute; exact I].
  lapply H; [clear H; intros H|cbn; lia].
  lapply H; [clear H; intros H|intros tr; split; [discriminate|vm_compute; reflexivity]].
  lapply H; [clear H; intros H|intros tr; split; [discriminate|reflexivity]].
  apply wp_run in H as [(z & s' & Hrun & -> & Hs)|(t & s' & _ & [])]. exists s'. split; [exact Hrun|]. rewrite Hs. vm_compute. reflexivity.
Defined.

(** The last line of an input that does not end with a newline keeps its last
    letter. *)
Example last_letter_kept :
  said Stdout (trace (@to_upper_main unit (filter_os (str "abc")) (replicate 10 NUL) (init tt)).2) = str "ABc".
Proof. vm_compute. reflexivity. Qed.

(** ** The server *)

(** What the reads of the FIFO gave, as strings. *)
Definition texts (fd : Z) (tr : list event) : list cstr :=
  omap (λ x, match x.1 with Cread d _ => if (d =? fd) && (0 <? rv x.2) then Some (c_str (data_of x.2)) else None | _ => None end) (calls tr).
Definition received_lines (ts : list cstr) : cstr := concat (imap (λ i t, received_line (Z.of_nat i + 1) t) ts).

Lemma received_lines_snoc ts t : received_lines (ts ++ [t]) = received_lines ts ++ received_line (Z.of_nat (length ts) + 1) t.
Proof. unfold received_lines. rewrite imap_app, concat_app. cbn. by rewrite Nat.add_0_r, app_nil_r. Qed.

Lemma texts_snoc fd tr c r : texts fd (tr ++ [Esys c r]) = texts fd tr ++ match c with Cread d _ => if (d =? fd) && (0 <? rv r) then [c_str (data_of r)] else [] | _ => [] end.
Proof. unfold texts. rewrite calls_snoc_sys, omap_app. f_equal. cbn. destruct c; try done. by destruct (_ && _). Qed.
Lemma texts_out fd tr f t : texts fd (tr ++ [Eout f t]) = texts fd tr.
Proof. unfold texts. by rewrite calls_snoc_out. Qed.

(** The FIFO gives strings, nothing yet, or an error; with the second
    descriptor it has no end. *)
Definition gives_strings `{os} (fd : Z) : Prop :=
  ∀ tr, let r := kern tr (Cread fd 100) in rv r = -1 ∨ 0 < rv r ∧ NUL ∈ data_of r.

Lemma c_str_overlay (a b : cstr) : NUL ∈ a → c_str (overlay a b) = c_str a.
Proof.
  unfold overlay. generalize (drop (length a) b). induction a as [|c a IH]; [intros ? Hin; by apply elem_of_nil in Hin|].
  intros x Hin. cbn [app c_str]. case_match; [done|]. f_equal. apply IH. apply elem_of_cons in Hin as [<-|Hin]; [by vm_compute in H|done].
Qed.

(** The server prints the strings its clients put into the FIFO, in order and
    numbered from one, for ever. *)
Theorem nonblocking_server_correct {S} `{os} fuel fd (s : st S) :
  gives_strings fd → texts fd (trace s) = [] → Z.of_nat fuel < INT_MAX →
  wlp (loop fuel (poll_turn fd) 1) (λ _ _, False) (λ _ _, False)
    (λ s', (length (texts fd (trace s')) <= fuel)%nat ∧ said Stdout (trace s') = said Stdout (trace s) ++ received_lines (texts fd (trace s'))) s.
Proof.
  intros Hfd Hs Hfuel. enough (∀ n k (s1 : st S), (k + n = fuel)%nat → (length (texts fd (trace s1)) <= k)%nat → said Stdout (trace s1) = said Stdout (trace s) ++ received_lines (texts fd (trace s1)) →
    wlp (loop n (poll_turn fd) (Z.of_nat (length (texts fd (trace s1))) + 1)) (λ _ _, False) (λ _ _, False)
      (λ s', (length (texts fd (trace s')) <= fuel)%nat ∧ said Stdout (trace s') = said Stdout (trace s) ++ received_lines (texts fd (trace s'))) s1) as Hgen.
  { specialize (Hgen fuel 0%nat s). rewrite Hs in Hgen. apply Hgen; [lia|cbn; lia|unfold received_lines; cbn; by rewrite app_nil_r]. }
  intros n. induction n as [|n IH]; intros k s1 Hk Hlen Hsaid; [split; [lia|done]|]. rewrite loop_S. apply wlp_bind. apply wp_wlp. unfold poll_turn. apply wp_bind, wp_call. intros g s2 _ _ _ _ T2.
  apply wp_bind, wp_call. intros r s3 Hr _ _ _ T3. specialize (Hfd (trace s2)). cbv zeta in Hfd. rewrite <-Hr in Hfd.
  assert (said Stdout (trace s3) = said Stdout (trace s1)) as S3 by by rewrite T3, said_sys, T2, said_sys.
  assert (texts fd (trace s3) = texts fd (trace s1) ++ if 0 <? rv r then [c_str (data_of r)] else []) as X3 by (rewrite T3, texts_snoc, Z.eqb_refl, T2, texts_snoc, app_nil_r; done).
  destruct Hfd as [E|[Hpos Hnul]].
  - rewrite E in *. rewrite app_nil_r in X3. change (-1 =? -1) with true. cbv iota. apply wp_bind, wp_get_errno, wp_bind.
    assert (∀ s4 : st S, texts fd (trace s4) = texts fd (trace s1) → said Stdout (trace s4) = said Stdout (trace s1) → wp (mret (inl (Z.of_nat (length (texts fd (trace s1))) + 1))) (λ (r : Z + unit) s', match r with inl a => wlp (loop n (poll_turn fd) a) (λ _ _, False) (λ _ _, False)
      (λ s', (length (texts fd (trace s')) <= fuel)%nat ∧ said Stdout (trace s') = said Stdout (trace s) ++ received_lines (texts fd (trace s'))) s' | inr _ => False end) (λ _ _, False) s4) as Hend.
    { intros s4 X4 S4. apply wp_ret. rewrite <-X4. apply (IH (Datatypes.S k)); rewrite ?X4, ?S4; [lia|lia|done]. }
    destruct (negb _); cbn [when]; [apply wp_bind, wp_get_errno, wp_emit|apply wp_ret]; (eapply wp_mono; [apply Hend|by intros [a|[]] s'|done]); cbn [trace]; rewrite ?texts_out, ?said_app; rewrite ?S3, ?X3; try done; cbn; by rewrite app_nil_r.
  - rewrite (proj2 (Z.eqb_neq (rv r) (-1))), (proj2 (Z.eqb_neq (rv r) 0)) by lia. rewrite (proj2 (Z.ltb_lt _ _) Hpos) in X3. apply wp_bind. unfold string_in.
    rewrite bool_decide_eq_true_2 by (unfold overlay; rewrite elem_of_app; by left). apply wp_ret. rewrite c_str_overlay by done. apply wp_bind, wp_emit, wp_ret.
    set (s4 := St _ _ _). assert (texts fd (trace s4) = texts fd (trace s1) ++ [c_str (data_of r)]) as X4 by (unfold s4; cbn [trace]; by rewrite texts_out).
    replace (wrap_s 32 (Z.of_nat (length (texts fd (trace s1))) + 1 + 1)) with (Z.of_nat (length (texts fd (trace s4))) + 1).
    2: { rewrite X4, length_app. cbn [length]. rewrite wrap_s_id; [lia|lia|]. unfold INT_MAX in Hfuel. lia. }
    apply (IH (Datatypes.S k)); [lia|rewrite X4, length_app; cbn; lia|]. rewrite X4, received_lines_snoc. unfold s4. cbn [trace]. by rewrite said_out, S3, Hsaid, <-app_assoc.
Qed.

(** The client writes its text with the null character at its end. *)
Theorem greet_correct {S} `{os} prog args (s : st S) :
  args ≠ [] →
  wp (greet_main (prog :: args))
    (λ z s', z = 0 ∧ ∃ f w k, rv f ≠ -1 ∧ acted s [(Copen GREET_FIFO 1 0, f); (Cwrite (rv f) (greeting ++ [NUL]), w); (Cclose (rv f), k)] s')
    (λ t s', t = Exit 1 ∧ ∃ f, rv f = -1 ∧ acted s [(Copen GREET_FIFO 1 0, f)] s') s.
Proof.
  intros Hargs. unfold greet_main. destruct args as [|a args]; [done|]. cbn [length Nat.leb]. apply wp_bind. eapply wp_act; [apply acted_refl|done|]. intros f s1 _ H1 _ _.
  destruct (Z.eqb_spec (rv f) (-1)) as [E|E].
  - apply wp_bind, wp_bind, wp_get_errno, wp_emit, wp_stop. split; [done|]. exists f. split; [done|]. eapply acted_same; [exact H1| |done]. cbn. by rewrite acts_out.
  - apply wp_bind. eapply wp_act; [exact H1|done|]. intros w s2 _ H2 _ _. apply wp_bind, wp_emit, wp_bind.
    eapply wp_act; [eapply acted_same; [exact H2|cbn; by rewrite acts_out|done]|done|]. intros k s3 _ H3 _ _. apply wp_ret. split; [done|]. by exists f, w, k.
Qed.

Definition fifo_os : os := test_os (λ tr c,
  match c with
  | Cread _ _ => match texts 5 tr with [] => Reply 36 0 (greeting ++ [NUL]) [] | _ => fail EAGAIN end
  | _ => ok 5
  end).

Lemma nonblocking_server_witness :
  ∃ s', @loop unit Z unit 3 (@poll_turn unit fifo_os 5) 1 (init tt) = (NoFuel, s') ∧ said Stdout (trace s') = received_line 1 greeting.
Proof.
  assert (@gives_strings fifo_os 5) as Hg.
  { intros tr. cbn. destruct (texts 5 tr); [right; split; [reflexivity|]; apply (bool_decide_unpack _); vm_compute; exact I|by left]. }
  pose proof (@nonblocking_server_correct unit fifo_os 3 5 (init tt) Hg eq_refl ltac:(reflexivity)) as H. unfold wlp in H.
  destruct (loop 3 (poll_turn 5) 1 (init tt)) as [o s'] eqn:Hrun. exists s'.
  assert (o = NoFuel) as -> by (apply (f_equal fst) in Hrun; vm_compute in Hrun; congruence). split; [reflexivity|]. destruct H as [_ ->].
  assert (texts 5 (trace s') = [greeting]) as -> by (apply (f_equal (λ x, texts 5 (trace x.2))) in Hrun; vm_compute in Hrun; symmetry; exact Hrun). vm_compute. reflexivity.
Defined.
