(* ===== verification/MapFiles.v ===== *)
(** Programs on mapped files: copying a file (homework/hw9/49-1/cp.c), and
    numbers handed to child processes through a mapping (quiz/quiz1/main.c). *)
From S2P Require Import Prelude Sys ErrorFns GetNum SvmsgFile Dict.

(** ** cp.c *)

Section Copying.
Context `{os}.

(** The static variable of the model is the file behind the second mapping. *)
Definition memcpy (dst src : cstr) (n : Z) : cstr := overlay (take (Z.to_nat n) src) dst.

Definition map_cp_main (argv : list cstr) : M cstr Z :=
  match argv with
  | [_; source; destination] =>
      fd1 ← sys (Copen source 0 0);
      if rv fd1 =? -1 then perror_exit (str "open source") else
      statbuf ← sys (Cfstat (rv fd1));
      if rv statbuf =? -1 then perror_exit (str "fstat") else
      let st_size := nth 0 (snd <$> rents statbuf) 0 in
      src_addr ← sys (Cmmap (rv fd1) st_size);
      if rv src_addr =? -1 then perror_exit (str "mmap") else
      fd2 ← sys (Copen destination 578 438);
      if rv fd2 =? -1 then perror_exit (str "open destination") else
      t ← sys (Cftruncate (rv fd2) st_size);
      if rv t =? -1 then perror_exit (str "ftruncate") else
      dst_addr ← sys (Cmmap (rv fd2) st_size);
      if rv dst_addr =? -1 then stop_with (Undefined "copy to an invalid address") else
      put (memcpy (rdata dst_addr) (rdata src_addr) st_size);;
      sys (Cextern "munmap" [rv src_addr; st_size] []);;
      sys (Cextern "munmap" [rv dst_addr; st_size] []);;
      sys (Cclose (rv fd1));;
      sys (Cclose (rv fd2));;
      mret 0
  | _ => out Stdout (str "Usage: " ++ default [] (argv !! 0%nat) ++ str " <source> <destination>" ++ [NL]);; stop_with (Exit 1)
  end.
End Copying.

(** A file with the bytes [bytes], opened as [fd]; a mapping has at least one
    byte, and the pages of the other file are as long as it is. *)
Class Source `{os} (source bytes : cstr) (fd : Z) := {
  source_fd : ∀ tr, let r := kern tr (Copen source 0 0) in rv r = -1 ∨ rv r = fd;
  other_fd : ∀ tr p, rv (kern tr (Copen p 578 438)) ≠ fd;
  source_size : ∀ tr, let r := kern tr (Cfstat fd) in rv r = -1 ∨ nth 0 (snd <$> rents r) 0 = strlen bytes;
  source_map : ∀ tr, let r := kern tr (Cmmap fd (strlen bytes)) in rv r = -1 ∨ rdata r = bytes;
  other_map : ∀ tr fd' n, fd' ≠ fd → 0 <= n → let r := kern tr (Cmmap fd' n) in rv r = -1 ∨ strlen (rdata r) = n;
  no_empty_map : ∀ tr fd', rv (kern tr (Cmmap fd' 0)) = -1 }.

Lemma wp_perror_out {S A} `{os} msg (Q : A → st S → Prop) (E : stop → st S → Prop) s : (∀ s', E (Exit 1) s') → wp (perror_exit msg) Q E s.
Proof. intros HE. by apply wp_bind, wp_bind, wp_get_errno, wp_emit, wp_stop. Qed.

(** A copy has the bytes of the source; an empty file is never copied.  That
    the second mapping failed is not noticed. *)
Theorem cp_correct `{os} source bytes fd prog destination (s : st cstr) :
  Source source bytes fd →
  wp (map_cp_main [prog; source; destination]) (λ z s', z = 0 ∧ bytes ≠ [] ∧ glob s' = bytes)
    (λ t _, t = Exit 1 ∨ bytes ≠ [] ∧ t = Undefined "copy to an invalid address") s.
Proof.
  intros HS. unfold map_cp_main. apply wp_bind, wp_call. intros f s1 Hf _ _ _ _. destruct (Z.eqb_spec (rv f) (-1)) as [E1|E1]; [apply wp_perror_out; by left|].
  destruct (source_fd (trace s)) as [E|E]; rewrite <-Hf in E; [done|]. rewrite E. apply wp_bind, wp_call. intros b s2 Hb _ _ _ _. destruct (Z.eqb_spec (rv b) (-1)) as [E2|E2]; [apply wp_perror_out; by left|].
  destruct (source_size (trace s1)) as [E'|E']; rewrite <-Hb in E'; [done|]. rewrite E'. cbv zeta. apply wp_bind, wp_call. intros m s3 Hm _ _ _ _. destruct (Z.eqb_spec (rv m) (-1)) as [E3|E3]; [apply wp_perror_out; by left|].
  destruct (source_map (trace s2)) as [E''|E'']; rewrite <-Hm in E''; [done|].
  assert (bytes ≠ []) as Hne. { intros ->. pose proof (no_empty_map (trace s2) fd) as H0. change (strlen []) with 0 in Hm. rewrite <-Hm in H0. done. }
  apply wp_bind, wp_call. intros g s4 Hg _ _ _ _. destruct (Z.eqb_spec (rv g) (-1)) as [E4|E4]; [apply wp_perror_out; by left|].
  apply wp_bind, wp_call. intros t s5 _ _ _ _ _. destruct (Z.eqb_spec (rv t) (-1)) as [E5|E5]; [apply wp_perror_out; by left|].
  apply wp_bind, wp_call. intros d s6 Hd _ _ _ _. destruct (Z.eqb_spec (rv d) (-1)) as [E6|E6]; [apply wp_stop; by right|].
  pose proof (other_fd (trace s3) destination) as Hother. rewrite <-Hg in Hother. destruct (other_map (trace s5) (rv g) (strlen bytes) Hother (strlen_nonneg _)) as [E7|E7]; rewrite <-Hd in E7; [done|].
  apply wp_bind, wp_put. do 4 (apply wp_bind, wp_call; intros ? ? _ ?G _ _ _). apply wp_ret. split; [done|]. split; [done|]. rewrite G2, G1, G0, G. cbn [glob].
  unfold memcpy, overlay. rewrite E'', take_ge by (unfold strlen; lia). unfold strlen in E7. rewrite drop_ge by lia. apply app_nil_r.
Qed.

Definition files_os (bytes : cstr) : os := test_os (λ tr c,
  match c with
  | Copen _ flags _ => ok (if flags =? 578 then 4 else 3)
  | Cfstat _ => Reply 0 0 [] [([], strlen bytes)]
  | Cmmap fd n => if n =? 0 then fail EINVAL else Reply 4096 0 (if fd =? 3 then bytes else replicate (Z.to_nat n) NUL) []
  | _ => ok 0
  end).

Lemma files_Source source bytes : @Source (files_os bytes) source bytes 3.
Proof.
  split; intros tr.
  - by right.
  - done.
  - by right.
  - cbn. destruct (strlen bytes =? 0); [by left|by right].
  - intros fd n Hfd Hn. cbn. destruct (Z.eqb_spec n 0) as [->|Hn']; [by left|]. cbn. rewrite (proj2 (Z.eqb_neq _ _) Hfd). right. unfold strlen. rewrite length_replicate. lia.
  - done.
Qed.

Lemma cp_witness :
  ∃ s', @map_cp_main (files_os (str "data")) [str "cp"; str "a"; str "b"] (init []) = (Ret 0, s') ∧ glob s' = str "data".
Proof.
  pose proof (@cp_correct (files_os (str "data")) (str "a") (str "data") 3 (str "cp") (str "b") (init []) (files_Source _ _)) as H.
  apply wp_run in H as [(z & s' & Hrun & -> & _ & Hs)|(t & s' & Hrun & _)]; [exists s'; split; assumption|].
  apply (f_equal fst) in Hrun. vm_compute in Hrun. discriminate.
Defined.

(** ** quiz/quiz1/main.c *)

Record data := Data { seg : Z; data_of_seg : Z }.

(** The static variable of the model is the mapping the processes share. *)
Section Quiz.
Context `{os}.

(** The source calls it generator. *)
Definition generate (data_num : nat) : M (list Z) (list data) :=
  for_acc 0 data_num (λ i ds, r ← sys Crand; mret (ds ++ [Data (Z.of_nat i) (Z.rem (rv r) 9 + 1)])) [].

Definition int_sum (l : list Z) : Z := foldl (λ n z, wrap_s 32 (n + z)) 0 l.

(** The elements of the mapping are characters. *)
Definition share (ds : list data) : M (list Z) unit := put ((λ d, wrap_s 8 (data_of_seg d)) <$> ds).

Definition child (i : nat) : M (list Z) unit :=
  pid ← sys Cgetpid;
  shared_data ← get;
  out Stdout (str "Child process " ++ dec (Z.of_nat i + 1) ++ str ": " ++ dec (rv pid) ++ [NL]);;
  out Stdout (str "child sum = " ++ dec (int_sum shared_data) ++ [NL]);;
  stop_with (Exit 0).

Definition quiz1_main (argv : list cstr) : M (list Z) Z :=
  match argv with
  | _ :: a1 :: a2 :: a3 :: _ =>
      let n := atoi a1 in let k := atoi a2 in let data_num := atoi a3 in
      if data_num <=? 0 then stop_with (Undefined "array of no elements") else
      sys Ctime;;
      ds ← generate (Z.to_nat data_num);
      let size := wrap_s 64 (8 * data_num * k) in
      fd ← sys (Copen (str "mapfile") 578 438);
      t ← sys (Cftruncate (rv fd) size);
      if rv t =? -1 then perror_exit (str "ftruncate") else
      m ← sys (Cmmap (rv fd) (wrap_u 64 (8 * data_num * data_num)));
      if rv m =? -1 then perror_exit (str "mmap") else
      sys (Cclose (rv fd));;
      if size <=? 0 then stop_with (Killed 7) else
      share ds;;
      if n <=? 0 then stop_with (Undefined "array of no elements") else
      for_acc 0 (Z.to_nat n) (λ i _,
        pid ← sys Cfork;
        if rv pid =? -1 then perror_exit (str "fork")
        else if rv pid =? 0 then child i
        else (sys (Cwait (-1));; mret tt)) tt;;
      pid ← sys Cgetpid;
      out Stdout (str "Parent process " ++ dec (rv pid) ++ [NL]);;
      out Stdout (str "parent sum = " ++ dec (int_sum (data_of_seg <$> ds)) ++ [NL]);;
      mret 0
  | _ => stop_with (Undefined "null pointer")
  end.
End Quiz.

(** What the random numbers amount to, in the history every process shares. *)
Definition drawn (tr : list event) : list Z := omap (λ x, match x.1 with Crand => Some (rv x.2 mod 9 + 1) | _ => None end) (calls tr).
Definition drawn_sum (tr : list event) : Z := zsum id (drawn tr).

Lemma drawn_sys tr c r : drawn (tr ++ [Esys c r]) = drawn tr ++ match c with Crand => [rv r mod 9 + 1] | _ => [] end.
Proof. unfold drawn. rewrite calls_snoc_sys, omap_app. f_equal. by destruct c. Qed.
Lemma drawn_out tr f t : drawn (tr ++ [Eout f t]) = drawn tr.
Proof. unfold drawn. by rewrite calls_snoc_out. Qed.

Lemma int_sum_small (l : list Z) : Forall (λ z, 1 <= z <= 9) l → 9 * Z.of_nat (length l) <= INT_MAX → int_sum l = zsum id l ∧ 0 <= zsum id l <= 9 * Z.of_nat (length l).
Proof.
  unfold int_sum. induction l as [|z l IH] using rev_ind; intros Hl Hlen; [done|]. apply Forall_app in Hl as [Hl Hz]. apply Forall_cons in Hz as [Hz _]. rewrite length_app in *. cbn [length] in *.
  destruct IH as [IH1 IH2]; [done|lia|]. rewrite foldl_app. cbn [foldl]. rewrite IH1.
  assert (zsum id (l ++ [z]) = zsum id l + z) as -> by (clear; unfold zsum; induction l as [|y l IH]; cbn [app foldr]; [unfold id; lia|rewrite IH; lia]).
  rewrite wrap_s_id; [lia|lia|]. unfold INT_MAX in Hlen. cbn. lia.
Qed.

Section Sums.
Context `{os} (Hrand : ∀ tr, 0 <= rv (kern tr Crand)).
Implicit Types s : st (list Z).

Lemma wp_generate n s (Q : list data → st (list Z) → Prop) E :
  drawn (trace s) = [] →
  (∀ ds s', length ds = n → data_of_seg <$> ds = drawn (trace s') → Forall (λ z, 1 <= z <= 9) (drawn (trace s')) → said Stdout (trace s') = said Stdout (trace s) → Q ds s') →
  wp (generate n) Q E s.
Proof using Hrand.
  intros Hs HQ. unfold generate. eapply wp_mono; [apply (wp_for_acc (λ i (ds : list data) s', length ds = i ∧ data_of_seg <$> ds = drawn (trace s') ∧ Forall (λ z, 1 <= z <= 9) (drawn (trace s')) ∧ said Stdout (trace s') = said Stdout (trace s)) E)| |done].
  - rewrite Hs. done.
  - intros i ds s1 _ (Hl & Hd & Hb & Hsaid). apply wp_bind, wp_call. intros r s2 Hr _ _ _ T2. specialize (Hrand (trace s1)). rewrite <-Hr in Hrand.
    apply wp_ret. rewrite T2, drawn_sys, said_sys, fmap_app, Hd, length_app. cbn. rewrite Z.rem_mod_nonneg by lia.
    split; [lia|]. split; [done|]. split; [|done]. apply Forall_app. split; [done|]. apply Forall_singleton. pose proof (Z.mod_pos_bound (rv r) 9). lia.
  - intros ds s1 (Hl & Hd & Hb & Hsaid). by apply HQ.
Qed.
End Sums.

(** Every child prints the sum the parent prints. *)
Theorem quiz1_correct `{os} prog a1 a2 a3 rest (s : st (list Z)) :
  (∀ tr, 0 <= rv (kern tr Crand)) → drawn (trace s) = [] →
  1 <= atoi a1 → 0 < 8 * atoi a3 * atoi a2 < 2 ^ 63 → 0 < 9 * atoi a3 <= INT_MAX →
  wp (quiz1_main (prog :: a1 :: a2 :: a3 :: rest))
    (λ z s', z = 0 ∧ ∃ pid, said Stdout (trace s') = said Stdout (trace s) ++ str "Parent process " ++ dec pid ++ [NL] ++ str "parent sum = " ++ dec (drawn_sum (trace s')) ++ [NL])
    (λ t s', t = Exit 1 ∨ t = Exit 0 ∧ ∃ i pid, 1 <= i <= atoi a1 ∧
       said Stdout (trace s') = said Stdout (trace s) ++ str "Child process " ++ dec i ++ str ": " ++ dec pid ++ [NL] ++ str "child sum = " ++ dec (drawn_sum (trace s')) ++ [NL]) s.
Proof.
  intros Hrand Hs Hn Hsize Hnum. unfold quiz1_main. cbv zeta. rewrite (proj2 (Z.leb_gt (atoi a3) 0)) by lia. apply wp_bind, wp_call. intros t0 s1 _ _ _ _ T1.
  apply wp_bind, wp_generate; [done|by rewrite T1, drawn_sys, Hs|]. intros ds s2 Hlen Hds Hall S2.
  assert (drawn_sum (trace s2) = int_sum (data_of_seg <$> ds) ∧ int_sum ((λ d, wrap_s 8 (data_of_seg d)) <$> ds) = int_sum (data_of_seg <$> ds)) as [Hsum Hchars].
  { assert (length (drawn (trace s2)) = Z.to_nat (atoi a3)) as Hl by by rewrite <-Hds, length_fmap. rewrite Hds. unfold drawn_sum. split; [symmetry; apply int_sum_small; [done|lia]|].
    f_equal. rewrite <-Hds. rewrite <-Hds in Hall. clear -Hall. induction ds as [|d ds IH]; [done|]. apply Forall_cons in Hall as [Hd Hall]. cbn. f_equal; [|by apply IH]. apply wrap_s_id; [lia|]. cbn. lia. }
  assert (said Stdout (trace s2) = said Stdout (trace s)) as S2' by by rewrite S2, T1, said_sys.
  apply wp_bind, wp_call. intros fd s3 _ _ _ _ T3. apply wp_bind, wp_call. intros tr s4 _ _ _ _ T4. destruct (rv tr =? -1); [apply wp_perror_out; by left|].
  apply wp_bind, wp_call. intros m s5 _ _ _ _ T5. destruct (rv m =? -1); [apply wp_perror_out; by left|]. apply wp_bind, wp_call. intros c s6 _ _ _ _ T6.
  rewrite wrap_s_id by lia. rewrite (proj2 (Z.leb_gt (8 * atoi a3 * atoi a2) 0)) by lia. apply wp_bind, wp_put. rewrite (proj2 (Z.leb_gt (atoi a1) 0)) by lia.
  set (s7 := St _ _ _). set (K s' := glob s' = (λ d, wrap_s 8 (data_of_seg d)) <$> ds ∧ drawn (trace s') = drawn (trace s2) ∧ said Stdout (trace s') = said Stdout (trace s)).
  assert (K s7) as K7 by (split; [done|]; unfold s7; cbn [trace]; rewrite T6, T5, T4, T3, !drawn_sys, !said_sys, !app_nil_r; done).
  apply wp_bind. match goal with |- wp _ _ ?E _ => eapply wp_mono; [apply (wp_for_acc (λ _ _ s', K s') E)| |] end.
  - exact K7.
  - intros i _ s8 Hi (G8 & D8 & S8). apply wp_bind, wp_call. intros f s9 _ G9 _ _ T9. destruct (rv f =? -1); [apply wp_perror_out; by left|]. destruct (rv f =? 0).
    + apply wp_bind, wp_call. intros p s10 _ G10 _ _ T10. apply wp_bind, wp_get, wp_bind, wp_emit, wp_bind, wp_emit, wp_stop. right. split; [done|]. cbn [glob trace]. exists (Z.of_nat i + 1), (rv p). split; [lia|].
      rewrite !said_out. unfold drawn_sum. rewrite !drawn_out, T10, T9, !drawn_sys, !said_sys, !app_nil_r, D8, S8, G10, G9, G8, Hchars. fold (drawn_sum (trace s2)). rewrite Hsum, <-!app_assoc. done.
    + apply wp_bind, wp_call. intros w s10 _ G10 _ _ T10. apply wp_ret. unfold K. by rewrite T10, T9, !drawn_sys, !said_sys, !app_nil_r, G10, G9.
  - intros _ s8 (_ & D8 & S8). apply wp_bind, wp_call. intros p s9 _ _ _ _ T9. apply wp_bind, wp_emit, wp_bind, wp_emit, wp_ret. split; [done|]. exists (rv p). cbn [trace].
    rewrite !said_out. unfold drawn_sum. rewrite !drawn_out, T9, drawn_sys, said_sys, app_nil_r, D8, S8. fold (drawn_sum (trace s2)). by rewrite Hsum, <-!app_assoc.
  - done.
Qed.

Definition quiz_os (forks : Z) : os := test_os (λ tr c,
  match c with Cfork => ok forks | Crand => ok (Z.of_nat (length tr)) | _ => ok 3 end).

Lemma quiz1_witness :
  ∃ s', @quiz1_main (quiz_os 9) [str "main"; str "2"; str "1"; str "3"] (init []) = (Ret 0, s') ∧
    said Stdout (trace s') = str "Parent process 3" ++ [NL] ++ str "parent sum = 9" ++ [NL].
Proof.
  pose proof (@quiz1_correct (quiz_os 9) (str "main") (str "2") (str "1") (str "3") [] (init [])) as H.
  change (atoi (str "2")) with 2 in H. change (atoi (str "1")) with 1 in H. change (atoi (str "3")) with 3 in H.
  lapply H; [clear H; intros H|intros tr; cbn; lia].
  lapply H; [clear H; intros H|reflexivity].
  lapply H; [clear H; intros H|lia].
  lapply H; [clear H; intros H|lia].
  lapply H; [clear H; intros H|unfold INT_MAX; lia].
  apply wp_run in H as [(z & s' & Hrun & -> & _)|(t & s' & Hrun & _)].
  - exists s'. split; [exact Hrun|]. apply (f_equal (λ x, said Stdout (trace x.2))) in Hrun. cbn [snd] in Hrun. rewrite <-Hrun. vm_compute. reflexivity.
  - apply (f_equal fst) in Hrun. vm_compute in Hrun. discriminate.
Defined.

(** The file has the size of the whole array for each of the [k] pieces: with
    none it is empty, and the first store kills the program. *)
Example no_pieces :
  (@quiz1_main (quiz_os 9) [str "main"; str "2"; str "0"; str "3"] (init [])).1 = Stop (Killed 7).
Proof. vm_compute. reflexivity. Qed.
