(* ===== verification/ErrorDetect.v ===== *)
(** quiz/quiz2/error_detect.c: one process draws kinds of errors and sends a
    signal for each, another reports the errors it is sent. *)
From S2P Require Import Prelude Sys ErrorFns SvmsgFile Dict Procexec.

Definition TYPE1 : Z := 10.    (* SIGUSR1 *)
Definition TYPE2 : Z := 12.    (* SIGUSR2 *)
Definition TYPE3 : Z := 34.    (* SIGRTMIN *)

(** The signal of an error, by the number that was drawn. *)
Definition type_signal (errType : Z) : Z := if errType =? 0 then TYPE1 else if errType =? 1 then TYPE2 else TYPE3.

Definition mail_command (kind : cstr) : cstr :=
  snprintf 1024 (str "echo '" ++ (str "This is an type" ++ kind ++ str " error.") ++ str "' | mail -s '" ++
    (str "type" ++ kind ++ str " error") ++ str "' " ++ str "alanfang229@gmail.com").

Section Programs.
Context {S : Type} `{os}.

(** The three handlers differ in the kind they name. *)
Definition signalHandler (kind : cstr) : M S unit :=
  out Stdout (str "P2 Recieve Error" ++ kind ++ [NL]);;
  sys (Csystem (mail_command kind));;
  mret tt.
Definition signalHandler_1 : M S unit := signalHandler (str "1").
Definition signalHandler_2 : M S unit := signalHandler (str "2").
Definition signalHandler_3 : M S unit := signalHandler (str "3").

(** A signal that ends pause: one with a handler runs it, another has its
    default action. *)
Definition caught (sig : Z) : M S unit :=
  if sig =? TYPE1 then signalHandler_1
  else if sig =? TYPE2 then signalHandler_2
  else if sig =? TYPE3 then signalHandler_3
  else stop_with (Killed sig).

Definition p2_turn : M S (unit + unit) :=
  r ← sys Cpause;
  match head (rents r) with Some (_, sig) => caught sig | None => mret tt end;;
  mret (inl tt).

Definition p2 (fuel : nat) : M S unit :=
  sys (Csigaction TYPE1);;
  sys (Csigaction TYPE2);;
  sys (Csigaction TYPE3);;
  loop fuel (λ _, p2_turn) tt.

Definition p1_turn (pid : Z) : M S (unit + unit) :=
  r ← sys Crand;
  let errType := Z.rem (rv r) 3 in
  out Stdout (str "Error type: " ++ dec (errType + 1) ++ [NL]);;
  (if errType =? 0 then (sys (Ckill pid TYPE1);; mret tt)
   else if errType =? 1 then (sys (Ckill pid TYPE2);; mret tt)
   else if errType =? 2 then (sys (Ckill pid TYPE3);; mret tt)
   else mret tt);;
  sys (Csleep 5);;
  mret (inl tt).

Definition error_detect_main (fuel : nat) : M S Z :=
  pid ← sys Cfork;
  if rv pid =? -1 then out Stdout (str "fail" ++ [NL]);; mret 1
  else if rv pid =? 0 then p2 fuel;; mret 0
  else (sys Ctime;; loop fuel (λ _, p1_turn (rv pid)) tt;; mret 0).
End Programs.

(** ** What is sent and what is reported *)

Definition sent_signals (pid : Z) (tr : list event) : list Z :=
  omap (λ x, match x.1 with Ckill p sig => if p =? pid then Some sig else None | _ => None end) (calls tr).
Definition caught_signals (tr : list event) : list Z :=
  omap (λ x, match x.1 with Cpause => snd <$> head (rents x.2) | _ => None end) (calls tr).
Definition mails (tr : list event) : list cstr := omap (λ x, match x.1 with Csystem c => Some c | _ => None end) (calls tr).

(** Kinds are numbered from zero. *)
Definition drawn_text (e : Z) : cstr := str "Error type: " ++ dec (e + 1) ++ [NL].
Definition reported_text (e : Z) : cstr := str "P2 Recieve Error" ++ dec (e + 1) ++ [NL].
Definition kind_ok (e : Z) : Prop := 0 <= e < 3.

Lemma caught_kind {S} `{os} e : kind_ok e → caught (S:=S) (type_signal e) = signalHandler (dec (e + 1)).
Proof. intros He. assert (e = 0 ∨ e = 1 ∨ e = 2) as [->|[->| ->]] by (unfold kind_ok in He; lia); reflexivity. Qed.

Lemma type_signal_inj e e' : kind_ok e → kind_ok e' → type_signal e = type_signal e' → e = e'.
Proof.
  unfold kind_ok. intros H H'. assert (e = 0 ∨ e = 1 ∨ e = 2) as [->|[->| ->]] by lia; (assert (e' = 0 ∨ e' = 1 ∨ e' = 2) as [->|[->| ->]] by lia); done.
Qed.

Section Specs.
Context {S : Type} `{os}.
Implicit Types s : st S.

Lemma p1_correct fuel pid s :
  (∀ tr, 0 <= rv (kern tr Crand)) → sent_signals pid (trace s) = [] →
  wlp (loop fuel (λ _, p1_turn pid) tt) (λ _ _, False) (λ _ _, False)
    (λ s', ∃ es, Forall kind_ok es ∧ sent_signals pid (trace s') = type_signal <$> es ∧ said Stdout (trace s') = said Stdout (trace s) ++ concat (drawn_text <$> es)) s.
Proof using.
  intros Hrand Hs. apply (wlp_loop (λ _ s', ∃ es, Forall kind_ok es ∧ sent_signals pid (trace s') = type_signal <$> es ∧ said Stdout (trace s') = said Stdout (trace s) ++ concat (drawn_text <$> es))).
  - exists []. split; [constructor|]. by rewrite Hs, app_nil_r.
  - done.
  - intros _ s1 (es & Hes & Hsent & Hsaid). apply wp_wlp. unfold p1_turn. apply wp_bind, wp_call. intros r s2 Hr _ _ _ T2. specialize (Hrand (trace s1)). rewrite <-Hr in Hrand.
    cbv zeta. set (e := Z.rem (rv r) 3). assert (kind_ok e) as He by (unfold e, kind_ok; rewrite Z.rem_mod_nonneg by lia; apply Z.mod_pos_bound; lia).
    apply wp_bind, wp_emit. set (s3 := St _ _ _). apply wp_bind.
    assert (∀ sig, sig = type_signal e → wp (sys (Ckill pid sig);; mret tt) (λ _ s4, wp (sys (Csleep 5);; mret (inl tt)) (λ (r : unit + unit) s', match r with inl _ => ∃ es, Forall kind_ok es ∧ sent_signals pid (trace s') = type_signal <$> es ∧ said Stdout (trace s') = said Stdout (trace s) ++ concat (drawn_text <$> es) | inr _ => False end) (λ _ _, False) s4) (λ _ _, False) s3) as Hkill.
    { intros sig ->. apply wp_bind, wp_call. intros k s4 _ _ _ _ T4. apply wp_ret. apply wp_bind, wp_call. intros z s5 _ _ _ _ T5. apply wp_ret. exists (es ++ [e]). split; [apply Forall_app; split; [done|by apply Forall_singleton]|].
      rewrite T5, said_sys, T4, said_sys. unfold s3. cbn [trace]. rewrite said_out, T2, said_sys, Hsaid, !fmap_app, concat_app. split; [|cbn; by rewrite app_nil_r, <-app_assoc].
      unfold sent_signals in *. rewrite !calls_snoc_sys, calls_snoc_out, calls_snoc_sys, !omap_app, Hsent. cbn. by rewrite Z.eqb_refl, !app_nil_r. }
    destruct (Z.eqb_spec e 0) as [E0|E0]; [apply Hkill; by rewrite E0|]. destruct (Z.eqb_spec e 1) as [E1|E1]; [apply Hkill; by rewrite E1|]. assert (e = 2) as E2 by (unfold kind_ok in He; lia).
    rewrite E2. change (2 =? 2) with true. cbv iota. apply Hkill. by rewrite E2.
Qed.

Lemma p2_correct fuel s :
  (∀ tr, match head (rents (kern tr Cpause)) with Some (_, sig) => ∃ e, kind_ok e ∧ sig = type_signal e | None => True end) →
  caught_signals (trace s) = [] → mails (trace s) = [] →
  wlp (p2 fuel) (λ _ _, False) (λ _ _, False)
    (λ s', ∃ es, Forall kind_ok es ∧ caught_signals (trace s') = type_signal <$> es ∧ mails (trace s') = (λ e, mail_command (dec (e + 1))) <$> es ∧
       said Stdout (trace s') = said Stdout (trace s) ++ concat (reported_text <$> es)) s.
Proof using.
  intros Hpause Hs Hm. unfold p2. do 3 (apply wlp_bind, wp_wlp, wp_call; intros ? ? _ _ _ _ ?T).
  apply (wlp_loop (λ _ s', ∃ es, Forall kind_ok es ∧ caught_signals (trace s') = type_signal <$> es ∧ mails (trace s') = (λ e, mail_command (dec (e + 1))) <$> es ∧
       said Stdout (trace s') = said Stdout (trace s) ++ concat (reported_text <$> es))).
  - exists []. split; [constructor|]. rewrite T1, T0, T, !said_sys, app_nil_r. unfold caught_signals, mails in *. rewrite !calls_snoc_sys, !omap_app, Hs, Hm. done.
  - done.
  - intros _ s1' (es & Hes & Hc & Hms & Hsaid). apply wp_wlp. unfold p2_turn. apply wp_bind, wp_call. intros q s2 Hr _ _ _ T2. specialize (Hpause (trace s1')). rewrite <-Hr in Hpause. apply wp_bind.
    assert (caught_signals (trace s2) = caught_signals (trace s1') ++ match head (rents q) with Some x => [x.2] | None => [] end) as C2 by (rewrite T2; unfold caught_signals; rewrite calls_snoc_sys, omap_app; cbn; by destruct (head (rents q))).
    assert (mails (trace s2) = mails (trace s1')) as M2 by (rewrite T2; unfold mails; rewrite calls_snoc_sys, omap_app; apply app_nil_r).
    assert (said Stdout (trace s2) = said Stdout (trace s1')) as S2 by by rewrite T2, said_sys.
    destruct (head (rents q)) as [[x sig]|].
    + destruct Hpause as (e & He & ->). rewrite caught_kind by done. unfold signalHandler. apply wp_bind, wp_emit. apply wp_bind, wp_call. intros k s3 _ _ _ _ T3. apply wp_ret, wp_ret. cbn [trace] in T3.
      exists (es ++ [e]). split; [apply Forall_app; split; [done|by apply Forall_singleton]|]. rewrite !fmap_app, concat_app, T3, said_sys, said_out, S2, Hsaid.
      split; [|split; [|cbn; by rewrite app_nil_r, <-app_assoc]].
      * unfold caught_signals in *. rewrite calls_snoc_sys, calls_snoc_out, omap_app, C2, Hc. cbn. by rewrite app_nil_r.
      * unfold mails in *. rewrite calls_snoc_sys, calls_snoc_out, omap_app, M2, Hms. done.
    + apply wp_ret, wp_ret. exists es. by rewrite C2, M2, S2, app_nil_r.
Qed.
End Specs.

(** The parent and its child, any number of turns of each: when the child has
    caught the signals its parent sent, one after the other, it has reported
    the errors the parent drew, and sent a mail for each. *)
Theorem error_detect_correct {S} (P1 P2 : os) fuel1 fuel2 pid (s1 s2 : st S) :
  (∀ tr, 0 <= rv (@kern P1 tr Crand)) → sent_signals pid (trace s1) = [] →
  (∀ tr, match head (rents (@kern P2 tr Cpause)) with Some (_, sig) => ∃ e, kind_ok e ∧ sig = type_signal e | None => True end) →
  caught_signals (trace s2) = [] → mails (trace s2) = [] →
  let '(o1, s1') := @loop S unit unit fuel1 (λ _, @p1_turn S P1 pid) tt s1 in
  let '(o2, s2') := @p2 S P2 fuel2 s2 in
  o1 = NoFuel ∧ o2 = NoFuel ∧
  (caught_signals (trace s2') = sent_signals pid (trace s1') → ∃ es, Forall kind_ok es ∧
     said Stdout (trace s1') = said Stdout (trace s1) ++ concat (drawn_text <$> es) ∧
     said Stdout (trace s2') = said Stdout (trace s2) ++ concat (reported_text <$> es) ∧
     mails (trace s2') = (λ e, mail_command (dec (e + 1))) <$> es).
Proof.
  intros Hrand Hs1 Hpause Hs2 Hm. pose proof (@p1_correct S P1 fuel1 pid s1 Hrand Hs1) as H1. pose proof (@p2_correct S P2 fuel2 s2 Hpause Hs2 Hm) as H2. unfold wlp in H1, H2.
  destruct (loop fuel1 _ tt s1) as [[?|?|] s1'], (p2 fuel2 s2) as [[?|?|] s2']; try done. destruct H1 as (es1 & Hk1 & Hsent & Hsaid1), H2 as (es2 & Hk2 & Hcaught & Hmails & Hsaid2).
  split; [done|]. split; [done|]. intros E. assert (es1 = es2) as ->; [|by exists es2].
  rewrite Hsent, Hcaught in E. clear -Hk1 Hk2 E. revert es2 Hk2 E. induction Hk1 as [|e es He _ IH]; intros es2 Hk2 E; destruct es2 as [|e2 es2]; try done. apply Forall_cons in Hk2 as [He2 Hk2]. cbn in E. injection E as E1 E2.
  f_equal; [by eapply type_signal_inj|by apply IH].
Qed.

(** A system for each process. *)
Definition parent_os : os := test_os (λ tr c, match c with Crand => ok (Z.of_nat (length tr)) | _ => ok 0 end).
Definition child_os : os := test_os (λ tr c, match c with Cpause => Reply (-1) EINTR [] [([], match length (caught_signals tr) with O => TYPE1 | 1%nat => TYPE2 | _ => TYPE3 end)] | _ => ok 0 end).

Lemma error_detect_witness :
  ∃ s1' s2', @loop unit unit unit 2 (λ _, @p1_turn unit parent_os 7) tt (init tt) = (NoFuel, s1') ∧ @p2 unit child_os 2 (init tt) = (NoFuel, s2') ∧
    said Stdout (trace s1') = str "Error type: 1" ++ [NL] ++ str "Error type: 2" ++ [NL] ∧
    said Stdout (trace s2') = str "P2 Recieve Error1" ++ [NL] ++ str "P2 Recieve Error2" ++ [NL] ∧ length (mails (trace s2')) = 2%nat.
Proof.
  pose proof (@error_detect_correct unit parent_os child_os 2 2 7 (init tt) (init tt)) as H.
  lapply H; [clear H; intros H|intros tr; cbn; lia].
  lapply H; [clear H; intros H|reflexivity].
  lapply H; [clear H; intros H|intros tr; cbn; destruct (length (caught_signals tr)) as [|[|n]]; [exists 0|exists 1|exists 2]; (split; [unfold kind_ok; lia|reflexivity])].
  lapply H; [clear H; intros H|reflexivity].
  lapply H; [clear H; intros H|reflexivity].
  destruct (loop 2 _ tt (init tt)) as [o1 s1'] eqn:E1, (p2 2 (init tt)) as [o2 s2'] eqn:E2. destruct H as (-> & -> & _). exists s1', s2'. split; [reflexivity|]. split; [reflexivity|].
  apply (f_equal (λ x, said Stdout (trace x.2))) in E1 as F1. apply (f_equal (λ x, said Stdout (trace x.2))) in E2 as F2. apply (f_equal (λ x, length (mails (trace x.2)))) in E2 as F3. cbn [snd] in F1, F2, F3.
  rewrite <-F1, <-F2, <-F3. vm_compute. repeat split.
Defined.
