(* ===== verification/Attrs.v ===== *)
(** tlpi-book/files/chiflag.c: changing the attributes of files. *)
From S2P Require Import Prelude Sys ErrorFns SvmsgFile.

Definition FS_SECRM_FL : Z := 1.
Definition FS_UNRM_FL : Z := 2.
Definition FS_COMPR_FL : Z := 4.
Definition FS_SYNC_FL : Z := 8.
Definition FS_IMMUTABLE_FL : Z := 16.
Definition FS_APPEND_FL : Z := 32.
Definition FS_NODUMP_FL : Z := 64.
Definition FS_NOATIME_FL : Z := 128.
Definition FS_JOURNAL_DATA_FL : Z := 16384.
Definition FS_NOTAIL_FL : Z := 32768.
Definition FS_DIRSYNC_FL : Z := 65536.
Definition FS_TOPDIR_FL : Z := 131072.
Definition FS_IOC_GETFLAGS : Z := 0x80086601.
Definition FS_IOC_SETFLAGS : Z := 0x40086602.

Definition attr_flag (p : ascii) : option Z :=
  match p with
  | "a" => Some FS_APPEND_FL
  | "A" => Some FS_NOATIME_FL
  | "c" => Some FS_COMPR_FL
  | "d" => Some FS_NODUMP_FL
  | "D" => Some FS_DIRSYNC_FL
  | "i" => Some FS_IMMUTABLE_FL
  | "j" => Some FS_JOURNAL_DATA_FL
  | "s" => Some FS_SECRM_FL
  | "S" => Some FS_SYNC_FL
  | "t" => Some FS_NOTAIL_FL
  | "T" => Some FS_TOPDIR_FL
  | "u" => Some FS_UNRM_FL
  | _ => None
  end%char.

(** The mask of the letters, when there is one for each. *)
Fixpoint attrs_from (attr : Z) (p : cstr) : option Z :=
  match p with
  | [] => Some attr
  | c :: p => f ← attr_flag c; attrs_from (Z.lor attr f) p
  end.

(** What becomes of the attributes a file has. *)
Definition apply_op (op : ascii) (oldAttr attr : Z) : Z :=
  if bool_decide (op = "-"%char) then Z.land oldAttr (Z.lnot attr) else Z.lor oldAttr attr.
Definition is_relative (op : ascii) : bool := bool_decide (op = "+"%char) || bool_decide (op = "-"%char).

Definition chiflag_usage_text (progName : cstr) : cstr :=
  str "Usage: " ++ progName ++ str " {+-=}{attrib-chars} file..." ++ [NL; NL] ++
  concat ((λ t, str "    " ++ str t) <$> [
    "+ add attribute; - remove attribute; = set attributes absolutely"%string]) ++ [NL; NL] ++
  concat ((λ t, str "    " ++ str t ++ [NL]) <$> [
    "'attrib-chars' contains one or more of:";
    "    a   Force open() to include O_APPEND (privilege required)";
    "    A   Do not update last access time";
    "    c   Compress (requires e2compr package)";
    "    d   Do not backup with dump(8)";
    "    D   Synchronous directory updates";
    "    i   Immutable (privilege required)";
    "    j   Enable ext3/ext4 data journaling";
    "    s   Secure deletion (not implemented)";
    "    S   Synchronous file updates";
    "    t   Disable tail-packing (Reiserfs only)";
    "    T   Mark as top-level directory for Orlov algorithm";
    "    u   Undelete (not implemented)"]%string).

Section Program.
Context {S : Type} `{os}.

Definition chiflag_usage {A} (progName : cstr) : M S A := out Stderr (chiflag_usage_text progName);; stop_with (Exit 1).

(** One file; [attr] is the variable, which is assigned. *)
Definition attr_file (op : ascii) (attr : Z) (file : cstr) : M S Z :=
  fd ← sys (Copen file 0 0);
  if rv fd =? -1 then errMsg (str "open: " ++ file);; mret attr else
  attr ← (if is_relative op then
            g ← sys (Cextern "ioctl" [rv fd; FS_IOC_GETFLAGS] []);
            if rv g =? -1 then errExit (str "ioctl1: " ++ file) else
            mret (apply_op op (wrap_s 32 (le (take 4 (rdata g)))) attr)
          else mret attr);
  w ← sys (Cextern "ioctl" [rv fd; FS_IOC_SETFLAGS; attr] []);
  if rv w =? -1 then errExit (str "ioctl2: " ++ file) else
  k ← sys (Cclose (rv fd));
  if rv k =? -1 then errExit (str "close") else
  mret attr.

Fixpoint attr_files (op : ascii) (attr : Z) (files : list cstr) : M S unit :=
  match files with
  | [] => mret tt
  | file :: files => attr ← attr_file op attr file; attr_files op attr files
  end.

(** strchr finds the null character that ends its string as well. *)
Definition chiflag_main (argv : list cstr) : M S unit :=
  match argv with
  | progName :: arg :: files =>
      if bool_decide (files = []) then chiflag_usage progName else
      match arg with
      | [] => stop_with (Undefined "read past the end")
      | op :: letters =>
          if negb (is_relative op || bool_decide (op = "="%char)) || streq arg (str "--help") then chiflag_usage progName else
          match attrs_from 0 letters with
          | None => chiflag_usage progName
          | Some attr => attr_files op attr files;; stop_with (Exit 0)
          end
      end
  | _ => chiflag_usage (default [] (argv !! 0%nat))
  end.
End Program.

(** ** Letters and bits *)

Definition attr_bit (p : ascii) : Z := match attr_flag p with Some f => Z.log2 f | None => 0 end.

Lemma attr_flag_bit p f : attr_flag p = Some f → f = 2 ^ attr_bit p ∧ 0 <= attr_bit p.
Proof. unfold attr_bit. intros E. rewrite E. unfold attr_flag in E. repeat (case_match; try discriminate); injection E as <-; done. Qed.

Lemma attr_bit_inj p q f g : attr_flag p = Some f → attr_flag q = Some g → attr_bit p = attr_bit q → p = q.
Proof.
  unfold attr_bit. intros E E'. rewrite E, E'. unfold attr_flag in E, E'. repeat (case_match; try discriminate); injection E as <-; repeat (case_match; try discriminate); injection E' as <-; try done; discriminate.
Qed.

(** A letter's attribute is in the mask when the letter was given. *)
Lemma attrs_from_letter p : ∀ attr a c f, attrs_from attr p = Some a → attr_flag c = Some f → tst a f = tst attr f || bool_decide (c ∈ p).
Proof.
  induction p as [|d p IH]; intros attr a c f Ha Hf; cbn in Ha.
  - injection Ha as ->. rewrite bool_decide_eq_false_2 by apply not_elem_of_nil. by rewrite orb_false_r.
  - destruct (attr_flag d) as [g|] eqn:Eg; [|done]. cbn in Ha. rewrite (IH _ _ _ _ Ha Hf).
    destruct (attr_flag_bit c f Hf) as [-> Hc], (attr_flag_bit d g Eg) as [-> Hd]. rewrite !tst_pow2, Z.lor_spec, Z.pow2_bits_eqb by done.
    destruct (Z.eqb_spec (attr_bit d) (attr_bit c)) as [E|E].
    + assert (d = c) as -> by by eapply attr_bit_inj. rewrite orb_true_r, (bool_decide_eq_true_2 (c ∈ c :: p)) by by left. by rewrite orb_true_r.
    + rewrite orb_false_r. f_equal. apply bool_decide_ext. rewrite elem_of_cons. split; [by right|]. intros [->|]; done.
Qed.

(** What the new attributes are to be, letter by letter. *)
Definition letter_wanted (op : ascii) (old given : bool) : bool :=
  if bool_decide (op = "+"%char) then old || given else if bool_decide (op = "-"%char) then old && negb given else given.
Definition new_attr (op : ascii) (old attr : Z) : Z := if is_relative op then apply_op op old attr else attr.

Lemma new_attr_letter op letters attr old c f :
  attrs_from 0 letters = Some attr → attr_flag c = Some f → tst (new_attr op old attr) f = letter_wanted op (tst old f) (bool_decide (c ∈ letters)).
Proof.
  intros Ha Hf. assert (tst attr f = bool_decide (c ∈ letters)) as <- by (rewrite (attrs_from_letter letters 0 attr c f Ha Hf), tst_0_r; done).
  destruct (attr_flag_bit c f Hf) as [-> Hc]. unfold new_attr, letter_wanted, is_relative, apply_op.
  destruct (bool_decide_reflect (op = "+"%char)) as [->|H1]; cbn [orb].
  - rewrite bool_decide_eq_false_2 by done. rewrite !tst_pow2 by done. apply Z.lor_spec.
  - destruct (bool_decide_reflect (op = "-"%char)) as [->|H2]; [|done]. rewrite !tst_pow2 by done. by rewrite Z.land_spec, Z.lnot_spec.
Qed.

(** ** The files *)

(** The calls for the files when all goes well: a file that cannot be opened is
    left out; the mask for the next one is what this one was given. *)
Inductive changed (op : ascii) : Z → list cstr → list (call * reply) → Prop :=
  | Changed_none attr : changed op attr [] []
  | Changed_closed attr file files f l : rv f = -1 → changed op attr files l → changed op attr (file :: files) ((Copen file 0 0, f) :: l)
  | Changed_set attr file files f w k l : is_relative op = false → changed op attr files l →
      changed op attr (file :: files) ((Copen file 0 0, f) :: (Cextern "ioctl" [rv f; FS_IOC_SETFLAGS; attr] [], w) :: (Cclose (rv f), k) :: l)
  | Changed_rel attr file files f g w k l : is_relative op = true →
      let attr' := apply_op op (wrap_s 32 (le (take 4 (rdata g)))) attr in
      changed op attr' files l →
      changed op attr (file :: files) ((Copen file 0 0, f) :: (Cextern "ioctl" [rv f; FS_IOC_GETFLAGS] [], g) :: (Cextern "ioctl" [rv f; FS_IOC_SETFLAGS; attr'] [], w) :: (Cclose (rv f), k) :: l).

Section Specs.
Context {S : Type} `{os}.
Implicit Types s : st S.

Lemma end_of_not_success b : end_of b ≠ Exit 0.
Proof using. unfold end_of. by repeat case_match. Qed.

Lemma wp_attr_files op files : ∀ attr s0 pre s (Q : unit → st S → Prop),
  acted s0 pre s → (∀ l s', changed op attr files l → acted s0 (pre ++ l) s' → Q tt s') →
  wp (attr_files op attr files) Q (λ t _, t ≠ Exit 0) s.
Proof using.
  induction files as [|file files IH]; intros attr s0 pre s Q H0 HQ.
  - apply wp_ret, (HQ []); [constructor|by rewrite app_nil_r].
  - cbn [attr_files]. unfold attr_file. apply wp_bind, wp_bind. eapply wp_act; [exact H0|done|]. intros f s1 _ H1 _ _. destruct (Z.eqb_spec (rv f) (-1)) as [E|E].
    + apply wp_bind, wp_errMsg. intros s2 Hg _ Ha. apply wp_ret. eapply IH; [eapply acted_same; [exact H1|done|done]|].
      intros l s' Hl H'. eapply HQ; [by apply (Changed_closed op attr file files f l)|by rewrite <-app_assoc in H'].
    + assert (∀ msg A (R : A → st S → Prop) s2 p2, acted s0 p2 s2 → wp (errExit msg) R (λ t _, t ≠ Exit 0) s2) as Hfail by (intros; eapply wp_act_errExit; [done|intros; apply end_of_not_success]).
      apply wp_bind. destruct (is_relative op) eqn:Er.
      * apply wp_bind. eapply wp_act; [exact H1|done|]. intros g s2 _ H2 _ _. destruct (rv g =? -1); [by eapply Hfail|]. apply wp_ret.
        apply wp_bind. eapply wp_act; [exact H2|done|]. intros w s3 _ H3 _ _. destruct (rv w =? -1); [by eapply Hfail|].
        apply wp_bind. eapply wp_act; [exact H3|done|]. intros k s4 _ H4 _ _. destruct (rv k =? -1); [by eapply Hfail|]. apply wp_ret.
        eapply IH; [exact H4|]. intros l s' Hl H'. eapply HQ; [by apply (Changed_rel op attr file files f g w k l)|by rewrite <-!app_assoc in H'].
      * apply wp_ret. apply wp_bind. eapply wp_act; [exact H1|done|]. intros w s3 _ H3 _ _. destruct (rv w =? -1); [by eapply Hfail|].
        apply wp_bind. eapply wp_act; [exact H3|done|]. intros k s4 _ H4 _ _. destruct (rv k =? -1); [by eapply Hfail|]. apply wp_ret.
        eapply IH; [exact H4|]. intros l s' Hl H'. eapply HQ; [by apply (Changed_set op attr file files f w k l)|by rewrite <-!app_assoc in H'].
Qed.
End Specs.

(** chiflag, when it succeeds, has opened every file and given it attributes:
    the first one gets what the letters ask for, attribute by attribute. *)
Theorem chiflag_correct {S} `{os} prog op letters attr file files (s : st S) :
  (is_relative op = true ∨ op = "="%char) → attrs_from 0 letters = Some attr → op :: letters ≠ str "--help" →
  wp (chiflag_main (prog :: (op :: letters) :: file :: files)) (λ _ _, False)
    (λ t s', t = Exit 0 → ∃ l, acted s l s' ∧ changed op attr (file :: files) l) s ∧
  ∀ old c f, attr_flag c = Some f → tst (new_attr op old attr) f = letter_wanted op (tst old f) (bool_decide (c ∈ letters)).
Proof.
  intros Hop Ha Hhelp. split; [|intros; by apply new_attr_letter]. unfold chiflag_main. rewrite bool_decide_eq_false_2 by done.
  rewrite (proj2 (streq_false _ _) Hhelp), orb_false_r. assert (is_relative op || bool_decide (op = "="%char) = true) as -> by (destruct Hop as [->| ->]; done). cbv iota. cbn [negb]. rewrite Ha.
  apply wp_bind. eapply wp_mono; [apply (wp_attr_files op (file :: files) attr s [] s (λ _ s', ∃ l, acted s l s' ∧ changed op attr (file :: files) l) (acted_refl s))| |].
  - intros l s' Hl H'. by exists l.
  - intros [] s' Hs'. by apply wp_stop.
  - intros t s' Ht E. congruence.
Qed.

(** ** Examples *)

(** Two files on the descriptors 3 and 4, with attributes of their own. *)
Definition attr_os (first second : Z) : os := test_os (λ tr c,
  match c with
  | Copen p _ _ => ok (if streq p (str "f") then 3 else 4)
  | Cextern "ioctl" [fd; _] _ => Reply 0 0 (le32 (if fd =? 3 then first else second)) []
  | _ => ok 0
  end).
Definition sets (tr : list event) : list Z := omap (λ x, match x.1 with Cextern "ioctl" [_; _; a] _ => Some a | _ => None end) (calls tr).

Lemma chiflag_witness :
  ∃ s', @chiflag_main unit (attr_os FS_NODUMP_FL 0) [str "chiflag"; str "+aA"; str "f"] (init tt) = (Stop (Exit 0), s') ∧
    ∃ l, acted (init tt) l s' ∧ changed "+"%char (Z.lor FS_APPEND_FL FS_NOATIME_FL) [str "f"] l.
Proof.
  pose proof (@chiflag_correct unit (attr_os FS_NODUMP_FL 0) (str "chiflag") "+"%char (str "aA") (Z.lor FS_APPEND_FL FS_NOATIME_FL) (str "f") [] (init tt) (or_introl eq_refl) eq_refl ltac:(discriminate)) as [H _].
  apply wp_run in H as [(z & s' & _ & [])|(t & s' & Hrun & Ht)]. assert (t = Exit 0) as -> by (apply (f_equal fst) in Hrun; vm_compute in Hrun; congruence).
  exists s'. split; [exact Hrun|by apply Ht].
Defined.

(** The second file gets the attributes of the first, and with - it loses what
    it should keep. *)
Example second_file :
  sets (trace (@chiflag_main unit (attr_os FS_NODUMP_FL 0) [str "chiflag"; str "+a"; str "f"; str "g"] (init tt)).2) = [FS_APPEND_FL + FS_NODUMP_FL; FS_APPEND_FL + FS_NODUMP_FL] ∧
  sets (trace (@chiflag_main unit (attr_os (FS_APPEND_FL + FS_NODUMP_FL) (FS_APPEND_FL + FS_NODUMP_FL)) [str "chiflag"; str "-a"; str "f"; str "g"] (init tt)).2) = [FS_NODUMP_FL; FS_APPEND_FL].
Proof. split; vm_compute; reflexivity. Qed.
