(* ===== verification/SemOps.v ===== *)
(** tlpi-book/svsem/svsem_op.c: operations on semaphores from their text, and
    tlpi-book/lib/curr_time.c. *)
From S2P Require Import Prelude Sys ErrorFns GetNum Shell SvmsgFile Printing Seqnum Coprocess Attrs.

Definition MAX_SEMOPS : Z := 1000.
Definition IPC_NOWAIT : Z := 2048.
Definition SEM_UNDO : Z := 4096.

Record sembuf := Sembuf { sem_num : Z; sem_op : Z; sem_flg : Z }.

(** The flags, and what follows them. *)
Fixpoint op_flags (flg : Z) (flags : cstr) : Z * cstr :=
  match flags with
  | c :: rest =>
      if bool_decide (c = "n"%char) then op_flags (Z.lor flg IPC_NOWAIT) rest
      else if bool_decide (c = "u"%char) then op_flags (Z.lor flg SEM_UNDO) rest
      else (flg, flags)
  | [] => (flg, [])
  end.

Definition quoted (arg : cstr) : cstr := [DQ] ++ arg ++ [DQ].
Definition starts_with_digit (s : cstr) : bool := match s with c :: _ => isdigit c | [] => false end.

Section Programs.
Context {S : Type} `{os}.

(** *** curr_time.c *)

Definition currTime (format : option cstr) : M S (option cstr) :=
  sys Ctime;;
  tm ← sys (Cextern "localtime" [] []);
  if rv tm =? -1 then mret None else
  s ← sys (Cextern "strftime" [1000] (default (str "%c") format));
  mret (if rv s =? 0 then None else Some (c_str (rdata s))).

(** *** svsem_op.c *)

Definition semop_usage_text (progName : cstr) : cstr :=
  str "Usage: " ++ progName ++ str " semid op[,op...] ..." ++ [NL; NL] ++
  str "'op' is either: <sem#>{+|-}<value>[n][u]" ++ [NL] ++
  str "            or: <sem#>=0[n]" ++ [NL] ++
  str "       " ++ quoted (str "n") ++ str " means include IPC_NOWAIT in 'op'" ++ [NL] ++
  str "       " ++ quoted (str "u") ++ str " means include SEM_UNDO in 'op'" ++ [NL; NL] ++
  str "The operations in each argument are performed in a single semop() call" ++ [NL; NL] ++
  str "e.g.: " ++ progName ++ str " 12345 0+1,1-2un" ++ [NL] ++
  str "      " ++ progName ++ str " 12345 0=0n 1+1,2-1u 1=0" ++ [NL].

Definition semop_usage {A} (progName : cstr) : M S A := out Stderr (semop_usage_text progName);; stop_with (Exit 1).

(** One operation: [sops] are those before it. *)
Definition parse_op (arg : cstr) (x : list sembuf * cstr) : M S (list sembuf * cstr + list sembuf) :=
  let '(sops, remaining) := x in
  if MAX_SEMOPS <=? Z.of_nat (length sops) then cmdLineErr (str "Too many operations (maximum=" ++ dec MAX_SEMOPS ++ str "): " ++ quoted arg ++ [NL]) else
  if bool_decide (remaining = []) then fatal (str "Trailing comma or empty argument: " ++ quoted arg) else
  if negb (starts_with_digit remaining) then cmdLineErr (str "Expected initial digit: " ++ quoted arg ++ [NL]) else
  let '(num, sign, _) := strtol remaining 10 in
  match sign with
  | [] => cmdLineErr (str "Expected '+', '-', or '=' in " ++ quoted arg ++ [NL])
  | sg :: value =>
      if negb (bool_decide (sg ∈ str "+-=")) then cmdLineErr (str "Expected '+', '-', or '=' in " ++ quoted arg ++ [NL]) else
      if negb (starts_with_digit value) then cmdLineErr (str "Expected digit after '" ++ [sg] ++ str "' in " ++ quoted arg ++ [NL]) else
      let '(val, flags, _) := strtol value 10 in
      let op := wrap_s 16 val in
      op ← (if bool_decide (sg = "-"%char) then mret (wrap_s 16 (- op))
            else if bool_decide (sg = "="%char) && negb (op =? 0) then cmdLineErr (str "Expected " ++ quoted (str "=0") ++ str " in " ++ quoted arg ++ [NL])
            else mret op);
      let '(flg, rest) := op_flags 0 flags in
      let sops := sops ++ [Sembuf (wrap_u 16 num) op flg] in
      match rest with
      | [] => mret (inr sops)
      | c :: rest =>
          if negb (bool_decide (c = ","%char)) then cmdLineErr (str "Bad trailing character (" ++ [c] ++ str ") in " ++ quoted arg ++ [NL])
          else mret (inl (sops, rest))
      end
  end.

(** The flags end where the comma is: the text before it has none. *)
Definition parseOps (arg : cstr) : M S (list sembuf) := loop (length arg + 1) (parse_op arg) ([], arg).

Definition semop_line (pid : Z) (time : option cstr) (what arg : cstr) : cstr :=
  pad_left 5 " "%char (dec pid) ++ str ", " ++ default (str "(null)") time ++ str ": " ++ what ++ str " [" ++ arg ++ str "]" ++ [NL].

Definition run_ops (semid : cstr) (arg : cstr) : M S unit :=
  sops ← parseOps arg;
  p ← sys Cgetpid;
  t ← currTime (Some (str "%T"));
  out Stdout (semop_line (rv p) t (str "about to semop() ") arg);;
  id ← getInt (Some semid) 0 (Some (str "semid"));
  r ← sys (Cextern "semop" (id :: concat ((λ s, [sem_num s; sem_op s; sem_flg s]) <$> sops)) []);
  if rv r =? -1 then (p ← sys Cgetpid; errExit (str "semop (PID=" ++ dec (rv p) ++ str ")")) else
  p ← sys Cgetpid;
  t ← currTime (Some (str "%T"));
  out Stdout (semop_line (rv p) t (str "semop() completed") arg).

Definition semop_main (argv : list cstr) : M S unit :=
  match argv with
  | progName :: semid :: args =>
      if streq semid (str "--help") then semop_usage progName else
      for_each args (run_ops semid);;
      stop_with (Exit 0)
  | _ => semop_usage (default [] (argv !! 0%nat))
  end.
End Programs.

(** ** Operations and their text *)

Inductive action := Add (v : Z) | Subtract (v : Z) | Zero.
Record operation := Operation { on : Z; does : action; nowait : bool; undo : bool }.

Definition operation_text (o : operation) : cstr :=
  dec (on o) ++
  match does o with Add v => "+"%char :: dec v | Subtract v => "-"%char :: dec v | Zero => str "=0" end ++
  (if nowait o then str "n" else []) ++ (if undo o then str "u" else []).
Definition encoded (o : operation) : sembuf :=
  Sembuf (on o) (match does o with Add v => v | Subtract v => - v | Zero => 0 end)
    ((if nowait o then IPC_NOWAIT else 0) + (if undo o then SEM_UNDO else 0)).
Definition operation_ok (o : operation) : Prop :=
  0 <= on o < 2 ^ 16 ∧ match does o with Add v | Subtract v => 0 <= v < 2 ^ 15 | Zero => True end.

Fixpoint operations_text (o : operation) (os : list operation) : cstr :=
  match os with
  | [] => operation_text o
  | o' :: os => operation_text o ++ ","%char :: operations_text o' os
  end.

Lemma dec_starts n rest : 0 <= n → starts_with_digit (dec n ++ rest) = true.
Proof.
  intros Hn. unfold dec. rewrite (proj2 (Z.ltb_ge n 0)) by lia. destruct (dec_nat_digits n Hn) as (d & ds & v & vs & -> & HF & _).
  inversion HF as [|? ? ? ? Hd _]; subst. cbn. unfold digit_in, digit_val in Hd. unfold isdigit. destruct ((48 <=? code d) && (code d <=? 57)) eqn:E; [done|]. exfalso.
  destruct ((97 <=? code d) && (code d <=? 122)) eqn:E2; cbn in Hd.
  - apply andb_true_iff in E2 as [E2 _]. apply Z.leb_le in E2. destruct (Z.ltb_spec (code d - 87) 10); [lia|done].
  - destruct ((65 <=? code d) && (code d <=? 90)) eqn:E3; cbn in Hd; [|done]. apply andb_true_iff in E3 as [E3 _]. apply Z.leb_le in E3. destruct (Z.ltb_spec (code d - 55) 10); [lia|done].
Qed.

(** strtol on a number and what follows it, which does not begin with a digit. *)
Lemma strtol_number n rest : 0 <= n < 2 ^ 31 → ends_number 10 rest → strtol (dec n ++ rest) 10 = (n, rest, 0).
Proof. intros Hn Hrest. apply (strtol_text n rest []); [unfold LONG_MIN, LONG_MAX; lia|done|constructor]. Qed.

Definition flags_text (o : operation) : cstr := (if nowait o then str "n" else []) ++ (if undo o then str "u" else []).
Lemma op_flags_text o rest : match rest with c :: _ => c = ","%char | [] => True end →
  op_flags 0 (flags_text o ++ rest) = (sem_flg (encoded o), rest).
Proof. unfold flags_text, encoded. cbn [sem_flg]. intros Hr. destruct (nowait o), (undo o), rest as [|c rest]; subst; done. Qed.

Section Specs.
Context {S : Type} `{os}.
Implicit Types s : st S.

(** An operation is read back from its text. *)
Lemma parse_op_text arg o rest sops s :
  operation_ok o → Z.of_nat (length sops) < MAX_SEMOPS → match rest with c :: _ => c = ","%char | [] => True end →
  parse_op arg (sops, operation_text o ++ rest) s =
    (Ret match rest with [] => inr (sops ++ [encoded o]) | _ :: rest => inl (sops ++ [encoded o], rest) end, s).
Proof using.
  intros [Hnum Hact] Hlen Hrest. unfold parse_op. rewrite (proj2 (Z.leb_gt _ _)) by done.
  set (tail := flags_text o ++ rest). assert (match tail with c :: _ => digit_in 10 c = None | [] => True end) as Htail by (unfold tail, flags_text; destruct (nowait o), (undo o), rest; subst; done).
  assert (∃ sg v, operation_text o ++ rest = dec (on o) ++ sg :: dec v ++ tail ∧ 0 <= v < 2 ^ 15 ∧ digit_in 10 sg = None ∧ sg ∈ str "+-=" ∧
    (if bool_decide (sg = "-"%char) then wrap_s 16 (- v) else v) = sem_op (encoded o) ∧ (sg = "="%char → v = 0)) as (sg & v & -> & Hv & Hsg & Hin & Hop & Hz).
  { unfold operation_text, tail, flags_text, encoded. cbn [sem_op]. destruct (does o) as [v|v|].
    - exists "+"%char, v. split; [by rewrite <-!app_assoc|]. split_and!; [lia|lia|done|apply (bool_decide_unpack _); vm_compute; exact I|done|done].
    - exists "-"%char, v. split; [by rewrite <-!app_assoc|]. split_and!; [lia|lia|done|apply (bool_decide_unpack _); vm_compute; exact I| |done]. rewrite bool_decide_eq_true_2 by done. apply wrap_s_id; [lia|]. lia.
    - exists "="%char, 0. split; [by rewrite <-!app_assoc|]. split_and!; [lia|lia|done|apply (bool_decide_unpack _); vm_compute; exact I|done|done]. }
  pose proof (dec_starts (on o) (sg :: dec v ++ tail) ltac:(lia)) as Hst. rewrite bool_decide_eq_false_2 by (intros E; rewrite E in Hst; done). rewrite Hst. cbn [negb].
  rewrite strtol_number by (lia || done). cbv beta iota. rewrite bool_decide_eq_true_2 by done. cbn [negb]. rewrite dec_starts by lia. cbn [negb].
  rewrite strtol_number by (lia || done). cbv beta iota zeta. rewrite (wrap_s_id 16 v ltac:(lia)) by lia.
  assert (∀ s, (if bool_decide (sg = "-"%char) then mret (wrap_s 16 (- v)) else if bool_decide (sg = "="%char) && negb (v =? 0) then cmdLineErr (str "Expected " ++ quoted (str "=0") ++ str " in " ++ quoted arg ++ [NL]) else mret v : M S Z) s = (Ret (sem_op (encoded o)), s)) as Hval.
  { intros s1. rewrite <-Hop. destruct (bool_decide (sg = "-"%char)); [done|]. destruct (bool_decide_reflect (sg = "="%char)) as [E|E]; [|done]. by rewrite (Hz E). }
  rewrite (bind_Ret _ _ _ _ _ (Hval s)). unfold tail. rewrite op_flags_text by done. unfold wrap_u. rewrite Z.mod_small by lia.
  destruct rest as [|c rest]; [done|]. subst. rewrite bool_decide_eq_true_2 by done. done.
Qed.

Lemma parse_ops_text arg os : ∀ o sops fuel s,
  Forall operation_ok (o :: os) → Z.of_nat (length sops + length (o :: os)) <= MAX_SEMOPS → (length os < fuel)%nat →
  loop fuel (parse_op arg) (sops, operations_text o os) s = (Ret (sops ++ (encoded <$> o :: os)), s).
Proof using.
  induction os as [|o' os IH]; intros o sops fuel s Hok Hlen Hf; (destruct fuel as [|fuel]; [cbn in Hf; lia|]); rewrite loop_S; apply Forall_cons in Hok as [Ho Hok]; cbn [operations_text length] in *.
  - rewrite <-(app_nil_r (operation_text o)). rewrite (bind_Ret _ _ _ _ _ (parse_op_text arg o [] sops s Ho ltac:(lia) I)). done.
  - rewrite (bind_Ret _ _ _ _ _ (parse_op_text arg o (","%char :: operations_text o' os) sops s Ho ltac:(lia) eq_refl)).
    rewrite IH; [by rewrite <-app_assoc|done|rewrite length_app; cbn [length]; lia|lia].
Qed.
End Specs.

Lemma operations_text_length o os : (length os < length (operations_text o os) + 1)%nat.
Proof.
  revert o. induction os as [|o' os IH]; intros o; cbn [operations_text length]; [lia|]. rewrite length_app. cbn [length]. specialize (IH o'). lia.
Qed.

(** Up to 1000 operations are read back from their text, with nothing done
    besides. *)
Theorem parseOps_roundtrip {S} `{os} o ops (s : st S) :
  Forall operation_ok (o :: ops) → Z.of_nat (length (o :: ops)) <= MAX_SEMOPS →
  parseOps (operations_text o ops) s = (Ret (encoded <$> o :: ops), s).
Proof. intros Hok Hlen. unfold parseOps. rewrite parse_ops_text; [done|done|done|apply operations_text_length]. Qed.

Lemma parseOps_witness :
  @parseOps unit (test_os (λ _ _, ok 0)) (str "0+1,1-2nu,3=0n") (init tt) = (Ret [Sembuf 0 1 0; Sembuf 1 (-2) 6144; Sembuf 3 0 2048], init tt).
Proof.
  refine (eq_trans _ (@parseOps_roundtrip unit (test_os (λ _ _, ok 0)) (Operation 0 (Add 1) false false) [Operation 1 (Subtract 2) true true; Operation 3 Zero true false] (init tt) _ _)).
  - vm_compute. reflexivity.
  - repeat (apply Forall_cons; split; [split; [cbn; lia|cbn; try lia; exact I]|]). constructor.
  - cbn. unfold MAX_SEMOPS. lia.
Defined.

(** A value that does not fit in a short is another operation: this one, which
    is to add, waits for zero. *)
Example wrapped_value :
  (@parseOps unit (test_os (λ _ _, ok 0)) (str "0+65536") (init tt)).1 = Ret [Sembuf 0 0 0].
Proof. vm_compute. reflexivity. Qed.

(** ** What is asked of the semaphores *)

Definition semop_of (c : call) : option (list Z) := match c with Cextern "semop" l _ => Some l | _ => None end.
Definition semops (tr : list event) : list (list Z) := omap (λ x, semop_of x.1) (calls tr).
Lemma semops_other tr c r : semop_of c = None → semops (tr ++ [Esys c r]) = semops tr.
Proof. intros Hc. unfold semops. rewrite calls_snoc_sys, omap_app. cbn. rewrite Hc. apply app_nil_r. Qed.
Lemma semops_semop tr l t r : semops (tr ++ [Esys (Cextern "semop" l t) r]) = semops tr ++ [l].
Proof. unfold semops. by rewrite calls_snoc_sys, omap_app. Qed.
Lemma semops_out tr f t : semops (tr ++ [Eout f t]) = semops tr.
Proof. unfold semops. by rewrite calls_snoc_out. Qed.

Definition semop_request (id : Z) (ops : list operation) : list Z := id :: concat ((λ o, let b := encoded o in [sem_num b; sem_op b; sem_flg b]) <$> ops).

Section Requests.
Context {S : Type} `{os}.
Implicit Types s : st S.

Lemma wp_currTime format s l (Q : option cstr → st S → Prop) E :
  semops (trace s) = l → (∀ t s', semops (trace s') = l → Q t s') → wp (currTime format) Q E s.
Proof using.
  intros Hs HQ. unfold currTime. apply wp_bind, wp_call. intros t s1 _ _ _ _ T1. apply wp_bind, wp_call. intros tm s2 _ _ _ _ T2.
  assert (semops (trace s2) = l) as H2 by by rewrite T2, semops_other, T1, semops_other.
  destruct (rv tm =? -1); [by apply wp_ret, HQ|]. apply wp_bind, wp_call. intros r s3 _ _ _ _ T3. apply wp_ret, HQ. by rewrite T3, semops_other.
Qed.

Lemma wp_run_ops semid o ops s :
  Forall operation_ok (o :: ops) → Z.of_nat (length (o :: ops)) <= MAX_SEMOPS →
  wp (run_ops semid (operations_text o ops))
    (λ _ s', ∃ id, wanted (Some semid) 0 INT_MIN INT_MAX id ∧ semops (trace s') = semops (trace s) ++ [semop_request id (o :: ops)]) (λ t _, t ≠ Exit 0) s.
Proof using.
  intros Hok Hlen. unfold run_ops. apply wp_bind. unfold wp at 1. unfold parseOps. rewrite parse_ops_text; [|done|done|apply operations_text_length]. cbv beta iota.
  apply wp_bind, wp_call. intros p s1 _ _ _ _ T1. apply wp_bind. eapply (wp_currTime _ s1 (semops (trace s))); [by rewrite T1, semops_other|]. intros t s2 H2.
  apply wp_bind, wp_emit, wp_bind. eapply wp_mono; [apply wp_getInt| |intros ? ? [-> _]; done]. intros id s3 [Hid ->]. cbn [trace glob]. apply wp_bind, wp_call. intros r s4 _ _ _ _ T4. cbn [trace] in T4.
  destruct (rv r =? -1).
  - apply wp_bind, wp_call. intros q s5 _ _ _ _ _. apply wp_errExit. intros. apply end_of_not_success.
  - assert (semops (trace s4) = semops (trace s) ++ [semop_request id (o :: ops)]) as H4.
    { rewrite T4, semops_semop, semops_out, H2. do 2 f_equal. unfold semop_request. cbn [app]. f_equal. by rewrite <-list_fmap_compose. }
    apply wp_bind, wp_call. intros q s5 _ _ _ _ T5. apply wp_bind. eapply (wp_currTime _ s5 (semops (trace s4))); [by rewrite T5, semops_other|]. intros t' s6 H6. apply wp_emit. exists id. split; [done|]. cbn [trace]. by rewrite semops_out, H6.
Qed.
End Requests.

(** svsem_op, on the texts of operations, when it succeeds: one semop for each
    argument, in order, with the operations of that argument and no others. *)
Theorem svsem_op_correct {S} `{os} prog semid opss (s : st S) :
  semid ≠ str "--help" →
  Forall (λ x : operation * list operation, Forall operation_ok (x.1 :: x.2) ∧ Z.of_nat (length (x.1 :: x.2)) <= MAX_SEMOPS) opss →
  wp (semop_main (prog :: semid :: ((λ x, operations_text x.1 x.2) <$> opss))) (λ _ _, False)
    (λ t s', t = Exit 0 → ∃ ids, Forall (wanted (Some semid) 0 INT_MIN INT_MAX) ids ∧ length ids = length opss ∧
       semops (trace s') = semops (trace s) ++ zip_with semop_request ids ((λ x, x.1 :: x.2) <$> opss)) s.
Proof.
  intros Hhelp Hok. unfold semop_main. rewrite (proj2 (streq_false _ _) Hhelp). apply wp_bind.
  set (E := λ t s', t = Exit 0 → _).
  enough (∀ opss (s1 : st S), Forall (λ x : operation * list operation, Forall operation_ok (x.1 :: x.2) ∧ Z.of_nat (length (x.1 :: x.2)) <= MAX_SEMOPS) opss →
    wp (for_each ((λ x, operations_text x.1 x.2) <$> opss) (run_ops semid)) (λ _ s', ∃ ids, Forall (wanted (Some semid) 0 INT_MIN INT_MAX) ids ∧ length ids = length opss ∧
       semops (trace s') = semops (trace s1) ++ zip_with semop_request ids ((λ x, x.1 :: x.2) <$> opss)) (λ t _, t ≠ Exit 0) s1) as Hgen.
  { eapply wp_mono; [by apply Hgen| |]; [intros [] s' Hs'; apply wp_stop; intros _; exact Hs'|intros t s' Ht Et; done]. }
  clear. induction opss as [|[o ops] opss IH]; intros s1 Hok.
  - apply wp_ret. exists []. by rewrite app_nil_r.
  - apply Forall_cons in Hok as [[Ho Hlen] Hok]. cbn [fmap list_fmap for_each fst snd]. apply wp_bind. eapply wp_mono; [by apply wp_run_ops| |done]. intros [] s2 (id & Hid & H2).
    eapply wp_mono; [by apply IH| |done]. intros [] s3 (ids & Hids & Hl & H3). exists (id :: ids). split; [by constructor|]. split; [cbn; lia|]. rewrite H3, H2, <-app_assoc. done.
Qed.

Lemma svsem_op_witness :
  ∃ s', @semop_main unit (test_os (λ _ _, ok 0)) [str "svsem_op"; str "7"; str "0+1"; str "1-2n"] (init tt) = (Stop (Exit 0), s') ∧
    semops (trace s') = [[7; 0; 1; 0]; [7; 1; -2; 2048]].
Proof.
  pose proof (@svsem_op_correct unit (test_os (λ _ _, ok 0)) (str "svsem_op") (str "7") [(Operation 0 (Add 1) false false, []); (Operation 1 (Subtract 2) true false, [])] (init tt)) as H.
  lapply H; [clear H; intros H|discriminate].
  lapply H; [clear H; intros H|].
  2: { repeat (apply Forall_cons; split; [split; [repeat (apply Forall_cons; split; [split; [cbn; lia|cbn; lia]|]); constructor|cbn; unfold MAX_SEMOPS; lia]|]). constructor. }
  apply wp_run in H as [(z & s' & _ & [])|(t & s' & Hrun & _)].
  change ((λ x : operation * list operation, operations_text x.1 x.2) <$> _) with [str "0+1"; str "1-2n"] in Hrun. exists s'.
  assert (t = Exit 0) as -> by (apply (f_equal fst) in Hrun; vm_compute in Hrun; congruence). split; [exact Hrun|].
  apply (f_equal (λ x, semops (trace x.2))) in Hrun. cbn [snd] in Hrun. rewrite <-Hrun. vm_compute. reflexivity.
Defined.
