(* ===== verification/Locking.v ===== *)
(** tlpi-book/filelock/i_fcntl_locking.c: locks on a file, command by command. *)
From S2P Require Import Prelude Sys ErrorFns GetNum SvmsgFile Printing Dict Coprocess Attrs.

Definition LOCK_LINE : Z := 100.
Definition F_GETLK : Z := 5.
Definition F_SETLK : Z := 6.
Definition F_SETLKW : Z := 7.
Definition F_RDLCK : Z := 0.
Definition F_WRLCK : Z := 1.
Definition F_UNLCK : Z := 2.
Definition SEEK_SET : Z := 0.
Definition SEEK_CUR : Z := 1.
Definition SEEK_END : Z := 2.
Definition EDEADLK : Z := 35.

(** sscanf: a character, and a number; each is preceded by spaces. *)
Definition scan_char (s : cstr) : option (ascii * cstr) := match skip_spaces s with c :: s => Some (c, s) | [] => None end.
Definition scan_long (s : cstr) : option (Z * cstr) :=
  let '(v, rest, _) := strtol s 10 in if bool_decide (rest = s) then None else Some (v, rest).

(** sscanf (line, "%c %c %lld %lld %c", ...) when it reads at least four: the
    fifth is s unless it is there.  The first takes no spaces before it. *)
Definition scan_lock_command (line : cstr) : option (ascii * ascii * Z * Z * ascii) :=
  match line with
  | [] => None
  | cmdCh :: s =>
      '(lock, s) ← scan_char s;
      '(st, s) ← scan_long s;
      '(len, s) ← scan_long s;
      Some (cmdCh, lock, st, len, match scan_char s with Some (whence, _) => whence | None => "s"%char end)
  end.

(** What fcntl stores for F_GETLK. *)
Record flock := Flock { l_type : Z; l_start : Z; l_len : Z; l_pid : Z }.
Definition flock_of (r : reply) : flock := let f k := nth k (snd <$> rents r) 0 in Flock (f 0%nat) (f 1%nat) (f 2%nat) (f 3%nat).

Definition cmd_of (cmdCh : ascii) : Z := if bool_decide (cmdCh = "g"%char) then F_GETLK else if bool_decide (cmdCh = "s"%char) then F_SETLK else F_SETLKW.
Definition type_of (lock : ascii) : Z := if bool_decide (lock = "r"%char) then F_RDLCK else if bool_decide (lock = "w"%char) then F_WRLCK else F_UNLCK.
Definition whence_of (whence : ascii) : Z := if bool_decide (whence = "c"%char) then SEEK_CUR else if bool_decide (whence = "e"%char) then SEEK_END else SEEK_SET.

Definition help_text : cstr :=
  [NL] ++ str "    Format: cmd lock start length [whence]" ++ [NL; NL] ++
  str "    'cmd' is 'g' (GETLK), 's' (SETLK), or 'w' (SETLKW)" ++ [NL] ++
  str "    'lock' is 'r' (READ), 'w' (WRITE), or 'u' (UNLOCK)" ++ [NL] ++
  str "    'start' and 'length' specify byte range to lock" ++ [NL] ++
  str "    'whence' is 's' (SEEK_SET, default), 'c' (SEEK_CUR), or 'e' (SEEK_END)" ++ [NL; NL].

Definition pid_text (pid : Z) : cstr := str "[PID=" ++ dec pid ++ str "] ".
Definition denied_text (fl : flock) : cstr :=
  str "Denied by " ++ (if l_type fl =? F_RDLCK then str "READ" else str "WRITE") ++ str " lock on " ++ dec (l_start fl) ++ str ":" ++ dec (l_len fl) ++
  str " (held by PID " ++ dec (l_pid fl) ++ str ")" ++ [NL].

Section Program.
Context {S : Type} `{os}.

Definition displayCmdFmt : M S unit := out Stdout help_text.
Definition say (text : cstr) : M S unit := p ← sys Cgetpid; out Stdout (pid_text (rv p) ++ text).

Definition do_lock (fd cmd : Z) (lock : ascii) (st len whence : Z) : M S unit :=
  status ← sys (Clock fd cmd (type_of lock) whence st len);
  if cmd =? F_GETLK then
    if rv status =? -1 then errMsg (str "fcntl - F_GETLK")
    else if l_type (flock_of status) =? F_UNLCK then say (str "Lock can be placed" ++ [NL])
    else say (denied_text (flock_of status))
  else if rv status =? 0 then say ((if bool_decide (lock = "u"%char) then str "unlocked" else str "got lock") ++ [NL])
  else
    e ← get_errno;
    if (e =? EAGAIN) || (e =? EACCES) then say (str "failed (incompatible lock)" ++ [NL])
    else if e =? EDEADLK then say (str "failed (deadlock)" ++ [NL])
    else errMsg (str "fcntl - F_SETLK(W)").

Definition lock_turn (fd : Z) : M S (unit + unit) :=
  p ← sys Cgetpid;
  out Stdout (str "PID=" ++ dec (rv p) ++ str "> ");;
  sys (Cfflush Stdout);;
  r ← sys (Cfgets LOCK_LINE);
  if rv r =? 0 then stop_with (Exit 0) else
  let line := c_str (rdata r) in
  if bool_decide (line = []) then stop_with (Undefined "store before the array") else
  let line := take (length line - 1) line in
  (if bool_decide (line = []) then mret tt
   else if bool_decide (head line = Some "?"%char) then displayCmdFmt
   else
     match scan_lock_command line with
     | Some (cmdCh, lock, st, len, whence) =>
         if negb (bool_decide (cmdCh ∈ str "gsw")) || negb (bool_decide (lock ∈ str "rwu")) || negb (bool_decide (whence ∈ str "sce")) then out Stdout (str "Invalid command!" ++ [NL])
         else do_lock fd (cmd_of cmdCh) lock st len (whence_of whence)
     | None => out Stdout (str "Invalid command!" ++ [NL])
     end);;
  mret (inl tt).

Definition locking_main (fuel : nat) (argv : list cstr) : M S unit :=
  match argv with
  | [progName; file] =>
      if streq file (str "--help") then usageErr (progName ++ str " file" ++ [NL]) else
      fd ← sys (Copen file 2 0);
      if rv fd =? -1 then errExit (str "open (" ++ file ++ str ")") else
      out Stdout (str "Enter ? for help" ++ [NL]);;
      loop fuel (λ _, lock_turn (rv fd)) tt
  | _ => usageErr (default [] (argv !! 0%nat) ++ str " file" ++ [NL])
  end.
End Program.

(** ** Commands and their text *)

Inductive locking := Get | Set_ | Wait.
Inductive kind := Read_lock | Write_lock | Unlock_.
Inductive origin := From_start | From_current | From_end.
Record command := Command { how : locking; what : kind; from_ : Z; size : Z; base : option origin }.

Definition how_char (h : locking) : ascii := match h with Get => "g" | Set_ => "s" | Wait => "w" end.
Definition what_char (k : kind) : ascii := match k with Read_lock => "r" | Write_lock => "w" | Unlock_ => "u" end.
Definition base_char (o : origin) : ascii := match o with From_start => "s" | From_current => "c" | From_end => "e" end.
Definition SP : ascii := " ".
Definition command_text (c : command) : cstr :=
  [how_char (how c); SP; what_char (what c); SP] ++ dec (from_ c) ++ [SP] ++ dec (size c) ++ match base c with Some o => [SP; base_char o] | None => [] end.
Definition is_long (z : Z) : Prop := LONG_MIN <= z <= LONG_MAX.

(** The call a command stands for. *)
Definition command_call (fd : Z) (c : command) : call :=
  Clock fd (match how c with Get => F_GETLK | Set_ => F_SETLK | Wait => F_SETLKW end) (match what c with Read_lock => F_RDLCK | Write_lock => F_WRLCK | Unlock_ => F_UNLCK end)
    (match base c with Some From_current => SEEK_CUR | Some From_end => SEEK_END | _ => SEEK_SET end) (from_ c) (size c).

Lemma scan_long_text z rest ws : is_long z → ends_number 10 rest → Forall (λ c, isspace c = true) ws → scan_long (ws ++ dec z ++ rest) = Some (z, rest).
Proof.
  intros Hz Hr Hws. unfold scan_long. rewrite strtol_text by done. rewrite bool_decide_eq_false_2; [done|]. intros E. apply (f_equal length) in E. rewrite !length_app in E.
  assert (0 < length (dec z))%nat by (rewrite dec_size; pose proof (dec_nat_pos (Z.abs z)); lia). lia.
Qed.

Lemma scan_lock_command_text c : is_long (from_ c) → is_long (size c) →
  scan_lock_command (command_text c) = Some (how_char (how c), what_char (what c), from_ c, size c, match base c with Some o => base_char o | None => "s"%char end).
Proof.
  intros Hf Hs. unfold command_text. cbn [app scan_lock_command]. set (tail := match base c with Some o => [SP; base_char o] | None => [] end).
  assert (scan_char (SP :: what_char (what c) :: SP :: dec (from_ c) ++ SP :: dec (size c) ++ tail) = Some (what_char (what c), SP :: dec (from_ c) ++ SP :: dec (size c) ++ tail)) as -> by by destruct (what c).
  cbn. pose proof (scan_long_text (from_ c) (SP :: dec (size c) ++ tail) [SP] Hf eq_refl ltac:(by apply Forall_singleton)) as H1. cbn [app] in H1. rewrite H1. cbn.
  pose proof (scan_long_text (size c) tail [SP] Hs ltac:(unfold tail; by destruct (base c)) ltac:(by apply Forall_singleton)) as H2. cbn [app] in H2. rewrite H2. cbn.
  do 2 f_equal. unfold tail. destruct (base c) as [[]|]; done.
Qed.

(** The answers to F_SETLK and F_SETLKW. *)
Definition set_outcome (c : command) (r : reply) : option cstr :=
  if rv r =? 0 then Some ((match what c with Unlock_ => str "unlocked" | _ => str "got lock" end) ++ [NL])
  else if (rv r =? -1) && ((rerr r =? EAGAIN) || (rerr r =? EACCES)) then Some (str "failed (incompatible lock)" ++ [NL])
  else if (rv r =? -1) && (rerr r =? EDEADLK) then Some (str "failed (deadlock)" ++ [NL])
  else None.

(** What the user is told, when it is not an error message. *)
Definition outcome (c : command) (r : reply) : option cstr :=
  match how c with
  | Get =>
      if rv r =? -1 then None
      else Some (if l_type (flock_of r) =? F_UNLCK then str "Lock can be placed" ++ [NL] else denied_text (flock_of r))
  | _ => set_outcome c r
  end.

Definition is_lock (x : call * reply) : bool := match x.1 with Clock _ _ _ _ _ _ => true | _ => false end.
Definition locks (l : list (call * reply)) : list call := fst <$> filter (λ x, is_lock x = true) l.

Lemma locks_app a b : locks (a ++ b) = locks a ++ locks b.
Proof. unfold locks. by rewrite filter_app, fmap_app. Qed.

(** Telling the user takes the process ID at most. *)
Definition told (l : list (call * reply)) : Prop := l = [] ∨ ∃ q, l = [(Cgetpid, q)].

Definition is_gets (x : call * reply) : bool := match x.1 with Cfgets _ => true | _ => false end.
Definition gets (l : list (call * reply)) : nat := length (filter (λ x, is_gets x = true) l).
Lemma gets_app a b : gets (a ++ b) = (gets a + gets b)%nat.
Proof. unfold gets. by rewrite filter_app, length_app. Qed.

Lemma gets_cons x l : gets (x :: l) = ((if is_gets x then 1 else 0) + gets l)%nat.
Proof. unfold gets. rewrite filter_cons. by destruct (is_gets x). Qed.
Lemma locks_cons x l : locks (x :: l) = (if is_lock x then [x.1] else []) ++ locks l.
Proof. unfold locks. rewrite filter_cons. by destruct (is_lock x). Qed.
Lemma command_is_lock fd c a : is_lock (command_call fd c, a) = true ∧ is_gets (command_call fd c, a) = false.
Proof. by destruct c as [[] [] ? ? [[]|]]. Qed.

Lemma asked_acts tr : asked tr = gets (acts tr).
Proof.
  induction tr as [|e tr IH] using rev_ind; [done|]. rewrite asked_app, acts_app, gets_app, <-IH. f_equal. destruct e as [c r|f t]; [|done]. by destruct c.
Qed.
Lemma asked_acted {S} (s s' : st S) l : acted s l s' → asked (trace s') = (asked (trace s) + gets l)%nat.
Proof. intros [Ha _]. by rewrite !asked_acts, Ha, gets_app. Qed.

Section Specs.
Context {S : Type} `{os}.
Implicit Types s : st S.

Lemma wp_say text s0 l s :
  acted s0 l s → wp (say text) (λ _ s', ∃ q, acted s0 (l ++ [(Cgetpid, q)]) s' ∧ said Stdout (trace s') = said Stdout (trace s) ++ pid_text (rv q) ++ text) (λ _ _, False) s.
Proof using.
  intros H0. unfold say. apply wp_bind. eapply wp_act; [exact H0|done|]. intros q s1 _ H1 _ T1. apply wp_emit. exists q. split; [eapply acted_same; [exact H1| |done]; cbn; by rewrite acts_out|].
  cbn [trace]. by rewrite said_out, T1, said_sys.
Qed.

Lemma wp_set_outcome c r s (Q : unit → st S → Prop) :
  (∀ text, (∀ t, set_outcome c r = Some t → t = text) → wp (say text) Q (λ _ _, False) s) → (∀ text, set_outcome c r = None → wp (errMsg text) Q (λ _ _, False) s) → (rv r = -1 → errno s = rerr r) →
  wp (if rv r =? 0 then say ((if bool_decide (what_char (what c) = "u"%char) then str "unlocked" else str "got lock") ++ [NL])
      else
        e ← get_errno;
        if (e =? EAGAIN) || (e =? EACCES) then say (str "failed (incompatible lock)" ++ [NL])
        else if e =? EDEADLK then say (str "failed (deadlock)" ++ [NL])
        else errMsg (str "fcntl - F_SETLK(W)")) Q (λ _ _, False) s.
Proof using.
  intros Hsay Herr He. unfold set_outcome in Hsay, Herr. destruct (rv r =? 0).
  - apply Hsay. intros t Et. injection Et as <-. by destruct (what c).
  - apply wp_bind, wp_get_errno. destruct (Z.eqb_spec (rv r) (-1)) as [E|E]; cbn [andb] in Hsay, Herr.
    + rewrite (He E). destruct ((rerr r =? EAGAIN) || (rerr r =? EACCES)); [apply Hsay; intros t Et; by injection Et|]. destruct (rerr r =? EDEADLK); [apply Hsay; intros t Et; by injection Et|by apply Herr].
    + destruct ((errno s =? EAGAIN) || (errno s =? EACCES)); [by apply Hsay|]. destruct (errno s =? EDEADLK); [by apply Hsay|by apply Herr].
Qed.

Lemma wp_do_lock fd c s0 l s :
  acted s0 l s →
  wp (do_lock fd (cmd_of (how_char (how c))) (what_char (what c)) (from_ c) (size c) (whence_of match base c with Some o => base_char o | None => "s"%char end))
    (λ _ s', ∃ r l', acted s0 (l ++ (command_call fd c, r) :: l') s' ∧ told l' ∧
       ∀ t, outcome c r = Some t → ∃ pid, said Stdout (trace s') = said Stdout (trace s) ++ pid_text pid ++ t) (λ _ _, False) s.
Proof using.
  intros H0. unfold do_lock. assert (Clock fd (cmd_of (how_char (how c))) (type_of (what_char (what c))) (whence_of match base c with Some o => base_char o | None => "s"%char end) (from_ c) (size c) = command_call fd c) as -> by (destruct c as [[] [] ? ? [[]|]]; done).
  apply wp_bind. eapply wp_act; [exact H0|by destruct c as [[] [] ? ? [[]|]]|]. intros r s1 _ H1 He T1.
  assert (said Stdout (trace s1) = said Stdout (trace s)) as S1 by by rewrite T1, said_sys.
  set (Q := λ (_ : unit) (s' : st S), _). assert (∀ text, (∀ t, outcome c r = Some t → t = text) → wp (say text) Q (λ _ _, False) s1) as Hsay.
  { intros text Ho. eapply wp_mono; [apply (wp_say text s0 (l ++ [(command_call fd c, r)]) s1 H1)| |done].
    intros [] s3 (q & H3 & S3). exists r, [(Cgetpid, q)]. split; [by rewrite <-app_assoc in H3|]. split; [right; by exists q|]. intros t Et. exists (rv q). by rewrite S3, S1, (Ho t Et). }
  assert (∀ text, outcome c r = None → wp (errMsg text) Q (λ _ _, False) s1) as Herr.
  { intros text Ho. apply wp_errMsg. intros s2 Hg _ Ha. exists r, []. split; [by eapply acted_same|]. split; [by left|]. intros t Et. congruence. }
  clearbody Q. unfold outcome in Hsay, Herr. destruct (how c) eqn:Eh.
  - change (cmd_of (how_char Get) =? F_GETLK) with true. cbv iota. destruct (rv r =? -1); [by apply Herr|]. destruct (_ =? F_UNLCK); apply Hsay; intros t Et; by injection Et.
  - change (cmd_of (how_char Set_) =? F_GETLK) with false. cbv iota. apply wp_set_outcome; [done|done|done].
  - change (cmd_of (how_char Wait) =? F_GETLK) with false. cbv iota. apply wp_set_outcome; [done|done|done].
Qed.

(** A turn in which the user enters a command. *)
Lemma wp_lock_turn fd c s0 l s :
  is_long (from_ c) → is_long (size c) → acted s0 l s →
  (∀ tr, asked tr = asked (trace s) → let r := kern tr (Cfgets LOCK_LINE) in rv r ≠ 0 ∧ c_str (rdata r) = command_text c ++ [NL]) →
  wp (lock_turn fd)
    (λ r s', r = inl tt ∧ ∃ p g a l', acted s0 (l ++ (Cgetpid, p) :: (Cfgets LOCK_LINE, g) :: (command_call fd c, a) :: l') s' ∧ told l' ∧
       ∀ t, outcome c a = Some t → ∃ pid, said Stdout (trace s') = said Stdout (trace s) ++ str "PID=" ++ dec (rv p) ++ str "> " ++ pid_text pid ++ t) (λ _ _, False) s.
Proof using.
  intros Hf Hs H0 Hgets. unfold lock_turn. apply wp_bind. eapply wp_act; [exact H0|done|]. intros p s1 _ H1 _ T1. apply wp_bind, wp_emit. apply wp_bind, wp_call. intros fl s2 _ G2 _ _ T2. cbn [glob trace] in *.
  assert (acted s0 (l ++ [(Cgetpid, p)]) s2) as H2 by (eapply acted_same; [exact H1| |done]; rewrite T2, acts_app, acts_out; apply app_nil_r).
  assert (asked (trace s2) = asked (trace s)) as A2 by (rewrite T2, asked_app, asked_out, T1, asked_app; change (asked [Esys (Cfflush Stdout) fl]) with 0%nat; change (asked [Esys Cgetpid p]) with 0%nat; lia).
  apply wp_bind. eapply wp_act; [exact H2|done|]. intros g s3 Hg H3 _ T3. destruct (Hgets (trace s2) A2) as [Hg0 Hgt]. rewrite <-Hg in Hg0, Hgt. rewrite (proj2 (Z.eqb_neq _ _) Hg0), Hgt. cbv zeta.
  rewrite bool_decide_eq_false_2 by (destruct (command_text c); done). assert (take (length (command_text c ++ [NL]) - 1) (command_text c ++ [NL]) = command_text c) as -> by (rewrite length_app, Nat.add_sub; apply take_app_length).
  apply wp_bind. rewrite bool_decide_eq_false_2 by done. rewrite bool_decide_eq_false_2 by (unfold command_text; cbn; by destruct (how c)). rewrite scan_lock_command_text by done.
  assert (negb (bool_decide (how_char (how c) ∈ str "gsw")) || negb (bool_decide (what_char (what c) ∈ str "rwu")) || negb (bool_decide (match base c with Some o => base_char o | None => "s"%char end ∈ str "sce")) = false) as -> by (destruct (how c), (what c), (base c) as [[]|]; vm_compute; reflexivity).
  eapply wp_mono; [by apply wp_do_lock| |done]. intros [] s4 (r & l' & H4 & Hl' & Hsaid). apply wp_ret. split; [done|]. exists p, g, r, l'.
  split; [by rewrite <-!app_assoc in H4|]. split; [done|]. intros t Et. destruct (Hsaid t Et) as [pid Hpid]. exists pid.
  rewrite Hpid, T3, said_sys, T2, said_sys, said_out, T1, said_sys, <-!app_assoc. done.
Qed.
End Specs.

(** What the user types: commands, and the end of input. *)
Class User `{os} (cs : list command) := user : ∀ tr, let r := kern tr (Cfgets LOCK_LINE) in
  match cs !! asked tr with Some c => rv r ≠ 0 ∧ c_str (rdata r) = command_text c ++ [NL] | None => rv r = 0 end.

(** Each command is carried out, once and in order, as the text says; the
    program ends with the input. *)
Theorem locking_correct {S} `{os} cs fd fuel (s : st S) :
  User cs → Forall (λ c, is_long (from_ c) ∧ is_long (size c)) cs → asked (trace s) = 0%nat → (length cs < fuel)%nat →
  wp (loop fuel (λ _, lock_turn fd) tt) (λ _ _, False) (λ t s', t = Exit 0 ∧ ∃ l, acted s l s' ∧ locks l = command_call fd <$> cs) s.
Proof.
  intros HU Hcs Ha Hf. enough (∀ fuel n (s1 : st S) l, gets l = n → (n <= length cs)%nat → (length cs < n + fuel)%nat → acted s l s1 → locks l = command_call fd <$> take n cs →
    wp (loop fuel (λ _, lock_turn fd) tt) (λ _ _, False) (λ t s', t = Exit 0 ∧ ∃ l, acted s l s' ∧ locks l = command_call fd <$> cs) s1) as Hgen.
  { apply (Hgen fuel 0%nat s []); [done|lia|lia|apply acted_refl|done]. }
  clear fuel Hf. intros fuel. induction fuel as [|fuel IH]; intros n s1 l Hn Hle Hf H1 Hl; [lia|]. rewrite loop_S. apply wp_bind.
  assert (asked (trace s1) = n) as Hasked by (rewrite (asked_acted _ _ _ H1), Ha; lia).
  destruct (cs !! n) as [c|] eqn:Ec.
  - rewrite Forall_lookup in Hcs. destruct (Hcs n c Ec) as [Hc1 Hc2]. apply lookup_lt_Some in Ec as Hlt. eapply wp_mono; [apply (wp_lock_turn fd c s l s1 Hc1 Hc2 H1)| |done].
    + intros tr Htr. specialize (HU tr). by rewrite Htr, Hasked, Ec in HU.
    + intros r s2 (-> & p & g & a & l' & H2 & Hl' & _). assert (gets l' = 0%nat ∧ locks l' = []) as [Hg' Hk'] by (destruct Hl' as [->|[q ->]]; done).
      destruct (command_is_lock fd c a) as [Hlock Hnot]. eapply (IH (Datatypes.S n)); [|lia|lia|exact H2|].
      * rewrite gets_app, Hn, !gets_cons, Hnot, Hg'. cbn [is_gets fst]. lia.
      * rewrite locks_app, Hl, (take_S_r _ _ _ Ec), fmap_app, !locks_cons, Hlock, Hk'. done.
  - apply lookup_ge_None in Ec. unfold lock_turn. apply wp_bind. eapply wp_act; [exact H1|done|]. intros p s2 _ H2 _ T2. apply wp_bind, wp_emit. apply wp_bind, wp_call. intros fl s3 _ G3 _ _ T3. cbn [glob trace] in *.
    assert (acted s (l ++ [(Cgetpid, p)]) s3) as H3 by (eapply acted_same; [exact H2| |done]; rewrite T3, acts_app, acts_out; apply app_nil_r).
    apply wp_bind. eapply wp_act; [exact H3|done|]. intros g s4 Hg H4 _ _. specialize (HU (trace s3)). cbv zeta in HU. rewrite <-Hg in HU.
    assert (asked (trace s3) = n) as A3 by (rewrite (asked_acted _ _ _ H3), gets_app, Ha, Hn; change (gets [(Cgetpid, p)]) with 0%nat; lia). rewrite A3, lookup_ge_None_2 in HU by done. rewrite HU. apply wp_stop. split; [done|].
    eexists. split; [exact H4|]. rewrite !locks_app, Hl, take_ge by done. cbn. by rewrite !app_nil_r.
Qed.

(** ** A session *)

Definition small_commands : list command := [Command Set_ Write_lock 0 10 None; Command Get Read_lock (-5) 0 (Some From_end)].
Definition locking_os (cs : list command) : os := test_os (λ tr c,
  match c with
  | Cfgets _ => match cs !! asked tr with Some c => Reply 1 0 (command_text c ++ [NL]) [] | None => ok 0 end
  | Cgetpid => ok 77
  | Clock _ _ _ _ _ _ => Reply 0 0 [] [([], F_WRLCK); ([], 100); ([], 5); ([], 88)]
  | _ => ok 0
  end).

Lemma locking_witness :
  ∃ s', @loop unit unit unit 3 (λ _, @lock_turn unit (locking_os small_commands) 3) tt (init tt) = (Stop (Exit 0), s') ∧
    ∃ l, acted (init tt) l s' ∧ locks l = [Clock 3 F_SETLK F_WRLCK SEEK_SET 0 10; Clock 3 F_GETLK F_RDLCK SEEK_END (-5) 0].
Proof.
  assert (@User (locking_os small_commands) small_commands) as HU.
  { intros tr. cbn [kern locking_os test_os]. destruct (asked tr) as [|[|n]]; cbn [lookup list_lookup small_commands]; [split; [discriminate|vm_compute; reflexivity]..|reflexivity]. }
  pose proof (@locking_correct unit (locking_os small_commands) small_commands 3 3 (init tt) HU) as H.
  lapply H; [clear H; intros H|repeat (apply Forall_cons; split; [unfold is_long, LONG_MIN, LONG_MAX; cbn; lia|]); constructor].
  lapply H; [clear H; intros H|reflexivity].
  lapply H; [clear H; intros H|cbn; lia].
  apply wp_run in H as [(z & s' & _ & [])|(t & s' & Hrun & -> & l & Hl & Hk)]. exists s'. split; [exact Hrun|]. exists l. split; [exact Hl|exact Hk].
Defined.

(** The last line of an input without a newline at its end loses a character. *)
Example last_line_cut :
  let o := test_os (λ tr c, match c with Cfgets _ => Reply 1 0 (str "s w 0 10") [] | _ => ok 0 end) in
  locks (acts (trace (@lock_turn unit o 3 (init tt)).2)) = [Clock 3 F_SETLK F_WRLCK SEEK_SET 0 1].
Proof. vm_compute. reflexivity. Qed.
