(* ===== verification/Barrier.v ===== *)
(** tlpi-book/threads/pthread_barrier_demo.c: threads that meet at a barrier,
    round after round, as a transition system. *)
From stdpp Require Import relations.
From S2P Require Import Prelude Sys ErrorFns GetNum SvmsgFile Attrs Threads.

(** ** The threads *)

(** In threadFunc: at the test of the loop and in the sleep after it, in
    pthread_barrier_wait, out of it (is the value
    PTHREAD_BARRIER_SERIAL_THREAD?), and returned. *)
Inductive place := At_top | Blocked | Passed (serial : bool) | Ended.
#[export] Instance place_eq : EqDecision place.
Proof. solve_decision. Defined.
Record thread := Thread { j : Z; at_ : place }.

(** What a thread prints about a barrier, and at its end. *)
Inductive line := About_to_wait (threadNum : nat) (j : Z) | Has_passed (threadNum : nat) (j : Z) (serial : bool) | Terminating (threadNum : nat).
Record state := State { threads : list thread; printed : list line }.

Definition is_blocked (t : thread) : Z := if bool_decide (at_ t = Blocked) then 1 else 0.

(** Leaving the barrier: those in it, and thread [k] that came last; one of them
    is chosen to get the special value. *)
Definition release (k serial i : nat) (t : thread) : thread :=
  if bool_decide (i = k) || bool_decide (at_ t = Blocked) then Thread (j t) (Passed (bool_decide (i = serial))) else t.

Section System.
Context (numBarriers : Z).

Definition thread_step (k serial : nat) (s : state) : option state :=
  t ← threads s !! k;
  match at_ t with
  | At_top =>
      if j t <? numBarriers then
        let printed' := printed s ++ [About_to_wait k (j t)] in
        if zsum is_blocked (threads s) + 1 <? Z.of_nat (length (threads s)) then Some (State (<[k := Thread (j t) Blocked]> (threads s)) printed')
        else Some (State (imap (release k serial) (threads s)) printed')
      else Some (State (<[k := Thread (j t) Ended]> (threads s)) (printed s ++ [Terminating k]))
  | Passed serial => Some (State (<[k := Thread (j t + 1) At_top]> (threads s)) (printed s ++ [Has_passed k (j t) serial]))
  | Blocked | Ended => None
  end.

Definition step (s s' : state) : Prop := ∃ k serial, (serial < length (threads s))%nat ∧ thread_step k serial s = Some s'.

Definition start (numThreads : nat) : state := State (replicate numThreads (Thread 0 At_top)) [].

(** ** The invariant *)

(** How many times a thread has come to the barrier. *)
Definition arrived (t : thread) : Z := match at_ t with Blocked | Passed _ => j t + 1 | _ => j t end.
Definition thread_ok (p : Z) (t : thread) : Prop :=
  match at_ t with
  | At_top => j t = p
  | Blocked => j t = p ∧ p < numBarriers
  | Passed _ => j t = p - 1 ∧ 0 <= j t < numBarriers
  | Ended => j t = p ∧ numBarriers <= p
  end.

(** The special values of barrier [i]: returned, and told. *)
Definition serial_at (i : Z) (t : thread) : Z := if bool_decide (at_ t = Passed true) && (j t =? i) then 1 else 0.
Definition serial_told (i : Z) (l : line) : Z := match l with Has_passed _ i' true => if i' =? i then 1 else 0 | _ => 0 end.

Record ok (p : Z) (s : state) : Prop := {
  ok_p : 0 <= p;
  ok_threads : ∀ k t, threads s !! k = Some t → thread_ok p t;
  ok_waits : ∀ k t i, threads s !! k = Some t → 0 <= i < arrived t → About_to_wait k i ∈ printed s;
  ok_passed : ∀ k i b, Has_passed k i b ∈ printed s → 0 <= i < p;
  ok_serial : ∀ i, zsum (serial_at i) (threads s) + zsum (serial_told i) (printed s) = if (0 <=? i) && (i <? p) then 1 else 0;
  ok_room : zsum is_blocked (threads s) < Z.of_nat (length (threads s)) }.

Lemma zsum_app {A} (f : A → Z) a b : zsum f (a ++ b) = zsum f a + zsum f b.
Proof using. unfold zsum. induction a as [|x a IH]; cbn [app foldr]; [lia|]. rewrite IH. lia. Qed.
Lemma zsum_zero {A} (f : A → Z) l : (∀ k t, l !! k = Some t → f t = 0) → zsum f l = 0.
Proof using.
  induction l as [|t l IH]; intros Hl; [done|]. change (f t + zsum f l = 0). rewrite (Hl 0%nat t eq_refl), IH; [done|]. intros k u Hu. exact (Hl (Datatypes.S k) u Hu).
Qed.
Lemma zsum_imap_one (g : nat → thread → thread) l (f : thread → Z) n :
  (n < length l)%nat → (∀ k t, l !! k = Some t → f (g k t) = if bool_decide (k = n) then 1 else 0) → zsum f (imap g l) = 1.
Proof using.
  revert g n. induction l as [|t l IH]; intros g n Hn Hf; [cbn in Hn; lia|]. cbn [imap]. change (f (g 0%nat t) + zsum f (imap (g ∘ Datatypes.S) l) = 1). rewrite (Hf 0%nat t eq_refl). destruct n as [|n].
  - rewrite bool_decide_eq_true_2 by done. rewrite zsum_zero; [done|]. intros k u Hu. rewrite list_lookup_imap in Hu. destruct (l !! k) as [v|] eqn:Ev; [|done]. injection Hu as <-. cbn. by rewrite (Hf (Datatypes.S k) v Ev).
  - rewrite bool_decide_eq_false_2 by done. rewrite (IH (g ∘ Datatypes.S) n); [done|cbn in Hn; lia|]. intros k u Hu. cbn. rewrite (Hf (Datatypes.S k) u Hu). destruct (decide (k = n)) as [->|]; [by rewrite !bool_decide_eq_true_2|by rewrite !bool_decide_eq_false_2 by congruence].
Qed.

Lemma barrier_start_ok n : (0 < n)%nat → ok 0 (start n).
Proof using.
  intros Hn. split; cbn [start threads printed].
  - done.
  - intros k t Hk. apply lookup_replicate in Hk as [-> _]. done.
  - intros k t i Hk Hi. apply lookup_replicate in Hk as [-> _]. cbn in Hi. lia.
  - intros k i b Hin. by apply not_elem_of_nil in Hin.
  - intros i. rewrite zsum_zero; [cbn; by destruct (Z.leb_spec 0 i), (Z.ltb_spec i 0); try lia|]. intros k t Hk. apply lookup_replicate in Hk as [-> _]. done.
  - rewrite zsum_zero; [rewrite length_replicate; lia|]. intros k t Hk. apply lookup_replicate in Hk as [-> _]. done.
Qed.

(** One thread moves, and prints a line. *)
Lemma move_ok p s k t t' l :
  ok p s → threads s !! k = Some t → thread_ok p t' →
  (∀ i, 0 <= i < arrived t' → i < arrived t ∨ l = About_to_wait k i) → (∀ k' i b, l = Has_passed k' i b → 0 <= i < p) →
  (∀ i, serial_at i t' + serial_told i l = serial_at i t) →
  zsum is_blocked (threads s) + (is_blocked t' - is_blocked t) < Z.of_nat (length (threads s)) →
  ok p (State (<[k := t']> (threads s)) (printed s ++ [l])).
Proof using.
  intros Hs Hk H1 H2 H3 H4 H5. split; cbn [threads printed].
  - apply Hs.
  - intros i u Hu. destruct (insert_cases _ _ _ _ _ _ Hk Hu) as [[-> ->]|[_ Hu']]; [done|by eapply (ok_threads _ _ Hs)].
  - intros i u m Hu Hm. apply elem_of_app. destruct (insert_cases _ _ _ _ _ _ Hk Hu) as [[-> ->]|[_ Hu']].
    + destruct (H2 m Hm) as [Hlt| ->]; [left; eapply (ok_waits _ _ Hs); [exact Hk|lia]|right; by left].
    + left. by eapply (ok_waits _ _ Hs).
  - intros i m b Hin. apply elem_of_app in Hin as [Hin|Hin]; [by eapply (ok_passed _ _ Hs)|]. apply list_elem_of_singleton in Hin as <-. by eapply H3.
  - intros i. rewrite (zsum_insert _ k t' _ t Hk), zsum_app, <-(ok_serial _ _ Hs i). change (zsum (serial_told i) [l]) with (serial_told i l + 0). specialize (H4 i). lia.
  - rewrite (zsum_insert _ k t' _ t Hk), length_insert. done.
Qed.

(** When a thread outside is the last one, all the others are in the barrier. *)
Lemma others_blocked (l : list thread) k t :
  l !! k = Some t → is_blocked t = 0 → Z.of_nat (length l) <= zsum is_blocked l + 1 → ∀ i u, i ≠ k → l !! i = Some u → at_ u = Blocked.
Proof using.
  intros Hk Ht Hlen i u Hne Hu. destruct (decide (at_ u = Blocked)) as [|Hn]; [done|exfalso].
  assert (∀ t, is_blocked t <= 1) as Hle by (intros x; unfold is_blocked; by destruct (bool_decide _)).
  assert (is_blocked u = 0) as Hu0 by (unfold is_blocked; by rewrite bool_decide_eq_false_2).
  pose proof (zsum_insert is_blocked i (Thread (j u) Blocked) l u Hu) as Hi. rewrite Hu0 in Hi. change (is_blocked (Thread (j u) Blocked)) with 1 in Hi.
  assert (<[i := Thread (j u) Blocked]> l !! k = Some t) as Hk' by (by rewrite list_lookup_insert_ne).
  pose proof (zsum_part is_blocked (λ _, 1) (<[i := Thread (j u) Blocked]> l) k t ltac:(by apply Forall_forall) Hk') as Hp. cbn beta in Hp.
  pose proof (zsum_le (λ _ : thread, 1) 1 (<[i := Thread (j u) Blocked]> l) ltac:(by apply Forall_forall)) as Hm. rewrite length_insert in Hm. lia.
Qed.

Lemma release_ok p s k serial t :
  ok p s → threads s !! k = Some t → at_ t = At_top → j t < numBarriers → (serial < length (threads s))%nat →
  Z.of_nat (length (threads s)) <= zsum is_blocked (threads s) + 1 →
  ok (p + 1) (State (imap (release k serial) (threads s)) (printed s ++ [About_to_wait k (j t)])).
Proof using.
  intros Hs Hk Ht Hj Hserial Hlast. pose proof (ok_threads _ _ Hs k t Hk) as Hp. unfold thread_ok in Hp. rewrite Ht in Hp.
  assert (∀ i u, i ≠ k → threads s !! i = Some u → at_ u = Blocked) as Hall by (apply (others_blocked _ k t Hk); [unfold is_blocked; by rewrite Ht|done]).
  assert (∀ i u, imap (release k serial) (threads s) !! i = Some u → ∃ v, threads s !! i = Some v ∧ u = Thread p (Passed (bool_decide (i = serial)))) as Hget.
  { intros i u Hu. rewrite list_lookup_imap in Hu. destruct (threads s !! i) as [v|] eqn:Ev; [|done]. injection Hu as <-. exists v. split; [done|]. unfold release. destruct (decide (i = k)) as [->|Hne].
    - rewrite bool_decide_eq_true_2 by done. cbn [orb]. rewrite Hk in Ev. injection Ev as <-. by rewrite Hp.
    - rewrite (bool_decide_eq_true_2 (at_ v = Blocked)) by by eapply Hall. rewrite orb_true_r. pose proof (ok_threads _ _ Hs i v Ev) as Hv. unfold thread_ok in Hv. rewrite (Hall i v Hne Ev) in Hv. destruct Hv as [-> _]. done. }
  pose proof (ok_p _ _ Hs) as Hp0. split; cbn [threads printed].
  - lia.
  - intros i u Hu. destruct (Hget i u Hu) as (v & _ & ->). cbn. lia.
  - intros i u m Hu Hm. destruct (Hget i u Hu) as (v & Hv & ->). cbn in Hm. apply elem_of_app. destruct (decide (i = k)) as [->|Hne].
    + rewrite Hk in Hv. injection Hv as <-. destruct (decide (m = p)) as [->|]; [right; rewrite Hp; by left|]. left. eapply (ok_waits _ _ Hs); [exact Hk|]. unfold arrived. rewrite Ht. lia.
    + left. eapply (ok_waits _ _ Hs); [exact Hv|]. unfold arrived. rewrite (Hall i v Hne Hv). pose proof (ok_threads _ _ Hs i v Hv) as Hvok. unfold thread_ok in Hvok. rewrite (Hall i v Hne Hv) in Hvok. lia.
  - intros i m b Hin. apply elem_of_app in Hin as [Hin|Hin]; [pose proof (ok_passed _ _ Hs i m b Hin); lia|]. by apply list_elem_of_singleton in Hin.
  - intros i. rewrite zsum_app. change (zsum (serial_told i) [About_to_wait k (j t)]) with 0. rewrite Z.add_0_r. pose proof (ok_serial _ _ Hs i) as Hi.
    assert (zsum (serial_at i) (threads s) = 0) as Hz.
    { apply zsum_zero. intros m u Hu. unfold serial_at. destruct (decide (m = k)) as [->|Hne]; [rewrite Hk in Hu; injection Hu as <-; by rewrite Ht|by rewrite (Hall m u Hne Hu)]. }
    destruct (Z.eqb_spec p i) as [<-|Hne].
    + rewrite (zsum_imap_one (release k serial) (threads s) (serial_at p) serial Hserial).
      * destruct (Z.leb_spec 0 p), (Z.ltb_spec p p), (Z.ltb_spec p (p + 1)); cbn [andb] in *; lia.
      * intros m u Hu. destruct (Hget m (release k serial m u)) as (v & _ & ->); [by rewrite list_lookup_imap, Hu|]. unfold serial_at. cbn [at_ j]. rewrite Z.eqb_refl, andb_true_r.
        destruct (decide (m = serial)) as [->|]; [by rewrite !bool_decide_eq_true_2 by (rewrite ?bool_decide_eq_true_2; done)|]. rewrite (bool_decide_eq_false_2 (m = serial)) by done. done.
    + rewrite (zsum_zero (serial_at i) (imap _ _)).
      * destruct (Z.leb_spec 0 i), (Z.ltb_spec i p), (Z.ltb_spec i (p + 1)); cbn [andb] in *; lia.
      * intros m u Hu. destruct (Hget m u Hu) as (v & _ & ->). unfold serial_at. cbn [j]. rewrite (proj2 (Z.eqb_neq p i)) by done. by rewrite andb_false_r.
  - rewrite zsum_zero; [rewrite length_imap; apply lookup_lt_Some in Hk; lia|]. intros i u Hu. destruct (Hget i u Hu) as (v & _ & ->). unfold is_blocked. by rewrite bool_decide_eq_false_2.
Qed.

Lemma barrier_step_ok p s s' : ok p s → step s s' → ∃ p', ok p' s' ∧ length (threads s') = length (threads s).
Proof using.
  intros Hs (k & serial & Hserial & Hstep). unfold thread_step in Hstep. destruct (threads s !! k) as [t|] eqn:Hk; [|done]. cbn in Hstep. pose proof (ok_threads _ _ Hs k t Hk) as Ht. unfold thread_ok in Ht. pose proof (ok_p _ _ Hs) as Hp0.
  destruct (at_ t) as [| |b|] eqn:Eat; try done.
  - assert (is_blocked t = 0) as Hb by (unfold is_blocked; by rewrite Eat). assert (∀ i, serial_at i t = 0) as Hser by (intros i; unfold serial_at; by rewrite Eat).
    destruct (Z.ltb_spec (j t) numBarriers) as [Hj|Hj].
    + destruct (Z.ltb_spec (zsum is_blocked (threads s) + 1) (Z.of_nat (length (threads s)))) as [Hroom|Hlast]; injection Hstep as <-.
      * exists p. split; [|apply length_insert]. eapply move_ok; [done|exact Hk|cbn; lia| |done|intros i; by rewrite Hser|].
        -- cbn. intros i Hi. destruct (decide (i = j t)) as [->|]; [by right|left]. unfold arrived. rewrite Eat. lia.
        -- rewrite Hb. change (is_blocked (Thread (j t) Blocked)) with 1. lia.
      * exists (p + 1). split; [by apply release_ok|apply length_imap].
    + injection Hstep as <-. exists p. split; [|apply length_insert]. eapply move_ok; [done|exact Hk|cbn; lia| |done|intros i; by rewrite Hser|].
      * cbn. intros i Hi. left. unfold arrived. rewrite Eat. lia.
      * rewrite Hb. change (is_blocked (Thread (j t) Ended)) with 0. pose proof (ok_room _ _ Hs). lia.
  - injection Hstep as <-. exists p. split; [|apply length_insert]. eapply move_ok; [done|exact Hk|cbn; lia| | | |].
    + cbn. intros i Hi. left. unfold arrived. rewrite Eat. lia.
    + intros k' i b' E. injection E as <- <- <-. lia.
    + intros i. unfold serial_at. rewrite Eat. cbn [at_ j serial_told]. rewrite (bool_decide_eq_false_2 (At_top = Passed true)) by done. destruct b; [by rewrite bool_decide_eq_true_2 by done|by rewrite bool_decide_eq_false_2 by done].
    + assert (is_blocked t = 0) as -> by (unfold is_blocked; by rewrite Eat). change (is_blocked (Thread (j t + 1) At_top)) with 0. pose proof (ok_room _ _ Hs). lia.
Qed.

Lemma reachable_ok n s : (0 < n)%nat → rtc step (start n) s → ∃ p, ok p s ∧ length (threads s) = n.
Proof using.
  intros Hn Hr. assert (∀ s1 p, ok p s1 → rtc step s1 s → ∃ p', ok p' s ∧ length (threads s) = length (threads s1)) as H.
  { clear Hr. intros s1 p H1 Hr1. revert p H1. induction Hr1 as [s1|s1 s2 s3 Hstep _ IH]; intros p H1; [by exists p|]. destruct (barrier_step_ok _ _ _ H1 Hstep) as (p' & H2 & L2). destruct (IH _ H2) as (p'' & H3 & L3). exists p''. split; [done|congruence]. }
  destruct (H (start n) 0 (barrier_start_ok n Hn) Hr) as (p & Hp & Hl). exists p. split; [done|]. rewrite Hl. apply length_replicate.
Qed.

(** ** Progress and termination *)

Lemma barrier_ok_progress p s : ok p s → (∃ k t, threads s !! k = Some t ∧ at_ t ≠ Ended) → ∃ s', step s s'.
Proof using.
  intros Hs (k & t & Hk & Ht). apply lookup_lt_Some in Hk as Hlt.
  assert (∀ i u, threads s !! i = Some u → at_ u ≠ Blocked → at_ u ≠ Ended → ∃ s', step s s') as Hmove.
  { intros i u Hu H1 H2. unfold step. assert (thread_step i i s ≠ None) as Hne by (unfold thread_step; rewrite Hu; cbn; destruct (at_ u); try done; by repeat case_match).
    destruct (thread_step i i s) as [s'|] eqn:E; [|done]. exists s', i, i. split; [by eapply lookup_lt_Some|done]. }
  destruct (decide (at_ t = Blocked)) as [Hb|Hb]; [|by eapply Hmove].
  destruct (decide (Exists (λ u, at_ u ≠ Blocked ∧ at_ u ≠ Ended) (threads s))) as [Hex|Hnot].
  { apply Exists_exists in Hex as (u & Hin & H1 & H2). apply list_elem_of_lookup_1 in Hin as [i Hi]. by eapply Hmove. }
  exfalso. pose proof (ok_room _ _ Hs) as Hroom. pose proof (ok_threads _ _ Hs k t Hk) as Htok. unfold thread_ok in Htok. rewrite Hb in Htok.
  assert (Forall (λ u, is_blocked u = 1) (threads s)) as Hall.
  { apply Forall_lookup. intros i u Hu. unfold is_blocked. rewrite bool_decide_eq_true_2; [done|]. destruct (decide (at_ u = Blocked)) as [|Hnb]; [done|]. exfalso. apply Hnot, Exists_exists. exists u. split; [by eapply list_elem_of_lookup_2|]. split; [done|].
    intros E. pose proof (ok_threads _ _ Hs i u Hu) as Huok. unfold thread_ok in Huok. rewrite E in Huok. lia. }
  assert (∀ l, Forall (λ u, is_blocked u = 1) l → zsum is_blocked l = Z.of_nat (length l)) as Hsum.
  { clear. induction 1 as [|u l Hu _ IH]; [done|]. change (is_blocked u + zsum is_blocked l = Z.of_nat (Datatypes.S (length l))). lia. }
  rewrite (Hsum _ Hall) in Hroom. lia.
Qed.

(** What a thread has before it. *)
Definition before_end (t : thread) : Z :=
  match at_ t with
  | At_top => 3 * Z.max 0 (numBarriers - j t) + 1
  | Blocked => 3 * Z.max 0 (numBarriers - j t)
  | Passed _ => 3 * Z.max 0 (numBarriers - j t) - 1
  | Ended => 0
  end.
Definition measure (s : state) : Z := zsum before_end (threads s).

Lemma measure_start n : measure (start n) = Z.of_nat n * (3 * Z.max 0 numBarriers + 1).
Proof using.
  unfold measure, start. cbn [threads]. induction n as [|n IH]; [done|]. cbn [replicate]. change (before_end (Thread 0 At_top) + zsum before_end (replicate n (Thread 0 At_top)) = Z.of_nat (Datatypes.S n) * (3 * Z.max 0 numBarriers + 1)).
  rewrite IH. unfold before_end. cbn [at_ j]. rewrite Z.sub_0_r. lia.
Qed.

Lemma barrier_measure_nonneg p s : ok p s → 0 <= measure s.
Proof using.
  intros Hs. apply zsum_nonneg, Forall_lookup. intros k t Hk. pose proof (ok_threads _ _ Hs k t Hk) as Ht. unfold thread_ok in Ht. unfold before_end. destruct (at_ t); lia.
Qed.

Lemma barrier_step_decreases p s s' : ok p s → step s s' → measure s' < measure s.
Proof using.
  intros Hs (k & serial & _ & Hstep). unfold thread_step in Hstep. destruct (threads s !! k) as [t|] eqn:Hk; [|done]. cbn in Hstep. pose proof (ok_threads _ _ Hs k t Hk) as Ht. unfold thread_ok in Ht. unfold measure.
  assert (∀ t', before_end t' < before_end t → zsum before_end (<[k := t']> (threads s)) < zsum before_end (threads s)) as Hone by (intros t' Hlt; rewrite (zsum_insert _ k t' _ t Hk); lia).
  destruct (at_ t) as [| |b|] eqn:Eat; try done.
  - destruct (Z.ltb_spec (j t) numBarriers) as [Hj|Hj]; [|injection Hstep as <-; apply Hone; unfold before_end; rewrite Eat; cbn; lia].
    destruct (_ <? _); injection Hstep as <-; [apply Hone; unfold before_end; rewrite Eat; cbn; lia|]. cbn [threads].
    assert (∀ i u, threads s !! i = Some u → before_end (release k serial i u) <= before_end u) as Hle.
    { intros i u Hu. unfold release. destruct (decide (i = k)) as [->|Hne].
      - rewrite bool_decide_eq_true_2 by done. cbn [orb]. rewrite Hk in Hu. injection Hu as <-. unfold before_end. rewrite Eat. cbn. lia.
      - rewrite (bool_decide_eq_false_2 (i = k)) by done. cbn [orb]. destruct (decide (at_ u = Blocked)) as [E|E]; [|by rewrite bool_decide_eq_false_2].
        rewrite bool_decide_eq_true_2 by done. unfold before_end. rewrite E. cbn. lia. }
    assert (before_end (release k serial k t) < before_end t) as Hlt by (unfold release; rewrite bool_decide_eq_true_2 by done; cbn [orb]; unfold before_end; rewrite Eat; cbn; lia).
    assert (∀ (g : nat → thread → thread) l i, (∀ m u, l !! m = Some u → before_end (g m u) <= before_end u) → l !! i = Some t → before_end (g i t) < before_end t → zsum before_end (imap g l) < zsum before_end l) as Hgen; [|by eapply Hgen].
    clear. intros g l. revert g. induction l as [|u l IH]; intros g i Hg Hi Hlt; [done|]. cbn [imap]. change (before_end (g 0%nat u) + zsum before_end (imap (g ∘ Datatypes.S) l) < before_end u + zsum before_end l). pose proof (Hg 0%nat u eq_refl) as H0.
    assert (∀ m v, l !! m = Some v → before_end ((g ∘ Datatypes.S) m v) <= before_end v) as Hg' by (intros m v Hv; exact (Hg (Datatypes.S m) v Hv)).
    assert (zsum before_end (imap (g ∘ Datatypes.S) l) <= zsum before_end l) as Htail.
    { clear -Hg'. revert Hg'. generalize (g ∘ Datatypes.S). induction l as [|v l IH]; intros h Hh; [done|]. cbn [imap]. change (before_end (h 0%nat v) + zsum before_end (imap (h ∘ Datatypes.S) l) <= before_end v + zsum before_end l).
      pose proof (Hh 0%nat v eq_refl). assert (zsum before_end (imap (h ∘ Datatypes.S) l) <= zsum before_end l) by (apply IH; intros m x Hx; exact (Hh (Datatypes.S m) x Hx)). lia. }
    destruct i as [|i]; [injection Hi as ->; lia|]. specialize (IH (g ∘ Datatypes.S) i Hg' Hi Hlt). lia.
  - injection Hstep as <-. apply Hone. unfold before_end. rewrite Eat. cbn. lia.
Qed.
End System.

(** Any number of threads at any number of barriers.  No thread is past a
    barrier that not every thread has come to; while a thread has not returned
    one can go on, and at most 3 numBarriers + 1 steps for each are taken; and when all
    have returned, each barrier gave the special value to exactly one of them. *)
Theorem barrier_correct numBarriers n s :
  (0 < n)%nat → rtc (step numBarriers) (start n) s →
  (∀ k i b, Has_passed k i b ∈ printed s → ∀ k', (k' < n)%nat → About_to_wait k' i ∈ printed s) ∧
  ((∃ k t, threads s !! k = Some t ∧ at_ t ≠ Ended) → ∃ s', step numBarriers s s') ∧
  (∀ m s', nsteps (step numBarriers) m (start n) s' → Z.of_nat m <= Z.of_nat n * (3 * Z.max 0 numBarriers + 1)) ∧
  (Forall (λ t, at_ t = Ended) (threads s) → ∀ i, 0 <= i < numBarriers → zsum (serial_told i) (printed s) = 1).
Proof.
  intros Hn Hr. destruct (reachable_ok numBarriers n s Hn Hr) as (p & Hs & Hlen). split; [|split; [|split]].
  - intros k i b Hin k' Hk'. pose proof (ok_passed _ _ _ Hs k i b Hin) as Hi. destruct (lookup_lt_is_Some_2 (threads s) k') as [t Ht]; [by rewrite Hlen|].
    eapply (ok_waits _ _ _ Hs); [exact Ht|]. pose proof (ok_threads _ _ _ Hs k' t Ht) as Hok. unfold thread_ok in Hok. unfold arrived. destruct (at_ t); lia.
  - by apply (barrier_ok_progress _ p).
  - intros m s' Hm. rewrite <-measure_start. enough (∀ s1 q, ok numBarriers q s1 → nsteps (step numBarriers) m s1 s' → Z.of_nat m <= measure numBarriers s1) as H by (by apply (H _ 0); [apply barrier_start_ok|]).
    clear -Hn. intros s1 q H1 Hm. revert q H1. induction Hm as [s1|m s1 s2 s3 Hstep _ IH]; intros q H1; [by eapply barrier_measure_nonneg|]. destruct (barrier_step_ok _ _ _ _ H1 Hstep) as (q' & H2 & _). specialize (IH _ H2). pose proof (barrier_step_decreases _ _ _ _ H1 Hstep). lia.
  - intros Hall i Hi. pose proof (ok_serial _ _ _ Hs i) as Hser. rewrite zsum_zero in Hser.
    + destruct (lookup_lt_is_Some_2 (threads s) 0%nat) as [t Ht]; [lia|]. pose proof (ok_threads _ _ _ Hs _ t Ht) as Hok. unfold thread_ok in Hok. rewrite Forall_lookup in Hall. rewrite (Hall _ _ Ht) in Hok.
      destruct (Z.leb_spec 0 i), (Z.ltb_spec i p); cbn [andb] in Hser; lia.
    + intros k t Ht. rewrite Forall_lookup in Hall. unfold serial_at. by rewrite (Hall _ _ Ht).
Qed.

(** ** main *)

Section Main.
Context {S : Type} `{os}.
Implicit Types s : st S.

Definition thread_call (fn : string) (threadNum : nat) : M S unit :=
  s ← sys (Cextern fn [Z.of_nat threadNum] []);
  if negb (rv s =? 0) then errExitEN (rv s) (str fn) else mret tt.

Definition barrier_main (argv : list cstr) : M S unit :=
  match argv with
  | [progName; barriers; n] =>
      if streq barriers (str "--help") then usageErr (progName ++ str " num-barriers num-threads" ++ [NL]) else
      let numThreads := atoi n in
      tid ← sys (Cextern "calloc" [8; numThreads] []);
      if rv tid =? -1 then errExit (str "calloc") else
      s ← sys (Cextern "pthread_barrier_init" [numThreads] []);
      if negb (rv s =? 0) then errExitEN (rv s) (str "pthread_barrier_init") else
      for_each (seq 0 (Z.to_nat numThreads)) (thread_call "pthread_create");;
      sys (Cextern "usleep" [100000] []);;
      out Stdout [NL];;
      for_each (seq 0 (Z.to_nat numThreads)) (thread_call "pthread_join");;
      stop_with (Exit 0)
  | _ => usageErr (default [] (argv !! 0%nat) ++ str " num-barriers num-threads" ++ [NL])
  end.

(** The calls of a loop over the threads. *)
Definition thread_calls (fn : string) (n : nat) (rs : list reply) : list (call * reply) :=
  zip_with (λ i r, (Cextern fn [Z.of_nat i] [], r)) (seq 0 n) rs.

Lemma wp_thread_calls fn n s0 l s (Q : unit → st S → Prop) (E : stop → st S → Prop) :
  acted s0 l s → (∀ t s', t ≠ Exit 0 → E t s') → (∀ rs s', length rs = n → acted s0 (l ++ thread_calls fn n rs) s' → Q tt s') →
  wp (for_each (seq 0 n) (thread_call fn)) Q E s.
Proof using.
  intros H0 HE HQ. eapply wp_mono; [apply (wp_for_each (λ done s', ∃ rs, length rs = length done ∧ acted s0 (l ++ zip_with (λ i r, (Cextern fn [Z.of_nat i] [], r)) done rs) s') (thread_call fn) (seq 0 n) (λ t _, t ≠ Exit 0))| |exact HE].
  - exists []. split; [done|]. by rewrite app_nil_r.
  - intros done_ i todo s1 _ (rs & Hl & H1). unfold thread_call. apply wp_bind. eapply wp_act; [exact H1|done|]. intros r s2 _ H2 _ _. destruct (rv r =? 0); cbn [negb].
    + apply wp_ret. exists (rs ++ [r]). split; [rewrite !length_app; cbn; lia|]. rewrite zip_with_app by done. by rewrite app_assoc.
    + unfold errExitEN. apply wp_bind. eapply wp_mono; [apply outputError_ran| |done]. intros _ s3 _. unfold wp. rewrite terminate_run. apply end_of_not_success.
  - intros [] s1 (rs & Hl & H1). rewrite length_seq in Hl. by apply (HQ rs).
Qed.
End Main.

(** The barrier is for as many threads as are created; all are joined before the
    program succeeds. *)
Theorem barrier_main_correct {S} `{os} prog barriers n (s : st S) :
  barriers ≠ str "--help" →
  wp (barrier_main [prog; barriers; n]) (λ _ _, False)
    (λ t s', t = Exit 0 → ∃ c b rs u rs', let k := Z.to_nat (atoi n) in length rs = k ∧ length rs' = k ∧
       acted s ([(Cextern "calloc" [8; atoi n] [], c); (Cextern "pthread_barrier_init" [atoi n] [], b)] ++ thread_calls "pthread_create" k rs ++
         [(Cextern "usleep" [100000] [], u)] ++ thread_calls "pthread_join" k rs') s') s.
Proof.
  intros Hhelp. unfold barrier_main. rewrite (proj2 (streq_false _ _) Hhelp). apply wp_bind. eapply wp_act; [apply acted_refl|done|]. intros c s1 _ H1 _ _.
  destruct (rv c =? -1); [eapply wp_act_errExit; [exact H1|]; intros s2 _ E; by apply end_of_not_success in E|].
  apply wp_bind. eapply wp_act; [exact H1|done|]. intros b s2 _ H2 _ _. destruct (rv b =? 0); cbn [negb].
  2: { unfold errExitEN. apply wp_bind. eapply wp_mono; [apply outputError_ran| |done]. intros [] s3 _. unfold wp. rewrite terminate_run. intros E. by apply end_of_not_success in E. }
  set (E := λ t s', t = Exit 0 → _). assert (∀ t s', t ≠ Exit 0 → E t s') as HE by (intros t s' Ht Et; done).
  apply wp_bind. eapply wp_thread_calls; [exact H2|exact HE|]. intros rs s3 Hl H3. apply wp_bind. eapply wp_act; [exact H3|done|]. intros u s4 _ H4 _ _. apply wp_bind, wp_emit.
  apply wp_bind. eapply wp_thread_calls; [eapply acted_same; [exact H4|cbn [trace]; by rewrite acts_out|done]|exact HE|]. intros rs' s5 Hl' H5. apply wp_stop. intros _. exists c, b, rs, u, rs'. cbv zeta. split; [done|]. split; [done|].
  by rewrite <-!app_assoc in H5.
Qed.

(** Two threads at one barrier, the second of which gets the special value. *)
Definition barrier_run (sched : list (nat * nat)) (s : state) : option state := foldl (λ o x, s ← o; thread_step 1 x.1 x.2 s) (Some s) sched.

Lemma barrier_run_reaches sched s s' : (0 < length (threads s))%nat → Forall (λ x : nat * nat, x.2 = 0%nat) sched → barrier_run sched s = Some s' → rtc (step 1) s s' ∧ length (threads s') = length (threads s).
Proof.
  intros Hlen. revert s'. induction sched as [|x sched IH] using rev_ind; intros s' Hx; unfold barrier_run; [intros [= ->]; split; [apply rtc_refl|done]|].
  apply Forall_app in Hx as [Hx Hx0]. apply Forall_cons in Hx0 as [Hx0 _]. rewrite foldl_app. cbn [foldl]. fold (barrier_run sched s). destruct (barrier_run sched s) as [s1|]; [|done]. cbn. intros Hstep. destruct (IH s1 Hx eq_refl) as [H1 L1].
  split; [eapply rtc_r; [exact H1|]; exists x.1, x.2; split; [rewrite L1; lia|exact Hstep]|]. rewrite <-L1. unfold thread_step in Hstep. destruct (threads s1 !! x.1); [|done]. cbn in Hstep. repeat case_match; try done; injection Hstep as <-; cbn; rewrite ?length_insert, ?length_imap; done.
Qed.

Definition small_schedule : list (nat * nat) := [(1, 0); (0, 0); (0, 0); (1, 0); (0, 0); (1, 0)]%nat.

Lemma barrier_witness :
  ∃ s, rtc (step 1) (start 2) s ∧ Forall (λ t, at_ t = Ended) (threads s) ∧ zsum (serial_told 0) (printed s) = 1.
Proof.
  destruct (barrier_run small_schedule (start 2)) as [s|] eqn:E; [|exfalso; vm_compute in E; discriminate].
  destruct (barrier_run_reaches small_schedule (start 2) s ltac:(cbn; lia) ltac:(repeat constructor) E) as [Hr _]. exists s. split; [exact Hr|].
  assert (Forall (λ t, at_ t = Ended) (threads s)) as Hall by (vm_compute in E; injection E as <-; repeat constructor). split; [exact Hall|].
  destruct (barrier_correct 1 2 s ltac:(lia) Hr) as (_ & _ & _ & H). apply (H Hall 0). lia.
Defined.
