(* ===== verification/SimpleInit.v ===== *)
(** tlpi-book/namespaces/simple_init.c: an init for a PID namespace, which reaps
    its children and runs commands. *)
From S2P Require Import Prelude Sys ErrorFns SvmsgFile Dict Getopt Attrs Scm Procexec Locking.

Definition SIGCHLD : Z := 17.
Definition SIGTTOU : Z := 22.
Definition ECHILD : Z := 10.
Definition REAP : Z := 11.          (* WNOHANG | WUNTRACED | WCONTINUED *)
Definition CMD_SIZE : Z := 10000.

Definition init_usage_text (pname : cstr) : cstr :=
  str "Usage: " ++ pname ++ str " [-v] [-p proc-mount]" ++ [NL] ++
  TAB :: str "-v              Provide verbose logging" ++ [NL] ++
  TAB :: str "-p proc-mount   Mount a procfs at specified path" ++ [NL].

Definition words_failed_text : cstr :=
  str "Word expansion failed." ++ [NL] ++
  TAB :: str "Note that only simple commands plus arguments are supported" ++ [NL] ++
  TAB :: str "(no pipelines, I/O redirection, and so on)" ++ [NL].

(** The newline at the end, if there is one. *)
Definition strip_newline (cmd : cstr) : cstr := match last cmd with Some c => if bool_decide (c = NL) then take (length cmd - 1) cmd else cmd | None => cmd end.

Section Program.
Context {S : Type} `{os} (verbose : bool).

(** *** The handler *)

Definition reap_turn : M S (unit + unit) :=
  r ← sys (Cwaitpid (-1) REAP);
  if rv r =? 0 then mret (inr tt) else
  e ← get_errno;
  if (rv r =? -1) && (e =? ECHILD) then mret (inr tt) else
  when (rv r =? -1) (perror (str "waitpid"));;
  when verbose (out Stdout (TAB :: str "init: SIGCHLD handler: PID " ++ dec (rv r) ++ str " terminated" ++ [NL]));;
  mret (inl tt).
Definition child_handler (fuel : nat) : M S unit := loop fuel (λ _, reap_turn) tt.

(** *** Commands *)

(** Word expansion is that of the C library: its words, or an error. *)
Definition expand_words (cmd : cstr) : M S (option (list cstr)) :=
  w ← sys (Cextern "wordexp" [0] cmd);
  if negb (rv w =? 0) then out Stderr words_failed_text;; mret None else
  c ← sys (Cextern "calloc" [Z.of_nat (length (rents w)) + 1; 8] []);
  if rv c =? -1 then perror_exit (str "calloc") else
  mret (Some (fst <$> rents w)).

(** Make the process group the foreground one. *)
Definition foreground (msg : cstr) : M S unit :=
  p ← sys (Cextern "getpgrp" [] []);
  t ← sys (Cextern "tcsetpgrp" [0; rv p] []);
  if rv t =? -1 then perror_exit msg else mret tt.
Definition own_group : M S unit :=
  g ← sys (Cextern "setpgid" [0; 0] []);
  if rv g =? -1 then perror_exit (str "setpgid") else
  foreground (str "tcsetpgrp-child").

Definition run_child (cmd : cstr) : M S (unit + unit) :=
  arg_vec ← expand_words cmd;
  match arg_vec with
  | None => stop_with (Exit 1)
  | Some [] => own_group;; stop_with (Undefined "null pointer")
  | Some (file :: args) =>
      own_group;;
      e ← sys (Cexec file (file :: args));
      if rv e =? -1 then perror_exit (str "execvp") else stop_with (Execed file (file :: args))
  end.

Definition init_turn (fuel : nat) : M S (unit + unit) :=
  out Stdout (str "init$ ");;
  r ← sys (Cfgets CMD_SIZE);
  if rv r =? 0 then
    when verbose (out Stdout (TAB :: str "init: exiting"));;
    out Stdout [NL];;
    mret (inr tt)
  else
    let cmd := c_str (rdata r) in
    if bool_decide (cmd = []) then stop_with (Undefined "read before the array") else
    let cmd := strip_newline cmd in
    if bool_decide (cmd = []) then mret (inl tt) else
    pid ← sys Cfork;
    if rv pid =? -1 then perror (str "fork");; mret (inr tt) else
    if rv pid =? 0 then run_child cmd else
    when verbose (out Stdout (TAB :: str "init: created child " ++ dec (rv pid) ++ [NL]));;
    sys Cpause;;
    child_handler fuel;;
    foreground (str "tcsetpgrp-parent");;
    mret (inl tt).

Definition mount_proc (proc_path : cstr) : M S unit :=
  when verbose (out Stdout (str "Making " ++ proc_path ++ str " a private mount" ++ [NL]));;
  m ← sys (Cextern "mount" [524288] (str "none " ++ proc_path));
  e ← get_errno;
  when ((rv m =? -1) && negb (e =? EINVAL)) (perror (str "mount-make-slave-/"));;
  when verbose (out Stdout (str "Mounting procfs at " ++ proc_path ++ [NL]));;
  m ← sys (Cextern "mount" [0] (str "proc " ++ proc_path));
  if rv m =? -1 then perror_exit (str "mount-procfs") else mret tt.

Definition init_run (fuel : nat) (proc_path : option cstr) : M S unit :=
  s ← sys (Csigaction SIGCHLD);
  if rv s =? -1 then perror_exit (str "sigaction") else
  when verbose (p ← sys Cgetpid; out Stdout (TAB :: str "init: my PID is " ++ dec (rv p) ++ [NL]));;
  sys (Csigaction SIGTTOU);;
  own_group;;
  match proc_path with Some p => mount_proc p | None => mret tt end;;
  loop fuel (λ _, init_turn fuel) tt;;
  match proc_path with
  | Some p =>
      when verbose (out Stdout (str "Unmounting procfs at " ++ p ++ [NL]));;
      u ← sys (Cextern "umount" [] p);
      if rv u =? -1 then perror_exit (str "umount-procfs") else mret tt
  | None => mret tt
  end;;
  stop_with (Exit 0).
End Program.

Definition simple_init_main {S} `{os} (fuel : nat) (argv : list cstr) : M S unit :=
  let prog := default [] (argv !! 0%nat) in
  let '(fs, _) := getopt_env (letters (str "v") (str "p")) (tail argv) in
  opts ← option_loop prog (λ o c arg, if decide (c = "v"%char) then (true, snd o) else (fst o, arg))
    (out Stderr (init_usage_text prog);; stop_with (Exit 1)) (false, None) fs;
  init_run opts.1 fuel opts.2.

(** ** Reaping *)

Section Reaping.
Context {S : Type} `{os} (verbose : bool).
Implicit Types s : st S.

Definition waited (tr : list event) : nat := length (filter (λ x, match x.1 with Cwaitpid _ _ => true | _ => false end = true) (calls tr)).
Lemma waited_wait tr p o r : waited (tr ++ [Esys (Cwaitpid p o) r]) = Datatypes.S (waited tr).
Proof using. unfold waited. rewrite calls_snoc_sys, filter_app, length_app. apply Nat.add_1_r. Qed.
Lemma waited_out tr f t : waited (tr ++ [Eout f t]) = waited tr.
Proof using. unfold waited. by rewrite calls_snoc_out. Qed.

(** The next children to have changed state, one after the other, and then none. *)
Definition changes (pids : list Z) (from : nat) : Prop := Forall (λ p, 0 < p) pids ∧ ∀ tr, (from <= waited tr <= from + length pids)%nat →
  let r := kern tr (Cwaitpid (-1) REAP) in
  match pids !! (waited tr - from)%nat with Some p => rv r = p | None => rv r = 0 ∨ rv r = -1 ∧ rerr r = ECHILD end.

Definition reap_text (pids : list Z) : cstr := concat ((λ p, TAB :: str "init: SIGCHLD handler: PID " ++ dec p ++ str " terminated" ++ [NL]) <$> pids).
End Reaping.

(** The handler waits for every child that has changed state, once, and does not
    wait for others. *)
Theorem child_handler_correct {S} `{os} verbose pids fuel (s : st S) :
  changes pids (waited (trace s)) → (length pids < fuel)%nat →
  wp (child_handler verbose fuel)
    (λ _ s', waited (trace s') = (waited (trace s) + length pids + 1)%nat ∧ said Stdout (trace s') = said Stdout (trace s) ++ (if verbose then reap_text pids else [])) (λ _ _, False) s.
Proof.
  intros [Hpos Hch] Hf. unfold child_handler.
  enough (∀ fuel n (s1 : st S), waited (trace s1) = (waited (trace s) + n)%nat → (n <= length pids)%nat → (length pids < n + fuel)%nat → said Stdout (trace s1) = said Stdout (trace s) ++ (if verbose then reap_text (take n pids) else []) →
    wp (loop fuel (λ _, reap_turn verbose) tt) (λ _ s', waited (trace s') = (waited (trace s) + length pids + 1)%nat ∧ said Stdout (trace s') = said Stdout (trace s) ++ (if verbose then reap_text pids else [])) (λ _ _, False) s1) as Hgen.
  { apply (Hgen fuel 0%nat s); [lia|lia|lia|]. destruct verbose; by rewrite app_nil_r. }
  clear fuel Hf. intros fuel. induction fuel as [|fuel IH]; intros n s1 Hw Hn Hf S1; [lia|]. rewrite loop_S. apply wp_bind. unfold reap_turn. apply wp_bind, wp_call. intros r s2 Hr _ He _ T2.
  specialize (Hch (trace s1) ltac:(lia)). cbv zeta in Hch. rewrite <-Hr, Hw, Nat.add_comm, Nat.add_sub in Hch.
  assert (waited (trace s2) = (waited (trace s) + Datatypes.S n)%nat) as W2 by (rewrite T2, waited_wait, Hw; lia).
  assert (said Stdout (trace s2) = said Stdout (trace s1)) as S2 by by rewrite T2, said_sys.
  destruct (pids !! n) as [p|] eqn:Ep.
  - rewrite Forall_lookup in Hpos. specialize (Hpos n p Ep). rewrite Hch. rewrite (proj2 (Z.eqb_neq p 0)), (proj2 (Z.eqb_neq p (-1))) by lia. apply wp_bind, wp_get_errno. cbn [andb when]. apply wp_bind, wp_ret. apply lookup_lt_Some in Ep as Hlt.
    apply wp_bind. destruct verbose; cbn [when].
    + apply wp_emit, wp_ret. apply (IH (Datatypes.S n)); cbn [trace]; [by rewrite waited_out|lia|lia|]. rewrite said_out, S2, S1, (take_S_r _ _ _ Ep). unfold reap_text. rewrite fmap_app, concat_app. cbn [fmap list_fmap concat]. by rewrite app_nil_r, <-app_assoc.
    + apply wp_ret, wp_ret. apply (IH (Datatypes.S n)); [done|lia|lia|]. by rewrite S2, S1.
  - apply lookup_ge_None in Ep. assert (wp (mret (inr tt)) (λ (r : unit + unit) s', wp (match r with inl a => loop fuel (λ _ : unit, reap_turn verbose) a | inr b => mret b end)
      (λ _ s', waited (trace s') = (waited (trace s) + length pids + 1)%nat ∧ said Stdout (trace s') = said Stdout (trace s) ++ (if verbose then reap_text pids else [])) (λ _ _, False) s') (λ _ _, False) s2) as Hend.
    { apply wp_ret, wp_ret. split; [rewrite W2; lia|]. rewrite S2, S1, take_ge by done. done. }
    destruct Hch as [->|[E1 E2]]; [exact Hend|]. rewrite E1 in *. change (-1 =? 0) with false. cbv iota. apply wp_bind, wp_get_errno. rewrite (He eq_refl), E2. exact Hend.
Qed.

(** The child runs the words of the command in a process group of its own, which
    it has made the foreground one; or it fails. *)
Theorem run_child_correct {S} `{os} cmd (s : st S) :
  wp (run_child cmd) (λ _ _, False)
    (λ t s', t = Exit 1 ∨ ∃ w c g p f e, let words := fst <$> rents w in rv w = 0 ∧ rv g ≠ -1 ∧ rv f ≠ -1 ∧
       let before := [(Cextern "wordexp" [0] cmd, w); (Cextern "calloc" [Z.of_nat (length words) + 1; 8] [], c); (Cextern "setpgid" [0; 0] [], g);
                      (Cextern "getpgrp" [] [], p); (Cextern "tcsetpgrp" [0; rv p] [], f)] in
       match words with
       | [] => t = Undefined "null pointer" ∧ acted s before s'
       | file :: _ => t = Execed file words ∧ acted s (before ++ [(Cexec file words, e)]) s'
       end) s.
Proof.
  set (E := λ t s', _ ∨ _). assert (∀ A msg (Q : A → st S → Prop) s', wp (perror_exit msg) Q E s') as Hpe by (intros; apply wp_bind, wp_bind, wp_get_errno, wp_emit, wp_stop; by left).
  unfold run_child, expand_words. apply wp_bind, wp_bind. eapply wp_act; [apply acted_refl|done|]. intros w s1 _ H1 _ _. destruct (Z.eqb_spec (rv w) 0) as [Ew|Ew]; cbn [negb].
  2: { apply wp_bind, wp_emit, wp_ret, wp_stop. by left. }
  apply wp_bind. eapply wp_act; [exact H1|done|]. intros c s2 _ H2 _ _. destruct (rv c =? -1); [apply Hpe|]. apply wp_ret.
  assert (∀ (Q : unit → st S → Prop), (∀ g p f s', rv g ≠ -1 → rv f ≠ -1 → acted s [(Cextern "wordexp" [0] cmd, w); (Cextern "calloc" [Z.of_nat (length (rents w)) + 1; 8] [], c); (Cextern "setpgid" [0; 0] [], g);
                      (Cextern "getpgrp" [] [], p); (Cextern "tcsetpgrp" [0; rv p] [], f)] s' → Q tt s') → wp own_group Q E s2) as Hgroup.
  { intros Q HQ. unfold own_group, foreground. apply wp_bind. eapply wp_act; [exact H2|done|]. intros g s3 _ H3 _ _. destruct (Z.eqb_spec (rv g) (-1)) as [Eg|Eg]; [apply Hpe|].
    apply wp_bind. eapply wp_act; [exact H3|done|]. intros p s4 _ H4 _ _. apply wp_bind. eapply wp_act; [exact H4|done|]. intros f s5 _ H5 _ _. destruct (Z.eqb_spec (rv f) (-1)) as [Ef|Ef]; [apply Hpe|]. apply wp_ret. by apply (HQ g p f). }
  assert (length (fst <$> rents w) = length (rents w)) as Hlen by apply length_fmap.
  destruct (fst <$> rents w) as [|file args] eqn:Ewords; apply wp_bind, Hgroup; intros g p f s3 Hg Hf H3.
  - apply wp_stop. right. exists w, c, g, p, f, w. cbv zeta. rewrite Ewords, Hlen. done.
  - apply wp_bind. eapply wp_act; [exact H3|done|]. intros e s4 _ H4 _ _. destruct (rv e =? -1); [apply Hpe|]. apply wp_stop. right. exists w, c, g, p, f, e. cbv zeta. rewrite Ewords, Hlen. done.
Qed.

(** ** A session *)

(** Lines read and processes created. *)
Definition forks (tr : list event) : nat := length (filter (λ x, match x.1 with Cfork => true | _ => false end = true) (calls tr)).
Definition counts (tr : list event) : nat * nat := (asked tr, forks tr).

Lemma forks_app a b : forks (a ++ b) = (forks a + forks b)%nat.
Proof. unfold forks. by rewrite calls_app, filter_app, length_app. Qed.
Lemma counts_other tr c r : match c with Cfgets _ | Cfork => False | _ => True end → counts (tr ++ [Esys c r]) = counts tr.
Proof. intros Hc. unfold counts. rewrite asked_app, forks_app. assert (asked [Esys c r] = 0%nat ∧ forks [Esys c r] = 0%nat) as [-> ->] by by destruct c. by rewrite !Nat.add_0_r. Qed.
Lemma counts_out tr f t : counts (tr ++ [Eout f t]) = counts tr.
Proof. unfold counts. rewrite asked_out, forks_app. change (forks [Eout f t]) with 0%nat. by rewrite Nat.add_0_r. Qed.

Definition typed `{os} (lines : list cstr) : Prop := ∀ tr, let r := kern tr (Cfgets CMD_SIZE) in
  match lines !! asked tr with Some l => rv r ≠ 0 ∧ c_str (rdata r) = l ++ [NL] | None => rv r = 0 end.
Definition is_command (l : cstr) : bool := negb (bool_decide (l = [])).
Definition commands (lines : list cstr) : nat := length (filter (λ l, is_command l = true) lines).

Lemma commands_snoc ls l : commands (ls ++ [l]) = (commands ls + if is_command l then 1 else 0)%nat.
Proof. unfold commands. rewrite filter_app, length_app. f_equal. rewrite filter_cons. by destruct (is_command l). Qed.

(** The handler comes to an end, whenever it is called. *)
Definition returns `{os} (fuel : nat) : Prop := ∀ tr, ∃ pids, changes pids (waited tr) ∧ (length pids < fuel)%nat.

Section Session.
Context {S : Type} `{os} (verbose : bool).
Implicit Types s : st S.

Lemma wlp_handler fuel s m (E : stop → st S → Prop) : counts (trace s) = m → wlp (child_handler verbose fuel) (λ _ s', counts (trace s') = m) E (λ _, True) s.
Proof using.
  intros Hm. unfold child_handler. apply (wlp_loop (λ _ s', counts (trace s') = m)); [done|done|]. intros _ s1 H1. apply wp_wlp. unfold reap_turn. apply wp_bind, wp_call. intros r s2 _ _ _ _ T2.
  assert (counts (trace s2) = m) as H2 by (by rewrite T2, counts_other). destruct (rv r =? 0); [by apply wp_ret|]. apply wp_bind, wp_get_errno. destruct (_ && _); [by apply wp_ret|]. apply wp_bind.
  assert (∀ s3 : st S, counts (trace s3) = m → wp (when verbose (out Stdout (TAB :: str "init: SIGCHLD handler: PID " ++ dec (rv r) ++ str " terminated" ++ [NL]));; mret (inl tt)) (λ (r : unit + unit) s', match r with inl _ => counts (trace s') = m | inr _ => counts (trace s') = m end) E s3) as Hrest.
  { intros s3 H3. apply wp_bind. destruct verbose; cbn [when]; [apply wp_emit, wp_ret; cbn [trace]; by rewrite counts_out|by apply wp_ret, wp_ret]. }
  destruct (rv r =? -1); cbn [when]; [apply wp_bind, wp_get_errno, wp_emit, Hrest; cbn [trace]; by rewrite counts_out|by apply wp_ret, Hrest].
Qed.

Lemma strip_typed l : strip_newline (l ++ [NL]) = l.
Proof using. unfold strip_newline. rewrite last_snoc, bool_decide_eq_true_2 by done. rewrite length_app, Nat.add_sub. apply take_app_length. Qed.

Lemma wp_handler fuel s m (Q : unit → st S → Prop) E : returns fuel → counts (trace s) = m → (∀ s', counts (trace s') = m → Q tt s') → wp (child_handler verbose fuel) Q E s.
Proof using.
  intros Hback Hm HQ. destruct (Hback (trace s)) as (pids & Hc & Hl). pose proof (child_handler_correct verbose pids fuel s Hc Hl) as Ht. pose proof (wlp_handler fuel s m E Hm) as Hp.
  unfold wp, wlp in *. destruct (child_handler verbose fuel s) as [[[]| |] s']; [by apply HQ|done|done].
Qed.

Lemma wp_init_turn lines fuel n s :
  typed lines → (∀ tr, 0 < rv (kern tr Cfork)) → returns fuel → counts (trace s) = (n, commands (take n lines)) →
  wp (init_turn verbose fuel)
    (λ r s', match r with inl _ => counts (trace s') = (Datatypes.S n, commands (take (Datatypes.S n) lines)) ∧ (n < length lines)%nat | inr _ => (length lines <= n)%nat ∧ forks (trace s') = commands lines end)
    (λ t _, t = Exit 1) s.
Proof using.
  intros Htyped Hfork Hback Hs. unfold init_turn. apply wp_bind, wp_emit. apply wp_bind, wp_call. cbn [trace glob]. intros r s1 Hr _ _ _ T1. specialize (Htyped (trace s ++ [Eout Stdout (str "init$ ")])). cbv zeta in Htyped. rewrite <-Hr, asked_out in Htyped.
  assert (asked (trace s) = n ∧ forks (trace s) = commands (take n lines)) as [A F] by (unfold counts in Hs; by injection Hs).
  assert (counts (trace s1) = (Datatypes.S n, commands (take n lines))) as C1.
  { unfold counts. rewrite T1, asked_gets, asked_out, !forks_app, A, F. change (forks [Eout Stdout (str "init$ ")]) with 0%nat. change (forks [Esys (Cfgets CMD_SIZE) r]) with 0%nat. by rewrite !Nat.add_0_r. }
  rewrite A in Htyped. destruct (lines !! n) as [l|] eqn:El.
  - destruct Htyped as [Hrv Hl]. rewrite (proj2 (Z.eqb_neq _ _) Hrv), Hl. cbv zeta. rewrite bool_decide_eq_false_2 by (by destruct l). rewrite strip_typed. apply lookup_lt_Some in El as Hlt.
    assert (commands (take (Datatypes.S n) lines) = (commands (take n lines) + if is_command l then 1 else 0)%nat) as -> by by rewrite (take_S_r _ _ _ El), commands_snoc. unfold is_command.
    destruct (bool_decide (l = [])); cbn [negb]; [apply wp_ret; by rewrite Nat.add_0_r|].
    apply wp_bind, wp_call. intros f s2 Hf _ _ _ T2. specialize (Hfork (trace s1)). rewrite <-Hf in Hfork. rewrite (proj2 (Z.eqb_neq (rv f) (-1))), (proj2 (Z.eqb_neq (rv f) 0)) by lia.
    assert (counts (trace s2) = (Datatypes.S n, (commands (take n lines) + 1)%nat)) as C2.
    { unfold counts in *. injection C1 as A1 F1. rewrite T2, asked_app, forks_app, A1, F1. change (asked [Esys Cfork f]) with 0%nat. change (forks [Esys Cfork f]) with 1%nat. by rewrite Nat.add_0_r. }
    apply wp_bind.
    assert (∀ s3 : st S, counts (trace s3) = (Datatypes.S n, (commands (take n lines) + 1)%nat) → wp (sys Cpause;; child_handler verbose fuel;; foreground (str "tcsetpgrp-parent");; mret (inl tt))
      (λ (r : unit + unit) s', match r with inl _ => counts (trace s') = (Datatypes.S n, (commands (take n lines) + 1)%nat) ∧ (n < length lines)%nat | inr _ => (length lines <= n)%nat ∧ forks (trace s') = commands lines end) (λ t _, t = Exit 1) s3) as Hrest.
    { intros s3 C3. apply wp_bind, wp_call. intros p s4 _ _ _ _ T4. apply wp_bind. apply (wp_handler fuel s4 (Datatypes.S n, (commands (take n lines) + 1)%nat)); [done|by rewrite T4, counts_other|].
      intros s5 C5. apply wp_bind. unfold foreground. apply wp_bind, wp_call. intros g s6 _ _ _ _ T6. apply wp_bind, wp_call. intros t s7 _ _ _ _ T7. destruct (rv t =? -1); [by apply wp_bind, wp_bind, wp_get_errno, wp_emit, wp_stop|].
      apply wp_ret, wp_ret. by rewrite T7, counts_other, T6, counts_other. }
    destruct verbose; cbn [when]; [apply wp_emit, Hrest; cbn [trace]; by rewrite counts_out|by apply wp_ret, Hrest].
  - rewrite Htyped. apply lookup_ge_None in El. rewrite take_ge in C1 by done. change (0 =? 0) with true. cbv iota. apply wp_bind.
    assert (∀ s2 : st S, counts (trace s2) = counts (trace s1) → wp (out Stdout [NL];; mret (inr tt)) (λ (r : unit + unit) s', match r with inl _ => counts (trace s') = (Datatypes.S n, commands (take (Datatypes.S n) lines)) ∧ (n < length lines)%nat | inr _ => (length lines <= n)%nat ∧ forks (trace s') = commands lines end) (λ t _, t = Exit 1) s2) as Hend.
    { intros s2 C2. apply wp_bind, wp_emit, wp_ret. split; [done|]. cbn [trace]. rewrite C1 in C2. rewrite <-(counts_out _ Stdout [NL]) in C2. unfold counts in C2. by injection C2. }
    destruct verbose; cbn [when]; [apply wp_emit, Hend; cbn [trace]; by rewrite counts_out|by apply wp_ret, Hend].
Qed.
End Session.

(** The shell creates one process for each line that is not empty, and ends with
    its input. *)
Theorem init_session_correct {S} `{os} verbose lines fuel turns (s : st S) :
  typed lines → (∀ tr, 0 < rv (kern tr Cfork)) → returns fuel → asked (trace s) = 0%nat → forks (trace s) = 0%nat → (length lines < turns)%nat →
  wp (loop turns (λ _, init_turn verbose fuel) tt) (λ _ s', forks (trace s') = commands lines) (λ t _, t = Exit 1) s.
Proof.
  intros Ht Hf Hr Ha Hk.
  enough (∀ turns n (s1 : st S), counts (trace s1) = (n, commands (take n lines)) → (n <= length lines)%nat → (length lines < n + turns)%nat →
    wp (loop turns (λ _, init_turn verbose fuel) tt) (λ _ s', forks (trace s') = commands lines) (λ t _, t = Exit 1) s1) as Hgen.
  { intros Hn. apply (Hgen turns 0%nat); [|lia|lia]. unfold counts. by rewrite Ha, Hk. }
  clear turns. intros turns. induction turns as [|turns IH]; intros n s1 H1 Hn Ht1; [lia|]. rewrite loop_S. apply wp_bind.
  eapply wp_mono; [by apply (wp_init_turn verbose lines fuel n)| |done]. intros [[]|[]] s2 H2; [|apply wp_ret, H2].
  destruct H2 as [H2 Hlt]. apply (IH (Datatypes.S n)); [done|lia|lia].
Qed.

(** ** A run *)

(** Two children have stopped or ended when the signal arrives. *)
Definition two_children : os := test_os (λ tr c, match c with Cwaitpid _ _ => match waited tr with 0%nat => ok 7 | 1%nat => ok 9 | _ => Reply (-1) ECHILD [] [] end | _ => ok 0 end).

Lemma child_handler_witness :
  ∃ s', @child_handler unit two_children true 4 (init tt) = (Ret tt, s') ∧ waited (trace s') = 3%nat ∧ said Stdout (trace s') = reap_text [7; 9].
Proof.
  assert (@changes two_children [7; 9] 0) as Hc.
  { split; [repeat constructor|]. intros tr _. rewrite Nat.sub_0_r. cbn [kern two_children test_os]. destruct (waited tr) as [|[|n]]; [reflexivity..|]. right. split; reflexivity. }
  pose proof (@child_handler_correct unit two_children true [7; 9] 4 (init tt) Hc) as H.
  lapply H; [clear H; intros H|cbn; lia].
  apply wp_run in H as [([] & s' & Hrun & Hw & Hs)|(t & s' & _ & [])]. exists s'. split; [exact Hrun|]. split; [exact Hw|exact Hs].
Defined.

(** A user who types a command, an empty line and another command. *)
Definition three_lines : list cstr := [str "ls"; []; str "id"].
Definition typing_os : os := test_os (λ tr c,
  match c with
  | Cfgets _ => match three_lines !! asked tr with Some l => Reply 1 0 (l ++ [NL]) [] | None => ok 0 end
  | Cfork => ok 50
  | _ => ok 0
  end).

Lemma init_session_witness :
  ∃ s', @loop unit unit unit 5 (λ _, @init_turn unit typing_os false 2) tt (init tt) = (Ret tt, s') ∧ forks (trace s') = 2%nat.
Proof.
  assert (@typed typing_os three_lines) as Ht.
  { intros tr. cbn [kern typing_os test_os]. destruct (asked tr) as [|[|[|n]]]; cbn [lookup list_lookup three_lines]; [split; [discriminate|vm_compute; reflexivity]..|reflexivity]. }
  pose proof (@init_session_correct unit typing_os false three_lines 2 5 (init tt) Ht) as H.
  lapply H; [clear H; intros H|intros tr; cbn; lia].
  lapply H; [clear H; intros H|intros tr; exists []; split; [split; [constructor|intros; left; reflexivity]|cbn; lia]].
  lapply H; [clear H; intros H|reflexivity].
  lapply H; [clear H; intros H|reflexivity].
  lapply H; [clear H; intros H|cbn; lia].
  apply (wp_wlp _ _ _ (λ _, True)) in H. destruct (wlp_run_ret _ _ _ _ _ tt H) as (s' & Hrun & Hs); [vm_compute; reflexivity|].
  exists s'. split; [exact Hrun|exact Hs].
Defined.

(** A line the expansion refuses ends its child with a failure. *)
Example expansion_fails :
  let o := test_os (λ tr c, match c with Cextern "wordexp" _ _ => ok 2 | _ => ok 0 end) in
  (@run_child unit o (str "ls | wc") (init tt)).1 = Stop (Exit 1).
Proof. vm_compute. reflexivity. Qed.
(** A line of blanks has no words: its child starts no program. *)
Example no_words :
  (@run_child unit (test_os (λ _ _, ok 0)) (str "  ") (init tt)).1 = Stop (Undefined "null pointer").
Proof. vm_compute. reflexivity. Qed.
(** An unexpected error of waitpid is reported as a process -1, over and over. *)
Example handler_spins :
  let o := test_os (λ tr c, match c with Cwaitpid _ _ => Reply (-1) EINVAL [] [] | _ => ok 0 end) in
  (@child_handler unit o false 50 (init tt)).1 = NoFuel.
Proof. vm_compute. reflexivity. Qed.
