(* ===== verification/NsCapable.v ===== *)
(** tlpi-book/namespaces/ns_capable.c: the capabilities of a process in a
    namespace, from the tree of the user namespaces. *)
From S2P Require Import Prelude Sys ErrorFns GetNum SvmsgFile Printing Dict Coprocess ProcTree ProcFs Userns Seccomp SeccompNotify Procexec.

Definition NS_GET_USERNS : Z := 46849.      (* _IO(0xb7, 1), and so on *)
Definition NS_GET_PARENT : Z := 46850.
Definition NS_GET_NSTYPE : Z := 46851.
Definition NS_GET_OWNER_UID : Z := 46852.

Definition ns_usage_text (prog : cstr) : cstr :=
  str "Usage: " ++ prog ++ str " PID ns-file" ++ [NL] ++ TAB :: str "'ns-file' is a /proc/PID/ns/xxxx file" ++ [NL].
Definition caps_line (caps : cstr) : cstr := str "Capabilities: " ++ caps ++ [NL].

(** Device and inode of what a descriptor refers to. *)
Definition stat_id (r : reply) : Z * Z := (nth 0 (snd <$> rents r) 0, nth 1 (snd <$> rents r) 0).

Section Program.
Context {S : Type} `{os}.

(** A result the program checks against -1. *)
Definition checked (c : call) (msg : cstr) : M S reply :=
  r ← sys c;
  if rv r =? -1 then perror_exit msg else mret r.

Definition display_process_capabilities (pid : Z) : M S unit :=
  caps ← checked (Cextern "cap_get_pid" [pid] []) (str "cap_get_proc");
  cap_string ← checked (Cextern "cap_to_text" [rv caps] []) (str "cap_to_text");
  out Stdout (caps_line (c_str (rdata cap_string)));;
  sys (Cextern "cap_free" [rv caps] []);;
  sys (Cextern "cap_free" [] (c_str (rdata cap_string)));;
  mret tt.

(** A line of the status file; without two numbers after the label the variable
    keeps what it had. *)
Definition euid_turn (path : cstr) : M S (unit + Z) :=
  r ← sys (Cfgets_from (Named path) 1024);
  if rv r =? 0 then
    out Stderr (str "Failure scanning for 'Uid:' in " ++ path ++ [NL]);;
    stop_with (Exit 1)
  else
    let line := c_str (rdata r) in
    if has_prefix (str "Uid:") line then
      uid ← match scan_two (drop 4 line) with Some (_, uid) => mret uid | None => g ← sys Cgarbage; mret (rv g) end;
      sys (Cfclose (Named path));;
      mret (inr (wrap_u 32 uid))
    else mret (inl tt).
Definition euid_of_process (fuel : nat) (pid : Z) : M S Z :=
  let path := snprintf 4096 (str "/proc/" ++ dec pid ++ str "/status") in
  checked (Cfopen path) (str "fopen-/proc/PID/status");;
  loop fuel (λ _, euid_turn path) tt.

Definition ns_equal (nsfd1 nsfd2 : Z) : M S bool :=
  sb1 ← checked (Cfstat nsfd1) (str "fstat-nsfd1");
  sb2 ← checked (Cfstat nsfd2) (str "fstat-nsfd2");
  mret (((stat_id sb1).1 =? (stat_id sb2).1) && ((stat_id sb1).2 =? (stat_id sb2).2)).

Definition ns_type (ns_fd : Z) : M S Z :=
  nstype ← checked (Cioctl ns_fd NS_GET_NSTYPE) (str "ioctl-NS_GET_NSTYPE");
  mret (rv nstype).

Definition owning_userns_of (ns_fd : Z) : M S Z :=
  userns_fd ← checked (Cioctl ns_fd NS_GET_USERNS) (str "ioctl-NS_GET_USERNS");
  mret (rv userns_fd).

Definition uid_of_userns_owner (userns_fd : Z) : M S Z :=
  r ← checked (Cioctl userns_fd NS_GET_OWNER_UID) (str "ioctl-NS_GET_OWNER_UID");
  mret (wrap_s 32 (nth 0 (snd <$> rents r) 0)).

Definition ancestor_turn (fd_x child : Z) : M S (Z + Z) :=
  parent ← sys (Cioctl child NS_GET_PARENT);
  if rv parent =? -1 then
    e ← get_errno;
    if negb (e =? EPERM) then perror_exit (str "ioctl-NS_GET_PARENT") else mret (inr (-1))
  else
    same ← ns_equal (rv parent) fd_x;
    if (same : bool) then
      sys (Cclose (rv parent));;
      mret (inr child)
    else
      sys (Cclose child);;
      mret (inl (rv parent)).
Definition is_ancestor_userns (fuel : nat) (fd_x fd_y : Z) : M S Z := loop fuel (ancestor_turn fd_x) fd_y.

Definition close_checked (fd : Z) (msg : cstr) : M S unit := checked (Cclose fd) msg;; mret tt.

Definition target_userns_of (target_ns : Z) : M S Z :=
  type ← ns_type target_ns;
  if type =? CLONE_NEWUSER then mret target_ns else
  target_userns ← owning_userns_of target_ns;
  sys (Cclose target_ns);;
  mret target_userns.

(** The process is in an ancestor of the target; [desc_userns] is the next
    namespace on the way down. *)
Definition report_ancestor (fuel : nat) (pid_str : cstr) (pid desc_userns target_userns : Z) : M S unit :=
  euid ← euid_of_process fuel pid;
  owner ← uid_of_userns_owner desc_userns;
  let is_owner_of_userns := euid =? wrap_u 32 owner in
  out Stdout (str "PID " ++ pid_str ++ str " is in an ancestor user namespace");;
  (if is_owner_of_userns then out Stdout (str " and its effective UID matches" ++ [NL])
   else out Stdout (str ", but its effective UID does not match" ++ [NL]));;
  out Stdout (str "the owner of the immediate child user namespace of that ancestor namespace." ++ [NL]);;
  (if is_owner_of_userns then
     out Stdout (str "Therefore, subject to LSM checks, it has all capabilities in the target" ++ [NL] ++ str "namespace!" ++ [NL])
   else
     out Stdout (str "Therefore, subject to LSM checks, it has only the capabilities that are in its" ++ [NL] ++ str "sets, which are:" ++ [NL]);;
     display_process_capabilities pid);;
  if negb (desc_userns =? target_userns) then close_checked desc_userns (str "close-desc_userns") else mret tt.

Definition ns_capable_main (fuel : nat) (argv : list cstr) : M S unit :=
  match argv with
  | [_; pid_str; ns_file] =>
      let pid := atoi pid_str in
      target_ns ← checked (Copen ns_file 0 0) (str "open-ns-file");
      target_userns ← target_userns_of (rv target_ns);
      let path := snprintf 4096 (str "/proc/" ++ pid_str ++ str "/ns/user") in
      pid_userns ← checked (Copen path 0 0) (str "open-PID");
      same ← ns_equal (rv pid_userns) target_userns;
      (if (same : bool) then
         out Stdout (str "PID " ++ pid_str ++ str " is in the target namespace." ++ [NL]);;
         out Stdout (str "Subject to LSM checks, it has the following capabilities:" ++ [NL]);;
         display_process_capabilities pid
       else
         desc_userns ← is_ancestor_userns fuel (rv pid_userns) target_userns;
         if desc_userns =? -1 then
           out Stdout (str "PID " ++ pid_str ++ str " is not in an ancestor user namespace." ++ [NL]);;
           out Stdout (str "Therefore, it has no capabilities in the target namespace." ++ [NL])
         else report_ancestor fuel pid_str pid desc_userns target_userns);;
      close_checked target_userns (str "close-target_userns");;
      close_checked (rv pid_userns) (str "close-pid_userns");;
      stop_with (Exit 0)
  | _ =>
      out Stderr (ns_usage_text (default [] (argv !! 0%nat)));;
      stop_with (Exit 1)
  end.
End Program.

(** ** User namespaces *)

(** The namespaces, by number: which are user namespaces; the parent of a user
    namespace, as far as the program may see it; the user namespace that owns
    one of another kind; the user who created a user namespace; what the files
    under /proc refer to; device and inode; what a process has in its sets. *)
Record world := World {
  user_ns : Z → bool; parent : Z → option Z; owning : Z → Z; creator : Z → Z;
  opened : cstr → option Z; ids : Z → Z * Z; caps : Z → cstr }.

Section Worlds.
Context (w : world).

(** What each descriptor refers to. *)
Definition ns_step (t : gmap Z Z) (x : call * reply) : gmap Z Z :=
  let new n := if rv x.2 =? -1 then t else match n with Some n => <[rv x.2 := n]> t | None => t end in
  match x.1 with
  | Copen p _ _ => new (opened w p)
  | Cioctl fd req =>
      if req =? NS_GET_PARENT then new (t !! fd ≫= parent w)
      else if req =? NS_GET_USERNS then new (owning w <$> t !! fd) else t
  | Cclose fd => delete fd t
  | _ => t
  end.
Definition ns_fds (tr : list event) : gmap Z Z := foldl ns_step ∅ (calls tr).

Lemma ns_fds_sys tr c r : ns_fds (tr ++ [Esys c r]) = ns_step (ns_fds tr) (c, r).
Proof. unfold ns_fds. by rewrite calls_snoc_sys, foldl_app. Qed.
Lemma ns_fds_out tr f t : ns_fds (tr ++ [Eout f t]) = ns_fds tr.
Proof. unfold ns_fds. by rewrite calls_snoc_out. Qed.

(** open(2), fstat(2), ioctl_ns(2), cap_get_pid(3): a call fails, or does what
    it says; only a namespace without a parent gives EPERM; new descriptors are
    not in use. *)
Class Namespaces `{os} := {
  ns_open tr p : let r := kern tr (Copen p 0 0) in rv r = -1 ∨ is_Some (opened w p) ∧ ns_fds tr !! rv r = None;
  ns_parent tr fd u : ns_fds tr !! fd = Some u → user_ns w u = true → let r := kern tr (Cioctl fd NS_GET_PARENT) in
    match parent w u with None => rv r = -1 ∧ rerr r = EPERM | Some _ => rv r = -1 ∧ rerr r ≠ EPERM ∨ rv r ≠ -1 ∧ ns_fds tr !! rv r = None end;
  ns_owning tr fd n : ns_fds tr !! fd = Some n → user_ns w n = false → let r := kern tr (Cioctl fd NS_GET_USERNS) in rv r = -1 ∨ ns_fds tr !! rv r = None;
  ns_kind tr fd n : ns_fds tr !! fd = Some n → let r := kern tr (Cioctl fd NS_GET_NSTYPE) in rv r = -1 ∨ (rv r =? CLONE_NEWUSER) = user_ns w n;
  ns_creator tr fd u : ns_fds tr !! fd = Some u → user_ns w u = true → let r := kern tr (Cioctl fd NS_GET_OWNER_UID) in rv r = -1 ∨ nth 0 (snd <$> rents r) 0 = creator w u;
  ns_stat tr fd n : ns_fds tr !! fd = Some n → let r := kern tr (Cfstat fd) in rv r = -1 ∨ stat_id r = ids w n;
  ns_caps tr p : let r := kern tr (Cextern "cap_get_pid" [p] []) in rv r = -1 ∨
    let t := kern (tr ++ [Esys (Cextern "cap_get_pid" [p] []) r]) (Cextern "cap_to_text" [rv r] []) in rv t = -1 ∨ c_str (rdata t) = caps w p }.

(** Namespaces differ in device or inode; what owns a namespace and what is
    above it are user namespaces. *)
Class WorldOk := {
  ids_inj : Inj eq eq (ids w);
  parent_user u p : parent w u = Some p → user_ns w p = true;
  owning_user n : user_ns w n = false → user_ns w (owning w n) = true;
  creator_uid u : 0 <= creator w u < 2 ^ 32 }.

(** One step up, and the way to the top. *)
Definition up (u p : Z) : Prop := parent w u = Some p.
Inductive ancestry (u : Z) : list Z → Prop :=
  | top : parent w u = None → ancestry u []
  | above p l : up u p → ancestry p l → ancestry u (p :: l).

(** What user_namespaces(7) says of a process of the user namespace [v] with the
    effective user [e], about the user namespace [u]: it is a member of it; it is in
    an ancestor, and created the namespace below that on the way to [u], or did
    not; or it is in no ancestor. *)
Inductive verdict := Member | Owner | Ancestor | Unrelated.
Inductive judged (v u e : Z) : verdict → Prop :=
  | J_member : v = u → judged v u e Member
  | J_owner c : v ≠ u → rtc up u c → up c v → creator w c = e → judged v u e Owner
  | J_ancestor c : v ≠ u → rtc up u c → up c v → creator w c ≠ e → judged v u e Ancestor
  | J_unrelated : v ≠ u → ¬ tc up u v → judged v u e Unrelated.
End Worlds.

Definition verdict_text (pid_str caps : cstr) (V : verdict) : cstr :=
  let in_ancestor how := str "PID " ++ pid_str ++ str " is in an ancestor user namespace" ++ how ++ [NL] ++
    str "the owner of the immediate child user namespace of that ancestor namespace." ++ [NL] in
  match V with
  | Member => str "PID " ++ pid_str ++ str " is in the target namespace." ++ [NL] ++
      str "Subject to LSM checks, it has the following capabilities:" ++ [NL] ++ caps_line caps
  | Owner => in_ancestor (str " and its effective UID matches") ++
      str "Therefore, subject to LSM checks, it has all capabilities in the target" ++ [NL] ++ str "namespace!" ++ [NL]
  | Ancestor => in_ancestor (str ", but its effective UID does not match") ++
      str "Therefore, subject to LSM checks, it has only the capabilities that are in its" ++ [NL] ++ str "sets, which are:" ++ [NL] ++ caps_line caps
  | Unrelated => str "PID " ++ pid_str ++ str " is not in an ancestor user namespace." ++ [NL] ++
      str "Therefore, it has no capabilities in the target namespace." ++ [NL]
  end.

(** ** What the program finds out *)

Section Specs.
Context {S : Type} {w : world} `{Namespaces w} `{!WorldOk w}.
Implicit Types s : st S.
Abbreviation fds s := (ns_fds w (trace s)).

Lemma wp_checked c msg (Q : reply → st S → Prop) E s :
  (∀ s', said Stdout (trace s') = said Stdout (trace s) → E (Exit 1) s') →
  (∀ r s', r = kern (trace s) c → rv r ≠ -1 → trace s' = trace s ++ [Esys c r] → Q r s') → wp (checked c msg) Q E s.
Proof using.
  intros HE HQ. unfold checked. apply wp_bind, wp_call. intros r s1 Hr _ _ _ T1. destruct (Z.eqb_spec (rv r) (-1)) as [Er|Er]; [|by apply wp_ret, HQ].
  apply wp_bind, wp_bind, wp_get_errno, wp_emit, wp_stop, HE. cbn [trace]. rewrite said_app, T1, said_sys. apply app_nil_r.
Qed.

Lemma wp_ns_equal fd1 fd2 n1 n2 (Q : bool → st S → Prop) E s :
  fds s !! fd1 = Some n1 → fds s !! fd2 = Some n2 →
  (∀ s', said Stdout (trace s') = said Stdout (trace s) → E (Exit 1) s') →
  (∀ s', said Stdout (trace s') = said Stdout (trace s) → fds s' = fds s → Q (bool_decide (n1 = n2)) s') → wp (ns_equal fd1 fd2) Q E s.
Proof using All.
  intros H1 H2 HE HQ. unfold ns_equal. apply wp_bind, wp_checked; [done|]. intros r1 s1 Hr1 N1 T1. destruct (ns_stat w (trace s) fd1 n1 H1) as [Hx|Hs1]; [by rewrite <-Hr1 in Hx|]. rewrite <-Hr1 in Hs1.
  assert (fds s1 = fds s) as F1 by by rewrite T1, ns_fds_sys. assert (said Stdout (trace s1) = said Stdout (trace s)) as S1 by by rewrite T1, said_sys.
  apply wp_bind, wp_checked; [by intros s' Hs'; apply HE; rewrite Hs'|]. intros r2 s2 Hr2 N2 T2. rewrite <-F1 in H2. destruct (ns_stat w (trace s1) fd2 n2 H2) as [Hx|Hs2]; [by rewrite <-Hr2 in Hx|]. rewrite <-Hr2 in Hs2.
  apply wp_ret. rewrite Hs1, Hs2. assert ((((ids w n1).1 =? (ids w n2).1) && ((ids w n1).2 =? (ids w n2).2)) = bool_decide (n1 = n2)) as ->.
  { case_bool_decide as Hn; [subst; by rewrite !Z.eqb_refl|]. apply not_true_iff_false. intros [E1%Z.eqb_eq E2%Z.eqb_eq]%andb_prop. apply Hn, (ids_inj w). by destruct (ids w n1), (ids w n2); cbn in *; subst. }
  apply HQ; [by rewrite T2, said_sys|by rewrite T2, ns_fds_sys].
Qed.

(** The walk up ends at the namespace below that of [fd_x], or at the top. *)
Lemma wp_is_ancestor v fd_x base (E : stop → st S → Prop) : (∀ s', said Stdout (trace s') = base → E (Exit 1) s') →
  ∀ c l, ancestry w c l → ∀ fuel child s, (length l < fuel)%nat → fds s !! fd_x = Some v → fds s !! child = Some c → child ≠ fd_x → child ≠ -1 → user_ns w c = true → said Stdout (trace s) = base →
  wp (is_ancestor_userns fuel fd_x child)
    (λ d s', said Stdout (trace s') = base ∧ (d = -1 ∧ ¬ tc (up w) c v ∨ d ≠ -1 ∧ ∃ c', rtc (up w) c c' ∧ up w c' v ∧ fds s' !! d = Some c' ∧ user_ns w c' = true)) E s.
Proof using All.
  intros HE c l Hl. induction Hl as [c Hc|c p l Hp Hl IH]; intros [|fuel] child s Hf Hx Hch Hne Hpos Hu Hs; [cbn in Hf; lia| |cbn in Hf; lia|]; unfold is_ancestor_userns; rewrite loop_S; apply wp_bind; unfold ancestor_turn at 1.
  all: apply wp_bind, wp_call; intros r s1 Hr _ He _ T1; pose proof (ns_parent w (trace s) child c Hch Hu) as Hpar; cbv zeta in Hpar; rewrite <-Hr in Hpar.
  all: assert (said Stdout (trace s1) = base) as S1 by by rewrite T1, said_sys.
  - rewrite Hc in Hpar. destruct Hpar as [Er Ee]. rewrite Er. change (-1 =? -1) with true. cbv iota. apply wp_bind, wp_get_errno. rewrite (He Er), Ee. apply wp_ret, wp_ret. split; [done|]. left. split; [done|].
    intros Ht. inversion Ht; unfold up in *; congruence.
  - unfold up in Hp. rewrite Hp in Hpar. destruct Hpar as [[Er Ee]|[Er Hnew]].
    { rewrite Er. change (-1 =? -1) with true. cbv iota. apply wp_bind, wp_get_errno. rewrite (He Er), (proj2 (Z.eqb_neq _ _) Ee). apply wp_bind, wp_bind, wp_get_errno, wp_emit, wp_stop, HE. cbn [trace]. rewrite said_app, S1. apply app_nil_r. }
    rewrite (proj2 (Z.eqb_neq _ _) Er).
    assert (fds s1 = <[rv r := p]> (fds s)) as F1.
    { rewrite T1, ns_fds_sys. unfold ns_step. cbn -[insert lookup]. rewrite (proj2 (Z.eqb_neq _ _) Er), Hch. cbn. by rewrite Hp. }
    assert (rv r ≠ child ∧ rv r ≠ fd_x) as [Hrc Hrx] by (split; intros Er2; rewrite Er2 in Hnew; congruence).
    apply wp_bind. apply (wp_ns_equal (rv r) fd_x p v); [by rewrite F1, lookup_insert_eq|by rewrite F1, lookup_insert_ne|by intros s' Hs'; apply HE; rewrite Hs'|].
    intros s2 S2 F2. case_bool_decide as Hpv.
    + subst p. apply wp_bind, wp_call. intros k s3 _ _ _ _ T3. apply wp_ret, wp_ret. split; [by rewrite T3, said_sys, S2|]. right. split; [done|]. exists c. split; [done|]. split; [done|]. split; [|done].
      rewrite T3, ns_fds_sys, F2, F1. cbn. by rewrite lookup_delete_ne, lookup_insert_ne.
    + apply wp_bind, wp_call. intros k s3 _ _ _ _ T3. apply wp_ret.
      assert (fds s3 = delete child (<[rv r := p]> (fds s))) as F3 by by rewrite T3, ns_fds_sys, F2, F1.
      eapply wp_mono; [apply (IH fuel (rv r) s3)| |done].
      * cbn in Hf. lia.
      * by rewrite F3, lookup_delete_ne, lookup_insert_ne.
      * by rewrite F3, lookup_delete_ne, lookup_insert_eq.
      * done.
      * done.
      * by eapply parent_user.
      * by rewrite T3, said_sys, S2.
      * intros d s4 (S4 & Hd). split; [done|]. destruct Hd as [[-> Hno]|(Hd & c' & Hc' & Hup & Hdc & Hu')].
        -- left. split; [done|]. intros Ht. inversion Ht as [? ? Hu'|? y ? Hu' Hy]; subst; unfold up in Hu'; rewrite Hp in Hu'; injection Hu' as ->; [done|by apply Hno].
        -- right. split; [done|]. exists c'. split; [by eapply rtc_l|done].
Qed.

(** The second number after the label is the effective user. *)
Definition uid_line (l : cstr) (e : Z) : Prop := ∃ r rest, 0 <= r < 2 ^ 32 ∧ 0 <= e < 2 ^ 32 ∧ l = str "Uid:" ++ TAB :: dec r ++ TAB :: dec e ++ TAB :: rest.
Lemma wrap_u_s n z : 0 < n → 0 <= z < 2 ^ n → wrap_u n (wrap_s n z) = z.
Proof using.
  intros Hn Hz. pose proof (wrap_s_congr n z Hn) as Hc. unfold wrap_u. apply Z.mod_divide in Hc as [k Hk]; [|lia]. replace (wrap_s n z) with (z + k * 2 ^ n) by lia. rewrite Z_mod_plus_full. by apply Z.mod_small.
Qed.
Lemma scan_uid l e : uid_line l e → has_prefix (str "Uid:") l = true ∧ ∃ r, scan_two (drop 4 l) = Some (r, wrap_s 32 e).
Proof using.
  intros (r & rest & Hr & He & ->). split; [apply has_prefix_spec; by apply prefix_app_r|]. exists (wrap_s 32 r). unfold scan_two.
  change (drop 4 (str "Uid:" ++ TAB :: dec r ++ TAB :: dec e ++ TAB :: rest)) with ([TAB] ++ dec r ++ ([TAB] ++ dec e ++ TAB :: rest)).
  rewrite scan_int_text; [|unfold LONG_MIN, LONG_MAX; lia|done|by apply Forall_singleton]. cbn [mbind option_bind].
  rewrite scan_int_text; [done|unfold LONG_MIN, LONG_MAX; lia|done|by apply Forall_singleton].
Qed.

Context {dir : cstr → option (list (cstr * Z))} {file : cstr → option (list cstr)} {link : cstr → option cstr} `{!Tree dir file link}.

Lemma wp_euid_lines path e ul after (E : stop → st S → Prop) : uid_line ul e → ∀ before past fuel s, file path = Some (past ++ before ++ ul :: after) →
  Forall (λ l, has_prefix (str "Uid:") l = false) before → (length before < fuel)%nat → file_at path (trace s) = Some (length past) →
  wp (loop fuel (λ _, euid_turn path) tt) (λ z s', z = e ∧ said Stdout (trace s') = said Stdout (trace s) ∧ fds s' = fds s) E s.
Proof using All.
  intros Hul before. induction before as [|l before IH]; intros past [|fuel] s Hfile Hb Hf Hat; [cbn in Hf; lia| |cbn in Hf; lia|]; rewrite loop_S; apply wp_bind; unfold euid_turn at 1.
  all: cbn [app] in Hfile; apply wp_bind, wp_call; intros r s1 Hr _ _ _ T1; pose proof (fgets_reply (trace s) path _ _ 1024 ltac:(lia) Hat Hfile) as Hg; cbv zeta in Hg; rewrite <-Hr, list_lookup_middle in Hg by done; destruct Hg as [Hrv Hl]; rewrite (proj2 (Z.eqb_neq _ _) Hrv), Hl; cbv zeta.
  - destruct (scan_uid ul e Hul) as (-> & x & ->). apply wp_bind, wp_ret. apply wp_bind, wp_call. intros k s2 _ _ _ _ T2. apply wp_ret, wp_ret. rewrite T2, T1, !said_sys, !ns_fds_sys. split; [|done].
    destruct Hul as (? & ? & _ & He & _). by apply wrap_u_s.
  - apply Forall_cons in Hb as [Hl' Hb]. rewrite Hl'. apply wp_ret. eapply wp_mono; [apply (IH (past ++ [l]) fuel s1)| |done].
    + by rewrite <-app_assoc.
    + done.
    + cbn in Hf. lia.
    + rewrite T1, file_at_sys, Hat, length_app. cbn. by rewrite bool_decide_eq_true_2, Nat.add_1_r.
    + intros z s2 (-> & S2 & F2). by rewrite S2, F2, T1, said_sys, ns_fds_sys.
Qed.

(** A process whose status file may be read, with its effective user. *)
Definition status_of (p e : Z) (fuel : nat) : Prop := ∃ before ul after, file (snprintf 4096 (str "/proc/" ++ dec p ++ str "/status")) = Some (before ++ ul :: after) ∧
  Forall (λ l, has_prefix (str "Uid:") l = false) before ∧ uid_line ul e ∧ (length before < fuel)%nat.

Lemma wp_euid p e fuel (Q : Z → st S → Prop) E s : status_of p e fuel →
  (∀ s', said Stdout (trace s') = said Stdout (trace s) → E (Exit 1) s') →
  (∀ s', said Stdout (trace s') = said Stdout (trace s) → fds s' = fds s → Q e s') → wp (euid_of_process fuel p) Q E s.
Proof using All.
  intros (before & ul & after & Hfile & Hb & Hul & Hf) HE HQ. unfold euid_of_process. cbv zeta. set (path := snprintf _ _) in *. apply wp_bind, wp_checked; [done|]. intros r s1 Hr N1 T1.
  eapply wp_mono; [apply (wp_euid_lines path e ul after E Hul before [] fuel s1); [done|done|done|]| |done].
  - rewrite T1, file_at_sys. cbn. rewrite bool_decide_eq_true_2 by done. by rewrite (proj2 (Z.eqb_neq _ _) N1).
  - intros z s2 (-> & S2 & F2). apply HQ; [by rewrite S2, T1, said_sys|by rewrite F2, T1, ns_fds_sys].
Qed.

Lemma wp_display p (Q : unit → st S → Prop) E s :
  (∀ s', said Stdout (trace s') = said Stdout (trace s) → E (Exit 1) s') →
  (∀ s', said Stdout (trace s') = said Stdout (trace s) ++ caps_line (caps w p) → fds s' = fds s → Q tt s') → wp (display_process_capabilities p) Q E s.
Proof using All.
  intros HE HQ. unfold display_process_capabilities. apply wp_bind, wp_checked; [done|]. intros c s1 Hc N1 T1. apply wp_bind, wp_checked.
  { intros s' Hs'. apply HE. by rewrite Hs', T1, said_sys. }
  intros t s2 Ht N2 T2. pose proof (ns_caps w (trace s) p) as Hcaps. cbv zeta in Hcaps. rewrite <-Hc, <-T1, <-Ht in Hcaps. destruct Hcaps as [Hx|[Hx|Htext]]; [done..|]. rewrite Htext.
  apply wp_bind, wp_emit, wp_bind, wp_call. intros k1 s3 _ _ _ _ T3. apply wp_bind, wp_call. intros k2 s4 _ _ _ _ T4. apply wp_ret. cbn [trace] in T3. apply HQ.
  - by rewrite T4, T3, !said_sys, said_out, T2, T1, !said_sys.
  - by rewrite T4, T3, !ns_fds_sys, ns_fds_out, T2, T1, !ns_fds_sys.
Qed.

Lemma wp_target_userns n fd (E : stop → st S → Prop) s :
  (∀ s', said Stdout (trace s') = said Stdout (trace s) → E (Exit 1) s') → fds s !! fd = Some n → fd ≠ -1 →
  wp (target_userns_of fd)
    (λ d s', said Stdout (trace s') = said Stdout (trace s) ∧ d ≠ -1 ∧ fds s' !! d = Some (if user_ns w n then n else owning w n)) E s.
Proof using All.
  intros HE Hfd Hne. unfold target_userns_of, ns_type. apply wp_bind, wp_bind, wp_checked; [done|]. intros k s1 Hk N1 T1. apply wp_ret. destruct (ns_kind w (trace s) fd n Hfd) as [Hx|Hkind]; [by rewrite <-Hk in Hx|]. rewrite <-Hk in Hkind. rewrite Hkind.
  assert (fds s1 = fds s) as F1 by by rewrite T1, ns_fds_sys. assert (said Stdout (trace s1) = said Stdout (trace s)) as S1 by by rewrite T1, said_sys.
  destruct (user_ns w n) eqn:En; [apply wp_ret; by rewrite F1|]. unfold owning_userns_of. apply wp_bind, wp_bind, wp_checked; [intros s' Hs'; apply HE; by rewrite Hs'|]. intros o s2 Ho N2 T2. apply wp_ret.
  rewrite <-F1 in Hfd. destruct (ns_owning w (trace s1) fd n Hfd En) as [Hx|Hnew]; [by rewrite <-Ho in Hx|]. rewrite <-Ho in Hnew.
  apply wp_bind, wp_call. intros c s3 _ _ _ _ T3. apply wp_ret. split; [by rewrite T3, T2, !said_sys|]. split; [done|].
  assert (rv o ≠ fd) as Hof by (intros Eo; rewrite Eo in Hnew; congruence).
  rewrite T3, ns_fds_sys. cbn -[lookup delete]. rewrite lookup_delete_ne by done. rewrite T2, ns_fds_sys. unfold ns_step. cbn -[lookup insert]. rewrite (proj2 (Z.eqb_neq _ _) N2), Hfd. cbn -[lookup insert]. by rewrite lookup_insert_eq.
Qed.

(** What has been printed is a part of the verdict. *)
Definition reported (base text : cstr) (t : stop) (s' : st S) : Prop :=
  ∃ printed, said Stdout (trace s') = base ++ printed ∧ (t = Exit 0 ∧ printed = text ∨ t = Exit 1 ∧ printed `prefix_of` text).
Lemma reported_part base text a rest s' : said Stdout (trace s') = base ++ a → text = a ++ rest → reported base text (Exit 1) s'.
Proof using. intros Hs ->. exists a. split; [done|]. right. split; [done|]. by apply prefix_app_r. Qed.

Lemma wp_report p u v c d target e fuel base s :
  v ≠ u → rtc (up w) u c → up w c v → user_ns w c = true → status_of p e fuel → fds s !! d = Some c → said Stdout (trace s) = base →
  let V := if creator w c =? e then Owner else Ancestor in
  judged w v u e V ∧
  wp (report_ancestor fuel (dec p) p d target) (λ _ s', said Stdout (trace s') = base ++ verdict_text (dec p) (caps w p) V)
    (λ t s', t = Exit 1 ∧ reported base (verdict_text (dec p) (caps w p) V) t s') s.
Proof using All.
  intros Hvu Huc Hcv Huser Hst Hd Hs V. split.
  { subst V. destruct (Z.eqb_spec (creator w c) e); [by eapply J_owner|by eapply J_ancestor]. }
  assert (∀ s', said Stdout (trace s') = base → Exit 1 = Exit 1 ∧ reported base (verdict_text (dec p) (caps w p) V) (Exit 1) s') as Hquiet.
  { intros s' Hs'. split; [done|]. eapply (reported_part _ _ []); [by rewrite app_nil_r|done]. }
  unfold report_ancestor. apply wp_bind, (wp_euid p e fuel); [done|intros s' Hs'; apply Hquiet; congruence|]. intros s1 S1 F1. rewrite Hs in S1. rewrite <-F1 in Hd.
  unfold uid_of_userns_owner. apply wp_bind, wp_bind, wp_checked; [intros s' Hs'; apply Hquiet; congruence|]. intros r s2 Hr N2 T2. apply wp_ret.
  destruct (ns_creator w (trace s1) d c Hd Huser) as [Hx|Hc]; [by rewrite <-Hr in Hx|]. rewrite <-Hr in Hc. rewrite Hc, wrap_u_s by (lia || apply creator_uid, _). cbv zeta.
  assert (said Stdout (trace s2) = base) as S2 by by rewrite T2, said_sys.
  assert (∀ s' : st S, said Stdout (trace s') = base ++ verdict_text (dec p) (caps w p) V → wp (if negb (d =? target) then close_checked d (str "close-desc_userns") else mret tt)
    (λ _ s', said Stdout (trace s') = base ++ verdict_text (dec p) (caps w p) V) (λ t s', t = Exit 1 ∧ reported base (verdict_text (dec p) (caps w p) V) t s') s') as Hclose.
  { intros s' Hs'. destruct (negb (d =? target)); [|by apply wp_ret]. unfold close_checked. apply wp_bind, wp_checked.
    - intros s3 S3. split; [done|]. eapply reported_part; [by rewrite S3|by rewrite app_nil_r].
    - intros k s3 _ _ T3. apply wp_ret. by rewrite T3, said_sys. }
  rewrite (Z.eqb_sym e). subst V. destruct (creator w c =? e).
  - apply wp_bind, wp_emit, wp_bind, wp_emit, wp_bind, wp_emit, wp_bind, wp_emit, Hclose. cbn [trace]. rewrite !said_out, S2. unfold verdict_text. by rewrite <-!app_assoc.
  - apply wp_bind, wp_emit, wp_bind, wp_emit, wp_bind, wp_emit, wp_bind, wp_bind, wp_emit, wp_display; cbn [trace]; rewrite !said_out, S2.
    + intros s' Hs'. split; [done|]. eapply reported_part; [by rewrite Hs', <-!app_assoc|]. unfold verdict_text. by rewrite <-!app_assoc.
    + intros s' Hs' _. apply Hclose. rewrite Hs'. unfold verdict_text. by rewrite <-!app_assoc.
Qed.
End Specs.

(** C8: The program prints what user_namespaces(7) says of the process and of the
    namespace, unless a call fails; it ends, with success only after the whole of it. *)
Theorem ns_capable_correct {S} {w} `{Namespaces w} `{!WorldOk w} {dir file link} `{!Tree dir file link} prog p ns_file n v e l fuel (s : st S) :
  let u := if user_ns w n then n else owning w n in
  is_int p → opened w ns_file = Some n → opened w (snprintf 4096 (str "/proc/" ++ dec p ++ str "/ns/user")) = Some v →
  ancestry w u l → (length l < fuel)%nat → @status_of file p e fuel →
  wp (ns_capable_main fuel [prog; dec p; ns_file]) (λ _ _, False)
    (λ t s', t = Exit 1 ∧ said Stdout (trace s') = said Stdout (trace s) ∨
       ∃ V, judged w v u e V ∧ reported (said Stdout (trace s)) (verdict_text (dec p) (caps w p) V) t s') s.
Proof.
  intros u Hp Hn Hv Hl Hf Hst. set (base := said Stdout (trace s)). set (E := λ (t : stop) (s' : st S), _ ∨ _).
  assert (∀ s', said Stdout (trace s') = base → E (Exit 1) s') as Hquiet by (intros s' Hs'; by left).
  unfold ns_capable_main. rewrite atoi_dec by (unfold is_int in Hp; lia). cbv zeta.
  assert (∀ path k (s1 : st S) r (s' : st S), opened w path = Some k → r = kern (trace s1) (Copen path 0 0) → rv r ≠ -1 → trace s' = trace s1 ++ [Esys (Copen path 0 0) r] →
    ns_fds w (trace s1) !! rv r = None ∧ ns_fds w (trace s') = <[rv r := k]> (ns_fds w (trace s1))) as Hopen.
  { intros path k s1 r s' Hk Hr Nr T. destruct (ns_open w (trace s1) path) as [Hx|[_ Hnew]]; [by rewrite <-Hr in Hx|]. rewrite <-Hr in Hnew. split; [done|]. rewrite T, ns_fds_sys. unfold ns_step. cbn -[insert]. by rewrite (proj2 (Z.eqb_neq _ _) Nr), Hk. }
  apply wp_bind, wp_checked; [done|]. intros t s1 Ht N1 T1. destruct (Hopen _ _ _ _ _ Hn Ht N1 T1) as [_ F1].
  assert (said Stdout (trace s1) = base) as S1 by by rewrite T1, said_sys.
  apply wp_bind. eapply wp_mono; [apply (wp_target_userns n (rv t) E s1); [intros s' Hs'; apply Hquiet; congruence|by rewrite F1, lookup_insert_eq|done]| |done]. fold u.
  intros target s2 (S2 & Nt & F2). rewrite S1 in S2. apply wp_bind, wp_checked; [intros s' Hs'; apply Hquiet; congruence|]. intros x s3 Hx N3 T3. destruct (Hopen _ _ _ _ _ Hv Hx N3 T3) as [New3 F3].
  assert (said Stdout (trace s3) = base) as S3 by by rewrite T3, said_sys.
  assert (rv x ≠ target) as Hxt by (intros Ex; rewrite Ex in New3; congruence).
  apply wp_bind. apply (wp_ns_equal (rv x) target v u); [by rewrite F3, lookup_insert_eq|by rewrite F3, lookup_insert_ne|intros s' Hs'; apply Hquiet; congruence|].
  intros s4 S4 F4. rewrite S3 in S4.
  assert (∀ V (s5 : st S), judged w v u e V → said Stdout (trace s5) = base ++ verdict_text (dec p) (caps w p) V →
    wp (close_checked target (str "close-target_userns");; close_checked (rv x) (str "close-pid_userns");; stop_with (Exit 0)) (λ (_ : unit) _, False) E s5) as Hclose.
  { intros V s5 HV S5. assert (∀ s', said Stdout (trace s') = base ++ verdict_text (dec p) (caps w p) V → E (Exit 1) s') as Hwhole.
    { intros s' Hs'. right. exists V. split; [done|]. eapply reported_part; [exact Hs'|by rewrite app_nil_r]. }
    unfold close_checked. apply wp_bind, wp_bind, wp_checked; [intros s' Hs'; apply Hwhole; congruence|]. intros k1 s6 _ _ T6. apply wp_ret. assert (said Stdout (trace s6) = base ++ verdict_text (dec p) (caps w p) V) as S6 by by rewrite T6, said_sys.
    apply wp_bind, wp_bind, wp_checked; [intros s' Hs'; apply Hwhole; congruence|]. intros k2 s7 _ _ T7. apply wp_ret, wp_stop. right. exists V. split; [done|]. eexists. split; [rewrite T7, said_sys; exact S6|by left]. }
  apply wp_bind. case_bool_decide as Hvu.
  - apply wp_bind, wp_emit, wp_bind, wp_emit, wp_display; cbn [trace]; rewrite !said_out, S4.
    + intros s' Hs'. right. exists Member. split; [by apply J_member|]. eapply reported_part; [by rewrite Hs', <-!app_assoc|]. unfold verdict_text. by rewrite <-!app_assoc.
    + intros s' Hs' _. apply (Hclose Member); [by apply J_member|]. rewrite Hs'. unfold verdict_text. by rewrite <-!app_assoc.
  - assert (user_ns w u = true) as Hu by (unfold u; destruct (user_ns w n) eqn:En; [done|by eapply owning_user]).
    apply wp_bind. eapply wp_mono; [apply (wp_is_ancestor v (rv x) base E Hquiet u l Hl fuel target s4); [done|by rewrite F4, F3, lookup_insert_eq|by rewrite F4, F3, lookup_insert_ne|done..]| |done].
    intros d s5 (S5 & [[-> Hno]|(Hd & c & Huc & Hcv & Fd & Hc)]).
    + change (-1 =? -1) with true. cbv iota. apply wp_bind, wp_emit, wp_emit. apply (Hclose Unrelated); [by apply J_unrelated|]. cbn [trace]. rewrite !said_out, S5. unfold verdict_text. by rewrite <-!app_assoc.
    + rewrite (proj2 (Z.eqb_neq _ _) Hd). destruct (wp_report p u v c d target e fuel base s5 Hvu Huc Hcv Hc Hst Fd S5) as [HV Hwp].
      eapply wp_mono; [exact Hwp|intros [] s6 S6; by apply (Hclose _ s6 HV)|intros t' s6 [-> Hrep]; right; by eexists].
Qed.

(** ** A system *)

Definition free_fd (t : gmap Z Z) : option Z := head (filter (λ k, bool_decide (t !! k = None) = true) (seqZ 3 20)).
Definition EMFILE : Z := 24.
Definition ns_os (w : world) (file : cstr → option (list cstr)) : os := test_os (λ tr c,
  let t := ns_fds w tr in
  let open := match free_fd t with Some k => ok k | None => fail EMFILE end in
  match c with
  | Copen p _ _ => match opened w p with Some _ => open | None => fail ENOENT end
  | Cioctl fd req =>
      match t !! fd with
      | None => fail EBADF
      | Some n =>
          if req =? NS_GET_PARENT then match parent w n with None => fail EPERM | Some _ => open end
          else if req =? NS_GET_USERNS then open
          else if req =? NS_GET_NSTYPE then ok (if user_ns w n then CLONE_NEWUSER else 0)
          else Reply 0 0 [] [([], creator w n)]
      end
  | Cfstat fd => match t !! fd with None => fail EBADF | Some n => Reply 0 0 [] [([], (ids w n).1); ([], (ids w n).2)] end
  | Cclose fd => match t !! fd with None => fail EBADF | Some _ => ok 0 end
  | Cextern "cap_get_pid" [p] _ => ok p
  | Cextern "cap_to_text" [p] _ => Reply 0 0 (caps w p) []
  | _ => @kern (tree_os (λ _, None) file (λ _, None)) tr c
  end).

Lemma free_fd_new t k : free_fd t = Some k → k ≠ -1 ∧ t !! k = None.
Proof.
  unfold free_fd. intros Hk. apply head_Some_elem_of, list_elem_of_filter in Hk as [Hk%bool_decide_eq_true_1 Hin]. apply elem_of_seqZ in Hin. split; [lia|done].
Qed.

Lemma ns_os_Namespaces w file : (∀ p, NUL ∉ caps w p) → @Namespaces w (ns_os w file).
Proof.
  intros Hcaps. split; intros tr; cbn -[lookup].
  - intros p. destruct (opened w p) eqn:Ep; [|by left]. destruct (free_fd _) eqn:Ek; [|by left]. right. split; [done|]. by apply (free_fd_new _ _ Ek).
  - intros fd u Hfd Hu. rewrite Hfd. destruct (parent w u); [|done]. destruct (free_fd _) eqn:Ek; [|by left]. right. by apply (free_fd_new _ _ Ek).
  - intros fd n Hfd Hn. rewrite Hfd. destruct (free_fd _) eqn:Ek; [|by left]. right. by apply (free_fd_new _ _ Ek).
  - intros fd n Hfd. rewrite Hfd. right. cbn. by destruct (user_ns w n).
  - intros fd u Hfd Hu. rewrite Hfd. by right.
  - intros fd n Hfd. rewrite Hfd. right. unfold stat_id. cbn. by destruct (ids w n).
  - intros p. right. right. apply c_str_id, Hcaps.
Qed.

Lemma ns_os_Tree w file : (∀ p ls, file p = Some ls → Forall (λ l, NUL ∉ l) ls) → @Tree (ns_os w file) (λ _, None) file (λ _, None).
Proof.
  intros Hfile. pose proof (tree_os_Tree (λ _, None) file (λ _, None) Hfile ltac:(done)) as HT. split.
  - exact (@opendir_reply _ _ _ _ HT).
  - exact (@readdir_reply _ _ _ _ HT).
  - exact (@fopen_reply _ _ _ _ HT).
  - exact (@fgets_reply _ _ _ _ HT).
  - exact (@readlink_reply _ _ _ _ HT).
Qed.

(** The initial user namespace, 1, and its children 2 and 3, of users 1000 and
    1001; a network namespace, 10, that 2 owns. *)
Definition small_world : world := {|
  user_ns n := n <? 10;
  parent u := if (u =? 2) || (u =? 3) then Some 1 else None;
  owning n := 2;
  creator u := if u =? 2 then 1000 else if u =? 3 then 1001 else 0;
  opened p := if streq p (str "/proc/7/ns/user") then Some 1 else if streq p (str "/proc/8/ns/user") then Some 2
    else if streq p (str "/proc/9/ns/user") then Some 3 else if streq p (str "/proc/8/ns/net") then Some 10 else None;
  ids n := (4, n);
  caps _ := str "=ep" |}.
#[export] Instance small_world_ok : WorldOk small_world.
Proof.
  split.
  - by intros x y [= ->].
  - intros u p. cbn. destruct (_ || _); by intros [= <-].
  - done.
  - intros u. cbn. repeat case_match; lia.
Qed.
Definition shell_status (p : cstr) : option (list cstr) :=
  if streq p (str "/proc/7/status") then Some [str "Name:" ++ TAB :: str "sh" ++ [NL]; str "Uid:" ++ TAB :: dec 1000 ++ TAB :: dec 1000 ++ TAB :: str "1000" ++ [NL]] else None.

Lemma ns_capable_witness :
  let o := ns_os small_world shell_status in
  ∃ s', @ns_capable_main unit o 3 [str "ns_capable"; str "7"; str "/proc/8/ns/net"] (init tt) = (Stop (Exit 0), s') ∧
    ∃ V, judged small_world 1 2 1000 V ∧ said Stdout (trace s') = verdict_text (str "7") (str "=ep") V.
Proof.
  assert (@Namespaces small_world (ns_os small_world shell_status)) as HN by (apply ns_os_Namespaces; intros p; apply (bool_decide_unpack _); vm_compute; exact I).
  assert (@Tree (ns_os small_world shell_status) (λ _, None) shell_status (λ _, None)) as HT.
  { apply ns_os_Tree. intros p ls. unfold shell_status. destruct (streq _ _); [|discriminate]. intros [= <-]. repeat constructor; apply (bool_decide_unpack _); vm_compute; exact I. }
  pose proof (@ns_capable_correct unit small_world (ns_os small_world shell_status) HN small_world_ok _ _ _ HT (str "ns_capable") 7 (str "/proc/8/ns/net") 10 1 1000 [1] 3 (init tt)) as H.
  cbv zeta in H. lapply H; [clear H; intros H|unfold is_int, INT_MIN, INT_MAX; lia].
  lapply H; [clear H; intros H|vm_compute; reflexivity].
  lapply H; [clear H; intros H|vm_compute; reflexivity].
  lapply H; [clear H; intros H|change (ancestry small_world 2 [1]); apply above; [reflexivity|by apply top]].
  lapply H; [clear H; intros H|cbn; lia].
  lapply H; [clear H; intros H|].
  2: { exists [str "Name:" ++ TAB :: str "sh" ++ [NL]], (str "Uid:" ++ TAB :: dec 1000 ++ TAB :: dec 1000 ++ TAB :: str "1000" ++ [NL]), []. split; [vm_compute; reflexivity|]. split; [repeat constructor|]. split; [|cbn; lia].
       exists 1000, (str "1000" ++ [NL]). split; [lia|]. split; [lia|reflexivity]. }
  apply (wp_wlp _ _ _ (λ _, True)) in H. destruct (wlp_run_stop _ _ _ _ _ (Exit 0) H) as (s' & Hrun & [[? _]|(V & HV & out & Hs & [[_ Ho]|[? _]])]); [vm_compute; reflexivity|discriminate| |discriminate].
  exists s'. split; [exact Hrun|]. exists V. split; [exact HV|]. rewrite Hs, Ho. reflexivity.
Defined.

(** After more than one step the walk has closed the descriptor of the target,
    which the program closes once more: it fails, though the verdict is printed. *)
Example closed_twice :
  let o := ns_os small_world shell_status in
  let '(r, s') := @ns_capable_main unit o 3 [str "ns_capable"; str "8"; str "/proc/9/ns/user"] (init tt) in
  r = Stop (Exit 1) ∧ said Stdout (trace s') = verdict_text (str "8") [] Unrelated ∧ last (acts (trace s')) = Some (Cclose 3, fail EBADF).
Proof. vm_compute. done. Qed.
