(* ===== verification/Epoll.v ===== *)
(** tlpi-book/altio: programs that wait for several files. *)
From S2P Require Import Prelude Sys ErrorFns GetNum SvmsgFile Printing Dict BinarySems Threads Attrs Procexec.

Definition EPOLLIN : Z := 1.
Definition EPOLLERR : Z := 8.
Definition EPOLLHUP : Z := 16.
Definition MAX_BUF : Z := 1000.
Definition MAX_EVENTS : Z := 5.

Definition has (mask bits : Z) : bool := negb (Z.land mask bits =? 0).

Definition opened_line (file : cstr) (fd : Z) : cstr := str "Opened " ++ DQ :: file ++ DQ :: str " on fd " ++ dec fd ++ [NL].
Definition event_line (fd events : Z) : cstr :=
  str "  fd=" ++ dec fd ++ str "; events: " ++ (if has events EPOLLIN then str "EPOLLIN " else []) ++ (if has events EPOLLHUP then str "EPOLLHUP " else []) ++
  (if has events EPOLLERR then str "EPOLLERR " else []) ++ [NL].
Definition read_text (s : Z) (buf : cstr) : cstr := str "    read " ++ dec s ++ str " bytes: " ++ c_str (take (Z.to_nat s) buf) ++ [NL].

(** The entries of the array: a descriptor and its events, one after the other. *)
Fixpoint pair_up (l : list Z) : list (Z * Z) := match l with a :: b :: l => (a, b) :: pair_up l | _ => [] end.
Definition events_of (r : reply) : list (Z * Z) := take (Z.to_nat (rv r)) (pair_up (snd <$> rents r)).

Section Program.
Context {S : Type} `{os}.

Fixpoint open_all (epfd : Z) (files : list cstr) : M S unit :=
  match files with
  | [] => mret tt
  | file :: files =>
      fd ← sys (Copen file 0 0);
      if rv fd =? -1 then errExit (str "open") else
      out Stdout (opened_line file (rv fd));;
      c ← sys (Cextern "epoll_ctl" [epfd; 1; rv fd; EPOLLIN] []);
      if rv c =? -1 then errExit (str "epoll_ctl") else
      open_all epfd files
  end.

(** One of the events; the number of open files goes on. *)
Definition handle_event (numOpenFds : Z) (e : Z * Z) : M S Z :=
  let '(fd, events) := e in
  out Stdout (event_line fd events);;
  if has events EPOLLIN then
    s ← sys (Cread fd MAX_BUF);
    if rv s =? -1 then errExit (str "read") else
    out Stdout (read_text (rv s) (rdata s));;
    mret numOpenFds
  else if has events (Z.lor EPOLLHUP EPOLLERR) then
    out Stdout (str "    closing fd " ++ dec fd ++ [NL]);;
    c ← sys (Cclose fd);
    if rv c =? -1 then errExit (str "close") else
    mret (numOpenFds - 1)
  else mret numOpenFds.
Fixpoint handle_events (numOpenFds : Z) (es : list (Z * Z)) : M S Z :=
  match es with
  | [] => mret numOpenFds
  | e :: es => n ← handle_event numOpenFds e; handle_events n es
  end.

Definition epoll_turn (epfd numOpenFds : Z) : M S (Z + unit) :=
  if numOpenFds <=? 0 then mret (inr tt) else
  out Stdout (str "About to epoll_wait()" ++ [NL]);;
  ready ← sys (Cextern "epoll_wait" [epfd; MAX_EVENTS; -1] []);
  if rv ready =? -1 then
    e ← get_errno;
    if e =? EINTR then mret (inl numOpenFds) else errExit (str "epoll_wait")
  else
    out Stdout (str "Ready: " ++ dec (rv ready) ++ [NL]);;
    n ← handle_events numOpenFds (events_of ready);
    mret (inl n).

Definition epoll_input_main (fuel : nat) (argv : list cstr) : M S unit :=
  let usage := usageErr (default [] (argv !! 0%nat) ++ str " file..." ++ [NL]) in
  match argv with
  | _ :: file :: _ =>
      if streq file (str "--help") then usage else
      let files := tail argv in
      epfd ← sys (Cextern "epoll_create" [Z.of_nat (length files)] []);
      if rv epfd =? -1 then errExit (str "epoll_create") else
      open_all (rv epfd) files;;
      loop fuel (epoll_turn (rv epfd)) (Z.of_nat (length files));;
      out Stdout (str "All file descriptors closed; bye" ++ [NL]);;
      stop_with (Exit 0)
  | _ => usage
  end.
End Program.

(** ** Files that are watched *)

(** The files in the interest list that are open, what was read from each, what
    was closed, and what was opened. *)
Definition watch_step (l : list Z) (x : call * reply) : list Z :=
  match x with
  | (Cextern "epoll_ctl" [_; 1; fd; _] _, r) => if rv r =? -1 then l else l ++ [fd]
  | (Cclose fd, _) => filter (λ d, d ≠ fd) l
  | _ => l
  end.
Definition watched (tr : list event) : list Z := foldl watch_step [] (calls tr).
Definition reads (fd : Z) (tr : list event) : list cstr := omap (λ x, match x with (Cread d _, r) => if d =? fd then Some (rdata r) else None | _ => None end) (calls tr).
Definition closes (tr : list event) : list Z := omap (λ x, match x with (Cclose fd, _) => Some fd | _ => None end) (calls tr).
Definition opens (tr : list event) : list (cstr * Z) := omap (λ x, match x with (Copen p _ _, r) => Some (p, rv r) | _ => None end) (calls tr).

(** Whatever is read is printed at once. *)
Fixpoint echoed (tr : list event) : Prop :=
  match tr with
  | Esys (Cread _ _) r :: tr => head tr = Some (Eout Stdout (read_text (rv r) (rdata r))) ∧ echoed tr
  | _ :: tr => echoed tr
  | [] => True
  end.
Lemma echoed_app a b : echoed a → echoed b → echoed (a ++ b).
Proof.
  intros Ha Hb. induction a as [|e a IH]; [done|]. destruct e as [c r|f t]; [|by apply IH]. cbn [app echoed] in *.
  destruct c; try by apply IH. destruct Ha as [Hh Ha]. split; [|by apply IH]. by destruct a.
Qed.

(** The system: [content] is what the reads of a descriptor give, piece by piece.
    A descriptor that is opened is not watched yet; a wait gives between one and
    five events, of different files that are watched, with EPOLLIN exactly when there
    is something to read and EPOLLHUP or EPOLLERR otherwise; or it is interrupted, a number of
    times at most.  Calls may fail. *)
Definition wait_call (epfd : Z) : call := Cextern "epoll_wait" [epfd; MAX_EVENTS; -1] [].
Definition event_ok (content : Z → list cstr) (tr : list event) (e : Z * Z) : Prop :=
  e.1 ∈ watched tr ∧ has e.2 EPOLLIN = bool_decide (length (reads e.1 tr) < length (content e.1))%nat ∧
  (has e.2 EPOLLIN = false → has e.2 (Z.lor EPOLLHUP EPOLLERR) = true).
Class Epoll `{os} (content : Z → list cstr) (epfd : Z) (k : nat) := {
  epoll_patient :: Patient (wait_call epfd) k;
  open_new tr p : closes tr = [] → let r := kern tr (Copen p 0 0) in rv r = -1 ∨ (rv r ∉ watched tr) ∧ reads (rv r) tr = [];
  wait_reply tr : let r := kern tr (wait_call epfd) in rv r ≠ -1 → 
    let es := events_of r in (0 < length es)%nat ∧ NoDup es.*1 ∧ Forall (event_ok content tr) es;
  read_reply tr fd c : content fd !! length (reads fd tr) = Some c → let r := kern tr (Cread fd MAX_BUF) in rv r = -1 ∨ rdata r = c }.

Section Specs.
Context {S : Type} {content : Z → list cstr} {epfd : Z} {k : nat} `{Epoll content epfd k}.
Implicit Types (s : st S) (tr : list event).

Lemma watched_sys tr c r : watched (tr ++ [Esys c r]) = watch_step (watched tr) (c, r).
Proof using. unfold watched. by rewrite calls_snoc_sys, foldl_app. Qed.
Lemma reads_sys fd tr c r : reads fd (tr ++ [Esys c r]) = reads fd tr ++ match c with Cread d _ => if d =? fd then [rdata r] else [] | _ => [] end.
Proof using. unfold reads. rewrite calls_snoc_sys, omap_app. f_equal. destruct c; try done. cbn. by destruct (_ =? _). Qed.
Lemma closes_sys tr c r : closes (tr ++ [Esys c r]) = closes tr ++ match c with Cclose fd => [fd] | _ => [] end.
Proof using. unfold closes. rewrite calls_snoc_sys, omap_app. f_equal. by destruct c. Qed.
Lemma opens_sys tr c r : opens (tr ++ [Esys c r]) = opens tr ++ match c with Copen p _ _ => [(p, rv r)] | _ => [] end.
Proof using. unfold opens. rewrite calls_snoc_sys, omap_app. f_equal. by destruct c. Qed.

(** What is kept: [fds] are the files opened, of which those that are not watched
    any more have been closed after their end. *)
Record kept (fds : list Z) (tr : list event) : Prop := {
  kept_nodup : NoDup fds;
  kept_all : closes tr ++ watched tr ≡ₚ fds;
  kept_closed fd : fd ∈ closes tr → reads fd tr = content fd;
  kept_open fd : fd ∈ watched tr → reads fd tr `prefix_of` content fd;
  kept_echo : echoed tr }.

(** What is left to do. *)
Definition left_of (tr : list event) (fd : Z) : nat := length (content fd) - length (reads fd tr) + 1.
Definition work (tr : list event) : nat := sum_list_with (left_of tr) (watched tr).

Lemma kept_out fds tr t : kept fds tr → kept fds (tr ++ [Eout Stdout t]).
Proof using.
  intros [H1 H2 H3 H4 H5]. assert (calls (tr ++ [Eout Stdout t]) = calls tr) as Hc by apply calls_snoc_out.
  split; unfold closes, watched, reads in *; rewrite ?Hc; try done. by apply echoed_app.
Qed.
Lemma work_out tr t : work (tr ++ [Eout Stdout t]) = work tr.
Proof using. unfold work, left_of, watched, reads. by rewrite calls_snoc_out. Qed.

(** Calls that touch no file. *)
Definition neutral (c : call) : Prop := match c with Cread _ _ | Cclose _ | Cextern "epoll_ctl" _ _ => False | _ => True end.
Lemma neutral_same c r tr : neutral c → watched (tr ++ [Esys c r]) = watched tr ∧ closes (tr ++ [Esys c r]) = closes tr ∧ ∀ fd, reads fd (tr ++ [Esys c r]) = reads fd tr.
Proof using.
  intros Hc. rewrite watched_sys, closes_sys. split; [|split; [|intros fd; rewrite reads_sys]].
  - destruct c; try done. cbn. repeat case_match; simplify_eq; done.
  - destruct c; try done; by rewrite app_nil_r.
  - destruct c; try done; by rewrite app_nil_r.
Qed.
Lemma kept_neutral fds tr c r : neutral c → kept fds tr → kept fds (tr ++ [Esys c r]).
Proof using.
  intros Hc [H1 H2 H3 H4 H5]. destruct (neutral_same c r tr Hc) as (E1 & E2 & E3). split; rewrite ?E1, ?E2; try done.
  - intros fd. rewrite E3. apply H3.
  - intros fd. rewrite E3. apply H4.
  - apply echoed_app; [done|]. by destruct c.
Qed.

Lemma take_out (l : list Z) fd : NoDup l → fd ∈ l → l ≡ₚ fd :: filter (λ d, d ≠ fd) l.
Proof using.
  intros Hl Hin. apply NoDup_Permutation; [done| |].
  - apply NoDup_cons. split; [|by apply NoDup_filter]. rewrite list_elem_of_filter. tauto.
  - intros x. rewrite elem_of_cons, list_elem_of_filter. destruct (decide (x = fd)) as [->|]; tauto.
Qed.
Lemma kept_watched fds tr : kept fds tr → NoDup (watched tr).
Proof using. intros [H1 H2 _ _ _]. rewrite <-H2 in H1. by apply NoDup_app in H1 as (_ & _ & ?). Qed.
Lemma work_split tr fd : NoDup (watched tr) → fd ∈ watched tr → work tr = (left_of tr fd + sum_list_with (left_of tr) (filter (λ d, d ≠ fd) (watched tr)))%nat.
Proof using. intros Hn Hin. unfold work. by rewrite (take_out _ _ Hn Hin) at 1. Qed.
Lemma work_others tr tr' fd : (∀ d, d ≠ fd → reads d tr' = reads d tr) → sum_list_with (left_of tr') (filter (λ d, d ≠ fd) (watched tr)) = sum_list_with (left_of tr) (filter (λ d, d ≠ fd) (watched tr)).
Proof using.
  intros Hr. assert (∀ l, (∀ d, d ∈ l → d ≠ fd) → sum_list_with (left_of tr') l = sum_list_with (left_of tr) l) as Hsum; [|apply Hsum; intros d [Hd _]%list_elem_of_filter; done].
  intros l. induction l as [|d l IH]; intros Hl; [done|]. cbn. rewrite IH by (intros x Hx; apply Hl; by right). f_equal. unfold left_of. rewrite Hr; [done|]. apply Hl. by left.
Qed.

Lemma kept_read fds tr fd c r : kept fds tr → fd ∈ watched tr → content fd !! length (reads fd tr) = Some c → rdata r = c →
  let tr' := tr ++ [Esys (Cread fd MAX_BUF) r; Eout Stdout (read_text (rv r) (rdata r))] in
  kept fds tr' ∧ (work tr' + 1 = work tr)%nat ∧ watched tr' = watched tr ∧ ∀ d, d ≠ fd → reads d tr' = reads d tr.
Proof using.
  intros Hk Hin Hc Hr tr'. pose proof (kept_watched _ _ Hk) as Hnd.
  assert (tr' = (tr ++ [Esys (Cread fd MAX_BUF) r]) ++ [Eout Stdout (read_text (rv r) (rdata r))]) as Htr by (unfold tr'; by rewrite <-app_assoc).
  assert (∀ d, reads d tr' = reads d (tr ++ [Esys (Cread fd MAX_BUF) r])) as Hreads by (intros d; rewrite Htr; unfold reads; by rewrite calls_snoc_out).
  assert (watched tr' = watched tr) as Hw by (rewrite Htr; unfold watched at 1; rewrite calls_snoc_out; fold (watched (tr ++ [Esys (Cread fd MAX_BUF) r])); apply watched_sys).
  assert (closes tr' = closes tr) as Hcl by (rewrite Htr; unfold closes at 1; rewrite calls_snoc_out; fold (closes (tr ++ [Esys (Cread fd MAX_BUF) r])); rewrite closes_sys; apply app_nil_r).
  assert (reads fd tr' = reads fd tr ++ [c]) as Hfd by (rewrite Hreads, reads_sys, Z.eqb_refl; by rewrite Hr).
  assert (∀ d, d ≠ fd → reads d tr' = reads d tr) as Hothers by (intros d Hd; rewrite Hreads, reads_sys, (proj2 (Z.eqb_neq fd d)) by done; apply app_nil_r).
  assert (fd ∉ closes tr) as Hnc by (destruct Hk as [H1 H2 _ _ _]; rewrite <-H2 in H1; apply NoDup_app in H1 as (_ & Hd & _); intros Hx; by apply (Hd fd)).
  split; [|split; [|done]].
  - destruct Hk as [H1 H2 H3 H4 H5]. split; rewrite ?Hcl, ?Hw; try done.
    + intros d Hd. rewrite Hothers by (intros ->; done). by apply H3.
    + intros d Hd. destruct (decide (d = fd)) as [->|Hne]; [|rewrite Hothers by done; by apply H4]. rewrite Hfd. destruct (H4 fd Hd) as [rest Hrest]. rewrite Hrest in Hc |- *. rewrite lookup_app_r, Nat.sub_diag in Hc by lia. destruct rest as [|x rest]; [done|]. injection Hc as ->. exists rest. by rewrite <-app_assoc.
    + unfold tr'. by apply echoed_app.
  - rewrite (work_split tr fd) by done. unfold work at 1. rewrite Hw, (take_out _ fd Hnd Hin) at 1. cbn [sum_list_with]. rewrite work_others by done.
    apply lookup_lt_Some in Hc. unfold left_of. rewrite Hfd, length_app. cbn. lia.
Qed.

Lemma kept_close fds tr fd r : kept fds tr → fd ∈ watched tr → (length (content fd) <= length (reads fd tr))%nat →
  let tr' := tr ++ [Esys (Cclose fd) r] in
  kept fds tr' ∧ (work tr' + 1 <= work tr)%nat ∧ watched tr' = filter (λ d, d ≠ fd) (watched tr) ∧ ∀ d, reads d tr' = reads d tr.
Proof using.
  intros Hk Hin Hend tr'. pose proof (kept_watched _ _ Hk) as Hnd.
  assert (watched tr' = filter (λ d, d ≠ fd) (watched tr)) as Hw by apply watched_sys.
  assert (∀ d, reads d tr' = reads d tr) as Hr by (intros d; unfold tr'; rewrite reads_sys; apply app_nil_r).
  assert (closes tr' = closes tr ++ [fd]) as Hcl by apply closes_sys.
  split; [|split; [|done]].
  - destruct Hk as [H1 H2 H3 H4 H5]. split; try done.
    + rewrite Hcl, Hw, <-app_assoc. cbn. by rewrite <-(take_out _ _ Hnd Hin).
    + intros d. rewrite Hcl, Hr, elem_of_app, list_elem_of_singleton. intros [Hd| ->]; [by apply H3|]. destruct (H4 fd Hin) as [rest Hrest]. rewrite Hrest in Hend |- *. rewrite length_app in Hend. destruct rest; [by rewrite app_nil_r|cbn in Hend; lia].
    + intros d. rewrite Hw, Hr. intros [_ Hd]%list_elem_of_filter. by apply H4.
    + by apply echoed_app.
  - rewrite (work_split tr fd) by done. unfold work. rewrite Hw, work_others by done. unfold left_of at 2. lia.
Qed.

(** Interruptions that may still come. *)
Definition patience (tr : list event) : nat := k - interruptions (wait_call epfd) tr.
Lemma patience_other tr c r : c ≠ wait_call epfd → patience (tr ++ [Esys c r]) = patience tr.
Proof using. intros Hc. unfold patience, interruptions. rewrite calls_snoc_sys, filter_app, length_app, filter_cons_False by (intros [E _]; done). cbn. by rewrite Nat.add_0_r. Qed.
Lemma patience_out tr f x : patience (tr ++ [Eout f x]) = patience tr.
Proof using. unfold patience, interruptions. by rewrite calls_snoc_out. Qed.
Lemma opens_out tr f x : opens (tr ++ [Eout f x]) = opens tr.
Proof using. unfold opens. by rewrite calls_snoc_out. Qed.
Lemma watched_out tr f x : watched (tr ++ [Eout f x]) = watched tr.
Proof using. unfold watched. by rewrite calls_snoc_out. Qed.
Lemma reads_out fd tr f x : reads fd (tr ++ [Eout f x]) = reads fd tr.
Proof using. unfold reads. by rewrite calls_snoc_out. Qed.

Lemma wp_fail {A} text (Q : A → st S → Prop) s : wp (errExit text) Q (λ t _, t ≠ Exit 0) s.
Proof using. apply wp_errExit. intros. apply end_of_not_success. Qed.

Lemma wp_handle_event fds n e s : kept fds (trace s) → event_ok content (trace s) e → n = Z.of_nat (length (watched (trace s))) →
  wp (handle_event n e)
    (λ n' s', kept fds (trace s') ∧ n' = Z.of_nat (length (watched (trace s'))) ∧ (work (trace s') + 1 <= work (trace s))%nat ∧ patience (trace s') = patience (trace s) ∧ opens (trace s') = opens (trace s) ∧
       ∀ d, d ≠ e.1 → reads d (trace s') = reads d (trace s) ∧ (d ∈ watched (trace s) → d ∈ watched (trace s')))
    (λ t _, t ≠ Exit 0) s.
Proof using All.
  intros Hk (Hin & Hev & Hend) Hn. destruct e as [fd events]. cbn [fst snd] in *. unfold handle_event. apply wp_bind, wp_emit. set (s1 := St _ _ _ : st S).
  assert (kept fds (trace s1)) as K1 by by apply kept_out. assert (watched (trace s1) = watched (trace s)) as W1 by apply watched_out. assert (∀ d, reads d (trace s1) = reads d (trace s)) as R1 by (intros d; apply reads_out).
  assert (work (trace s1) = work (trace s)) as X1 by apply work_out. assert (patience (trace s1) = patience (trace s)) as P1 by apply patience_out. assert (opens (trace s1) = opens (trace s)) as O1 by apply opens_out.
  rewrite <-W1 in Hin, Hn. destruct (has events EPOLLIN).
  - symmetry in Hev. apply bool_decide_eq_true_1 in Hev. apply lookup_lt_is_Some in Hev as [c Hc]. rewrite <-R1 in Hc.
    apply wp_bind, wp_call. intros r s2 Hr _ _ _ T2. destruct (Z.eqb_spec (rv r) (-1)) as [Er|Er]; [apply wp_fail|].
    destruct (read_reply (trace s1) fd c Hc) as [Hx|Hd]; [by rewrite <-Hr in Hx|]. rewrite <-Hr in Hd. destruct (kept_read fds (trace s1) fd c r K1 Hin Hc Hd) as (K3 & X3 & W3 & R3).
    apply wp_bind, wp_emit, wp_ret. cbn [trace]. rewrite T2, <-app_assoc. cbn [app]. split; [exact K3|]. rewrite W3. split; [done|]. split; [lia|].
    change [?a; ?b] with ([a] ++ [b]). rewrite app_assoc, patience_out, patience_other, opens_out, opens_sys, app_nil_r by done. split; [done|]. split; [done|].
    intros d Hd'. rewrite <-app_assoc. cbn [app]. rewrite R3, R1, W1 by done. done.
  - rewrite (Hend eq_refl). symmetry in Hev. apply bool_decide_eq_false_1 in Hev. apply wp_bind, wp_emit. set (s2 := St _ _ _ : st S).
    assert (kept fds (trace s2)) as K2 by by apply kept_out. assert (watched (trace s2) = watched (trace s)) as W2 by (rewrite <-W1; apply watched_out). assert (∀ d, reads d (trace s2) = reads d (trace s)) as R2 by (intros d; rewrite <-R1; apply reads_out).
    apply wp_bind, wp_call. intros r s3 _ _ _ _ T3. destruct (rv r =? -1); [apply wp_fail|]. apply wp_ret.
    rewrite W1, <-W2 in Hin. destruct (kept_close fds (trace s2) fd r K2 Hin) as (K4 & X4 & W4 & R4); [rewrite R2; lia|]. rewrite <-T3 in *. split; [done|].
    rewrite W4. split; [rewrite Hn, W1, <-W2, (take_out (watched (trace s2)) fd (kept_watched _ _ K2) Hin) at 1; cbn [length]; lia|].
    split; [rewrite <-X1, <-(work_out (trace s1) (str "    closing fd " ++ dec fd ++ [NL])); exact X4|].
    split; [rewrite T3, patience_other by done; unfold s2; cbn [trace]; by rewrite patience_out|]. split; [rewrite T3, opens_sys, app_nil_r; unfold s2; cbn [trace]; by rewrite opens_out|].
    intros d Hd. rewrite R4, R2, W2. split; [done|]. intros Hd'. by apply list_elem_of_filter.
Qed.

Lemma wp_handle_events fds es : ∀ n s, kept fds (trace s) → NoDup es.*1 → Forall (event_ok content (trace s)) es → n = Z.of_nat (length (watched (trace s))) →
  wp (handle_events n es)
    (λ n' s', kept fds (trace s') ∧ n' = Z.of_nat (length (watched (trace s'))) ∧ (work (trace s') + length es <= work (trace s))%nat ∧ patience (trace s') = patience (trace s) ∧ opens (trace s') = opens (trace s))
    (λ t _, t ≠ Exit 0) s.
Proof using All.
  induction es as [|e es IH]; intros n s Hk Hnd Hes Hn; cbn [handle_events].
  - apply wp_ret. cbn. split; [done|]. split; [done|]. split; [lia|done].
  - apply Forall_cons in Hes as [He Hes]. cbn in Hnd. apply NoDup_cons in Hnd as [Hne Hnd]. apply wp_bind. eapply wp_mono; [by apply (wp_handle_event fds)| |done].
    intros n1 s1 (K1 & N1 & X1 & P1 & O1 & Hothers). eapply wp_mono; [apply IH; [done|done| |done]| |done].
    + rewrite Forall_forall in *. intros e' He'. specialize (Hes e' He'). destruct Hes as (Hin & Hev & Hend). destruct (Hothers e'.1) as [Hr Hw]; [intros Ee; apply Hne; rewrite <-Ee; by apply list_elem_of_fmap_2|].
      split; [by apply Hw|]. by rewrite Hr.
    + intros n2 s2 (K2 & N2 & X2 & P2 & O2). split; [done|]. split; [done|]. cbn [length]. split; [lia|]. split; congruence.
Qed.

Lemma wp_epoll_loop fds : ∀ fuel n s, kept fds (trace s) → n = Z.of_nat (length (watched (trace s))) → (work (trace s) + patience (trace s) < fuel)%nat →
  wp (loop fuel (epoll_turn epfd) n) (λ _ s', kept fds (trace s') ∧ watched (trace s') = [] ∧ opens (trace s') = opens (trace s)) (λ t _, t ≠ Exit 0) s.
Proof using All.
  induction fuel as [|fuel IH]; intros n s Hk Hn Hf; [lia|]. rewrite loop_S. apply wp_bind. unfold epoll_turn at 1. destruct (Z.leb_spec n 0) as [Hz|Hz].
  { apply wp_ret, wp_ret. split; [done|]. split; [|done]. apply nil_length_inv. lia. }
  apply wp_bind, wp_emit, wp_bind, wp_call. cbn [trace glob]. intros r s1 Hr _ He C1 T1. change (Cextern "epoll_wait" [epfd; MAX_EVENTS; -1] []) with (wait_call epfd) in *.
  set (tr1 := trace s ++ [Eout Stdout (str "About to epoll_wait()" ++ [NL])]) in *.
  assert (kept fds (trace s1)) as K1 by (rewrite T1; apply kept_neutral; [done|by apply kept_out]).
  destruct (neutral_same (wait_call epfd) r tr1 I) as (W1 & _ & R1). rewrite <-T1 in W1, R1. unfold tr1 in W1. rewrite watched_out in W1.
  assert (work (trace s1) = work (trace s)) as X1.
  { unfold work. rewrite W1. rewrite <-(watched_out (trace s) Stdout (str "About to epoll_wait()" ++ [NL])). fold tr1. generalize (watched tr1). intros l. induction l as [|d l IHl]; [done|]. cbn. rewrite IHl. f_equal. unfold left_of. rewrite R1. unfold tr1. by rewrite reads_out. }
  assert (opens (trace s1) = opens (trace s)) as O1 by (rewrite T1, opens_sys, app_nil_r; apply opens_out).
  destruct (Z.eqb_spec (rv r) (-1)) as [Er|Er].
  - apply wp_bind, wp_get_errno. rewrite (He Er). destruct (Z.eqb_spec (rerr r) EINTR) as [Ee|Ee]; [|apply wp_fail].
    apply wp_ret. eapply wp_mono; [apply (IH n s1); [done|by rewrite W1|]| |done].
    + rewrite X1. destruct (decide (k <= interruptions (wait_call epfd) tr1)%nat) as [Hle|Hlt].
      { exfalso. pose proof (patient (c:=wait_call epfd) (n:=k) tr1 Hle) as Hp. rewrite <-Hr in Hp. by apply Hp. }
      assert (patience (trace s) = patience tr1) as Hpt by (unfold tr1; by rewrite patience_out). rewrite Hpt in Hf.
      assert (interruptions (wait_call epfd) (trace s1) = interruptions (wait_call epfd) tr1 + 1)%nat as Hi.
      { unfold interruptions. rewrite T1, calls_snoc_sys, filter_app, length_app. f_equal. by rewrite filter_cons_True. }
      unfold patience in *. rewrite Hi. lia.
    + intros [] s2 (K2 & W2 & O2). split; [done|]. split; [done|]. by rewrite O2.
  - apply wp_bind, wp_emit. set (s2 := St _ _ _ : st S). destruct (wait_reply tr1) as (Hlen & Hnd & Hes); [by rewrite <-Hr|]. rewrite <-Hr in Hlen, Hnd, Hes.
    assert (Forall (event_ok content (trace s2)) (events_of r)) as Hes2.
    { eapply Forall_impl; [exact Hes|]. intros e (Hin & Hev & Hend). unfold event_ok, s2. cbn [trace]. rewrite watched_out, reads_out, W1, R1. split; [|done]. unfold tr1 in Hin. by rewrite watched_out in Hin. }
    apply wp_bind. eapply wp_mono; [apply (wp_handle_events fds (events_of r) n s2)| |done].
    + by apply kept_out.
    + done.
    + done.
    + unfold s2. cbn [trace]. by rewrite watched_out, W1.
    + intros n3 s3 (K3 & N3 & X3 & P3 & O3). apply wp_ret. eapply wp_mono; [apply (IH n3 s3); [done|done|]| |done].
      * rewrite P3. unfold s2 in X3 |- *. cbn [trace] in *. rewrite work_out, X1 in X3. rewrite patience_out.
        assert (patience (trace s1) <= patience (trace s))%nat by (rewrite T1; unfold patience, interruptions, tr1; rewrite calls_snoc_sys, calls_snoc_out, filter_app, length_app; lia). lia.
      * intros [] s4 (K4 & W4 & O4). split; [done|]. split; [done|]. rewrite O4, O3. unfold s2. cbn [trace]. by rewrite opens_out, O1.
Qed.

Lemma wp_open_all files : ∀ fds s, kept fds (trace s) → watched (trace s) = fds → 
  wp (open_all epfd files)
    (λ _ s', ∃ new, kept (fds ++ new) (trace s') ∧ watched (trace s') = fds ++ new ∧ opens (trace s') = opens (trace s) ++ zip files new ∧ length new = length files ∧ (∀ fd, reads fd (trace s') = reads fd (trace s)) ∧
       patience (trace s') = patience (trace s))
    (λ t _, t ≠ Exit 0) s.
Proof using All.
  induction files as [|file files IH]; intros fds s Hk Hw; cbn [open_all].
  - apply wp_ret. exists []. rewrite !app_nil_r. split; [done|]. split; [done|]. split; [done|]. split; [done|]. split; done.
  - apply wp_bind, wp_call. intros r s1 Hr _ _ _ T1. destruct (Z.eqb_spec (rv r) (-1)) as [Er|Er]; [apply wp_fail|]. assert (closes (trace s) = []) as Hnc.
    { destruct Hk as [_ H2 _ _ _]. rewrite Hw in H2. apply Permutation_length in H2. rewrite length_app in H2. apply nil_length_inv. lia. }
    destruct (open_new (trace s) file Hnc) as [Hx|(Hnw & Hnr)]; [by rewrite <-Hr in Hx|]. rewrite <-Hr in Hnw, Hnr.
    apply wp_bind, wp_emit, wp_bind, wp_call. cbn [trace glob]. intros c s2 _ _ _ _ T2. destruct (Z.eqb_spec (rv c) (-1)) as [Ec|Ec]; [apply wp_fail|].
    set (tr1 := trace s1 ++ [Eout Stdout (opened_line file (rv r))]) in *. destruct (neutral_same (Copen file 0 0) r (trace s) I) as (W1 & C1 & R1). rewrite <-T1 in W1, C1, R1.
    assert (kept fds tr1) as K1 by (apply kept_out; rewrite T1; by apply kept_neutral). assert (watched tr1 = fds) as W1' by (unfold tr1; by rewrite watched_out, W1).
    assert (watched (trace s2) = fds ++ [rv r]) as W2 by (rewrite T2, watched_sys, W1'; cbn; by rewrite (proj2 (Z.eqb_neq _ _) Ec)).
    assert (∀ fd, reads fd (trace s2) = reads fd (trace s)) as R2 by (intros fd; rewrite T2, reads_sys, app_nil_r; unfold tr1; by rewrite reads_out, R1).
    assert (closes (trace s2) = closes (trace s)) as C2 by (rewrite T2, closes_sys, app_nil_r; unfold tr1, closes; rewrite calls_snoc_out; exact C1).
    assert (kept (fds ++ [rv r]) (trace s2)) as K2.
    { destruct K1 as [H1 H2 H3 H4 H5]. assert (closes tr1 = closes (trace s)) as C1' by (unfold tr1, closes; rewrite calls_snoc_out; exact C1). rewrite C1', W1' in H2. split.
      - apply NoDup_app. split; [done|]. split; [|apply NoDup_singleton]. intros x Hx ->%list_elem_of_singleton. rewrite <-H2 in Hx. rewrite Hnc in Hx. apply Hnw. by rewrite Hw.
      - rewrite C2, W2, app_assoc. by rewrite H2.
      - intros fd. rewrite C2, R2. intros Hfd. rewrite <-R1, <-(reads_out fd (trace s1) Stdout (opened_line file (rv r))). apply H3. by rewrite C1'.
      - intros fd. rewrite W2, R2. intros [Hfd| ->%list_elem_of_singleton]%elem_of_app; [|rewrite Hnr; apply prefix_nil]. rewrite <-R1, <-(reads_out fd (trace s1) Stdout (opened_line file (rv r))). apply H4. by rewrite W1'.
      - rewrite T2. by apply echoed_app. }
    eapply wp_mono; [by apply (IH (fds ++ [rv r]) s2)| |done]. intros [] s3 (new & K3 & W3 & O3 & L3 & R3 & P3). rewrite <-app_assoc in K3, W3. exists (rv r :: new). split; [done|]. split; [done|].
    split; [rewrite O3, T2, opens_sys, app_nil_r; unfold tr1; rewrite opens_out, T1, opens_sys; cbn; by rewrite <-app_assoc|]. split; [cbn; by rewrite L3|].
    split; [intros fd; by rewrite R3|]. rewrite P3, T2, patience_other by done. unfold tr1. by rewrite patience_out, T1, patience_other.
Qed.
End Specs.


(** ** A run *)

(** Two pipes: one gives two pieces and ends, the other one piece; the first wait
    is interrupted. *)
Definition two_pipes (fd : Z) : list cstr := if fd =? 4 then [str "one "; str "two"] else if fd =? 5 then [str "three"] else [].
Definition new_fd (tr : list event) : Z :=
  1 + foldr Z.max 3 (watched tr ++ omap (λ x, match x with (Cread d _, _) => Some d | _ => None end) (calls tr)).
Definition ready_events (tr : list event) : list (Z * Z) :=
  (λ fd, (fd, if bool_decide (length (reads fd tr) < length (two_pipes fd))%nat then EPOLLIN else EPOLLHUP)) <$> take 5 (remove_dups (watched tr)).
Definition events_reply (es : list (Z * Z)) : reply := Reply (Z.of_nat (length es)) 0 [] ((λ z, ([], z)) <$> concat ((λ '(a, b), [a; b]) <$> es)).
Definition pipes_os : os := test_os (λ tr c,
  match c with
  | Copen _ _ _ => ok (new_fd tr)
  | Cextern "epoll_create" _ _ => ok 3
  | Cextern "epoll_wait" _ _ =>
      if bool_decide (interruptions (wait_call 3) tr < 1)%nat then Reply (-1) EINTR [] []
      else match ready_events tr with [] => fail EINVAL | es => events_reply es end
  | Cread fd _ => match two_pipes fd !! length (reads fd tr) with Some d => Reply (strlen d) 0 d [] | None => ok 0 end
  | _ => ok 0
  end).

Lemma new_fd_new tr : (new_fd tr ∉ watched tr) ∧ reads (new_fd tr) tr = [].
Proof.
  unfold new_fd. set (l := omap _ _). assert (∀ d, d ∈ watched tr ++ l → d < 1 + foldr Z.max 3 (watched tr ++ l)) as Hmax.
  { generalize (watched tr ++ l). intros ds d. induction ds as [|x ds IH]; [by intros ?%elem_of_nil|]. intros [->|Hd]%elem_of_cons; cbn; [lia|]. specialize (IH Hd). lia. }
  set (n := 1 + _) in *. split; [intros Hn; specialize (Hmax n ltac:(apply elem_of_app; by left)); lia|].
  unfold reads. assert (∀ x d, x ∈ calls tr → match x with (Cread d' _, _) => d' = d | _ => False end → d < n) as Hreads.
  { intros [c r] d Hx Hd. apply Hmax, elem_of_app. right. apply list_elem_of_omap. exists (c, r). split; [done|]. destruct c; try done. by subst. }
  revert Hreads. generalize (calls tr). intros cs. induction cs as [|[c r] cs IH]; intros Hreads; [done|]. cbn. destruct c; try (apply IH; intros x d Hx; apply Hreads; by right).
  destruct (Z.eqb_spec fd n) as [->|]; [|apply IH; intros x d Hx; apply Hreads; by right]. specialize (Hreads (Cread n count, r) n ltac:(by left) eq_refl). lia.
Qed.

Lemma snd_pairs (l : list Z) : snd <$> ((λ z, ([] : cstr, z)) <$> l) = l.
Proof. induction l as [|z l IH]; [done|]. cbn. by rewrite IH. Qed.
Lemma fst_pairs {A B} (f : A → B) (l : list A) : fst <$> ((λ a, (a, f a)) <$> l) = l.
Proof. induction l as [|a l IH]; [done|]. cbn. by rewrite IH. Qed.
Lemma events_reply_events es : events_of (events_reply es) = es.
Proof.
  unfold events_of, events_reply. cbn [rv rents]. rewrite Nat2Z.id, snd_pairs.
  assert (pair_up (concat ((λ '(a, b), [a; b]) <$> es)) = es) as ->; [|by rewrite take_ge].
  induction es as [|[a b] es IH]; [done|]. cbn. by rewrite IH.
Qed.

#[export] Instance pipes_os_Epoll : @Epoll pipes_os two_pipes 3 1.
Proof.
  split.
  - intros tr Hi. cbn -[ready_events events_reply]. rewrite bool_decide_eq_false_2 by lia. by destruct (ready_events tr).
  - intros tr p _. right. apply new_fd_new.
  - intros tr. cbn -[ready_events events_reply events_of]. destruct (bool_decide _); [done|]. destruct (ready_events tr) as [|e es] eqn:Ee; [done|]. intros _. rewrite events_reply_events, <-Ee.
    split; [rewrite Ee; cbn; lia|]. unfold ready_events. set (l := take 5 _). assert (NoDup l) as Hl by (unfold l; eapply sublist_NoDup; [apply NoDup_remove_dups|apply sublist_take]).
    split; [by rewrite fst_pairs|]. apply Forall_fmap, Forall_forall. intros fd Hfd. unfold event_ok. cbn [fst snd compose]. split.
    + apply (elem_of_remove_dups (watched tr)). rewrite <-(take_drop 5 (remove_dups (watched tr))). apply elem_of_app. by left.
    + destruct (bool_decide _); split; done.
  - intros tr fd c Hc. right. cbn. by rewrite Hc.
Qed.


Example two_pipes_run :
  let '(r, s') := @epoll_input_main unit pipes_os 12 [str "epoll_input"; str "x"; str "y"] (init tt) in
  r = Stop (Exit 0) ∧ closes (trace s') = [5; 4] ∧ reads 4 (trace s') = [str "one "; str "two"].
Proof. vm_compute. done. Qed.
