(* ===== verification/SelectMq.v ===== *)
(** tlpi-book/altio/select_mq.c: watching message queues and the terminal at
    once; a child for each queue copies its messages to a pipe. *)
From S2P Require Import Prelude Sys Rdwrn ErrorFns GetNum Shell ShellRun SvmsgFile Printing Cmsg Dict Pty Attrs Procexec Scm.

Definition MQ_BUF_SIZE : Z := 200.
Definition MAX_MTEXT : Z := 400.
Definition HEADER : Z := 16.               (* offsetof (struct pbuf, mtext) *)

(** struct pbuf, as far as it is used: the origin, the length, the type and the
    text; [mtype] are the bytes of the long. *)
Definition pbuf_image (msqid : Z) (mtype text : cstr) : cstr := le32 msqid ++ le32 (strlen text) ++ mtype ++ text.
Definition pbuf_msqid (p : cstr) : Z := wrap_s 32 (le (take 4 p)).
Definition pbuf_len (p : cstr) : Z := wrap_s 32 (le (take 4 (drop 4 p))).
Definition pbuf_mtype (p : cstr) : Z := wrap_s 64 (le (take 8 (drop 8 p))).
Definition pbuf_mtext (p : cstr) : cstr := drop 16 p.

Definition mq_line (msqid mtype len : Z) (mtext : cstr) : cstr :=
  str "MQ " ++ dec msqid ++ str ": type=" ++ dec mtype ++ str " length=" ++ dec len ++ str " <" ++
  c_str (if len <? 0 then mtext else take (Z.to_nat len) mtext) ++ str ">" ++ [NL].

(** What was typed, with a newline after it if it has none. *)
Definition terminal_text (d : cstr) : cstr :=
  str "Read from terminal: " ++ c_str d ++ (if negb (bool_decide (d = [])) && negb (bool_decide (last d = Some NL)) then [NL] else []).

Section Program.
Context {S : Type} `{os}.

Definition child_turn (msqid fd : Z) : M S (unit + unit) :=
  m ← sys (Cmsgrcv msqid MAX_MTEXT);
  if rv m =? -1 then errExit (str "msgrcv") else
  let pmsg := pbuf_image msqid (take 8 (rdata m)) (take (Z.to_nat (rv m)) (drop 8 (rdata m))) in
  w ← sys (Cwrite fd pmsg);
  if negb (rv w =? HEADER + rv m) then fatal (str "partial/failed write to pipe") else mret (inl tt).
Definition childMon (fuel : nat) (msqid fd : Z) : M S unit := loop fuel (λ _, child_turn msqid fd) tt.

(** The terminal is ready. *)
Definition read_terminal : M S unit :=
  n ← sys (Cread 0 (MQ_BUF_SIZE - 1));
  if rv n =? -1 then errExit (str "read stdin") else
  out Stdout (terminal_text (data_of n)).

(** The pipe is ready: a header, then as many bytes as it says. *)
Definition read_message (pfd : Z) (pmsg : cstr) : M S cstr :=
  n ← sys (Cread pfd HEADER);
  if rv n =? -1 then errExit (str "read pipe") else
  if rv n =? 0 then fatal (str "EOF on pipe") else
  let pmsg := overlay (data_of n) pmsg in
  let len := pbuf_len pmsg in
  n ← sys (Cread pfd (wrap_u 64 len));
  if rv n =? -1 then errExit (str "read pipe") else
  if rv n =? 0 then fatal (str "EOF on pipe") else
  let pmsg := take 16 pmsg ++ overlay (data_of n) (drop 16 pmsg) in
  out Stdout (mq_line (pbuf_msqid pmsg) (pbuf_mtype pmsg) (pbuf_len pmsg) (pbuf_mtext pmsg));;
  mret pmsg.

Definition monitor_turn (pfd : Z) (pmsg : cstr) : M S (cstr + unit) :=
  r ← sys (Cselect [0; pfd]);
  if rv r =? -1 then errExit (str "select") else
  when (ready r 0) read_terminal;;
  pmsg ← (if ready r pfd then read_message pfd pmsg else mret pmsg);
  mret (inl pmsg).

Fixpoint monitor_children (fuel : nat) (queues : list cstr) (fd : Z) : M S unit :=
  match queues with
  | [] => mret tt
  | q :: queues =>
      pid ← sys Cfork;
      if rv pid =? -1 then
        errMsg (str "fork");;
        sys (Cextern "killpg" [0; 15] []);;
        stop_with (FastExit 1)
      else if rv pid =? 0 then
        id ← getInt (Some q) 0 (Some (str "msqid"));
        childMon fuel id fd;;
        stop_with (FastExit 1)
      else monitor_children fuel queues fd
  end.

(** [pmsg] is what the structure holds at the start. *)
Definition select_mq_main (fuel : nat) (pmsg : cstr) (argv : list cstr) : M S unit :=
  let usage := usageErr (default [] (argv !! 0%nat) ++ str " msqid..." ++ [NL]) in
  match argv with
  | _ :: q :: _ =>
      if streq q (str "--help") then usage else
      p ← sys Cpipe;
      if rv p =? -1 then errExit (str "pipe") else
      monitor_children fuel (tail argv) (pipe_write p);;
      loop fuel (monitor_turn (pipe_read p)) pmsg
  | _ => usage
  end.
End Program.

(** ** Messages *)

Record mq_message := MqMessage { origin : Z; mq_type : Z; body : cstr }.
Definition mq_ok (m : mq_message) : Prop := int (origin m) ∧ - 2 ^ 63 <= mq_type m < 2 ^ 63 ∧ 0 < strlen (body m) <= MAX_MTEXT.
Definition image_of (m : mq_message) : cstr := pbuf_image (origin m) (le64 (mq_type m)) (body m).
Definition message_line (m : mq_message) : cstr := mq_line (origin m) (mq_type m) (strlen (body m)) (body m).

(** What the header says. *)
Lemma header_fields m rest : mq_ok m →
  let p := take 16 (image_of m) ++ rest in pbuf_msqid p = origin m ∧ pbuf_len p = strlen (body m) ∧ pbuf_mtype p = mq_type m.
Proof.
  intros (Ho & Ht & Hb) p. assert (p = le32 (origin m) ++ le32 (strlen (body m)) ++ le64 (mq_type m) ++ rest) as -> by done.
  unfold pbuf_msqid, pbuf_len, pbuf_mtype. split; [|split].
  - change (take 4 (le32 (origin m) ++ ?r)) with (le32 (origin m)). by apply le_int.
  - change (take 4 (drop 4 (le32 (origin m) ++ le32 ?l ++ ?r))) with (le32 l). apply le_int. unfold MAX_MTEXT in Hb. split; lia.
  - change (take 8 (drop 8 (le32 (origin m) ++ le32 ?l ++ le64 ?t ++ ?r))) with (le64 t). rewrite le_le64, wrap_s_modulus by done. apply wrap_s_id; [done|]. cbn in *. lia.
Qed.

(** ** The parent *)

Section Parent.
Context (msgs : list mq_message) (input : list cstr) (pfd : Z).
Definition mq_stream : cstr := concat (image_of <$> msgs).
Definition start (i : nat) : nat := length (concat (image_of <$> take i msgs)).

(** Bytes taken from the pipe, reads of the terminal. *)
Definition pipe_pos (tr : list event) : nat := sum_list_with (λ x, match x with (Cread d _, r) => if d =? pfd then Z.to_nat (rv r) else 0%nat | _ => 0%nat end) (calls tr).
Definition typed_reads (tr : list event) : nat := length (filter (λ x, match x.1 with Cread d _ => d =? 0 | _ => false end = true) (calls tr)).

(** The system: no call fails.  The pipe is ready only if there is something in it;
    each message was written to it at once, so that a part of one message can be read
    at once.  A read of the terminal gives the next line, and nothing after the last. *)
Definition within (pos n : nat) : Prop := ∃ i m, msgs !! i = Some m ∧ (start i <= pos)%nat ∧ (pos + n <= start i + length (image_of m))%nat.
Class Arrivals `{os} := {
  arrival_select tr : let r := kern tr (Cselect [0; pfd]) in rv r ≠ -1 ∧ (ready r pfd = true → (pipe_pos tr < length mq_stream)%nat);
  arrival_pipe tr n : 0 < n → within (pipe_pos tr) (Z.to_nat n) → let r := kern tr (Cread pfd n) in rv r = n ∧ rdata r = take (Z.to_nat n) (drop (pipe_pos tr) mq_stream);
  arrival_terminal tr : let r := kern tr (Cread 0 (MQ_BUF_SIZE - 1)) in let d := default [] (input !! typed_reads tr) in rv r = strlen d ∧ rdata r = d }.

(** What is printed: lines of the terminal and messages, in some order. *)
Inductive item := Typed (d : cstr) | Message (m : mq_message).
Definition item_text (x : item) : cstr := match x with Typed d => terminal_text d | Message m => message_line m end.
Definition typed_of (l : list item) : list cstr := omap (λ x, match x with Typed d => Some d | _ => None end) l.
Definition messages_of (l : list item) : list mq_message := omap (λ x, match x with Message m => Some m | _ => None end) l.
Lemma typed_app a b : typed_of (a ++ b) = typed_of a ++ typed_of b.
Proof using. apply omap_app. Qed.
Lemma messages_app a b : messages_of (a ++ b) = messages_of a ++ messages_of b.
Proof using. apply omap_app. Qed.

Lemma start_S i m : msgs !! i = Some m → start (Datatypes.S i) = (start i + length (image_of m))%nat.
Proof using. intros Hm. unfold start. rewrite (take_S_r _ _ _ Hm), fmap_app, concat_app, length_app. cbn. by rewrite app_nil_r. Qed.
Lemma stream_at i m : msgs !! i = Some m → ∃ rest, drop (start i) mq_stream = image_of m ++ rest.
Proof using.
  intros Hm. exists (concat (image_of <$> drop (Datatypes.S i) msgs)). unfold mq_stream, start. rewrite <-(take_drop i msgs) at 2. rewrite (drop_S _ _ _ Hm), fmap_app, concat_app, drop_app_length. done.
Qed.

Context {S : Type} `{Arrivals}.
Implicit Types (s : st S).

Record parent_ok (s0 s : st S) (i : nat) (l : list item) : Prop := {
  po_pos : pipe_pos (trace s) = start i;
  po_messages : messages_of l = take i msgs;
  po_typed : typed_of l = (λ j, default [] (input !! j)) <$> seq (typed_reads (trace s0)) (length (typed_of l));
  po_reads : typed_reads (trace s) = (typed_reads (trace s0) + length (typed_of l))%nat;
  po_said : said Stdout (trace s) = said Stdout (trace s0) ++ concat (item_text <$> l) }.

Lemma pipe_pos_sys tr c r : pipe_pos (tr ++ [Esys c r]) = (pipe_pos tr + match c with Cread d _ => if (d =? pfd)%Z then Z.to_nat (rv r) else 0 | _ => 0 end)%nat.
Proof using. unfold pipe_pos. rewrite calls_snoc_sys, sum_list_with_app. cbn. by rewrite Nat.add_0_r. Qed.
Lemma typed_reads_sys tr c r : typed_reads (tr ++ [Esys c r]) = (typed_reads tr + match c with Cread d _ => if (d =? 0)%Z then 1 else 0 | _ => 0 end)%nat.
Proof using. unfold typed_reads. rewrite calls_snoc_sys, filter_app, length_app, filter_cons. f_equal. cbn. destruct c; try done. cbn. by destruct (_ =? _). Qed.

Hypothesis Hpfd : pfd ≠ 0.
Hypothesis Hmsgs : Forall mq_ok msgs.

Lemma parent_silent s0 s s' i l c r : parent_ok s0 s i l → trace s' = trace s ++ [Esys c r] → match c with Cread _ _ => False | _ => True end → parent_ok s0 s' i l.
Proof using.
  intros [H1 H2 H3 H4 H5] T Hc. split; rewrite ?T, ?pipe_pos_sys, ?typed_reads_sys, ?said_sys; try done.
  - rewrite H1. by destruct c; rewrite ?Nat.add_0_r.
  - rewrite H4. by destruct c; rewrite ?Nat.add_0_r.
Qed.

Lemma wp_read_terminal s0 s i l (Q : unit → st S → Prop) E : parent_ok s0 s i l → (∀ d s', parent_ok s0 s' i (l ++ [Typed d]) → Q tt s') → wp read_terminal Q E s.
Proof using All.
  intros [H1 H2 H3 H4 H5] HQ. unfold read_terminal. apply wp_bind, wp_call. intros r s1 Hr _ _ _ T1. destruct (arrival_terminal (trace s)) as [Hv Hd]. rewrite <-Hr in Hv, Hd. set (d := default [] (input !! typed_reads (trace s))) in *.
  rewrite (proj2 (Z.eqb_neq (rv r) (-1))) by (rewrite Hv; unfold strlen; lia). assert (data_of r = d) as -> by (unfold data_of; rewrite Hv, Hd; unfold strlen; rewrite Nat2Z.id; by apply take_ge).
  apply wp_emit, (HQ d). split; cbn [trace].
  - unfold pipe_pos. rewrite calls_snoc_out. fold (pipe_pos (trace s1)). rewrite T1, pipe_pos_sys, (proj2 (Z.eqb_neq 0 pfd)) by done. by rewrite Nat.add_0_r.
  - rewrite messages_app. by rewrite app_nil_r.
  - rewrite typed_app, length_app, seq_app, fmap_app, <-H3. cbn. by rewrite <-H4.
  - rewrite typed_app, length_app. unfold typed_reads at 1. rewrite calls_snoc_out. fold (typed_reads (trace s1)). rewrite T1, typed_reads_sys, H4. cbn. lia.
  - rewrite said_out, T1, said_sys, H5, fmap_app, concat_app. cbn. by rewrite app_nil_r, <-app_assoc.
Qed.

Lemma length_header m : length (take 16 (image_of m)) = 16%nat.
Proof using. done. Qed.

Lemma wp_read_message s0 s i l pmsg (Q : cstr → st S → Prop) E : parent_ok s0 s i l → (pipe_pos (trace s) < length mq_stream)%nat →
  (∀ m pmsg' s', msgs !! i = Some m → parent_ok s0 s' (Datatypes.S i) (l ++ [Message m]) → Q pmsg' s') → wp (read_message pfd pmsg) Q E s.
Proof using All.
  intros Hs Hlt HQ. assert (pipe_pos (trace s) = start i) as H1 by apply Hs. destruct (msgs !! i) as [m|] eqn:Em.
  2: { exfalso. apply lookup_ge_None in Em. rewrite H1 in Hlt. unfold start, mq_stream in Hlt. rewrite take_ge in Hlt by done. lia. }
  assert (mq_ok m) as Hm by (rewrite Forall_lookup in Hmsgs; by eapply Hmsgs). destruct (stream_at i m Em) as [rest Hrest]. destruct (Hm) as (_ & _ & Hb). unfold MAX_MTEXT, strlen in Hb.
  assert (length (image_of m) = 16 + length (body m))%nat as Hlen by done.
  unfold read_message. apply wp_bind, wp_call. intros r s1 Hr _ _ _ T1. destruct (arrival_pipe (trace s) HEADER) as [Hv Hd]; [done|exists i, m; rewrite H1; split; [done|]; split; [lia|]; rewrite Hlen; change (Z.to_nat HEADER) with 16%nat; lia|]. rewrite <-Hr in Hv, Hd.
  rewrite Hv. change (HEADER =? -1) with false. change (HEADER =? 0) with false. cbv iota zeta.
  assert (data_of r = take 16 (image_of m)) as Hdata by (unfold data_of; rewrite Hv, Hd, H1, Hrest; change (Z.to_nat HEADER) with 16%nat; rewrite take_take; done). rewrite Hdata.
  set (p1 := overlay _ pmsg). assert (p1 = take 16 (image_of m) ++ drop 16 pmsg) as Hp1 by done. destruct (header_fields m (drop 16 pmsg) Hm) as (F1 & F2 & F3). cbv zeta in F1, F2, F3. rewrite <-Hp1 in F1, F2, F3.
  rewrite F2. assert (wrap_u 64 (strlen (body m)) = strlen (body m)) as -> by (unfold wrap_u; apply Z.mod_small; unfold strlen; lia).
  assert (pipe_pos (trace s1) = (start i + 16)%nat) as P1 by (rewrite T1, pipe_pos_sys, Z.eqb_refl, Hv, H1; done).
  assert (typed_reads (trace s1) = typed_reads (trace s)) as R1 by (rewrite T1, typed_reads_sys, (proj2 (Z.eqb_neq pfd 0)) by done; apply Nat.add_0_r).
  apply wp_bind, wp_call. intros r2 s2 Hr2 _ _ _ T2. destruct (arrival_pipe (trace s1) (strlen (body m))) as [Hv2 Hd2]; [unfold strlen; lia|exists i, m; rewrite P1; split; [done|]; split; [lia|]; rewrite Hlen; unfold strlen; lia|]. rewrite <-Hr2 in Hv2, Hd2.
  rewrite Hv2, (proj2 (Z.eqb_neq (strlen (body m)) (-1))), (proj2 (Z.eqb_neq (strlen (body m)) 0)) by (unfold strlen; lia).
  assert (data_of r2 = body m) as Hdata2.
  { unfold data_of. rewrite Hv2, Hd2, P1, <-drop_drop, Hrest. unfold strlen. rewrite Nat2Z.id, take_take, Nat.min_id. change (drop 16 (image_of m ++ rest)) with (body m ++ rest). apply take_app_length. }
  rewrite Hdata2. set (p2 := take 16 p1 ++ _). assert (∃ rest2, p2 = take 16 (image_of m) ++ body m ++ rest2) as [rest2 Hp2] by (eexists; done).
  destruct (header_fields m (body m ++ rest2) Hm) as (G1 & G2 & G3). cbv zeta in G1, G2, G3. rewrite <-Hp2 in G1, G2, G3. rewrite G1, G2, G3.
  assert (mq_line (origin m) (mq_type m) (strlen (body m)) (pbuf_mtext p2) = message_line m) as ->.
  { unfold message_line, mq_line. rewrite Hp2. change (pbuf_mtext (take 16 (image_of m) ++ body m ++ rest2)) with (body m ++ rest2). rewrite (proj2 (Z.ltb_ge (strlen (body m)) 0)) by (unfold strlen; lia). unfold strlen. by rewrite Nat2Z.id, take_app_length, take_ge. }
  apply wp_bind, wp_emit, wp_ret, (HQ m); [done|]. destruct Hs as [_ H2 H3 H4 H5]. split; cbn [trace].
  - unfold pipe_pos. rewrite calls_snoc_out. fold (pipe_pos (trace s2)). rewrite T2, pipe_pos_sys, Z.eqb_refl, Hv2, P1, (start_S i m Em), Hlen. unfold strlen. lia.
  - rewrite messages_app, H2, (take_S_r _ _ _ Em). done.
  - rewrite typed_app, app_nil_r. done.
  - rewrite typed_app, app_nil_r. unfold typed_reads at 1. rewrite calls_snoc_out. fold (typed_reads (trace s2)). rewrite T2, typed_reads_sys, (proj2 (Z.eqb_neq pfd 0)) by done. rewrite Nat.add_0_r, R1. done.
  - rewrite said_out, T2, said_sys, T1, said_sys, H5, fmap_app, concat_app. cbn. by rewrite app_nil_r, <-app_assoc.
Qed.

Lemma parent_same s0 s s' i l : parent_ok s0 s i l → trace s' = trace s → parent_ok s0 s' i l.
Proof using. intros [H1 H2 H3 H4 H5] T. by split; rewrite ?T. Qed.

Lemma wp_monitor_turn s0 s i l pmsg : parent_ok s0 s i l →
  wp (monitor_turn pfd pmsg) (λ x s', match x with inl _ => ∃ i l, parent_ok s0 s' i l | inr _ => False end) (λ _ _, False) s.
Proof using All.
  intros Hs. unfold monitor_turn. apply wp_bind, wp_call. intros r s1 Hr _ _ _ T1. destruct (arrival_select (trace s)) as [Hv Hready]. rewrite <-Hr in Hv, Hready. rewrite (proj2 (Z.eqb_neq _ _) Hv).
  assert (parent_ok s0 s1 i l) as Hs1 by by eapply parent_silent. assert (pipe_pos (trace s1) = pipe_pos (trace s)) as P1 by (rewrite T1, pipe_pos_sys; apply Nat.add_0_r).
  assert (∀ l' s2, parent_ok s0 s2 i l' → wp (pmsg ← (if ready r pfd then read_message pfd pmsg else mret pmsg); mret (inl pmsg)) (λ (x : cstr + unit) s', match x with inl _ => ∃ i l, parent_ok s0 s' i l | inr _ => False end) (λ _ _, False) s2) as Hpipe.
  { intros l' s2 Hs2. apply wp_bind. destruct (ready r pfd).
    - eapply wp_read_message; [exact Hs2| |].
      + assert (pipe_pos (trace s2) = start i) as -> by apply Hs2. assert (pipe_pos (trace s) = start i) as <- by apply Hs. by apply Hready.
      + intros m p' s3 _ Hs3. apply wp_ret. by eexists _, _.
    - apply wp_ret, wp_ret. by exists i, l'. }
  apply wp_bind. destruct (ready r 0); cbn [when]; [|apply wp_ret; by eapply Hpipe]. eapply wp_read_terminal; [exact Hs1|]. intros d s2 Hs2. by eapply Hpipe.
Qed.
End Parent.

(** The parent never ends; at any time it has printed the first messages that
    came through the pipe, each whole and in order, and between them what the terminal gave. *)
Theorem select_mq_correct {S} msgs input pfd `{Arrivals msgs input pfd} pmsg fuel (s : st S) :
  pfd ≠ 0 → Forall mq_ok msgs → pipe_pos pfd (trace s) = 0%nat →
  wlp (loop fuel (monitor_turn pfd) pmsg) (λ _ _, False) (λ _ _, False)
    (λ s', ∃ items i, said Stdout (trace s') = said Stdout (trace s) ++ concat (item_text <$> items) ∧ messages_of items = take i msgs ∧
       typed_of items = (λ j, default [] (input !! j)) <$> seq (typed_reads (trace s)) (length (typed_of items)) ∧ pipe_pos pfd (trace s') = start msgs i) s.
Proof.
  intros Hpfd Hm Hpos. eapply wlp_mono; [apply (wlp_loop (λ (_ : cstr) s', ∃ i l, parent_ok msgs input pfd s s' i l) (monitor_turn pfd) (λ _ _, False) (λ _ _, False) (λ s', ∃ i l, parent_ok msgs input pfd s s' i l))| |done|].
  - exists 0%nat, []. split; [exact Hpos|done|done|apply plus_n_O|by rewrite app_nil_r].
  - done.
  - intros p s1 (i & l & Hs1). apply wp_wlp. eapply wp_mono; [by apply (wp_monitor_turn msgs input pfd Hpfd Hm s s1 i l)| |done]. intros [?|?] s2 H2; done.
  - done.
  - intros s' (i & l & [H1 H2 H3 H4 H5]). by exists l, i.
Qed.

(** ** The children *)

(** A message received and copied: what msgrcv and write replied. *)
Definition copied (msqid fd : Z) (x : mq_message * reply * reply) : list (call * reply) :=
  [(Cmsgrcv msqid MAX_MTEXT, x.1.2); (Cwrite fd (image_of x.1.1), x.2)].
Definition copy_ok (msqid : Z) (x : mq_message * reply * reply) : Prop :=
  origin x.1.1 = msqid ∧ rdata x.1.2 = le64 (mq_type x.1.1) ++ body x.1.1 ∧ rv x.2 = HEADER + strlen (body x.1.1).

(** A child writes each message that it receives, at once, as the parent reads it,
    and does nothing else until a call fails. *)
Theorem child_copies {S} `{os} msqid fd fuel (s : st S) :
  (∀ tr, let r := kern tr (Cmsgrcv msqid MAX_MTEXT) in rv r ≠ -1 → ∃ t b, rdata r = le64 t ++ b ∧ rv r = strlen b) →
  wlp (childMon fuel msqid fd) (λ _ _, False) (λ t _, t ≠ Exit 0)
    (λ s', ∃ xs, Forall (copy_ok msqid) xs ∧ acted s (concat (copied msqid fd <$> xs)) s') s.
Proof.
  intros Hq. apply (wlp_loop (λ _ s', ∃ xs, Forall (copy_ok msqid) xs ∧ acted s (concat (copied msqid fd <$> xs)) s')).
  - exists []. split; [done|]. apply acted_refl.
  - done.
  - intros _ s1 (xs & Hxs & H1). apply wp_wlp. unfold child_turn. apply wp_bind. eapply wp_act; [exact H1|done|]. intros r s2 Hr H2 _ _. destruct (Z.eqb_spec (rv r) (-1)) as [Er|Er].
    { eapply wp_act_errExit; [done|intros; apply end_of_not_success]. }
    specialize (Hq (trace s1)). cbv zeta in Hq. rewrite <-Hr in Hq. destruct (Hq Er) as (t & b & Hd & Hv). cbv zeta.
    assert (pbuf_image msqid (take 8 (rdata r)) (take (Z.to_nat (rv r)) (drop 8 (rdata r))) = image_of (MqMessage msqid t b)) as ->.
    { rewrite Hd, Hv. change (take 8 (le64 t ++ b)) with (le64 t). change (drop 8 (le64 t ++ b)) with b. unfold strlen. by rewrite Nat2Z.id, take_ge. }
    apply wp_bind. eapply wp_act; [exact H2|done|]. intros w s3 Hw H3 _ _. destruct (Z.eqb_spec (rv w) (HEADER + rv r)) as [Ew|Ew]; cbn [negb].
    + apply wp_ret. exists (xs ++ [(MqMessage msqid t b, r, w)]). split.
      * apply Forall_app. split; [done|]. apply Forall_singleton. split; [done|]. split; [done|]. cbn. by rewrite Ew, Hv.
      * rewrite fmap_app, concat_app. cbn. rewrite <-!app_assoc in H3. exact H3.
    + apply wp_fatal. intros. apply end_of_not_success.
Qed.

Lemma wlp_run_fuel {S A} (m : M S A) Q E F s : wlp m Q E F s → (m s).1 = NoFuel → ∃ s', m s = (NoFuel, s') ∧ F s'.
Proof. unfold wlp. destruct (m s) as [o s']. cbn. intros H ->. by exists s'. Qed.

(** ** A run *)

Definition two_messages : list mq_message := [MqMessage 32768 1 (str "hello"); MqMessage 65537 20 (str "bye")].
Definition mq_os (stream : cstr) (input : list cstr) (pfd : Z) : os := test_os (λ tr c,
  match c with
  | Cselect _ => Reply 1 0 [] (([], 0) :: if bool_decide (pipe_pos pfd tr < length stream)%nat then [([], pfd)] else [])
  | Cread fd n =>
      if fd =? pfd then Reply n 0 (take (Z.to_nat n) (drop (pipe_pos pfd tr) stream)) []
      else let d := default [] (input !! typed_reads tr) in Reply (strlen d) 0 d []
  | _ => ok 0
  end).

Lemma mq_os_Arrivals msgs input pfd : pfd ≠ 0 → @Arrivals msgs input pfd (mq_os (mq_stream msgs) input pfd).
Proof.
  intros Hp. split; intros tr.
  - cbn -[ready bool_decide]. split; [done|]. destruct (bool_decide_reflect (pipe_pos pfd tr < length (mq_stream msgs))%nat) as [Hlt|Hge]; [done|]. unfold ready. cbn [rents existsb snd]. by rewrite (proj2 (Z.eqb_neq 0 pfd)) by done.
  - intros n Hn _. cbn. by rewrite Z.eqb_refl.
  - cbn [kern mq_os test_os]. rewrite (proj2 (Z.eqb_neq 0 pfd)) by done. done.
Qed.

Lemma two_messages_ok : Forall mq_ok two_messages.
Proof. unfold two_messages. rewrite !list.Forall_cons, Forall_nil. vm_compute. repeat (split || discriminate). Qed.

Lemma select_mq_witness :
  ∃ s', @loop unit cstr unit 3 (@monitor_turn unit (mq_os (mq_stream two_messages) [str "ls" ++ [NL]] 3) 3) (replicate 416 NUL) (init tt) = (NoFuel, s') ∧
    ∃ items i, said Stdout (trace s') = concat (item_text <$> items) ∧ messages_of items = take i two_messages.
Proof.
  pose proof (@select_mq_correct unit two_messages [str "ls" ++ [NL]] 3 _ (mq_os_Arrivals _ _ 3 ltac:(done)) (replicate 416 NUL) 3 (init tt)) as H.
  lapply H; [clear H; intros H|done].
  lapply H; [clear H; intros H|exact two_messages_ok].
  lapply H; [clear H; intros H|reflexivity].
  destruct (wlp_run_fuel _ _ _ _ _ H) as (s' & Hrun & items & i & Hs & Hi & _); [vm_compute; reflexivity|].
  exists s'. split; [exact Hrun|]. exists items, i. split; [exact Hs|exact Hi].
Defined.

Example two_messages_shown :
  said Stdout (trace (@loop unit cstr unit 3 (@monitor_turn unit (mq_os (mq_stream two_messages) [str "ls" ++ [NL]] 3) 3) (replicate 416 NUL) (init tt)).2) =
  str "Read from terminal: ls" ++ [NL] ++ str "MQ 32768: type=1 length=5 <hello>" ++ [NL] ++
  str "Read from terminal: " ++ str "MQ 65537: type=20 length=3 <bye>" ++ [NL] ++ str "Read from terminal: ".
Proof. vm_compute. reflexivity. Qed.

(** A message without a text stops the program: the read of no bytes gives none. *)
Example empty_message_fatal :
  (@loop unit cstr unit 3 (@monitor_turn unit (mq_os (mq_stream [MqMessage 32768 1 []]) [] 3) 3) (replicate 416 NUL) (init tt)).1 = Stop (Exit 1).
Proof. vm_compute. reflexivity. Qed.
