(* ===== verification/Clone.v ===== *)
(** tlpi-book/procexec/demo_clone.c: what a process made by clone shares with its
    parent. *)
From S2P Require Import Prelude Sys ErrorFns SvmsgFile Printing Dict Seccomp Attrs Procexec.

Definition CLONE_VM : Z := 256.
Definition CLONE_FS : Z := 512.
Definition CLONE_FILES : Z := 1024.
Definition CLONE_SIGHAND : Z := 2048.
Definition CHILD_SIG : Z := 10.        (* SIGUSR1 *)
Definition PARAM_SIG : Z := 15.        (* SIGTERM *)
Definition S_IWGRP_mask : Z := 16.
Definition START_UMASK : Z := 2.       (* S_IWOTH *)
Definition STACK_SIZE : Z := 65536.
Definition WCLONE : Z := 2147483648.
Definition hello : cstr := str "Hello world" ++ [NL].

Record ChildParams := { cp_fd : Z; cp_umask : Z; cp_exitStatus : Z; cp_signal : Z }.

Definition clone_usage_text (progName : cstr) : cstr :=
  str "Usage: " ++ progName ++ str " [arg]" ++ [NL] ++
  concat ((λ t, str "        " ++ str t ++ [NL]) <$> [
    "'arg' can contain the following letters:"%string;
    "    d - share file descriptors (CLONE_FILES)"%string;
    "    f - share file-system information (CLONE_FS)"%string;
    "    s - share signal dispositions (CLONE_SIGHAND)"%string;
    "    v - share virtual memory (CLONE_VM)"%string]).

Definition clone_letter (c : ascii) : option Z :=
  match c with "d" => Some CLONE_FILES | "f" => Some CLONE_FS | "s" => Some CLONE_SIGHAND | "v" => Some CLONE_VM | _ => None end%char.
Fixpoint clone_flags (flags : Z) (p : cstr) : option Z :=
  match p with [] => Some flags | c :: p => f ← clone_letter c; clone_flags (Z.lor flags f) p end.

Section Program.
Context {S : Type} `{os}.

Definition childFunc (cp : ChildParams) : M S Z :=
  pid ← sys Cgetpid;
  ppid ← sys Cgetppid;
  out Stdout (str "Child:  PID=" ++ dec (rv pid) ++ str " PPID=" ++ dec (rv ppid) ++ [NL]);;
  sys (Cumask (cp_umask cp));;
  c ← sys (Cclose (cp_fd cp));
  if rv c =? -1 then errExit (str "child:close") else
  s ← sigaction (cp_signal cp) SIG_DFL;
  if rv s =? -1 then errExit (str "child:signal") else
  mret (cp_exitStatus cp).

(** The handler for the end of the child, which leaves errno as it was. *)
Definition grimReaper (sig : Z) : M S unit :=
  e ← get_errno;
  out Stdout (str "Caught signal " ++ dec sig ++ str " (" ++ strsignal sig ++ str ")" ++ [NL]);;
  set_errno e.

(** What the parent finds changed. *)
Definition check_attributes (cp : ChildParams) : M S unit :=
  out Stdout (str "Parent - checking process attributes:" ++ [NL]);;
  m ← sys (Cumask 0);
  out Stdout (if negb (rv m =? START_UMASK) then str "    umask has changed" ++ [NL] else str "    umask has not changed" ++ [NL]);;
  s ← sys (Cwrite (cp_fd cp) hello);
  e ← get_errno;
  out Stdout (if (rv s =? -1) && (e =? EBADF) then str "    file descriptor " ++ dec (cp_fd cp) ++ str " has been closed" ++ [NL]
    else if rv s =? -1 then str "    write() on file descriptor " ++ dec (cp_fd cp) ++ str " failed (" ++ strerror e ++ str ")" ++ [NL]
    else str "    write() on file descriptor " ++ dec (cp_fd cp) ++ str " succeeded" ++ [NL]);;
  a ← sys (Csigaction (cp_signal cp));
  if rv a =? -1 then errExit (str "sigaction") else
  out Stdout (if negb (old_handler a =? SIG_IGN) then str "    signal disposition has changed" ++ [NL] else str "    signal disposition has not changed" ++ [NL]).

Definition demo_clone_main (argv : list cstr) : M S unit :=
  pid ← sys Cgetpid;
  ppid ← sys Cgetppid;
  out Stdout (str "Parent: PID=" ++ dec (rv pid) ++ str " PPID=" ++ dec (rv ppid) ++ [NL]);;
  sys (Cumask START_UMASK);;
  fd ← sys (Copen (str "/dev/null") 2 0);
  if rv fd =? -1 then errExit (str "open") else
  let cp := {| cp_fd := rv fd; cp_umask := S_IWGRP_mask; cp_exitStatus := 22; cp_signal := PARAM_SIG |} in
  i ← sigaction PARAM_SIG SIG_IGN;
  if rv i =? -1 then errExit (str "signal") else
  match clone_flags 0 (default [] (argv !! 1%nat)) with
  | None => out Stderr (clone_usage_text (default [] (argv !! 0%nat)));; stop_with (Exit 1)
  | Some flags =>
      m ← sys (Cmmap (-1) STACK_SIZE);
      if rv m =? -1 then errExit (str "mmap") else
      h ← sys (Csigaction CHILD_SIG);
      if rv h =? -1 then errExit (str "sigaction") else
      child ← sys (Cclone (Z.lor flags CHILD_SIG));
      if rv child =? -1 then errExit (str "clone") else
      if rv child =? 0 then (status ← childFunc cp; stop_with (FastExit status)) else
      w ← sys (Cwaitpid (-1) WCLONE);
      grimReaper CHILD_SIG;;
      if rv w =? -1 then errExit (str "waitpid") else
      out Stdout (str "    Child PID=" ++ dec (rv w) ++ [NL]);;
      printWaitStatus (Some (str "    Status: ")) (nth 0 (snd <$> rents w) 0);;
      check_attributes cp;;
      stop_with (Exit 0)
  end.
End Program.

(** ** What is shared *)

(** The attributes that the program looks at: the mask, the descriptors that are
    closed, the dispositions; and the descriptor opened last. *)
Record attrs := Attributes { a_umask : Z; a_closed : list Z; a_disp : Z → Z; a_fd : Z }.

Definition own_step (a : attrs) (x : call * reply) : attrs :=
  match x with
  | (Cumask m, _) => Attributes m (a_closed a) (a_disp a) (a_fd a)
  | (Copen _ _ _, r) => Attributes (a_umask a) (filter (λ d, d ≠ rv r) (a_closed a)) (a_disp a) (rv r)
  | (Cclose fd, _) => Attributes (a_umask a) (fd :: a_closed a) (a_disp a) (a_fd a)
  | (Cextern "sigaction" [sig; h] _, _) => Attributes (a_umask a) (a_closed a) (λ s, if s =? sig then h else a_disp a s) (a_fd a)
  | _ => a
  end.

(** clone(2): what the flags say is one for both processes, of the rest the child
    has a copy.  [did] is what the child does with the descriptor it is given. *)
Definition shared_with (flags : Z) (child parent : attrs) : attrs :=
  Attributes (if tst flags CLONE_FS then a_umask child else a_umask parent) (if tst flags CLONE_FILES then a_closed child else a_closed parent)
    (if tst flags CLONE_SIGHAND then a_disp child else a_disp parent) (a_fd parent).
Definition attr_step (did : Z → list (call * reply)) (a : attrs) (x : call * reply) : attrs :=
  match x with
  | (Cclone flags, r) => if (rv r =? -1) || (rv r =? 0) then a else shared_with flags (foldl own_step a (did (a_fd a))) a
  | _ => own_step a x
  end.
Definition attrs_at (did : Z → list (call * reply)) (a0 : attrs) (tr : list event) : attrs := foldl (attr_step did) a0 (calls tr).

(** umask(2), write(2), sigaction(2), after the child has ended. *)
Class CloneSys `{os} (did : Z → list (call * reply)) (a0 : attrs) := {
  clone_umask tr m : rv (kern tr (Cumask m)) = a_umask (attrs_at did a0 tr);
  clone_write tr fd : let r := kern tr (Cwrite fd hello) in if bool_decide (fd ∈ a_closed (attrs_at did a0 tr)) then rv r = -1 ∧ rerr r = EBADF else rv r = strlen hello;
  clone_disp tr sig : let r := kern tr (Csigaction sig) in rv r = -1 ∨ old_handler r = a_disp (attrs_at did a0 tr) sig }.

Definition params (fd : Z) : ChildParams := {| cp_fd := fd; cp_umask := S_IWGRP_mask; cp_exitStatus := 22; cp_signal := PARAM_SIG |}.
Definition child_calls (cp : ChildParams) (p q m c i : reply) : list (call * reply) :=
  [(Cgetpid, p); (Cgetppid, q); (Cumask (cp_umask cp), m); (Cclose (cp_fd cp), c); (Cextern "sigaction" [cp_signal cp; SIG_DFL] [], i)].

(** The child does its three changes, and returns the status it was given. *)
Theorem childFunc_correct {S} `{os} cp (s : st S) :
  wp (childFunc cp) (λ z s', z = cp_exitStatus cp ∧ ∃ p q m c i, rv c ≠ -1 ∧ rv i ≠ -1 ∧ acted s (child_calls cp p q m c i) s') (λ t _, t ≠ Exit 0) s.
Proof.
  unfold childFunc. apply wp_bind. eapply wp_act; [apply acted_refl|done|]. intros p s1 _ H1 _ _. apply wp_bind. eapply wp_act; [exact H1|done|]. intros q s2 _ H2 _ _. apply wp_bind, wp_emit. set (s3 := St _ _ _ : st S).
  assert (acted s [(Cgetpid, p); (Cgetppid, q)] s3) as H3 by (eapply acted_same; [exact H2|unfold s3; cbn [trace]; apply acts_out|done]).
  apply wp_bind. eapply wp_act; [exact H3|done|]. intros m s4 _ H4 _ _. apply wp_bind. eapply wp_act; [exact H4|done|]. intros c s5 _ H5 _ _. destruct (Z.eqb_spec (rv c) (-1)) as [Ec|Ec]; [eapply wp_act_errExit; [done|intros; apply end_of_not_success]|].
  apply wp_bind. eapply wp_act; [exact H5|done|]. intros i s6 _ H6 _ _. destruct (Z.eqb_spec (rv i) (-1)) as [Ei|Ei]; [eapply wp_act_errExit; [done|intros; apply end_of_not_success]|].
  apply wp_ret. split; [done|]. by exists p, q, m, c, i.
Qed.

(** The report: each attribute has changed if and only if its letter is in the
    argument. *)
Definition attributes_text (arg : cstr) (fd : Z) : cstr :=
  str "Parent - checking process attributes:" ++ [NL] ++
  (if bool_decide ("f"%char ∈ arg) then str "    umask has changed" ++ [NL] else str "    umask has not changed" ++ [NL]) ++
  (if bool_decide ("d"%char ∈ arg) then str "    file descriptor " ++ dec fd ++ str " has been closed" ++ [NL] else str "    write() on file descriptor " ++ dec fd ++ str " succeeded" ++ [NL]) ++
  (if bool_decide ("s"%char ∈ arg) then str "    signal disposition has changed" ++ [NL] else str "    signal disposition has not changed" ++ [NL]).

Lemma tst_lor a b k : 0 <= k → tst (Z.lor a b) (2 ^ k) = tst a (2 ^ k) || tst b (2 ^ k).
Proof. intros Hk. by rewrite !tst_pow2, Z.lor_spec. Qed.

Lemma clone_flags_letters p : ∀ flags F, clone_flags flags p = Some F →
  tst F CLONE_FS = tst flags CLONE_FS || bool_decide ("f"%char ∈ p) ∧ tst F CLONE_FILES = tst flags CLONE_FILES || bool_decide ("d"%char ∈ p) ∧
  tst F CLONE_SIGHAND = tst flags CLONE_SIGHAND || bool_decide ("s"%char ∈ p).
Proof.
  induction p as [|c p IH]; intros flags F; cbn [clone_flags].
  - intros [= <-]. rewrite !bool_decide_eq_false_2 by (by intros ?%elem_of_nil). by rewrite !orb_false_r.
  - destruct (clone_letter c) as [f|] eqn:Ef; [|done]. intros HF. apply IH in HF as (H1 & H2 & H3). rewrite H1, H2, H3.
    change CLONE_FS with (2 ^ 9). change CLONE_FILES with (2 ^ 10). change CLONE_SIGHAND with (2 ^ 11). rewrite !tst_lor by lia.
    assert (∀ x, bool_decide (x ∈ c :: p) = bool_decide (x = c) || bool_decide (x ∈ p)) as Hin.
    { intros x. destruct (bool_decide_reflect (x = c)) as [->|Hne]; cbn [orb]; [apply bool_decide_eq_true_2; by left|]. apply bool_decide_ext. rewrite elem_of_cons. tauto. }
    rewrite !Hin, <-!orb_assoc. unfold clone_letter in Ef. repeat case_match; simplify_eq; done.
Qed.

Section Specs.
Context {S : Type} {did : Z → list (call * reply)} {a0 : attrs} `{CloneSys did a0}.
Implicit Types s : st S.
Abbreviation now s := (attrs_at did a0 (trace s)).

Lemma attrs_sys tr c r : attrs_at did a0 (tr ++ [Esys c r]) = attr_step did (attrs_at did a0 tr) (c, r).
Proof using. unfold attrs_at. by rewrite calls_snoc_sys, foldl_app. Qed.
Lemma attrs_out tr f t : attrs_at did a0 (tr ++ [Eout f t]) = attrs_at did a0 tr.
Proof using. unfold attrs_at. by rewrite calls_snoc_out. Qed.

Lemma wp_fails {A} text (Q : A → st S → Prop) (E : stop → st S → Prop) s : (∀ t s', t ≠ Exit 0 → E t s') → wp (errExit text) Q E s.
Proof using. intros HE. apply wp_errExit. intros. apply HE, end_of_not_success. Qed.

(** A call that is checked against -1. *)
Lemma wp_or_fail {A} c text (f : reply → M S A) (Q : A → st S → Prop) (E : stop → st S → Prop) s : (∀ t s', t ≠ Exit 0 → E t s') →
  (∀ r s', r = kern (trace s) c → rv r ≠ -1 → trace s' = trace s ++ [Esys c r] → wp (f r) Q E s') → wp (r ← sys c; if rv r =? -1 then errExit text else f r) Q E s.
Proof using.
  intros HE Hf. apply wp_bind, wp_call. intros r s1 Hr _ _ _ T1. destruct (Z.eqb_spec (rv r) (-1)); [by apply wp_fails|by apply Hf].
Qed.

Lemma wp_wait_text msg status (Q : unit → st S → Prop) E s : (∀ s', calls (trace s') = calls (trace s) → Q tt s') → wp (printWaitStatus (Some msg) status) Q E s.
Proof using.
  intros HQ. unfold printWaitStatus. apply wp_bind, wp_emit. repeat match goal with
    | |- wp (if ?b then _ else _) _ _ _ => destruct b
    | |- wp (when ?b _) _ _ _ => destruct b; unfold when
    | |- wp (_ ≫= _) _ _ _ => apply wp_bind
    | |- wp (out _ _) _ _ _ => apply wp_emit
    | |- wp (mret _) _ _ _ => apply wp_ret end; apply HQ; cbn [trace]; by rewrite ?calls_snoc_out.
Qed.

(** The report of a parent whose child has ended. *)
Lemma wp_report_attributes arg fd F s : clone_flags 0 arg = Some F →
  a_umask (now s) = (if tst F CLONE_FS then S_IWGRP_mask else START_UMASK) → (bool_decide (fd ∈ a_closed (now s)) = tst F CLONE_FILES) → a_disp (now s) PARAM_SIG = (if tst F CLONE_SIGHAND then SIG_DFL else SIG_IGN) →
  wp (check_attributes (params fd)) (λ _ s', said Stdout (trace s') = said Stdout (trace s) ++ attributes_text arg fd) (λ t _, t ≠ Exit 0) s.
Proof using All.
  intros HF Hm Hc Hd. destruct (clone_flags_letters arg 0 F HF) as (L1 & L2 & L3). rewrite !tst_0_r in L1, L2, L3. cbn [orb] in *.
  unfold check_attributes. apply wp_bind, wp_emit. apply wp_bind, wp_call. cbn [trace glob]. intros m s1 Em _ _ _ T1. pose proof (clone_umask (trace s ++ [Eout Stdout (str "Parent - checking process attributes:" ++ [NL])]) 0) as Rm. rewrite <-Em, attrs_out, Hm in Rm.
  apply wp_bind, wp_emit. apply wp_bind, wp_call. cbn [trace glob]. intros w s2 Ew _ Hew _ T2. set (x1 := if negb _ then _ else _) in *.
  assert (attrs_at did a0 (trace s1 ++ [Eout Stdout x1]) = Attributes 0 (a_closed (now s)) (a_disp (now s)) (a_fd (now s))) as A1 by by rewrite attrs_out, T1, attrs_sys, attrs_out.
  pose proof (clone_write (trace s1 ++ [Eout Stdout x1]) fd) as Rw. cbv zeta in Rw. cbn [cp_fd params] in *. rewrite <-Ew, A1 in Rw. cbn [a_closed] in Rw. rewrite Hc in Rw.
  apply wp_bind, wp_get_errno, wp_bind, wp_emit. cbn [trace]. set (x2 := if (rv w =? -1) && _ then _ else _).
  assert (x2 = if bool_decide ("d"%char ∈ arg) then str "    file descriptor " ++ dec fd ++ str " has been closed" ++ [NL] else str "    write() on file descriptor " ++ dec fd ++ str " succeeded" ++ [NL]) as X2.
  { rewrite <-L2. unfold x2. destruct (tst F CLONE_FILES); [destruct Rw as [Rw Re]; by rewrite (Hew Rw), Rw, Re|]. by rewrite Rw. }
  assert (x1 = if bool_decide ("f"%char ∈ arg) then str "    umask has changed" ++ [NL] else str "    umask has not changed" ++ [NL]) as X1 by (unfold x1; rewrite Rm, <-L1; by destruct (tst F CLONE_FS)).
  clearbody x1 x2. apply wp_or_fail; [done|]. cbn [trace]. intros d s3 Ed Nd T3. change (cp_signal (params fd)) with PARAM_SIG in Ed. destruct (clone_disp (trace s2 ++ [Eout Stdout x2]) PARAM_SIG) as [Rd|Rd]; [by rewrite <-Ed in Rd|].
  rewrite <-Ed, attrs_out, T2, attrs_sys, A1 in Rd. cbn [attr_step own_step a_disp] in Rd. rewrite Hd in Rd. apply wp_emit. cbn [trace].
  rewrite said_out, T3, said_sys, said_out, T2, said_sys, said_out, T1, said_sys, said_out, Rd, X1, X2. unfold attributes_text. rewrite <-L3. rewrite <-!app_assoc. repeat f_equal. by destruct (tst F CLONE_SIGHAND).
Qed.
End Specs.

(** If the program comes to its end, its report says for each attribute whether it
    is shared; the child is waited for. *)
Theorem demo_clone_correct {S} {did a0} `{CloneSys did a0} prog arg (s : st S) :
  (∀ fd, ∃ p q m c i, did fd = child_calls (params fd) p q m c i) →
  wp (demo_clone_main [prog; arg]) (λ _ _, False)
    (λ t s', t = Exit 0 → ∃ flags before fd, clone_flags 0 arg = Some flags ∧ said Stdout (trace s') = before ++ attributes_text arg fd) s.
Proof.
  intros Hdid. set (E := λ t s', t = Exit 0 → _). assert (∀ t s', t ≠ Exit 0 → E t s') as HE by (by intros t s' Ht Ht'). unfold demo_clone_main.
  apply wp_bind, wp_call. intros p s1 _ _ _ _ T1. apply wp_bind, wp_call. intros q s2 _ _ _ _ T2. apply wp_bind, wp_emit, wp_bind, wp_call. cbn [trace glob]. intros m s3 _ _ _ _ T3.
  assert (a_umask (attrs_at did a0 (trace s3)) = START_UMASK) as U3 by by rewrite T3, attrs_sys.
  apply wp_or_fail; [done|]. intros f s4 _ Nf T4. cbv zeta. fold (params (rv f)).
  assert (a_umask (attrs_at did a0 (trace s4)) = START_UMASK ∧ (rv f ∉ a_closed (attrs_at did a0 (trace s4))) ∧ a_fd (attrs_at did a0 (trace s4)) = rv f) as (U4 & C4 & F4).
  { rewrite T4, attrs_sys. cbn. split; [done|]. split; [|done]. by intros [? _]%list_elem_of_filter. }
  unfold sigaction. apply wp_or_fail; [done|]. intros i s5 _ _ T5. set (a5 := attrs_at did a0 (trace s5)).
  assert (a_umask a5 = START_UMASK ∧ (rv f ∉ a_closed a5) ∧ a_fd a5 = rv f ∧ a_disp a5 PARAM_SIG = SIG_IGN) as (U5 & C5 & F5 & D5) by (unfold a5; rewrite T5, attrs_sys; done).
  cbn [lookup list_lookup]. change (default [] (Some arg)) with arg. destruct (clone_flags 0 arg) as [F|] eqn:EF; [|by apply wp_bind, wp_emit, wp_stop, HE].
  apply wp_or_fail; [done|]. intros mm s6 _ _ T6. apply wp_or_fail; [done|]. intros h s7 _ _ T7. apply wp_or_fail; [done|]. intros c s8 _ Nc T8.
  assert (attrs_at did a0 (trace s7) = a5) as A7 by by rewrite T7, attrs_sys, T6, attrs_sys.
  destruct (Z.eqb_spec (rv c) 0) as [Ec|Ec].
  { apply wp_bind. eapply wp_mono; [apply childFunc_correct| |intros t s' Ht; by apply HE]. intros z s9 [-> _]. by apply wp_stop, HE. }
  assert (tst (Z.lor F CHILD_SIG) CLONE_FS = tst F CLONE_FS ∧ tst (Z.lor F CHILD_SIG) CLONE_FILES = tst F CLONE_FILES ∧ tst (Z.lor F CHILD_SIG) CLONE_SIGHAND = tst F CLONE_SIGHAND) as (L1 & L2 & L3).
  { change CLONE_FS with (2 ^ 9). change CLONE_FILES with (2 ^ 10). change CLONE_SIGHAND with (2 ^ 11). rewrite !tst_lor by lia. split; [|split]; apply orb_false_r. }
  assert (attrs_at did a0 (trace s8) = shared_with (Z.lor F CHILD_SIG) (foldl own_step a5 (did (rv f))) a5) as A8.
  { rewrite T8, attrs_sys, A7. cbn [attr_step]. by rewrite (proj2 (Z.eqb_neq _ _) Nc), (proj2 (Z.eqb_neq _ _) Ec), F5. }
  apply wp_bind, wp_call. intros w s9 _ _ _ _ T9. apply wp_bind. unfold grimReaper. apply wp_bind, wp_get_errno, wp_bind, wp_emit, wp_set_errno. cbn [trace glob].
  destruct (Z.eqb_spec (rv w) (-1)); [by apply wp_fails|]. apply wp_bind, wp_emit, wp_bind, wp_wait_text. cbn [trace]. intros s10 T10. rewrite !calls_snoc_out in T10.
  assert (attrs_at did a0 (trace s10) = shared_with (Z.lor F CHILD_SIG) (foldl own_step a5 (did (rv f))) a5) as A10 by (unfold attrs_at at 1; rewrite T10; fold (attrs_at did a0 (trace s9)); by rewrite T9, attrs_sys).
  destruct (Hdid (rv f)) as (p' & q' & m' & c' & i' & Ed). rewrite Ed in A10. unfold shared_with in A10. rewrite L1, L2, L3 in A10. cbn [foldl child_calls own_step params cp_umask cp_fd cp_signal a_umask a_closed a_disp a_fd] in A10.
  apply wp_bind. eapply wp_mono; [apply (wp_report_attributes arg (rv f) F s10 EF)| |intros t s' Ht; by apply HE].
  - rewrite A10. cbn [a_umask]. by rewrite U5.
  - rewrite A10. cbn [a_closed]. destruct (tst F CLONE_FILES); [apply bool_decide_eq_true_2; by left|by apply bool_decide_eq_false_2].
  - rewrite A10. cbn [a_disp]. destruct (tst F CLONE_SIGHAND); [by rewrite Z.eqb_refl|done].
  - intros [] s11 S11. apply wp_stop. intros _. by exists F, (said Stdout (trace s10)), (rv f).
Qed.

(** ** A run *)

(** A system in which processes share what the flags of clone say. *)
Definition did_5 (fd : Z) : list (call * reply) := child_calls (params fd) (ok 5) (ok 1) (ok 18) (ok 0) (ok 0).
Definition attrs_0 : attrs := Attributes 18 [] (λ _, 0) (-1).
Definition clone_os : os := test_os (λ tr c,
  let a := attrs_at did_5 attrs_0 tr in
  match c with
  | Cumask _ => ok (a_umask a)
  | Copen _ _ _ => ok 3
  | Cwrite fd b => if bool_decide (fd ∈ a_closed a) then fail EBADF else ok (strlen b)
  | Csigaction sig => Reply 0 0 [] [([], a_disp a sig)]
  | Cclone _ => ok 5
  | _ => ok 0
  end).
#[export] Instance clone_os_sys : @CloneSys clone_os did_5 attrs_0.
Proof. split; [done| |by right]. intros tr fd. cbn [kern clone_os test_os]. by destruct (bool_decide _). Qed.

Lemma demo_clone_witness :
  ∃ s', @demo_clone_main unit clone_os [str "demo_clone"; str "df"] (init tt) = (Stop (Exit 0), s') ∧
    ∃ before fd, said Stdout (trace s') = before ++ attributes_text (str "df") fd.
Proof.
  pose proof (@demo_clone_correct unit did_5 attrs_0 clone_os clone_os_sys (str "demo_clone") (str "df") (init tt)) as H.
  lapply H; [clear H; intros H|intros fd; exists (ok 5), (ok 1), (ok 18), (ok 0), (ok 0); reflexivity].
  apply (wp_wlp _ _ _ (λ _, True)) in H. destruct (wlp_run_stop _ _ _ _ _ (Exit 0) H) as (s' & Hrun & Hex); [vm_compute; reflexivity|].
  exists s'. split; [exact Hrun|]. destruct (Hex eq_refl) as (F & before & fd & _ & Hs). exists before, fd. exact Hs.
Defined.
