(* ===== verification/EpollFork.v ===== *)
(** tlpi-book/altio/epoll_flags_fork.c: several processes that wait for one FIFO. *)
From S2P Require Import Prelude Sys ErrorFns GetNum SvmsgFile Printing Dict Shell ShellRun Getopt Attrs Scm Procexec Epoll.

Definition EPOLLEXCLUSIVE : Z := 2 ^ 28.
Definition EPOLLONESHOT : Z := 2 ^ 30.
Definition EPOLLET : Z := 2 ^ 31.
Definition O_RDONLY_NONBLOCK : Z := 2048.

Definition flags_usage_text (pname : cstr) : cstr :=
  str "Usage: " ++ pname ++ str " [-1eoprx] <FIFO> <num-children>" ++ [NL] ++
  concat ((λ t, TAB :: t ++ [NL]) <$> [
    str "-s       Create one epoll FD before creating child processes";
    TAB :: str "(By default, each child creates its own epoll FD after fork())";
    str "-e       Include EPOLLET flag";
    str "-x       Include EPOLLEXCLUSIVE flag";
    str "-o       Include EPOLLONESHOT flag";
    str "-p       Open FIFO individually in each child";
    TAB :: str "(By default, each child inherits FD for FIFO opened by parent)";
    str "-r       Do a read() after epoll_wait() returns";
    str "-l       Children should loop, rather than calling epoll_wait() just once"]).

Record fork_opts := { eventsMask : Z; useLoop : bool; openFifoInChild : bool; readData : bool; useOneEpollFD : bool }.
Definition fork_opts_0 : fork_opts := {| eventsMask := EPOLLIN; useLoop := false; openFifoInChild := false; readData := false; useOneEpollFD := false |}.
Definition fork_opt (o : fork_opts) (c : ascii) (_ : option cstr) : fork_opts :=
  let mask f := {| eventsMask := Z.lor (eventsMask o) f; useLoop := useLoop o; openFifoInChild := openFifoInChild o; readData := readData o; useOneEpollFD := useOneEpollFD o |} in
  match c with
  | "e" => mask EPOLLET
  | "o" => mask EPOLLONESHOT
  | "x" => mask EPOLLEXCLUSIVE
  | "l" => {| eventsMask := eventsMask o; useLoop := true; openFifoInChild := openFifoInChild o; readData := readData o; useOneEpollFD := useOneEpollFD o |}
  | "p" => {| eventsMask := eventsMask o; useLoop := useLoop o; openFifoInChild := true; readData := readData o; useOneEpollFD := useOneEpollFD o |}
  | "r" => {| eventsMask := eventsMask o; useLoop := useLoop o; openFifoInChild := openFifoInChild o; readData := true; useOneEpollFD := useOneEpollFD o |}
  | "s" => {| eventsMask := eventsMask o; useLoop := useLoop o; openFifoInChild := openFifoInChild o; readData := readData o; useOneEpollFD := true |}
  | _ => o
  end%char.

Section Fork.
Context {S : Type} `{os} (o : fork_opts) (fifoPath : cstr).

(** "Child %d: " and what follows. *)
Definition child_says (childNum : Z) (text : cstr) : M S unit := out Stdout (str "Child " ++ dec childNum ++ str ": " ++ text ++ [NL]).

Definition open_fifo : M S Z :=
  fd ← sys (Copen fifoPath O_RDONLY_NONBLOCK 0);
  if rv fd =? -1 then perror_exit (str "open") else mret (rv fd).

(** A descriptor that was not set has no value. *)
Definition make_epoll (fd : option Z) : M S Z :=
  epfd ← sys (Cextern "epoll_create" [2] []);
  if rv epfd =? -1 then perror_exit (str "epoll_create") else
  match fd with
  | None => stop_with (Undefined "uninitialised descriptor")
  | Some fd =>
      c ← sys (Cextern "epoll_ctl" [rv epfd; 1; fd; eventsMask o] []);
      if rv c =? -1 then perror_exit (str "epoll_ctl") else mret (rv epfd)
  end.

Definition epoll_wait_turn (childNum epfd fd : Z) : M S (unit + unit) :=
  child_says childNum (str "about to epoll_wait()");;
  numReady ← sys (Cextern "epoll_wait" [epfd; 1; -1] []);
  if rv numReady =? -1 then perror_exit (str "epoll-wait") else
  child_says childNum (str "epoll_wait() returned " ++ dec (rv numReady));;
  eof ← (if readData o then
    sys (Cextern "usleep" [50000] []);;
    nr ← sys (Cread fd 50000);
    if rv nr =? 0 then child_says childNum (str "read returned EOF");; mret true
    else if 0 <? rv nr then child_says childNum (str "read returned " ++ dec (rv nr) ++ str " bytes");; mret false
    else (e ← get_errno; child_says childNum (str "read failed: " ++ strerror e);; mret false)
   else mret false);
  mret (if eof || negb (useLoop o) then inr tt else inl tt).

Definition fork_child (fuel : nat) (childNum : Z) (epfd fd : option Z) : M S unit :=
  child_says childNum (str "created");;
  fd ← (if openFifoInChild o then
    fd ← open_fifo;
    child_says childNum (str "opened FIFO " ++ fifoPath);;
    mret (Some fd)
   else mret fd);
  epfd ← (match epfd with
   | Some epfd => mret epfd
   | None => child_says childNum (str "creating epoll FD and adding FIFO");; make_epoll fd
   end);
  loop fuel (λ _, epoll_wait_turn childNum epfd (default 0 fd)) tt;;
  child_says childNum (str "terminating");;
  stop_with (Exit 0).

Fixpoint fork_children (fuel : nat) (epfd fd : option Z) (childNum : Z) (n : nat) : M S unit :=
  match n with
  | O => mret tt
  | Datatypes.S n =>
      f ← sys Cfork;
      if rv f =? -1 then perror_exit (str "fork") else
      if rv f =? 0 then fork_child fuel childNum epfd fd else
      fork_children fuel epfd fd (childNum + 1) n
  end.

Definition fork_run (fuel : nat) (childMax : Z) : M S unit :=
  fd ← (if openFifoInChild o then mret None else
    fd ← open_fifo;
    out Stdout (str "Opened FIFO " ++ fifoPath ++ [NL]);;
    mret (Some fd));
  epfd ← (if useOneEpollFD o then
    out Stdout (str "Creating single epoll FD and adding FIFO" ++ [NL]);;
    epfd ← make_epoll fd;
    mret (Some epfd)
   else mret None);
  out Stdout [NL];;
  fork_children fuel epfd fd 0 (Z.to_nat childMax);;
  sys (Cextern "usleep" [50000] []);;
  out Stdout (str "======================" ++ [NL]);;
  for_acc 0 (Z.to_nat childMax) (λ _ _, sys (Cwait (-1));; mret tt) tt;;
  stop_with (Exit 0).
End Fork.

Definition epoll_flags_fork_main {S} `{os} (fuel : nat) (argv : list cstr) : M S unit :=
  let prog := default [] (argv !! 0%nat) in
  let '(fs, rest) := getopt_env (letters (str "eloprsx") []) (tail argv) in
  o ← option_loop prog fork_opt (out Stderr (flags_usage_text prog);; stop_with (Exit 1)) fork_opts_0 fs;
  match rest with
  | [fifoPath; childMax] => if streq fifoPath (str "--help") then (out Stderr (flags_usage_text prog);; stop_with (Exit 1)) else fork_run o fifoPath fuel (atoi childMax)
  | _ => out Stderr (flags_usage_text prog);; stop_with (Exit 1)
  end.

(** ** What the processes do *)

Section Specs.
Context {S : Type} `{os} (o : fork_opts) (fifoPath : cstr).
Implicit Types s : st S.

(** The calls of a process that has the FIFO on [fd] and an epoll instance on [epfd]. *)
Definition fork_call (fd epfd : Z) (x : call * reply) : Prop :=
  match x.1 with
  | Copen p f _ => p = fifoPath ∧ f = O_RDONLY_NONBLOCK ∧ rv x.2 = fd
  | Cextern "epoll_create" _ _ => rv x.2 = epfd
  | Cextern "epoll_ctl" args _ => args = [epfd; 1; fd; eventsMask o]
  | Cextern "epoll_wait" args _ => args = [epfd; 1; -1]
  | Cread d _ => d = fd ∧ readData o = true
  | Cextern "usleep" _ _ | Cfork | Cwait _ => True
  | _ => False
  end.
Definition registers (x : call * reply) : bool := match x.1 with Cextern "epoll_ctl" _ _ => true | _ => false end.
Definition waits (x : call * reply) : bool := match x.1 with Cextern "epoll_wait" _ _ => true | _ => false end.
(** A history of such calls, with so many registrations. *)
Definition forked (fd epfd : Z) (n : nat) (l : list (call * reply)) : Prop := Forall (fork_call fd epfd) l ∧ length (filter (λ x, registers x = true) l) = n.

Lemma forked_snoc fd epfd n l x : forked fd epfd n l → fork_call fd epfd x → forked fd epfd (n + if registers x then 1 else 0) (l ++ [x]).
Proof using.
  intros [H1 H2] Hx. split; [by apply Forall_app; split; [|apply Forall_singleton]|]. rewrite filter_app, length_app, H2. f_equal. rewrite filter_cons. by destruct (registers x).
Qed.

Definition forked_end s0 (t : stop) (s' : st S) : Prop := t = Exit 1 ∨ t = Exit 0 ∧ ∃ fd epfd l, acted s0 l s' ∧ (forked fd epfd 1 l ∨ useOneEpollFD o = false ∧ forked fd epfd 0 l ∧ Forall (λ x, waits x = false) l).

Lemma wlp_fails {A} msg (Q : A → st S → Prop) s0 F s : wlp (perror_exit msg) Q (forked_end s0) F s.
Proof using. apply wp_wlp, wp_bind, wp_bind, wp_get_errno, wp_emit, wp_stop. by left. Qed.

(** Text changes nothing. *)
Lemma wlp_say {A} s0 l text (m : M S A) Q E F s : acted s0 l s → (∀ s', acted s0 l s' → wlp m Q E F s') → wlp (out Stdout text;; m) Q E F s.
Proof using. intros Ha Hm. apply wlp_bind, wp_wlp, wp_emit, Hm. eapply acted_same; [exact Ha|apply acts_out|done]. Qed.
(** A call of the kind above. *)
Lemma wlp_do {A} s0 fd epfd n l c (f : reply → M S A) Q E F s : acted s0 l s → forked fd epfd n l → (∀ g, c ≠ Cfflush g) →
  (∀ r s', fork_call fd epfd (c, r) → acted s0 (l ++ [(c, r)]) s' → forked fd epfd (n + if registers (c, r) then 1 else 0) (l ++ [(c, r)]) → wlp (f r) Q E F s') →
  (∀ r, fork_call fd epfd (c, r)) → wlp (r ← sys c; f r) Q E F s.
Proof using.
  intros Ha Hk Hc Hf Hcall. apply wlp_bind, wp_wlp. eapply wp_act; [exact Ha|exact Hc|]. intros r s1 _ H1 _ _. apply Hf; [done|done|]. by apply forked_snoc.
Qed.

Lemma wlp_wait_loop s0 fd epfd n childNum fuel l s : acted s0 l s → forked fd epfd n l →
  wlp (loop fuel (λ _, epoll_wait_turn o childNum epfd fd) tt) (λ _ s', ∃ l', acted s0 l' s' ∧ forked fd epfd n l') (forked_end s0) (λ _, True) s.
Proof using.
  intros Ha Hk. apply (wlp_loop (λ _ s', ∃ l', acted s0 l' s' ∧ forked fd epfd n l')); [by exists l|done|]. clear l s Ha Hk. intros _ s (l & Ha & Hk). unfold epoll_wait_turn, child_says.
  eapply wlp_say; [exact Ha|]. clear s Ha. intros s Ha. eapply wlp_do; [exact Ha|exact Hk|done| |done]. intros r s1 _ H1 K1. rewrite Nat.add_0_r in K1. destruct (rv r =? -1); [apply wlp_fails|].
  eapply wlp_say; [exact H1|]. clear s1 H1. intros s1 H1.
  assert (∀ eof (s2 : st S), (∃ l', acted s0 l' s2 ∧ forked fd epfd n l') → wlp (mret (if eof || negb (useLoop o) then inr tt else inl tt)) (λ (r : unit + unit) s', match r with inl _ => ∃ l', acted s0 l' s' ∧ forked fd epfd n l' | inr _ => ∃ l', acted s0 l' s' ∧ forked fd epfd n l' end) (forked_end s0) (λ _, True) s2) as Hret by (intros eof s2 Hs2; apply wp_wlp, wp_ret; by destruct (_ || _)).
  apply wlp_bind. destruct (readData o) eqn:Er; [|apply wp_wlp, wp_ret, Hret; by eexists].
  eapply wlp_do; [exact H1|exact K1|done| |done]. intros u s2 _ H2 K2. rewrite Nat.add_0_r in K2. eapply wlp_do; [exact H2|exact K2|done| |done]. intros x s3 _ H3 K3. rewrite Nat.add_0_r in K3.
  destruct (rv x =? 0); [|destruct (0 <? rv x); [|apply wlp_bind, wp_wlp, wp_get_errno]]; (eapply wlp_say; [exact H3|]; intros s4 H4; apply wp_wlp, wp_ret, Hret; by eexists).
Qed.

(** What is known of the descriptors, and the history so far. *)
Definition known (fd epfd : option Z) (l : list (call * reply)) : Prop :=
  Forall (λ x, waits x = false) l ∧
  match fd, epfd with
  | Some fd, Some epfd => useOneEpollFD o = true ∧ openFifoInChild o = false ∧ forked fd epfd 1 l
  | Some fd, None => useOneEpollFD o = false ∧ openFifoInChild o = false ∧ ∀ epfd, forked fd epfd 0 l
  | None, None => useOneEpollFD o = false ∧ openFifoInChild o = true ∧ ∀ fd epfd, forked fd epfd 0 l
  | None, Some _ => False
  end.

Lemma wlp_open s0 l (Q : Z → st S → Prop) F s : acted s0 l s → Forall (λ x, waits x = false) l → (∀ fd epfd, forked fd epfd 0 l) →
  (∀ fd r s', acted s0 (l ++ [r]) s' → Forall (λ x, waits x = false) (l ++ [r]) → (∀ epfd, forked fd epfd 0 (l ++ [r])) → Q fd s') → wlp (open_fifo fifoPath) Q (forked_end s0) F s.
Proof using.
  intros Ha Hw Hk HQ. unfold open_fifo. apply wlp_bind, wp_wlp. eapply wp_act; [exact Ha|done|]. intros r s1 _ H1 _ _. destruct (rv r =? -1); [apply wlp_fails|]. apply wp_wlp, wp_ret.
  eapply HQ; [exact H1|by apply Forall_app; split; [|apply Forall_singleton]|]. intros epfd. apply (forked_snoc _ _ 0); [done|]. done.
Qed.

Lemma wlp_make s0 fd l (Q : Z → st S → Prop) F s : acted s0 l s → Forall (λ x, waits x = false) l → (∀ epfd, forked fd epfd 0 l) →
  (∀ epfd l' s', acted s0 l' s' → Forall (λ x, waits x = false) l' → forked fd epfd 1 l' → Q epfd s') → wlp (make_epoll o (Some fd)) Q (forked_end s0) F s.
Proof using.
  intros Ha Hw Hk HQ. unfold make_epoll. apply wlp_bind, wp_wlp. eapply wp_act; [exact Ha|done|]. intros r s1 _ H1 _ _. destruct (rv r =? -1); [apply wlp_fails|]. apply wlp_bind, wp_wlp. eapply wp_act; [exact H1|done|]. intros c s2 _ H2 _ _.
  destruct (rv c =? -1); [apply wlp_fails|]. apply wp_wlp, wp_ret. eapply HQ; [exact H2| |].
  - rewrite !Forall_app. split; [split; [done|]|]; by apply Forall_singleton.
  - apply (forked_snoc _ _ 0); [|done]. by apply (forked_snoc _ _ 0).
Qed.

Lemma wlp_fork_child s0 fuel childNum fd epfd l s : acted s0 l s → known fd epfd l →
  wlp (fork_child o fifoPath fuel childNum epfd fd) (λ _ _, False) (forked_end s0) (λ _, True) s.
Proof using.
  intros Ha [Hw Hk]. unfold fork_child, child_says. eapply wlp_say; [exact Ha|]. clear s Ha. intros s Ha.
  set (rest := λ (fd : option Z) (epfd : Z), loop fuel (λ _, epoll_wait_turn o childNum epfd (default 0 fd)) tt;; out Stdout (str "Child " ++ dec childNum ++ str ": " ++ str "terminating" ++ [NL]);; stop_with (Exit 0) : M S unit).
  assert (∀ fd epfd l s, acted s0 l s → forked fd epfd 1 l → wlp (rest (Some fd) epfd) (λ _ _, False) (forked_end s0) (λ _, True) s) as Hloop.
  { clear. intros fd epfd l s Ha Hk. apply wlp_bind. eapply wlp_mono; [by apply (wlp_wait_loop s0 fd epfd 1 childNum fuel l)| |done|done]. intros [] s1 (l' & H1 & K1). eapply wlp_say; [exact H1|]. intros s2 H2. apply wp_wlp, wp_stop. right. split; [done|]. exists fd, epfd, l'. split; [done|by left]. }
  assert (∀ fd l s, acted s0 l s → Forall (λ x, waits x = false) l → (∀ epfd, forked fd epfd 0 l) →
    wlp (out Stdout (str "Child " ++ dec childNum ++ str ": " ++ str "creating epoll FD and adding FIFO" ++ [NL]);; make_epoll o (Some fd)) (λ epfd s', wlp (rest (Some fd) epfd) (λ _ _, False) (forked_end s0) (λ _, True) s') (forked_end s0) (λ _, True) s) as Hmake.
  { clear - Hloop. intros fd l s Ha Hw Hk. eapply wlp_say; [exact Ha|]. clear s Ha. intros s Ha. eapply wlp_make; [exact Ha|done|done|]. intros epfd l' s' H' _ K'. by eapply Hloop. }
  destruct fd as [fd|], epfd as [epfd|]; cbn in Hk; try destruct Hk as (_ & -> & Hk); try done.
  - apply wlp_bind, wp_wlp, wp_ret, wlp_bind, wp_wlp, wp_ret. by eapply Hloop.
  - apply wlp_bind, wp_wlp, wp_ret, wlp_bind. by eapply Hmake.
  - apply wlp_bind, wlp_bind. eapply wlp_open; [exact Ha|done|done|]. intros fd r s1 H1 W1 K1. eapply wlp_say; [exact H1|]. intros s2 H2. apply wp_wlp, wp_ret, wlp_bind. by eapply Hmake.
Qed.

Lemma wlp_fork_children s0 fuel fd epfd : ∀ n childNum l s, acted s0 l s → known fd epfd l →
  wlp (fork_children o fifoPath fuel epfd fd childNum n) (λ _ s', ∃ l', acted s0 l' s' ∧ known fd epfd l') (forked_end s0) (λ _, True) s.
Proof using.
  induction n as [|n IH]; intros childNum l s Ha Hk; cbn [fork_children]; [apply wp_wlp, wp_ret; by exists l|].
  apply wlp_bind, wp_wlp. eapply wp_act; [exact Ha|done|]. intros f s1 _ H1 _ _. destruct (rv f =? -1); [apply wlp_fails|].
  assert (known fd epfd (l ++ [(Cfork, f)])) as K1.
  { destruct Hk as [Hw Hk]. split; [by apply Forall_app; split; [|apply Forall_singleton]|]. destruct fd as [fd'|], epfd as [e'|]; cbn in Hk |- *; [| |done|]; destruct Hk as (? & ? & Hk); (split; [done|]); (split; [done|]).
    - by apply (forked_snoc _ _ 1).
    - intros e'. by apply (forked_snoc _ _ 0).
    - intros fd' e'. by apply (forked_snoc _ _ 0). }
  destruct (rv f =? 0); [|by apply (IH _ (l ++ [(Cfork, f)]))]. eapply wlp_mono; [by eapply wlp_fork_child|done|done|done].
Qed.

(** The children have been made: the parent waits for them. *)
Lemma wlp_fork_wait s0 fuel childMax fd epfd l s : acted s0 l s → known fd epfd l →
  wlp (fork_children o fifoPath fuel epfd fd 0 (Z.to_nat childMax);; sys (Cextern "usleep" [50000] []);; out Stdout (str "======================" ++ [NL]);;
       for_acc 0 (Z.to_nat childMax) (λ _ _, sys (Cwait (-1));; mret tt) tt;; stop_with (Exit 0)) (λ (_ : unit) _, False) (forked_end s0) (λ _, True) s.
Proof using.
  intros Ha Hk. apply wlp_bind. eapply wlp_mono; [by eapply wlp_fork_children| |done|done]. intros [] s1 (l1 & H1 & Hw & K1).
  assert (∃ fd' epfd' n, forked fd' epfd' n l1 ∧ (n = 1%nat ∨ useOneEpollFD o = false ∧ n = 0%nat)) as (fd' & epfd' & n & K & Hn).
  { destruct fd as [fd'|], epfd as [e'|]; cbn in K1; [| |done|]; destruct K1 as (? & ? & K1); [exists fd', e', 1%nat; auto|exists fd', 0, 0%nat; auto|exists 0, 0, 0%nat; auto]. }
  assert (∀ c r l, match c with Cwait _ | Cextern "usleep" _ _ => True | _ => False end → Forall (λ x, waits x = false) l → forked fd' epfd' n l → Forall (λ x, waits x = false) (l ++ [(c, r)]) ∧ forked fd' epfd' n (l ++ [(c, r)])) as Hmore.
  { intros c r l' Hc Hw' K'. assert (waits (c, r) = false ∧ registers (c, r) = false ∧ fork_call fd' epfd' (c, r)) as (W & R & C) by (destruct c; try done; cbn in *; repeat case_match; done).
    split; [by apply Forall_app; split; [|apply Forall_singleton]|]. pose proof (forked_snoc _ _ _ _ _ K' C) as Hs. by rewrite R, Nat.add_0_r in Hs. }
  apply wlp_bind, wp_wlp. eapply wp_act; [exact H1|done|]. intros u s2 _ H2 _ _. destruct (Hmore (Cextern "usleep" [50000] []) u l1 I Hw K) as [W2 K2].
  eapply wlp_say; [exact H2|]. intros s3 H3. apply wp_wlp, wp_bind.
  eapply wp_mono; [apply (wp_for_acc (λ _ (_ : unit) s', ∃ l', acted s0 l' s' ∧ Forall (λ x, waits x = false) l' ∧ forked fd' epfd' n l') (forked_end s0) (λ _ _, sys (Cwait (-1));; mret tt) 0 (Z.to_nat childMax) tt s3)| |done].
  - by eexists.
  - intros i _ s4 _ (l4 & H4 & W4 & K4). apply wp_bind. eapply wp_act; [exact H4|done|]. intros w s5 _ H5 _ _. apply wp_ret. destruct (Hmore (Cwait (-1)) w l4 I W4 K4). by eexists.
  - intros [] s6 (l6 & H6 & W6 & K6). apply wp_stop. right. split; [done|]. exists fd', epfd', l6. split; [done|]. destruct Hn as [->|[Ho ->]]; [by left|by right].
Qed.
End Specs.

(** Unless the options say both that the FIFO is opened in the children and that
    one epoll instance is made before them, each process that comes to its end has
    opened only the FIFO, has registered it once, with the flags asked for, in the
    instance it waits on, and has read only from it, if that was asked for; a parent
    that makes no instance of its own waits on none. *)
Theorem epoll_flags_fork_correct {S} `{os} o fifoPath fuel childMax (s : st S) :
  useOneEpollFD o && openFifoInChild o = false →
  wlp (fork_run o fifoPath fuel childMax) (λ _ _, False)
    (λ t s', t = Exit 1 ∨ t = Exit 0 ∧ ∃ fd epfd l, acted s l s' ∧
       (forked o fifoPath fd epfd 1 l ∨ useOneEpollFD o = false ∧ forked o fifoPath fd epfd 0 l ∧ Forall (λ x, waits x = false) l)) (λ _, True) s.
Proof.
  intros Ho. change (λ t s', _ ∨ _) with (forked_end o fifoPath s). assert (∀ fd epfd, forked o fifoPath fd epfd 0 []) as K0 by (intros; split; [constructor|done]).
  unfold fork_run. apply wlp_bind. destruct (openFifoInChild o) eqn:Ep.
  - rewrite andb_true_r in Ho. rewrite Ho. apply wp_wlp, wp_ret, wlp_bind, wp_wlp, wp_ret. eapply wlp_say; [apply acted_refl|]. intros s1 H1. eapply wlp_fork_wait; [exact H1|]. split; [constructor|]. by rewrite Ep.
  - apply wlp_bind. eapply wlp_open; [apply acted_refl|constructor|exact K0|]. intros fd r s1 H1 W1 K1. eapply wlp_say; [exact H1|]. clear s1 H1. intros s1 H1. apply wp_wlp, wp_ret, wlp_bind. destruct (useOneEpollFD o) eqn:Es.
    + eapply wlp_say; [exact H1|]. clear s1 H1. intros s1 H1. apply wlp_bind. eapply wlp_make; [exact H1|done|done|]. intros epfd l s2 H2 W2 K2. apply wp_wlp, wp_ret. eapply wlp_say; [exact H2|]. intros s3 H3. eapply wlp_fork_wait; [exact H3|]. split; [done|]. by rewrite Es, Ep.
    + apply wp_wlp, wp_ret. eapply wlp_say; [exact H1|]. clear s1 H1. intros s1 H1. eapply wlp_fork_wait; [exact H1|]. split; [done|]. by rewrite Es, Ep.
Qed.

(** With both, the descriptor that is registered was never set. *)
Example not_set :
  let o := {| eventsMask := EPOLLIN; useLoop := false; openFifoInChild := true; readData := false; useOneEpollFD := true |} in
  (@fork_run unit (test_os (λ _ _, ok 5)) o (str "p") 2 1 (init tt)).1 = Stop (Undefined "uninitialised descriptor").
Proof. vm_compute. reflexivity. Qed.

(** *** A run *)

Definition forking_os (pid : Z) : os := test_os (λ _ c, match c with Copen _ _ _ => ok 3 | Cextern "epoll_create" _ _ => ok 4 | Cextern "epoll_wait" _ _ => ok 1 | Cfork => ok pid | _ => ok 0 end).
Definition excl_opts : fork_opts := fork_opt (fork_opt fork_opts_0 "x"%char None) "r"%char None.
Lemma epoll_flags_fork_witness :
  ∃ s' fd epfd l, @fork_run unit (forking_os 0) excl_opts (str "p") 2 1 (init tt) = (Stop (Exit 0), s') ∧ acted (init tt) l s' ∧ forked excl_opts (str "p") fd epfd 1 l.
Proof.
  pose proof (@epoll_flags_fork_correct unit (forking_os 0) excl_opts (str "p") 2 1 (init tt) eq_refl) as H.
  destruct (wlp_run_stop _ _ _ _ _ (Exit 0) H) as (s' & Hrun & [[=]|(_ & fd & epfd & l & Ha & [Hk|(_ & [_ Hk] & _)])]); [vm_compute; reflexivity| |].
  - exists s', fd, epfd, l. split; [exact Hrun|]. split; [exact Ha|exact Hk].
  - exfalso. assert (acts (trace (@fork_run unit (forking_os 0) excl_opts (str "p") 2 1 (init tt)).2) = l) as El by (rewrite Hrun; destruct Ha as [Ha _]; exact Ha).
    rewrite <-El in Hk. vm_compute in Hk. discriminate Hk.
Defined.
