(* ===== verification/Echo.v ===== *)
(** The echo service of tlpi-book/sockets: over TCP (is_echo_sv.c,
    is_echo_v2_sv.c, is_echo_inetd_sv.c and the client is_echo_cl.c) and over
    UDP (id_echo_sv.c, id_echo_cl.c).

    The servers are put together from becomeDaemon, inetListen or inetBind, and
    the copying loop, and proved from what those are proved to do.  What a
    client types comes back through a server: [echo_roundtrip]. *)
From S2P Require Import Prelude Sys Rdwrn ErrorFns Dict Sockets Daemon SvmsgFile Copy.

(** ** TCP *)

Definition ECHO : cstr := str "echo".
Definition ECHO_SIZE : Z := 4096.
Definition LOG_ERR : Z := 3.
Definition LOG_WARNING : Z := 4.

Section Servers.
Context {S : Type} `{os}.

Definition syslog (priority : Z) (text : cstr) : M S unit := sys (Cextern "syslog" [priority] text);; mret tt.

(** The text with that of errno. *)
Definition syslog_errno (priority : Z) (before after : cstr) : M S unit :=
  e ← get_errno;
  syslog priority (before ++ strerror e ++ after).

(** From [src] to [dst]: with one socket for both, handleRequest; with
    standard input and output, the program for inetd. *)
Definition relay (fuel : nat) (src dst : Z) : M S unit :=
  n ← copy_loop fuel src ECHO_SIZE id dst (syslog_errno LOG_ERR (str "write() failed: ") [];; stop_with (Exit 1));
  when (n =? -1) (syslog_errno LOG_ERR (str "Error from read(): ") [];; stop_with (Exit 1)).

Definition handleRequest (fuel : nat) (cfd : Z) : M S unit := relay fuel cfd cfd.

Definition is_echo_inetd_main (fuel : nat) : M S unit :=
  relay fuel 0 1;;
  stop_with (Exit 0).

(** A turn of the servers: when accept fails the first version gives up, the
    second goes on. *)
Definition echo_turn (v2 : bool) (fuel : nat) (lfd : Z) : M S (unit + unit) :=
  c ← sys (Caccept lfd);
  let cfd := rv c in
  if cfd =? -1 then
    syslog_errno LOG_ERR (str "Failure in accept(): ") [];;
    if v2 then mret (inl tt) else stop_with (Exit 1)
  else
    f ← sys Cfork;
    if rv f =? -1 then
      syslog_errno LOG_ERR (str "Can't create child (") (str ")");;
      sys (Cclose cfd);;
      mret (inl tt)
    else if rv f =? 0 then
      sys (Cclose lfd);;
      handleRequest fuel cfd;;
      stop_with (FastExit 0)
    else
      sys (Cclose cfd);;
      mret (inl tt).

Definition echo_service (v2 : bool) (fuel : nat) : M S unit :=
  d ← becomeDaemon 0;
  if d =? -1 then errExit (str "becomeDaemon") else
  a ← sys (Csigaction SIGCHLD);
  if rv a =? -1 then syslog_errno LOG_ERR (str "Error from sigaction(): ") [];; stop_with (Exit 1) else
  l ← inetListen ECHO 10;
  if l.1 =? -1 then syslog_errno LOG_ERR (str "Could not create server socket (") (str ")");; stop_with (Exit 1) else
  loop fuel (λ _, echo_turn v2 fuel l.1) tt.

Definition is_echo_sv_main (fuel : nat) : M S unit := echo_service false fuel.

Definition is_echo_v2_main (fuel : nat) (argv : list cstr) : M S unit :=
  if bool_decide (argv !! 1%nat = Some (str "-i")) then
    handleRequest fuel 0;;
    stop_with (Exit 0)
  else echo_service true fuel.
End Servers.

(** is_echo_cl.c *)
Definition CL_SIZE : Z := 100.
Definition SHUT_WR : Z := 1.

Section Client.
Context {S : Type} `{os}.

(** The child prints what comes back; %.*s stops at a NUL. *)
Definition echo_print (fuel : nat) (sfd : Z) : M S unit :=
  loop fuel (λ _,
    r ← sys (Cread sfd CL_SIZE);
    if rv r <=? 0 then mret (inr tt) else
    out Stdout (c_str (data_of r));;
    mret (inl tt)) tt;;
  stop_with (Exit 0).

(** The parent sends what is typed; an error of read is taken for the end. *)
Definition echo_send (fuel : nat) (sfd : Z) : M S unit :=
  copy_loop fuel 0 CL_SIZE id sfd (fatal (str "write() failed"));;
  s ← sys (Cextern "shutdown" [sfd; SHUT_WR] []);
  when (rv s =? -1) (errExit (str "shutdown"));;
  stop_with (Exit 0).

Definition is_echo_cl_main (fuel : nat) (argv : list cstr) : M S unit :=
  let usage := usageErr (default [] (argv !! 0%nat) ++ str " host" ++ [NL]) in
  match argv with
  | [_; host] =>
      when (streq host (str "--help")) usage;;
      sfd ← inetConnect (Some host) ECHO SOCK_STREAM;
      if sfd =? -1 then errExit (str "inetConnect") else
      f ← sys Cfork;
      if rv f =? -1 then errExit (str "fork")
      else if rv f =? 0 then echo_print fuel sfd
      else echo_send fuel sfd
  | _ => usage
  end.
End Client.

(** ** UDP

    In calls of syslog the arguments are evaluated from left to right, one of
    the orders C allows. *)

Definition UDP_SIZE : Z := 500.
Definition IS_ADDR_STR_LEN : Z := 4096.

(** Who sent a datagram. *)
Definition from_addr (r : reply) : cstr := match rents r with (a, _) :: _ => a | [] => [] end.

Section Udp.
Context {S : Type} `{os}.

Definition udp_echo_turn (sfd : Z) : M S (unit + unit) :=
  r ← sys (Crecvfrom sfd UDP_SIZE);
  if rv r =? -1 then errExit (str "recvfrom") else
  w ← sys (Csendto sfd (data_of r) (from_addr r));
  (if negb (rv w =? rv r) then
     a ← inetAddressStr (from_addr r) IS_ADDR_STR_LEN;
     syslog_errno LOG_WARNING (str "Error echoing response to " ++ a ++ str " (") (str ")")
   else mret tt);;
  mret (inl tt).

Definition id_echo_sv_main (fuel : nat) : M S unit :=
  d ← becomeDaemon 0;
  if d =? -1 then errExit (str "becomeDaemon") else
  b ← inetBind ECHO SOCK_DGRAM;
  if b.1 =? -1 then syslog_errno LOG_ERR (str "Could not create server socket (") (str ")");; stop_with (Exit 1) else
  loop fuel (λ _, udp_echo_turn b.1) tt.

Definition id_echo_cl_main (argv : list cstr) : M S unit :=
  let usage := usageErr (default [] (argv !! 0%nat) ++ str " host msg..." ++ [NL]) in
  match argv with
  | _ :: host :: msgs =>
      when (streq host (str "--help")) usage;;
      sfd ← inetConnect (Some host) ECHO SOCK_DGRAM;
      if sfd =? -1 then fatal (str "Could not connect to server socket") else
      for_each msgs (λ msg,
        w ← sys (Cwrite sfd msg);
        when (negb (rv w =? strlen msg)) (fatal (str "partial/failed write"));;
        r ← sys (Cread sfd UDP_SIZE);
        when (rv r =? -1) (errExit (str "read"));;
        out Stdout (str "[" ++ dec (rv r) ++ str " bytes] " ++ c_str (data_of r) ++ [NL]));;
      stop_with (Exit 0)
  | _ => usage
  end.
End Udp.

(** ** What the servers do, on any system *)

Section Relays.
Context {S : Type} `{os}.
Implicit Types s : st S.

Definition relay_done (src dst : Z) (k : list (call * reply)) : Prop :=
  ∃ b r, k = b ++ [(Cread src ECHO_SIZE, r)] ∧ copying src ECHO_SIZE id dst b ∧ rv r <= 0 ∧ rv r ≠ -1.

(** A failed or short write, or a failed read, and what syslog is told. *)
Definition relay_failed (src dst : Z) (k : list (call * reply)) : Prop :=
  ∃ b x text q, k = (b ++ x) ++ [(Cextern "syslog" [LOG_ERR] text, q)] ∧ copying src ECHO_SIZE id dst b ∧
    (cut_short src ECHO_SIZE id dst x ∨ ∃ r, x = [(Cread src ECHO_SIZE, r)] ∧ rv r = -1).

Lemma wp_syslog_errno p a b s0 l s (Q : unit → st S → Prop) E :
  acted s0 l s → (∀ q s', acted s0 (l ++ [(Cextern "syslog" [p] (a ++ strerror (errno s) ++ b), q)]) s' → Q tt s') →
  wp (syslog_errno p a b) Q E s.
Proof using.
  intros Ha HQ. unfold syslog_errno, syslog. apply wp_bind, wp_get_errno, wp_bind. eapply wp_act; [exact Ha|done|].
  intros q s' _ Ha' _ _. apply wp_ret. by eapply HQ.
Qed.

Lemma wlp_relay fuel src dst s0 l s :
  acted s0 l s →
  wlp (relay fuel src dst) (λ _ s', ∃ k, acted s0 (l ++ k) s' ∧ relay_done src dst k)
    (λ t s', t = Exit 1 ∧ ∃ k, acted s0 (l ++ k) s' ∧ relay_failed src dst k)
    (λ s', ∃ k, acted s0 (l ++ k) s' ∧ copying src ECHO_SIZE id dst k) s.
Proof using.
  intros Ha0. unfold relay. apply wlp_bind. apply wlp_copy_loop.
  - intros k r s1 Ha Hk Hr _. pose proof (acted_app _ _ _ _ _ Ha0 Ha) as Ha1. apply wp_wlp.
    destruct (Z.eqb_spec (rv r) (-1)) as [E|E]; cbn [when].
    + apply wp_bind. eapply wp_syslog_errno; [exact Ha1|]. intros q s2 Ha2. rewrite <-app_assoc in Ha2. apply wp_stop. split; [done|].
      eexists. split; [exact Ha2|]. eexists k, _, _, _. split; [done|]. split; [done|]. right. by exists r.
    + apply wp_ret. eexists. split; [exact Ha1|]. by exists k, r.
  - intros k x s1 Ha Hk Hx. pose proof (acted_app _ _ _ _ _ Ha0 Ha) as Ha1. apply wp_wlp.
    apply wp_bind. eapply wp_syslog_errno; [exact Ha1|]. intros q s2 Ha2. rewrite <-app_assoc in Ha2. apply wp_stop. split; [done|].
    eexists. split; [exact Ha2|]. eexists k, x, _, _. split; [done|]. auto.
  - intros k s1 Ha Hk. eexists. split; [by eapply acted_app|done].
Qed.
End Relays.

(** Turns of the parent: a connection passed to a child, a connection given up
    for want of one, and for the second version a failure of accept. *)
Inductive parent_turn (v2 : bool) (lfd : Z) : list (call * reply) → Prop :=
  | Passed_on c f k : rv c ≠ -1 → rv f ≠ -1 → rv f ≠ 0 →
      parent_turn v2 lfd [(Caccept lfd, c); (Cfork, f); (Cclose (rv c), k)]
  | Given_up c f text q k : rv c ≠ -1 → rv f = -1 →
      parent_turn v2 lfd [(Caccept lfd, c); (Cfork, f); (Cextern "syslog" [LOG_ERR] text, q); (Cclose (rv c), k)]
  | No_connection c text q : v2 = true → rv c = -1 →
      parent_turn v2 lfd [(Caccept lfd, c); (Cextern "syslog" [LOG_ERR] text, q)].

(** A child, from the accept on: its copy of the listening socket is closed and
    [k] is what it does with the connection. *)
Definition echo_child (lfd : Z) (l : list (call * reply)) (k : Z → list (call * reply) → Prop) : Prop :=
  ∃ c f q body, l = (Caccept lfd, c) :: (Cfork, f) :: (Cclose lfd, q) :: body ∧ rv c ≠ -1 ∧ rv f = 0 ∧ k (rv c) body.

Definition turn_stopped (v2 : bool) (lfd : Z) (t : stop) (l : list (call * reply)) : Prop :=
  t = FastExit 0 ∧ echo_child lfd l (λ cfd, relay_done cfd cfd) ∨
  t = Exit 1 ∧ echo_child lfd l (λ cfd, relay_failed cfd cfd) ∨
  v2 = false ∧ t = Exit 1 ∧ ∃ c text q, l = [(Caccept lfd, c); (Cextern "syslog" [LOG_ERR] text, q)] ∧ rv c = -1.

Section Turns.
Context {S : Type} `{os}.
Implicit Types s : st S.

Lemma wlp_echo_turn v2 fuel lfd s0 l s :
  acted s0 l s →
  wlp (echo_turn v2 fuel lfd) (λ x s', x = inl tt ∧ ∃ k, acted s0 (l ++ k) s' ∧ parent_turn v2 lfd k)
    (λ t s', ∃ k, acted s0 (l ++ k) s' ∧ turn_stopped v2 lfd t k)
    (λ s', ∃ k, acted s0 (l ++ k) s' ∧ echo_child lfd k (λ cfd, copying cfd ECHO_SIZE id cfd)) s.
Proof using.
  intros Ha0. unfold echo_turn. apply wlp_bind, wp_wlp. eapply wp_act; [exact Ha0|done|]. intros c s1 _ H1 _ _.
  destruct (Z.eqb_spec (rv c) (-1)) as [E|E].
  { apply wp_wlp, wp_bind. eapply wp_syslog_errno; [exact H1|]. intros q s2 H2. rewrite <-app_assoc in H2. cbn [app] in H2.
    destruct v2; [apply wp_ret; split; [done|]|apply wp_stop]; eexists; (split; [exact H2|]); [by apply No_connection|].
    right. right. eauto 10. }
  apply wlp_bind, wp_wlp. eapply wp_act; [exact H1|done|]. intros f s2 _ H2 _ _. rewrite <-app_assoc in H2. cbn [app] in H2.
  destruct (Z.eqb_spec (rv f) (-1)) as [Ef|Ef].
  { apply wp_wlp, wp_bind. eapply wp_syslog_errno; [exact H2|]. intros q s3 H3. apply wp_bind. eapply wp_act; [exact H3|done|].
    intros k s4 _ H4 _ _. rewrite <-!app_assoc in H4. cbn [app] in H4. apply wp_ret. split; [done|]. eexists. split; [exact H4|]. by apply Given_up. }
  destruct (Z.eqb_spec (rv f) 0) as [Ef0|Ef0].
  - apply wlp_bind, wp_wlp. eapply wp_act; [exact H2|done|]. intros q s3 _ H3 _ _. rewrite <-app_assoc in H3. cbn [app] in H3.
    assert (∀ b (k : Z → list (call * reply) → Prop), k (rv c) b → echo_child lfd ([(Caccept lfd, c); (Cfork, f); (Cclose lfd, q)] ++ b) k) as Hchild.
    { intros b k Hk. exists c, f, q, b. done. }
    apply wlp_bind. eapply wlp_mono; [by apply wlp_relay| | |].
    + intros [] s4 (b & Hb & Hd). rewrite <-app_assoc in Hb. apply wp_wlp, wp_stop. eexists. split; [exact Hb|]. left. split; [done|]. by apply Hchild.
    + intros t s4 [-> (b & Hb & Hd)]. rewrite <-app_assoc in Hb. eexists. split; [exact Hb|]. right. left. split; [done|]. by apply Hchild.
    + intros s4 (b & Hb & Hd). rewrite <-app_assoc in Hb. eexists. split; [exact Hb|]. by apply Hchild.
  - apply wp_wlp, wp_bind. eapply wp_act; [exact H2|done|]. intros k s3 _ H3 _ _. rewrite <-app_assoc in H3. cbn [app] in H3.
    apply wp_ret. split; [done|]. eexists. split; [exact H3|]. by apply Passed_on.
Qed.
End Turns.

(** ** From the library's histories *)

Definition no_flush (x : call * reply) : bool := match x.1 with Cfflush _ => false | _ => true end.

Lemma acts_calls tr : acts tr = filter (λ x, no_flush x = true) (calls tr).
Proof.
  induction tr as [|e tr IH]; [done|]. change (e :: tr) with ([e] ++ tr). rewrite acts_app, calls_app, filter_app, IH. f_equal.
  destruct e as [c r|f t]; [|done]. destruct c; try done.
Qed.

Definition quietly (l : list (call * reply)) : list (call * reply) := filter (λ x, no_flush x = true) l.

Lemma since_acted {S} (s : st S) l s' : since s l s' → acted s (quietly l) s'.
Proof. intros [H1 H2]. split; [|done]. by rewrite !acts_calls, H1, filter_app. Qed.

(** The start of a server: it has become a daemon and its socket listens. *)
Definition listening (p0 : proc) (lfd : Z) (l0 : list (call * reply)) : Prop :=
  ∃ ld m a k, l0 = (ld ++ [(Csigaction SIGCHLD, a)]) ++ quietly k ∧ daemonized 0 p0 m (proc_after p0 ld) ∧ asked_limit 0 m ld ∧
    left_open k = [lfd] ∧ ∃ c, last k = Some (Clisten lfd 10, c) ∧ rv c ≠ -1.

Definition echo_served (v2 : bool) (p0 : proc) {S} (s : st S) (last : Z → list (call * reply) → Prop) (s' : st S) : Prop :=
  ∃ lfd l0 ls l, acted s (l0 ++ concat ls ++ l) s' ∧ listening p0 lfd l0 ∧ Forall (parent_turn v2 lfd) ls ∧ last lfd l.

Section Services.
Context {S : Type} `{os} (p0 : proc).
Implicit Types s : st S.

Lemma wlp_echo_loop v2 fuel lfd l0 s0 s :
  acted s0 l0 s → listening p0 lfd l0 →
  wlp (loop fuel (λ _, echo_turn v2 fuel lfd) tt) (λ (_ : unit) _, False)
    (λ t s', echo_served v2 p0 s0 (λ lfd, turn_stopped v2 lfd t) s')
    (λ s', echo_served v2 p0 s0 (λ lfd l, l = [] ∨ echo_child lfd l (λ cfd, copying cfd ECHO_SIZE id cfd)) s') s.
Proof using.
  intros Ha0 Hl0. apply (wlp_loop (λ _ s', ∃ ls, acted s0 (l0 ++ concat ls) s' ∧ Forall (parent_turn v2 lfd) ls)).
  - exists []. cbn [concat]. rewrite app_nil_r. split; [done|by apply Forall_nil_2].
  - intros _ s' (ls & Ha & Hls). exists lfd, l0, ls, []. rewrite app_nil_r. auto.
  - intros [] s1 (ls & Ha & Hls). eapply wlp_mono; [by apply wlp_echo_turn| | |].
    + intros x s2 (-> & k & Hk & Hturn). exists (ls ++ [k]). rewrite concat_app. cbn [concat]. rewrite app_nil_r, app_assoc.
      split; [done|]. apply Forall_app. auto.
    + intros t s2 (k & Hk & Hst). exists lfd, l0, ls, k. rewrite app_assoc. auto.
    + intros s2 (k & Hk & Hc). exists lfd, l0, ls, k. rewrite app_assoc. auto.
Qed.

(** A server that could not start. *)
Definition not_started (t : stop) : Prop := t = end_of true ∨ t = Exit 1.

Lemma wlp_echo_service v2 fuel s :
  wlp (echo_service v2 fuel) (λ (_ : unit) _, False)
    (λ t s', left_parent s t s' ∨ not_started t ∨ echo_served v2 p0 s (λ lfd, turn_stopped v2 lfd t) s')
    (λ s', echo_served v2 p0 s (λ lfd l, l = [] ∨ echo_child lfd l (λ cfd, copying cfd ECHO_SIZE id cfd)) s') s.
Proof using.
  unfold echo_service. apply wlp_bind, wp_wlp. eapply wp_mono; [apply (wp_becomeDaemon 0 p0)| |by left].
  intros d s1 (l & Ha & Hd & Hdaemon).
  destruct (Z.eqb_spec d (-1)) as [E|E].
  { apply wp_wlp, wp_errExit. intros s2 _ _ _. right. left. by left. }
  destruct Hdaemon as (m & Hdm & Hask); [lia|].
  apply wlp_bind, wp_wlp. eapply wp_act; [exact Ha|done|]. intros a s2 _ H2 _ _.
  assert (∀ x y l s3 (Q : unit → st S → Prop) F, acted s l s3 → wlp (syslog_errno LOG_ERR x y;; stop_with (Exit 1)) Q
    (λ t s', left_parent s t s' ∨ not_started t ∨ echo_served v2 p0 s (λ lfd, turn_stopped v2 lfd t) s') F s3) as Hfail.
  { intros x y l' s3 Q F Hl'. apply wp_wlp, wp_bind. eapply wp_syslog_errno; [exact Hl'|]. intros q s4 _. apply wp_stop. right. left. by right. }
  destruct (rv a =? -1); [by eapply Hfail|].
  apply wlp_bind, wp_wlp. eapply wp_mono; [apply inetPassiveSocket_correct| |done].
  intros [lfd len] s3 (r & k & Hk & Hlen). cbn [fst]. pose proof (acted_app _ _ _ _ _ H2 (since_acted _ _ _ Hk)) as H3.
  destruct (Z.eqb_spec lfd (-1)) as [El|El]; [by eapply Hfail|].
  destruct len as [n|]; [|by destruct Hlen as [? _]]. destruct Hlen as (_ & Hopen & Hlisten & _).
  eapply wlp_mono; [eapply wlp_echo_loop; [exact H3|]|done|by right; right|done].
  exists l, m, a. eexists. split; [done|]. split; [done|]. split; [done|]. split; [done|]. by apply Hlisten.
Qed.
End Services.


(** ** From the client and back *)

Section RoundTrip.
Context {S : Type} `{os}.
Implicit Types s : st S.

Lemma wp_relay_source content budget fuel src dst s :
  Source src content budget → (length content < fuel)%nat → taken src (trace s) = [] →
  wp (relay fuel src dst) (λ _ s', ∃ l, acted s l s' ∧ put_to dst l = content)
    (λ t s', t = Exit 1 ∧ ∃ l, acted s l s' ∧ put_to dst l `prefix_of` content ∧ went_wrong dst l) s.
Proof using.
  intros Hsrc Hfuel Ht. unfold relay. apply wp_bind. eapply wp_copy_loop; [done|exact Hsrc|by rewrite Ht| |].
  - intros z s1 (l & Ha & Hp & Hz). rewrite Ht, list_fmap_id in *. cbn [length drop] in Hz.
    destruct Hz as [[-> Hz]|(-> & Hz & Hw)]; cbn [Z.eqb Pos.eqb when].
    + apply wp_ret. exists l. by rewrite Hp.
    + apply wp_bind. eapply wp_syslog_errno; [exact Ha|]. intros q s2 Ha2. apply wp_stop. split; [done|]. eexists. split; [exact Ha2|].
      rewrite put_to_other, Hp by done. split; [done|]. apply went_wrong_app. auto.
  - intros s1 (l & got & Ha & Hpre & Hp & Hw). rewrite Ht, list_fmap_id in *. cbn [length drop] in Hpre.
    apply wp_bind. eapply wp_syslog_errno; [exact Ha|]. intros q s2 Ha2. apply wp_stop. split; [done|]. eexists. split; [exact Ha2|].
    rewrite put_to_other, Hp by done. split; [done|]. apply went_wrong_app. auto.
Qed.

Lemma wp_echo_send content budget fuel sfd s :
  Source 0 content budget → (length content < fuel)%nat → taken 0 (trace s) = [] →
  wp (echo_send fuel sfd) (λ (_ : unit) _, False)
    (λ t s', ∃ l, acted s l s' ∧ put_to sfd l `prefix_of` content ∧ (put_to sfd l = content ∨ went_wrong sfd l)) s.
Proof using.
  intros Hsrc Hfuel Ht. unfold echo_send. apply wp_bind. eapply wp_copy_loop; [done|exact Hsrc|by rewrite Ht| |].
  - intros z s1 (l & Ha & Hp & Hz). rewrite Ht, list_fmap_id in *. cbn [length drop] in Hz.
    apply wp_bind. eapply wp_act; [exact Ha|done|]. intros r s2 _ Ha2 _ _.
    assert (put_to sfd (l ++ [(Cextern "shutdown" [sfd; SHUT_WR] [], r)]) `prefix_of` content ∧
      (put_to sfd (l ++ [(Cextern "shutdown" [sfd; SHUT_WR] [], r)]) = content ∨ went_wrong sfd (l ++ [(Cextern "shutdown" [sfd; SHUT_WR] [], r)]))) as Hpost.
    { rewrite put_to_other, Hp by done. destruct Hz as [[_ ->]|(_ & Hz & Hw)]; [auto|]. split; [done|]. right. apply went_wrong_app. auto. }
    apply wp_bind. destruct (rv r =? -1); cbn [when].
    + eapply wp_act_errExit; [exact Ha2|]. intros s3 Ha3. eauto.
    + apply wp_ret, wp_stop. eauto.
  - intros s1 (l & got & Ha & Hpre & Hp & Hw). rewrite Ht, list_fmap_id in *. cbn [length drop] in Hpre.
    apply wp_fatal. intros s2 Hg2 Hacts. exists l. split; [by eapply acted_same|]. rewrite Hp. auto.
Qed.

(** What the child of the client prints. *)
Lemma wp_echo_print content budget fuel sfd s :
  Source sfd content budget → (length content < fuel)%nat → taken sfd (trace s) = [] → NUL ∉ content →
  wp (echo_print fuel sfd) (λ (_ : unit) _, False)
    (λ t s', t = Exit 0 ∧ ∃ l, acted s l s' ∧ said Stdout (trace s') = said Stdout (trace s) ++ got_from sfd l ∧
       got_from sfd l `prefix_of` content ∧ (got_from sfd l = content ∨ went_wrong sfd l)) s.
Proof using.
  intros Hsrc Hfuel Ht Hnul. unfold echo_print. apply wp_bind.
  apply (wp_loop (λ _ s', ∃ l, acted s l s' ∧ said Stdout (trace s') = said Stdout (trace s) ++ got_from sfd l ∧ got_from sfd l `prefix_of` content)
    (λ _ s', length content - length (taken sfd (trace s')))%nat).
  { exists []. rewrite app_nil_r. split; [apply acted_refl|]. split; [done|apply prefix_nil]. }
  { lia. }
  intros [] s1 (l & Ha & Hs & Hpre). pose proof (acted_taken sfd _ _ _ Ha) as Htk. rewrite Ht in Htk. cbn [app] in Htk.
  apply wp_bind. eapply wp_act; [exact Ha|done|]. intros r s2 Hr Ha2 _ Ht2.
  pose proof (source_reply (trace s1) CL_SIZE ltac:(done)) as Hlaw. cbv zeta in Hlaw. rewrite <-Hr, Htk in Hlaw.
  pose proof (got_from_read sfd l CL_SIZE r) as Hgot.
  assert (said Stdout (trace s2) = said Stdout (trace s) ++ got_from sfd l) as Hs2 by by rewrite Ht2, said_sys.
  destruct (Z.leb_spec (rv r) 0) as [Hle|Hpos].
  - rewrite (proj2 (Z.ltb_ge _ _)), app_nil_r in Hgot by done. apply wp_ret, wp_stop. split; [done|]. eexists. split; [exact Ha2|].
    rewrite Hgot. split; [done|]. split; [done|]. destruct Hlaw as [[Hz _]|(Hz & _ & _ & Hend)].
    + right. apply went_wrong_last. auto.
    + left. assert (rv r = 0) as Hz0 by (unfold strlen in Hz; lia).
      destruct Hpre as [k Hk]; rewrite Hk, drop_app_length in Hend; by rewrite Hk, Hend, app_nil_r.
  - destruct Hlaw as [[? _]|(Hl & _ & Hdata & _)]; [lia|].
    assert (data_of r = rdata r) as -> by (unfold data_of; rewrite Hl; unfold strlen; rewrite Nat2Z.id; by apply take_ge).
    rewrite (proj2 (Z.ltb_lt _ _)) in Hgot by done.
    assert (got_from sfd l ++ rdata r `prefix_of` content) as Hmore by by apply prefix_next.
    assert (NUL ∉ rdata r) as Hn.
    { intros Hin. apply Hnul. destruct Hmore as [k ->]. rewrite !elem_of_app. auto. }
    rewrite (c_str_id _ Hn). apply wp_bind, wp_emit, wp_ret.
    pose proof (acted_same _ _ (St (glob s2) (errno s2) (trace s2 ++ [Eout Stdout (rdata r)])) _ Ha2 (acts_out _ _ _) eq_refl) as Ha3. split.
    + exists (l ++ [(Cread sfd CL_SIZE, r)]). split; [exact Ha3|]. cbn [trace]. rewrite said_out, Hs2, Hgot, app_assoc. done.
    + rewrite (acted_taken sfd _ _ _ Ha3), Ht, Htk, Hgot. apply prefix_length in Hmore. rewrite !length_app in *. cbn.
      unfold strlen in Hl. lia.
Qed.
End RoundTrip.

(** C15: what is typed at the client comes back.  On any three systems: the
    client's parent ends and has sent a first part of its input; the server's
    child, given that, ends and has sent back a first part of it; and the
    client's child, given that, ends with success and has printed a first part
    of what was typed: all of it, unless in one of the three processes a call
    failed or took less than it was given.  (For text: %.*s stops at a NUL.) *)
Theorem echo_roundtrip {S S' S''} (Kp Kv Kc : os) content budget fuel sfd (p : st S) (v : st S') (c : st S'') :
  NUL ∉ content → (length content < fuel)%nat → @Source Kp 0 content budget → taken 0 (trace p) = [] →
  ∃ tp p' lp, @echo_send S Kp fuel sfd p = (Stop tp, p') ∧ acted p lp p' ∧ put_to sfd lp `prefix_of` content ∧
  ∀ cfd, @Source Kv cfd (put_to sfd lp) budget → taken cfd (trace v) = [] →
  ∃ o v' lv, @handleRequest S' Kv fuel cfd v = (o, v') ∧ acted v lv v' ∧ (o = Ret tt ∨ o = Stop (Exit 1)) ∧
    put_to cfd lv `prefix_of` put_to sfd lp ∧
  ∀ rfd, @Source Kc rfd (put_to cfd lv) budget → taken rfd (trace c) = [] →
  ∃ c' lc printed, @echo_print S'' Kc fuel rfd c = (Stop (Exit 0), c') ∧ acted c lc c' ∧
    said Stdout (trace c') = said Stdout (trace c) ++ printed ∧ printed `prefix_of` content ∧
    (printed = content ∨ went_wrong sfd lp ∨ went_wrong cfd lv ∨ went_wrong rfd lc).
Proof.
  intros Hnul Hfuel Hsrc Ht.
  destruct (wp_run _ _ _ _ (@wp_echo_send S Kp content budget fuel sfd p Hsrc Hfuel Ht)) as [(? & ? & _ & [])|(tp & p' & Hrun & lp & Hap & Hp & Hpw)].
  exists tp, p', lp. split; [done|]. split; [done|]. split; [done|]. intros cfd Hsv Htv. pose proof (prefix_length _ _ Hp) as Hlen.
  assert (∃ o v' lv, @handleRequest S' Kv fuel cfd v = (o, v') ∧ acted v lv v' ∧ (o = Ret tt ∨ o = Stop (Exit 1)) ∧
    put_to cfd lv `prefix_of` put_to sfd lp ∧ (put_to cfd lv = put_to sfd lp ∨ went_wrong cfd lv)) as (o & v' & lv & Hrv & Hav & Ho & Hpv & Hvw).
  { destruct (wp_run _ _ _ _ (@wp_relay_source S' Kv (put_to sfd lp) budget fuel cfd cfd v Hsv ltac:(lia) Htv))
      as [([] & v' & Hrv & lv & Hav & Heq)|(t & v' & Hrv & -> & lv & Hav & Hpre & Hw)]; do 3 eexists; (split; [exact Hrv|]); (split; [exact Hav|]).
    - rewrite Heq. auto.
    - auto. }
  exists o, v', lv. split; [done|]. split; [done|]. split; [done|]. split; [done|]. intros rfd Hsc Htc. pose proof (prefix_length _ _ Hpv) as Hlen2.
  assert (NUL ∉ put_to cfd lv) as Hn2.
  { intros Hin. apply Hnul. assert (put_to cfd lv `prefix_of` content) as [k ->] by by etrans. apply elem_of_app. auto. }
  destruct (wp_run _ _ _ _ (@wp_echo_print S'' Kc (put_to cfd lv) budget fuel rfd c Hsc ltac:(lia) Htc Hn2))
    as [(? & ? & _ & [])|(t & c' & Hrc & -> & lc & Hac & Hs & Hpc & Hcw)].
  exists c', lc, (got_from rfd lc). split; [done|]. split; [done|]. split; [done|]. split; [by etrans; [|etrans]|].
  destruct Hpw as [Hpw|?]; [|auto]. destruct Hvw as [Hvw|?]; [|auto]. destruct Hcw as [Hcw|?]; [|auto].
  left. by rewrite Hcw, Hvw.
Qed.

(** ** Datagrams *)

(** A datagram and its echo, and what is logged when that did not go out
    whole. *)
Definition udp_echoed (sfd : Z) (l : list (call * reply)) : Prop :=
  ∃ r w rest, l = (Crecvfrom sfd UDP_SIZE, r) :: (Csendto sfd (data_of r) (from_addr r), w) :: rest ∧ rv r ≠ -1 ∧
    (rv w = rv r ∧ rest = [] ∨
     rv w ≠ rv r ∧ ∃ n text q, rest = [(Cgetnameinfo (from_addr r) NI_NUMERICSERV, n); (Cextern "syslog" [LOG_WARNING] text, q)]).

(** The start of the server for datagrams. *)
Definition bound (p0 : proc) (sfd : Z) (l0 : list (call * reply)) : Prop :=
  ∃ ld m k, l0 = ld ++ quietly k ∧ daemonized 0 p0 m (proc_after p0 ld) ∧ asked_limit 0 m ld ∧ left_open k = [sfd].

Definition udp_served (p0 : proc) {S} (s : st S) (last : Z → list (call * reply) → Prop) (s' : st S) : Prop :=
  ∃ sfd l0 ls l, acted s (l0 ++ concat ls ++ l) s' ∧ bound p0 sfd l0 ∧ Forall (udp_echoed sfd) ls ∧ last sfd l.

Section UdpSpecs.
Context {S : Type} `{os}.
Implicit Types s : st S.

Lemma wp_udp_echo_turn sfd s0 l s :
  acted s0 l s →
  wp (udp_echo_turn sfd) (λ x s', x = inl tt ∧ ∃ k, acted s0 (l ++ k) s' ∧ udp_echoed sfd k)
    (λ t s', t = end_of true ∧ ∃ r, acted s0 (l ++ [(Crecvfrom sfd UDP_SIZE, r)]) s' ∧ rv r = -1) s.
Proof using.
  intros Ha0. unfold udp_echo_turn. apply wp_bind. eapply wp_act; [exact Ha0|done|]. intros r s1 _ H1 _ _.
  destruct (Z.eqb_spec (rv r) (-1)) as [E|E].
  { eapply wp_act_errExit; [exact H1|]. intros s2 H2. split; [done|]. eauto. }
  apply wp_bind. eapply wp_act; [exact H1|done|]. intros w s2 _ H2 _ _. rewrite <-app_assoc in H2. cbn [app] in H2.
  apply wp_bind. destruct (Z.eqb_spec (rv w) (rv r)) as [Ew|Ew]; cbn [negb].
  - apply wp_ret, wp_ret. split; [done|]. eexists. split; [exact H2|]. exists r, w, []. auto.
  - apply wp_bind, wp_bind. eapply wp_act; [exact H2|done|]. intros n s3 _ H3 _ _. rewrite <-app_assoc in H3. cbn [app] in H3.
    apply wp_ret. eapply wp_syslog_errno; [exact H3|]. intros q s4 H4. rewrite <-app_assoc in H4. cbn [app] in H4. apply wp_ret. split; [done|].
    eexists. split; [exact H4|]. exists r, w. eexists. split; [done|]. split; [done|]. right. eauto.
Qed.

(** A socket whose peer sends back what it was sent, as far as the buffer
    goes. *)
Class Echoes (sfd : Z) := echoes : ∀ tr m w,
  let r := kern (tr ++ [Esys (Cwrite sfd m) w]) (Cread sfd UDP_SIZE) in
  rv r = -1 ∨ rdata r = take (Z.to_nat UDP_SIZE) m ∧ rv r = strlen (rdata r).

(** What the client prints of an answer. *)
Definition response_line (m : cstr) : cstr :=
  let a := take (Z.to_nat UDP_SIZE) m in str "[" ++ dec (strlen a) ++ str " bytes] " ++ a ++ [NL].

Lemma reports_say_nothing tr tr' : ran reports tr tr' → said Stdout tr' = said Stdout tr.
Proof using.
  induction 1 as [|tr' c _ IH _|tr' f t _ IH Hf]; [done|by rewrite said_sys|]. cbn in Hf. subst f. rewrite said_app, IH. apply app_nil_r.
Qed.

Lemma wp_inetConnect_says host service type s (Q : Z → st S → Prop) E :
  (∀ fd s', said Stdout (trace s') = said Stdout (trace s) → Q fd s') → wp (inetConnect host service type) Q E s.
Proof using.
  intros HQ. unfold inetConnect. apply wp_bind, wp_call. intros r s1 _ _ _ _ Ht.
  assert (said Stdout (trace s1) = said Stdout (trace s)) as Hs by by rewrite Ht, said_sys. clear Ht.
  destruct (rv r =? 0); cbn [negb]; [|by apply wp_bind, wp_set_errno, wp_ret, HQ].
  apply wp_bind. revert s1 Hs. induction (results r) as [|rp l IH]; intros s1 Hs; cbn [connect_first]; [by apply wp_ret, wp_ret, HQ|].
  apply wp_bind, wp_call. intros sk s2 _ _ _ _ Ht2. assert (said Stdout (trace s2) = said Stdout (trace s)) as Hs2 by by rewrite Ht2, said_sys.
  destruct (rv sk =? -1); [by apply IH|].
  apply wp_bind, wp_call. intros c s3 _ _ _ _ Ht3. assert (said Stdout (trace s3) = said Stdout (trace s)) as Hs3 by by rewrite Ht3, said_sys.
  destruct (rv c =? -1); cbn [negb]; [|by apply wp_ret, wp_ret, HQ].
  apply wp_bind, wp_call. intros k s4 _ _ _ _ Ht4. apply IH. by rewrite Ht4, said_sys.
Qed.

(** The messages told so far. *)
Definition told_of (msgs : list cstr) s (t : stop) s' : Prop :=
  ∃ told rest, msgs = told ++ rest ∧ said Stdout (trace s') = said Stdout (trace s) ++ concat (response_line <$> told) ∧
    (t = Exit 0 ∧ rest = [] ∨ t = end_of true).

Lemma told_ends {A} msgs told rest s s1 (m : M S A) (Q : A → st S → Prop) :
  (∀ Q' E', (∀ s', ran reports (trace s1) (trace s') → glob s' = glob s1 → E' (end_of true) s') → wp m Q' E' s1) →
  msgs = told ++ rest → said Stdout (trace s1) = said Stdout (trace s) ++ concat (response_line <$> told) → wp m Q (told_of msgs s) s1.
Proof using.
  intros Hm Hmsgs Hs. apply Hm. intros s' Hran _. exists told, rest. split; [done|]. rewrite (reports_say_nothing _ _ Hran). auto.
Qed.
End UdpSpecs.

(** The datagram service, on any system.  The server is a daemon by the time
    it has its socket; then it sends each datagram it receives, as far as its
    buffer goes, to where it came from, logs when that fails, and stops only when
    receiving fails.  The client, with a server that does so, prints its messages
    in turn, or stops with failure after some of them. *)
Theorem udp_echo_correct {S} (K : os) p0 fuel host prog msgs (s : st S) :
  wlp (id_echo_sv_main fuel) (λ _ _, False)
    (λ t s', left_parent s t s' ∨ not_started t ∨
       t = end_of true ∧ udp_served p0 s (λ sfd l, ∃ r, l = [(Crecvfrom sfd UDP_SIZE, r)] ∧ rv r = -1) s')
    (udp_served p0 s (λ _ l, l = [])) s ∧
  (host ≠ str "--help" → (∀ sfd, Echoes sfd) → Forall (λ m, NUL ∉ m) msgs →
   wp (id_echo_cl_main (prog :: host :: msgs)) (λ _ _, False)
     (told_of msgs s) s).
Proof.
  split.
  - unfold id_echo_sv_main. apply wlp_bind, wp_wlp. eapply wp_mono; [apply (wp_becomeDaemon 0 p0)| |by left].
    intros d s1 (l & Ha & Hd & Hdaemon).
    destruct (Z.eqb_spec d (-1)) as [E|E].
    { apply wp_wlp, wp_errExit. intros s2 _ _ _. right. left. by left. }
    destruct Hdaemon as (m & Hdm & Hask); [lia|].
    apply wlp_bind, wp_wlp. eapply wp_mono; [apply inetPassiveSocket_correct| |done].
    intros [sfd len] s3 (r & k & Hk & Hlen). cbn [fst]. pose proof (acted_app _ _ _ _ _ Ha (since_acted _ _ _ Hk)) as H3.
    destruct (Z.eqb_spec sfd (-1)) as [El|El].
    { apply wp_wlp, wp_bind. eapply wp_syslog_errno; [exact H3|]. intros q s4 _. apply wp_stop. right. left. by right. }
    destruct len as [n|]; [|by destruct Hlen as [? _]]. destruct Hlen as (_ & Hopen & _ & _).
    set (l0 := l ++ quietly _) in *. assert (bound p0 sfd l0) as Hbound by (exists l, m; eexists; done).
    apply (wlp_loop (λ _ s', ∃ ls, acted s (l0 ++ concat ls) s' ∧ Forall (udp_echoed sfd) ls)).
    + exists []. cbn [concat]. rewrite app_nil_r. split; [done|by apply Forall_nil_2].
    + intros _ s' (ls & Hls & Hall). exists sfd, l0, ls, []. rewrite app_nil_r. auto.
    + intros [] s4 (ls & Hls & Hall). apply wp_wlp. eapply wp_mono; [by apply wp_udp_echo_turn| |].
      * intros y s5 (-> & x & Hx & He). exists (ls ++ [x]). rewrite concat_app. cbn [concat]. rewrite app_nil_r, app_assoc.
        split; [done|]. apply Forall_app. auto.
      * intros t s5 (-> & x & Hx & He). right. right. split; [done|]. exists sfd, l0, ls. eexists. rewrite app_assoc. split; [exact Hx|]. eauto.
  - intros Hhost Hecho Hnul. unfold id_echo_cl_main. apply wp_bind. rewrite (proj2 (streq_false _ _)) by done. apply wp_ret.
    apply wp_bind, wp_inetConnect_says. intros sfd s1 Hs1.
    assert (said Stdout (trace s1) = said Stdout (trace s) ++ concat (response_line <$> [])) as Hnone by by rewrite app_nil_r.
    destruct (sfd =? -1).
    { eapply (told_ends msgs [] msgs); [|done|exact Hnone]. intros Q' E'. apply wp_fatal_ran. }
    apply wp_bind. eapply (wp_mono _ (λ _ s', said Stdout (trace s') = said Stdout (trace s) ++ concat (response_line <$> msgs)) _ (told_of msgs s)).
    + apply (wp_for_each (λ told s', said Stdout (trace s') = said Stdout (trace s) ++ concat (response_line <$> told))); [exact Hnone|].
      intros told m todo s2 Hmsgs Hs2. rewrite Hmsgs, Forall_app, Forall_cons in Hnul. destruct Hnul as (_ & Hm & _).
      apply wp_bind, wp_call. intros w s3 _ _ _ _ Ht3. assert (said Stdout (trace s3) = said Stdout (trace s2)) as Hs3 by by rewrite Ht3, said_sys.
      apply wp_bind. destruct (rv w =? strlen m); cbn [negb when].
      2: { eapply (told_ends msgs told); [|exact Hmsgs|by rewrite Hs3]. intros Q' E'. apply wp_fatal_ran. }
      apply wp_ret, wp_bind, wp_call. intros r s4 Hr _ _ _ Ht4. assert (said Stdout (trace s4) = said Stdout (trace s2)) as Hs4 by by rewrite Ht4, said_sys.
      pose proof (Hecho sfd (trace s2) m w) as He. cbv zeta in He. rewrite <-Ht3, <-Hr in He.
      apply wp_bind. destruct (Z.eqb_spec (rv r) (-1)) as [E|E]; cbn [when].
      { eapply (told_ends msgs told); [|exact Hmsgs|by rewrite Hs4]. intros Q' E'. apply wp_errExit_ran. }
      apply wp_ret, wp_emit. cbn [trace]. destruct He as [?|[Hd Hl]]; [done|].
      rewrite said_out, Hs4, Hs2, fmap_app, concat_app, <-app_assoc. f_equal. f_equal. cbn. rewrite app_nil_r. unfold response_line.
      assert (data_of r = take (Z.to_nat UDP_SIZE) m) as ->.
      { unfold data_of. rewrite Hl. unfold strlen. rewrite Nat2Z.id, take_ge by done. done. }
      rewrite Hl, Hd, c_str_id; [done|]. intros Hin. apply Hm. by eapply subseteq_take.
    + intros [] s2 Hs2. apply wp_stop. exists msgs, []. rewrite app_nil_r. auto.
    + done.
Qed.

(** ** Witnesses and examples *)

(** A system where a process comes out of fork as the child, opens get the
    lowest descriptor, and names resolve to one address. *)
Definition daemon_os (content : cstr) : os := test_os (λ tr c,
  match c with
  | Cfork | Copen _ _ _ => ok 0
  | Cdup2 _ fd => ok fd
  | Csysconf_open_max => ok 8
  | Cgetaddrinfo _ _ _ _ => Reply 0 0 [] [(le32 2 ++ le32 1 ++ le32 0 ++ str "here", 16)]
  | Csocket _ _ _ => ok 3
  | Caccept _ => ok 4
  | Csendto _ bs _ => ok (strlen bs)
  | Crecvfrom _ _ => Reply 2 0 (str "hi") [(str "client", 16)]
  | Cread _ _ | Cwrite _ _ => @kern (chunked 0 content 4) tr c
  | _ => ok 0
  end).

Definition a_process : proc := Proc true true (<[7 := str "tty"]> ∅) 18 (str "/home").


(** The child of the server echoes, ends well, and is a daemon. *)
Example echo_run :
  let r := @is_echo_sv_main unit (daemon_os (str "hello world")) 20 (init tt) in
  r.1 = Stop (FastExit 0) ∧ put_to 4 (acts (trace r.2)) = str "hello world" ∧
  let p := proc_after a_process (acts (trace r.2)) in
  session_leader p = false ∧ has_terminal p = false ∧ open_files p !! 7 = None ∧ open_files p !! 1 = dev_null ∧ cwd p = str "/".
Proof. by vm_compute. Qed.

Lemma echo_roundtrip_witness :
  let o := chunked 0 (str "hello world") 4 in
  ∃ c', @echo_print unit o 20 5 (init tt) = (Stop (Exit 0), c') ∧ said Stdout (trace c') = str "hello world".
Proof.
  intros o.
  destruct (@echo_roundtrip unit unit unit o o o (str "hello world") 0 20 3 (init tt) (init tt) (init tt)
    ltac:(by apply (bool_decide_unpack _)) ltac:(simpl; lia) (chunked_source 0 _ 4 0 ltac:(lia)) eq_refl)
    as (tp & p' & lp & Hrp & Hap & Hpre & Hv).
  assert (put_to 3 lp = str "hello world") as Hlp.
  { destruct Hap as [Ha _]. change (acts (trace p') = lp) in Ha. rewrite <-Ha. change p' with (Stop (A:=unit) tp, p').2. rewrite <-Hrp. by vm_compute. }
  rewrite Hlp in Hv. destruct (Hv 4 (chunked_source 0 _ 4 4 ltac:(lia)) eq_refl) as (ov & v' & lv & Hrv & Hav & _ & _ & Hc).
  assert (put_to 4 lv = str "hello world") as Hlv.
  { destruct Hav as [Ha _]. change (acts (trace v') = lv) in Ha. rewrite <-Ha. change v' with (ov, v').2. rewrite <-Hrv. by vm_compute. }
  rewrite Hlv in Hc. destruct (Hc 5 (chunked_source 0 _ 4 5 ltac:(lia)) eq_refl) as (c' & lc & printed & Hrc & _ & Hs & _ & _).
  exists c'. split; [exact Hrc|]. change c' with (Stop (A:=unit) (Exit 0), c').2. rewrite <-Hrc. by vm_compute.
Defined.

(** A peer that sends datagrams back. *)
Definition udp_os : os := test_os (λ tr c,
  match c with
  | Cread _ n => match last tr with Some (Esys (Cwrite _ m) _) => let a := take (Z.to_nat n) m in Reply (strlen a) 0 a [] | _ => fail EAGAIN end
  | Cwrite _ bs => ok (strlen bs)
  | _ => @kern (daemon_os []) tr c
  end).

Lemma udp_os_echoes sfd : @Echoes udp_os sfd.
Proof. intros tr m w. cbn [kern udp_os test_os]. rewrite last_snoc. by right. Qed.

Lemma udp_echo_witness :
  wp (@id_echo_cl_main unit udp_os [str "cl"; str "host"; str "one"; str "two"]) (λ _ _, False) (@told_of unit udp_os [str "one"; str "two"] (init tt)) (init tt).
Proof.
  apply (proj2 (@udp_echo_correct unit udp_os a_process 9 (str "host") (str "cl") [str "one"; str "two"] (init tt)));
    [by vm_compute|apply udp_os_echoes|repeat constructor; by apply (bool_decide_unpack _)].
Defined.

Example udp_client_run :
  let r := @id_echo_cl_main unit udp_os [str "cl"; str "host"; str "one"; str "two"] (init tt) in
  r.1 = Stop (Exit 0) ∧ said Stdout (trace r.2) = str "[3 bytes] one" ++ [NL] ++ str "[3 bytes] two" ++ [NL].
Proof. by vm_compute. Qed.
