(* ===== verification/CaseChange.v ===== *)
(** Programs that change the case of text: servers and clients for datagrams
    (tlpi-book/sockets: ud_ucase_sv.c, ud_ucase_cl.c, i6d_ucase_sv.c,
    i6d_ucase_cl.c), and filters between pipes (tlpi-book/pipes/change_case.c,
    simple_pipe.c, which changes nothing, and homework/hw6/6-1/toUpper.c).

    The datagram servers share a turn; the filters are the copying loop with a
    change on the way. *)
From S2P Require Import Prelude Sys Rdwrn ErrorFns Dict Sockets ShellRun SvmsgFile Copy.

(** toupper(3) in the C locale. *)
Definition toupper (c : ascii) : ascii := if (97 <=? code c) && (code c <=? 122) then chr (code c - 32) else c.

(** ** Datagrams *)

Definition UC_SIZE : Z := 10.
Definition UD_SV_SOCK_PATH : cstr := str "/tmp/ud_ucase".
Definition I6_PORT : Z := 50002.
Definition AF_INET6 : Z := 10.

(** struct sockaddr_in6: the port in network byte order. *)
Definition sockaddr_in6 (addr : cstr) (port : Z) : cstr :=
  le16 AF_INET6 ++ [chr (port / 256); chr port] ++ replicate 4 NUL ++ addr ++ replicate 4 NUL.
Definition in6addr_any : cstr := replicate 16 NUL.
Definition sin6_addr (a : cstr) : cstr := take 16 (drop 8 a).
Definition sin6_port (a : cstr) : Z := match drop 2 a with h :: l :: _ => 256 * code h + code l | _ => 0 end.

Section Datagrams.
Context {S : Type} `{os}.

(** The address of the sender. *)
Definition from_whom (r : reply) : cstr := match rents r with (a, _) :: _ => a | [] => [] end.

(** A turn of the loop: [claddr] is the structure the address is stored in,
    [report] the line printed for a datagram. *)
Definition ucase_turn (report : Z → cstr → M S unit) (sfd : Z) (claddr : cstr) : M S (cstr + unit) :=
  r ← sys (Crecvfrom sfd UC_SIZE);
  if rv r =? -1 then errExit (str "recvfrom") else
  let claddr := overlay (from_whom r) claddr in
  report (rv r) claddr;;
  w ← sys (Csendto sfd (toupper <$> data_of r) (from_whom r));
  if negb (rv w =? rv r) then fatal (str "sendto") else
  mret (inl claddr).

Definition ud_report (numBytes : Z) (claddr : cstr) : M S unit :=
  if decide (NUL ∈ drop 2 claddr) then
    out Stdout (str "Server received " ++ dec numBytes ++ str " bytes from " ++ c_str (drop 2 claddr) ++ [NL])
  else stop_with (Undefined "unterminated path").

Definition ud_ucase_sv_main (fuel : nat) (claddr : cstr) : M S unit :=
  s ← sys (Csocket AF_UNIX SOCK_DGRAM 0);
  if rv s =? -1 then errExit (str "socket") else
  remove_path UD_SV_SOCK_PATH;;
  b ← sys (Cbind (rv s) (sun_address UD_SV_SOCK_PATH));
  if rv b =? -1 then errExit (str "bind") else
  loop fuel (ucase_turn ud_report (rv s)) claddr.

(** inet_ntop: the text of the address, or -1 for a null pointer. *)
Definition i6d_report (numBytes : Z) (claddr : cstr) : M S unit :=
  t ← sys (Cextern "inet_ntop" [AF_INET6] (sin6_addr claddr));
  if rv t =? -1 then out Stdout (str "Couldn't convert client address to string" ++ [NL])
  else out Stdout (str "Server received " ++ dec numBytes ++ str " bytes from (" ++ c_str (rdata t) ++ str ", " ++ dec (sin6_port claddr) ++ str ")" ++ [NL]).

Definition i6d_ucase_sv_main (fuel : nat) (claddr : cstr) : M S unit :=
  s ← sys (Csocket AF_INET6 SOCK_DGRAM 0);
  if rv s =? -1 then errExit (str "socket") else
  b ← sys (Cbind (rv s) (sockaddr_in6 in6addr_any I6_PORT));
  if rv b =? -1 then errExit (str "bind") else
  loop fuel (ucase_turn i6d_report (rv s)) claddr.

(** The clients' loop over the messages, numbered from 1. *)
Fixpoint ask_all (sfd : Z) (svaddr : cstr) (j : Z) (msgs : list cstr) : M S unit :=
  match msgs with
  | [] => mret tt
  | msg :: msgs =>
      w ← sys (Csendto sfd msg svaddr);
      if negb (rv w =? strlen msg) then fatal (str "sendto") else
      r ← sys (Crecvfrom sfd UC_SIZE);
      if rv r =? -1 then errExit (str "recvfrom") else
      out Stdout (str "Response " ++ dec j ++ str ": " ++ c_str (data_of r) ++ [NL]);;
      ask_all sfd svaddr (j + 1) msgs
  end.

Definition ud_client_path (pid : Z) : cstr := snprintf 108 (str "/tmp/ud_ucase_cl." ++ dec pid).

Definition ud_ucase_cl_main (argv : list cstr) : M S unit :=
  let usage := usageErr (default [] (argv !! 0%nat) ++ str " msg..." ++ [NL]) in
  match argv with
  | _ :: ((m :: _) as msgs) =>
      when (streq m (str "--help")) usage;;
      s ← sys (Csocket AF_UNIX SOCK_DGRAM 0);
      if rv s =? -1 then errExit (str "socket") else
      pid ← sys Cgetpid;
      let path := ud_client_path (rv pid) in
      b ← sys (Cbind (rv s) (le16 AF_UNIX ++ path ++ replicate (SUN_PATH - length path) NUL));
      if rv b =? -1 then errExit (str "bind") else
      ask_all (rv s) (sun_address UD_SV_SOCK_PATH) 1 msgs;;
      sys (Cunlink path);;
      stop_with (Exit 0)
  | _ => usage
  end.

(** inet_pton: positive with the address stored, or not an address. *)
Definition i6d_ucase_cl_main (argv : list cstr) : M S unit :=
  let usage := usageErr (default [] (argv !! 0%nat) ++ str " host-address msg..." ++ [NL]) in
  match argv with
  | _ :: host :: ((_ :: _) as msgs) =>
      when (streq host (str "--help")) usage;;
      s ← sys (Csocket AF_INET6 SOCK_DGRAM 0);
      if rv s =? -1 then errExit (str "socket") else
      a ← sys (Cextern "inet_pton" [AF_INET6] host);
      if rv a <=? 0 then fatal (str "inet_pton failed for address '" ++ host ++ str "'") else
      ask_all (rv s) (sockaddr_in6 (rdata a) I6_PORT) 1 msgs;;
      stop_with (Exit 0)
  | _ => usage
  end.
End Datagrams.

(** ** Pipes *)

Definition CC_SIZE : Z := 100.
Definition SP_SIZE : Z := 10.

Section Pipes.
Context {S : Type} `{os}.

Definition close_or_exit (fd : Z) (msg : cstr) : M S unit :=
  k ← sys (Cclose fd);
  when (rv k =? -1) (errExit msg).

(** change_case.c *)
Definition change_case_child (fuel : nat) (outbound inbound : reply) : M S unit :=
  close_or_exit (pipe_write outbound) (str "close");;
  close_or_exit (pipe_read inbound) (str "close");;
  n ← copy_loop fuel (pipe_read outbound) CC_SIZE toupper (pipe_write inbound) (fatal (str "failed/partial write(): inbound pipe"));
  when (n =? -1) (errExit (str "read"));;
  stop_with (FastExit 0).

Definition change_case_turn (outbound inbound : reply) (_ : unit) : M S (unit + Z) :=
  r ← sys (Cread 0 CC_SIZE);
  if 0 <? rv r then
    w ← sys (Cwrite (pipe_write outbound) (data_of r));
    if negb (rv w =? rv r) then fatal (str "failed/partial write(): outbound pipe") else
    a ← sys (Cread (pipe_read inbound) CC_SIZE);
    if rv a =? -1 then errExit (str "read") else
    if rv a >? 0 then
      w ← sys (Cwrite 1 (data_of a));
      if negb (rv w =? rv a) then fatal (str "failed/partial write(): STDOUT_FILENO") else mret (inl tt)
    else mret (inl tt)
  else mret (inr (rv r)).

Definition change_case_parent (fuel : nat) (outbound inbound : reply) : M S unit :=
  close_or_exit (pipe_read outbound) (str "close");;
  close_or_exit (pipe_write inbound) (str "close");;
  n ← loop fuel (change_case_turn outbound inbound) tt;
  when (n =? -1) (errExit (str "read"));;
  stop_with (Exit 0).

Definition change_case_main (fuel : nat) : M S unit :=
  outbound ← sys Cpipe;
  if rv outbound =? -1 then errExit (str "pipe") else
  inbound ← sys Cpipe;
  if rv inbound =? -1 then errExit (str "pipe") else
  f ← sys Cfork;
  if rv f =? -1 then errExit (str "fork")
  else if rv f =? 0 then change_case_child fuel outbound inbound
  else change_case_parent fuel outbound inbound.

(** simple_pipe.c *)
Definition simple_pipe_child (fuel : nat) (pfd : reply) : M S unit :=
  close_or_exit (pipe_write pfd) (str "close - child");;
  n ← copy_loop fuel (pipe_read pfd) SP_SIZE id 1 (fatal (str "child - partial/failed write"));
  when (n =? -1) (errExit (str "read"));;
  sys (Cwrite 1 [NL]);;
  close_or_exit (pipe_read pfd) (str "close");;
  stop_with (FastExit 0).

Definition simple_pipe_parent (pfd : reply) (text : cstr) : M S unit :=
  close_or_exit (pipe_read pfd) (str "close - parent");;
  w ← sys (Cwrite (pipe_write pfd) text);
  when (negb (rv w =? strlen text)) (fatal (str "parent - partial/failed write"));;
  close_or_exit (pipe_write pfd) (str "close");;
  sys (Cwaitpid (-1) 0);;
  stop_with (Exit 0).

Definition simple_pipe_main (fuel : nat) (argv : list cstr) : M S unit :=
  let usage := usageErr (default [] (argv !! 0%nat) ++ str " string" ++ [NL]) in
  match argv with
  | [_; text] =>
      when (streq text (str "--help")) usage;;
      pfd ← sys Cpipe;
      if rv pfd =? -1 then errExit (str "pipe") else
      f ← sys Cfork;
      if rv f =? -1 then errExit (str "fork")
      else if rv f =? 0 then simple_pipe_child fuel pfd
      else simple_pipe_parent pfd text
  | _ => usage
  end.
End Pipes.

(** homework/hw6/6-1/toUpper.c: one array, used by both processes; after the
    fork each has its own. *)
Definition LINE_SIZE : Z := 1024.
Definition lower (c : ascii) : bool := (97 <=? code c) && (code c <=? 122).
Definition to_upper (c : ascii) : ascii := if lower c then chr (code c - 32) else c.

Section ToUpper.
Context {S : Type} `{os}.

Definition toUpper_child (pd_in pd_out : reply) (buf : cstr) : M S unit :=
  sys (Cclose (pipe_write pd_in));;
  sys (Cclose (pipe_read pd_out));;
  r ← sys (Cread (pipe_read pd_in) LINE_SIZE);
  let buf := overlay (data_of r) buf in
  sys (Cclose (pipe_read pd_in));;
  if decide (NUL ∈ buf) then
    let text := c_str buf in
    if decide (text = []) then stop_with (Undefined "write of -1 bytes") else
    sys (Cwrite (pipe_write pd_out) (removelast (to_upper <$> text)));;
    sys (Cclose (pipe_write pd_out));;
    stop_with (Exit 0)
  else stop_with (Undefined "no end of the string").

Definition toUpper_parent (pd_in pd_out : reply) (buf : cstr) : M S unit :=
  sys (Cclose (pipe_read pd_in));;
  sys (Cclose (pipe_write pd_out));;
  sys (Cwrite (pipe_write pd_in) buf);;
  sys (Cclose (pipe_write pd_in));;
  r ← sys (Cread (pipe_read pd_out) LINE_SIZE);
  let buf := overlay (data_of r) buf in
  sys (Cclose (pipe_read pd_out));;
  if decide (NUL ∈ buf) then
    out Stdout (c_str buf);;
    stop_with (Exit 0)
  else stop_with (Undefined "no end of the string").

Definition toUpper_main (buf : cstr) : M S unit :=
  g ← sys (Cfgets LINE_SIZE);
  let buf := if rv g =? 0 then buf else overlay (rdata g ++ [NUL]) buf in
  i ← sys Cpipe;
  if rv i =? -1 then perror (str "pipe error");; stop_with (Exit 255) else
  o ← sys Cpipe;
  if rv o =? -1 then perror (str "pipe error");; stop_with (Exit 255) else
  f ← sys Cfork;
  if rv f =? -1 then perror (str "fork error");; stop_with (Exit 0)
  else if rv f =? 0 then toUpper_child i o buf
  else toUpper_parent i o buf.
End ToUpper.

(** ** The servers, on any system *)

(** A datagram and its answer. *)
Definition answered (sfd : Z) (l : list (call * reply)) : Prop :=
  ∃ r w x, l = (Crecvfrom sfd UC_SIZE, r) :: x ++ [(Csendto sfd (toupper <$> data_of r) (from_whom r), w)] ∧ rv r ≠ -1 ∧ rv w = rv r ∧
    (∀ fd b a q, (Csendto fd b a, q) ∉ x).

(** The last one, which went wrong. *)
Definition unanswered (sfd : Z) (l : list (call * reply)) : Prop :=
  ∃ r, rv r = -1 ∧ l = [(Crecvfrom sfd UC_SIZE, r)] ∨
    ∃ w x, rv r ≠ -1 ∧ l = (Crecvfrom sfd UC_SIZE, r) :: x ++ [(Csendto sfd (toupper <$> data_of r) (from_whom r), w)] ∧ rv w ≠ rv r.

Definition no_datagrams (l : list (call * reply)) : Prop := ∀ x, x ∈ l → match x.1 with Csendto _ _ _ | Crecvfrom _ _ => False | _ => True end.

Definition ucase_served {S} (s : st S) (last : Z → list (call * reply) → Prop) (s' : st S) : Prop :=
  ∃ sfd l0 ls l, acted s (l0 ++ concat ls ++ l) s' ∧ no_datagrams l0 ∧ Forall (answered sfd) ls ∧ last sfd l.

Section ServerSpecs.
Context {S : Type} `{os} (report : Z → cstr → M S unit) (may_fail : Prop).

(** Reporting sends nothing and ends; that of a path may be undefined. *)
Definition reporting : Prop := ∀ n a s0 l (s : st S), acted s0 l s →
  wp (report n a) (λ _ s', ∃ x, acted s0 (l ++ x) s' ∧ ∀ fd b a q, (Csendto fd b a, q) ∉ x)
    (λ t s', may_fail ∧ t = Undefined "unterminated path" ∧ acted s0 l s') s.

(** How a server can stop. *)
Definition ucase_stopped (s : st S) (t : stop) (s' : st S) : Prop :=
  t = end_of true ∧ (ucase_served s unanswered s' ∨ ucase_served s (λ _ l, l = []) s') ∨
  may_fail ∧ t = Undefined "unterminated path" ∧ ucase_served s (λ sfd l, ∃ r, l = [(Crecvfrom sfd UC_SIZE, r)] ∧ rv r ≠ -1) s'.

Context (Hreport : reporting).

Lemma wp_ucase_turn sfd claddr s0 l (s : st S) :
  acted s0 l s →
  wp (ucase_turn report sfd claddr) (λ x s', (∃ a, x = inl a) ∧ ∃ k, acted s0 (l ++ k) s' ∧ answered sfd k)
    (λ t s', t = end_of true ∧ (∃ k, acted s0 (l ++ k) s' ∧ unanswered sfd k) ∨
       may_fail ∧ t = Undefined "unterminated path" ∧ ∃ r, acted s0 (l ++ [(Crecvfrom sfd UC_SIZE, r)]) s' ∧ rv r ≠ -1) s.
Proof using Hreport.
  intros Ha0. unfold ucase_turn. apply wp_bind. eapply wp_act; [exact Ha0|done|]. intros r s1 _ H1 _ _.
  destruct (Z.eqb_spec (rv r) (-1)) as [E|E].
  { eapply wp_act_errExit; [exact H1|]. intros s2 H2. left. split; [done|]. eexists. split; [exact H2|]. exists r. auto. }
  apply wp_bind. eapply wp_mono; [by apply Hreport| |intros t s2 (Hm & -> & H2); right; eauto].
  intros [] s2 (x & Hx & Hsend). apply wp_bind. eapply wp_act; [exact Hx|done|]. intros w s3 _ H3 _ _.
  rewrite <-!app_assoc in H3. cbn [app] in H3. destruct (Z.eqb_spec (rv w) (rv r)) as [Ew|Ew]; cbn [negb].
  - apply wp_ret. split; [eauto|]. eexists. split; [exact H3|]. exists r, w, x. auto.
  - apply wp_fatal. intros s4 Hg4 Hacts. left. split; [done|]. eexists. split; [by eapply acted_same|]. exists r. right. exists w, x. auto.
Qed.

Lemma wlp_ucase_loop fuel sfd claddr s0 l (s : st S) :
  acted s0 l s → no_datagrams l →
  wlp (loop fuel (ucase_turn report sfd) claddr) (λ (_ : unit) _, False) (ucase_stopped s0) (ucase_served s0 (λ _ l, l = [])) s.
Proof using Hreport.
  intros Ha0 Hl0. apply (wlp_loop (λ _ s', ∃ ls, acted s0 (l ++ concat ls) s' ∧ Forall (answered sfd) ls)).
  - exists []. cbn [concat]. rewrite app_nil_r. split; [done|by apply Forall_nil_2].
  - intros _ s' (ls & Ha & Hls). exists sfd, l, ls, []. rewrite app_nil_r. auto.
  - intros a s1 (ls & Ha & Hls). apply wp_wlp. eapply wp_mono; [by apply wp_ucase_turn| |].
    + intros y s2 [[b ->] (k & Hk & Hans)]. exists (ls ++ [k]). rewrite concat_app. cbn [concat]. rewrite app_nil_r, app_assoc.
      split; [done|]. apply Forall_app. auto.
    + intros t s2 [[-> (k & Hk & Hun)]|(Hm & -> & r & Hk & Hr)]; [left; split; [done|]; left|right; split; [done|]; split; [done|]];
        exists sfd, l, ls; eexists; rewrite app_assoc; (split; [exact Hk|]); eauto.
Qed.
End ServerSpecs.

Lemma ud_reporting {S} `{os} : @reporting S ud_report True.
Proof.
  intros n a s0 l s Ha. unfold ud_report. destruct (decide _).
  - apply wp_emit. exists []. rewrite app_nil_r. split; [eapply acted_same; [exact Ha|apply acts_out|done]|]. intros *. apply not_elem_of_nil.
  - by apply wp_stop.
Qed.

Lemma i6d_reporting {S} `{os} : @reporting S i6d_report False.
Proof.
  intros n a s0 l s Ha. unfold i6d_report. apply wp_bind. eapply wp_act; [exact Ha|done|]. intros t s1 _ H1 _ _.
  assert (∀ text, wp (out Stdout text) (λ _ s', ∃ x, acted s0 (l ++ x) s' ∧ ∀ fd b a q, (Csendto fd b a, q) ∉ x)
    (λ t s', False ∧ t = Undefined "unterminated path" ∧ acted s0 l s') s1) as Hout.
  { intros text. apply wp_emit. eexists. split; [eapply acted_same; [exact H1|apply acts_out|done]|]. intros * ?%list_elem_of_singleton. done. }
  by destruct (rv t =? -1).
Qed.

(** The servers ud_ucase_sv and i6d_ucase_sv, on any system: they never
    return; each datagram, as far as the buffer goes, goes back to its sender in
    upper case, before the next is received; they stop only when starting up,
    receiving or sending fails (or, over Unix sockets, when a path has no end). *)
Theorem ucase_servers_correct {S} (K : os) fuel claddr (s : st S) :
  wlp (ud_ucase_sv_main fuel claddr) (λ _ _, False) (ucase_stopped True s) (ucase_served s (λ _ l, l = [])) s ∧
  wlp (i6d_ucase_sv_main fuel claddr) (λ _ _, False) (ucase_stopped False s) (ucase_served s (λ _ l, l = [])) s.
Proof.
  assert (∀ A U text l s1 (Q : A → st S → Prop) F, acted s l s1 → no_datagrams l → wlp (errExit text) Q (ucase_stopped U s) F s1) as Hfail.
  { intros A U text l s1 Q F Ha Hl. apply wp_wlp. eapply wp_act_errExit; [exact Ha|]. intros s2 H2. left. split; [done|]. right.
    exists 0, l, [], []. cbn [concat app]. rewrite app_nil_r. auto. }
  assert (∀ l c r, no_datagrams l → match c with Csendto _ _ _ | Crecvfrom _ _ => False | _ => True end → no_datagrams (l ++ [(c, r)])) as Hsnoc.
  { intros l c r Hl Hc x [Hx|Hx%list_elem_of_singleton]%elem_of_app; [by apply Hl|by subst]. }
  assert (no_datagrams []) as Hnil by (intros x Hx; by apply not_elem_of_nil in Hx).
  split.
  - unfold ud_ucase_sv_main. apply wlp_bind, wp_wlp. eapply wp_act; [apply acted_refl|done|]. intros r s1 _ H1 _ _.
    destruct (rv r =? -1); [eapply Hfail; [exact H1|by apply Hsnoc]|]. unfold remove_path. apply wlp_bind, wlp_bind, wp_wlp.
    eapply wp_act; [exact H1|done|]. intros u s2 _ H2 _ _. apply wlp_bind, wp_wlp, wp_get_errno.
    destruct ((rv u =? -1) && negb (errno s2 =? ENOENT)); cbn [when]; [eapply Hfail; [exact H2|by repeat apply Hsnoc]|].
    apply wp_wlp, wp_ret. apply wlp_bind, wp_wlp. eapply wp_act; [exact H2|done|]. intros b s3 _ H3 _ _.
    destruct (rv b =? -1); [eapply Hfail; [exact H3|by repeat apply Hsnoc]|].
    eapply wlp_ucase_loop; [apply ud_reporting|exact H3|by repeat apply Hsnoc].
  - unfold i6d_ucase_sv_main. apply wlp_bind, wp_wlp. eapply wp_act; [apply acted_refl|done|]. intros r s1 _ H1 _ _.
    destruct (rv r =? -1); [eapply Hfail; [exact H1|by apply Hsnoc]|].
    apply wlp_bind, wp_wlp. eapply wp_act; [exact H1|done|]. intros b s2 _ H2 _ _.
    destruct (rv b =? -1); [eapply Hfail; [exact H2|by repeat apply Hsnoc]|].
    eapply wlp_ucase_loop; [apply i6d_reporting|exact H2|by repeat apply Hsnoc].
Qed.

(** ** Filters *)

Section Filters.
Context {S : Type} `{os}.
Implicit Types s : st S.

(** After the closing of pipe ends: nothing read or written. *)
Definition closed_only (l : list (call * reply)) : Prop := Forall (λ x, ∃ fd, x.1 = Cclose fd) l.

Lemma closed_only_io l src dst : closed_only l → got_from src l = [] ∧ put_to dst l = [].
Proof using.
  induction 1 as [|x l [fd Hx] _ [IH1 IH2]]; [done|]. change (x :: l) with ([x] ++ l). rewrite got_from_app, put_to_app, IH1, IH2.
  destruct x as [c r]. cbn in Hx. by subst.
Qed.

Lemma wp_close_or_exit fd msg s0 l s (Q : unit → st S → Prop) (E : stop → st S → Prop) :
  acted s0 l s → (∀ r s', acted s0 (l ++ [(Cclose fd, r)]) s' → Q tt s') →
  (∀ r s', acted s0 (l ++ [(Cclose fd, r)]) s' → E (end_of true) s') → wp (close_or_exit fd msg) Q E s.
Proof using.
  intros Ha HQ HE. unfold close_or_exit. apply wp_bind. eapply wp_act; [exact Ha|done|]. intros k s1 _ H1 _ _.
  destruct (rv k =? -1); cbn [when]; [eapply wp_act_errExit; [exact H1|]; eauto|apply wp_ret; eauto].
Qed.

(** The end of a filter: everything there was has gone out changed, with
    status [good]; or a first part has, and it failed. *)
Definition filtered (content : cstr) (f : ascii → ascii) (dst : Z) (good : stop) s (t : stop) s' : Prop :=
  ∃ l part, acted s l s' ∧ put_to dst l = f <$> part ∧ (t = good ∧ part = content ∨ t = end_of true ∧ part `prefix_of` content).

Lemma filtered_fails content f dst good s l s' part :
  acted s l s' → put_to dst l = f <$> part → part `prefix_of` content → filtered content f dst good s (end_of true) s'.
Proof using. intros Ha Hp Hpre. exists l, part. auto. Qed.

Lemma wp_filter_loop content budget fuel src size f dst text good s l s1 (Q : Z → st S → Prop) :
  0 < size → Source src content budget → (length content < fuel)%nat → taken src (trace s) = [] →
  acted s l s1 → closed_only l →
  (∀ l' s2, acted s l' s2 → put_to dst l' = f <$> content → Q 0 s2) →
  (∀ l' s2 part, acted s l' s2 → put_to dst l' = f <$> part → part `prefix_of` content → Q (-1) s2) →
  wp (copy_loop fuel src size f dst (fatal text)) Q (filtered content f dst good s) s1.
Proof using.
  intros Hsize Hsrc Hfuel Ht Ha0 Hl0 HQ HF. destruct (closed_only_io l src dst Hl0) as [Hg0 Hp0].
  assert (taken src (trace s1) = []) as Ht1 by by rewrite (acted_taken src _ _ _ Ha0), Ht, Hg0.
  eapply wp_copy_loop; [done|exact Hsrc|by rewrite Ht1| |].
  - intros z s2 (k & Ha & Hp & Hz). rewrite Ht1 in Hz. cbn [length drop] in Hz. pose proof (acted_app _ _ _ _ _ Ha0 Ha) as H2.
    assert (put_to dst (l ++ k) = f <$> got_from src k) as Hall by by rewrite put_to_app, Hp0, Hp.
    destruct Hz as [[-> Hz]|(-> & Hz & _)]; [eapply HQ; [exact H2|by rewrite Hall, Hz]|by eapply HF].
  - intros s2 (k & got & Ha & Hpre & Hp & _). rewrite Ht1 in Hpre. cbn [length drop] in Hpre. apply wp_fatal. intros s3 Hg3 Hacts.
    eapply filtered_fails; [eapply acted_same; [by eapply acted_app|done|done]| |exact Hpre]. by rewrite put_to_app, Hp0, Hp.
Qed.

(** What comes back through two pipes and the child between them. *)
Class Answers (w r : Z) := pipes_answer : ∀ tr bs q,
  let a := kern (tr ++ [Esys (Cwrite w bs) q]) (Cread r CC_SIZE) in
  rv a = -1 ∨ rdata a = toupper <$> bs ∧ rv a = strlen bs.

Lemma close_two fd1 fd2 m1 m2 good content f dst s (m : M S unit) :
  (∀ l s', acted s l s' → closed_only l → wp m (λ _ _, False) (filtered content f dst good s) s') →
  wp (close_or_exit fd1 m1;; close_or_exit fd2 m2;; m) (λ _ _, False) (filtered content f dst good s) s.
Proof using.
  intros Hm. assert (∀ l s', acted s l s' → closed_only l → filtered content f dst good s (end_of true) s') as Hf.
  { intros l s' Ha Hl. eapply (filtered_fails _ _ _ _ _ _ _ []); [exact Ha|by apply (closed_only_io l dst dst)|apply prefix_nil]. }
  apply wp_bind. eapply wp_close_or_exit; [apply acted_refl| |].
  - intros r s1 H1. cbn [app] in H1. apply wp_bind. eapply wp_close_or_exit; [exact H1| |].
    + intros r2 s2 H2. eapply Hm; [exact H2|]. repeat (apply Forall_cons_2; [eauto|]). by apply Forall_nil_2.
    + intros r2 s2 H2. eapply Hf; [exact H2|]. repeat (apply Forall_cons_2; [eauto|]). by apply Forall_nil_2.
  - intros r s1 H1. eapply Hf; [exact H1|]. repeat (apply Forall_cons_2; [eauto|]). by apply Forall_nil_2.
Qed.
End Filters.


(** simple_pipe.c, on any systems: the parent ends, with success when the whole
    text is in the pipe; the child, given what is there, ends, with success when
    it has written that (and a newline, if the last write succeeds). *)
Theorem simple_pipe_correct {S S'} (Kp Kc : os) pfd text content budget fuel (p : st S) (c : st S') :
  pipe_write pfd ≠ 1 →
  wp (@simple_pipe_parent S Kp pfd text) (λ _ _, False)
    (λ t p', ∃ l, acted p l p' ∧ (t = Exit 0 ∧ put_to (pipe_write pfd) l = text ∨ t = @end_of Kp true ∧ put_to (pipe_write pfd) l `prefix_of` text)) p ∧
  (@Source Kc (pipe_read pfd) content budget → taken (pipe_read pfd) (trace c) = [] → (length content < fuel)%nat →
   wp (@simple_pipe_child S' Kc fuel pfd) (λ _ _, False)
     (λ t c', ∃ l nl, acted c l c' ∧ (nl = [] ∨ nl = [NL]) ∧
        (t = FastExit 0 ∧ put_to 1 l = content ++ nl ∨ t = @end_of Kc true ∧ put_to 1 l `prefix_of` content ++ nl)) c).
Proof.
  intros Hpw. split.
  - unfold simple_pipe_parent. apply wp_bind. eapply wp_close_or_exit; [apply acted_refl| |].
    2: { intros r s1 H1. eexists. split; [exact H1|]. right. split; [done|apply prefix_nil]. }
    intros r s1 H1. cbn [app] in H1. apply wp_bind. eapply wp_act; [exact H1|done|]. intros w s2 _ H2 _ _.
    pose proof (put_to_write (pipe_write pfd) [(Cclose (pipe_read pfd), r)] text w) as Hw. change (put_to (pipe_write pfd) [(Cclose (pipe_read pfd), r)]) with ([] : cstr) in Hw. cbn [app] in Hw.
    assert (put_to (pipe_write pfd) ([(Cclose (pipe_read pfd), r)] ++ [(Cwrite (pipe_write pfd) text, w)]) `prefix_of` text) as Hpre
      by (cbn [app]; rewrite Hw; destruct (0 <? rv w); [apply prefix_take|apply prefix_nil]).
    apply wp_bind. destruct (Z.eqb_spec (rv w) (strlen text)) as [E|E]; cbn [negb when].
    2: { apply wp_fatal. intros s3 Hg3 Hacts. eexists. split; [by eapply acted_same|]. by right. }
    apply wp_ret, wp_bind. assert (put_to (pipe_write pfd) ([(Cclose (pipe_read pfd), r)] ++ [(Cwrite (pipe_write pfd) text, w)]) = text) as Hall.
    { cbn [app]. rewrite Hw, E. unfold strlen. rewrite Nat2Z.id, (take_ge text) by done. destruct (Z.ltb_spec 0 (Z.of_nat (length text))); [done|].
      destruct text; [done|cbn in *; lia]. }
    eapply wp_close_or_exit; [exact H2| |].
    + intros r2 s3 H3. apply wp_bind. eapply wp_act; [exact H3|done|]. intros q s4 _ H4 _ _. apply wp_stop. eexists. split; [exact H4|].
      left. rewrite !put_to_other by done. done.
    + intros r2 s3 H3. eexists. split; [exact H3|]. right. rewrite put_to_other, Hall by done. done.
  - intros Hsrc Ht Hfuel. unfold simple_pipe_child. apply wp_bind. eapply wp_close_or_exit; [apply acted_refl| |].
    2: { intros r s1 H1. eexists _, []. split; [exact H1|]. split; [by left|]. right. split; [done|apply prefix_nil]. }
    intros r s1 H1. cbn [app] in H1. apply wp_bind.
    eapply wp_mono; [eapply (@wp_filter_loop S' Kc content budget fuel _ _ id 1 _ (@end_of Kc true) c [_] s1 (λ z s2, ∃ l part, acted c l s2 ∧ put_to 1 l = part ∧
       (z = 0 ∧ part = content ∨ z = -1 ∧ part `prefix_of` content))); [done|exact Hsrc|done|exact Ht|exact H1| | |]| |].
    + apply Forall_cons_2; [eauto|by apply Forall_nil_2].
    + intros l s2 H2 Hp. rewrite list_fmap_id in Hp. exists l, content. auto.
    + intros l s2 part H2 Hp Hpre. rewrite list_fmap_id in Hp. exists l, part. auto 10.
    + intros z s2 (l & part & H2 & Hp & [[-> ->]|[-> Hpre]]); cbn [Z.eqb Pos.eqb when]; apply wp_bind.
      2: { eapply wp_act_errExit; [exact H2|]. intros s3 H3. exists l, []. split; [done|]. split; [by left|]. right. rewrite app_nil_r, Hp. done. }
      apply wp_ret, wp_bind. eapply wp_act; [exact H2|done|]. intros w s3 _ H3 _ _.
      pose proof (put_to_write 1 l [NL] w) as Hw. rewrite Hp in Hw.
      assert (∃ nl, (nl = [] ∨ nl = [NL]) ∧ put_to 1 (l ++ [(Cwrite 1 [NL], w)]) = content ++ nl) as (nl & Hnl & Hw').
      { eexists. split; [|exact Hw]. destruct (0 <? rv w); [|auto]. destruct (Z.to_nat (rv w)) as [|[|?]]; auto. }
      apply wp_bind. eapply wp_close_or_exit; [exact H3| |].
      * intros r2 s4 H4. apply wp_stop. eexists _, nl. split; [exact H4|]. split; [done|]. left. rewrite put_to_other, Hw' by done. done.
      * intros r2 s4 H4. eexists _, nl. split; [exact H4|]. split; [done|]. right. rewrite put_to_other, Hw' by done. done.
    + intros t s2 (l & part & Ha & Hp & Hc). exists l, []. rewrite app_nil_r, Hp, list_fmap_id.
      split; [done|]. split; [by left|]. right. by destruct Hc as [[-> ->]|[-> ?]].
Qed.

(** ** toUpper.c *)

Lemma overlay_length new old : (length new <= length old)%nat → length (overlay new old) = length old.
Proof. intros Hl. unfold overlay. rewrite length_app, length_drop. lia. Qed.

Lemma overlay_text t old : NUL ∉ t → c_str (overlay (t ++ [NUL]) old) = t ∧ NUL ∈ overlay (t ++ [NUL]) old.
Proof.
  intros Hn. unfold overlay. rewrite <-app_assoc. cbn [app]. split; [by apply c_str_text|]. rewrite elem_of_app, elem_of_cons. auto.
Qed.

(** toUpper.c, on two systems that hand over what the processes write to the
    pipes, for a line [t] that was typed: both end with status 0, and what is
    printed is [t] in upper case but for its last character, which is left as
    it is: the end of the line, or the last character of a line without. *)
Theorem toUpper_correct {S S'} (Kp Kc : os) i o buf t (p : st S) (c : st S') :
  (length t < length buf)%nat → length buf = Z.to_nat LINE_SIZE → t ≠ [] → NUL ∉ t → pipe_write o ≠ -1 →
  let line := overlay (t ++ [NUL]) buf in
  let up := removelast (to_upper <$> t) in
  (∀ tr, @kern Kc tr (Cread (pipe_read i) LINE_SIZE) = Reply LINE_SIZE 0 line []) →
  (∀ tr, @kern Kp tr (Cread (pipe_read o) LINE_SIZE) = Reply (strlen up) 0 up []) →
  wp (@toUpper_child S' Kc i o line) (λ _ _, False) (λ e c', e = Exit 0 ∧ ∃ l, acted c l c' ∧ offered (pipe_write o) l = up) c ∧
  wp (@toUpper_parent S Kp i o line) (λ _ _, False)
    (λ e p', e = Exit 0 ∧ (∃ l, acted p l p' ∧ offered (pipe_write i) l = line) ∧
       said Stdout (trace p') = said Stdout (trace p) ++ (to_upper <$> removelast t) ++ drop (length t - 1) t) p.
Proof.
  intros Hlen Hbuf Hne Hn Ho line up Hc Hp. destruct (overlay_text t buf Hn) as [Htext Hnul]. fold line in Htext, Hnul.
  assert (length line = Z.to_nat LINE_SIZE) as Hll by (rewrite <-Hbuf; apply overlay_length; rewrite length_app; cbn; lia).
  assert (∀ b : cstr, length b = length line → overlay line b = line) as Hover.
  { intros b Hb. unfold overlay. rewrite drop_ge by lia. apply app_nil_r. }
  split.
  - unfold toUpper_child. apply wp_bind. eapply wp_act; [apply acted_refl|done|]. intros k1 s1 _ H1 _ _.
    apply wp_bind. eapply wp_act; [exact H1|done|]. intros k2 s2 _ H2 _ _.
    apply wp_bind. eapply wp_act; [exact H2|done|]. intros r s3 Hr H3 _ _. rewrite Hc in Hr.
    assert (overlay (data_of r) line = line) as Hbufc.
    { rewrite Hr. unfold data_of. cbn [rv rdata]. rewrite take_ge by lia. by apply Hover. }
    rewrite Hbufc. apply wp_bind. eapply wp_act; [exact H3|done|]. intros k4 s4 _ H4 _ _.
    rewrite decide_True, Htext, decide_False by done.
    apply wp_bind. eapply wp_act; [exact H4|done|]. intros w s5 _ H5 _ _. apply wp_bind. eapply wp_act; [exact H5|done|]. intros k6 s6 _ H6 _ _.
    apply wp_stop. split; [done|]. eexists. split; [exact H6|]. rewrite !offered_snoc. unfold offer. cbn [fst]. rewrite Z.eqb_refl. cbn. by rewrite app_nil_r.
  - unfold toUpper_parent. apply wp_bind. eapply wp_act; [apply acted_refl|done|]. intros k1 s1 _ H1 _ Ht1.
    apply wp_bind. eapply wp_act; [exact H1|done|]. intros k2 s2 _ H2 _ Ht2.
    apply wp_bind. eapply wp_act; [exact H2|done|]. intros w s3 _ H3 _ Ht3. apply wp_bind. eapply wp_act; [exact H3|done|]. intros k4 s4 _ H4 _ Ht4.
    apply wp_bind. eapply wp_act; [exact H4|done|]. intros r s5 Hr H5 _ Ht5. rewrite Hp in Hr. apply wp_bind. eapply wp_act; [exact H5|done|].
    intros k6 s6 _ H6 _ Ht6.
    assert (data_of r = up) as -> by (rewrite Hr; unfold data_of; cbn [rv rdata]; unfold strlen; rewrite Nat2Z.id; by apply take_ge).
    assert (up = to_upper <$> removelast t ∧ ∃ x, t = removelast t ++ [x]) as [Hup [x Hx]].
    { destruct (exists_last Hne) as (t' & x & ->). unfold up. rewrite fmap_app. cbn. rewrite !removelast_last. eauto. }
    assert (overlay up line = ((to_upper <$> removelast t) ++ [x]) ++ NUL :: drop (length t + 1) buf) as Hout.
    { assert (line = removelast t ++ x :: NUL :: drop (length t + 1) buf) as Hline.
      { unfold line, overlay. rewrite length_app. cbn [length]. rewrite Hx at 1. by rewrite <-!app_assoc. }
      unfold overlay. rewrite Hup, length_fmap, Hline, drop_app_length. by rewrite <-app_assoc. }
    assert (NUL ∉ (to_upper <$> removelast t) ++ [x]) as Hn2.
    { rewrite Hx in Hn. rewrite elem_of_app, list_elem_of_fmap. intros [(y & Hy & Hin)|Hin]; [|by apply Hn, elem_of_app; right].
      unfold to_upper in Hy. destruct (lower y) eqn:Hlow; [|apply Hn, elem_of_app; left; by rewrite Hy].
      revert Hlow Hy. clear. destruct y as [[] [] [] [] [] [] [] []]; vm_compute; discriminate. }
    rewrite Hout, decide_True by (rewrite elem_of_app, elem_of_cons; auto). rewrite c_str_text by done.
    apply wp_bind, wp_emit, wp_stop. split; [done|]. split.
    + eexists. split; [eapply acted_same; [exact H6|apply acts_out|done]|]. rewrite !offered_snoc. unfold offer. cbn [fst]. rewrite Z.eqb_refl. cbn. by rewrite !app_nil_r.
    + cbn [trace]. rewrite said_out, Ht6, Ht5, Ht4, Ht3, Ht2, Ht1, !said_sys. f_equal. f_equal.
      clear -Hx. revert Hx. generalize (removelast t). intros k ->. rewrite length_app. cbn [length]. by rewrite Nat.add_sub, drop_app_length.
Qed.

(** A line without its end: the last character stays as it was. *)
Example toUpper_unfinished :
  let buf := replicate 1024 NUL in
  let line := overlay (str "abc" ++ [NUL]) buf in
  let pd a b := Reply 0 0 [] [([], a); ([], b)] in
  let k := test_os (λ tr c, match c with Cread _ _ => Reply 2 0 (str "AB") [] | _ => ok 0 end) in
  let r := @toUpper_parent unit k (pd 3 4) (pd 5 6) line (init tt) in
  r.1 = Stop (Exit 0) ∧ said Stdout (trace r.2) = str "ABc".
Proof. by vm_compute. Qed.

(** ** The clients *)

Section Clients.
Context {S : Type} `{os}.
Implicit Types s : st S.

(** A server in upper case at the other end. *)
Class Upcases := upcases : ∀ tr fd m a q,
  let r := kern (tr ++ [Esys (Csendto fd m a) q]) (Crecvfrom fd UC_SIZE) in
  rv r = -1 ∨ rdata r = toupper <$> take (Z.to_nat UC_SIZE) m ∧ rv r = strlen (rdata r).

Fixpoint responses (j : Z) (msgs : list cstr) : cstr :=
  match msgs with
  | [] => []
  | m :: msgs => str "Response " ++ dec j ++ str ": " ++ (toupper <$> take (Z.to_nat UC_SIZE) m) ++ [NL] ++ responses (j + 1) msgs
  end.

(** The messages answered when a client ends. *)
Definition asked_some (j : Z) (msgs : list cstr) s s' : Prop :=
  ∃ done rest, msgs = done ++ rest ∧ said Stdout (trace s') = said Stdout (trace s) ++ responses j done.

Lemma toupper_no_nul (l : cstr) : NUL ∉ l → NUL ∉ toupper <$> l.
Proof using.
  intros Hl. rewrite list_elem_of_fmap. intros (y & Hy & Hin). assert (y = NUL) as ->; [|done].
  revert Hy. clear. destruct y as [[] [] [] [] [] [] [] []]; vm_compute; done.
Qed.

Lemma wp_ask_all sfd svaddr j msgs s :
  Upcases → Forall (λ m, NUL ∉ m) msgs →
  wp (ask_all sfd svaddr j msgs) (λ _ s', said Stdout (trace s') = said Stdout (trace s) ++ responses j msgs)
    (λ t s', t = end_of true ∧ asked_some j msgs s s') s.
Proof using.
  intros Hup. revert j s. induction msgs as [|m msgs IH]; intros j s Hnul; cbn [ask_all].
  { apply wp_ret. by rewrite app_nil_r. }
  apply Forall_cons in Hnul as [Hm Hnul].
  assert (∀ s1, said Stdout (trace s1) = said Stdout (trace s) → asked_some j (m :: msgs) s s1) as Hnone.
  { intros s1 Hs1. exists [], (m :: msgs). by rewrite app_nil_r. }
  assert (∀ s1 s2, ran reports (trace s1) (trace s2) → said Stdout (trace s2) = said Stdout (trace s1)) as Hquiet.
  { intros s1 s2. induction 1 as [|tr' c _ Hr _|tr' f t _ Hr Hf]; [done|by rewrite said_sys|]. cbn in Hf. subst f. rewrite said_app, Hr. apply app_nil_r. }
  apply wp_bind, wp_call. intros w s1 _ _ _ _ Ht1. assert (said Stdout (trace s1) = said Stdout (trace s)) as Hs1 by by rewrite Ht1, said_sys.
  destruct (rv w =? strlen m); cbn [negb].
  2: { apply wp_fatal_ran. intros s2 Hran _. split; [done|]. apply Hnone. by rewrite (Hquiet _ _ Hran). }
  apply wp_bind, wp_call. intros r s2 Hr _ _ _ Ht2. assert (said Stdout (trace s2) = said Stdout (trace s)) as Hs2 by by rewrite Ht2, said_sys.
  pose proof (Hup (trace s) sfd m svaddr w) as Hlaw. cbv zeta in Hlaw. rewrite <-Ht1, <-Hr in Hlaw.
  destruct (Z.eqb_spec (rv r) (-1)) as [E|E].
  { apply wp_errExit_ran. intros s3 Hran _. split; [done|]. apply Hnone. by rewrite (Hquiet _ _ Hran). }
  destruct Hlaw as [?|[Hd Hl]]; [done|].
  assert (c_str (data_of r) = toupper <$> take (Z.to_nat UC_SIZE) m) as Htext.
  { unfold data_of. rewrite Hl. unfold strlen. rewrite Nat2Z.id, take_ge, Hd by done. apply c_str_id, toupper_no_nul.
    intros Hin. apply Hm. by eapply subseteq_take. }
  rewrite Htext. apply wp_bind, wp_emit. set (s3 := St _ _ _).
  assert (said Stdout (trace s3) ++ responses (j + 1) msgs = said Stdout (trace s) ++ responses j (m :: msgs)) as Hs3.
  { unfold s3. cbn [trace responses]. rewrite said_out, Hs2, <-!app_assoc. done. }
  eapply wp_mono; [apply (IH (j + 1) s3 Hnul)| |].
  - intros _ s4 ->. done.
  - intros t s4 [-> (told & rest & Hmsgs & Hs4)]. split; [done|]. exists (m :: told), rest. rewrite Hmsgs. split; [done|].
    rewrite Hs4. unfold s3. cbn [trace responses]. rewrite said_out, Hs2, <-!app_assoc. done.
Qed.
End Clients.

(** The clients, with a server in upper case at the other end: a client
    that gets to its loop prints the answers, numbered, to all its messages
    (each cut to ten characters) and ends with success; or it fails after some
    of them. *)
Theorem ucase_clients_correct {S} (K : os) prog host m msgs (s : st S) :
  Upcases → Forall (λ m, NUL ∉ m) (m :: msgs) → m ≠ str "--help" → host ≠ str "--help" →
  ∀ main, main = ud_ucase_cl_main (prog :: m :: msgs) ∨ main = i6d_ucase_cl_main (prog :: host :: m :: msgs) →
  wp main (λ _ _, False)
    (λ t s', t = Exit 0 ∧ said Stdout (trace s') = said Stdout (trace s) ++ responses 1 (m :: msgs) ∨ t = end_of true ∧ asked_some 1 (m :: msgs) s s') s.
Proof.
  intros Hup Hnul Hm Hhost main Hmain.
  set (E := λ t s', t = Exit 0 ∧ said Stdout (trace s') = said Stdout (trace s) ++ responses 1 (m :: msgs) ∨ t = end_of true ∧ asked_some 1 (m :: msgs) s s').
  assert (∀ s1 s2 : st S, ran reports (trace s1) (trace s2) → said Stdout (trace s1) = said Stdout (trace s) → E (end_of true) s2) as Hend.
  { intros s1 s2 Hran Hs1. right. split; [done|]. exists [], (m :: msgs). split; [done|]. rewrite app_nil_r, <-Hs1. clear -Hran.
    induction Hran as [|tr' c _ Hr _|tr' f t _ Hr Hf]; [done|by rewrite said_sys|]. cbn in Hf. subst f. rewrite said_app, Hr. apply app_nil_r. }
  assert (∀ A text s1 (Q : A → st S → Prop), said Stdout (trace s1) = said Stdout (trace s) → wp (errExit text) Q E s1) as Hfail.
  { intros A text s1 Q Hs1. apply wp_errExit_ran. intros s2 Hran _. by eapply Hend. }
  assert (∀ fd addr (s1 : st S) (rest : M S unit), said Stdout (trace s1) = said Stdout (trace s) →
    (∀ s2, said Stdout (trace s2) = said Stdout (trace s) ++ responses 1 (m :: msgs) → wp rest (λ _ _, False) E s2) →
    wp (ask_all fd addr 1 (m :: msgs);; rest) (λ _ _, False) E s1) as Hask.
  { intros fd addr s1 rest Hs1 Hrest. apply wp_bind. eapply wp_mono; [by apply wp_ask_all| |].
    - intros [] s2 Hs2. apply Hrest. by rewrite Hs2, Hs1.
    - intros t s2 [-> (told & todo & Hmsgs & Hs2)]. right. split; [done|]. exists told, todo. by rewrite Hs2, Hs1. }
  destruct Hmain as [-> | ->].
  - unfold ud_ucase_cl_main. apply wp_bind. rewrite (proj2 (streq_false _ _)) by done. apply wp_ret.
    apply wp_bind, wp_call. intros k s1 _ _ _ _ Ht1. assert (said Stdout (trace s1) = said Stdout (trace s)) as Hs1 by by rewrite Ht1, said_sys.
    destruct (rv k =? -1); [by apply Hfail|]. apply wp_bind, wp_call. intros pid s2 _ _ _ _ Ht2.
    assert (said Stdout (trace s2) = said Stdout (trace s)) as Hs2 by by rewrite Ht2, said_sys.
    apply wp_bind, wp_call. intros b s3 _ _ _ _ Ht3. assert (said Stdout (trace s3) = said Stdout (trace s)) as Hs3 by by rewrite Ht3, said_sys.
    destruct (rv b =? -1); [by apply Hfail|]. apply Hask; [done|]. intros s4 Hs4. apply wp_bind, wp_call. intros u s5 _ _ _ _ Ht5.
    apply wp_stop. left. split; [done|]. by rewrite Ht5, said_sys.
  - unfold i6d_ucase_cl_main. apply wp_bind. rewrite (proj2 (streq_false _ _)) by done. apply wp_ret.
    apply wp_bind, wp_call. intros k s1 _ _ _ _ Ht1. assert (said Stdout (trace s1) = said Stdout (trace s)) as Hs1 by by rewrite Ht1, said_sys.
    destruct (rv k =? -1); [by apply Hfail|]. apply wp_bind, wp_call. intros a s2 _ _ _ _ Ht2.
    assert (said Stdout (trace s2) = said Stdout (trace s)) as Hs2 by by rewrite Ht2, said_sys.
    destruct (rv a <=? 0); [apply wp_fatal_ran; intros s3 Hran _; by eapply Hend|]. apply Hask; [done|]. intros s4 Hs4. apply wp_stop. by left.
Qed.

(** ** Witnesses and examples *)

(** Pipes and sockets whose other end answers in upper case. *)
Definition upper_os (content : cstr) : os := test_os (λ tr c,
  match c with
  | Cread fd n =>
      if fd =? 0 then @kern (chunked 0 content 4) tr (Cread 0 n) else
      match last tr with Some (Esys (Cwrite _ m) _) => Reply (strlen m) 0 (toupper <$> m) [] | _ => ok 0 end
  | Cwrite _ bs => ok (strlen bs)
  | Crecvfrom _ n =>
      match last tr with
      | Some (Esys (Csendto _ m _) _) => let a := toupper <$> take (Z.to_nat n) m in Reply (strlen a) 0 a []
      | _ => fail EAGAIN
      end
  | Csendto _ m _ => ok (strlen m)
  | Csocket _ _ _ => ok 3
  | Cextern _ _ _ => Reply 1 0 (replicate 16 NUL) []
  | _ => ok 0
  end).

Lemma upper_os_source content : @Source (upper_os content) 0 content 0.
Proof. intros tr n Hn. exact (@chunked_source 0 content 4 0 ltac:(lia) tr n Hn). Qed.

Lemma upper_os_upcases content : @Upcases (upper_os content).
Proof. intros tr fd m a q. cbn [kern upper_os test_os]. rewrite last_snoc. by right. Qed.

Definition a_pipe (r w : Z) : reply := Reply 0 0 [] [([], r); ([], w)].

Lemma upper_os_answers content r w : r ≠ 0 → @Answers (upper_os content) w r.
Proof.
  intros Hr tr bs q. cbn [kern upper_os test_os]. rewrite (proj2 (Z.eqb_neq _ _)) by done. rewrite last_snoc. by right.
Qed.


Example change_case_run :
  let r := @change_case_parent unit (upper_os (str "hello world")) 12 (a_pipe 3 4) (a_pipe 5 6) (init tt) in
  r.1 = Stop (Exit 0) ∧ put_to 1 (acts (trace r.2)) = str "HELLO WORLD".
Proof. by vm_compute. Qed.

Lemma ucase_clients_witness :
  let o := upper_os [] in
  wp (@ud_ucase_cl_main unit o [str "cl"; str "hello"; str "long long ago"]) (λ _ _, False)
    (λ t s', t = Exit 0 ∧ said Stdout (trace s') = [] ++ responses 1 [str "hello"; str "long long ago"] ∨
       t = end_of true ∧ asked_some 1 [str "hello"; str "long long ago"] (init tt) s') (init tt).
Proof.
  intros o. apply (@ucase_clients_correct unit o (str "cl") (str "host") (str "hello") [str "long long ago"] (init tt));
    [apply upper_os_upcases|repeat constructor; by apply (bool_decide_unpack _)|by vm_compute|by vm_compute|by left].
Defined.

Example ucase_client_run :
  let r := @i6d_ucase_cl_main unit (upper_os []) [str "cl"; str "::1"; str "hello"; str "long long ago"] (init tt) in
  r.1 = Stop (Exit 0) ∧ said Stdout (trace r.2) = str "Response 1: HELLO" ++ [NL] ++ str "Response 2: LONG LONG " ++ [NL].
Proof. by vm_compute. Qed.
