(* ===== verification/DictLookup.v ===== *)
(** The dictionary in local files: convert.c (homework/hw5/5-3) makes a file
    of fixed-size records out of a text; lookup1.c searches it from the top,
    lookup5.c (homework/hw11/11-1) by binary search in a memory map, which is
    an implementation of [Dictionary]. *)
From S2P Require Import Prelude Sys Dict.

(** ** convert.c *)

Definition BIGLINE : Z := 512.

Section Convert.
Context {S : Type} `{os}.

(** What the loop does with one line: [dr] is the record being filled. *)
Definition convert_line (out_ : stream) (dr : Dictrec) (is_word : bool) (line : cstr) : M S (Dictrec * bool) :=
  '(line, dr, is_word) ←
    (if is_word then
       let line := chomp line in
       w ← fits (strcpy (word dr) line);
       mret (line, Rec w (text dr), false)
     else mret (line, dr, is_word));
  if bool_decide (head line = Some NL) then
    out out_ (rec_bytes dr);;
    mret (zero_rec, true)
  else
    t ← fits (strcat (text dr) line);
    mret (Rec (word dr) t, is_word).

Definition convert_main (fuel : nat) (argv : list cstr) : M S Z :=
  match argv with
  | [_; arg1; arg2] =>
      r ← sys (Cfopen arg1);
      if rv r =? -1 then DIE arg1 else
      r ← sys (Cfopen arg2);
      if rv r =? -1 then DIE arg2 else
      loop fuel (λ '(dr, is_word),
        r ← sys (Cfgets_from (Named arg1) BIGLINE);
        if rv r =? 0 then mret (inr tt)
        else a ← convert_line (Named arg2) dr is_word (c_str (rdata r)); mret (inl a)) (zero_rec, true);;
      sys (Cfclose (Named arg1));;
      sys (Cfclose (Named arg2));;
      mret 0
  | _ =>
      out Stdout (str "Usage: convert [input file] [output file]." ++ [NL]);;
      mret (-1)
  end.
End Convert.

(** ** lookup1.c *)

(** The static variables; [in_] is [None] before the file is opened. *)
Inductive FILE := Null | Open | Closed.
Record L1 := MkL1 { in_ : FILE; first_time1 : bool }.

Section Lookup1.
Context `{os}.

Definition lookup1 (fuel : nat) (resource : cstr) (sought : Dictrec) : M L1 (Z * Dictrec) :=
  g ← get;
  when (first_time1 g)
    (r ← sys (Cfopen resource);
     put (MkL1 (if rv r =? -1 then Null else Open) false));;
  g ← get;
  match in_ g with
  | Null => stop_with (Undefined "rewind of a null FILE")
  | Closed => stop_with (Undefined "rewind of a closed FILE")
  | Open =>
      sys (Crewind (Named resource));;
      loop fuel (λ _ : unit,
        r ← sys (Cfread (Named resource) SIZEOF_DICTREC);
        if rv r =? 0 then
          sys (Cfclose (Named resource));;
          put (MkL1 Closed false);;
          mret (inr (NOTFOUND, sought))
        else
          let dr := rec_of (rdata r) in
          if streq (c_str (word dr)) (c_str (word sought)) then
            t ← fits (strcpy (text sought) (c_str (text dr)));
            mret (inr (FOUND, Rec (word sought) t))
          else mret (inl tt)) tt
  end.
End Lookup1.

(** ** lookup5.c *)

(** The C library's bsearch, over the words of a table. *)
Fixpoint bsearch_go (fuel : nat) (key : cstr) (table : list Dictrec) (l u : Z) : option Dictrec :=
  match fuel with
  | O => None
  | S fuel =>
      if l <? u then
        let idx := (l + u) / 2 in
        match table !! Z.to_nat idx with
        | None => None
        | Some p =>
            match strcmp key (c_str (word p)) with
            | Lt => bsearch_go fuel key table l idx
            | Gt => bsearch_go fuel key table (idx + 1) u
            | Eq => Some p
            end
        end
      else None
  end.
Definition bsearch (key : cstr) (table : list Dictrec) (numrec : Z) : option Dictrec :=
  bsearch_go (S (Z.to_nat numrec)) key table 0 numrec.

(** The records of a file's contents. *)
Fixpoint recs_of (n : nat) (bs : cstr) : list Dictrec :=
  match n with O => [] | S n => rec_of bs :: recs_of n (drop (WORD + TEXT) bs) end.

Record L5 := MkL5 { table : list Dictrec; numrec : Z; first_time5 : bool }.

Section Lookup5.
Context `{os}.

Definition lookup5_open (resource : cstr) : M L5 unit :=
  upd (λ g, MkL5 (table g) (numrec g) false);;
  r ← sys (Copen resource 0 0);
  let fd := rv r in
  if fd =? -1 then DIE (str "open dict") else
  r ← sys (Clseek fd 0 2);
  let filsiz := rv r in
  let n := wrap_s 32 (wrap_u 64 filsiz / SIZEOF_DICTREC) in
  sys (Cftruncate fd filsiz);;
  r ← sys (Cmmap fd filsiz);
  if rv r =? -1 then DIE (str "mmap") else
  put (MkL5 (recs_of (Z.to_nat n) (rdata r)) n false);;
  sys (Cclose fd);;
  mret tt.

Definition lookup5 (resource : cstr) (sought : Dictrec) : M L5 (Z * Dictrec) :=
  g ← get;
  when (first_time5 g) (lookup5_open resource);;
  g ← get;
  match bsearch (c_str (word sought)) (table g) (numrec g) with
  | Some found =>
      t ← fits (strcpy (text sought) (c_str (text found)));
      mret (FOUND, Rec (word sought) t)
  | None => mret (NOTFOUND, sought)
  end.
End Lookup5.


(** ** The meaning of a file of records *)

Fixpoint find_in (rs : list Dictrec) (q : cstr) : option cstr :=
  match rs with
  | [] => None
  | r :: rs => if streq (c_str (word r)) q then Some (c_str (text r)) else find_in rs q
  end.

Definition before (a b : Dictrec) : Prop := strcmp (c_str (word a)) (c_str (word b)) = Lt.

(** *** strcmp orders the strings *)

Lemma code_inj c d : code c = code d → c = d.
Proof.
  unfold code. intros E. rewrite <-(ascii_N_embedding c), <-(ascii_N_embedding d). f_equal. lia.
Qed.

Lemma strcmp_eq a b : strcmp a b = Eq ↔ a = b.
Proof.
  revert b; induction a as [|c a IH]; intros [|d b]; simpl; try done.
  destruct (Z.compare_spec (code c) (code d)) as [E| |]; rewrite ?IH.
  - apply code_inj in E as ->. split; [by intros ->|by intros [= ->]].
  - split; [done|]. intros [= -> ->]. lia.
  - split; [done|]. intros [= -> ->]. lia.
Qed.

Lemma strcmp_antisym a b : strcmp b a = CompOpp (strcmp a b).
Proof.
  revert b; induction a as [|c a IH]; intros [|d b]; simpl; try done.
  rewrite (Z.compare_antisym (code c)). destruct (code c ?= code d); simpl; auto.
Qed.

Lemma strcmp_trans a b c : strcmp a b = Lt → strcmp b c = Lt → strcmp a c = Lt.
Proof.
  revert b c; induction a as [|x a IH]; intros [|y b] [|z c]; simpl; try done.
  destruct (Z.compare_spec (code x) (code y)), (Z.compare_spec (code y) (code z));
    destruct (Z.compare_spec (code x) (code z)); try done; try lia. apply IH.
Qed.

#[export] Instance before_trans : Transitive before.
Proof. intros a b c. apply strcmp_trans. Qed.

Lemma before_irrefl a : ¬ before a a.
Proof. unfold before. intros E. by rewrite (proj2 (strcmp_eq _ _) eq_refl) in E. Qed.

(** *** Binary search *)

(** The words are in strict dictionary order. *)
Definition sorted (rs : list Dictrec) : Prop :=
  ∀ i j a b, rs !! i = Some a → rs !! j = Some b → (i < j)%nat → before a b.

Lemma sorted_unique rs i j a b :
  sorted rs → rs !! i = Some a → rs !! j = Some b → c_str (word a) = c_str (word b) → i = j.
Proof.
  intros Hs Ha Hb E. destruct (lt_eq_lt_dec i j) as [[Hlt| ->]|Hlt]; [|done|].
  - pose proof (Hs _ _ _ _ Ha Hb Hlt) as Hc. unfold before in Hc. rewrite E in Hc. by apply before_irrefl in Hc.
  - pose proof (Hs _ _ _ _ Hb Ha Hlt) as Hc. unfold before in Hc. rewrite E in Hc. by apply before_irrefl in Hc.
Qed.

Lemma find_in_Some rs q t : find_in rs q = Some t →
  ∃ i r, rs !! i = Some r ∧ c_str (word r) = q ∧ c_str (text r) = t.
Proof.
  induction rs as [|r rs IH]; simpl; [done|]. destruct (streq _ _) eqn:E.
  - intros [= <-]. apply streq_true in E. by exists 0%nat, r.
  - intros (i & r' & Hi & ?)%IH. by exists (Datatypes.S i), r'.
Qed.

Lemma find_in_None rs q r : find_in rs q = None → r ∈ rs → c_str (word r) ≠ q.
Proof.
  induction rs as [|r' rs IH]; simpl; [by intros _ ?%elem_of_nil|]. destruct (streq _ _) eqn:E; [done|].
  intros Hn [->|Hin]%elem_of_cons; [by apply streq_false|by apply IH].
Qed.

Lemma find_in_sorted rs i r : sorted rs → rs !! i = Some r → find_in rs (c_str (word r)) = Some (c_str (text r)).
Proof.
  intros Hs Hi. destruct (find_in rs (c_str (word r))) as [t|] eqn:E.
  - apply find_in_Some in E as (j & r' & Hj & Hw & <-).
    pose proof (sorted_unique _ _ _ _ _ Hs Hj Hi Hw) as ->. by simplify_eq.
  - exfalso. apply (find_in_None _ _ r E); [by eapply list_elem_of_lookup_2|done].
Qed.

(** The words left of [l] are smaller than the key, those from [u] on larger. *)
Lemma bsearch_go_spec rs key fuel l u :
  sorted rs → 0 <= l <= u → u <= Z.of_nat (length rs) → u - l < Z.of_nat fuel →
  (∀ i r, rs !! i = Some r → Z.of_nat i < l → strcmp key (c_str (word r)) = Gt) →
  (∀ i r, rs !! i = Some r → u <= Z.of_nat i → strcmp key (c_str (word r)) = Lt) →
  match bsearch_go fuel key rs l u with
  | Some p => p ∈ rs ∧ c_str (word p) = key
  | None => ∀ r, r ∈ rs → c_str (word r) ≠ key
  end.
Proof.
  intros Hs. revert l u; induction fuel as [|fuel IH]; intros l u Hlu Hu Hf Hl Hr; [lia|].
  cbn [bsearch_go]. destruct (Z.ltb_spec l u).
  2: { intros r [i Hi]%list_elem_of_lookup E.
       destruct (Z.lt_ge_cases (Z.of_nat i) l) as [Hc|Hc]; [specialize (Hl _ _ Hi Hc)|specialize (Hr _ _ Hi ltac:(lia))];
         rewrite <-E, (proj2 (strcmp_eq _ _) eq_refl) in *; done. }
  set (idx := (l + u) / 2). assert (l <= idx < u) as Hidx by (subst idx; split; Z.to_euclidean_division_equations; lia).
  destruct (rs !! Z.to_nat idx) as [p|] eqn:Ep.
  2: { apply lookup_ge_None in Ep. lia. }
  destruct (strcmp key (c_str (word p))) eqn:Ec.
  - apply strcmp_eq in Ec. split; [by eapply list_elem_of_lookup_2|done].
  - apply IH; [lia..|done|]. intros i r Hi Hc.
    destruct (decide (i = Z.to_nat idx)) as [->|]; [by simplify_eq|].
    eapply strcmp_trans; [exact Ec|]. apply (Hs _ _ _ _ Ep Hi). lia.
  - apply IH; [lia..| |done]. intros i r Hi Hc.
    destruct (decide (i = Z.to_nat idx)) as [->|]; [by simplify_eq|].
    pose proof (Hs i _ _ _ Hi Ep ltac:(lia)) as Hb. unfold before in Hb.
    rewrite strcmp_antisym in Ec |- *.
    rewrite (strcmp_trans _ _ key Hb); [done|]. by destruct (strcmp (c_str (word p)) key).
Qed.

Lemma bsearch_spec rs key : sorted rs →
  match bsearch key rs (Z.of_nat (length rs)) with
  | Some p => p ∈ rs ∧ c_str (word p) = key ∧ find_in rs key = Some (c_str (text p))
  | None => find_in rs key = None
  end.
Proof.
  intros Hs. unfold bsearch.
  assert (match bsearch_go (Datatypes.S (Z.to_nat (Z.of_nat (length rs)))) key rs 0 (Z.of_nat (length rs)) with
          | Some p => p ∈ rs ∧ c_str (word p) = key
          | None => ∀ r, r ∈ rs → c_str (word r) ≠ key
          end) as HB.
  { apply bsearch_go_spec; [done|lia..| |].
    - intros i r _ Hi. lia.
    - intros i r Hi%lookup_lt_Some ?. lia. }
  destruct (bsearch_go _ _ _ _ _) as [p|].
  - destruct HB as [Hin <-]. split; [done|]. split; [done|].
    apply list_elem_of_lookup in Hin as [i Hi]. by eapply find_in_sorted.
  - destruct (find_in rs key) as [t|] eqn:E; [|done]. apply find_in_Some in E as (i & r & Hi & Hw & _).
    destruct (HB r); [by eapply list_elem_of_lookup_2|done].
Qed.

(** *** Records in bytes *)

Lemma recs_of_bytes rs tl : Forall shape rs → recs_of (length rs) (concat (rec_bytes <$> rs) ++ tl) = rs.
Proof.
  induction 1 as [|r rs Hr Hrs IH]; [done|]. cbn [length recs_of fmap list_fmap concat].
  rewrite <-app_assoc, rec_of_bytes by done. f_equal.
  rewrite drop_app_ge by (rewrite rec_bytes_length by done; lia).
  rewrite rec_bytes_length, Nat.sub_diag by done. by rewrite drop_0.
Qed.

Lemma recs_bytes_length rs : Forall shape rs → strlen (concat (rec_bytes <$> rs)) = SIZEOF_DICTREC * Z.of_nat (length rs).
Proof.
  induction 1 as [|r rs Hr Hrs IH]; [done|]. cbn [length fmap list_fmap concat].
  rewrite strlen_app, IH. unfold strlen. rewrite rec_bytes_length by done. unfold SIZEOF_DICTREC, WORD, TEXT. lia.
Qed.

(** ** lookup5 is a dictionary *)

Definition file_call (c : call) : bool :=
  match c with
  | Copen _ _ _ | Clseek _ _ _ | Cftruncate _ _ | Cmmap _ _ | Cclose _ => true
  | _ => false
  end.

Definition opened (resource : cstr) (fd : Z) (tr : list event) : Prop :=
  ∃ r tr1 tr2, tr = tr1 ++ Esys (Copen resource 0 0) r :: tr2 ∧ rv r = fd ∧ fd ≠ -1 ∧ Forall idle_event tr2.

(** The file has these bytes: lseek tells their number, and mmap fails or
    maps them. *)
Class Mapped `{os} (resource bytes : cstr) := {
  mapped_size : ∀ tr fd, opened resource fd tr → rv (kern tr (Clseek fd 0 2)) = strlen bytes;
  mapped_bytes : ∀ tr fd, opened resource fd tr → rv (kern tr (Cmmap fd (strlen bytes))) ≠ -1 →
    rdata (kern tr (Cmmap fd (strlen bytes))) = bytes }.

(** A file of records, with a last one that may be cut short. *)
Record record_file (rs : list Dictrec) (tl : cstr) : Prop := {
  rf_recs : Forall rec_ok rs;
  rf_tail : strlen tl < SIZEOF_DICTREC;
  rf_count : Z.of_nat (length rs) <= INT_MAX }.

Lemma rec_ok_shape rs : Forall rec_ok rs → Forall shape rs.
Proof. intros Hr. eapply Forall_impl; [exact Hr|]. by intros r [[? _] _]. Qed.

Section Lookup5Proof.
Context `{os} (resource : cstr) (rs : list Dictrec) (tl : cstr).
Context (Hrf : record_file rs tl) (Hsorted : sorted rs) `{!Mapped resource (concat (rec_bytes <$> rs) ++ tl)}.
Implicit Types s : st L5.

Definition L5_fresh : L5 := MkL5 [] 0 true.
Definition ready5 s : Prop := glob s = L5_fresh ∨ glob s = MkL5 rs (Z.of_nat (length rs)) false.

Lemma opened_step fd tr c r : opened resource fd tr → idle_event (Esys c r) → opened resource fd (tr ++ [Esys c r]).
Proof.
  intros (r' & tr1 & tr2 & -> & Hr & Hfd & Hidle) Hc. exists r', tr1, (tr2 ++ [Esys c r]).
  rewrite <-app_assoc. split; [done|]. split; [done|]. split; [done|]. apply Forall_app. split; [done|by constructor].
Qed.

(** The number of records, and the table, as lookup5 computes them. *)
Lemma records_mapped :
  wrap_s 32 (wrap_u 64 (strlen (concat (rec_bytes <$> rs) ++ tl)) / SIZEOF_DICTREC) = Z.of_nat (length rs) ∧
  recs_of (length rs) (concat (rec_bytes <$> rs) ++ tl) = rs.
Proof using Hrf.
  destruct Hrf as [Hok Htl Hn]. apply rec_ok_shape in Hok. split; [|by apply recs_of_bytes].
  rewrite strlen_app, recs_bytes_length by done. pose proof (strlen_nonneg tl).
  unfold SIZEOF_DICTREC, INT_MAX in *.
  unfold wrap_u. rewrite Z.mod_small by lia.
  replace ((512 * Z.of_nat (length rs) + strlen tl) / 512) with (Z.of_nat (length rs)).
  2: { Z.to_euclidean_division_equations. lia. }
  apply wrap_s_id; lia.
Qed.

Lemma wp_lookup5_open s (Q : unit → st L5 → Prop) E :
  (∀ s', quiet file_call s s' → glob s' = MkL5 rs (Z.of_nat (length rs)) false → Q tt s') →
  (∀ s', quiet file_call s s' → E (Exit 1) s') →
  wp (lookup5_open resource) Q E s.
Proof using Type*.
  intros HQ HE. unfold lookup5_open. apply wp_bind, wp_upd. cbn [glob errno trace].
  apply wp_bind, wp_call. cbn [trace glob]. intros r s1 _ _ _ _ Ht1.
  assert (quiet file_call s s1) as Hq1 by by eapply quiet_step.
  destruct (Z.eqb_spec (rv r) (-1)) as [|Hfd].
  { eapply wp_DIE. intros s' Hs'. apply HE. by etrans. }
  assert (opened resource (rv r) (trace s1)) as Ho1.
  { exists r, (trace s), []. by rewrite Ht1. }
  apply wp_bind, wp_call. intros r2 s2 Hr2 _ _ _ Ht2. rewrite Hr2, (mapped_size _ _ Ho1).
  assert (opened resource (rv r) (trace s2)) as Ho2 by (rewrite Ht2; by apply opened_step).
  assert (quiet file_call s s2) as Hq2 by (etrans; [exact Hq1|by eapply quiet_step]).
  apply wp_bind, wp_call. intros r3 s3 _ _ _ _ Ht3.
  assert (opened resource (rv r) (trace s3)) as Ho3 by (rewrite Ht3; by apply opened_step).
  assert (quiet file_call s s3) as Hq3 by (etrans; [exact Hq2|by eapply quiet_step]).
  apply wp_bind, wp_call. intros r4 s4 Hr4 _ _ _ Ht4.
  assert (quiet file_call s s4) as Hq4 by (etrans; [exact Hq3|by eapply quiet_step]).
  destruct (Z.eqb_spec (rv r4) (-1)) as [|Hm].
  { eapply wp_DIE. intros s' Hs'. apply HE. by etrans. }
  rewrite Hr4 in Hm |- *. rewrite (mapped_bytes _ _ Ho3 Hm).
  destruct records_mapped as [-> Hrecs]. rewrite Nat2Z.id, Hrecs.
  apply wp_bind, wp_put, wp_bind, wp_call. cbn [glob trace]. intros r5 s5 _ Hg5 _ _ Ht5.
  apply wp_ret, HQ; [|done]. etrans; [exact Hq4|by eapply quiet_step].
Qed.

Lemma wp_lookup5 q s (Q : Z * Dictrec → st L5 → Prop) E :
  ready5 s → query q →
  (∀ s' z r, quiet file_call s s' → ready5 s' → query r → c_str (word r) = c_str (word q) →
             answered (find_in rs) (c_str (word q)) z r → Q (z, r) s') →
  (∀ s', quiet file_call s s' → E (Exit 1) s') →
  wp (lookup5 resource q) Q E s.
Proof using Type*.
  intros Hr Hq HQ HE. unfold lookup5. apply wp_bind, wp_get, wp_bind.
  eapply (wp_mono _ (λ _ s', quiet file_call s s' ∧ glob s' = MkL5 rs (Z.of_nat (length rs)) false) _ E E); [| |done].
  { destruct Hr as [Hg|Hg]; rewrite Hg; cbn [first_time5 L5_fresh when].
    - apply wp_lookup5_open; [|done]. by intros.
    - apply wp_ret. by split. }
  intros [] s' [Hq' Hg']. apply wp_bind, wp_get. rewrite Hg'. cbn [table numrec].
  pose proof (bsearch_spec rs (c_str (word q)) Hsorted) as HB.
  destruct (bsearch _ _ _) as [p|].
  - destruct HB as (Hin & Hw & Hf). destruct Hrf as [Hok _ _].
    destruct (proj1 (Forall_forall _ _) Hok _ Hin) as [[[Hpw Hpt] _] Hnul]. destruct Hq as [[Hqw Hqt] Hqn].
    destruct (strcpy_fits (text q) (c_str (text p))) as (b & Hb & Hbc & Hbl & _).
    { rewrite Hqt, <-Hpt. by apply c_str_short. } { apply c_str_no_nul. }
    eapply wp_bind, wp_fits; [exact Hb|]. apply wp_ret, HQ; [done|by right| |done|].
    + split; [split|]; [done|simpl; congruence|done].
    + unfold answered. rewrite Hf. by rewrite <-Hbc.
  - apply wp_ret, HQ; [done|by right|done|done|]. unfold answered. by rewrite HB.
Qed.

(** lookup5 keeps the promise of [Dictionary]. *)
#[export] Instance lookup5_dictionary : Dictionary (lookup5 resource) (find_in rs) L5_fresh file_call.
Proof using Type*.
  refine {| ready := ready5 |}.
  - intros s Hs. by left.
  - intros s s' [Hg _]. unfold ready5. by rewrite Hg.
  - intros q s Hr Hq. apply wp_lookup5; [done|done| |].
    + intros. by repeat (split; [done|]).
    + by intros.
Defined.
End Lookup5Proof.

(** ** lookup1, until the first miss *)

(** The records read since the last rewind. *)
Definition read_since (f : stream) (tr : list event) : nat :=
  foldl (λ n e, match e with
                | Esys (Crewind g) _ => if decide (g = f) then O else n
                | Esys (Cfread g _) _ => if decide (g = f) then Datatypes.S n else n
                | _ => n
                end) O tr.

(** The file has these records, read without errors. *)
Class Records `{os} (resource : cstr) (rs : list Dictrec) := records_reply : ∀ tr,
  match rs !! read_since (Named resource) tr with
  | Some r => rv (kern tr (Cfread (Named resource) SIZEOF_DICTREC)) = 1 ∧
              rdata (kern tr (Cfread (Named resource) SIZEOF_DICTREC)) = rec_bytes r
  | None => rv (kern tr (Cfread (Named resource) SIZEOF_DICTREC)) = 0
  end.

Lemma read_since_read f n r tr : read_since f (tr ++ [Esys (Cfread f n) r]) = Datatypes.S (read_since f tr).
Proof. unfold read_since. rewrite foldl_app. simpl. by rewrite decide_True. Qed.

Lemma read_since_rewind f r tr : read_since f (tr ++ [Esys (Crewind f) r]) = O.
Proof. unfold read_since. rewrite foldl_app. simpl. by rewrite decide_True. Qed.

Section Lookup1Proof.
Context `{os} (resource : cstr) (rs : list Dictrec) (Hok : Forall rec_ok rs) `{!Records resource rs}.
Implicit Types s : st L1.

(** No word up to record [k] is the key. *)
Definition missed (k : nat) (q : cstr) : Prop := find_in rs q = find_in (drop k rs) q.

Lemma missed_S k q r : rs !! k = Some r → missed k q → c_str (word r) ≠ q → missed (Datatypes.S k) q.
Proof.
  intros Hk Hm Hne. unfold missed in *. rewrite Hm. erewrite drop_S by done. simpl.
  by rewrite (proj2 (streq_false _ _) Hne).
Qed.

(** Before the first call, or with the file open. *)
Definition ready1 s : Prop := glob s = MkL1 Null true ∨ glob s = MkL1 Open false.

Lemma wp_lookup1 fuel q s :
  ready1 s → query q → (length rs < fuel)%nat →
  wp (lookup1 fuel resource q)
     (λ '(z, r) s', query r ∧ c_str (word r) = c_str (word q) ∧
        answered (find_in rs) (c_str (word q)) z r ∧
        glob s' = MkL1 (if z =? FOUND then Open else Closed) false)
     (λ t s', t = Undefined "rewind of a null FILE" ∧ glob s = MkL1 Null true ∧
        ∃ r, trace s' = trace s ++ [Esys (Cfopen resource) r] ∧ rv r = -1) s.
Proof using Type*.
  intros Hr Hq Hfuel. unfold lookup1. apply wp_bind, wp_get, wp_bind.
  eapply (wp_mono _ (λ _ s', glob s' = MkL1 Open false ∨
    (glob s' = MkL1 Null false ∧ glob s = MkL1 Null true ∧
     ∃ r, trace s' = trace s ++ [Esys (Cfopen resource) r] ∧ rv r = -1))); [| |intros ?? HE; exact HE].
  { destruct Hr as [Hg|Hg]; rewrite Hg; cbn [first_time1 when].
    - apply wp_bind, wp_call. intros r s1 _ _ _ _ Ht. apply wp_put. cbn [glob trace].
      destruct (Z.eqb_spec (rv r) (-1)); [right|by left]. split; [done|]. split; [done|]. by exists r.
    - apply wp_ret. by left. }
  intros [] s1 [Hg|(Hg & Hg0 & Hbad)]; apply wp_bind, wp_get; rewrite Hg; cbn [in_].
  2: { by apply wp_stop. }
  apply wp_bind, wp_call. intros rw s2 _ Hg2 _ _ Ht2.
  eapply (wp_loop (λ _ s', glob s' = MkL1 Open false ∧ (read_since (Named resource) (trace s') <= length rs)%nat ∧
            missed (read_since (Named resource) (trace s')) (c_str (word q)))
           (λ _ s', (length rs - read_since (Named resource) (trace s'))%nat)).
  { rewrite Ht2, read_since_rewind. split; [congruence|]. split; [lia|done]. }
  { lia. }
  intros [] s3 (Hg3 & Hle & Hm). apply wp_bind, wp_call. intros r s4 Hr4 Hg4 _ _ Ht4.
  pose proof (records_reply (trace s3)) as Hrep. rewrite <-Hr4 in Hrep.
  destruct (rs !! read_since (Named resource) (trace s3)) as [rec|] eqn:Erec.
  - destruct Hrep as [-> ->]. cbn [Z.eqb].
    destruct (proj1 (Forall_forall _ _) Hok rec) as [[Hsh Hwn] Htn]; [by eapply list_elem_of_lookup_2|].
    rewrite rec_of_rec_bytes by done.
    destruct (streq _ _) eqn:Eq.
    + apply streq_true in Eq. destruct Hsh as [_ Ht], Hq as [[Hqw Hqt] Hqn].
      destruct (strcpy_fits (text q) (c_str (text rec))) as (b & Hb & Hbc & Hbl & _).
      { rewrite Hqt, <-Ht. by apply c_str_short. } { apply c_str_no_nul. }
      eapply wp_bind, wp_fits; [exact Hb|]. apply wp_ret. split; [split; [split|]; [done|simpl; congruence|done]|].
      split; [done|]. split; [|by rewrite Hg4, Hg3]. unfold answered. rewrite Hm. erewrite drop_S by done. simpl.
      by rewrite (proj2 (streq_true _ _) Eq), <-Hbc.
    + apply streq_false in Eq. apply wp_ret. rewrite Ht4, read_since_read.
      pose proof (lookup_lt_Some _ _ _ Erec). split; [|lia]. split; [congruence|]. split; [lia|]. by eapply missed_S.
  - rewrite Hrep. cbn [Z.eqb]. apply wp_bind, wp_call. intros r5 s5 _ _ _ _ _. apply wp_bind, wp_put, wp_ret.
    split; [done|]. split; [done|]. split; [|done]. unfold answered. rewrite Hm.
    apply lookup_ge_None in Erec. by rewrite drop_ge.
Qed.

(** After a miss the file is closed, and the next call uses it. *)
Lemma lookup1_closed fuel q s : glob s = MkL1 Closed false →
  (lookup1 fuel resource q s).1 = Stop (Undefined "rewind of a closed FILE").
Proof using. destruct s as [g e tr]. simpl. by intros ->. Qed.
End Lookup1Proof.

(** ** convert writes one padded record per entry *)

Definition pad (n : nat) (s : cstr) : cstr := s ++ replicate (n - length s) NUL.

(** An entry of the text: a word, the lines of its definition. *)
Definition entry : Type := cstr * list cstr.
Definition entry_lines (e : entry) : list cstr := (e.1 ++ [NL]) :: e.2.
Definition record_of (e : entry) : Dictrec := Rec (pad WORD e.1) (pad TEXT (e.1 ++ concat e.2)).

Record entry_ok (e : entry) : Prop := {
  eo_word : (NL ∉ e.1) ∧ (NUL ∉ e.1) ∧ (length e.1 < WORD)%nat;
  eo_lines : Forall (λ l, head l ≠ Some NL ∧ (NUL ∉ l)) e.2;
  eo_text : (length (e.1 ++ concat e.2) < TEXT)%nat }.

(** The lines of a text: entries, each followed by a blank line, and an entry
    that is not. *)
Definition text_lines (es : list entry) (last : option entry) : list cstr :=
  concat ((λ e, entry_lines e ++ [[NL]]) <$> es) ++ from_option entry_lines [] last.

Definition got (f : stream) (tr : list event) : nat :=
  length (filter (λ x, match x.1 with Cfgets_from g _ => bool_decide (g = f) | _ => false end = true) (calls tr)).

(** fgets delivers the lines of the file, then NULL. *)
Class Lines `{os} (f : cstr) (ls : list cstr) := lines_reply : ∀ tr,
  match ls !! got (Named f) tr with
  | Some l => rv (kern tr (Cfgets_from (Named f) BIGLINE)) ≠ 0 ∧ c_str (rdata (kern tr (Cfgets_from (Named f) BIGLINE))) = l
  | None => rv (kern tr (Cfgets_from (Named f) BIGLINE)) = 0
  end.

Lemma strcpy_pad n a b : NUL ∉ b → (length b < n)%nat → a = [] →
  strcpy (pad n a) b = Some (pad n b).
Proof.
  intros Hb Hl ->. unfold strcpy, pad. simpl. rewrite length_replicate, bool_decide_true by lia.
  f_equal. f_equal. rewrite drop_replicate. rewrite Nat.sub_0_r.
  by replace (n - length b)%nat with (Datatypes.S (n - Datatypes.S (length b))) by lia.
Qed.

Lemma c_str_pad n a : NUL ∉ a → c_str (pad n a) = a.
Proof.
  intros Ha. unfold pad. destruct (n - length a)%nat; simpl; [rewrite app_nil_r; by apply c_str_id|by apply c_str_text].
Qed.

Lemma strcat_pad n a b : NUL ∉ a → NUL ∉ b → (length (a ++ b) < n)%nat →
  strcat (pad n a) b = Some (pad n (a ++ b)).
Proof.
  intros Ha Hb Hl. unfold strcat. rewrite c_str_pad by done. rewrite length_app in Hl.
  assert (length (pad n a) = n) as Hp by (unfold pad; rewrite length_app, length_replicate; lia).
  rewrite Hp, bool_decide_true by lia. f_equal. unfold pad. rewrite <-app_assoc. do 2 f_equal.
  rewrite drop_app_ge by lia. rewrite drop_replicate, length_app.
  replace (n - (length a + length b))%nat with (Datatypes.S (n - length a - (Datatypes.S (length a + length b) - length a))) by lia.
  done.
Qed.

(** The effect of a line on the record, and what it writes, while everything
    fits the arrays. *)
Definition conv_line (dr : Dictrec) (is_word : bool) (line : cstr) : option (Dictrec * bool * cstr) :=
  '(line, dr) ← (if is_word then w ← strcpy (word dr) (chomp line); Some (chomp line, Rec w (text dr))
                 else Some (line, dr));
  if bool_decide (head line = Some NL) then Some (zero_rec, true, rec_bytes dr)
  else t ← strcat (text dr) line; Some (Rec (word dr) t, false, []).

Fixpoint conv (ls : list cstr) (dr : Dictrec) (is_word : bool) : option cstr :=
  match ls with
  | [] => Some []
  | l :: ls => '(dr, is_word, o) ← conv_line dr is_word l; (o ++.) <$> conv ls dr is_word
  end.

Lemma chomp_word w tl : NL ∉ w → chomp (w ++ NL :: tl) = w.
Proof. intros Hw. unfold chomp. by rewrite (proj2 (strchr_Some NL _ w tl)). Qed.

Lemma conv_word e : entry_ok e →
  conv_line zero_rec true (e.1 ++ [NL]) = Some (Rec (pad WORD e.1) (pad TEXT e.1), false, []).
Proof.
  intros [(Hnl & Hnul & Hlen) _ Htext]. unfold conv_line. rewrite chomp_word by done.
  change (word zero_rec) with (pad WORD []). rewrite strcpy_pad by done. cbn [mbind option_bind text word].
  rewrite bool_decide_false.
  2: { intros Hh. apply Hnl. destruct e.1 as [|c w]; [done|]. simplify_eq/=. apply elem_of_cons. by left. }
  change (text zero_rec) with (pad TEXT []). rewrite strcat_pad; [done|apply not_elem_of_nil|done|].
  rewrite length_app in Htext. simpl. lia.
Qed.

Lemma conv_defs w t ds rest : NUL ∉ t → Forall (λ l, head l ≠ Some NL ∧ (NUL ∉ l)) ds →
  (length (t ++ concat ds) < TEXT)%nat →
  conv (ds ++ rest) (Rec w (pad TEXT t)) false = conv rest (Rec w (pad TEXT (t ++ concat ds))) false.
Proof.
  intros Ht Hds. revert t Ht. induction Hds as [|l ds [Hl Hn] _ IH]; intros t Ht Hlen.
  - simpl. by rewrite app_nil_r.
  - cbn [app conv]. unfold conv_line. cbn [mbind option_bind text word]. rewrite bool_decide_false by done.
    simpl in Hlen. rewrite app_assoc in Hlen.
    rewrite strcat_pad; [|done..|rewrite length_app in Hlen; lia]. cbn [mbind option_bind].
    rewrite IH; [|by apply not_elem_of_app|done]. simpl. rewrite <-app_assoc. by destruct (conv rest _ _).
Qed.

Lemma conv_text es last : Forall entry_ok es → from_option entry_ok True last →
  conv (text_lines es last) zero_rec true = Some (concat (rec_bytes <$> (record_of <$> es))).
Proof.
  intros Hes Hlast. unfold text_lines. induction Hes as [|e es He Hes IH].
  - simpl. destruct last as [e|]; [|done]. simpl in Hlast |- *. rewrite conv_word by done. simpl.
    destruct Hlast as [(_ & Hn & _) Hd Ht]. rewrite <-(app_nil_r e.2), conv_defs by done. done.
  - cbn [fmap list_fmap concat entry_lines app conv]. rewrite conv_word by done. cbn [mbind option_bind].
    destruct He as [(_ & Hn & _) Hd Ht]. rewrite <-!app_assoc, conv_defs by done.
    cbn [app conv]. unfold conv_line. cbn [mbind option_bind head]. rewrite bool_decide_true by done.
    simpl in IH |- *. by rewrite IH.
Qed.

Section ConvertProof.
Context {S : Type} `{os} (f1 f2 : cstr) (ls : list cstr) `{!Lines f1 ls}.
Implicit Types s : st S.

Lemma got_other f tr e : (∀ n r, e ≠ Esys (Cfgets_from f n) r) → got f (tr ++ [e]) = got f tr.
Proof.
  intros He. unfold got. destruct e as [c r|g t]; [|by rewrite calls_snoc_out].
  rewrite calls_snoc_sys, filter_app, length_app, filter_cons_False; [simpl; lia|].
  simpl. destruct c; try done. intros Hf%bool_decide_eq_true. subst. by eapply He.
Qed.

Lemma got_line f tr n r : got f (tr ++ [Esys (Cfgets_from f n) r]) = Datatypes.S (got f tr).
Proof.
  unfold got. rewrite calls_snoc_sys, filter_app, length_app, filter_cons_True; [simpl; lia|].
  simpl. by rewrite bool_decide_true.
Qed.

Lemma wp_convert_line dr b l dr' b' o (Q : Dictrec * bool → st S → Prop) E s :
  conv_line dr b l = Some (dr', b', o) →
  (∀ s', said (Named f2) (trace s') = said (Named f2) (trace s) ++ o →
         got (Named f1) (trace s') = got (Named f1) (trace s) → Q (dr', b') s') →
  wp (convert_line (Named f2) dr b l) Q E s.
Proof using.
  intros Hc HQ. unfold conv_line in Hc. unfold convert_line.
  assert (∃ l2 dr2, (if b then w ← strcpy (word dr) (chomp l); Some (chomp l, Rec w (text dr)) else Some (l, dr)) = Some (l2, dr2)
          ∧ (if bool_decide (head l2 = Some NL) then Some (zero_rec, true, rec_bytes dr2)
             else t ← strcat (text dr2) l2; Some (Rec (word dr2) t, false, [])) = Some (dr', b', o)) as (l2 & dr2 & E2 & Hc2).
  { destruct (if b then _ else _) as [[l2 dr2]|]; [|done]. by exists l2, dr2. }
  apply wp_bind. eapply (wp_mono _ (λ x s', s' = s ∧ x = (l2, dr2, false)) _ E E); [| |done].
  { destruct b; [|by simplify_eq]. by destruct (strcpy _ _) as [w|] eqn:Ew; simplify_eq/=. }
  intros ? ? [-> ->]. destruct (bool_decide _).
  - injection Hc2 as <- <- <-. apply wp_bind, wp_emit, wp_ret, HQ; cbn [trace]; [apply said_out|by apply got_other].
  - destruct (strcat _ _) as [t|] eqn:Et; [|done]. injection Hc2 as <- <- <-. eapply wp_bind, wp_fits; [done|].
    apply wp_ret, HQ; [by rewrite app_nil_r|done].
Qed.

Lemma wp_convert_main fuel prog es last s :
  ls = text_lines es last → Forall entry_ok es → from_option entry_ok True last →
  got (Named f1) (trace s) = O → (length ls < fuel)%nat →
  wp (convert_main fuel [prog; f1; f2])
     (λ z s', z = 0 ∧ said (Named f2) (trace s') = said (Named f2) (trace s) ++ concat (rec_bytes <$> (record_of <$> es)))
     (λ t s', t = Exit 1 ∧ said (Named f2) (trace s') = said (Named f2) (trace s)) s.
Proof using Type*.
  intros Hls Hes Hlast H0 Hfuel. unfold convert_main.
  assert (∀ {A} msg s1 Q, said (Named f2) (trace s1) = said (Named f2) (trace s) →
    wp (DIE (A:=A) msg) Q (λ t s', t = Exit 1 ∧ said (Named f2) (trace s') = said (Named f2) (trace s)) s1) as HD.
  { intros A msg s1 Q Hs1. unfold DIE, perror_exit, perror, out.
    apply wp_bind, wp_bind, wp_get_errno, wp_emit, wp_stop. cbn [trace]. rewrite said_app, Hs1. split; [done|]. apply app_nil_r. }
  apply wp_bind, wp_call. intros r1 s1 _ _ _ _ Ht1.
  destruct (_ =? _). { apply HD. by rewrite Ht1, said_sys. }
  apply wp_bind, wp_call. intros r2 s2 _ _ _ _ Ht2.
  assert (said (Named f2) (trace s2) = said (Named f2) (trace s)) as Hs2 by by rewrite Ht2, said_sys, Ht1, said_sys.
  destruct (_ =? _). { by apply HD. }
  apply wp_bind. eapply (wp_mono _ (λ _ s', said (Named f2) (trace s') =
    said (Named f2) (trace s) ++ concat (rec_bytes <$> (record_of <$> es)))); [| |intros ?? HE; exact HE].
  2: { intros [] s3 H3. apply wp_bind, wp_call. intros r3 s4 _ _ _ _ Ht4. apply wp_bind, wp_call. intros r4 s5 _ _ _ _ Ht5.
       apply wp_ret. split; [done|]. by rewrite Ht5, said_sys, Ht4, said_sys. }
  eapply (wp_loop (λ '(dr, b) s', ∃ o o', (got (Named f1) (trace s') <= length ls)%nat ∧
            said (Named f2) (trace s') = said (Named f2) (trace s) ++ o ∧
            conv (drop (got (Named f1) (trace s')) ls) dr b = Some o' ∧
            o ++ o' = concat (rec_bytes <$> (record_of <$> es)))
           (λ _ s', (length ls - got (Named f1) (trace s'))%nat)).
  - assert (got (Named f1) (trace s2) = O) as ->.
    { by rewrite Ht2, got_other, Ht1, got_other. }
    exists [], (concat (rec_bytes <$> (record_of <$> es))). rewrite app_nil_r, Hs2, drop_0, Hls.
    split; [lia|]. split; [done|]. split; [by apply conv_text|done].
  - lia.
  - intros [dr b] s3 (o & o' & Hle & Hsaid & Hconv & Ho). apply wp_bind, wp_call. intros r s4 Hr _ _ _ Ht4.
    pose proof (lines_reply (trace s3)) as Hrep. rewrite <-Hr in Hrep.
    destruct (ls !! got (Named f1) (trace s3)) as [l|] eqn:El.
    + destruct Hrep as [Hnz ->]. rewrite (proj2 (Z.eqb_neq _ _) Hnz). erewrite drop_S in Hconv by done. cbn [conv] in Hconv.
      destruct (conv_line dr b l) as [[[dr' b'] o1]|] eqn:Ecl; [|done]. cbn [mbind option_bind] in Hconv.
      apply fmap_Some in Hconv as (o2 & Hconv & ->).
      apply wp_bind. eapply wp_convert_line; [exact Ecl|]. intros s5 Hs5 Hg5. rewrite Ht4, said_sys in Hs5.
      rewrite Ht4, got_line in Hg5. pose proof (lookup_lt_Some _ _ _ El). apply wp_ret. rewrite Hg5. split; [|lia].
      exists (o ++ o1), o2. split; [lia|]. split; [by rewrite Hs5, Hsaid, app_assoc|]. split; [done|by rewrite <-app_assoc].
    + rewrite Hrep. cbn [Z.eqb]. apply wp_ret. rewrite Ht4, said_sys, Hsaid. apply lookup_ge_None in El.
      rewrite drop_ge in Hconv by done. simplify_eq/=. rewrite app_nil_r in Ho. by rewrite Ho.
Qed.
End ConvertProof.

(** ** The properties *)

(** What the entries of a text mean: as convert writes them, the text of an
    entry starts with its word. *)
Fixpoint meaning (es : list entry) (q : cstr) : option cstr :=
  match es with
  | [] => None
  | e :: es => if streq e.1 q then Some (e.1 ++ concat e.2) else meaning es q
  end.

Lemma not_elem_concat c (ls : list cstr) : Forall (λ l, c ∉ l) ls → c ∉ concat ls.
Proof. induction 1; simpl; [apply not_elem_of_nil|]. by apply not_elem_of_app. Qed.

Lemma record_of_ok e : entry_ok e → rec_ok (record_of e) ∧ c_str (word (record_of e)) = e.1 ∧
  c_str (text (record_of e)) = e.1 ++ concat e.2.
Proof.
  intros [(Hnl & Hnul & Hlen) Hd Ht].
  assert (NUL ∉ e.1 ++ concat e.2) as Htn.
  { apply not_elem_of_app. split; [done|]. apply not_elem_concat. eapply Forall_impl; [exact Hd|]. by intros l [_ ?]. }
  assert (∀ n a, (length a < n)%nat → length (pad n a) = n ∧ NUL ∈ pad n a) as Hpad.
  { intros n a Ha. unfold pad. split; [rewrite length_app, length_replicate; lia|].
    apply elem_of_app. right. apply elem_of_replicate. split; [done|lia]. }
  unfold record_of; simpl. rewrite !c_str_pad by done. split; [|done].
  destruct (Hpad WORD e.1), (Hpad TEXT (e.1 ++ concat e.2)); [done..|]. by repeat split.
Qed.

Lemma find_in_records es q : Forall entry_ok es → find_in (record_of <$> es) q = meaning es q.
Proof.
  induction 1 as [|e es He _ IH]; [done|]. cbn [fmap list_fmap find_in meaning].
  destruct (record_of_ok e He) as (_ & -> & ->). by rewrite IH.
Qed.

Lemma records_inj rs rs' : Forall shape rs → Forall shape rs' →
  concat (rec_bytes <$> rs) = concat (rec_bytes <$> rs') → rs = rs'.
Proof.
  intros Hr Hr' E. pose proof (recs_bytes_length rs Hr) as L. pose proof (recs_bytes_length rs' Hr') as L'.
  rewrite E, L' in L. unfold SIZEOF_DICTREC in L. assert (length rs = length rs') as Hlen by lia.
  pose proof (recs_of_bytes rs [] Hr) as R. pose proof (recs_of_bytes rs' [] Hr') as R'. congruence.
Qed.

(** C20: convert, then lookup1.  From a text of entries (the last one possibly
    without its blank line) convert writes a file in which lookup1 finds
    exactly the entries followed by a blank line, with the word itself in
    front of the definition; a miss closes the file, and any further call
    uses the closed file.  The only failures are files that cannot be
    opened. *)
Theorem convert_lookup1_roundtrip `{os} (f1 f2 prog : cstr) (es : list entry) (last : option entry) fuel :
  Lines f1 (text_lines es last) → Forall entry_ok es → from_option entry_ok True last →
  (length (text_lines es last) < fuel)%nat →
  wp (convert_main fuel [prog; f1; f2])
     (λ z s, z = 0 ∧ ∀ (o2 : os) rs, Forall shape rs → concat (rec_bytes <$> rs) = said (Named f2) (trace s) →
        @Records o2 f2 rs → ∀ fuel2 q s2, ready1 s2 → query q → (length rs < fuel2)%nat →
        wp (@lookup1 o2 fuel2 f2 q)
          (λ '(z, r) s3, c_str (word r) = c_str (word q) ∧ answered (meaning es) (c_str (word q)) z r ∧
             (z = FOUND → ready1 s3) ∧
             (z = NOTFOUND → ∀ q', (@lookup1 o2 fuel2 f2 q' s3).1 = Stop (Undefined "rewind of a closed FILE")))
          (λ t s3, t = Undefined "rewind of a null FILE" ∧
             ∃ r, trace s3 = trace s2 ++ [Esys (Cfopen f2) r] ∧ rv r = -1) s2)
     (λ t s, t = Exit 1 ∧ said (Named f2) (trace s) = []) (init tt).
Proof.
  intros Hl Hes Hlast Hfuel. eapply wp_mono; [by eapply wp_convert_main| |].
  2: { intros t s [-> Hs]. by split. }
  intros z s [-> Hs]. split; [done|]. simpl in Hs. intros o2 rs Hrs Hb Hrec fuel2 q s2 Hr Hq Hf.
  assert (Forall rec_ok (record_of <$> es)) as Hok.
  { apply Forall_fmap. eapply Forall_impl; [exact Hes|]. intros e He. by apply record_of_ok. }
  assert (rs = record_of <$> es) as ->.
  { apply records_inj; [done|by apply rec_ok_shape|congruence]. }
  eapply wp_mono; [by eapply (wp_lookup1 f2 (record_of <$> es))| |].
  - intros [z r] s3 (Hqr & Hw & Ha & Hg). split; [done|]. unfold answered in *. rewrite find_in_records in Ha by done.
    split; [done|]. split; intros ->; [by right|]. intros q'. by apply lookup1_closed.
  - intros t s3 (-> & _ & Hbad). by split.
Qed.

(** The dictionary program with lookup5, on any file of records in strict
    dictionary order (the last one possibly cut short): for every line typed
    it prints the meaning of the word, or that it is not found, and ends with
    the input; or opening or mapping the file failed and it exits with 1. *)
Theorem lookup5_main_correct `{os} resource rs tl ls prog tryit fuel :
  record_file rs tl → sorted rs → Mapped resource (concat (rec_bytes <$> rs) ++ tl) → Typed ls →
  shape tryit → (length ls < fuel)%nat →
  wp (dict_main (lookup5 resource) fuel [prog; resource] tryit)
     (λ z s, z = 0 ∧ said Stdout (trace s) = concat (answer_line (find_in rs) <$> ls))
     (λ t s, t = Exit 1 ∧ ∃ k, said Stdout (trace s) = concat (answer_line (find_in rs) <$> take k ls))
     (init L5_fresh).
Proof.
  intros Hrf Hs Hm Ht Htry Hfuel.
  pose proof (lookup5_dictionary resource rs tl Hrf Hs) as HD.
  exact (wp_dict_main (lookup5 resource) (find_in rs) L5_fresh file_call (λ _, eq_refl) ls fuel prog resource
    tryit (init L5_fresh) eq_refl Htry eq_refl Hfuel).
Qed.

(** *** Witnesses *)

Definition demo_es : list entry := [(str "ant", [str "an insect" ++ [NL]]); (str "bee", [str "another" ++ [NL]; str "insect" ++ [NL]])].
Definition demo_rs : list Dictrec := record_of <$> demo_es.
Definition demo_text : list cstr := text_lines demo_es (Some (str "cow", [])).

Definition text_os : os := test_os (λ tr c,
  match c with
  | Cfgets_from f _ => match demo_text !! got f tr with Some l => Reply 1 0 l [] | None => ok 0 end
  | _ => ok 1
  end).

Lemma text_os_Lines f : @Lines text_os f demo_text.
Proof.
  intros tr. cbn [kern text_os test_os]. destruct (demo_text !! got (Named f) tr) as [l|] eqn:E; [|done].
  split; [done|]. cbn [rdata]. apply c_str_id.
  assert (Forall (λ l, NUL ∉ l) demo_text) as Hf.
  { unfold demo_text, text_lines. apply (bool_decide_unpack _). vm_compute. exact I. }
  rewrite Forall_forall in Hf. apply Hf. by eapply list_elem_of_lookup_2.
Qed.

Lemma demo_entries : Forall entry_ok demo_es.
Proof.
  repeat (apply Forall_cons_2; [split; [split_and!|..]; try (apply (bool_decide_unpack _); vm_compute; exact I);
    vm_compute; lia|]). by apply Forall_nil_2.
Qed.

(** A system with files of records: reads and maps of [rs], and words typed. *)
Definition dict_os (rs : list Dictrec) (ls : list cstr) : os := test_os (λ tr c,
  match c with
  | Cfgets _ => match ls !! asked tr with Some l => Reply 1 0 l [] | None => ok 0 end
  | Cfread f _ => match rs !! read_since f tr with Some r => Reply 1 0 (rec_bytes r) [] | None => ok 0 end
  | Clseek _ _ _ => ok (strlen (concat (rec_bytes <$> rs) ++ []))
  | Cmmap _ _ => Reply 4096 0 (concat (rec_bytes <$> rs) ++ []) []
  | Cftruncate _ _ => fail EINVAL
  | _ => ok 3
  end).

Lemma dict_os_Records rs ls f : @Records (dict_os rs ls) f rs.
Proof. intros tr. cbn [kern dict_os test_os]. by destruct (rs !! _). Qed.

Lemma dict_os_Mapped rs ls f : @Mapped (dict_os rs ls) f (concat (rec_bytes <$> rs) ++ []).
Proof. by split. Qed.

Lemma dict_os_Typed rs ls : Forall (λ l, (NUL ∉ l) ∧ (length l < WORD)%nat ∧ last l = Some NL) ls → @Typed (dict_os rs ls) ls.
Proof.
  intros Hls. rewrite Forall_forall in Hls. split; [done|]. intros tr. cbn [kern dict_os test_os].
  destruct (ls !! asked tr) as [l|] eqn:E; [|done]. split; [done|]. cbn [rdata]. apply c_str_id.
  apply Hls. by eapply list_elem_of_lookup_2.
Qed.

Definition demo_query (w : cstr) : Dictrec := Rec (pad WORD w) (pad TEXT []).
Lemma demo_query_ok w : (length w < WORD)%nat → query (demo_query w).
Proof.
  intros Hw. split; [split; [simpl; unfold pad; rewrite length_app, length_replicate; lia|done]|].
  simpl. unfold pad. apply elem_of_app. right. apply elem_of_replicate. split; [done|lia].
Qed.

Lemma demo_rs_ok : Forall rec_ok demo_rs.
Proof. apply Forall_fmap. eapply Forall_impl; [apply demo_entries|]. intros e He. by apply record_of_ok. Qed.

Lemma demo_sorted : sorted demo_rs.
Proof.
  intros i j a b Hi Hj Hij. pose proof (lookup_lt_Some _ _ _ Hj) as Hl. simpl in Hl.
  assert (i = 0%nat ∧ j = 1%nat) as [-> ->] by (unfold demo_rs, demo_es in Hl; simpl in Hl; lia).
  injection Hi as <-. injection Hj as <-. vm_compute. reflexivity.
Qed.

Lemma demo_record_file : record_file demo_rs [].
Proof. split; [apply demo_rs_ok|done|vm_compute; discriminate]. Qed.

Definition demo_typed : list cstr := [str "bee" ++ [NL]; str "cow" ++ [NL]].
Lemma demo_typed_ok : Forall (λ l, (NUL ∉ l) ∧ (length l < WORD)%nat ∧ last l = Some NL) demo_typed.
Proof.
  repeat (apply Forall_cons_2; [split_and!; [apply (bool_decide_unpack _); vm_compute; exact I|vm_compute; lia|done]|]).
  by apply Forall_nil_2.
Qed.

Theorem convert_lookup1_witness :
  let o := text_os in
  wp (convert_main 20 [str "convert"; str "in"; str "out"])
     (λ z s, z = 0 ∧
        wp (@lookup1 (dict_os demo_rs []) 3 (str "out") (demo_query (str "bee")))
          (λ '(z, r) s3, c_str (word r) = c_str (word (demo_query (str "bee"))) ∧
             answered (meaning demo_es) (c_str (word (demo_query (str "bee")))) z r ∧ (z = FOUND → ready1 s3))
          (λ t s3, t = Undefined "rewind of a null FILE") (init (MkL1 Null true)))
     (λ t s, t = Exit 1) (init tt).
Proof.
  intros o.
  assert (length (text_lines demo_es (Some (str "cow", []))) < 20)%nat as Hfuel by (vm_compute; lia).
  assert (entry_ok (str "cow", [])) as Hlast.
  { split; [split_and!|..]; try (apply (bool_decide_unpack _); vm_compute; exact I). }
  pose proof (@convert_lookup1_roundtrip o (str "in") (str "out") (str "convert") demo_es (Some (str "cow", []))
    20 (text_os_Lines _) demo_entries Hlast Hfuel) as HC.
  eapply wp_mono; [exact (wp_frame _ _ _ _ HC)| |].
  2: { intros t s [[-> _] _]. done. }
  intros z s [[-> Hall] Hrun]. split; [done|].
  assert (concat (rec_bytes <$> demo_rs) = said (Named (str "out")) (trace s)) as Hs.
  { transitivity (said (Named (str "out")) (trace (convert_main 20 [str "convert"; str "in"; str "out"] (init tt)).2)).
    - vm_compute. reflexivity.
    - exact (f_equal (λ x, said (Named (str "out")) (trace x.2)) Hrun). }
  eapply wp_mono.
  { eapply (Hall (dict_os demo_rs []) demo_rs (rec_ok_shape _ demo_rs_ok) Hs (dict_os_Records _ _ _) 3%nat).
    - by left.
    - apply demo_query_ok. vm_compute. lia.
    - vm_compute. lia. }
  - intros [z r] s3 (Hw & Ha & Hf & _). exact (conj Hw (conj Ha Hf)).
  - intros t s3 [Ht _]. exact Ht.
Defined.

Theorem lookup5_main_witness :
  let o := dict_os demo_rs demo_typed in
  wp (dict_main (lookup5 (str "dict")) 5 [str "main"; str "dict"] (demo_query []))
     (λ z s, z = 0 ∧ said Stdout (trace s) = str "bee : beeanother" ++ [NL] ++ str "insect" ++ [NL] ++ str "cow : Not Found!" ++ [NL])
     (λ t s, t = Exit 1) (init L5_fresh).
Proof.
  intros o. eapply wp_mono.
  { eapply (@lookup5_main_correct o (str "dict") demo_rs [] demo_typed (str "main") (demo_query []) 5).
    - apply demo_record_file.
    - apply demo_sorted.
    - apply dict_os_Mapped.
    - apply dict_os_Typed, demo_typed_ok.
    - apply demo_query_ok. vm_compute. lia.
    - vm_compute. lia. }
  - intros z s [-> Hs]. split; [done|]. rewrite Hs. vm_compute. reflexivity.
  - by intros t s [-> _].
Defined.
