(* ===== verification/DictNet.v ===== *)
(** The dictionary over sockets (homework/hw11): clients that ask a server
    (lookup7.c, a Unix stream socket; lookup8.c, an Internet stream socket;
    lookup9.c, datagrams) and the servers (usock_server.c, isock_server.c,
    udp_server.c), which call any version of lookup.

    Clients and servers meet in [answers]: what a server replies to a query.
    A client is a [Dictionary] if its kernel delivers such replies, and a
    server over a [Dictionary] sends such replies. *)
From S2P Require Import Prelude Sys Dict DictLookup.

(** ** Addresses *)

Definition AF_UNIX : Z := 1.
Definition AF_INET : Z := 2.
Definition SOCK_STREAM : Z := 1.
Definition SOCK_DGRAM : Z := 2.
Definition PORT : Z := 5678.
Definition SUN_PATH : nat := 108.

Definition sockaddr_un (path : cstr) : cstr := le16 AF_UNIX ++ pad SUN_PATH path.
(** The port in network byte order. *)
Definition sockaddr_in (addr : cstr) : cstr :=
  le16 AF_INET ++ [chr (PORT / 256); chr PORT] ++ addr ++ replicate 8 NUL.
Definition INADDR_ANY : cstr := replicate 4 NUL.

(** recv into a record: the bytes received over the old ones. *)
Definition received (r : Dictrec) (data : cstr) : Dictrec :=
  let bs := rec_bytes r in rec_of (data ++ drop (length data) bs).

Definition XXXX : cstr := str "XXXX".

(** ** The clients *)

Record Conn := MkConn { sockfd : Z; server : cstr; first_time : bool }.

Section Clients.
Context `{os}.

(** What the three versions share: [start] on the first call, then a record
    sent and a record received. *)
Definition query_server (start : M Conn unit) (ask : Conn → cstr → call) (hear : Conn → call)
    (msg1 msg2 : cstr) (sought : Dictrec) : M Conn (Z * Dictrec) :=
  g ← get;
  when (first_time g) (upd (λ g, MkConn (sockfd g) (server g) false);; start);;
  g ← get;
  r ← sys (ask g (rec_bytes sought));
  if rv r =? -1 then DIE msg1 else
  r ← sys (hear g);
  if rv r =? -1 then DIE msg2 else
  let sought := received sought (rdata r) in
  mret (if negb (streq (c_str (text sought)) XXXX) then (FOUND, sought) else (NOTFOUND, sought)).

(** The address copied into the array sun_path. *)
Definition copy_path {S} (sun_path path : cstr) : M S cstr := fits (strcpy sun_path path).

Definition start7 (resource : cstr) : M Conn unit :=
  r ← sys (Csocket AF_UNIX SOCK_STREAM 0);
  if rv r =? -1 then DIE (str "socket") else
  path ← copy_path (pad SUN_PATH []) resource;
  put (MkConn (rv r) (le16 AF_UNIX ++ path) false);;
  c ← sys (Cconnect (rv r) (le16 AF_UNIX ++ path));
  if rv c =? -1 then DIE (str "connect") else mret tt.

Definition lookup7 (resource : cstr) : Dictrec → M Conn (Z * Dictrec) :=
  query_server (start7 resource) (λ g, Csend (sockfd g)) (λ g, Crecv (sockfd g) SIZEOF_DICTREC)
    (str "send query to server") (str "client recv response").

Definition start8 (resource : cstr) : M Conn unit :=
  h ← sys (Cgethostbyname resource);
  if rv h =? 0 then DIE (str "gethostbyname") else
  r ← sys (Csocket AF_INET SOCK_STREAM 0);
  if rv r =? -1 then DIE (str "socket") else
  put (MkConn (rv r) (sockaddr_in (rdata h)) false);;
  c ← sys (Cconnect (rv r) (sockaddr_in (rdata h)));
  if rv c =? -1 then DIE (str "connect") else mret tt.

Definition lookup8 (resource : cstr) : Dictrec → M Conn (Z * Dictrec) :=
  query_server (start8 resource) (λ g, Csend (sockfd g)) (λ g, Crecv (sockfd g) SIZEOF_DICTREC)
    (str "send query to server") (str "client recv response").

Definition start9 (resource : cstr) : M Conn unit :=
  h ← sys (Cgethostbyname resource);
  if rv h =? 0 then DIE (str "gethostbyname") else
  r ← sys (Csocket AF_INET SOCK_DGRAM 0);
  if rv r =? -1 then DIE (str "socket") else
  put (MkConn (rv r) (sockaddr_in (rdata h)) false).

Definition lookup9 (resource : cstr) : Dictrec → M Conn (Z * Dictrec) :=
  query_server (start9 resource) (λ g b, Csendto (sockfd g) b (server g))
    (λ g, Crecvfrom (sockfd g) SIZEOF_DICTREC) (str "sendto") (str "recvfrom").
End Clients.

(** ** The servers, over a version of lookup *)

Section Servers.
Context {S : Type} `{os} (lookup : Dictrec → M S (Z * Dictrec)).

(** The switch on the result of lookup; [reply] is the call that sends it. *)
Definition respond_net (reply : cstr → call) (msg resource : cstr) (tryit : Dictrec) : M S Dictrec :=
  '(z, tryit) ← lookup tryit;
  if z =? FOUND then
    r ← sys (reply (rec_bytes tryit));
    if rv r =? -1 then DIE msg else mret tryit
  else if z =? NOTFOUND then
    t ← fits (strcpy (text tryit) XXXX);
    let tryit := Rec (word tryit) t in
    r ← sys (reply (rec_bytes tryit));
    if rv r =? -1 then DIE msg else mret tryit
  else if z =? UNAVAIL then DIE resource
  else mret tryit.

(** The dialogue of a child with its client. *)
Definition serve_request (resource : cstr) (cd : Z) (tryit : Dictrec) : M S (Dictrec + unit) :=
  r ← sys (Crecv cd SIZEOF_DICTREC);
  if rv r <=? 0 then mret (inr tt) else
  tryit ← respond_net (Csend cd) (str "send") resource (received tryit (rdata r));
  mret (inl tryit).

Definition dialog (fuel : nat) (resource : cstr) (cd : Z) : Dictrec → M S unit :=
  loop fuel (serve_request resource cd).

(** One turn of the accept loop; the child never comes back. *)
Definition serve_client (fuel : nat) (resource : cstr) (sd : Z) (tryit : Dictrec) : M S (unit + unit) :=
  c ← sys (Caccept sd);
  if rv c =? -1 then DIE (str "accept") else
  f ← sys Cfork;
  if rv f =? -1 then DIE (str "fork")
  else if rv f =? 0 then
    sys (Cclose sd);;
    dialog fuel resource (rv c) tryit;;
    stop_with (Exit 0)
  else
    sys (Cclose (rv c));;
    mret (inl tt).

(** [sun_path] and [tryit] are automatic variables: any contents. *)
Definition usock_server_main (fuel : nat) (argv : list cstr) (sun_path : cstr) (tryit : Dictrec) : M S unit :=
  match argv with
  | [_; resource; path] =>
      sd ← sys (Csocket AF_UNIX SOCK_STREAM 0);
      p ← copy_path sun_path path;
      sys (Cunlink (c_str p));;
      r ← sys (Cbind (rv sd) (le16 AF_UNIX ++ p));
      if rv r =? -1 then DIE (str "bind") else
      r ← sys (Clisten (rv sd) 5);
      if rv r =? -1 then DIE (str "listen") else
      out Stdout (str "Server is listening..." ++ [NL]);;
      loop fuel (λ _, serve_client fuel resource (rv sd) tryit) tt
  | _ =>
      out Stderr (str "Usage : " ++ default [] (argv !! 0%nat) ++ str " <dictionary source><Socket name>" ++ [NL]);;
      e ← get_errno;
      stop_with (Exit e)
  end.

Definition isock_server_main (fuel : nat) (argv : list cstr) (tryit : Dictrec) : M S unit :=
  match argv with
  | [_; resource] =>
      sd ← sys (Csocket AF_INET SOCK_STREAM 0);
      r ← sys (Cbind (rv sd) (sockaddr_in INADDR_ANY));
      if rv r =? -1 then DIE (str "bind") else
      r ← sys (Clisten (rv sd) 5);
      if rv r =? -1 then DIE (str "listen") else
      loop fuel (λ _, serve_client fuel resource (rv sd) tryit) tt
  | _ =>
      out Stderr (str "Usage : " ++ default [] (argv !! 0%nat) ++ str " <datafile>" ++ [NL]);;
      stop_with (Exit 1)
  end.

(** The address recvfrom stores. *)
Definition sender (r : reply) : cstr := match rents r with (a, _) :: _ => a | [] => [] end.

(** One datagram, or the end of the inner loop. *)
Definition serve_datagram (resource : cstr) (fd : Z) (tryit : Dictrec) : M S (Dictrec + Dictrec) :=
  r ← sys (Crecvfrom fd SIZEOF_DICTREC);
  if rv r <=? 0 then mret (inr tryit) else
  tryit ← respond_net (λ b, Csendto fd b (sender r)) (str "sendto") resource (received tryit (rdata r));
  mret (inl tryit).

Definition udp_server_main (fuel : nat) (argv : list cstr) (dr : Dictrec) : M S unit :=
  match argv with
  | [_; resource] =>
      s ← sys (Csocket AF_INET SOCK_DGRAM 0);
      if rv s =? -1 then DIE (str "socket") else
      r ← sys (Cbind (rv s) (sockaddr_in INADDR_ANY));
      if rv r =? -1 then DIE (str "bind") else
      loop fuel (λ dr, dr ← loop fuel (serve_datagram resource (rv s)) dr; mret (inl dr)) dr
  | _ =>
      out Stderr (str "Usage : " ++ default [] (argv !! 0%nat) ++ str " <datafile>" ++ [NL]);;
      e ← get_errno;
      stop_with (Exit e)
  end.
End Servers.

(** ** What a server answers *)

Definition answers (find : cstr → option cstr) (q a : Dictrec) : Prop :=
  query a ∧ c_str (word a) = c_str (word q) ∧ c_str (text a) = default XXXX (find (c_str (word q))).

Lemma received_record t q : shape t → shape q → received t (rec_bytes q) = q.
Proof.
  intros Ht Hq. unfold received. rewrite rec_bytes_length by done.
  rewrite drop_ge by (rewrite rec_bytes_length by done; lia). by apply rec_of_bytes.
Qed.

(** ** A client is a dictionary *)

Definition net_call (c : call) : bool :=
  match c with
  | Csocket _ _ _ | Cconnect _ _ | Csend _ _ | Crecv _ _ | Csendto _ _ _ | Crecvfrom _ _
  | Cgethostbyname _ => true
  | _ => false
  end.

Section ClientProof.
Context `{os} (find : cstr → option cstr) (Hfind : ∀ q, find q ≠ Some XXXX).
Context (start : M Conn unit) (ask : Conn → cstr → call) (hear : Conn → call) (msg1 msg2 : cstr).
(** When the static variables lead to the server. *)
Context (linked : Conn → list event → Prop).

(** The server at the other end: a query sent is answered, or receiving
    fails. *)
Class Remote := remote_reply : ∀ g tr q r, linked g tr → query q → rv r ≠ -1 →
  let a := kern (tr ++ [Esys (ask g (rec_bytes q)) r]) (hear g) in
  rv a = -1 ∨ ∃ a', rdata a = rec_bytes a' ∧ answers find q a'.

Record starts : Prop := {
  start_ok : ∀ s, glob s = MkConn 0 [] false →
    wp start (λ _ s', quiet net_call s s' ∧ first_time (glob s') = false ∧ linked (glob s') (trace s'))
             (λ t s', t = Exit 1 ∧ quiet net_call s s') s;
  linked_idle : ∀ g tr e, linked g tr → idle_event e → linked g (tr ++ [e]);
  ask_net : ∀ g b r, net_call (ask g b) = true ∧ idle_event (Esys (ask g b) r);
  hear_net : ∀ g r, net_call (hear g) = true ∧ idle_event (Esys (hear g) r) }.

Context (Hstarts : starts) `{!Remote}.
Implicit Types s : st Conn.

Definition Conn_fresh : Conn := MkConn 0 [] true.
Definition ready_client s : Prop :=
  glob s = Conn_fresh ∨ first_time (glob s) = false ∧ linked (glob s) (trace s).

Lemma linked_idles g tr l : linked g tr → Forall idle_event l → linked g (tr ++ l).
Proof using Hstarts.
  intros Hl Hi. revert tr Hl. induction Hi as [|e l He _ IH]; intros tr Hl; [by rewrite app_nil_r|].
  replace (tr ++ e :: l) with ((tr ++ [e]) ++ l) by by rewrite <-app_assoc. by apply IH, Hstarts.
Qed.

Lemma wp_query_server q s (Q : Z * Dictrec → st Conn → Prop) E :
  ready_client s → query q →
  (∀ s' z r, quiet net_call s s' → ready_client s' → query r → c_str (word r) = c_str (word q) →
             answered find (c_str (word q)) z r → Q (z, r) s') →
  (∀ s', quiet net_call s s' → E (Exit 1) s') →
  wp (query_server start ask hear msg1 msg2 q) Q E s.
Proof using Type*.
  intros Hr Hq HQ HE. unfold query_server. apply wp_bind, wp_get, wp_bind.
  eapply (wp_mono _ (λ _ s', quiet net_call s s' ∧ first_time (glob s') = false ∧ linked (glob s') (trace s'))
                    _ (λ t s', t = Exit 1 ∧ quiet net_call s s')).
  { destruct Hr as [Hg|[Hf Hl]].
    - rewrite Hg. simpl when. apply wp_bind, wp_upd. rewrite Hg. by apply (start_ok Hstarts (St _ _ _)).
    - rewrite Hf. by apply wp_ret. }
  2: { intros t s' [-> Hs']. by apply HE. }
  intros [] s1 (Hq1 & Hf & Hl). apply wp_bind, wp_get, wp_bind, wp_call. intros r s2 _ Hg2 _ _ Ht2.
  destruct (ask_net Hstarts (glob s1) (rec_bytes q) r) as [Hn Hi].
  assert (quiet net_call s s2) as Hq2 by by eapply quiet_snoc.
  destruct (Z.eqb_spec (rv r) (-1)) as [|Hok]. { eapply wp_DIE. intros s' Hs'. apply HE. by etrans. }
  pose proof (remote_reply _ _ _ _ Hl Hq Hok) as Hrep. rewrite <-Ht2 in Hrep.
  apply wp_bind, wp_call. intros a s3 Ha Hg3 _ _ Ht3. simpl in Hrep. rewrite <-Ha in Hrep.
  destruct (hear_net Hstarts (glob s1) a) as [Hn3 Hi3].
  assert (quiet net_call s s3) as Hq3 by by eapply quiet_snoc.
  destruct (Z.eqb_spec (rv a) (-1)) as [|Hok3]. { eapply wp_DIE. intros s' Hs'. apply HE. by etrans. }
  destruct Hrep as [|(a' & -> & (Hqa & Hwa & Hta))]; [done|].
  destruct Hq as [Hshape Hqn]. rewrite received_record by (apply Hqa || done).
  assert (ready_client s3) as Hr3.
  { right. rewrite Hg3, Hg2, Ht3, Ht2. split; [done|]. by apply Hstarts; [apply Hstarts|]. }
  unfold answered in HQ. destruct (streq (c_str (text a')) XXXX) eqn:Ex; simpl; apply wp_ret, HQ; try done.
  - apply streq_true in Ex. destruct (find _) as [t|] eqn:Ef; [|done]. simpl in Hta. destruct (Hfind (c_str (word q))). congruence.
  - apply streq_false in Ex. by destruct (find _) as [t|].
Qed.

Lemma client_dictionary : Dictionary (query_server start ask hear msg1 msg2) find Conn_fresh net_call.
Proof using Type*.
  refine {| ready := ready_client |}.
  - intros s Hs. by left.
  - intros s s' [Hg [l [Ht Hl]]] [Hr|[Hf Hlk]]; [left; congruence|right]. rewrite Hg, Ht.
    split; [done|by apply linked_idles].
  - intros q s Hr Hq. apply wp_query_server; [done|done| |].
    + intros. by repeat (split; [done|]).
    + by intros.
Defined.
End ClientProof.

(** *** The three clients *)

(** A connection to an address, still open. *)
Definition connected (addr : cstr) (g : Conn) (tr : list event) : Prop :=
  ∃ r tr1 tr2, tr = tr1 ++ Esys (Cconnect (sockfd g) addr) r :: tr2 ∧ rv r ≠ -1 ∧ Forall idle_event tr2.

Lemma connected_idle addr g tr e : connected addr g tr → idle_event e → connected addr g (tr ++ [e]).
Proof.
  intros (r & tr1 & tr2 & -> & Hr & Hl) He. exists r, tr1, (tr2 ++ [e]). rewrite <-app_assoc.
  split; [done|]. split; [done|]. apply Forall_app. by repeat constructor.
Qed.

Section Three.
Context `{os} (find : cstr → option cstr) (Hfind : ∀ q, find q ≠ Some XXXX) (resource : cstr).
Context (Hlen : (length resource < SUN_PATH)%nat) (Hnul : NUL ∉ resource).

(** The host has at most one address. *)
Class Resolves (addr : cstr) := resolves : ∀ tr,
  rv (kern tr (Cgethostbyname resource)) = 0 ∨ rdata (kern tr (Cgethostbyname resource)) = addr.

Definition tcp_ask (g : Conn) : cstr → call := Csend (sockfd g).
Definition tcp_hear (g : Conn) : call := Crecv (sockfd g) SIZEOF_DICTREC.
Definition udp_ask (g : Conn) (b : cstr) : call := Csendto (sockfd g) b (server g).
Definition udp_hear (g : Conn) : call := Crecvfrom (sockfd g) SIZEOF_DICTREC.

(** Steps of the first call: each call may fail, and is one of [net_call]. *)
Ltac net_step q r s :=
  let Ht := fresh "Ht" in let Hg := fresh "Hg" in
  apply wp_bind, wp_call; cbn [glob trace]; intros r s ? Hg _ _ Ht;
  assert (quiet net_call q s) by (first [by eapply quiet_step | by eapply quiet_snoc]).
Ltac net_fail := eapply wp_DIE; intros ? ?; split; [done|by etrans].

Lemma starts7 : starts (start7 resource) tcp_ask tcp_hear (connected (sockaddr_un resource)).
Proof using Hlen Hnul.
  split; [|by intros; apply connected_idle|done..]. intros s Hg0. unfold start7, copy_path.
  net_step s r s1. destruct (Z.eqb_spec (rv r) (-1)); [net_fail|].
  rewrite strcpy_pad by done. apply wp_bind, wp_ret, wp_bind, wp_put.
  apply wp_bind, wp_call. cbn [glob trace]. intros c s2 _ Hg2 _ _ Ht2.
  assert (quiet net_call s s2) by by eapply quiet_snoc.
  destruct (Z.eqb_spec (rv c) (-1)) as [|Hc]; [net_fail|]. apply wp_ret. rewrite Hg2. split; [done|]. split; [done|].
  exists c, (trace s1), []. rewrite Ht2. by split_and!.
Qed.

Lemma starts8 addr `{!Resolves addr} : starts (start8 resource) tcp_ask tcp_hear (connected (sockaddr_in addr)).
Proof using.
  split; [|by intros; apply connected_idle|done..]. intros s Hg0. unfold start8.
  net_step s h s1. destruct (Z.eqb_spec (rv h) 0); [net_fail|].
  destruct (resolves (trace s)) as [|Ha]; [congruence|].
  net_step s r s2. destruct (Z.eqb_spec (rv r) (-1)); [net_fail|]. apply wp_bind, wp_put.
  apply wp_bind, wp_call. cbn [glob trace]. intros c s3 _ Hg3 _ _ Ht3.
  assert (quiet net_call s s3) by by eapply quiet_snoc.
  destruct (Z.eqb_spec (rv c) (-1)) as [|Hc]; [net_fail|]. apply wp_ret. rewrite Hg3. split; [done|]. split; [done|].
  exists c, (trace s2), []. rewrite Ht3. subst h. rewrite Ha. by split_and!.
Qed.

Lemma starts9 addr `{!Resolves addr} :
  starts (start9 resource) udp_ask udp_hear (λ g _, server g = sockaddr_in addr).
Proof using.
  split; [|done..]. intros s Hg0. unfold start9.
  net_step s h s1. destruct (Z.eqb_spec (rv h) 0); [net_fail|].
  destruct (resolves (trace s)) as [|Ha]; [congruence|].
  net_step s r s2. destruct (Z.eqb_spec (rv r) (-1)); [net_fail|]. apply wp_put. cbn [glob trace].
  subst h. rewrite Ha. split; [|done]. destruct H3 as [l Hl]. by exists l.
Qed.

#[export] Instance lookup7_dictionary `{!Remote find tcp_ask tcp_hear (connected (sockaddr_un resource))} :
  Dictionary (lookup7 resource) find Conn_fresh net_call.
Proof using Type*. exact (client_dictionary find Hfind _ _ _ _ _ _ starts7). Defined.

#[export] Instance lookup8_dictionary addr `{!Resolves addr, !Remote find tcp_ask tcp_hear (connected (sockaddr_in addr))} :
  Dictionary (lookup8 resource) find Conn_fresh net_call.
Proof using Hfind. exact (client_dictionary find Hfind _ _ _ _ _ _ (starts8 addr)). Defined.

#[export] Instance lookup9_dictionary addr `{!Resolves addr, !Remote find udp_ask udp_hear (λ g _, server g = sockaddr_in addr)} :
  Dictionary (lookup9 resource) find Conn_fresh net_call.
Proof using Hfind. exact (client_dictionary find Hfind _ _ _ _ _ _ (starts9 addr)). Defined.
End Three.

(** ** A server over a dictionary *)

Section ServerProof.
Context {S : Type} `{os} (lookup : Dictrec → M S (Z * Dictrec)) (find : cstr → option cstr) (g0 : S).
Context (uses : call → bool) `{!Dictionary lookup find g0 uses}.
Implicit Types s : st S.

(** One way of receiving requests and replying. *)
Section Exchange.
Context (recv : call) (reply_to : reply → cstr → call) (msg resource : cstr).

(** What is received are whole records with a terminated word. *)
Class Requests := requests : ∀ tr,
  0 < rv (kern tr recv) → ∃ q, query q ∧ rdata (kern tr recv) = rec_bytes q.

(** Requests and their answers, one after the other: the record received, the
    calls of lookup, the answer sent. *)
Inductive dialogue : list event → Prop :=
  | d_none : dialogue []
  | d_turn q a r l r' es :
      query q → rdata r = rec_bytes q → Forall (quiet_event uses) l → answers find q a → rv r' ≠ -1 →
      dialogue es →
      dialogue (Esys recv r :: l ++ Esys (reply_to r (rec_bytes a)) r' :: es).

(** A last request that got no answer: lookup or sending the answer failed. *)
Definition unanswered (es : list event) : Prop :=
  ∃ r l, es = Esys recv r :: l ∧
    Forall (λ e, quiet_event uses e ∨ ∃ b r', e = Esys (reply_to r b) r' ∧ rv r' = -1) l.

Lemma dialogue_snoc es q a r l r' :
  dialogue es → query q → rdata r = rec_bytes q → Forall (quiet_event uses) l → answers find q a → rv r' ≠ -1 →
  dialogue (es ++ Esys recv r :: l ++ [Esys (reply_to r (rec_bytes a)) r']).
Proof using.
  induction 1 as [|q1 a1 r1 l1 r1' es1 Hq1 Hr1 Hl1 Ha1 Hr1' Hes IH]; intros Hq Hr Hl Ha Hr'; simpl.
  - apply (d_turn q a r l r' []); try done. apply d_none.
  - rewrite <-app_assoc. simpl. apply (d_turn q1); try done. by apply IH.
Qed.

Context (Hreply : ∀ r b r', idle_event (Esys (reply_to r b) r')) (Hrecv : ∀ r, idle_event (Esys recv r)).
Context `{!Requests}.

Lemma wp_respond_net r q s :
  ready s → query q →
  wp (respond_net lookup (reply_to r) msg resource q)
     (λ a s', answers find q a ∧ ready s' ∧
        ∃ l r', trace s' = trace s ++ l ++ [Esys (reply_to r (rec_bytes a)) r'] ∧ rv r' ≠ -1 ∧ Forall (quiet_event uses) l)
     (λ t s', t = Exit 1 ∧ ∃ l, trace s' = trace s ++ l ∧
        Forall (λ e, quiet_event uses e ∨ ∃ b r', e = Esys (reply_to r b) r' ∧ rv r' = -1) l) s.
Proof using Hreply Dictionary0.
  intros Hr Hq. unfold respond_net. apply wp_bind.
  assert (∀ l, Forall (quiet_event uses) l →
    Forall (λ e, quiet_event uses e ∨ ∃ b r', e = Esys (reply_to r b) r' ∧ rv r' = -1) l) as Hweak.
  { intros l Hl. eapply Forall_impl; [exact Hl|]. by left. }
  eapply wp_mono; [by apply lookup_spec| |].
  2: { intros t s' [-> [l [Ht Hl]]]. split; [done|]. exists l. split; [done|by apply Hweak]. }
  assert (∀ a s1, answers find q a → ready s1 → quiet uses s s1 →
    wp (r' ← sys (reply_to r (rec_bytes a)); if rv r' =? -1 then DIE msg else mret a)
     (λ a s', answers find q a ∧ ready s' ∧
        ∃ l r', trace s' = trace s ++ l ++ [Esys (reply_to r (rec_bytes a)) r'] ∧ rv r' ≠ -1 ∧ Forall (quiet_event uses) l)
     (λ t s', t = Exit 1 ∧ ∃ l, trace s' = trace s ++ l ∧
        Forall (λ e, quiet_event uses e ∨ ∃ b r', e = Esys (reply_to r b) r' ∧ rv r' = -1) l) s1) as Hsend.
  { intros a s1 Ha Hr1 [l [Ht Hl]]. apply wp_bind, wp_call. intros r' s2 _ Hg2 _ _ Ht2.
    destruct (Z.eqb_spec (rv r') (-1)) as [Hbad|Hgood].
    - apply (wp_DIE uses). intros s' [l' [Ht' Hl']]. split; [done|]. eexists. split.
      { rewrite Ht', Ht2, Ht, <-!app_assoc. done. }
      apply Forall_app. split; [by apply Hweak|]. apply Forall_app. split; [|by apply Hweak].
      constructor; [|constructor]. right. by exists (rec_bytes a), r'.
    - apply wp_ret. split; [done|]. split; [by eapply ready_idle; [eapply idle_step|]|].
      exists l, r'. by rewrite Ht2, Ht, <-app_assoc. }
  intros [z a] s1 (Hq1 & Hr1 & [[Hw Ht] Hn] & Hword & Hans). unfold answered in Hans.
  destruct (find (c_str (word q))) as [t|] eqn:Ef.
  - destruct Hans as [-> Htext]. cbn [Z.eqb FOUND]. apply Hsend; [|done..].
    split; [by split|]. split; [done|]. by rewrite Ef.
  - subst z. cbn [Z.eqb FOUND NOTFOUND Pos.eqb].
    destruct (strcpy_fits (text a) XXXX) as (b & Hb & Hbc & Hbl & _).
    { rewrite Ht. unfold XXXX, TEXT. simpl. lia. } { by apply (bool_decide_unpack _). }
    eapply wp_bind, wp_fits; [done|]. cbv zeta. apply Hsend; [|done..].
    split; [split; [split; [done|simpl; congruence]|done]|]. split; [done|]. by rewrite Ef.
Qed.

(** A turn of the loop that serves requests. *)
Definition turn {C} (fin : Dictrec → C) (tryit : Dictrec) : M S (Dictrec + C) :=
  r ← sys recv;
  if rv r <=? 0 then mret (inr (fin tryit)) else
  tryit ← respond_net lookup (reply_to r) msg resource (received tryit (rdata r));
  mret (inl tryit).

(** Any number of turns. *)
Lemma wlp_serve {C} (fin : Dictrec → C) fuel tryit s :
  ready s → shape tryit →
  wlp (loop fuel (turn fin) tryit)
     (λ x s', (∃ t', x = fin t' ∧ shape t') ∧ ready s' ∧ ∃ es r, dialogue es ∧ trace s' = trace s ++ es ++ [Esys recv r] ∧ rv r <= 0)
     (λ t s', t = Exit 1 ∧ ∃ es es', dialogue es ∧ unanswered es' ∧ trace s' = trace s ++ es ++ es')
     (λ s', ∃ es, dialogue es ∧ trace s' = trace s ++ es) s.
Proof using Type*.
  intros Hr Hsh. apply (wlp_loop (λ t s', ready s' ∧ shape t ∧ ∃ es, dialogue es ∧ trace s' = trace s ++ es)).
  { split; [done|]. split; [done|]. exists []. split; [apply d_none|by rewrite app_nil_r]. }
  { intros a s' (_ & _ & H'). exact H'. }
  intros t s1 (Hr1 & Hsh1 & es & Hes & Ht1). apply wp_wlp. unfold turn. apply wp_bind, wp_call.
  intros r s2 Hr2 Hg2 _ _ Ht2. assert (ready s2) as Hrd2 by by eapply ready_idle; [eapply idle_step|].
  destruct (Z.leb_spec (rv r) 0) as [|Hpos].
  { apply wp_ret. split; [by exists t|]. split; [done|]. exists es, r. by rewrite Ht2, Ht1, <-app_assoc. }
  rewrite Hr2 in Hpos. destruct (requests _ Hpos) as (q & Hq & Hdata). rewrite <-Hr2 in Hdata.
  rewrite Hdata, received_record by (apply Hq || done).
  apply wp_bind. eapply wp_mono; [by apply wp_respond_net| |].
  - intros a s3 (Ha & Hr3 & l & r' & Ht3 & Hr' & Hl). apply wp_ret. split; [done|]. split; [apply Ha|].
    exists (es ++ Esys recv r :: l ++ [Esys (reply_to r (rec_bytes a)) r']). split; [by eapply dialogue_snoc|].
    rewrite Ht3, Ht2, Ht1, <-!app_assoc. done.
  - intros t' s3 [-> (l & Ht3 & Hl)]. split; [done|]. exists es, (Esys recv r :: l).
    split; [done|]. split; [by exists r, l|]. rewrite Ht3, Ht2, Ht1, <-!app_assoc. done.
Qed.
End Exchange.

(** *** The stream servers: one child per connection *)

Definition stream_recv (cd : Z) : call := Crecv cd SIZEOF_DICTREC.
Definition stream_reply (cd : Z) (_ : reply) : cstr → call := Csend cd.

(** What a child does, from the accept on: it closes the listening socket,
    answers requests until a receive gives nothing, and exits with 0; or fails
    on a request and exits with 1; [None]: it is still at work. *)
Definition child (sd : Z) (t : option stop) (l : list event) : Prop :=
  ∃ c f k es rest, l = Esys (Caccept sd) c :: Esys Cfork f :: Esys (Cclose sd) k :: es ++ rest ∧ rv f = 0 ∧
    dialogue (stream_recv (rv c)) (stream_reply (rv c)) es ∧
    match t with
    | None => rest = []
    | Some (Exit 0) => ∃ r, rest = [Esys (stream_recv (rv c)) r] ∧ rv r <= 0
    | Some (Exit 1) => unanswered (stream_recv (rv c)) (stream_reply (rv c)) rest
    | Some _ => False
    end.

Definition parent (l : list event) : Prop := ∀ r, Esys Cfork r ∈ l → rv r ≠ 0.

Lemma parent_app l k : parent (l ++ k) ↔ parent l ∧ parent k.
Proof using.
  unfold parent. split.
  - intros Hp. split; intros r Hr; apply Hp, elem_of_app; auto.
  - intros [H1 H2] r [?|?]%elem_of_app; auto.
Qed.

Lemma parent_nil : parent [].
Proof using. by intros r Hr%elem_of_nil. Qed.

Lemma parent_cons e l : (∀ r, e = Esys Cfork r → rv r ≠ 0) → parent l → parent (e :: l).
Proof using. intros He Hl r [Hr|Hr]%elem_of_cons; [by apply He|by apply Hl]. Qed.

Lemma parent_quiet l : Forall (quiet_event (λ _, false)) l → parent l.
Proof using. intros Hl r Hr. rewrite Forall_forall in Hl. by apply Hl in Hr. Qed.

(** Histories with no fork, or a fork that returned in the parent. *)
Ltac parent := repeat (rewrite parent_app; split); try done;
  repeat (apply parent_cons; [intros ? ?; simplify_eq; done|]); apply parent_nil.

(** How far a server that was in [s] can be, or has come when it stops. *)
Definition stream_run (sd : Z) (s : st S) (t : option stop) (s' : st S) : Prop :=
  ∃ l0 l, trace s' = trace s ++ l0 ++ l ∧ parent l0 ∧
    (child sd t l ∨ l = [] ∧ (t = None ∨ t = Some (Exit 1))).

Lemma stream_run_ext sd s s1 t s' l : trace s1 = trace s ++ l → parent l → stream_run sd s1 t s' → stream_run sd s t s'.
Proof using.
  intros Ht Hp (l0 & l1 & Ht' & Hp0 & Hl1). exists (l ++ l0), l1. rewrite Ht', Ht, <-!app_assoc.
  split; [done|]. split; [by apply parent_app|done].
Qed.

Context (Hclient : ∀ cd, Requests (stream_recv cd)) (tryit : Dictrec) (Htryit : shape tryit).

Lemma wlp_serve_client fuel resource sd s0 s :
  glob s = g0 → (∃ l, trace s = trace s0 ++ l ∧ parent l) →
  wlp (serve_client lookup fuel resource sd tryit)
     (λ x s', ∃ u, x = inl u ∧ glob s' = g0 ∧ ∃ l, trace s' = trace s0 ++ l ∧ parent l)
     (λ t s', stream_run sd s0 (Some t) s') (λ s', stream_run sd s0 None s') s.
Proof using Type*.
  intros Hg [l0 [Ht0 Hp0]]. unfold serve_client.
  assert (∀ (s1 : st S) msg Q F l, trace s1 = trace s ++ l → parent l →
    wlp (DIE (A:=() + ()) msg) Q (λ t s', stream_run sd s0 (Some t) s') F s1) as Hdie.
  { intros s1 msg Q F l Ht1 Hp1. apply wp_wlp, (wp_DIE (λ _, false)). intros s' [k [Htk Hk%parent_quiet]].
    exists (l0 ++ l ++ k), []. rewrite Htk, Ht1, Ht0, <-!app_assoc, app_nil_r. split; [done|].
    split; [|right; by split; [|right]]. by rewrite !parent_app. }
  apply wlp_bind, wp_wlp, wp_call. intros c s1 _ Hg1 _ _ Ht1.
  destruct (Z.eqb_spec (rv c) (-1)); [eapply Hdie; [exact Ht1|parent]|].
  apply wlp_bind, wp_wlp, wp_call. intros f s2 _ Hg2 _ _ Ht2.
  assert (trace s2 = trace s ++ [Esys (Caccept sd) c; Esys Cfork f]) as Ht2' by by rewrite Ht2, Ht1, <-app_assoc.
  destruct (Z.eqb_spec (rv f) (-1)) as [Hf|Hf].
  { eapply Hdie; [exact Ht2'|]. assert (rv f ≠ 0) by lia. parent. }
  destruct (Z.eqb_spec (rv f) 0) as [Hf0|Hf0].
  - apply wlp_bind, wp_wlp, wp_call. intros k s3 _ Hg3 _ _ Ht3.
    assert (trace s3 = trace s0 ++ l0 ++ [Esys (Caccept sd) c; Esys Cfork f; Esys (Cclose sd) k]) as Ht3'.
    { by rewrite Ht3, Ht2', Ht0, <-!app_assoc. }
    assert (∀ t s' es rest, trace s' = trace s3 ++ es ++ rest →
       dialogue (stream_recv (rv c)) (stream_reply (rv c)) es →
       match t with
       | None => rest = []
       | Some (Exit 0) => ∃ r, rest = [Esys (stream_recv (rv c)) r] ∧ rv r <= 0
       | Some (Exit 1) => unanswered (stream_recv (rv c)) (stream_reply (rv c)) rest
       | Some _ => False
       end → stream_run sd s0 t s') as Hrun.
    { intros t s' es rest Ht' Hes Hrest. exists l0, (Esys (Caccept sd) c :: Esys Cfork f :: Esys (Cclose sd) k :: es ++ rest).
      rewrite Ht', Ht3', <-!app_assoc. split; [done|]. split; [done|]. left. by exists c, f, k, es, rest. }
    apply wlp_bind. eapply wlp_mono.
    { eapply (wlp_serve (stream_recv (rv c)) (stream_reply (rv c)) (str "send") resource); [done|done|apply _| |done].
      apply ready_fresh. congruence. }
    + intros [] s' (_ & _ & es & r & Hes & Ht' & Hr). eapply (Hrun (Some (Exit 0))); [exact Ht'|done|by exists r].
    + intros t s' [-> (es & es' & Hes & Hun & Ht')]. by eapply (Hrun (Some (Exit 1))).
    + intros s' (es & Hes & Ht'). eapply (Hrun None); [by rewrite app_nil_r|done|done].
  - apply wlp_bind, wp_wlp, wp_call. intros k s3 _ Hg3 _ _ Ht3. apply wp_wlp, wp_ret. exists tt. split; [done|].
    split; [congruence|]. exists (l0 ++ [Esys (Caccept sd) c; Esys Cfork f; Esys (Cclose (rv c)) k]).
    split; [by rewrite Ht3, Ht2', Ht0, <-!app_assoc|]. parent.
Qed.

(** The accept loop of both stream servers. *)
Lemma wlp_accept_loop fuel resource sd s0 s :
  glob s = g0 → (∃ l, trace s = trace s0 ++ l ∧ parent l) →
  wlp (loop fuel (λ _, serve_client lookup fuel resource sd tryit) tt) (λ _ _, False)
    (λ t s', stream_run sd s0 (Some t) s') (λ s', stream_run sd s0 None s') s.
Proof using Type*.
  intros Hg Hl. apply (wlp_loop (λ _ s', glob s' = g0 ∧ ∃ l, trace s' = trace s0 ++ l ∧ parent l)); [done| |].
  - intros _ s' [_ [l [Ht Hp]]]. exists l, []. rewrite app_nil_r. split; [done|]. split; [done|]. right. by split; [|left].
  - intros _ s1 [Hg1 Hl1]. eapply wlp_mono; [by apply wlp_serve_client| |done|done].
    by intros ? s' (u & -> & ? & ?).
Qed.

(** Failures before the loop. *)
Lemma wlp_server_DIE {A} sd s0 s l msg (Q : A → st S → Prop) F :
  trace s = trace s0 ++ l → parent l → wlp (DIE msg) Q (λ t s', stream_run sd s0 (Some t) s') F s.
Proof using.
  intros Ht Hp. apply wp_wlp, (wp_DIE (λ _, false)). intros s' [k [Htk Hk%parent_quiet]].
  exists (l ++ k), []. rewrite Htk, Ht, <-!app_assoc, app_nil_r. split; [done|].
  split; [by apply parent_app|right; by split; [|right]].
Qed.

Lemma wlp_usock_server fuel prog resource path sun_path s :
  glob s = g0 → length sun_path = SUN_PATH → (length path < SUN_PATH)%nat →
  wlp (usock_server_main lookup fuel [prog; resource; path] sun_path tryit) (λ _ _, False)
    (λ t s', ∃ sd, stream_run sd s (Some t) s') (λ s', ∃ sd, stream_run sd s None s') s.
Proof using Type*.
  intros Hg Hsp Hp. unfold usock_server_main. apply wlp_bind, wp_wlp, wp_call. intros sd s1 _ Hg1 _ _ Ht1.
  unfold copy_path, strcpy. rewrite bool_decide_true by lia. apply wlp_bind, wp_wlp, wp_ret.
  eapply (wlp_mono _ (λ _ _, False) _ (λ t s', stream_run (rv sd) s (Some t) s') _ (λ s', stream_run (rv sd) s None s'));
    [|done|by eexists|by eexists].
  apply wlp_bind, wp_wlp, wp_call. intros u s2 _ Hg2 _ _ Ht2. rewrite Ht1, <-app_assoc in Ht2.
  apply wlp_bind, wp_wlp, wp_call. intros b s3 _ Hg3 _ _ Ht3. rewrite Ht2, <-app_assoc in Ht3.
  destruct (Z.eqb_spec (rv b) (-1)); [eapply wlp_server_DIE; [exact Ht3|parent]|].
  apply wlp_bind, wp_wlp, wp_call. intros ls s4 _ Hg4 _ _ Ht4. rewrite Ht3, <-app_assoc in Ht4.
  destruct (Z.eqb_spec (rv ls) (-1)); [eapply wlp_server_DIE; [exact Ht4|parent]|].
  apply wlp_bind, wp_wlp, wp_emit. apply wlp_accept_loop; cbn [glob trace]; [congruence|].
  eexists. split; [by rewrite Ht4, <-app_assoc|]. parent.
Qed.

Lemma wlp_isock_server fuel prog resource s :
  glob s = g0 →
  wlp (isock_server_main lookup fuel [prog; resource] tryit) (λ _ _, False)
    (λ t s', ∃ sd, stream_run sd s (Some t) s') (λ s', ∃ sd, stream_run sd s None s') s.
Proof using Type*.
  intros Hg. unfold isock_server_main. apply wlp_bind, wp_wlp, wp_call. intros sd s1 _ Hg1 _ _ Ht1.
  eapply (wlp_mono _ (λ _ _, False) _ (λ t s', stream_run (rv sd) s (Some t) s') _ (λ s', stream_run (rv sd) s None s'));
    [|done|by eexists|by eexists].
  apply wlp_bind, wp_wlp, wp_call. intros b s2 _ Hg2 _ _ Ht2. rewrite Ht1, <-app_assoc in Ht2.
  destruct (Z.eqb_spec (rv b) (-1)); [eapply wlp_server_DIE; [exact Ht2|parent]|].
  apply wlp_bind, wp_wlp, wp_call. intros ls s3 _ Hg3 _ _ Ht3. rewrite Ht2, <-app_assoc in Ht3.
  destruct (Z.eqb_spec (rv ls) (-1)); [eapply wlp_server_DIE; [exact Ht3|parent]|].
  apply wlp_accept_loop; [congruence|]. eexists. split; [exact Ht3|]. parent.
Qed.

(** *** The datagram server *)

Definition datagram_recv (fd : Z) : call := Crecvfrom fd SIZEOF_DICTREC.
Definition datagram_reply (fd : Z) (r : reply) (b : cstr) : call := Csendto fd b (sender r).

(** Answered requests, then a receive that gave nothing. *)
Definition round (fd : Z) (l : list event) : Prop :=
  ∃ es r, l = es ++ [Esys (datagram_recv fd) r] ∧ dialogue (datagram_recv fd) (datagram_reply fd) es ∧ rv r <= 0.

Definition datagram_run (fd : Z) (tr : list event) (t : option stop) (s' : st S) : Prop :=
  ∃ ls es rest, trace s' = tr ++ concat ls ++ es ++ rest ∧ Forall (round fd) ls ∧
    dialogue (datagram_recv fd) (datagram_reply fd) es ∧
    match t with
    | None => rest = []
    | Some (Exit 1) => unanswered (datagram_recv fd) (datagram_reply fd) rest
    | Some _ => False
    end.

Definition sends_nothing (e : event) : Prop := match e with Esys (Csendto _ _ _) _ => False | _ => True end.

(** Stopped before the loop. *)
Definition not_started (s : st S) (t : stop) (s' : st S) : Prop :=
  t = Exit 1 ∧ ∃ l, trace s' = trace s ++ l ∧ Forall sends_nothing l.

Lemma serve_datagram_turn resource fd :
  serve_datagram lookup resource fd = turn (datagram_recv fd) (datagram_reply fd) (str "sendto") resource id.
Proof using. done. Qed.

Lemma not_started_DIE {A} s s1 l msg (Q : A → st S → Prop) F :
  trace s1 = trace s ++ l → Forall sends_nothing l → wlp (DIE msg) Q (not_started s) F s1.
Proof using.
  intros Ht Hl. apply wp_wlp, (wp_DIE (λ _, false)). intros s' [k [Hk Hq]]. split; [done|].
  exists (l ++ k). rewrite Hk, Ht, <-app_assoc. split; [done|]. apply Forall_app. split; [done|].
  eapply Forall_impl; [exact Hq|]. by intros [c r|f t] He.
Qed.

Context (Hdatagram : ∀ fd, Requests (datagram_recv fd)).

Lemma wlp_udp_server fuel prog resource dr s :
  glob s = g0 → shape dr →
  wlp (udp_server_main lookup fuel [prog; resource] dr) (λ _ _, False)
    (λ t s', not_started s t s' ∨ ∃ fd a b, datagram_run fd (trace s ++ [a; b]) (Some t) s')
    (λ s', ∃ fd a b, datagram_run fd (trace s ++ [a; b]) None s') s.
Proof using Dictionary0 Hdatagram.
  intros Hg Hdr. unfold udp_server_main.
  apply wlp_bind, wp_wlp, wp_call. intros sk s1 _ Hg1 _ _ Ht1.
  destruct (Z.eqb_spec (rv sk) (-1)).
  { eapply (wlp_mono _ (λ _ _, False) _ (not_started s) _ (λ _, False)); [|done|by left|done].
    eapply not_started_DIE; [exact Ht1|]. repeat (apply Forall_cons_2; [done|]). by apply Forall_nil_2. }
  apply wlp_bind, wp_wlp, wp_call. intros b s2 _ Hg2 _ _ Ht2. rewrite Ht1, <-app_assoc in Ht2.
  destruct (Z.eqb_spec (rv b) (-1)).
  { eapply (wlp_mono _ (λ _ _, False) _ (not_started s) _ (λ _, False)); [|done|by left|done].
    eapply not_started_DIE; [exact Ht2|]. repeat (apply Forall_cons_2; [done|]). by apply Forall_nil_2. }
  set (tr := trace s2) in *. set (fd := rv sk).
  eapply (wlp_mono _ (λ _ _, False) _ (λ t s', datagram_run fd tr (Some t) s') _ (λ s', datagram_run fd tr None s')).
  2: done. 2: { intros t s' Hr. right. rewrite Ht2 in Hr. eexists fd, _, _; exact Hr. }
  2: { intros s' Hr. rewrite Ht2 in Hr. eexists fd, _, _; exact Hr. }
  apply (wlp_loop (λ dr s', shape dr ∧ ready s' ∧ ∃ ls, trace s' = tr ++ concat ls ∧ Forall (round fd) ls)).
  - split; [done|]. split; [apply ready_fresh; congruence|]. exists []. by rewrite app_nil_r.
  - intros dr' s' (_ & _ & ls & Ht & Hls). exists ls, [], []. simpl. rewrite app_nil_r.
    split; [done|]. split; [done|]. split; [apply d_none|done].
  - intros dr' s3 (Hsh & Hr3 & ls & Ht3 & Hls). apply wlp_bind. eapply wlp_mono.
    { rewrite serve_datagram_turn. by apply (wlp_serve (datagram_recv fd) (datagram_reply fd)). }
    + intros ? s4 ((dr2 & -> & Hsh2) & Hr4 & es & r & Hes & Ht4 & Hr). apply wp_wlp, wp_ret.
      split; [done|]. split; [done|]. exists (ls ++ [es ++ [Esys (datagram_recv fd) r]]).
      rewrite Ht4, Ht3, concat_app, <-!app_assoc. simpl. rewrite app_nil_r. split; [done|].
      apply Forall_app. split; [done|]. constructor; [by exists es, r|done].
    + intros t s4 [-> (es & es' & Hes & Hun & Ht4)]. exists ls, es, es'. rewrite Ht4, Ht3, <-!app_assoc. done.
    + intros s4 (es & Hes & Ht4). exists ls, es, []. by rewrite Ht4, Ht3, <-!app_assoc, app_nil_r.
Qed.
End ServerProof.

(** ** The properties *)

(** The versions of lookup that ask a server, with a server of the dictionary
    [find] at the other end. *)
Inductive remote_version `{os} (find : cstr → option cstr) (resource : cstr) : (Dictrec → M Conn (Z * Dictrec)) → Prop :=
  | version7 :
      (length resource < SUN_PATH)%nat → NUL ∉ resource →
      Remote find tcp_ask tcp_hear (connected (sockaddr_un resource)) →
      remote_version find resource (lookup7 resource)
  | version8 addr :
      Resolves resource addr → Remote find tcp_ask tcp_hear (connected (sockaddr_in addr)) →
      remote_version find resource (lookup8 resource)
  | version9 addr :
      Resolves resource addr → Remote find udp_ask udp_hear (λ g _, server g = sockaddr_in addr) →
      remote_version find resource (lookup9 resource).

Lemma remote_dictionary `{os} find resource lookup : (∀ q, find q ≠ Some XXXX) →
  remote_version find resource lookup → ∃ HD : Dictionary lookup find Conn_fresh net_call, True.
Proof.
  intros Hf [Hl Hn HR|addr Ha HR|addr Ha HR].
  - by exists (lookup7_dictionary find Hf resource Hl Hn).
  - by exists (lookup8_dictionary find Hf resource addr).
  - by exists (lookup9_dictionary find Hf resource addr).
Qed.

(** The outcome of a run of the main program. *)
Definition finished {S} (x : outcome Z * st S) : Prop := ∃ z, x.1 = Ret z.
Definition gave_up {S} (x : outcome Z * st S) : Prop := x.1 = Stop (Exit 1).

(** C18: "the same main will do to test all the versions of lookup": over the
    local file (lookup5) and over a server of the same dictionary (lookup7,
    lookup8, lookup9), on any two systems where the same words are typed, the
    main program ends or exits with 1, and if both ends, it has printed the
    same; provided no definition is the string XXXX, which the servers use for
    words that are not found. *)
Theorem versions_agree (o1 o2 : os) file rs tl resource lookup ls prog1 prog2 try1 try2 fuel1 fuel2 :
  record_file rs tl → sorted rs → @Mapped o1 file (concat (rec_bytes <$> rs) ++ tl) → @Typed o1 ls →
  (∀ q, find_in rs q ≠ Some XXXX) → @remote_version o2 (find_in rs) resource lookup → @Typed o2 ls →
  shape try1 → shape try2 → (length ls < fuel1)%nat → (length ls < fuel2)%nat →
  let x1 := @dict_main _ o1 (@lookup5 o1 file) fuel1 [prog1; file] try1 (init L5_fresh) in
  let x2 := @dict_main _ o2 lookup fuel2 [prog2; resource] try2 (init Conn_fresh) in
  (finished x1 ∨ gave_up x1) ∧ (finished x2 ∨ gave_up x2) ∧
  (finished x1 → finished x2 → said Stdout (trace x1.2) = said Stdout (trace x2.2)).
Proof.
  intros Hrf Hs Hm Ht1 Hx Hv Ht2 Hs1 Hs2 Hf1 Hf2 x1 x2.
  destruct (remote_dictionary _ _ _ Hx Hv) as [HD _].
  pose proof (lookup5_dictionary file rs tl Hrf Hs) as HD1.
  pose proof (wp_dict_main _ _ _ _ (λ _, eq_refl) ls fuel1 prog1 file try1 (init L5_fresh) eq_refl Hs1 eq_refl Hf1) as W1.
  pose proof (wp_dict_main _ _ _ _ (λ _, eq_refl) ls fuel2 prog2 resource try2 (init Conn_fresh) eq_refl Hs2 eq_refl Hf2) as W2.
  unfold wp in W1, W2. fold x1 in W1. fold x2 in W2. unfold finished, gave_up.
  destruct x1 as [[z1|t1|] s1], x2 as [[z2|t2|] s2]; simpl in *; try done.
  - destruct W1 as [_ ->], W2 as [_ ->]. split_and!; eauto.
  - destruct W2 as [-> _]. split_and!; eauto. by intros _ [? ?].
  - destruct W1 as [-> _]. split_and!; eauto. by intros [? ?].
  - destruct W1 as [-> _], W2 as [-> _]. split_and!; eauto. by intros [? ?].
Qed.


(** The datagram server, over any dictionary: however long it runs it
    never returns; after its socket is bound it answers each datagram at once,
    to its sender, with what the dictionary says, whatever receives give
    nothing in between; it stops, with status 1, only when starting up, lookup
    or sending fails. *)
Theorem udp_server_correct {S} `{os} (lookup : Dictrec → M S (Z * Dictrec)) find g0 uses
    `{!Dictionary lookup find g0 uses} prog resource dr fuel e tr :
  (∀ fd, Requests (datagram_recv fd)) → shape dr →
  wlp (udp_server_main lookup fuel [prog; resource] dr) (λ _ _, False)
    (λ t s', not_started (St g0 e tr) t s' ∨ ∃ fd a b, datagram_run find uses fd (tr ++ [a; b]) (Some t) s')
    (λ s', ∃ fd a b, datagram_run find uses fd (tr ++ [a; b]) None s') (St g0 e tr).
Proof. intros Hreq Hsh. by apply (wlp_udp_server lookup find g0 uses). Qed.

(** *** Witnesses *)

(** A record with the answer of the dictionary. *)
Definition answer_rec (rs : list Dictrec) (q : Dictrec) : Dictrec :=
  Rec (word q) (pad TEXT (default XXXX (find_in rs (c_str (word q))))).

Lemma answer_rec_answers rs q : Forall rec_ok rs → query q → answers (find_in rs) q (answer_rec rs q).
Proof.
  intros Hok [[Hw Ht] Hn]. unfold answer_rec, answers.
  assert (let t := default XXXX (find_in rs (c_str (word q))) in (length t < TEXT)%nat ∧ NUL ∉ t) as [Hl Hnul].
  { destruct (find_in rs _) as [t|] eqn:E; cbv zeta; cbn [default from_option id].
    - apply find_in_Some in E as (i & r & Hi & _ & <-). split; [|apply c_str_no_nul].
      destruct (proj1 (Forall_forall _ _) Hok r) as [[[_ Hrt] _] Hrn]; [by eapply list_elem_of_lookup_2|].
      rewrite <-Hrt. by apply c_str_short.
    - split; [vm_compute; lia|apply (bool_decide_unpack _); vm_compute; exact I]. }
  split; [split; [split; [done|]|done]|]; simpl.
  - unfold pad. rewrite length_app, length_replicate. lia.
  - split; [done|by apply c_str_pad].
Qed.

(** A system with a server of [rs] at the other end of every socket, where
    words are typed. *)
Definition remote_os (rs : list Dictrec) (ls : list cstr) : os := test_os (λ tr c,
  match c with
  | Cfgets _ => match ls !! asked tr with Some l => Reply 1 0 l [] | None => ok 0 end
  | Crecv _ _ =>
      match last tr with
      | Some (Esys (Csend _ b) _) => Reply SIZEOF_DICTREC 0 (rec_bytes (answer_rec rs (rec_of b))) []
      | _ => fail EAGAIN
      end
  | _ => ok 3
  end).

Lemma remote_os_Typed rs ls : Forall (λ l, (NUL ∉ l) ∧ (length l < WORD)%nat ∧ last l = Some NL) ls → @Typed (remote_os rs ls) ls.
Proof.
  intros Hls. rewrite Forall_forall in Hls. split; [done|]. intros tr. cbn [kern remote_os test_os].
  destruct (ls !! asked tr) as [l|] eqn:E; [|done]. split; [done|]. cbn [rdata]. apply c_str_id.
  apply Hls. by eapply list_elem_of_lookup_2.
Qed.

Lemma remote_os_Remote rs ls linked : Forall rec_ok rs → @Remote (remote_os rs ls) (find_in rs) tcp_ask tcp_hear linked.
Proof.
  intros Hok g tr q r _ Hq _. cbn [tcp_ask tcp_hear kern remote_os test_os]. right.
  rewrite last_snoc. cbn [rdata]. exists (answer_rec rs q). split; [|by apply answer_rec_answers].
  cbn [tcp_ask rdata]. by rewrite rec_of_rec_bytes by apply Hq.
Qed.

(** A system where one client at a time asks one question, [q]. *)
Definition server_os (rs : list Dictrec) (q : Dictrec) : os := test_os (λ tr c,
  match c with
  | Crecv _ _ | Crecvfrom _ _ =>
      match last tr with
      | Some (Esys (Cclose _) _) | Some (Esys (Cbind _ _) _) => Reply SIZEOF_DICTREC 0 (rec_bytes q) [(str "client", 0)]
      | _ => ok 0
      end
  | Cfork => ok 0
  | _ => @kern (dict_os rs []) tr c
  end).

Lemma server_os_Requests rs q c :
  query q → c = stream_recv 3 ∨ (∃ cd, c = stream_recv cd) ∨ (∃ fd, c = datagram_recv fd) → @Requests (server_os rs q) c.
Proof.
  intros Hq Hc tr Hpos. exists q. split; [done|].
  destruct Hc as [->|[[cd ->]|[fd ->]]]; cbn [kern server_os test_os stream_recv datagram_recv] in *;
    destruct (last tr) as [[[] r|f t]|]; cbn in Hpos |- *; done || lia.
Qed.

Lemma server_os_Mapped rs q f : @Mapped (server_os rs q) f (concat (rec_bytes <$> rs) ++ []).
Proof. by split. Qed.

Theorem versions_agree_witness :
  let o1 := dict_os demo_rs demo_typed in
  let o2 := remote_os demo_rs demo_typed in
  let x1 := @dict_main _ o1 (@lookup5 o1 (str "dict")) 5 [str "main"; str "dict"] (demo_query []) (init L5_fresh) in
  let x2 := @dict_main _ o2 (@lookup7 o2 (str "/tmp/s")) 5 [str "main"; str "/tmp/s"] (demo_query []) (init Conn_fresh) in
  finished x1 ∧ finished x2 ∧ said Stdout (trace x1.2) = said Stdout (trace x2.2).
Proof.
  intros o1 o2 x1 x2.
  assert (finished x1) as F1 by (eexists; vm_compute; reflexivity).
  assert (finished x2) as F2 by (eexists; vm_compute; reflexivity).
  split; [exact F1|]. split; [exact F2|].
  eapply (versions_agree o1 o2 (str "dict") demo_rs [] (str "/tmp/s") (@lookup7 o2 (str "/tmp/s")) demo_typed
    (str "main") (str "main") (demo_query []) (demo_query []) 5 5); [..|exact F1|exact F2].
  - apply demo_record_file.
  - apply demo_sorted.
  - apply dict_os_Mapped.
  - apply dict_os_Typed, demo_typed_ok.
  - intros q. unfold demo_rs, demo_es. cbn [find_in fmap list_fmap]. repeat destruct (streq _ _); vm_compute; discriminate.
  - apply version7; [vm_compute; lia|apply (bool_decide_unpack _); vm_compute; exact I|].
    apply remote_os_Remote, demo_rs_ok.
  - apply remote_os_Typed, demo_typed_ok.
  - apply demo_query_ok. vm_compute. lia.
  - apply demo_query_ok. vm_compute. lia.
  - vm_compute. lia.
  - vm_compute. lia.
Defined.


Theorem udp_server_witness :
  let o := server_os demo_rs (demo_query (str "bee")) in
  wlp (udp_server_main (lookup5 (str "dict")) 5 [str "server"; str "dict"] (demo_query []))
    (λ _ _, False)
    (λ t s', not_started (init L5_fresh) t s' ∨ ∃ fd a b, datagram_run (find_in demo_rs) file_call fd ([] ++ [a; b]) (Some t) s')
    (λ s', ∃ fd a b, datagram_run (find_in demo_rs) file_call fd ([] ++ [a; b]) None s') (init L5_fresh).
Proof.
  intros o.
  refine (@udp_server_correct L5 o (lookup5 (str "dict")) (find_in demo_rs) L5_fresh file_call
    (@lookup5_dictionary o (str "dict") demo_rs [] demo_record_file demo_sorted (server_os_Mapped _ _ _))
    (str "server") (str "dict") (demo_query []) 5 0 [] _ _).
  - intros fd. apply server_os_Requests; [apply demo_query_ok; vm_compute; lia|]. right. right. by exists fd.
  - apply demo_query_ok. vm_compute. lia.
Defined.

(** A definition that is the string XXXX is not found over a socket. *)
Example sentinel_not_found :
  let q := demo_query (str "x") in
  let rs := [Rec (pad WORD (str "x")) (pad TEXT XXXX)] in
  match @lookup7 (remote_os rs []) (str "/tmp/s") q (init Conn_fresh) with
  | (Ret (z, _), _) => z = NOTFOUND ∧ find_in rs (c_str (word q)) = Some XXXX
  | _ => False
  end.
Proof. vm_compute. by split. Qed.
