(* ===== verification/InotifyCache.v ===== *)
(** The watch cache and the root directories of
    tlpi-book/inotify/inotify_dtree.c.

    The cache is the array the code keeps ([wlCache], one slot per directory
    watched, searched linearly); [cache_map] is what it means, a finite map
    from watch descriptors to pathnames, and the lemmas below say which map
    operation each cache operation is. *)
From S2P Require Import Prelude Sys.

(** ** Constants (limits.h, sys/inotify.h) *)

Definition PATH_MAX : Z := 4096.
Definition NAME_MAX : Z := 255.
Definition VB_BASIC : Z := 1.
Definition VB_NOISY : Z := 2.
Definition SIZEOF_INOTIFY_EVENT : Z := 16.
Definition INOTIFY_READ_BUF_LEN : Z := 100 * (SIZEOF_INOTIFY_EVENT + NAME_MAX + 1).
Definition ALLOC_INCR : nat := 200.

(** ** Static variables *)

Record watch := Watch { wd : Z; path : cstr }.

Record dtree := Dtree {
  verboseMask : Z;
  checkCache : bool;
  dumpCache : bool;
  readBufferSize : Z;
  stopFile : option cstr;
  abortOnCacheProblem : bool;
  logfp : bool;                         (* is there a log file? *)
  inotifyReadCnt : Z;
  wlCache : list watch;                 (* [cacheSize] is its length *)
  rootDirPaths : list (option cstr);    (* [numRootDirs] is its length *)
  ignoreRootDirs : Z;
  rootDirStat : list (Z * Z);           (* st_ino, st_dev *)
  dirCnt : Z;
  ifd : Z;
  reinitCnt : Z;                        (* static in reinitialize *)
  overflowCnt : Z                       (* static in processNextInotifyEvent *)
}.

Definition set_opts v c d (g : dtree) : dtree :=
  Dtree v c d (readBufferSize g) (stopFile g) (abortOnCacheProblem g) (logfp g)
    (inotifyReadCnt g) (wlCache g) (rootDirPaths g) (ignoreRootDirs g) (rootDirStat g)
    (dirCnt g) (ifd g) (reinitCnt g) (overflowCnt g).
Definition set_readCnt n (g : dtree) : dtree :=
  Dtree (verboseMask g) (checkCache g) (dumpCache g) (readBufferSize g) (stopFile g)
    (abortOnCacheProblem g) (logfp g) n (wlCache g) (rootDirPaths g) (ignoreRootDirs g)
    (rootDirStat g) (dirCnt g) (ifd g) (reinitCnt g) (overflowCnt g).
Definition set_cache l (g : dtree) : dtree :=
  Dtree (verboseMask g) (checkCache g) (dumpCache g) (readBufferSize g) (stopFile g)
    (abortOnCacheProblem g) (logfp g) (inotifyReadCnt g) l (rootDirPaths g)
    (ignoreRootDirs g) (rootDirStat g) (dirCnt g) (ifd g) (reinitCnt g) (overflowCnt g).
Definition set_roots ps n sts (g : dtree) : dtree :=
  Dtree (verboseMask g) (checkCache g) (dumpCache g) (readBufferSize g) (stopFile g)
    (abortOnCacheProblem g) (logfp g) (inotifyReadCnt g) (wlCache g) ps n sts
    (dirCnt g) (ifd g) (reinitCnt g) (overflowCnt g).
Definition set_walk n fd (g : dtree) : dtree :=
  Dtree (verboseMask g) (checkCache g) (dumpCache g) (readBufferSize g) (stopFile g)
    (abortOnCacheProblem g) (logfp g) (inotifyReadCnt g) (wlCache g) (rootDirPaths g)
    (ignoreRootDirs g) (rootDirStat g) n fd (reinitCnt g) (overflowCnt g).
Definition set_counts r o (g : dtree) : dtree :=
  Dtree (verboseMask g) (checkCache g) (dumpCache g) (readBufferSize g) (stopFile g)
    (abortOnCacheProblem g) (logfp g) (inotifyReadCnt g) (wlCache g) (rootDirPaths g)
    (ignoreRootDirs g) (rootDirStat g) (dirCnt g) (ifd g) r o.

Abbreviation D := (M dtree).

(** File types, from the [struct stat] a call filled: the first numbers of the
    reply are st_mode, st_ino and st_dev. *)
Definition st_mode (r : reply) : Z := nth 0 (snd <$> rents r) 0.
Definition st_ino (r : reply) : Z := nth 1 (snd <$> rents r) 0.
Definition st_dev (r : reply) : Z := nth 2 (snd <$> rents r) 0.
Definition S_ISDIR (mode : Z) : bool := Z.land mode 61440 =? 16384.

(** The first index that satisfies a test, as the linear searches find it. *)
Fixpoint find_slot {A} (test : A → bool) (l : list A) : option nat :=
  match l with
  | [] => None
  | a :: l => if test a then Some O else Datatypes.S <$> find_slot test l
  end.

Section Functions.
Context `{os}.

(** ** Logging *)

Definition logMessage (vb_mask : Z) (text : cstr) : D unit :=
  g ← get;
  when ((vb_mask =? 0) || tst vb_mask (verboseMask g)) (out Stderr text);;
  when (logfp g) (out Logfile text).

(** [fprintf (logfp, ...)] without a test for NULL. *)
Definition log_unchecked (text : cstr) : D unit :=
  g ← get;
  if logfp g then out Logfile text else stop_with (Undefined "fprintf to a NULL stream").

(** The element [wlCache[j]]. *)
Definition at_slot (j : nat) : D watch :=
  g ← get;
  match wlCache g !! j with
  | Some w => mret w
  | None => stop_with (Undefined "wlCache index out of range")
  end.

Definition dumpCacheToLog : D unit :=
  g ← get;
  cnt ← for_acc 0 (length (wlCache g)) (λ j cnt,
    w ← at_slot j;
    if wd w >=? 0 then
      log_unchecked (dec (Z.of_nat j) ++ str ": wd = " ++ dec (wd w) ++ str "; " ++ path w ++ [NL]);;
      mret (cnt + 1)
    else mret cnt) 0;
  log_unchecked (str "Total entries: " ++ dec cnt ++ [NL]).

Definition createStopFileAndAbort {A} : D A :=
  g ← get;
  sys (Copen (default [] (stopFile g)) 66 384);;   (* O_CREAT | O_RDWR, 0600 *)
  dumpCacheToLog;;
  stop_with Abort.

(** ** The cache *)

Definition freeCache : D unit := upd (set_cache []).

Definition checkCacheConsistency : D unit :=
  g ← get;
  failures ← for_acc 0 (length (wlCache g)) (λ j failures,
    w ← at_slot j;
    if wd w >=? 0 then
      r ← sys (Clstat (path w));
      if rv r =? -1 then
        e ← get_errno;
        logMessage 0 (str "checkCacheConsistency: stat: [slot = " ++ dec (Z.of_nat j) ++
          str "; wd = " ++ dec (wd w) ++ str "] " ++ path w ++ str ": " ++ strerror e ++ [NL]);;
        mret (failures + 1)
      else if negb (S_ISDIR (st_mode r)) then
        logMessage 0 (str "checkCacheConsistency: " ++ path w ++ str " is not a directory" ++ [NL]);;
        stop_with (Exit 1)
      else mret failures
    else mret failures) 0;
  when (failures >? 0)
    (logMessage VB_NOISY (str "checkCacheConsistency: " ++ dec failures ++ str " failures" ++ [NL])).

(** Slots are found by their number; None is the C code's -1. *)
Definition findWatch (d : Z) : D (option nat) :=
  g ← get; mret (find_slot (λ w, wd w =? d) (wlCache g)).

Definition findWatchChecked (d : Z) : D (option nat) :=
  slot ← findWatch d;
  match slot with
  | Some j => mret (Some j)
  | None =>
      logMessage 0 (str "Could not find watch " ++ dec d ++ [NL]);;
      g ← get;
      if abortOnCacheProblem g then createStopFileAndAbort else mret None
  end.

Definition markCacheSlotEmpty (slot : nat) : D unit :=
  w ← at_slot slot;
  logMessage VB_NOISY (str "        markCacheSlotEmpty: slot = " ++ dec (Z.of_nat slot) ++
    str ";  wd = " ++ dec (wd w) ++ str "; path = " ++ path w ++ [NL]);;
  upd (λ g, set_cache (<[slot := Watch (-1) []]> (wlCache g)) g).

(** The new part of a reallocated array holds whatever was there. *)
Definition realloc_slots (r : reply) : list watch :=
  (λ j, match rents r !! j with Some (p, d) => Watch d p | None => Watch 0 [] end) <$> seq 0 ALLOC_INCR.

Definition findEmptyCacheSlot : D nat :=
  g ← get;
  match find_slot (λ w, wd w =? -1) (wlCache g) with
  | Some j => mret j
  | None =>
      let cacheSize := (length (wlCache g) + ALLOC_INCR)%nat in
      r ← sys (Crealloc (Z.of_nat cacheSize * (4 + PATH_MAX)));
      if rv r =? -1 then perror_exit (str "realloc")
      else
        upd (λ g, set_cache (wlCache g ++ realloc_slots r) g);;
        for_each (seq (cacheSize - ALLOC_INCR) ALLOC_INCR) markCacheSlotEmpty;;
        mret (cacheSize - ALLOC_INCR)%nat
  end.

Definition addWatchToCache (d : Z) (pathname : cstr) : D nat :=
  slot ← findEmptyCacheSlot;
  upd (λ g, set_cache (<[slot := Watch d (strncpy PATH_MAX pathname)]> (wlCache g)) g);;
  mret slot.

Definition pathnameToCacheSlot (pathname : cstr) : D (option nat) :=
  g ← get; mret (find_slot (λ w, (wd w >=? 0) && streq (path w) pathname) (wlCache g)).

Definition pathnameInCache (pathname : cstr) : D bool :=
  slot ← pathnameToCacheSlot pathname;
  mret (match slot with Some _ => true | None => false end).

(** ** Root directories *)

Fixpoint check_roots (argv : list cstr) (numRootDirs : Z) : D Z :=
  match argv with
  | [] => mret numRootDirs
  | p :: argv =>
      r ← sys (Clstat p);
      if rv r =? -1 then
        out Stderr (str "lstat() failed on '" ++ p ++ str "'" ++ [NL]);; stop_with (Exit 1)
      else if negb (S_ISDIR (st_mode r)) then
        out Stderr (str "'" ++ p ++ str "' is not a directory" ++ [NL]);; stop_with (Exit 1)
      else check_roots argv (numRootDirs + 1)
  end.

(** One turn of the second loop: copy the pathname, record the object, and
    reject an object recorded before. *)
Definition copy_root (argv : list cstr) (x : nat * cstr) : D unit :=
  let '(j, arg) := x in
  p ← sys (Crealloc (strlen arg + 1));                    (* strdup *)
  when (rv p =? -1) (perror_exit (str "strdup"));;
  r ← sys (Clstat arg);
  if rv r =? -1 then perror_exit (str "lstat")
  else
    upd (λ g, set_roots (<[j := Some arg]> (rootDirPaths g)) (ignoreRootDirs g)
                (<[j := (st_ino r, st_dev r)]> (rootDirStat g)) g);;
    g ← get;
    for_each (imap pair (take j (rootDirStat g))) (λ '(k, ids),
      if (st_ino r =? fst ids) && (st_dev r =? snd ids) then
        out Stderr (str "Duplicate filesystem objects: " ++ arg ++ str ", " ++ nth k argv [] ++ [NL]);;
        stop_with (Exit 1)
      else mret tt).

Definition copyRootDirPaths (argv : list cstr) : D unit :=
  numRootDirs ← check_roots argv 0;
  p ← sys (Crealloc (8 * numRootDirs));                     (* calloc *)
  when (rv p =? -1) (perror_exit (str "calloc"));;
  p ← sys (Crealloc (144 * numRootDirs));                   (* calloc; the test is of rootDirPaths *)
  when (rv p =? -1) (stop_with (Undefined "rootDirStat is NULL"));;
  upd (set_roots (replicate (Z.to_nat numRootDirs) None) 0 (replicate (Z.to_nat numRootDirs) (0, 0)));;
  for_each (imap pair argv) (copy_root argv);;
  upd (λ g, set_roots (rootDirPaths g) 0 (rootDirStat g) g).

Definition findRootDirPath (p : cstr) : D (option nat) :=
  g ← get;
  mret (find_slot (λ q : option cstr, match q with Some q => streq p q | None => false end)
          (rootDirPaths g)).

Definition isRootDirPath (p : cstr) : D bool :=
  j ← findRootDirPath p; mret (match j with Some _ => true | None => false end).

Definition zapRootDirPath (p : cstr) : D unit :=
  out Stdout (str "zapRootDirPath: " ++ p ++ [NL]);;
  slot ← findRootDirPath p;
  match slot with
  | None =>
      out Stderr (str "zapRootDirPath(): path not found!" ++ [NL]);;
      stop_with (Exit 1)
  | Some j =>
      upd (λ g, set_roots (<[j := None]> (rootDirPaths g)) (ignoreRootDirs g + 1) (rootDirStat g) g);;
      g ← get;
      when (ignoreRootDirs g =? Z.of_nat (length (rootDirPaths g)))
        (out Stderr (str "No more root paths left to monitor; bye!" ++ [NL]);;
         stop_with (Exit 0))
  end.
End Functions.

(** ** What the cache means *)

Fixpoint cache_map (l : list watch) : gmap Z cstr :=
  match l with
  | [] => ∅
  | w :: l => if wd w >=? 0 then <[wd w := path w]> (cache_map l) else cache_map l
  end.

Definition empty_slot : watch := Watch (-1) [].

(** Unused slots are empty; a watch descriptor is in one slot at most. *)
Record cache_ok (l : list watch) : Prop := {
  slots_ok : ∀ j w, l !! j = Some w → w = empty_slot ∨ 0 <= wd w;
  slots_unique : ∀ i j v w, l !! i = Some v → l !! j = Some w → 0 <= wd v → wd v = wd w → i = j
}.

Lemma find_slot_Some {A} (test : A → bool) l j :
  find_slot test l = Some j →
  ∃ a, l !! j = Some a ∧ test a = true ∧ ∀ i b, (i < j)%nat → l !! i = Some b → test b = false.
Proof.
  revert j; induction l as [|a l IH]; intros j; simpl; [done|].
  destruct (test a) eqn:Ha.
  - intros [= <-]. exists a. split_and!; [done|done|]. intros; lia.
  - destruct (find_slot test l) as [k|]; simpl; [|done]. intros [= <-].
    destruct (IH k eq_refl) as (b & ? & ? & Hlt). exists b. split_and!; [done|done|].
    intros [|i] c Hi Hc; simplify_eq/=; [done|]. eapply Hlt; [|done]. lia.
Qed.

Lemma find_slot_None {A} (test : A → bool) l j a :
  find_slot test l = None → l !! j = Some a → test a = false.
Proof.
  revert j; induction l as [|b l IH]; intros j; simpl; [by destruct j|].
  destruct (test b) eqn:Hb; [done|]. destruct (find_slot test l); [done|].
  intros _. destruct j as [|j]; intros ?; simplify_eq/=; [done|by eapply IH].
Qed.

Lemma cache_map_Some_1 l d p :
  cache_map l !! d = Some p → ∃ j, l !! j = Some (Watch d p) ∧ 0 <= d.
Proof.
  induction l as [|[d' p'] l IH]; simpl; [done|].
  destruct (Z.geb_spec d' 0) as [Hd|Hd].
  - destruct (decide (d = d')) as [->|Hne].
    + rewrite lookup_insert_eq. intros [= ->]. by exists O.
    + rewrite lookup_insert_ne by done. intros (j & ? & ?)%IH. by exists (Datatypes.S j).
  - intros (j & ? & ?)%IH. by exists (Datatypes.S j).
Qed.

Lemma cache_ok_cons w l : cache_ok (w :: l) → cache_ok l.
Proof.
  intros [Hs Hu]. split.
  - intros j v Hv. by apply (Hs (Datatypes.S j)).
  - intros i j v v' Hi Hj ??. enough (Datatypes.S i = Datatypes.S j) by lia. by eapply Hu.
Qed.

(** Lookup in the map is search in the array. *)
Lemma cache_lookup l d p :
  cache_ok l → cache_map l !! d = Some p ↔ ∃ j, l !! j = Some (Watch d p) ∧ 0 <= d.
Proof.
  intros Hok. split; [apply cache_map_Some_1|]. intros (j & Hj & Hd).
  revert j Hj Hok; induction l as [|[d' p'] l IH]; intros [|j] Hj Hok; simplify_eq/=.
  - destruct (Z.geb_spec d 0); [|lia]. apply lookup_insert_eq.
  - destruct (Z.geb_spec d' 0) as [Hd'|Hd'].
    + rewrite lookup_insert_ne; [eapply IH; [done|by eapply cache_ok_cons]|].
      intros <-. enough (O = Datatypes.S j) by done.
      by eapply (slots_unique _ Hok O (Datatypes.S j)).
    + eapply IH; [done|by eapply cache_ok_cons].
Qed.

Lemma cache_map_eq l m :
  cache_ok l → (∀ d p, (∃ j, l !! j = Some (Watch d p) ∧ 0 <= d) ↔ m !! d = Some p) →
  cache_map l = m.
Proof.
  intros Hok H. apply map_eq. intros d. apply option_eq. intros p.
  by rewrite cache_lookup, H.
Qed.

Lemma cache_ok_nil : cache_ok [].
Proof. by split. Qed.

(** A watch in a free slot is an insertion. *)
Lemma cache_insert l j d p :
  cache_ok l → l !! j = Some empty_slot → 0 <= d → cache_map l !! d = None →
  cache_ok (<[j := Watch d p]> l) ∧ cache_map (<[j := Watch d p]> l) = <[d := p]> (cache_map l).
Proof.
  intros Hok Hj Hd Hnew.
  assert (Hfresh : ∀ i w, l !! i = Some w → wd w ≠ d).
  { intros i [d' q] Hi; simpl; intros ->. enough (cache_map l !! d = Some q) by congruence.
    apply cache_lookup; eauto. }
  assert (Hlt := lookup_lt_Some _ _ _ Hj).
  assert (Hok' : cache_ok (<[j := Watch d p]> l)).
  { split.
    - intros i w [(-> & <- & _)|[? Hi]]%list_lookup_insert_Some; [by right|].
      by apply (slots_ok _ Hok i).
    - intros i i' v w [(<- & <- & _)|[? Hi]]%list_lookup_insert_Some
        [(<- & <- & _)|[? Hi']]%list_lookup_insert_Some; simpl; intros ? E; [done|..].
      + by destruct (Hfresh i' w Hi').
      + by destruct (Hfresh i v Hi).
      + by eapply (slots_unique _ Hok). }
  split; [done|]. apply cache_map_eq; [done|]. intros d' p'. split.
  - intros (i & [(-> & [= <- <-] & _)|[? Hi]]%list_lookup_insert_Some & Hd').
    + apply lookup_insert_eq.
    + rewrite lookup_insert_ne by (by specialize (Hfresh _ _ Hi)).
      apply cache_lookup; eauto.
  - intros [[<- <-]|[Hne (i & Hi & ?)%cache_lookup]]%lookup_insert_Some; [| |done].
    + exists j. split; [|done]. by apply list_lookup_insert_eq.
    + exists i. split; [|done]. rewrite list_lookup_insert_ne; [done|]. intros <-.
      unfold empty_slot in Hj. simplify_eq.
Qed.

(** Emptying a slot is a deletion. *)
Lemma cache_delete l j w :
  cache_ok l → l !! j = Some w →
  cache_ok (<[j := empty_slot]> l) ∧ cache_map (<[j := empty_slot]> l) = delete (wd w) (cache_map l).
Proof.
  intros Hok Hj.
  assert (Hok' : cache_ok (<[j := empty_slot]> l)).
  { split.
    - intros i v [(-> & <- & _)|[? Hi]]%list_lookup_insert_Some; [by left|].
      by apply (slots_ok _ Hok i).
    - intros i i' v v' [(<- & <- & _)|[? Hi]]%list_lookup_insert_Some
        [(<- & <- & _)|[? Hi']]%list_lookup_insert_Some; simpl; intros ? E; try (simpl in *; lia).
      by eapply (slots_unique _ Hok). }
  split; [done|]. apply cache_map_eq; [done|]. intros d p. rewrite lookup_delete_Some. split.
  - intros (i & [(-> & [= <- <-] & _)|[? Hi]]%list_lookup_insert_Some & Hd); [lia|].
    split; [|apply cache_lookup; eauto]. intros E. destruct H.
    eapply (slots_unique _ Hok j i w); [done|done|lia|done].
  - intros [Hne (i & Hi & ?)%cache_lookup]; [|done]. exists i. split; [|done].
    rewrite list_lookup_insert_ne; [done|]. intros <-. simplify_eq.
Qed.

Lemma cache_app_empty l n :
  cache_ok l → cache_ok (l ++ replicate n empty_slot) ∧
  cache_map (l ++ replicate n empty_slot) = cache_map l.
Proof.
  intros Hok. assert (Hok' : cache_ok (l ++ replicate n empty_slot)).
  { split.
    - intros i v [Hi|[_ [-> _]%lookup_replicate]]%lookup_app_Some; [by eapply (slots_ok _ Hok)|by left].
    - intros i i' v v' [Hi|[_ [-> _]%lookup_replicate]]%lookup_app_Some
        [Hi'|[_ [-> _]%lookup_replicate]]%lookup_app_Some; simpl; intros ? E; try lia.
      by eapply (slots_unique _ Hok). }
  split; [done|]. apply cache_map_eq; [done|]. intros d p. rewrite cache_lookup by done. split.
  - intros (i & [Hi|[_ [[= -> ->] _]%lookup_replicate]]%lookup_app_Some & ?); [eauto|lia].
  - intros (i & Hi & ?). exists i. split; [|done]. by apply lookup_app_l_Some.
Qed.

(** Rewriting the paths of the used slots. *)
Definition map_path (f : cstr → cstr) (w : watch) : watch := Watch (wd w) (f (path w)).

Lemma cache_map_path f l :
  cache_ok l → f [] = [] →
  cache_ok (map_path f <$> l) ∧ cache_map (map_path f <$> l) = f <$> cache_map l.
Proof.
  intros Hok Hf. assert (Hok' : cache_ok (map_path f <$> l)).
  { split.
    - intros j w [v [-> Hv]]%list_lookup_fmap_Some. apply (slots_ok _ Hok) in Hv as [->|Hv]; [|by right].
      left. unfold map_path; simpl. by rewrite Hf.
    - intros i j v w [v1 [-> ?]]%list_lookup_fmap_Some [w1 [-> ?]]%list_lookup_fmap_Some. simpl.
      intros ??. by eapply (slots_unique _ Hok i j). }
  split; [done|]. apply cache_map_eq; [done|]. intros d p. rewrite lookup_fmap_Some. split.
  - intros (j & ([d' p'] & [= -> ->] & Hj)%list_lookup_fmap_Some & ?). simpl in *.
    exists p'. split; [done|]. apply cache_lookup; eauto.
  - intros (p' & <- & (j & Hj & ?)%cache_lookup); [|done]. exists j. split; [|done].
    apply list_lookup_fmap_Some. by exists (Watch d p').
Qed.

(** The slot of a watch descriptor, by search and by the map. *)
Lemma findWatch_lookup l d :
  cache_ok l → 0 <= d →
  match find_slot (λ w, wd w =? d) l with
  | Some j => ∃ p, l !! j = Some (Watch d p) ∧ cache_map l !! d = Some p
  | None => cache_map l !! d = None
  end.
Proof.
  intros Hok Hd. destruct (find_slot _ l) as [j|] eqn:E.
  - apply find_slot_Some in E as ([d' p] & Hj & Ht & _). apply Z.eqb_eq in Ht. simpl in Ht. subst.
    exists p. split; [done|]. apply cache_lookup; eauto.
  - apply eq_None_not_Some. intros [p (j & Hj & _)%cache_lookup]; [|done].
    apply (find_slot_None _ _ _ _ E) in Hj. simpl in Hj. apply Z.eqb_neq in Hj. done.
Qed.

(** ** The invariant of the program *)

Fixpoint zapped (l : list (option cstr)) : Z :=
  match l with
  | [] => 0
  | None :: l => 1 + zapped l
  | Some _ :: l => zapped l
  end.

(** The cache is well formed, [ignoreRootDirs] counts the roots given up, and
    reads ask for no more than the event buffer holds (main takes the size
    from option -b unchecked). *)
Record dt_ok (g : dtree) : Prop := {
  dt_cache : cache_ok (wlCache g);
  dt_roots : ignoreRootDirs g = zapped (rootDirPaths g);
  dt_buf : readBufferSize g <= INOTIFY_READ_BUF_LEN
}.

(** How the program may stop: it exits or aborts, in a state that satisfies the
    invariant; the one undefined step it can take is to print the cache to a
    log file that was not given (options -d and -a without -l). *)
Definition stop_ok (t : stop) (g : dtree) : Prop :=
  match t with
  | Exit _ | Abort => True
  | Undefined _ => logfp g = false ∧ (dumpCache g = true ∨ abortOnCacheProblem g = true)
  | _ => False
  end.
Definition E_dt (t : stop) (s : st dtree) : Prop := dt_ok (glob s) ∧ stop_ok t (glob s).

(** What inotify_add_watch(2) and inotify_init(2) return: a watch descriptor, a
    new file descriptor (standard input is open), or -1. *)
Class AddWatch `{os} := {
  add_watch_reply : ∀ tr fd p mask, -1 <= rv (kern tr (Cinotify_add_watch fd p mask));
  init_reply : ∀ tr, rv (kern tr Cinotify_init) = -1 ∨ 0 < rv (kern tr Cinotify_init)
}.

Lemma zapped_bounds l : 0 <= zapped l <= Z.of_nat (length l).
Proof. induction l as [|[p|] l IH]; simpl; lia. Qed.

Lemma zapped_zap l j p : l !! j = Some (Some p) → zapped (<[j := None]> l) = zapped l + 1.
Proof.
  revert j; induction l as [|[q|] l IH]; intros [|j] Hj; simplify_eq/=; [lia| |].
  - by apply IH.
  - rewrite (IH _ Hj). lia.
Qed.

Lemma dt_ok_set_cache g l : dt_ok g → cache_ok l → dt_ok (set_cache l g).
Proof. intros [? ? ?] ?. by split. Qed.

(** The inotify calls of a history: watches asked for and removed, and reads. *)
Definition watch_call (e : event) : option (call * reply) :=
  match e with
  | Esys (Cinotify_add_watch fd p mask) r => Some (Cinotify_add_watch fd p mask, r)
  | Esys (Cinotify_rm_watch fd d) r => Some (Cinotify_rm_watch fd d, r)
  | Esys (Cread fd n) r => Some (Cread fd n, r)
  | _ => None
  end.
Definition wcalls (tr : list event) : list (call * reply) := omap watch_call tr.

Lemma wcalls_app a b : wcalls (a ++ b) = wcalls a ++ wcalls b.
Proof. unfold wcalls. apply omap_app. Qed.
Lemma wcalls_snoc tr e c : watch_call e = Some c → wcalls (tr ++ [e]) = wcalls tr ++ [c].
Proof. intros H. rewrite wcalls_app. unfold wcalls at 2. simpl. by rewrite H. Qed.
Lemma wcalls_snoc_other tr e : watch_call e = None → wcalls (tr ++ [e]) = wcalls tr.
Proof. intros H. rewrite wcalls_app. unfold wcalls at 2. simpl. rewrite H. apply app_nil_r. Qed.
Lemma wcalls_snoc_out tr f t : wcalls (tr ++ [Eout f t]) = wcalls tr.
Proof. by apply wcalls_snoc_other. Qed.

Section Specs.
Context `{os}.
Implicit Types s : st dtree.

(** [s] and [s'] differ in the text written only. *)
Definition same (s s' : st dtree) : Prop :=
  glob s' = glob s ∧ errno s' = errno s ∧ wcalls (trace s') = wcalls (trace s).

Lemma same_refl s : same s s.
Proof. done. Qed.
Lemma same_trans s1 s2 s3 : same s1 s2 → same s2 s3 → same s1 s3.
Proof. intros (?&?&?) (?&?&?). unfold same. split_and!; congruence. Qed.
Lemma same_out s g e tr f t :
  s = St g e tr → same s (St g e (tr ++ [Eout f t])).
Proof. intros ->. unfold same; simpl. by rewrite wcalls_snoc_out. Qed.

Lemma wp_out f t Q E s : (∀ s', same s s' → Q tt s') → wp (out f t) Q E s.
Proof. intros HQ. apply wp_emit, HQ. destruct s. by apply same_out. Qed.

Lemma wp_log vb t Q E s : (∀ s', same s s' → Q tt s') → wp (logMessage vb t) Q E s.
Proof.
  intros HQ. apply wp_bind, wp_get, wp_bind.
  assert (∀ s1, same s s1 → wp (when (logfp (glob s)) (out Logfile t)) Q E s1) as Hlog.
  { intros s1 H1. destruct (logfp (glob s)); simpl; [|by apply wp_ret, HQ].
    apply wp_out. intros s2 H2. apply HQ. by eapply same_trans. }
  destruct (_ || _); simpl; [|by apply wp_ret, Hlog, same_refl].
  apply wp_out. intros s1 H1. by apply Hlog.
Qed.

Lemma wp_log_unchecked t Q s :
  dt_ok (glob s) → (dumpCache (glob s) = true ∨ abortOnCacheProblem (glob s) = true) →
  (∀ s', same s s' → logfp (glob s) = true → Q tt s') → wp (log_unchecked t) Q E_dt s.
Proof.
  intros Hok Hd HQ. apply wp_bind, wp_get.
  destruct (logfp (glob s)) eqn:E; [apply wp_out; auto|]. by apply wp_stop.
Qed.

Lemma wp_at_slot j w Q E s : wlCache (glob s) !! j = Some w → Q w s → wp (at_slot j) Q E s.
Proof. intros Hj HQ. apply wp_bind, wp_get. by rewrite Hj. Qed.

(** Loops that print: the state stays the same. *)
Lemma wp_same_loop {A} (body : nat → A → D A) n a Q E s :
  (∀ j a s', (j < n)%nat → same s s' → wp (body j a) (λ _ s'', same s' s'') E s') →
  (∀ a s', same s s' → Q a s') →
  wp (for_acc 0 n body a) Q E s.
Proof.
  intros Hb HQ. eapply wp_mono; [apply (wp_for_acc (λ _ _ s', same s s'))| |]; [done| |auto|done].
  intros j b s' Hj Hs. eapply wp_mono; [apply Hb; [lia|done]| |done].
  intros ???. by eapply same_trans.
Qed.

Lemma slot_exists s s' j :
  same s s' → (j < length (wlCache (glob s)))%nat → ∃ w, wlCache (glob s') !! j = Some w.
Proof. intros (-> & _) Hj. apply lookup_lt_is_Some in Hj as [w ?]. by exists w. Qed.

Lemma wp_dumpCacheToLog Q s :
  dt_ok (glob s) → (dumpCache (glob s) = true ∨ abortOnCacheProblem (glob s) = true) →
  (∀ s', same s s' → logfp (glob s) = true → Q tt s') → wp dumpCacheToLog Q E_dt s.
Proof.
  intros Hok Hd HQ. apply wp_bind, wp_get, wp_bind, wp_same_loop.
  - intros j a s1 Hj H1. destruct (slot_exists s s1 j) as [w Hw]; [done..|].
    eapply wp_bind, wp_at_slot; [done|].
    destruct (wd w >=? 0); [|by apply wp_ret].
    destruct H1 as (E1 & _). apply wp_bind, wp_log_unchecked; [by rewrite E1..|].
    intros s2 H2 _. by apply wp_ret.
  - intros a s1 H1. destruct (H1) as (E1 & _).
    apply wp_log_unchecked; [by rewrite E1..|]. rewrite E1. intros s2 H2. apply HQ.
    by eapply same_trans.
Qed.

Lemma wp_createStopFileAndAbort {A} (Q : A → st dtree → Prop) s :
  dt_ok (glob s) → abortOnCacheProblem (glob s) = true → wp createStopFileAndAbort Q E_dt s.
Proof.
  intros Hok Ha. apply wp_bind, wp_get, wp_bind, wp_sys, wp_bind, wp_dumpCacheToLog; simpl; auto.
  intros s1 (E1 & _) _. apply wp_stop. split; [|done]. by rewrite E1.
Qed.

Lemma wp_findWatchChecked d Q s :
  dt_ok (glob s) → 0 <= d →
  (∀ j p, wlCache (glob s) !! j = Some (Watch d p) → cache_map (wlCache (glob s)) !! d = Some p →
    Q (Some j) s) →
  (∀ s', same s s' → cache_map (wlCache (glob s)) !! d = None → Q None s') →
  wp (findWatchChecked d) Q E_dt s.
Proof.
  intros Hok Hd HS HN. apply wp_bind, wp_bind, wp_get, wp_ret.
  pose proof (findWatch_lookup (wlCache (glob s)) d (dt_cache _ Hok) Hd) as Hf.
  destruct (find_slot _ _) as [j|].
  - destruct Hf as (p & ? & ?). apply wp_ret. eauto.
  - apply wp_bind, wp_log. intros s1 H1. apply wp_bind, wp_get.
    destruct (abortOnCacheProblem (glob s1)) eqn:Ha; [|by apply wp_ret, HN].
    apply wp_createStopFileAndAbort; [|done]. by destruct H1 as (-> & _).
Qed.

Lemma wp_markCacheSlotEmpty j w Q E s :
  wlCache (glob s) !! j = Some w →
  (∀ s', glob s' = set_cache (<[j := empty_slot]> (wlCache (glob s))) (glob s) →
    wcalls (trace s') = wcalls (trace s) → errno s' = errno s → Q tt s') →
  wp (markCacheSlotEmpty j) Q E s.
Proof.
  intros Hj HQ. eapply wp_bind, wp_at_slot; [done|]. apply wp_bind, wp_log.
  intros s1 (E1 & E2 & E3). apply wp_upd, HQ; simpl; [by rewrite E1|done|done].
Qed.

#[local] Opaque ALLOC_INCR.

Lemma realloc_slots_length r : length (realloc_slots r) = ALLOC_INCR.
Proof. unfold realloc_slots. by rewrite length_fmap, length_seq. Qed.

(** Marking the new slots of a grown array, one after the other. *)
Lemma wp_mark_new (l garbage : list watch) n Q E s :
  wlCache (glob s) = l ++ garbage → length garbage = n →
  (∀ s', glob s' = set_cache (l ++ replicate n empty_slot) (glob s) →
    wcalls (trace s') = wcalls (trace s) → Q tt s') →
  wp (for_each (seq (length l) n) markCacheSlotEmpty) Q E s.
Proof.
  intros Hl <-. revert l s Hl; induction garbage as [|w garbage IH]; intros l s Hl HQ; simpl.
  { apply wp_ret, HQ; [|done]. simpl. rewrite <-Hl. by destruct s as [[] ? ?]. }
  eapply wp_bind, wp_markCacheSlotEmpty.
  { rewrite Hl. rewrite lookup_app_r by lia. by rewrite Nat.sub_diag. }
  intros s1 E1 E2 _.
  replace (Datatypes.S (length l)) with (length (l ++ [empty_slot])) by (rewrite length_app; simpl; lia).
  apply IH.
  - rewrite E1. simpl. rewrite Hl, insert_app_r_alt by lia.
    rewrite Nat.sub_diag. simpl. by rewrite <-app_assoc.
  - intros s2 E3 E4. apply HQ; [|by rewrite E4]. rewrite E3, E1. simpl.
    by rewrite <-app_assoc.
Qed.

Lemma wp_findEmptyCacheSlot (Q : nat → st dtree → Prop) s :
  dt_ok (glob s) →
  (∀ j s' l, glob s' = set_cache l (glob s) → wcalls (trace s') = wcalls (trace s) →
    l !! j = Some empty_slot → cache_ok l →
    cache_map l = cache_map (wlCache (glob s)) → Q j s') →
  wp findEmptyCacheSlot Q E_dt s.
Proof.
  intros Hok HQ. apply wp_bind, wp_get. destruct (find_slot _ _) as [j|] eqn:E.
  - apply find_slot_Some in E as (w & Hj & Ht & _). apply Z.eqb_eq in Ht.
    apply wp_ret. eapply HQ; [|done| |apply Hok|done]; [by destruct s as [[] ? ?]|].
    rewrite Hj. destruct (slots_ok _ (dt_cache _ Hok) _ _ Hj) as [->|?]; [done|lia].
  - apply wp_bind, wp_sys. destruct (_ =? -1).
    { apply wp_bind, wp_bind, wp_get_errno, wp_out. intros s1 (E1 & _). apply wp_stop.
      split; [|done]. by rewrite E1. }
    apply wp_bind, wp_upd, wp_bind. simpl.
    set (r := kern _ _). rewrite Nat.add_sub.
    eapply wp_mark_new; [done|apply realloc_slots_length|].
    intros s1 E1 E2. apply wp_ret.
    pose proof (cache_app_empty _ ALLOC_INCR (dt_cache _ Hok)) as [Hok' Hm].
    eapply HQ; [exact E1|rewrite E2; by apply wcalls_snoc_other| |done|done].
    rewrite lookup_app_r by lia. by rewrite Nat.sub_diag.
Qed.

(** addWatchToCache inserts. *)
Lemma wp_addWatchToCache d p (Q : nat → st dtree → Prop) s :
  dt_ok (glob s) → 0 <= d → cache_map (wlCache (glob s)) !! d = None →
  (∀ j s' l, glob s' = set_cache l (glob s) → wcalls (trace s') = wcalls (trace s) →
    cache_ok l → cache_map l = <[d := strncpy PATH_MAX p]> (cache_map (wlCache (glob s))) → Q j s') →
  wp (addWatchToCache d p) Q E_dt s.
Proof.
  intros Hok Hd Hnew HQ. apply wp_bind, wp_findEmptyCacheSlot; [done|].
  intros j s1 l E1 E2 Hj Hl Hm. apply wp_bind, wp_upd, wp_ret.
  destruct (cache_insert l j d (strncpy PATH_MAX p)) as [Hok' Hm']; [done..|by rewrite Hm|].
  eapply HQ; [|done|done|by rewrite Hm', Hm]. simpl. rewrite E1. done.
Qed.

(** ** Root directories *)

Lemma wp_isRootDirPath p Q E s :
  Q (bool_decide (Some p ∈ rootDirPaths (glob s))) s → wp (isRootDirPath p) Q E s.
Proof.
  intros HQ. apply wp_bind, wp_bind, wp_get, wp_ret, wp_ret.
  destruct (find_slot _ _) as [j|] eqn:E1.
  - apply find_slot_Some in E1 as ([q|] & Hj & Ht & _); [|done]. apply streq_true in Ht as ->.
    rewrite bool_decide_eq_true_2 in HQ; [done|]. by eapply list_elem_of_lookup_2.
  - rewrite bool_decide_eq_false_2 in HQ; [done|].
    intros [j Hj]%list_elem_of_lookup. apply (find_slot_None _ _ _ _ E1) in Hj.
    simpl in Hj. by apply streq_false in Hj.
Qed.

(** Giving up a root: its entry is cleared and counted, and the program ends
    with success when it was the last. *)
Lemma wp_zapRootDirPath p Q s :
  dt_ok (glob s) →
  (∀ j s', rootDirPaths (glob s) !! j = Some (Some p) →
    zapped (rootDirPaths (glob s)) + 1 < Z.of_nat (length (rootDirPaths (glob s))) →
    glob s' = set_roots (<[j := None]> (rootDirPaths (glob s))) (ignoreRootDirs (glob s) + 1)
                (rootDirStat (glob s)) (glob s) →
    wcalls (trace s') = wcalls (trace s) → Q tt s') →
  wp (zapRootDirPath p) Q E_dt s.
Proof.
  intros Hok HQ. apply wp_bind, wp_out. intros s1 (E1 & _ & E2).
  apply wp_bind, wp_bind, wp_get, wp_ret. rewrite E1.
  destruct (find_slot _ _) as [j|] eqn:E3.
  2:{ apply wp_bind, wp_out. intros s2 (E4 & _). apply wp_stop. split; [|done]. by rewrite E4, E1. }
  apply find_slot_Some in E3 as ([q|] & Hj & Ht & _); [|done]. apply streq_true in Ht as ->.
  apply wp_bind, wp_upd, wp_bind, wp_get. simpl. rewrite E1.
  pose proof (zapped_zap _ _ _ Hj) as Hz. pose proof (zapped_bounds (<[j := None]> (rootDirPaths (glob s)))) as Hb.
  rewrite length_insert in *. rewrite (dt_roots _ Hok).
  destruct (Z.eqb_spec (zapped (rootDirPaths (glob s)) + 1) (Z.of_nat (length (rootDirPaths (glob s))))) as [He|He]; simpl.
  - apply wp_bind, wp_out. intros s2 (E4 & _). apply wp_stop. split; [|done].
    rewrite E4. split; simpl; [apply Hok| |apply Hok]. lia.
  - apply wp_ret. eapply HQ; [done|lia| |done]. simpl. by rewrite (dt_roots _ Hok).
Qed.
End Specs.

(** What the copy of the arguments leaves alone. *)
Definition kept (g : dtree) : list watch * Z := (wlCache g, readBufferSize g).

Section Roots.
Context `{os}.
Implicit Types s : st dtree.

(** The (inode, device) pairs lstat reported for the arguments. *)
Lemma wp_check_roots argv n (Q : Z → st dtree → Prop) s :
  (∀ s', glob s' = glob s → Q (n + Z.of_nat (length argv)) s') →
  wp (check_roots argv n) Q (λ t _, t = Exit 1) s.
Proof.
  revert n s Q; induction argv as [|p argv IH]; intros n s Q HQ; simpl.
  { apply wp_ret. rewrite <-(Z.add_0_r n). by apply HQ. }
  apply wp_bind, wp_sys. destruct (_ =? -1).
  { apply wp_bind, wp_out. intros s1 (G1 & _). by apply wp_stop. }
  destruct (negb _).
  { apply wp_bind, wp_out. intros s1 (G1 & _). by apply wp_stop. }
  apply (IH (n + 1)). intros s' G'.
  replace (n + 1 + Z.of_nat (length argv)) with (n + Z.of_nat (length (p :: argv))) by (cbn [length]; lia).
  by apply HQ.
Qed.

(** The state of the copy loop after [j] arguments. *)
Definition copied (argv : list cstr) (j : nat) (g : dtree) : Prop :=
  rootDirPaths g = (Some <$> take j argv) ++ replicate (length argv - j) None ∧
  length (rootDirStat g) = length argv ∧ NoDup (take j (rootDirStat g)).

(** The search for a duplicate of the object just recorded. *)
Lemma wp_no_duplicate (ids : Z * Z) (l : list (Z * Z)) (msg : nat → cstr) i (Q : unit → st dtree → Prop) s :
  (∀ s', glob s' = glob s → ids ∉ l → Q tt s') →
  wp (for_each (imap (λ k x, (i + k, x)%nat) l) (λ '(k, ids'),
        if (fst ids =? fst ids') && (snd ids =? snd ids') then out Stderr (msg k);; stop_with (Exit 1)
        else mret tt)) Q (λ t _, t = Exit 1) s.
Proof.
  revert i s Q; induction l as [|x l IH]; intros i s Q HQ; simpl.
  { apply wp_ret, HQ; [done|apply not_elem_of_nil]. }
  apply wp_bind. destruct (_ && _) eqn:E.
  { apply wp_bind, wp_out. intros. by apply wp_stop. }
  apply wp_ret.
  rewrite (imap_ext _ (λ k x, (Datatypes.S i + k, x)%nat)) by (intros; simpl; f_equal; lia).
  apply IH. intros s' G' Hn. apply HQ; [done|]. apply not_elem_of_cons. split; [|done].
  intros ->. by rewrite !Z.eqb_refl in E.
Qed.
Lemma copied_next argv j arg ids g :
  argv !! j = Some arg → copied argv j g → ids ∉ take j (rootDirStat g) →
  copied argv (Datatypes.S j)
    (set_roots (<[j := Some arg]> (rootDirPaths g)) (ignoreRootDirs g) (<[j := ids]> (rootDirStat g)) g).
Proof.
  intros Ha (Hp & Hl & Hd) Hn. pose proof (lookup_lt_Some _ _ _ Ha) as Hj.
  assert (length (take j argv) = j) as Hlt by (rewrite length_take; lia).
  split_and!; simpl.
  - rewrite Hp, (take_S_r _ _ arg), fmap_app by done.
    replace (length argv - j)%nat with (Datatypes.S (length argv - Datatypes.S j)) by lia. simpl.
    rewrite insert_app_r_alt by (rewrite length_fmap; lia).
    rewrite length_fmap, Hlt, Nat.sub_diag. simpl. by rewrite <-app_assoc.
  - by rewrite length_insert.
  - rewrite (take_S_r _ _ ids) by (apply list_lookup_insert_eq; lia).
    rewrite take_insert_ge by lia. apply NoDup_app. split_and!; [done| |apply NoDup_singleton].
    intros x Hx ->%list_elem_of_singleton. done.
Qed.

Definition E_roots (t : stop) (_ : st dtree) : Prop := t = Exit 1 ∨ t = Undefined "rootDirStat is NULL".

Lemma wp_perror_exit {A} msg (Q : A → st dtree → Prop) s : wp (perror_exit msg) Q E_roots s.
Proof. apply wp_bind, wp_bind, wp_get_errno, wp_out. intros s1 _. apply wp_stop. by left. Qed.

Lemma wp_copy_root argv j arg (Q : unit → st dtree → Prop) s :
  argv !! j = Some arg → copied argv j (glob s) →
  (∀ s', copied argv (Datatypes.S j) (glob s') → kept (glob s') = kept (glob s) → Q tt s') →
  wp (copy_root argv (j, arg)) Q E_roots s.
Proof.
  intros Ha Hc HQ. apply wp_bind, wp_sys, wp_bind.
  destruct (_ =? -1); simpl; [apply wp_perror_exit|]. apply wp_ret, wp_bind, wp_sys.
  destruct (_ =? -1); [apply wp_perror_exit|]. set (r := kern _ _). simpl.
  apply wp_bind, wp_upd, wp_bind, wp_get. simpl. rewrite take_insert_ge by lia.
  apply (wp_mono _ Q Q (λ t _, t = Exit 1)); [|done|intros t ? ->; by left].
  apply (wp_no_duplicate (st_ino r, st_dev r) _ (λ k, str "Duplicate filesystem objects: " ++ arg ++
    str ", " ++ nth k argv [] ++ [NL]) 0).
  intros s1 G1 Hn. simpl in G1. apply HQ; rewrite G1; [|done]. by apply copied_next.
Qed.

Lemma imap_pair_lookup {A} (l : list A) prev j a todo :
  imap pair l = prev ++ (j, a) :: todo → j = length prev ∧ l !! j = Some a.
Proof.
  intros H1. assert ((imap pair l) !! length prev = Some (j, a)) as Hl
    by (rewrite H1, lookup_app_r by lia; by rewrite Nat.sub_diag).
  rewrite list_lookup_imap in Hl. destruct (l !! length prev) as [b|] eqn:E; simplify_eq/=. by subst.
Qed.

Lemma wp_copyRootDirPaths argv (Q : unit → st dtree → Prop) s :
  (∀ s', copied argv (length argv) (glob s') → ignoreRootDirs (glob s') = 0 →
    kept (glob s') = kept (glob s) → Q tt s') →
  wp (copyRootDirPaths argv) Q E_roots s.
Proof.
  intros HQ. apply wp_bind.
  eapply wp_mono; [apply (wp_check_roots _ _ (λ n s', n = Z.of_nat (length argv) ∧ glob s' = glob s)); auto| |by left].
  intros n s1 [-> G1]. apply wp_bind, wp_sys, wp_bind. rewrite Nat2Z.id.
  destruct (_ =? -1); simpl; [apply wp_perror_exit|]. apply wp_ret, wp_bind, wp_sys, wp_bind.
  destruct (_ =? -1); simpl; [apply wp_stop; by right|]. apply wp_ret, wp_bind, wp_upd, wp_bind. simpl.
  eapply wp_mono; [apply (wp_for_each (λ prev s', copied argv (length prev) (glob s') ∧
    kept (glob s') = kept (glob s)))| |done].
  - simpl. rewrite G1. split; [|done]. split_and!; simpl.
    + by rewrite Nat.sub_0_r.
    + apply length_replicate.
    + constructor.
  - intros prev [j arg] todo s2 Hl [Hc W2]. apply imap_pair_lookup in Hl as [-> Ha].
    apply wp_copy_root; [done..|]. intros s3 Hc3 W3. rewrite length_app. simpl.
    rewrite Nat.add_1_r. split; [done|congruence].
  - intros _ s2 [Hc W2]. rewrite length_imap in Hc. apply wp_upd, HQ; [|done|done].
    destruct Hc as (? & ? & ?). by split_and!.
Qed.
End Roots.

(** ** The property *)

(** Roots, copyRootDirPaths(argv), for any file system: it returns only when it
    has recorded every command-line directory, in order, with none given up,
    and the file objects recorded are pairwise distinct (no two arguments name
    the same directory); otherwise the program exits with failure, or an
    allocation whose result is not tested failed. *)
Theorem copyRootDirPaths_correct `{os} argv (s : st dtree) :
  (∃ s', copyRootDirPaths argv s = (Ret tt, s') ∧
    rootDirPaths (glob s') = Some <$> argv ∧ ignoreRootDirs (glob s') = 0 ∧
    length (rootDirStat (glob s')) = length argv ∧ NoDup (rootDirStat (glob s')) ∧
    kept (glob s') = kept (glob s)) ∨
  (∃ t s', copyRootDirPaths argv s = (Stop t, s') ∧ (t = Exit 1 ∨ t = Undefined "rootDirStat is NULL")).
Proof.
  assert (wp (copyRootDirPaths argv) (λ _ s', copied argv (length argv) (glob s') ∧
    ignoreRootDirs (glob s') = 0 ∧ kept (glob s') = kept (glob s)) E_roots s) as Hw
    by (apply wp_copyRootDirPaths; auto).
  destruct (wp_run _ _ _ _ Hw) as [([] & s' & E & (Hp & Hl & Hd) & Hi & Hc)|(t & s' & E & Ht)];
    [left|right; eauto].
  exists s'. rewrite Nat.sub_diag, firstn_all, app_nil_r in Hp.
  rewrite take_ge in Hd by lia. done.
Qed.
