(* ===== verification/InotifyTree.v ===== *)
(** Whole-subtree operations of tlpi-book/inotify/inotify_dtree.c: watching a
    tree, renaming and zapping cached subtrees, rebuilding the cache. *)
From S2P Require Import Prelude Sys InotifyCache.

(** inotify event bits (sys/inotify.h). *)
Definition IN_MOVED_FROM : Z := 64.
Definition IN_MOVED_TO : Z := 128.
Definition IN_CREATE : Z := 256.
Definition IN_DELETE_SELF : Z := 1024.
Definition IN_MOVE_SELF : Z := 2048.
Definition IN_UNMOUNT : Z := 8192.
Definition IN_Q_OVERFLOW : Z := 16384.
Definition IN_IGNORED : Z := 32768.
Definition IN_ONLYDIR : Z := 16777216.
Definition IN_ISDIR : Z := 1073741824.

(** [strncmp (p, path, strlen p) == 0] and the next character of [path] is
    '/' or the terminator: [path] is [p] or below it. *)
Definition under (p path : cstr) : bool :=
  has_prefix p path &&
    match drop (length p) path with
    | [] => true
    | c :: _ => bool_decide (c = "/"%char)
    end.

(** What [rewriteCachedPaths] makes of one cached path. *)
Definition rewritten (fullPath newPrefix p : cstr) : cstr :=
  if under fullPath p then
    strncpy PATH_MAX (snprintf PATH_MAX (newPrefix ++ drop (length fullPath) p))
  else p.

Section Functions.
Context `{os}.

(** ** Watching a tree *)

Definition traverseTree (pathname : cstr) (mode : Z) : D Z :=
  if negb (S_ISDIR mode) then mret 0 else
  let flags := Z.lor (Z.lor (Z.lor IN_CREATE IN_MOVED_FROM) IN_MOVED_TO) IN_DELETE_SELF in
  isroot ← isRootDirPath pathname;
  let flags := if (isroot : bool) then Z.lor flags IN_MOVE_SELF else flags in
  g ← get;
  r ← sys (Cinotify_add_watch (ifd g) pathname (Z.lor flags IN_ONLYDIR));
  let d := rv r in
  if d =? -1 then
    e ← get_errno;
    logMessage VB_BASIC (str "inotify_add_watch: " ++ pathname ++ str ": " ++ strerror e ++ [NL]);;
    e ← get_errno;
    if e =? ENOENT then mret 0 else stop_with (Exit 1)
  else
    found ← findWatch d;
    match found with
    | Some _ =>
        logMessage VB_BASIC (str "WD " ++ dec d ++ str " already in cache (" ++ pathname ++ str ")" ++ [NL]);;
        mret 0
    | None =>
        upd (λ g, set_walk (dirCnt g + 1) (ifd g) g);;
        slot ← addWatchToCache d pathname;
        logMessage VB_NOISY (str "    watchDir: wd = " ++ dec d ++ str " [cache slot: " ++
          dec (Z.of_nat slot) ++ str "]; " ++ pathname ++ [NL]);;
        mret 0
    end.

(** nftw(3) calls the function on every object it meets and stops when the
    function returns something else than 0. *)
Fixpoint nftw_visits (visits : list (cstr * Z)) : D Z :=
  match visits with
  | [] => mret 0
  | (p, mode) :: visits =>
      r ← traverseTree p mode;
      if r =? 0 then nftw_visits visits else mret r
  end.

Definition watchDir (inotifyFd : Z) (pathname : cstr) : D Z :=
  upd (set_walk 0 inotifyFd);;
  r ← sys (Cnftw pathname);
  nftw_visits (rents r);;
  when (rv r =? -1)
    (set_errno (rerr r);;
     logMessage VB_BASIC (str "nftw: " ++ pathname ++ str ": " ++ strerror (rerr r) ++
       str " (directory probably deleted before we could watch)" ++ [NL]));;
  g ← get;
  mret (dirCnt g).

Definition watchSubtree (inotifyFd : Z) (p : cstr) : D unit :=
  cnt ← watchDir inotifyFd p;
  logMessage VB_BASIC (str "    watchSubtree: " ++ p ++ str ": " ++ dec cnt ++ str " entries added" ++ [NL]).

(** ** Renaming a subtree *)

Definition rewriteCachedPaths (oldPathPrefix oldName newPathPrefix newName : cstr) : D unit :=
  let fullPath := snprintf PATH_MAX (oldPathPrefix ++ str "/" ++ oldName) in
  let newPrefix := snprintf PATH_MAX (newPathPrefix ++ str "/" ++ newName) in
  logMessage VB_BASIC (str "Rename: " ++ fullPath ++ str " ==> " ++ newPrefix ++ [NL]);;
  g ← get;
  for_acc 0 (length (wlCache g)) (λ j _,
    w ← at_slot j;
    if under fullPath (path w) then
      let text := newPrefix ++ drop (length fullPath) (path w) in
      let newPath := snprintf PATH_MAX text in
      when (strlen text >? PATH_MAX) (logMessage VB_BASIC (str "Truncated pathname: " ++ newPath ++ [NL]));;
      upd (λ g, set_cache (<[j := Watch (wd w) (strncpy PATH_MAX newPath)]> (wlCache g)) g);;
      logMessage VB_NOISY (str "    wd " ++ dec (wd w) ++ str " [cache slot " ++ dec (Z.of_nat j) ++
        str "] ==> " ++ newPath ++ [NL])
    else mret tt) tt.

(** ** Zapping a subtree *)

(** One turn of the loop over the slots: go on with the count, or break with -1. *)
Definition zap_slot (inotifyFd : Z) (pn : cstr) (j : nat) (cnt : Z) : D (Z + Z) :=
  w ← at_slot j;
  if (wd w >=? 0) && under pn (path w) then
    logMessage VB_NOISY (str "    removing watch: wd = " ++ dec (wd w) ++ str " (" ++ path w ++ str ")" ++ [NL]);;
    r ← sys (Cinotify_rm_watch inotifyFd (wd w));
    if rv r =? -1 then
      e ← get_errno;
      logMessage 0 (str "inotify_rm_watch wd = " ++ dec (wd w) ++ str " (" ++ path w ++ str "): " ++ strerror e ++ [NL]);;
      mret (inr (-1))
    else
      markCacheSlotEmpty j;;
      mret (inl (cnt + 1))
  else mret (inl cnt).

Definition zapSubtree (inotifyFd : Z) (p : cstr) : D Z :=
  logMessage VB_NOISY (str "Zapping subtree: " ++ p ++ [NL]);;
  g ← get;
  cnt ← for_from 0 (length (wlCache g)) (zap_slot inotifyFd p) 0;
  mret (match cnt with inl n => n | inr n => n end).

(** ** Rebuilding *)

Definition watch_roots (inotifyFd : Z) : D unit :=
  g ← get;
  for_acc 0 (length (rootDirPaths g)) (λ j _,
    g ← get;
    match rootDirPaths g !! j with
    | Some (Some p) => watchSubtree inotifyFd p
    | _ => mret tt
    end) tt.

Definition count_slots : D Z :=
  g ← get;
  for_acc 0 (length (wlCache g)) (λ j cnt,
    w ← at_slot j; mret (if wd w >=? 0 then cnt + 1 else cnt)) 0.

(** The part of [reinitialize] after its first message. *)
Definition rebuild (oldInotifyFd : Z) : D Z :=
  r ← sys Cinotify_init;
  if rv r =? -1 then perror_exit (str "inotify_init") else
  let inotifyFd := rv r in
  logMessage VB_BASIC (str "    new inotifyFd = " ++ dec inotifyFd ++ [NL]);;
  freeCache;;
  watch_roots inotifyFd;;
  cnt ← count_slots;
  when (oldInotifyFd >=? 0)
    (logMessage 0 (str "Rebuilt cache with " ++ dec cnt ++ str " entries" ++ [NL]));;
  mret inotifyFd.

Definition reinitialize (oldInotifyFd : Z) : D Z :=
  (if oldInotifyFd >=? 0 then
     sys (Cclose oldInotifyFd);;
     upd (λ g, set_counts (reinitCnt g + 1) (overflowCnt g) g);;
     g ← get;
     logMessage 0 (str "Reinitializing cache and inotify FD (reinitCnt = " ++ dec (reinitCnt g) ++ str ")" ++ [NL])
   else
     logMessage 0 (str "Initializing cache" ++ [NL]);;
     upd (λ g, set_counts 0 (overflowCnt g) g));;
  rebuild oldInotifyFd.
End Functions.

(** ** Watching, as a growth of the map *)

(** The watches a list of calls established, in order. *)
Definition added_by (c : call * reply) : option (Z * cstr) :=
  match c with
  | (Cinotify_add_watch _ p _, r) => if rv r =? -1 then None else Some (rv r, strncpy PATH_MAX p)
  | _ => None
  end.
Definition added (cs : list (call * reply)) : gmap Z cstr := list_to_map (omap added_by cs).

(** The events watched in a directory: those of a root include its own move. *)
Definition watch_mask (root : bool) : Z := if root then 16780736 else 16778688.

(** [c] asks for a watch on [p], and fails only because [p] is gone. *)
Definition adds (roots : list (option cstr)) (fd : Z) (p : cstr) (c : call * reply) : Prop :=
  c.1 = Cinotify_add_watch fd p (watch_mask (bool_decide (Some p ∈ roots))) ∧
  (rv c.2 = -1 → rerr c.2 = ENOENT).

(** From [s] to [s'] watches were established on the directories [dirs], and
    the cache is what it was plus the new watches. *)
Definition grown (fd : Z) (dirs : list cstr) (s s' : st dtree) : Prop :=
  ∃ l n cs,
    glob s' = set_cache l (set_walk n fd (glob s)) ∧ cache_ok l ∧
    wcalls (trace s') = wcalls (trace s) ++ cs ∧
    Forall2 (adds (rootDirPaths (glob s)) fd) dirs cs ∧
    cache_map l = cache_map (wlCache (glob s)) ∪ added cs.

(** The same, with [dirCnt] counting the entries added. *)
Definition counted (fd : Z) (dirs : list cstr) (s s' : st dtree) : Prop :=
  grown fd dirs s s' ∧
  dirCnt (glob s') = dirCnt (glob s) + Z.of_nat (size (cache_map (wlCache (glob s'))))
                                     - Z.of_nat (size (cache_map (wlCache (glob s)))).

Lemma added_app a b : added (a ++ b) = added a ∪ added b.
Proof. unfold added. by rewrite omap_app, list_to_map_app. Qed.

Lemma set_cache_same g : set_cache (wlCache g) (set_walk (dirCnt g) (ifd g) g) = g.
Proof. by destruct g. Qed.

Lemma grown_refl fd s s' :
  cache_ok (wlCache (glob s)) → ifd (glob s) = fd → glob s' = glob s →
  wcalls (trace s') = wcalls (trace s) → grown fd [] s s'.
Proof.
  intros Hok <- E1 E2. exists (wlCache (glob s)), (dirCnt (glob s)), [].
  split_and!; [by rewrite E1, set_cache_same|done|by rewrite app_nil_r| |].
  - constructor.
  - unfold added; simpl. by rewrite (right_id_L ∅ (∪)).
Qed.

Lemma grown_trans fd d1 d2 s1 s2 s3 :
  grown fd d1 s1 s2 → grown fd d2 s2 s3 → grown fd (d1 ++ d2) s1 s3.
Proof.
  intros (l1 & n1 & cs1 & E1 & ? & W1 & F1 & M1) (l2 & n2 & cs2 & E2 & ? & W2 & F2 & M2).
  rewrite E1 in *. simpl in *. exists l2, n2, (cs1 ++ cs2). split_and!; [done|done| | |].
  - by rewrite W2, W1, app_assoc.
  - by apply Forall2_app.
  - by rewrite M2, M1, added_app, (assoc_L (∪)).
Qed.

Lemma grown_ok fd dirs s s' : dt_ok (glob s) → grown fd dirs s s' → dt_ok (glob s').
Proof. intros [? ? ?] (l & n & cs & -> & ? & _). by split. Qed.

Lemma grown_ifd fd dirs s s' : grown fd dirs s s' → ifd (glob s') = fd.
Proof. by intros (l & n & cs & -> & _). Qed.

Section Watching.
Context `{AddWatch}.
Implicit Types s : st dtree.

Lemma counted_refl s s' :
  cache_ok (wlCache (glob s)) → glob s' = glob s →
  wcalls (trace s') = wcalls (trace s) → counted (ifd (glob s)) [] s s'.
Proof. intros ? E ?. split; [by apply grown_refl|]. rewrite E. lia. Qed.

Lemma counted_trans fd d1 d2 s1 s2 s3 :
  counted fd d1 s1 s2 → counted fd d2 s2 s3 → counted fd (d1 ++ d2) s1 s3.
Proof. intros [? ?] [? ?]. split; [by eapply grown_trans|lia]. Qed.

(** A watch that added nothing to the cache. *)
Lemma counted_nothing s s' p r :
  cache_ok (wlCache (glob s)) → glob s' = glob s →
  wcalls (trace s') = wcalls (trace s) ++
    [(Cinotify_add_watch (ifd (glob s)) p (watch_mask (bool_decide (Some p ∈ rootDirPaths (glob s)))), r)] →
  (rv r = -1 ∧ rerr r = ENOENT ∨ rv r ≠ -1 ∧ is_Some (cache_map (wlCache (glob s)) !! rv r)) →
  counted (ifd (glob s)) [p] s s'.
Proof.
  intros Hok E1 E2 Hr. split; [|rewrite E1; lia].
  eexists (wlCache (glob s)), (dirCnt (glob s)), _.
  split_and!; [by rewrite E1, set_cache_same|done|exact E2| |].
  - constructor; [|constructor]. split; [done|]. simpl. by destruct Hr as [[_ ?]|[? _]].
  - unfold added; simpl. destruct Hr as [[-> _]|[? [q Hq]]]; simpl; [by rewrite (right_id_L ∅ (∪))|].
    destruct (Z.eqb_spec (rv r) (-1)); [done|]. simpl.
    rewrite insert_empty. symmetry. by apply (union_singleton_r _ _ q).
Qed.

Lemma wp_traverseTree p mode Q s :
  dt_ok (glob s) →
  (∀ s', counted (ifd (glob s)) (if S_ISDIR mode then [p] else []) s s' → Q 0 s') →
  wp (traverseTree p mode) Q E_dt s.
Proof.
  intros Hok HQ. pose proof (dt_cache _ Hok) as Hc. unfold traverseTree.
  destruct (S_ISDIR mode); simpl; [|by apply wp_ret, HQ, counted_refl].
  apply wp_bind, wp_isRootDirPath, wp_bind, wp_get, wp_bind, wp_sys.
  set (c := Cinotify_add_watch _ _ _). set (r := kern _ _).
  assert (c = Cinotify_add_watch (ifd (glob s)) p
                (watch_mask (bool_decide (Some p ∈ rootDirPaths (glob s))))) as Ec.
  { unfold c. by destruct (bool_decide _). }
  pose proof (add_watch_reply (trace s) (ifd (glob s)) p
    (watch_mask (bool_decide (Some p ∈ rootDirPaths (glob s))))) as Hr.
  rewrite <-Ec in Hr. fold r in Hr.
  assert (∀ e, watch_call (Esys c e) = Some (c, e)) as Hwc by (by rewrite Ec).
  destruct (Z.eqb_spec (rv r) (-1)) as [E1|E1]; simpl.
  - apply wp_bind, wp_get_errno, wp_bind, wp_log. intros s1 (G1 & N1 & W1). simpl in *.
    apply wp_bind, wp_get_errno. rewrite N1.
    destruct (Z.eqb_spec (rerr r) ENOENT) as [E2|E2].
    + apply wp_ret, HQ. eapply (counted_nothing _ _ _ r); [done|done| |by left].
      rewrite W1, <-Ec. by apply wcalls_snoc.
    + apply wp_stop. split; [by rewrite G1|done].
  - apply wp_bind, wp_bind, wp_get, wp_ret. simpl.
    pose proof (findWatch_lookup (wlCache (glob s)) (rv r) Hc ltac:(lia)) as Hf.
    destruct (find_slot _ _) as [j|].
    + destruct Hf as (q & _ & Hq). apply wp_bind, wp_log. intros s1 (G1 & N1 & W1). simpl in *.
      apply wp_ret, HQ. eapply (counted_nothing _ _ _ r); [done|done| |right; by rewrite Hq].
      rewrite W1, <-Ec. by apply wcalls_snoc.
    + apply wp_bind, wp_upd, wp_bind, wp_addWatchToCache; simpl; [by split; apply Hok|lia|done|].
      intros j s1 l G1 W1 Hl Hm. apply wp_bind, wp_log. intros s2 (G2 & _ & W2).
      apply wp_ret, HQ.
      assert (cache_map l = cache_map (wlCache (glob s)) ∪ {[rv r := strncpy PATH_MAX p]}) as Hu.
      { rewrite Hm. by apply insert_union_singleton_r. }
      split.
      * exists l, (dirCnt (glob s) + 1), [(c, r)]. split_and!; [by rewrite G2, G1|done| | |].
        -- rewrite W2, W1. by apply wcalls_snoc.
        -- constructor; [|constructor]. by split.
        -- rewrite Hu, Ec. unfold added; simpl. destruct (Z.eqb_spec (rv r) (-1)); [done|]. done.
      * rewrite G2, G1; simpl. rewrite Hm, map_size_insert_None by done. lia.
Qed.

Definition dirs_of (visits : list (cstr * Z)) : list cstr :=
  fst <$> filter (λ v, S_ISDIR v.2) visits.

Lemma dirs_of_cons p mode visits :
  dirs_of ((p, mode) :: visits) = (if S_ISDIR mode then [p] else []) ++ dirs_of visits.
Proof.
  unfold dirs_of. rewrite filter_cons. simpl.
  destruct (S_ISDIR mode); case_decide; naive_solver.
Qed.

Lemma wp_nftw_visits visits Q s :
  dt_ok (glob s) →
  (∀ s', counted (ifd (glob s)) (dirs_of visits) s s' → Q 0 s') →
  wp (nftw_visits visits) Q E_dt s.
Proof.
  revert s Q; induction visits as [|[p mode] visits IH]; intros s Q Hok HQ; simpl.
  { apply wp_ret, HQ, counted_refl; [apply Hok|done|done]. }
  apply wp_bind, wp_traverseTree; [done|]. intros s1 H1. simpl.
  pose proof (grown_ifd _ _ _ _ (proj1 H1)) as Hi.
  apply IH; [by eapply grown_ok, H1|]. intros s2 H2. apply HQ. rewrite Hi in H2.
  pose proof (counted_trans _ _ _ _ _ _ H1 H2) as H3.
  by rewrite dirs_of_cons.
Qed.

(** watchDir: one watch per directory the walk met, and its result is the
    number of entries the cache gained. *)
Lemma wp_watchDir fd p (Q : Z → st dtree → Prop) s :
  dt_ok (glob s) →
  (∀ s' n, grown fd (dirs_of (rents (kern (trace s) (Cnftw p)))) s s' →
    n = Z.of_nat (size (cache_map (wlCache (glob s')))) - Z.of_nat (size (cache_map (wlCache (glob s)))) →
    Q n s') →
  wp (watchDir fd p) Q E_dt s.
Proof.
  intros Hok HQ. apply wp_bind, wp_upd, wp_bind, wp_sys, wp_bind, wp_nftw_visits; simpl.
  { by split; apply Hok. }
  set (r := kern _ _). intros s1 [(l & n & cs & G & ? & W & F & Hm) Hn]. simpl in *.
  rewrite wcalls_snoc_other in W by done.
  assert (∀ s', glob s' = glob s1 → wcalls (trace s') = wcalls (trace s1) →
    wp (g ← get; mret (dirCnt g)) Q E_dt s') as Hend.
  { intros s' G' W'. apply wp_bind, wp_get, wp_ret, HQ.
    - exists l, n, cs. rewrite G', W'. by rewrite G.
    - rewrite G'. rewrite Hn. lia. }
  apply wp_bind. destruct (rv r =? -1); simpl; [|by apply wp_ret, Hend].
  apply wp_bind, wp_set_errno, wp_log. intros s2 (G2 & _ & W2). by apply Hend.
Qed.

Lemma wp_watchSubtree fd p Q s :
  dt_ok (glob s) →
  (∀ s', grown fd (dirs_of (rents (kern (trace s) (Cnftw p)))) s s' → Q tt s') →
  wp (watchSubtree fd p) Q E_dt s.
Proof.
  intros Hok HQ. apply wp_bind, wp_watchDir; [done|]. intros s1 n H1 _.
  apply wp_log. intros s2 (G2 & _ & W2). apply HQ.
  destruct H1 as (l & k & cs & ?). exists l, k, cs. by rewrite G2, W2.
Qed.
End Watching.

(** Updating an array slot by slot. *)
Lemma half_lookup {A} (f : A → A) l j w :
  l !! j = Some w → ((f <$> take j l) ++ drop j l) !! j = Some w.
Proof.
  intros Hw. pose proof (lookup_lt_Some _ _ _ Hw). pose proof (length_take l j) as Hlen.
  rewrite lookup_app_r by (rewrite length_fmap; lia).
  rewrite length_fmap, lookup_drop, <-Hw. f_equal. lia.
Qed.

Lemma half_step {A} (f : A → A) l j w :
  l !! j = Some w →
  <[j := f w]> ((f <$> take j l) ++ drop j l) = (f <$> take (Datatypes.S j) l) ++ drop (Datatypes.S j) l.
Proof.
  intros Hw. pose proof (lookup_lt_Some _ _ _ Hw). pose proof (length_take l j) as Hlen.
  rewrite (take_S_r _ _ w), fmap_app by done. rewrite (drop_S _ w j) by done.
  rewrite insert_app_r_alt by (rewrite length_fmap; lia).
  rewrite length_fmap, Hlen, Nat.min_l by lia. rewrite Nat.sub_diag. simpl. by rewrite <-app_assoc.
Qed.

(** ** Renaming *)

(** [under p] is the subtree of [p]: [p] itself and what is below it. *)
Lemma under_spec p q :
  under p q = true ↔ q = p ∨ ∃ rest, q = p ++ "/"%char :: rest.
Proof.
  unfold under. rewrite andb_true_iff, has_prefix_spec. split.
  - intros [[rest ->] H]. rewrite drop_app_length in H.
    destruct rest as [|c rest]; [left; by rewrite app_nil_r|right].
    apply bool_decide_eq_true in H as ->. by exists rest.
  - intros [->|[rest ->]].
    + split; [done|]. by rewrite drop_all.
    + split; [by apply prefix_app_r|]. by rewrite drop_app_length.
Qed.

Lemma rewritten_below full new rest :
  rest = [] ∨ head rest = Some "/"%char → strlen new + strlen rest < PATH_MAX →
  rewritten full new (full ++ rest) = new ++ rest.
Proof.
  intros Hr Hl. unfold rewritten.
  assert (under full (full ++ rest) = true) as ->.
  { apply under_spec. destruct rest as [|c rest]; [left; by rewrite app_nil_r|right].
    destruct Hr as [?|?]; simplify_eq/=. by exists rest. }
  rewrite drop_app_length, snprintf_fits by (rewrite strlen_app; lia).
  unfold strncpy. apply take_ge. unfold strlen in *. rewrite length_app. lia.
Qed.

Lemma rewritten_elsewhere full new p : under full p = false → rewritten full new p = p.
Proof. unfold rewritten. by intros ->. Qed.

Lemma snprintf_nonempty n t : 1 < n → t ≠ [] → snprintf n t ≠ [].
Proof.
  intros Hn Ht. unfold snprintf. destruct t as [|c t]; [done|].
  destruct (Z.to_nat (n - 1)) eqn:E; [lia|done].
Qed.

Lemma snprintf_join p name : snprintf PATH_MAX (p ++ str "/" ++ name) ≠ [].
Proof. apply snprintf_nonempty; [done|]. by destruct p. Qed.

Lemma rewritten_nil full new : full ≠ [] → rewritten full new [] = [].
Proof. intros H. unfold rewritten, under. by destruct full. Qed.

Section Rewriting.
Context `{os}.
Implicit Types s : st dtree.

(** A loop that updates one slot after the other maps the array. *)
Lemma wp_map_slots (f : watch → watch) (body : nat → unit → D unit) Q E s :
  (∀ j w (Q' : unit → st dtree → Prop) s', wlCache (glob s') !! j = Some w →
    (∀ s'', glob s'' = set_cache (<[j := f w]> (wlCache (glob s'))) (glob s') →
      wcalls (trace s'') = wcalls (trace s') → Q' tt s'') →
    wp (body j tt) Q' E s') →
  (∀ s', glob s' = set_cache (f <$> wlCache (glob s)) (glob s) →
    wcalls (trace s') = wcalls (trace s) → Q tt s') →
  wp (for_acc 0 (length (wlCache (glob s))) body tt) Q E s.
Proof.
  intros Hb HQ. set (l := wlCache (glob s)).
  eapply wp_mono; [apply (wp_for_acc (λ j _ s',
    glob s' = set_cache ((f <$> take j l) ++ drop j l) (glob s) ∧
    wcalls (trace s') = wcalls (trace s)))| |done].
  - split; [|done]. simpl. unfold l. by destruct s as [[] ? ?].
  - intros j [] s1 Hj [E1 W1].
    destruct (lookup_lt_is_Some_2 l j) as [w Hw]; [lia|].
    apply (Hb j w); [rewrite E1; by apply half_lookup|]. intros s2 E2 W2. split; [|congruence].
    rewrite E2, E1. simpl. by rewrite <-(half_step f l j w).
  - intros [] s1 [E1 W1]. apply HQ; [|done]. rewrite E1. f_equal.
    simpl. by rewrite take_ge, drop_ge, app_nil_r by lia.
Qed.

Lemma wp_rewriteCachedPaths p a q b Q E s :
  dt_ok (glob s) →
  (∀ s' l, glob s' = set_cache l (glob s) → wcalls (trace s') = wcalls (trace s) → cache_ok l →
    cache_map l = rewritten (snprintf PATH_MAX (p ++ str "/" ++ a)) (snprintf PATH_MAX (q ++ str "/" ++ b))
                    <$> cache_map (wlCache (glob s)) → Q tt s') →
  wp (rewriteCachedPaths p a q b) Q E s.
Proof.
  intros Hok HQ. unfold rewriteCachedPaths.
  set (full := snprintf PATH_MAX (p ++ _)). set (new := snprintf PATH_MAX (q ++ _)).
  apply wp_bind, wp_log. intros s1 (E1 & N1 & W1). apply wp_bind, wp_get. simpl.
  apply (wp_map_slots (map_path (rewritten full new))).
  - intros j w Q' s2 Hj HQ'. eapply wp_bind, wp_at_slot; [done|].
    unfold map_path, rewritten in HQ'. destruct (under full (path w)).
    + assert (∀ s3, same s2 s3 → wp (upd (λ g, set_cache (<[j := Watch (wd w)
        (strncpy PATH_MAX (snprintf PATH_MAX (new ++ drop (length full) (path w))))]> (wlCache g)) g);;
        logMessage VB_NOISY (str "    wd " ++ dec (wd w) ++ str " [cache slot " ++ dec (Z.of_nat j) ++
        str "] ==> " ++ snprintf PATH_MAX (new ++ drop (length full) (path w)) ++ [NL])) Q' E s3) as Hrest.
      { intros s3 (E3 & _ & W3). apply wp_bind, wp_upd, wp_log. intros s4 (E4 & _ & W4).
        apply HQ'; simpl in *; [by rewrite E4, E3|congruence]. }
      apply wp_bind. destruct (_ >? _); simpl; [|by apply wp_ret, Hrest].
      apply wp_log. auto.
    + apply wp_ret, HQ'; [|done]. destruct s2 as [g2 ? ?]; simpl in *.
      rewrite list_insert_id by (by destruct w). by destruct g2.
  - intros s2 E2 W2. rewrite E1 in E2.
    destruct (cache_map_path (rewritten full new) (wlCache (glob s)) (dt_cache _ Hok)) as [Hc Hm].
    { apply rewritten_nil, snprintf_join. }
    eapply HQ; [exact E2|congruence|done|done].
Qed.
End Rewriting.

(** ** Zapping *)

Definition zap1 (p : cstr) (w : watch) : watch :=
  if (wd w >=? 0) && under p (path w) then empty_slot else w.

(** The cache without some of its watches. *)
Definition thinned (l l' : list watch) : Prop := Forall2 (λ w w', w' = w ∨ w' = empty_slot) l l'.

Lemma thinned_ok l l' : thinned l l' → cache_ok l → cache_ok l' ∧ cache_map l' ⊆ cache_map l.
Proof.
  intros Ht Hok.
  assert (Hback : ∀ j w, l' !! j = Some w → w = empty_slot ∨ l !! j = Some w).
  { intros j w' Hw'. destruct (Forall2_lookup_r _ _ _ _ _ Ht Hw') as (w & Hw & [->| ->]); eauto. }
  assert (Hok' : cache_ok l').
  { split.
    - intros j w [->|Hw]%Hback; [by left|]. by apply (slots_ok _ Hok j).
    - intros i j v w [->|Hv]%Hback [->|Hw]%Hback; simpl; intros ? E; try (simpl in *; lia).
      by eapply (slots_unique _ Hok i j). }
  split; [done|]. apply map_subseteq_spec. intros d p (j & Hj & ?)%cache_lookup; [|done].
  apply cache_lookup; [done|]. destruct (Hback _ _ Hj) as [E|?]; [|eauto].
  unfold empty_slot in E. simplify_eq. lia.
Qed.

Lemma zap1_thinned p l k : thinned l ((zap1 p <$> take k l) ++ drop k l).
Proof.
  unfold thinned. rewrite <-(take_drop k l) at 1. apply Forall2_app.
  - rewrite Forall2_fmap_r. apply Forall_Forall2_diag, Forall_forall. intros w _.
    unfold compose, zap1. destruct ((wd w >=? 0) && under p (path w)); auto.
  - apply Forall_Forall2_diag, Forall_forall. auto.
Qed.

(** Zapping all slots is a filter of the map. *)
Lemma zap_filter p l :
  cache_ok l → cache_map (zap1 p <$> l) = filter (λ dq, under p dq.2 = false) (cache_map l).
Proof.
  intros Hok. pose proof (zap1_thinned p l (length l)) as Ht.
  rewrite firstn_all, drop_all, app_nil_r in Ht. destruct (thinned_ok _ _ Ht Hok) as [Hok' _].
  apply cache_map_eq; [done|]. intros d q. rewrite map_lookup_filter_Some. simpl. split.
  - intros (j & ([d' q'] & Hw & Hj)%list_lookup_fmap_Some & Hd). unfold zap1 in Hw. simpl in Hw.
    destruct (Z.geb_spec d' 0) as [Hd'|Hd']; simpl in Hw;
      [destruct (under p q') eqn:Eu|]; unfold empty_slot in Hw; simplify_eq; [lia| |lia].
    split; [|done]. apply cache_lookup; eauto.
  - intros [(j & Hj & Hd)%cache_lookup Hu]; [|done]. exists j. split; [|done].
    apply list_lookup_fmap_Some. exists (Watch d q). split; [|done].
    unfold zap1. simpl. rewrite Hu. by rewrite andb_false_r.
Qed.

Lemma zap_keeps p l k :
  cache_ok l → filter (λ dq, under p dq.2 = false) (cache_map l) ⊆ cache_map ((zap1 p <$> take k l) ++ drop k l).
Proof.
  intros Hok. destruct (thinned_ok _ _ (zap1_thinned p l k) Hok) as [Hok' _].
  apply map_subseteq_spec. intros d q [(j & Hj & Hd)%cache_lookup Hu]%map_lookup_filter_Some; [|done].
  apply cache_lookup; [done|]. exists j. split; [|done].
  assert (zap1 p (Watch d q) = Watch d q) as Hz.
  { unfold zap1. simpl in *. rewrite Hu. by rewrite andb_false_r. }
  destruct (decide (j < k)%nat).
  - apply lookup_app_l_Some. apply list_lookup_fmap_Some. exists (Watch d q). split; [done|].
    by rewrite lookup_take_lt.
  - rewrite lookup_app_r by (rewrite length_fmap, length_take; lia).
    rewrite length_fmap, length_take, lookup_drop, <-Hj. f_equal.
    apply lookup_lt_Some in Hj. lia.
Qed.

(** The removals a zap asks for: one for each watch it takes out of the cache,
    in the order of the slots. *)
Definition doomed (p : cstr) (l : list watch) : list Z :=
  wd <$> filter (λ w, (wd w >=? 0) && under p (path w)) l.
Definition removes (fd d : Z) (c : call * reply) : Prop :=
  c.1 = Cinotify_rm_watch fd d ∧ rv c.2 ≠ -1.

(** The results of zapSubtree: all done, or cut short by a failed removal. *)
Definition zapped_all (fd : Z) (p : cstr) (n : Z) (s s' : st dtree) : Prop :=
  ∃ l cs, glob s' = set_cache l (glob s) ∧ cache_ok l ∧
    cache_map l = filter (λ dq, under p dq.2 = false) (cache_map (wlCache (glob s))) ∧
    wcalls (trace s') = wcalls (trace s) ++ cs ∧
    Forall2 (removes fd) (doomed p (wlCache (glob s))) cs ∧ n = Z.of_nat (length cs).
Definition zapped_some (fd : Z) (p : cstr) (s s' : st dtree) : Prop :=
  ∃ l ds cs d r, glob s' = set_cache l (glob s) ∧ cache_ok l ∧ Forall2 (removes fd) ds cs ∧
    cache_map l ⊆ cache_map (wlCache (glob s)) ∧
    filter (λ dq, under p dq.2 = false) (cache_map (wlCache (glob s))) ⊆ cache_map l ∧
    wcalls (trace s') = wcalls (trace s) ++ cs ++ [(Cinotify_rm_watch fd d, r)] ∧ rv r = -1.

Section Zapping.
Context `{os}.
Implicit Types s : st dtree.

Definition zap_inv (fd : Z) (p : cstr) (s0 : st dtree) (j : nat) (cnt : Z) (s : st dtree) : Prop :=
  let l := wlCache (glob s0) in
  ∃ cs, glob s = set_cache ((zap1 p <$> take j l) ++ drop j l) (glob s0) ∧
    wcalls (trace s) = wcalls (trace s0) ++ cs ∧
    Forall2 (removes fd) (doomed p (take j l)) cs ∧ cnt = Z.of_nat (length cs).

Lemma doomed_snoc p l w :
  doomed p (l ++ [w]) = doomed p l ++ if (wd w >=? 0) && under p (path w) then [wd w] else [].
Proof.
  unfold doomed. rewrite filter_app, fmap_app. f_equal. unfold filter; simpl.
  case_decide as Hd; destruct ((wd w >=? 0) && under p (path w)); naive_solver.
Qed.

Lemma wp_zap_slot fd p s0 j cnt E s :
  dt_ok (glob s0) → (j < length (wlCache (glob s0)))%nat → zap_inv fd p s0 j cnt s →
  wp (zap_slot fd p j cnt) (λ r s', match r with
    | inl cnt => zap_inv fd p s0 (Datatypes.S j) cnt s'
    | inr n => n = -1 ∧ zapped_some fd p s0 s'
    end) E s.
Proof.
  intros Hok Hj (cs & G & W & F & Hn). set (l := wlCache (glob s0)) in *.
  destruct (lookup_lt_is_Some_2 l j) as [w Hw]; [done|].
  assert (wlCache (glob s) !! j = Some w) as Hj1 by (rewrite G; by apply half_lookup).
  pose proof (half_step (zap1 p) l j w Hw) as Hstep.
  eapply wp_bind, wp_at_slot; [done|].
  pose proof (doomed_snoc p (take j l) w) as Hd. rewrite <-take_S_r in Hd by done.
  unfold zap1 at 1 in Hstep. destruct ((wd w >=? 0) && under p (path w)).
  - apply wp_bind, wp_log. intros s1 (E1 & _ & W1). apply wp_bind, wp_sys.
    set (r := kern _ _). destruct (Z.eqb_spec (rv r) (-1)) as [Hr|Hr].
    + apply wp_bind, wp_get_errno, wp_bind, wp_log. intros s2 (E2 & _ & W2). apply wp_ret.
      split; [done|]. destruct (thinned_ok _ _ (zap1_thinned p l j) (dt_cache _ Hok)).
      eexists _, _, cs, (wd w), r. split_and!; [rewrite E2; simpl; by rewrite E1|done|done|done| |
        |done].
      * apply zap_keeps, Hok.
      * rewrite W2. simpl. rewrite (wcalls_snoc _ _ (Cinotify_rm_watch fd (wd w), r)) by done.
        by rewrite W1, W, app_assoc.
    + eapply wp_bind, wp_markCacheSlotEmpty; simpl; [by rewrite E1|]. intros s2 E2 W2 _.
      apply wp_ret. exists (cs ++ [(Cinotify_rm_watch fd (wd w), r)]). split_and!.
      * rewrite E2, E1, G. simpl. by rewrite Hstep.
      * rewrite W2. simpl. rewrite (wcalls_snoc _ _ (Cinotify_rm_watch fd (wd w), r)) by done.
        by rewrite W1, W, app_assoc.
      * fold l; rewrite Hd. apply Forall2_app; [done|]. constructor; [done|constructor].
      * rewrite length_app. simpl. lia.
  - apply wp_ret. exists cs. split_and!; [|done| |done].
    + fold l. rewrite <-Hstep, list_insert_id; [done|]. rewrite G in Hj1. done.
    + fold l. by rewrite Hd, app_nil_r.
Qed.

Lemma wp_zapSubtree fd p (Q : Z → st dtree → Prop) E s :
  dt_ok (glob s) →
  (∀ s' n, 0 <= n → zapped_all fd p n s s' → Q n s') →
  (∀ s', zapped_some fd p s s' → Q (-1) s') →
  wp (zapSubtree fd p) Q E s.
Proof.
  intros Hok HA HS. apply wp_bind, wp_log. intros s1 (E1 & N1 & W1). apply wp_bind, wp_get, wp_bind.
  eapply wp_mono; [apply (wp_for_from (zap_inv fd p s) (λ n s', n = -1 ∧ zapped_some fd p s s'))| |done].
  - exists []. split_and!; [|by rewrite app_nil_r|constructor|done]. simpl. rewrite E1.
    by destruct (glob s).
  - intros j cnt s2 Hj HI. apply wp_zap_slot; [done| |done]. rewrite E1 in Hj; lia.
  - intros [n|n] s2 H2; apply wp_ret.
    + destruct H2 as (cs & E2 & W2 & F2 & ->). simpl in *. rewrite E1 in *.
      rewrite take_ge, drop_ge, app_nil_r in * by lia.
      apply HA; [lia|]. eexists _, cs. split_and!; [exact E2| | |done|done|done].
      * pose proof (zap1_thinned p (wlCache (glob s)) (length (wlCache (glob s)))) as Ht.
        rewrite firstn_all, drop_all, app_nil_r in Ht. by eapply thinned_ok, Hok.
      * by apply zap_filter, Hok.
    + destruct H2 as [-> ?]. by apply HS.
Qed.
End Zapping.

(** ** Rebuilding *)

Section Rebuilding.
Context `{AddWatch}.
Implicit Types s : st dtree.

(** After a rebuild the cache is made of watches of the new descriptor only,
    one for each directory found under the roots that are left. *)
Definition rebuilt (fd : Z) (s s' : st dtree) : Prop :=
  ∃ l n w rc cs dirs,
    glob s' = set_cache l (set_walk n w (set_counts rc (overflowCnt (glob s)) (glob s))) ∧
    cache_ok l ∧ wcalls (trace s') = wcalls (trace s) ++ cs ∧
    Forall2 (adds (rootDirPaths (glob s)) fd) dirs cs ∧ cache_map l = added cs.

Lemma rebuilt_ok fd s s' : dt_ok (glob s) → rebuilt fd s s' → dt_ok (glob s').
Proof. intros [? ? ?] (l & n & w & rc & cs & dirs & -> & ? & _). by split. Qed.

(** The loop over the roots, from an empty cache. *)
Definition refilled (fd : Z) (s0 s : st dtree) : Prop :=
  ∃ l n w cs dirs,
    glob s = set_cache l (set_walk n w (glob s0)) ∧ cache_ok l ∧
    wcalls (trace s) = wcalls (trace s0) ++ cs ∧
    Forall2 (adds (rootDirPaths (glob s0)) fd) dirs cs ∧ cache_map l = added cs.

Lemma refilled_ok fd s0 s : dt_ok (glob s0) → refilled fd s0 s → dt_ok (glob s).
Proof. intros [? ? ?] (l & n & w & cs & dirs & -> & ? & _). by split. Qed.

Lemma refilled_grown fd s0 s s' dirs : refilled fd s0 s → grown fd dirs s s' → refilled fd s0 s'.
Proof.
  intros (l1 & n1 & w1 & cs1 & d1 & E1 & ? & W1 & F1 & M1) (l2 & n2 & cs2 & E2 & ? & W2 & F2 & M2).
  rewrite E1 in *. simpl in *. exists l2, n2, fd, (cs1 ++ cs2), (d1 ++ dirs).
  split_and!; [done|done| | |].
  - by rewrite W2, W1, app_assoc.
  - by apply Forall2_app.
  - by rewrite M2, M1, added_app.
Qed.

Lemma wp_watch_roots fd Q s :
  dt_ok (glob s) → (∀ s', refilled fd s s' → Q tt s') → wlCache (glob s) = [] →
  wp (watch_roots fd) Q E_dt s.
Proof.
  intros Hok HQ Hl. apply wp_bind, wp_get.
  eapply wp_mono; [apply (wp_for_acc (λ _ _ s', refilled fd s s'))| |done].
  - exists [], (dirCnt (glob s)), (ifd (glob s)), [], [].
    split_and!; [by rewrite <-Hl, set_cache_same|apply cache_ok_nil|by rewrite app_nil_r|constructor|done].
  - intros j [] s1 _ H1. apply wp_bind, wp_get.
    destruct (_ !! j) as [[p|]|]; [|by apply wp_ret..].
    apply wp_watchSubtree; [by eapply refilled_ok|]. intros s2 H2. by eapply refilled_grown.
  - intros [] s1 H1. by apply HQ.
Qed.

Lemma wp_count_slots Q E s : (∀ n, Q n s) → wp count_slots Q E s.
Proof.
  intros HQ. apply wp_bind, wp_get.
  eapply wp_mono; [apply (wp_for_acc (λ _ _ s', s' = s)); [done|]| |done].
  - intros j n s1 Hj ->. destruct (lookup_lt_is_Some_2 (wlCache (glob s)) j) as [w Hw]; [lia|].
    eapply wp_bind, wp_at_slot; [done|]. by apply wp_ret.
  - by intros n s1 ->.
Qed.

Lemma wp_rebuild old (Q : Z → st dtree → Prop) s rc s1 :
  dt_ok (glob s) → (∀ s' fd, 0 < fd → rebuilt fd s s' → Q fd s') →
  glob s1 = set_counts rc (overflowCnt (glob s)) (glob s) → wcalls (trace s1) = wcalls (trace s) →
  wp (rebuild old) Q E_dt s1.
Proof.
  intros Hok HQ G1 W1. apply wp_bind, wp_sys. set (r := kern _ _).
  assert (dt_ok (glob s1)) as Hok1 by (rewrite G1; split; apply Hok).
  pose proof (init_reply (trace s1)) as Hinit. fold r in Hinit.
  destruct (Z.eqb_spec (rv r) (-1)) as [Hr|Hr].
  { apply wp_bind, wp_bind, wp_get_errno, wp_out. intros s2 (G2 & _). apply wp_stop.
    split; [by rewrite G2|done]. }
  apply wp_bind, wp_log. intros s2 (G2 & _ & W2). simpl in *.
  rewrite wcalls_snoc_other in W2 by done.
  apply wp_bind, wp_upd, wp_bind, wp_watch_roots; simpl; [|intros s4 H4|done].
  { rewrite G2. split; simpl; [apply cache_ok_nil|apply Hok1..]. }
  destruct H4 as (l & n & w & cs & dirs & G4 & Hc & W4 & F4 & M4). simpl in *.
  apply wp_bind, wp_count_slots. intros cnt.
  assert (∀ s5, same s4 s5 → wp (mret (rv r)) Q E_dt s5) as Hend.
  { intros s5 (G5 & _ & W5). apply wp_ret, HQ; [by destruct Hinit|].
    rewrite G2, G1 in *. simpl in *. exists l, n, w, rc, cs, dirs.
    split_and!; [by rewrite G5, G4|done|congruence|done|done]. }
  apply wp_bind. destruct (_ >=? _); simpl; [by apply wp_log|by apply wp_ret, Hend].
Qed.

Lemma wp_reinitialize old (Q : Z → st dtree → Prop) s :
  dt_ok (glob s) →
  (∀ s' fd, 0 < fd → rebuilt fd s s' → Q fd s') →
  wp (reinitialize old) Q E_dt s.
Proof.
  intros Hok HQ. apply wp_bind. destruct (old >=? 0).
  - apply wp_bind, wp_sys, wp_bind, wp_upd, wp_bind, wp_get, wp_log. simpl.
    intros s1 (G1 & _ & W1). simpl in *. rewrite wcalls_snoc_other in W1 by done.
    by eapply wp_rebuild.
  - apply wp_bind, wp_log. intros s1 (G1 & _ & W1). apply wp_upd.
    eapply wp_rebuild; simpl; [done|done| |done]. by rewrite G1.
Qed.
End Rebuilding.

(** ** The properties *)

(** [zapSubtree fd path] on a well-formed cache, for any kernel: it
    returns [n >= 0] after removing from the cache exactly the [n] watches of
    [path] and of the directories below it (each removed from inotify once,
    in slot order), or -1 after a removal failed, with only watches of that
    subtree taken out of the cache. *)
Theorem zapSubtree_correct `{os} fd p (s : st dtree) :
  dt_ok (glob s) →
  ∃ n s', zapSubtree fd p s = (Ret n, s') ∧ dt_ok (glob s') ∧
    ((0 <= n ∧ zapped_all fd p n s s') ∨ (n = -1 ∧ zapped_some fd p s s')).
Proof.
  intros Hok.
  assert (wp (zapSubtree fd p) (λ n s', dt_ok (glob s') ∧
    ((0 <= n ∧ zapped_all fd p n s s') ∨ (n = -1 ∧ zapped_some fd p s s'))) (λ _ _, False) s) as Hw.
  { apply wp_zapSubtree; [done| |].
    - intros s' n Hn H1. split; [|by left].
      destruct H1 as (l & cs & -> & Hc & _). by apply dt_ok_set_cache.
    - intros s' H1. split; [|by right].
      destruct H1 as (l & ds & cs & d & r & -> & Hc & _). by apply dt_ok_set_cache. }
  by destruct (wp_run _ _ _ _ Hw) as [?|(? & ? & ? & [])].
Qed.

(** What rewriteCachedPaths (p, a, q, b) does after p/a was renamed to q/b, for any
    cache: the same watches are cached; the pathname of a directory that is
    p/a or below it starts with q/b instead (when the result is shorter than
    PATH_MAX), every other pathname is unchanged, and no system call is
    made. *)
Theorem rewriteCachedPaths_correct `{os} p a q b (s : st dtree) :
  dt_ok (glob s) →
  strlen (p ++ str "/" ++ a) < PATH_MAX → strlen (q ++ str "/" ++ b) < PATH_MAX →
  ∃ s', rewriteCachedPaths p a q b s = (Ret tt, s') ∧ dt_ok (glob s') ∧
    wcalls (trace s') = wcalls (trace s) ∧
    let m := cache_map (wlCache (glob s)) in
    let m' := cache_map (wlCache (glob s')) in
    dom m' = dom m ∧
    (∀ d rest, m !! d = Some ((p ++ str "/" ++ a) ++ rest) → rest = [] ∨ head rest = Some "/"%char →
      strlen (q ++ str "/" ++ b) + strlen rest < PATH_MAX →
      m' !! d = Some ((q ++ str "/" ++ b) ++ rest)) ∧
    (∀ d x, m !! d = Some x → under (p ++ str "/" ++ a) x = false → m' !! d = Some x).
Proof.
  intros Hok Hp Hq.
  assert (wp (rewriteCachedPaths p a q b) (λ _ s', ∃ l,
    glob s' = set_cache l (glob s) ∧ wcalls (trace s') = wcalls (trace s) ∧ cache_ok l ∧
    cache_map l = rewritten (p ++ str "/" ++ a) (q ++ str "/" ++ b) <$> cache_map (wlCache (glob s)))
    (λ _ _, False) s) as Hw.
  { apply wp_rewriteCachedPaths; [done|]. intros s' l ????. exists l. by rewrite !snprintf_fits in *. }
  destruct (wp_run _ _ _ _ Hw) as [([] & s' & E & l & G & W & Hc & Hm)|(? & ? & ? & [])].
  exists s'. split; [done|]. rewrite G. split; [by apply dt_ok_set_cache|]. split; [done|].
  simpl. rewrite Hm. split_and!.
  - apply dom_fmap_L.
  - intros d rest Hd Hr Hl. rewrite lookup_fmap, Hd. simpl. f_equal. by apply rewritten_below.
  - intros d x Hd Hu. rewrite lookup_fmap, Hd. simpl. f_equal. by apply rewritten_elsewhere.
Qed.

(** The walk watchDir(fd, path), for any file tree: every directory the walk meets
    gets one watch request on [fd], the cache gains exactly the watches
    established whose descriptors were not cached yet, under the pathnames
    walked, and the result is the number of entries gained; the only way out
    is an exit of the program in a state that satisfies the invariant. *)
Theorem watchDir_correct `{AddWatch} fd p (s : st dtree) :
  dt_ok (glob s) →
  (∃ n s', watchDir fd p s = (Ret n, s') ∧ dt_ok (glob s') ∧
    grown fd (dirs_of (rents (kern (trace s) (Cnftw p)))) s s' ∧
    n = Z.of_nat (size (cache_map (wlCache (glob s')))) - Z.of_nat (size (cache_map (wlCache (glob s))))) ∨
  (∃ t s', watchDir fd p s = (Stop t, s') ∧ E_dt t s').
Proof.
  intros Hok. apply wp_run, wp_watchDir; [done|]. intros s' n H1 H2. split; [by eapply grown_ok|done].
Qed.

(** [reinitialize] with an old descriptor: when it returns, the roots still monitored
    are unchanged and the cache holds the watches of the new descriptor and no
    others, one request having been made for each directory found under those
    roots; otherwise the program exits with the invariant intact. *)
Theorem reinitialize_correct `{AddWatch} old (s : st dtree) :
  dt_ok (glob s) →
  (∃ fd s', reinitialize old s = (Ret fd, s') ∧ 0 < fd ∧ dt_ok (glob s') ∧
    rootDirPaths (glob s') = rootDirPaths (glob s) ∧ rebuilt fd s s') ∨
  (∃ t s', reinitialize old s = (Stop t, s') ∧ E_dt t s').
Proof.
  intros Hok. apply wp_run, wp_reinitialize; [done|]. intros s' fd Hfd Hr.
  split_and!; [done|by eapply rebuilt_ok| |done].
  destruct Hr as (l & n & w & rc & cs & dirs & -> & _). done.
Qed.

(** A kernel over a fixed tree: a new watch descriptor for every request,
    [tree] for every walk, success otherwise. *)
Definition tree_os (tree : list (cstr * Z)) : os :=
  test_os (λ tr c,
    match c with
    | Cinotify_add_watch _ _ _ => ok (Z.of_nat (length (wcalls tr)) + 10)
    | Cnftw _ => Reply 0 0 [] tree
    | Clstat _ => Reply 0 0 [] [([], 16877)]
    | Cinotify_init => ok 5
    | _ => ok 0
    end).

Lemma tree_os_AddWatch tree : @AddWatch (tree_os tree).
Proof. split; [intros tr fd p mask; simpl; lia|by right]. Qed.

(** A program that watches /a and its subdirectory /a/b. *)
Definition demo : dtree :=
  Dtree 0 false false 0 None false false 0
    [Watch 1 (str "/a"); empty_slot; Watch 2 (str "/a/b"); Watch 3 (str "/a/bc")]
    [Some (str "/a")] 0 [(7, 1)] 0 5 0 0.

Lemma demo_ok : dt_ok demo.
Proof.
  split; [|done|done]. split.
  - intros [|[|[|[|j]]]] w Hw; simplify_eq/=; first [by left|right; simpl; lia].
  - intros [|[|[|[|i]]]] [|[|[|[|j]]]] v w Hv Hw H0 E; simplify_eq/=; done.
Qed.

Definition demo_tree : list (cstr * Z) := [(str "/a", 16877); (str "/a/b", 16877); (str "/a/f", 33188)].

Theorem zapSubtree_witness :
  let o := tree_os [] in
  ∃ n s', zapSubtree 5 (str "/a/b") (init demo) = (Ret n, s') ∧ dt_ok (glob s') ∧
    ((0 <= n ∧ zapped_all 5 (str "/a/b") n (init demo) s') ∨
     (n = -1 ∧ zapped_some 5 (str "/a/b") (init demo) s')).
Proof. intros o. exact (zapSubtree_correct 5 (str "/a/b") (init demo) demo_ok). Defined.

Theorem rewriteCachedPaths_witness :
  let o := tree_os [] in
  ∃ s', rewriteCachedPaths (str "/a") (str "b") (str "/a") (str "c") (init demo) = (Ret tt, s') ∧
    dt_ok (glob s') ∧ wcalls (trace s') = wcalls (trace (init demo)) ∧
    let m := cache_map (wlCache demo) in
    let m' := cache_map (wlCache (glob s')) in
    dom m' = dom m ∧
    (∀ d rest, m !! d = Some ((str "/a" ++ str "/" ++ str "b") ++ rest) → rest = [] ∨ head rest = Some "/"%char →
      strlen (str "/a" ++ str "/" ++ str "c") + strlen rest < PATH_MAX →
      m' !! d = Some ((str "/a" ++ str "/" ++ str "c") ++ rest)) ∧
    (∀ d x, m !! d = Some x → under (str "/a" ++ str "/" ++ str "b") x = false → m' !! d = Some x).
Proof.
  intros o. exact (rewriteCachedPaths_correct (str "/a") (str "b") (str "/a") (str "c") (init demo) demo_ok
    eq_refl eq_refl).
Defined.

Theorem watchDir_witness :
  let o := tree_os demo_tree in
  (∃ n s', watchDir 5 (str "/a") (init demo) = (Ret n, s') ∧ dt_ok (glob s') ∧
    grown 5 (dirs_of (rents (kern [] (Cnftw (str "/a"))))) (init demo) s' ∧
    n = Z.of_nat (size (cache_map (wlCache (glob s')))) - Z.of_nat (size (cache_map (wlCache demo)))) ∨
  (∃ t s', watchDir 5 (str "/a") (init demo) = (Stop t, s') ∧ E_dt t s').
Proof.
  intros o. exact (@watchDir_correct o (tree_os_AddWatch demo_tree) 5 (str "/a") (init demo) demo_ok).
Defined.

Theorem reinitialize_witness :
  let o := tree_os demo_tree in
  (∃ fd s', reinitialize 5 (init demo) = (Ret fd, s') ∧ 0 < fd ∧ dt_ok (glob s') ∧
    rootDirPaths (glob s') = rootDirPaths demo ∧ rebuilt fd (init demo) s') ∨
  (∃ t s', reinitialize 5 (init demo) = (Stop t, s') ∧ E_dt t s').
Proof.
  intros o. exact (@reinitialize_correct o (tree_os_AddWatch demo_tree) 5 (init demo) demo_ok).
Defined.

Example zap_run :
  let o := tree_os [] in
  let r := zapSubtree 5 (str "/a/b") (init demo) in
  r.1 = Ret 1 ∧ wlCache (glob r.2) = [Watch 1 (str "/a"); empty_slot; empty_slot; Watch 3 (str "/a/bc")].
Proof. by vm_compute. Qed.

Example reinitialize_run :
  let o := tree_os demo_tree in
  let r := reinitialize 5 (init demo) in
  r.1 = Ret 5 ∧ take 3 (wlCache (glob r.2)) = [Watch 10 (str "/a"); Watch 11 (str "/a/b"); empty_slot].
Proof. by vm_compute. Qed.
