(* ===== verification/InotifyEvents.v ===== *)
(** Events of tlpi-book/inotify/inotify_dtree.c: the buffer read(2) fills,
    the handling of one event and of a bufferful. *)
From S2P Require Import Prelude Sys InotifyCache InotifyTree.

(** ** struct inotify_event *)

Record inotify_event := InotifyEvent {
  ev_wd : Z; ev_mask : Z; ev_cookie : Z; ev_len : Z;
  ev_name : cstr        (* the C string at the name member *)
}.

(** [*(struct inotify_event * ) buf], when the bytes of the header are there. *)
Definition get_event (buf : cstr) : option inotify_event :=
  if Z.of_nat (length buf) <? SIZEOF_INOTIFY_EVENT then None else
  Some (InotifyEvent (wrap_s 32 (le (take 4 buf))) (le (take 4 (drop 4 buf)))
          (le (take 4 (drop 8 buf))) (le (take 4 (drop 12 buf))) (c_str (drop 16 buf))).

(** The bytes the kernel writes for an event: the name is padded with NULs to
    the length in the header. *)
Definition put_event (ev : inotify_event) : cstr :=
  le32 (ev_wd ev) ++ le32 (ev_mask ev) ++ le32 (ev_cookie ev) ++ le32 (ev_len ev) ++
  ev_name ev ++ replicate (Z.to_nat (ev_len ev) - length (ev_name ev)) NUL.

#[global] Arguments put_event : simpl never.

(** Events as inotify(7) describes them: a watch descriptor, or -1 for the
    overflow event alone; IN_IGNORED comes alone; a nonempty name is stored
    with at least one NUL. *)
Record event_wf (ev : inotify_event) : Prop := {
  wf_wd : ev_wd ev = -1 ∧ ev_mask ev = IN_Q_OVERFLOW ∨ 0 <= ev_wd ev < 2 ^ 31;
  wf_mask : 0 <= ev_mask ev < 2 ^ 32;
  wf_ignored : tst (ev_mask ev) IN_IGNORED = true → ev_mask ev = IN_IGNORED;
  wf_cookie : 0 <= ev_cookie ev < 2 ^ 32;
  wf_len : 0 <= ev_len ev <= NAME_MAX + 1;
  wf_name : NUL ∉ ev_name ev;
  wf_pad : ev_len ev = 0 ∧ ev_name ev = [] ∨ strlen (ev_name ev) < ev_len ev
}.

Section Functions.
Context `{os}.

Definition displayInotifyEvent (ev : inotify_event) : D unit :=
  logMessage VB_NOISY (str "==> wd = " ++ dec (ev_wd ev) ++ str "; ");;
  when (ev_cookie ev >? 0)
    (logMessage VB_NOISY (str "cookie = " ++ pad_left 4 " "%char (dec (wrap_s 32 (ev_cookie ev))) ++ str "; "));;
  logMessage VB_NOISY (str "mask = ");;
  when (tst (ev_mask ev) IN_ISDIR) (logMessage VB_NOISY (str "IN_ISDIR "));;
  when (tst (ev_mask ev) IN_CREATE) (logMessage VB_NOISY (str "IN_CREATE "));;
  when (tst (ev_mask ev) IN_DELETE_SELF) (logMessage VB_NOISY (str "IN_DELETE_SELF "));;
  when (tst (ev_mask ev) IN_MOVE_SELF) (logMessage VB_NOISY (str "IN_MOVE_SELF "));;
  when (tst (ev_mask ev) IN_MOVED_FROM) (logMessage VB_NOISY (str "IN_MOVED_FROM "));;
  when (tst (ev_mask ev) IN_MOVED_TO) (logMessage VB_NOISY (str "IN_MOVED_TO "));;
  when (tst (ev_mask ev) IN_IGNORED) (logMessage VB_NOISY (str "IN_IGNORED "));;
  when (tst (ev_mask ev) IN_Q_OVERFLOW) (logMessage VB_NOISY (str "IN_Q_OVERFLOW "));;
  when (tst (ev_mask ev) IN_UNMOUNT) (logMessage VB_NOISY (str "IN_UNMOUNT "));;
  logMessage VB_NOISY [NL];;
  when (ev_len ev >? 0) (logMessage VB_NOISY (str "        name = " ++ ev_name ev ++ [NL])).

(** [wlCache[evCacheSlot]], which is uninitialised when the event was not
    looked up. *)
Definition slot_of (evCacheSlot : option nat) : D watch :=
  match evCacheSlot with
  | Some j => at_slot j
  | None => stop_with (Undefined "evCacheSlot is used uninitialised")
  end.

(** The branches of the function: each gives the new descriptor, and either
    the function's result ([inl], an early return) or [evLen] ([inr]). *)
Abbreviation branch := (D (Z * (Z + Z))).

(** Size of [fullPath] in the function below. *)
Definition FULLPATH : Z := PATH_MAX + NAME_MAX.

Definition ev_created (inotifyFd : Z) (ev : inotify_event) (evCacheSlot : option nat) (evLen : Z) : branch :=
  w ← slot_of evCacheSlot;
  let fullPath := snprintf FULLPATH (path w ++ str "/" ++ ev_name ev) in
  logMessage VB_BASIC (str "Directory creation on wd " ++ dec (ev_wd ev) ++ str ": " ++ fullPath ++ [NL]);;
  cached ← pathnameInCache fullPath;
  when (negb cached) (watchSubtree inotifyFd fullPath);;
  mret (inotifyFd, inr evLen).

Definition ev_deleted (inotifyFd : Z) (ev : inotify_event) (evCacheSlot : option nat) (evLen : Z) : branch :=
  w ← slot_of evCacheSlot;
  logMessage VB_BASIC (str "Clearing watchlist item " ++ dec (ev_wd ev) ++ str " (" ++ path w ++ str ")" ++ [NL]);;
  isroot ← isRootDirPath (path w);
  when isroot (zapRootDirPath (path w));;
  match evCacheSlot with Some j => markCacheSlotEmpty j | None => mret tt end;;
  mret (inotifyFd, inr evLen).

Definition ev_rename (inotifyFd : Z) (ev nextEv : inotify_event) (evCacheSlot : option nat) (evLen : Z) : branch :=
  nextEvCacheSlot ← findWatchChecked (ev_wd nextEv);
  match nextEvCacheSlot with
  | None =>
      fd ← reinitialize inotifyFd;
      mret (fd, inl INOTIFY_READ_BUF_LEN)
  | Some k =>
      w ← slot_of evCacheSlot;
      w' ← at_slot k;
      rewriteCachedPaths (path w) (ev_name ev) (path w') (ev_name nextEv);;
      mret (inotifyFd, inr (evLen + (SIZEOF_INOTIFY_EVENT + ev_len nextEv)))
  end.

Definition ev_moved_out (inotifyFd : Z) (ev : inotify_event) (evCacheSlot : option nat)
    (evLen bufSize : Z) (firstTry : bool) : branch :=
  w ← slot_of evCacheSlot;
  logMessage VB_NOISY (str "MOVED_OUT: " ++ ptr_text (str "wlCache[evCacheSlot].path") ++ str " " ++
    ptr_text (str "ev->name") ++ [NL]);;
  logMessage VB_NOISY (str "firstTry = " ++ dec (Z.b2z firstTry) ++ str "; remaining bytes = " ++
    dec (wrap_s 32 (bufSize - evLen)) ++ [NL]);;
  let fullPath := snprintf FULLPATH (path w ++ str "/" ++ ev_name ev) in
  n ← zapSubtree inotifyFd fullPath;
  if n =? -1 then
    fd ← reinitialize inotifyFd;
    mret (fd, inl INOTIFY_READ_BUF_LEN)
  else mret (inotifyFd, inr evLen).

Definition ev_moved_from (inotifyFd : Z) (buf : cstr) (bufSize : Z) (firstTry : bool)
    (ev : inotify_event) (evCacheSlot : option nat) (evLen : Z) : branch :=
  if evLen <? bufSize then
    match get_event (drop (Z.to_nat evLen) buf) with
    | None => stop_with (Undefined "event header beyond the bytes read")
    | Some nextEv =>
        if tst (ev_mask nextEv) IN_MOVED_TO && (ev_cookie nextEv =? ev_cookie ev) then
          ev_rename inotifyFd ev nextEv evCacheSlot evLen
        else ev_moved_out inotifyFd ev evCacheSlot evLen bufSize firstTry
    end
  else if negb firstTry then
    ev_moved_out inotifyFd ev evCacheSlot evLen bufSize firstTry
  else
    logMessage VB_NOISY (str "HANGING IN_MOVED_FROM" ++ [NL]);;
    mret (inotifyFd, inl (wrap_u 64 (-1))).

Definition ev_overflow (inotifyFd : Z) : branch :=
  upd (λ g, set_counts (reinitCnt g) (overflowCnt g + 1) g);;
  g ← get;
  logMessage 0 (str "Queue overflow (" ++ dec (overflowCnt g) ++ str ") (inotifyReadCnt = " ++
    dec (inotifyReadCnt g) ++ str ")" ++ [NL]);;
  fd ← reinitialize inotifyFd;
  mret (fd, inr INOTIFY_READ_BUF_LEN).

Definition ev_unmount (inotifyFd : Z) (evCacheSlot : option nat) (evLen : Z) : branch :=
  w ← slot_of evCacheSlot;
  logMessage 0 (str "Filesystem unmounted: " ++ path w ++ [NL]);;
  match evCacheSlot with Some j => markCacheSlotEmpty j | None => mret tt end;;
  mret (inotifyFd, inr evLen).

Definition ev_move_self (inotifyFd : Z) (evCacheSlot : option nat) (evLen : Z) : branch :=
  w ← slot_of evCacheSlot;
  isroot ← isRootDirPath (path w);
  if (isroot : bool) then
    logMessage 0 (str "Root path moved: " ++ path w ++ [NL]);;
    zapRootDirPath (path w);;
    n ← zapSubtree inotifyFd (path w);
    if n =? -1 then
      fd ← reinitialize inotifyFd;
      mret (fd, inl INOTIFY_READ_BUF_LEN)
    else mret (inotifyFd, inr evLen)
  else mret (inotifyFd, inr evLen).

(** The chain of tests on the event's mask. *)
Definition ev_dispatch (inotifyFd : Z) (buf : cstr) (bufSize : Z) (firstTry : bool)
    (ev : inotify_event) (evCacheSlot : option nat) : branch :=
  let evLen := SIZEOF_INOTIFY_EVENT + ev_len ev in
  let mask := ev_mask ev in
  if tst mask IN_ISDIR && tst mask (Z.lor IN_CREATE IN_MOVED_TO) then
    ev_created inotifyFd ev evCacheSlot evLen
  else if tst mask IN_DELETE_SELF then
    ev_deleted inotifyFd ev evCacheSlot evLen
  else if Z.land mask (Z.lor IN_MOVED_FROM IN_ISDIR) =? Z.lor IN_MOVED_FROM IN_ISDIR then
    ev_moved_from inotifyFd buf bufSize firstTry ev evCacheSlot evLen
  else if tst mask IN_Q_OVERFLOW then
    ev_overflow inotifyFd
  else if tst mask IN_UNMOUNT then
    ev_unmount inotifyFd evCacheSlot evLen
  else if tst mask IN_MOVE_SELF then
    ev_move_self inotifyFd evCacheSlot evLen
  else mret (inotifyFd, inr evLen).

(** The result is the new descriptor and the [size_t] returned. *)
Definition processNextInotifyEvent (inotifyFd : Z) (buf : cstr) (bufSize : Z) (firstTry : bool) : D (Z * Z) :=
  match get_event buf with
  | None => stop_with (Undefined "event header beyond the bytes read")
  | Some ev =>
      displayInotifyEvent ev;;
      evCacheSlot ← (if negb (ev_wd ev =? -1) && negb (tst (ev_mask ev) IN_IGNORED) then
                       slot ← findWatchChecked (ev_wd ev);
                       mret (match slot with Some j => inl (Some j) | None => inr tt end)
                     else mret (inl None));
      match evCacheSlot with
      | inr _ =>
          fd ← reinitialize inotifyFd;
          mret (fd, INOTIFY_READ_BUF_LEN)
      | inl evCacheSlot =>
          r ← ev_dispatch inotifyFd buf bufSize firstTry ev evCacheSlot;
          match snd r with
          | inl n => mret (fst r, n)
          | inr evLen =>
              g ← get;
              when (checkCache g) checkCacheConsistency;;
              when (dumpCache g) dumpCacheToLog;;
              mret (fst r, evLen)
          end
      end
  end.

(** ** A bufferful of events *)

(** The read of more events behind an unpaired IN_MOVED_FROM; [rest] are the
    unprocessed bytes, moved to the start of the buffer.  The result is the
    bytes there are then.  (The test [errno != -1] holds whatever happened.) *)
Definition read_more (inotifyFd : Z) (rest : cstr) : D cstr :=
  let numRead := Z.of_nat (length rest) in
  sys (Cualarm 2000);;
  r ← sys (Cread inotifyFd (INOTIFY_READ_BUF_LEN - numRead));
  savedErrno ← get_errno;
  sys (Cualarm 0);;
  set_errno savedErrno;;
  let nr := rv r in
  if (nr =? -1) && negb (savedErrno =? EINTR) then perror_exit (str "read") else
  if nr =? 0 then
    out Stderr (str "read() from inotify fd returned 0!");;
    stop_with (Exit 1)
  else
    (if negb (savedErrno =? -1) then
       upd (λ g, set_readCnt (inotifyReadCnt g + 1) g);;
       g ← get;
       logMessage VB_NOISY ([NL] ++ str "==========> SECONDARY Read " ++ dec (inotifyReadCnt g) ++
         str ": got " ++ dec nr ++ str " bytes" ++ [NL]);;
       mret (take (Z.to_nat (numRead + nr)) (rest ++ rdata r))
     else
       logMessage VB_NOISY ([NL] ++ str "==========> SECONDARY Read got nothing" ++ [NL]);;
       mret rest).

(** The [for] loop; the loop state is the descriptor, the bytes from [evp] to
    the end of what was read, and [firstTry].  The function's result is
    converted from [size_t] to the [int] [evLen]. *)
Definition events_turn (x : Z * cstr * bool) : D (Z * cstr * bool + Z) :=
  let '(inotifyFd, rest, firstTry) := x in
  match rest with
  | [] => mret (inr inotifyFd)
  | _ =>
      r ← processNextInotifyEvent inotifyFd rest (Z.of_nat (length rest)) firstTry;
      let evLen := wrap_s 32 (snd r) in
      if evLen >? 0 then mret (inl (fst r, drop (Z.to_nat evLen) rest, true))
      else
        rest ← read_more (fst r) rest;
        mret (inl (fst r, rest, false))
  end.

Definition processInotifyEvents (fuel : nat) (inotifyFd : Z) : D Z :=
  r ← sys (Csigaction 14);
  if rv r =? -1 then perror_exit (str "sigaction") else
  g ← get;
  let cnt := if readBufferSize g >? 0 then readBufferSize g else INOTIFY_READ_BUF_LEN in
  r ← sys (Cread inotifyFd cnt);
  if rv r =? -1 then perror_exit (str "read") else
  if rv r =? 0 then
    out Stderr (str "read() from inotify fd returned 0!");;
    stop_with (Exit 1)
  else if strlen (rdata r) >? INOTIFY_READ_BUF_LEN then
    stop_with (Undefined "read past the end of buf")
  else
    upd (λ g, set_readCnt (inotifyReadCnt g + 1) g);;
    g ← get;
    logMessage VB_NOISY ([NL] ++ str "==========> Read " ++ dec (inotifyReadCnt g) ++
      str ": got " ++ dec (rv r) ++ str " bytes" ++ [NL]);;
    loop fuel events_turn (inotifyFd, rdata r, true).
End Functions.

(** ** Bytes and events *)

Lemma wrap_s_mod z : wrap_s 32 (z mod 2 ^ 32) = wrap_s 32 z.
Proof. unfold wrap_s. by rewrite Zplus_mod_idemp_l. Qed.

Definition ev_size (ev : inotify_event) : Z := SIZEOF_INOTIFY_EVENT + ev_len ev.

Lemma length_put_event ev : event_wf ev → Z.of_nat (length (put_event ev)) = ev_size ev.
Proof.
  intros Hwf. pose proof (wf_len _ Hwf). pose proof (wf_pad _ Hwf) as Hp. unfold strlen in Hp.
  unfold put_event, ev_size. rewrite !length_app, length_replicate. simpl.
  change SIZEOF_INOTIFY_EVENT with 16. destruct Hp as [[-> ->]|Hp]; simpl; lia.
Qed.

Lemma ev_size_pos ev : event_wf ev → 16 <= ev_size ev <= 272.
Proof.
  intros Hwf. pose proof (wf_len _ Hwf) as Hl. change NAME_MAX with 255 in Hl.
  unfold ev_size. change SIZEOF_INOTIFY_EVENT with 16. lia.
Qed.

(** An event is read back as it was written; the name of an event that has
    none is whatever comes next. *)
Lemma get_put_event ev rest :
  event_wf ev →
  get_event (put_event ev ++ rest) =
    Some (if ev_len ev =? 0
          then InotifyEvent (ev_wd ev) (ev_mask ev) (ev_cookie ev) 0 (c_str rest)
          else ev).
Proof.
  intros Hwf. pose proof (length_put_event ev Hwf) as Hlen. unfold get_event.
  pose proof (wf_len _ Hwf) as Hl. unfold ev_size in Hlen.
  destruct (Z.ltb_spec (Z.of_nat (length (put_event ev ++ rest))) SIZEOF_INOTIFY_EVENT).
  { rewrite length_app in *. lia. }
  change (take 4 (put_event ev ++ rest)) with (le32 (ev_wd ev)).
  change (take 4 (drop 4 (put_event ev ++ rest))) with (le32 (ev_mask ev)).
  change (take 4 (drop 8 (put_event ev ++ rest))) with (le32 (ev_cookie ev)).
  change (take 4 (drop 12 (put_event ev ++ rest))) with (le32 (ev_len ev)).
  change (drop 16 (put_event ev ++ rest)) with
    ((ev_name ev ++ replicate (Z.to_nat (ev_len ev) - length (ev_name ev)) NUL) ++ rest).
  rewrite !le_le32, wrap_s_mod. pose proof (wf_wd _ Hwf). pose proof (wf_mask _ Hwf).
  pose proof (wf_cookie _ Hwf). rewrite wrap_s_id by lia.
  change NAME_MAX with 255 in Hl. rewrite !Z.mod_small by lia. f_equal.
  pose proof (wf_name _ Hwf) as Hn. pose proof (wf_pad _ Hwf) as Hp. unfold strlen in Hp.
  destruct (Z.eqb_spec (ev_len ev) 0) as [E|E].
  - destruct Hp as [[_ ->]|Hp]; [|lia]. by rewrite E.
  - destruct Hp as [[? _]|Hp]; [done|].
    destruct (Z.to_nat (ev_len ev) - length (ev_name ev))%nat eqn:En; [lia|].
    simpl. rewrite <-app_assoc. simpl. rewrite c_str_text by done. by destruct ev.
Qed.

(** ** What an event does, on the map *)

Inductive kind := Created | Deleted | MovedFrom | Overflow | Unmount | MoveSelf | Other.

Definition kind_of (mask : Z) : kind :=
  if tst mask IN_ISDIR && tst mask (Z.lor IN_CREATE IN_MOVED_TO) then Created
  else if tst mask IN_DELETE_SELF then Deleted
  else if Z.land mask (Z.lor IN_MOVED_FROM IN_ISDIR) =? Z.lor IN_MOVED_FROM IN_ISDIR then MovedFrom
  else if tst mask IN_Q_OVERFLOW then Overflow
  else if tst mask IN_UNMOUNT then Unmount
  else if tst mask IN_MOVE_SELF then MoveSelf
  else Other.

(** Is the event's watch looked up? *)
Definition looked_up (ev : inotify_event) : bool :=
  negb (ev_wd ev =? -1) && negb (tst (ev_mask ev) IN_IGNORED).

(** Creations and moves carry a name. *)
Definition named (ev : inotify_event) : Prop :=
  kind_of (ev_mask ev) = Created ∨ kind_of (ev_mask ev) = MovedFrom ∨
  tst (ev_mask ev) IN_MOVED_TO = true → 0 < ev_len ev.

Definition events_ok (evs : list inotify_event) : Prop := Forall (λ ev, event_wf ev ∧ named ev) evs.
Definition events_buf (evs : list inotify_event) : cstr := mjoin (put_event <$> evs).

(** The IN_MOVED_TO that completes a rename: the next event, with the same
    cookie. *)
Definition pair_of (ev : inotify_event) (evs : list inotify_event) : option inotify_event :=
  match evs with
  | ev2 :: _ => if tst (ev_mask ev2) IN_MOVED_TO && (ev_cookie ev2 =? ev_cookie ev) then Some ev2 else None
  | [] => None
  end.

Definition child (n : Z) (p name : cstr) : cstr := snprintf n (p ++ str "/" ++ name).
Definition not_under (p : cstr) (m : gmap Z cstr) : gmap Z cstr := filter (λ dq, under p dq.2 = false) m.

(** Why the cache is given up and rebuilt; [cs] are the inotify calls made
    before. *)
Definition lost (fd : Z) (ev : inotify_event) (evs : list inotify_event) (m : gmap Z cstr)
    (cs : list (call * reply)) : Prop :=
  (cs = [] ∧ looked_up ev = true ∧ m !! ev_wd ev = None) ∨
  (cs = [] ∧ kind_of (ev_mask ev) = Overflow) ∨
  (cs = [] ∧ kind_of (ev_mask ev) = MovedFrom ∧ ∃ ev2, pair_of ev evs = Some ev2 ∧ m !! ev_wd ev2 = None) ∨
  (∃ ds cs' d r, Forall2 (removes fd) ds cs' ∧ cs = cs' ++ [(Cinotify_rm_watch fd d, r)] ∧ rv r = -1).

(** [cs] removes each watch at or below [p], once. *)
Definition zaps (fd : Z) (p : cstr) (m : gmap Z cstr) (cs : list (call * reply)) : Prop :=
  ∃ ds, Forall2 (removes fd) ds cs ∧ NoDup ds ∧
        ∀ d, d ∈ ds ↔ ∃ q, m !! d = Some q ∧ under p q = true.

(** [event_outcome roots0 roots fd firstTry ev evs m cs fd' n m']: handling [ev], followed
    in the buffer by [evs], with the roots [roots0] and the cache meaning [m] makes the inotify calls
    [cs], consumes [n] bytes and leaves the roots [roots], the descriptor
    [fd'] and the cache [m']. *)
Inductive event_outcome (roots0 roots : list (option cstr)) (fd : Z) (firstTry : bool) (ev : inotify_event)
    (evs : list inotify_event) (m : gmap Z cstr) :
    list (call * reply) → Z → Z → gmap Z cstr → Prop :=
  | O_rebuilt cs1 cs2 dirs fd' :
      0 < fd' → lost fd ev evs m cs1 → Forall2 (adds roots fd') dirs cs2 →
      event_outcome roots0 roots fd firstTry ev evs m (cs1 ++ cs2) fd' INOTIFY_READ_BUF_LEN (added cs2)
  | O_created p cs dirs :
      kind_of (ev_mask ev) = Created → m !! ev_wd ev = Some p →
      (∀ d q, m !! d = Some q → q ≠ child FULLPATH p (ev_name ev)) →
      Forall2 (adds roots fd) dirs cs →
      event_outcome roots0 roots fd firstTry ev evs m cs fd (ev_size ev) (m ∪ added cs)
  | O_created_known p d :
      kind_of (ev_mask ev) = Created → m !! ev_wd ev = Some p →
      m !! d = Some (child FULLPATH p (ev_name ev)) →
      event_outcome roots0 roots fd firstTry ev evs m [] fd (ev_size ev) m
  | O_gone :
      kind_of (ev_mask ev) = Deleted ∨ kind_of (ev_mask ev) = Unmount →
      event_outcome roots0 roots fd firstTry ev evs m [] fd (ev_size ev) (delete (ev_wd ev) m)
  | O_renamed ev2 p q :
      kind_of (ev_mask ev) = MovedFrom → pair_of ev evs = Some ev2 →
      m !! ev_wd ev = Some p → m !! ev_wd ev2 = Some q →
      event_outcome roots0 roots fd firstTry ev evs m [] fd (ev_size ev + ev_size ev2)
        (rewritten (child PATH_MAX p (ev_name ev)) (child PATH_MAX q (ev_name ev2)) <$> m)
  | O_moved_out p cs :
      kind_of (ev_mask ev) = MovedFrom → pair_of ev evs = None → evs ≠ [] ∨ firstTry = false →
      m !! ev_wd ev = Some p → zaps fd (child FULLPATH p (ev_name ev)) m cs →
      event_outcome roots0 roots fd firstTry ev evs m cs fd (ev_size ev)
        (not_under (child FULLPATH p (ev_name ev)) m)
  | O_hanging :
      kind_of (ev_mask ev) = MovedFrom → evs = [] → firstTry = true →
      event_outcome roots0 roots fd firstTry ev evs m [] fd (2 ^ 64 - 1) m
  | O_root_moved p cs :
      kind_of (ev_mask ev) = MoveSelf → m !! ev_wd ev = Some p → Some p ∈ roots0 → zaps fd p m cs →
      event_outcome roots0 roots fd firstTry ev evs m cs fd (ev_size ev) (not_under p m)
  | O_other :
      (kind_of (ev_mask ev) = MoveSelf ∧ ∃ p, m !! ev_wd ev = Some p ∧ Some p ∉ roots0) ∨
      kind_of (ev_mask ev) = Other →
      event_outcome roots0 roots fd firstTry ev evs m [] fd (ev_size ev) m.

Lemma doomed_zaps fd p l cs :
  cache_ok l → Forall2 (removes fd) (doomed p l) cs → zaps fd p (cache_map l) cs.
Proof.
  intros Hok HF. exists (doomed p l). split_and!; [done| |].
  - clear HF cs. unfold doomed. induction l as [|w l IH]; [constructor|].
    specialize (IH (cache_ok_cons _ _ Hok)). rewrite filter_cons. case_decide as Hd; [|done].
    simpl. constructor; [|done]. intros (v & Ev & [Hv Hin]%list_elem_of_filter)%list_elem_of_fmap.
    apply list_elem_of_lookup in Hin as [j Hj].
    apply andb_True in Hd as [Hd _]. apply Is_true_true, Z.geb_le in Hd.
    by pose proof (slots_unique _ Hok O (Datatypes.S j) w v eq_refl Hj Hd Ev).
  - intros d. unfold doomed. rewrite list_elem_of_fmap. split.
    + intros ([d' q] & -> & [[Hd Hu]%andb_True (j & Hj)%list_elem_of_lookup]%list_elem_of_filter).
      simpl in *. apply Is_true_true, Z.geb_le in Hd. apply Is_true_true in Hu.
      exists q. split; [|done]. apply cache_lookup; eauto.
    + intros (q & (j & Hj & Hd)%cache_lookup & Hu); [|done]. exists (Watch d q). split; [done|].
      apply list_elem_of_filter. split; [|by eapply list_elem_of_lookup_2].
      simpl. rewrite Hu. apply andb_True. split; [|done]. by apply Is_true_true, Z.geb_le.
Qed.

Section Specs.
Context `{AddWatch}.
Implicit Types s : st dtree.

Lemma wp_when_log b vb t Q E s :
  (∀ s', same s s' → Q tt s') → wp (when b (logMessage vb t)) Q E s.
Proof. destruct b; [apply wp_log|]. intros HQ. by apply wp_ret, HQ. Qed.

Lemma wp_displayInotifyEvent ev Q E s :
  (∀ s', same s s' → Q tt s') → wp (displayInotifyEvent ev) Q E s.
Proof.
  assert (∀ (m k : D unit), (∀ Q' s1, (∀ s', same s1 s' → Q' tt s') → wp m Q' E s1) →
    (∀ Q' s1, (∀ s', same s1 s' → Q' tt s') → wp k Q' E s1) →
    ∀ Q' s1, (∀ s', same s1 s' → Q' tt s') → wp (m;; k) Q' E s1) as Hseq.
  { intros m k Hm Hk Q' s1 HQ'. apply wp_bind, Hm. intros s2 H2. apply Hk. intros s3 H3.
    apply HQ'. by eapply same_trans. }
  revert Q s. unfold displayInotifyEvent.
  repeat (apply Hseq; [intros; first [by apply wp_log|by apply wp_when_log]|]).
  intros; by apply wp_when_log.
Qed.

Lemma wp_checkCacheConsistency Q s :
  dt_ok (glob s) →
  (∀ s', glob s' = glob s → wcalls (trace s') = wcalls (trace s) → Q tt s') →
  wp checkCacheConsistency Q E_dt s.
Proof.
  intros Hok HQ. apply wp_bind, wp_get, wp_bind.
  eapply wp_mono; [apply (wp_for_acc (λ _ _ s', glob s' = glob s ∧ wcalls (trace s') = wcalls (trace s))); [done|]| |done].
  - intros j n s1 Hj [G1 W1].
    destruct (lookup_lt_is_Some_2 (wlCache (glob s1)) j) as [w Hw]; [rewrite G1; lia|].
    eapply wp_bind, wp_at_slot; [done|]. destruct (wd w >=? 0); [|by apply wp_ret].
    apply wp_bind, wp_sys. destruct (_ =? -1).
    + apply wp_bind, wp_get_errno, wp_bind, wp_log. intros s2 (G2 & _ & W2). simpl in *.
      rewrite wcalls_snoc_other in W2 by done. apply wp_ret. split; congruence.
    + destruct (negb _).
      * apply wp_bind, wp_log. intros s2 (G2 & _). apply wp_stop. split; [|done].
        simpl in G2. by rewrite G2, G1.
      * apply wp_ret. simpl. by rewrite wcalls_snoc_other.
  - intros n s1 [G1 W1]. apply wp_when_log. intros s2 (G2 & _ & W2). apply HQ; congruence.
Qed.

Lemma wp_pathnameInCache p Q E s :
  cache_ok (wlCache (glob s)) →
  ((∃ d, cache_map (wlCache (glob s)) !! d = Some p) → Q true s) →
  ((∀ d q, cache_map (wlCache (glob s)) !! d = Some q → q ≠ p) → Q false s) →
  wp (pathnameInCache p) Q E s.
Proof.
  intros Hok HT HF. apply wp_bind, wp_bind, wp_get, wp_ret, wp_ret.
  destruct (find_slot _ _) as [j|] eqn:E1.
  - apply find_slot_Some in E1 as ([d q] & Hj & Ht & _). simpl in Ht.
    apply andb_true_iff in Ht as [Hd ->%streq_true]. apply Z.geb_le in Hd.
    apply HT. exists d. apply cache_lookup; eauto.
  - apply HF. intros d q (j & Hj & Hd)%cache_lookup; [|done]. intros ->.
    apply (find_slot_None _ _ _ _ E1) in Hj. simpl in Hj.
    apply andb_false_iff in Hj as [Hj|Hj%streq_false]; [|done].
    destruct (Z.geb_spec d 0); [done|lia].
Qed.

(** The state after a branch, from [s]. *)
Definition branch_post (fd : Z) (firstTry : bool) (ev : inotify_event) (evs : list inotify_event)
    (s : st dtree) (r : Z * (Z + Z)) (s' : st dtree) : Prop :=
  dt_ok (glob s') ∧ ∃ cs, wcalls (trace s') = wcalls (trace s) ++ cs ∧
    event_outcome (rootDirPaths (glob s)) (rootDirPaths (glob s')) fd firstTry ev evs
      (cache_map (wlCache (glob s))) cs (fst r)
      (match snd r with inl n => n | inr n => n end) (cache_map (wlCache (glob s'))).

Lemma wp_lost old fd firstTry ev evs s cs s1 :
  dt_ok (glob s1) → wcalls (trace s1) = wcalls (trace s) ++ cs →
  lost fd ev evs (cache_map (wlCache (glob s))) cs →
  wp (reinitialize old) (λ fd' s', branch_post fd firstTry ev evs s (fd', inl INOTIFY_READ_BUF_LEN) s') E_dt s1.
Proof.
  intros Hok W1 Hlost. apply wp_reinitialize; [done|]. intros s2 fd' Hfd' Hr.
  pose proof (rebuilt_ok _ _ _ Hok Hr) as Hok2.
  destruct Hr as (l & n & w & rc & cs2 & dirs & G2 & Hc & W2 & F2 & M2).
  split; [done|]. exists (cs ++ cs2). split; [by rewrite W2, W1, app_assoc|].
  rewrite G2. simpl. rewrite M2. by apply (O_rebuilt _ _ _ _ _ _ _ cs cs2 dirs).
Qed.

Section Branches.
Context (fd : Z) (firstTry : bool) (ev : inotify_event) (evs : list inotify_event).
Context (s : st dtree) (Hok : dt_ok (glob s)).
Context (j : nat) (p : cstr) (Hj : wlCache (glob s) !! j = Some (Watch (ev_wd ev) p)) (Hwd : 0 <= ev_wd ev).
Let m := cache_map (wlCache (glob s)).
Abbreviation post := (branch_post fd firstTry ev evs s).

Lemma slot_map : m !! ev_wd ev = Some p.
Proof. apply cache_lookup; [apply Hok|]. eauto. Qed.

(** The state changed by text only. *)
Lemma at_same s1 (Q : watch → st dtree → Prop) E :
  same s s1 → Q (Watch (ev_wd ev) p) s1 → wp (slot_of (Some j)) Q E s1.
Proof. intros (G & _) HQ. by eapply wp_at_slot; [rewrite G|]. Qed.

Lemma post_same s1 r n :
  same s s1 → n = match snd r with inl n => n | inr n => n end →
  event_outcome (rootDirPaths (glob s)) (rootDirPaths (glob s)) fd firstTry ev evs m [] (fst r) n m →
  post r s1.
Proof.
  intros (G & _ & W) -> Ho. split; [by rewrite G|]. exists []. rewrite W, G, app_nil_r. by split.
Qed.

Lemma wp_ev_created s1 :
  same s s1 → kind_of (ev_mask ev) = Created →
  wp (ev_created fd ev (Some j) (ev_size ev)) post E_dt s1.
Proof.
  intros H1 Hk. apply wp_bind, at_same; [done|]. simpl.
  apply wp_bind, wp_log. intros s2 H2. pose proof (same_trans _ _ _ H1 H2) as H3.
  pose proof H3 as (G2 & _ & W2).
  apply wp_bind, wp_pathnameInCache; rewrite G2; [apply Hok| |].
  - intros [d Hd]. apply wp_bind, wp_ret, wp_ret. eapply post_same; [done|done|].
    eapply O_created_known; [done|apply slot_map|done].
  - intros Hn. apply wp_bind, wp_watchSubtree; [by rewrite G2|]. intros s3 H4.
    pose proof (grown_ok _ _ _ _ ltac:(by rewrite G2) H4) as Hok3. apply wp_ret.
    destruct H4 as (l & n & cs & G3 & Hc & W3 & F3 & M3). rewrite G2 in *.
    split; [done|]. exists cs. split; [congruence|]. rewrite G3. simpl. rewrite M3.
    eapply O_created; [done|apply slot_map|done|done].
Qed.

(** Giving up the root, if the directory is one. *)
Lemma wp_maybe_zap_root q s1 (Q : unit → st dtree → Prop) :
  glob s1 = glob s → wcalls (trace s1) = wcalls (trace s) →
  (∀ s2 ps n, glob s2 = set_roots ps n (rootDirStat (glob s)) (glob s) → dt_ok (glob s2) →
    wcalls (trace s2) = wcalls (trace s) → Q tt s2) →
  wp (isroot ← isRootDirPath q; when isroot (zapRootDirPath q)) Q E_dt s1.
Proof.
  intros G1 W1 HQ. apply wp_bind, wp_isRootDirPath.
  case_bool_decide; simpl.
  - apply wp_zapRootDirPath; [by rewrite G1|]. rewrite G1. intros k s2 Hk Hlt G2 W2.
    eapply HQ; [done| |congruence]. rewrite G2. split; simpl; [apply Hok| |apply Hok].
    rewrite (dt_roots _ Hok). symmetry. by eapply zapped_zap.
  - apply wp_ret. eapply (HQ _ (rootDirPaths (glob s)) (ignoreRootDirs (glob s)));
      [rewrite G1; by destruct (glob s)|by rewrite G1|done].
Qed.

Lemma post_deleted s1 ps n s2 :
  glob s1 = set_roots ps n (rootDirStat (glob s)) (glob s) → dt_ok (glob s1) →
  wcalls (trace s1) = wcalls (trace s) →
  glob s2 = set_cache (<[j := empty_slot]> (wlCache (glob s1))) (glob s1) →
  wcalls (trace s2) = wcalls (trace s1) →
  kind_of (ev_mask ev) = Deleted ∨ kind_of (ev_mask ev) = Unmount →
  post (fd, inr (ev_size ev)) s2.
Proof.
  intros G1 Hok1 W1 G2 W2 Hk.
  destruct (cache_delete _ _ _ (dt_cache _ Hok) Hj) as [Hc Hm].
  rewrite G1 in G2, Hok1. simpl in G2. split.
  - rewrite G2. split; simpl; [done|apply Hok1..].
  - exists []. split; [by rewrite app_nil_r, W2|]. rewrite G2. simpl. rewrite Hm. by apply O_gone.
Qed.

Lemma wp_ev_deleted s1 :
  same s s1 → kind_of (ev_mask ev) = Deleted →
  wp (ev_deleted fd ev (Some j) (ev_size ev)) post E_dt s1.
Proof.
  intros H1 Hk. apply wp_bind, at_same; [done|]. simpl.
  apply wp_bind, wp_log. intros s2 H2. pose proof (same_trans _ _ _ H1 H2) as (G2 & _ & W2).
  assert (∀ s3 ps n, glob s3 = set_roots ps n (rootDirStat (glob s)) (glob s) → dt_ok (glob s3) →
    wcalls (trace s3) = wcalls (trace s) →
    wp (markCacheSlotEmpty j;; mret (fd, inr (ev_size ev))) post E_dt s3) as Hend.
  { intros s3 ps n G3 Hok3 W3. eapply wp_bind, wp_markCacheSlotEmpty; [by rewrite G3|].
    intros s4 G4 W4 _. apply wp_ret. eapply post_deleted; eauto. }
  pose proof (wp_maybe_zap_root p s2 (λ _ s3, wp (markCacheSlotEmpty j;; mret (fd, inr (ev_size ev))) post E_dt s3)
    G2 W2 Hend) as Hz.
  clear -Hz. unfold wp, mbind, M_bind in *.
  destruct (isRootDirPath p s2) as [[b|t|] s3]; [|done..]. by destruct (when b _ s3) as [[[]|t|] s4].
Qed.

Lemma wp_ev_unmount s1 :
  same s s1 → kind_of (ev_mask ev) = Unmount →
  wp (ev_unmount fd (Some j) (ev_size ev)) post E_dt s1.
Proof.
  intros H1 Hk. apply wp_bind, at_same; [done|]. simpl.
  apply wp_bind, wp_log. intros s2 H2. pose proof (same_trans _ _ _ H1 H2) as (G2 & _ & W2).
  eapply wp_bind, wp_markCacheSlotEmpty; [by rewrite G2|]. intros s3 G3 W3 _. apply wp_ret.
  eapply (post_deleted s2 (rootDirPaths (glob s)) (ignoreRootDirs (glob s)));
    [rewrite G2; by destruct (glob s)|by rewrite G2|done|done|done|by right].
Qed.
Lemma wp_zap_or_lost q s1 ps n :
  glob s1 = set_roots ps n (rootDirStat (glob s)) (glob s) → dt_ok (glob s1) →
  wcalls (trace s1) = wcalls (trace s) →
  (∀ cs, zaps fd q m cs →
    event_outcome (rootDirPaths (glob s)) ps fd firstTry ev evs m cs fd (ev_size ev) (not_under q m)) →
  wp (n ← zapSubtree fd q;
      if n =? -1 then
        fd ← reinitialize fd;
        mret (fd, inl INOTIFY_READ_BUF_LEN)
      else mret (fd, inr (ev_size ev))) post E_dt s1.
Proof.
  intros G1 Hok1 W1 Ho. apply wp_bind, wp_zapSubtree; [done| |].
  - intros s2 k Hk (l & cs & G2 & Hc & Hm & W2 & F2 & ->).
    destruct (Z.eqb_spec (Z.of_nat (length cs)) (-1)); [lia|]. apply wp_ret. rewrite G1 in *. simpl in *.
    split; [rewrite G2; split; simpl; [done|apply Hok1..]|]. exists cs. split; [congruence|].
    rewrite G2. simpl. rewrite Hm. apply Ho. by apply doomed_zaps; [apply Hok|].
  - intros s2 (l & ds & cs & d & r & G2 & Hc & F2 & _ & _ & W2 & Hr). simpl. apply wp_bind.
    eapply wp_mono; [eapply (wp_lost fd fd firstTry ev evs s (cs ++ [(Cinotify_rm_watch fd d, r)]))| |done].
    + rewrite G2. split; simpl; [done|apply Hok1..].
    + by rewrite W2, W1.
    + right; right; right. by exists ds, cs, d, r.
    + intros fd' s3 H3. by apply wp_ret.
Qed.

Lemma wp_ev_moved_out bufSize s1 :
  same s s1 → kind_of (ev_mask ev) = MovedFrom → pair_of ev evs = None → evs ≠ [] ∨ firstTry = false →
  wp (ev_moved_out fd ev (Some j) (ev_size ev) bufSize firstTry) post E_dt s1.
Proof.
  intros H1 Hk Hp He. apply wp_bind, at_same; [done|].
  apply wp_bind, wp_log. intros s2 H2. apply wp_bind, wp_log. intros s3 H3.
  pose proof (same_trans _ _ _ H1 (same_trans _ _ _ H2 H3)) as (G3 & _ & W3).
  apply (wp_zap_or_lost _ s3 (rootDirPaths (glob s)) (ignoreRootDirs (glob s)));
    [rewrite G3; by destruct (glob s)|by rewrite G3|done|].
  intros cs Hz. eapply O_moved_out; [done..|apply slot_map|done].
Qed.

Lemma wp_ev_move_self s1 :
  same s s1 → kind_of (ev_mask ev) = MoveSelf →
  wp (ev_move_self fd (Some j) (ev_size ev)) post E_dt s1.
Proof.
  intros H1 Hk. pose proof H1 as (G1 & _ & W1). apply wp_bind, at_same; [done|].
  apply wp_bind, wp_isRootDirPath. simpl. rewrite G1. case_bool_decide as Hroot.
  - apply wp_bind, wp_log. intros s2 H2. pose proof (same_trans _ _ _ H1 H2) as (G2 & _ & W2).
    apply wp_bind, wp_zapRootDirPath; [by rewrite G2|]. rewrite G2. intros k s3 Hk3 _ G3 W3.
    eapply wp_zap_or_lost; [done| |congruence|].
    + rewrite G3. split; simpl; [apply Hok| |apply Hok]. rewrite (dt_roots _ Hok). symmetry. by eapply zapped_zap.
    + intros cs Hz. eapply O_root_moved; [done|apply slot_map|done|done].
  - apply wp_ret. eapply post_same; [done|done|]. apply O_other. left. split; [done|].
    exists p. split; [apply slot_map|done].
Qed.

Lemma wp_ev_rename ev2 s1 :
  same s s1 → kind_of (ev_mask ev) = MovedFrom → pair_of ev evs = Some ev2 → 0 <= ev_wd ev2 →
  wp (ev_rename fd ev ev2 (Some j) (ev_size ev)) post E_dt s1.
Proof.
  intros H1 Hk Hp H2. pose proof H1 as (G1 & _ & W1).
  apply wp_bind, wp_findWatchChecked; rewrite ?G1; [done|done| |].
  - intros k q Hq Hmq. apply wp_bind, at_same; [done|].
    eapply wp_bind, wp_at_slot; [by rewrite G1|]. simpl.
    apply wp_bind, wp_rewriteCachedPaths; [by rewrite G1|]. intros s2 l G2 W2 Hc Hm. apply wp_ret.
    rewrite G1 in *. split; [rewrite G2; by apply dt_ok_set_cache|]. exists [].
    split; [rewrite app_nil_r; congruence|]. rewrite G2. simpl. rewrite Hm.
    by eapply O_renamed; [..|apply slot_map|].
  - intros s2 Hs2 Hn. pose proof (same_trans _ _ _ H1 Hs2) as (G2 & _ & W2). apply wp_bind.
    eapply wp_mono; [eapply (wp_lost fd fd firstTry ev evs s [])| |done].
    + by rewrite G2.
    + by rewrite app_nil_r.
    + right; right; left. eauto.
    + intros fd' s3 H3. by apply wp_ret.
Qed.

End Branches.

(** The bytes behind the event are those of the events that follow. *)
Lemma wp_ev_moved_from fd firstTry ev evs s j p buf s1 :
  dt_ok (glob s) → wlCache (glob s) !! j = Some (Watch (ev_wd ev) p) → 0 <= ev_wd ev →
  same s s1 → kind_of (ev_mask ev) = MovedFrom → events_ok evs →
  drop (Z.to_nat (ev_size ev)) buf = events_buf evs →
  0 <= ev_size ev →
  wp (ev_moved_from fd buf (Z.of_nat (length buf)) firstTry ev (Some j) (ev_size ev))
    (branch_post fd firstTry ev evs s) E_dt s1.
Proof.
  intros Hok Hj Hwd H1 Hk He Hd Hl. unfold ev_moved_from. rewrite Hd.
  pose proof (f_equal length Hd) as Hlen. rewrite length_drop in Hlen.
  destruct evs as [|ev2 evs'].
  - change (length (events_buf [])) with O in Hlen. destruct (Z.ltb_spec (ev_size ev) (Z.of_nat (length buf))); [lia|].
    destruct firstTry eqn:Ef; simpl.
    + apply wp_bind, wp_log. intros s2 Hs2. apply wp_ret.
      eapply post_same; [done|by eapply same_trans|done|]. by apply O_hanging.
    + eapply wp_ev_moved_out; [done..|by right].
  - apply Forall_cons in He as [[Hwf Hnm] He'].
    pose proof (length_put_event _ Hwf) as Hl2. pose proof (wf_len _ Hwf) as Hl3.
    change (events_buf (ev2 :: evs')) with (put_event ev2 ++ events_buf evs') in *.
    rewrite length_app in Hlen.
    unfold ev_size in Hl2. change SIZEOF_INOTIFY_EVENT with 16 in Hl2.
    destruct (Z.ltb_spec (ev_size ev) (Z.of_nat (length buf))); [|lia].
    rewrite get_put_event by done.
    set (ev2' := if ev_len ev2 =? 0 then _ else _).
    assert (tst (ev_mask ev2) IN_MOVED_TO = true → ev2' = ev2) as Hname.
    { intros Ht. unfold ev2'. destruct (Z.eqb_spec (ev_len ev2) 0) as [E|]; [|done].
      pose proof (Hnm (or_intror (or_intror Ht))). lia. }
    assert (ev_mask ev2' = ev_mask ev2 ∧ ev_cookie ev2' = ev_cookie ev2) as [-> ->]
      by (unfold ev2'; by destruct (_ =? 0)).
    destruct (tst _ _ && _) eqn:Ep.
    + apply andb_true_iff in Ep as [Ht Hc]. rewrite Hname by done. eapply wp_ev_rename; [done..| |].
      * simpl. by rewrite Ht, Hc.
      * destruct (wf_wd _ Hwf) as [[_ Hm]|?]; [|lia]. by rewrite Hm in Ht.
    + eapply wp_ev_moved_out; [done..| |by left]. simpl. by rewrite Ep.
Qed.

(** The name matters for creations and moves only. *)
Lemma event_outcome_name ev ev' evs r0 r fd firstTry m cs fd' n m' :
  ev_wd ev' = ev_wd ev → ev_mask ev' = ev_mask ev → ev_cookie ev' = ev_cookie ev → ev_len ev' = ev_len ev →
  kind_of (ev_mask ev) ≠ Created → kind_of (ev_mask ev) ≠ MovedFrom →
  event_outcome r0 r fd firstTry ev' evs m cs fd' n m' →
  event_outcome r0 r fd firstTry ev evs m cs fd' n m'.
Proof.
  intros Ew Em Ec El Hk1 Hk2 Ho.
  assert (ev_size ev' = ev_size ev) as Es by (unfold ev_size; lia).
  destruct Ho; rewrite ?Ew, ?Em, ?Es in *; try done.
  - eapply O_rebuilt; [done| |done]. unfold lost, looked_up in *. rewrite Ew, Em in *.
    match goal with Hl : _ ∨ _ ∨ _ ∨ _ |- _ => destruct Hl as [?|[?|[[_ [? _]]|?]]] end; [auto|auto|done|auto].
  - by apply O_gone.
  - by eapply O_root_moved.
  - by apply O_other.
Qed.

Lemma wp_ev_overflow fd firstTry ev evs s s1 :
  dt_ok (glob s) → same s s1 → kind_of (ev_mask ev) = Overflow →
  wp (ev_overflow fd) (branch_post fd firstTry ev evs s) E_dt s1.
Proof.
  intros Hok (G1 & _ & W1) Hk. apply wp_bind, wp_upd, wp_bind, wp_get, wp_bind, wp_log. simpl.
  intros s2 (G2 & _ & W2). apply wp_bind. simpl in *.
  eapply wp_mono; [eapply (wp_lost fd fd firstTry ev evs s [])| |done].
  - rewrite G2, G1. by split; apply Hok.
  - rewrite app_nil_r. congruence.
  - right; by left.
  - intros fd' s3 H3. by apply wp_ret.
Qed.

(** The chain of tests, when the event's watch was looked up. *)
Lemma wp_ev_dispatch fd firstTry ev evs s j p buf s1 :
  dt_ok (glob s) → wlCache (glob s) !! j = Some (Watch (ev_wd ev) p) → 0 <= ev_wd ev →
  same s s1 → events_ok evs → drop (Z.to_nat (ev_size ev)) buf = events_buf evs →
  0 <= ev_size ev →
  wp (ev_dispatch fd buf (Z.of_nat (length buf)) firstTry ev (Some j))
    (branch_post fd firstTry ev evs s) E_dt s1.
Proof.
  intros Hok Hj Hwd H1 He Hd Hl. unfold ev_dispatch. fold (ev_size ev).
  pose proof (eq_refl (kind_of (ev_mask ev))) as Hk. unfold kind_of in Hk at 1.
  destruct (tst (ev_mask ev) IN_ISDIR && tst (ev_mask ev) (Z.lor IN_CREATE IN_MOVED_TO)) eqn:E1.
  { eapply wp_ev_created; eauto. }
  destruct (tst (ev_mask ev) IN_DELETE_SELF) eqn:E2.
  { eapply wp_ev_deleted; eauto. }
  destruct (_ =? _) eqn:E3.
  { eapply wp_ev_moved_from; eauto. }
  destruct (tst (ev_mask ev) IN_Q_OVERFLOW) eqn:E4.
  { eapply wp_ev_overflow; eauto. }
  destruct (tst (ev_mask ev) IN_UNMOUNT) eqn:E5.
  { eapply wp_ev_unmount; eauto. }
  destruct (tst (ev_mask ev) IN_MOVE_SELF) eqn:E6.
  { eapply wp_ev_move_self; eauto. }
  apply wp_ret. eapply post_same; [done..|]. apply O_other. right.
  unfold kind_of. by rewrite E1, E2, E3, E4, E5, E6.
Qed.

(** ... and when it was not: an overflow, or nothing to do. *)
Lemma wp_ev_dispatch_none fd firstTry ev evs s buf n s1 :
  dt_ok (glob s) → same s s1 → ev_mask ev = IN_Q_OVERFLOW ∨ ev_mask ev = IN_IGNORED →
  wp (ev_dispatch fd buf n firstTry ev None) (branch_post fd firstTry ev evs s) E_dt s1.
Proof.
  intros Hok H1 Hm. unfold ev_dispatch. fold (ev_size ev). destruct Hm as [Hm|Hm]; rewrite Hm; simpl.
  - eapply wp_ev_overflow; [done..|]. by rewrite Hm.
  - apply wp_ret. eapply post_same; [done..|]. apply O_other. right. by rewrite Hm.
Qed.

(** The end of the function keeps what the branch achieved. *)
Lemma branch_post_keep fd firstTry ev evs s r s1 s2 :
  branch_post fd firstTry ev evs s r s1 → glob s2 = glob s1 → wcalls (trace s2) = wcalls (trace s1) →
  branch_post fd firstTry ev evs s r s2.
Proof. unfold branch_post. by intros ? -> ->. Qed.

Lemma wp_epilogue fd firstTry ev evs s r (s1 : st dtree) :
  branch_post fd firstTry ev evs s r s1 →
  wp (match snd r with
      | inl n => mret (fst r, n)
      | inr evLen =>
          g ← get;
          when (checkCache g) checkCacheConsistency;;
          when (dumpCache g) dumpCacheToLog;;
          mret (fst r, evLen)
      end) (λ x s', branch_post fd firstTry ev evs s (fst x, inl (snd x)) s') E_dt s1.
Proof.
  intros Hp. assert (dt_ok (glob s1)) as Hok1 by apply Hp.
  destruct r as [fd' [n|n]]; simpl; [by apply wp_ret|].
  change (branch_post fd firstTry ev evs s (fd', inl n) s1) in Hp. apply wp_bind, wp_get.
  assert (∀ s2, glob s2 = glob s1 → wcalls (trace s2) = wcalls (trace s1) →
    wp (when (dumpCache (glob s1)) dumpCacheToLog;; mret (fd', n))
      (λ x s', branch_post fd firstTry ev evs s (fst x, inl (snd x)) s') E_dt s2) as Hdump.
  { intros s2 G2 W2. apply wp_bind. destruct (dumpCache (glob s1)) eqn:Ed; simpl.
    - apply wp_dumpCacheToLog; [by rewrite G2|left; by rewrite G2|].
      intros s3 (G3 & _ & W3) _. apply wp_ret. eapply branch_post_keep; [exact Hp|congruence..].
    - apply wp_ret, wp_ret. by eapply branch_post_keep. }
  apply wp_bind. destruct (checkCache (glob s1)); simpl; [|by apply wp_ret, Hdump].
  apply wp_checkCacheConsistency; [done|]. auto.
Qed.

(** The buffer starts with [ev], and [evs] are what is behind it. *)
Lemma wp_processNext_buf fd firstTry ev ev' evs buf s :
  dt_ok (glob s) → event_wf ev → named ev → events_ok evs →
  get_event buf = Some ev' →
  ev' = (if ev_len ev =? 0
         then InotifyEvent (ev_wd ev) (ev_mask ev) (ev_cookie ev) 0 (ev_name ev')
         else ev) →
  drop (Z.to_nat (ev_size ev)) buf = events_buf evs →
  wp (processNextInotifyEvent fd buf (Z.of_nat (length buf)) firstTry)
    (λ x s', branch_post fd firstTry ev evs s (fst x, inl (snd x)) s') E_dt s.
Proof.
  intros Hok Hwf Hnm He Hget Hev Hd. pose proof (ev_size_pos _ Hwf).
  unfold processNextInotifyEvent. rewrite Hget.
  assert (Hsame : ev_wd ev' = ev_wd ev ∧ ev_mask ev' = ev_mask ev ∧ ev_cookie ev' = ev_cookie ev ∧
    ev_len ev' = ev_len ev) by (rewrite Hev; destruct (Z.eqb_spec (ev_len ev) 0) as [->|]; done).
  destruct Hsame as (Ew & Em & Ec & El).
  assert (Hback : ∀ r s', branch_post fd firstTry ev' evs s r s' → branch_post fd firstTry ev evs s r s').
  { intros r s' (Hok' & cs & W & Ho). split; [done|]. exists cs. split; [done|].
    destruct (decide (0 < ev_len ev)).
    { destruct (Z.eqb_spec (ev_len ev) 0); [lia|by rewrite <-Hev]. }
    eapply event_outcome_name; [..|exact Ho]; [done..| |]; intros Hk.
    - by pose proof (Hnm (or_introl Hk)).
    - by pose proof (Hnm (or_intror (or_introl Hk))). }
  assert (Hes : ev_size ev' = ev_size ev) by (unfold ev_size; by rewrite El).
  apply wp_bind, wp_displayInotifyEvent. intros s1 Hs1. pose proof Hs1 as (G1 & _ & W1).
  assert (∀ slot s2, wp (ev_dispatch fd buf (Z.of_nat (length buf)) firstTry ev' slot)
    (branch_post fd firstTry ev' evs s) E_dt s2 →
    wp (r ← ev_dispatch fd buf (Z.of_nat (length buf)) firstTry ev' slot;
        match snd r with
        | inl n => mret (fst r, n)
        | inr evLen =>
            g ← get;
            when (checkCache g) checkCacheConsistency;;
            when (dumpCache g) dumpCacheToLog;;
            mret (fst r, evLen)
        end) (λ x s', branch_post fd firstTry ev evs s (fst x, inl (snd x)) s') E_dt s2) as Hmain.
  { intros slot s2 Hw. apply wp_bind. eapply wp_mono; [exact Hw| |done].
    intros r s3 H3. by apply wp_epilogue, Hback. }
  apply wp_bind. rewrite Ew, Em. destruct (negb _ && _) eqn:Elook.
  - assert (0 <= ev_wd ev).
    { destruct (wf_wd _ Hwf) as [[Hw _]|?]; [|lia]. rewrite Hw in Elook. done. }
    apply wp_bind, wp_findWatchChecked; rewrite ?G1; [done|done| |].
    + intros j p Hj _. apply wp_ret, Hmain. eapply wp_ev_dispatch; rewrite ?Ew, ?Hes; eauto; lia.
    + intros s2 Hs2 Hn. apply wp_ret. apply wp_bind.
      pose proof (same_trans _ _ _ Hs1 Hs2) as (G2 & _ & W2).
      eapply wp_mono; [eapply (wp_lost fd fd firstTry ev evs s [])| |done].
      * by rewrite G2.
      * by rewrite app_nil_r.
      * by left.
      * intros fd' s3 H3. by apply wp_ret.
  - apply wp_ret, Hmain. apply wp_ev_dispatch_none; [done..|]. rewrite Em.
    apply andb_false_iff in Elook as [E|E].
    + destruct (wf_wd _ Hwf) as [[_ ?]|?]; [by left|]. destruct (Z.eqb_spec (ev_wd ev) (-1)); [lia|done].
    + right. apply (wf_ignored _ Hwf). by destruct (tst _ _).
Qed.

Lemma wp_processNextInotifyEvent fd firstTry ev evs s :
  dt_ok (glob s) → events_ok (ev :: evs) →
  wp (processNextInotifyEvent fd (events_buf (ev :: evs)) (Z.of_nat (length (events_buf (ev :: evs)))) firstTry)
    (λ x s', branch_post fd firstTry ev evs s (fst x, inl (snd x)) s') E_dt s.
Proof.
  intros Hok [[Hwf Hnm] He]%Forall_cons. pose proof (length_put_event _ Hwf) as Hlen.
  change (events_buf (ev :: evs)) with (put_event ev ++ events_buf evs).
  eapply wp_processNext_buf; [done..|by apply get_put_event| |].
  - by destruct (ev_len ev =? 0).
  - apply drop_app_length'. lia.
Qed.
End Specs.

(** ** A bufferful of events *)

Definition is_read (c : call * reply) : bool := match c with (Cread _ _, _) => true | _ => false end.
Definition reads (tr : list event) : nat := length (filter is_read (wcalls tr)).

Definition ends_in_moved_from (evs : list inotify_event) : Prop :=
  ∃ ev, last evs = Some ev ∧ kind_of (ev_mask ev) = MovedFrom.

(** What read(2) on an inotify descriptor gives: whole events, at least one.
    After [k] reads no more batch of events is cut between the two halves of a
    rename. *)
Class EventSource `{os} (k : nat) := read_events :
  ∀ tr fd n, 0 < fd →
    let r := kern tr (Cread fd n) in
    rv r = -1 ∨ ∃ evs, events_ok evs ∧ rdata r = events_buf evs ∧ rv r = strlen (rdata r) ∧
      rv r <= n ∧ ((k <= reads tr)%nat → ¬ ends_in_moved_from evs).

Lemma events_buf_app a b : events_buf (a ++ b) = events_buf a ++ events_buf b.
Proof. unfold events_buf. by rewrite fmap_app, join_app. Qed.

Lemma events_buf_nil evs : events_ok evs → events_buf evs = [] → evs = [].
Proof.
  intros He Hb. destruct evs as [|ev evs]; [done|]. apply Forall_cons in He as [[Hwf _] _].
  pose proof (length_put_event _ Hwf). pose proof (ev_size_pos _ Hwf).
  apply (f_equal length) in Hb. change (events_buf (ev :: evs)) with (put_event ev ++ events_buf evs) in Hb.
  rewrite length_app in Hb. simpl in Hb. lia.
Qed.

Lemma reads_wcalls tr tr' cs :
  wcalls tr' = wcalls tr ++ cs → reads tr' = (reads tr + length (filter is_read cs))%nat.
Proof. intros H. unfold reads. by rewrite H, filter_app, length_app. Qed.

Lemma no_reads {A} (P : A → call * reply → Prop) l cs :
  (∀ a c, P a c → is_read c = false) → Forall2 P l cs → filter is_read cs = [].
Proof.
  intros HP. induction 1 as [|a c l cs Hc _ IH]; [done|].
  rewrite filter_cons. case_decide as Hd; [|done]. by rewrite (HP a c Hc) in Hd.
Qed.

Lemma adds_no_reads roots fd dirs cs : Forall2 (adds roots fd) dirs cs → filter is_read cs = [].
Proof. apply no_reads. by intros p [c r] [[= ->] _]. Qed.

Lemma removes_no_reads fd ds cs : Forall2 (removes fd) ds cs → filter is_read cs = [].
Proof. apply no_reads. by intros p [c r] [[= ->] _]. Qed.

Lemma outcome_no_reads r0 r fd ft ev evs m cs fd' n m' :
  event_outcome r0 r fd ft ev evs m cs fd' n m' → filter is_read cs = [].
Proof.
  destruct 1 as [cs1 cs2 dirs fd' _ Hl F| | | | |? ? ? ? ? ? (? & ? & _)| |? ? ? ? ? (? & ? & _)|];
    [|by eapply adds_no_reads|done|done|done|by eapply removes_no_reads|done|by eapply removes_no_reads|done].
  rewrite filter_app, (adds_no_reads _ _ _ _ F), app_nil_r.
  destruct Hl as [[-> _]|[[-> _]|[[-> _]|(ds & cs' & d & x & F' & -> & _)]]]; [done..|].
  by rewrite filter_app, (removes_no_reads _ _ _ F').
Qed.

(** The event a short read of which is processed again: all its bytes but the
    last, a NUL. *)
Lemma c_str_removelast s n :
  NUL ∉ s → c_str (take (length s + n) (s ++ replicate (Datatypes.S n) NUL)) = s.
Proof.
  intros Hs. rewrite take_app_ge by lia. replace (length s + n - length s)%nat with n by lia.
  rewrite take_replicate, Nat.min_l by lia.
  destruct n; simpl; [|by apply c_str_text].
  rewrite app_nil_r. induction s as [|c s IH]; [done|]. apply not_elem_of_cons in Hs as [Hc Hs].
  simpl. rewrite decide_False by done. by rewrite IH.
Qed.

Lemma get_event_short ev :
  event_wf ev → 0 < ev_len ev →
  get_event (take (Z.to_nat (ev_size ev - 1)) (put_event ev)) = Some ev.
Proof.
  intros Hwf Hl. pose proof (ev_size_pos _ Hwf). pose proof (length_put_event _ Hwf) as Hlen.
  pose proof (get_put_event ev [] Hwf) as Hg. rewrite app_nil_r in Hg.
  destruct (Z.eqb_spec (ev_len ev) 0) as [|_]; [lia|].
  unfold get_event in *.
  change SIZEOF_INOTIFY_EVENT with 16 in *. unfold ev_size in *.
  change SIZEOF_INOTIFY_EVENT with 16 in *.
  destruct (Z.ltb_spec (Z.of_nat (length (put_event ev))) 16); [done|].
  destruct (Z.ltb_spec (Z.of_nat (length (take (Z.to_nat (16 + ev_len ev - 1)) (put_event ev)))) 16) as [E|E].
  { rewrite length_take in E. lia. }
  rewrite <-Hg. clear Hg.
  replace (Z.to_nat (16 + ev_len ev - 1)) with (16 + (Z.to_nat (ev_len ev) - 1))%nat by lia.
  set (n := (Z.to_nat (ev_len ev) - 1)%nat).
  assert (c_str (drop 16 (take (16 + n) (put_event ev))) = c_str (drop 16 (put_event ev))) as ->; [|done].
  change (drop 16 (put_event ev)) with
    (ev_name ev ++ replicate (Z.to_nat (ev_len ev) - length (ev_name ev)) NUL).
  change (drop 16 (take (16 + n) (put_event ev))) with
    (take n (ev_name ev ++ replicate (Z.to_nat (ev_len ev) - length (ev_name ev)) NUL)).
  pose proof (wf_pad _ Hwf) as Hp. unfold strlen in Hp.
  assert (∃ i, n = (length (ev_name ev) + i)%nat) as [i Hi]
    by (exists (n - length (ev_name ev))%nat; lia).
  replace (Z.to_nat (ev_len ev) - length (ev_name ev))%nat with (Datatypes.S i) by lia.
  rewrite Hi, c_str_removelast by apply Hwf.
  change (replicate (Datatypes.S i) NUL) with (NUL :: replicate i NUL). by rewrite c_str_text by apply Hwf.
Qed.

Section Buffers.
Context {k : nat} `{AddWatch} {HE : EventSource k}.
Implicit Types s : st dtree.

(** What the loop has at hand: whole events, or (after an interrupted read)
    one IN_MOVED_FROM event less its last byte, to be tried for the last time. *)
Inductive pending (firstTry : bool) (s : st dtree) : cstr → Prop :=
  | P_whole evs :
      events_ok evs → Z.of_nat (length (events_buf evs)) <= INOTIFY_READ_BUF_LEN →
      ((k < reads (trace s))%nat → ends_in_moved_from evs → firstTry = false ∧ (length evs <= 1)%nat) →
      pending firstTry s (events_buf evs)
  | P_short ev :
      event_wf ev → named ev → kind_of (ev_mask ev) = MovedFrom → firstTry = false →
      pending firstTry s (take (Z.to_nat (ev_size ev - 1)) (put_event ev)).

Definition turn_inv (x : Z * cstr * bool) (s : st dtree) : Prop :=
  0 < fst (fst x) ∧ dt_ok (glob s) ∧ pending (snd x) s (snd (fst x)).

(** Every turn consumes an event or reads once more. *)
Definition turn_measure (x : Z * cstr * bool) (s : st dtree) : nat :=
  ((k + 1 - reads (trace s)) * (Z.to_nat INOTIFY_READ_BUF_LEN + 1) + length (snd (fst x)))%nat.

Lemma outcome_consumes r0 r fd ft ev evs m cs fd' n m' :
  event_outcome r0 r fd ft ev evs m cs fd' n m' →
  (n = 2 ^ 64 - 1 ∧ kind_of (ev_mask ev) = MovedFrom ∧ evs = [] ∧ ft = true) ∨
  n = INOTIFY_READ_BUF_LEN ∨ n = ev_size ev ∨
  ∃ ev2 evs', evs = ev2 :: evs' ∧ n = ev_size ev + ev_size ev2.
Proof.
  destruct 1 as [| | | |ev2 ? ? ? Hp| | | |]; auto. right; right; right.
  destruct evs as [|ev2' evs']; [done|]. simpl in Hp. destruct (_ && _); simplify_eq. eauto.
Qed.

Lemma outcome_fd r0 r fd ft ev evs m cs fd' n m' :
  event_outcome r0 r fd ft ev evs m cs fd' n m' → 0 < fd → 0 < fd'.
Proof. by destruct 1. Qed.

Lemma drop_event ev evs :
  event_wf ev → drop (Z.to_nat (ev_size ev)) (events_buf (ev :: evs)) = events_buf evs.
Proof.
  intros Hwf. pose proof (length_put_event _ Hwf).
  change (events_buf (ev :: evs)) with (put_event ev ++ events_buf evs). apply drop_app_length'. lia.
Qed.

(** What is left when an event was consumed: a tail of the events. *)
Lemma consumed_tail ev evs n :
  events_ok (ev :: evs) → Z.of_nat (length (events_buf (ev :: evs))) <= INOTIFY_READ_BUF_LEN →
  n = INOTIFY_READ_BUF_LEN ∨ n = ev_size ev ∨ (∃ ev2 evs', evs = ev2 :: evs' ∧ n = ev_size ev + ev_size ev2) →
  0 < n < 2 ^ 31 ∧
  ∃ evs', evs' `suffix_of` ev :: evs ∧ drop (Z.to_nat n) (events_buf (ev :: evs)) = events_buf evs'.
Proof.
  intros [[Hwf _] He]%Forall_cons Hl Hn. pose proof (ev_size_pos _ Hwf).
  destruct Hn as [->|[->|(ev2 & evs' & -> & ->)]].
  - split; [done|]. exists []. split; [apply suffix_nil|]. apply drop_ge. lia.
  - split; [lia|]. exists evs. split; [by apply suffix_cons_r|]. by apply drop_event.
  - apply Forall_cons in He as [[Hwf2 _] He]. pose proof (ev_size_pos _ Hwf2). split; [lia|].
    exists evs'. split; [by do 2 apply suffix_cons_r|].
    rewrite Z2Nat.inj_add by lia. rewrite <-drop_drop, drop_event by done. by apply drop_event.
Qed.

Lemma ends_suffix evs evs' :
  evs' `suffix_of` evs → ends_in_moved_from evs' → ends_in_moved_from evs.
Proof.
  intros [l ->] (ev & Hl & Hk). exists ev. split; [|done].
  destruct evs' as [|e evs'] using rev_ind; [done|].
  rewrite last_snoc in Hl. simplify_eq. by rewrite app_assoc, last_snoc.
Qed.

(** Reading behind an unpaired IN_MOVED_FROM. *)
Lemma wp_read_more fd ev s Q :
  0 < fd → dt_ok (glob s) → event_wf ev → named ev → kind_of (ev_mask ev) = MovedFrom → (reads (trace s) <= k)%nat →
  (∀ rest s', dt_ok (glob s') → pending false s' rest → reads (trace s') = Datatypes.S (reads (trace s)) →
    Z.of_nat (length rest) <= INOTIFY_READ_BUF_LEN → Q rest s') →
  wp (read_more fd (events_buf [ev])) Q E_dt s.
Proof.
  intros Hfd Hok Hwf Hnm Hk HR HQ. pose proof (ev_size_pos _ Hwf) as Hsz.
  assert (events_buf [ev] = put_event ev) as Eb by exact (app_nil_r (put_event ev)).
  pose proof (length_put_event _ Hwf) as Hlen. unfold read_more. rewrite Eb, Hlen.
  apply wp_bind, wp_sys, wp_bind, wp_sys. cbn [glob errno trace].
  set (tr := trace s ++ _). set (r := kern tr _).
  pose proof (read_events tr fd (INOTIFY_READ_BUF_LEN - ev_size ev) Hfd) as Hr. fold r in Hr.
  assert (reads tr = reads (trace s)) as Ht
    by (unfold reads, tr; by rewrite wcalls_snoc_other).
  apply wp_bind, wp_get_errno, wp_bind, wp_sys, wp_bind, wp_set_errno. cbn [glob errno trace].
  set (e := if rv r =? -1 then _ else _).
  set (s2 := St (glob s) e _).
  assert (wcalls (trace s2) = wcalls (trace s) ++ [(Cread fd (INOTIFY_READ_BUF_LEN - ev_size ev), r)]) as W2.
  { unfold s2. simpl. rewrite wcalls_snoc_other by done.
    rewrite (wcalls_snoc _ _ (Cread fd (INOTIFY_READ_BUF_LEN - ev_size ev), r)) by done.
    unfold tr. by rewrite wcalls_snoc_other. }
  assert (reads (trace s2) = Datatypes.S (reads (trace s))) as R2.
  { rewrite (reads_wcalls _ _ _ W2). simpl. lia. }
  destruct (_ && _) eqn:Eerr.
  { apply wp_bind, wp_bind, wp_get_errno, wp_out. intros s3 (G3 & _). apply wp_stop.
    split; [by rewrite G3|done]. }
  destruct (Z.eqb_spec (rv r) 0) as [E0|E0].
  { apply wp_bind, wp_out. intros s3 (G3 & _). apply wp_stop. split; [by rewrite G3|done]. }
  assert (∀ s', wcalls (trace s') = wcalls (trace s2) → reads (trace s') = Datatypes.S (reads (trace s))) as Hreads
    by (intros s' W'; unfold reads in *; by rewrite W').
  cbn zeta in Hr. destruct (negb (e =? -1)) eqn:Eneg.
  - apply wp_bind, wp_upd, wp_bind, wp_get, wp_bind, wp_log. cbn [glob errno trace]. intros s3 (G3 & _ & W3).
    apply wp_ret. destruct Hr as [Hr|(evs & He & Hd & Hrv & Hle & Hends)].
    + rewrite Hr, take_app_le by lia. apply HQ; [by rewrite G3; split; apply Hok| |by apply Hreads|].
      * by apply P_short.
      * rewrite length_take. change INOTIFY_READ_BUF_LEN with 27200. lia.
    + unfold strlen in Hrv. rewrite take_ge by (rewrite length_app; lia).
      rewrite Hd in *. change (put_event ev ++ events_buf evs) with (events_buf (ev :: evs)).
      assert (Z.of_nat (length (events_buf (ev :: evs))) <= INOTIFY_READ_BUF_LEN).
      { change (events_buf (ev :: evs)) with (put_event ev ++ events_buf evs). rewrite length_app. lia. }
      apply HQ; [by rewrite G3; split; apply Hok| |by apply Hreads|done].
      apply P_whole; [by apply Forall_cons|done|]. rewrite (Hreads _ W3). intros Hlt He1. exfalso.
      apply Hends; [rewrite Ht; lia|]. destruct He1 as (e1 & Hl1 & Hk1). exists e1. split; [|done].
      destruct evs as [|e2 evs]; [simpl in Hrv; lia|done].
  - apply wp_bind, wp_log. intros s3 (G3 & _ & W3). apply wp_ret. rewrite <-Eb.
    apply HQ; [by rewrite G3| |by apply Hreads|rewrite Eb, Hlen; change INOTIFY_READ_BUF_LEN with 27200; lia].
    apply P_whole; [by apply Forall_singleton|rewrite Eb, Hlen; change INOTIFY_READ_BUF_LEN with 27200; lia|].
    by simpl.
Qed.

Lemma wrap_size n : 0 < n < 2 ^ 31 → wrap_s 32 n = n.
Proof. intros Hn. apply wrap_s_id; lia. Qed.
Lemma pending_nonempty ft s x rest c :
  pending ft s x → x = c :: rest →
  (∃ ev evs, x = events_buf (ev :: evs) ∧ events_ok (ev :: evs) ∧
     Z.of_nat (length (events_buf (ev :: evs))) <= INOTIFY_READ_BUF_LEN ∧
     ((k < reads (trace s))%nat → ends_in_moved_from (ev :: evs) → ft = false ∧ evs = [])) ∨
  (∃ ev, event_wf ev ∧ named ev ∧ kind_of (ev_mask ev) = MovedFrom ∧ ft = false ∧
     x = take (Z.to_nat (ev_size ev - 1)) (put_event ev)).
Proof.
  intros [evs He Hl Hr|ev ? ? ? ?] Hx; [left|right; by exists ev].
  destruct evs as [|ev evs]; [done|]. exists ev, evs. split_and!; [done..|].
  intros H1 H2. destruct (Hr H1 H2) as [? Hlen]. split; [done|]. destruct evs; [done|simpl in Hlen; lia].
Qed.

Lemma wp_turn_whole fd ev evs ft s :
  0 < fd → dt_ok (glob s) → events_ok (ev :: evs) → Z.of_nat (length (events_buf (ev :: evs))) <= INOTIFY_READ_BUF_LEN →
  ((k < reads (trace s))%nat → ends_in_moved_from (ev :: evs) → ft = false ∧ evs = []) →
  wp (events_turn (fd, events_buf (ev :: evs), ft)) (λ r s', match r with
    | inl x' => turn_inv x' s' ∧ (turn_measure x' s' < turn_measure (fd, events_buf (ev :: evs), ft) s)%nat
    | inr fd' => 0 < fd' ∧ dt_ok (glob s')
    end) E_dt s.
Proof.
  intros Hfd Hok He Hl Hr. pose proof He as [[Hwf Hnm] _]%Forall_cons. pose proof (ev_size_pos _ Hwf) as Hsz.
  change (events_turn (fd, events_buf (ev :: evs), ft)) with
    (r ← processNextInotifyEvent fd (events_buf (ev :: evs)) (Z.of_nat (length (events_buf (ev :: evs)))) ft;
     let evLen := wrap_s 32 (snd r) in
     if evLen >? 0 then mret (inl (fst r, drop (Z.to_nat evLen) (events_buf (ev :: evs)), true))
     else
       rest ← read_more (fst r) (events_buf (ev :: evs));
       mret (inl (fst r, rest, false)) : D (Z * cstr * bool + Z)).
  apply wp_bind. eapply wp_mono; [by apply wp_processNextInotifyEvent| |done].
  intros [fd' n] s1 (Hok1 & cs & W1 & Ho). simpl in Ho.
  assert (reads (trace s1) = reads (trace s)) as HR.
  { rewrite (reads_wcalls _ _ _ W1), (outcome_no_reads _ _ _ _ _ _ _ _ _ _ _ Ho). simpl. lia. }
  pose proof (outcome_fd _ _ _ _ _ _ _ _ _ _ _ Ho Hfd) as Hfd'. cbn zeta. cbn [fst snd].
  destruct (outcome_consumes _ _ _ _ _ _ _ _ _ _ _ Ho) as [(-> & Hk & -> & ->)|Hn].
  - assert (Hle : (reads (trace s) <= k)%nat).
    { destruct (decide (reads (trace s) <= k)%nat) as [|Hgt]; [done|].
      destruct (Hr ltac:(lia)) as [? _]; [by exists ev|done]. }
    change (wrap_s 32 (2 ^ 64 - 1) >? 0) with false. apply wp_bind, wp_read_more; [done..|by rewrite HR|].
    intros rest s2 Hok2 Hp HR2 Hl2. apply wp_ret. split; [by split_and!|].
    unfold turn_measure. cbn [fst snd]. rewrite HR2, HR.
    replace (k + 1 - Datatypes.S (reads (trace s)))%nat with (k - reads (trace s))%nat by lia.
    replace (k + 1 - reads (trace s))%nat with (Datatypes.S (k - reads (trace s)))%nat by lia.
    rewrite Nat.mul_succ_l. lia.
  - destruct (consumed_tail ev evs n He Hl Hn) as (Hn1 & evs' & Hs & Hd).
    rewrite wrap_size by lia. destruct (Z.gtb_spec n 0) as [_|]; [|lia].
    rewrite Hd. apply wp_ret.
    assert (Z.of_nat (length (events_buf evs')) <= INOTIFY_READ_BUF_LEN) as Hl'
      by (rewrite <-Hd, length_drop; lia).
    assert ((length (events_buf evs') < length (events_buf (ev :: evs)))%nat) as Hlt.
    { rewrite <-Hd, length_drop. pose proof (length_put_event _ Hwf).
      change (events_buf (ev :: evs)) with (put_event ev ++ events_buf evs). rewrite length_app. lia. }
    split; [split_and!; [done|done|]|].
    + apply P_whole; [|done|].
      * destruct Hs as [l Hs]. unfold events_ok in *. rewrite Hs in He. by apply Forall_app in He as [_ ?].
      * rewrite HR. intros H1 H2. exfalso. destruct (Hr H1 (ends_suffix _ _ Hs H2)) as [_ ->].
        destruct Hs as [[|? l] Hs]; [change ([ev] = evs') in Hs; subst evs'; lia|].
        injection Hs as _ Hs. symmetry in Hs. apply app_eq_nil in Hs as [_ ->]. by destruct H2 as (? & ? & _).
    + unfold turn_measure. cbn [fst snd]. rewrite HR. lia.
Qed.

Lemma wp_turn_short fd ev s :
  0 < fd → dt_ok (glob s) → event_wf ev → named ev → kind_of (ev_mask ev) = MovedFrom →
  wp (events_turn (fd, take (Z.to_nat (ev_size ev - 1)) (put_event ev), false)) (λ r s', match r with
    | inl x' => turn_inv x' s' ∧ (turn_measure x' s' <
                  turn_measure (fd, take (Z.to_nat (ev_size ev - 1)) (put_event ev), false) s)%nat
    | inr fd' => 0 < fd' ∧ dt_ok (glob s')
    end) E_dt s.
Proof.
  intros Hfd Hok Hwf Hnm Hk. pose proof (ev_size_pos _ Hwf) as Hsz. pose proof (length_put_event _ Hwf) as Hlen.
  pose proof (Hnm (or_intror (or_introl Hk))) as Hpos.
  set (buf := take _ _).
  assert (length buf = Z.to_nat (ev_size ev - 1)) as Hlb by (unfold buf; rewrite length_take; lia).
  assert (∃ c rest, buf = c :: rest) as (c & rest & Ebuf) by (destruct buf; [simpl in Hlb; lia|eauto]).
  unfold events_turn. rewrite Ebuf at 1. apply wp_bind.
  eapply wp_mono; [eapply (wp_processNext_buf fd false ev ev [] buf)| |done]; [done..| | | | |].
  - constructor.
  - by apply get_event_short.
  - by destruct (Z.eqb_spec (ev_len ev) 0); [lia|].
  - apply drop_ge. lia.
  - intros [fd' n] s1 (Hok1 & cs & W1 & Ho). simpl in Ho. cbn zeta. cbn [fst snd].
    assert (reads (trace s1) = reads (trace s)) as HR.
    { rewrite (reads_wcalls _ _ _ W1), (outcome_no_reads _ _ _ _ _ _ _ _ _ _ _ Ho). simpl. lia. }
    pose proof (outcome_fd _ _ _ _ _ _ _ _ _ _ _ Ho Hfd) as Hfd'.
    destruct (outcome_consumes _ _ _ _ _ _ _ _ _ _ _ Ho) as [(_ & _ & _ & ?)|Hn]; [done|].
    assert (0 < n < 2 ^ 31 ∧ ev_size ev <= n) as [Hn1 Hn2].
    { destruct Hn as [->|[->|(? & ? & ? & _)]]; [|lia|done].
      change INOTIFY_READ_BUF_LEN with 27200. lia. }
    rewrite wrap_size by lia. destruct (Z.gtb_spec n 0) as [_|]; [|lia].
    rewrite drop_ge by lia. apply wp_ret. split; [split_and!; [done|done|]|].
    + apply (P_whole true s1 []); [constructor|done|]. intros _ (? & ? & _). done.
    + unfold turn_measure. cbn [fst snd]. rewrite HR. cbn [length]. rewrite Hlb. lia.
Qed.

Lemma wp_events_turn x s :
  turn_inv x s →
  wp (events_turn x) (λ r s', match r with
    | inl x' => turn_inv x' s' ∧ (turn_measure x' s' < turn_measure x s)%nat
    | inr fd' => 0 < fd' ∧ dt_ok (glob s')
    end) E_dt s.
Proof.
  destruct x as [[fd buf] ft]. intros (Hfd & Hok & Hp). simpl in Hfd, Hp.
  destruct buf as [|c rest] eqn:Er; [by apply wp_ret|].
  destruct (pending_nonempty _ _ _ rest c Hp eq_refl)
    as [(ev & evs & E & ? & ? & ?)|(ev & ? & ? & ? & -> & E)]; rewrite E.
  - by apply wp_turn_whole.
  - by apply wp_turn_short.
Qed.

Lemma wp_processInotifyEvents fd fuel s :
  0 < fd → dt_ok (glob s) →
  ((k + 1) * (Z.to_nat INOTIFY_READ_BUF_LEN + 1) + Z.to_nat INOTIFY_READ_BUF_LEN < fuel)%nat →
  wp (processInotifyEvents fuel fd) (λ fd' s', 0 < fd' ∧ dt_ok (glob s')) E_dt s.
Proof.
  intros Hfd Hok Hf. pose proof (dt_buf _ Hok) as Hb. apply wp_bind, wp_sys. destruct (_ =? -1).
  { apply wp_bind, wp_bind, wp_get_errno, wp_out. intros s1 (G1 & _). apply wp_stop. unfold E_dt; by rewrite G1. }
  apply wp_bind, wp_get. cbn [glob]. set (cnt := if readBufferSize (glob s) >? 0 then _ else _).
  assert (cnt <= INOTIFY_READ_BUF_LEN) as Hcnt by (unfold cnt; by destruct (_ >? _)).
  apply wp_bind, wp_sys. cbn [glob errno trace]. set (tr := trace s ++ _). set (r := kern tr _).
  pose proof (read_events tr fd cnt Hfd) as Hr. fold r in Hr. cbn zeta in Hr.
  destruct (Z.eqb_spec (rv r) (-1)) as [E1|E1].
  { apply wp_bind, wp_bind, wp_get_errno, wp_out. intros s1 (G1 & _). apply wp_stop. unfold E_dt; by rewrite G1. }
  destruct Hr as [?|(evs & He & Hd & Hrv & Hle & Hends)]; [done|].
  destruct (Z.eqb_spec (rv r) 0).
  { apply wp_bind, wp_out. intros s1 (G1 & _). apply wp_stop. unfold E_dt; by rewrite G1. }
  destruct (Z.gtb_spec (strlen (rdata r)) INOTIFY_READ_BUF_LEN); [lia|].
  apply wp_bind, wp_upd, wp_bind, wp_get, wp_bind, wp_log. cbn [glob errno trace]. intros s1 (G1 & _ & W1).
  assert (reads (trace s1) = Datatypes.S (reads tr)) as R1.
  { assert (wcalls (trace s1) = wcalls tr ++ [(Cread fd cnt, r)]) as W2.
    { rewrite W1. by apply wcalls_snoc. }
    rewrite (reads_wcalls _ _ _ W2). simpl. lia. }
  unfold strlen in *. rewrite Hd in *.
  apply (wp_loop turn_inv turn_measure).
  - split_and!; simpl; [done|rewrite G1; by split; apply Hok|]. apply P_whole; [done|lia|].
    rewrite R1. intros Hlt Hm. by destruct Hends; [lia|].
  - unfold turn_measure. cbn [fst snd]. rewrite R1. nia.
  - intros x s2 HI. by apply wp_events_turn.
Qed.
End Buffers.

(** ** The properties *)



(** The bytes of an event are read back as the event, whatever follows
    it. *)
Theorem event_roundtrip ev rest :
  event_wf ev → 0 < ev_len ev → get_event (put_event ev ++ rest) = Some ev.
Proof.
  intros Hwf Hl. rewrite get_put_event by done. destruct (Z.eqb_spec (ev_len ev) 0); [lia|done].
Qed.

(** ** Concrete events *)

(** mv /a/b /a/c, as the kernel reports it. *)
Definition ev_from : inotify_event := InotifyEvent 1 (Z.lor IN_MOVED_FROM IN_ISDIR) 77 16 (str "b").
Definition ev_to : inotify_event := InotifyEvent 1 (Z.lor IN_MOVED_TO IN_ISDIR) 77 16 (str "c").

Lemma mv_ok : events_ok [ev_from; ev_to].
Proof.
  repeat constructor; simpl; try done; try (by right); try (intros H; vm_compute in H; done);
    apply not_elem_of_cons; split; [done|apply not_elem_of_nil|done|apply not_elem_of_nil].
Qed.

(** A kernel that hands out the two events of the rename in one read, or one
    read each. *)
Definition mv_os (together : bool) : os :=
  test_os (λ tr c,
    match c with
    | Cinotify_add_watch _ _ _ => ok (Z.of_nat (length (wcalls tr)) + 10)
    | Cread _ n =>
        if n <? 64 then fail EINVAL else
        match reads tr with
        | O => let bs := events_buf (if together then [ev_from; ev_to] else [ev_from]) in
               Reply (strlen bs) 0 bs []
        | _ => let bs := events_buf [ev_to] in Reply (strlen bs) 0 bs []
        end
    | Cinotify_init => ok 5
    | _ => ok 0
    end).

Lemma mv_os_AddWatch b : @AddWatch (mv_os b).
Proof. split; [intros tr fd p mask; simpl; lia|by right]. Qed.

Lemma mv_os_EventSource b : @EventSource (mv_os b) 1.
Proof.
  intros tr fd n _. simpl. destruct (Z.ltb_spec n 64); [by left|right].
  pose proof mv_ok as [Hf [Ht _]%Forall_cons]%Forall_cons.
  destruct (reads tr); simpl.
  - exists (if b then [ev_from; ev_to] else [ev_from]). split_and!; [|done|done| |intros; lia].
    + destruct b; [apply mv_ok|by apply Forall_singleton].
    + transitivity 64; [by destruct b; vm_compute|done].
  - exists [ev_to]. split_and!; [by apply Forall_singleton|done|done|transitivity 64; [by vm_compute|done]|].
    intros _ (ev & [= <-] & Hk). done.
Qed.



Theorem event_roundtrip_witness :
  get_event (put_event ev_from ++ str "trailing") = Some ev_from.
Proof.
  assert (event_wf ev_from) as Hwf by (by pose proof mv_ok as [[? _] _]%Forall_cons).
  apply (event_roundtrip ev_from (str "trailing") Hwf). reflexivity.
Defined.

(** Both ways the rename ends with /a/b's watch under its new name. *)
Example mv_together :
  let o := mv_os true in
  let r := processInotifyEvents 9 5 (init demo) in
  r.1 = Ret 5 ∧ wlCache (glob r.2) =
    [Watch 1 (str "/a"); empty_slot; Watch 2 (str "/a/c"); Watch 3 (str "/a/bc")] ∧ inotifyReadCnt (glob r.2) = 1.
Proof. by vm_compute. Qed.

Example mv_apart :
  let o := mv_os false in
  let r := processInotifyEvents 9 5 (init demo) in
  r.1 = Ret 5 ∧ wlCache (glob r.2) =
    [Watch 1 (str "/a"); empty_slot; Watch 2 (str "/a/c"); Watch 3 (str "/a/bc")] ∧ inotifyReadCnt (glob r.2) = 2.
Proof. by vm_compute. Qed.
