(* ===== verification/Watcher.v ===== *)
(** homework/hw12/main.c: creations, deletions and moves in the directories
    under one, as inotify reports them. *)
From S2P Require Import Prelude Sys ErrorFns SvmsgFile Dict Procexec InotifyCache InotifyTree InotifyEvents.

Definition IN_DELETE : Z := 512.
Definition BUF_LEN : Z := 32768.
Definition FTW_D : Z := 1.
Definition WATCHED : Z := 960.     (* IN_CREATE | IN_DELETE | IN_MOVED_FROM | IN_MOVED_TO *)

Definition change_text (mask : Z) (name : cstr) : cstr :=
  if tst mask IN_CREATE then str "File/directory created: " ++ name ++ [NL]
  else if tst mask IN_DELETE then str "File/directory deleted: " ++ name ++ [NL]
  else if tst mask IN_MOVED_FROM then str "File/directory moved from: " ++ name ++ [NL]
  else if tst mask IN_MOVED_TO then str "File/directory moved to: " ++ name ++ [NL]
  else [].
Definition event_text (ev : inotify_event) : cstr := change_text (ev_mask ev) (ev_name ev).

Section Programs.
Context {S : Type} `{os}.

(** The function nftw calls on each object, with its type. *)
Definition processFile (inotify_fd : Z) (object : cstr * Z) : M S unit :=
  if object.2 =? FTW_D then
    wd ← sys (Cinotify_add_watch inotify_fd object.1 WATCHED);
    if rv wd =? -1 then perror_exit (str "inotify_add_watch") else mret tt
  else mret tt.

(** [buf] is what [ptr] points to, up to the end of what was read; a name that
    is not there is never printed. *)
Definition event_turn (buf : cstr) : M S (cstr + unit) :=
  match buf with
  | [] => mret (inr tt)
  | _ =>
      match get_event buf with
      | None => stop_with (Undefined "read past the end")
      | Some event =>
          out Stdout (event_text event);;
          mret (inl (drop (Z.to_nat (16 + ev_len event)) buf))
      end
  end.

Definition display_event (inotify_fd : Z) : M S unit :=
  bytesRead ← sys (Cread inotify_fd BUF_LEN);
  if rv bytesRead <=? 0 then perror_exit (str "read") else
  loop (length (data_of bytesRead) + 1) event_turn (data_of bytesRead).

Definition watch_main (fuel : nat) (argv : list cstr) : M S unit :=
  fd ← sys Cinotify_init;
  if rv fd =? -1 then perror_exit (str "inotify_init") else
  match argv with
  | _ :: dir :: _ =>
      w ← sys (Cnftw dir);
      for_each (rents w) (processFile (rv fd));;
      if rv w =? -1 then perror_exit (str "nftw") else
      out Stdout (str "Monitoring directory: " ++ dir ++ [NL]);;
      loop fuel (λ _, display_event (rv fd);; mret (inl tt)) tt
  | _ => stop_with (Undefined "null pointer")
  end.
End Programs.

(** ** Events *)

(** An event that is printed has a name. *)
Definition event_ok (ev : inotify_event) : Prop := event_wf ev ∧ (event_text ev ≠ [] → 0 < ev_len ev).

Lemma change_text_nil mask a b : change_text mask a = [] → change_text mask b = [].
Proof. unfold change_text. by repeat case_match. Qed.

Section Specs.
Context {S : Type} `{os}.
Implicit Types s : st S.

Lemma wp_events evs fuel s (Q : unit → st S → Prop) E :
  Forall event_ok evs → (length evs < fuel)%nat →
  (∀ s', glob s' = glob s → calls (trace s') = calls (trace s) → said Stdout (trace s') = said Stdout (trace s) ++ concat (event_text <$> evs) → Q tt s') →
  wp (loop fuel event_turn (events_buf evs)) Q E s.
Proof using.
  revert fuel s. induction evs as [|ev evs IH]; intros fuel s Hok Hf HQ; (destruct fuel as [|fuel]; [cbn in Hf; lia|]); rewrite loop_S; apply wp_bind.
  - apply wp_ret, wp_ret, HQ; [done|done|]. by rewrite app_nil_r.
  - apply Forall_cons in Hok as [[Hwf Hname] Hok]. change (events_buf (ev :: evs)) with (put_event ev ++ events_buf evs). pose proof (length_put_event ev Hwf) as Hlen. pose proof (ev_size_pos ev Hwf) as Hpos.
    unfold event_turn at 1. destruct (put_event ev ++ events_buf evs) as [|c l] eqn:Eb; [apply (f_equal length) in Eb; rewrite length_app in Eb; cbn [length] in Eb; lia|]. rewrite <-Eb, get_put_event by done.
    apply wp_bind, wp_emit, wp_ret. set (ev' := if ev_len ev =? 0 then _ else _).
    assert (event_text ev' = event_text ev ∧ ev_len ev' = ev_len ev) as [-> ->].
    { unfold ev'. destruct (Z.eqb_spec (ev_len ev) 0) as [E0|E0]; [|done]. split; [|done]. destruct (event_text ev) eqn:Et; [|exfalso; specialize (Hname ltac:(done)); lia].
      unfold event_text in *. cbn. by eapply change_text_nil. }
    rewrite drop_app_length' by (unfold ev_size in Hlen; change SIZEOF_INOTIFY_EVENT with 16 in Hlen; lia). apply (IH fuel); [done|cbn in Hf; lia|]. cbn [glob trace].
    intros s' Hg Hc Hs. apply HQ; [done|by rewrite Hc, calls_snoc_out|]. rewrite Hs, said_out. cbn. by rewrite <-app_assoc.
Qed.

Lemma length_events_buf evs : Forall event_ok evs → (length evs <= length (events_buf evs))%nat.
Proof using.
  induction 1 as [|ev evs [Hwf _] _ IH]; [done|]. change (events_buf (ev :: evs)) with (put_event ev ++ events_buf evs). rewrite length_app. cbn [length].
  pose proof (length_put_event ev Hwf). pose proof (ev_size_pos ev Hwf). lia.
Qed.
End Specs.

(** What was read from inotify, read by read. *)
Definition batches (fd : Z) (tr : list event) : list cstr :=
  omap (λ x, match x.1 with Cread d _ => if (d =? fd) && (0 <? rv x.2) then Some (data_of x.2) else None | _ => None end) (calls tr).

(** A read gives whole events, or fails. *)
Definition gives_events `{os} (fd : Z) : Prop := ∀ tr, let r := kern tr (Cread fd BUF_LEN) in rv r <= 0 ∨ ∃ evs, Forall event_ok evs ∧ data_of r = events_buf evs.

Lemma batches_out fd tr f t : batches fd (tr ++ [Eout f t]) = batches fd tr.
Proof. unfold batches. by rewrite calls_snoc_out. Qed.

(** Every directory nftw meets is watched, or the program ends; then every
    event is told, in order, until a read fails. *)
Theorem watch_correct {S} `{os} fuel prog dir rest fd (s : st S) :
  gives_events fd → batches fd (trace s) = [] → (∀ tr, let r := kern tr Cinotify_init in rv r = -1 ∨ rv r = fd) →
  let told s' := ∃ evss, Forall2 (λ b evs, b = events_buf evs) (batches fd (trace s')) evss ∧
    said Stdout (trace s') = said Stdout (trace s) ++ str "Monitoring directory: " ++ dir ++ [NL] ++ concat (event_text <$> concat evss) in
  wlp (watch_main fuel (prog :: dir :: rest)) (λ _ _, False) (λ t s', t = Exit 1 ∧ (said Stdout (trace s') = said Stdout (trace s) ∨ told s')) told s.
Proof.
  intros Hgives Hb Hinit told. unfold watch_main. apply wlp_bind, wp_wlp, wp_call. intros f s1 Hf _ _ _ T1. specialize (Hinit (trace s)). cbv zeta in Hinit. rewrite <-Hf in Hinit.
  assert (said Stdout (trace s1) = said Stdout (trace s) ∧ batches fd (trace s1) = []) as [S1 B1] by (rewrite T1, said_sys; unfold batches; rewrite calls_snoc_sys, omap_app; fold (batches fd (trace s)); by rewrite Hb).
  assert (∀ A msg (Q : A → st S → Prop) s', said Stdout (trace s') = said Stdout (trace s) ∨ told s' → wp (perror_exit msg) Q (λ t s', t = Exit 1 ∧ (said Stdout (trace s') = said Stdout (trace s) ∨ told s')) s') as Hfail.
  { intros A msg Q s' Hs'. apply wp_bind, wp_bind, wp_get_errno, wp_emit, wp_stop. split; [done|]. unfold told in *. cbn [trace]. rewrite said_app, batches_out. cbn. by rewrite app_nil_r. }
  destruct (Z.eqb_spec (rv f) (-1)) as [E|E]; [apply wp_wlp, Hfail; by left|]. destruct Hinit as [Hinit|Hinit]; [done|]. rewrite Hinit.
  apply wlp_bind, wp_wlp, wp_call. intros w s2 _ _ _ _ T2.
  set (K (s' : st S) := said Stdout (trace s') = said Stdout (trace s) ∧ batches fd (trace s') = []).
  assert (K s2) as K2 by (unfold K; rewrite T2, said_sys; unfold batches; rewrite calls_snoc_sys, omap_app; fold (batches fd (trace s1)); by rewrite B1).
  apply wlp_bind, wp_wlp. eapply wp_mono; [apply (wp_for_each (λ _, K) (processFile fd) (rents w) (λ t s', t = Exit 1 ∧ (said Stdout (trace s') = said Stdout (trace s) ∨ told s')))| |done].
  - exact K2.
  - intros done_ [p ty] todo s3 _ [S3 B3]. unfold processFile. cbn [fst snd]. destruct (ty =? FTW_D); [|by apply wp_ret]. apply wp_bind, wp_call. intros r s4 _ _ _ _ T4.
    assert (said Stdout (trace s4) = said Stdout (trace s) ∧ batches fd (trace s4) = []) as K4 by (rewrite T4, said_sys; unfold batches; rewrite calls_snoc_sys, omap_app; fold (batches fd (trace s3)); by rewrite B3).
    destruct (rv r =? -1); [apply Hfail; left; by destruct K4|by apply wp_ret].
  - intros _ s3 [S3 B3]. destruct (rv w =? -1); [apply wp_wlp, Hfail; by left|]. apply wlp_bind, wp_wlp, wp_emit.
    apply (wlp_loop (λ _ s', told s')).
    + exists []. cbn [trace]. rewrite batches_out, B3. split; [constructor|]. by rewrite said_out, S3, app_nil_r.
    + done.
    + intros [] s4 (evss & Hev & S4). apply wlp_bind, wp_wlp. unfold display_event. apply wp_bind, wp_call. intros r s5 Hr _ _ _ T5. specialize (Hgives (trace s4)). cbv zeta in Hgives. rewrite <-Hr in Hgives.
      assert (batches fd (trace s5) = batches fd (trace s4) ++ if 0 <? rv r then [data_of r] else []) as B5 by (rewrite T5; unfold batches; rewrite calls_snoc_sys, omap_app; cbn; rewrite Z.eqb_refl; by destruct (0 <? rv r)).
      assert (said Stdout (trace s5) = said Stdout (trace s4)) as S5 by by rewrite T5, said_sys.
      destruct (Z.leb_spec (rv r) 0) as [Hle|Hgt].
      * apply Hfail. right. exists evss. rewrite B5, (proj2 (Z.ltb_ge _ _)), app_nil_r by lia. split; [done|]. by rewrite S5.
      * destruct Hgives as [|(evs & Hok & Hd)]; [lia|]. rewrite Hd. apply wp_events; [done|pose proof (length_events_buf evs Hok); lia|]. intros s6 _ C6 S6. apply wp_wlp, wp_ret.
        exists (evss ++ [evs]). split.
        -- assert (batches fd (trace s6) = batches fd (trace s5)) as -> by (unfold batches; by rewrite C6). rewrite B5, (proj2 (Z.ltb_lt _ _)) by done. apply Forall2_app; [done|]. by constructor.
        -- assert (concat (evss ++ [evs]) = concat evss ++ evs) as -> by (rewrite concat_app; cbn; by rewrite app_nil_r).
           by rewrite S6, S5, S4, fmap_app, concat_app, <-!app_assoc.
Qed.

(** ** A session *)

Definition small_events : list inotify_event :=
  [InotifyEvent 1 256 0 16 (str "a.txt"); InotifyEvent 1 64 7 16 (str "old"); InotifyEvent (-1) 16384 0 0 []; InotifyEvent 2 1073741952 7 16 (str "new")].
Definition watch_os : os := test_os (λ tr c,
  match c with
  | Cinotify_init => ok 3
  | Cnftw _ => Reply 0 0 [] [(str "/d", 1); (str "/d/f", 0)]
  | Cread _ _ => match batches 3 tr with [] => let b := events_buf small_events in Reply (strlen b) 0 b [] | _ => ok 0 end
  | _ => ok 1
  end).

Lemma watch_witness :
  ∃ s', @watch_main unit watch_os 5 [str "main"; str "/d"] (init tt) = (Stop (Exit 1), s') ∧
    said Stdout (trace s') = str "Monitoring directory: /d" ++ [NL] ++ str "File/directory created: a.txt" ++ [NL] ++ str "File/directory moved from: old" ++ [NL] ++ str "File/directory moved to: new" ++ [NL].
Proof.
  assert (@gives_events watch_os 3) as Hg.
  { intros tr. cbn. destruct (batches 3 tr); [right; exists small_events|by left]. split; [|vm_compute; reflexivity].
    assert (∀ ev, 0 <= ev_wd ev < 2 ^ 31 ∨ ev_wd ev = -1 ∧ ev_mask ev = IN_Q_OVERFLOW → 0 <= ev_mask ev < 2 ^ 32 → tst (ev_mask ev) IN_IGNORED = false → 0 <= ev_cookie ev < 2 ^ 32 →
      ev_len ev = 16 ∧ (NUL ∉ ev_name ev) ∧ strlen (ev_name ev) < 16 ∨ ev_len ev = 0 ∧ ev_name ev = [] ∧ event_text ev = [] → event_ok ev) as Hev.
    { intros ev Hwd Hm Hi Hc Hn. split; [split|]; [tauto|done|congruence|done|unfold NAME_MAX; lia| | |].
      - destruct Hn as [(_ & H & _)|(_ & -> & _)]; [done|by apply not_elem_of_nil].
      - destruct Hn as [(-> & _ & H)|(-> & -> & _)]; [by right|by left].
      - destruct Hn as [(-> & _)|(_ & _ & ->)]; [lia|done]. }
    repeat (apply Forall_cons; split; [apply Hev; cbn; try lia; try reflexivity|]); [..|constructor].
    all: first [left; split; [reflexivity|]; split; [apply (bool_decide_unpack _); vm_compute; exact I|vm_compute; reflexivity]|right; split; [reflexivity|]; split; reflexivity]. }
  pose proof (@watch_correct unit watch_os 5 (str "main") (str "/d") [] 3 (init tt) Hg eq_refl (λ _, or_intror eq_refl)) as H. cbv zeta in H.
  destruct (wlp_run_stop _ _ _ _ _ (Exit 1) H) as (s' & Hrun & _ & _); [vm_compute; reflexivity|]. exists s'. split; [exact Hrun|].
  apply (f_equal (λ x, said Stdout (trace x.2))) in Hrun. cbn [snd] in Hrun. rewrite <-Hrun. vm_compute. reflexivity.
Defined.
