(* ===== verification/InotifyMain.v ===== *)
(** The command line, the interactive commands and the main loop of
    tlpi-book/inotify/inotify_dtree.c. *)
From S2P Require Import Prelude Sys GetNum InotifyCache InotifyTree InotifyEvents.

Definition MAX_LINE : Z := 100.

(** [sscanf (line, "%c %s\n", &cmd, arg)] on a nonempty line: the first
    character, and the next word if there is one (otherwise [arg] keeps what
    it held, nothing). *)
Fixpoint word (s : cstr) : cstr :=
  match s with
  | c :: r => if isspace c then [] else c :: word r
  | [] => []
  end.
Definition scan_command (line : cstr) : option (ascii * option cstr) :=
  match line with
  | [] => None
  | cmd :: r =>
      match word (skip_spaces r) with
      | [] => Some (cmd, None)
      | arg => Some (cmd, Some arg)
      end
  end.

(** The initial values of the static variables. *)
Definition statics : dtree := Dtree 0 false false 0 None false false 0 [] [] 0 [] 0 0 0 0.

Section Functions.
Context `{os}.

(** The variable [arg] of [executeCommand]. *)
Definition the_arg (arg : option cstr) : D cstr :=
  match arg with
  | Some a => mret a
  | None => stop_with (Undefined "arg is used uninitialised")
  end.

Definition on_off (b : bool) : cstr := if b then str "on" ++ [NL] else str "off" ++ [NL].

(** Command c or C: one turn of its loop, counting entries and failures. *)
Definition verify_slot (verbose : bool) (j : nat) (x : Z * Z) : D (Z * Z) :=
  let '(cnt, failures) := x in
  w ← at_slot j;
  if wd w >=? 0 then
    r ← sys (Clstat (path w));
    if rv r =? -1 then
      e ← get_errno;
      when verbose (logMessage VB_BASIC (str "stat: [slot = " ++ dec (Z.of_nat j) ++ str "; wd = " ++
        dec (wd w) ++ str "] " ++ path w ++ str ": " ++ strerror e ++ [NL]));;
      mret (cnt, failures + 1)
    else if negb (S_ISDIR (st_mode r)) then
      when verbose (logMessage 0 (path w ++ str " is not a directory" ++ [NL]));;
      stop_with (Exit 1)
    else
      when verbose (logMessage VB_NOISY (str "OK: [slot = " ++ dec (Z.of_nat j) ++ str "; wd = " ++
        dec (wd w) ++ str "] " ++ path w ++ [NL]));;
      mret (cnt + 1, failures)
  else mret (cnt, failures).

(** Command l: one turn of its loop. *)
Definition list_slot (j : nat) (cnt : Z) : D Z :=
  w ← at_slot j;
  if wd w >=? 0 then
    logMessage 0 (dec (Z.of_nat j) ++ str ": " ++ dec (wd w) ++ str " " ++ path w ++ [NL]);;
    mret (cnt + 1)
  else mret cnt.

Definition command_help (cmd : ascii) : cstr :=
  str "Unrecognized command: " ++ [cmd; NL] ++
  str "Commands:" ++ [NL] ++
  str "0        Rebuild cache" ++ [NL] ++
  str "a path   Add/refresh pathname watches and cache" ++ [NL] ++
  str "c        Verify cached pathnames" ++ [NL] ++
  str "d        Toggle cache dumping" ++ [NL] ++
  str "l        List cached pathnames" ++ [NL] ++
  str "q        Quit" ++ [NL] ++
  str "v [n]    Toggle/set verbose level for messages to stderr" ++ [NL] ++
  str "             0 = no messages" ++ [NL] ++
  str "             1 = basic messages" ++ [NL] ++
  str "             2 = verbose messages" ++ [NL] ++
  str "             3 = basic and verbose messages" ++ [NL] ++
  str "w file   Write directory list to file" ++ [NL] ++
  str "x        Toggle cache checking" ++ [NL] ++
  str "z path   Zap pathname and watches from cache" ++ [NL].

Definition run_dtree_command (inotifyFd : Z) (cmd : ascii) (arg : option cstr) : D Z :=
  if bool_decide (cmd = "a"%char) then
    a ← the_arg arg;
    cnt ← zapSubtree inotifyFd a;
    (if cnt =? 0 then logMessage VB_BASIC (str "Adding new subtree: " ++ a ++ [NL])
     else logMessage VB_BASIC (str "Zapped: " ++ a ++ str ", " ++ dec cnt ++ str " entries" ++ [NL]));;
    watchSubtree inotifyFd a;;
    mret inotifyFd
  else if bool_decide (cmd = "c"%char) || bool_decide (cmd = "C"%char) then
    g ← get;
    r ← for_acc 0 (length (wlCache g)) (verify_slot (bool_decide (cmd = "c"%char))) (0, 0);
    logMessage 0 (str "Successfully verified " ++ dec (fst r) ++ str " entries" ++ [NL]);;
    logMessage 0 (str "Failures: " ++ dec (snd r) ++ [NL]);;
    mret inotifyFd
  else if bool_decide (cmd = "l"%char) then
    g ← get;
    cnt ← for_acc 0 (length (wlCache g)) list_slot 0;
    logMessage VB_BASIC (str "Total entries: " ++ dec cnt ++ [NL]);;
    mret inotifyFd
  else if bool_decide (cmd = "q"%char) then stop_with (Exit 0)
  else if bool_decide (cmd = "v"%char) then
    match arg with
    | Some a =>
        upd (λ g, set_opts (atoi a) (checkCache g) (dumpCache g) g);;
        mret inotifyFd
    | None =>
        upd (λ g, set_opts (Z.b2z (verboseMask g =? 0)) (checkCache g) (dumpCache g) g);;
        g ← get;
        out Stdout (on_off (negb (verboseMask g =? 0)));;
        mret inotifyFd
    end
  else if bool_decide (cmd = "d"%char) then
    upd (λ g, set_opts (verboseMask g) (checkCache g) (negb (dumpCache g)) g);;
    g ← get;
    out Stdout (on_off (dumpCache g));;
    mret inotifyFd
  else if bool_decide (cmd = "x"%char) then
    upd (λ g, set_opts (verboseMask g) (negb (checkCache g)) (dumpCache g) g);;
    g ← get;
    out Stdout (on_off (checkCache g));;
    mret inotifyFd
  else if bool_decide (cmd = "w"%char) then
    a ← the_arg arg;
    r ← sys (Cfopen a);
    if rv r =? -1 then
      perror (str "fopen");;
      stop_with (Undefined "fprintf or fclose on a NULL stream")
    else
      g ← get;
      for_acc 0 (length (wlCache g)) (λ j _,
        w ← at_slot j;
        when (wd w >=? 0) (out (Named a) (path w ++ [NL]))) tt;;
      sys (Cfflush (Named a));;
      mret inotifyFd
  else if bool_decide (cmd = "z"%char) then
    a ← the_arg arg;
    cnt ← zapSubtree inotifyFd a;
    logMessage VB_BASIC (str "Zapped: " ++ a ++ str ", " ++ dec cnt ++ str " entries" ++ [NL]);;
    mret inotifyFd
  else if bool_decide (cmd = "0"%char) then
    sys (Cclose inotifyFd);;
    reinitialize (-1)
  else
    out Stdout (command_help cmd);;
    mret inotifyFd.

Definition executeCommand (inotifyFd : Z) : D Z :=
  r ← sys (Cread 0 MAX_LINE);
  if rv r <=? 0 then
    out Stdout (str "bye!" ++ [NL]);;
    stop_with (Exit 1)
  else
    let line := c_str (take (Z.to_nat (rv r - 1)) (rdata r)) in
    match scan_command line with
    | None => mret inotifyFd
    | Some (cmd, arg) => run_dtree_command inotifyFd cmd arg
    end.

Definition usageError {A} (pname : cstr) : D A :=
  out Stderr (str "Usage: " ++ pname ++ str " [options] directory-path" ++ [NL; NL] ++
    str "    -v lvl   Display logging information" ++ [NL] ++
    str "    -l file  Send logging information to a file" ++ [NL] ++
    str "    -x       Check cache consistency after each operation" ++ [NL] ++
    str "    -d       Dump cache to log after every operation" ++ [NL] ++
    str "    -b size  Set buffer size for read() from inotify FD" ++ [NL] ++
    str "    -a file  Abort when cache inconsistency detected, and create 'stop' file" ++ [NL]);;
  stop_with (Exit 1).

(** One option, as getopt(argc, argv, "a:dxl:v:b:") reports it. *)
Definition main_option (argv0 : cstr) (opt : ascii * cstr) : D unit :=
  let '(c, optarg) := opt in
  if bool_decide (c = "a"%char) then
    upd (λ g, Dtree (verboseMask g) (checkCache g) (dumpCache g) (readBufferSize g) (Some optarg) true
      (logfp g) (inotifyReadCnt g) (wlCache g) (rootDirPaths g) (ignoreRootDirs g) (rootDirStat g)
      (dirCnt g) (ifd g) (reinitCnt g) (overflowCnt g))
  else if bool_decide (c = "x"%char) then
    upd (λ g, set_opts (verboseMask g) true (dumpCache g) g)
  else if bool_decide (c = "d"%char) then
    upd (λ g, set_opts (verboseMask g) (checkCache g) true g)
  else if bool_decide (c = "v"%char) then
    upd (λ g, set_opts (atoi optarg) (checkCache g) (dumpCache g) g)
  else if bool_decide (c = "b"%char) then
    upd (λ g, Dtree (verboseMask g) (checkCache g) (dumpCache g) (atoi optarg) (stopFile g)
      (abortOnCacheProblem g) (logfp g) (inotifyReadCnt g) (wlCache g) (rootDirPaths g)
      (ignoreRootDirs g) (rootDirStat g) (dirCnt g) (ifd g) (reinitCnt g) (overflowCnt g))
  else if bool_decide (c = "l"%char) then
    r ← sys (Cfopen optarg);
    if rv r =? -1 then perror_exit (str "fopen")
    else upd (λ g, Dtree (verboseMask g) (checkCache g) (dumpCache g) (readBufferSize g) (stopFile g)
      (abortOnCacheProblem g) true (inotifyReadCnt g) (wlCache g) (rootDirPaths g)
      (ignoreRootDirs g) (rootDirStat g) (dirCnt g) (ifd g) (reinitCnt g) (overflowCnt g))
  else usageError argv0.

Definition FD_ISSET (fd : Z) (r : reply) : bool := existsb (λ e, snd e =? fd) (rents r).

(** One turn of main's loop; [fuel] is for the loop over the events of a
    buffer. *)
Definition main_turn (argv0 : cstr) (fuel : nat) (inotifyFd : Z) : D Z :=
  r ← sys (Cselect [0; inotifyFd]);
  if rv r =? -1 then perror_exit (str "select") else
  inotifyFd ← (if FD_ISSET 0 r then
                 fd ← executeCommand inotifyFd;
                 out Stdout (argv0 ++ str "> ");;
                 sys (Cfflush Stdout);;
                 mret fd
               else mret inotifyFd);
  if FD_ISSET inotifyFd r then processInotifyEvents fuel inotifyFd else mret inotifyFd.

Definition main (argv0 : cstr) (opts : list (ascii * cstr)) (dirs : list cstr) (fuel turns : nat) : D Empty_set :=
  for_each opts (main_option argv0);;
  match dirs with
  | [] => usageError argv0
  | _ =>
      copyRootDirPaths dirs;;
      inotifyFd ← reinitialize (-1);
      out Stdout (argv0 ++ str "> ");;
      sys (Cfflush Stdout);;
      loop turns (λ fd, fd ← main_turn argv0 fuel fd; mret (inl fd)) inotifyFd
  end.
End Functions.

(** ** Every turn keeps the invariant *)

(** A stop in a state that satisfies the invariant. *)
Definition E_any (t : stop) (s : st dtree) : Prop := dt_ok (glob s).

Section Specs.
Context `{AddWatch}.
Implicit Types s : st dtree.

Lemma wp_weaken {A} (m : D A) Q s : wp m Q E_dt s → wp m Q E_any s.
Proof. intros Hw. eapply wp_mono; [exact Hw|done|]. by intros t s' [? _]. Qed.

Lemma wp_the_arg arg (Q : cstr → st dtree → Prop) s : dt_ok (glob s) → (∀ a, Q a s) → wp (the_arg arg) Q E_any s.
Proof. intros Hok HQ. destruct arg; [by apply wp_ret|by apply wp_stop]. Qed.

(** A loop over the slots whose body keeps the static variables. *)
Lemma wp_slots {A} (body : nat → A → D A) a (Q : A → st dtree → Prop) s :
  dt_ok (glob s) →
  (∀ j a s' w, glob s' = glob s → wlCache (glob s') !! j = Some w →
    wp (body j a) (λ _ s'', glob s'' = glob s) E_any s') →
  (∀ a s', glob s' = glob s → Q a s') →
  wp (for_acc 0 (length (wlCache (glob s))) body a) Q E_any s.
Proof.
  intros Hok Hb HQ. eapply wp_mono; [apply (wp_for_acc (λ _ _ s', glob s' = glob s)); [done|]| |done].
  - intros j b s' Hj G. destruct (lookup_lt_is_Some_2 (wlCache (glob s)) j) as [w Hw]; [lia|].
    eapply Hb; [done|by rewrite G].
  - intros b s' G. by apply HQ.
Qed.

Lemma wp_when_log_glob b vb t (Q : unit → st dtree → Prop) E s :
  (∀ s', glob s' = glob s → Q tt s') → wp (when b (logMessage vb t)) Q E s.
Proof. intros HQ. apply wp_when_log. intros s' (G & _). by apply HQ. Qed.

Lemma wp_verify_slot v j x w s :
  dt_ok (glob s) → wlCache (glob s) !! j = Some w →
  wp (verify_slot v j x) (λ _ s', glob s' = glob s) E_any s.
Proof.
  intros Hok Hw. destruct x as [cnt failures]. eapply wp_bind, wp_at_slot; [done|].
  destruct (wd w >=? 0); [|by apply wp_ret]. apply wp_bind, wp_sys. destruct (_ =? -1).
  - apply wp_bind, wp_get_errno, wp_bind, wp_when_log_glob. intros s' G. by apply wp_ret.
  - destruct (negb _); apply wp_bind, wp_when_log_glob; intros s' G; [|by apply wp_ret].
    apply wp_stop. unfold E_any. by rewrite G.
Qed.

Lemma wp_list_slot j cnt w s :
  wlCache (glob s) !! j = Some w → wp (list_slot j cnt) (λ _ s', glob s' = glob s) E_any s.
Proof.
  intros Hw. eapply wp_bind, wp_at_slot; [done|]. destruct (wd w >=? 0); [|by apply wp_ret].
  apply wp_bind, wp_log. intros s' (G & _). by apply wp_ret.
Qed.

(** What commands leave behind. *)
Definition cmd_post (fd' : Z) (s' : st dtree) : Prop := 0 < fd' ∧ dt_ok (glob s').

Lemma wp_log_end fd vb t s :
  0 < fd → dt_ok (glob s) → wp (logMessage vb t;; mret fd) cmd_post E_any s.
Proof. intros Hfd Hok. apply wp_bind, wp_log. intros s' (G & _). apply wp_ret. split; [done|by rewrite G]. Qed.

Lemma wp_zap_any fd p (Q : Z → st dtree → Prop) s :
  dt_ok (glob s) → (∀ n s', dt_ok (glob s') → Q n s') → wp (zapSubtree fd p) Q E_any s.
Proof.
  intros Hok HQ. apply wp_zapSubtree; [done| |].
  - intros s' n _ (l & cs & G & Hc & _). apply HQ. rewrite G. by apply dt_ok_set_cache.
  - intros s' (l & ds & cs & d & r & G & Hc & _). apply HQ. rewrite G. by apply dt_ok_set_cache.
Qed.

Lemma wp_upd_out fd f t s :
  0 < fd → dt_ok (f (glob s)) →
  wp (upd f;; g ← get; out Stdout (t g);; mret fd) cmd_post E_any s.
Proof.
  intros Hfd Hok. apply wp_bind, wp_upd, wp_bind, wp_get, wp_bind, wp_out.
  intros s' (G & _). apply wp_ret. split; [done|by rewrite G].
Qed.

Lemma wp_cmd_add fd arg s :
  0 < fd → dt_ok (glob s) →
  wp (a ← the_arg arg;
      cnt ← zapSubtree fd a;
      (if cnt =? 0 then logMessage VB_BASIC (str "Adding new subtree: " ++ a ++ [NL])
       else logMessage VB_BASIC (str "Zapped: " ++ a ++ str ", " ++ dec cnt ++ str " entries" ++ [NL]));;
      watchSubtree fd a;;
      mret fd) cmd_post E_any s.
Proof.
  intros Hfd Hok. apply wp_bind, wp_the_arg; [done|]. intros a.
  apply wp_bind, wp_zap_any; [done|]. intros n s1 Hok1. apply wp_bind.
  assert (∀ s2, glob s2 = glob s1 → wp (watchSubtree fd a;; mret fd) cmd_post E_any s2) as Hw.
  { intros s2 G2. apply wp_bind, wp_weaken, wp_watchSubtree; [by rewrite G2|].
    intros s3 H3. apply wp_ret. split; [done|]. eapply grown_ok, H3. by rewrite G2. }
  destruct (n =? 0); apply wp_log; intros s2 (G2 & _); by apply Hw.
Qed.

Lemma wp_cmd_write fd arg s :
  0 < fd → dt_ok (glob s) →
  wp (a ← the_arg arg;
      r ← sys (Cfopen a);
      if rv r =? -1 then
        perror (str "fopen");; stop_with (Undefined "fprintf or fclose on a NULL stream")
      else
        g ← get;
        for_acc 0 (length (wlCache g)) (λ j _,
          w ← at_slot j;
          when (wd w >=? 0) (out (Named a) (path w ++ [NL]))) tt;;
        sys (Cfflush (Named a));;
        mret fd) cmd_post E_any s.
Proof.
  intros Hfd Hok. apply wp_bind, wp_the_arg; [done|]. intros a. apply wp_bind, wp_sys.
  destruct (_ =? -1).
  { apply wp_bind, wp_bind, wp_get_errno, wp_out. intros s1 (G1 & _). apply wp_stop. unfold E_any. by rewrite G1. }
  apply wp_bind, wp_get, wp_bind, wp_slots; [done| |].
  - intros j b s1 w G1 Hw. eapply wp_bind, wp_at_slot; [done|].
    destruct (wd w >=? 0); simpl; [|by apply wp_ret]. apply wp_out. by intros s2 (-> & _).
  - intros b s1 G1. apply wp_bind, wp_sys, wp_ret. split; [done|]. simpl. by rewrite G1.
Qed.

Lemma wp_cmd_zap fd arg s :
  0 < fd → dt_ok (glob s) →
  wp (a ← the_arg arg;
      cnt ← zapSubtree fd a;
      logMessage VB_BASIC (str "Zapped: " ++ a ++ str ", " ++ dec cnt ++ str " entries" ++ [NL]);;
      mret fd) cmd_post E_any s.
Proof.
  intros Hfd Hok. apply wp_bind, wp_the_arg; [done|]. intros a.
  apply wp_bind, wp_zap_any; [done|]. intros n s1 Hok1. by apply wp_log_end.
Qed.

Lemma wp_run_dtree_command fd cmd arg s :
  0 < fd → dt_ok (glob s) → wp (run_dtree_command fd cmd arg) cmd_post E_any s.
Proof.
  intros Hfd Hok. unfold run_dtree_command.
  assert (∀ v c d, dt_ok (set_opts v c d (glob s))) as Hopts by (intros; by split; apply Hok).
  destruct (bool_decide _); [by apply wp_cmd_add|].
  destruct (_ || _).
  { apply wp_bind, wp_get, wp_bind, wp_slots; [done| |].
    - intros j x s1 w G1 Hw. rewrite <-G1. eapply wp_verify_slot; [by rewrite G1|done].
    - intros x s1 G1. apply wp_bind, wp_log. intros s2 (G2 & _). apply wp_log_end; [done|]. by rewrite G2, G1. }
  destruct (bool_decide _).
  { apply wp_bind, wp_get, wp_bind, wp_slots; [done| |].
    - intros j x s1 w G1 Hw. rewrite <-G1. by eapply wp_list_slot.
    - intros x s1 G1. apply wp_log_end; [done|]. by rewrite G1. }
  destruct (bool_decide _); [by apply wp_stop|].
  destruct (bool_decide _).
  { destruct arg; [apply wp_bind, wp_upd, wp_ret; split; [done|apply Hopts]|by apply wp_upd_out]. }
  do 2 (destruct (bool_decide _); [by apply wp_upd_out|]).
  destruct (bool_decide _); [by apply wp_cmd_write|].
  destruct (bool_decide _); [by apply wp_cmd_zap|].
  destruct (bool_decide _).
  - apply wp_bind, wp_sys, wp_weaken, wp_reinitialize; [done|]. intros s1 fd' Hfd' Hr.
    split; [done|]. by eapply rebuilt_ok; [|exact Hr].
  - apply wp_bind, wp_out. intros s1 (G1 & _). apply wp_ret. split; [done|by rewrite G1].
Qed.

Lemma wp_executeCommand fd s :
  0 < fd → dt_ok (glob s) → wp (executeCommand fd) cmd_post E_any s.
Proof.
  intros Hfd Hok. apply wp_bind, wp_sys. destruct (_ <=? 0).
  { apply wp_bind, wp_out. intros s1 (G1 & _). apply wp_stop. unfold E_any. by rewrite G1. }
  cbn zeta. destruct (scan_command _) as [[cmd arg]|]; [by apply wp_run_dtree_command|by apply wp_ret].
Qed.

Lemma wp_main_turn {k} `{!EventSource k} argv0 fuel fd s :
  0 < fd → dt_ok (glob s) →
  ((k + 1) * (Z.to_nat INOTIFY_READ_BUF_LEN + 1) + Z.to_nat INOTIFY_READ_BUF_LEN < fuel)%nat →
  wp (main_turn argv0 fuel fd) cmd_post E_any s.
Proof.
  intros Hfd Hok Hf. apply wp_bind, wp_sys. destruct (_ =? -1).
  { apply wp_bind, wp_bind, wp_get_errno, wp_out. intros s1 (G1 & _). apply wp_stop. unfold E_any. by rewrite G1. }
  assert (∀ fd' s1, 0 < fd' → dt_ok (glob s1) → ∀ b : bool,
    wp (if b then processInotifyEvents fuel fd' else mret fd') cmd_post E_any s1) as Hev.
  { intros fd' s1 Hfd' Hok1 b. destruct b; [|by apply wp_ret].
    by apply wp_weaken, (wp_processInotifyEvents (k:=k)). }
  apply wp_bind. destruct (FD_ISSET 0 _); [|by apply wp_ret, Hev].
  apply wp_bind. eapply wp_mono; [by apply wp_executeCommand| |done].
  intros fd' s1 [Hfd' Hok1]. apply wp_bind, wp_out. intros s2 (G2 & _).
  apply wp_bind, wp_sys, wp_ret. apply Hev; [done|]. simpl. by rewrite G2.
Qed.

(** A server loop: it stops, or goes on in its invariant. *)
Lemma wp_forever {A} (I : A → st dtree → Prop) (body : A → D A) E turns a s :
  (∀ a s, I a s → wp (body a) I E s) → I a s →
  match loop turns (λ a, a ← body a; mret (inl a)) a s with
  | (Ret v, _) => match (v : Empty_set) with end
  | (Stop t, s') => E t s'
  | (NoFuel, s') => ∃ a', I a' s'
  end.
Proof.
  intros Hb. revert a s; induction turns as [|n IH]; intros a s HI; simpl; [eauto|].
  specialize (Hb a s HI). unfold wp, mbind, M_bind in *.
  destruct (body a s) as [[a'|t|] s']; [|done..]. simpl. by apply IH.
Qed.
(** Before the loop: the options, the roots, the first cache. *)
Definition fresh (g : dtree) : Prop := wlCache g = [] ∧ readBufferSize g <= INOTIFY_READ_BUF_LEN.

Definition opt_ok (opt : ascii * cstr) : Prop :=
  fst opt = "b"%char → atoi (snd opt) <= INOTIFY_READ_BUF_LEN.

Abbreviation E_start := (λ (_ : stop) (_ : st dtree), True).

Lemma wp_usageError {A} pname (Q : A → st dtree → Prop) s : wp (usageError pname) Q E_start s.
Proof. apply wp_bind, wp_out. intros s1 _. by apply wp_stop. Qed.

Lemma wp_main_option argv0 opt s :
  opt_ok opt → fresh (glob s) → wp (main_option argv0 opt) (λ _ s', fresh (glob s')) E_start s.
Proof.
  destruct opt as [c optarg]. intros Ho [Hc Hb]. unfold main_option.
  do 4 (destruct (bool_decide _); [by apply wp_upd|]).
  destruct (bool_decide (c = "b"%char)) eqn:Eb.
  { apply bool_decide_eq_true in Eb. apply wp_upd. split; [done|]. by apply Ho. }
  destruct (bool_decide (c = "l"%char)); [|apply wp_usageError].
  apply wp_bind, wp_sys. destruct (_ =? -1); [|by apply wp_upd].
  apply wp_bind, wp_bind, wp_get_errno, wp_out. intros s1 _. by apply wp_stop.
Qed.

Lemma zapped_none argv : zapped (Some <$> argv) = 0.
Proof. by induction argv. Qed.

Lemma wp_startup argv0 opts dirs s :
  Forall opt_ok opts → fresh (glob s) →
  wp (for_each opts (main_option argv0);; copyRootDirPaths dirs;; reinitialize (-1))
    (λ fd s', 0 < fd ∧ dt_ok (glob s') ∧ rootDirPaths (glob s') = Some <$> dirs) E_start s.
Proof.
  intros Ho Hf. apply wp_bind. eapply wp_mono; [apply (wp_for_each (λ _ s', fresh (glob s')))| |done]; [done| |].
  - intros prev opt todo s1 -> Hf1. apply wp_main_option; [|done].
    by apply Forall_app in Ho as [_ [? _]%Forall_cons].
  - intros [] s1 [Hc1 Hb1]. apply wp_bind. eapply wp_mono; [apply (wp_copyRootDirPaths _ (λ _ s2,
      copied dirs (length dirs) (glob s2) ∧ ignoreRootDirs (glob s2) = 0 ∧ kept (glob s2) = kept (glob s1))); auto| |done].
    intros [] s2 ((Hp & _ & _) & Hi & Hk). injection Hk as Hw Hrb.
    rewrite Nat.sub_diag, firstn_all, app_nil_r in Hp.
    eapply wp_mono; [apply (wp_reinitialize _ (λ fd s', 0 < fd ∧ dt_ok (glob s') ∧ rootDirPaths (glob s') = Some <$> dirs))| |done].
    + split; [rewrite Hw, Hc1; apply cache_ok_nil|by rewrite Hi, Hp, zapped_none|lia].
    + intros s3 fd Hfd Hr. split_and!; [done| |].
      * eapply rebuilt_ok, Hr. split; [rewrite Hw, Hc1; apply cache_ok_nil|by rewrite Hi, Hp, zapped_none|lia].
      * by destruct Hr as (? & ? & ? & ? & ? & ? & -> & _).
    + done.
Qed.

End Specs.

(** ** The properties *)

(** One turn of main's loop (select, a command typed by the user, a
    bufferful of events), for any kernel and any input: it ends, and the cache
    is well formed, the roots given up are counted and the inotify descriptor
    is valid when it does, also when the program exits in the middle of it. *)
Theorem main_turn_invariant {k} `{AddWatch} `{!EventSource k} argv0 fuel fd (s : st dtree) :
  0 < fd → dt_ok (glob s) →
  ((k + 1) * (Z.to_nat INOTIFY_READ_BUF_LEN + 1) + Z.to_nat INOTIFY_READ_BUF_LEN < fuel)%nat →
  (∃ fd' s', main_turn argv0 fuel fd s = (Ret fd', s') ∧ 0 < fd' ∧ dt_ok (glob s')) ∨
  (∃ t s', main_turn argv0 fuel fd s = (Stop t, s') ∧ dt_ok (glob s')).
Proof. intros Hfd Hok Hf. by eapply wp_run, wp_main_turn. Qed.


(** A user who types "l", then end of file; no events. *)
Definition user_os : os :=
  test_os (λ tr c,
    match c with
    | Cinotify_add_watch _ _ _ => ok (Z.of_nat (length (wcalls tr)) + 10)
    | Cinotify_init => ok 5
    | Cnftw _ => Reply 0 0 [] demo_tree
    | Clstat _ => Reply 0 0 [] [([], 16877)]
    | Cselect _ => Reply 1 0 [] [([], 0)]
    | Cread fd _ =>
        if fd =? 0 then match reads tr with O => Reply 2 0 (str "l" ++ [NL]) [] | _ => ok 0 end
        else fail EAGAIN
    | _ => ok 0
    end).

Lemma user_os_AddWatch : @AddWatch user_os.
Proof. split; [intros tr fd p mask; simpl; lia|by right]. Qed.

Lemma user_os_EventSource : @EventSource user_os 0.
Proof. intros tr fd n Hfd. simpl. destruct (Z.eqb_spec fd 0); [lia|by left]. Qed.

Theorem main_turn_witness :
  let o := user_os in
  (∃ fd' s', main_turn (str "dtree") (Z.to_nat 100000) 5 (init demo) = (Ret fd', s') ∧ 0 < fd' ∧ dt_ok (glob s')) ∨
  (∃ t s', main_turn (str "dtree") (Z.to_nat 100000) 5 (init demo) = (Stop t, s') ∧ dt_ok (glob s')).
Proof.
  intros o.
  refine (@main_turn_invariant 0 o user_os_AddWatch user_os_EventSource (str "dtree") (Z.to_nat 100000) 5
    (init demo) _ demo_ok _); [done|].
  unfold INOTIFY_READ_BUF_LEN, SIZEOF_INOTIFY_EVENT, NAME_MAX. lia.
Defined.


(** Option -d, or command d, without -l: the first event handled prints the
    cache to a NULL stream. *)
Theorem dump_without_log :
  let o := mv_os true in
  (main_option (str "dtree") ("d"%char, []);; processInotifyEvents 9 5) (init demo) =
    (Stop (Undefined "fprintf to a NULL stream"),
     snd ((main_option (str "dtree") ("d"%char, []);; processInotifyEvents 9 5) (init demo))).
Proof. by vm_compute. Qed.
